(* ===== verification/_CoqProject ===== *)
-Q . S2P
Prelude.v
PyStr.v
PyDict.v
Bits.v
AmdInteger.v
DelayConfig.v
Replay.v
Reduce.v
Dates.v
PySet.v
Json.v
Contracts.v
Results.v
RunContracts.v
RunLease.v
CampaignBudget.v
Suppression.v
Baseline.v
Triage.v
Regex.v
Sanitizer.v
Query.v
WarpSummary.v
Sha256.v
PyText.v
Experiments.v
SessionContracts.v
SanitizerResults.v
Policy.v
SessionValidation.v
Session.v
SessionLaws.v
SessionProperties.v
Equality.v
LocalDriver.v
RunSummaries.v
Catalog.v
Campaign.v
SessionStore.v
Distributed.v
TraceEvents.v
TraceSync.v
TraceEdges.v
AmdPacked.v
AmdLds.v
StressPlan.v
StressSearch.v
StressProperties.v
StressExperiment.v
Ratio.v
StressReports.v
StressExperimentProperties.v
Paths.v
Artifacts.v
TraceCapture.v
TraceExperiment.v
Hoare.v
TraceExperimentProperties.v
TraceAnalysis.v
TraceAnalysisProperties.v
SanitizerExperiment.v
SanitizerExperimentProperties.v
ReduceExperiment.v
ReduceExperimentProperties.v
