(* ===== verification/Prelude.v ===== *)
(** * CUTracer, verified: the root of the development

    CUTracer traces and perturbs GPU kernels (a C++/CUDA instrumentation
    library), and diagnoses what it sees (the Python package under
    src/python/cutracer and the agent scripts under src/agentic).  This library
    models the decision-making core of the Python code, component by component,
    and proves what makes each one correct.

    ** Parts of the program and how they meet

    - Traces.  The instrumentation writes records, one JSON value a line;
      [query] reads, filters, groups and summarises them; [isa/amdgcn] replays
      the integer arithmetic of a traced lane to find overflows and checks packed
      floating-point results; the memory-model audit (trace_edges.py) orders a
      trace's shared-memory accesses by the synchronisation it shows and reports
      the conflicting pairs no order covers.
    - Reproduction.  A delay configuration says where to perturb a kernel;
      [reduce] shrinks one that reproduces a race, asking an oracle (a replay of
      the program under test) about every candidate.
    - Diagnosis.  The [service] expands a workload catalog into a campaign,
      shards it, admits targets within budgets, takes a lease on each run,
      collects sanitizer and stress results, suppresses known findings, compares
      the rest with a stored baseline, and decides whether to finish, analyse, or
      call the evidence inconclusive.  An analysis is a session: a state machine
      that alternates a reasoner with guarded experiments (sanitizer runs, stress
      searches, trace captures and reductions, each run by an adapter that answers
      with evidence the session checks), driven in one process
      (runner.py) or by competing coordinators over a durable store
      (distributed.py, file_store.py), and summarised per run.

    ** Files

    Shared ground:
    - Prelude: exceptions as values ([res]), stateful code that can raise
      ([st]), list lemmas, the [cutracer] hint database.
    - PyStr, PyText, Regex, PyDict, PySet, Dates, Sha256: the Python primitives
      the code uses of strings, regular expressions, dicts, sorted sets of
      strings, calendar dates, and the digest that names artifacts.
    - Json: decoded payloads, floats, and the classes [JsonCodec] (encoding then
      decoding gives the value back) and its companions, which every contract
      implements and every store is proved against.  Equality: decidable
      equality of the contracts.
    - Bits: machine-width integer arithmetic.  Ratio: the report's ratios.
    - Hoare: weakest preconditions of stateful code that can raise, with their
      rules.  Paths: os.path and a disk of files, links and directories.

    Components, each with its data, its operations and their properties:
    - AmdInteger, isa/amdgcn/integer.py: instruction parsing, the effects of an
      instruction, and the replay [Lane.run] with its exact shadow values.
      AmdPacked, isa/amdgcn/packed.py: the packed FP32 decoder and checker.
      AmdLds, isa/amdgcn/lds.py: the decoder of local-data-share accesses.
    - StressPlan, stress/stress.py: the delay ladder, placements, the schedule of
      trials and their records.  StressSearch, the same file and watchdog.py: the
      whole search, its checkpoint and its resumption, over an oracle for the
      program under test.  StressProperties holds its theorems.  StressReports,
      the reports of a search.  StressExperiment, service/experiments/stress.py,
      the adapter around the search; StressExperimentProperties its theorems.
    - Artifacts, service/artifacts.py: file URIs, artifacts of local files, staging
      of verified bytes.
    - TraceCapture and TraceExperiment, service/experiments/trace.py: targeting and
      selection of captures, then the run of an experiment as a program over the
      machine ([Machine], the disk with the environment) and the run's state
      ([TraceRun]).  TraceAnalysis, service/trace_analysis.py: the batch analysis
      of its traces.  TraceExperimentProperties states what the session accepts and
      the contract an analysis must keep ([analysis_ok]); TraceAnalysisProperties
      proves that the batch analysis keeps it and composes the two.
    - SanitizerExperiment, compute_sanitizer/run.py and
      service/experiments/sanitizer.py: the run of the tool and the adapter around
      it; SanitizerExperimentProperties its theorems.
    - DelayConfig, reduce/config_mutator.py: the mutator that keeps a document
      and the points parsed from it in step.
    - Replay, reduce/reduce.py: [run_replay] and the check of a replayed
      kernel's identity.  Reduce, the same file: the linear and the bisecting
      reducer, confidence voting, temporary files.  ReduceExperiment,
      service/experiments/reduce.py and reduce/report.py, the adapter around the
      reducers; ReduceExperimentProperties its theorems.
    - Contracts, Results, Experiments, SessionContracts, service/contracts.py:
      the dataclasses of the wire format, with their checks and codecs; Results
      also has stress/retention.py.
    - RunContracts, service/run_contracts.py and file_run_store.py: run requests,
      control records, compare-and-swap.  RunLease, service/run_lease.py: the
      lease protocol as programs over atomic actions, in all interleavings.
    - CampaignBudget, service/campaign_budget.py: admission within budgets.
      Catalog, service/catalog.py and catalog_adapters.py: the workload catalog
      and its expansion.  Campaign, service/campaign.py and campaign_manifest.py:
      sampling, sharding, planning and the manifest.
    - Sanitizer, compute_sanitizer/parser.py: the report parser, line by line.
      SanitizerResults, service/sanitizer_results.py: what its records become.
    - Suppression, service/suppression.py and suppression_governance.py.
    - Baseline, service/baseline.py; the store is the class [BaselineStore] with
      its laws, implemented by the file store.  Triage, service/triage.py, is
      proved against that class.
    - Policy, service/policy.py: campaign policies and the experiment guard.
      SessionValidation, Session, service/session.py: the session's checks and
      its transition function over commands; SessionLaws and SessionProperties
      hold its invariants.  LocalDriver, service/runner.py, drives it.
    - RunSummaries, service/discovery_plan.py, run_summary.py and
      reconcile_policy.py.
    - SessionStore, service/storage.py and file_store.py: the store's contract
      as a class with its laws, and the file store that implements it.
      Distributed, service/distributed.py: coordinators over that contract, in
      all interleavings.
    - Query, query/reader.py, grouper.py and formatters.py.  WarpSummary,
      query/warp_summary.py, over the groups of Query.
    - TraceEvents, TraceSync, TraceEdges, trace_edges.py of the memory-model
      audit: events from records, synchronisation from events, and candidate
      edges from both.

    ** What the theorems show

    - Replay (AmdInteger): [replay_no_overflow_exact], without a recorded overflow
      the shadow values agree with the hardware's bits, modulo the width of the
      word, and a register's is the signed reading of its bits unless it is half
      of a 64-bit sum; [replay_refines_arch], the bits are those of a reference
      machine; [replay_words_wf], every word the replay made is on its heap with
      the kind, the reference and the range that belong together.  The lemma
      [run_effects_sound]: declared effects are sound.
    - Packed results (AmdPacked): [allowed_results_exact], the accepted words are
      the two roundings of the exact result, although the code rounds twice;
      [check_packed_exact], what is reported is exactly what no rounding gives.
    - Reduction (Replay, Reduce, ReduceExperiment): [reduce_bisect_minimal], the
      bisecting reducer ends with a configuration that triggers and from which no
      single point can go; [reduce_results_accepted], the experiment ends, the
      session accepts its results, and a reduced one rests on verified bytes; the
      lemmas [reduce_bisect_terminates], [reduced_by_bisection_is_minimal] (the
      composition) and [run_replay_interesting_sound] (what an interesting replay
      proves).
    - Leases (RunLease), over every interleaving: [lease_refines_atomic_steps],
      every write is one step of its thread's lease, whose guards held at the
      readings of the clock the thread made since it read the record;
      [lease_exclusive]; the lemma [lease_bounded_by_deadline].
    - Budgets and triage: [resource_budget_is_hard], what a plan admits stays
      within the limits, summed over the whole plan; [finish_only_on_proof].
      Lemmas of the same files: [baselines_advance_after_publication] (Triage),
      [triggering_config_stable] (Contracts), [baseline_diff_spec] (Baseline),
      [approval_iff_governed] (Suppression).
    - Queries, as lemmas: [trace_records_resolved], [grouper_streams] and
      [warp_summary_exact]; [truncated_summary_sound] is what a summary over
      truncated groups still gets right.
    - Stress searches: [resume_is_exact], a search stopped after any trial and
      resumed gives the result of one that was not; [triggering_is_evidence], the
      configuration it names is the file the run of one scheduled attempt wrote,
      in the world the attempts before it left, and that run showed the bug, with
      enabled points of that attempt's delay in the expected kernel;
      [stress_counts_exact], the counts it reports are those of its attempts.
    - Stress experiments: [stress_results_accepted], the session accepts every
      progress and result, but for one case that is stated;
      [clean_verdict_is_earned], a campaign without a reproduction ran in full; the
      lemma [stress_raises_only_the_unexpected].
    - Artifacts: [described_artifacts_stage], the artifact of a file leads back to
      its bytes whatever its name; [staging_is_verified], what is staged has the
      declared bytes.
    - Trace experiments: [targeting_is_exact] and [selected_captures_exact], what is
      captured is what was asked for, and a configuration's points that say whether
      they are on are traced exactly when they are; [trace_results_accepted], the session accepts
      every result and checkpoint, but for failures with a blank error;
      [trace_analysis_reports], the analysis keeps its contract and reports what
      the detectors gave, finding by finding and failure by failure, with a fair
      sample of the findings; [static_context_is_one_kernel].
    - Sanitizers: [racecheck_complete_accounts], a complete report accounts for the
      whole log; the lemma [checker_reads_only_sanitizer_lines];
      [sanitizer_results_accepted], the session accepts every result of a run, and a
      clean one is earned; the lemma [sanitizer_launch_is_isolated].
    - Sessions: [session_invariant] holds in every reachable state,
      [session_settles] from every state, [deliveries_are_retried_safely],
      [guard_accepts_only_fresh_experiments]; [local_driver_settles];
      [coordinators_lose_no_update] and [dispatched_only_when_durable] over the
      store's contract, which [file_store_keeps_contract] discharges.
    - Campaigns: [manifest_consistent] and [run_summary_exact].
    - The memory-model audit: [events_follow_their_warp]; [handshake_exact];
      [wait_outcome_sound], the outcome of a wait is the value of the predicate its
      own operand names; [linked_rows_are_ordered] and [edges_counted_exactly].

    ** Fuel and bounds

    - Retry loops keep the bound the code writes: eight attempts of a lease
      operation and of a compare-and-swap.
    - The bisecting reducer recurses on a list that shrinks or a granularity that
      grows: [ddmin_fuel], quadratic in the number of points, is enough for every
      input ([reduce_bisect_terminates]).
    - The local driver stops at the source's TRANSITION_LIMIT of 100; a session of
      any policy needs fewer ([local_driver_settles]).
    - Coordinator dispatch recurses in the source without a bound of its own; the
      argument [depth] is the interpreter's recursion limit and the safety
      theorems hold at every depth.
    - The audit looks at most MAX_LATER = 64 entries ahead and 32 instructions
      around a branch, as the code does, and reports the truncation.
    - The sample of findings takes one a pass: [sample_fuel], one more than the
      findings there are, is enough ([sample_findings_consume]).  The blocks of a
      cubin are entered once each: [reach_fuel] is enough ([reachable_exact]).
    - Everything else recurses on its data.  Integers are Python's, unbounded,
      except in the replay, where words are kept at 32 and 64 bits; floats are
      binary64, and FP32 words are read bit by bit in AmdPacked.

    ** What is not modelled

    - The C++ and CUDA sources, which are not Python, and the Triton kernels among
      the examples.
    - What only moves bytes or talks to processes: file reading and writing
      beyond the stores above, decompression, subprocesses, JSON text, log and
      message wording, command lines.  Code outside the repository (JSON
      decoding, the program under test) is a parameter wherever a definition
      needs it.
    - A temporary file that cannot be made or written by the reducer
      (Reduce.save_temp); NaN compared with itself inside two configurations,
      which Python may find equal by identity (SessionValidation).
    - Text is ASCII; a file URI's escapes are decoded byte by byte.  Values of a type the code does not declare for a field are
      outside the model ([IllTyped]).

    ** What is left

    - Detectors of data races (cutracer.analyze.fb) are not in the repository: the
      trace analysis takes them as a parameter.
    - The runner (runner.py, kernel_config.py), the discovery driver (service/kernel_discovery.py) and the hang debugger start
      processes and read their output; the experiments take them as parameters.
    - The reasoners call a language model; the prompt's projections, checkpoint
      markers, memo keys and reports only render the contracts modelled here.
    - Trace validation (validation/) runs third-party packages over whole files. *)
From stdpp Require Export base gmap sets list strings sorting pretty.
From Stdlib Require Export ZArith Lia.

(** ** Results: Python exceptions as values

    [res exn A] is what a Python call gives back: a value, or the exception it
    raised.  Exceptions keep their class; the text of the message is not
    modelled, except where the code branches on it; an artifact that cannot be
    verified gives its code, and a process that ran out of time its output. *)

Inductive exn : Type :=
| ValueError
| LookupError
| IndexError
| KeyError
| RuntimeError
| NotImplementedError
| OSError
| TypeError
| OverflowError
| AssertionError
| StructError
| ClickException
| ArtifactVerificationError (code : string)
| TimeoutExpired (stdout stderr : option string).

#[export] Instance exn_eq_dec : EqDecision exn.
Proof. solve_decision. Defined.

Inductive res (E A : Type) : Type :=
| Ok (a : A)
| Err (e : E).
Arguments Ok {E A} a.
Arguments Err {E A} e.

#[export] Instance res_ret {E} : MRet (res E) := fun A a => Ok a.
#[export] Instance res_bind {E} : MBind (res E) :=
  fun A B k m => match m with Ok a => k a | Err e => Err e end.
#[export] Instance res_fmap {E} : FMap (res E) :=
  fun A B f m => match m with Ok a => Ok (f a) | Err e => Err e end.

Definition is_ok {E A} (r : res E A) : bool :=
  match r with Ok _ => true | Err _ => false end.

Lemma bind_ok {E A B} (m : res E A) (f : A → res E B) b : m ≫= f = Ok b → ∃ a, m = Ok a ∧ f a = Ok b.
Proof. destruct m as [a|e]; [|done]. eauto. Qed.

(** [mapM] is pointwise. *)
Lemma mapM_Forall2 {E A B} (f : A → res E B) l k : mapM f l = Ok k ↔ Forall2 (λ a b, f a = Ok b) l k.
Proof.
  split.
  - revert k. induction l as [|a l IH]; cbn; intros k H; [injection H as <-; constructor|].
    apply bind_ok in H as (b & Hb & H). apply bind_ok in H as (r & Hr & H). injection H as <-.
    constructor; [done|by apply IH].
  - induction 1 as [|a b l k Hab _ IH]; cbn; [done|]. by rewrite Hab; cbn; rewrite IH.
Qed.

Lemma mapM_elem {E A B} (f : A → res E B) l k b :
  mapM f l = Ok k → b ∈ k → ∃ a, a ∈ l ∧ f a = Ok b.
Proof.
  intros H%mapM_Forall2 (i & Hi)%list_elem_of_lookup.
  destruct (Forall2_lookup_r _ _ _ _ _ H Hi) as (a & Ha & E'). exists a.
  split; [by eapply list_elem_of_lookup_2|done].
Qed.

Lemma mapM_image_of {E A B} (f : A → res E B) l k a :
  mapM f l = Ok k → a ∈ l → ∃ b, b ∈ k ∧ f a = Ok b.
Proof.
  intros H%mapM_Forall2 (i & Hi)%list_elem_of_lookup.
  destruct (Forall2_lookup_l _ _ _ _ _ H Hi) as (b & Hb & E'). exists b.
  split; [by eapply list_elem_of_lookup_2|done].
Qed.

(** It answers when it answers everywhere. *)
Lemma mapM_total {E A B} (f : A → res E B) l : (∀ a, a ∈ l → ∃ b, f a = Ok b) → ∃ k, mapM f l = Ok k.
Proof.
  induction l as [|a l IH]; intros H; [by exists []|]. destruct (H a) as [b Hb]; [by left|].
  destruct IH as [k Hk]; [intros x Hx; apply H; by right|]. exists (b :: k). cbn. by rewrite Hb; cbn; rewrite Hk.
Qed.

(** ** Stateful code that can raise

    A Python exception does not roll back the mutations made before it, so the
    state survives on both outcomes. *)

Definition st (S E A : Type) : Type := S → S * res E A.

#[export] Instance st_ret {S E} : MRet (st S E) := fun A a s => (s, Ok a).
#[export] Instance st_bind {S E} : MBind (st S E) :=
  fun A B k m s =>
    match m s with
    | (s', Ok a) => k a s'
    | (s', Err e) => (s', Err e)
    end.

Definition st_get {S E} : st S E S := fun s => (s, Ok s).
Definition st_put {S E} (s : S) : st S E () := fun _ => (s, Ok ()).
Definition st_modify {S E} (f : S → S) : st S E () := fun s => (f s, Ok ()).
Definition st_raise {S E A} (e : E) : st S E A := fun s => (s, Err e).
Definition st_lift {S E A} (r : res E A) : st S E A := fun s => (s, r).

Lemma st_bind_ok {S E A B} (m : st S E A) (k : A → st S E B) s s' b :
  (m ≫= k) s = (s', Ok b) ↔
  ∃ s1 a, m s = (s1, Ok a) ∧ k a s1 = (s', Ok b).
Proof.
  unfold mbind, st_bind. destruct (m s) as [s1 [a|e]]; naive_solver.
Qed.

Lemma st_bind_err {S E A B} (m : st S E A) (k : A → st S E B) s s' e :
  (m ≫= k) s = (s', Err e) ↔
  m s = (s', Err e) ∨
  ∃ s1 a, m s = (s1, Ok a) ∧ k a s1 = (s', Err e).
Proof.
  unfold mbind, st_bind. destruct (m s) as [s1 [a|e']]; naive_solver.
Qed.

(** A predicate on states that every outcome of a computation preserves. *)
Definition preserves {S E A} (P : S → Prop) (m : st S E A) : Prop :=
  ∀ s s' r, m s = (s', r) → P s → P s'.

Lemma preserves_ret {S E A} (P : S → Prop) (a : A) :
  preserves P (mret a : st S E A).
Proof. intros s s' r [= <- <-]; done. Qed.

Lemma preserves_raise {S E A} (P : S → Prop) (e : E) :
  preserves P (st_raise e : st S E A).
Proof. intros s s' r [= <- <-]; done. Qed.

Lemma preserves_lift {S E A} (P : S → Prop) (x : res E A) :
  preserves P (st_lift x : st S E A).
Proof. intros s s' r [= <- <-]; done. Qed.

Lemma preserves_get {S E} (P : S → Prop) : preserves P (st_get : st S E S).
Proof. intros s s' r [= <- <-]; done. Qed.

Lemma preserves_bind {S E A B} (P : S → Prop) (m : st S E A) (k : A → st S E B) :
  preserves P m → (∀ a, preserves P (k a)) → preserves P (m ≫= k).
Proof.
  unfold preserves, mbind, st_bind. intros Hm Hk s s' r Hrun HP.
  destruct (m s) as [s1 [a|e]] eqn:Em; [eauto|].
  injection Hrun as <- <-. eauto.
Qed.

Create HintDb cutracer discriminated.
#[export] Hint Constants Opaque : cutracer.
#[export] Hint Resolve preserves_ret preserves_raise preserves_lift preserves_get
  preserves_bind : cutracer.

(** Case analysis on the outermost match or bind of a hypothesis. *)
Ltac st_inv H :=
  repeat first
    [ apply st_bind_ok in H as (? & ? & ? & H)
    | progress simplify_eq ].

(** ** Lists *)

Lemma concat_fmap {A B} (f : A → B) (ls : list (list A)) :
  fmap (M:=list) f (concat ls) = concat (fmap (M:=list) (fmap (M:=list) f) ls).
Proof. induction ls as [|l ls IH]; simpl; [done|]. by rewrite fmap_app, IH. Qed.

Lemma elem_of_rows {A} (x : A) (ls : list (list A)) : x ∈ concat ls ↔ ∃ l, x ∈ l ∧ l ∈ ls.
Proof. rewrite list_elem_of_In, in_concat. setoid_rewrite list_elem_of_In. naive_solver. Qed.

(** Filtering a duplicate-free list by membership in a subsequence gives it back. *)
Lemma filter_sublist {A} (P : A → Prop) `{∀ x, Decision (P x)} (k l : list A) :
  NoDup l → k `sublist_of` l → (∀ x, x ∈ l → P x ↔ x ∈ k) → filter P l = k.
Proof.
  intros Hnd Hsub. induction Hsub as [|x k l Hsub IH|x k l Hsub IH]; intros HP; [done|..];
    apply NoDup_cons in Hnd as [Hx Hnd].
  - rewrite filter_cons_True by (apply HP; by left). f_equal. apply IH; [done|].
    intros y Hy. rewrite HP by by right. rewrite elem_of_cons. naive_solver.
  - rewrite filter_cons_False.
    + apply IH; [done|]. intros y Hy. apply HP. by right.
    + rewrite HP by by left. intros Hin. apply Hx. by eapply elem_of_sublist.
Qed.

Lemma sublist_filter_mono {A} (P : A → Prop) `{∀ x, Decision (P x)} (k l : list A) :
  k `sublist_of` l → filter P k `sublist_of` filter P l.
Proof.
  induction 1 as [|x k l _ IH|x k l _ IH]; [done|..]; rewrite ?filter_cons; repeat case_decide; try done.
  - by constructor.
  - by apply sublist_cons.
Qed.

Lemma filter_nil_iff {A} (P : A → Prop) `{∀ x, Decision (P x)} (l : list A) :
  filter P l = [] ↔ ∀ x, x ∈ l → ¬ P x.
Proof.
  induction l as [|x l IH].
  - split; [intros _ y Hy; by apply elem_of_nil in Hy|done].
  - rewrite filter_cons. case_decide as Hx.
    + split; [done|]. intros Hl. by destruct (Hl x ltac:(by left)).
    + rewrite IH. split; [|intros Hl y Hy; apply Hl; by right].
      intros Hl y [->|Hy]%elem_of_cons; [done|by apply Hl].
Qed.

Lemma fmap_nil_iff {A B} (f : A → B) (l : list A) : f <$> l = [] ↔ l = [].
Proof. by destruct l. Qed.

Lemma concat_fmap_nil_iff {A B} (f : A → list B) (l : list A) :
  concat (f <$> l) = [] ↔ ∀ x, x ∈ l → f x = [].
Proof.
  rewrite concat_nil_Forall, Forall_fmap, Forall_forall. done.
Qed.
