(* ===== verification/PyStr.v ===== *)
(** Python string and integer-literal primitives used by the decoders.

    A Python [str] is modelled by [list ascii] (conversion from [string] at the
    boundary), so text is assumed to be ASCII; every function below is the
    documented behaviour of the Python primitive it is named after. *)
From S2P Require Import Prelude.
From Stdlib Require Import Ascii.
From Stdlib Require String.
Local Open Scope Z_scope.

Definition chars (s : string) : list ascii := Stdlib.Strings.String.list_ascii_of_string s.
Definition str (l : list ascii) : string := Stdlib.Strings.String.string_of_list_ascii l.

Definition code (c : ascii) : Z := Z.of_nat (nat_of_ascii c).

(** [str.isspace] on ASCII. *)
Definition is_space (c : ascii) : bool :=
  let n := code c in ((9 <=? n) && (n <=? 13)) || ((28 <=? n) && (n <=? 32)).

Definition is_digit (c : ascii) : bool :=
  let n := code c in (48 <=? n) && (n <=? 57).

Fixpoint lstrip (l : list ascii) : list ascii :=
  match l with
  | [] => []
  | c :: r => if is_space c then lstrip r else l
  end.
Definition rstrip (l : list ascii) : list ascii := rev (lstrip (rev l)).
Definition strip (l : list ascii) : list ascii := rstrip (lstrip l).

(** [l.partition(sep)] for a one-character separator: text before and after. *)
Fixpoint partition_at (sep : ascii) (l : list ascii) : list ascii * list ascii :=
  match l with
  | [] => ([], [])
  | c :: r =>
      if Ascii.eqb c sep then ([], r)
      else let '(a, b) := partition_at sep r in (c :: a, b)
  end.

(** [l.split()]: maximal runs of non-space characters. *)
Fixpoint split_ws_from (cur : list ascii) (l : list ascii) : list (list ascii) :=
  match l with
  | [] => match cur with [] => [] | _ => [rev cur] end
  | c :: r =>
      if is_space c then
        match cur with [] => split_ws_from [] r | _ => rev cur :: split_ws_from [] r end
      else split_ws_from (c :: cur) r
  end.
Definition split_ws (l : list ascii) : list (list ascii) := split_ws_from [] l.

(** Prefix, suffix and substring tests ([startswith], [endswith], [in]). *)
Fixpoint starts_with (p l : list ascii) : bool :=
  match p, l with
  | [], _ => true
  | a :: p', b :: l' => Ascii.eqb a b && starts_with p' l'
  | _ :: _, [] => false
  end.
Definition ends_with (p l : list ascii) : bool := starts_with (rev p) (rev l).
Fixpoint contains (p l : list ascii) : bool :=
  starts_with p l || match l with [] => false | _ :: r => contains p r end.

(** Decimal digits read as a number. *)
Definition dec_value (l : list ascii) : Z :=
  fold_left (fun a c => 10 * a + (code c - 48)) l 0.

(** [int(s, 0)]: sign, base prefix, digits with single underscores between. *)
Definition digit_value (c : ascii) : option Z :=
  let n := code c in
  if (48 <=? n) && (n <=? 57) then Some (n - 48)
  else if (97 <=? n) && (n <=? 122) then Some (n - 87)
  else if (65 <=? n) && (n <=? 90) then Some (n - 55)
  else None.

(** Digits of a base: every underscore stands between two digits. *)
Fixpoint digits_value (base acc : Z) (after_digit : bool) (l : list ascii) : option Z :=
  match l with
  | [] => if after_digit then Some acc else None
  | c :: r =>
      if Ascii.eqb c "_"%char then
        if after_digit then digits_value base acc false r else None
      else match digit_value c with
           | Some d => if d <? base then digits_value base (base * acc + d) true r else None
           | None => None
           end
  end.

Definition unsigned0 (l : list ascii) : option Z :=
  match l with
  | z :: x :: r =>
      if Ascii.eqb z "0"%char then
        let base := if Ascii.eqb x "x"%char || Ascii.eqb x "X"%char then 16
                    else if Ascii.eqb x "o"%char || Ascii.eqb x "O"%char then 8
                    else if Ascii.eqb x "b"%char || Ascii.eqb x "B"%char then 2
                    else 0 in
        if 0 <? base then
          (* one underscore may follow the base prefix *)
          match r with [] => None | _ => digits_value base 0 true r end
        else (* a decimal literal that starts with 0 must be all zeros *)
          match digits_value 10 0 false l with
          | Some 0 => Some 0
          | _ => None
          end
      else digits_value 10 0 false l
  | _ => digits_value 10 0 false l
  end.

Definition int0 (l : list ascii) : option Z :=
  match strip l with
  | c :: r =>
      if Ascii.eqb c "-"%char then Z.opp <$> unsigned0 r
      else if Ascii.eqb c "+"%char then unsigned0 r
      else unsigned0 (c :: r)
  | [] => None
  end.

(** The decimal digits at the front of a text, and what follows them. *)
Fixpoint take_digits (l : list ascii) : list ascii * list ascii :=
  match l with
  | [] => ([], [])
  | c :: r => if is_digit c then let '(d, t) := take_digits r in (c :: d, t) else ([], l)
  end.

(** [str.lower] on ASCII. *)
Definition lower_char (c : ascii) : ascii :=
  let n := code c in if (65 <=? n) && (n <=? 90) then ascii_of_nat (Z.to_nat (n + 32)) else c.
Definition lower (l : list ascii) : list ascii := lower_char <$> l.

(** [int(s)]: a decimal literal with an optional sign. *)
Definition int10 (l : list ascii) : option Z :=
  match strip l with
  | c :: r =>
      if Ascii.eqb c "-"%char then Z.opp <$> digits_value 10 0 false r
      else if Ascii.eqb c "+"%char then digits_value 10 0 false r
      else digits_value 10 0 false (c :: r)
  | [] => None
  end.

(** [str.upper] on ASCII. *)
Definition upper_char (c : ascii) : ascii :=
  let n := code c in if (97 <=? n) && (n <=? 122) then ascii_of_nat (Z.to_nat (n - 32)) else c.
Definition upper (l : list ascii) : list ascii := upper_char <$> l.

(** [l.split(sep)] for a one-character separator. *)
Fixpoint split_on (sep : ascii) (l : list ascii) : list (list ascii) :=
  match l with
  | [] => [[]]
  | c :: r =>
      if Ascii.eqb c sep then [] :: split_on sep r
      else match split_on sep r with
           | a :: rest => (c :: a) :: rest
           | [] => [[c]]
           end
  end.

(** [s.splitlines()]: every ASCII line boundary, [\r\n] as one. *)
Definition is_line_break (c : ascii) : bool :=
  let n := code c in ((10 <=? n) && (n <=? 13)) || ((28 <=? n) && (n <=? 30)).
Fixpoint splitlines_from (cur : list ascii) (l : list ascii) : list (list ascii) :=
  match l with
  | [] => match cur with [] => [] | _ => [rev cur] end
  | c :: r =>
      if is_line_break c then
        rev cur ::
        match r with
        | d :: r' =>
            if Ascii.eqb c "013"%char && Ascii.eqb d "010"%char
            then splitlines_from [] r' else splitlines_from [] r
        | [] => splitlines_from [] r
        end
      else splitlines_from (c :: cur) r
  end.
Definition splitlines (l : list ascii) : list (list ascii) := splitlines_from [] l.

(** The text after the first occurrence of [p] ([s.find], sliced). *)
Fixpoint after_first (p l : list ascii) : option (list ascii) :=
  if starts_with p l then Some (drop (length p) l)
  else match l with [] => None | _ :: r => after_first p r end.

(** [sep.join(parts)]. *)
Fixpoint join_text (sep : list ascii) (parts : list (list ascii)) : list ascii :=
  match parts with
  | [] => []
  | [a] => a
  | a :: r => a ++ sep ++ join_text sep r
  end.

(** ** Blank text *)

Lemma chars_str l : chars (str l) = l.
Proof. apply Stdlib.Strings.String.list_ascii_of_string_of_list_ascii. Qed.

Lemma chars_app a b : chars (a +:+ b) = chars a ++ chars b.
Proof. unfold chars. induction a as [|c a IH]; [done|]. exact (f_equal (cons c) IH). Qed.

Lemma lstrip_nil l : lstrip l = [] → Forall (λ c, is_space c = true) l.
Proof.
  induction l as [|c l IH]; [constructor|]. cbn. destruct (is_space c) eqn:Ec; [|done].
  intros H. constructor; [done|by apply IH].
Qed.

(** Text with a character that is no space is not blank. *)
Lemma strip_not_nil l c : c ∈ l → is_space c = false → strip l ≠ [].
Proof.
  intros Hc Hs H. unfold strip, rstrip in H. apply (f_equal (@rev ascii)) in H. rewrite rev_involutive in H.
  apply lstrip_nil in H. assert (Forall (λ c, is_space c = true) (lstrip l)) as Hl.
  { rewrite Forall_forall in H |- *. intros x Hx. apply H, list_elem_of_In, in_rev.
    rewrite rev_involutive. by apply list_elem_of_In. }
  assert (lstrip l = []) as Hn.
  { clear -Hl. induction l as [|x l IH]; [done|]. cbn in *. destruct (is_space x) eqn:Ex; [by apply IH|].
    apply Forall_cons in Hl as [Hl _]. by rewrite Hl in Ex. }
  apply lstrip_nil in Hn. rewrite Forall_forall in Hn. specialize (Hn c Hc). by rewrite Hs in Hn.
Qed.
