(* ===== verification/PyDict.v ===== *)
(** Python dictionaries: insertion-ordered association lists.

    Iteration order is observable in the modelled code, so a [dict] is a list of
    key/value pairs; [dict_set] overwrites in place or appends, as Python does. *)
From S2P Require Import Prelude.

Section Dict.
Context {K V : Type} `{EqDecision K}.

Definition dict : Type := list (K * V).

Fixpoint dict_get (d : dict) (k : K) : option V :=
  match d with
  | [] => None
  | (k', v) :: r => if decide (k = k') then Some v else dict_get r k
  end.

Fixpoint dict_set (d : dict) (k : K) (v : V) : dict :=
  match d with
  | [] => [(k, v)]
  | (k', v') :: r => if decide (k = k') then (k, v) :: r else (k', v') :: dict_set r k v
  end.

(** [d[k] = f(d.get(k))]: the update every accumulator in the code uses. *)
Definition dict_upd (d : dict) (k : K) (f : option V → V) : dict :=
  dict_set d k (f (dict_get d k)).

Definition dict_wf (d : dict) : Prop := NoDup d.*1.

Lemma dict_get_In d k v : dict_get d k = Some v → (k, v) ∈ d.
Proof.
  induction d as [|[k' v'] d IH]; simpl; [done|].
  case_decide as E; [intros [= ->]; subst; by left|intros H; right; auto].
Qed.

Lemma dict_get_None d k : dict_get d k = None ↔ k ∉ d.*1.
Proof.
  induction d as [|[k' v'] d IH]; simpl; [split; [intros _; apply not_elem_of_nil|done]|].
  rewrite not_elem_of_cons. case_decide; naive_solver.
Qed.

Lemma dict_wf_get d k v : dict_wf d → (k, v) ∈ d → dict_get d k = Some v.
Proof.
  unfold dict_wf. induction d as [|[k' v'] d IH]; simpl; intros Hnd Hin; [set_solver|].
  apply NoDup_cons in Hnd as [Hk' Hnd]. apply elem_of_cons in Hin as [[= -> ->]|Hin].
  - by rewrite decide_True.
  - rewrite decide_False; [auto|]. intros ->. apply Hk', list_elem_of_fmap. by exists (k', v).
Qed.

Lemma dict_get_set_eq d k v : dict_get (dict_set d k v) k = Some v.
Proof.
  induction d as [|[k' v'] d IH]; simpl; [by rewrite decide_True|].
  case_decide as E; simpl; [by rewrite decide_True|by rewrite decide_False].
Qed.

Lemma dict_get_set_ne d k k' v : k ≠ k' → dict_get (dict_set d k v) k' = dict_get d k'.
Proof.
  intros Hne. induction d as [|[k2 v2] d IH]; simpl; [by rewrite decide_False|].
  destruct (decide (k = k2)) as [<-|]; simpl; [|by rewrite IH].
  by rewrite !decide_False by congruence.
Qed.

Lemma dict_keys_set d k v :
  (dict_set d k v).*1 = if decide (k ∈ d.*1) then d.*1 else d.*1 ++ [k].
Proof.
  induction d as [|[k' v'] d IH].
  - rewrite decide_False; [done|apply not_elem_of_nil].
  - cbn [dict_set]. rewrite !fmap_cons. destruct (decide (k = k')) as [<-|].
    + rewrite decide_True; [done|by left].
    + rewrite fmap_cons, IH. cbn [fst].
      destruct (decide (k ∈ d.*1)); [rewrite decide_True|rewrite decide_False];
        rewrite ?elem_of_cons; naive_solver.
Qed.

Lemma dict_wf_set d k v : dict_wf d → dict_wf (dict_set d k v).
Proof.
  unfold dict_wf. rewrite dict_keys_set. case_decide; [done|]. intros Hnd.
  apply NoDup_app. split_and!; [done|set_solver|apply NoDup_singleton].
Qed.

(** [d.pop(k, None)] *)
Definition dict_pop (d : dict) (k : K) : dict := List.filter (λ e, negb (bool_decide (e.1 = k))) d.

Lemma dict_get_pop d k k' : dict_get (dict_pop d k) k' = if decide (k = k') then None else dict_get d k'.
Proof.
  unfold dict_pop. induction d as [|[k1 v1] d IH]; cbn; [by case_decide|].
  case_bool_decide; cbn; repeat case_decide; simplify_eq; done.
Qed.

Lemma dict_wf_pop d k : dict_wf d → dict_wf (dict_pop d k).
Proof.
  unfold dict_wf, dict_pop. induction d as [|[k1 v1] d IH]; cbn; [done|].
  intros [Hk Hd]%NoDup_cons. case_bool_decide; cbn; [by apply IH|]. constructor; [|by apply IH].
  intros (e & He & Hin)%list_elem_of_fmap. apply Hk, list_elem_of_fmap. exists e. split; [done|].
  apply list_elem_of_In, filter_In in Hin as [Hin _]. by apply list_elem_of_In.
Qed.

Lemma dict_get_upd d k f k' :
  dict_get (dict_upd d k f) k' =
  if decide (k = k') then Some (f (dict_get d k)) else dict_get d k'.
Proof.
  unfold dict_upd. case_decide as E; [subst; apply dict_get_set_eq|by apply dict_get_set_ne].
Qed.

(** Overwriting an existing key of a well-formed dict changes that entry only. *)
Lemma dict_set_map d k v :
  dict_wf d → k ∈ d.*1 →
  dict_set d k v = (λ e : K * V, if decide (e.1 = k) then (k, v) else e) <$> d.
Proof.
  unfold dict_wf. induction d as [|[k' v'] d IH]; simpl; intros Hnd Hk; [set_solver|].
  apply NoDup_cons in Hnd as [Hk' Hnd]. case_decide as E.
  - subst. rewrite decide_True by done. f_equal. symmetry.
    rewrite <- (list_fmap_id d) at 2. apply list_fmap_ext. intros i [k2 v2] Hi. simpl.
    apply decide_False. intros ->. apply Hk', list_elem_of_fmap.
    exists (k', v2). split; [done|]. by eapply list_elem_of_lookup_2.
  - rewrite (decide_False (P := k' = k)) by done. f_equal. apply IH; [done|set_solver].
Qed.

(** A dict comprehension: later entries win. *)
Definition dict_of (l : list (K * V)) : dict := fold_left (λ d e, dict_set d e.1 e.2) l [].

Lemma dict_of_from l d k v :
  dict_get (fold_left (λ d e, dict_set d e.1 e.2) l d) k = Some v → (k, v) ∈ l ∨ dict_get d k = Some v.
Proof.
  revert d. induction l as [|[k' v'] l IH]; intros d; cbn; [by right|]. intros H.
  destruct (IH _ H) as [Hl|Hd]; [left; by right|]. destruct (decide (k' = k)) as [<-|Hne].
  - rewrite dict_get_set_eq in Hd. injection Hd as <-. left. by left.
  - rewrite dict_get_set_ne in Hd by done. by right.
Qed.

Lemma dict_of_In l k v : dict_get (dict_of l) k = Some v → (k, v) ∈ l.
Proof. intros [H|H]%dict_of_from; [done|done]. Qed.

Lemma dict_of_has_from l d k :
  k ∈ l.*1 ∨ k ∈ d.*1 → ∃ v, dict_get (fold_left (λ d e, dict_set d e.1 e.2) l d) k = Some v.
Proof.
  revert d. induction l as [|[k' v'] l IH]; intros d; cbn.
  - intros [H|H]; [by apply not_elem_of_nil in H|]. destruct (dict_get d k) as [v|] eqn:E; [by exists v|].
    by apply dict_get_None in E.
  - intros H. apply IH. rewrite dict_keys_set. rewrite elem_of_cons in H.
    destruct (decide (k' ∈ d.*1)); [set_solver|]. rewrite elem_of_app, list_elem_of_singleton. naive_solver.
Qed.

Lemma dict_of_has l k : k ∈ l.*1 → ∃ v, dict_get (dict_of l) k = Some v.
Proof. intros H. apply dict_of_has_from. by left. Qed.

Lemma dict_of_NoDup l : NoDup l.*1 → dict_of l = l.
Proof.
  unfold dict_of. intros H.
  assert (∀ d : dict, (∀ k, k ∈ l.*1 → k ∉ d.*1) → fold_left (λ d e, dict_set d e.1 e.2) l d = d ++ l) as Hgen.
  2: { rewrite Hgen; [done|]. intros k _ Hk. by apply not_elem_of_nil in Hk. }
  induction l as [|[k v] l IH]; intros d Hd; [by rewrite app_nil_r|].
  cbn in H. apply NoDup_cons in H as [Hk H]. cbn [fold_left fst snd].
  assert (dict_set d k v = d ++ [(k, v)]) as ->.
  { assert (k ∉ d.*1) as Hn by (apply Hd; by left). clear -Hn.
    induction d as [|[k' v'] d IH]; [done|]. cbn in *. apply not_elem_of_cons in Hn as [Hne Hn].
    rewrite decide_False by done. by rewrite IH. }
  rewrite IH; [by rewrite <- app_assoc|done|].
  intros x Hx Hin. rewrite fmap_app in Hin. apply elem_of_app in Hin as [Hin|Hin].
  - apply (Hd x); [by right|done].
  - apply list_elem_of_singleton in Hin as ->. done.
Qed.
End Dict.
Arguments dict : clear implicits.

#[export] Hint Resolve dict_wf_set : cutracer.
