(* ===== verification/Bits.v ===== *)
(** Machine-width integer facts: masks, halves of 64-bit values, two's-complement
    readings, and congruence modulo a power of two with its setoid instances. *)
From S2P Require Import Prelude.
Local Open Scope Z_scope.

#[global] Arguments Z.shiftl : simpl never.
#[global] Arguments Z.shiftr : simpl never.
#[global] Arguments Z.land : simpl never.
#[global] Arguments Z.lor : simpl never.
#[global] Arguments Z.pow : simpl never.
#[global] Arguments Z.modulo : simpl never.
#[global] Arguments Z.div : simpl never.

(** ** Congruence modulo [n] *)

Definition eqm (n a b : Z) : Prop := a mod n = b mod n.

#[export] Instance eqm_equiv n : Equivalence (eqm n).
Proof. unfold eqm. split; congruence. Qed.

#[export] Instance eqm_add n : Proper (eqm n ==> eqm n ==> eqm n) Z.add.
Proof. intros a a' Ha b b' Hb. unfold eqm in *. by rewrite Zplus_mod, Ha, Hb, <- Zplus_mod. Qed.

#[export] Instance eqm_mul n : Proper (eqm n ==> eqm n ==> eqm n) Z.mul.
Proof. intros a a' Ha b b' Hb. unfold eqm in *. by rewrite Zmult_mod, Ha, Hb, <- Zmult_mod. Qed.

Lemma eqm_mod n a : eqm n (a mod n) a.
Proof. unfold eqm. apply Zmod_mod. Qed.

Lemma eqm_add_mul n a k : eqm n (a + k * n) a.
Proof. unfold eqm. by rewrite Z_mod_plus_full. Qed.

Lemma eqm_sub_self n a : eqm n (a - n) a.
Proof. replace (a - n) with (a + (-1) * n) by lia. apply eqm_add_mul. Qed.

Lemma eqm_shiftl n k a b : 0 ≤ k → eqm n a b → eqm n (Z.shiftl a k) (Z.shiftl b k).
Proof. intros Hk H. rewrite !Z.shiftl_mul_pow2 by done. by rewrite H. Qed.

Lemma eqm_small n a b : 0 ≤ a < n → 0 ≤ b < n → eqm n a b → a = b.
Proof. unfold eqm. intros Ha Hb. by rewrite !Z.mod_small. Qed.

Lemma eqm_divide m n a b : (m | n) → eqm n a b → eqm m a b.
Proof.
  intros [k ->] H. unfold eqm in *.
  destruct (Z.eq_dec m 0) as [->|Hm]; [by rewrite Z.mul_0_r in H|].
  destruct (Z.eq_dec k 0) as [->|Hk]; [rewrite Z.mul_0_l, !Zmod_0_r in H; by subst|].
  rewrite (Z.div_mod a (k * m)), (Z.div_mod b (k * m)) by nia. rewrite H.
  rewrite <- !Z.mul_assoc, !(Z.mul_comm k), <- !Z.mul_assoc.
  rewrite !(Z.add_comm (m * _)), !(Z.mul_comm m). by rewrite !Z_mod_plus_full.
Qed.

(** ** Masks and halves *)

Lemma mask_mod v k : 0 ≤ k → Z.land v (Z.shiftl 1 k - 1) = v mod 2 ^ k.
Proof.
  intros Hk. rewrite Z.shiftl_1_l, <- Z.land_ones by done.
  f_equal. rewrite Z.ones_equiv. lia.
Qed.

Lemma lor_shiftl a b k :
  0 ≤ k → 0 ≤ a < 2 ^ k → Z.lor a (Z.shiftl b k) = a + b * 2 ^ k.
Proof.
  intros Hk Ha.
  assert (Z.land a (Z.shiftl b k) = 0) as Hd.
  { apply Z.bits_inj_iff. intros i. rewrite Z.land_spec, Z.bits_0.
    destruct (Z.lt_ge_cases i k).
    - rewrite Z.shiftl_spec_low by done. by rewrite andb_false_r.
    - destruct (Z.eq_dec a 0) as [->|]; [by rewrite Z.bits_0|].
      rewrite Z.bits_above_log2; [done|lia|].
      apply Z.log2_lt_pow2; [lia|]. eapply Z.lt_le_trans; [apply Ha|].
      apply Z.pow_le_mono_r; lia. }
  rewrite <- Z.shiftl_mul_pow2 by done.
  by rewrite Z.add_nocarry_lxor, Z.lxor_lor by done.
Qed.

(** [x >> k] is zero exactly below [2 ^ k], for a nonnegative [x]. *)
Lemma shiftr_zero x k : 0 ≤ k → 0 ≤ x → (Z.shiftr x k =? 0) = (x <? 2 ^ k).
Proof.
  intros Hk Hx. rewrite Z.shiftr_div_pow2 by done.
  assert (0 < 2 ^ k) by (apply Z.pow_pos_nonneg; lia).
  destruct (Z.ltb_spec x (2 ^ k)).
  - rewrite Z.div_small by lia. done.
  - apply Z.eqb_neq. assert (1 ≤ x / 2 ^ k); [|lia].
    apply Z.div_le_lower_bound; lia.
Qed.

(** Splitting a value into a low word and the word above it. *)
Lemma split_halves v k j :
  0 ≤ k → 0 ≤ j →
  v mod 2 ^ k + 2 ^ k * ((v / 2 ^ k) mod 2 ^ j) = v mod 2 ^ (k + j).
Proof.
  intros Hk Hj. rewrite Z.pow_add_r by done.
  assert (0 < 2 ^ k) by (apply Z.pow_pos_nonneg; lia).
  assert (0 < 2 ^ j) by (apply Z.pow_pos_nonneg; lia).
  rewrite Z.rem_mul_r by lia. lia.
Qed.

Lemma land_range a b k : 0 ≤ k → 0 ≤ a < 2 ^ k → 0 ≤ b → 0 ≤ Z.land a b < 2 ^ k.
Proof.
  intros Hk Ha Hb. split; [apply Z.land_nonneg; lia|].
  rewrite <- (Z.mod_small a (2 ^ k)) by done.
  rewrite <- Z.land_ones by done.
  rewrite <- Z.land_assoc, (Z.land_comm (Z.ones k)), Z.land_assoc, Z.land_ones by done.
  apply Z.mod_pos_bound. apply Z.pow_pos_nonneg; lia.
Qed.

Lemma lor_range a b k : 0 ≤ k → 0 ≤ a < 2 ^ k → 0 ≤ b < 2 ^ k → 0 ≤ Z.lor a b < 2 ^ k.
Proof.
  intros Hk Ha Hb. split; [apply Z.lor_nonneg; lia|].
  destruct (Z.eq_dec (Z.lor a b) 0) as [->|]; [apply Z.pow_pos_nonneg; lia|].
  apply Z.log2_lt_pow2; [pose proof (Z.lor_nonneg a b); lia|].
  rewrite Z.log2_lor by lia.
  apply Z.max_lub_lt.
  - destruct (Z.eq_dec a 0) as [->|]; [|apply Z.log2_lt_pow2; lia].
    simpl. destruct (Z.eq_dec k 0) as [->|]; [|lia].
    assert (b = 0) by (rewrite Z.pow_0_r in Hb; lia). subst. done.
  - destruct (Z.eq_dec b 0) as [->|]; [|apply Z.log2_lt_pow2; lia].
    simpl. destruct (Z.eq_dec k 0) as [->|]; [|lia].
    assert (a = 0) by (rewrite Z.pow_0_r in Ha; lia). subst. done.
Qed.

Lemma land_mod_range v n : 0 < n → 0 ≤ v mod n < n.
Proof. intros. by apply Z.mod_pos_bound. Qed.
