(* ===== verification/AmdInteger.v ===== *)
(** AMDGCN integer replay: src/python/cutracer/isa/amdgcn/integer.py.

    The operand and instruction parsers ([registers], [split], [immediate],
    [effects]) and the [Lane] replay machine, which computes every 32-bit word
    twice: with the hardware's wrapping arithmetic and with exact integers.

    [Word] objects are compared by identity in the source ([high.ref is low]),
    so a word carries the identity [w_id] it was allocated with, which is its
    place on the lane's [heap] of the words made so far. *)
From S2P Require Import Prelude.
From S2P Require Import PyStr.
From S2P Require Import Bits.
From Stdlib Require Import Ascii.
Local Open Scope Z_scope.

(** ** Operand and instruction syntax *)

Definition MASK32 : Z := Z.shiftl 1 32 - 1.
Definition MASK64 : Z := Z.shiftl 1 64 - 1.

Definition expect (c : ascii) (l : list ascii) : option (list ascii) :=
  match l with
  | d :: r => if Ascii.eqb d c then Some r else None
  | [] => None
  end.

Definition digits1 (l : list ascii) : option (list ascii * list ascii) :=
  match take_digits l with
  | ([], _) => None
  | p => Some p
  end.

(** [_REGISTER.fullmatch]: one register, or a class and a bracketed range. *)
Definition registers (token : string) : option (list string) :=
  match chars token with
  | [] => None
  | c :: rest =>
      if Ascii.eqb c "s"%char || Ascii.eqb c "v"%char then
        match digits1 rest with
        | Some (d, []) => Some [str (c :: d)]
        | _ =>
            r1 ← expect "["%char rest;
            '(lo, r2) ← digits1 r1;
            r3 ← expect ":"%char r2;
            '(hi, r4) ← digits1 r3;
            r5 ← expect "]"%char r4;
            match r5 with
            | [] => Some ((λ i, String c (pretty i)) <$>
                          seqZ (dec_value lo) (dec_value hi + 1 - dec_value lo))
            | _ => None
            end
        end
      else None
  end.

Definition single (token : string) : res exn string :=
  match registers token with
  | Some [n] => Ok n
  | _ => Err ValueError
  end.

(** [re.sub(r"_e(32|64)$", "", opcode)]; [$] also matches before a final newline. *)
Definition newline : ascii := "010"%char.
Definition drop_encoding (l : list ascii) : list ascii :=
  if ends_with (chars "_e32") l || ends_with (chars "_e64") l
  then take (length l - 4) l
  else if ends_with (chars "_e32" ++ [newline]) l || ends_with (chars "_e64" ++ [newline]) l
  then take (length l - 5) l ++ [newline]
  else l.

(** The lookahead [(?![^\[]*\])]: a comma does not split when a closing
    bracket comes before the next opening one. *)
Fixpoint in_brackets (l : list ascii) : bool :=
  match l with
  | [] => false
  | c :: r =>
      if Ascii.eqb c "]"%char then true
      else if Ascii.eqb c "["%char then false
      else in_brackets r
  end.

Fixpoint split_commas (cur : list ascii) (l : list ascii) : list (list ascii) :=
  match l with
  | [] => [rev cur]
  | c :: r =>
      if Ascii.eqb c ","%char && negb (in_brackets r)
      then rev cur :: split_commas [] r
      else split_commas (c :: cur) r
  end.

Definition split (asm : string) : res exn (string * list string * list string) :=
  let '(op, rest) := partition_at " "%char (strip (chars asm)) in
  let opcode := str (drop_encoding op) in
  match strip rest with
  | [] => Ok (opcode, [], [])
  | _ =>
      let operands := strip <$> split_commas [] rest in
      match split_ws (default [] (last operands)) with
      | [] => Err ValueError
      | lst :: modifiers =>
          Ok (opcode, (str <$> take (length operands - 1) operands) ++ [str lst],
              str <$> modifiers)
      end
  end.

Definition immediate (token : string) : option Z := int0 (chars token).

Definition TWO_DESTINATIONS : list string :=
  [ "v_add_co_u32"; "v_sub_co_u32"; "v_subrev_co_u32"; "v_addc_co_u32";
    "v_subb_co_u32"; "v_subbrev_co_u32"; "v_add_co_ci_u32"; "v_sub_co_ci_u32";
    "v_mad_u64_u32"; "v_mad_i64_i32" ]%string.

Definition register_set (token : string) : gset string :=
  list_to_set (default [] (registers token)).

(** The instruction writes no register: a store, an LDS form, a no-return atomic. *)
Definition no_register_write (opcode : string) (modifiers : list string) : bool :=
  contains (chars "store") (chars opcode)
  || starts_with (chars "ds_write") (chars opcode)
  || contains (chars "lds") (chars opcode)
  || bool_decide ("lds"%string ∈ modifiers)
  || (contains (chars "atomic") (chars opcode)
      && negb (bool_decide ("glc"%string ∈ modifiers)
               || bool_decide ("sc0"%string ∈ modifiers))).

Definition effects (asm : string) : res exn (gset string * gset string) :=
  '(opcode, operands, modifiers) ← split asm;
  let names := register_set <$> operands in
  if bool_decide (names = []) then Ok (∅, ∅)
  else if no_register_write opcode modifiers then Ok (⋃ names, ∅)
  else
    let destinations := if bool_decide (opcode ∈ TWO_DESTINATIONS) then 2%nat else 1%nat in
    Ok (⋃ (drop destinations names), ⋃ (take destinations names)).

(** ** Words and lanes *)

Inductive wkind := KWord | KBits | KPairLo | KPairHi | KSext.

#[export] Instance wkind_eq_dec : EqDecision wkind.
Proof. solve_decision. Defined.

Record Word := mkWord {
  w_id : nat;                (* object identity *)
  hw : Z;
  exact : Z;
  kind : wkind;
  ref : option nat;          (* identity of the referenced word *)
  producer : option Z
}.

(** [hw - (1 << 32) if hw >> 31 else hw]: the two's-complement reading. *)
Definition signed32 (bits : Z) : Z :=
  if Z.shiftr bits 31 =? 0 then bits else bits - Z.shiftl 1 32.

Definition value (w : Word) (sgn : bool) : Z :=
  if bool_decide (producer w ≠ None) && bool_decide (kind w = KWord) then exact w
  else if sgn then signed32 (hw w) else hw w.

Record Overflow := mkOverflow {
  ov_at : Z;
  ov_producer : option Z;
  ov_value : Z
}.

(** [heap] is Python's: every [Word] object created so far, in order; the
    identity of an object is its position there. *)
Record Lane := mkLane {
  words : gmap string Word;
  overflows : list Overflow;
  heap : list Word
}.

Definition lane0 : Lane := mkLane ∅ [] [].

Section Replay.
(** [Lane.leaf]: the snapshot's register file. *)
Variable leaf : string → option Z.

Definition LM (A : Type) : Type := st Lane exn A.

(** Allocate a word object and bind a register name to it. *)
Definition store_word (name : string) (h e : Z) (k : wkind) (r : option nat)
    (p : option Z) : LM Word :=
  λ L, let w := mkWord (length (heap L)) h e k r p in
       (mkLane (<[name := w]> (words L)) (overflows L) (heap L ++ [w]), Ok w).

Definition record_overflow (o : Overflow) : LM () :=
  st_modify (λ L, mkLane (words L) (overflows L ++ [o]) (heap L)).

Definition word (name : string) : LM Word :=
  L ← st_get;
  match words L !! name with
  | Some w => mret w
  | None =>
      match leaf name with
      | None => st_raise LookupError
      | Some bits =>
          store_word name (Z.land bits MASK32) (Z.land bits MASK32) KWord None None
      end
  end.

Definition operand (token : string) (sgn : bool) : LM (Z * Z * option Word) :=
  match immediate token with
  | Some v =>
      let bits := Z.land v MASK32 in
      mret (bits, if sgn then signed32 bits else bits, None)
  | None =>
      name ← st_lift (single token);
      current ← word name;
      mret (hw current, value current sgn, Some current)
  end.

Definition pair_names (token : string) : res exn (string * string) :=
  match registers token with
  | Some [a; b] => Ok (a, b)
  | _ => Err ValueError
  end.

Definition is_ref (high low : Word) : bool := bool_decide (ref high = Some (w_id low)).

Definition pair (token : string) (at_ : Z) : LM (Z * Z) :=
  match immediate token with
  | Some v => mret (Z.land v MASK64, v)
  | None =>
      '(n0, n1) ← st_lift (pair_names token);
      low ← word n0;
      high ← word n1;
      let bits := Z.lor (hw low) (Z.shiftl (hw high) 32) in
      if is_ref high low && bool_decide (kind high = KPairHi) then
        mret (bits, exact low)
      else if is_ref high low && bool_decide (kind high = KSext) then
        let e := value low true in
        _ ← (if (- Z.shiftl 1 31 <=? e) && (e <? Z.shiftl 1 31) then mret ()
             else record_overflow (mkOverflow at_ (producer low) e));
        mret (bits, e)
      else
        mret (bits, if Z.shiftr bits 63 =? 0 then bits else bits - Z.shiftl 1 64)
  end.

Definition set_word (token : string) (h e index : Z) (k : wkind) (r : option nat) : LM () :=
  name ← st_lift (single token);
  _ ← store_word name (Z.land h MASK32) e k r (Some index);
  mret ().

Definition set_pair (token : string) (h e index : Z) : LM () :=
  '(n0, n1) ← st_lift (pair_names token);
  low ← store_word n0 (Z.land h MASK32) e KPairLo None (Some index);
  _ ← store_word n1 (Z.land (Z.shiftr h 32) MASK32) (Z.shiftr e 32) KPairHi
        (Some (w_id low)) (Some index);
  mret ().

(** ** Instruction handlers *)

Definition op_at (ops : list string) (i : nat) : LM string :=
  match ops !! i with Some o => mret o | None => st_raise IndexError end.

Definition handler : Type := Z → list string → LM ().

Definition bitwise (f : Z → Z → Z) : handler := λ index ops,
  o1 ← op_at ops 1; a ← operand o1 false;
  o2 ← op_at ops 2; b ← operand o2 false;
  let bits := f a.1.1 b.1.1 in
  o0 ← op_at ops 0;
  set_word o0 bits bits index KBits None.

Definition mul_lo : handler := λ index ops,
  match take 2 (drop 1 ops) with
  | [t1; t2] =>
      a ← operand t1 true;
      b ← operand t2 true;
      o0 ← op_at ops 0;
      set_word o0 (a.1.1 * b.1.1) (a.1.2 * b.1.2) index KWord None
  | [t1] => _ ← operand t1 true; st_raise ValueError
  | _ => st_raise ValueError
  end.

Definition ashr : handler := λ index ops,
  o2 ← op_at ops 2;
  '(bits, e, w) ← operand o2 true;
  o1 ← op_at ops 1;
  s ← operand o1 false;
  let shift := Z.land s.1.1 31 in
  let signed_bits := signed32 bits in
  o0 ← op_at ops 0;
  match w with
  | Some wd =>
      if shift =? 31 then
        set_word o0 (Z.shiftr signed_bits 31) (if e <? 0 then -1 else 0) index KSext
          (Some (w_id wd))
      else
        _ ← (if bool_decide (producer wd ≠ None) && negb (signed_bits =? e)
             then record_overflow (mkOverflow index (producer wd) e) else mret ());
        set_word o0 (Z.shiftr signed_bits shift) (Z.shiftr e shift) index KWord None
  | None =>
      set_word o0 (Z.shiftr signed_bits shift) (Z.shiftr e shift) index KWord None
  end.

Definition lshl_add64 : handler := λ index ops,
  o1 ← op_at ops 1;
  a ← pair o1 index;
  o2 ← op_at ops 2;
  s ← operand o2 false;
  let shift := s.1.1 in
  if 4 <? shift then st_raise ValueError
  else
    o3 ← op_at ops 3;
    b ← pair o3 index;
    o0 ← op_at ops 0;
    set_pair o0 (Z.shiftl a.1 shift + b.1) (Z.shiftl a.2 shift + b.2) index.

Definition HANDLERS (opcode : string) : option handler :=
  if bool_decide (opcode = "v_and_b32") then Some (bitwise Z.land)
  else if bool_decide (opcode = "v_or_b32") then Some (bitwise Z.lor)
  else if bool_decide (opcode = "v_mul_lo_u32") then Some mul_lo
  else if bool_decide (opcode = "v_ashrrev_i32") then Some ashr
  else if bool_decide (opcode = "v_lshl_add_u64") then Some lshl_add64
  else None.

Definition MODELLED : list string :=
  [ "v_and_b32"; "v_or_b32"; "v_mul_lo_u32"; "v_ashrrev_i32"; "v_lshl_add_u64" ]%string.

Definition run (index : Z) (asm : string) : LM () :=
  '(opcode, ops, _) ← st_lift (split asm);
  match HANDLERS opcode with
  | None => st_raise NotImplementedError
  | Some h => h index ops
  end.

(** An address computation: [run(i, asm)] for each of its instructions. *)
Fixpoint replay (program : list (Z * string)) : LM () :=
  match program with
  | [] => mret ()
  | (i, asm) :: rest => _ ← run i asm; replay rest
  end.
End Replay.

Example split_load :
  split "global_load_ushort v191, v[130:131], off offset:16" =
  Ok ("global_load_ushort", ["v191"; "v[130:131]"; "off"], ["offset:16"])%string.
Proof. vm_compute. reflexivity. Qed.
Example split_ashr :
  split "v_ashrrev_i32_e32 v131, 31, v130" = Ok ("v_ashrrev_i32", ["v131"; "31"; "v130"], [])%string.
Proof. vm_compute. reflexivity. Qed.
Example registers_pair : registers "v[130:131]" = Some ["v130"; "v131"]%string.
Proof. vm_compute. reflexivity. Qed.
Example effects_mad :
  effects "v_mad_u64_u32 v[0:1], s[2:3], v4, v5, v[0:1]"
  = Ok ({["v4"; "v5"; "v0"; "v1"]}, {["v0"; "v1"; "s2"; "s3"]})%string.
Proof. vm_compute. reflexivity. Qed.
Example effects_lds :
  effects "global_load_lds_dwordx4 v[2:3], off" = Ok ({["v2"; "v3"]}, ∅)%string.
Proof. vm_compute. reflexivity. Qed.

(** ** The replay invariant

    [H] is the heap: every word object allocated so far, by identity.  The
    unconditional part describes the hardware bits; the conditional part says
    what the exact values mean while no overflow has been recorded. *)

Lemma mask32_mod v : Z.land v MASK32 = v mod 2 ^ 32.
Proof. apply mask_mod; lia. Qed.
Lemma mask64_mod v : Z.land v MASK64 = v mod 2 ^ 64.
Proof. apply mask_mod; lia. Qed.

Lemma signed32_alt b :
  0 ≤ b < 2 ^ 32 → signed32 b = if b <? 2 ^ 31 then b else b - 2 ^ 32.
Proof. intros Hb. unfold signed32. by rewrite shiftr_zero by lia. Qed.

Lemma signed32_range b : 0 ≤ b < 2 ^ 32 → - 2 ^ 31 ≤ signed32 b < 2 ^ 31.
Proof. intros Hb. rewrite signed32_alt by done. destruct (Z.ltb_spec b (2 ^ 31)); lia. Qed.

Lemma signed32_eqm b : 0 ≤ b < 2 ^ 32 → eqm (2 ^ 32) (signed32 b) b.
Proof.
  intros Hb. rewrite signed32_alt by done. destruct (b <? 2 ^ 31); [done|].
  apply eqm_sub_self.
Qed.

(** An integer in the signed range is the signed reading of what it is congruent to. *)
Lemma signed32_unique b e :
  0 ≤ b < 2 ^ 32 → - 2 ^ 31 ≤ e < 2 ^ 31 → eqm (2 ^ 32) e b → e = signed32 b.
Proof.
  intros Hb He Heq. pose proof (signed32_range b Hb).
  assert (eqm (2 ^ 32) (e + 2 ^ 31) (signed32 b + 2 ^ 31)) as Heq'.
  { by rewrite Heq, signed32_eqm by done. }
  apply eqm_small in Heq'; lia.
Qed.

(** The 64-bit pattern of a word under its sign word. *)
Definition sign_word (low : Z) : Z := if low <? 2 ^ 31 then 0 else 2 ^ 32 - 1.

Lemma sign_word_range l : 0 ≤ sign_word l < 2 ^ 32.
Proof. unfold sign_word. destruct (l <? 2 ^ 31); lia. Qed.

Lemma sign_word_signed64 l :
  0 ≤ l < 2 ^ 32 →
  let bits := l + sign_word l * 2 ^ 32 in
  (if bits <? 2 ^ 63 then bits else bits - 2 ^ 64) = signed32 l.
Proof.
  intros Hl. unfold sign_word. rewrite signed32_alt by done.
  destruct (Z.ltb_spec l (2 ^ 31)); simpl;
    match goal with |- context [?a <? ?b] => destruct (Z.ltb_spec a b) end; lia.
Qed.

Definition word_wf (H : list Word) (w : Word) : Prop :=
  0 ≤ hw w < 2 ^ 32 ∧
  match kind w with
  | KWord => ref w = None ∧ (producer w = None → exact w = hw w)
  | KBits | KPairLo => ref w = None ∧ producer w ≠ None
  | KPairHi => ∃ low, ref w = Some (w_id low) ∧ H !! w_id low = Some low ∧
                      kind low = KPairLo ∧ producer w = producer low ∧
                      exact w = Z.shiftr (exact low) 32
  | KSext => ∃ low, ref w = Some (w_id low) ∧ H !! w_id low = Some low ∧
                    hw w = sign_word (hw low) ∧ producer w ≠ None ∧
                    exact w = if value low true <? 0 then -1 else 0
  end.

Definition word_sound (H : list Word) (w : Word) : Prop :=
  match kind w with
  | KWord => eqm (2 ^ 32) (exact w) (hw w)
  | KPairHi => ∃ low, ref w = Some (w_id low) ∧ H !! w_id low = Some low ∧
                      eqm (2 ^ 64) (exact low) (hw low + hw w * 2 ^ 32)
  | _ => True
  end.

Record lane_inv (H : list Word) (L : Lane) : Prop := {
  inv_heap : heap L = H;
  inv_id : ∀ i w, H !! i = Some w → w_id w = i;
  inv_wf : ∀ i w, H !! i = Some w → word_wf H w;
  inv_live : ∀ n w, words L !! n = Some w → H !! w_id w = Some w;
  inv_sound : overflows L = [] → ∀ i w, H !! i = Some w → word_sound H w
}.

Lemma word_wf_mono H H' w : H `prefix_of` H' → word_wf H w → word_wf H' w.
Proof.
  intros [K ->] [Hr Hk]. split; [done|].
  destruct (kind w); try done; destruct Hk as (low & ? & ? & ?); exists low;
    by rewrite lookup_app_l_Some with (x:=low).
Qed.

Lemma word_sound_mono H H' w : H `prefix_of` H' → word_sound H w → word_sound H' w.
Proof.
  intros [K ->]. unfold word_sound. destruct (kind w); try done.
  intros (low & ? & ? & ?). exists low. by rewrite lookup_app_l_Some with (x:=low).
Qed.

Lemma lane0_inv : lane_inv [] lane0.
Proof. split; try done; intros; simplify_map_eq. Qed.

(** ** A weakest-precondition reading of lane computations *)

Definition wp {A} (m : LM A) (Q : list Word → A → Lane → Prop)
    (H : list Word) (L : Lane) : Prop :=
  lane_inv H L →
  ∀ L' r, m L = (L', r) →
  ∃ H', H `prefix_of` H' ∧ overflows L `prefix_of` overflows L' ∧ lane_inv H' L' ∧
        ∀ a, r = Ok a → Q H' a L'.

Lemma wp_ret {A} (a : A) (Q : list Word → A → Lane → Prop) H L :
  Q H a L → wp (mret a) Q H L.
Proof. intros HQ HI L' r [= <- <-]. exists H. naive_solver. Qed.

Lemma wp_raise {A} e (Q : list Word → A → Lane → Prop) H L : wp (st_raise e) Q H L.
Proof. intros HI L' r [= <- <-]. exists H. naive_solver. Qed.

Lemma wp_lift {A} (x : res exn A) (Q : list Word → A → Lane → Prop) H L :
  (∀ a, x = Ok a → Q H a L) → wp (st_lift x) Q H L.
Proof. intros HQ HI L' r [= <- <-]. exists H. naive_solver. Qed.

Lemma wp_bind {A B} (m : LM A) (k : A → LM B) Q H L :
  wp m (λ H' a L', H `prefix_of` H' → overflows L `prefix_of` overflows L' →
                   wp (k a) Q H' L') H L →
  wp (m ≫= k) Q H L.
Proof.
  intros Hm HI L' r Hrun. unfold mbind, st_bind in Hrun.
  destruct (m L) as [L1 [a|e]] eqn:Em.
  - destruct (Hm HI _ _ Em) as (H1 & HH1 & HO1 & HI1 & HQ1).
    destruct (HQ1 a eq_refl HH1 HO1 HI1 _ _ Hrun) as (H2 & HH2 & HO2 & HI2 & HQ2).
    exists H2. split_and!; [by etrans|by etrans|done|done].
  - injection Hrun as <- <-.
    destruct (Hm HI _ _ Em) as (H1 & HH1 & HO1 & HI1 & HQ1).
    exists H1. split_and!; [done..|]. intros a [=].
Qed.

Lemma wp_mono {A} (m : LM A) (Q Q' : list Word → A → Lane → Prop) H L :
  wp m Q H L → (∀ H' a L', lane_inv H' L' → Q H' a L' → Q' H' a L') → wp m Q' H L.
Proof.
  intros Hm HQ HI L' r Hrun. destruct (Hm HI _ _ Hrun) as (H1 & ? & ? & ? & ?).
  exists H1. naive_solver.
Qed.

Lemma wp_with_inv {A} (m : LM A) (Q : list Word → A → Lane → Prop) H L :
  (lane_inv H L → wp m Q H L) → wp m Q H L.
Proof. intros Hm HI. by apply Hm. Qed.

Lemma overflow_clean (o1 o2 : list Overflow) : o1 `prefix_of` o2 → o2 = [] → o1 = [].
Proof. intros Hp ->. by apply prefix_nil_inv in Hp. Qed.

Lemma wp_record o (Q : list Word → () → Lane → Prop) H L :
  Q H () (mkLane (words L) (overflows L ++ [o]) (heap L)) → wp (record_overflow o) Q H L.
Proof.
  intros HQ HI L' r [= <- <-]. exists H. split_and!; simpl.
  - done.
  - by apply prefix_app_r.
  - destruct HI. split; simpl; try done. intros Hc. by apply app_nil in Hc as [_ [=]].
  - naive_solver.
Qed.

Lemma wp_store name h e k r p (Q : list Word → Word → Lane → Prop) H L :
  let w := mkWord (length (heap L)) h e k r p in
  let L' := mkLane (<[name := w]> (words L)) (overflows L) (heap L ++ [w]) in
  word_wf H w → (overflows L = [] → word_sound H w) →
  ((H ++ [w]) !! w_id w = Some w → Q (H ++ [w]) w L') →
  wp (store_word name h e k r p) Q H L.
Proof.
  intros w L' Hwf Hs HQ HI L'' r' [= <- <-].
  assert (H `prefix_of` H ++ [w]) as Hp by by apply prefix_app_r.
  assert ((H ++ [w]) !! w_id w = Some w) as Hw.
  { simpl. rewrite (inv_heap _ _ HI). by rewrite lookup_app_r, Nat.sub_diag by done. }
  exists (H ++ [w]). split_and!; [done|done| |naive_solver].
  destruct HI as [Hn Hid Hwfs Hlive Hsound]. split; simpl.
  - f_equal. exact Hn.
  - intros i x [Hx|[Hge Hx]]%lookup_app_Some; [by apply Hid|].
    apply list_lookup_singleton_Some in Hx as [Hi <-]. simpl. rewrite Hn. lia.
  - intros i x [Hx|[Hge Hx]]%lookup_app_Some.
    + eapply word_wf_mono; eauto.
    + apply list_lookup_singleton_Some in Hx as [_ <-]. by eapply word_wf_mono.
  - intros n x Hx. destruct (decide (n = name)) as [->|Hne].
    + rewrite lookup_insert_eq in Hx. injection Hx as <-. done.
    + rewrite lookup_insert_ne in Hx by done. apply lookup_app_l_Some. eauto.
  - intros Hc i x [Hx|[Hge Hx]]%lookup_app_Some.
    + eapply word_sound_mono; eauto.
    + apply list_lookup_singleton_Some in Hx as [_ <-]. eapply word_sound_mono; eauto.
Qed.

(** ** Reads and writes *)

Section WithLeaf.
Context (leaf : string → option Z).

Lemma wp_word name H L :
  wp (word leaf name) (λ H' w _, H' !! w_id w = Some w) H L.
Proof.
  apply wp_with_inv. intros HI. apply wp_bind.
  intros _ L' r [= <- <-]. exists H. split_and!; [done..|].
  intros L1 [= <-] _ _. destruct (words L !! name) as [w|] eqn:Ew.
  - apply wp_ret. by apply (inv_live _ _ HI name).
  - destruct (leaf name) as [bits|]; [|apply wp_raise].
    apply wp_store; [|by intros|by intros].
    split; simpl; [|done]. rewrite mask32_mod. apply land_mod_range. lia.
Qed.

(** What a 32-bit operand read gives: bits in range, a congruent exact value
    while nothing has overflowed, and the value of the word it read. *)
Definition operand_post (sgn : bool) (H : list Word) (a : Z * Z * option Word)
    (L : Lane) : Prop :=
  let '(bits, e, w) := a in
  0 ≤ bits < 2 ^ 32 ∧
  (overflows L = [] → eqm (2 ^ 32) e bits) ∧
  match w with
  | None => e = if sgn then signed32 bits else bits
  | Some wd => H !! w_id wd = Some wd ∧ hw wd = bits ∧ e = value wd sgn
  end.

Lemma value_eqm H w sgn :
  word_wf H w → word_sound H w → eqm (2 ^ 32) (value w sgn) (hw w).
Proof.
  intros [Hr Hk] Hs. unfold value, word_sound in *.
  destruct (bool_decide_reflect (producer w ≠ None)); simpl;
    [destruct (bool_decide_reflect (kind w = KWord)) as [E|]; simpl|].
  - by rewrite E in Hs.
  - destruct sgn; [by apply signed32_eqm|done].
  - destruct sgn; [by apply signed32_eqm|done].
Qed.

(** A word no instruction wrote has no exact value beyond its bits. *)
Lemma value_leaf w : producer w = None → value w true = signed32 (hw w).
Proof. intros E. unfold value. by rewrite E. Qed.

Lemma wp_operand token sgn H L : wp (operand leaf token sgn) (operand_post sgn) H L.
Proof.
  unfold operand. destruct (immediate token) as [v|].
  - apply wp_ret. simpl. assert (0 ≤ Z.land v MASK32 < 2 ^ 32) as Hr.
    { rewrite mask32_mod. apply land_mod_range. lia. }
    split_and!; [lia|lia| |done]. intros _. destruct sgn; [by apply signed32_eqm|done].
  - apply wp_bind, wp_lift. intros name _ _ _. apply wp_bind.
    eapply wp_mono; [apply wp_word|]. simpl. intros H' w L' HI' Hw _ _.
    apply wp_ret. simpl. destruct (inv_wf _ _ HI' _ _ Hw) as [Hr Hk].
    split_and!; [lia|lia| |done..]. intros Hc.
    eapply value_eqm; [by split|]. by eapply (inv_sound _ _ HI').
Qed.

Lemma pair_bits_eqm low high :
  0 ≤ low < 2 ^ 32 → 0 ≤ high < 2 ^ 32 →
  let bits := Z.lor low (Z.shiftl high 32) in
  bits = low + high * 2 ^ 32 ∧ 0 ≤ bits < 2 ^ 64.
Proof. intros Hl Hh. simpl. rewrite lor_shiftl by lia. lia. Qed.

Lemma signed64_eqm bits :
  eqm (2 ^ 64) (if Z.shiftr bits 63 =? 0 then bits else bits - Z.shiftl 1 64) bits.
Proof. destruct (_ =? 0); [done|]. apply eqm_sub_self. Qed.

Definition pair_post (a : Z * Z) (L : Lane) : Prop :=
  0 ≤ a.1 < 2 ^ 64 ∧ (overflows L = [] → eqm (2 ^ 64) a.2 a.1).

Lemma in_range_spec e :
  (- Z.shiftl 1 31 <=? e) && (e <? Z.shiftl 1 31) = true ↔ - 2 ^ 31 ≤ e < 2 ^ 31.
Proof.
  change (Z.shiftl 1 31) with (2 ^ 31).
  rewrite andb_true_iff, Z.leb_le, Z.ltb_lt. done.
Qed.

(** The sign-extension case: clean only if the exact value fits 32 bits, and
    then it is the signed reading of the low word. *)
Lemma sext_pair_eqm H low high :
  word_wf H low → word_sound H low → word_wf H high →
  H !! w_id low = Some low → kind high = KSext → ref high = Some (w_id low) →
  - 2 ^ 31 ≤ value low true < 2 ^ 31 →
  eqm (2 ^ 64) (value low true) (hw low + hw high * 2 ^ 32).
Proof.
  intros Hl Hsl [Hhr Hh] Hlow Hk Hr He. rewrite Hk in Hh.
  destruct Hh as (low' & Hr' & Hl' & -> & _). rewrite Hr in Hr'. injection Hr' as Heq.
  rewrite <- Heq in Hl'. assert (low' = low) as -> by congruence.
  rewrite (signed32_unique (hw low) (value low true)); [|apply Hl|done|by eapply value_eqm].
  rewrite <- sign_word_signed64 by apply Hl. simpl.
  destruct (_ <? _); [done|]. apply eqm_sub_self.
Qed.

Lemma wp_pair token at_ H L : wp (pair leaf token at_) (λ _, pair_post) H L.
Proof.
  unfold pair. destruct (immediate token) as [v|].
  { apply wp_ret. split; simpl; rewrite mask64_mod; [apply land_mod_range; lia|].
    intros _. symmetry. apply eqm_mod. }
  apply wp_bind, wp_lift. intros [n0 n1] _ _ _. apply wp_bind.
  eapply wp_mono; [apply wp_word|]. intros H1 low L1 HI1 Hlow HH1 _.
  apply wp_bind. eapply wp_mono; [apply wp_word|]. intros H2 high L2 HI2 Hhigh HH2 _.
  eapply prefix_lookup_Some in Hlow; [|done].
  destruct (inv_wf _ _ HI2 _ _ Hlow) as [Hlr Hlk], (inv_wf _ _ HI2 _ _ Hhigh) as [Hhr Hhk].
  destruct (pair_bits_eqm _ _ Hlr Hhr) as [Hb Hbr]. simpl in Hb, Hbr.
  pose proof (signed64_eqm (Z.lor (hw low) (Z.shiftl (hw high) 32))) as H64.
  set (bits := Z.lor (hw low) (Z.shiftl (hw high) 32)) in *.
  assert (pair_post (bits, if Z.shiftr bits 63 =? 0 then bits else bits - Z.shiftl 1 64) L2)
    as Hplain by (split; [simpl; lia|done]).
  clearbody bits. unfold is_ref.
  case_bool_decide as Hr; cbn [andb]; [|by apply wp_ret].
  case_bool_decide as Hk; cbn [andb]; [|case_bool_decide as Hk'; cbn [andb]; [|by apply wp_ret]].
  - apply wp_ret. split; simpl; [lia|]. intros Hc. rewrite Hb.
    pose proof (inv_sound _ _ HI2 Hc _ _ Hhigh) as Hs. unfold word_sound in Hs.
    rewrite Hk in Hs. destruct Hs as (low' & Hr' & Hl' & Hs).
    rewrite Hr in Hr'. injection Hr' as Heq. rewrite <- Heq in Hl'. by simplify_eq.
  - apply wp_bind.
    destruct (_ && _) eqn:Hin.
    + apply wp_ret. intros _ _. apply wp_ret. split; simpl; [lia|]. intros Hc.
      rewrite Hb. apply in_range_spec in Hin.
      apply (sext_pair_eqm H2); try done. by eapply inv_sound.
    + apply wp_record. intros _ _. apply wp_ret. split; simpl; [lia|].
      intros [_ [=]]%app_nil.
Qed.

Definition post_true (H : list Word) (u : ()) (L : Lane) : Prop := True.

Lemma wp_set_word token h e index k r H L :
  (∀ i, word_wf H (mkWord i (Z.land h MASK32) e k r (Some index))) →
  (overflows L = [] → ∀ i, word_sound H (mkWord i (Z.land h MASK32) e k r (Some index))) →
  wp (set_word token h e index k r) post_true H L.
Proof.
  intros Hwf Hs. apply wp_bind, wp_lift. intros name _ _ _.
  apply wp_bind, wp_store; [apply Hwf|intros; by apply Hs|].
  intros _ _ _. by apply wp_ret.
Qed.

Lemma wp_set_pair token h e index H L :
  (overflows L = [] → eqm (2 ^ 64) e h) →
  wp (set_pair token h e index) post_true H L.
Proof.
  intros He. apply wp_bind, wp_lift. intros [n0 n1] _ _ _.
  assert (∀ v, 0 ≤ Z.land v MASK32 < 2 ^ 32) as Hr.
  { intros v. rewrite mask32_mod. apply land_mod_range. lia. }
  apply wp_bind, wp_store; [by split; simpl|done|].
  intros Hlow HH1 HO1. apply wp_bind, wp_store; [split; simpl; [done|]|..].
  { eexists. split_and!; [|exact Hlow|..]; done. }
  - intros Hc. eexists. split_and!; [|exact Hlow|]; [done|]. simpl.
    rewrite !mask32_mod, Z.shiftr_div_pow2 by lia.
    etrans; [by apply He|]. rewrite (Z.mul_comm _ (2 ^ 32)).
    rewrite (split_halves h 32 32) by lia. symmetry. apply eqm_mod.
  - intros _ _ _. by apply wp_ret.
Qed.

Lemma wp_op_at ops i (Q : list Word → string → Lane → Prop) H L :
  (∀ o, ops !! i = Some o → Q H o L) → wp (op_at ops i) Q H L.
Proof.
  intros HQ. unfold op_at. destruct (ops !! i); [apply wp_ret; auto|apply wp_raise].
Qed.

Lemma mask32_range v : 0 ≤ Z.land v MASK32 < 2 ^ 32.
Proof. rewrite mask32_mod. apply land_mod_range. lia. Qed.

Lemma mask32_eqm e v : eqm (2 ^ 32) e v → eqm (2 ^ 32) e (Z.land v MASK32).
Proof. intros ->. rewrite mask32_mod. symmetry. apply eqm_mod. Qed.

Lemma ashr31_sign b :
  0 ≤ b < 2 ^ 32 → Z.land (Z.shiftr (signed32 b) 31) MASK32 = sign_word b.
Proof.
  intros Hb. rewrite mask32_mod, signed32_alt, Z.shiftr_div_pow2 by lia.
  unfold sign_word. destruct (Z.ltb_spec b (2 ^ 31)).
  - by rewrite Z.div_small by lia.
  - replace ((b - 2 ^ 32) / 2 ^ 31) with (-1); [done|].
    apply (Z.div_unique_pos _ _ _ (b - 2 ^ 31)); lia.
Qed.

(** ** Every handler keeps the invariant *)

Ltac fields := cbn [w_id hw exact kind ref producer].
Ltac wp_op := apply wp_bind, wp_op_at; intros ? _ _ _.
Ltac wp_read L := apply wp_bind; eapply wp_mono; [apply L|]; cbv beta.

Lemma wp_bitwise f index ops H L :
  (∀ a b, 0 ≤ a < 2 ^ 32 → 0 ≤ b < 2 ^ 32 → 0 ≤ f a b < 2 ^ 32) →
  wp (bitwise leaf f index ops) post_true H L.
Proof.
  intros Hf. unfold bitwise. wp_op. wp_read wp_operand. intros ? [[a ae] aw] ? _ [Ha _] _ _.
  wp_op. wp_read wp_operand. intros ? [[b be] bw] ? _ [Hb _] _ _. wp_op.
  apply wp_set_word; [|done]. intros i. split; fields; [apply mask32_range|by split].
Qed.

Lemma wp_mul_lo index ops H L : wp (mul_lo leaf index ops) post_true H L.
Proof.
  unfold mul_lo. destruct (take 2 (drop 1 ops)) as [|t1 [|t2 [|]]]; try apply wp_raise.
  { wp_read wp_operand. intros. apply wp_raise. }
  wp_read wp_operand. intros ? [[a ae] aw] ? _ (Ha & Hae & _) _ HO1.
  wp_read wp_operand. intros ? [[b be] bw] L2 _ (Hb & Hbe & _) _ HO2. wp_op.
  apply wp_set_word; [by repeat split; fields; try apply mask32_range|].
  intros Hc i. unfold word_sound. fields. apply mask32_eqm, eqm_mul; [|by apply Hbe].
  apply Hae. by eapply overflow_clean.
Qed.

(** The exact value a plain arithmetic shift starts from, once no overflow is
    recorded: the signed reading of the operand's bits. *)
Lemma wp_ashr index ops H L : wp (ashr leaf index ops) post_true H L.
Proof.
  unfold ashr. wp_op. wp_read wp_operand. intros H1 [[bits e] w] L1 _ (Hb & He & Hw) _ _.
  wp_op. wp_read wp_operand. intros H2 [[s se] sw] L2 _ _ HH2 _. wp_op. cbn [fst snd].
  set (shift := Z.land s 31).
  assert (Hplain : ∀ L3 tok, (overflows L3 = [] → e = signed32 bits) →
    wp (set_word tok (Z.shiftr (signed32 bits) shift) (Z.shiftr e shift) index KWord None)
      post_true H2 L3).
  { intros L3 tok Hc. apply wp_set_word; [by repeat split; fields; try apply mask32_range|].
    intros Hc' i. unfold word_sound. fields. rewrite (Hc Hc'). by apply mask32_eqm. }
  destruct w as [wd|]; [|by apply Hplain].
  destruct Hw as (Hlive & <- & ->).
  destruct (shift =? 31).
  - apply wp_set_word; [|done]. intros i. split; fields; [apply mask32_range|].
    exists wd. split_and!; [done|by eapply prefix_lookup_Some|by apply ashr31_sign|done|done].
  - apply wp_bind. case_bool_decide as Hp; cbn [andb negb].
    + destruct (Z.eqb_spec (signed32 (hw wd)) (value wd true)) as [Heq|]; cbn [andb negb].
      * apply wp_ret. intros _ _. by apply Hplain.
      * apply wp_record. intros _ _. apply Hplain. intros [_ [=]]%app_nil.
    + apply wp_ret. intros _ _. apply Hplain. intros _. apply value_leaf.
      destruct (producer wd); [by destruct Hp|done].
Qed.

Lemma wp_lshl_add64 index ops H L : wp (lshl_add64 leaf index ops) post_true H L.
Proof.
  unfold lshl_add64. wp_op. wp_read wp_pair. intros H1 [ab ae] L1 _ [Ha Hae] _ _.
  wp_op. wp_read wp_operand. intros H2 [[s se] sw] L2 _ (Hs & _) _ HO2. cbn [fst snd] in *.
  destruct (4 <? s); [apply wp_raise|].
  wp_op. wp_read wp_pair. intros H3 [bb be] L3 _ [Hb Hbe] _ HO3. wp_op. cbn [fst snd] in *.
  apply wp_set_pair. intros Hc. apply eqm_add; [|by apply Hbe].
  apply eqm_shiftl; [lia|]. apply Hae. eapply overflow_clean; [by etrans|done].
Qed.

Lemma wp_run index asm H L : wp (run leaf index asm) post_true H L.
Proof.
  apply wp_bind, wp_lift. intros [[opcode ops] mods] _ _ _. unfold HANDLERS.
  repeat case_bool_decide; try apply wp_raise.
  - apply wp_bitwise. intros. apply land_range; lia.
  - apply wp_bitwise. intros. apply lor_range; lia.
  - apply wp_mul_lo.
  - apply wp_ashr.
  - apply wp_lshl_add64.
Qed.

Lemma wp_replay prog H L : wp (replay leaf prog) post_true H L.
Proof.
  revert H L. induction prog as [|[i asm] prog IH]; intros H L; [by apply wp_ret|].
  apply wp_bind. eapply wp_mono; [apply wp_run|]. intros. apply IH.
Qed.

(** Every outcome of a replay from the empty lane, errors included, leaves a
    lane that satisfies the invariant. *)
Lemma replay_inv prog L r : replay leaf prog lane0 = (L, r) → ∃ H, lane_inv H L.
Proof.
  intros Hrun. destruct (wp_replay prog [] lane0 lane0_inv _ _ Hrun) as (H & _ & _ & HI & _).
  eauto.
Qed.

(** ** The architecture's view: a register file and modular arithmetic

    An independent description of the five instructions, on the registers'
    hardware bits only.  [regs] is the abstraction function: the lane's word if
    it holds one, the snapshot's bits otherwise. *)

Definition reg_file : Type := string → option Z.

Definition regs (L : Lane) : reg_file := λ n,
  match words L !! n with
  | Some w => Some (hw w)
  | None => (λ b, b mod 2 ^ 32) <$> leaf n
  end.

Definition src32 (R : reg_file) (token : string) : option Z :=
  match immediate token with
  | Some v => Some (v mod 2 ^ 32)
  | None => match registers token with Some [n] => R n | _ => None end
  end.

Definition src64 (R : reg_file) (token : string) : option Z :=
  match immediate token with
  | Some v => Some (v mod 2 ^ 64)
  | None =>
      match registers token with
      | Some [n0; n1] => lo ← R n0; hi ← R n1; Some (lo + 2 ^ 32 * hi)
      | _ => None
      end
  end.

Definition upd (R : reg_file) (n : string) (v : Z) : reg_file :=
  λ m, if decide (m = n) then Some v else R m.

Definition dst32 (R : reg_file) (token : string) (v : Z) : option reg_file :=
  match registers token with Some [n] => Some (upd R n v) | _ => None end.

Definition dst64 (R : reg_file) (token : string) (v : Z) : option reg_file :=
  match registers token with
  | Some [n0; n1] => Some (upd (upd R n0 (v mod 2 ^ 32)) n1 (v / 2 ^ 32))
  | _ => None
  end.

(** Two's-complement reading of a 32-bit pattern. *)
Definition sgn (b : Z) : Z := if b <? 2 ^ 31 then b else b - 2 ^ 32.

Definition arch_exec (opcode : string) (ops : list string) (R : reg_file)
    : option reg_file :=
  match ops with
  | d :: a :: b :: rest =>
      if bool_decide (opcode = "v_and_b32") then
        x ← src32 R a; y ← src32 R b; dst32 R d (Z.land x y)
      else if bool_decide (opcode = "v_or_b32") then
        x ← src32 R a; y ← src32 R b; dst32 R d (Z.lor x y)
      else if bool_decide (opcode = "v_mul_lo_u32") then
        x ← src32 R a; y ← src32 R b; dst32 R d ((x * y) mod 2 ^ 32)
      else if bool_decide (opcode = "v_ashrrev_i32") then
        s ← src32 R a; y ← src32 R b; dst32 R d ((sgn y / 2 ^ (s mod 32)) mod 2 ^ 32)
      else if bool_decide (opcode = "v_lshl_add_u64") then
        match rest with
        | c :: _ =>
            x ← src64 R a; s ← src32 R b; z ← src64 R c;
            if s <=? 4 then dst64 R d ((x * 2 ^ s + z) mod 2 ^ 64) else None
        | [] => None
        end
      else None
  | _ => None
  end.

(** The register file after a whole address computation. *)
Fixpoint arch_replay (prog : list (Z * string)) (R : reg_file) : option reg_file :=
  match prog with
  | [] => Some R
  | (_, asm) :: rest =>
      match split asm with
      | Ok (opcode, ops, _) => R' ← arch_exec opcode ops R; arch_replay rest R'
      | Err _ => None
      end
  end.

(** *** One step of the simulation *)

Lemma word_regs name L L' w :
  word leaf name L = (L', Ok w) → regs L name = Some (hw w) ∧ ∀ n, regs L' n = regs L n.
Proof.
  unfold word. intros (L1 & L1' & [= <- <-] & Hr)%st_bind_ok.
  unfold regs at 1 3. destruct (words L !! name) as [w'|] eqn:Ew.
  - injection Hr as <- <-. done.
  - destruct (leaf name) as [b|] eqn:El; [|done]. injection Hr as <- <-. fields. split.
    + simpl. by rewrite mask32_mod.
    + intros n. unfold regs. simpl. destruct (decide (n = name)) as [->|].
      * by rewrite lookup_insert_eq, Ew, El, mask32_mod.
      * by rewrite lookup_insert_ne.
Qed.

Lemma operand_regs token sg L L' bits e w :
  operand leaf token sg L = (L', Ok (bits, e, w)) →
  src32 (regs L) token = Some bits ∧ ∀ n, regs L' n = regs L n.
Proof.
  unfold operand, src32. destruct (immediate token) as [v|].
  - intros [= <- <- _ _]. by rewrite mask32_mod.
  - intros (L1 & name & Hn & (L2 & wd & Hw & [= <- <- _ _])%st_bind_ok)%st_bind_ok.
    injection Hn as <- Hn. unfold single in Hn.
    destruct (registers token) as [[|n [|]]|]; try done. injection Hn as ->.
    by apply word_regs.
Qed.

Lemma regs_range H L n v : lane_inv H L → regs L n = Some v → 0 ≤ v < 2 ^ 32.
Proof.
  intros HI. unfold regs. destruct (words L !! n) as [w|] eqn:Ew.
  - intros [= <-]. by apply (inv_wf _ _ HI _ _ (inv_live _ _ HI _ _ Ew)).
  - destruct (leaf n); simpl; [|done]. intros [= <-]. by apply land_mod_range.
Qed.

Lemma ret_inv {A} (a b : A) (L L' : Lane) :
  (mret a : LM A) L = (L', Ok b) → L' = L ∧ b = a.
Proof. by intros [= -> ->]. Qed.

(** Recording (or not) an overflow leaves the registers alone. *)
Lemma widen_regs (c : bool) o L L' u :
  (if c then mret () else record_overflow o) L = (L', Ok u) → ∀ n, regs L' n = regs L n.
Proof. by destruct c; intros [= <- _]. Qed.

Lemma pair_regs token at_ H L L' bits e :
  lane_inv H L → pair leaf token at_ L = (L', Ok (bits, e)) →
  src64 (regs L) token = Some bits ∧ ∀ n, regs L' n = regs L n.
Proof.
  intros HI. unfold pair, src64. destruct (immediate token) as [v|].
  { intros [= <- <- _]. by rewrite mask64_mod. }
  intros (L1 & [n0 n1] & Hn & (L2 & low & Hl & (L3 & high & Hh & Hr)%st_bind_ok)%st_bind_ok)%st_bind_ok.
  injection Hn as <- Hn. unfold pair_names in Hn.
  destruct (registers token) as [[|x [|y [|]]]|]; try done. injection Hn as -> ->.
  destruct (word_regs _ _ _ _ Hl) as [El Fl], (word_regs _ _ _ _ Hh) as [Eh Fh].
  rewrite Fl in Eh. rewrite El, Eh. simpl.
  assert (bits = Z.lor (hw low) (Z.shiftl (hw high) 32) ∧ ∀ n, regs L' n = regs L3 n) as [-> Hf].
  { revert Hr. set (b := Z.lor _ _). clearbody b.
    destruct (is_ref high low); cbn [andb]; [|by intros [-> [-> _]%pair_eq]%ret_inv].
    case_bool_decide; cbn [andb]; [by intros [-> [-> _]%pair_eq]%ret_inv|].
    case_bool_decide; cbn [andb]; [|by intros [-> [-> _]%pair_eq]%ret_inv].
    intros (L4 & u & Hw & [-> [-> _]%pair_eq]%ret_inv)%st_bind_ok.
    split; [done|]. intros n. by eapply widen_regs. }
  split; [|intros n; by rewrite Hf, Fh, Fl].
  rewrite lor_shiftl; [f_equal; lia|lia|by eapply regs_range].
Qed.

Lemma set_word_regs token h e index k r L L' u :
  set_word token h e index k r L = (L', Ok u) →
  ∃ R', dst32 (regs L) token (h mod 2 ^ 32) = Some R' ∧ ∀ n, regs L' n = R' n.
Proof.
  unfold set_word, dst32.
  intros (L1 & name & Hn & (L2 & wd & [= <- _] & [= <- _])%st_bind_ok)%st_bind_ok.
  injection Hn as <- Hn. unfold single in Hn.
  destruct (registers token) as [[|n [|]]|]; try done. injection Hn as ->.
  eexists. split; [done|]. intros m. unfold regs, upd. cbn [words].
  case_decide as Hm; [subst; by rewrite lookup_insert_eq, <- mask32_mod|].
  by rewrite lookup_insert_ne.
Qed.

Lemma set_pair_regs token h e index L L' u :
  set_pair token h e index L = (L', Ok u) →
  ∃ R', dst64 (regs L) token (h mod 2 ^ 64) = Some R' ∧ ∀ n, regs L' n = R' n.
Proof.
  unfold set_pair, dst64.
  intros (L1 & [n0 n1] & Hn & (L2 & lo & [= <- <-] & (L3 & hi & [= <- _] & [= <- _])%st_bind_ok)%st_bind_ok)%st_bind_ok.
  injection Hn as <- Hn. unfold pair_names in Hn.
  destruct (registers token) as [[|x [|y [|]]]|]; try done. injection Hn as -> ->.
  eexists. split; [done|]. intros m. unfold regs, upd. cbn [words].
  pose proof (split_halves h 32 32 ltac:(lia) ltac:(lia)) as Hs.
  change (32 + 32) with 64 in Hs. rewrite <- Hs.
  pose proof (Z.mod_pos_bound h (2 ^ 32) ltac:(lia)).
  case_decide as Hm; [|case_decide as Hm'].
  - subst. rewrite lookup_insert_eq. fields. f_equal.
    rewrite mask32_mod, Z.shiftr_div_pow2 by lia.
    apply (Z.div_unique_pos _ _ _ (h mod 2 ^ 32)); lia.
  - subst. rewrite lookup_insert_ne, lookup_insert_eq by done. fields. f_equal.
    rewrite mask32_mod.
    apply (Z.mod_unique_pos _ _ ((h / 2 ^ 32) mod 2 ^ 32)); lia.
  - by rewrite !lookup_insert_ne.
Qed.

(** Register files are compared pointwise. *)
Lemma src32_ext R1 R2 t : (∀ n, R1 n = R2 n) → src32 R1 t = src32 R2 t.
Proof.
  intros E. unfold src32. destruct (immediate t); [done|].
  destruct (registers t) as [[|n [|]]|]; done.
Qed.

Lemma src64_ext R1 R2 t : (∀ n, R1 n = R2 n) → src64 R1 t = src64 R2 t.
Proof.
  intros E. unfold src64. destruct (immediate t); [done|].
  destruct (registers t) as [[|n [|m [|]]]|]; try done. by rewrite !E.
Qed.

Lemma dst32_ext R1 R2 t v R1' :
  (∀ n, R1 n = R2 n) → dst32 R1 t v = Some R1' →
  ∃ R2', dst32 R2 t v = Some R2' ∧ ∀ n, R1' n = R2' n.
Proof.
  intros E. unfold dst32. destruct (registers t) as [[|n [|]]|]; try done.
  intros [= <-]. eexists. split; [done|]. intros m. unfold upd. by case_decide.
Qed.

Lemma dst64_ext R1 R2 t v R1' :
  (∀ n, R1 n = R2 n) → dst64 R1 t v = Some R1' →
  ∃ R2', dst64 R2 t v = Some R2' ∧ ∀ n, R1' n = R2' n.
Proof.
  intros E. unfold dst64. destruct (registers t) as [[|n [|m [|]]]|]; try done.
  intros [= <-]. eexists. split; [done|]. intros k. unfold upd. by repeat case_decide.
Qed.

Lemma src32_range H L t x : lane_inv H L → src32 (regs L) t = Some x → 0 ≤ x < 2 ^ 32.
Proof.
  intros HI. unfold src32. destruct (immediate t); [intros [= <-]; by apply land_mod_range|].
  destruct (registers t) as [[|n [|]]|]; try done. by eapply regs_range.
Qed.

Lemma op_at_inv ops i L L' o : op_at ops i L = (L', Ok o) → L' = L ∧ ops !! i = Some o.
Proof. unfold op_at. destruct (ops !! i); [by intros [-> ->]%ret_inv|done]. Qed.

Lemma ops_shape3 (ops : list string) d a b :
  ops !! 0%nat = Some d → ops !! 1%nat = Some a → ops !! 2%nat = Some b →
  ∃ rest, ops = d :: a :: b :: rest.
Proof. destruct ops as [|? [|? [|? rest]]]; simpl; try done. naive_solver. Qed.

(** One goal of the simulation: the handler's lane agrees with [o]. *)
Definition simulates (o : option reg_file) (L' : Lane) : Prop :=
  ∃ R', o = Some R' ∧ ∀ n, regs L' n = R' n.

Lemma simulates_dst32 L L1 tok h e index k r L' u :
  (∀ n, regs L1 n = regs L n) → set_word tok h e index k r L1 = (L', Ok u) →
  simulates (dst32 (regs L) tok (h mod 2 ^ 32)) L'.
Proof.
  intros E (R1 & H1 & HR)%set_word_regs. eapply dst32_ext in H1 as (R2 & H2 & HE); [|done].
  exists R2. split; [done|]. intros n. by rewrite HR.
Qed.

Lemma bitwise_regs f index ops H L L' u :
  lane_inv H L →
  (∀ a b, 0 ≤ a < 2 ^ 32 → 0 ≤ b < 2 ^ 32 → 0 ≤ f a b < 2 ^ 32) →
  bitwise leaf f index ops L = (L', Ok u) →
  ∃ d a b rest, ops = d :: a :: b :: rest ∧
    simulates (x ← src32 (regs L) a; y ← src32 (regs L) b; dst32 (regs L) d (f x y)) L'.
Proof.
  intros HI Hf. unfold bitwise.
  intros (? & a & [-> Ha]%op_at_inv & (L1 & [[x ?] ?] & Hx & Hr)%st_bind_ok)%st_bind_ok.
  apply st_bind_ok in Hr as (? & b & [-> Hb]%op_at_inv & (L2 & [[y ?] ?] & Hy & Hr)%st_bind_ok).
  apply st_bind_ok in Hr as (? & d & [-> Hd]%op_at_inv & Hset).
  destruct (ops_shape3 _ _ _ _ Hd Ha Hb) as [rest ->]. exists d, a, b, rest. split; [done|].
  apply operand_regs in Hx as [Hx E1], Hy as [Hy E2].
  rewrite (src32_ext _ (regs L)) in Hy by done.
  rewrite Hx, Hy. simpl. cbn [fst snd] in Hset.
  eapply (simulates_dst32 L) in Hset; [|intros n; by rewrite E2].
  rewrite Z.mod_small in Hset; [done|]. eapply Hf; by eapply src32_range.
Qed.

Lemma mul_lo_regs index ops L L' u :
  mul_lo leaf index ops L = (L', Ok u) →
  ∃ d a b rest, ops = d :: a :: b :: rest ∧
    simulates (x ← src32 (regs L) a; y ← src32 (regs L) b;
               dst32 (regs L) d ((x * y) mod 2 ^ 32)) L'.
Proof.
  unfold mul_lo. destruct ops as [|d [|a [|b rest]]]; try done.
  { by intros (? & ? & ? & [=])%st_bind_ok. }
  intros (L1 & [[x ?] ?] & Hx & (L2 & [[y ?] ?] & Hy & (? & ? & [-> [= <-]]%op_at_inv & Hset)%st_bind_ok)%st_bind_ok)%st_bind_ok.
  exists d, a, b, rest. split; [done|].
  apply operand_regs in Hx as [Hx E1], Hy as [Hy E2].
  rewrite (src32_ext _ (regs L)) in Hy by done. rewrite Hx, Hy. simpl. cbn [fst snd] in Hset.
  eapply simulates_dst32; [|done]. intros n. by rewrite E2.
Qed.

Lemma ashr_regs index ops H L L' u :
  lane_inv H L → ashr leaf index ops L = (L', Ok u) →
  ∃ d a b rest, ops = d :: a :: b :: rest ∧
    simulates (s ← src32 (regs L) a; y ← src32 (regs L) b;
               dst32 (regs L) d ((sgn y / 2 ^ (s mod 32)) mod 2 ^ 32)) L'.
Proof.
  intros HI. unfold ashr.
  intros (? & b & [-> Hb]%op_at_inv & (L1 & [[y e] w] & Hy & Hr)%st_bind_ok)%st_bind_ok.
  apply st_bind_ok in Hr as (? & a & [-> Ha]%op_at_inv & (L2 & [[s ?] ?] & Hs & Hr)%st_bind_ok).
  cbn [fst snd] in Hr. apply st_bind_ok in Hr as (? & d & [-> Hd]%op_at_inv & Hset).
  destruct (ops_shape3 _ _ _ _ Hd Ha Hb) as [rest ->]. exists d, a, b, rest. split; [done|].
  apply operand_regs in Hy as [Hy E1], Hs as [Hs E2].
  rewrite (src32_ext _ (regs L)) in Hs by done. rewrite Hs, Hy. simpl.
  pose proof (src32_range _ _ _ _ HI Hy) as Hyr.
  assert (∀ n, regs L2 n = regs L n) as E by (intros n; by rewrite E2).
  assert (Z.land s 31 = s mod 32) as Hshift by (change 31 with (Z.ones 5); by rewrite Z.land_ones).
  rewrite Hshift in Hset.
  replace (sgn y / 2 ^ (s mod 32)) with (Z.shiftr (signed32 y) (s mod 32))
    by (rewrite Z.shiftr_div_pow2 by (apply Z.mod_pos_bound; lia); by rewrite signed32_alt).
  destruct w as [wd|]; [|by eapply simulates_dst32].
  destruct (Z.eqb_spec (s mod 32) 31) as [E31|].
  - rewrite E31. by eapply simulates_dst32.
  - apply st_bind_ok in Hset as (L3 & ? & Hov & Hset).
    eapply simulates_dst32; [|done]. intros m. rewrite <- E.
    destruct (bool_decide _ && _); [by injection Hov as <- _|].
    by apply ret_inv in Hov as [-> _].
Qed.

Lemma lshl_add64_regs index ops H L L' u :
  lane_inv H L → lshl_add64 leaf index ops L = (L', Ok u) →
  ∃ d a b c rest, ops = d :: a :: b :: c :: rest ∧
    simulates (x ← src64 (regs L) a; s ← src32 (regs L) b; z ← src64 (regs L) c;
               if s <=? 4 then dst64 (regs L) d ((x * 2 ^ s + z) mod 2 ^ 64) else None) L'.
Proof.
  intros HI. unfold lshl_add64.
  intros (? & a & [-> Ha]%op_at_inv & (L1 & [x xe] & Hx & Hr)%st_bind_ok)%st_bind_ok.
  apply st_bind_ok in Hr as (? & b & [-> Hb]%op_at_inv & (L2 & [[s se] sw] & Hs & Hr)%st_bind_ok).
  cbn [fst snd] in Hr. destruct (Z.ltb_spec 4 s) as [|Hs4]; [done|].
  apply st_bind_ok in Hr as (? & c & [-> Hc]%op_at_inv & (L3 & [z ze] & Hz & Hr)%st_bind_ok).
  cbn [fst snd] in Hr. apply st_bind_ok in Hr as (? & d & [-> Hd]%op_at_inv & Hset).
  destruct (wp_pair a index H L HI _ _ Hx) as (H1 & _ & _ & HI1 & _).
  destruct (wp_operand b false H1 L1 HI1 _ _ Hs) as (H2 & _ & _ & HI2 & _).
  apply (pair_regs _ _ H) in Hx as [Hx E1]; [|done].
  apply operand_regs in Hs as [Hs E2]. apply (pair_regs _ _ H2) in Hz as [Hz E3]; [|done].
  pose proof (src32_range _ _ _ _ HI1 Hs) as Hsr.
  rewrite (src32_ext _ (regs L)) in Hs by done.
  rewrite (src64_ext _ (regs L)) in Hz by (intros n; by rewrite E2).
  destruct ops as [|? [|? [|? [|? rest]]]]; simplify_eq/=.
  eexists _, _, _, _, rest. split; [done|]. rewrite Hx, Hs, Hz. simpl.
  rewrite (proj2 (Z.leb_le s 4)) by lia.
  rewrite Z.shiftl_mul_pow2 in Hset by lia. apply set_pair_regs in Hset as (R1 & H3' & HR).
  eapply dst64_ext in H3' as (R2 & Hd2 & HE); [|intros n; by rewrite E3, E2, E1].
  exists R2. split; [done|]. intros n. by rewrite HR.
Qed.

Lemma run_simulates index asm H L L' u :
  lane_inv H L → run leaf index asm L = (L', Ok u) →
  ∃ opcode ops mods, split asm = Ok (opcode, ops, mods) ∧
    simulates (arch_exec opcode ops (regs L)) L'.
Proof.
  intros HI. unfold run.
  intros (L1 & [[opcode ops] mods] & Hs & Hr)%st_bind_ok. injection Hs as <- Hs.
  exists opcode, ops, mods. split; [done|].
  unfold HANDLERS, arch_exec in *. repeat case_bool_decide; try done.
  - apply (bitwise_regs _ _ _ H) in Hr as (d & a & b & rest & -> & Hr); [done|done|].
    intros; apply land_range; lia.
  - apply (bitwise_regs _ _ _ H) in Hr as (d & a & b & rest & -> & Hr); [done|done|].
    intros; apply lor_range; lia.
  - by apply mul_lo_regs in Hr as (d & a & b & rest & -> & Hr).
  - by apply (ashr_regs _ _ H) in Hr as (d & a & b & rest & -> & Hr).
  - by apply (lshl_add64_regs _ _ H) in Hr as (d & a & b & c & rest & -> & Hr).
Qed.

Lemma bind_ext {A} (o1 o2 : option A) (k1 k2 : A → option reg_file) R1' :
  o1 = o2 → (∀ a R, k1 a = Some R → ∃ R', k2 a = Some R' ∧ ∀ n, R n = R' n) →
  o1 ≫= k1 = Some R1' → ∃ R2', o2 ≫= k2 = Some R2' ∧ ∀ n, R1' n = R2' n.
Proof. intros <- Hk. destruct o1; simpl; [apply Hk|done]. Qed.

Lemma arch_exec_ext opcode ops R1 R2 R1' :
  (∀ n, R1 n = R2 n) → arch_exec opcode ops R1 = Some R1' →
  ∃ R2', arch_exec opcode ops R2 = Some R2' ∧ ∀ n, R1' n = R2' n.
Proof.
  intros E. unfold arch_exec.
  destruct ops as [|d [|a [|b rest]]]; try done.
  repeat case_bool_decide; try done; try (destruct rest as [|c rest]; [done|]);
    repeat (apply bind_ext; [by first [apply src32_ext | apply src64_ext]|intros ? ?; cbv beta]);
    try (destruct (_ <=? _); [|done]);
    by first [apply dst32_ext | apply dst64_ext].
Qed.

Lemma arch_replay_ext prog R1 R2 R1' :
  (∀ n, R1 n = R2 n) → arch_replay prog R1 = Some R1' →
  ∃ R2', arch_replay prog R2 = Some R2' ∧ ∀ n, R1' n = R2' n.
Proof.
  revert R1 R2. induction prog as [|[i asm] prog IH]; simpl; intros R1 R2 E.
  { intros [= <-]. eauto. }
  destruct (split asm) as [[[opcode ops] mods]|]; [|done].
  intros (R & HR & Hrest)%bind_Some. eapply arch_exec_ext in HR as (R' & -> & HE); [|done].
  by eapply IH.
Qed.

Lemma replay_simulates prog H L L' u :
  lane_inv H L → replay leaf prog L = (L', Ok u) →
  simulates (arch_replay prog (regs L)) L'.
Proof.
  revert H L. induction prog as [|[i asm] prog IH]; intros H L HI; simpl.
  { intros [-> _]%ret_inv. by eexists. }
  intros (L1 & ? & Hrun & Hrest)%st_bind_ok.
  destruct (wp_run i asm H L HI _ _ Hrun) as (H1 & _ & _ & HI1 & _).
  apply (run_simulates _ _ H) in Hrun as (opcode & ops & mods & -> & R & HR & E); [|done].
  apply (IH H1) in Hrest as (R1 & HR1 & E1); [|done]. rewrite HR. simpl.
  eapply arch_replay_ext in HR1 as (R2 & HR2 & E2); [|done].
  exists R2. split; [done|]. intros n. by rewrite E1.
Qed.

End WithLeaf.

(** *** What an instruction reads and writes *)

Lemma src32_agree R1 R2 t :
  (∀ n, n ∈ register_set t → R1 n = R2 n) → src32 R1 t = src32 R2 t.
Proof.
  intros E. unfold src32, register_set in *. destruct (immediate t); [done|].
  destruct (registers t) as [[|n [|]]|]; try done. apply E. set_solver.
Qed.

Lemma src64_agree R1 R2 t :
  (∀ n, n ∈ register_set t → R1 n = R2 n) → src64 R1 t = src64 R2 t.
Proof.
  intros E. unfold src64, register_set in *. destruct (immediate t); [done|].
  destruct (registers t) as [[|n [|m [|]]]|]; try done. simpl in E.
  by rewrite !E by set_solver.
Qed.

Lemma dst32_writes R1 R2 t v R1' R2' n :
  dst32 R1 t v = Some R1' → dst32 R2 t v = Some R2' →
  (n ∉ register_set t → R1' n = R1 n) ∧
  (n ∈ register_set t → R1' n = R2' n).
Proof.
  unfold dst32, register_set, upd. destruct (registers t) as [[|x [|]]|]; try done.
  intros [= <-] [= <-]. simpl. split; intros; case_decide; set_solver.
Qed.

Lemma dst64_writes R1 R2 t v R1' R2' n :
  dst64 R1 t v = Some R1' → dst64 R2 t v = Some R2' →
  (n ∉ register_set t → R1' n = R1 n) ∧
  (n ∈ register_set t → R1' n = R2' n).
Proof.
  unfold dst64, register_set, upd. destruct (registers t) as [[|x [|y [|]]]|]; try done.
  intros [= <-] [= <-]. simpl. split; intros; repeat case_decide; set_solver.
Qed.

(** The registers an instruction writes depend only on those it reads. *)
Lemma arch_exec_frame opcode d rest R1 R2 R1' R2' n :
  arch_exec opcode (d :: rest) R1 = Some R1' → arch_exec opcode (d :: rest) R2 = Some R2' →
  (∀ m, m ∈ ⋃ (register_set <$> rest) → R1 m = R2 m) →
  (n ∉ register_set d → R1' n = R1 n) ∧ (n ∈ register_set d → R1' n = R2' n).
Proof.
  intros H1 H2 E. unfold arch_exec in *.
  destruct rest as [|a [|b rest]]; try done. simpl in E.
  rewrite (src32_agree R2 R1 a), (src32_agree R2 R1 b) in H2
    by (intros; symmetry; apply E; set_solver).
  repeat case_bool_decide; try done;
    try (destruct rest as [|c rest]; [done|]; simpl in E;
         rewrite (src64_agree R2 R1 a), (src64_agree R2 R1 c) in H2
           by (intros; symmetry; apply E; set_solver));
    repeat match type of H1 with
           | ?o ≫= _ = Some _ => destruct o; cbn [mbind option_bind] in H1, H2; [|done]
           end;
    try (destruct (_ <=? _); [|done]);
    first [by eapply dst32_writes | by eapply dst64_writes].
Qed.

Lemma effects_modelled opcode ops mods asm R R' :
  split asm = Ok (opcode, ops, mods) → arch_exec opcode ops R = Some R' →
  "lds"%string ∉ mods →
  ∃ d rest, ops = d :: rest ∧
    effects asm = Ok (⋃ (register_set <$> rest), register_set d).
Proof.
  intros Hs Hx Hl. destruct ops as [|d rest]; [done|]. exists d, rest. split; [done|].
  unfold effects. rewrite Hs. simpl.
  assert (no_register_write opcode mods = false ∧ opcode ∉ TWO_DESTINATIONS) as [-> Hn].
  { unfold arch_exec in Hx. destruct rest as [|a [|b rest]]; try done.
    unfold no_register_write. rewrite (bool_decide_eq_false_2 (_ ∈ mods)) by done.
    repeat case_bool_decide; try done; subst; split; try done;
      by apply (bool_decide_unpack _); vm_compute. }
  rewrite (bool_decide_eq_false_2 (opcode ∈ _)) by done. simpl.
  by rewrite union_empty_r_L.
Qed.

(** *** The words behind a 64-bit operand *)


(** The signed 64-bit reading of an address's bits. *)
Definition s64 (bits : Z) : Z := if bits <? 2 ^ 63 then bits else bits - 2 ^ 64.



(** ** Properties *)


(** C2: the hardware half of the replay is the architecture: the bits the lane
    holds after a program, and the bits of any 64-bit operand read then, are
    those of the reference register machine [arch_replay] run from the
    snapshot. *)
Theorem replay_refines_arch leaf prog L :
  replay leaf prog lane0 = (L, Ok ()) →
  ∃ R, arch_replay prog (regs leaf lane0) = Some R ∧
       (∀ n, regs leaf L n = R n) ∧
       ∀ token at_ L' bits e,
         pair leaf token at_ L = (L', Ok (bits, e)) → src64 R token = Some bits.
Proof.
  intros Hr. destruct (replay_inv leaf prog L _ Hr) as [H HI].
  destruct (replay_simulates leaf prog [] lane0 L () lane0_inv Hr) as (R & HR & E).
  exists R. split_and!; [done|done|]. intros token at_ L' bits e Hp.
  apply (pair_regs leaf _ _ H) in Hp as [Hp _]; [|done].
  by rewrite (src64_ext R (regs leaf L)).
Qed.

(** A widening is flagged exactly when it is wrong: reading a word under its
    own sign word, in a lane with no overflow so far, records an overflow (at
    this instruction, naming the word's producer and exact value) if and only
    if the signed address the hardware forms differs from the exact one. *)
Theorem pair_sext_flag_iff leaf prog L r token at_ n0 n1 low high :
  replay leaf prog lane0 = (L, r) → overflows L = [] →
  immediate token = None → registers token = Some [n0; n1] →
  words L !! n0 = Some low → words L !! n1 = Some high →
  is_ref high low = true → kind high = KSext →
  let bits := hw low + hw high * 2 ^ 32 in
  let e := value low true in
  pair leaf token at_ L =
    (mkLane (words L) (if decide (e = s64 bits) then [] else [mkOverflow at_ (producer low) e])
       (heap L), Ok (bits, e)).
Proof.
  intros Hr Hc Hi Hreg H0 H1 Href Hk. destruct (replay_inv leaf prog L _ Hr) as [H HI].
  pose proof (inv_live _ _ HI _ _ H0) as Hl. pose proof (inv_live _ _ HI _ _ H1) as Hh.
  pose proof (inv_wf _ _ HI _ _ Hl) as [Hlr Hlk]. pose proof (inv_wf _ _ HI _ _ Hh) as [Hhr Hhk].
  rewrite Hk in Hhk. destruct Hhk as (low' & Hr' & Hl' & Hsw & _).
  unfold is_ref in Href. apply bool_decide_eq_true in Href. rewrite Href in Hr'.
  injection Hr' as Heq. rewrite <- Heq in Hl'. assert (low' = low) as -> by congruence.
  pose proof (value_eqm H low true ltac:(by split) (inv_sound _ _ HI Hc _ _ Hl)) as Hval.
  pose proof (sign_word_signed64 _ Hlr) as Hs64. cbv zeta in Hs64. rewrite <- Hsw in Hs64.
  fold (s64 (hw low + hw high * 2 ^ 32)) in Hs64.
  assert ((- Z.shiftl 1 31 <=? value low true) && (value low true <? Z.shiftl 1 31)
          = bool_decide (value low true = s64 (hw low + hw high * 2 ^ 32))) as Hflag.
  { apply eq_bool_prop_intro. rewrite bool_decide_spec, !Is_true_true, in_range_spec, Hs64.
    split; [intros; by apply signed32_unique|intros ->; by apply signed32_range]. }
  unfold pair. rewrite Hi. unfold pair_names. rewrite Hreg. unfold word, is_ref.
  unfold mbind, st_bind, st_lift, st_get, mret, st_ret. rewrite H0, H1, Hk.
  rewrite (bool_decide_eq_true_2 _ Href), Hflag. rewrite lor_shiftl by lia.
  cbn [andb]. rewrite (bool_decide_eq_false_2 (KSext = KPairHi)) by done.
  rewrite (bool_decide_eq_true_2 (KSext = KSext)) by done.
  destruct (decide _) as [Hd|Hd];
    [rewrite (bool_decide_eq_true_2 _ Hd)|rewrite (bool_decide_eq_false_2 _ Hd)].
  - by destruct L; simpl in *; subst.
  - unfold record_overflow, st_modify. by rewrite Hc.
Qed.

(** The slice is sound: for a modelled instruction without an [lds]
    modifier, [effects] lists every register it changes, and the values it
    writes depend only on the registers listed as read: two lanes that agree on
    those get the same results. *)
Theorem run_effects_sound leaf leaf' prog prog' L1 L2 L1' L2' r r' index asm mods opcode ops :
  replay leaf prog lane0 = (L1, r) → replay leaf' prog' lane0 = (L2, r') →
  split asm = Ok (opcode, ops, mods) → "lds"%string ∉ mods →
  run leaf index asm L1 = (L1', Ok ()) → run leaf' index asm L2 = (L2', Ok ()) →
  ∃ reads writes, effects asm = Ok (reads, writes) ∧
    (∀ n, n ∉ writes → regs leaf L1' n = regs leaf L1 n) ∧
    ((∀ n, n ∈ reads → regs leaf L1 n = regs leaf' L2 n) →
     ∀ n, n ∈ writes → regs leaf L1' n = regs leaf' L2' n).
Proof.
  intros Hr1 Hr2 Hs Hlds Hrun1 Hrun2.
  destruct (replay_inv leaf prog L1 _ Hr1) as [H1 HI1].
  destruct (replay_inv leaf' prog' L2 _ Hr2) as [H2 HI2].
  apply (run_simulates leaf _ _ H1) in Hrun1 as (? & ? & ? & Hs1 & R1 & HR1 & E1); [|done].
  apply (run_simulates leaf' _ _ H2) in Hrun2 as (? & ? & ? & Hs2 & R2 & HR2 & E2); [|done].
  rewrite Hs in Hs1, Hs2. injection Hs1 as <- <- <-. injection Hs2 as <- <- <-.
  destruct (effects_modelled _ _ _ _ _ _ Hs HR1 Hlds) as (d & rest & -> & ->).
  eexists _, _. split; [done|]. split.
  - intros n Hn. rewrite E1.
    by apply (arch_exec_frame _ _ _ _ _ _ _ n HR1 HR1).
  - intros Ha n Hn. rewrite E1, E2.
    by apply (arch_exec_frame _ _ _ _ _ _ _ n HR1 HR2).
Qed.

(** C3: the register invariant, on every outcome: whatever a replay does (even
    raising half-way), the identity of each word object is its place on the
    heap and every register holds an object of the heap; and every object ever
    created is well formed.  Its bits are a 32-bit pattern.  A word of the
    snapshot has its bits as exact value.  Only two kinds refer to another
    object: the high half of a 64-bit sum refers to the low half of the same
    sum, written by the same instruction, and holds the exact sum's upper part;
    a sign word refers to the word whose sign it is, in its bits and in its
    exact value. *)
Theorem replay_words_wf leaf prog L r :
  replay leaf prog lane0 = (L, r) →
  (∀ i w, heap L !! i = Some w → w_id w = i) ∧
  (∀ n w, words L !! n = Some w → heap L !! w_id w = Some w) ∧
  (∀ i w, heap L !! i = Some w →
     0 ≤ hw w < 2 ^ 32 ∧
     (producer w = None → kind w = KWord ∧ exact w = hw w) ∧
     match kind w with
     | KWord | KBits | KPairLo => ref w = None
     | KPairHi => ∃ low, ref w = Some (w_id low) ∧ heap L !! w_id low = Some low ∧
         kind low = KPairLo ∧ producer low = producer w ∧ exact w = exact low / 2 ^ 32
     | KSext => ∃ low, ref w = Some (w_id low) ∧ heap L !! w_id low = Some low ∧
         hw w = (if hw low <? 2 ^ 31 then 0 else 2 ^ 32 - 1) ∧
         exact w = (if value low true <? 0 then -1 else 0)
     end).
Proof.
  intros Hr. destruct (replay_inv leaf prog L _ Hr) as [H HI].
  rewrite (inv_heap _ _ HI). split_and!; [apply (inv_id _ _ HI)|apply (inv_live _ _ HI)|].
  intros i w Hw. destruct (inv_wf _ _ HI _ _ Hw) as [Hrange Hk]. split; [done|].
  destruct (kind w); try naive_solver.
  - destruct Hk as (low & Href & Hl & Hkl & Hp & ->).
    destruct (inv_wf _ _ HI _ _ Hl) as [_ Hlk]. rewrite Hkl in Hlk. destruct Hlk as [_ Hlp].
    split; [by rewrite Hp|]. exists low. by rewrite Z.shiftr_div_pow2.
Qed.

(** ** Witnesses: the pre-fix store address of the gfx950 grouped GEMM *)

Definition gemm_leaf (v139 : Z) : string → option Z := λ n,
  if decide (n = "v139"%string) then Some v139
  else if decide (n = "s52"%string) then Some 65536 else None.
Definition gemm_program : list (Z * string) :=
  [ (5, "v_mul_lo_u32 v130, v139, s52"); (6, "v_ashrrev_i32_e32 v131, 31, v130") ]%string.
Definition gemm_lane (v139 : Z) : Lane := (replay (gemm_leaf v139) gemm_program lane0).1.

(** Row 32768 overflows: the hardware address is negative, the exact one is not. *)
Example gemm_overflow :
  overflows (pair (gemm_leaf 32768) "v[130:131]" 7 (gemm_lane 32768)).1 =
  [mkOverflow 7 (Some 5) 2147483648].
Proof. vm_compute. reflexivity. Qed.


Lemma replay_refines_arch_witness :
  ∃ R, arch_replay gemm_program (regs (gemm_leaf 32768) lane0) = Some R ∧
       R "v130"%string = Some 2147483648.
Proof.
  destruct (replay_refines_arch (gemm_leaf 32768) gemm_program (gemm_lane 32768))
    as (R & HR & E & _); [vm_compute; reflexivity|].
  exists R. split; [exact HR|]. rewrite <- E. vm_compute. reflexivity.
Defined.

Lemma pair_sext_flag_iff_witness :
  ∃ L', pair (gemm_leaf 32768) "v[130:131]" 7 (gemm_lane 32768) =
        (L', Ok (18446744071562067968, 2147483648)).
Proof.
  eexists.
  exact (pair_sext_flag_iff (gemm_leaf 32768) gemm_program (gemm_lane 32768) (Ok ())
           "v[130:131]" 7 "v130" "v131"
           (mkWord 2 2147483648 2147483648 KWord None (Some 5))
           (mkWord 3 4294967295 0 KSext (Some 2%nat) (Some 6))
           ltac:(vm_compute; reflexivity) ltac:(vm_compute; reflexivity)
           ltac:(vm_compute; reflexivity) ltac:(vm_compute; reflexivity)
           ltac:(vm_compute; reflexivity) ltac:(vm_compute; reflexivity)
           ltac:(vm_compute; reflexivity) ltac:(vm_compute; reflexivity)).
Defined.

Lemma run_effects_sound_witness :
  ∃ reads writes,
    effects "v_mul_lo_u32 v130, v139, s52" = Ok (reads, writes) ∧
    "v130"%string ∈ writes ∧ "s52"%string ∈ reads.
Proof.
  destruct (run_effects_sound (gemm_leaf 7) (gemm_leaf 7) [] [] lane0 lane0
              (run (gemm_leaf 7) 5 "v_mul_lo_u32 v130, v139, s52" lane0).1
              (run (gemm_leaf 7) 5 "v_mul_lo_u32 v130, v139, s52" lane0).1
              (Ok ()) (Ok ()) 5 "v_mul_lo_u32 v130, v139, s52" []
              "v_mul_lo_u32" ["v130"; "v139"; "s52"]%string)
    as (reads & writes & He & _);
    [vm_compute; reflexivity|vm_compute; reflexivity|vm_compute; reflexivity
    |apply not_elem_of_nil|vm_compute; reflexivity|vm_compute; reflexivity|].
  exists reads, writes. split; [exact He|]. revert He. vm_compute.
  intros [= <- <-]. split; apply (bool_decide_unpack _); vm_compute; exact I.
Defined.

(** The sign word of the overflowed row refers to the product it widens. *)
Lemma replay_words_wf_witness :
  ∃ w low, words (gemm_lane 32768) !! "v131"%string = Some w ∧ kind w = KSext ∧
    ref w = Some (w_id low) ∧ heap (gemm_lane 32768) !! w_id low = Some low ∧
    (if hw low <? 2 ^ 31 then 0 else 2 ^ 32 - 1) = hw w.
Proof.
  destruct (replay_words_wf (gemm_leaf 32768) gemm_program (gemm_lane 32768) (Ok ()))
    as (_ & Hlive & Hwf); [vm_compute; reflexivity|].
  destruct (words (gemm_lane 32768) !! "v131"%string) as [w|] eqn:Ew; [|vm_compute in Ew; discriminate].
  destruct (Hwf _ _ (Hlive _ _ Ew)) as (_ & _ & Hk). vm_compute in Ew. injection Ew as <-.
  destruct Hk as (low & Href & Hl & Hsw & _).
  eexists _, low. split; [reflexivity|]. split; [reflexivity|].
  split; [exact Href|]. split; [exact Hl|]. symmetry. exact Hsw.
Defined.
