(* ===== verification/DelayConfig.v ===== *)
(** Delay-injection configurations: src/python/cutracer/reduce/config_mutator.py.

    [DelayConfigMutator] keeps the JSON document and a list of [DelayPoint]
    objects parsed from it; [set_point_enabled] mutates both.  A [DelayPoint]
    object is named by its index in that list, so the aliasing between the list
    and the references the reducers hold is explicit.  Reading and writing files
    and JSON-schema validation are not modelled: a mutator starts from a parsed
    document whose objects have distinct keys ([config_wf]). *)
From S2P Require Import Prelude.
From S2P Require Import PyDict.
Local Open Scope Z_scope.

Record PointCfg := mkPointCfg {
  pc_sass : option string;
  pc_delay : option Z;
  pc_on : option bool
}.

Record KernelCfg := mkKernelCfg {
  kc_name : option string;
  kc_points : dict string PointCfg
}.

Record Config := mkConfig {
  cfg_delay_ns : option Z;
  cfg_kernels : dict string KernelCfg
}.

Record DelayPoint := mkPoint {
  kernel_key : string;
  kernel_name : string;
  pc_offset : string;
  sass : string;
  delay_ns : Z;
  enabled : bool
}.

Record Mutator := mkMutator {
  config : Config;
  delay_points : list DelayPoint
}.

(** The identity the reducers match points by. *)
Definition pid (p : DelayPoint) : string * string := (kernel_key p, pc_offset p).

Definition with_enabled (b : bool) (p : DelayPoint) : DelayPoint :=
  mkPoint (kernel_key p) (kernel_name p) (pc_offset p) (sass p) (delay_ns p) b.

Definition parse_point (key name pc : string) (c : PointCfg) : DelayPoint :=
  mkPoint key name pc (default "" (pc_sass c)) (default 0 (pc_delay c))
    (default false (pc_on c)).

Definition parse_kernel (key : string) (k : KernelCfg) : list DelayPoint :=
  (λ e, parse_point key (default key (kc_name k)) e.1 e.2) <$> kc_points k.

Definition parse_delay_points (c : Config) : list DelayPoint :=
  concat ((λ e, parse_kernel e.1 e.2) <$> cfg_kernels c).

Definition load_mutator (c : Config) : Mutator := mkMutator c (parse_delay_points c).

Definition enabled_points (m : Mutator) : list DelayPoint :=
  filter (λ p, enabled p = true) (delay_points m).

(** [config["kernels"][key]["instrumentation_points"][pc]["on"] = enabled]. *)
Definition set_on (c : Config) (key pc : string) (b : bool) : res exn Config :=
  match dict_get (cfg_kernels c) key with
  | None => Err KeyError
  | Some k =>
      match dict_get (kc_points k) pc with
      | None => Err KeyError
      | Some p =>
          let p' := mkPointCfg (pc_sass p) (pc_delay p) (Some b) in
          let k' := mkKernelCfg (kc_name k) (dict_set (kc_points k) pc p') in
          Ok (mkConfig (cfg_delay_ns c) (dict_set (cfg_kernels c) key k'))
      end
  end.

(** [set_point_enabled(self.delay_points[i], b)]: the object, then the document. *)
Definition set_point_enabled (m : Mutator) (i : nat) (b : bool) : res exn Mutator :=
  match delay_points m !! i with
  | None => Err IndexError
  | Some p =>
      c' ← set_on (config m) (kernel_key p) (pc_offset p) b;
      Ok (mkMutator c' (<[i := with_enabled b p]> (delay_points m)))
  end.

Fixpoint set_enabled_all (m : Mutator) (idx : list nat) (b : bool) : res exn Mutator :=
  match idx with
  | [] => Ok m
  | i :: rest => m' ← set_point_enabled m i b; set_enabled_all m' rest b
  end.

Definition set_all_enabled (m : Mutator) (b : bool) : res exn Mutator :=
  set_enabled_all m (seq 0 (length (delay_points m))) b.

(** [copy.deepcopy] of the document, re-parsed. *)
Definition clone (m : Mutator) : Mutator := load_mutator (config m).

(** References (indices) to the points that satisfy a test, in list order. *)
Definition refs_where (P : DelayPoint → bool) (m : Mutator) : list nat :=
  filter (λ i, P <$> delay_points m !! i = Some true) (seq 0 (length (delay_points m))).

(** ** Well-formedness and the mutator's invariant *)

Definition config_wf (c : Config) : Prop :=
  dict_wf (cfg_kernels c) ∧
  ∀ key k, (key, k) ∈ cfg_kernels c → dict_wf (kc_points k).

(** The two halves of a mutator agree: the object list is the parse of the document. *)
Definition mutator_inv (m : Mutator) : Prop :=
  config_wf (config m) ∧ delay_points m = parse_delay_points (config m).

(** The document with one point's switch rewritten, seen through the parser. *)
Definition flip (key pc : string) (b : bool) (p : DelayPoint) : DelayPoint :=
  if decide (pid p = (key, pc)) then with_enabled b p else p.

(** ** Parsing and switching *)

Lemma elem_of_parse c p :
  p ∈ parse_delay_points c ↔
  ∃ key k pc q, (key, k) ∈ cfg_kernels c ∧ (pc, q) ∈ kc_points k ∧
                p = parse_point key (default key (kc_name k)) pc q.
Proof.
  unfold parse_delay_points, parse_kernel. rewrite list_elem_of_In, in_concat. split.
  - intros (l & Hl & Hp). apply list_elem_of_In, list_elem_of_fmap in Hl as ([key k] & -> & Hk).
    apply list_elem_of_In, list_elem_of_fmap in Hp as ([pc q] & -> & Hq). naive_solver.
  - intros (key & k & pc & q & Hk & Hq & ->). eexists. split.
    + apply list_elem_of_In, list_elem_of_fmap. exists (key, k). eauto.
    + apply list_elem_of_In, list_elem_of_fmap. exists (pc, q). eauto.
Qed.

Lemma pid_parse_kernel key k : pid <$> parse_kernel key k = (λ pc, (key, pc)) <$> (kc_points k).*1.
Proof. unfold parse_kernel. rewrite <- !list_fmap_compose. done. Qed.

(** Distinct JSON keys give distinct point identities. *)
Lemma parse_pids_NoDup c : config_wf c → NoDup (pid <$> parse_delay_points c).
Proof.
  intros [Hk Hp]. unfold parse_delay_points, dict_wf in *.
  induction (cfg_kernels c) as [|[key k] d IH]; simpl in *; [constructor|].
  apply NoDup_cons in Hk as [Hkey Hk].
  rewrite fmap_app, NoDup_app, pid_parse_kernel. split_and!.
  - apply (NoDup_fmap_2 _). apply (Hp key). by left.
  - intros [key' pc'] Hin Hin'. apply list_elem_of_fmap in Hin as (pc & [= -> ->] & _).
    apply list_elem_of_fmap in Hin' as (p & Hpid & Hin').
    apply list_elem_of_In, in_concat in Hin' as (l & Hl & Hin').
    apply list_elem_of_In, list_elem_of_fmap in Hl as ([key' k'] & -> & Hk').
    apply list_elem_of_In, list_elem_of_fmap in Hin' as ([pc' q] & -> & _).
    injection Hpid as -> ->. apply Hkey, list_elem_of_fmap. by exists (key', k').
  - apply IH; [done|]. intros. apply (Hp key0). by right.
Qed.

Lemma parse_kernel_set key k pc q b :
  dict_wf (kc_points k) → (pc, q) ∈ kc_points k →
  parse_kernel key (mkKernelCfg (kc_name k)
    (dict_set (kc_points k) pc (mkPointCfg (pc_sass q) (pc_delay q) (Some b)))) =
  flip key pc b <$> parse_kernel key k.
Proof.
  intros Hwf Hin. unfold parse_kernel. cbn [kc_name kc_points].
  rewrite dict_set_map; [|done|apply list_elem_of_fmap; by exists (pc, q)].
  rewrite <- !list_fmap_compose. apply list_fmap_ext. intros i [pc' q'] Hi. simpl.
  unfold flip, pid. simpl. case_decide as E.
  - subst. rewrite decide_True by done.
    apply list_elem_of_lookup_2 in Hi.
    apply (dict_wf_get _ _ _ Hwf) in Hi. apply (dict_wf_get _ _ _ Hwf) in Hin. by simplify_eq.
  - rewrite decide_False by congruence. done.
Qed.

Lemma flip_other key pc b key' k :
  key ≠ key' → flip key pc b <$> parse_kernel key' k = parse_kernel key' k.
Proof.
  intros Hne. unfold parse_kernel. rewrite <- list_fmap_compose.
  apply list_fmap_ext. intros i [pc' q'] Hi. unfold flip, pid. simpl.
  rewrite decide_False by congruence. done.
Qed.

Lemma set_on_spec c key pc b c' :
  config_wf c → set_on c key pc b = Ok c' →
  config_wf c' ∧ parse_delay_points c' = flip key pc b <$> parse_delay_points c.
Proof.
  intros [Hk Hp]. unfold set_on.
  destruct (dict_get (cfg_kernels c) key) as [k|] eqn:Ek; [|done].
  destruct (dict_get (kc_points k) pc) as [q|] eqn:Eq; [|done]. intros [= <-].
  pose proof (dict_get_In _ _ _ Ek) as Hkin. pose proof (dict_get_In _ _ _ Eq) as Hqin.
  assert (key ∈ (cfg_kernels c).*1) as Hkey by (apply list_elem_of_fmap; by exists (key, k)).
  split.
  - split; cbn [cfg_kernels]; [by apply dict_wf_set|].
    rewrite dict_set_map by done. intros key' k' Hin.
    apply list_elem_of_fmap in Hin as ([key2 k2] & Heq & Hin). simpl in Heq.
    case_decide; injection Heq as -> ->; [|by eapply Hp].
    apply dict_wf_set. by eapply Hp.
  - unfold parse_delay_points. cbn [cfg_kernels]. rewrite dict_set_map by done.
    rewrite concat_fmap, <- !list_fmap_compose. f_equal.
    apply list_fmap_ext. intros i [key' k'] Hi. simpl. apply list_elem_of_lookup_2 in Hi.
    case_decide as E; simpl.
    + subst. apply (dict_wf_get _ _ _ Hk) in Hi. rewrite Ek in Hi. injection Hi as <-.
      apply parse_kernel_set; [by eapply Hp|done].
    + by rewrite flip_other by congruence.
Qed.

Lemma set_on_ok c p b :
  config_wf c → p ∈ parse_delay_points c →
  ∃ c', set_on c (kernel_key p) (pc_offset p) b = Ok c'.
Proof.
  intros [Hk Hp] Hin. apply elem_of_parse in Hin as (key & k & pc & q & Hkin & Hqin & ->).
  unfold set_on. simpl.
  rewrite (dict_wf_get _ _ _ Hk Hkin), (dict_wf_get _ _ _ (Hp _ _ Hkin) Hqin). eauto.
Qed.

(** Flipping by identity is updating the one list slot that has it. *)
Lemma flip_insert l i p b :
  NoDup (pid <$> l) → l !! i = Some p →
  flip (kernel_key p) (pc_offset p) b <$> l = <[i := with_enabled b p]> l.
Proof.
  intros Hnd Hi. apply list_eq. intros j. rewrite list_lookup_fmap.
  destruct (decide (i = j)) as [<-|Hne].
  - rewrite Hi, list_lookup_insert_eq by (by eapply lookup_lt_Some). simpl.
    unfold flip. by rewrite decide_True.
  - rewrite list_lookup_insert_ne by done. destruct (l !! j) as [q|] eqn:Hj; [|done]. simpl.
    f_equal. unfold flip. apply decide_False. intros E. apply Hne.
    eapply (NoDup_lookup _ i j (pid p) Hnd); rewrite list_lookup_fmap.
    + by rewrite Hi.
    + rewrite Hj. simpl. by rewrite E.
Qed.

Lemma load_mutator_inv c : config_wf c → mutator_inv (load_mutator c).
Proof. done. Qed.

Lemma set_point_enabled_spec m i p b :
  mutator_inv m → delay_points m !! i = Some p →
  ∃ m', set_point_enabled m i b = Ok m' ∧ mutator_inv m' ∧
        delay_points m' = <[i := with_enabled b p]> (delay_points m).
Proof.
  intros [Hwf Hsync] Hi. unfold set_point_enabled. rewrite Hi.
  destruct (set_on_ok (config m) p b) as [c' Hc]; [done| |].
  { rewrite <- Hsync. by eapply list_elem_of_lookup_2. }
  rewrite Hc. simpl. eexists. split; [done|].
  destruct (set_on_spec _ _ _ _ _ Hwf Hc) as [Hwf' Hp].
  split; [|done]. split; cbn [config delay_points]; [done|]. rewrite Hp, <- Hsync.
  symmetry. apply flip_insert; [|done]. rewrite Hsync. by apply parse_pids_NoDup.
Qed.

(** What a batch of switches does: exactly the named slots change. *)
Lemma set_enabled_all_spec idx m b :
  mutator_inv m → Forall (λ i, i < length (delay_points m))%nat idx →
  ∃ m', set_enabled_all m idx b = Ok m' ∧ mutator_inv m' ∧
        delay_points m' =
        imap (λ i p, if decide (i ∈ idx) then with_enabled b p else p) (delay_points m).
Proof.
  revert m. induction idx as [|i idx IH]; intros m Hinv Hlt.
  { exists m. split_and!; [done|done|]. symmetry. apply list_eq. intros j.
    rewrite list_lookup_imap. by destruct (delay_points m !! j). }
  apply Forall_cons in Hlt as [Hi Hlt]. apply lookup_lt_is_Some in Hi as [p Hp].
  destruct (set_point_enabled_spec m i p b Hinv Hp) as (m1 & H1 & Hinv1 & Hd1).
  destruct (IH m1 Hinv1) as (m2 & H2 & Hinv2 & Hd2); [by rewrite Hd1, length_insert|].
  exists m2. simpl. rewrite H1. split_and!; [done|done|].
  rewrite Hd2, Hd1. apply list_eq. intros j. rewrite !list_lookup_imap.
  destruct (decide (i = j)) as [<-|Hne].
  - rewrite list_lookup_insert_eq by (by eapply lookup_lt_Some). rewrite Hp. simpl. f_equal.
    rewrite (decide_True (P := i ∈ i :: idx)) by (by left). by case_decide.
  - rewrite list_lookup_insert_ne by done.
    destruct (delay_points m !! j) as [q|]; [|done]. simpl. f_equal.
    repeat case_decide; set_solver.
Qed.

Lemma set_all_enabled_spec m b :
  mutator_inv m →
  ∃ m', set_all_enabled m b = Ok m' ∧ mutator_inv m' ∧
        delay_points m' = with_enabled b <$> delay_points m.
Proof.
  intros Hinv. unfold set_all_enabled.
  destruct (set_enabled_all_spec (seq 0 (length (delay_points m))) m b) as (m' & Hr & Hi & Hd);
    [done|apply Forall_forall; intros i Hi%elem_of_seq; lia|].
  exists m'. split_and!; [done|done|]. rewrite Hd. apply list_eq. intros j.
  rewrite list_lookup_imap, list_lookup_fmap.
  destruct (delay_points m !! j) as [q|] eqn:E; [|done]. simpl. f_equal.
  apply decide_True, elem_of_seq. apply lookup_lt_Some in E. lia.
Qed.

Lemma clone_id m : mutator_inv m → clone m = m.
Proof. intros [_ Hs]. unfold clone, load_mutator. rewrite <- Hs. by destruct m. Qed.

Lemma elem_of_refs_where P m i :
  i ∈ refs_where P m ↔ ∃ p, delay_points m !! i = Some p ∧ P p = true.
Proof.
  unfold refs_where. rewrite list_elem_of_filter, fmap_Some, elem_of_seq. split.
  - intros [(p & ? & ?) _]. eauto.
  - intros (p & Hp & HP). split; [eauto|]. apply lookup_lt_Some in Hp. lia.
Qed.

Lemma refs_where_lt P m : Forall (λ i, i < length (delay_points m))%nat (refs_where P m).
Proof.
  apply Forall_forall. intros i (p & Hp & _)%elem_of_refs_where. by eapply lookup_lt_Some.
Qed.

(** Reading the referenced identities gives those of the filtered points. *)
Lemma refs_where_pids P m :
  pid <$> filter (λ p, P p = true) (delay_points m) =
  (λ i, (pid <$> delay_points m) !!! i) <$> refs_where P m.
Proof.
  unfold refs_where. induction (delay_points m) as [|p l IH] using rev_ind; [done|].
  rewrite length_app, seq_app, !filter_app, !fmap_app. simpl.
  assert (filter (λ i, P <$> (l ++ [p]) !! i = Some true) (seq 0 (length l)) =
          filter (λ i, P <$> l !! i = Some true) (seq 0 (length l))) as ->.
  { assert (∀ i, i ∈ seq 0 (length l) → (i < length l)%nat) as Hlt
      by (intros i Hi%elem_of_seq; lia).
    revert Hlt. generalize (seq 0 (length l)) as k. intros k Hlt.
    induction k as [|i k IHk]; [done|].
    rewrite !filter_cons, lookup_app_l by (apply Hlt; by left).
    rewrite IHk by (intros; apply Hlt; by right). done. }
  f_equal.
  - rewrite IH. apply list_fmap_ext. intros j i Hi. apply list_elem_of_lookup_2 in Hi.
    apply list_elem_of_filter in Hi as [_ Hi%elem_of_seq].
    rewrite lookup_total_app_l; [done|]. rewrite length_fmap. lia.
  - rewrite !filter_cons, lookup_app_r, Nat.sub_diag by done. cbn [lookup list_lookup fmap option_fmap option_map].
    destruct (P p) eqn:E.
    + rewrite !decide_True by (done || by simpl; rewrite E). simpl. f_equal.
      rewrite lookup_total_app_r; rewrite length_fmap; [by rewrite Nat.sub_diag|done].
    + rewrite !decide_False by (congruence || (simpl; congruence)). done.
Qed.

(** Switching a point on a mutator changes that point of the object list
    and nothing else, never raises for a point of the list, and leaves the
    document re-parsing to exactly the mutated list, so a clone (or a saved and
    re-read file) sees the same points. *)
Theorem mutator_switch_synced m i p b :
  mutator_inv m → delay_points m !! i = Some p →
  ∃ m', set_point_enabled m i b = Ok m' ∧
        delay_points m' = <[i := with_enabled b p]> (delay_points m) ∧
        clone m' = m' ∧ config_wf (config m') ∧
        pid <$> delay_points m' = pid <$> delay_points m.
Proof.
  intros Hinv Hi. destruct (set_point_enabled_spec m i p b Hinv Hi) as (m' & Hs & Hinv' & Hd).
  exists m'. split_and!; [done|done|by apply clone_id|by apply Hinv'|].
  rewrite Hd, list_fmap_insert. apply list_insert_id. by rewrite list_lookup_fmap, Hi.
Qed.

Lemma mutator_switch_synced_witness :
  let cfg := mkConfig None [("k", mkKernelCfg None
               [("16", mkPointCfg None (Some 10) (Some true));
                ("32", mkPointCfg None (Some 10) None)])] in
  ∃ m', set_point_enabled (load_mutator cfg) 1 true = Ok m' ∧ clone m' = m'.
Proof.
  intros cfg.
  destruct (mutator_switch_synced (load_mutator cfg) 1 (mkPoint "k" "k" "32" "" 10 false) true)
    as (m' & Hs & _ & Hc & _).
  - apply load_mutator_inv. split; [apply (bool_decide_unpack _); vm_compute; exact I|].
    intros key k Hk. cbn [cfg cfg_kernels] in Hk.
    apply list_elem_of_singleton in Hk. injection Hk as -> ->.
    apply (bool_decide_unpack _); vm_compute; exact I.
  - reflexivity.
  - exists m'. split; [exact Hs|exact Hc].
Defined.
