(* ===== verification/Replay.v ===== *)
(** Deterministic replays: the outcome classification of
    src/python/cutracer/reduce/reduce.py ([run_replay] and what it calls, up to
    [_candidate_is_interesting]).

    What the operating system and the instrumented process give back is an
    argument ([replay_env]): the target's exit, the watchdog lines of its logs,
    and the kernel-event files, whose lines are already split and parsed as JSON
    ([event_line]).  The decisions made on them are the source's. *)
From S2P Require Import Prelude.
From S2P Require Import PyStr.
From S2P Require Import DelayConfig.
Local Open Scope Z_scope.

Inductive ReplayOutcome :=
| INTERESTING | NOT_INTERESTING | INFRA_ERROR | TIMED_OUT | STALE_INPUT.

#[export] Instance replay_outcome_eq_dec : EqDecision ReplayOutcome.
Proof. solve_decision. Defined.

Record ReplayConfig := mkReplayConfig {
  oracle_argv : list string;
  hang_is_bug : bool;
  rp_timeout : Z;
  kernel_timeout_s : Z;
  expected_kernel_name : option string;
  expected_kernel_checksum : option string;
  not_interesting_exit_codes : list Z
}.

(** [str.strip()] leaves something. *)
Definition nonblank (s : string) : bool := bool_decide (strip (chars s) ≠ []).

(** [ReplayConfig.__post_init__]. *)
Definition replay_config_check (c : ReplayConfig) : res exn () :=
  if rp_timeout c <=? 0 then Err ValueError
  else if kernel_timeout_s c <? 0 then Err ValueError
  else match expected_kernel_name c, expected_kernel_checksum c with
       | None, None => Ok ()
       | Some n, Some k => if nonblank n && nonblank k then Ok () else Err ValueError
       | _, _ => Err ValueError
       end.

Record ReplayResult := mkReplayResult {
  outcome : ReplayOutcome;
  returncode : option Z;
  rr_stdout : string;
  rr_stderr : string;
  rr_error : option string
}.

Definition interesting (r : ReplayResult) : bool := bool_decide (outcome r = INTERESTING).

(** [_replay_delay_ns]: the document's delay, or the largest of its points'. *)
Definition replay_delay_ns (c : Config) : res exn Z :=
  let d0 := default 0 (cfg_delay_ns c) in
  let d := if d0 <=? 0
           then match DelayConfig.delay_ns <$> parse_delay_points c with
                | [] => 0
                | x :: xs => fold_left Z.max xs x
                end
           else d0 in
  if d <=? 0 then Err ValueError else Ok d.

(** ** Kernel events *)

Inductive event_line :=
| OverlongLine                       (* more than 1 MiB *)
| BlankLine
| BadLine (err : string)             (* json.loads raised *)
| OtherEvent                         (* not an object, or another type *)
| LaunchEvent (name checksum : string).

Record event_file := mkEventFile {
  ef_name : string;                               (* os.path.basename *)
  ef_lines : res string (list event_line)         (* or the OSError's text *)
}.

Definition overlong_message (base : string) : string :=
  base +:+ ": kernel event line exceeds 1048576 bytes".

Definition append_limited {A} (limit : nat) (l : list A) (x : A) : list A :=
  if (length l <? limit)%nat then l ++ [x] else l.

Fixpoint scan_lines (base expected : string) (sample_limit : nat) (lines : list event_line)
    (observed : list (string * string)) (errors : list string)
    : bool * list (string * string) * list string :=
  match lines with
  | [] => (false, observed, errors)
  | OverlongLine :: rest =>
      scan_lines base expected sample_limit rest observed
        (append_limited 3 errors (overlong_message base))
  | BlankLine :: rest => scan_lines base expected sample_limit rest observed errors
  | BadLine e :: rest =>
      scan_lines base expected sample_limit rest observed
        (append_limited 3 errors (base +:+ ": " +:+ e))
  | OtherEvent :: rest => scan_lines base expected sample_limit rest observed errors
  | LaunchEvent n k :: rest =>
      if bool_decide (k = expected) then (true, observed, errors)
      else scan_lines base expected sample_limit rest
             (append_limited sample_limit observed (n, k)) errors
  end.

Definition scan_kernel_event_file (f : event_file) (expected : string) (sample_limit : nat)
    : res string (bool * list (string * string) * list string) :=
  lines ← ef_lines f;
  Ok (scan_lines (ef_name f) expected sample_limit lines [] []).

Fixpoint scan_replay_kernel_events (files : list event_file) (expected : string)
    (observed : list (string * string)) (parse_errors read_errors : list string)
    : bool * list (string * string) * list string * list string :=
  match files with
  | [] => (false, observed, parse_errors, read_errors)
  | f :: rest =>
      match scan_kernel_event_file f expected (5 - length observed) with
      | Err e =>
          scan_replay_kernel_events rest expected observed parse_errors
            (append_limited 3 read_errors (ef_name f +:+ ": " +:+ e))
      | Ok (matched, samples, errors) =>
          let observed' := observed ++ samples in
          let parse_errors' :=
            if (length parse_errors <? 3)%nat
            then parse_errors ++ take (3 - length parse_errors) errors
            else parse_errors in
          if matched then (true, observed', parse_errors', read_errors)
          else scan_replay_kernel_events rest expected observed' parse_errors' read_errors
      end
  end.

Fixpoint join (sep : string) (l : list string) : string :=
  match l with
  | [] => ""
  | [x] => x
  | x :: r => x +:+ sep +:+ join sep r
  end.

(** [_validate_replay_kernel_identity]: [None] when the pinned kernel was launched. *)
Definition validate_replay_kernel_identity (files : list event_file)
    (expected_name expected : string) : option (ReplayOutcome * string) :=
  match files with
  | [] => Some (INFRA_ERROR, "replay emitted no kernel event files for identity validation")
  | _ =>
      let '(matched, observed, parse_errors, read_errors) :=
        scan_replay_kernel_events files expected [] [] [] in
      if matched then None
      else match read_errors, parse_errors, observed with
      | _ :: _, _, _ =>
          Some (INFRA_ERROR, "could not validate replay kernel events: " +:+
                             join "; " (take 3 read_errors))
      | [], _ :: _, _ =>
          Some (INFRA_ERROR, "could not parse replay kernel events: " +:+
                             join "; " (take 3 parse_errors))
      | [], [], [] =>
          Some (INFRA_ERROR,
            "replay emitted no valid kernel launch events for identity validation")
      | [], [], _ :: _ =>
          Some (STALE_INPUT, "replay did not launch pinned kernel " +:+ expected_name +:+
            ":" +:+ expected +:+ "; observed " +:+
            join ", " ((λ o, o.1 +:+ ":" +:+ o.2) <$> take 5 observed))
      end
  end.

(** ** One replay *)

Inductive target_exit :=
| Completed (rc : Z) (out err : string)   (* CompletedProcess *)
| TargetTimeout (msg : string)            (* subprocess.TimeoutExpired *)
| TargetError (msg : string).             (* ClickException, OSError, TypeError, ValueError *)

Record replay_env := mkReplayEnv {
  env_exit : target_exit;
  env_watchdog : list string;              (* watchdog_terminations(log_dir) *)
  env_events : list event_file;
  env_tmpdir_error : option string         (* OSError around the evidence directory *)
}.

Definition classify_replay_process (rc : Z) (out err : string) (c : ReplayConfig)
    : ReplayResult :=
  if rc =? 0 then mkReplayResult INTERESTING (Some rc) out err None
  else if bool_decide (rc ∈ not_interesting_exit_codes c)
  then mkReplayResult NOT_INTERESTING (Some rc) out err None
  else mkReplayResult INFRA_ERROR (Some rc) out err
         (Some ("oracle exited with unexpected code " +:+ pretty rc)).

Definition hang_lines (c : ReplayConfig) (env : replay_env) : list string :=
  if hang_is_bug c then env_watchdog env else [].

Definition run_replay_once (cfg : Config) (c : ReplayConfig) (env : replay_env)
    : ReplayResult :=
  match replay_delay_ns cfg with
  | Err _ => mkReplayResult INFRA_ERROR None "" ""
               (Some "delay config has no positive delay value")
  | Ok _ =>
  match env_exit env with
  | TargetTimeout msg =>
      match hang_lines c env with
      | w :: _ => mkReplayResult INTERESTING None "" "" (Some ("hang: " +:+ w))
      | [] => mkReplayResult TIMED_OUT None "" "" (Some msg)
      end
  | TargetError msg => mkReplayResult INFRA_ERROR None "" "" (Some msg)
  | Completed rc out err =>
      let r := match hang_lines c env with
               | w :: _ => mkReplayResult INTERESTING (Some rc) out err
                             (Some ("hang: " +:+ w))
               | [] => classify_replay_process rc out err c
               end in
      if bool_decide (outcome r = INFRA_ERROR) then r
      else match expected_kernel_name c with
      | None => r
      | Some name =>
          match validate_replay_kernel_identity (env_events env) name
                  (default "" (expected_kernel_checksum c)) with
          | Some (o, reason) =>
              mkReplayResult o (Some rc) (rr_stdout r) (rr_stderr r) (Some reason)
          | None => r
          end
      end
  end
  end.

Definition run_replay (cfg : Config) (c : ReplayConfig) (env : replay_env) : ReplayResult :=
  match oracle_argv c with
  | [] => mkReplayResult INFRA_ERROR None "" "" (Some "replay oracle argv must not be empty")
  | _ =>
      match expected_kernel_name c with
      | None => run_replay_once cfg c env
      | Some _ =>
          match env_tmpdir_error env with
          | Some e => mkReplayResult INFRA_ERROR None "" ""
                        (Some ("could not manage replay evidence directory: " +:+ e))
          | None => run_replay_once cfg c env
          end
      end
  end.

(** ** The reducer's oracle *)

(** Exceptions of the reducers; [OutOfFuel] is the model's own and is proved
    unreachable. *)
Inductive rexn :=
| PyErr (e : exn)
| ReplayExecutionError (o : ReplayOutcome)
| ConfigDoesNotTriggerError
| OutOfFuel.

#[export] Instance rexn_eq_dec : EqDecision rexn.
Proof. solve_decision. Defined.

(** [run_test]: exit code 0 is a race; a timeout or any other error is not. *)
Definition run_test (e : target_exit) : bool :=
  match e with Completed rc _ _ => rc =? 0 | _ => false end.

Inductive oracle :=
| ReplayOracle (c : ReplayConfig)                 (* run_replay *)
| EvaluatorOracle (result : ReplayResult)         (* replay_evaluator's answer *)
| ScriptOracle                                    (* test_script *)
| NoOracle.

(** [_candidate_is_interesting] on the candidate document. *)
Definition candidate_is_interesting (o : oracle) (cfg : Config) (env : replay_env)
    : res rexn bool :=
  let judge (r : ReplayResult) : res rexn bool :=
    match outcome r with
    | INFRA_ERROR | TIMED_OUT | STALE_INPUT => Err (ReplayExecutionError (outcome r))
    | _ => Ok (interesting r)
    end in
  match o with
  | ReplayOracle c => judge (run_replay cfg c env)
  | EvaluatorOracle r => judge r
  | ScriptOracle => Ok (run_test (env_exit env))
  | NoOracle => Err (PyErr ValueError)
  end.

(** ** Scanning the events *)

Definition corrupt (l : event_line) : Prop :=
  match l with OverlongLine | BadLine _ => True | _ => False end.

Lemma append_limited_nil {A} n (l : list A) x :
  (0 < n)%nat → append_limited n l x ≠ [].
Proof.
  intros Hn. unfold append_limited. destruct (Nat.ltb_spec (length l) n); [by destruct l|].
  by destruct l; simpl in *; [lia|].
Qed.

Lemma append_limited_cases {A} n (l : list A) x :
  append_limited n l x = l ∨ append_limited n l x = l ++ [x].
Proof. unfold append_limited. destruct (_ <? _)%nat; auto. Qed.

(** What one file's scan establishes: the match is exactly the presence of the
    pinned checksum, corruption is remembered, and a sample is a real launch. *)
Lemma scan_lines_spec base k lim lines obs errs m obs' errs' :
  scan_lines base k lim lines obs errs = (m, obs', errs') →
  (m = true ↔ ∃ n, LaunchEvent n k ∈ lines) ∧
  (m = false → errs' = [] → errs = [] ∧ Forall (λ l, ¬ corrupt l) lines) ∧
  (obs' ≠ [] → obs ≠ [] ∨ ∃ n k', LaunchEvent n k' ∈ lines).
Proof.
  revert obs errs. induction lines as [|l lines IH]; intros obs errs; simpl.
  { intros [= <- <- <-]. split_and!; [|by auto|by auto]. split; [done|].
    intros [n Hn]. by apply not_elem_of_nil in Hn. }
  assert (∀ errs2, (errs2 = [] → errs = [] ∧ ¬ corrupt l) → (∀ n, l ≠ LaunchEvent n k) →
    scan_lines base k lim lines obs errs2 = (m, obs', errs') →
    (m = true ↔ ∃ n, LaunchEvent n k ∈ l :: lines) ∧
    (m = false → errs' = [] → errs = [] ∧ Forall (λ l, ¬ corrupt l) (l :: lines)) ∧
    (obs' ≠ [] → obs ≠ [] ∨ ∃ n k', LaunchEvent n k' ∈ l :: lines)) as Hskip.
  { intros errs2 He Hl (Hm & Hc & Ho)%IH. split_and!.
    - rewrite Hm. setoid_rewrite elem_of_cons. naive_solver.
    - intros H1 H2. destruct (Hc H1 H2) as [H3 H4]. destruct (He H3). auto.
    - intros H1. destruct (Ho H1) as [|(n & k' & Hin)]; [auto|].
      right. exists n, k'. by right. }
  destruct l as [| |e| |n k0]; try (apply Hskip; [|done]).
  - intros Hn. exfalso. revert Hn. apply append_limited_nil. lia.
  - by auto.
  - intros Hn. exfalso. revert Hn. apply append_limited_nil. lia.
  - by auto.
  - case_bool_decide as Hk.
    + intros [= <- <- <-]. subst. split_and!; [|done|].
      * split; [|done]. intros _. exists n. by left.
      * auto.
    + intros (Hm & Hc & Ho)%IH. split_and!.
      * rewrite Hm. setoid_rewrite elem_of_cons. naive_solver.
      * intros H1 H2. destruct (Hc H1 H2). split; [done|]. constructor; simpl; auto.
      * intros _. right. exists n, k0. by left.
Qed.

Definition file_has_launch (k : string) (f : event_file) : Prop :=
  ∃ lines n, ef_lines f = Ok lines ∧ LaunchEvent n k ∈ lines.

Definition file_clean (f : event_file) : Prop :=
  ∃ lines, ef_lines f = Ok lines ∧ Forall (λ l, ¬ corrupt l) lines.

Lemma scan_files_spec k files obs pe re m obs' pe' re' :
  scan_replay_kernel_events files k obs pe re = (m, obs', pe', re') →
  (m = true ↔ Exists (file_has_launch k) files) ∧
  (m = false → re' = [] → pe' = [] → re = [] ∧ pe = [] ∧ Forall file_clean files) ∧
  (obs' ≠ [] → obs ≠ [] ∨ ∃ k', Exists (file_has_launch k') files).
Proof.
  revert obs pe re. induction files as [|f files IH]; intros obs pe re; simpl.
  { intros [= <- <- <- <-]. split_and!; [|by auto|by auto].
    rewrite Exists_nil. naive_solver. }
  unfold scan_kernel_event_file. destruct (ef_lines f) as [lines|e] eqn:Ef; simpl.
  - destruct (scan_lines _ _ _ lines [] []) as [[m1 obs1] errs1] eqn:Es.
    apply scan_lines_spec in Es as (Hm1 & Hc1 & Ho1).
    assert (m1 = true ↔ file_has_launch k f) as Hm1'.
    { rewrite Hm1. split; [intros [n Hn]; by exists lines, n|].
      intros (lines' & n & Hl & Hn). exists n. congruence. }
    assert (obs1 ≠ [] → ∃ k', file_has_launch k' f) as Ho1'.
    { intros [|(n & k' & ?)]%Ho1; [done|]. exists k', lines, n. auto. }
    destruct m1.
    + intros [= <- <- <- <-]. split_and!; [|done|].
      * rewrite Exists_cons. split; [|done]. intros _. left. by apply Hm1'.
      * intros Hne. destruct obs; [right|by left].
        destruct (Ho1' Hne) as [k' ?]. exists k'. by left.
    + intros (Hm & Hc & Ho)%IH. split_and!.
      * rewrite Hm, Exists_cons. split; [by right|]. intros [Hf|?]; [|done].
        by apply Hm1' in Hf.
      * intros H1 H2 H3. destruct (Hc H1 H2 H3) as (-> & Hpe & Hcl).
        destruct pe as [|p0 pe]; [simpl in Hpe|].
        -- destruct errs1 as [|? [|? errs1]]; [|done|done].
           destruct (Hc1 eq_refl eq_refl). split_and!; [done|done|].
           constructor; [|done]. by exists lines.
        -- by destruct (_ <? _)%nat.
      * intros Hne. destruct (Ho Hne) as [Hne'|[k' Hk']].
        -- destruct obs; [right|by left]. destruct (Ho1' Hne') as [k' ?]. exists k'. by left.
        -- right. exists k'. by right.
  - intros (Hm & Hc & Ho)%IH. split_and!.
    + rewrite Hm, Exists_cons. split; [by right|].
      intros [(lines & n & Hl & _)|?]; [congruence|done].
    + intros H1 H2 H3. destruct (Hc H1 H2 H3) as (Hre & _). exfalso. revert Hre.
      apply append_limited_nil. lia.
    + intros Hne. destruct (Ho Hne) as [|[k' Hk']]; [by auto|]. right. exists k'. by right.
Qed.

Lemma validate_none_iff files name k :
  validate_replay_kernel_identity files name k = None ↔ Exists (file_has_launch k) files.
Proof.
  unfold validate_replay_kernel_identity. destruct files as [|f files].
  { rewrite Exists_nil. naive_solver. }
  destruct (scan_replay_kernel_events _ _ _ _ _) as [[[m obs] pe] re] eqn:Es.
  apply scan_files_spec in Es as (Hm & _ & _). rewrite <- Hm.
  destruct m; [done|]. by destruct re, pe, obs.
Qed.

(** Every refusal is an infrastructure error or a proven mismatch. *)
Lemma validate_refusal files name k o msg :
  validate_replay_kernel_identity files name k = Some (o, msg) →
  o = INFRA_ERROR ∨
  (o = STALE_INPUT ∧ Forall file_clean files ∧ ¬ Exists (file_has_launch k) files ∧
   ∃ k', Exists (file_has_launch k') files).
Proof.
  intros Hv. pose proof (validate_none_iff files name k) as Hn. rewrite Hv in Hn.
  unfold validate_replay_kernel_identity in Hv. destruct files as [|f files].
  { injection Hv as <- _. by left. }
  destruct (scan_replay_kernel_events _ _ _ _ _) as [[[m obs] pe] re] eqn:Es.
  apply scan_files_spec in Es as (Hm & Hc & Ho). destruct m; [done|].
  destruct re as [|? re]; [|injection Hv as <- _; by left].
  destruct pe as [|? pe]; [|injection Hv as <- _; by left].
  destruct obs as [|? obs]; injection Hv as <- _; [by left|].
  right. split_and!; [done|by apply Hc|by intros ?%Hn|].
  by destruct Ho as [|Ho].
Qed.

(** ** Properties *)

(** The pinned-kernel check never blames the input on partial evidence: it
    accepts exactly when some readable event file records a launch with the
    pinned checksum, and reports STALE_INPUT only when every file was readable,
    no line was corrupt or overlong, no launch has the checksum and at least one
    launch was seen; every other refusal is INFRA_ERROR. *)
Theorem identity_verdict_spec files name k :
  (validate_replay_kernel_identity files name k = None ↔ Exists (file_has_launch k) files) ∧
  ∀ o msg, validate_replay_kernel_identity files name k = Some (o, msg) →
    o = INFRA_ERROR ∨
    (o = STALE_INPUT ∧ Forall file_clean files ∧ ¬ Exists (file_has_launch k) files ∧
     ∃ k', Exists (file_has_launch k') files).
Proof.
  split; [apply validate_none_iff|]. intros o msg. apply validate_refusal.
Qed.

Lemma replay_delay_ns_pos cfg d : replay_delay_ns cfg = Ok d → 0 < d.
Proof.
  unfold replay_delay_ns. cbv zeta.
  match goal with |- (if ?x <=? 0 then Err _ else Ok _) = _ → _ => set (d' := x) end.
  clearbody d'. destruct (Z.leb_spec d' 0); [done|]. intros [= <-]. lia.
Qed.

(** An INTERESTING replay is a reproduction: the oracle was given, the
    candidate has a positive delay, the target exited with 0 or the watchdog
    ended a kernel while hangs count as bugs, and a completed replay of a pinned
    kernel recorded that kernel's launch. *)
Theorem run_replay_interesting_sound cfg c env :
  outcome (run_replay cfg c env) = INTERESTING →
  oracle_argv c ≠ [] ∧
  (∃ d, replay_delay_ns cfg = Ok d ∧ 0 < d) ∧
  ((hang_is_bug c = true ∧ env_watchdog env ≠ []) ∨
   ∃ out err, env_exit env = Completed 0 out err) ∧
  (∀ name, expected_kernel_name c = Some name →
     env_tmpdir_error env = None ∧
     ∀ rc out err, env_exit env = Completed rc out err →
       Exists (file_has_launch (default "" (expected_kernel_checksum c))) (env_events env)).
Proof.
  intros Hi. assert (outcome (run_replay_once cfg c env) = INTERESTING ∧ oracle_argv c ≠ [] ∧
    ∀ name, expected_kernel_name c = Some name → env_tmpdir_error env = None) as (Ho & Ha & Ht).
  { unfold run_replay in Hi. destruct (oracle_argv c); [done|].
    destruct (expected_kernel_name c); [|done].
    destruct (env_tmpdir_error env) eqn:Et; [done|]. naive_solver. }
  clear Hi. unfold run_replay_once in Ho.
  destruct (replay_delay_ns cfg) as [d|] eqn:Ed; [|done].
  split; [done|]. split; [eauto using replay_delay_ns_pos|].
  unfold hang_lines, classify_replay_process in Ho.
  destruct (env_exit env) as [rc out err|msg|msg] eqn:Ex; [|destruct (hang_is_bug c) eqn:Eh; [|done]|done].
  - assert (Hpin : ∀ name, expected_kernel_name c = Some name →
      Exists (file_has_launch (default "" (expected_kernel_checksum c))) (env_events env)).
    { intros name En. rewrite En in Ho. apply (validate_none_iff _ name).
      case_bool_decide as Hb; [by rewrite Hb in Ho|].
      destruct (validate_replay_kernel_identity _ _ _) as [[o reason]|] eqn:Ev; [|done].
      simpl in Ho. subst o. by destruct (validate_refusal _ _ _ _ _ Ev) as [|[]]. }
    split; [|intros name Hn; split; [by eapply Ht|eauto]].
    destruct (if hang_is_bug c then env_watchdog env else []) as [|w ws] eqn:Ew.
    + right. destruct (Z.eqb_spec rc 0) as [->|]; [eauto|]. exfalso.
      destruct (bool_decide (rc ∈ _)); cbn [outcome] in Ho.
      * rewrite (bool_decide_eq_false_2 (NOT_INTERESTING = _)) in Ho by done.
        destruct (expected_kernel_name c) as [name|]; [|done].
        rewrite (proj2 (validate_none_iff _ name _)) in Ho; [done|eauto].
      * by rewrite (bool_decide_eq_true_2 (INFRA_ERROR = _)) in Ho.
    + left. by destruct (hang_is_bug c); [rewrite Ew|].
  - destruct (env_watchdog env) as [|w ws]; [done|].
    split; [by left|]. intros name Hn. split; [by eapply Ht|done].
Qed.

Definition pinned_config : ReplayConfig :=
  mkReplayConfig ["oracle"] false 300 0 (Some "k") (Some "abc") [1].
Definition one_point : Config :=
  mkConfig (Some 400) [("k", mkKernelCfg None [("16", mkPointCfg None None (Some true))])].
Definition pinned_env : replay_env :=
  mkReplayEnv (Completed 0 "" "") []
    [mkEventFile "e" (Ok [OtherEvent; LaunchEvent "kernel" "abc"])] None.

Lemma identity_verdict_spec_witness :
  validate_replay_kernel_identity
    [mkEventFile "e" (Ok [LaunchEvent "other" "def"]); mkEventFile "f" (Ok [])] "k" "abc" =
  Some (STALE_INPUT, "replay did not launch pinned kernel k:abc; observed other:def") ∧
  ¬ Exists (file_has_launch "abc")
      [mkEventFile "e" (Ok [LaunchEvent "other" "def"]); mkEventFile "f" (Ok [])].
Proof.
  split; [vm_compute; reflexivity|].
  destruct (identity_verdict_spec
    [mkEventFile "e" (Ok [LaunchEvent "other" "def"]); mkEventFile "f" (Ok [])] "k" "abc")
    as [_ H]. destruct (H STALE_INPUT _ ltac:(vm_compute; reflexivity)) as [H'|H']; [discriminate|].
  tauto.
Defined.

Lemma run_replay_interesting_sound_witness :
  Exists (file_has_launch "abc") (env_events pinned_env).
Proof.
  destruct (run_replay_interesting_sound one_point pinned_config pinned_env)
    as (_ & _ & _ & H); [vm_compute; reflexivity|].
  destruct (H "k" ltac:(reflexivity)) as [_ H'].
  exact (H' 0 "" "" ltac:(reflexivity)).
Defined.
