(* ===== verification/Reduce.v ===== *)
(** The reducers: src/python/cutracer/reduce/reduce.py ([reduce_delay_points],
    [reduce_bisect] and their helpers).

    The oracle ([_candidate_is_interesting], modelled in Replay.v) is a section
    variable: it sees the candidate document and may answer, raise, and change
    the world it runs in.  Temporary candidate files are part of the state, so
    leaks are visible.  Progress callbacks and log lines are not modelled. *)
From S2P Require Import Prelude.
From S2P Require Import PyDict.
From S2P Require Import DelayConfig.
From S2P Require Import Replay.
Local Open Scope Z_scope.

(** [reduce] works on the mutator's exceptions and the oracle's. *)
Definition lift_exn {A} (r : res exn A) : res rexn A :=
  match r with Ok a => Ok a | Err e => Err (PyErr e) end.

Inductive strategy := Linear | Bisect.

Record ReduceResult := mkReduceResult {
  total_points : nat;
  essential_points : list DelayPoint;
  iterations : nat;
  rr_strategy : strategy
}.

Definition success (r : ReduceResult) : bool := bool_decide (essential_points r ≠ []).

Record RState (W : Type) := mkRState {
  world : W;
  files : gmap nat Config;      (* live temporary files and their contents *)
  next_file : nat;              (* tempfile.mkstemp's next fresh name *)
  iteration : nat;
  output : option Config        (* what was written to config.output_path *)
}.
Arguments mkRState {W}.
Arguments world {W}.
Arguments files {W}.
Arguments next_file {W}.
Arguments iteration {W}.
Arguments output {W}.

Section Reducers.
Context {W : Type}.
(** [_candidate_is_interesting(config, path)], on the document stored at [path]. *)
Variable evaluate : Config → W → W * res rexn bool.

Definition RM (A : Type) : Type := st (RState W) rexn A.

Definition save_temp (m : Mutator) : RM nat := λ s,
  (mkRState (world s) (<[next_file s := config m]> (files s)) (S (next_file s))
     (iteration s) (output s), Ok (next_file s)).

Definition cleanup_temp_file (p : nat) : RM () :=
  st_modify (λ s, mkRState (world s) (delete p (files s)) (next_file s) (iteration s) (output s)).

Definition save_output (m : Mutator) : RM () :=
  st_modify (λ s, mkRState (world s) (files s) (next_file s) (iteration s) (Some (config m))).

Definition tick : RM () :=
  st_modify (λ s, mkRState (world s) (files s) (next_file s) (S (iteration s)) (output s)).

Definition candidate (p : nat) : RM bool := λ s,
  match files s !! p with
  | None => (s, Err (PyErr OSError))
  | Some cfg =>
      let '(w, r) := evaluate cfg (world s) in
      (mkRState w (files s) (next_file s) (iteration s) (output s), r)
  end.

(** [try: m; except Exception: h; raise]. *)
Definition on_exception {A} (m : RM A) (h : RM ()) : RM A := λ s,
  match m s with
  | (s', Ok a) => (s', Ok a)
  | (s', Err e) => ((h s').1, Err e)
  end.

(** [try: m; finally: h]. *)
Definition finally {A} (m : RM A) (h : RM ()) : RM A := λ s,
  let '(s', r) := m s in ((h s').1, r).

(** ** One candidate, one or several runs *)

Fixpoint vote (p : nat) (threshold : Z) (k : nat) (i race_count : Z) : RM bool :=
  match k with
  | O => mret (threshold <=? race_count)
  | S k' =>
      b ← candidate p;
      if (b : bool) then
        let race_count := race_count + 1 in
        if threshold <=? race_count then mret true
        else vote p threshold k' (i + 1) race_count
      else
        let no_race_count := (i + 1) - race_count in
        if threshold <=? no_race_count then mret false
        else vote p threshold k' (i + 1) race_count
  end.

Definition run_test_with_confidence (p : nat) (confidence_runs : Z) : RM bool :=
  if confidence_runs <=? 1 then candidate p
  else vote p (confidence_runs / 2 + 1) (Z.to_nat confidence_runs) 0 0.

Definition find_point_in_mutator (m : Mutator) (key pc : string) : option nat :=
  fst <$> list_find (λ q, enabled q = true ∧ pid q = (key, pc)) (delay_points m).

Definition disable_found (m : Mutator) (p : DelayPoint) : res exn Mutator :=
  match find_point_in_mutator m (kernel_key p) (pc_offset p) with
  | Some i => set_point_enabled m i false
  | None => Ok m
  end.

Definition test_point_essentiality (p : DelayPoint) (m : Mutator) (confidence_runs : Z)
    : RM (bool * nat) :=
  test_mutator ← st_lift (lift_exn (disable_found (clone m) p));
  path ← save_temp test_mutator;
  race_occurs ← on_exception (run_test_with_confidence path confidence_runs)
                             (cleanup_temp_file path);
  mret (negb race_occurs, path).

Definition validate_initial_config (m : Mutator) : RM nat :=
  match enabled_points m with
  | [] => st_raise (PyErr ValueError)
  | _ =>
      path ← save_temp m;
      b ← on_exception (candidate path) (cleanup_temp_file path);
      if (b : bool) then mret path
      else _ ← cleanup_temp_file path; st_raise ConfigDoesNotTriggerError
  end.

(** ** Linear reduction *)

(** References to the enabled points: indices into [mutator.delay_points]. *)
Definition enabled_refs (m : Mutator) : list nat :=
  refs_where enabled m.

Fixpoint linear_loop (initial : nat) (confidence_runs : Z) (refs : list nat)
    (m : Mutator) (essential : list nat) (it : nat) : RM (Mutator * list nat * nat) :=
  match refs with
  | [] => mret (m, essential, it)
  | i :: rest =>
      match delay_points m !! i with
      | None => st_raise (PyErr IndexError)
      | Some point =>
          r ← on_exception (test_point_essentiality point m confidence_runs)
                           (cleanup_temp_file initial);
          m' ← (if (r.1 : bool) then mret m
                else st_lift (lift_exn (disable_found m point)));
          _ ← cleanup_temp_file r.2;
          linear_loop initial confidence_runs rest m'
            (if (r.1 : bool) then essential ++ [i] else essential) (S it)
      end
  end.

Definition deref (m : Mutator) (refs : list nat) : list DelayPoint :=
  omap (λ i, delay_points m !! i) refs.

Definition reduce_delay_points (cfg : Config) (confidence_runs : Z) (has_output : bool)
    : RM ReduceResult :=
  let mutator := load_mutator cfg in
  initial ← validate_initial_config mutator;
  let points_to_test := enabled_refs mutator in
  r ← linear_loop initial confidence_runs points_to_test mutator [] 0;
  _ ← (if has_output then save_output r.1.1 else mret ());
  _ ← cleanup_temp_file initial;
  mret (mkReduceResult (length points_to_test) (deref r.1.1 r.1.2) r.2 Linear).

(** ** Bisection *)

Definition make_config_with_points (base : Mutator) (points : list DelayPoint)
    : res exn Mutator :=
  off ← set_all_enabled (clone base) false;
  set_enabled_all off
    (refs_where (λ p, bool_decide (pid p ∈ pid <$> points)) off) true.

Definition test_subset (base : Mutator) (points : list DelayPoint) (confidence_runs : Z)
    : RM bool :=
  m ← st_lift (lift_exn (make_config_with_points base points));
  path ← save_temp m;
  finally (run_test_with_confidence path confidence_runs) (cleanup_temp_file path).

(** [current_points[i : i + chunk_size] for i in range(0, size, chunk_size)]. *)
Fixpoint chunks_of {A} (fuel k : nat) (l : list A) : list (list A) :=
  match fuel, l with
  | O, _ | _, [] => []
  | S f, _ => take k l :: chunks_of f k (drop k l)
  end.

(** The concatenation of every chunk but one, for each chunk in turn. *)
Definition complements {A} (chunks : list (list A)) : list (list A) :=
  imap (λ i _, concat (delete i chunks)) chunks.

(** Test candidates in order; the first that triggers, if any. *)
Fixpoint first_triggering (base : Mutator) (confidence_runs : Z)
    (candidates : list (list DelayPoint)) : RM (option (list DelayPoint)) :=
  match candidates with
  | [] => mret None
  | c :: rest =>
      _ ← tick;
      b ← test_subset base c confidence_runs;
      if (b : bool) then mret (Some c) else first_triggering base confidence_runs rest
  end.

Fixpoint ddmin (fuel : nat) (base : Mutator) (confidence_runs : Z)
    (current_points : list DelayPoint) (n : nat) : RM (list DelayPoint) :=
  match fuel with
  | O => st_raise OutOfFuel
  | S fuel' =>
      let size := length current_points in
      if (size <=? 1)%nat then mret current_points
      else
        let n := Nat.min n size in
        let chunk_size := Nat.max 1 (size / n) in
        let chunks := chunks_of size chunk_size current_points in
        alone ← first_triggering base confidence_runs chunks;
        match alone with
        | Some chunk => ddmin fuel' base confidence_runs chunk 2
        | None =>
            without ← first_triggering base confidence_runs (complements chunks);
            match without with
            | Some complement =>
                ddmin fuel' base confidence_runs complement (Nat.max (n - 1) 2)
            | None =>
                if (n <? size)%nat
                then ddmin fuel' base confidence_runs current_points (Nat.min (2 * n) size)
                else mret current_points
            end
        end
  end.

(** Enough recursion for every input: see [ddmin_total]. *)
Definition ddmin_fuel (size : nat) : nat := S (size * size + 2 * size).

Definition reset_iteration : RM () :=
  st_modify (λ s, mkRState (world s) (files s) (next_file s) 0 (output s)).

Definition reduce_bisect (cfg : Config) (confidence_runs : Z) (has_output : bool)
    : RM ReduceResult :=
  let base := load_mutator cfg in
  initial ← validate_initial_config base;
  _ ← cleanup_temp_file initial;
  let points := enabled_points base in
  _ ← reset_iteration;
  minimal ← ddmin (ddmin_fuel (length points)) base confidence_runs points 2;
  _ ← (if has_output
       then m ← st_lift (lift_exn (make_config_with_points base minimal)); save_output m
       else mret ());
  s ← st_get;
  mret (mkReduceResult (length points) minimal (iteration s) Bisect).
End Reducers.

(** ** Chunks and complements *)

Section Chunks.
Context {A : Type}.
Implicit Types l c : list A.

Lemma chunks_concat fuel k l :
  (1 ≤ k)%nat → (length l ≤ fuel)%nat → concat (chunks_of fuel k l) = l.
Proof.
  intros Hk. revert l. induction fuel as [|fuel IH]; intros l Hl.
  - by destruct l; simpl in *; [|lia].
  - destruct l as [|x l]; [done|]. cbn [chunks_of concat]. rewrite IH, take_drop; [done|].
    rewrite length_drop. simpl in *. lia.
Qed.

Lemma chunks_size fuel k l c :
  (1 ≤ k)%nat → c ∈ chunks_of fuel k l → (1 ≤ length c ≤ k)%nat.
Proof.
  intros Hk. revert l. induction fuel as [|fuel IH]; intros l; [set_solver|].
  destruct l as [|x l]; [set_solver|]. cbn [chunks_of]. intros [->|Hc]%elem_of_cons; [|eauto].
  rewrite length_take. simpl. lia.
Qed.

Lemma chunks_singletons fuel l :
  (length l ≤ fuel)%nat → chunks_of fuel 1 l = (λ x, [x]) <$> l.
Proof.
  revert l. induction fuel as [|fuel IH]; intros [|x l] Hl; simpl in *; try done; [lia|].
  rewrite drop_0, IH by lia. by rewrite take_0.
Qed.

Lemma concat_delete_sublist (ls : list (list A)) i : concat (delete i ls) `sublist_of` concat ls.
Proof.
  revert i. induction ls as [|l ls IH]; intros [|i]; simpl; try done.
  - by apply sublist_inserts_l.
  - by apply sublist_app.
Qed.

Lemma concat_delete_length (ls : list (list A)) i c :
  ls !! i = Some c → (length (concat (delete i ls)) + length c = length (concat ls))%nat.
Proof.
  revert i. induction ls as [|l ls IH]; intros [|i]; simpl; try done.
  - intros [= ->]. rewrite length_app. lia.
  - intros Hi. rewrite !length_app, <- (IH i) by done. lia.
Qed.

Lemma elem_of_concat_sublist (ls : list (list A)) c : c ∈ ls → c `sublist_of` concat ls.
Proof.
  induction ls as [|l ls IH]; [set_solver|]. simpl. intros [->|Hc]%elem_of_cons.
  - by apply sublist_inserts_r.
  - apply sublist_inserts_l. auto.
Qed.

Lemma elem_of_complements (ls : list (list A)) c :
  c ∈ complements ls ↔ ∃ i x, ls !! i = Some x ∧ c = concat (delete i ls).
Proof.
  unfold complements. rewrite list_elem_of_lookup. setoid_rewrite list_lookup_imap_Some.
  naive_solver.
Qed.

Lemma singletons_delete l i : concat (delete i ((λ x, [x]) <$> l)) = delete i l.
Proof.
  revert i. induction l as [|x l IH]; intros [|i]; simpl; try done.
  - clear. induction l as [|x l IH]; simpl; congruence.
  - by rewrite IH.
Qed.

(** A candidate of one [ddmin] round is a strictly smaller subsequence. *)
Definition smaller l c : Prop := c `sublist_of` l ∧ (length c < length l)%nat.

Definition round_chunks l n : list (list A) :=
  chunks_of (length l) (Nat.max 1 (length l / n)) l.

Lemma round_chunks_concat l n : concat (round_chunks l n) = l.
Proof. apply chunks_concat; lia. Qed.

Lemma round_chunk_smaller l n c :
  (2 ≤ n)%nat → (2 ≤ length l)%nat → c ∈ round_chunks l n → smaller l c ∧ (1 ≤ length c)%nat.
Proof.
  intros Hn Hl Hc. unfold round_chunks in *.
  pose proof (chunks_size _ _ _ _ (Nat.le_max_l _ _) Hc) as Hs.
  pose proof (Nat.div_le_compat_l (length l) 2 n ltac:(lia)).
  pose proof (Nat.div_lt (length l) 2 ltac:(lia) ltac:(lia)).
  split; [split|lia]; [|lia].
  rewrite <- (round_chunks_concat l n). by apply elem_of_concat_sublist.
Qed.

Lemma round_complement_smaller l n c :
  (2 ≤ n)%nat → (2 ≤ length l)%nat → c ∈ complements (round_chunks l n) → smaller l c.
Proof.
  intros Hn Hl (i & x & Hx & ->)%elem_of_complements.
  pose proof (list_elem_of_lookup_2 _ _ _ Hx) as Hin.
  apply (round_chunk_smaller l n) in Hin as [_ Hpos]; [|done|done].
  pose proof (concat_delete_length _ _ _ Hx) as Hlen. rewrite round_chunks_concat in Hlen.
  split; [|lia]. rewrite <- (round_chunks_concat l n) at 2. apply concat_delete_sublist.
Qed.

(** At full granularity the complements are the one-point deletions. *)
Lemma full_granularity l i x :
  l !! i = Some x → delete i l ∈ complements (round_chunks l (length l)).
Proof.
  intros Hi. assert (length l / length l = 1)%nat as Hd.
  { apply Nat.div_same. destruct l; [done|simpl; lia]. }
  unfold round_chunks. rewrite Hd, chunks_singletons by done.
  apply elem_of_complements. exists i, [x].
  split; [by rewrite list_lookup_fmap, Hi|by rewrite singletons_delete].
Qed.
End Chunks.

(** ** Properties of the reducers' computations *)

Section Frames.
Context {W : Type} (evaluate : Config → W → W * res rexn bool).
Implicit Types s : RState W.

(** No temporary file has a name that [mkstemp] is still to hand out. *)
Definition fresh (s : RState W) : Prop := ∀ p, (next_file s ≤ p)%nat → files s !! p = None.

Definition leakfree {A} (m : @RM W A) : Prop :=
  ∀ s s' r, fresh s → m s = (s', r) →
    fresh s' ∧ files s' = files s ∧ (next_file s ≤ next_file s')%nat.

Lemma leakfree_ret {A} (a : A) : leakfree (mret a).
Proof. by intros s s' r Hf [= <- <-]. Qed.
Lemma leakfree_raise {A} e : leakfree (st_raise e : @RM W A).
Proof. by intros s s' r Hf [= <- <-]. Qed.
Lemma leakfree_lift {A} (x : res rexn A) : leakfree (st_lift x).
Proof. by intros s s' r Hf [= <- <-]. Qed.
Lemma leakfree_get : leakfree (st_get : @RM W (RState W)).
Proof. by intros s s' r Hf [= <- <-]. Qed.
Lemma leakfree_tick : leakfree (@tick W).
Proof. by intros s s' r Hf [= <- <-]. Qed.
Lemma leakfree_reset : leakfree (@reset_iteration W).
Proof. by intros s s' r Hf [= <- <-]. Qed.
Lemma leakfree_output m : leakfree (@save_output W m).
Proof. by intros s s' r Hf [= <- <-]. Qed.

Lemma leakfree_bind {A B} (m : @RM W A) (k : A → @RM W B) :
  leakfree m → (∀ a, leakfree (k a)) → leakfree (m ≫= k).
Proof.
  intros Hm Hk s s' r Hf. unfold mbind, st_bind.
  destruct (m s) as [s1 [a|e]] eqn:Em; intros Hrun.
  - destruct (Hm _ _ _ Hf Em) as (Hf1 & He1 & Hn1).
    destruct (Hk a _ _ _ Hf1 Hrun) as (Hf2 & He2 & Hn2). split_and!; [done|congruence|lia].
  - injection Hrun as <- <-. eauto.
Qed.

Lemma leakfree_candidate p : leakfree (candidate evaluate p).
Proof.
  intros s s' r Hf. unfold candidate. destruct (files s !! p) as [cfg|].
  - destruct (evaluate cfg (world s)) as [w x]. by intros [= <- <-].
  - by intros [= <- <-].
Qed.

Lemma leakfree_vote p th k i c : leakfree (vote evaluate p th k i c).
Proof.
  revert i c. induction k as [|k IH]; intros i c; [apply leakfree_ret|].
  apply leakfree_bind; [apply leakfree_candidate|]. intros [|]; cbv zeta;
    case_match; auto using leakfree_ret.
Qed.

Lemma leakfree_confidence p n : leakfree (run_test_with_confidence evaluate p n).
Proof.
  unfold run_test_with_confidence. case_match; [apply leakfree_candidate|apply leakfree_vote].
Qed.

Lemma fresh_save s m : fresh s → fresh (save_temp m s).1.
Proof.
  intros Hf p Hp. simpl in *. rewrite lookup_insert_ne by lia. apply Hf. lia.
Qed.

Lemma delete_saved s m : fresh s → delete (next_file s) (<[next_file s:=config m]> (files s)) = files s.
Proof. intros Hf. apply delete_insert_id, Hf. done. Qed.

Lemma fresh_delete s p :
  fresh s → fresh (cleanup_temp_file p s).1.
Proof. intros Hf q Hq. simpl in *. rewrite lookup_delete_None. auto. Qed.

Lemma leakfree_test_subset base points n : leakfree (test_subset evaluate base points n).
Proof.
  apply leakfree_bind; [apply leakfree_lift|]. intros m s s' r Hf.
  pose proof (fresh_save s m Hf) as Hf1.
  unfold mbind, st_bind at 1. destruct (save_temp m s) as [s1 r1] eqn:Es.
  injection Es as <- <-. unfold finally.
  destruct (run_test_with_confidence _ _ _ _) as [s2 r2] eqn:Er. intros [= <- <-].
  destruct (leakfree_confidence _ _ _ _ _ Hf1 Er) as (Hf2 & He2 & Hn2).
  split_and!; [by apply fresh_delete|simpl; rewrite He2; by apply delete_saved|simpl in *; lia].
Qed.

Lemma leakfree_first_triggering base n cs : leakfree (first_triggering evaluate base n cs).
Proof.
  induction cs as [|c cs IH]; [apply leakfree_ret|].
  apply leakfree_bind; [apply leakfree_tick|]. intros _.
  apply leakfree_bind; [apply leakfree_test_subset|]. intros [|]; [apply leakfree_ret|done].
Qed.

Lemma leakfree_ddmin fuel base n pts g : leakfree (ddmin evaluate fuel base n pts g).
Proof.
  revert pts g. induction fuel as [|fuel IH]; intros pts g; [apply leakfree_raise|].
  cbn [ddmin]. case_match; [apply leakfree_ret|]. cbv zeta.
  apply leakfree_bind; [apply leakfree_first_triggering|]. intros [chunk|]; [apply IH|].
  apply leakfree_bind; [apply leakfree_first_triggering|]. intros [c|]; [apply IH|].
  case_match; [apply IH|apply leakfree_ret].
Qed.

(** A temporary file is kept on success and removed on an exception. *)
Lemma guarded_temp {A} (m : Mutator) (body : nat → @RM W A) s s' r :
  fresh s → (∀ p, leakfree (body p)) →
  (p ← save_temp m; a ← on_exception (body p) (cleanup_temp_file p); mret (a, p)) s = (s', r) →
  fresh s' ∧ (next_file s ≤ next_file s')%nat ∧
  match r with
  | Ok (_, p) => p = next_file s ∧ files s' = <[p := config m]> (files s)
  | Err _ => files s' = files s
  end.
Proof.
  intros Hf Hb. pose proof (fresh_save s m Hf) as Hf1.
  set (s1 := (save_temp m s).1) in *. unfold mbind, st_bind at 1.
  assert (save_temp m s = (s1, Ok (next_file s))) as -> by done. unfold st_bind, on_exception.
  destruct (body (next_file s) s1) as [s2 [a|e]] eqn:Er; intros [= <- <-];
    destruct (Hb _ _ _ _ Hf1 Er) as (Hf2 & He2 & Hn2); simpl in *.
  - split_and!; [done|lia|done|done].
  - split_and!; [by apply (fresh_delete s2)|lia|]. rewrite He2. by apply delete_saved.
Qed.

Lemma validate_initial_files m s s' r :
  fresh s → validate_initial_config evaluate m s = (s', r) →
  fresh s' ∧ (next_file s ≤ next_file s')%nat ∧
  match r with
  | Ok p => p = next_file s ∧ files s' = <[p := config m]> (files s)
  | Err _ => files s' = files s
  end.
Proof.
  intros Hf. unfold validate_initial_config.
  destruct (enabled_points m); [intros [= <- <-]; by split_and!|]. intros Hrun.
  destruct ((p ← save_temp m; a ← on_exception (candidate evaluate p) (cleanup_temp_file p);
             mret (a, p)) s) as [s1 r1] eqn:E1.
  pose proof (guarded_temp m _ s s1 r1 Hf leakfree_candidate E1) as (Hf1 & Hn1 & Hfiles).
  unfold mbind, st_bind, mret, st_ret in Hrun, E1.
  destruct (save_temp m s) as [s2 [p|e]]; [|by simplify_eq].
  destruct (on_exception _ _ s2) as [s3 [b|e]]; [|by simplify_eq].
  injection E1 as <- <-. destruct Hfiles as [-> Hfiles].
  destruct b; [by injection Hrun as <- <-|].
  injection Hrun as <- <-. split_and!; [by apply (fresh_delete s3)|done|].
  simpl. rewrite Hfiles. by apply delete_saved.
Qed.

Lemma disable_found_ok m p :
  mutator_inv m → ∃ m', disable_found m p = Ok m' ∧ mutator_inv m' ∧
    length (delay_points m') = length (delay_points m).
Proof.
  intros Hinv. unfold disable_found, find_point_in_mutator.
  destruct (list_find _ (delay_points m)) as [[i q]|] eqn:E; simpl; [|eauto].
  apply list_find_Some in E as (Hi & _).
  destruct (set_point_enabled_spec m i q false Hinv Hi) as (m' & -> & Hinv' & Hd).
  exists m'. by rewrite Hd, length_insert.
Qed.

Lemma test_point_files p m n s s' r :
  mutator_inv m → fresh s → test_point_essentiality evaluate p m n s = (s', r) →
  fresh s' ∧ (next_file s ≤ next_file s')%nat ∧
  match r with
  | Ok (_, q) => q = next_file s ∧ ∃ c, files s' = <[q := c]> (files s)
  | Err _ => files s' = files s
  end.
Proof.
  intros Hinv Hf Hrun. unfold test_point_essentiality in Hrun.
  rewrite clone_id in Hrun by done.
  destruct (disable_found_ok m p Hinv) as (m' & Hm' & _). rewrite Hm' in Hrun.
  destruct ((q ← save_temp m';
             a ← on_exception (run_test_with_confidence evaluate q n) (cleanup_temp_file q);
             mret (a, q)) s) as [s1 r1] eqn:E1.
  pose proof (guarded_temp m' _ s s1 r1 Hf (λ q, leakfree_confidence q n) E1)
    as (Hf1 & Hn1 & Hfiles).
  unfold mbind, st_bind, mret, st_ret, st_lift in Hrun, E1. simpl in Hrun, E1.
  destruct (on_exception _ _ _) as [s3 [b|e]].
  - injection E1 as <- <-. injection Hrun as <- <-. destruct Hfiles as [_ Hfiles]. eauto 6.
  - injection E1 as <- <-. injection Hrun as <- <-. done.
Qed.

Lemma linear_loop_files initial n refs m ess it s s' r :
  mutator_inv m → Forall (λ i, i < length (delay_points m))%nat refs →
  fresh s → (initial < next_file s)%nat →
  linear_loop evaluate initial n refs m ess it s = (s', r) →
  fresh s' ∧ (next_file s ≤ next_file s')%nat ∧
  match r with
  | Ok _ => files s' = files s
  | Err _ => files s' = delete initial (files s)
  end.
Proof.
  revert m ess it s. induction refs as [|i refs IH]; intros m ess it s Hinv Hlt Hf Hi.
  { by intros [= <- <-]. }
  apply Forall_cons in Hlt as [Hlt Hlts]. apply lookup_lt_is_Some in Hlt as [point Hpt].
  cbn [linear_loop]. rewrite Hpt. unfold mbind, st_bind at 1, on_exception at 1.
  destruct (test_point_essentiality evaluate point m n s) as [s1 [[b q]|e]] eqn:Et.
  - destruct (test_point_files _ _ _ _ _ _ Hinv Hf Et) as (Hf1 & Hn1 & -> & c & Hc).
    destruct (disable_found_ok m point Hinv) as (m2 & Hm2 & Hinv2 & Hlen2).
    assert (∃ m3, ((if b then mret m else st_lift (lift_exn (disable_found m point))) : @RM W _) s1
                  = (s1, Ok m3) ∧ mutator_inv m3 ∧
                  length (delay_points m3) = length (delay_points m))
      as (m3 & Hm3 & Hinv3 & Hlen3).
    { destruct b; [by exists m|]. exists m2. unfold st_lift. by rewrite Hm2. }
    cbn [fst snd]. unfold st_bind at 1. rewrite Hm3. unfold st_bind at 1. simpl.
    intros Hrest. apply IH in Hrest as (Hf' & Hn' & Hr).
    + split_and!; [done|simpl in *; lia|]. simpl in Hr.
      by rewrite Hc, delete_insert_id in Hr by by apply Hf.
    + done.
    + by rewrite Hlen3.
    + by apply (fresh_delete s1).
    + simpl. lia.
  - destruct (test_point_files _ _ _ _ _ _ Hinv Hf Et) as (Hf1 & Hn1 & Hc).
    intros [= <- <-]. split_and!; [by apply (fresh_delete s1)|done|]. simpl. by rewrite Hc.
Qed.

(** Both reducers leave exactly the temporary files they found. *)
Lemma reduce_delay_points_leakfree cfg n o :
  config_wf cfg → leakfree (reduce_delay_points evaluate cfg n o).
Proof.
  intros Hwf s s' r Hf. unfold reduce_delay_points, mbind, st_bind at 1.
  destruct (validate_initial_config evaluate (load_mutator cfg) s) as [s1 [p|e]] eqn:Ev;
    destruct (validate_initial_files _ _ _ _ Hf Ev) as (Hf1 & Hn1 & Hfl);
    [|intros [= <- <-]; done].
  destruct Hfl as [-> Hfl].
  assert (next_file s < next_file s1)%nat as Hlt.
  { destruct (Nat.lt_ge_cases (next_file s) (next_file s1)) as [|Hge]; [done|].
    specialize (Hf1 _ Hge). by rewrite Hfl, lookup_insert_eq in Hf1. }
  unfold st_bind at 1.
  destruct (linear_loop _ _ _ _ _ _ _ s1) as [s2 [[[m' ess] it]|e]] eqn:El;
    destruct (linear_loop_files _ _ _ _ _ _ _ _ _ (load_mutator_inv _ Hwf) (refs_where_lt _ _)
                Hf1 Hlt El) as (Hf2 & Hn2 & Hfl2).
  - assert (delete (next_file s) (files s2) = files s) as Hdel.
    { rewrite Hfl2, Hfl. apply delete_insert_id. by apply Hf. }
    destruct o; intros [= <- <-]; (split_and!; [by apply (fresh_delete s2)|done|simpl; lia]).
  - intros [= <- <-]. split_and!; [done| |lia]. rewrite Hfl2, Hfl.
    apply delete_insert_id. by apply Hf.
Qed.

Lemma reduce_bisect_leakfree cfg n o : leakfree (reduce_bisect evaluate cfg n o).
Proof.
  intros s s' r Hf. unfold reduce_bisect. cbv zeta.
  match goal with |- (_ ≫= (λ _, _ ≫= (λ _, ?rest))) s = _ → _ =>
    assert (leakfree rest) as Hk; [|set (k := rest) in *; clearbody k] end.
  { apply leakfree_bind; [apply leakfree_reset|]. intros _.
    apply leakfree_bind; [apply leakfree_ddmin|]. intros minimal.
    apply leakfree_bind.
    - destruct o; [|apply leakfree_ret].
      apply leakfree_bind; [apply leakfree_lift|]. intros m. apply leakfree_output.
    - intros _. apply leakfree_bind; [apply leakfree_get|]. intros. apply leakfree_ret. }
  unfold mbind, st_bind at 1.
  destruct (validate_initial_config evaluate (load_mutator cfg) s) as [s1 [p|e]] eqn:Ev;
    destruct (validate_initial_files _ _ _ _ Hf Ev) as (Hf1 & Hn1 & Hfl);
    [|intros [= <- <-]; done].
  destruct Hfl as [-> Hfl]. intros Hrest.
  destruct (Hk _ _ _ (fresh_delete s1 (next_file s) Hf1) Hrest) as (Hf2 & Hfl2 & Hn2).
  split_and!; [done| |simpl in *; lia]. rewrite Hfl2. simpl. rewrite Hfl.
  by apply delete_insert_id, Hf.
Qed.

(** *** Termination: the recursion of [ddmin] never runs out of fuel *)

Definition total {A} (m : @RM W A) : Prop := ∀ s, (m s).2 ≠ Err OutOfFuel.

Lemma total_bind {A B} (m : @RM W A) (k : A → @RM W B) :
  total m → (∀ s s1 a, m s = (s1, Ok a) → (k a s1).2 ≠ Err OutOfFuel) → total (m ≫= k).
Proof.
  intros Hm Hk s. unfold mbind, st_bind. specialize (Hm s).
  destruct (m s) as [s1 [a|e]] eqn:Em; [by eapply Hk|]. simpl in *. congruence.
Qed.

Lemma total_lift_exn {A} (x : res exn A) : total (st_lift (lift_exn x)).
Proof. intros s. by destruct x. Qed.

Lemma first_triggering_in base n cs s s' c :
  first_triggering evaluate base n cs s = (s', Ok (Some c)) → c ∈ cs.
Proof.
  revert s. induction cs as [|c0 cs IH]; intros s; [done|]. cbn [first_triggering].
  intros (s1 & u & _ & (s2 & b & _ & Hr)%st_bind_ok)%st_bind_ok.
  destruct b; [injection Hr as _ <-; by left|]. right. by eapply IH.
Qed.

(** The decreasing measure: the size, then the distance to full granularity. *)
Definition ddmin_measure (size g : nat) : nat := size * (size + 1) + (size - Nat.min g size).

Lemma measure_smaller size size' g g' :
  (size' < size)%nat → (ddmin_measure size' g' < ddmin_measure size g)%nat.
Proof. unfold ddmin_measure. intros. nia. Qed.

Lemma measure_finer size g :
  (2 ≤ g)%nat → (g < size)%nat →
  (ddmin_measure size (Nat.min (2 * g) size) < ddmin_measure size g)%nat.
Proof. unfold ddmin_measure. intros. lia. Qed.

Lemma measure_clamp size g : ddmin_measure size (Nat.min g size) = ddmin_measure size g.
Proof. unfold ddmin_measure. lia. Qed.

Section Total.
Hypothesis evaluate_total : ∀ cfg w, (evaluate cfg w).2 ≠ Err OutOfFuel.

Lemma total_candidate p : total (candidate evaluate p).
Proof.
  intros s. unfold candidate. destruct (files s !! p); [|done].
  specialize (evaluate_total c (world s)). by destruct (evaluate c (world s)).
Qed.

Lemma total_confidence p n : total (run_test_with_confidence evaluate p n).
Proof.
  unfold run_test_with_confidence. case_match; [apply total_candidate|].
  generalize (n / 2 + 1) as th. intros th. generalize 0 at 1 as i. generalize 0 as c.
  induction (Z.to_nat n) as [|k IH]; intros c i; [by intros s|].
  apply total_bind; [apply total_candidate|]. intros s s1 [|] _; cbv zeta;
    (case_match; [done|apply IH]).
Qed.

Lemma total_test_subset base pts n : total (test_subset evaluate base pts n).
Proof.
  apply total_bind; [apply total_lift_exn|]. intros s s1 m _.
  unfold mbind, st_bind, finally. destruct (save_temp m s1) as [s2 [p|e]] eqn:E; [|done].
  pose proof (total_confidence p n s2). by destruct (run_test_with_confidence _ _ _ s2).
Qed.

Lemma total_first_triggering base n cs : total (first_triggering evaluate base n cs).
Proof.
  induction cs as [|c cs IH]; [done|].
  apply total_bind; [done|]. intros s s1 u _. revert s1.
  apply total_bind; [apply total_test_subset|]. intros s2 s3 [|] _; [done|apply IH].
Qed.

Lemma ddmin_total fuel base n pts g :
  (2 ≤ g)%nat → (ddmin_measure (length pts) g < fuel)%nat →
  total (ddmin evaluate fuel base n pts g).
Proof.
  revert pts g. induction fuel as [|fuel IH]; intros pts g Hg Hf; [lia|]. cbn [ddmin].
  destruct (Nat.leb_spec (length pts) 1) as [|Hsize]; [done|]. cbv zeta.
  set (g' := Nat.min g (length pts)). assert (2 ≤ g')%nat as Hg' by lia.
  fold (round_chunks pts g'). pose proof (measure_clamp (length pts) g) as Hclamp. fold g' in Hclamp.
  apply total_bind; [apply total_first_triggering|]. intros s1 s2 [c|] Hc.
  { apply first_triggering_in, round_chunk_smaller in Hc as [[_ Hlt] _]; [|lia|lia].
    apply IH; [lia|]. pose proof (measure_smaller _ _ g 2 Hlt). lia. }
  revert s2 Hc. intros s2 _. revert s2.
  apply total_bind; [apply total_first_triggering|]. intros s3 s4 [c|] Hc.
  { apply first_triggering_in, round_complement_smaller in Hc as [_ Hlt]; [|lia|lia].
    apply IH; [lia|]. pose proof (measure_smaller _ _ g (Nat.max (g' - 1) 2) Hlt). lia. }
  destruct (Nat.ltb_spec g' (length pts)) as [Hlt|]; [|done].
  apply IH; [lia|]. pose proof (measure_finer (length pts) g' Hg' Hlt). lia.
Qed.
Lemma ddmin_fuel_enough size : (ddmin_measure size 2 < ddmin_fuel size)%nat.
Proof. unfold ddmin_measure, ddmin_fuel. lia. Qed.

Lemma total_on_exception {A} (m : @RM W A) h : total m → total (on_exception m h).
Proof. intros H s. unfold on_exception. specialize (H s). by destruct (m s) as [s' [a|e]]. Qed.

Lemma total_initial m : total (validate_initial_config evaluate m).
Proof.
  unfold validate_initial_config. destruct (enabled_points m); [done|]. apply total_bind; [done|]. intros s s1 p _. revert s1.
  apply total_bind; [apply total_on_exception, total_candidate|]. by intros s2 s3 [|] _.
Qed.

Lemma total_essentiality p m n : total (test_point_essentiality evaluate p m n).
Proof.
  apply total_bind; [apply total_lift_exn|]. intros _ s1 tm _. revert s1. apply total_bind; [done|]. intros _ s1 q _. revert s1.
  apply total_bind; [apply total_on_exception, total_confidence|done].
Qed.

Lemma total_linear_loop initial n refs m ess it : total (linear_loop evaluate initial n refs m ess it).
Proof.
  revert m ess it. induction refs as [|i refs IH]; intros m ess it; cbn [linear_loop]; [done|].
  destruct (delay_points m !! i); [|done].
  apply total_bind; [apply total_on_exception, total_essentiality|]. intros _ s1 r _. revert s1.
  apply total_bind; [destruct r.1; [done|apply total_lift_exn]|]. intros _ s1 m' _. revert s1.
  apply total_bind; [done|]. intros _ s1 [] _. apply IH.
Qed.

Lemma total_linear cfg n o : total (reduce_delay_points evaluate cfg n o).
Proof.
  unfold reduce_delay_points. cbv zeta. apply total_bind; [apply total_initial|]. intros _ s1 p _. revert s1.
  apply total_bind; [apply total_linear_loop|]. intros _ s1 r _. revert s1.
  apply total_bind; [by destruct o|]. intros _ s1 [] _. revert s1. by apply total_bind.
Qed.

Lemma total_bisect cfg n o : total (reduce_bisect evaluate cfg n o).
Proof.
  unfold reduce_bisect. cbv zeta. apply total_bind; [apply total_initial|].
  intros _ s1 p _. revert s1. apply total_bind; [done|]. intros _ s1 [] _. revert s1.
  apply total_bind; [done|]. intros _ s1 [] _. revert s1.
  apply total_bind; [apply ddmin_total; [lia|apply ddmin_fuel_enough]|].
  intros _ s1 R _. revert s1. apply total_bind; [|done].
  destruct o; [|done]. apply total_bind; [apply total_lift_exn|done].
Qed.
End Total.

(** *** A deterministic oracle: the race depends on which points are on *)

Definition enabled_ids (cfg : Config) : list (string * string) :=
  pid <$> enabled_points (load_mutator cfg).

Lemma enabled_ids_config m : mutator_inv m → enabled_ids (config m) = pid <$> enabled_points m.
Proof. intros [_ Hs]. unfold enabled_ids, enabled_points, load_mutator. by rewrite Hs. Qed.

(** The switch of every point set by membership of its identity. *)
Lemma filter_enabled_by (P : string * string → bool) (dp : list DelayPoint) :
  pid <$> filter (λ p, enabled p = true) ((λ p, with_enabled (P (pid p)) p) <$> dp) =
  filter (λ x, P x = true) (pid <$> dp).
Proof.
  induction dp as [|p dp IH]; [done|]. rewrite !fmap_cons. destruct (P (pid p)) eqn:E.
  - rewrite !filter_cons_True by done. rewrite fmap_cons. by f_equal.
  - by rewrite !filter_cons_False by (simpl; congruence).
Qed.

Lemma make_config_spec base pts :
  mutator_inv base →
  ∃ m, make_config_with_points base pts = Ok m ∧ mutator_inv m ∧
       pid <$> enabled_points m =
       filter (λ x, bool_decide (x ∈ pid <$> pts) = true) (pid <$> delay_points base).
Proof.
  intros Hinv. unfold make_config_with_points. rewrite clone_id by done.
  destruct (set_all_enabled_spec base false Hinv) as (off & -> & Hioff & Hdoff). simpl.
  match goal with |- context [set_enabled_all off ?x true] => set (idx := x) end.
  destruct (set_enabled_all_spec idx off true Hioff) as (m & -> & Him & Hdm).
  { apply refs_where_lt. }
  exists m. split_and!; [done|done|]. unfold enabled_points. rewrite <- filter_enabled_by.
  f_equal. f_equal. rewrite Hdm, Hdoff. apply list_eq. intros i.
  rewrite list_lookup_imap, !list_lookup_fmap.
  destruct (delay_points base !! i) as [p|] eqn:Ep; [|done]. simpl. f_equal.
  assert (i ∈ idx ↔ pid p ∈ pid <$> pts) as Hidx.
  { unfold idx. rewrite elem_of_refs_where, Hdoff. setoid_rewrite list_lookup_fmap.
    setoid_rewrite bool_decide_eq_true. rewrite Ep. simpl. split.
    - by intros (q & [= <-] & Hq).
    - intros Hq. by exists (with_enabled false p). }
  case_decide as Hd; [rewrite bool_decide_eq_true_2 by (by apply Hidx)
                     |rewrite bool_decide_eq_false_2 by (by rewrite <- Hidx)]; done.
Qed.

Lemma make_config_ids base pts :
  mutator_inv base → pts `sublist_of` delay_points base →
  ∃ m, make_config_with_points base pts = Ok m ∧ mutator_inv m ∧
       pid <$> enabled_points m = pid <$> pts.
Proof.
  intros Hinv Hsub. destruct (make_config_spec base pts Hinv) as (m & Hm & Hi & Hids).
  exists m. split_and!; [done|done|]. rewrite Hids.
  assert (NoDup (pid <$> delay_points base)) as Hnd.
  { destruct Hinv as [Hwf ->]. by apply parse_pids_NoDup. }
  apply filter_sublist; [done|by apply fmap_sublist|]. intros x _. apply bool_decide_eq_true.
Qed.

Section Det.
Context (race : list (string * string) → bool).
Hypothesis det : ∀ cfg w, ∃ w', evaluate cfg w = (w', Ok (race (enabled_ids cfg))).

Definition triggers (pts : list DelayPoint) : bool := race (pid <$> pts).

Lemma candidate_det p cfg s :
  files s !! p = Some cfg →
  ∃ s', candidate evaluate p s = (s', Ok (race (enabled_ids cfg))) ∧ files s' = files s.
Proof.
  intros Hp. unfold candidate. rewrite Hp. destruct (det cfg (world s)) as [w' ->]. eauto.
Qed.

Lemma vote_det p cfg th k i c s :
  files s !! p = Some cfg → 1 ≤ th → th ≤ i + Z.of_nat k → i < th →
  c = (if race (enabled_ids cfg) then i else 0) →
  ∃ s', vote evaluate p th k i c s = (s', Ok (race (enabled_ids cfg))) ∧ files s' = files s.
Proof.
  intros Hp Hth. revert i c s Hp. induction k as [|k IH]; intros i c s Hp Hk Hi ->.
  - cbn [vote]. destruct (race _) eqn:Er.
    + lia.
    + lia.
  - cbn [vote]. destruct (candidate_det p cfg s Hp) as (s1 & Hc & Hf).
    unfold mbind, st_bind. rewrite Hc. rewrite <- Hf in Hp.
    destruct (race (enabled_ids cfg)) eqn:Er; cbv zeta.
    + destruct (Z.leb_spec th (i + 1)) as [|Hlt]; [by eexists|].
      destruct (IH (i + 1) (i + 1) s1 Hp) as (s2 & H2 & Hf2); [lia|lia|done|].
      exists s2. rewrite Hf2. done.
    + replace (i + 1 - 0) with (i + 1) by lia.
      destruct (Z.leb_spec th (i + 1)) as [|Hlt]; [by eexists|].
      destruct (IH (i + 1) 0 s1 Hp) as (s2 & H2 & Hf2); [lia|lia|done|].
      exists s2. rewrite Hf2. done.
Qed.

Lemma confidence_det p cfg n s :
  files s !! p = Some cfg →
  ∃ s', run_test_with_confidence evaluate p n s = (s', Ok (race (enabled_ids cfg))) ∧
        files s' = files s.
Proof.
  intros Hp. unfold run_test_with_confidence.
  destruct (Z.leb_spec n 1); [by apply candidate_det|].
  pose proof (Z.div_lt n 2 ltac:(lia) ltac:(lia)).
  pose proof (Z.div_pos n 2 ltac:(lia) ltac:(lia)).
  apply vote_det; [done|lia|lia|lia|by destruct (race _)].
Qed.

Lemma test_subset_det base pts n s :
  mutator_inv base → pts `sublist_of` delay_points base →
  ∃ s', test_subset evaluate base pts n s = (s', Ok (triggers pts)).
Proof.
  intros Hinv Hsub. destruct (make_config_ids base pts Hinv Hsub) as (m & Hm & Him & Hids).
  unfold test_subset. rewrite Hm. unfold mbind, st_bind, st_lift. simpl.
  unfold finally.
  destruct (confidence_det (next_file s) (config m) n (save_temp m s).1) as (s2 & H2 & _).
  { simpl. apply lookup_insert_eq. }
  simpl in H2. rewrite H2. rewrite enabled_ids_config, Hids by done. by eexists.
Qed.

(** The first triggering candidate, or the proof that there is none. *)
Lemma first_triggering_det base n cs s :
  mutator_inv base → Forall (λ c, c `sublist_of` delay_points base) cs →
  ∃ s' o, first_triggering evaluate base n cs s = (s', Ok o) ∧
    match o with
    | Some c => c ∈ cs ∧ triggers c = true
    | None => ∀ c, c ∈ cs → triggers c = false
    end.
Proof.
  intros Hinv. revert s. induction cs as [|c cs IH]; intros s Hall.
  { eexists _, None. split; [done|]. intros c Hc. by apply not_elem_of_nil in Hc. }
  apply Forall_cons in Hall as [Hc Hall]. cbn [first_triggering].
  destruct (test_subset_det base c n (tick s).1 Hinv Hc) as (s2 & H2).
  unfold mbind, st_bind. simpl. simpl in H2. rewrite H2. destruct (triggers c) eqn:Et.
  - eexists _, (Some c). split; [done|]. split; [by left|done].
  - destruct (IH s2 Hall) as (s3 & o & H3 & Ho). exists s3, o. split; [done|].
    destruct o as [c'|]; [destruct Ho; split; [by right|done]|].
    intros c' [->|Hc']%elem_of_cons; auto.
Qed.

(** No single point of [pts] can be dropped. *)
Definition one_minimal (pts : list DelayPoint) : Prop :=
  (2 ≤ length pts)%nat → ∀ i x, pts !! i = Some x → triggers (delete i pts) = false.

Lemma ddmin_det fuel base n pts g s :
  mutator_inv base → pts `sublist_of` delay_points base → triggers pts = true →
  (2 ≤ g)%nat → (ddmin_measure (length pts) g < fuel)%nat →
  ∃ s' R, ddmin evaluate fuel base n pts g s = (s', Ok R) ∧
          R `sublist_of` pts ∧ triggers R = true ∧ one_minimal R.
Proof.
  intros Hinv. revert pts g s.
  induction fuel as [|fuel IH]; intros pts g s Hsub Ht Hg Hf; [lia|]. cbn [ddmin].
  destruct (Nat.leb_spec (length pts) 1) as [|Hsize].
  { eexists _, pts. split_and!; [done|done|done|]. intros ?. lia. }
  cbv zeta. set (g' := Nat.min g (length pts)). assert (2 ≤ g')%nat as Hg' by lia.
  fold (round_chunks pts g').
  pose proof (measure_clamp (length pts) g) as Hclamp. fold g' in Hclamp.
  assert (∀ c, smaller pts c → c `sublist_of` delay_points base) as Hbase.
  { intros c [Hc _]. by etrans. }
  assert (∀ c g2 s2, smaller pts c → triggers c = true → (2 ≤ g2)%nat →
    ∃ s' R, ddmin evaluate fuel base n c g2 s2 = (s', Ok R) ∧
            R `sublist_of` pts ∧ triggers R = true ∧ one_minimal R) as Hrec.
  { intros c g2 s2 Hc Htc Hg2. pose proof (measure_smaller _ _ g g2 (proj2 Hc)).
    destruct (IH c g2 s2) as (s' & R & HR & HRs & ?); [by apply Hbase|done|done|lia|].
    exists s', R. split; [done|]. split; [|done]. etrans; [done|apply Hc]. }
  destruct (first_triggering_det base n (round_chunks pts g') s Hinv) as (s1 & o1 & H1 & Ho1).
  { apply Forall_forall. intros c Hc. apply Hbase. by apply (round_chunk_smaller pts g'). }
  unfold mbind, st_bind. rewrite H1. destruct o1 as [c|].
  { destruct Ho1 as [Hc Htc]. apply Hrec; [|done|lia]. by apply (round_chunk_smaller pts g'). }
  destruct (first_triggering_det base n (complements (round_chunks pts g')) s1 Hinv)
    as (s2 & o2 & H2 & Ho2).
  { apply Forall_forall. intros c Hc. apply Hbase. by apply (round_complement_smaller pts g'). }
  rewrite H2. destruct o2 as [c|].
  { destruct Ho2 as [Hc Htc]. apply Hrec; [|done|lia]. by apply (round_complement_smaller pts g'). }
  destruct (Nat.ltb_spec g' (length pts)) as [Hlt|Hge].
  - apply IH; [done|done|lia|]. pose proof (measure_finer (length pts) g' Hg' Hlt). lia.
  - eexists _, pts. split_and!; [done|done|done|]. intros _ i x Hi. apply Ho2.
    assert (g' = length pts) as -> by lia. by eapply full_granularity.
Qed.

Lemma validate_initial_det m s :
  mutator_inv m → enabled_points m ≠ [] → race (pid <$> enabled_points m) = true →
  ∃ s' p, validate_initial_config evaluate m s = (s', Ok p).
Proof.
  intros Hinv Hne Hr. unfold validate_initial_config.
  destruct (enabled_points m) as [|q qs] eqn:E; [done|]. rewrite <- E in Hr.
  unfold mbind, st_bind, on_exception.
  destruct (candidate_det (next_file s) (config m) (save_temp m s).1) as (s2 & H2 & _).
  { simpl. apply lookup_insert_eq. }
  simpl. simpl in H2. rewrite H2. rewrite enabled_ids_config, Hr by done. by eexists _, _.
Qed.

(** *** The linear pass *)

Definition ids_at (P0 : list (string * string)) (refs : list nat) : list (string * string) :=
  (λ i, P0 !!! i) <$> refs.

Lemma enabled_ids_at m : pid <$> enabled_points m = ids_at (pid <$> delay_points m) (enabled_refs m).
Proof. apply refs_where_pids. Qed.

(** Disabling the point a reference names drops that reference. *)
Lemma disable_found_at m i p :
  mutator_inv m → delay_points m !! i = Some p → enabled p = true →
  ∃ m', disable_found m p = Ok m' ∧ mutator_inv m' ∧
        pid <$> delay_points m' = pid <$> delay_points m ∧
        enabled_refs m' = filter (λ j, j ≠ i) (enabled_refs m).
Proof.
  intros Hinv Hi He. unfold disable_found, find_point_in_mutator.
  assert (NoDup (pid <$> delay_points m)) as Hnd.
  { destruct Hinv as [Hwf ->]. by apply parse_pids_NoDup. }
  destruct (list_find _ (delay_points m)) as [[j q]|] eqn:E.
  2: { apply list_find_None in E. rewrite Forall_forall in E.
       destruct (E p); [by eapply list_elem_of_lookup_2|done]. }
  apply list_find_Some in E as (Hj & [Heq Hpid] & _). simpl.
  assert (j = i) as ->.
  { eapply (NoDup_lookup _ j i (pid p) Hnd); rewrite list_lookup_fmap;
      [rewrite Hj|rewrite Hi]; simpl; [by rewrite Hpid|done]. }
  rewrite Hi in Hj. injection Hj as <-.
  destruct (set_point_enabled_spec m i p false Hinv Hi) as (m' & -> & Hinv' & Hd).
  exists m'. split_and!; [done|done|..].
  - rewrite Hd, list_fmap_insert. apply list_insert_id. rewrite list_lookup_fmap.
    by rewrite Hi.
  - unfold enabled_refs, refs_where. rewrite Hd, length_insert, list_filter_filter.
    apply list_filter_iff. intros j. destruct (decide (j = i)) as [->|Hne].
    + rewrite list_lookup_insert_eq by (by eapply lookup_lt_Some). simpl. naive_solver.
    + rewrite list_lookup_insert_ne by done. naive_solver.
Qed.

(** One point is left out exactly when the race survives without it. *)
Lemma test_point_det m i p n s :
  mutator_inv m → delay_points m !! i = Some p → enabled p = true →
  ∃ s' q, test_point_essentiality evaluate p m n s =
    (s', Ok (negb (race (ids_at (pid <$> delay_points m)
                           (filter (λ j, j ≠ i) (enabled_refs m)))), q)).
Proof.
  intros Hinv Hi He. unfold test_point_essentiality. rewrite clone_id by done.
  destruct (disable_found_at m i p Hinv Hi He) as (m' & -> & Hinv' & Hp & Hr).
  unfold mbind, st_bind, st_lift, on_exception. simpl.
  destruct (confidence_det (next_file s) (config m') n (save_temp m' s).1) as (s2 & H2 & _).
  { simpl. apply lookup_insert_eq. }
  simpl in H2. rewrite H2.
  rewrite enabled_ids_config, enabled_ids_at, Hp, Hr by done. by eexists _, _.
Qed.

(** Every reference kept so far was needed next to a superset of what is left. *)
Definition kept_ok (P0 : list (string * string)) (ess cur : list nat) : Prop :=
  ∀ x, x ∈ ess → ∃ E, cur `sublist_of` E ∧ race (ids_at P0 (filter (λ j, j ≠ x) E)) = false.

Lemma filter_out_middle (l1 l2 : list nat) i :
  NoDup (l1 ++ i :: l2) → filter (λ j, j ≠ i) (l1 ++ i :: l2) = l1 ++ l2.
Proof.
  intros Hnd. apply filter_sublist; [done|apply sublist_app; [done|by apply sublist_cons]|].
  rewrite NoDup_app, NoDup_cons in Hnd. destruct Hnd as (_ & H1 & H2 & _).
  intros x. rewrite !elem_of_app, elem_of_cons. intros Hx. split; [tauto|].
  intros [Hx'|Hx'] ->; [|done]. apply (H1 i Hx'). by left.
Qed.

Lemma enabled_refs_NoDup m : NoDup (enabled_refs m).
Proof. apply NoDup_filter, NoDup_seq. Qed.

Lemma linear_loop_det initial n P0 refs m ess it s :
  mutator_inv m → pid <$> delay_points m = P0 → enabled_refs m = ess ++ refs →
  race (ids_at P0 (ess ++ refs)) = true → kept_ok P0 ess (ess ++ refs) →
  ∃ s' m' ess', linear_loop evaluate initial n refs m ess it s =
                  (s', Ok (m', ess', (it + length refs)%nat)) ∧
    mutator_inv m' ∧ pid <$> delay_points m' = P0 ∧ enabled_refs m' = ess' ∧
    ess' `sublist_of` ess ++ refs ∧ race (ids_at P0 ess') = true ∧ kept_ok P0 ess' ess'.
Proof.
  revert m ess it s. induction refs as [|i refs IH]; intros m ess it s Hinv HP Her Hr Hk.
  { rewrite app_nil_r in *. eexists _, m, ess. rewrite Nat.add_0_r. by split_and!. }
  assert (i ∈ enabled_refs m) as Hi by (rewrite Her; set_solver).
  apply elem_of_refs_where in Hi as (p & Hp & He).
  pose proof (enabled_refs_NoDup m) as Hnd. rewrite Her in Hnd.
  cbn [linear_loop]. rewrite Hp. unfold mbind, st_bind at 1, on_exception.
  destruct (test_point_det m i p n s Hinv Hp He) as (s1 & q & H1).
  rewrite H1, Her, HP, filter_out_middle by done. cbn [fst snd].
  destruct (race (ids_at P0 (ess ++ refs))) eqn:Erace; cbn [negb].
  - destruct (disable_found_at m i p Hinv Hp He) as (m2 & Hm2 & Hinv2 & Hp2 & Hr2).
    rewrite Her, filter_out_middle in Hr2 by done.
    unfold st_lift, st_bind. rewrite Hm2. simpl.
    destruct (IH m2 ess (S it) (cleanup_temp_file q s1).1 Hinv2) as (s' & m' & ess' & Hl & Hi' & Hp' & He' & Hs' & Hr' & Hk').
    { congruence. }
    { done. }
    { done. }
    { intros x Hx. destruct (Hk x Hx) as (E & HE & HE'). exists E. split; [|done].
      etrans; [|done]. apply sublist_app; [done|by apply sublist_cons]. }
    exists s', m', ess'. split_and!; try done.
    + simpl in Hl. rewrite Hl. do 3 f_equal. lia.
    + etrans; [done|]. apply sublist_app; [done|by apply sublist_cons].
  - unfold mret, st_ret, st_bind. simpl.
    destruct (IH m (ess ++ [i]) (S it) (cleanup_temp_file q s1).1 Hinv HP) as (s' & m' & ess' & Hl & Hi' & Hp' & He' & Hs' & Hr' & Hk').
    { by rewrite Her, <- app_assoc. }
    { by rewrite <- app_assoc. }
    { rewrite <- app_assoc. simpl. intros x [Hx|Hx%list_elem_of_singleton]%elem_of_app.
      - by apply Hk.
      - subst x. exists (ess ++ i :: refs). split; [done|]. by rewrite filter_out_middle. }
    exists s', m', ess'. split_and!; try done.
    + simpl in Hl. rewrite Hl. do 3 f_equal. lia.
    + by rewrite <- app_assoc in Hs'.
Qed.

Lemma deref_pids m refs :
  Forall (λ i, i < length (delay_points m))%nat refs →
  pid <$> deref m refs = ids_at (pid <$> delay_points m) refs.
Proof.
  intros Hlt. unfold deref, ids_at. induction Hlt as [|i refs Hi _ IH]; [done|].
  apply lookup_lt_is_Some in Hi as [p Hp].
  assert ((pid <$> delay_points m) !!! i = pid p) as Hl.
  { apply list_lookup_total_correct. by rewrite list_lookup_fmap, Hp. }
  change (omap (λ j, delay_points m !! j) (i :: refs)) with
    (match delay_points m !! i with
     | Some q => q :: omap (λ j, delay_points m !! j) refs
     | None => omap (λ j, delay_points m !! j) refs
     end).
  rewrite Hp, !fmap_cons, Hl. f_equal. exact IH.
Qed.

(** Dropping position [i] of a list of distinct references, read through the table. *)
Lemma ids_at_delete P0 refs i x :
  NoDup refs → refs !! i = Some x →
  delete i (ids_at P0 refs) = ids_at P0 (filter (λ j, j ≠ x) refs).
Proof.
  intros Hnd Hi. rewrite <- (take_drop_middle refs i x Hi) in Hnd.
  rewrite <- (take_drop_middle refs i x Hi) at 2. rewrite filter_out_middle by done.
  unfold ids_at. rewrite <- delete_take_drop. by rewrite list_fmap_delete.
Qed.

(** Both passes on a deterministic oracle. *)
Lemma bisect_det cfg n o s :
  config_wf cfg → enabled_ids cfg ≠ [] → race (enabled_ids cfg) = true →
  ∃ s' r, reduce_bisect evaluate cfg n o s = (s', Ok r) ∧
    total_points r = length (enabled_ids cfg) ∧
    essential_points r `sublist_of` enabled_points (load_mutator cfg) ∧
    triggers (essential_points r) = true ∧ one_minimal (essential_points r) ∧
    (o = true → ∃ c, output s' = Some c ∧ enabled_ids c = pid <$> essential_points r).
Proof.
  intros Hwf Hne Hr. pose proof (load_mutator_inv _ Hwf) as Hinv.
  set (base := load_mutator cfg) in *. unfold enabled_ids in *. fold base in Hne, Hr |- *.
  assert (enabled_points base ≠ []) as Hne' by (intros E; by rewrite E in Hne).
  destruct (validate_initial_det base s Hinv Hne' Hr) as (s1 & p & H1).
  unfold reduce_bisect. fold base. cbv zeta. unfold mbind, st_bind at 1. rewrite H1.
  pose proof (ddmin_fuel_enough (length (enabled_points base))) as Hfuel.
  generalize dependent (ddmin_fuel (length (enabled_points base))). intros fuel Hfuel.
  unfold st_bind at 1. simpl. unfold st_bind at 1. simpl. unfold st_bind at 1.
  match goal with |- context [ddmin _ _ _ _ _ _ ?s0] => generalize s0; intros s2 end.
  destruct (ddmin_det fuel base n
    (enabled_points base) 2 s2 Hinv) as (s3 & R & H3 & Hsub & Htr & Hmin).
  { apply sublist_filter. }
  { done. }
  { lia. }
  { done. }
  rewrite H3. destruct o; unfold st_bind at 1.
  - destruct (make_config_ids base R Hinv) as (m & Hm & Him & Hids).
    { etrans; [done|apply sublist_filter]. }
    unfold st_bind at 1, st_lift. rewrite Hm. simpl.
    eexists _, _. split; [done|]. simpl. rewrite length_fmap. split_and!; try done.
    intros _. exists (config m). split; [done|]. 
    rewrite <- Hids. by apply enabled_ids_config.
  - eexists _, _. split; [done|]. simpl. rewrite length_fmap. by split_and!.
Qed.

Lemma linear_det cfg n o s :
  config_wf cfg → enabled_ids cfg ≠ [] → race (enabled_ids cfg) = true →
  ∃ s' r, reduce_delay_points evaluate cfg n o s = (s', Ok r) ∧
    total_points r = length (enabled_ids cfg) ∧ iterations r = total_points r ∧
    (pid <$> essential_points r) `sublist_of` enabled_ids cfg ∧
    triggers (essential_points r) = true ∧
    ((∀ l l', l `sublist_of` l' → race l = true → race l' = true) →
     ∀ i x, essential_points r !! i = Some x → triggers (delete i (essential_points r)) = false) ∧
    (o = true → ∃ c, output s' = Some c ∧ enabled_ids c = pid <$> essential_points r).
Proof.
  intros Hwf Hne Hr. pose proof (load_mutator_inv _ Hwf) as Hinv.
  set (base := load_mutator cfg) in *. unfold enabled_ids in Hne, Hr |- *. fold base in Hne, Hr |- *.
  assert (enabled_points base ≠ []) as Hne' by (intros E; by rewrite E in Hne).
  destruct (validate_initial_det base s Hinv Hne' Hr) as (s1 & p & H1).
  unfold reduce_delay_points. fold base. cbv zeta. unfold mbind, st_bind at 1. rewrite H1.
  rewrite enabled_ids_at in Hr |- *.
  destruct (linear_loop_det p n _ (enabled_refs base) base [] 0 s1 Hinv eq_refl eq_refl Hr)
    as (s2 & m & ess & H2 & Him & Hpids & Hess & Hsub & Htr & Hk).
  { intros x Hx. by apply elem_of_nil in Hx. }
  unfold st_bind at 1. rewrite H2. clear H2. subst ess.
  assert (pid <$> deref m (enabled_refs m) = ids_at (pid <$> delay_points base) (enabled_refs m))
    as Hids by (rewrite deref_pids, Hpids; [done|apply refs_where_lt]).
  assert (∃ s', ((_ ← (if o then save_output m else mret ()); _ ← cleanup_temp_file p;
            mret (mkReduceResult (length (enabled_refs base)) (deref m (enabled_refs m))
                    (0 + length (enabled_refs base)) Linear)) : @RM W ReduceResult) s2 =
          (s', Ok (mkReduceResult (length (enabled_refs base)) (deref m (enabled_refs m))
                    (0 + length (enabled_refs base)) Linear)) ∧
          (o = true → output s' = Some (config m))) as (s' & Hs' & Ho).
  { destruct o; by eexists. }
  exists s'. eexists. split; [exact Hs'|]. cbn [total_points essential_points iterations].
  unfold triggers. rewrite Hids.
  split_and!; [by unfold ids_at; rewrite length_fmap|lia| |done|..].
  - unfold ids_at. by apply fmap_sublist.
  - intros Hmono i x Hi. rewrite list_fmap_delete, Hids.
    assert (∃ y, enabled_refs m !! i = Some y) as [y Hy].
    { apply lookup_lt_is_Some. apply lookup_lt_Some in Hi.
      enough (length (deref m (enabled_refs m)) = length (enabled_refs m)) by lia.
      apply (f_equal length) in Hids. unfold ids_at in Hids. by rewrite !length_fmap in Hids. }
    rewrite (ids_at_delete _ _ _ _ (enabled_refs_NoDup m) Hy).
    destruct (Hk y) as (E & HE & HE'); [by eapply list_elem_of_lookup_2|].
    destruct (race (ids_at _ (filter _ (enabled_refs m)))) eqn:Er; [|done].
    rewrite <- HE'. symmetry. eapply Hmono; [|exact Er].
    unfold ids_at. apply fmap_sublist. by apply sublist_filter_mono.
  - intros ->. exists (config m). split; [by apply Ho|]. unfold deref in Hids.
    change (enabled_ids (config m) = ids_at (pid <$> delay_points base) (enabled_refs m)).
    by rewrite enabled_ids_config, enabled_ids_at, Hpids.
Qed.
End Det.
End Frames.

(** ** Properties *)

(** Replays answer by which points are on, and never raise. *)
Definition deterministic {W} (evaluate : Config → W → W * res rexn bool)
    (race : list (string * string) → bool) : Prop :=
  ∀ cfg w, ∃ w', evaluate cfg w = (w', Ok (race (enabled_ids cfg))).

(** How many of the answers are "race". *)
Definition yes (l : list bool) : Z := Z.of_nat (length (filter (λ b, b = true) l)).

Lemma yes_cons b l : yes (b :: l) = (if b then 1 else 0) + yes l.
Proof.
  unfold yes. destruct b; [rewrite filter_cons_True by done|by rewrite filter_cons_False by done].
  cbn [length]. lia.
Qed.

Lemma yes_bounds l : 0 ≤ yes l ≤ Z.of_nat (length l).
Proof. unfold yes. pose proof (length_filter (λ b, b = true) l). lia. Qed.

(** An oracle that reads its answers from a tape. *)
Definition tape (cfg : Config) (w : list bool) : list bool * res rexn bool :=
  match w with
  | [] => ([], Err (PyErr RuntimeError))
  | b :: w' => (w', Ok b)
  end.

Lemma vote_tape p cfg th k i c outs s :
  files s !! p = Some cfg → world s = outs → (k ≤ length outs)%nat →
  c < th → i - c < th → i + Z.of_nat k < 2 * th →
  (vote tape p th k i c s).2 = Ok (bool_decide (th ≤ c + yes (take k outs))).
Proof.
  intros Hp. revert i c outs s Hp. induction k as [|k IH]; intros i c outs s Hp Hw Hk Hc Hi Hth.
  - cbn [vote]. unfold mret, st_ret. cbn [snd]. rewrite take_0. change (yes []) with 0.
    do 2 f_equal. apply Bool.eq_iff_eq_true. rewrite Z.leb_le, bool_decide_eq_true. lia.
  - destruct outs as [|b outs]; [simpl in Hk; lia|].
    cbn [vote]. unfold mbind, st_bind, candidate at 1. rewrite Hp, Hw. cbn [tape].
    cbn [take]. rewrite yes_cons.
    pose proof (yes_bounds (take k outs)) as Hy. rewrite length_take in Hy.
    assert (length outs >= k)%nat by (simpl in Hk; lia). destruct b; cbv zeta.
    + destruct (Z.leb_spec th (c + 1)).
      * cbn. f_equal. symmetry. apply bool_decide_eq_true. lia.
      * rewrite (IH _ _ outs) by (done || lia). do 2 f_equal.
        apply bool_decide_ext. lia.
    + destruct (Z.leb_spec th (i + 1 - c)).
      * cbn. f_equal. symmetry. apply bool_decide_eq_false. lia.
      * rewrite (IH _ _ outs) by (done || lia). do 2 f_equal.
Qed.

(** C4: on replays that depend only on which points are on, bisection of a
    triggering configuration returns a subset of its enabled points that still
    triggers, from which no single point can be dropped, and writes out a
    document that enables exactly that subset.  It never fails or diverges. *)
Theorem reduce_bisect_minimal {W} (evaluate : Config → W → W * res rexn bool) race cfg n o s :
  config_wf cfg → deterministic evaluate race →
  enabled_ids cfg ≠ [] → race (enabled_ids cfg) = true →
  ∃ s' r, reduce_bisect evaluate cfg n o s = (s', Ok r) ∧
    total_points r = length (enabled_ids cfg) ∧
    essential_points r `sublist_of` enabled_points (load_mutator cfg) ∧
    race (pid <$> essential_points r) = true ∧
    ((2 ≤ length (essential_points r))%nat →
       ∀ i x, essential_points r !! i = Some x →
         race (pid <$> delete i (essential_points r)) = false) ∧
    (o = true → ∃ c, output s' = Some c ∧ enabled_ids c = pid <$> essential_points r).
Proof. intros Hwf Hdet Hne Hr. by apply (bisect_det evaluate race Hdet). Qed.

(** The linear pass on such replays tests every enabled point once, keeps a
    triggering subset, and writes the document that enables exactly it; when
    enabling more points never hides the race, no kept point is removable. *)
Theorem reduce_linear_minimal {W} (evaluate : Config → W → W * res rexn bool) race cfg n o s :
  config_wf cfg → deterministic evaluate race →
  enabled_ids cfg ≠ [] → race (enabled_ids cfg) = true →
  ∃ s' r, reduce_delay_points evaluate cfg n o s = (s', Ok r) ∧
    total_points r = length (enabled_ids cfg) ∧ iterations r = total_points r ∧
    (pid <$> essential_points r) `sublist_of` enabled_ids cfg ∧
    race (pid <$> essential_points r) = true ∧
    ((∀ l l', l `sublist_of` l' → race l = true → race l' = true) →
     ∀ i x, essential_points r !! i = Some x →
       race (pid <$> delete i (essential_points r)) = false) ∧
    (o = true → ∃ c, output s' = Some c ∧ enabled_ids c = pid <$> essential_points r).
Proof. intros Hwf Hdet Hne Hr. by apply (linear_det evaluate race Hdet). Qed.

(** Whatever the replays do — answer, raise, run out — neither reducer
    leaves a temporary candidate file behind or removes one it did not make. *)
Theorem reducers_leave_no_temp_files {W} (evaluate : Config → W → W * res rexn bool) cfg n o s :
  config_wf cfg → fresh s →
  files (reduce_delay_points evaluate cfg n o s).1 = files s ∧
  files (reduce_bisect evaluate cfg n o s).1 = files s.
Proof.
  intros Hwf Hf. split.
  - destruct (reduce_delay_points evaluate cfg n o s) as [s' r] eqn:E.
    by apply (reduce_delay_points_leakfree evaluate cfg n o Hwf s s' r Hf).
  - destruct (reduce_bisect evaluate cfg n o s) as [s' r] eqn:E.
    by apply (reduce_bisect_leakfree evaluate cfg n o s s' r Hf).
Qed.

(** Both reducers end: the fuel [reduce_bisect] gives its delta-debugging loop is never
    exhausted, for any oracle whose replays end. *)
Theorem reduce_bisect_terminates {W} (evaluate : Config → W → W * res rexn bool) cfg n o s :
  (∀ c w, (evaluate c w).2 ≠ Err OutOfFuel) →
  (reduce_bisect evaluate cfg n o s).2 ≠ Err OutOfFuel ∧ (reduce_delay_points evaluate cfg n o s).2 ≠ Err OutOfFuel.
Proof. intros Ht. split; [by apply total_bisect|by apply total_linear]. Qed.

(** Repeated runs vote by majority, and stopping early never changes the
    verdict: whatever the runs answer, the race is confirmed exactly when more
    than half of the first [confidence_runs] answers say so. *)
Theorem confidence_is_majority p cfg n outs s :
  files s !! p = Some cfg → world s = outs → (Z.to_nat (Z.max 1 n) ≤ length outs)%nat →
  (run_test_with_confidence tape p n s).2 =
    Ok (bool_decide (Z.max 1 n < 2 * yes (take (Z.to_nat (Z.max 1 n)) outs))).
Proof.
  intros Hp Hw Hlen. unfold run_test_with_confidence. destruct (Z.leb_spec n 1).
  - rewrite Z.max_l in * by lia. destruct outs as [|b outs]; [simpl in Hlen; lia|].
    unfold candidate. rewrite Hp, Hw. change (Z.to_nat 1) with 1%nat. rewrite firstn_cons, take_0, yes_cons.
    by destruct b.
  - rewrite Z.max_r in * by lia. pose proof (Z.div_mod n 2 ltac:(lia)).
    pose proof (Z.mod_pos_bound n 2 ltac:(lia)).
    rewrite (vote_tape p cfg _ _ _ _ outs) by (done || lia).
    do 2 f_equal. apply bool_decide_ext. lia.
Qed.

(** ** A concrete run: four points, two of which race together *)

Definition demo_point (b : bool) : PointCfg := mkPointCfg (Some "LDG.E R4, [R2]") (Some 500) (Some b).

Definition demo_config : Config :=
  mkConfig (Some 500)
    [("k0", mkKernelCfg (Some "producer") [("16", demo_point true); ("32", demo_point true)]);
     ("k1", mkKernelCfg None [("48", demo_point true); ("64", demo_point false); ("80", demo_point true)])].

(** The race needs a delay at [k0:32] and one at [k1:48]. *)
Definition demo_race (ids : list (string * string)) : bool :=
  bool_decide (("k0", "32") ∈ ids) && bool_decide (("k1", "48") ∈ ids).

Definition demo_evaluate (cfg : Config) (w : ()) : () * res rexn bool :=
  (w, Ok (demo_race (enabled_ids cfg))).

Definition demo_state : RState () := mkRState () ∅ 0 0 None.

Lemma demo_config_wf : config_wf demo_config.
Proof.
  split; [apply (bool_decide_unpack _); vm_compute; exact I|].
  intros key k Hk. unfold demo_config in Hk. cbn [cfg_kernels] in Hk.
  rewrite !elem_of_cons, elem_of_nil in Hk.
  destruct Hk as [Hk|[Hk|[]]]; injection Hk as -> ->; apply (bool_decide_unpack _); vm_compute; exact I.
Qed.

Lemma demo_deterministic : deterministic demo_evaluate demo_race.
Proof. intros cfg []. by exists (). Qed.

Example demo_bisect :
  (pid <$> (match (reduce_bisect demo_evaluate demo_config 1 true demo_state).2 with
            | Ok r => essential_points r | Err _ => [] end)) = [("k0", "32"); ("k1", "48")].
Proof. vm_compute. reflexivity. Qed.

Lemma reduce_bisect_minimal_witness :
  ∃ s' r, reduce_bisect demo_evaluate demo_config 3 true demo_state = (s', Ok r) ∧
    total_points r = 4%nat ∧ demo_race (pid <$> essential_points r) = true.
Proof.

  destruct (reduce_bisect_minimal demo_evaluate demo_race demo_config 3 true demo_state
    demo_config_wf demo_deterministic ltac:(vm_compute; discriminate) ltac:(vm_compute; reflexivity))
    as (s' & r & Hr & Ht & _ & Hrace & _).
  exists s', r. split; [exact Hr|]. split; [exact Ht|exact Hrace].
Defined.

Lemma reduce_linear_minimal_witness :
  ∃ s' r, reduce_delay_points demo_evaluate demo_config 1 true demo_state = (s', Ok r) ∧
    iterations r = 4%nat ∧ demo_race (pid <$> essential_points r) = true.
Proof.
  destruct (reduce_linear_minimal demo_evaluate demo_race demo_config 1 true demo_state
    demo_config_wf demo_deterministic ltac:(vm_compute; discriminate) ltac:(vm_compute; reflexivity))
    as (s' & r & Hr & Ht & Hi & _ & Hrace & _).
  exists s', r. split; [exact Hr|]. split; [rewrite Hi; exact Ht|exact Hrace].
Defined.

(** An oracle that dies on its third replay, with two files already in place. *)
Definition dying (cfg : Config) (w : nat) : nat * res rexn bool :=
  (S w, if (w <? 2)%nat then Ok true else Err (PyErr RuntimeError)).

Definition busy_state : RState nat :=
  mkRState 0%nat {[0%nat := demo_config; 1%nat := demo_config]} 2 0 None.

Lemma busy_fresh : fresh busy_state.
Proof. intros p Hp. cbn in *. rewrite lookup_insert_ne by lia. apply lookup_singleton_ne. lia. Qed.

Lemma reducers_leave_no_temp_files_witness :
  (reduce_delay_points dying demo_config 1 false busy_state).2 = Err (PyErr RuntimeError) ∧
  files (reduce_delay_points dying demo_config 1 false busy_state).1 = files busy_state.
Proof.
  split; [vm_compute; reflexivity|].
  exact (proj1 (reducers_leave_no_temp_files dying demo_config 1 false busy_state
    demo_config_wf busy_fresh)).
Defined.

Lemma reduce_bisect_terminates_witness :
  (reduce_bisect dying demo_config 1 false busy_state).2 ≠ Err OutOfFuel.
Proof.
  apply (reduce_bisect_terminates dying demo_config 1 false busy_state).
  intros c w. unfold dying. cbn [snd]. destruct (w <? 2)%nat; discriminate.
Defined.

(** Three of the five answers are "no": the last answer is never asked for. *)
Lemma confidence_is_majority_witness :
  (run_test_with_confidence tape 0 5
     (mkRState [true; false; false; true; false] {[0%nat := demo_config]} 1 0 None)).2 = Ok false.
Proof.
  apply (confidence_is_majority 0 demo_config 5 [true; false; false; true; false]
    (mkRState [true; false; false; true; false] {[0%nat := demo_config]} 1 0 None)).
  - apply lookup_singleton_eq.
  - reflexivity.
  - cbn. lia.
Defined.
