(* ===== verification/Dates.v ===== *)
(** Calendar dates: [parse_ymd_date] of src/python/cutracer/service/contracts.py
    and what the code uses of [datetime.date]: validity, comparison, and the
    day number that subtraction is defined by. *)
From S2P Require Import Prelude.
From S2P Require Import PyStr.
From Stdlib Require Import Ascii.
Local Open Scope Z_scope.

Record date := mkDate {
  year : Z;
  month : Z;
  day : Z
}.

#[export] Instance date_eq_dec : EqDecision date.
Proof. solve_decision. Defined.

Definition is_leap (y : Z) : bool :=
  (y mod 4 =? 0) && (negb (y mod 100 =? 0) || (y mod 400 =? 0)).

Definition days_in_month (y m : Z) : Z :=
  if m =? 2 then (if is_leap y then 29 else 28)
  else if (m =? 4) || (m =? 6) || (m =? 9) || (m =? 11) then 30 else 31.

(** What [datetime.date(y, m, d)] accepts. *)
Definition date_ok (x : date) : bool :=
  (1 <=? year x) && (year x <=? 9999) && (1 <=? month x) && (month x <=? 12) &&
  (1 <=? day x) && (day x <=? days_in_month (year x) (month x)).

(** [YYYY-MM-DD] naming an existing day, else nothing. *)
Definition parse_ymd_date (s : string) : option date :=
  match chars s with
  | [y1; y2; y3; y4; h1; m1; m2; h2; d1; d2] =>
      if forallb is_digit [y1; y2; y3; y4; m1; m2; d1; d2] &&
         Ascii.eqb h1 "-"%char && Ascii.eqb h2 "-"%char
      then
        let x := mkDate (dec_value [y1; y2; y3; y4]) (dec_value [m1; m2]) (dec_value [d1; d2]) in
        if date_ok x then Some x else None
      else None
  | _ => None
  end.

(** [a < b]: the order of (year, month, day). *)
Definition date_ltb (a b : date) : bool :=
  (year a <? year b) ||
  ((year a =? year b) && ((month a <? month b) || ((month a =? month b) && (day a <? day b)))).

Definition date_leb (a b : date) : bool := negb (date_ltb b a).

(** [date.toordinal]. *)
Definition days_before_month (y m : Z) : Z :=
  (match m with
   | 1 => 0 | 2 => 31 | 3 => 59 | 4 => 90 | 5 => 120 | 6 => 151
   | 7 => 181 | 8 => 212 | 9 => 243 | 10 => 273 | 11 => 304 | _ => 334
   end) + (if (2 <? m) && is_leap y then 1 else 0).

Definition days_before_year (y : Z) : Z :=
  let p := y - 1 in p * 365 + p / 4 - p / 100 + p / 400.

Definition ordinal (x : date) : Z :=
  days_before_year (year x) + days_before_month (year x) (month x) + day x.

(** [(a - b).days]. *)
Definition days_between (a b : date) : Z := ordinal a - ordinal b.

Lemma parse_ok s x : parse_ymd_date s = Some x → date_ok x = true.
Proof.
  unfold parse_ymd_date.
  destruct (chars s) as [|y1 [|y2 [|y3 [|y4 [|h1 [|m1 [|m2 [|h2 [|d1 [|d2 [|]]]]]]]]]]]; try done.
  case_match; [|done]. cbv zeta. case_match eqn:E; [|done]. intros H'. injection H' as <-. exact E.
Qed.

Lemma month_cases m : 1 ≤ m ≤ 12 →
  m = 1 ∨ m = 2 ∨ m = 3 ∨ m = 4 ∨ m = 5 ∨ m = 6 ∨ m = 7 ∨ m = 8 ∨ m = 9 ∨ m = 10 ∨ m = 11 ∨ m = 12.
Proof. lia. Qed.

(** Within a year the day number respects (month, day). *)
Lemma month_step y m d m' d' :
  1 ≤ m ≤ 12 → 1 ≤ m' ≤ 12 → 1 ≤ d ≤ days_in_month y m → 1 ≤ d' ≤ days_in_month y m' → m < m' →
  days_before_month y m + d < days_before_month y m' + d'.
Proof.
  intros Hm Hm' Hd Hd' Hlt. unfold days_before_month, days_in_month in *.
  destruct (is_leap y), (month_cases m Hm) as [-> | [-> | [-> | [-> | [-> | [-> | [-> | [-> | [-> | [-> | [-> | ->]]]]]]]]]]],
    (month_cases m' Hm') as [-> | [-> | [-> | [-> | [-> | [-> | [-> | [-> | [-> | [-> | [-> | ->]]]]]]]]]]];
    cbn in *; lia.
Qed.

Lemma day_of_year y m d :
  1 ≤ m ≤ 12 → 1 ≤ d ≤ days_in_month y m →
  1 ≤ days_before_month y m + d ≤ (if is_leap y then 366 else 365).
Proof.
  intros Hm Hd. unfold days_before_month, days_in_month in *.
  destruct (is_leap y), (month_cases m Hm) as [-> | [-> | [-> | [-> | [-> | [-> | [-> | [-> | [-> | [-> | [-> | ->]]]]]]]]]]];
    cbn in *; lia.
Qed.

Lemma year_length y :
  days_before_year (y + 1) = days_before_year y + (if is_leap y then 366 else 365).
Proof.
  unfold days_before_year, is_leap. cbv zeta.
  replace (y + 1 - 1) with y by lia.
  pose proof (Z.div_mod y 4 ltac:(lia)). pose proof (Z.mod_pos_bound y 4 ltac:(lia)).
  pose proof (Z.div_mod y 100 ltac:(lia)). pose proof (Z.mod_pos_bound y 100 ltac:(lia)).
  pose proof (Z.div_mod y 400 ltac:(lia)). pose proof (Z.mod_pos_bound y 400 ltac:(lia)).
  pose proof (Z.div_mod (y - 1) 4 ltac:(lia)). pose proof (Z.mod_pos_bound (y - 1) 4 ltac:(lia)).
  pose proof (Z.div_mod (y - 1) 100 ltac:(lia)). pose proof (Z.mod_pos_bound (y - 1) 100 ltac:(lia)).
  pose proof (Z.div_mod (y - 1) 400 ltac:(lia)). pose proof (Z.mod_pos_bound (y - 1) 400 ltac:(lia)).
  destruct (Z.eqb_spec (y mod 4) 0), (Z.eqb_spec (y mod 100) 0), (Z.eqb_spec (y mod 400) 0);
    cbn [negb andb orb]; lia.
Qed.

Lemma days_before_year_mono y y' : y ≤ y' → days_before_year y ≤ days_before_year y'.
Proof.
  intros Hle. unfold days_before_year. cbv zeta.
  pose proof (Z.div_mod (y - 1) 4 ltac:(lia)). pose proof (Z.mod_pos_bound (y - 1) 4 ltac:(lia)).
  pose proof (Z.div_le_mono (y - 1) (y' - 1) 4 ltac:(lia) ltac:(lia)).
  pose proof (Z.div_le_mono (y - 1) (y' - 1) 400 ltac:(lia) ltac:(lia)).
  assert ((y' - 1) / 100 - (y - 1) / 100 ≤ y' - y); [|lia].
  pose proof (Z.div_mod (y' - 1) 100 ltac:(lia)). pose proof (Z.mod_pos_bound (y' - 1) 100 ltac:(lia)).
  pose proof (Z.div_mod (y - 1) 100 ltac:(lia)). pose proof (Z.mod_pos_bound (y - 1) 100 ltac:(lia)).
  lia.
Qed.

Lemma date_ok_bounds x :
  date_ok x = true →
  1 ≤ month x ≤ 12 ∧ 1 ≤ day x ≤ days_in_month (year x) (month x).
Proof.
  unfold date_ok. rewrite !andb_true_iff, !Z.leb_le. intros [[[[[] ?] ?] ?] ?]. lia.
Qed.

(** Comparing dates is comparing day numbers. *)
Lemma date_ltb_ordinal a b :
  date_ok a = true → date_ok b = true → date_ltb a b = true ↔ ordinal a < ordinal b.
Proof.
  intros Ha Hb. apply date_ok_bounds in Ha as [Hma Hda], Hb as [Hmb Hdb].
  assert (∀ a b, 1 ≤ month a ≤ 12 → 1 ≤ day a ≤ days_in_month (year a) (month a) →
    1 ≤ month b ≤ 12 → 1 ≤ day b ≤ days_in_month (year b) (month b) →
    date_ltb a b = true → ordinal a < ordinal b) as Hlt.
  { clear. intros a b Hma Hda Hmb Hdb. unfold date_ltb, ordinal.
    rewrite orb_true_iff, andb_true_iff, orb_true_iff, andb_true_iff, !Z.ltb_lt, !Z.eqb_eq.
    intros [Hy|[Hy [Hm|[Hm Hd]]]].
    - pose proof (day_of_year _ _ _ Hma Hda). pose proof (day_of_year _ _ _ Hmb Hdb).
      pose proof (year_length (year a)).
      pose proof (days_before_year_mono (year a + 1) (year b) ltac:(lia)). lia.
    - rewrite Hy in *. pose proof (month_step _ _ _ _ _ Hma Hmb Hda Hdb Hm). lia.
    - rewrite Hy, Hm in *. lia. }
  split; [by apply Hlt|]. intros Ho. destruct (date_ltb a b) eqn:E; [done|exfalso].
  destruct (date_ltb b a) eqn:E'; [specialize (Hlt b a Hmb Hdb Hma Hda E'); lia|].
  unfold date_ltb in E, E'.
  rewrite orb_false_iff, andb_false_iff, orb_false_iff, andb_false_iff, !Z.ltb_ge, !Z.eqb_neq in E, E'.
  assert (year a = year b) as Hy by lia. assert (month a = month b) as Hm by lia.
  assert (day a = day b) as Hd by lia. unfold ordinal in Ho. rewrite Hy, Hm, Hd in Ho. lia.
Qed.
