(* ===== verification/PySet.v ===== *)
(** [sorted(set(xs))] of strings, and the set operations the code sorts. *)
From S2P Require Import Prelude.
From Stdlib Require String.

Definition str_le (a b : string) : Prop := String.leb a b = true.

#[export] Instance str_le_dec : RelDecision str_le.
Proof. intros a b. unfold str_le. apply _. Defined.

#[export] Instance str_le_total : Total str_le.
Proof. intros a b. unfold str_le. by destruct (String.leb_total a b); [left|right]. Qed.

Definition sorted_set (l : list string) : list string := merge_sort str_le (remove_dups l).

(** [a - b] and [a & b], as sorted sets. *)
Definition set_minus (a b : list string) : list string :=
  sorted_set (filter (λ x, x ∉ b) a).
Definition set_and (a b : list string) : list string :=
  sorted_set (filter (λ x, x ∈ b) a).

Lemma elem_of_sorted_set l x : x ∈ sorted_set l ↔ x ∈ l.
Proof. unfold sorted_set. by rewrite merge_sort_Permutation, elem_of_remove_dups. Qed.

Lemma sorted_set_NoDup l : NoDup (sorted_set l).
Proof. unfold sorted_set. rewrite merge_sort_Permutation. apply NoDup_remove_dups. Qed.

Lemma sorted_set_Sorted l : Sorted str_le (sorted_set l).
Proof. apply Sorted_merge_sort, _. Qed.

Lemma elem_of_set_minus a b x : x ∈ set_minus a b ↔ x ∈ a ∧ x ∉ b.
Proof. unfold set_minus. rewrite elem_of_sorted_set, list_elem_of_filter. tauto. Qed.

Lemma elem_of_set_and a b x : x ∈ set_and a b ↔ x ∈ a ∧ x ∈ b.
Proof. unfold set_and. rewrite elem_of_sorted_set, list_elem_of_filter. tauto. Qed.

Lemma sorted_set_nil l : sorted_set l = [] ↔ l = [].
Proof.
  split; [|by intros ->]. intros H. destruct l as [|x l]; [done|].
  assert (x ∈ sorted_set (x :: l)) as Hx by (rewrite elem_of_sorted_set; by left).
  rewrite H in Hx. by apply elem_of_nil in Hx.
Qed.
