(* ===== verification/Json.v ===== *)
(** JSON payloads and the dataclass codecs over them.

    A payload is what [json.loads] returns: JSON text is not modelled.  Floats
    are IEEE binary64 values ([SpecFloat], the executable specification of the
    Standard Library).  The decoders of the code do not check field types; here a
    payload whose field has another type than the dataclass declares decodes to
    [IllTyped], and nothing is said about it.

    [JsonCodec] is the interface between a contract and everything that stores
    or sends it: encoding then decoding a valid value gives it back. *)
From S2P Require Import Prelude.
From S2P Require Import PyStr.
From S2P Require Import PyDict.
From Stdlib Require Import Ascii.
From Stdlib Require String.
From Stdlib Require Import Floats.SpecFloat.
Local Open Scope Z_scope.

(** ** Python floats *)

Definition float : Type := spec_float.
Definition f_add : float → float → float := SFadd 53 1024.
Definition f_sub : float → float → float := SFsub 53 1024.
Definition f_mul : float → float → float := SFmul 53 1024.
Definition f_div : float → float → float := SFdiv 53 1024.
Definition f_abs : float → float := SFabs.
Definition f_le : float → float → bool := SFleb.
Definition f_lt : float → float → bool := SFltb.
Definition f_eq : float → float → bool := SFeqb.
Definition f_zero : float := S754_zero false.
Definition f_one : float := S754_finite false 4503599627370496 (-52).

Definition is_inf (f : float) : bool := match f with S754_infinity _ => true | _ => false end.

(** [float(n)]: rounded to nearest; too large raises [OverflowError]. *)
Definition f_of_Z (n : Z) : option float :=
  let f := binary_normalize 53 1024 n 0 false in if is_inf f then None else Some f.

(** [int(f)]: truncation; not for NaN and infinities. *)
Definition f_trunc (f : float) : option Z :=
  match f with
  | S754_zero _ => Some 0
  | S754_finite s m e =>
      let a := if 0 <=? e then Z.pos m * 2 ^ e else Z.pos m / 2 ^ (- e) in
      Some (if s then - a else a)
  | _ => None
  end.

(** [math.isclose(a, b, rel_tol=r, abs_tol=t)]. *)
Definition isclose (a b r t : float) : bool :=
  f_eq a b ||
  (negb (is_inf a || is_inf b) &&
   let diff := f_abs (f_sub b a) in
   f_le diff (f_abs (f_mul r b)) || f_le diff (f_abs (f_mul r a)) || f_le diff t).

(** [a / b] of natural numbers: Python rounds the exact quotient once; 0 where
    [b] is 0, the fallback of every use. *)
Definition f_ratio (a b : Z) : float :=
  match a, b with
  | Z.pos p, Z.pos q => f_div (S754_finite false p 0) (S754_finite false q 0)
  | _, _ => f_zero
  end.

(** ** Payloads *)

Inductive json :=
| JNull
| JBool (b : bool)
| JInt (z : Z)
| JFloat (f : float)
| JStr (s : string)
| JList (l : list json)
| JObj (d : list (string * json)).

Inductive derr := Raised (e : exn) | IllTyped.
Notation dres := (res derr).

Definition obj : Type := list (string * json).

Fixpoint field {A} (d : list (string * A)) (k : string) : option A :=
  match d with
  | [] => None
  | (k', v) :: r => if String.eqb k k' then Some v else field r k
  end.

Lemma field_dict_get {A} (d : list (string * A)) k : field d k = dict_get d k.
Proof.
  induction d as [|[k' v] d IH]; [done|]. cbn [field dict_get]. rewrite IH.
  destruct (String.eqb_spec k k'); [by rewrite decide_True|by rewrite decide_False].
Qed.

(** [d[k]], [d.get(k)] and [d.get(k, v)]. *)
Definition req (d : obj) (k : string) : dres json :=
  match field d k with Some v => Ok v | None => Err (Raised KeyError) end.
Definition get (d : obj) (k : string) : json := default JNull (field d k).
Definition get_or (d : obj) (k : string) (v : json) : json := default v (field d k).

(** [_known]: the entries whose key is a field name. *)
Definition known (names : list string) (d : obj) : obj :=
  List.filter (λ e, existsb (String.eqb e.1) names) d.

(** Reading a field at the type its dataclass declares. *)
Definition as_obj (j : json) : dres obj := match j with JObj d => Ok d | _ => Err IllTyped end.
Definition as_str (j : json) : dres string := match j with JStr s => Ok s | _ => Err IllTyped end.
Definition as_list (j : json) : dres (list json) := match j with JList l => Ok l | _ => Err IllTyped end.
Definition as_raw_bool (j : json) : dres bool := match j with JBool b => Ok b | _ => Err IllTyped end.

(** [int(x)]. *)
Definition py_int (j : json) : dres Z :=
  match j with
  | JInt z => Ok z
  | JBool b => Ok (if b then 1 else 0)
  | JFloat f => 
      match f_trunc f with
      | Some z => Ok z
      | None => Err (Raised (if is_inf f then OverflowError else ValueError))
      end
  | JStr s => match int10 (chars s) with Some z => Ok z | None => Err (Raised ValueError) end
  | _ => Err (Raised TypeError)
  end.

(** [float(x)], numeric strings apart. *)
Definition py_float (j : json) : dres float :=
  match j with
  | JFloat f => Ok f
  | JInt z => match f_of_Z z with Some f => Ok f | None => Err (Raised OverflowError) end
  | JBool b => Ok (if b then f_one else f_zero)
  | JStr _ => Err IllTyped
  | _ => Err (Raised TypeError)
  end.

(** [contracts._as_bool]. *)
Definition as_bool (j : json) : bool :=
  match j with
  | JBool b => b
  | JStr s =>
      let t := lower (strip (chars s)) in
      bool_decide (t = chars "true") || bool_decide (t = chars "1") || bool_decide (t = chars "yes")
  | JNull => false
  | JInt z => negb (z =? 0)
  | JFloat f => match f with S754_zero _ => false | _ => true end
  | JList l => match l with [] => false | _ => true end
  | JObj d => match d with [] => false | _ => true end
  end.

(** [bool(x)]. *)
Definition truthy (j : json) : bool :=
  match j with
  | JNull => false
  | JBool b => b
  | JInt z => negb (z =? 0)
  | JFloat f => negb (f_eq f f_zero)
  | JStr s => bool_decide (s ≠ "")
  | JList l => bool_decide (length l ≠ 0%nat)
  | JObj d => bool_decide (length d ≠ 0%nat)
  end.

(** [None if x is None else f(x)]. *)
Definition opt {A} (f : json → dres A) (j : json) : dres (option A) :=
  match j with JNull => Ok None | _ => a ← f j; Ok (Some a) end.

(** [None if x is None else ...] on the way out. *)
Definition jopt {A} (f : A → json) (o : option A) : json :=
  match o with Some a => f a | None => JNull end.

Fixpoint map_res {A B} (f : A → dres B) (l : list A) : dres (list B) :=
  match l with
  | [] => Ok []
  | a :: r => b ← f a; bs ← map_res f r; Ok (b :: bs)
  end.

Definition list_of {A} (f : json → dres A) (j : json) : dres (list A) :=
  l ← as_list j; map_res f l.
Definition jlist {A} (f : A → json) (l : list A) : json := JList (f <$> l).

(** ** Codecs *)

Class JsonCodec (A : Type) := {
  valid : A → Prop;
  to_json : A → json;
  of_json : json → dres A;
  to_json_non_null : ∀ a, to_json a ≠ JNull;
  of_to_json : ∀ a, valid a → of_json (to_json a) = Ok a
}.

Lemma map_res_to_json {A B} (f : B → dres A) (g : A → B) l :
  Forall (λ a, f (g a) = Ok a) l → map_res f (g <$> l) = Ok l.
Proof. induction 1 as [|a l Ha _ IH]; cbn; [done|]. by rewrite Ha; cbn; rewrite IH. Qed.

Lemma list_of_jlist {A} (f : json → dres A) (g : A → json) l :
  Forall (λ a, f (g a) = Ok a) l → list_of f (jlist g l) = Ok l.
Proof. apply map_res_to_json. Qed.

Lemma list_of_strings l : list_of as_str (jlist JStr l) = Ok l.
Proof. apply list_of_jlist, Forall_true. done. Qed.

Lemma list_of_ints l : list_of py_int (jlist JInt l) = Ok l.
Proof. apply list_of_jlist, Forall_true. done. Qed.

Lemma opt_jopt {A} (f : json → dres A) (g : A → json) o :
  (∀ a, o = Some a → f (g a) = Ok a ∧ g a ≠ JNull) → opt f (jopt g o) = Ok o.
Proof.
  destruct o as [a|]; [|done]. intros H. destruct (H a eq_refl) as [Hf Hn]. cbn.
  unfold opt. by destruct (g a); try done; rewrite Hf.
Qed.

Lemma opt_string o : opt as_str (jopt JStr o) = Ok o.
Proof. by apply opt_jopt. Qed.
Lemma opt_int o : opt py_int (jopt JInt o) = Ok o.
Proof. by apply opt_jopt. Qed.

Section Codec.
Context {A : Type} `{JsonCodec A}.

Definition valid_opt (o : option A) : Prop := match o with Some a => valid a | None => True end.

Lemma opt_codec (o : option A) : valid_opt o → opt of_json (jopt to_json o) = Ok o.
Proof.
  intros Hv. apply opt_jopt. intros a ->. split; [by apply of_to_json|apply to_json_non_null].
Qed.

Lemma list_codec (l : list A) : Forall valid l → list_of of_json (jlist to_json l) = Ok l.
Proof. intros Hv. apply list_of_jlist. eapply Forall_impl; [exact Hv|]. apply of_to_json. Qed.
End Codec.

Lemma as_bool_JBool b : as_bool (JBool b) = b.
Proof. done. Qed.
Lemma py_int_JInt z : py_int (JInt z) = Ok z.
Proof. done. Qed.
Lemma py_float_JFloat f : py_float (JFloat f) = Ok f.
Proof. done. Qed.

Create HintDb codec discriminated.
#[export] Hint Rewrite as_bool_JBool py_int_JInt py_float_JFloat list_of_strings list_of_ints @opt_string @opt_int : codec.

(** Decode an encoded record: read each field back. *)
Ltac codec_cbn := cbn -[opt jopt list_of jlist of_json to_json py_int py_float as_bool].
Tactic Notation "codec_cbn" "in" hyp(H) :=
  cbn -[opt jopt list_of jlist of_json to_json py_int py_float as_bool] in H.

(** The parts of a value are valid by assumption, or because all values are. *)
Ltac codec_side :=
  first [ assumption | exact I
        | match goal with |- valid_opt ?o => destruct o; exact I end
        | apply Forall_true; intros; exact I ].

Ltac codec :=
  repeat match goal with H : _ ∧ _ |- _ => destruct H end;
  repeat match goal with H : _ |- _ => progress (codec_cbn in H) end;
  repeat first
    [ progress codec_cbn
    | rewrite of_to_json by codec_side
    | rewrite opt_codec by codec_side
    | rewrite list_codec by codec_side
    | progress autorewrite with codec ]; try done.

(** Enumerations are encoded by their value. *)
Definition enum_of {A} (values : list (string * A)) (j : json) : dres A :=
  match j with
  | JStr s => match field values s with Some a => Ok a | None => Err (Raised ValueError) end
  | _ => Err (Raised ValueError)
  end.
