(* ===== verification/Contracts.v ===== *)
(** Wire contracts of the diagnosis service, first part: the enumerations and
    leaf dataclasses of src/python/cutracer/service/contracts.py, with their
    [to_dict] and [from_dict].

    A dataclass is a record; [X_check] is its [__post_init__]; [X_to_dict] and
    [X_from_dict] build and read a payload field by field as the methods do.
    Every codec is an instance of [JsonCodec], so that containers and stores are
    proved against the interface. *)
From S2P Require Import Prelude.
From S2P Require Import PyStr.
From S2P Require Import PyDict.
From S2P Require Import Json.
From S2P Require Import Dates.
From Stdlib Require Import Ascii.
From Stdlib Require Import Floats.SpecFloat.
Local Open Scope Z_scope.

(** ** Enumerations *)

Inductive SessionStatus :=
| WaitingChildren | WaitingInitial | WaitingTriage | WaitingReasoner | WaitingFollowup
| SessionCompleted | SessionInconclusive | SessionFailed.

Inductive ReportPublicationStatus := ReportNotReady | ReportPending | ReportPublished | ReportFailed.

Inductive RaceClass :=
| RaceNone | RaceUnknown | RAW | WAR | WAW | Atomicity | Synchronization | Lifetime | Unclassified.

Inductive EvidenceSufficiency := Sufficient | Insufficient | Degraded.

Inductive Confidence := ConfidenceH | ConfidenceM | ConfidenceL.

Inductive ConfirmStatus := Confirmed | Unconfirmed | ConfirmSkipped.

Inductive ExecutionStatus := Succeeded | ExecFailed | ExecTimedOut | ExecInfraError.

Inductive SanitizerOutcome := SaniClean | SaniFinding | SaniUnknown.

Inductive ResultCompleteness := Complete | CompleteEarly | Partial | ResSkipped | ResUnknown.

Inductive ExperimentKind :=
| KERNEL_DISCOVERY | COMPUTE_SANITIZER | RANDOM_DELAY_STRESS | REG_TRACE | MEM_VALUE_TRACE
| REDUCE_DELAY_CONFIG.

Inductive ExperimentPhase := Initial | Followup.

Inductive ReduceOutcome :=
| Reduced | NonReproducible | ReduceInfraError | ReduceStaleInput | ReplayFailed | ReduceFailed.

Inductive TriageOutcome := Analyze | Finish | TriageInconclusive.

Inductive BaselineVerdict := NotEvaluated | NewFindings | Unchanged | Resolved | NoBaseline.

#[export] Instance SessionStatus_eq_dec : EqDecision SessionStatus.
Proof. solve_decision. Defined.
#[export] Instance ReportPublicationStatus_eq_dec : EqDecision ReportPublicationStatus.
Proof. solve_decision. Defined.
#[export] Instance RaceClass_eq_dec : EqDecision RaceClass.
Proof. solve_decision. Defined.
#[export] Instance EvidenceSufficiency_eq_dec : EqDecision EvidenceSufficiency.
Proof. solve_decision. Defined.
#[export] Instance ExecutionStatus_eq_dec : EqDecision ExecutionStatus.
Proof. solve_decision. Defined.
#[export] Instance SanitizerOutcome_eq_dec : EqDecision SanitizerOutcome.
Proof. solve_decision. Defined.
#[export] Instance ResultCompleteness_eq_dec : EqDecision ResultCompleteness.
Proof. solve_decision. Defined.
#[export] Instance ExperimentKind_eq_dec : EqDecision ExperimentKind.
Proof. solve_decision. Defined.
#[export] Instance ExperimentPhase_eq_dec : EqDecision ExperimentPhase.
Proof. solve_decision. Defined.
#[export] Instance TriageOutcome_eq_dec : EqDecision TriageOutcome.
Proof. solve_decision. Defined.
#[export] Instance BaselineVerdict_eq_dec : EqDecision BaselineVerdict.
Proof. solve_decision. Defined.

(** An enumeration is encoded by its members' values. *)
Definition SessionStatus_values : list (string * SessionStatus) :=
  [("waiting_children", WaitingChildren); ("waiting_initial", WaitingInitial);
   ("waiting_triage", WaitingTriage); ("waiting_reasoner", WaitingReasoner);
   ("waiting_followup", WaitingFollowup); ("completed", SessionCompleted);
   ("inconclusive", SessionInconclusive); ("failed", SessionFailed)].
Definition ReportPublicationStatus_values : list (string * ReportPublicationStatus) :=
  [("not_ready", ReportNotReady); ("pending", ReportPending);
   ("published", ReportPublished); ("failed", ReportFailed)].
Definition RaceClass_values : list (string * RaceClass) :=
  [("none", RaceNone); ("unknown", RaceUnknown); ("raw", RAW); ("war", WAR); ("waw", WAW);
   ("atomicity", Atomicity); ("synchronization", Synchronization); ("lifetime", Lifetime);
   ("unclassified", Unclassified)].
Definition EvidenceSufficiency_values : list (string * EvidenceSufficiency) :=
  [("sufficient", Sufficient); ("insufficient", Insufficient); ("degraded", Degraded)].
Definition Confidence_values : list (string * Confidence) :=
  [("H", ConfidenceH); ("M", ConfidenceM); ("L", ConfidenceL)].
Definition ConfirmStatus_values : list (string * ConfirmStatus) :=
  [("confirmed", Confirmed); ("unconfirmed", Unconfirmed); ("skipped", ConfirmSkipped)].
Definition ExecutionStatus_values : list (string * ExecutionStatus) :=
  [("succeeded", Succeeded); ("failed", ExecFailed); ("timed_out", ExecTimedOut);
   ("infra_error", ExecInfraError)].
Definition SanitizerOutcome_values : list (string * SanitizerOutcome) :=
  [("clean", SaniClean); ("finding", SaniFinding); ("unknown", SaniUnknown)].
Definition ResultCompleteness_values : list (string * ResultCompleteness) :=
  [("complete", Complete); ("complete_early", CompleteEarly); ("partial", Partial);
   ("skipped", ResSkipped); ("unknown", ResUnknown)].
Definition ExperimentKind_values : list (string * ExperimentKind) :=
  [("kernel_discovery", KERNEL_DISCOVERY); ("compute_sanitizer", COMPUTE_SANITIZER);
   ("random_delay_stress", RANDOM_DELAY_STRESS); ("reg_trace", REG_TRACE);
   ("mem_value_trace", MEM_VALUE_TRACE); ("reduce_delay_config", REDUCE_DELAY_CONFIG)].
Definition ExperimentPhase_values : list (string * ExperimentPhase) :=
  [("initial", Initial); ("followup", Followup)].
Definition ReduceOutcome_values : list (string * ReduceOutcome) :=
  [("reduced", Reduced); ("non_reproducible", NonReproducible); ("infra_error", ReduceInfraError);
   ("stale_input", ReduceStaleInput); ("replay_failed", ReplayFailed); ("failed", ReduceFailed)].
Definition TriageOutcome_values : list (string * TriageOutcome) :=
  [("analyze", Analyze); ("finish", Finish); ("inconclusive", TriageInconclusive)].
Definition BaselineVerdict_values : list (string * BaselineVerdict) :=
  [("not_evaluated", NotEvaluated); ("new", NewFindings); ("unchanged", Unchanged);
   ("resolved", Resolved); ("no_baseline", NoBaseline)].

(** [member.value]. *)
Definition value_of {A} `{EqDecision A} (values : list (string * A)) (a : A) : json :=
  match list_find (λ e, e.2 = a) values with Some (_, (s, _)) => JStr s | None => JNull end.

(** [RaceClass.from_wire]: legacy spellings first. *)
Definition RaceClass_from_wire (j : json) : dres RaceClass :=
  match j with
  | JStr "RAW" => Ok RAW
  | JStr "WAR" => Ok WAR
  | JStr "WAW" => Ok WAW
  | JStr "intra-wg TMEM WAR" => Ok WAR
  | _ => enum_of RaceClass_values j
  end.

(** [ReduceOutcome.from_wire]: the retired values read as their successors. *)
Definition ReduceOutcome_from_wire (j : json) : dres ReduceOutcome :=
  match j with
  | JStr s =>
      if String.eqb s "replay_failed" then Ok NonReproducible
      else if String.eqb s "failed" then Ok ReduceInfraError
      else enum_of ReduceOutcome_values j
  | _ => enum_of ReduceOutcome_values j
  end.

(** Distinct members have distinct values, so decoding inverts encoding. *)
Lemma enum_roundtrip {A} `{EqDecision A} (values : list (string * A)) (a : A) :
  dict_wf values → a ∈ values.*2 →
  enum_of values (value_of values a) = Ok a ∧ value_of values a ≠ JNull.
Proof.
  intros Hwf Hin. unfold value_of. destruct (list_find (λ e, e.2 = a) values) as [[i [s b]]|] eqn:E.
  - apply list_find_Some in E as (Hi & Hb & _). cbn in Hb. subst b. cbn.
    rewrite field_dict_get, (dict_wf_get values s a Hwf) by (by eapply list_elem_of_lookup_2). done.
  - apply list_find_None in E. rewrite Forall_forall in E.
    apply list_elem_of_fmap in Hin as (e & -> & He). by destruct (E e He).
Qed.

Ltac enum_ok :=
  apply enum_roundtrip;
  [ apply (bool_decide_unpack _); vm_compute; exact I
  | match goal with a : _ |- _ => destruct a end; apply (bool_decide_unpack _); vm_compute; exact I ].

Definition enum_codec {A} `{EqDecision A} (values : list (string * A)) (from_wire : json → dres A)
    (ok : ∀ a, from_wire (value_of values a) = Ok a ∧ value_of values a ≠ JNull) : JsonCodec A :=
  {| valid _ := True; to_json := value_of values; of_json := from_wire;
     to_json_non_null a := proj2 (ok a); of_to_json a _ := proj1 (ok a) |}.

#[export] Instance SessionStatus_codec : JsonCodec SessionStatus :=
  enum_codec SessionStatus_values (enum_of SessionStatus_values) ltac:(intros a; enum_ok).
#[export] Instance ReportPublicationStatus_codec : JsonCodec ReportPublicationStatus :=
  enum_codec ReportPublicationStatus_values (enum_of ReportPublicationStatus_values)
    ltac:(intros a; enum_ok).
#[export] Instance RaceClass_codec : JsonCodec RaceClass :=
  enum_codec RaceClass_values RaceClass_from_wire ltac:(by intros []).
#[export] Instance EvidenceSufficiency_codec : JsonCodec EvidenceSufficiency :=
  enum_codec EvidenceSufficiency_values (enum_of EvidenceSufficiency_values)
    ltac:(intros a; enum_ok).
#[export] Instance ExecutionStatus_codec : JsonCodec ExecutionStatus :=
  enum_codec ExecutionStatus_values (enum_of ExecutionStatus_values) ltac:(intros a; enum_ok).
#[export] Instance SanitizerOutcome_codec : JsonCodec SanitizerOutcome :=
  enum_codec SanitizerOutcome_values (enum_of SanitizerOutcome_values) ltac:(intros a; enum_ok).
#[export] Instance ResultCompleteness_codec : JsonCodec ResultCompleteness :=
  enum_codec ResultCompleteness_values (enum_of ResultCompleteness_values)
    ltac:(intros a; enum_ok).
#[export] Instance ExperimentKind_codec : JsonCodec ExperimentKind :=
  enum_codec ExperimentKind_values (enum_of ExperimentKind_values) ltac:(intros a; enum_ok).
#[export] Instance ExperimentPhase_codec : JsonCodec ExperimentPhase :=
  enum_codec ExperimentPhase_values (enum_of ExperimentPhase_values) ltac:(intros a; enum_ok).
#[export] Instance TriageOutcome_codec : JsonCodec TriageOutcome :=
  enum_codec TriageOutcome_values (enum_of TriageOutcome_values) ltac:(intros a; enum_ok).
#[export] Instance BaselineVerdict_codec : JsonCodec BaselineVerdict :=
  enum_codec BaselineVerdict_values (enum_of BaselineVerdict_values) ltac:(intros a; enum_ok).

(** ** Identities and references *)

Record KernelId := mkKernelId {
  ki_name : string;
  cubin_hash : string;
  mangled_name : option string
}.

(** [mangled_name] is [compare=False]. *)
Definition KernelId_eqb (a b : KernelId) : bool :=
  bool_decide (ki_name a = ki_name b) && bool_decide (cubin_hash a = cubin_hash b).

Definition KernelId_to_dict (k : KernelId) : json :=
  JObj ([("name", JStr (ki_name k)); ("cubin_hash", JStr (cubin_hash k))] ++
        match mangled_name k with Some m => [("mangled_name", JStr m)] | None => [] end).

Definition KernelId_from_dict (j : json) : dres KernelId :=
  d0 ← as_obj j;
  let d := known ["name"; "cubin_hash"; "mangled_name"] d0 in
  name ← (n ← req d "name"; as_str n);
  hash ← (h ← req d "cubin_hash"; as_str h);
  mangled ← opt as_str (get d "mangled_name");
  Ok (mkKernelId name hash mangled).

Record SourceLoc := mkSourceLoc {
  sl_file : string;
  sl_line : Z
}.

Definition SourceLoc_to_dict (s : SourceLoc) : json :=
  JObj [("file", JStr (sl_file s)); ("line", JInt (sl_line s))].

Definition SourceLoc_from_dict (j : json) : dres SourceLoc :=
  d0 ← as_obj j;
  let d := known ["file"; "line"] d0 in
  file ← (f ← req d "file"; as_str f);
  line ← (l ← req d "line"; py_int l);
  Ok (mkSourceLoc file line).

Record ArtifactRef := mkArtifactRef {
  uri : string;
  relative_path : string;
  sha256 : option string;
  size_bytes : option Z;
  media_type : string
}.

Definition ArtifactRef_to_dict (a : ArtifactRef) : json :=
  JObj [("uri", JStr (uri a)); ("relative_path", JStr (relative_path a));
        ("sha256", jopt JStr (sha256 a)); ("size_bytes", jopt JInt (size_bytes a));
        ("media_type", JStr (media_type a))].

Definition ArtifactRef_from_dict (j : json) : dres ArtifactRef :=
  d0 ← as_obj j;
  let d := known ["uri"; "relative_path"; "sha256"; "size_bytes"; "media_type"] d0 in
  size ← opt py_int (get d "size_bytes");
  u ← (x ← req d "uri"; as_str x);
  path ← as_str (get_or d "relative_path" (JStr ""));
  digest ← opt as_str (get d "sha256");
  media ← as_str (get_or d "media_type" (JStr "text/plain"));
  Ok (mkArtifactRef u path digest size media).

Definition is_visible_artifact_basename (a : ArtifactRef) : bool :=
  let path := chars (relative_path a) in
  negb (bool_decide (path = [])) && negb (starts_with ["."%char] path) &&
  negb (bool_decide ("/"%char ∈ path)) && negb (bool_decide ("\"%char ∈ path)).

#[export] Instance KernelId_eq_dec : EqDecision KernelId.
Proof. solve_decision. Defined.
#[export] Instance SourceLoc_eq_dec : EqDecision SourceLoc.
Proof. solve_decision. Defined.
#[export] Instance ArtifactRef_eq_dec : EqDecision ArtifactRef.
Proof. solve_decision. Defined.

(** [_deduplicate_artifact_refs]: exact references once, in order. *)
Definition deduplicate_artifact_refs (refs : list ArtifactRef) : list ArtifactRef :=
  fold_left (λ unique ref, if decide (ref ∈ unique) then unique else unique ++ [ref]) refs [].

#[export] Instance KernelId_codec : JsonCodec KernelId.
Proof.
  refine {| valid _ := True; to_json := KernelId_to_dict; of_json := KernelId_from_dict |}.
  - done.
  - intros [n h [m|]] _; codec.
Defined.
#[export] Instance SourceLoc_codec : JsonCodec SourceLoc.
Proof.
  refine {| valid _ := True; to_json := SourceLoc_to_dict; of_json := SourceLoc_from_dict |}.
  - done.
  - intros [f l] _; codec.
Defined.
#[export] Instance ArtifactRef_codec : JsonCodec ArtifactRef.
Proof.
  refine {| valid _ := True; to_json := ArtifactRef_to_dict; of_json := ArtifactRef_from_dict |}.
  - done.
  - intros [u p s z m] _; codec.
Defined.

(** ** Oracles and work units *)

Record OracleSpec := mkOracle {
  oracle_id : string;
  oracle_argv : list string;
  not_interesting_exit_codes : list Z
}.

Definition blank (s : string) : bool := bool_decide (strip (chars s) = []).

(** [OracleSpec.__post_init__]. *)
Definition OracleSpec_check (o : OracleSpec) : res exn () :=
  if blank (oracle_id o) then Err ValueError
  else if match oracle_argv o with [] => true | a :: _ => blank a end then Err ValueError
  else if bool_decide (not_interesting_exit_codes o = []) then Err ValueError
  else if existsb (λ c, (c <=? 0) || (255 <? c)) (not_interesting_exit_codes o) then Err ValueError
  else if bool_decide (¬ NoDup (not_interesting_exit_codes o)) then Err ValueError
  else Ok ().

(** A dataclass built by a decoder runs its [__post_init__]. *)
Definition checked {A} (check : A → res exn ()) (a : A) : dres A :=
  match check a with Ok _ => Ok a | Err e => Err (Raised e) end.

Lemma checked_ok {A} (check : A → res exn ()) a : check a = Ok () → checked check a = Ok a.
Proof. intros H. unfold checked. by rewrite H. Qed.

Definition OracleSpec_to_dict (o : OracleSpec) : json :=
  JObj [("oracle_id", JStr (oracle_id o)); ("argv", jlist JStr (oracle_argv o));
        ("not_interesting_exit_codes", jlist JInt (not_interesting_exit_codes o))].

Definition OracleSpec_from_dict (j : json) : dres OracleSpec :=
  d ← as_obj j;
  id ← (x ← req d "oracle_id"; as_str x);
  argv ← (x ← req d "argv"; list_of as_str x);
  codes ← list_of py_int (get_or d "not_interesting_exit_codes" (JList [JInt 1]));
  checked OracleSpec_check (mkOracle id argv codes).

#[export] Instance OracleSpec_eq_dec : EqDecision OracleSpec.
Proof. solve_decision. Defined.

#[export] Instance OracleSpec_codec : JsonCodec OracleSpec.
Proof.
  refine {| valid o := OracleSpec_check o = Ok (); to_json := OracleSpec_to_dict;
            of_json := OracleSpec_from_dict |}.
  - done.
  - intros [i a c] Hv; codec. by apply checked_ok.
Defined.

Record WorkUnit := mkUnit {
  unit_id : string;
  argv : list string;
  workload : string;
  test_id : string;
  cwd : string;
  arch : string;
  source_revision : string;
  kernel : option KernelId;
  oracle : option OracleSpec;
  env : list (string * string);
  kernel_filters : list string
}.

Definition WorkUnit_check (u : WorkUnit) : res exn () :=
  if bool_decide (¬ NoDup (kernel_filters u)) ||
     existsb (λ v, blank v || bool_decide (","%char ∈ chars v)) (kernel_filters u)
  then Err ValueError else Ok ().

Definition WorkUnit_to_dict (u : WorkUnit) : json :=
  JObj [("unit_id", JStr (unit_id u)); ("argv", jlist JStr (argv u));
        ("workload", JStr (workload u)); ("test_id", JStr (test_id u)); ("cwd", JStr (cwd u));
        ("arch", JStr (arch u)); ("source_revision", JStr (source_revision u));
        ("kernel", jopt to_json (kernel u));
        ("oracle", jopt to_json (oracle u));
        ("env", JObj ((λ e, (e.1, JStr e.2)) <$> env u));
        ("kernel_filters", jlist JStr (kernel_filters u))].

Definition env_of (j : json) : dres (list (string * string)) :=
  d ← as_obj j; map_res (λ e : string * json, s ← as_str e.2; Ok (e.1, s)) d.

(** [isinstance(x, list)], or [ValueError]. *)
Definition raw_list (j : json) : dres (list json) :=
  match j with JList l => Ok l | _ => Err (Raised ValueError) end.

Definition WorkUnit_from_dict (j : json) : dres WorkUnit :=
  d ← as_obj j;
  filters ← raw_list (get_or d "kernel_filters" (JList []));
  id ← (x ← req d "unit_id"; as_str x);
  av ← (x ← req d "argv"; list_of as_str x);
  wl ← as_str (get_or d "workload" (JStr "triton_pytest"));
  tid ← as_str (get_or d "test_id" (JStr ""));
  cw ← as_str (get_or d "cwd" (JStr ""));
  ar ← as_str (get_or d "arch" (JStr ""));
  rev ← as_str (get_or d "source_revision" (JStr ""));
  k ← opt of_json (get d "kernel");
  o ← opt of_json (get d "oracle");
  e ← env_of (get_or d "env" (JObj []));
  (* [__post_init__]: a filter that is not a string *)
  fs ← map_res (λ f, match f with JStr s => Ok s | _ => Err (Raised ValueError) end) filters;
  checked WorkUnit_check (mkUnit id av wl tid cw ar rev k o e fs).

#[export] Instance WorkUnit_eq_dec : EqDecision WorkUnit.
Proof. solve_decision. Defined.

Lemma env_roundtrip (l : list (string * string)) :
  env_of (JObj ((λ e, (e.1, JStr e.2)) <$> l)) = Ok l.
Proof. unfold env_of. cbn. apply map_res_to_json, Forall_true. by intros []. Qed.

Lemma filters_roundtrip (l : list string) :
  map_res (λ f, match f with JStr s => Ok s | _ => Err (Raised ValueError) end) (JStr <$> l) = Ok l.
Proof. by apply map_res_to_json, Forall_true. Qed.

Lemma raw_list_jlist {A} (f : A → json) l : raw_list (jlist f l) = Ok (f <$> l).
Proof. done. Qed.

#[export] Hint Rewrite @raw_list_jlist env_roundtrip filters_roundtrip : codec.

#[export] Hint Rewrite @checked_ok using assumption : codec.
#[global] Arguments env_of : simpl never.
#[global] Arguments raw_list : simpl never.
#[global] Arguments checked : simpl never.

#[export] Instance WorkUnit_codec : JsonCodec WorkUnit.
Proof.
  refine {| valid u := WorkUnit_check u = Ok () ∧ valid_opt (oracle u);
            to_json := WorkUnit_to_dict; of_json := WorkUnit_from_dict |}.
  - done.
  - intros [i a w t c ar r k o e f] Hv; codec.
Defined.

(** ** Provenance and findings *)

Record ExecutionProvenance := mkProvenance {
  pv_source_revision : string;
  pv_arch : string;
  pv_kernel : option KernelId;
  tool_version : string;
  toolchain_version : string
}.

Definition ExecutionProvenance_to_dict (p : ExecutionProvenance) : json :=
  JObj [("source_revision", JStr (pv_source_revision p)); ("arch", JStr (pv_arch p));
        ("kernel", jopt to_json (pv_kernel p)); ("tool_version", JStr (tool_version p));
        ("toolchain_version", JStr (toolchain_version p))].

Definition ExecutionProvenance_from_dict (j : json) : dres ExecutionProvenance :=
  d ← as_obj j;
  rev ← as_str (get_or d "source_revision" (JStr ""));
  ar ← as_str (get_or d "arch" (JStr ""));
  k ← opt of_json (get d "kernel");
  tv ← as_str (get_or d "tool_version" (JStr ""));
  tc ← as_str (get_or d "toolchain_version" (JStr ""));
  Ok (mkProvenance rev ar k tv tc).

#[export] Instance ExecutionProvenance_codec : JsonCodec ExecutionProvenance.
Proof.
  refine {| valid _ := True; to_json := ExecutionProvenance_to_dict;
            of_json := ExecutionProvenance_from_dict |}.
  - done.
  - intros [r a k t c] _; codec.
Defined.

Record FindingRecord := mkFinding {
  source_tool : string;
  error_type : string;
  kernel_name : option string;
  source : option SourceLoc;
  count : Z;
  raw : string;
  error_detail : string
}.

#[export] Instance FindingRecord_eq_dec : EqDecision FindingRecord.
Proof. solve_decision. Defined.

Definition FindingRecord_to_dict (f : FindingRecord) : json :=
  JObj [("source_tool", JStr (source_tool f)); ("error_type", JStr (error_type f));
        ("kernel_name", jopt JStr (kernel_name f)); ("source", jopt to_json (source f));
        ("count", JInt (count f)); ("raw", JStr (raw f)); ("error_detail", JStr (error_detail f))].

Definition FindingRecord_from_dict (j : json) : dres FindingRecord :=
  d ← as_obj j;
  tool ← (x ← req d "source_tool"; as_str x);
  err ← (x ← req d "error_type"; as_str x);
  kn ← opt as_str (get d "kernel_name");
  src ← opt of_json (get d "source");
  n ← py_int (get_or d "count" (JInt 1));
  rw ← as_str (get_or d "raw" (JStr ""));
  detail ← as_str (get_or d "error_detail" (JStr ""));
  Ok (mkFinding tool err kn src n rw detail).

#[export] Instance FindingRecord_codec : JsonCodec FindingRecord.
Proof.
  refine {| valid _ := True; to_json := FindingRecord_to_dict; of_json := FindingRecord_from_dict |}.
  - done.
  - intros [t e k s n r d] _; codec.
Defined.

(** ** Suppression rules and their audit *)

Record SuppressionRule := mkRule {
  rule_id : string;
  version : Z;
  reason : string;
  owner : string;
  kernel_pattern : option string;
  tools : list string;
  error_types : list string;
  expires_on : option string;
  tracking_ticket : string;
  reviewed_by : string;
  reviewed_on : option string;
  review_due_on : option string;
  permanent : bool
}.

(** A date field is absent or names a day. *)
Definition bad_date (s : option string) : bool :=
  match s with None => false | Some t => bool_decide (parse_ymd_date t = None) end.

Definition SuppressionRule_check (r : SuppressionRule) : res exn () :=
  if bad_date (expires_on r) then Err ValueError
  else if bad_date (reviewed_on r) || bad_date (review_due_on r) then Err ValueError
  else if permanent r && bool_decide (expires_on r ≠ None) then Err ValueError
  else Ok ().

Definition SuppressionRule_to_dict (r : SuppressionRule) : json :=
  JObj [("rule_id", JStr (rule_id r)); ("version", JInt (version r)); ("reason", JStr (reason r));
        ("owner", JStr (owner r)); ("kernel_pattern", jopt JStr (kernel_pattern r));
        ("tools", jlist JStr (tools r)); ("error_types", jlist JStr (error_types r));
        ("expires_on", jopt JStr (expires_on r)); ("tracking_ticket", JStr (tracking_ticket r));
        ("reviewed_by", JStr (reviewed_by r)); ("reviewed_on", jopt JStr (reviewed_on r));
        ("review_due_on", jopt JStr (review_due_on r)); ("permanent", JBool (permanent r))].

Definition SuppressionRule_from_dict (j : json) : dres SuppressionRule :=
  d ← as_obj j;
  id ← (x ← req d "rule_id"; as_str x);
  v ← (x ← req d "version"; py_int x);
  why ← (x ← req d "reason"; as_str x);
  own ← (x ← req d "owner"; as_str x);
  pat ← opt as_str (get d "kernel_pattern");
  ts ← list_of as_str (get_or d "tools" (JList []));
  es ← list_of as_str (get_or d "error_types" (JList []));
  ex ← opt as_str (get d "expires_on");
  tick ← as_str (get_or d "tracking_ticket" (JStr ""));
  by_ ← as_str (get_or d "reviewed_by" (JStr ""));
  on ← opt as_str (get d "reviewed_on");
  due ← opt as_str (get d "review_due_on");
  checked SuppressionRule_check
    (mkRule id v why own pat ts es ex tick by_ on due (as_bool (get_or d "permanent" (JBool false)))).

#[export] Instance SuppressionRule_codec : JsonCodec SuppressionRule.
Proof.
  refine {| valid r := SuppressionRule_check r = Ok (); to_json := SuppressionRule_to_dict;
            of_json := SuppressionRule_from_dict |}.
  - done.
  - intros [i v r o k t e x tt b n u p] Hv; codec.
Defined.

Record SuppressionDecision := mkSuppressionDecision {
  sd_rule_id : string;
  sd_rule_version : Z;
  sd_reason : string;
  sd_owner : string;
  sd_expires_on : option string;
  sd_tracking_ticket : string;
  sd_reviewed_by : string;
  sd_reviewed_on : option string;
  sd_review_due_on : option string;
  sd_permanent : bool
}.

Definition SuppressionDecision_to_dict (s : SuppressionDecision) : json :=
  JObj [("rule_id", JStr (sd_rule_id s)); ("rule_version", JInt (sd_rule_version s));
        ("reason", JStr (sd_reason s)); ("owner", JStr (sd_owner s));
        ("expires_on", jopt JStr (sd_expires_on s)); ("tracking_ticket", JStr (sd_tracking_ticket s));
        ("reviewed_by", JStr (sd_reviewed_by s)); ("reviewed_on", jopt JStr (sd_reviewed_on s));
        ("review_due_on", jopt JStr (sd_review_due_on s)); ("permanent", JBool (sd_permanent s))].

Definition SuppressionDecision_from_dict (j : json) : dres SuppressionDecision :=
  d ← as_obj j;
  id ← (x ← req d "rule_id"; as_str x);
  v ← (x ← req d "rule_version"; py_int x);
  why ← (x ← req d "reason"; as_str x);
  own ← as_str (get_or d "owner" (JStr ""));
  ex ← opt as_str (get d "expires_on");
  tick ← as_str (get_or d "tracking_ticket" (JStr ""));
  by_ ← as_str (get_or d "reviewed_by" (JStr ""));
  on ← opt as_str (get d "reviewed_on");
  due ← opt as_str (get d "review_due_on");
  Ok (mkSuppressionDecision id v why own ex tick by_ on due (as_bool (get_or d "permanent" (JBool false)))).

#[export] Instance SuppressionDecision_codec : JsonCodec SuppressionDecision.
Proof.
  refine {| valid _ := True; to_json := SuppressionDecision_to_dict;
            of_json := SuppressionDecision_from_dict |}.
  - done.
  - intros [i v r o x tt b n u p] _; codec.
Defined.

Record SuppressionAuditEntry := mkAuditEntry {
  finding_key : string;
  ae_source_tool : string;
  ae_error_type : string;
  ae_kernel_name : option string;
  ae_source : option SourceLoc;
  ae_decision : SuppressionDecision
}.

Definition SuppressionAuditEntry_to_dict (a : SuppressionAuditEntry) : json :=
  JObj [("finding_key", JStr (finding_key a)); ("source_tool", JStr (ae_source_tool a));
        ("error_type", JStr (ae_error_type a)); ("kernel_name", jopt JStr (ae_kernel_name a));
        ("source", jopt to_json (ae_source a)); ("decision", to_json (ae_decision a))].

Definition SuppressionAuditEntry_from_dict (j : json) : dres SuppressionAuditEntry :=
  d ← as_obj j;
  key ← (x ← req d "finding_key"; as_str x);
  tool ← (x ← req d "source_tool"; as_str x);
  err ← (x ← req d "error_type"; as_str x);
  kn ← opt as_str (get d "kernel_name");
  src ← opt of_json (get d "source");
  dec ← (x ← req d "decision"; of_json x);
  Ok (mkAuditEntry key tool err kn src dec).

#[export] Instance SuppressionAuditEntry_codec : JsonCodec SuppressionAuditEntry.
Proof.
  refine {| valid _ := True; to_json := SuppressionAuditEntry_to_dict;
            of_json := SuppressionAuditEntry_from_dict |}.
  - done.
  - intros [k t e n s d] _; codec.
Defined.

(** ** Triage snapshots *)

Record ScopeId := mkScope {
  test_family : string;
  sc_tool : string
}.

#[export] Instance ScopeId_eq_dec : EqDecision ScopeId.
Proof. solve_decision. Defined.

Definition scope_key (s : ScopeId) : string := test_family s +:+ "::" +:+ sc_tool s.

Definition ScopeId_to_dict (s : ScopeId) : json :=
  JObj [("test_family", JStr (test_family s)); ("tool", JStr (sc_tool s))].

(** The checks of [ScopeId.from_dict] raise [ValueError] on a wrong type. *)
Definition must_str (j : json) : dres string :=
  match j with JStr s => Ok s | _ => Err (Raised ValueError) end.

Definition ScopeId_from_dict (j : json) : dres ScopeId :=
  match j with
  | JObj d =>
      family ← must_str (get d "test_family");
      tool ← must_str (get d "tool");
      Ok (mkScope family tool)
  | _ => Err (Raised ValueError)
  end.

#[export] Instance ScopeId_codec : JsonCodec ScopeId.
Proof.
  refine {| valid _ := True; to_json := ScopeId_to_dict; of_json := ScopeId_from_dict |}.
  - done.
  - intros [f t] _; codec.
Defined.

Record ScopeTriageSnapshot := mkScopeSnapshot {
  ss_scope : ScopeId;
  completeness : ResultCompleteness;
  baseline_verdict : BaselineVerdict;
  ss_observed_keys : list string;
  ss_new_keys : list string;
  ss_resolved_keys : list string;
  ss_unchanged_keys : list string;
  baseline_recorded : bool
}.

Definition ScopeTriageSnapshot_to_dict (s : ScopeTriageSnapshot) : json :=
  JObj [("scope", to_json (ss_scope s)); ("completeness", to_json (completeness s));
        ("baseline_verdict", to_json (baseline_verdict s));
        ("observed_keys", jlist JStr (ss_observed_keys s)); ("new_keys", jlist JStr (ss_new_keys s));
        ("resolved_keys", jlist JStr (ss_resolved_keys s));
        ("unchanged_keys", jlist JStr (ss_unchanged_keys s));
        ("baseline_recorded", JBool (baseline_recorded s))].

Definition ScopeTriageSnapshot_from_dict (j : json) : dres ScopeTriageSnapshot :=
  d ← as_obj j;
  sc ← (x ← req d "scope"; of_json x);
  co ← (x ← req d "completeness"; of_json x);
  bv ← of_json (get_or d "baseline_verdict" (JStr "not_evaluated"));
  ob ← list_of as_str (get_or d "observed_keys" (JList []));
  nw ← list_of as_str (get_or d "new_keys" (JList []));
  rs ← list_of as_str (get_or d "resolved_keys" (JList []));
  un ← list_of as_str (get_or d "unchanged_keys" (JList []));
  Ok (mkScopeSnapshot sc co bv ob nw rs un (as_bool (get_or d "baseline_recorded" (JBool false)))).

#[export] Instance ScopeTriageSnapshot_codec : JsonCodec ScopeTriageSnapshot.
Proof.
  refine {| valid _ := True; to_json := ScopeTriageSnapshot_to_dict;
            of_json := ScopeTriageSnapshot_from_dict |}.
  - done.
  - intros [s c b o n r u d] _; codec.
Defined.

Record TriageSnapshot := mkTriageSnapshot {
  scopes : list ScopeTriageSnapshot;
  stress_completeness : ResultCompleteness;
  suppression_audit : list SuppressionAuditEntry
}.

Definition TriageSnapshot_check (t : TriageSnapshot) : res exn () :=
  if bool_decide (NoDup ((λ s, scope_key (ss_scope s)) <$> scopes t)) then Ok () else Err ValueError.

Definition initial_evidence_complete (t : TriageSnapshot) : bool :=
  let scope_complete :=
    negb (bool_decide (length (scopes t) = 0%nat)) &&
    forallb (λ s, bool_decide (completeness s = Complete)) (scopes t) in
  let stress_complete :=
    bool_decide (stress_completeness t = Complete) ||
    bool_decide (stress_completeness t = CompleteEarly) in
  scope_complete && stress_complete.

Definition TriageSnapshot_to_dict (t : TriageSnapshot) : json :=
  JObj [("scopes", jlist to_json (scopes t)); ("stress_completeness", to_json (stress_completeness t));
        ("suppression_audit", jlist to_json (suppression_audit t))].

Definition TriageSnapshot_from_dict (j : json) : dres TriageSnapshot :=
  d ← as_obj j;
  sc ← list_of of_json (get_or d "scopes" (JList []));
  st ← of_json (get_or d "stress_completeness" (JStr "unknown"));
  au ← list_of of_json (get_or d "suppression_audit" (JList []));
  checked TriageSnapshot_check (mkTriageSnapshot sc st au).

#[export] Instance TriageSnapshot_codec : JsonCodec TriageSnapshot.
Proof.
  refine {| valid t := TriageSnapshot_check t = Ok (); to_json := TriageSnapshot_to_dict;
            of_json := TriageSnapshot_from_dict |}.
  - done.
  - intros [s c a] Hv; codec.
Defined.

Record TriageDecision := mkTriageDecision {
  td_outcome : TriageOutcome;
  td_reason : string;
  td_snapshot : option TriageSnapshot
}.

Definition TriageDecision_to_dict (t : TriageDecision) : json :=
  JObj [("outcome", to_json (td_outcome t)); ("reason", JStr (td_reason t));
        ("snapshot", jopt to_json (td_snapshot t))].

Definition TriageDecision_from_dict (j : json) : dres TriageDecision :=
  d ← as_obj j;
  out ← (x ← req d "outcome"; of_json x);
  why ← (x ← req d "reason"; as_str x);
  snap ← opt of_json (get d "snapshot");
  Ok (mkTriageDecision out why snap).

#[export] Instance TriageDecision_codec : JsonCodec TriageDecision.
Proof.
  refine {| valid t := valid_opt (td_snapshot t); to_json := TriageDecision_to_dict;
            of_json := TriageDecision_from_dict |}.
  - done.
  - intros [o r s] Hv; codec.
Defined.

(** ** Sanitizer summaries *)

Record SanitizerSummary := mkSanitizerSummary {
  total_hazards : Z;
  errors : Z;
  warnings : Z;
  sum_raw : string;
  not_printed : option Z
}.

Definition summary_is_positive (s : SanitizerSummary) : bool :=
  (0 <? total_hazards s) || (0 <? errors s) || (0 <? warnings s).

Definition summary_is_zero (s : SanitizerSummary) : bool :=
  (total_hazards s =? 0) && (errors s =? 0) && (warnings s =? 0).

Definition SanitizerSummary_to_dict (s : SanitizerSummary) : json :=
  JObj [("total_hazards", JInt (total_hazards s)); ("errors", JInt (errors s));
        ("warnings", JInt (warnings s)); ("raw", JStr (sum_raw s));
        ("not_printed", jopt JInt (not_printed s))].

Definition SanitizerSummary_from_dict (j : json) : dres SanitizerSummary :=
  d ← as_obj j;
  h ← (x ← req d "total_hazards"; py_int x);
  e ← (x ← req d "errors"; py_int x);
  w ← (x ← req d "warnings"; py_int x);
  r ← as_str (get_or d "raw" (JStr ""));
  n ← opt py_int (get d "not_printed");
  Ok (mkSanitizerSummary h e w r n).

#[export] Instance SanitizerSummary_codec : JsonCodec SanitizerSummary.
Proof.
  refine {| valid _ := True; to_json := SanitizerSummary_to_dict;
            of_json := SanitizerSummary_from_dict |}.
  - done.
  - intros [h e w r n] _; codec.
Defined.

(** ** Delay configurations *)

(** [reproductions / completed_trials if completed_trials else 0.0]. *)
Definition derived_reproduction_rate (completed_trials reproductions : Z) : float :=
  f_ratio reproductions completed_trials.

(** [rel_tol=1e-3, abs_tol=5e-4], as binary64. *)
Definition reproduction_rates_match (actual expected : float) : bool :=
  isclose actual expected (S754_finite false 4611686018427388 (-62))
    (S754_finite false 4611686018427388 (-63)).

Record TriggeringDelayConfig := mkTriggering {
  artifact : ArtifactRef;
  work_unit_id : string;
  target_argv : list string;
  tc_oracle : OracleSpec;
  tc_source_revision : string;
  tc_arch : string;
  tc_kernel : option KernelId;
  tc_delay_ns : Z;
  enable_prob : float;
  warpgroup_id : option Z;
  attempt_index : Z;
  completed_trials : Z;
  reproductions : Z;
  reproduction_rate : float;
  enabled_point_count : option Z;
  cutracer_version : string;
  tc_toolchain_version : string
}.

Definition TriggeringDelayConfig_check (c : TriggeringDelayConfig) : res exn () :=
  if (completed_trials c <? 0) || (reproductions c <? 0) then Err ValueError
  else if negb (f_le f_zero (reproduction_rate c) && f_le (reproduction_rate c) f_one)
  then Err ValueError
  else if completed_trials c <? reproductions c then Err ValueError
  else if negb (reproduction_rates_match (reproduction_rate c)
                  (derived_reproduction_rate (completed_trials c) (reproductions c)))
  then Err ValueError
  else if match enabled_point_count c with Some n => n <=? 0 | None => false end
  then Err ValueError
  else Ok ().

Definition TriggeringDelayConfig_to_dict (c : TriggeringDelayConfig) : json :=
  JObj [("artifact", to_json (artifact c)); ("work_unit_id", JStr (work_unit_id c));
        ("target_argv", jlist JStr (target_argv c)); ("oracle", to_json (tc_oracle c));
        ("source_revision", JStr (tc_source_revision c)); ("arch", JStr (tc_arch c));
        ("kernel", jopt to_json (tc_kernel c)); ("delay_ns", JInt (tc_delay_ns c));
        ("enable_prob", JFloat (enable_prob c)); ("warpgroup_id", jopt JInt (warpgroup_id c));
        ("attempt_index", JInt (attempt_index c)); ("completed_trials", JInt (completed_trials c));
        ("reproductions", JInt (reproductions c));
        ("reproduction_rate", JFloat (reproduction_rate c));
        ("enabled_point_count", jopt JInt (enabled_point_count c));
        ("cutracer_version", JStr (cutracer_version c));
        ("toolchain_version", JStr (tc_toolchain_version c))].

Definition TriggeringDelayConfig_from_dict (j : json) : dres TriggeringDelayConfig :=
  d ← as_obj j;
  trials ← py_int (get_or d "completed_trials" (JInt 0));
  repro ← py_int (get_or d "reproductions" (JInt 0));
  art ← (x ← req d "artifact"; of_json x);
  wu ← (x ← req d "work_unit_id"; as_str x);
  av ← (x ← req d "target_argv"; list_of as_str x);
  orc ← (x ← req d "oracle"; of_json x);
  rev ← as_str (get_or d "source_revision" (JStr ""));
  ar ← as_str (get_or d "arch" (JStr ""));
  k ← opt of_json (get d "kernel");
  delay ← (x ← req d "delay_ns"; py_int x);
  prob ← py_float (get_or d "enable_prob" (JFloat f_one));
  wg ← opt py_int (get d "warpgroup_id");
  att ← py_int (get_or d "attempt_index" (JInt 0));
  rate ← py_float (get_or d "reproduction_rate" (JFloat (derived_reproduction_rate trials repro)));
  pts ← opt py_int (get d "enabled_point_count");
  cv ← as_str (get_or d "cutracer_version" (JStr ""));
  tv ← as_str (get_or d "toolchain_version" (JStr ""));
  checked TriggeringDelayConfig_check
    (mkTriggering art wu av orc rev ar k delay prob wg att trials repro rate pts cv tv).

#[export] Instance TriggeringDelayConfig_codec : JsonCodec TriggeringDelayConfig.
Proof.
  refine {| valid c := TriggeringDelayConfig_check c = Ok () ∧ valid (tc_oracle c);
            to_json := TriggeringDelayConfig_to_dict; of_json := TriggeringDelayConfig_from_dict |}.
  - done.
  - intros [a w v o r h k d e g i c n t p u x] Hv; codec.
Defined.

(** ** Options of the initial campaign *)

Definition MAX_RANDOM_DELAY_NS : Z := 2 ^ 32 - 2.

Record StressOptions := mkStressOptions {
  delay_ladder_ns : list Z;
  attempts_per_delay : Z;
  so_enable_prob : float;
  warpgroup_ids : list Z;
  stop_on_first_reproduction : bool
}.

Definition StressOptions_check (o : StressOptions) : res exn () :=
  if bool_decide (delay_ladder_ns o = []) then Err ValueError
  else if existsb (λ n, (n <? 1) || (MAX_RANDOM_DELAY_NS <? n)) (delay_ladder_ns o) then Err ValueError
  else if bool_decide (¬ NoDup (delay_ladder_ns o)) then Err ValueError
  else if attempts_per_delay o <=? 0 then Err ValueError
  else if negb (f_lt f_zero (so_enable_prob o) && f_le (so_enable_prob o) f_one) then Err ValueError
  else if existsb (λ w, (w <? 0) || (7 <? w)) (warpgroup_ids o) then Err ValueError
  else if bool_decide (¬ NoDup (warpgroup_ids o)) then Err ValueError
  else Ok ().

(** [len(ladder) * (len(warpgroups) or 1) * attempts]. *)
Definition planned_trials (o : StressOptions) : Z :=
  Z.of_nat (length (delay_ladder_ns o)) *
  (match warpgroup_ids o with [] => 1 | l => Z.of_nat (length l) end) * attempts_per_delay o.

Definition StressOptions_to_dict (o : StressOptions) : json :=
  JObj [("delay_ladder_ns", jlist JInt (delay_ladder_ns o));
        ("attempts_per_delay", JInt (attempts_per_delay o));
        ("enable_prob", JFloat (so_enable_prob o)); ("warpgroup_ids", jlist JInt (warpgroup_ids o));
        ("stop_on_first_reproduction", JBool (stop_on_first_reproduction o))].

Definition StressOptions_from_dict (j : json) : dres StressOptions :=
  d ← as_obj j;
  ladder ← list_of py_int (get_or d "delay_ladder_ns"
             (JList [JInt 1000; JInt 5000; JInt 10000; JInt 50000; JInt 100000]));
  att ← py_int (get_or d "attempts_per_delay" (JInt 3));
  prob ← py_float (get_or d "enable_prob" (JFloat f_one));
  wgs ← list_of py_int (get_or d "warpgroup_ids" (JList []));
  checked StressOptions_check
    (mkStressOptions ladder att prob wgs
       (as_bool (get_or d "stop_on_first_reproduction" (JBool true)))).

#[export] Instance StressOptions_codec : JsonCodec StressOptions.
Proof.
  refine {| valid o := StressOptions_check o = Ok (); to_json := StressOptions_to_dict;
            of_json := StressOptions_from_dict |}.
  - done.
  - intros [l a p w s] Hv; codec.
Defined.

Definition DEFAULT_MAX_DISCOVERED_KERNELS : Z := 32.

Record KernelDiscoveryOptions := mkDiscoveryOptions { do_max_kernels : Z }.

Definition KernelDiscoveryOptions_check (o : KernelDiscoveryOptions) : res exn () :=
  if do_max_kernels o <=? 0 then Err ValueError else Ok ().

Definition KernelDiscoveryOptions_to_dict (o : KernelDiscoveryOptions) : json :=
  JObj [("max_kernels", JInt (do_max_kernels o))].

Definition KernelDiscoveryOptions_from_dict (j : json) : dres KernelDiscoveryOptions :=
  d ← as_obj j;
  n ← py_int (get_or d "max_kernels" (JInt DEFAULT_MAX_DISCOVERED_KERNELS));
  checked KernelDiscoveryOptions_check (mkDiscoveryOptions n).

#[export] Instance KernelDiscoveryOptions_codec : JsonCodec KernelDiscoveryOptions.
Proof.
  refine {| valid o := KernelDiscoveryOptions_check o = Ok (); to_json := KernelDiscoveryOptions_to_dict;
            of_json := KernelDiscoveryOptions_from_dict |}.
  - done.
  - intros [n] Hv; codec.
Defined.

(** A retry that reads a configuration back sees the derived rate match. *)
Example rate_of_two_thirds :
  reproduction_rates_match (derived_reproduction_rate 3 2)
    (S754_finite false 6004799503160661 (-53)) = true.
Proof. vm_compute. reflexivity. Qed.

(** ** Decoding validates *)

(** Every value a decoder returns passed its checks. *)
Class JsonSound (A : Type) `{JsonCodec A} := of_json_valid : ∀ j a, of_json j = Ok a → valid a.

Lemma opt_sound {A} `{JsonSound A} j (o : option A) : opt of_json j = Ok o → valid_opt o.
Proof.
  unfold opt. destruct j; try (intros Ho; injection Ho as <-; exact I);
    (destruct (of_json _) as [a|e] eqn:E; cbn; intros Ho; [|done]; injection Ho as <-;
     by eapply of_json_valid).
Qed.

Lemma map_res_sound {A} `{JsonSound A} js (l : list A) :
  map_res of_json js = Ok l → Forall valid l.
Proof.
  revert l. induction js as [|j js IH]; cbn; intros l Hl; [injection Hl as <-; constructor|].
  destruct (of_json j) as [a|e] eqn:E; cbn in Hl; [|done].
  destruct (map_res of_json js) as [r|e] eqn:Er; cbn in Hl; [|done]. injection Hl as <-.
  constructor; [by eapply of_json_valid|by apply IH].
Qed.

Lemma checked_inv {A} (check : A → res exn ()) a b : checked check a = Ok b → a = b ∧ check b = Ok ().
Proof.
  unfold checked. destruct (check a) as [[]|] eqn:E; intros Hc; [|done]. injection Hc as <-. done.
Qed.

(** Walk a decoder that succeeded down to its last line. *)
Ltac decoded H :=
  repeat (let a := fresh "a" in let Ha := fresh "Ha" in
          apply bind_ok in H as (a & Ha & H); cbv beta zeta in H).

#[export] Instance OracleSpec_sound : JsonSound OracleSpec.
Proof.
  intros j o H. change (OracleSpec_from_dict j = Ok o) in H. unfold OracleSpec_from_dict in H.
  decoded H. by apply checked_inv in H as [_ H].
Qed.

#[export] Instance WorkUnit_sound : JsonSound WorkUnit.
Proof.
  intros j u H. change (WorkUnit_from_dict j = Ok u) in H. unfold WorkUnit_from_dict in H.
  decoded H. apply checked_inv in H as [<- H]. split; [exact H|].
  cbn [oracle]. by eapply opt_sound.
Qed.

#[export] Instance StressOptions_sound : JsonSound StressOptions.
Proof.
  intros j o H. change (StressOptions_from_dict j = Ok o) in H. unfold StressOptions_from_dict in H.
  decoded H. by apply checked_inv in H as [_ H].
Qed.

#[export] Instance TriageSnapshot_sound : JsonSound TriageSnapshot.
Proof.
  intros j o H. change (TriageSnapshot_from_dict j = Ok o) in H. unfold TriageSnapshot_from_dict in H.
  decoded H. by apply checked_inv in H as [_ H].
Qed.

#[export] Instance TriggeringDelayConfig_sound : JsonSound TriggeringDelayConfig.
Proof.
  intros j c H. change (TriggeringDelayConfig_from_dict j = Ok c) in H.
  unfold TriggeringDelayConfig_from_dict in H. decoded H. apply checked_inv in H as [<- H].
  split; [exact H|]. cbn [tc_oracle].
  match goal with E : (_ ≫= (λ x, of_json x)) = Ok ?o |- valid ?o =>
    apply bind_ok in E as (jo & _ & E) end.
  by eapply of_json_valid.
Qed.

(** A value read from any payload is well formed and survives being stored. *)
Lemma stable {A} `{JsonSound A} j (a : A) : of_json j = Ok a → valid a ∧ of_json (to_json a) = Ok a.
Proof. intros Hj. pose proof (of_json_valid j a Hj) as Hv. split; [done|by apply of_to_json]. Qed.

(** ** Properties *)

(** Reading validates and is stable.  Whatever payload a delay
    configuration is read from, it passes the checks of its class and of its
    oracle: trial counts are ordered, the rate lies between 0 and 1 and agrees
    with the counts; writing it and reading it again gives it back unchanged. *)
Theorem triggering_config_stable j c :
  TriggeringDelayConfig_from_dict j = Ok c →
  0 ≤ reproductions c ≤ completed_trials c ∧
  f_le f_zero (reproduction_rate c) = true ∧ f_le (reproduction_rate c) f_one = true ∧
  reproduction_rates_match (reproduction_rate c)
    (derived_reproduction_rate (completed_trials c) (reproductions c)) = true ∧
  OracleSpec_check (tc_oracle c) = Ok () ∧
  TriggeringDelayConfig_from_dict (TriggeringDelayConfig_to_dict c) = Ok c.
Proof.
  intros H. change (of_json j = Ok c) in H. destruct (stable j c H) as [[Hc Ho] Hrt].
  assert (0 ≤ reproductions c ≤ completed_trials c ∧
    f_le f_zero (reproduction_rate c) && f_le (reproduction_rate c) f_one = true ∧
    reproduction_rates_match (reproduction_rate c)
      (derived_reproduction_rate (completed_trials c) (reproductions c)) = true) as (Hn & Hr & Hm).
  { unfold TriggeringDelayConfig_check in Hc.
    destruct ((completed_trials c <? 0) || (reproductions c <? 0)) eqn:E1; [done|].
    destruct (f_le f_zero (reproduction_rate c) && f_le (reproduction_rate c) f_one); [|done].
    destruct (completed_trials c <? reproductions c) eqn:E2; [done|].
    destruct (reproduction_rates_match _ _); [|done].
    apply orb_false_iff in E1 as [E1 E3]. rewrite Z.ltb_ge in E1, E2, E3. split_and!; done || lia. }
  apply andb_true_iff in Hr as [Hr1 Hr2]. split_and!; try done; lia.
Qed.

(** Newer producers do not break older consumers.  A work unit, and a
    triage decision with its snapshot, are read back exactly from what they were
    written as, with any further keys added to the payload. *)
Theorem contracts_forward_compatible (u : WorkUnit) (t : TriageDecision) (ud td extra : obj) :
  valid u → valid t → to_json u = JObj ud → to_json t = JObj td →
  of_json (JObj (ud ++ extra)) = Ok u ∧ of_json (JObj (td ++ extra)) = Ok t.
Proof.
  intros Hu Ht Eu Et. injection Eu as <-. injection Et as <-.
  destruct Hu as [Hu Ho]. change (valid_opt (td_snapshot t)) in Ht. split.
  - change (WorkUnit_from_dict (JObj (match WorkUnit_to_dict u with JObj d => d | _ => [] end ++ extra)) = Ok u).
    destruct u as [i a w tt c ar r k o e f]; codec.
  - change (TriageDecision_from_dict
      (JObj (match TriageDecision_to_dict t with JObj d => d | _ => [] end ++ extra)) = Ok t).
    destruct t as [out why snap]; codec.
Qed.

Definition demo_oracle : OracleSpec := mkOracle "exit-code" ["python"; "check.py"] [1].

Definition demo_payload : json :=
  JObj [("artifact", JObj [("uri", JStr "file:///tmp/delay.json")]);
        ("work_unit_id", JStr "unit"); ("target_argv", JList [JStr "pytest"]);
        ("oracle", to_json demo_oracle); ("delay_ns", JStr "5000");
        ("completed_trials", JInt 3); ("reproductions", JInt 2); ("from_the_future", JNull)].

Definition demo_triggering : TriggeringDelayConfig :=
  mkTriggering (mkArtifactRef "file:///tmp/delay.json" "" None None "text/plain") "unit" ["pytest"]
    demo_oracle "" "" None 5000 f_one None 0 3 2 (S754_finite false 6004799503160661 (-53)) None "" "".

Lemma triggering_config_stable_witness :
  TriggeringDelayConfig_from_dict (TriggeringDelayConfig_to_dict demo_triggering) = Ok demo_triggering.
Proof.
  apply (triggering_config_stable demo_payload demo_triggering). vm_compute. reflexivity.
Defined.

Definition demo_unit : WorkUnit :=
  mkUnit "unit" ["pytest"; "t.py"] "triton_pytest" "" "" "sm_90" "abc"
    (Some (mkKernelId "matmul" "deadbeef" None)) (Some demo_oracle) [("A", "1")] ["matmul"].

Definition demo_triage : TriageDecision :=
  mkTriageDecision Analyze "new findings"
    (Some (mkTriageSnapshot
      [mkScopeSnapshot (mkScope "fam" "memcheck") Complete NewFindings ["k"] ["k"] [] [] false] Complete [])).

Lemma contracts_forward_compatible_witness :
  of_json (JObj (match to_json demo_unit with JObj d => d | _ => [] end ++ [("priority", JInt 3)]))
    = Ok demo_unit.
Proof.
  apply (contracts_forward_compatible demo_unit demo_triage
    (match to_json demo_unit with JObj d => d | _ => [] end)
    (match to_json demo_triage with JObj d => d | _ => [] end) [("priority", JInt 3)]).
  - split; vm_compute; reflexivity.
  - vm_compute. reflexivity.
  - reflexivity.
  - reflexivity.
Defined.
