(* ===== verification/Results.v ===== *)
(** Wire contracts, second part: the results of the initial campaign and the
    signals they carry, from src/python/cutracer/service/contracts.py. *)
From S2P Require Import Prelude.
From S2P Require Import PyStr.
From S2P Require Import Json.
From S2P Require Import Contracts.
From Stdlib Require Import Floats.SpecFloat.
Local Open Scope Z_scope.

(** ** The derived rate is a number *)

Lemma iter_shr_nonneg p r : 0 ≤ shr_m r → 0 ≤ shr_m (iter_pos shr_1 p r).
Proof.
  assert (∀ r, 0 ≤ shr_m r → 0 ≤ shr_m (shr_1 r)) as H1.
  { intros [m a b]; cbn. destruct m as [|[q|q|]|q]; cbn; lia. }
  revert r. induction p as [p IH|p IH|]; cbn [iter_pos]; auto.
Qed.

Lemma shr_fexp_nonneg m e l : 0 ≤ m → 0 ≤ shr_m (shr_fexp 53 1024 m e l).1.
Proof.
  intros Hm. unfold shr_fexp, shr. destruct (fexp _ _ _ - e); cbn [fst];
    try apply iter_shr_nonneg; destruct l as [|[]]; exact Hm.
Qed.

Lemma round_not_nan s m e l : 0 ≤ m → binary_round_aux 53 1024 s m e l ≠ S754_nan.
Proof.
  intros Hm. unfold binary_round_aux.
  pose proof (shr_fexp_nonneg m e l Hm) as H1. destruct (shr_fexp 53 1024 m e l) as [r1 e1]. cbn in H1.
  assert (0 ≤ round_nearest_even (shr_m r1) (loc_of_shr_record r1)) as H2.
  { destruct (loc_of_shr_record r1) as [|[]]; cbn; try destruct (Z.even _); lia. }
  pose proof (shr_fexp_nonneg _ e1 loc_Exact H2) as H3.
  destruct (shr_fexp 53 1024 _ e1 loc_Exact) as [r2 e2]. cbn in H3.
  destruct (shr_m r2) as [|q|q]; [done|by destruct (e2 <=? _)|lia].
Qed.

Lemma f_ratio_not_nan a b : f_ratio a b ≠ S754_nan.
Proof.
  unfold f_ratio, f_div. destruct a as [|p|p], b as [|q|q]; try done. cbn [SFdiv].
  unfold SFdiv_core_binary. cbv zeta.
  set (e' := Z.min _ _). set (m' := match 0 - 0 - e' with Z0 => _ | Zpos _ => _ | Zneg _ => _ end).
  assert (0 ≤ m') as Hm.
  { unfold m'. destruct (0 - 0 - e') eqn:E; try lia. by apply Z.shiftl_nonneg. }
  pose proof (Z.div_pos m' (Z.pos q) Hm ltac:(lia)) as Hq.
  change (m' / Z.pos q) with (let (x, _) := Z.div_eucl m' (Z.pos q) in x) in Hq.
  destruct (Z.div_eucl m' (Z.pos q)) as [d r]. by apply round_not_nan.
Qed.

Lemma f_eq_refl f : f ≠ S754_nan → f_eq f f = true.
Proof.
  unfold f_eq, SFeqb. destruct f as [s|s| |s m e]; try done; [by destruct s|].
  intros _. cbn. change (Pos.compare_cont Eq m m) with (Pos.compare m m).
  rewrite Z.compare_refl, Pos.compare_refl. by destruct s.
Qed.

Lemma rates_match_refl f : f ≠ S754_nan → reproduction_rates_match f f = true.
Proof. intros H. unfold reproduction_rates_match, isclose. by rewrite f_eq_refl. Qed.

(** ** Sanitizer sweeps *)

Record SanitizerSweepResult := mkSweep {
  sw_experiment_id : string;
  sw_execution_status : ExecutionStatus;
  sw_outcome : SanitizerOutcome;
  sw_tool : string;
  findings : list FindingRecord;
  sw_provenance : ExecutionProvenance;
  sw_log : option ArtifactRef;
  sw_duration_s : float;
  sw_error : option string;
  sw_summary : option SanitizerSummary;
  sw_completeness : ResultCompleteness;
  summary_issues : list string;
  output_truncated : bool
}.

Definition SUPPORTED_SANITIZER_TOOLS : list string := ["initcheck"; "memcheck"; "racecheck"; "synccheck"].

Definition sweep_has_positive_signal (r : SanitizerSweepResult) : bool :=
  bool_decide (sw_outcome r = SaniFinding) || bool_decide (findings r ≠ []) ||
  match sw_summary r with Some s => summary_is_positive s | None => false end.

Definition sweep_has_usable_positive_signal (r : SanitizerSweepResult) : bool :=
  bool_decide (findings r ≠ []) ||
  ((bool_decide (sw_execution_status r = Succeeded) || bool_decide (sw_execution_status r = ExecFailed)) &&
   bool_decide (sw_completeness r = Complete) && bool_decide (summary_issues r = []) &&
   sweep_has_positive_signal r).

Definition sweep_has_trustworthy_clean (r : SanitizerSweepResult) : bool :=
  bool_decide (sw_execution_status r = Succeeded) &&
  bool_decide (sw_tool r ∈ SUPPORTED_SANITIZER_TOOLS) &&
  bool_decide (sw_outcome r = SaniClean) && bool_decide (sw_completeness r = Complete) &&
  match sw_summary r with Some s => summary_is_zero s | None => false end &&
  bool_decide (summary_issues r = []) && bool_decide (findings r = []).

Definition SanitizerSweepResult_to_dict (r : SanitizerSweepResult) : json :=
  JObj [("kind", to_json COMPUTE_SANITIZER); ("experiment_id", JStr (sw_experiment_id r));
        ("execution_status", to_json (sw_execution_status r)); ("outcome", to_json (sw_outcome r));
        ("tool", JStr (sw_tool r)); ("findings", jlist to_json (findings r));
        ("provenance", to_json (sw_provenance r)); ("log", jopt to_json (sw_log r));
        ("duration_s", JFloat (sw_duration_s r)); ("error", jopt JStr (sw_error r));
        ("summary", jopt to_json (sw_summary r)); ("completeness", to_json (sw_completeness r));
        ("summary_issues", jlist JStr (summary_issues r));
        ("output_truncated", JBool (output_truncated r))].

Definition SanitizerSweepResult_from_dict (j : json) : dres SanitizerSweepResult :=
  d ← as_obj j;
  id ← (x ← req d "experiment_id"; as_str x);
  st ← (x ← req d "execution_status"; of_json x);
  out ← (x ← req d "outcome"; of_json x);
  tool ← (x ← req d "tool"; as_str x);
  fs ← list_of of_json (get_or d "findings" (JList []));
  prov ← (x ← req d "provenance"; of_json x);
  lg ← opt of_json (get d "log");
  dur ← py_float (get_or d "duration_s" (JFloat f_zero));
  err ← opt as_str (get d "error");
  sm ← opt of_json (get d "summary");
  co ← of_json (get_or d "completeness" (JStr "unknown"));
  iss ← list_of as_str (get_or d "summary_issues" (JList []));
  (* [bool(x)]: unlike [_as_bool], any non-empty text is true *)
  trunc ← as_raw_bool (get_or d "output_truncated" (JBool false));
  Ok (mkSweep id st out tool fs prov lg dur err sm co iss trunc).

#[export] Instance SanitizerSweepResult_codec : JsonCodec SanitizerSweepResult.
Proof.
  refine {| valid _ := True; to_json := SanitizerSweepResult_to_dict;
            of_json := SanitizerSweepResult_from_dict |}.
  - done.
  - intros [a b c d e f g h i j k l m] _; codec.
Defined.

(** ** Stress tests *)

Inductive StressOutcome :=
| Reproduced | UnattributedReproduction | NotReproduced | StressIncomplete | StressSkipped.

#[export] Instance StressOutcome_eq_dec : EqDecision StressOutcome.
Proof. solve_decision. Defined.

Definition StressOutcome_values : list (string * StressOutcome) :=
  [("reproduced", Reproduced); ("unattributed_reproduction", UnattributedReproduction);
   ("not_reproduced", NotReproduced); ("incomplete", StressIncomplete); ("skipped", StressSkipped)].

#[export] Instance StressOutcome_codec : JsonCodec StressOutcome :=
  enum_codec StressOutcome_values (enum_of StressOutcome_values) ltac:(intros a; enum_ok).

Definition MAX_REJECTED_CONFIGS : nat := 16.

(** [retention.retain_oldest_and_newest]. *)
Definition retain_oldest_and_newest {A} (items : list A) : list A :=
  if (length items <=? MAX_REJECTED_CONFIGS)%nat then items
  else
    let head_count := (MAX_REJECTED_CONFIGS / 2)%nat in
    let tail_count := (MAX_REJECTED_CONFIGS - head_count)%nat in
    take head_count items ++ drop (length items - tail_count) items.

Record StressTestResult := mkStress {
  st_experiment_id : string;
  st_execution_status : ExecutionStatus;
  st_outcome : StressOutcome;
  st_completed_trials : Z;
  st_reproductions : Z;
  infra_errors : Z;
  st_provenance : ExecutionProvenance;
  triggering_config : option TriggeringDelayConfig;
  st_log : option ArtifactRef;
  st_duration_s : float;
  st_error : option string;
  st_planned_trials : Z;
  timed_out_trials : Z;
  st_completeness : ResultCompleteness;
  unattributed_reproductions : Z;
  rejected_configs : list ArtifactRef
}.

Definition StressTestResult_check (r : StressTestResult) : res exn () :=
  if existsb (λ n, n <? 0)
       [st_completed_trials r; st_reproductions r; infra_errors r; st_planned_trials r;
        timed_out_trials r; unattributed_reproductions r] then Err ValueError
  else if st_completed_trials r <? st_reproductions r + unattributed_reproductions r then Err ValueError
  else if (MAX_REJECTED_CONFIGS <? length (rejected_configs r))%nat then Err ValueError
  else Ok ().

Definition st_reproduction_rate (r : StressTestResult) : float :=
  derived_reproduction_rate (st_completed_trials r) (st_reproductions r).

Definition stress_has_positive_signal (r : StressTestResult) : bool :=
  bool_decide (st_outcome r = Reproduced) || bool_decide (st_outcome r = UnattributedReproduction) ||
  (0 <? st_reproductions r) || (0 <? unattributed_reproductions r) ||
  match triggering_config r with Some _ => true | None => false end.

Definition stress_has_trustworthy_non_reproduction (r : StressTestResult) : bool :=
  bool_decide (st_execution_status r = Succeeded) && bool_decide (st_outcome r = NotReproduced) &&
  bool_decide (st_completeness r = Complete) && (0 <? st_planned_trials r) &&
  (st_completed_trials r =? st_planned_trials r) && (st_reproductions r =? 0) &&
  (infra_errors r =? 0) && (timed_out_trials r =? 0) && (unattributed_reproductions r =? 0) &&
  match triggering_config r with Some _ => false | None => true end.

Definition StressTestResult_to_dict (r : StressTestResult) : json :=
  JObj [("kind", to_json RANDOM_DELAY_STRESS); ("experiment_id", JStr (st_experiment_id r));
        ("execution_status", to_json (st_execution_status r)); ("outcome", to_json (st_outcome r));
        ("completed_trials", JInt (st_completed_trials r)); ("reproductions", JInt (st_reproductions r));
        ("infra_errors", JInt (infra_errors r)); ("reproduction_rate", JFloat (st_reproduction_rate r));
        ("provenance", to_json (st_provenance r)); ("triggering_config", jopt to_json (triggering_config r));
        ("log", jopt to_json (st_log r)); ("rejected_configs", jlist to_json (rejected_configs r));
        ("duration_s", JFloat (st_duration_s r)); ("error", jopt JStr (st_error r));
        ("planned_trials", JInt (st_planned_trials r)); ("timed_out_trials", JInt (timed_out_trials r));
        ("completeness", to_json (st_completeness r));
        ("unattributed_reproductions", JInt (unattributed_reproductions r))].

(** ["reproduction_rate" in d and not match(...)]. *)
Definition rate_agrees (d : obj) (r : StressTestResult) : dres () :=
  match field d "reproduction_rate" with
  | None => Ok ()
  | Some x =>
      f ← py_float x;
      if reproduction_rates_match f (st_reproduction_rate r) then Ok () else Err (Raised ValueError)
  end.

Definition StressTestResult_from_dict (j : json) : dres StressTestResult :=
  d ← as_obj j;
  id ← (x ← req d "experiment_id"; as_str x);
  st ← (x ← req d "execution_status"; of_json x);
  out ← (x ← req d "outcome"; of_json x);
  n ← py_int (get_or d "completed_trials" (JInt 0));
  k ← py_int (get_or d "reproductions" (JInt 0));
  inf ← py_int (get_or d "infra_errors" (JInt 0));
  prov ← (x ← req d "provenance"; of_json x);
  cfg ← opt of_json (get d "triggering_config");
  lg ← opt of_json (get d "log");
  rej ← list_of of_json (get_or d "rejected_configs" (JList []));
  dur ← py_float (get_or d "duration_s" (JFloat f_zero));
  err ← opt as_str (get d "error");
  pl ← py_int (get_or d "planned_trials" (JInt 0));
  tm ← py_int (get_or d "timed_out_trials" (JInt 0));
  co ← of_json (get_or d "completeness" (JStr "unknown"));
  un ← py_int (get_or d "unattributed_reproductions" (JInt 0));
  r ← checked StressTestResult_check (mkStress id st out n k inf prov cfg lg dur err pl tm co un rej);
  _ ← rate_agrees d r;
  Ok r.

Lemma rate_agrees_own d r :
  field d "reproduction_rate" = Some (JFloat (st_reproduction_rate r)) → rate_agrees d r = Ok ().
Proof.
  intros H. unfold rate_agrees. rewrite H. cbn. by rewrite rates_match_refl by apply f_ratio_not_nan.
Qed.
#[global] Arguments rate_agrees : simpl never.
#[global] Arguments StressTestResult_check : simpl never.

#[export] Instance StressTestResult_codec : JsonCodec StressTestResult.
Proof.
  refine {| valid r := StressTestResult_check r = Ok () ∧ valid_opt (triggering_config r);
            to_json := StressTestResult_to_dict; of_json := StressTestResult_from_dict |}.
  - done.
  - intros [a b c d e f g h i j k l m n o p] [Hc Ht]; codec. by rewrite rate_agrees_own.
Defined.

#[export] Instance StressTestResult_sound : JsonSound StressTestResult.
Proof.
  intros j r H. change (StressTestResult_from_dict j = Ok r) in H.
  unfold StressTestResult_from_dict in H. decoded H. injection H as ->.
  match goal with E : checked _ _ = Ok r |- _ => apply checked_inv in E as [<- E] end.
  split; [done|]. cbn [triggering_config]. by eapply opt_sound.
Qed.
