(* ===== verification/RunContracts.v ===== *)
(** Run requests and control records: src/python/cutracer/service/run_contracts.py,
    and the compare-and-swap of service/file_run_store.py.

    Dataclasses are records; a [__post_init__] is a check that returns the
    exception it raises.  The nested documents of a [RunInput] are the canonical
    JSON strings the class stores.  [hashlib.sha256] over the request's canonical
    JSON is the section variable [input_digest]; [os.path.abspath] is [abspath].
    Reading and writing the JSON files is not modelled. *)
From S2P Require Import Prelude.
From S2P Require Import PyStr.
From S2P Require Import Json.
From S2P Require Import Contracts.
From Stdlib Require Import Ascii.
From Stdlib Require String.
Local Open Scope Z_scope.

(** ** Requests *)

Inductive DeploymentProfile := LocalProfile | DevserverRemote | Hosted.

Inductive RunStatus := RunRunning | RunCompleted | RunFailed | RunExpired.

Inductive RunOutputMode := ReturnOnly | FileOutput | RemoteOutput.

Inductive RunPublicationStatus := NotRequested | PubPending | PubPublished | PubFailed.

Inductive RunSubmissionState := NotSubmitted | Submitting | Submitted | SubmissionFailed.

#[export] Instance DeploymentProfile_eq_dec : EqDecision DeploymentProfile.
Proof. solve_decision. Defined.
#[export] Instance RunStatus_eq_dec : EqDecision RunStatus.
Proof. solve_decision. Defined.
#[export] Instance RunOutputMode_eq_dec : EqDecision RunOutputMode.
Proof. solve_decision. Defined.
#[export] Instance RunPublicationStatus_eq_dec : EqDecision RunPublicationStatus.
Proof. solve_decision. Defined.
#[export] Instance RunSubmissionState_eq_dec : EqDecision RunSubmissionState.
Proof. solve_decision. Defined.

Record RunOutput := mkRunOutput {
  mode : RunOutputMode;
  path : string
}.

(** [RunOutput.__post_init__]: the value it leaves, or the exception. *)
Definition make_run_output (abspath : string → string) (o : RunOutput) : res exn RunOutput :=
  let is_file := bool_decide (mode o = FileOutput) in
  let has_path := bool_decide (strip (chars (path o)) ≠ []) in
  if negb (Bool.eqb is_file has_path) then Err ValueError
  else if is_file then Ok (mkRunOutput (mode o) (abspath (path o))) else Ok o.

Record RunInput := mkRunInput {
  ri_run_id : string;
  profile : DeploymentProfile;
  ri_toolchain_version : string;
  deadline_ms : Z;
  unit_json : string;
  policy_json : string;
  budget_json : string;
  max_kernels : Z;
  deployment_config_digest : string;
  ri_output : RunOutput
}.

Definition is_alnum (c : ascii) : bool :=
  let n := code c in
  is_digit c || ((65 <=? n) && (n <=? 90)) || ((97 <=? n) && (n <=? 122)).

(** [re.fullmatch(r"[A-Za-z0-9][A-Za-z0-9_.-]*", run_id)]. *)
Definition is_run_id (s : list ascii) : bool :=
  match s with
  | [] => false
  | c :: r => is_alnum c && forallb (λ d, is_alnum d || Ascii.eqb d "_"%char
                || Ascii.eqb d "."%char || Ascii.eqb d "-"%char) r
  end.

Definition is_lower_hex (c : ascii) : bool :=
  let n := code c in is_digit c || ((97 <=? n) && (n <=? 102)).

(** [RunInput.__post_init__]: the guards in order, each with its exception. *)
Definition check_run_input (r : RunInput) : res exn () :=
  let id := chars (ri_run_id r) in
  if bool_decide (strip id = []) || (255 <? Z.of_nat (length id)) then Err ValueError
  else if negb (is_run_id id) then Err ValueError
  else if bool_decide (strip (chars (ri_toolchain_version r)) = [])
          || bool_decide (ri_toolchain_version r = "0+unknown") then Err ValueError
  else if (deadline_ms r <=? 0) || (max_kernels r <=? 0) then Err ValueError
  else if bool_decide (profile r = LocalProfile) &&
          bool_decide (mode (ri_output r) = RemoteOutput) then Err ValueError
  else if bool_decide (profile r ≠ LocalProfile) &&
          bool_decide (mode (ri_output r) ≠ RemoteOutput) then Err ValueError
  else if bool_decide (deployment_config_digest r ≠ "") &&
          (negb (length (chars (deployment_config_digest r)) =? 64)%nat
           || negb (forallb is_lower_hex (chars (deployment_config_digest r)))) then Err ValueError
  else Ok ().

Definition root_session_id (r : RunInput) : string := ri_run_id r.

(** ** Summaries *)

Record RunSessionSummary := mkRow {
  row_session_id : string;
  row_unit_id : string;
  row_status : option SessionStatus;
  row_kernel : option KernelId;
  row_termination_reason : string;
  row_report_publication : ReportPublicationStatus;
  row_report_publication_error : string;
  row_report_uri : string;
  row_report_sha256 : string;
  row_has_report : bool;
  row_race_class : option RaceClass;
  row_evidence_sufficiency : option EvidenceSufficiency;
  row_initial_evidence_complete : bool;
  row_sanitizer_positive_signal : bool;
  row_stress_positive_signal : bool;
  row_pending_experiment_ids : list string
}.

Record RunSummary := mkRunSummary {
  sm_run_id : string;
  sm_status : RunStatus;
  sm_root_session_id : string;
  sm_sessions : list RunSessionSummary;
  sm_publication : RunPublicationStatus;
  sm_error : string;
  sm_output_uri : string
}.

Definition is_terminal (s : RunSummary) : bool := bool_decide (sm_status s ≠ RunRunning).

Definition RunStatus_values : list (string * RunStatus) :=
  [("running", RunRunning); ("completed", RunCompleted); ("failed", RunFailed);
   ("expired", RunExpired)].
Definition RunPublicationStatus_values : list (string * RunPublicationStatus) :=
  [("not_requested", NotRequested); ("pending", PubPending); ("published", PubPublished);
   ("failed", PubFailed)].

#[export] Instance RunStatus_codec : JsonCodec RunStatus :=
  enum_codec RunStatus_values (enum_of RunStatus_values) ltac:(intros a; enum_ok).
#[export] Instance RunPublicationStatus_codec : JsonCodec RunPublicationStatus :=
  enum_codec RunPublicationStatus_values (enum_of RunPublicationStatus_values)
    ltac:(intros a; enum_ok).

Definition RunSessionSummary_to_dict (r : RunSessionSummary) : json :=
  JObj [("session_id", JStr (row_session_id r)); ("unit_id", JStr (row_unit_id r));
        ("status", jopt to_json (row_status r)); ("kernel", jopt to_json (row_kernel r));
        ("termination_reason", JStr (row_termination_reason r));
        ("report_publication", to_json (row_report_publication r));
        ("report_publication_error", JStr (row_report_publication_error r));
        ("report_uri", JStr (row_report_uri r)); ("report_sha256", JStr (row_report_sha256 r));
        ("has_report", JBool (row_has_report r)); ("race_class", jopt to_json (row_race_class r));
        ("evidence_sufficiency", jopt to_json (row_evidence_sufficiency r));
        ("initial_evidence_complete", JBool (row_initial_evidence_complete r));
        ("sanitizer_positive_signal", JBool (row_sanitizer_positive_signal r));
        ("stress_positive_signal", JBool (row_stress_positive_signal r));
        ("pending_experiment_ids", jlist JStr (row_pending_experiment_ids r))].

Definition row_fields : list string :=
  ["session_id"; "unit_id"; "status"; "kernel"; "termination_reason"; "report_publication";
   "report_publication_error"; "report_uri"; "report_sha256"; "has_report"; "race_class";
   "evidence_sufficiency"; "initial_evidence_complete"; "sanitizer_positive_signal";
   "stress_positive_signal"; "pending_experiment_ids"].

(** [cls( **result )]: an unknown key, or a missing [session_id] or [unit_id],
    is a [TypeError]; a missing optional field takes its default. *)
Definition keyword (d : obj) (k : string) : dres json :=
  match field d k with Some v => Ok v | None => Err (Raised TypeError) end.

Definition RunSessionSummary_from_dict (j : json) : dres RunSessionSummary :=
  d ← as_obj j;
  status ← (x ← req d "status"; opt of_json x);
  k ← opt of_json (get d "kernel");
  pub ← (x ← req d "report_publication"; of_json x);
  race ← opt of_json (get d "race_class");
  ev ← opt of_json (get d "evidence_sufficiency");
  pending ← list_of as_str (get_or d "pending_experiment_ids" (JList []));
  _ ← (if forallb (λ e, existsb (String.eqb e.1) row_fields) d then Ok () else Err (Raised TypeError));
  sid ← (x ← keyword d "session_id"; as_str x);
  uid ← (x ← keyword d "unit_id"; as_str x);
  reason ← as_str (get_or d "termination_reason" (JStr ""));
  perr ← as_str (get_or d "report_publication_error" (JStr ""));
  ruri ← as_str (get_or d "report_uri" (JStr ""));
  rsha ← as_str (get_or d "report_sha256" (JStr ""));
  has ← as_raw_bool (get_or d "has_report" (JBool false));
  iec ← as_raw_bool (get_or d "initial_evidence_complete" (JBool false));
  sps ← as_raw_bool (get_or d "sanitizer_positive_signal" (JBool false));
  tps ← as_raw_bool (get_or d "stress_positive_signal" (JBool false));
  Ok (mkRow sid uid status k reason pub perr ruri rsha has race ev iec sps tps pending).

#[export] Instance RunSessionSummary_codec : JsonCodec RunSessionSummary.
Proof.
  refine {| valid _ := True; to_json := RunSessionSummary_to_dict;
            of_json := RunSessionSummary_from_dict |}.
  - done.
  - intros [a b c d e f g h i j k l m n o p] _; codec.
Defined.

Definition RUN_SCHEMA_VERSION : Z := 1.

(** [_check_version]: [payload.get("schema_version") != 1]. *)
Definition check_version (d : obj) : dres () :=
  match get d "schema_version" with
  | JInt 1 => Ok ()
  | JBool true => Ok ()
  | JFloat f => if f_eq f f_one then Ok () else Err (Raised ValueError)
  | _ => Err (Raised ValueError)
  end.

Definition RunSummary_to_dict (s : RunSummary) : json :=
  JObj [("schema_version", JInt RUN_SCHEMA_VERSION); ("run_id", JStr (sm_run_id s));
        ("status", to_json (sm_status s)); ("root_session_id", JStr (sm_root_session_id s));
        ("sessions", jlist to_json (sm_sessions s)); ("publication", to_json (sm_publication s));
        ("error", JStr (sm_error s)); ("output_uri", JStr (sm_output_uri s))].

Definition RunSummary_from_dict (j : json) : dres RunSummary :=
  d ← as_obj j;
  _ ← check_version d;
  id ← (x ← req d "run_id"; as_str x);
  st ← (x ← req d "status"; of_json x);
  root ← (x ← req d "root_session_id"; as_str x);
  ss ← (x ← req d "sessions"; list_of of_json x);
  pub ← (x ← req d "publication"; of_json x);
  err ← as_str (get_or d "error" (JStr ""));
  out ← as_str (get_or d "output_uri" (JStr ""));
  Ok (mkRunSummary id st root ss pub err out).

#[export] Instance RunSummary_codec : JsonCodec RunSummary.
Proof.
  refine {| valid _ := True; to_json := RunSummary_to_dict; of_json := RunSummary_from_dict |}.
  - done.
  - intros [i s r ss p e o] _; codec.
Defined.

(** ** Control records *)

Record RunControl := mkControl {
  revision : Z;
  input : RunInput;
  owner_token : string;
  lease_expires_ms : Z;
  next_poll_ms : Z;
  controller_job_id : string;
  controller_link : string;
  controller_input : option ArtifactRef;
  controller_launch_digest : string;
  submission_state : RunSubmissionState;
  submission_token : string;
  summary : option RunSummary;
  rc_error : string;
  backend_identity : string
}.

Definition run_id (c : RunControl) : string := ri_run_id (input c).

(** [RunControl.__post_init__]. *)
Definition control_ok (c : RunControl) : bool :=
  negb ((revision c <? 0) || (lease_expires_ms c <? 0) || (next_poll_ms c <? 0)) &&
  match summary c with
  | None => true
  | Some s => bool_decide (sm_run_id s = run_id c)
  end.

Definition check_control (c : RunControl) : res exn RunControl :=
  if control_ok c then Ok c else Err ValueError.

(** [dataclasses.replace(c, revision=r)], and with a new owner and expiry. *)
Definition with_revision (r : Z) (c : RunControl) : RunControl :=
  mkControl r (input c) (owner_token c) (lease_expires_ms c) (next_poll_ms c)
    (controller_job_id c) (controller_link c) (controller_input c)
    (controller_launch_digest c) (submission_state c) (submission_token c)
    (summary c) (rc_error c) (backend_identity c).

Definition with_lease (owner : string) (expires : Z) (c : RunControl) : RunControl :=
  mkControl (revision c + 1) (input c) owner expires (next_poll_ms c)
    (controller_job_id c) (controller_link c) (controller_input c)
    (controller_launch_digest c) (submission_state c) (submission_token c)
    (summary c) (rc_error c) (backend_identity c).

(** ** Updating a stored record *)

Inductive store_error :=
| StoreConflict
| StoreUnavailable
| RunNotFound
| RunInputConflict
| StoreValueError.

#[export] Instance store_error_eq_dec : EqDecision store_error.
Proof. solve_decision. Defined.

Section Store.
Variable input_digest : RunInput → string.

(** A field that is set may not be changed. *)
Definition bound_string (old new : string) : bool :=
  bool_decide (old = "") || bool_decide (old = new).
Definition bound_ref (old new : option ArtifactRef) : bool :=
  bool_decide (old = None) || bool_decide (old = new).

Definition validate_run_update (current : RunControl) (expected_revision : Z)
    (updated : RunControl) : res store_error () :=
  if bool_decide (run_id updated ≠ run_id current) ||
     negb (revision updated =? expected_revision + 1) then Err StoreValueError
  else if negb (revision current =? expected_revision) then Err StoreConflict
  else if bool_decide (input_digest (input current) ≠ input_digest (input updated))
  then Err RunInputConflict
  else if bound_string (backend_identity current) (backend_identity updated) &&
          bound_ref (controller_input current) (controller_input updated) &&
          bound_string (controller_launch_digest current) (controller_launch_digest updated) &&
          bound_string (submission_token current) (submission_token updated)
  then Ok () else Err RunInputConflict.

(** [FileRunStore.compare_and_swap] under its lock: what is stored afterwards. *)
Definition compare_and_swap (id : string) (stored : option RunControl)
    (expected_revision : Z) (control : RunControl) : option RunControl * res store_error () :=
  if bool_decide (run_id control ≠ id) || negb (revision control =? expected_revision + 1)
  then (stored, Err StoreValueError)
  else match stored with
       | None => (stored, Err RunNotFound)
       | Some current =>
           match validate_run_update current expected_revision control with
           | Err e => (stored, Err e)
           | Ok _ => (Some control, Ok ())
           end
       end.

(** [FileRunStore.create]. *)
Definition create (stored : option RunControl) (control : RunControl)
    : option RunControl * res store_error () :=
  match stored with
  | Some _ => (stored, Err StoreConflict)
  | None => (Some control, Ok ())
  end.

(** What an accepted swap guarantees about the record it replaces. *)
Lemma compare_and_swap_inv id stored e c stored' r :
  compare_and_swap id stored e c = (stored', r) →
  (stored' = stored ∧ r ≠ Ok ()) ∨
  (∃ cur, stored = Some cur ∧ stored' = Some c ∧ r = Ok () ∧
     revision cur = e ∧ revision c = e + 1 ∧ run_id c = id ∧ run_id cur = id ∧
     input_digest (input c) = input_digest (input cur) ∧
     bound_string (backend_identity cur) (backend_identity c) = true ∧
     bound_ref (controller_input cur) (controller_input c) = true ∧
     bound_string (controller_launch_digest cur) (controller_launch_digest c) = true ∧
     bound_string (submission_token cur) (submission_token c) = true).
Proof.
  unfold compare_and_swap, validate_run_update.
  case_bool_decide as Hid; cbn [orb]; [intros [= <- <-]; by left|].
  destruct (Z.eqb_spec (revision c) (e + 1)); cbn [negb]; [|intros [= <- <-]; by left].
  destruct stored as [cur|]; [|intros [= <- <-]; by left].
  case_bool_decide as Hrun; cbn [orb]; [intros [= <- <-]; by left|].
  destruct (Z.eqb_spec (revision cur) e); cbn [negb]; [|intros [= <- <-]; by left].
  case_bool_decide as Hd; [intros [= <- <-]; by left|].
  destruct (bound_string (backend_identity cur) _ && _ && _ && _) eqn:Hb;
    intros [= <- <-]; [|by left].
  right. exists cur. rewrite !andb_true_iff in Hb. destruct Hb as [[[]]].
  split_and!; try congruence; done.
Qed.
End Store.
