(* ===== verification/RunLease.v ===== *)
(** Run ownership by leases: src/python/cutracer/service/run_lease.py.

    Every method of [RunLease] is written as a program over the atomic actions
    the class performs: a store read, a clock read, a compare-and-swap, and reads
    and writes of the object's own fields, which its heartbeat thread shares.
    Any number of lease objects contend for one run; a step of the system
    runs one action of one thread, so all interleavings are covered.

    The model allows more than the code does: any method may be started at any
    time by any number of threads (the object's own lock is not relied upon), a
    store call may fail at will, and a swap may take effect although its caller
    is told that the store is unavailable.  What holds of the model holds of the
    code.  The heartbeat's sleep is the freedom of when its next pass starts.

    Two ghosts observe the run and decide nothing: a thread keeps the readings of
    the clock since its last load, and [writers] records who wrote each version of
    the record and after which readings. *)
From S2P Require Import Prelude.
From S2P Require Import RunContracts.
Local Open Scope Z_scope.

Inductive lease_error :=
| RunLeaseLost
| RunDeadlineReached
| StoreErr (e : store_error)
| LeaseValueError
| TransformError.

(** [ValueError] is not a [SessionStoreError]; the others are. *)
Definition of_store (e : store_error) : lease_error :=
  match e with StoreValueError => LeaseValueError | _ => StoreErr e end.

(** The constructor's arguments; [_token] is a fresh [uuid4]. *)
Record Lease := mkLease {
  token : string;
  lease_ms : Z
}.

Definition make_lease (tok : string) (ms : Z) : res exn Lease :=
  if ms <? 30 then Err ValueError else Ok (mkLease tok ms).

(** The fields that the object's threads share. *)
Record Fields := mkFields {
  failure : option lease_error;     (* [_failure], set by the heartbeat *)
  known_deadline_ms : Z;            (* [_deadline_ms] *)
  stop : bool                       (* [_stop] *)
}.

Definition fields0 : Fields := mkFields None 0 false.

(** ** Programs over the atomic actions *)

Inductive prog (A : Type) : Type :=
| Ret (a : A)
| Raise (e : lease_error)
| Load (k : res store_error RunControl → prog A)
| Clock (k : Z → prog A)
| Cas (expected : Z) (c : RunControl) (k : res store_error () → prog A)
| GetF (k : Fields → prog A)
| PutF (f : Fields → Fields) (k : prog A).
Arguments Ret {A} a.
Arguments Raise {A} e.
Arguments Load {A} k.
Arguments Clock {A} k.
Arguments Cas {A} expected c k.
Arguments GetF {A} k.
Arguments PutF {A} f k.

Fixpoint bind {A B} (m : prog A) (f : A → prog B) : prog B :=
  match m with
  | Ret a => f a
  | Raise e => Raise e
  | Load k => Load (λ r, bind (k r) f)
  | Clock k => Clock (λ n, bind (k n) f)
  | Cas e c k => Cas e c (λ r, bind (k r) f)
  | GetF k => GetF (λ x, bind (k x) f)
  | PutF g k => PutF g (bind k f)
  end.

#[export] Instance prog_ret : MRet prog := λ A a, Ret a.
#[export] Instance prog_bind : MBind prog := λ A B f m, bind m f.

(** [try: m except ...: h], where [h] decides what it catches. *)
Fixpoint catch {A} (m : prog A) (h : lease_error → prog A) : prog A :=
  match m with
  | Ret a => Ret a
  | Raise e => h e
  | Load k => Load (λ r, catch (k r) h)
  | Clock k => Clock (λ n, catch (k n) h)
  | Cas e c k => Cas e c (λ r, catch (k r) h)
  | GetF k => GetF (λ x, catch (k x) h)
  | PutF g k => PutF g (catch k h)
  end.

Definition load : prog RunControl :=
  Load (λ r, match r with Ok c => Ret c | Err e => Raise (of_store e) end).
Definition clock_ms : prog Z := Clock (λ n, Ret n).
(** A swap that lost the race answers [false]; other errors are raised. *)
Definition try_swap (expected : Z) (c : RunControl) : prog bool :=
  Cas expected c (λ r, match r with
    | Ok _ => Ret true
    | Err StoreConflict => Ret false
    | Err e => Raise (of_store e)
    end).
(** [dataclasses.replace] runs [RunControl.__post_init__]. *)
Definition replaced (c : RunControl) : prog RunControl :=
  if control_ok c then Ret c else Raise LeaseValueError.

Section Methods.
Variable l : Lease.

Fixpoint enter_attempts (n : nat) : prog () :=
  match n with
  | O => Raise (StoreErr StoreConflict)
  | S n' =>
      current ← load;
      now ← clock_ms;
      if deadline_ms (input current) <=? now then Raise RunDeadlineReached
      else if bool_decide (owner_token current ≠ "") && (now <? lease_expires_ms current)
      then Raise (StoreErr StoreConflict)
      else
        updated ← replaced (with_lease (token l)
                     (Z.min (now + lease_ms l) (deadline_ms (input current))) current);
        won ← try_swap (revision current) updated;
        if (won : bool) then
          PutF (λ f, mkFields (failure f) (deadline_ms (input current)) (stop f)) (Ret ())
        else enter_attempts n'
  end.

Definition enter : prog () := enter_attempts 8.

Definition check_unlocked : prog RunControl :=
  GetF (λ f,
  _ ← (if known_deadline_ms f =? 0 then Ret ()
       else now ← clock_ms;
            if known_deadline_ms f <=? now then Raise RunDeadlineReached else Ret ());
  GetF (λ f,
  match failure f with
  | Some _ => Raise RunLeaseLost
  | None =>
      current ← load;
      now ← clock_ms;
      if deadline_ms (input current) <=? now then Raise RunDeadlineReached
      else if bool_decide (owner_token current ≠ token l) || (lease_expires_ms current <=? now)
      then Raise RunLeaseLost
      else Ret current
  end)).

Definition check : prog RunControl := check_unlocked.
Definition before_dispatch : prog () := _ ← check; Ret ().

Fixpoint update_attempts (transform : RunControl → res lease_error RunControl) (n : nat)
    : prog RunControl :=
  match n with
  | O => Raise RunLeaseLost
  | S n' =>
      current ← check_unlocked;
      match transform current with
      | Err e => Raise e
      | Ok c =>
          updated ← replaced (with_revision (revision current + 1) c);
          if bool_decide (owner_token updated ≠ token l) then Raise LeaseValueError
          else
            won ← try_swap (revision current) updated;
            if (won : bool) then Ret updated else update_attempts transform n'
      end
  end.

Definition update (transform : RunControl → res lease_error RunControl) : prog RunControl :=
  update_attempts transform 8.

Fixpoint renew_attempts (n : nat) : prog () :=
  match n with
  | O => Raise RunLeaseLost
  | S n' =>
      GetF (λ f,
      if stop f then Ret () else
      current ← check_unlocked;
      now ← clock_ms;
      updated ← replaced (with_lease (owner_token current)
                   (Z.min (now + lease_ms l) (deadline_ms (input current))) current);
      won ← try_swap (revision current) updated;
      if (won : bool) then Ret () else renew_attempts n')
  end.

Definition renew : prog () := renew_attempts 8.

(** One pass of the heartbeat loop: [_failure] is set on a lost lease. *)
Definition heartbeat_pass : prog () :=
  catch renew (λ e,
    match e with
    | StoreErr _ | RunLeaseLost | RunDeadlineReached =>
        PutF (λ f, mkFields (Some e) (known_deadline_ms f) (stop f)) (Ret ())
    | _ => Raise e
    end).

Fixpoint release_attempts (n : nat) : prog () :=
  match n with
  | O => Ret ()
  | S n' =>
      current ← load;
      if bool_decide (owner_token current ≠ token l) then Ret ()
      else
        updated ← replaced (with_lease "" 0 current);
        won ← try_swap (revision current) updated;
        if (won : bool) then Ret () else release_attempts n'
  end.

Definition exit : prog () :=
  PutF (λ f, mkFields (failure f) (known_deadline_ms f) true)
    (catch (release_attempts 8) (λ e,
       match e with StoreErr _ => Ret () | _ => Raise e end)).
End Methods.

(** ** The system: leases, their threads, the shared store and the clock *)

Definition drop {A} (p : prog A) : prog () := bind p (λ _, Ret ()).

Section System.
Variable input_digest : RunInput → string.
Variable id : string.
Variable lease_of : nat → Lease.
(** The transformations the controller passes to [update]. *)
Variable allowed : (RunControl → res lease_error RunControl) → Prop.

Inductive operation (l : Lease) : prog () → Prop :=
| op_enter : operation l (enter l)
| op_check : operation l (drop (check l))
| op_update f : allowed f → operation l (drop (update l f))
| op_heartbeat : operation l (heartbeat_pass l)
| op_exit : operation l (exit l).

(** A running method: whose it is, what the clock has shown it since it last
    read the record (newest first), and what it has left to do. *)
Record Thread := mkThread {
  th_lease : nat;
  th_seen : list Z;
  th_prog : prog ()
}.

Record Sys := mkSys {
  stored : option RunControl;
  clock : Z;
  fields : nat → Fields;
  threads : list Thread;
  history : list (Z * RunControl);    (* what was stored when, newest first *)
  writers : list (nat * list Z)       (* whose write it was, and the times it had seen *)
}.

Definition put_fields (fs : nat → Fields) (i : nat) (x : Fields) : nat → Fields :=
  λ j, if decide (i = j) then x else fs j.

Definition record (now : Z) (c : RunControl)
    (r : res store_error ()) (h : list (Z * RunControl)) : list (Z * RunControl) :=
  match r with Ok _ => (now, c) :: h | Err _ => h end.

Definition sign (i : nat) (T : list Z) (r : res store_error ()) (w : list (nat * list Z))
    : list (nat * list Z) :=
  match r with Ok _ => (i, T) :: w | Err _ => w end.

(** The store after a swap of thread [(i, T)] was answered with [r]. *)
Definition swapped (i : nat) (T : list Z) (c : RunControl) (s' : option RunControl)
    (r : res store_error ()) (σ : Sys) : Sys :=
  mkSys s' (clock σ) (fields σ) (threads σ)
    (record (clock σ) c r (history σ)) (sign i T r (writers σ)).

(** One action of a thread of lease [i] to which the clock has shown [T]. *)
Inductive act (i : nat) : list Z → prog () → Sys → list Z → prog () → Sys → Prop :=
| act_load T k σ c : stored σ = Some c → act i T (Load k) σ [] (k (Ok c)) σ
| act_load_fails T k σ e : act i T (Load k) σ T (k (Err e)) σ
| act_clock T k σ : act i T (Clock k) σ (clock σ :: T) (k (clock σ)) σ
| act_cas T e c k σ s' r :
    compare_and_swap input_digest id (stored σ) e c = (s', r) →
    act i T (Cas e c k) σ T (k r) (swapped i T c s' r σ)
| act_cas_fails T e c k σ : act i T (Cas e c k) σ T (k (Err StoreUnavailable)) σ
| act_cas_lost T e c k σ s' r :
    compare_and_swap input_digest id (stored σ) e c = (s', r) →
    act i T (Cas e c k) σ T (k (Err StoreUnavailable)) (swapped i T c s' r σ)
| act_get T k σ : act i T (GetF k) σ T (k (fields σ i)) σ
| act_put T g k σ :
    act i T (PutF g k) σ T k
      (mkSys (stored σ) (clock σ) (put_fields (fields σ) i (g (fields σ i))) (threads σ)
         (history σ) (writers σ)).

(** The thread at [j] is now [t]. *)
Definition put_thread (j : nat) (t : Thread) (σ : Sys) : Sys :=
  mkSys (stored σ) (clock σ) (fields σ) (<[j := t]> (threads σ)) (history σ) (writers σ).

Inductive step : Sys → Sys → Prop :=
| step_tick σ now :
    clock σ ≤ now →
    step σ (mkSys (stored σ) now (fields σ) (threads σ) (history σ) (writers σ))
| step_start σ i p :
    operation (lease_of i) p →
    step σ (mkSys (stored σ) (clock σ) (fields σ) (threads σ ++ [mkThread i [] p])
              (history σ) (writers σ))
| step_thread σ j i T p T' p' σ' :
    threads σ !! j = Some (mkThread i T p) → act i T p σ T' p' σ' →
    step σ (put_thread j (mkThread i T' p') σ').

Definition initial (c : RunControl) (now : Z) : Sys :=
  mkSys (Some c) now (λ _, fields0) [] [(now, c)] [].

Definition reachable (c : RunControl) (now : Z) (σ : Sys) : Prop :=
  rtc step (initial c now) σ.

(** ** The specification: ownership changes as atomic, guarded steps

    [T] is what the clock showed the writer between its reading of the record it
    replaces and its write, newest first: the guards are about these times. *)

Inductive atomic_step (l : Lease) (c : RunControl) : list Z → RunControl → Prop :=
| atomic_acquire now :
    now < deadline_ms (input c) →
    owner_token c = "" ∨ lease_expires_ms c ≤ now →
    atomic_step l c [now]
      (with_lease (token l) (Z.min (now + lease_ms l) (deadline_ms (input c))) c)
| atomic_renew seen now :
    seen < deadline_ms (input c) → seen < lease_expires_ms c →
    owner_token c = token l →
    atomic_step l c [now; seen]
      (with_lease (token l) (Z.min (now + lease_ms l) (deadline_ms (input c))) c)
| atomic_update seen f c' :
    seen < deadline_ms (input c) → seen < lease_expires_ms c →
    owner_token c = token l → allowed f → f c = Ok c' → owner_token c' = token l →
    atomic_step l c [seen] (with_revision (revision c + 1) c')
| atomic_release :
    owner_token c = token l → atomic_step l c [] (with_lease "" 0 c).
End System.

(** ** What a thread may still do

    [wp l p Q K T]: run from a point where [K] is the record read last and the
    clock has shown [T] since, every swap [p] attempts is one of the atomic
    steps on that record at those times, and every result satisfies [Q]. *)

Section Safety.
Variable input_digest : RunInput → string.
Variable id : string.
Variable lease_of : nat → Lease.
Variable allowed : (RunControl → res lease_error RunControl) → Prop.

Definition post (A : Type) : Type := option RunControl → list Z → res lease_error A → Prop.

Fixpoint wp {A} (l : Lease) (p : prog A) (Q : post A) (K : option RunControl) (T : list Z) : Prop :=
  match p with
  | Ret a => Q K T (Ok a)
  | Raise e => Q K T (Err e)
  | Load k => (∀ c, wp l (k (Ok c)) Q (Some c) []) ∧ ∀ e, wp l (k (Err e)) Q K T
  | Clock k => ∀ n, wp l (k n) Q K (n :: T)
  | Cas e c k =>
      (∃ cur, K = Some cur ∧ revision cur = e ∧ atomic_step allowed l cur T c) ∧
      ∀ r, wp l (k r) Q K T
  | GetF k => ∀ x, wp l (k x) Q K T
  | PutF _ k => wp l k Q K T
  end.

Lemma safe_mono {A} l (p : prog A) (Q Q' : post A) K T :
  wp l p Q K T → (∀ K' T' r, Q K' T' r → Q' K' T' r) → wp l p Q' K T.
Proof.
  intros H HQ. revert K T H. induction p; intros K T; cbn [wp]; try naive_solver.
Qed.

Lemma safe_bind {A B} l (m : prog A) (f : A → prog B) (Q : post B) K T :
  wp l m (λ K' T' r, match r with Ok a => wp l (f a) Q K' T' | Err e => Q K' T' (Err e) end) K T →
  wp l (m ≫= f) Q K T.
Proof.
  unfold mbind, prog_bind. revert K T. induction m; intros K T; cbn [wp bind]; try naive_solver.
Qed.

Lemma wp_catch {A} l (m : prog A) (h : lease_error → prog A) (Q : post A) K T :
  wp l m (λ K' T' r, match r with Ok a => Q K' T' (Ok a) | Err e => wp l (h e) Q K' T' end) K T →
  wp l (catch m h) Q K T.
Proof. revert K T. induction m; intros K T; cbn [wp catch]; try naive_solver. Qed.

Definition anything {A} : post A := λ _ _ _, True.

(** A result that is an error carries no obligation below. *)
Lemma wp_if {A} l (b : bool) (p q : prog A) Q K T :
  (b = true → wp l p Q K T) → (b = false → wp l q Q K T) → wp l (if b then p else q) Q K T.
Proof. destruct b; auto. Qed.

Lemma wp_load {B} l (f : RunControl → prog B) (Q : post B) K T :
  (∀ e, Q K T (Err e)) → (∀ c, wp l (f c) Q (Some c) []) → wp l (load ≫= f) Q K T.
Proof. intros He Hf. apply safe_bind. cbn. auto. Qed.

Lemma wp_clock {B} l (f : Z → prog B) (Q : post B) K T :
  (∀ n, wp l (f n) Q K (n :: T)) → wp l (clock_ms ≫= f) Q K T.
Proof. intros Hf. apply safe_bind. cbn. auto. Qed.

Lemma wp_replaced {B} l c (f : RunControl → prog B) (Q : post B) K T :
  (∀ e, Q K T (Err e)) → wp l (f c) Q K T → wp l (replaced c ≫= f) Q K T.
Proof. intros He Hf. apply safe_bind. unfold replaced. by destruct (control_ok c); cbn. Qed.

Lemma wp_swap {B} l cur c (f : bool → prog B) (Q : post B) K T :
  (∀ e, Q K T (Err e)) → K = Some cur → atomic_step allowed l cur T c →
  (∀ b, wp l (f b) Q K T) → wp l (try_swap (revision cur) c ≫= f) Q K T.
Proof.
  intros He Hin Hs Hf. apply safe_bind. cbn. split; [eauto|]. intros [[]|[]]; cbn; auto.
Qed.

(** ** Every method stays within the specification *)

Lemma wp_enter l K T : wp l (enter l) anything K T.
Proof.
  unfold enter. generalize 8%nat. intros n. revert K T.
  induction n as [|n IH]; intros K T; [done|]. cbn [enter_attempts].
  apply wp_load; [done|]. intros cur. apply wp_clock. intros now.
  apply wp_if; [done|]. intros Hd%Z.leb_gt. apply wp_if; [done|]. intros Ho.
  apply wp_replaced; [done|]. apply wp_swap; [done|done| |by intros []].
  apply atomic_acquire; [done|].
  apply andb_false_iff in Ho as [Ho|Ho%Z.ltb_ge]; [left|by right].
  apply bool_decide_eq_false in Ho. by apply dec_stable.
Qed.

(** What [_check_unlocked] establishes about the record it returns. *)
Definition owned (l : Lease) : post RunControl := λ K T r,
  match r with
  | Ok cur => K = Some cur ∧ owner_token cur = token l ∧
      ∃ seen, T = [seen] ∧ seen < deadline_ms (input cur) ∧ seen < lease_expires_ms cur
  | Err _ => True
  end.

Lemma wp_check_unlocked l K T : wp l (check_unlocked l) (owned l) K T.
Proof.
  unfold check_unlocked. cbn [wp]. intros f.
  assert (∀ K T, wp l (GetF (λ g, match failure g with
     | Some _ => Raise RunLeaseLost
     | None => current ← load; now ← clock_ms;
         if deadline_ms (input current) <=? now then Raise RunDeadlineReached
         else if bool_decide (owner_token current ≠ token l) || (lease_expires_ms current <=? now)
         then Raise RunLeaseLost else Ret current end)) (owned l) K T) as Hrest.
  { clear. intros K T g. destruct (failure g); [done|].
    apply wp_load; [done|]. intros cur. apply wp_clock. intros now.
    apply wp_if; [done|]. intros Hd%Z.leb_gt. apply wp_if; [done|].
    intros [Ho He%Z.leb_gt]%orb_false_iff.
    apply bool_decide_eq_false, dec_stable in Ho. split_and!; [done|done|].
    exists now. by split_and!. }
  apply safe_bind. destruct (known_deadline_ms f =? 0); [apply Hrest|].
  apply wp_clock. intros now. destruct (known_deadline_ms f <=? now); [done|apply Hrest].
Qed.

Lemma wp_owned {B} l (f : RunControl → prog B) (Q : post B) K T :
  (∀ K' T' e, Q K' T' (Err e)) →
  (∀ K' T' cur, owned l K' T' (Ok cur) → wp l (f cur) Q K' T') →
  wp l (check_unlocked l ≫= f) Q K T.
Proof.
  intros He Hf. apply safe_bind. eapply safe_mono; [apply wp_check_unlocked|].
  intros K' T' [cur|e]; auto.
Qed.

Lemma wp_update l f K T : allowed f → wp l (update l f) anything K T.
Proof.
  intros Hf. unfold update. generalize 8%nat. intros n. revert K T.
  induction n as [|n IH]; intros K T; [done|]. cbn [update_attempts].
  apply wp_owned; [done|]. intros K' T' cur (Hin & Ho & seen & -> & Hd & Hl).
  destruct (f cur) as [c'|e] eqn:Ef; [|done]. apply wp_replaced; [done|].
  apply wp_if; [done|]. intros Ht%bool_decide_eq_false%dec_stable.
  apply wp_swap; [done|done| |by intros []]. by eapply atomic_update.
Qed.

Lemma wp_renew l K T : wp l (renew l) anything K T.
Proof.
  unfold renew. generalize 8%nat. intros n. revert K T.
  induction n as [|n IH]; intros K T; [done|]. cbn [renew_attempts wp].
  intros f. apply wp_if; [done|]. intros _.
  apply wp_owned; [done|]. intros K' T' cur (Hin & Ho & seen & -> & Hd & Hl).
  apply wp_clock. intros now. apply wp_replaced; [done|].
  apply wp_swap; [done|done| |by intros []].
  rewrite Ho. by apply atomic_renew.
Qed.

Lemma wp_exit l K T : wp l (exit l) anything K T.
Proof.
  unfold exit. cbn [wp]. apply wp_catch.
  eapply (safe_mono _ _ anything); [|by intros K' T' [?|[]]].
  generalize 8%nat. intros n. revert K T.
  induction n as [|n IH]; intros K T; [done|]. cbn [release_attempts].
  apply wp_load; [done|]. intros cur. apply wp_if; [done|].
  intros Ho%bool_decide_eq_false%dec_stable. apply wp_replaced; [done|].
  apply wp_swap; [done|done| |by intros []]. by apply atomic_release.
Qed.

Lemma wp_drop {A} l (p : prog A) (Q : post A) K T : wp l p Q K T → wp l (drop p) anything K T.
Proof.
  intros H. apply (safe_bind l p (λ _, Ret ())). eapply safe_mono; [exact H|]. by intros K' T' [].
Qed.

Lemma wp_operation l p : operation allowed l p → wp l p anything None [].
Proof.
  intros []; [apply wp_enter|by eapply wp_drop, wp_check_unlocked|
    by eapply wp_drop, wp_update| |apply wp_exit].
  unfold heartbeat_pass. apply wp_catch.
  eapply (safe_mono _ _ anything); [apply wp_renew|]. by intros K' T' [?|[]].
Qed.

(** ** The invariant of the system *)

(** A stored record, the one that replaced it and whose write that was. *)
Definition link (old new : Z * RunControl) (by_ : nat * list Z) : Prop :=
  revision new.2 = revision old.2 + 1 ∧
  input_digest (input new.2) = input_digest (input old.2) ∧
  run_id new.2 = id ∧ old.1 ≤ new.1 ∧
  Forall (λ t, old.1 ≤ t ∧ t ≤ new.1) by_.2 ∧
  atomic_step allowed (lease_of by_.1) old.2 by_.2 new.2.

Definition linked (h : list (Z * RunControl)) (w : list (nat * list Z)) : Prop :=
  length h = S (length w) ∧
  ∀ k old new by_, h !! S k = Some old → h !! k = Some new → w !! k = Some by_ → link old new by_.

(** What a thread has seen is true: the record it read was stored, and the
    times it has seen since lie between that write and now. *)
Definition thread_ok (σ : Sys) (t : Thread) : Prop :=
  ∃ K, (∀ c, K = Some c → ∃ t0, (t0, c) ∈ history σ ∧ Forall (λ s, t0 ≤ s) (th_seen t)) ∧
       Forall (λ s, s ≤ clock σ) (th_seen t) ∧
       wp (lease_of (th_lease t)) (th_prog t) anything K (th_seen t).

Record inv (σ : Sys) : Prop := {
  inv_head : ∃ t c h, history σ = (t, c) :: h ∧ stored σ = Some c ∧ t ≤ clock σ;
  inv_linked : linked (history σ) (writers σ);
  inv_threads : Forall (thread_ok σ) (threads σ)
}.

(** Writes and writers correspond. *)
Lemma linked_link h w k old new :
  linked h w → h !! S k = Some old → h !! k = Some new →
  ∃ by_, w !! k = Some by_ ∧ link old new by_.
Proof.
  intros [Hlen Hl] Ho Hn. apply lookup_lt_Some in Ho as Hk.
  destruct (lookup_lt_is_Some_2 w k) as [by_ Hb]; [lia|]. eauto.
Qed.

Lemma linked_tail x y h w : linked (x :: y :: h) w → ∃ by_ w', w = by_ :: w' ∧ linked (y :: h) w'.
Proof.
  intros [Hlen Hl]. destruct w as [|by_ w]; [done|]. exists by_, w. split; [done|].
  split; [cbn in *; lia|]. intros k old new b Ho Hn Hb. by apply (Hl (S k)).
Qed.

(** Revisions decrease along the history, so one revision names one write. *)
Lemma linked_revision t c h w t' c' :
  linked ((t, c) :: h) w → (t', c') ∈ h → revision c' < revision c.
Proof.
  revert t c w. induction h as [|[t1 c1] h IH]; intros t c w Hl Hin; [by apply elem_of_nil in Hin|].
  destruct (linked_link _ _ 0 (t1, c1) (t, c) Hl eq_refl eq_refl) as (b & _ & Hr & _). simpl in Hr.
  apply elem_of_cons in Hin as [[= -> ->]|Hin]; [lia|].
  enough (revision c' < revision c1) by lia.
  destruct (linked_tail _ _ _ _ Hl) as (b' & w' & _ & Hl'). by eapply IH.
Qed.

Lemma linked_unique t c h w t' c' :
  linked ((t, c) :: h) w → (t', c') ∈ (t, c) :: h → revision c' = revision c → t' = t ∧ c' = c.
Proof.
  intros Hl Hin Hr. apply elem_of_cons in Hin as [[= -> ->]|Hin]; [done|].
  pose proof (linked_revision _ _ _ _ _ _ Hl Hin). lia.
Qed.

Lemma linked_cons t c h w new by_ :
  linked ((t, c) :: h) w → link (t, c) new by_ → linked (new :: (t, c) :: h) (by_ :: w).
Proof.
  intros [Hlen Hl] Hk. split; [cbn in *; lia|]. intros [|k] old new' b Ho Hn Hb; [|by eapply Hl].
  simpl in Ho, Hn, Hb. injection Ho as <-. injection Hn as <-. by injection Hb as <-.
Qed.

(** Growing the history and the clock keeps every thread's knowledge true. *)
Lemma thread_ok_grow σ σ' t :
  (∀ x, x ∈ history σ → x ∈ history σ') → clock σ ≤ clock σ' →
  thread_ok σ t → thread_ok σ' t.
Proof.
  intros Hh Hc (K & HK & HT & Hwp). exists K.
  split_and!; [naive_solver|eapply Forall_impl; [done|]; cbn; lia|done].
Qed.

(** The effect of a swap on store and history, whether or not its caller hears of it. *)
Lemma swap_history σ i e c s' r K T :
  inv σ → (∀ c, K = Some c → ∃ t0, (t0, c) ∈ history σ ∧ Forall (λ s, t0 ≤ s) T) →
  Forall (λ t, t ≤ clock σ) T →
  (∃ cur, K = Some cur ∧ revision cur = e ∧ atomic_step allowed (lease_of i) cur T c) →
  compare_and_swap input_digest id (stored σ) e c = (s', r) →
  let σ' := swapped i T c s' r σ in
  linked (history σ') (writers σ') ∧
  (∃ t c0 h0, history σ' = (t, c0) :: h0 ∧ stored σ' = Some c0 ∧ t ≤ clock σ') ∧
  ∀ x, x ∈ history σ → x ∈ history σ'.
Proof.
  intros [(t & c1 & h & Hh & Hs & Ht) Hl _] HK HT (cur & Hin & He & Hstep) Hcas.
  unfold swapped. cbn.
  apply compare_and_swap_inv in Hcas as [[-> Hr]|(cur' & Hcur & -> & -> & Hre & Hrc & Hid & _ & Hd & _)].
  - assert (record (clock σ) c r (history σ) = history σ ∧ sign i T r (writers σ) = writers σ)
      as [-> ->] by (destruct r as [[]|]; done).
    split_and!; [done|by eexists _, _, _|done].
  - cbn [record sign]. rewrite Hs in Hcur. injection Hcur as <-.
    destruct (HK _ Hin) as (t0 & Hin0 & HT0). rewrite Hh in Hin0, Hl |- *.
    destruct (linked_unique _ _ _ _ _ _ Hl Hin0) as [-> ->]; [congruence|].
    split_and!; [apply linked_cons; [done|]|by eexists _, _, _|by right].
    unfold link. cbn [fst snd]. split_and!; [lia|done|done|done| |done].
    apply Forall_and. by split.
Qed.

(** What was ever stored was stored by now. *)
Lemma linked_times h w t c t0 c0 :
  linked ((t, c) :: h) w → (t0, c0) ∈ (t, c) :: h → t0 ≤ t.
Proof.
  revert t c w. induction h as [|[t1 c1] h IH]; intros t c w Hl Hin.
  { apply list_elem_of_singleton in Hin. by injection Hin as <- _. }
  apply elem_of_cons in Hin as [[= <- _]|Hin]; [done|].
  destruct (linked_link _ _ 0 (t1, c1) (t, c) Hl eq_refl eq_refl) as (b & _ & _ & _ & _ & Ht & _).
  destruct (linked_tail _ _ _ _ Hl) as (b' & w' & _ & Hl'). cbn in Ht.
  specialize (IH _ _ _ Hl' Hin). lia.
Qed.

Lemma inv_time σ t0 c0 : inv σ → (t0, c0) ∈ history σ → t0 ≤ clock σ.
Proof.
  intros [(t & c & h & Hh & _ & Ht) Hl _] Hin. rewrite Hh in Hl, Hin.
  pose proof (linked_times _ _ _ _ _ _ Hl Hin). lia.
Qed.

Lemma thread_ok_lookup σ j t : Forall (thread_ok σ) (threads σ) → threads σ !! j = Some t → thread_ok σ t.
Proof. rewrite Forall_lookup. eauto. Qed.

Lemma act_inv σ i T p T' p' σ' :
  act input_digest id i T p σ T' p' σ' → inv σ → thread_ok σ (mkThread i T p) →
  inv σ' ∧ threads σ' = threads σ ∧ thread_ok σ' (mkThread i T' p').
Proof.
  intros Hact Hinv (K & HK & HT & Hwp).
  pose proof Hinv as [Hhead Hlink Hth]. cbn [th_lease th_seen th_prog] in HK, HT, Hwp.
  assert (∀ e c k s' r r', wp (lease_of i) (Cas e c k) anything K T →
    compare_and_swap input_digest id (stored σ) e c = (s', r) →
    let σ1 := swapped i T c s' r σ in
    inv σ1 ∧ threads σ1 = threads σ ∧ thread_ok σ1 (mkThread i T (k r'))) as Hswap.
  { intros e c k s' r r' [Hcur Hk] Hcas σ1.
    destruct (swap_history σ i e c s' r K T Hinv HK HT Hcur Hcas) as (Hl' & Hh' & Hgrow).
    split_and!; [|done|].
    - split; [done|done|]. eapply Forall_impl; [exact Hth|]. intros t.
      by apply thread_ok_grow.
    - exists K. split_and!; [|done|apply Hk]. intros c1 Hc1.
      destruct (HK c1 Hc1) as (t0 & Hin & Ht0). exists t0. split; [by apply Hgrow|done]. }
  inversion Hact; subst; cbn [wp] in Hwp.
  - split_and!; [done|done|]. exists (Some c). split_and!; [|constructor|apply Hwp].
    intros c0 [= <-]. destruct Hhead as (t & c1 & h & -> & Hs & _).
    rewrite Hs in *. simplify_eq. exists t. split; [left|constructor].
  - split_and!; [done|done|]. exists K. split_and!; [done|done|apply Hwp].
  - split_and!; [done|done|]. exists K. split_and!; [|by constructor|apply Hwp].
    intros c1 Hc1. destruct (HK c1 Hc1) as (t0 & Hin & Ht0). exists t0. split; [done|].
    constructor; [|done]. by eapply inv_time.
  - by eapply Hswap.
  - split_and!; [done|done|]. exists K. split_and!; [done|done|apply Hwp].
  - by eapply Hswap.
  - split_and!; [done|done|]. exists K. split_and!; [done|done|apply Hwp].
  - split_and!; [|done|by exists K].
    split; [done|done|]. eapply Forall_impl; [exact Hth|]. intros t. by apply thread_ok_grow.
Qed.

Lemma step_inv σ σ' : step input_digest id lease_of allowed σ σ' → inv σ → inv σ'.
Proof.
  intros Hstep Hinv. pose proof Hinv as [Hhead Hlink Hth].
  inversion Hstep as [σ0 now Hnow|σ0 i p Hop|σ0 j i T p T' p' σ1 Hj Hact]; subst.
  - split; cbn; [|done|].
    + destruct Hhead as (t & c & h & ? & ? & ?). exists t, c, h. split_and!; [done|done|lia].
    + eapply Forall_impl; [exact Hth|]. intros t. by apply thread_ok_grow.
  - split; cbn; [done|done|]. apply Forall_app. split.
    + eapply Forall_impl; [exact Hth|]. intros t. by apply thread_ok_grow.
    + constructor; [|done]. exists None. split_and!; [done|constructor|by apply wp_operation].
  - destruct (act_inv _ _ _ _ _ _ _ Hact Hinv (thread_ok_lookup _ _ _ Hth Hj))
      as ([Hhead' Hlink' Hth'] & _ & Hok).
    split; cbn; [done|done|]. apply Forall_insert; [|exact Hok].
    eapply Forall_impl; [exact Hth'|]. intros t. by apply thread_ok_grow.
Qed.

Lemma reachable_inv c now σ : reachable input_digest id lease_of allowed c now σ → inv σ.
Proof.
  intros Hr. unfold reachable in Hr. remember (initial c now) as σ0 eqn:E.
  assert (inv σ0) as Hi.
  { subst. split; cbn; [by eexists _, _, _| |constructor].
    split; [done|]. intros k old new b Hk. by destruct k. }
  clear E. induction Hr as [|σ1 σ2 σ3 Hs _ IH]; [done|]. by apply IH, (step_inv _ _ Hs).
Qed.
End Safety.

(** ** One controller alone

    [exec] runs a method to its end on a store nobody else writes, at a fixed
    time. *)
Section Alone.
Variable input_digest : RunInput → string.
Variable id : string.

Fixpoint exec {A} (now : Z) (p : prog A) (s : option RunControl) (f : Fields)
    : option RunControl * Fields * res lease_error A :=
  match p with
  | Ret a => (s, f, Ok a)
  | Raise e => (s, f, Err e)
  | Load k => exec now (k (match s with Some c => Ok c | None => Err RunNotFound end)) s f
  | Clock k => exec now (k now) s f
  | Cas e c k =>
      let '(s', r) := compare_and_swap input_digest id s e c in exec now (k r) s' f
  | GetF k => exec now (k f) s f
  | PutF g k => exec now k s (g f)
  end.

Lemma exec_bind {A B} now (m : prog A) (g : A → prog B) s f :
  exec now (m ≫= g) s f =
  match exec now m s f with
  | (s', f', Ok a) => exec now (g a) s' f'
  | (s', f', Err e) => (s', f', Err e)
  end.
Proof.
  unfold mbind, prog_bind. revert s f. induction m; intros s0 f0; cbn [exec bind]; try done.
  destruct (compare_and_swap input_digest id s0 expected c) as [s' r]. apply H.
Qed.

(** A handler is not run when nothing is raised. *)
Lemma exec_catch {A} now (p : prog A) h s f s' f' a :
  exec now p s f = (s', f', Ok a) → exec now (catch p h) s f = (s', f', Ok a).
Proof.
  revert s f. induction p; intros s0 f0; cbn [exec catch]; intros Hrun; try done; eauto.
  destruct (compare_and_swap input_digest id s0 expected c) as [s1 r]. eauto.
Qed.

Lemma bound_string_refl x : bound_string x x = true.
Proof. unfold bound_string. by rewrite (bool_decide_eq_true_2 (x = x)), orb_true_r by done. Qed.
Lemma bound_ref_refl x : bound_ref x x = true.
Proof. unfold bound_ref. by rewrite (bool_decide_eq_true_2 (x = x)), orb_true_r by done. Qed.

(** A swap that changes no bound field is accepted by an unchanged store. *)
Definition keeps_bound (c c' : RunControl) : Prop :=
  input c' = input c ∧ backend_identity c' = backend_identity c ∧
  controller_input c' = controller_input c ∧
  controller_launch_digest c' = controller_launch_digest c ∧
  submission_token c' = submission_token c.

Lemma swap_alone c c' :
  run_id c = id → revision c' = revision c + 1 → keeps_bound c c' →
  compare_and_swap input_digest id (Some c) (revision c) c' = (Some c', Ok ()).
Proof.
  intros Hid Hr (Hi & Hb & Hc & Hd & Hs).
  unfold compare_and_swap, validate_run_update, run_id in *.
  rewrite Hi, Hid, Hr, Hb, Hc, Hd, Hs, !Z.eqb_refl, !bound_string_refl, bound_ref_refl.
  by rewrite !bool_decide_eq_false_2 by (intros H; by apply H).
Qed.

Lemma exec_try_swap now c c' f :
  run_id c = id → revision c' = revision c + 1 → keeps_bound c c' →
  exec now (try_swap (revision c) c') (Some c) f = (Some c', f, Ok true).
Proof. intros. unfold try_swap. cbn [exec]. by rewrite swap_alone. Qed.

Lemma exec_check now l c f :
  (known_deadline_ms f = 0 ∨ known_deadline_ms f = deadline_ms (input c)) → failure f = None →
  exec now (check_unlocked l) (Some c) f =
    (Some c, f,
     if deadline_ms (input c) <=? now then Err RunDeadlineReached
     else if bool_decide (owner_token c ≠ token l) || (lease_expires_ms c <=? now)
     then Err RunLeaseLost else Ok c).
Proof.
  intros Hk Hf. unfold check_unlocked. cbn [exec].
  rewrite exec_bind. destruct (Z.eqb_spec (known_deadline_ms f) 0) as [E|E].
  - cbn [exec]. rewrite Hf. cbn.
    destruct (Z.leb_spec (deadline_ms (input c)) now); [done|].
    by destruct (bool_decide _ || _).
  - destruct Hk as [|Hk]; [done|]. rewrite exec_bind. cbn [exec clock_ms].
    rewrite Hk. destruct (Z.leb_spec (deadline_ms (input c)) now); cbn [exec]; [done|].
    rewrite Hf. cbn. destruct (Z.leb_spec (deadline_ms (input c)) now); [lia|].
    by destruct (bool_decide _ || _).
Qed.

Lemma exec_replaced now c s f :
  control_ok c = true → exec now (replaced c) s f = (s, f, Ok c).
Proof. intros Hc. unfold replaced. by rewrite Hc. Qed.

Definition expiry (l : Lease) (now : Z) (c : RunControl) : Z :=
  Z.min (now + lease_ms l) (deadline_ms (input c)).

Definition entered (l : Lease) (now : Z) (c : RunControl) : RunControl :=
  with_lease (token l) (expiry l now c) c.

Lemma control_ok_lease c owner e :
  control_ok c = true → 0 ≤ e → control_ok (with_lease owner e c) = true.
Proof.
  unfold control_ok. cbn. rewrite !andb_true_iff, !negb_true_iff, !orb_false_iff, !Z.ltb_ge.
  intros [[[] ] ?] ?. split_and!; [lia|lia|done|done].
Qed.

(** [__enter__] on every branch. *)
Lemma exec_enter now l c f :
  control_ok c = true → run_id c = id → 0 ≤ now → 0 ≤ lease_ms l →
  exec now (enter l) (Some c) f =
    if deadline_ms (input c) <=? now then (Some c, f, Err RunDeadlineReached)
    else if bool_decide (owner_token c ≠ "") && (now <? lease_expires_ms c)
    then (Some c, f, Err (StoreErr StoreConflict))
    else (Some (entered l now c), mkFields (failure f) (deadline_ms (input c)) (stop f), Ok ()).
Proof.
  intros Hc Hid Hn Hl. unfold enter. cbn [enter_attempts]. rewrite exec_bind. cbn [exec load].
  rewrite exec_bind. cbn [exec clock_ms].
  destruct (Z.leb_spec (deadline_ms (input c)) now); [done|].
  destruct (bool_decide (owner_token c ≠ "") && (now <? lease_expires_ms c)); [done|].
  rewrite exec_bind, exec_replaced by (apply control_ok_lease; [done|lia]).
  rewrite exec_bind, exec_try_swap; [done|done|done|]. by split_and!.
Qed.

Lemma exec_update now l g c c' f :
  (known_deadline_ms f = 0 ∨ known_deadline_ms f = deadline_ms (input c)) → failure f = None →
  run_id c = id → now < deadline_ms (input c) → owner_token c = token l → now < lease_expires_ms c →
  g c = Ok c' → control_ok (with_revision (revision c + 1) c') = true →
  owner_token c' = token l → keeps_bound c c' →
  exec now (update l g) (Some c) f =
    (Some (with_revision (revision c + 1) c'), f, Ok (with_revision (revision c + 1) c')).
Proof.
  intros Hk Hf Hid Hd Ho He Hg Hok Ho' Hb. unfold update. cbn [update_attempts].
  rewrite exec_bind, exec_check by done.
  destruct (Z.leb_spec (deadline_ms (input c)) now); [lia|].
  destruct (Z.leb_spec (lease_expires_ms c) now); [lia|].
  rewrite (bool_decide_eq_false_2 (owner_token c ≠ token l)) by (intros H'; by apply H').
  cbn [orb]. rewrite Hg, exec_bind, exec_replaced by done.
  rewrite bool_decide_eq_false_2 by (intros H'; by apply H').
  rewrite exec_bind, exec_try_swap; [done|done|done|exact Hb].
Qed.

(** [__exit__] gives the run back if it is still owned, and leaves it alone if not. *)
Lemma exec_exit now l c f :
  control_ok c = true → run_id c = id →
  exec now (exit l) (Some c) f =
    (Some (if bool_decide (owner_token c = token l) then with_lease "" 0 c else c),
     mkFields (failure f) (known_deadline_ms f) true, Ok ()).
Proof.
  intros Hc Hid. unfold exit. cbn [exec].
  set (f' := mkFields _ _ _).
  assert (exec now (release_attempts l 8) (Some c) f' =
    (Some (if bool_decide (owner_token c = token l) then with_lease "" 0 c else c), f', Ok ())) as Hrel.
  { cbn [release_attempts]. rewrite exec_bind. cbn [exec load].
    destruct (decide (owner_token c = token l)) as [E|E].
    - rewrite bool_decide_eq_false_2, bool_decide_eq_true_2 by (try done; by intros H; apply H).
      rewrite exec_bind, exec_replaced by (by apply control_ok_lease).
      rewrite exec_bind, exec_try_swap; [done|done|done|by split_and!].
    - by rewrite bool_decide_eq_true_2, bool_decide_eq_false_2. }
  by apply exec_catch.
Qed.
End Alone.

(** ** Properties *)

(** C6: under every interleaving of any number of leases, their user threads
    and heartbeats, every record ever stored came from the one stored just
    before it by one atomic step of the specification, by the lease whose
    thread wrote it: acquiring a free or expired run, renewing, updating or
    releasing an owned one.  The guard of the step held of the record it
    replaced at the very times the clock showed that thread between its last
    reading of the record and its write: each of them is no earlier than the
    write of the record replaced and no later than the step's own, and a
    renewal, an update or an acquisition that saw the deadline or the expiry
    pass is never written.  The revision went up by exactly one and the request
    stayed the same, so no update is lost. *)
Theorem lease_refines_atomic_steps input_digest id lease_of allowed c0 now0 σ k t1 c1 t2 c2 :
  reachable input_digest id lease_of allowed c0 now0 σ →
  history σ !! S k = Some (t1, c1) → history σ !! k = Some (t2, c2) →
  revision c2 = revision c1 + 1 ∧ input_digest (input c2) = input_digest (input c1) ∧ t1 ≤ t2 ∧
  ∃ i seen, writers σ !! k = Some (i, seen) ∧ (∀ t, t ∈ seen → t1 ≤ t ∧ t ≤ t2) ∧
    atomic_step allowed (lease_of i) c1 seen c2.
Proof.
  intros Hr H1 H2. destruct (reachable_inv _ _ _ _ _ _ _ Hr) as [_ Hl _].
  destruct (linked_link _ _ _ _ _ _ _ _ _ Hl H1 H2) as ([i T] & Hw & Hrev & Hd & _ & Ht & HT & Hs).
  cbn in *. split_and!; [done|done|done|]. exists i, T.
  split_and!; [done| |done]. by apply Forall_forall.
Qed.

(** C7: ownership is exclusive.  In every reachable state, a record's owner is
    replaced by another only once its lease has run out at the time of the
    write, or when the owner itself gave the run back. *)
Theorem lease_exclusive input_digest id lease_of allowed c0 now0 σ k t1 c1 t2 c2 :
  reachable input_digest id lease_of allowed c0 now0 σ →
  history σ !! S k = Some (t1, c1) → history σ !! k = Some (t2, c2) →
  owner_token c1 ≠ "" → owner_token c2 ≠ owner_token c1 →
  lease_expires_ms c1 ≤ t2 ∨
  (c2 = with_lease "" 0 c1 ∧ ∃ i, owner_token c1 = token (lease_of i)).
Proof.
  intros Hr H1 H2 Ho Hne. destruct (reachable_inv _ _ _ _ _ _ _ Hr) as [_ Hl _].
  destruct (linked_link _ _ _ _ _ _ _ _ _ Hl H1 H2) as ([i T] & _ & _ & _ & _ & _ & HT & Hs).
  cbn in *. rewrite Forall_forall in HT.
  destruct Hs as [now _ [?|He]|seen now _ _ Hown|seen f c' _ _ Hown _ _ Hown'|Hown].
  - done.
  - left. specialize (HT now ltac:(by left)). lia.
  - cbn in Hne. congruence.
  - cbn in Hne. congruence.
  - right. split; [done|eauto].
Qed.

(** If updates leave the request and the expiry alone, every stored record
    of the run carries the same request, and no lease outlives its deadline. *)
Theorem lease_bounded_by_deadline input_digest id lease_of allowed c0 now0 σ t c :
  reachable input_digest id lease_of allowed c0 now0 σ →
  (∀ f x y, allowed f → f x = Ok y → input y = input x ∧ lease_expires_ms y = lease_expires_ms x) →
  0 ≤ deadline_ms (input c0) → lease_expires_ms c0 ≤ deadline_ms (input c0) →
  (t, c) ∈ history σ →
  input c = input c0 ∧ lease_expires_ms c ≤ deadline_ms (input c0).
Proof.
  intros Hr Hf Hd0 He0 Hin.
  assert (last (history σ) = Some (now0, c0)) as Hlast.
  { unfold reachable in Hr. remember (initial c0 now0) as σ0 eqn:E.
    assert (last (history σ0) = Some (now0, c0)) as Hσ by by subst.
    assert (inv input_digest id lease_of allowed σ0) as Hi
      by (subst; eapply reachable_inv; apply rtc_refl).
    clear E Hin. induction Hr as [σ1|σ1 σ2 σ3 Hs _ IH]; [done|].
    apply IH; [|by eapply step_inv]. destruct Hi as [(? & ? & h & Hh & _) _ _].
    assert (∀ x, last (x :: history σ1) = Some (now0, c0)) as Hc by (intros z; by rewrite Hh in Hσ |- *).
    inversion Hs as [| |? ? ? ? ? ? ? ? ? Hact]; subst; cbn [history]; try done.
    inversion Hact; subst; cbn; try done;
      match goal with |- context [record _ _ ?r _] => destruct r; cbn [record]; (apply Hc || done) end. }
  destruct (reachable_inv _ _ _ _ _ _ _ Hr) as [_ Hl _]. clear Hr. revert t c Hin.
  generalize dependent (writers σ).
  induction (history σ) as [|[t2 c2] h IH]; intros w Hl t c Hin; [by apply elem_of_nil in Hin|].
  destruct h as [|[t1 c1] h].
  { apply list_elem_of_singleton in Hin. cbn in Hlast. simplify_eq. done. }
  destruct (linked_tail _ _ _ _ _ _ _ _ Hl) as (b & w' & _ & Hl').
  specialize (IH Hlast w' Hl'). apply elem_of_cons in Hin as [[= -> ->]|Hin]; [|by eapply IH].
  destruct (IH t1 c1) as [Hi He]; [by left|].
  destruct (linked_link _ _ _ _ _ _ 0%nat (t1, c1) (t2, c2) Hl eq_refl eq_refl)
    as (b' & _ & _ & _ & _ & _ & _ & Hs).
  cbn in Hs. destruct Hs as [| |seen f c' _ _ _ Ha Hfc _|]; cbn; rewrite ?Hi; try (split; [done|lia]).
  destruct (Hf _ _ _ Ha Hfc). split; [congruence|lia].
Qed.

(** Alone on a free run before its deadline, a controller acquires it,
    each update is stored and returned, and leaving gives the run back: three
    writes, three revisions.  On a run that is taken, or past its deadline,
    entering raises and writes nothing. *)
Theorem lease_lifecycle input_digest id now l g c c' :
  control_ok c = true → run_id c = id → 0 ≤ now → 30 ≤ lease_ms l →
  g (entered l now c) = Ok c' → keeps_bound (entered l now c) c' →
  owner_token c' = token l → control_ok (with_revision (revision c + 2) c') = true →
  let u := with_revision (revision c + 2) c' in
  exec input_digest id now (_ ← enter l; u ← update l g; _ ← exit l; Ret u) (Some c) fields0 =
    if deadline_ms (input c) <=? now then (Some c, fields0, Err RunDeadlineReached)
    else if bool_decide (owner_token c ≠ "") && (now <? lease_expires_ms c)
    then (Some c, fields0, Err (StoreErr StoreConflict))
    else (Some (with_lease "" 0 u), mkFields None (deadline_ms (input c)) true, Ok u).
Proof.
  intros Hc Hid Hn Hl Hg Hb Ho Hok u.
  rewrite exec_bind, exec_enter by (done || lia).
  destruct (Z.leb_spec (deadline_ms (input c)) now) as [|Hd]; [done|].
  destruct (bool_decide (owner_token c ≠ "") && (now <? lease_expires_ms c)); [done|].
  assert (revision (entered l now c) + 1 = revision c + 2) as Hrev by (cbn; lia).
  rewrite exec_bind, (exec_update _ _ now l g (entered l now c) c').
  - rewrite exec_bind, exec_exit.
    + rewrite Hrev. rewrite bool_decide_eq_true_2 by done. done.
    + by rewrite Hrev.
    + rewrite <- Hid. unfold run_id. cbn. by rewrite (proj1 Hb).
  - by right.
  - done.
  - done.
  - done.
  - done.
  - cbn. unfold expiry. lia.
  - done.
  - by rewrite Hrev.
  - done.
  - done.
Qed.

(** ** A concrete contention *)

Definition demo_input : RunInput :=
  mkRunInput "run-1" LocalProfile "cutracer-1.0" 10000 "{}" "{}" "{}" 4 "" (mkRunOutput ReturnOnly "").

Definition demo_control : RunControl :=
  mkControl 0 demo_input "" 0 0 "" "" None "" NotSubmitted "" None "" "".

Definition demo_digest (r : RunInput) : string := ri_run_id r.
Definition demo_lease (i : nat) : Lease := mkLease (if decide (i = 0%nat) then "A" else "B") 100.
Definition no_updates (f : RunControl → res lease_error RunControl) : Prop := False.

(** Lease A takes the run at time 5; B reads it at 200, when A's lease is over. *)
Definition acquired_A : RunControl := with_lease "A" 105 demo_control.
Definition acquired_B : RunControl := with_lease "B" 300 acquired_A.

(** *** Executing a schedule *)

Inductive op_name := OpEnter | OpCheck | OpHeartbeat | OpExit.
Inductive event := Tick (now : Z) | Start (i : nat) (o : op_name) | Run (j : nat).

Definition op_prog (l : Lease) (o : op_name) : prog () :=
  match o with
  | OpEnter => enter l
  | OpCheck => drop (check l)
  | OpHeartbeat => heartbeat_pass l
  | OpExit => exit l
  end.

(** One action of thread [j], with a store that never fails. *)
Definition run_thread (id : string) (σ : Sys) (j : nat) : Sys :=
  match threads σ !! j with
  | None => σ
  | Some (mkThread i T p) =>
      match p with
      | Ret _ | Raise _ => σ
      | Load k =>
          match stored σ with
          | Some c => put_thread j (mkThread i [] (k (Ok c))) σ
          | None => put_thread j (mkThread i T (k (Err RunNotFound))) σ
          end
      | Clock k => put_thread j (mkThread i (clock σ :: T) (k (clock σ))) σ
      | Cas e c k =>
          let '(s', r) := compare_and_swap demo_digest id (stored σ) e c in
          put_thread j (mkThread i T (k r)) (swapped i T c s' r σ)
      | GetF k => put_thread j (mkThread i T (k (fields σ i))) σ
      | PutF g k =>
          put_thread j (mkThread i T k)
            (mkSys (stored σ) (clock σ) (put_fields (fields σ) i (g (fields σ i)))
               (threads σ) (history σ) (writers σ))
      end
  end.

Definition run_event (lease_of : nat → Lease) (id : string) (σ : Sys) (e : event) : Sys :=
  match e with
  | Tick now => mkSys (stored σ) (Z.max (clock σ) now) (fields σ) (threads σ) (history σ) (writers σ)
  | Start i o =>
      mkSys (stored σ) (clock σ) (fields σ) (threads σ ++ [mkThread i [] (op_prog (lease_of i) o)])
        (history σ) (writers σ)
  | Run j => run_thread id σ j
  end.

Lemma run_event_step lease_of id allowed σ e :
  rtc (step demo_digest id lease_of allowed) σ (run_event lease_of id σ e).
Proof.
  destruct e as [now|i o|j]; cbn [run_event].
  - apply rtc_once, step_tick. lia.
  - apply rtc_once, step_start. destruct o; constructor.
  - unfold run_thread. destruct (threads σ !! j) as [[i T p]|] eqn:Hj; [|done].
    assert (∀ T' p' σ', act demo_digest id i T p σ T' p' σ' →
      rtc (step demo_digest id lease_of allowed) σ (put_thread j (mkThread i T' p') σ')) as Hrun
      by (intros T' p' σ' Hact; apply rtc_once; by eapply step_thread).
    destruct p as [a|e|k|k|e c k|k|g k]; try done.
    + destruct (stored σ) as [c|] eqn:Hs; apply Hrun; [by apply act_load|apply act_load_fails].
    + apply Hrun, act_clock.
    + destruct (compare_and_swap _ _ _ _ _) as [s' r] eqn:Hc. by apply Hrun, act_cas.
    + apply Hrun, act_get.
    + apply Hrun, act_put.
Qed.

Lemma schedule_reachable lease_of id allowed c now es :
  reachable demo_digest id lease_of allowed c now
    (fold_left (run_event lease_of id) es (initial c now)).
Proof.
  unfold reachable. generalize (initial c now) as σ. induction es as [|e es IH]; intros σ; [done|].
  cbn [fold_left]. etrans; [apply run_event_step|apply IH].
Qed.

(** A and B both read the free run; A's swap wins and B's loses.  B tries again
    at 200, when A's lease is over, and takes the run. *)
Definition demo_schedule : list event :=
  [Start 0 OpEnter; Start 1 OpEnter; Run 0; Run 1; Tick 5; Run 0; Run 1; Run 0; Run 1;
   Tick 200; Run 1; Run 1; Run 1].

Definition demo_system : Sys :=
  fold_left (run_event demo_lease "run-1") demo_schedule (initial demo_control 0).

Example demo_history :
  history demo_system = [(200, acquired_B); (5, acquired_A); (0, demo_control)].
Proof. vm_compute. reflexivity. Qed.

Lemma demo_reachable : reachable demo_digest "run-1" demo_lease no_updates demo_control 0 demo_system.
Proof. apply schedule_reachable. Qed.

(** B acquired the run on the strength of its reading at 200, no other. *)
Lemma lease_refines_atomic_steps_witness :
  revision acquired_B = revision acquired_A + 1 ∧
  ∃ i seen, Some (i, seen) = Some (1%nat, [200]) ∧
    atomic_step no_updates (demo_lease i) acquired_A seen acquired_B.
Proof.
  destruct (lease_refines_atomic_steps demo_digest "run-1" demo_lease no_updates demo_control 0
    demo_system 0 5 acquired_A 200 acquired_B demo_reachable) as (Hr & _ & _ & i & seen & Hw & _ & Hs).
  - vm_compute. reflexivity.
  - vm_compute. reflexivity.
  - split; [exact Hr|]. exists i, seen. split; [|exact Hs]. rewrite <- Hw. vm_compute. reflexivity.
Defined.

Lemma lease_exclusive_witness :
  lease_expires_ms acquired_A ≤ 200 ∨
  (acquired_B = with_lease "" 0 acquired_A ∧ ∃ i, owner_token acquired_A = token (demo_lease i)).
Proof.
  apply (lease_exclusive demo_digest "run-1" demo_lease no_updates demo_control 0
    demo_system 0 5 acquired_A 200 acquired_B demo_reachable).
  - vm_compute. reflexivity.
  - vm_compute. reflexivity.
  - vm_compute. discriminate.
  - vm_compute. discriminate.
Defined.

Lemma lease_bounded_by_deadline_witness :
  input acquired_B = demo_input ∧ lease_expires_ms acquired_B ≤ 10000.
Proof.
  apply (lease_bounded_by_deadline demo_digest "run-1" demo_lease no_updates demo_control 0
    demo_system 200 acquired_B demo_reachable).
  - intros f x y [].
  - vm_compute. discriminate.
  - vm_compute. discriminate.
  - vm_compute. left.
Defined.

(** The controller records the job it submitted. *)
Definition submit (c : RunControl) : res lease_error RunControl :=
  Ok (mkControl (revision c) (input c) (owner_token c) (lease_expires_ms c) (next_poll_ms c)
        "job-7" (controller_link c) (controller_input c) (controller_launch_digest c)
        Submitted (submission_token c) (summary c) (rc_error c) (backend_identity c)).

Definition submitted : RunControl :=
  mkControl 2 demo_input "A" 150 0 "job-7" "" None "" Submitted "" None "" "".

Lemma lease_lifecycle_witness :
  exec demo_digest "run-1" 50
    (_ ← enter (demo_lease 0); u ← update (demo_lease 0) submit; _ ← exit (demo_lease 0); Ret u)
    (Some demo_control) fields0 =
  (Some (with_lease "" 0 submitted), mkFields None 10000 true, Ok submitted).
Proof.
  apply (lease_lifecycle demo_digest "run-1" 50 (demo_lease 0) submit demo_control
    (mkControl 1 demo_input "A" 150 0 "job-7" "" None "" Submitted "" None "" "")).
  - reflexivity.
  - reflexivity.
  - discriminate.
  - discriminate.
  - reflexivity.
  - repeat split.
  - reflexivity.
  - reflexivity.
Defined.
