(* ===== verification/CampaignBudget.v ===== *)
(** Resource budgets of diagnosis campaigns:
    src/python/cutracer/service/campaign_budget.py.

    A target is any value with a unit id ([CatalogWorkUnit] is used for nothing
    else here); a timezone-aware [datetime] is an instant in microseconds, a
    naive one has no instant to compare. *)
From S2P Require Import Prelude.
From S2P Require Import PyDict.
Local Open Scope Z_scope.

Inductive ResourceConstraint := REASONING_TOKENS | ARTIFACT_BYTES | SANDCASTLE_RATE.

Inductive AdmissionDisposition := ADMITTED | DEFERRED.

#[export] Instance ResourceConstraint_eq_dec : EqDecision ResourceConstraint.
Proof. solve_decision. Defined.
#[export] Instance AdmissionDisposition_eq_dec : EqDecision AdmissionDisposition.
Proof. solve_decision. Defined.

Record CampaignResourceEstimate := mkEstimate {
  est_tokens : Z;
  est_bytes : Z;
  est_submissions : Z
}.

Definition estimate_check (e : CampaignResourceEstimate) : res exn () :=
  if (est_tokens e <? 0) || (est_bytes e <? 0) || (est_submissions e <? 0)
  then Err ValueError else Ok ().

Record CampaignResourceUsage := mkUsage {
  used_tokens : Z;
  used_bytes : Z
}.

Definition usage_check (u : CampaignResourceUsage) : res exn () :=
  if (used_tokens u <? 0) || (used_bytes u <? 0) then Err ValueError else Ok ().

Record SandcastleRateBudget := mkRate {
  max_submissions : Z;
  window_seconds : Z
}.

Definition rate_check (r : SandcastleRateBudget) : res exn () :=
  if max_submissions r <? 0 then Err ValueError
  else if window_seconds r <=? 0 then Err ValueError else Ok ().

Record CampaignResourceBudget := mkBudget {
  max_reasoning_tokens : option Z;
  max_artifact_bytes : option Z;
  sandcastle_rate : option SandcastleRateBudget
}.

Definition negative (limit : option Z) : bool :=
  match limit with Some v => v <? 0 | None => false end.

Definition budget_check (b : CampaignResourceBudget) : res exn () :=
  if negative (max_reasoning_tokens b) || negative (max_artifact_bytes b)
  then Err ValueError else Ok ().

Record datetime := mkDatetime {
  tz_aware : bool;
  micros : Z
}.

Section Admission.
Context {U : Type} (unit_id : U → string).

Record ResourceAdmissionDecision := mkDecision {
  target : U;
  disposition : AdmissionDisposition;
  constraints : list ResourceConstraint;
  cumulative_usage : CampaignResourceUsage;
  cumulative_submissions : Z
}.

Record ResourceAdmissionPlan := mkPlan {
  decisions : list ResourceAdmissionDecision;
  recent_submissions : Z
}.

Definition admitted (p : ResourceAdmissionPlan) : list U :=
  target <$> filter (λ d, disposition d = ADMITTED) (decisions p).

Definition recent_sandcastle_count (budget : option SandcastleRateBudget) (as_of : datetime)
    (submitted_at : list datetime) : res exn Z :=
  match budget with
  | None => Ok 0
  | Some b =>
      if negb (tz_aware as_of) then Err ValueError
      else if existsb (λ v, negb (tz_aware v)) submitted_at then Err ValueError
      else if existsb (λ v, micros as_of <? micros v) submitted_at then Err ValueError
      else
        let window_start := micros as_of - window_seconds b * 1000000 in
        Ok (Z.of_nat (length (filter (λ v, window_start < micros v) submitted_at)))
  end.

(** [limit is not None and total > limit]. *)
Definition exceeds (limit : option Z) (total : Z) : bool :=
  match limit with Some m => m <? total | None => false end.

Definition over (b : CampaignResourceBudget) (e : CampaignResourceEstimate)
    (u : CampaignResourceUsage) (submissions : Z) : list ResourceConstraint :=
  (if exceeds (max_reasoning_tokens b) (used_tokens u + est_tokens e) then [REASONING_TOKENS] else []) ++
  (if exceeds (max_artifact_bytes b) (used_bytes u + est_bytes e) then [ARTIFACT_BYTES] else []) ++
  (if exceeds (max_submissions <$> sandcastle_rate b) (submissions + est_submissions e)
   then [SANDCASTLE_RATE] else []).

Definition add_usage (u : CampaignResourceUsage) (e : CampaignResourceEstimate) : CampaignResourceUsage :=
  mkUsage (used_tokens u + est_tokens e) (used_bytes u + est_bytes e).

Fixpoint admit_all (estimates : dict string CampaignResourceEstimate) (b : CampaignResourceBudget)
    (targets : list U) (u : CampaignResourceUsage) (submissions : Z)
    : res exn (list ResourceAdmissionDecision) :=
  match targets with
  | [] => Ok []
  | t :: rest =>
      match dict_get estimates (unit_id t) with
      | None => Err KeyError
      | Some e =>
          let cs := over b e u submissions in
          let u' := match cs with [] => add_usage u e | _ => u end in
          let submissions' := match cs with [] => submissions + est_submissions e | _ => submissions end in
          let d := mkDecision t (match cs with [] => ADMITTED | _ => DEFERRED end) cs u' submissions' in
          ds ← admit_all estimates b rest u' submissions';
          Ok (d :: ds)
      end
  end.

Definition apply_resource_budget (targets : list U)
    (estimates : dict string CampaignResourceEstimate) (b : CampaignResourceBudget)
    (as_of : datetime) (submitted_at : list datetime)
    (initial_usage : option CampaignResourceUsage) : res exn ResourceAdmissionPlan :=
  let unit_ids := unit_id <$> targets in
  if bool_decide (¬ NoDup unit_ids) then Err ValueError
  else if existsb (λ i, match dict_get estimates i with None => true | Some _ => false end) unit_ids
  then Err ValueError
  else
    recent ← recent_sandcastle_count (sandcastle_rate b) as_of submitted_at;
    let u := default (mkUsage 0 0) initial_usage in
    ds ← admit_all estimates b targets u recent;
    Ok (mkPlan ds recent).

(** ** The specification of greedy admission *)

(** What is in use after a run of decisions. *)
Definition spent_tokens (estimates : dict string CampaignResourceEstimate) (ts : list U) : Z :=
  foldr Z.add 0 ((λ t, match dict_get estimates (unit_id t) with Some e => est_tokens e | None => 0 end) <$> ts).
Definition spent_bytes (estimates : dict string CampaignResourceEstimate) (ts : list U) : Z :=
  foldr Z.add 0 ((λ t, match dict_get estimates (unit_id t) with Some e => est_bytes e | None => 0 end) <$> ts).
Definition spent_submissions (estimates : dict string CampaignResourceEstimate) (ts : list U) : Z :=
  foldr Z.add 0 ((λ t, match dict_get estimates (unit_id t) with Some e => est_submissions e | None => 0 end) <$> ts).

Definition admitted_of (ds : list ResourceAdmissionDecision) : list U :=
  target <$> filter (λ d, disposition d = ADMITTED) ds.

Definition within (limit : option Z) (total : Z) : Prop :=
  match limit with Some m => total ≤ m | None => True end.

Lemma exceeds_within limit total : exceeds limit total = false ↔ within limit total.
Proof. destruct limit; simpl; [rewrite Z.ltb_ge|]; naive_solver. Qed.

Lemma over_nil b e u s :
  over b e u s = [] ↔
  within (max_reasoning_tokens b) (used_tokens u + est_tokens e) ∧
  within (max_artifact_bytes b) (used_bytes u + est_bytes e) ∧
  within (max_submissions <$> sandcastle_rate b) (s + est_submissions e).
Proof.
  unfold over. rewrite <- !exceeds_within.
  repeat match goal with |- context [exceeds ?l ?t] => destruct (exceeds l t) end; simpl; naive_solver.
Qed.

Lemma over_elem b e u s c :
  c ∈ over b e u s ↔
  match c with
  | REASONING_TOKENS => exceeds (max_reasoning_tokens b) (used_tokens u + est_tokens e) = true
  | ARTIFACT_BYTES => exceeds (max_artifact_bytes b) (used_bytes u + est_bytes e) = true
  | SANDCASTLE_RATE => exceeds (max_submissions <$> sandcastle_rate b) (s + est_submissions e) = true
  end.
Proof.
  unfold over. rewrite !elem_of_app.
  repeat match goal with |- context [if exceeds ?l ?t then _ else _] => destruct (exceeds l t) eqn:? end;
    rewrite ?elem_of_nil, ?list_elem_of_singleton; destruct c; naive_solver.
Qed.

(** The decision on the [k]th target, from the decisions before it. *)
Definition decided (estimates : dict string CampaignResourceEstimate) (b : CampaignResourceBudget)
    (u : CampaignResourceUsage) (s : Z) (before : list ResourceAdmissionDecision)
    (d : ResourceAdmissionDecision) : Prop :=
  ∃ e, dict_get estimates (unit_id (target d)) = Some e ∧
    let now := mkUsage (used_tokens u + spent_tokens estimates (admitted_of before))
                       (used_bytes u + spent_bytes estimates (admitted_of before)) in
    let subs := s + spent_submissions estimates (admitted_of before) in
    constraints d = over b e now subs ∧
    (disposition d = ADMITTED ↔ constraints d = []) ∧
    cumulative_usage d =
      mkUsage (used_tokens u + spent_tokens estimates (admitted_of (before ++ [d])))
              (used_bytes u + spent_bytes estimates (admitted_of (before ++ [d]))) ∧
    cumulative_submissions d = s + spent_submissions estimates (admitted_of (before ++ [d])).

Lemma admitted_of_app ds ds' : admitted_of (ds ++ ds') = admitted_of ds ++ admitted_of ds'.
Proof. unfold admitted_of. by rewrite filter_app, fmap_app. Qed.

Lemma foldr_add_app l1 l2 : foldr Z.add 0 (l1 ++ l2) = foldr Z.add 0 l1 + foldr Z.add 0 l2.
Proof. induction l1 as [|x l1 IH]; simpl; lia. Qed.

Lemma spent_app es t1 t2 :
  spent_tokens es (t1 ++ t2) = spent_tokens es t1 + spent_tokens es t2 ∧
  spent_bytes es (t1 ++ t2) = spent_bytes es t1 + spent_bytes es t2 ∧
  spent_submissions es (t1 ++ t2) = spent_submissions es t1 + spent_submissions es t2.
Proof.
  unfold spent_tokens, spent_bytes, spent_submissions. by rewrite !fmap_app, !foldr_add_app.
Qed.

Lemma admitted_singleton d :
  admitted_of [d] = match disposition d with ADMITTED => [target d] | DEFERRED => [] end.
Proof. unfold admitted_of. rewrite filter_cons, filter_nil. by destruct (disposition d). Qed.

Lemma spent_one es t e :
  dict_get es (unit_id t) = Some e →
  spent_tokens es [t] = est_tokens e ∧ spent_bytes es [t] = est_bytes e ∧
  spent_submissions es [t] = est_submissions e.
Proof. intros He. unfold spent_tokens, spent_bytes, spent_submissions. cbn. rewrite He. lia. Qed.

Lemma spent_nil es : spent_tokens es [] = 0 ∧ spent_bytes es [] = 0 ∧ spent_submissions es [] = 0.
Proof. done. Qed.

Lemma admit_all_decided es b ts u0 s0 before u s ds :
  u = mkUsage (used_tokens u0 + spent_tokens es (admitted_of before))
              (used_bytes u0 + spent_bytes es (admitted_of before)) →
  s = s0 + spent_submissions es (admitted_of before) →
  admit_all es b ts u s = Ok ds →
  target <$> ds = ts ∧ ∀ k d, ds !! k = Some d → decided es b u0 s0 (before ++ take k ds) d.
Proof.
  revert before u s ds. induction ts as [|t ts IH]; intros before u s ds Hu Hs.
  { cbn. by intros [= <-]. }
  cbn [admit_all]. destruct (dict_get es (unit_id t)) as [e|] eqn:He; [|done].
  destruct (spent_one es t e He) as (Ht1 & Ht2 & Ht3).
  set (cs := over b e u s). cbv zeta.
  match goal with |- context [mkDecision t ?dd cs ?uu ?ss] =>
    set (d := mkDecision t dd cs uu ss); set (u' := uu); set (s' := ss) end.
  destruct (admit_all es b ts u' s') as [ds'|] eqn:Er; [|done]. cbn. intros [= <-].
  assert (admitted_of [d] = match cs with [] => [t] | _ => [] end) as Had
    by (rewrite admitted_singleton; unfold d; cbn; by destruct cs).
  destruct (spent_app es (admitted_of before) (admitted_of [d])) as (Ha1 & Ha2 & Ha3).
  destruct (spent_nil es) as (Hn1 & Hn2 & Hn3).
  assert (u' = mkUsage (used_tokens u0 + spent_tokens es (admitted_of (before ++ [d])))
                 (used_bytes u0 + spent_bytes es (admitted_of (before ++ [d])))) as Hu'.
  { rewrite admitted_of_app, Ha1, Ha2, Had. unfold u', add_usage.
    destruct cs; rewrite Hu; cbn [used_tokens used_bytes]; f_equal; lia. }
  assert (s' = s0 + spent_submissions es (admitted_of (before ++ [d]))) as Hs'.
  { rewrite admitted_of_app, Ha3, Had. unfold s'. destruct cs; lia. }
  destruct (IH (before ++ [d]) u' s' ds' Hu' Hs' Er) as [Hts Hdec].
  split; [by rewrite fmap_cons, Hts|]. intros [|k] d' Hk.
  - cbn in Hk. injection Hk as <-. rewrite take_0, app_nil_r. exists e.
    split; [done|]. cbv zeta. rewrite <- Hu, <- Hs.
    split_and!; [done| |exact Hu'|exact Hs']. unfold d. cbn. by destruct cs.
  - cbn in Hk. specialize (Hdec k d' Hk). cbn [take]. by rewrite <- app_assoc in Hdec.
Qed.

(** An estimated unit is never looked up in vain. *)
Lemma admit_all_ok es b ts u s :
  Forall (λ t, dict_get es (unit_id t) ≠ None) ts → ∃ ds, admit_all es b ts u s = Ok ds.
Proof.
  intros Hts. revert u s. induction Hts as [|t ts Ht _ IH]; intros u s; [by eexists|].
  cbn [admit_all]. destruct (dict_get es (unit_id t)) as [e|]; [|done]. cbv zeta.
  match goal with |- context [admit_all es b ts ?u' ?s'] => destruct (IH u' s') as [ds ->] end.
  by eexists.
Qed.

Lemma existsb_false_Forall {A} (f : A → bool) (l : list A) :
  existsb f l = false ↔ Forall (λ x, f x = false) l.
Proof.
  induction l as [|x l IH]; cbn; [done|]. by rewrite orb_false_iff, Forall_cons, IH.
Qed.

(** The instants the rate window may be computed from. *)
Definition times_ok (b : CampaignResourceBudget) (as_of : datetime) (submitted_at : list datetime) : Prop :=
  sandcastle_rate b = None ∨
  (tz_aware as_of = true ∧ Forall (λ v, tz_aware v = true ∧ micros v ≤ micros as_of) submitted_at).

Lemma recent_count_spec b as_of sub :
  match recent_sandcastle_count (sandcastle_rate b) as_of sub with
  | Ok n => times_ok b as_of sub ∧ 0 ≤ n ∧
      n = match sandcastle_rate b with
          | None => 0
          | Some r => Z.of_nat (length (filter
              (λ v, micros as_of - window_seconds r * 1000000 < micros v) sub))
          end
  | Err e => e = ValueError ∧ ¬ times_ok b as_of sub
  end.
Proof.
  unfold recent_sandcastle_count, times_ok. destruct (sandcastle_rate b) as [r|].
  2: { split_and!; [by left|lia|done]. }
  destruct (tz_aware as_of); cbn [negb]; [|split; [done|naive_solver]].
  destruct (existsb (λ v, negb (tz_aware v)) sub) eqn:E1.
  { split; [done|]. intros [|[_ H]]; [done|].
    assert (existsb (λ v, negb (tz_aware v)) sub = false); [|congruence].
    apply existsb_false_Forall. eapply Forall_impl; [exact H|]. intros v [-> _]. done. }
  destruct (existsb (λ v, micros as_of <? micros v) sub) eqn:E2.
  { split; [done|]. intros [|[_ H]]; [done|].
    assert (existsb (λ v, micros as_of <? micros v) sub = false); [|congruence].
    apply existsb_false_Forall. eapply Forall_impl; [exact H|]. intros v [_ Hv].
    by apply Z.ltb_ge. }
  apply existsb_false_Forall in E1, E2. cbv zeta. split_and!; [|lia|done].
  right. split; [done|]. apply Forall_and. split.
  - eapply Forall_impl; [exact E1|]. intros v Hv. cbn in Hv |- *. by destruct (tz_aware v).
  - eapply Forall_impl; [exact E2|]. intros v Hv. by apply Z.ltb_ge in Hv.
Qed.

Lemma apply_inv ts es b as_of sub iu :
  match apply_resource_budget ts es b as_of sub iu with
  | Ok p => NoDup (unit_id <$> ts) ∧ Forall (λ t, dict_get es (unit_id t) ≠ None) ts ∧
      times_ok b as_of sub ∧
      recent_sandcastle_count (sandcastle_rate b) as_of sub = Ok (recent_submissions p) ∧
      admit_all es b ts (default (mkUsage 0 0) iu) (recent_submissions p) = Ok (decisions p)
  | Err e => e = ValueError ∧
      ¬ (NoDup (unit_id <$> ts) ∧ Forall (λ t, dict_get es (unit_id t) ≠ None) ts ∧ times_ok b as_of sub)
  end.
Proof.
  unfold apply_resource_budget. case_bool_decide as Hnd; [naive_solver|].
  destruct (existsb _ (unit_id <$> ts)) eqn:Em.
  { split; [done|]. intros (_ & H & _).
    assert (existsb (λ i, match dict_get es i with None => true | Some _ => false end) (unit_id <$> ts) = false);
      [|congruence].
    apply existsb_false_Forall, Forall_fmap. eapply Forall_impl; [exact H|]. intros t. cbn.
    by destruct (dict_get es (unit_id t)). }
  apply existsb_false_Forall, Forall_fmap in Em.
  assert (Forall (λ t, dict_get es (unit_id t) ≠ None) ts) as Hes.
  { eapply Forall_impl; [exact Em|]. intros t. cbn. by destruct (dict_get es (unit_id t)). }
  pose proof (recent_count_spec b as_of sub) as Hr.
  destruct (recent_sandcastle_count _ as_of sub) as [n|e]; cbn.
  - destruct (admit_all_ok es b ts (default (mkUsage 0 0) iu) n Hes) as [ds Hds]. rewrite Hds.
    cbn. split_and!; try done. by destruct Hr.
  - destruct Hr as [-> Hr]. split; [done|]. naive_solver.
Qed.

(** The submissions the rate window counts. *)
Definition recent_in_window (b : CampaignResourceBudget) (as_of : datetime) (submitted_at : list datetime) : Z :=
  match sandcastle_rate b with
  | None => 0
  | Some r => Z.of_nat (length (filter
      (λ v, micros as_of - window_seconds r * 1000000 < micros v) submitted_at))
  end.

Lemma recent_window b as_of sub n :
  recent_sandcastle_count (sandcastle_rate b) as_of sub = Ok n → n = recent_in_window b as_of sub.
Proof. intros H. pose proof (recent_count_spec b as_of sub) as Hr. rewrite H in Hr. apply Hr. Qed.

(** No running total passes its limit, unless it started past it. *)
Lemma admit_all_bounded es b ts u s ds mt mb ms :
  (∀ m, max_reasoning_tokens b = Some m → m ≤ mt) → used_tokens u ≤ mt →
  (∀ m, max_artifact_bytes b = Some m → m ≤ mb) → used_bytes u ≤ mb →
  (∀ m, max_submissions <$> sandcastle_rate b = Some m → m ≤ ms) → s ≤ ms →
  admit_all es b ts u s = Ok ds →
  Forall (λ d,
    (max_reasoning_tokens b ≠ None → used_tokens (cumulative_usage d) ≤ mt) ∧
    (max_artifact_bytes b ≠ None → used_bytes (cumulative_usage d) ≤ mb) ∧
    (sandcastle_rate b ≠ None → cumulative_submissions d ≤ ms)) ds.
Proof.
  intros Hmt Hut Hmb Hub Hms Hus.
  assert ((max_reasoning_tokens b ≠ None → used_tokens u ≤ mt) ∧
          (max_artifact_bytes b ≠ None → used_bytes u ≤ mb) ∧
          (sandcastle_rate b ≠ None → s ≤ ms)) as Hinv by done.
  clear Hut Hub Hus. revert u s ds Hinv.
  induction ts as [|t ts IH]; intros u s ds Hinv; cbn [admit_all]; [by intros [= <-]|].
  destruct (dict_get es (unit_id t)) as [e|]; [|done]. cbv zeta.
  match goal with |- context [admit_all es b ts ?uu ?ss] => set (u' := uu); set (s' := ss) end.
  destruct (admit_all es b ts u' s') as [ds'|] eqn:Er; [|done]. cbn. intros [= <-].
  assert ((max_reasoning_tokens b ≠ None → used_tokens u' ≤ mt) ∧
          (max_artifact_bytes b ≠ None → used_bytes u' ≤ mb) ∧
          (sandcastle_rate b ≠ None → s' ≤ ms)) as Hinv'.
  { unfold u', s'. destruct (over b e u s) eqn:Eo; [|done].
    apply over_nil in Eo as (H1 & H2 & H3). cbn. split_and!; intros Hn.
    - destruct (max_reasoning_tokens b); [cbn in H1; specialize (Hmt _ eq_refl); lia|done].
    - destruct (max_artifact_bytes b); [cbn in H2; specialize (Hmb _ eq_refl); lia|done].
    - destruct (sandcastle_rate b); [cbn in H3, Hms; specialize (Hms _ eq_refl); lia|done]. }
  constructor; [exact Hinv'|by eapply IH].
Qed.

(** The last decision of a non-empty prefix. *)
Lemma take_last {A} (l : list A) k :
  take k l = [] ∨ ∃ j x, l !! j = Some x ∧ take k l = take j l ++ [x].
Proof.
  revert k. induction l as [|x l IH]; intros [|k]; [by left..|].
  right. destruct (IH k) as [Hn|(j & y & Hj & Ht)].
  - exists 0%nat, x. cbn. by rewrite Hn.
  - exists (S j), y. cbn. by rewrite Ht.
Qed.

(** What the units admitted by the first decisions cost together, on top of
    what was in use before. *)
Lemma paid_bounded es b u s ts ds k :
  admit_all es b ts u s = Ok ds →
  let paid := admitted_of (take k ds) in
  (∀ m, max_reasoning_tokens b = Some m →
     used_tokens u + spent_tokens es paid ≤ Z.max m (used_tokens u)) ∧
  (∀ m, max_artifact_bytes b = Some m →
     used_bytes u + spent_bytes es paid ≤ Z.max m (used_bytes u)) ∧
  (∀ r, sandcastle_rate b = Some r →
     s + spent_submissions es paid ≤ Z.max (max_submissions r) s).
Proof.
  intros Had. cbv zeta.
  destruct (admit_all_decided es b ts u s [] u s ds) as [_ Hdec]; [|cbn; lia|exact Had|].
  { destruct u. cbn. f_equal; lia. }
  pose proof (admit_all_bounded es b ts u s ds
    (Z.max (default 0 (max_reasoning_tokens b)) (used_tokens u))
    (Z.max (default 0 (max_artifact_bytes b)) (used_bytes u))
    (Z.max (default 0 (max_submissions <$> sandcastle_rate b)) s)
    ltac:(intros m ->; simpl; lia) ltac:(lia) ltac:(intros m ->; simpl; lia) ltac:(lia)
    ltac:(intros m ->; simpl; lia) ltac:(lia) Had) as Hb.
  destruct (take_last ds k) as [->|(j & d & Hj & ->)]; [cbn; split_and!; intros; lia|].
  destruct (Hdec j d Hj) as (e & _ & _ & _ & Hu & Hs). cbn [app] in Hu, Hs.
  rewrite Forall_lookup in Hb. specialize (Hb j d Hj). rewrite Hu, Hs in Hb.
  cbn [used_tokens used_bytes] in Hb. destruct Hb as (H1 & H2 & H3).
  split_and!; intros x Hx; rewrite Hx in *; cbn in *; naive_solver.
Qed.
End Admission.

(** ** Properties *)

(** Admission answers for exactly the well-formed requests (unique units,
    every one estimated, sane times) and raises [ValueError] for the others.
    Its plan decides every target in order; each is admitted exactly when,
    on top of the units admitted before it, it stays within every limit, and
    deferred with precisely the constraints it would break. *)
Theorem resource_plan_spec {U} (unit_id : U → string) ts es b as_of sub iu :
  match apply_resource_budget unit_id ts es b as_of sub iu with
  | Err e => e = ValueError ∧
      ¬ (NoDup (unit_id <$> ts) ∧ Forall (λ t, dict_get es (unit_id t) ≠ None) ts ∧ times_ok b as_of sub)
  | Ok p =>
      target <$> decisions p = ts ∧
      ∀ k d, decisions p !! k = Some d →
        decided unit_id es b (default (mkUsage 0 0) iu) (recent_submissions p) (take k (decisions p)) d
  end.
Proof.
  pose proof (apply_inv unit_id ts es b as_of sub iu) as H.
  destruct (apply_resource_budget unit_id ts es b as_of sub iu) as [p|e]; [|exact H].
  destruct H as (_ & _ & _ & _ & Had).
  refine (admit_all_decided unit_id es b ts (default (mkUsage 0 0) iu) (recent_submissions p) []
    _ _ _ _ _ Had).
  - destruct (default (mkUsage 0 0) iu). cbn. f_equal; lia.
  - cbn. lia.
Qed.

(** C8: the budgets are hard.  A plan decides every target, in order.  After
    each of its decisions, the usage and the submissions it records are what
    the campaign started with plus the estimates of the units admitted so far,
    and that sum is within every limit, unless the starting usage (or the
    submissions of the rate window) was already above it, in which case it does
    not grow past that.  So the estimates of all the units a plan admits fit
    the budget together.  A unit is deferred exactly when its estimate on top
    of that sum breaks a limit, and the limits it would break are the ones the
    decision names. *)
Theorem resource_budget_is_hard {U} (unit_id : U → string) ts es b as_of sub iu p :
  apply_resource_budget unit_id ts es b as_of sub iu = Ok p →
  let start := default (mkUsage 0 0) iu in
  let tokens us := used_tokens start + spent_tokens unit_id es us in
  let bytes us := used_bytes start + spent_bytes unit_id es us in
  let submissions us := recent_submissions p + spent_submissions unit_id es us in
  recent_submissions p = recent_in_window b as_of sub ∧
  target <$> decisions p = ts ∧
  (∀ k d, decisions p !! k = Some d →
     ∃ e, dict_get es (unit_id (target d)) = Some e ∧
     let before := admitted_of (take k (decisions p)) in
     let after := admitted_of (take (S k) (decisions p)) in
     after = before ++ match disposition d with ADMITTED => [target d] | DEFERRED => [] end ∧
     used_tokens (cumulative_usage d) = tokens after ∧
     used_bytes (cumulative_usage d) = bytes after ∧
     cumulative_submissions d = submissions after ∧
     (disposition d = DEFERRED ↔ constraints d ≠ []) ∧
     (REASONING_TOKENS ∈ constraints d ↔ ¬ within (max_reasoning_tokens b) (tokens before + est_tokens e)) ∧
     (ARTIFACT_BYTES ∈ constraints d ↔ ¬ within (max_artifact_bytes b) (bytes before + est_bytes e)) ∧
     (SANDCASTLE_RATE ∈ constraints d ↔
        ¬ within (max_submissions <$> sandcastle_rate b) (submissions before + est_submissions e))) ∧
  (∀ k, let paid := admitted_of (take k (decisions p)) in
     (∀ m, max_reasoning_tokens b = Some m → tokens paid ≤ Z.max m (used_tokens start)) ∧
     (∀ m, max_artifact_bytes b = Some m → bytes paid ≤ Z.max m (used_bytes start)) ∧
     (∀ r, sandcastle_rate b = Some r →
        submissions paid ≤ Z.max (max_submissions r) (recent_submissions p))) ∧
  (let paid := admitted p in
     (∀ m, max_reasoning_tokens b = Some m → tokens paid ≤ Z.max m (used_tokens start)) ∧
     (∀ m, max_artifact_bytes b = Some m → bytes paid ≤ Z.max m (used_bytes start)) ∧
     (∀ r, sandcastle_rate b = Some r →
        submissions paid ≤ Z.max (max_submissions r) (recent_submissions p))).
Proof.
  intros Hap start tokens bytes submissions.
  pose proof (resource_plan_spec unit_id ts es b as_of sub iu) as Hspec.
  pose proof (apply_inv unit_id ts es b as_of sub iu) as H. rewrite Hap in Hspec, H.
  destruct Hspec as [Hts Hdec], H as (_ & _ & _ & Hrec & Had).
  assert (∀ k, _) as Hpaid by (intros k; exact (paid_bounded unit_id es b start _ _ _ k Had)).
  split_and!; [exact (recent_window _ _ _ _ Hrec)|exact Hts| |exact Hpaid|].
  - intros k d Hk. destruct (Hdec k d Hk) as (e & He & Hc & Ha & Hu & Hs). exists e.
    assert (take k (decisions p) ++ [d] = take (S k) (decisions p)) as Htk by (by rewrite (take_S_r _ _ _ Hk)).
    rewrite Htk in Hu, Hs. rewrite Hu, Hs, <- Htk, admitted_of_app, admitted_singleton.
    assert (∀ limit total, exceeds limit total = true ↔ ¬ within limit total) as Hex.
    { intros limit total. rewrite <- exceeds_within. by rewrite not_false_iff_true. }
    refine (conj He (conj eq_refl (conj eq_refl (conj eq_refl (conj eq_refl (conj _ _)))))).
    + destruct (disposition d); naive_solver.
    + rewrite Hc, !over_elem, <- !Hex. done.
  - specialize (Hpaid (length (decisions p))). by rewrite take_ge in Hpaid.
Qed.

Definition demo_estimates : dict string CampaignResourceEstimate :=
  [("a", mkEstimate 60 10 1); ("b", mkEstimate 50 10 1); ("c", mkEstimate 40 10 1)].
Definition demo_budget : CampaignResourceBudget := mkBudget (Some 100) None (Some (mkRate 3 3600)).
Definition demo_plan : res exn (ResourceAdmissionPlan (U := string)) :=
  apply_resource_budget (λ u : string, u) ["a"; "b"; "c"] demo_estimates demo_budget
    (mkDatetime true 10000000) [mkDatetime true 9000000] None.

(** [b] would pass the token limit and is deferred; [c] still fits: the
    estimates of [a] and [c] fill the hundred tokens and the three
    submissions, one of which was made before. *)
Lemma resource_budget_is_hard_witness :
  match demo_plan with
  | Ok p => admitted p = ["a"; "c"] ∧
      spent_tokens (λ u : string, u) demo_estimates (admitted p) = 100 ∧
      used_tokens (mkUsage 0 0) + spent_tokens (λ u : string, u) demo_estimates (admitted p) ≤ 100 ∧
      recent_submissions p + spent_submissions (λ u : string, u) demo_estimates (admitted p) ≤ 3 ∧
      (∀ d, decisions p !! 1%nat = Some d → disposition d = DEFERRED)
  | Err _ => False
  end.
Proof.
  destruct demo_plan as [p|] eqn:E; [|vm_compute in E; discriminate].
  destruct (resource_budget_is_hard (λ u : string, u) ["a"; "b"; "c"] demo_estimates demo_budget
    (mkDatetime true 10000000) [mkDatetime true 9000000] None p E) as (Hr & _ & Hd & _ & Ht & _ & Hs).
  split; [|split; [|split; [exact (Ht 100 eq_refl)|split; [|]]]].
  - injection E as <-. reflexivity.
  - injection E as <-. reflexivity.
  - pose proof (Hs (mkRate 3 3600) eq_refl) as Hb. rewrite Hr in Hb |- *. exact Hb.
  - intros d Hk. cbv zeta in Hd. destruct (Hd 1%nat d Hk) as (e & _ & He). cbv beta zeta in He.
    destruct He as (_ & _ & _ & _ & Hdef & _). apply (proj2 Hdef).
    injection E as <-. vm_compute in Hk. injection Hk as <-. discriminate.
Defined.
