(* ===== verification/Suppression.v ===== *)
(** Suppression of findings and the approval of suppression policies:
    src/python/cutracer/service/suppression.py and suppression_governance.py.

    Rules and findings are those of Contracts.v.  A kernel pattern is a Python
    regular expression: whether it compiles and whether it is found in a name are
    the parameters [compiles] and [re_search].  The digest of a policy and the
    wording of messages are not modelled. *)
From S2P Require Import Prelude.
From S2P Require Import PyStr.
From S2P Require Import PySet.
From S2P Require Import Dates.
From S2P Require Import Json.
From S2P Require Import Contracts.
From Stdlib Require Import Ascii.
Local Open Scope Z_scope.

(** A [parse_ymd_date] of an optional field. *)
Definition date_of (s : option string) : option date := s ≫= parse_ymd_date.

Section Policy.
Variable compiles : string → bool.
Variable re_search : string → string → bool.

Record SuppressedFinding := mkSuppressed {
  sf_finding : FindingRecord;
  sf_decision : SuppressionDecision
}.

Record SuppressionOutcome := mkOutcome {
  kept : list FindingRecord;
  suppressed : list SuppressedFinding
}.

Definition suppressed_findings (o : SuppressionOutcome) : list FindingRecord :=
  sf_finding <$> suppressed o.

Definition rule_is_active (r : SuppressionRule) (today : option date) : bool :=
  match expires_on r with
  | None => true
  | Some s =>
      match today with
      | None => false
      | Some now =>
          match parse_ymd_date s with
          | None => false
          | Some expires => date_ltb now expires
          end
      end
  end.

Definition unbounded (r : SuppressionRule) : bool :=
  bool_decide (kernel_pattern r = None) && bool_decide (tools r = []) && bool_decide (error_types r = []).

Definition rule_matches (r : SuppressionRule) (f : FindingRecord) : bool :=
  if unbounded r then false
  else if bool_decide (tools r ≠ []) && negb (bool_decide (source_tool f ∈ tools r)) then false
  else if bool_decide (error_types r ≠ []) && negb (bool_decide (error_type f ∈ error_types r)) then false
  else match kernel_pattern r with
       | None => true
       | Some p => match kernel_name f with None => false | Some n => re_search p n end
       end.

(** [SuppressionPolicy.__init__] compiles every pattern. *)
Definition make_policy (rules : list SuppressionRule) : res exn (list SuppressionRule) :=
  if forallb (λ r, match kernel_pattern r with None => true | Some p => compiles p end) rules
  then Ok rules else Err ValueError.

Definition decision_of (r : SuppressionRule) : SuppressionDecision :=
  mkSuppressionDecision (rule_id r) (version r) (reason r) (owner r) (expires_on r)
    (tracking_ticket r) (reviewed_by r) (reviewed_on r) (review_due_on r) (permanent r).

(** The inner loop: the first rule that is active and matches decides. *)
Fixpoint first_decision (rules : list SuppressionRule) (now : option date) (f : FindingRecord)
    : option SuppressionDecision :=
  match rules with
  | [] => None
  | r :: rest =>
      if negb (rule_is_active r now) then first_decision rest now f
      else if rule_matches r f then Some (decision_of r)
      else first_decision rest now f
  end.

Fixpoint partition_findings (rules : list SuppressionRule) (now : option date)
    (findings : list FindingRecord) (k : list FindingRecord) (s : list SuppressedFinding)
    : SuppressionOutcome :=
  match findings with
  | [] => mkOutcome k s
  | f :: rest =>
      match first_decision rules now f with
      | None => partition_findings rules now rest (k ++ [f]) s
      | Some d => partition_findings rules now rest k (s ++ [mkSuppressed f d])
      end
  end.

(** [SuppressionPolicy.apply]. *)
Definition apply_policy (rules : list SuppressionRule) (findings : list FindingRecord)
    (today : option string) : res exn SuppressionOutcome :=
  match today with
  | None => Ok (partition_findings rules None findings [] [])
  | Some t =>
      match parse_ymd_date t with
      | None => Err ValueError
      | Some now => Ok (partition_findings rules (Some now) findings [] [])
      end
  end.

(** ** What a hidden finding means *)

(** [r] is the rule that hides [f]: it fires and no earlier rule does. *)
Definition hides (rules : list SuppressionRule) (now : option date) (f : FindingRecord)
    (r : SuppressionRule) : Prop :=
  ∃ i, rules !! i = Some r ∧ rule_is_active r now = true ∧ rule_matches r f = true ∧
       ∀ j r', (j < i)%nat → rules !! j = Some r' →
         rule_is_active r' now && rule_matches r' f = false.

Definition hidden (rules : list SuppressionRule) (now : option date) (f : FindingRecord) : bool :=
  existsb (λ r, rule_is_active r now && rule_matches r f) rules.

Lemma first_decision_some rules now f d :
  first_decision rules now f = Some d → ∃ r, hides rules now f r ∧ d = decision_of r.
Proof.
  induction rules as [|r rules IH]; [done|]. cbn [first_decision].
  destruct (rule_is_active r now) eqn:Ea; cbn [negb].
  - destruct (rule_matches r f) eqn:Em.
    + intros H; injection H as <-. exists r. split; [|done]. exists 0%nat.
      split_and!; [done|done|done|lia].
    + intros H. destruct (IH H) as (r' & (i & Hi & Ha & Hm & Hb) & ->). exists r'.
      split; [|done]. exists (S i). split_and!; [done|done|done|].
      intros [|j] r0 Hj; [intros H0; injection H0 as <-; by rewrite Ea, Em|].
      apply Hb. lia.
  - intros H. destruct (IH H) as (r' & (i & Hi & Ha & Hm & Hb) & ->). exists r'.
    split; [|done]. exists (S i). split_and!; [done|done|done|].
    intros [|j] r0 Hj; [intros H0; injection H0 as <-; by rewrite Ea|].
    apply Hb. lia.
Qed.

Lemma first_decision_hidden rules now f :
  hidden rules now f = bool_decide (is_Some (first_decision rules now f)).
Proof.
  induction rules as [|r rules IH]; [done|]. unfold hidden in *. cbn [existsb first_decision].
  destruct (rule_is_active r now); cbn [negb andb orb]; [|done].
  destruct (rule_matches r f); cbn [orb]; [|done]. symmetry. by apply bool_decide_eq_true.
Qed.

Lemma partition_spec rules now findings k s o :
  partition_findings rules now findings k s = o →
  kept o = k ++ filter (λ f, hidden rules now f = false) findings ∧
  suppressed_findings o = (sf_finding <$> s) ++ filter (λ f, hidden rules now f = true) findings ∧
  (∀ e, e ∈ suppressed o → e ∈ s ∨ ∃ r, hides rules now (sf_finding e) r ∧ sf_decision e = decision_of r).
Proof.
  revert k s. induction findings as [|f findings IH]; intros k s; cbn [partition_findings].
  { intros <-. cbn. rewrite !app_nil_r. split_and!; [done|done|by left]. }
  rewrite !filter_cons, first_decision_hidden.
  destruct (first_decision rules now f) as [d|] eqn:E; intros Ho.
  - destruct (IH _ _ Ho) as (Hk & Hs & Hd).
    rewrite (bool_decide_eq_true_2 (is_Some (Some d))) by done.
    split_and!; [by rewrite Hk|rewrite Hs, fmap_app, <- app_assoc; by rewrite decide_True|].
    intros e He. destruct (Hd e He) as [Hin|Hr]; [|by right].
    apply elem_of_app in Hin as [Hin|Hin]; [by left|right].
    apply list_elem_of_singleton in Hin. subst e. cbn. by apply first_decision_some.
  - destruct (IH _ _ Ho) as (Hk & Hs & Hd).
    rewrite (bool_decide_eq_false_2 (is_Some None)) by (by intros [? ?]).
    split_and!; [rewrite Hk, <- app_assoc; by rewrite decide_True|by rewrite Hs|done].
Qed.

(** A rule that fires is bounded and, if it expires, has not. *)
Lemma active_not_expired r now :
  rule_is_active r now = true →
  expires_on r = None ∨
  ∃ s e t, expires_on r = Some s ∧ parse_ymd_date s = Some e ∧ now = Some t ∧ date_ltb t e = true.
Proof.
  unfold rule_is_active. destruct (expires_on r) as [s|]; [|by left].
  destruct now as [t|]; [|done]. destruct (parse_ymd_date s) as [e|] eqn:E; [|done].
  intros H. right. by exists s, e, t.
Qed.

Lemma matches_bounded r f : rule_matches r f = true → unbounded r = false.
Proof. unfold rule_matches. by destruct (unbounded r). Qed.
End Policy.

(** ** Governance: the approval of a policy *)

Record SuppressionReviewIssue := mkIssue {
  is_rule_id : string;
  is_code : string
}.

Definition display_rule_id (id : string) : string := if blank id then "<missing>" else id.

Definition issue (r : SuppressionRule) (code : string) : SuppressionReviewIssue :=
  mkIssue (display_rule_id (rule_id r)) code.

Definition blank_opt (s : option string) : bool :=
  match s with None => true | Some t => blank t end.

Definition review_metadata_issues (r : SuppressionRule) (today : date) (max_review_days : Z)
    : list SuppressionReviewIssue :=
  if blank (tracking_ticket r) || blank (reviewed_by r) ||
     blank_opt (reviewed_on r) || blank_opt (review_due_on r)
  then [issue r "missing_review_metadata"]
  else
    match date_of (reviewed_on r), date_of (review_due_on r) with
    | Some reviewed, Some due =>
        if date_leb due reviewed then [issue r "invalid_review_window"]
        else
          (if max_review_days <? days_between due reviewed
           then [issue r "review_window_too_long"] else []) ++
          (if date_ltb due today then [issue r "review_overdue"] else [])
    | _, _ => [issue r "invalid_review_window"]
    end.

Definition invalid_identity (r : SuppressionRule) : bool :=
  blank (rule_id r) || bool_decide (strip (chars (rule_id r)) ≠ chars (rule_id r)) ||
  (version r <=? 0) || blank (reason r) || blank (owner r).

Definition rule_issues (r : SuppressionRule) (today : date) (max_review_days : Z)
    : list SuppressionReviewIssue :=
  review_metadata_issues r today max_review_days ++
  (if invalid_identity r then [issue r "invalid_identity"] else []) ++
  (if unbounded r then [issue r "unbounded_matcher"] else []) ++
  (if bool_decide (expires_on r = None) && negb (permanent r) then [issue r "missing_expiry"] else []) ++
  (match date_of (expires_on r) with
   | Some expiry => if date_leb expiry today then [issue r "expired"] else []
   | None => []
   end).

Definition occurrences (id : string) (ids : list string) : nat :=
  length (filter (λ x, x = id) ids).

(** [sorted(Counter(ids).items())]: each id that occurs more than once, once. *)
Definition duplicate_issues (rules : list SuppressionRule) : list SuppressionReviewIssue :=
  let ids := rule_id <$> rules in
  (λ id, mkIssue (display_rule_id id) "duplicate_rule_id") <$>
    filter (λ id, (1 < occurrences id ids)%nat) (sorted_set ids).

Record SuppressionReviewReport := mkReport {
  report_reviewed_on : string;
  report_errors : list SuppressionReviewIssue
}.

Definition approved (r : SuppressionReviewReport) : bool := bool_decide (report_errors r = []).

Definition review_suppression_policy (rules : list SuppressionRule) (today : string)
    (max_review_days : Z) : res exn SuppressionReviewReport :=
  match parse_ymd_date today with
  | None => Err ValueError
  | Some review_date =>
      if max_review_days <=? 0 then Err ValueError
      else Ok (mkReport today
             (duplicate_issues rules ++
              concat ((λ r, rule_issues r review_date max_review_days) <$> rules)))
  end.

(** [SuppressionGovernanceError] is a [ValueError]. *)
Definition require_governed_suppression_policy (rules : list SuppressionRule) (today : string)
    (max_review_days : Z) : res exn SuppressionReviewReport :=
  report ← review_suppression_policy rules today max_review_days;
  if approved report then Ok report else Err ValueError.

(** ** The specification of an approvable policy *)

Definition governed (today : date) (max_review_days : Z) (r : SuppressionRule) : Prop :=
  blank (rule_id r) = false ∧ strip (chars (rule_id r)) = chars (rule_id r) ∧
  0 < version r ∧ blank (reason r) = false ∧ blank (owner r) = false ∧
  blank (tracking_ticket r) = false ∧ blank (reviewed_by r) = false ∧
  unbounded r = false ∧
  (∃ reviewed due, date_of (reviewed_on r) = Some reviewed ∧ date_of (review_due_on r) = Some due ∧
     ordinal reviewed < ordinal due ≤ ordinal reviewed + max_review_days ∧
     ordinal today ≤ ordinal due) ∧
  (expires_on r = None → permanent r = true) ∧
  (∀ e, date_of (expires_on r) = Some e → ordinal today < ordinal e).

Lemma date_of_ok s x : date_of s = Some x → date_ok x = true.
Proof. destruct s as [t|]; [|done]. apply parse_ok. Qed.

Lemma date_leb_ordinal a b :
  date_ok a = true → date_ok b = true → date_leb a b = true ↔ ordinal a ≤ ordinal b.
Proof.
  intros Ha Hb. unfold date_leb. rewrite negb_true_iff, <- not_true_iff_false, date_ltb_ordinal by done. lia.
Qed.

(** A date field that names a day is not blank. *)
Lemma blank_opt_date s x : date_of s = Some x → blank_opt s = false.
Proof.
  destruct s as [t|]; [|done]. cbn. unfold parse_ymd_date, blank.
  destruct (chars t) as [|y1 l] eqn:Et; [done|]. intros Hp. apply bool_decide_eq_false.
  assert (is_digit y1 = true) as Hy.
  { destruct l as [|y2 [|y3 [|y4 [|h1 [|m1 [|m2 [|h2 [|d1 [|d2 [|]]]]]]]]]]; try done.
    cbn [forallb] in Hp. by destruct (is_digit y1). }
  assert (is_space y1 = false) as Hs.
  { unfold is_digit, is_space in *. rewrite andb_true_iff, !Z.leb_le in Hy.
    apply orb_false_iff. split; apply andb_false_iff; rewrite !Z.leb_gt; lia. }
  unfold strip. cbn [lstrip]. rewrite Hs. unfold rstrip. intros Hr.
  apply (f_equal (@rev _)) in Hr. rewrite rev_involutive in Hr. cbn [rev] in Hr.
  assert (∀ l', lstrip (l' ++ [y1]) ≠ []) as Hl.
  { clear -Hs. induction l' as [|c l' IH]; cbn; [by rewrite Hs|]. by destruct (is_space c). }
  by apply (Hl (rev l)).
Qed.

Lemma metadata_clean r today mx :
  date_ok today = true →
  review_metadata_issues r today mx = [] ↔
  blank (tracking_ticket r) = false ∧ blank (reviewed_by r) = false ∧
  ∃ reviewed due, date_of (reviewed_on r) = Some reviewed ∧ date_of (review_due_on r) = Some due ∧
    ordinal reviewed < ordinal due ≤ ordinal reviewed + mx ∧ ordinal today ≤ ordinal due.
Proof.
  intros Ht. unfold review_metadata_issues.
  destruct (blank (tracking_ticket r)); cbn [orb]; [naive_solver|].
  destruct (blank (reviewed_by r)); cbn [orb]; [naive_solver|].
  destruct (date_of (reviewed_on r)) as [rv|] eqn:Er; [rewrite (blank_opt_date _ _ Er)|].
  2: { destruct (blank_opt (reviewed_on r) || blank_opt (review_due_on r)); naive_solver. }
  destruct (date_of (review_due_on r)) as [du|] eqn:Ed; [rewrite (blank_opt_date _ _ Ed)|].
  2: { destruct (false || blank_opt (review_due_on r)); naive_solver. }
  apply date_of_ok in Er, Ed. cbn [orb].
  pose proof (date_leb_ordinal du rv Ed Er) as H1. pose proof (date_ltb_ordinal du today Ed Ht) as H2.
  unfold days_between. destruct (date_leb du rv).
  { split; [done|]. intros (_ & _ & rv' & du' & [= <-] & [= <-] & Ho & _).
    assert (ordinal du ≤ ordinal rv) by (by apply H1). lia. }
  assert (¬ ordinal du ≤ ordinal rv) as H1' by (intros H; by apply H1 in H).
  destruct (Z.ltb_spec mx (ordinal du - ordinal rv)) as [Hm|Hm]; cbn [app].
  { split; [done|]. intros (_ & _ & rv' & du' & [= <-] & [= <-] & Ho & _). lia. }
  destruct (date_ltb du today).
  { split; [done|]. intros (_ & _ & rv' & du' & [= <-] & [= <-] & _ & Ho).
    assert (ordinal du < ordinal today) by (by apply H2). lia. }
  assert (¬ ordinal du < ordinal today) as H2' by (intros H; by apply H2 in H).
  split; [intros _; split_and!; [done|done|]|done]. exists rv, du. split_and!; try done; lia.
Qed.

Lemma if_single_nil {A} (b : bool) (x : A) : (if b then [x] else []) = [] ↔ b = false.
Proof. by destruct b. Qed.

Lemma rule_issues_clean r today mx :
  date_ok today = true → rule_issues r today mx = [] ↔ governed today mx r.
Proof.
  intros Ht. unfold rule_issues, governed. rewrite !app_nil, !if_single_nil, metadata_clean by done.
  unfold invalid_identity. rewrite !orb_false_iff, bool_decide_eq_false, andb_false_iff,
    bool_decide_eq_false, negb_false_iff, Z.leb_gt.
  assert (match date_of (expires_on r) with
          | Some expiry => if date_leb expiry today then [issue r "expired"] else []
          | None => [] end = [] ↔ ∀ e, date_of (expires_on r) = Some e → ordinal today < ordinal e) as ->.
  { destruct (date_of (expires_on r)) as [e|] eqn:Ee; [|naive_solver].
    rewrite if_single_nil. apply date_of_ok in Ee. unfold date_leb.
    rewrite negb_false_iff, date_ltb_ordinal by done. naive_solver. }
  assert (¬ strip (chars (rule_id r)) ≠ chars (rule_id r) ↔ strip (chars (rule_id r)) = chars (rule_id r)) as ->.
  { split; [apply dec_stable|]. intros -> H. by apply H. }
  assert (expires_on r ≠ None ∨ permanent r = true ↔ (expires_on r = None → permanent r = true)) as ->.
  { destruct (expires_on r); naive_solver. }
  tauto.
Qed.

Lemma occurrences_NoDup ids : NoDup ids ↔ ∀ id, id ∈ ids → (occurrences id ids ≤ 1)%nat.
Proof.
  induction ids as [|x ids IH].
  { split; [intros _ id H; by apply elem_of_nil in H|constructor]. }
  assert (∀ id l, occurrences id l = 0%nat ↔ id ∉ l) as Hzero.
  { clear. intros id l. unfold occurrences. rewrite length_zero_iff_nil, filter_nil_iff.
    split; [by intros H Hin; apply (H id)|]. by intros H y Hy ->. }
  rewrite NoDup_cons, IH. split.
  - intros [Hx Hl] id. rewrite elem_of_cons. unfold occurrences in *. rewrite filter_cons.
    case_decide as E; [subst id|].
    + intros _. cbn. apply Hzero in Hx. unfold occurrences in Hx. lia.
    + intros [->|Hin]; [done|by apply Hl].
  - intros H. split.
    + apply Hzero. specialize (H x ltac:(by left)). unfold occurrences in *.
      rewrite filter_cons_True in H by done. cbn in H. lia.
    + intros id Hin. specialize (H id ltac:(by right)). unfold occurrences in *.
      rewrite filter_cons in H. case_decide; cbn in H; lia.
Qed.

Lemma duplicate_issues_clean rules : duplicate_issues rules = [] ↔ NoDup (rule_id <$> rules).
Proof.
  unfold duplicate_issues. cbv zeta. rewrite fmap_nil_iff, filter_nil_iff, occurrences_NoDup.
  setoid_rewrite elem_of_sorted_set. split; intros H id Hin; specialize (H id Hin); lia.
Qed.

(** ** Properties *)

(** Suppression partitions the findings and accounts for each.  The kept
    ones are, in order, those no active rule matches; the hidden ones are, in
    order, the others, each with the audit record of the first rule in policy
    order that fires on it.  That rule narrows something, and if it expires, the
    day is known and before its expiry.  Only a malformed day is an error. *)
Theorem suppression_partition re_search rules findings today :
  match apply_policy re_search rules findings today with
  | Err e => e = ValueError ∧ ∃ t, today = Some t ∧ parse_ymd_date t = None
  | Ok o =>
      let now := date_of today in
      kept o = filter (λ f, hidden re_search rules now f = false) findings ∧
      suppressed_findings o = filter (λ f, hidden re_search rules now f = true) findings ∧
      ∀ e, e ∈ suppressed o → ∃ r,
        hides re_search rules now (sf_finding e) r ∧ sf_decision e = decision_of r ∧
        unbounded r = false ∧
        (∀ s, expires_on r = Some s →
           ∃ expiry day, parse_ymd_date s = Some expiry ∧ now = Some day ∧ ordinal day < ordinal expiry)
  end.
Proof.
  assert (∀ now, (∀ d, now = Some d → date_ok d = true) →
    let o := partition_findings re_search rules now findings [] [] in
    kept o = filter (λ f, hidden re_search rules now f = false) findings ∧
    suppressed_findings o = filter (λ f, hidden re_search rules now f = true) findings ∧
    ∀ e, e ∈ suppressed o → ∃ r,
      hides re_search rules now (sf_finding e) r ∧ sf_decision e = decision_of r ∧
      unbounded r = false ∧
      (∀ s, expires_on r = Some s →
         ∃ expiry day, parse_ymd_date s = Some expiry ∧ now = Some day ∧ ordinal day < ordinal expiry)) as H.
  { intros now Hnow o. destruct (partition_spec re_search rules now findings [] [] o eq_refl) as (Hk & Hs & Hd).
    split_and!; [done|done|]. intros e He.
    destruct (Hd e He) as [Hn|(r & Hh & Hdec)]; [by apply elem_of_nil in Hn|]. exists r.
    pose proof Hh as (i & _ & Ha & Hm & _).
    split_and!; [done|done|by eapply matches_bounded|]. intros s Hs'.
    destruct (active_not_expired _ _ Ha) as [Hn|(s' & ex & t & Hs2 & Hp & Ht & Hlt)]; [congruence|].
    rewrite Hs2 in Hs'. injection Hs' as <-. exists ex, t. split_and!; [done|done|].
    apply date_ltb_ordinal; [by apply Hnow|by eapply parse_ok|done]. }
  unfold apply_policy. destruct today as [t|]; [|by apply (H None)].
  destruct (parse_ymd_date t) as [d|] eqn:E; [|by eauto].
  cbn. rewrite E. apply (H (Some d)). intros d' Hd'. injection Hd' as <-. by eapply parse_ok.
Qed.

(** A policy is approved exactly when its rule ids are distinct and every
    rule is governed: identified, reasoned, owned and ticketed, bounded by some
    matcher, reviewed within the allowed window and not overdue, permanent or
    expiring, and not expired on the day of the review. *)
Theorem approval_iff_governed rules today mx :
  match require_governed_suppression_policy rules today mx with
  | Ok _ => ∃ day, parse_ymd_date today = Some day ∧ 0 < mx ∧
      NoDup (rule_id <$> rules) ∧ ∀ r, r ∈ rules → governed day mx r
  | Err e => e = ValueError ∧
      ∀ day, parse_ymd_date today = Some day → 0 < mx →
        ¬ (NoDup (rule_id <$> rules) ∧ ∀ r, r ∈ rules → governed day mx r)
  end.
Proof.
  unfold require_governed_suppression_policy, review_suppression_policy.
  destruct (parse_ymd_date today) as [day|] eqn:Ed; [|done].
  destruct (Z.leb_spec mx 0) as [Hm|Hm]; [split; [done|lia]|].
  unfold mbind, res_bind, approved. cbn [report_errors].
  apply parse_ok in Ed.
  assert (duplicate_issues rules ++ concat ((λ r, rule_issues r day mx) <$> rules) = [] ↔
          NoDup (rule_id <$> rules) ∧ ∀ r, r ∈ rules → governed day mx r) as Hiff.
  { rewrite app_nil, duplicate_issues_clean, concat_fmap_nil_iff.
    split; intros [Hnd Hr]; (split; [done|]); intros r Hin; by apply rule_issues_clean, Hr. }
  case_bool_decide as Hb.
  - apply Hiff in Hb as [Hnd Hr]. exists day. split_and!; done.
  - split; [done|]. intros day' [= <-] _ H. by apply Hb, Hiff.
Qed.
