(* ===== verification/Baseline.v ===== *)
(** Per-scope baselines: src/python/cutracer/service/baseline.py.

    [BaselineStore] is the protocol of the code as a class with its laws;
    [FileBaselineStore] implements it by one JSON document per scope.  A file
    system is a map from paths to parsed documents; the atomic replacement of a
    file is one update of it.  [hashlib.sha256(...).hexdigest()] is the parameter
    [sha256_hex]. *)
From S2P Require Import Prelude.
From S2P Require Import PyStr.
From S2P Require Import PySet.
From S2P Require Import Dates.
From S2P Require Import Json.
From S2P Require Import Contracts.
From Stdlib Require Import Ascii.
Local Open Scope Z_scope.

Record ScopeBaseline := mkBaseline {
  sb_scope : ScopeId;
  correlation_keys : list string;
  sb_source_revision : string;
  recorded_on : string
}.

(** [ScopeBaseline.__post_init__], for a value built with [_complete]. *)
Definition make_baseline (complete : bool) (scope : ScopeId) (keys : list string)
    (revision on : string) : res exn ScopeBaseline :=
  if negb complete then Err ValueError
  else if bool_decide (parse_ymd_date on = None) then Err ValueError
  else Ok (mkBaseline scope keys revision on).

Definition ScopeBaseline_to_dict (b : ScopeBaseline) : json :=
  JObj [("scope", to_json (sb_scope b)); ("correlation_keys", jlist JStr (correlation_keys b));
        ("source_revision", JStr (sb_source_revision b)); ("recorded_on", JStr (recorded_on b))].

Definition lift_py {A} (r : res exn A) : dres A :=
  match r with Ok a => Ok a | Err e => Err (Raised e) end.

Definition must_obj (j : json) : dres json :=
  match j with JObj _ => Ok j | _ => Err (Raised ValueError) end.

(** [ScopeBaseline.from_dict]: every wrong type is a [ValueError]. *)
Definition ScopeBaseline_from_dict (j : json) : dres ScopeBaseline :=
  match j with
  | JObj d =>
      sc ← must_obj (get d "scope");
      ks ← raw_list (get d "correlation_keys");
      keys ← map_res must_str ks;
      rev ← must_str (get d "source_revision");
      on ← must_str (get d "recorded_on");
      scope ← of_json sc;
      lift_py (make_baseline true scope keys rev on)
  | _ => Err (Raised ValueError)
  end.

Lemma must_str_list (l : list string) : map_res must_str (JStr <$> l) = Ok l.
Proof. by apply map_res_to_json, Forall_true. Qed.

Lemma must_obj_scope (s : ScopeId) : must_obj (to_json s) = Ok (to_json s).
Proof. done. Qed.

Lemma make_baseline_ok scope keys rev on :
  parse_ymd_date on ≠ None → make_baseline true scope keys rev on = Ok (mkBaseline scope keys rev on).
Proof. intros H. unfold make_baseline. cbn. by rewrite bool_decide_eq_false_2. Qed.

#[global] Arguments make_baseline : simpl never.
#[global] Arguments must_obj : simpl never.
#[export] Hint Rewrite must_str_list must_obj_scope @raw_list_jlist : codec.
#[export] Hint Rewrite make_baseline_ok using assumption : codec.

#[export] Instance ScopeBaseline_codec : JsonCodec ScopeBaseline.
Proof.
  refine {| valid b := parse_ymd_date (recorded_on b) ≠ None; to_json := ScopeBaseline_to_dict;
            of_json := ScopeBaseline_from_dict |}.
  - done.
  - intros [s k r o] Hv; codec.
Defined.

#[export] Instance ScopeBaseline_sound : JsonSound ScopeBaseline.
Proof.
  intros j b H. change (ScopeBaseline_from_dict j = Ok b) in H.
  unfold ScopeBaseline_from_dict in H. destruct j; try done. decoded H.
  unfold make_baseline in H. cbn [negb] in H. case_bool_decide as Hd; cbn in H; [done|].
  injection H as <-. exact Hd.
Qed.

(** [baseline_from_scope]. *)
Definition baseline_from_scope (scope : ScopeId) (keys : list string) (is_complete : bool)
    (revision on : string) : res exn (option ScopeBaseline) :=
  if negb is_complete then Ok None
  else b ← make_baseline true scope (sorted_set keys) revision on; Ok (Some b).

Record BaselineDiff := mkDiff {
  df_scope : ScopeId;
  verdict : BaselineVerdict;
  new_keys : list string;
  resolved_keys : list string;
  unchanged_keys : list string;
  observed_keys : list string
}.

Definition diff_against_baseline (scope : ScopeId) (keys : list string)
    (baseline : option ScopeBaseline) : BaselineDiff :=
  match baseline with
  | None => mkDiff scope NoBaseline [] [] [] (sorted_set keys)
  | Some b =>
      let known := correlation_keys b in
      let new := set_minus keys known in
      let resolved := set_minus known keys in
      let unchanged := set_and keys known in
      mkDiff scope
        (if bool_decide (new ≠ []) then NewFindings
         else if bool_decide (resolved ≠ []) then Resolved
         else Unchanged)
        new resolved unchanged []
  end.

(** [scopes_for]. *)
Definition scopes_for (tools : list string) (family : string) : list ScopeId :=
  mkScope family <$> sorted_set tools.

(** ** The store *)

(** What triage relies on: a store keeps, per key, the last baseline recorded. *)
Class BaselineStore (S : Type) := {
  same_slot : ScopeId → ScopeId → Prop;
  same_slot_refl : ∀ sc, same_slot sc sc;
  store_load : S → ScopeId → dres (option ScopeBaseline);
  store_record : S → ScopeBaseline → S;
  load_recorded : ∀ s b sc, valid b → same_slot sc (sb_scope b) →
    store_load (store_record s b) sc = Ok (Some b);
  load_other : ∀ s b sc, ¬ same_slot sc (sb_scope b) →
    store_load (store_record s b) sc = store_load s sc
}.

Section Files.
Variable sha256_hex : string → string.

Definition portable (c : ascii) : ascii :=
  let n := code c in
  if is_digit c || ((65 <=? n) && (n <=? 90)) || ((97 <=? n) && (n <=? 122)) ||
     Ascii.eqb c "."%char || Ascii.eqb c "_"%char || Ascii.eqb c "-"%char
  then c else "_"%char.

(** [FileBaselineStore._path], below the store's root. *)
Definition baseline_path (scope : ScopeId) : string :=
  let key := scope_key scope in
  str (take 120 (portable <$> chars key)) +:+ "." +:+
  str (take 12 (chars (sha256_hex key))) +:+ ".json".

Definition file_load (fs : gmap string json) (scope : ScopeId) : dres (option ScopeBaseline) :=
  match fs !! baseline_path scope with
  | None => Ok None
  | Some doc => b ← of_json doc; Ok (Some b)
  end.

Definition file_record (fs : gmap string json) (b : ScopeBaseline) : gmap string json :=
  <[baseline_path (sb_scope b) := to_json b]> fs.

#[export] Instance FileBaselineStore : BaselineStore (gmap string json).
Proof.
  refine {| same_slot a b := baseline_path a = baseline_path b;
            store_load := file_load; store_record := file_record |}.
  - done.
  - intros fs b sc Hv Hs. unfold file_load, file_record. rewrite Hs, lookup_insert_eq.
    by rewrite of_to_json.
  - intros fs b sc Hs. unfold file_load, file_record. by rewrite lookup_insert_ne.
Defined.
End Files.

(** ** Properties *)

Lemma verdict_cases (new resolved : list string) :
  let v := if bool_decide (new ≠ []) then NewFindings
           else if bool_decide (resolved ≠ []) then Resolved else Unchanged in
  (v = NewFindings ↔ new ≠ []) ∧ (v = Resolved ↔ new = [] ∧ resolved ≠ []) ∧
  (v = Unchanged ↔ new = [] ∧ resolved = []).
Proof. destruct new, resolved; cbn; naive_solver. Qed.

Lemma set_minus_nil a b : set_minus a b = [] ↔ ∀ x, x ∈ a → x ∈ b.
Proof.
  unfold set_minus. rewrite sorted_set_nil, filter_nil_iff.
  split; intros H x Hx; specialize (H x Hx); [by apply dec_stable|by intros Hn].
Qed.

(** Against a baseline, a scope's keys split exactly into new, resolved and
    unchanged ones, each listed once in order; the verdict is NEW exactly when
    there is a new key, RESOLVED when there is none but some key went away, and
    UNCHANGED when both sets are equal.  With no baseline nothing is ever
    reported as new: every key is only observed. *)
Theorem baseline_diff_spec scope keys base :
  let d := diff_against_baseline scope keys base in
  match base with
  | None => verdict d = NoBaseline ∧ new_keys d = [] ∧ resolved_keys d = [] ∧
      unchanged_keys d = [] ∧ ∀ x, x ∈ observed_keys d ↔ x ∈ keys
  | Some b =>
      let known := correlation_keys b in
      (∀ x, x ∈ new_keys d ↔ x ∈ keys ∧ x ∉ known) ∧
      (∀ x, x ∈ resolved_keys d ↔ x ∈ known ∧ x ∉ keys) ∧
      (∀ x, x ∈ unchanged_keys d ↔ x ∈ keys ∧ x ∈ known) ∧
      Forall (λ l, NoDup l ∧ Sorted str_le l) [new_keys d; resolved_keys d; unchanged_keys d] ∧
      (verdict d = NewFindings ↔ ∃ x, x ∈ keys ∧ x ∉ known) ∧
      (verdict d = Resolved ↔ (∀ x, x ∈ keys → x ∈ known) ∧ ∃ x, x ∈ known ∧ x ∉ keys) ∧
      (verdict d = Unchanged ↔ ∀ x, x ∈ keys ↔ x ∈ known) ∧
      observed_keys d = []
  end.
Proof.
  destruct base as [b|]; cbn; [|split_and!; try done; apply elem_of_sorted_set].
  assert (∀ a c, set_minus a c ≠ [] ↔ ∃ x, x ∈ a ∧ x ∉ c) as Hne.
  { intros a c. split.
    - intros H. destruct (set_minus a c) as [|x l] eqn:E; [done|]. exists x.
      apply elem_of_set_minus. rewrite E. by left.
    - intros (x & Hx & Hn) H. apply Hn. by apply (proj1 (set_minus_nil a c)). }
  destruct (verdict_cases (set_minus keys (correlation_keys b)) (set_minus (correlation_keys b) keys))
    as (H1 & H2 & H3). cbv zeta in H1, H2, H3.
  split_and!; [apply elem_of_set_minus|apply elem_of_set_minus|apply elem_of_set_and| |..|done].
  - repeat constructor; (apply sorted_set_NoDup || apply sorted_set_Sorted).
  - by rewrite H1, Hne.
  - by rewrite H2, set_minus_nil, Hne.
  - rewrite H3, !set_minus_nil. split; [intros [Ha Hb] x; split; auto|].
    intros Hx. split; intros x; apply Hx.
Qed.

(** Only complete campaigns move a baseline, on any store that keeps the
    protocol.  A partial campaign builds none; the one a complete campaign
    builds is read back as it was recorded (through JSON, on the file store),
    leaves the other scopes alone, and makes the next campaign with the same
    keys UNCHANGED. *)
Theorem baseline_recorded_then_unchanged {S} `{BaselineStore S} (s : S) scope keys keys' complete revision on b :
  baseline_from_scope scope keys complete revision on = Ok (Some b) →
  (∀ x, x ∈ keys' ↔ x ∈ keys) →
  complete = true ∧
  store_load (store_record s b) scope = Ok (Some b) ∧
  (∀ sc, ¬ same_slot sc scope → store_load (store_record s b) sc = store_load s sc) ∧
  verdict (diff_against_baseline scope keys' (Some b)) = Unchanged.
Proof.
  unfold baseline_from_scope. destruct complete; cbn [negb]; [|done].
  intros Hb Hk. apply bind_ok in Hb as (b' & Hb & [= <-]).
  unfold make_baseline in Hb. cbn [negb] in Hb. case_bool_decide as Hd; [done|]. injection Hb as <-.
  split_and!; [done|by apply load_recorded, same_slot_refl|intros sc Hs; by apply load_other|].
  cbn. destruct (verdict_cases (set_minus keys' (sorted_set keys)) (set_minus (sorted_set keys) keys'))
    as (_ & _ & ->). rewrite !set_minus_nil. setoid_rewrite elem_of_sorted_set.
  split; intros x; apply Hk.
Qed.

Definition demo_scope : ScopeId := mkScope "test_attention" "memcheck".

Lemma baseline_recorded_then_unchanged_witness :
  verdict (diff_against_baseline demo_scope ["a"; "b"; "a"]
    (Some (mkBaseline demo_scope ["a"; "b"] "rev" "2026-01-31"))) = Unchanged.
Proof.
  apply (@baseline_recorded_then_unchanged _ (FileBaselineStore (λ k, k)) ∅ demo_scope
    ["b"; "a"; "b"] ["a"; "b"; "a"] true "rev" "2026-01-31").
  - vm_compute. reflexivity.
  - intros x. rewrite !elem_of_cons, !elem_of_nil. tauto.
Defined.
