(* ===== verification/Triage.v ===== *)
(** Correlation and triage of the initial evidence:
    src/python/cutracer/service/triage.py.

    Triage reads the sanitizer sweeps and the stress tests of a session, its
    work unit, a suppression policy and, through the [BaselineStore] interface,
    the stored baselines.  Objects the code shares by reference while it groups
    (the [CorrelatedFinding] entries) live in the dictionary it keeps them in. *)
From S2P Require Import Prelude.
From S2P Require Import PyStr.
From S2P Require Import PyDict.
From S2P Require Import PySet.
From S2P Require Import Dates.
From S2P Require Import Json.
From S2P Require Import Contracts.
From S2P Require Import Results.
From S2P Require Import Suppression.
From S2P Require Import Baseline.
From Stdlib Require Import Ascii.
Local Open Scope Z_scope.

(** The part of [EvidenceBundle] that triage reads. *)
Record InitialEvidence := mkEvidence {
  ev_sanitizer : list SanitizerSweepResult;
  ev_stress : list StressTestResult
}.

(** ** Signals *)

Definition has_correctness_signal (e : InitialEvidence) : bool :=
  existsb sweep_has_positive_signal (ev_sanitizer e) ||
  existsb stress_has_positive_signal (ev_stress e).

Definition nonempty {A} (l : list A) : bool := match l with [] => false | _ => true end.

Definition sanitizer_is_trustworthy_clean (e : InitialEvidence) : bool :=
  nonempty (ev_sanitizer e) && forallb sweep_has_trustworthy_clean (ev_sanitizer e).

Definition stress_is_trustworthy_non_reproduction (e : InitialEvidence) : bool :=
  nonempty (ev_stress e) && forallb stress_has_trustworthy_non_reproduction (ev_stress e).

Definition both_initial_sources_are_trustworthy_clean (e : InitialEvidence) : bool :=
  sanitizer_is_trustworthy_clean e && stress_is_trustworthy_non_reproduction e.

Definition initial_evidence_requires_inconclusive (e : InitialEvidence) : bool :=
  (nonempty (ev_sanitizer e) || nonempty (ev_stress e)) &&
  negb (has_correctness_signal e) &&
  negb (both_initial_sources_are_trustworthy_clean e).

(** ** Keys *)

(** The scan of [test_family], over the id read backwards: what is left of the
    text before the bracket that closes the last group. *)
Fixpoint before_group (depth : Z) (rev_text : list ascii) : option (list ascii) :=
  match rev_text with
  | [] => None
  | c :: r =>
      if Ascii.eqb c "]"%char then before_group (depth + 1) r
      else if Ascii.eqb c "["%char then
        if depth - 1 =? 0 then Some (rev r) else before_group (depth - 1) r
      else before_group depth r
  end.

Definition test_family_of (test_id : string) : string :=
  let l := chars test_id in
  if negb (ends_with ["]"%char] l) then test_id
  else match before_group 0 (rev l) with
       | Some (c :: f) => str (c :: f)
       | _ => test_id
       end.

Definition location_of (f : FindingRecord) : option string :=
  (λ s, sl_file s +:+ ":" +:+ pretty (sl_line s)) <$> source f.

Definition correlation_key (f : FindingRecord) : string :=
  let symbol := match kernel_name f with
                | Some n => if bool_decide (n = "") then "<unattributed>" else n
                | None => "<unattributed>"
                end in
  match location_of f with
  | None => symbol +:+ "|" +:+ error_type f
  | Some loc => symbol +:+ "|" +:+ loc +:+ "|" +:+ error_type f
  end.

(** [tool.split("/")[-1]]. *)
Fixpoint after_last_slash (l : list ascii) : list ascii :=
  match l with
  | [] => []
  | c :: r => if bool_decide ("/"%char ∈ r) then after_last_slash r
              else if Ascii.eqb c "/"%char then r else c :: r
  end.
Definition tool_name (s : string) : string := str (after_last_slash (chars s)).

(** ** Correlation *)

Record CorrelatedFinding := mkCorrelated {
  cf_key : string;
  evidence_sources : list string;
  cf_findings : list FindingRecord;
  stress_reproduced : bool;
  kernel_symbol : option string;
  source_location : option string;
  cf_error_type : string;
  cf_test_family : string;
  cf_tools : list string;
  total_count : Z
}.

Record TriageResult := mkTriage {
  correlated_findings : list CorrelatedFinding;
  should_analyze : bool;
  tr_suppressed : SuppressionOutcome
}.

Definition active_sanitizer_signals (e : InitialEvidence) : list SanitizerSweepResult :=
  filter (λ r, sweep_has_positive_signal r &&
               (negb (nonempty (findings r)) || output_truncated r) = true) (ev_sanitizer e).

Definition groups : Type := dict string CorrelatedFinding * list string.

Definition add_finding (f : FindingRecord) (e : CorrelatedFinding) : CorrelatedFinding :=
  mkCorrelated (cf_key e) (evidence_sources e) (cf_findings e ++ [f]) (stress_reproduced e)
    (kernel_symbol e) (source_location e) (cf_error_type e) (cf_test_family e)
    (if decide (source_tool f ∈ cf_tools e) then cf_tools e else cf_tools e ++ [source_tool f])
    (total_count e + count f).

Definition group_finding (family : string) (g : groups) (f : FindingRecord) : groups :=
  let key := correlation_key f in
  match dict_get g.1 key with
  | Some e => (dict_set g.1 key (add_finding f e), g.2)
  | None =>
      let e := mkCorrelated key [] [] false (kernel_name f) (location_of f) (error_type f) family [] 0 in
      (dict_set g.1 key (add_finding f e), g.2 ++ [key])
  end.

Definition group_findings (fs : list FindingRecord) (family : string) : groups :=
  fold_left (group_finding family) fs ([], []).

Definition UNATTRIBUTED : string := "<unattributed-summary>|".

Definition add_unattributed (family : string) (g : groups) (r : SanitizerSweepResult) : groups :=
  let tool := "compute_sanitizer/" +:+ sw_tool r in
  let key := UNATTRIBUTED +:+ tool in
  match dict_get g.1 key with
  | Some _ => g
  | None =>
      (dict_set g.1 key (mkCorrelated key [tool] [] false None None "unattributed" family [tool] 0),
       g.2 ++ [key])
  end.

Definition add_unattributed_sanitizer_signals (g : groups) (signals : list SanitizerSweepResult)
    (family : string) : groups :=
  fold_left (add_unattributed family) signals g.

Definition mark_stress (e : CorrelatedFinding) : CorrelatedFinding :=
  mkCorrelated (cf_key e) (evidence_sources e) (cf_findings e) true (kernel_symbol e)
    (source_location e) (cf_error_type e) (cf_test_family e) (cf_tools e) (total_count e).

Definition attributed (e : CorrelatedFinding) : bool :=
  negb (starts_with (chars UNATTRIBUTED) (chars (cf_key e))).

Definition add_stress_signal (g : groups) (unit_id family : string) : groups :=
  if existsb (λ e, attributed e.2) g.1 then
    ((λ e, if attributed e.2 then (e.1, mark_stress e.2) else e) <$> g.1, g.2)
  else
    let key := "<stress>|" +:+ unit_id in
    (dict_set g.1 key (mkCorrelated key [] [] true None None "correctness-failure" family [] 0),
     g.2 ++ [key]).

Definition with_sources (e : CorrelatedFinding) : CorrelatedFinding :=
  mkCorrelated (cf_key e)
    (sorted_set (cf_tools e ++ if stress_reproduced e then ["cutracer/random_delay"] else []))
    (cf_findings e) (stress_reproduced e) (kernel_symbol e) (source_location e) (cf_error_type e)
    (cf_test_family e) (cf_tools e) (total_count e).

Definition populate_evidence_sources (g : groups) : groups :=
  ((λ e, (e.1, with_sources e.2)) <$> g.1, g.2).

Section Triage.
Variable re_search : string → string → bool.

(** [policy.apply(raw, today=today)], the policy given or the default one. *)
Definition correlate_evidence (unit_id : string) (e : InitialEvidence) (test_id : string)
    (rules : list SuppressionRule) (today : option string) : res exn TriageResult :=
  let raw := concat (findings <$> ev_sanitizer e) in
  outcome ← apply_policy re_search rules raw today;
  let signals := active_sanitizer_signals e in
  let stress := existsb stress_has_positive_signal (ev_stress e) in
  if negb (nonempty (kept outcome)) && negb (nonempty signals) && negb stress
  then Ok (mkTriage [] false outcome)
  else
    let family := test_family_of test_id in
    let g := add_unattributed_sanitizer_signals (group_findings (kept outcome) family) signals family in
    let g := if stress then add_stress_signal g unit_id family else g in
    let g := populate_evidence_sources g in
    Ok (mkTriage (omap (dict_get g.1) g.2) true outcome).

(** ** Scopes *)

Definition known_or (previous : option ResultCompleteness) (observed : ResultCompleteness)
    : ResultCompleteness :=
  match previous with
  | None => observed
  | Some p => if decide (p = Complete) then observed else p
  end.

Definition conflicting_tools (r : SanitizerSweepResult) : list string :=
  filter (λ t, t ≠ sw_tool r) ((λ f, tool_name (source_tool f)) <$> findings r).

Definition scope_result (complete : dict string ResultCompleteness) (r : SanitizerSweepResult)
    : dict string ResultCompleteness :=
  let observed :=
    if bool_decide (sw_completeness r = Complete) && bool_decide (sw_execution_status r ≠ Succeeded)
    then ResUnknown else sw_completeness r in
  let conflicts := conflicting_tools r in
  let observed := if nonempty conflicts then ResUnknown else observed in
  let complete := fold_left (λ c t, dict_set c t ResUnknown) conflicts complete in
  dict_set complete (sw_tool r) (known_or (dict_get complete (sw_tool r)) observed).

Definition scope_completeness (e : InitialEvidence) : dict string ResultCompleteness :=
  fold_left scope_result (ev_sanitizer e) [].

(** [by_scope]: the keys of each tool, in order of appearance. *)
Definition by_scope (entries : list CorrelatedFinding) : dict string (list string) :=
  fold_left (λ d e, fold_left (λ d t,
      dict_upd d (tool_name t) (λ o, default [] o ++ [cf_key e])) (cf_tools e) d)
    entries [].

Definition aggregate_completeness (values : list ResultCompleteness) : ResultCompleteness :=
  if negb (nonempty values) then ResUnknown
  else if forallb (λ v, bool_decide (v = Complete)) values then Complete
  else if forallb (λ v, bool_decide (v = Complete) || bool_decide (v = CompleteEarly)) values
  then CompleteEarly
  else if forallb (λ v, bool_decide (v = ResSkipped)) values then ResSkipped
  else Partial.

Definition audit_entry (s : SuppressedFinding) : SuppressionAuditEntry :=
  let f := sf_finding s in
  mkAuditEntry (correlation_key f) (source_tool f) (error_type f) (kernel_name f) (source f)
    (sf_decision s).

Context {S : Type} `{BaselineStore S}.

Definition scope_snapshot (baselines : option S) (family : string)
    (completeness : dict string ResultCompleteness) (keys_of : dict string (list string))
    (tool : string) : dres ScopeTriageSnapshot :=
  let c := default ResUnknown (dict_get completeness tool) in
  let scope := mkScope family tool in
  let keys := default [] (dict_get keys_of tool) in
  match baselines with
  | None => Ok (mkScopeSnapshot scope c NotEvaluated (sorted_set keys) [] [] [] false)
  | Some s =>
      old ← store_load s scope;
      let d := diff_against_baseline scope keys old in
      Ok (mkScopeSnapshot scope c (verdict d) (observed_keys d) (new_keys d) (resolved_keys d)
            (unchanged_keys d) false)
  end.

Definition triage_snapshot (baselines : option S) (unit : WorkUnit) (e : InitialEvidence)
    (t : TriageResult) : dres TriageSnapshot :=
  let family := test_family_of (test_id unit) in
  let completeness := scope_completeness e in
  let keys_of := by_scope (correlated_findings t) in
  scopes ← map_res (scope_snapshot baselines family completeness keys_of)
             (sorted_set (completeness.*1 ++ keys_of.*1));
  checked TriageSnapshot_check
    (mkTriageSnapshot scopes (aggregate_completeness (st_completeness <$> ev_stress e))
       (audit_entry <$> suppressed (tr_suppressed t))).

(** ** The decision *)

Definition join_sorted (l : list string) : string := String.concat ", " (sorted_set l).

Definition unproven_scopes (t : TriageSnapshot) : list string :=
  (λ s, scope_key (ss_scope s)) <$> filter (λ s, completeness s ≠ Complete) (scopes t).

Definition introduced (t : TriageSnapshot) : list string := concat (ss_new_keys <$> scopes t).

Definition unbaselined (t : TriageSnapshot) : list string :=
  concat (ss_observed_keys <$> filter (λ s, baseline_verdict s = NoBaseline) (scopes t)).

Definition count_text (l : list string) : string := pretty (Z.of_nat (length (remove_dups l))).

Definition decide_triage (baselines : option S) (rules : list SuppressionRule) (today : option string)
    (unit : WorkUnit) (e : InitialEvidence) : dres TriageDecision :=
  triage ← lift_py (correlate_evidence (unit_id unit) e (test_id unit) rules today);
  snapshot ← triage_snapshot baselines unit e triage;
  if initial_evidence_requires_inconclusive e then
    Ok (mkTriageDecision TriageInconclusive "initial evidence is incomplete" (Some snapshot))
  else if negb (should_analyze triage) then
    let unproven := unproven_scopes snapshot ++
      (if existsb (λ r, negb (stress_has_trustworthy_non_reproduction r)) (ev_stress e)
       then ["random-delay stress"] else []) in
    if nonempty unproven then
      Ok (mkTriageDecision TriageInconclusive
            ("scope coverage unproven: " +:+ join_sorted unproven) (Some snapshot))
    else
      let hidden := suppressed (tr_suppressed triage) in
      Ok (mkTriageDecision Finish
            (if nonempty hidden
             then "no actionable findings; " +:+ pretty (Z.of_nat (length hidden)) +:+ " suppressed"
             else "both initial sources are complete and clean") (Some snapshot))
  else if existsb stress_reproduced (correlated_findings triage) then
    Ok (mkTriageDecision Analyze "random-delay stress reproduced a correctness failure" (Some snapshot))
  else match baselines with
  | None =>
      Ok (mkTriageDecision Analyze
            (pretty (Z.of_nat (length (correlated_findings triage))) +:+ " findings, no baseline store")
            (Some snapshot))
  | Some _ =>
      if nonempty (introduced snapshot) then
        Ok (mkTriageDecision Analyze
              (count_text (introduced snapshot) +:+ " newly introduced findings") (Some snapshot))
      else if nonempty (unbaselined snapshot) then
        Ok (mkTriageDecision Analyze
              (count_text (unbaselined snapshot) +:+ " findings with no baseline to compare") (Some snapshot))
      else if nonempty (unproven_scopes snapshot) then
        Ok (mkTriageDecision TriageInconclusive
              ("scope coverage unproven: " +:+ join_sorted (unproven_scopes snapshot)) (Some snapshot))
      else
        Ok (mkTriageDecision Finish
              "all findings are unchanged since the last complete baseline" (Some snapshot))
  end.

(** ** Advancing the baselines *)

(** What [record_published_baselines] reads of a session. *)
Record PublishedSession := mkPublished {
  ps_status : SessionStatus;
  ps_publication : ReportPublicationStatus;
  ps_report_sufficiency : option EvidenceSufficiency;
  ps_triage : option TriageDecision;
  ps_source_revision : string
}.

Definition may_record (record_baselines : bool) (today : option string) (p : PublishedSession)
    : option (string * TriageSnapshot) :=
  match today, ps_report_sufficiency p, ps_triage p with
  | Some day, Some Sufficient, Some t =>
      if record_baselines && bool_decide (ps_status p = SessionCompleted) &&
         bool_decide (ps_publication p = ReportPublished) &&
         bool_decide (td_outcome t ≠ TriageInconclusive)
      then (λ snap, (day, snap)) <$> td_snapshot t else None
  | _, _, _ => None
  end.

Fixpoint record_scopes (s : S) (scs : list ScopeTriageSnapshot) (revision day : string)
    : S * res exn () :=
  match scs with
  | [] => (s, Ok ())
  | sc :: rest =>
      match baseline_from_scope (ss_scope sc)
              (ss_observed_keys sc ++ ss_new_keys sc ++ ss_unchanged_keys sc)
              (bool_decide (completeness sc = Complete)) revision day with
      | Err e => (s, Err e)
      | Ok None => record_scopes s rest revision day
      | Ok (Some b) => record_scopes (store_record s b) rest revision day
      end
  end.

Definition record_published_baselines (baselines : option S) (record_baselines : bool)
    (today : option string) (p : PublishedSession) : option S * res exn () :=
  match baselines, may_record record_baselines today p with
  | Some s, Some (day, snap) =>
      let '(s', r) := record_scopes s (scopes snap) (ps_source_revision p) day in (Some s', r)
  | _, _ => (baselines, Ok ())
  end.
End Triage.

(** ** Grouping keeps every finding, once *)

Definition sum_counts (fs : list FindingRecord) : Z := foldr Z.add 0 (count <$> fs).

Lemma sum_counts_app a b : sum_counts (a ++ b) = sum_counts a + sum_counts b.
Proof. unfold sum_counts. induction a as [|f a IH]; cbn in *; lia. Qed.

Definition of_key (k : string) (fs : list FindingRecord) : list FindingRecord :=
  filter (λ f, correlation_key f = k) fs.

(** What an entry says about the findings it was built from. *)
Definition entry_ok (fs : list FindingRecord) (k : string) (e : CorrelatedFinding) : Prop :=
  cf_key e = k ∧ cf_findings e = of_key k fs ∧ total_count e = sum_counts (of_key k fs) ∧
  ∀ f, f ∈ of_key k fs → source_tool f ∈ cf_tools e.

Definition groups_ok (fs : list FindingRecord) (g : groups) : Prop :=
  g.1.*1 = g.2 ∧ dict_wf g.1 ∧
  (∀ k e, dict_get g.1 k = Some e → entry_ok fs k e) ∧
  (∀ f, f ∈ fs → correlation_key f ∈ g.2).

Lemma of_key_snoc k fs f :
  of_key k (fs ++ [f]) = of_key k fs ++ (if decide (correlation_key f = k) then [f] else []).
Proof. unfold of_key. rewrite filter_app, filter_cons, filter_nil. by case_decide. Qed.

Lemma dict_keys_new {V} (d : dict string V) k v :
  dict_get d k = None → (dict_set d k v).*1 = d.*1 ++ [k].
Proof. intros Hk. apply dict_get_None in Hk. rewrite dict_keys_set. by rewrite decide_False. Qed.

Lemma dict_keys_old {V} (d : dict string V) k v e :
  dict_get d k = Some e → (dict_set d k v).*1 = d.*1.
Proof.
  intros Hk. rewrite dict_keys_set, decide_True; [done|].
  apply dict_get_In in Hk. apply list_elem_of_fmap. by exists (k, e).
Qed.

Lemma add_finding_ok fs f e :
  entry_ok fs (correlation_key f) e → entry_ok (fs ++ [f]) (correlation_key f) (add_finding f e).
Proof.
  intros (Hk & Hf & Hc & Ht). unfold entry_ok. rewrite of_key_snoc, decide_True by done.
  cbn. rewrite Hf, Hc, sum_counts_app. split_and!; [done|done|cbn; lia|].
  intros f' [Hf'|Hf'%list_elem_of_singleton]%elem_of_app.
  - case_decide; [by apply Ht|]. apply elem_of_app. left. by apply Ht.
  - subst f'. case_decide; [done|]. apply elem_of_app. right. by apply list_elem_of_singleton.
Qed.

Lemma entry_ok_other fs f k e :
  k ≠ correlation_key f → entry_ok fs k e → entry_ok (fs ++ [f]) k e.
Proof.
  intros Hne (Hk & Hf & Hc & Ht). unfold entry_ok.
  by rewrite of_key_snoc, decide_False, app_nil_r by congruence.
Qed.

Lemma of_key_nil k fs : (∀ f, f ∈ fs → correlation_key f ≠ k) → of_key k fs = [].
Proof. intros H. by apply filter_nil_iff. Qed.

Lemma group_finding_ok family fs g f :
  groups_ok fs g → groups_ok (fs ++ [f]) (group_finding family g f).
Proof.
  intros (Hk & Hwf & He & Hc). unfold group_finding.
  destruct (dict_get g.1 (correlation_key f)) as [e|] eqn:E.
  - split_and!; cbn [fst snd].
    + by rewrite (dict_keys_old _ _ _ _ E).
    + by apply dict_wf_set.
    + intros k e'. destruct (decide (k = correlation_key f)) as [->|Hne].
      * rewrite dict_get_set_eq. intros H; injection H as <-. apply add_finding_ok. by apply He.
      * rewrite dict_get_set_ne by congruence. intros H. by apply entry_ok_other, He.
    + intros f' [Hf'|Hf'%list_elem_of_singleton]%elem_of_app; [by apply Hc|]. subst f'.
      rewrite <- Hk. apply dict_get_In in E. apply list_elem_of_fmap. by exists (correlation_key f, e).
  - assert (correlation_key f ∉ g.2) as Hn by (rewrite <- Hk; by apply dict_get_None).
    split_and!; cbn [fst snd].
    + by rewrite dict_keys_new, Hk.
    + by apply dict_wf_set.
    + intros k e'. destruct (decide (k = correlation_key f)) as [->|Hne].
      * rewrite dict_get_set_eq. intros H; injection H as <-. apply add_finding_ok.
        unfold entry_ok. rewrite of_key_nil.
        { split_and!; [done|done|done|]. intros f' Hf'. by apply elem_of_nil in Hf'. }
        intros f' Hf' Heq. apply Hn. rewrite <- Heq. by apply Hc.
      * rewrite dict_get_set_ne by congruence. intros H. by apply entry_ok_other, He.
    + intros f' [Hf'|Hf'%list_elem_of_singleton]%elem_of_app; apply elem_of_app.
      * left. by apply Hc.
      * right. subst f'. by apply list_elem_of_singleton.
Qed.

Lemma group_findings_ok fs family : groups_ok fs (group_findings fs family).
Proof.
  unfold group_findings. induction fs as [|f fs IH] using rev_ind.
  - split_and!; [done|constructor|done|]. intros f Hf. by apply elem_of_nil in Hf.
  - rewrite fold_left_app. cbn. by apply group_finding_ok.
Qed.

(** A new key, of no finding, with an entry of no finding. *)
Lemma groups_ok_extend fs g k e :
  groups_ok fs g → dict_get g.1 k = None → cf_key e = k → cf_findings e = [] → total_count e = 0 →
  groups_ok fs (dict_set g.1 k e, g.2 ++ [k]).
Proof.
  intros (Hk & Hwf & He & Hc) Hn Hek Hef Het.
  assert (k ∉ g.2) as Hnk by (rewrite <- Hk; by apply dict_get_None).
  assert (of_key k fs = []) as Hof by (apply of_key_nil; intros f Hf <-; by apply Hnk, Hc).
  split_and!; cbn [fst snd].
  - by rewrite dict_keys_new, Hk.
  - by apply dict_wf_set.
  - intros k' e'. destruct (decide (k' = k)) as [->|Hne].
    + rewrite dict_get_set_eq. intros H; injection H as <-. unfold entry_ok.
      rewrite Hof, Hef. split_and!; [done|done|done|]. intros f Hf. by apply elem_of_nil in Hf.
    + rewrite dict_get_set_ne by congruence. apply He.
  - intros f Hf. apply elem_of_app. left. by apply Hc.
Qed.

Lemma unattributed_ok fs family signals g :
  groups_ok fs g → groups_ok fs (add_unattributed_sanitizer_signals g signals family).
Proof.
  revert g. induction signals as [|r signals IH]; intros g Hg; [done|]. cbn. apply IH.
  unfold add_unattributed. destruct (dict_get g.1 _) eqn:E; [done|]. by apply groups_ok_extend.
Qed.

(** Rewriting entries in place, without touching what [entry_ok] reads. *)
Lemma groups_ok_map fs (F : CorrelatedFinding → CorrelatedFinding) g :
  (∀ e, cf_key (F e) = cf_key e ∧ cf_findings (F e) = cf_findings e ∧
        total_count (F e) = total_count e ∧ cf_tools (F e) = cf_tools e) →
  groups_ok fs g → groups_ok fs ((λ e, (e.1, F e.2)) <$> g.1, g.2).
Proof.
  intros HF (Hk & Hwf & He & Hc).
  assert (((λ e : string * CorrelatedFinding, (e.1, F e.2)) <$> g.1).*1 = g.1.*1) as Hkeys
    by (rewrite <- list_fmap_compose; done).
  split_and!; cbn [fst snd].
  - by rewrite Hkeys.
  - unfold dict_wf. by rewrite Hkeys.
  - intros k e H. apply dict_get_In, list_elem_of_fmap in H as ([k' e'] & [= -> ->] & Hin).
    apply (dict_wf_get _ _ _ Hwf) in Hin. destruct (He _ _ Hin) as (H1 & H2 & H3 & H4).
    destruct (HF e') as (F1 & F2 & F3 & F4). unfold entry_ok. by rewrite F1, F2, F3, F4.
  - done.
Qed.

Lemma attributed_stress u : starts_with (chars UNATTRIBUTED) (chars ("<stress>|" +:+ u)) = false.
Proof. done. Qed.

Lemma add_stress_ok fs g u family :
  groups_ok fs g → groups_ok fs (add_stress_signal g u family).
Proof.
  intros Hg. unfold add_stress_signal. destruct (existsb _ g.1) eqn:E.
  - rewrite (list_fmap_ext _ (λ e, (e.1, if attributed e.2 then mark_stress e.2 else e.2))).
    + apply (groups_ok_map fs (λ e, if attributed e then mark_stress e else e)); [|done].
      intros e. by destruct (attributed e).
    + intros i [k e] _. cbn. by destruct (attributed e).
  - apply groups_ok_extend; try done. destruct (dict_get g.1 _) as [e|] eqn:Ee; [|done].
    exfalso. pose proof Hg as (_ & _ & He & _). destruct (He _ _ Ee) as (Hk & _).
    apply dict_get_In in Ee.
    assert (existsb (λ e : string * CorrelatedFinding, attributed e.2) g.1 = true); [|congruence].
    apply existsb_exists. exists ("<stress>|" +:+ u, e). split; [by apply list_elem_of_In|].
    cbn [snd]. unfold attributed. by rewrite Hk, attributed_stress.
Qed.

Lemma populate_ok fs g : groups_ok fs g → groups_ok fs (populate_evidence_sources g).
Proof. by apply (groups_ok_map fs with_sources). Qed.

Lemma omap_dict_get {V} (d : dict string V) (l : list (string * V)) :
  (∀ k v, (k, v) ∈ l → dict_get d k = Some v) → omap (dict_get d) l.*1 = l.*2.
Proof.
  induction l as [|[k v] l IH]; intros H; [done|].
  rewrite !fmap_cons. cbn [fst snd]. change (omap (dict_get d) (k :: l.*1)) with
    (match dict_get d k with Some x => x :: omap (dict_get d) l.*1 | None => omap (dict_get d) l.*1 end).
  rewrite (H k v) by by left. f_equal. apply IH. intros k' v' Hin. apply H. by right.
Qed.

(** The reported entries are the values of the dictionary, in order. *)
Lemma groups_entries fs g : groups_ok fs g → omap (dict_get g.1) g.2 = g.1.*2.
Proof.
  intros (Hk & Hwf & _ & _). rewrite <- Hk. apply omap_dict_get. intros k v. by apply dict_wf_get.
Qed.

Lemma groups_values fs g :
  groups_ok fs g → cf_key <$> g.1.*2 = g.1.*1 ∧ ∀ e, e ∈ g.1.*2 → entry_ok fs (cf_key e) e.
Proof.
  intros (Hk & Hwf & He & _).
  assert (∀ k e, (k, e) ∈ g.1 → entry_ok fs k e) as Hok by (intros k e Hin; by apply He, dict_wf_get).
  split.
  - rewrite <- list_fmap_compose. apply list_fmap_ext. intros i [k e] Hi. cbn.
    by apply (Hok k e), list_elem_of_lookup_2 with i.
  - intros e Hin. apply list_elem_of_fmap in Hin as ([k e'] & -> & Hin). cbn.
    destruct (Hok k e' Hin) as [Hke Hr]. rewrite Hke. by split.
Qed.

(** Sorting findings into distinct, covering keys loses and repeats nothing. *)
Lemma partition_by_key ks fs :
  NoDup ks → (∀ f, f ∈ fs → correlation_key f ∈ ks) →
  concat ((λ k, of_key k fs) <$> ks) ≡ₚ fs.
Proof.
  intros Hnd. revert fs. induction Hnd as [|k ks Hk Hnd IH]; intros fs Hc.
  - destruct fs as [|f fs]; [done|]. specialize (Hc f ltac:(by left)). by apply elem_of_nil in Hc.
  - rewrite fmap_cons. cbn [concat].
    assert (concat ((λ k', of_key k' fs) <$> ks) =
            concat ((λ k', of_key k' (filter (λ f, correlation_key f ≠ k) fs)) <$> ks)) as ->.
    { f_equal. apply list_fmap_ext. intros i k' Hi. unfold of_key. rewrite list_filter_filter.
      apply list_filter_iff. intros f. apply list_elem_of_lookup_2 in Hi.
      split; [|tauto]. intros Hf. assert (correlation_key f ≠ k) by (intros Hf'; apply Hk; congruence). tauto. }
    rewrite IH.
    + unfold of_key. apply filter_app_complement.
    + intros f [Hne Hin]%list_elem_of_filter. specialize (Hc f Hin).
      apply elem_of_cons in Hc as [Hc|]; [by destruct Hne|done].
Qed.

(** ** The stress flag *)

Definition flagged (g : groups) (b : bool) : Prop := ∀ k e, (k, e) ∈ g.1 → stress_reproduced e = b.

Lemma dict_set_elem {V} (d : dict string V) k v k' v' :
  (k', v') ∈ dict_set d k v → (k' = k ∧ v' = v) ∨ (k', v') ∈ d.
Proof.
  induction d as [|[k2 v2] d IH]; cbn.
  - intros H%list_elem_of_singleton. left. by injection H as -> ->.
  - case_decide.
    + intros [H'|H']%elem_of_cons; [left; by injection H' as -> ->|right; by right].
    + intros [H'|H']%elem_of_cons; [right; rewrite H'; by left|].
      destruct (IH H') as [|]; [by left|right; right; done].
Qed.

Lemma group_findings_unflagged fs family : flagged (group_findings fs family) false.
Proof.
  unfold group_findings. induction fs as [|f fs IH] using rev_ind.
  - intros k e H. by apply elem_of_nil in H.
  - rewrite fold_left_app. cbn. set (g := fold_left _ fs _) in *. intros k e.
    unfold group_finding. destruct (dict_get g.1 (correlation_key f)) as [e0|] eqn:E; cbn [fst];
      intros [[-> ->]|Hin]%dict_set_elem; cbn; try done; try by eapply IH.
    apply dict_get_In in E. by eapply IH.
Qed.

Lemma unattributed_unflagged g signals family :
  flagged g false → flagged (add_unattributed_sanitizer_signals g signals family) false.
Proof.
  revert g. induction signals as [|r signals IH]; intros g Hg; [done|]. cbn. apply IH.
  unfold add_unattributed. destruct (dict_get g.1 _); [done|]. cbn [fst].
  intros k e [[-> ->]|Hin]%dict_set_elem; [done|]. by eapply Hg.
Qed.

Lemma dict_set_has {V} (d : dict string V) k v : (k, v) ∈ dict_set d k v.
Proof. apply dict_get_In, dict_get_set_eq. Qed.

Lemma add_stress_flagged g u family :
  ∃ k e, (k, e) ∈ (add_stress_signal g u family).1 ∧ stress_reproduced e = true.
Proof.
  unfold add_stress_signal. destruct (existsb _ g.1) eqn:E; cbn [fst].
  - apply existsb_exists in E as ([k e] & Hin & Ha). exists k, (mark_stress e). split; [|done].
    apply list_elem_of_fmap. exists (k, e). cbn in Ha |- *. rewrite Ha. split; [done|].
    by apply list_elem_of_In.
  - eexists _, _. split; [apply dict_set_has|done].
Qed.

Lemma existsb_values (g : groups) (P : CorrelatedFinding → bool) :
  existsb P g.1.*2 = existsb (λ e, P e.2) g.1.
Proof. induction g.1 as [|[k e] d IH]; cbn; [done|by rewrite IH]. Qed.

(** ** What correlation reports *)

Record correlated (raw : list FindingRecord) (stress : bool) (t : TriageResult) : Prop := {
  co_keys : NoDup (cf_key <$> correlated_findings t);
  co_entries : ∀ e, e ∈ correlated_findings t →
    cf_findings e = of_key (cf_key e) (kept (tr_suppressed t)) ∧
    total_count e = sum_counts (cf_findings e) ∧
    ∀ f, f ∈ cf_findings e → source_tool f ∈ cf_tools e;
  co_cover : ∀ f, f ∈ kept (tr_suppressed t) → ∃ e, e ∈ correlated_findings t ∧ f ∈ cf_findings e;
  co_partition : concat (cf_findings <$> correlated_findings t) ≡ₚ kept (tr_suppressed t);
  co_stress : existsb stress_reproduced (correlated_findings t) = stress
}.

Lemma groups_correlated fs g o stress :
  groups_ok fs g → kept o = fs → existsb (λ e, stress_reproduced e.2) g.1 = stress →
  correlated fs stress (mkTriage (omap (dict_get g.1) g.2) true o).
Proof.
  intros Hg <- Hs. pose proof (groups_values _ _ Hg) as [Hkeys Hent].
  pose proof Hg as (Hk & Hwf & He & Hc). rewrite (groups_entries _ _ Hg).
  assert (∀ e, e ∈ g.1.*2 → cf_findings e = of_key (cf_key e) (kept o)) as Hfind
    by (intros e Hin; by destruct (Hent e Hin) as (_ & Hf & _)).
  split; cbn [correlated_findings tr_suppressed].
  - by rewrite Hkeys.
  - intros e Hin. destruct (Hent e Hin) as (_ & Hf & Ht & Htools). rewrite Hf. done.
  - intros f Hf. pose proof (Hc f Hf) as Hin. rewrite <- Hk, <- Hkeys in Hin.
    apply list_elem_of_fmap in Hin as (e & Heq & Hin). exists e. split; [done|].
    rewrite (Hfind e Hin). unfold of_key. apply list_elem_of_filter. split; [congruence|done].
  - etrans; [|apply (partition_by_key g.1.*1 (kept o)); [done|by rewrite Hk]].
    apply Permutation_refl'. f_equal. rewrite <- Hkeys, <- (list_fmap_compose cf_key).
    apply list_fmap_ext. intros i e Hi. apply Hfind. by apply list_elem_of_lookup_2 with i.
  - by rewrite existsb_values.
Qed.

Lemma existsb_map_populate (g : groups) :
  existsb (λ e, stress_reproduced e.2) (populate_evidence_sources g).1 =
  existsb (λ e, stress_reproduced e.2) g.1.
Proof. unfold populate_evidence_sources. cbn [fst]. induction g.1 as [|e d IH]; cbn; [done|by rewrite IH]. Qed.

Lemma flagged_existsb g : flagged g false → existsb (λ e, stress_reproduced e.2) g.1 = false.
Proof.
  intros Hf. apply not_true_iff_false. intros ([k e] & Hin & Hs)%existsb_exists.
  apply list_elem_of_In, Hf in Hin. cbn in Hs. congruence.
Qed.

Lemma report_correlated o signals family unit_id (stress : bool) :
  let g := add_unattributed_sanitizer_signals (group_findings (kept o) family) signals family in
  let g1 := populate_evidence_sources (if stress then add_stress_signal g unit_id family else g) in
  correlated (kept o) stress (mkTriage (omap (dict_get g1.1) g1.2) true o).
Proof.
  intros g g1. assert (groups_ok (kept o) g) as Hg by apply unattributed_ok, group_findings_ok.
  apply groups_correlated; [|done|].
  - apply populate_ok. destruct stress; [by apply add_stress_ok|done].
  - unfold g1. rewrite existsb_map_populate. destruct stress.
    + destruct (add_stress_flagged g unit_id family) as (k & e & Hin & Hs).
      apply existsb_exists. exists (k, e). split; [by apply list_elem_of_In|done].
    + by apply flagged_existsb, unattributed_unflagged, group_findings_unflagged.
Qed.

Lemma empty_correlated o : kept o = [] → correlated (kept o) false (mkTriage [] false o).
Proof.
  intros Ek. split; cbn [correlated_findings tr_suppressed]; rewrite ?Ek.
  - constructor.
  - intros e Hin. by apply elem_of_nil in Hin.
  - intros f Hin. by apply elem_of_nil in Hin.
  - done.
  - done.
Qed.

Lemma nonempty_false {A} (l : list A) : nonempty l = false ↔ l = [].
Proof. by destruct l. Qed.

Lemma correlate_spec re_search unit_id e test_id rules today t :
  correlate_evidence re_search unit_id e test_id rules today = Ok t →
  apply_policy re_search rules (concat (findings <$> ev_sanitizer e)) today = Ok (tr_suppressed t) ∧
  let stress := existsb stress_has_positive_signal (ev_stress e) in
  correlated (kept (tr_suppressed t)) stress t ∧
  should_analyze t = (nonempty (kept (tr_suppressed t)) ||
                      nonempty (active_sanitizer_signals e) || stress).
Proof.
  unfold correlate_evidence. intros H. apply bind_ok in H as (o & Ho & H). cbv zeta in H |- *.
  set (stress := existsb stress_has_positive_signal (ev_stress e)) in *.
  destruct (negb (nonempty (kept o)) && negb (nonempty (active_sanitizer_signals e)) && negb stress) eqn:E;
    injection H as <-; (split; [exact Ho|]).
  - rewrite !andb_true_iff, !negb_true_iff in E. destruct E as [[E1 E2] E3].
    cbn [tr_suppressed should_analyze]. rewrite E1, E2, E3. split; [|done].
    apply empty_correlated. by apply nonempty_false.
  - split; [apply report_correlated|]. cbn [tr_suppressed should_analyze].
    by destruct (nonempty (kept o)), (nonempty (active_sanitizer_signals e)), stress.
Qed.

(** ** Scopes and their keys *)

Definition scope_has (d : dict string (list string)) (t x : string) : Prop :=
  x ∈ default [] (dict_get d t).

Lemma scope_has_upd d t k t' x :
  scope_has (dict_upd d t (λ o, default [] o ++ [k])) t' x ↔ scope_has d t' x ∨ (t = t' ∧ x = k).
Proof.
  unfold scope_has. rewrite dict_get_upd. case_decide as E; cbn.
  - subst t'. rewrite elem_of_app, list_elem_of_singleton. tauto.
  - naive_solver.
Qed.

Lemma scope_has_tools tools k d t x :
  scope_has (fold_left (λ d t, dict_upd d (tool_name t) (λ o, default [] o ++ [k])) tools d) t x ↔
  scope_has d t x ∨ (x = k ∧ ∃ s, s ∈ tools ∧ tool_name s = t).
Proof.
  revert d. induction tools as [|s tools IH]; intros d; cbn.
  - split; [by left|]. intros [|(_ & s & Hs & _)]; [done|by apply elem_of_nil in Hs].
  - rewrite IH, scope_has_upd. setoid_rewrite elem_of_cons. naive_solver.
Qed.

Lemma by_scope_has es t x :
  scope_has (by_scope es) t x ↔
  ∃ e, e ∈ es ∧ cf_key e = x ∧ ∃ s, s ∈ cf_tools e ∧ tool_name s = t.
Proof.
  unfold by_scope.
  assert (∀ d, scope_has (fold_left (λ d e, fold_left (λ d t,
      dict_upd d (tool_name t) (λ o, default [] o ++ [cf_key e])) (cf_tools e) d) es d) t x ↔
    scope_has d t x ∨ ∃ e, e ∈ es ∧ cf_key e = x ∧ ∃ s, s ∈ cf_tools e ∧ tool_name s = t) as H.
  { induction es as [|e es IH]; intros d; cbn.
    - split; [by left|]. intros [|(e & He & _)]; [done|by apply elem_of_nil in He].
    - rewrite IH, scope_has_tools. setoid_rewrite elem_of_cons. naive_solver. }
  rewrite H. unfold scope_has at 1. cbn. rewrite elem_of_nil. tauto.
Qed.

Lemma scope_has_key d t x : scope_has d t x → t ∈ d.*1.
Proof.
  unfold scope_has. destruct (dict_get d t) as [l|] eqn:E; cbn; [|by intros H%elem_of_nil].
  intros _. apply dict_get_In in E. apply list_elem_of_fmap. by exists (t, l).
Qed.

Lemma map_res_inv {A B} (f : A → dres B) l l' :
  map_res f l = Ok l' → Forall2 (λ a b, f a = Ok b) l l'.
Proof.
  revert l'. induction l as [|a l IH]; cbn; intros l' H; [injection H as <-; constructor|].
  apply bind_ok in H as (b & Hb & H). apply bind_ok in H as (bs & Hbs & H). injection H as <-.
  constructor; auto.
Qed.

Section Decisions.
Variable re_search : string → string → bool.
Context {S : Type} `{BaselineStore S}.

Definition snapshot_of (baselines : option S) (family : string)
    (co : dict string ResultCompleteness) (ks : dict string (list string)) (tool : string)
    (sc : ScopeTriageSnapshot) : Prop :=
  ss_scope sc = mkScope family tool ∧
  completeness sc = default ResUnknown (dict_get co tool) ∧
  match baselines with
  | None => baseline_verdict sc = NotEvaluated
  | Some s => ∃ old, store_load s (mkScope family tool) = Ok old ∧
      let d := diff_against_baseline (mkScope family tool) (default [] (dict_get ks tool)) old in
      baseline_verdict sc = verdict d ∧ ss_new_keys sc = new_keys d ∧ ss_observed_keys sc = observed_keys d
  end.

Lemma scope_snapshot_inv bl family co ks tool sc :
  scope_snapshot bl family co ks tool = Ok sc → snapshot_of bl family co ks tool sc.
Proof.
  unfold scope_snapshot, snapshot_of. destruct bl as [s|].
  - intros Hs. apply bind_ok in Hs as (old & Hold & Hs). injection Hs as <-. cbn. eauto 10.
  - intros Hs. injection Hs as <-. done.
Qed.

Lemma triage_snapshot_inv bl u e t snap :
  triage_snapshot bl u e t = Ok snap →
  let family := test_family_of (test_id u) in
  let ks := by_scope (correlated_findings t) in
  ∀ tool, tool ∈ (scope_completeness e).*1 ∨ tool ∈ ks.*1 →
    ∃ sc, sc ∈ scopes snap ∧ snapshot_of bl family (scope_completeness e) ks tool sc.
Proof.
  unfold triage_snapshot. intros Hsn. cbv zeta in Hsn. apply bind_ok in Hsn as (scs & Hscs & Hsn).
  apply checked_inv in Hsn as [<- _]. cbn [scopes]. cbv zeta. intros tool Ht.
  apply map_res_inv in Hscs.
  assert (tool ∈ sorted_set ((scope_completeness e).*1 ++
    (by_scope (correlated_findings t)).*1)) as Hin
    by (rewrite elem_of_sorted_set, elem_of_app; done).
  apply list_elem_of_lookup in Hin as [i Hi].
  destruct (Forall2_lookup_l _ _ _ _ _ Hscs Hi) as (sc & Hsc & Hs). exists sc.
  split; [by eapply list_elem_of_lookup_2|by apply scope_snapshot_inv].
Qed.

(** The scopes of one family have distinct keys, so the snapshot always builds. *)
Lemma triage_snapshot_ok bl u e t :
  (∀ s sc, bl = Some s → ∃ o, store_load s sc = Ok o) → ∃ snap, triage_snapshot bl u e t = Ok snap.
Proof.
  intros Hload. unfold triage_snapshot.
  set (family := test_family_of (test_id u)). set (co := scope_completeness e).
  set (ks := by_scope (correlated_findings t)). set (tools := sorted_set (co.*1 ++ ks.*1)).
  assert (∀ tool, ∃ sc, scope_snapshot bl family co ks tool = Ok sc) as Hsc.
  { intros tool. unfold scope_snapshot. destruct bl as [s|]; [|by eexists].
    destruct (Hload s (mkScope family tool) eq_refl) as [o ->]. by eexists. }
  assert (∃ scs, map_res (scope_snapshot bl family co ks) tools = Ok scs) as [scs Hscs].
  { clear -Hsc. induction tools as [|tool tools [scs IH]]; [by eexists|]. cbn.
    destruct (Hsc tool) as [sc ->]. cbn. rewrite IH. by eexists. }
  rewrite Hscs. cbn. apply map_res_inv in Hscs.
  eexists. apply checked_ok. unfold TriageSnapshot_check. cbn [scopes].
  rewrite bool_decide_eq_true_2; [done|].
  assert ((λ s, scope_key (ss_scope s)) <$> scs = (λ tool, scope_key (mkScope family tool)) <$> tools) as ->.
  { clear -Hscs. induction Hscs as [|tool sc tools scs Ha _ IH]; [done|].
    rewrite !fmap_cons, IH. f_equal. by apply scope_snapshot_inv in Ha as [-> _]. }
  apply NoDup_fmap_2; [|apply sorted_set_NoDup].
  intros a b. unfold scope_key. cbn. intros Hab. by apply (inj (String.app family)), (inj (String.app "::")) in Hab.
Qed.

(** A scope whose comparison shows nothing new: its keys are all known. *)
Lemma nothing_new s family co ks tool sc x :
  snapshot_of (Some s) family co ks tool sc → scope_has ks tool x →
  ss_new_keys sc = [] → (baseline_verdict sc = NoBaseline → ss_observed_keys sc = []) →
  ∃ b, store_load s (mkScope family tool) = Ok (Some b) ∧ x ∈ correlation_keys b.
Proof.
  intros (_ & _ & old & Hold & Hv & Hn & Ho) Hx Hnew Hobs. cbv zeta in Hv, Hn, Ho.
  destruct old as [b|].
  - exists b. split; [done|]. rewrite Hnew in Hn. cbn in Hn. symmetry in Hn.
    by apply (proj1 (set_minus_nil _ _) Hn).
  - cbn in Hv, Ho. rewrite Hobs in Ho by done. symmetry in Ho. pose proof (proj1 (sorted_set_nil _) Ho) as Hk.
    unfold scope_has in Hx. rewrite Hk in Hx. by apply elem_of_nil in Hx.
Qed.

Lemma concat_nil_elem {A B} (f : A → list B) (l : list A) a : concat (f <$> l) = [] → a ∈ l → f a = [].
Proof. rewrite concat_fmap_nil_iff. auto. Qed.

Lemma unproven_nil t : unproven_scopes t = [] ↔ ∀ sc, sc ∈ scopes t → completeness sc = Complete.
Proof.
  unfold unproven_scopes. rewrite fmap_nil_iff, filter_nil_iff.
  split; intros Hc sc Hin; specialize (Hc sc Hin); [by apply dec_stable|by intros Hn].
Qed.

(** What a [FINISH] rests on. *)
Definition finish_safe (bl : option S) (u : WorkUnit) (e : InitialEvidence)
    (rules : list SuppressionRule) (today : option string) (snap : TriageSnapshot) : Prop :=
  existsb stress_has_positive_signal (ev_stress e) = false ∧
  (∀ sc, sc ∈ scopes snap → completeness sc = Complete) ∧
  ∀ r f, r ∈ ev_sanitizer e → f ∈ findings r →
    hidden re_search rules (date_of today) f = true ∨
    ∃ s b, bl = Some s ∧
      store_load s (mkScope (test_family_of (test_id u)) (tool_name (source_tool f))) = Ok (Some b) ∧
      correlation_key f ∈ correlation_keys b.

(** A raw finding is hidden or kept. *)
Lemma raw_finding rules today e t r f :
  apply_policy re_search rules (concat (findings <$> ev_sanitizer e)) today = Ok (tr_suppressed t) →
  r ∈ ev_sanitizer e → f ∈ findings r →
  hidden re_search rules (date_of today) f = true ∨ f ∈ kept (tr_suppressed t).
Proof.
  intros Hap Hr Hf.
  assert (f ∈ concat (findings <$> ev_sanitizer e)) as Hin.
  { apply list_elem_of_In, in_concat. exists (findings r). split; [|by apply list_elem_of_In].
    apply list_elem_of_In, list_elem_of_fmap. eauto. }
  assert (∃ now, date_of today = now ∧
    partition_findings re_search rules now (concat (findings <$> ev_sanitizer e)) [] [] = tr_suppressed t)
    as (now & -> & Hpart).
  { unfold apply_policy in Hap. destruct today as [d|]; [|injection Hap as <-; by eexists].
    cbn. destruct (parse_ymd_date d); [|done]. injection Hap as <-. by eexists. }
  destruct (partition_spec _ _ _ _ _ _ _ Hpart) as (Hk & _ & _).
  destruct (hidden re_search rules now f) eqn:E; [by left|right].
  rewrite Hk. apply list_elem_of_filter. done.
Qed.

Lemma decide_finish_safe bl rules today u e d :
  decide_triage re_search bl rules today u e = Ok d → td_outcome d = Finish →
  ∃ snap, td_snapshot d = Some snap ∧ finish_safe bl u e rules today snap.
Proof.
  unfold decide_triage. intros Hd Hfin. cbv zeta in Hd. apply bind_ok in Hd as (t & Ht & Hd).
  apply bind_ok in Hd as (snap & Hsnap & Hd).
  destruct (correlate_evidence _ _ _ _ _ _) as [t'|] eqn:Hco; [|done]. injection Ht as ->.
  destruct (correlate_spec _ _ _ _ _ _ _ Hco) as (Hap & Hcor & Hsa). cbv zeta in Hcor, Hsa.
  destruct (initial_evidence_requires_inconclusive e); [by injection Hd as <-|].
  destruct (should_analyze t) eqn:Eshould; cbn [negb] in Hd.
  - destruct (existsb stress_reproduced (correlated_findings t)) eqn:Es; [by injection Hd as <-|].
    destruct bl as [s|]; [|by injection Hd as <-].
    destruct (introduced snap) eqn:Ei; cbn [nonempty] in Hd; [|by injection Hd as <-].
    destruct (unbaselined snap) eqn:Eu; cbn [nonempty] in Hd; [|by injection Hd as <-].
    destruct (unproven_scopes snap) eqn:Ep; cbn [nonempty] in Hd; [|by injection Hd as <-].
    injection Hd as <-. exists snap. split; [done|].
    destruct Hcor as [_ Hent Hcov _ Hstress]. split_and!; [congruence|by apply unproven_nil|].
    intros r f Hr Hf. destruct (raw_finding _ _ _ _ _ _ Hap Hr Hf) as [|Hk]; [by left|right].
    destruct (Hcov f Hk) as (en & Hen & Hfen). destruct (Hent en Hen) as (Hfs & _ & Htools).
    assert (scope_has (by_scope (correlated_findings t)) (tool_name (source_tool f)) (cf_key en)) as Hhas.
    { apply by_scope_has. exists en. split_and!; [done|done|]. exists (source_tool f). auto. }
    pose proof (triage_snapshot_inv _ _ _ _ _ Hsnap) as Hinv. cbv zeta in Hinv.
    destruct (Hinv (tool_name (source_tool f)))
      as (sc & Hsc & Hof); [right; by eapply scope_has_key|].
    destruct (nothing_new _ _ _ _ _ _ _ Hof Hhas) as (b & Hb & Hkb).
    { by apply (concat_nil_elem _ _ _ Ei). }
    { intros Hnb. apply (concat_nil_elem _ _ _ Eu). by apply list_elem_of_filter. }
    exists s, b. split_and!; [done|done|].
    rewrite Hfs in Hfen. apply list_elem_of_filter in Hfen as [-> _]. exact Hkb.
  - destruct (unproven_scopes snap) eqn:Ep; cbn [nonempty app] in Hd; [|by injection Hd as <-].
    destruct (existsb _ (ev_stress e)); cbn [nonempty app] in Hd; [by injection Hd as <-|].
    injection Hd as <-. exists snap. split; [done|].
    symmetry in Hsa. rewrite !orb_false_iff in Hsa. destruct Hsa as [[Hk _] Hst].
    split_and!; [done|by apply unproven_nil|].
    intros r f Hr Hf. destruct (raw_finding _ _ _ _ _ _ Hap Hr Hf) as [|Hin]; [by left|].
    apply nonempty_false in Hk. rewrite Hk in Hin. by apply elem_of_nil in Hin.
Qed.
End Decisions.

(** ** Recording the baselines of a published session *)

Section Recording.
Context {S : Type} `{BaselineStore S}.

Definition recorded_baseline (sc : ScopeTriageSnapshot) (revision day : string) : ScopeBaseline :=
  mkBaseline (ss_scope sc) (sorted_set (ss_observed_keys sc ++ ss_new_keys sc ++ ss_unchanged_keys sc))
    revision day.

Definition apart (scs : list ScopeTriageSnapshot) : Prop :=
  ∀ i j a b, scs !! i = Some a → scs !! j = Some b → i ≠ j → ¬ same_slot (ss_scope a) (ss_scope b).

Lemma apart_cons sc scs :
  apart (sc :: scs) →
  apart scs ∧ ∀ b, b ∈ scs →
    ¬ same_slot (ss_scope sc) (ss_scope b) ∧ ¬ same_slot (ss_scope b) (ss_scope sc).
Proof.
  intros Ha. split; [intros i j a b Hi Hj Hne; apply (Ha (Datatypes.S i) (Datatypes.S j)); auto; congruence|].
  intros b [j Hj]%list_elem_of_lookup.
  split; [by apply (Ha 0%nat (Datatypes.S j))|by apply (Ha (Datatypes.S j) 0%nat)].
Qed.

Lemma record_scopes_spec scs s revision day :
  parse_ymd_date day ≠ None → apart scs →
  ∃ s', record_scopes s scs revision day = (s', Ok ()) ∧
    (∀ sc, sc ∈ scs → store_load s' (ss_scope sc) =
       if decide (completeness sc = Complete) then Ok (Some (recorded_baseline sc revision day))
       else store_load s (ss_scope sc)) ∧
    (∀ other, (∀ sc, sc ∈ scs → ¬ same_slot other (ss_scope sc)) →
       store_load s' other = store_load s other).
Proof.
  intros Hday. revert s. induction scs as [|sc scs IH]; intros s Hap.
  { exists s. split_and!; [done| |done]. intros sc Hin. by apply elem_of_nil in Hin. }
  apply apart_cons in Hap as [Hap Hsc].
  set (s1 := if decide (completeness sc = Complete)
             then store_record s (recorded_baseline sc revision day) else s).
  destruct (IH s1 Hap) as (s' & Hrun & Hin & Hother). exists s'.
  assert (∀ x, ¬ same_slot x (ss_scope sc) → store_load s1 x = store_load s x) as H1.
  { intros x Hx. unfold s1. case_decide; [by apply load_other|done]. }
  split_and!.
  - cbn [record_scopes]. unfold baseline_from_scope, s1 in *. case_decide as Hc.
    + rewrite bool_decide_eq_true_2 by done. cbn [negb]. rewrite make_baseline_ok by done. exact Hrun.
    + rewrite bool_decide_eq_false_2 by done. exact Hrun.
  - intros x [->|Hx]%elem_of_cons.
    + rewrite Hother by (intros b Hb; by apply Hsc). unfold s1. case_decide; [|done].
      by apply load_recorded, same_slot_refl.
    + rewrite (Hin x Hx). case_decide; [done|]. apply H1. by apply Hsc.
  - intros other Hno. rewrite Hother by (intros b Hb; apply Hno; by right).
    apply H1, Hno. by left.
Qed.
End Recording.

(** ** Properties *)

(** Correlation neither drops nor repeats evidence.  The entries have
    distinct keys and their findings, put together, are the findings the
    suppression policy kept; each entry holds exactly the kept findings of its
    key, with their total count and every tool that saw one.  Some entry is
    marked reproduced exactly when a stress test gave a positive signal. *)
Theorem correlation_partitions_findings re_search unit_id e test_id rules today t :
  correlate_evidence re_search unit_id e test_id rules today = Ok t →
  let ks := kept (tr_suppressed t) in
  NoDup (cf_key <$> correlated_findings t) ∧
  concat (cf_findings <$> correlated_findings t) ≡ₚ ks ∧
  (∀ en, en ∈ correlated_findings t →
     cf_findings en = filter (λ f, correlation_key f = cf_key en) ks ∧
     total_count en = foldr Z.add 0 (count <$> cf_findings en) ∧
     ∀ f, f ∈ cf_findings en → source_tool f ∈ cf_tools en) ∧
  existsb stress_reproduced (correlated_findings t) = existsb stress_has_positive_signal (ev_stress e).
Proof.
  intros Hc ks. destruct (correlate_spec _ _ _ _ _ _ _ Hc) as (_ & [Hk He _ Hp Hs] & _).
  by split_and!.
Qed.

(** C9: a session is closed without analysis only on proof.  If triage answers
    FINISH, no stress test gave a positive signal, every scope was covered
    completely, and every finding of every sweep is hidden by the suppression
    policy or already in the baseline stored for its scope. *)
Theorem finish_only_on_proof re_search {S} `{BaselineStore S} (bl : option S) rules today u e d :
  decide_triage re_search bl rules today u e = Ok d → td_outcome d = Finish →
  existsb stress_has_positive_signal (ev_stress e) = false ∧
  (∃ snap, td_snapshot d = Some snap ∧ ∀ sc, sc ∈ scopes snap → completeness sc = Complete) ∧
  ∀ r f, r ∈ ev_sanitizer e → f ∈ findings r →
    hidden re_search rules (date_of today) f = true ∨
    ∃ s b, bl = Some s ∧
      store_load s (mkScope (test_family_of (test_id u)) (tool_name (source_tool f))) = Ok (Some b) ∧
      correlation_key f ∈ correlation_keys b.
Proof.
  intros Hd Hf. destruct (decide_finish_safe _ _ _ _ _ _ _ Hd Hf) as (snap & Hs & H1 & H2 & H3).
  split_and!; [done|eauto|done].
Qed.

(** Baselines advance only behind a delivered, sufficient report.  Otherwise
    the store is untouched.  When they do, every scope the snapshot proves
    complete reads back as what was observed in it, every other scope keeps the
    baseline it had, and doing it again changes nothing more. *)
Theorem baselines_advance_after_publication {S} `{BaselineStore S} (s : S) rb today p :
  match may_record rb today p with
  | None => record_published_baselines (Some s) rb today p = (Some s, Ok ())
  | Some (day, snap) =>
      today = Some day ∧ rb = true ∧ ps_status p = SessionCompleted ∧
      ps_publication p = ReportPublished ∧ ps_report_sufficiency p = Some Sufficient ∧
      (parse_ymd_date day ≠ None → apart (scopes snap) →
       ∃ s', record_published_baselines (Some s) rb today p = (Some s', Ok ()) ∧
         (∀ sc, sc ∈ scopes snap → store_load s' (ss_scope sc) =
            if decide (completeness sc = Complete)
            then Ok (Some (recorded_baseline sc (ps_source_revision p) day))
            else store_load s (ss_scope sc)) ∧
         ∃ s'', record_published_baselines (Some s') rb today p = (Some s'', Ok ()) ∧
           ∀ sc, sc ∈ scopes snap → store_load s'' (ss_scope sc) = store_load s' (ss_scope sc))
  end.
Proof.
  unfold record_published_baselines. destruct (may_record rb today p) as [[day snap]|] eqn:E; [|done].
  assert (today = Some day ∧ rb = true ∧ ps_status p = SessionCompleted ∧
          ps_publication p = ReportPublished ∧ ps_report_sufficiency p = Some Sufficient) as Hgate.
  { unfold may_record in E. destruct today as [d|]; [|done].
    destruct (ps_report_sufficiency p) as [[]|]; try done.
    destruct (ps_triage p) as [t|]; [|done].
    destruct rb; [|done]. cbn [andb] in E.
    case_bool_decide as H1; [|done]. case_bool_decide as H2; [|done]. cbn [andb] in E.
    case_bool_decide; [|done]. apply fmap_Some in E as (sn & _ & [= -> ->]). done. }
  destruct Hgate as (H1 & H2 & H3 & H4 & H5). split_and!; [done..|].
  intros Hday Hap.
  destruct (record_scopes_spec (scopes snap) s (ps_source_revision p) day Hday Hap) as (s' & Hr & Hin & _).
  destruct (record_scopes_spec (scopes snap) s' (ps_source_revision p) day Hday Hap) as (s'' & Hr' & Hin' & _).
  exists s'. rewrite Hr. split_and!; [done|done|]. exists s''. rewrite Hr'. split; [done|].
  intros sc Hsc. rewrite (Hin' sc Hsc). case_decide; [|done]. by rewrite (Hin sc Hsc), decide_True.
Qed.

(** ** A campaign with one known finding *)

Definition demo_finding : FindingRecord :=
  mkFinding "compute_sanitizer/memcheck" "invalid_read" (Some "attn_fwd")
    (Some (mkSourceLoc "attn.py" 120)) 3 "" "".

Definition demo_provenance : ExecutionProvenance := mkProvenance "rev" "sm_90" None "" "".

Definition demo_sweep : SanitizerSweepResult :=
  mkSweep "e1" Succeeded SaniFinding "memcheck" [demo_finding; demo_finding] demo_provenance
    None f_zero None None Complete [] false.

Definition demo_stress : StressTestResult :=
  mkStress "e2" Succeeded NotReproduced 6 0 0 demo_provenance None None f_zero None 6 0 Complete 0 [].

Definition demo_evidence : InitialEvidence := mkEvidence [demo_sweep] [demo_stress].

Definition demo_work : WorkUnit :=
  mkUnit "unit-1" ["pytest"] "triton_pytest" "test_attn[64-fp16]" "" "" "rev" None None [] [].

(** The baseline store of the last campaign, on files. *)
Definition demo_store : gmap string json :=
  file_record (λ k, k) ∅
    (mkBaseline (mkScope "test_attn" "memcheck") ["attn_fwd|attn.py:120|invalid_read"] "r0" "2026-01-30").

Definition demo_decision : TriageDecision :=
  mkTriageDecision Finish "all findings are unchanged since the last complete baseline"
    (Some (mkTriageSnapshot
      [mkScopeSnapshot (mkScope "test_attn" "memcheck") Complete Unchanged [] [] []
         ["attn_fwd|attn.py:120|invalid_read"] false] Complete [])).

Definition no_patterns (p n : string) : bool := false.

Lemma correlation_partitions_findings_witness :
  ∃ t, correlate_evidence no_patterns "unit-1" demo_evidence "test_attn[64-fp16]" [] None = Ok t ∧
       concat (cf_findings <$> correlated_findings t) ≡ₚ [demo_finding; demo_finding].
Proof.
  eexists. split; [reflexivity|].
  eapply (correlation_partitions_findings no_patterns "unit-1" demo_evidence "test_attn[64-fp16]" [] None).
  reflexivity.
Defined.

Lemma finish_only_on_proof_witness :
  ∃ b, file_load (λ k, k) demo_store (mkScope "test_attn" "memcheck") = Ok (Some b) ∧
       correlation_key demo_finding ∈ correlation_keys b.
Proof.
  destruct (@finish_only_on_proof no_patterns _ (FileBaselineStore (λ k, k)) (Some demo_store)
    [] None demo_work demo_evidence demo_decision) as (_ & _ & Hf).
  - vm_compute. reflexivity.
  - reflexivity.
  - destruct (Hf demo_sweep demo_finding) as [Hh|(s & b & Hs & Hb & Hin)].
    + left.
    + left.
    + discriminate Hh.
    + injection Hs as <-. exists b. split; [exact Hb|exact Hin].
Defined.
