(* ===== verification/Regex.v ===== *)
(** The part of Python's [re] that the parsers use: a backtracking matcher with
    Python's order of alternatives, named groups, repetition of a single
    character class, and greedy repetition of a pattern ([(?:...)*]), which stops
    at an iteration that consumes nothing.

    [rm] runs a pattern and passes each way of matching, in order, to its
    continuation until one succeeds; [Rx] patterns are written like the source
    they transcribe. *)
From S2P Require Import Prelude.
From S2P Require Import PyStr.
From Stdlib Require Import Ascii.
From Stdlib Require String.
Local Open Scope Z_scope.

Inductive re :=
| Eps
| Cls (p : ascii → bool)
| Cat (a b : re)
| Alt (a b : re)
| Rep (greedy : bool) (p : ascii → bool)
| Many (a : re)
| Grp (name : string) (a : re)
| Eol
| Wordb.

(** ** Character classes *)

Definition is_word (c : ascii) : bool :=
  let n := code c in
  is_digit c || ((65 <=? n) && (n <=? 90)) || ((97 <=? n) && (n <=? 122)) || (n =? 95).
Definition not_space (c : ascii) : bool := negb (is_space c).
Definition is_hex (c : ascii) : bool :=
  let n := code c in
  is_digit c || ((65 <=? n) && (n <=? 70)) || ((97 <=? n) && (n <=? 102)).
(** [.] *)
Definition any_char (c : ascii) : bool := negb (Ascii.eqb c "010"%char).

(** ** Pattern notation *)

Declare Scope re_scope.
Delimit Scope re_scope with re.
Bind Scope re_scope with re.

Fixpoint lit_chars (l : list ascii) : re :=
  match l with [] => Eps | c :: r => Cat (Cls (Ascii.eqb c)) (lit_chars r) end.
Definition lit (s : string) : re := lit_chars (chars s).
Definition plus (p : ascii → bool) : re := Cat (Cls p) (Rep true p).
Definition plus_lazy (p : ascii → bool) : re := Cat (Cls p) (Rep false p).
Definition opt_re (a : re) : re := Alt a Eps.

Infix "·" := Cat (at level 40, left associativity) : re_scope.
Infix "∥" := Alt (at level 50, left associativity) : re_scope.

(** ** Matching *)

(** The character before the position, and the text after it. *)
Definition pos : Type := option ascii * list ascii.
Definition captures : Type := list (string * list ascii).

Section Match.
Context {R : Type}.
Implicit Types k : pos → captures → option R.

(** [or]: the first way that works. *)
Definition orelse (a b : option R) : option R := match a with Some x => Some x | None => b end.

Fixpoint rep (greedy : bool) (p : ascii → bool) k (prev : option ascii) (rest : list ascii)
    (c : captures) : option R :=
  match rest with
  | x :: t =>
      if p x then
        if greedy then orelse (rep greedy p k (Some x) t c) (k (prev, rest) c)
        else orelse (k (prev, rest) c) (rep greedy p k (Some x) t c)
      else k (prev, rest) c
  | [] => k (prev, rest) c
  end.

Definition at_word (o : option ascii) : bool := match o with Some c => is_word c | None => false end.

Fixpoint rm (r : re) k (at_ : pos) (c : captures) : option R :=
  match r with
  | Eps => k at_ c
  | Cls p => match at_.2 with x :: t => if p x then k (Some x, t) c else None | [] => None end
  | Cat a b => rm a (λ at_ c, rm b k at_ c) at_ c
  | Alt a b => orelse (rm a k at_ c) (rm b k at_ c)
  | Rep greedy p => rep greedy p k at_.1 at_.2 c
  | Many a =>
      (fix many (fuel : nat) (at_ : pos) (c : captures) : option R :=
         match fuel with
         | O => k at_ c
         | S n =>
             orelse
               (rm a (λ at' c', if (length at'.2 <? length at_.2)%nat then many n at' c' else None) at_ c)
               (k at_ c)
         end) (length at_.2) at_ c
  | Grp name a =>
      rm a (λ at' c, k at' ((name, take (length at_.2 - length at'.2) at_.2) :: c)) at_ c
  | Eol => if bool_decide (at_.2 = [] ∨ at_.2 = ["010"%char]) then k at_ c else None
  | Wordb =>
      if xorb (at_word at_.1) (at_word (head at_.2)) then k at_ c else None
  end.
End Match.

(** A match object: its groups and the text after it. *)
Record matched := mkMatched { groups : captures; after : list ascii }.

Definition match_from (r : re) (at_ : pos) : option matched :=
  rm r (λ at_ c, Some (mkMatched c at_.2)) at_ [].

(** [r.match(s)] and [r.fullmatch(s)]. *)
Definition re_match (r : re) (s : list ascii) : option matched := match_from r (None, s).
Definition re_fullmatch (r : re) (s : list ascii) : option matched :=
  rm r (λ at_ c, if bool_decide (at_.2 = []) then Some (mkMatched c []) else None) (None, s) [].

(** [r.search(s)]: the first position that matches, with the text before it. *)
Fixpoint search_from (r : re) (seen : list ascii) (prev : option ascii) (s : list ascii)
    : option (list ascii * matched) :=
  match match_from r (prev, s) with
  | Some m => Some (rev seen, m)
  | None => match s with [] => None | x :: t => search_from r (x :: seen) (Some x) t end
  end.
Definition re_search (r : re) (s : list ascii) : option (list ascii * matched) :=
  search_from r [] None s.

(** [r.sub("", s)] of a pattern that ends where the text does. *)
Definition re_strip (r : re) (s : list ascii) : list ascii :=
  match re_search r s with Some (before, m) => before ++ after m | None => s end.

(** [m[name]]: the text of a group, [None] where it did not take part. *)
Fixpoint group (c : captures) (name : string) : option (list ascii) :=
  match c with
  | [] => None
  | (n, t) :: r => if String.eqb name n then Some t else group r name
  end.

(** ** What a match says of its text *)

(** A literal is consumed from the front of the text. *)
Lemma rm_lit {R} l (k : pos → captures → option R) at_ c x :
  rm (lit_chars l) k at_ c = Some x → ∃ prev t, at_.2 = l ++ t ∧ k (prev, t) c = Some x.
Proof.
  revert at_. induction l as [|a l IH]; intros [prev s] H; cbn in H; [by exists prev, s|].
  destruct s as [|b s]; cbn in H; [done|]. destruct (Ascii.eqb_spec a b) as [<-|]; [|done].
  apply IH in H as (prev' & t & E & H). cbn in E. subst s. by exists prev', t.
Qed.

Lemma orelse_some {R} (a b : option R) x : orelse a b = Some x → a = Some x ∨ b = Some x.
Proof. destruct a; cbn; auto. Qed.

Lemma rep_some {R} g p (k : pos → captures → option R) prev s c x :
  rep g p k prev s c = Some x → ∃ at_, k at_ c = Some x.
Proof.
  revert prev. induction s as [|a s IH]; intros prev H; cbn in H; [eauto|].
  destruct (p a); [|eauto]. destruct g; apply orelse_some in H as [H|H]; eauto.
Qed.

(** A greedy repetition before something that always works takes all it can. *)
Lemma rep_greedy {R} p (k : pos → captures → option R) prev s c :
  (∀ at_ c, k at_ c ≠ None) →
  ∃ d t prev', s = d ++ t ∧ Forall (λ x, p x = true) d ∧
    (∀ x, head t = Some x → p x = false) ∧ rep true p k prev s c = k (prev', t) c.
Proof.
  intros Hk. revert prev. induction s as [|x s IH]; intros prev; cbn.
  { by exists [], [], prev. }
  destruct (p x) eqn:Ex.
  - destruct (IH (Some x)) as (d & t & prev' & -> & Hd & Ht & ->). exists (x :: d), t, prev'.
    split_and!; [done|by constructor|done|]. destruct (k (prev', t) c) eqn:E; [done|by apply Hk in E].
  - exists [], (x :: s), prev. split_and!; [done|constructor|by intros y [= <-]|done].
Qed.

(** Groups that take part in every match of a pattern. *)
Fixpoint groups_of (r : re) : list string :=
  match r with
  | Cat a b => groups_of a ++ groups_of b
  | Grp n a => n :: groups_of a
  | _ => []
  end.

Definition has_groups (ns : list string) (c : captures) : Prop := Forall (λ n, group c n ≠ None) ns.

Lemma has_groups_cons ns n t c : has_groups ns c → has_groups ns ((n, t) :: c).
Proof.
  intros H. eapply Forall_impl; [exact H|]. intros n' Hn. cbn. by destruct (String.eqb n' n).
Qed.

Lemma rm_groups {R} r ns (k : pos → captures → option R) at_ c x :
  rm r k at_ c = Some x → has_groups ns c →
  ∃ at' c', k at' c' = Some x ∧ has_groups (groups_of r ++ ns) c'.
Proof.
  unfold has_groups. revert ns k at_ c.
  induction r as [|p|a IHa b IHb|a IHa b IHb|g p|a IHa|n a IHa| |]; intros ns k at_ c H Hc; cbn in *.
  - eauto.
  - destruct (at_.2) as [|y t]; [done|]. destruct (p y); [eauto|done].
  - destruct (IHa ns _ _ _ H Hc) as (at1 & c1 & E1 & H1).
    destruct (IHb _ _ _ _ E1 H1) as (at2 & c2 & E2 & H2).
    exists at2, c2. split; [done|]. rewrite !Forall_app in *. tauto.
  - apply orelse_some in H as [H|H];
      [destruct (IHa ns _ _ _ H Hc) as (at1 & c1 & E1 & H1)|destruct (IHb ns _ _ _ H Hc) as (at1 & c1 & E1 & H1)];
      exists at1, c1; rewrite Forall_app in H1; tauto.
  - apply rep_some in H as (at1 & E1). eauto.
  - revert H. generalize (length at_.2) as fuel. intros fuel. revert at_ c Hc.
    induction fuel as [|fuel IH]; intros at_ c Hc H; [eauto|]. apply orelse_some in H as [H|H]; [|eauto].
    destruct (IHa ns _ _ _ H Hc) as (at1 & c1 & E1 & H1).
    assert (Hn : Forall (λ n, group c1 n ≠ None) ns) by (apply Forall_app in H1; tauto).
    refine (IH at1 c1 Hn _). revert E1.
    match goal with |- (if ?b then _ else None) = _ → _ => destruct b; [by intros E|done] end.
  - destruct (IHa ns _ _ _ H Hc) as (at1 & c1 & E1 & H1). eexists at1, _. split; [exact E1|].
    constructor; [by cbn; rewrite String.eqb_refl|]. by apply has_groups_cons.
  - case_bool_decide; [eauto|done].
  - destruct (xorb _ _); [eauto|done].
Qed.

Lemma re_match_groups r s m : re_match r s = Some m → has_groups (groups_of r) (groups m).
Proof.
  intros H. apply (rm_groups r []) in H as (at_ & c & [= <-] & H); [|by constructor].
  by rewrite app_nil_r in H.
Qed.

Lemma re_fullmatch_groups r s m : re_fullmatch r s = Some m → has_groups (groups_of r) (groups m).
Proof.
  intros H. apply (rm_groups r []) in H as (at_ & c & H & Hg); [|by constructor].
  case_bool_decide; [|done]. injection H as <-. by rewrite app_nil_r in Hg.
Qed.

(** A pattern that starts with a literal matches only text that does. *)
Lemma re_match_lit w r s m : re_match (Cat (lit w) r) s = Some m → ∃ t, s = chars w ++ t.
Proof. intros H. apply rm_lit in H as (prev & t & H & _). by exists t. Qed.
Lemma re_fullmatch_lit w r s m : re_fullmatch (Cat (lit w) r) s = Some m → ∃ t, s = chars w ++ t.
Proof. intros H. apply rm_lit in H as (prev & t & H & _). by exists t. Qed.

Lemma has_groups_get ns c n : has_groups ns c → n ∈ ns → ∃ t, group c n = Some t.
Proof.
  intros H Hn. eapply Forall_forall in H; [|exact Hn]. cbn in H. destruct (group c n) eqn:E; [eauto|done].
Qed.

(** What a pattern consumes, and what a group of it captures, is of a class. *)
Fixpoint consumes (p : ascii → bool) (r : re) : Prop :=
  match r with
  | Eps | Eol | Wordb => True
  | Cls q | Rep _ q => ∀ c, q c = true → p c = true
  | Cat a b | Alt a b => consumes p a ∧ consumes p b
  | Many a | Grp _ a => consumes p a
  end.
Fixpoint captures_in (p : ascii → bool) (n : string) (r : re) : Prop :=
  match r with
  | Cat a b | Alt a b => captures_in p n a ∧ captures_in p n b
  | Many a => captures_in p n a
  | Grp n' a => (n = n' → consumes p a) ∧ captures_in p n a
  | _ => True
  end.

Definition group_in (p : ascii → bool) (n : string) (c : captures) : Prop :=
  ∀ t, group c n = Some t → Forall (λ x, p x = true) t.

(** The text [t] read from one position to another. *)
Definition reads (p : ascii → bool) (r : re) (s : list ascii) (s' : list ascii) : Prop :=
  ∃ t, s = t ++ s' ∧ (consumes p r → Forall (λ x, p x = true) t).

Lemma rep_reads {R} p g q (k : pos → captures → option R) prev s c x :
  rep g q k prev s c = Some x → ∃ at_, k at_ c = Some x ∧ reads p (Rep g q) s at_.2.
Proof.
  assert (Hstay : ∀ prev s, k (prev, s) c = Some x → ∃ at_, k at_ c = Some x ∧ reads p (Rep g q) s at_.2).
  { intros pr l H. eexists. split; [exact H|]. by exists []. }
  revert prev. induction s as [|a s IH]; intros prev H; cbn in H; [by eapply Hstay|].
  destruct (q a) eqn:Eq; [|by eapply Hstay].
  assert (Hgo : rep g q k (Some a) s c = Some x → ∃ at_, k at_ c = Some x ∧ reads p (Rep g q) (a :: s) at_.2).
  { intros H'. apply IH in H' as (at_ & E & t & -> & Ht). exists at_. split; [done|]. exists (a :: t). split; [done|].
    intros Hc. constructor; [by apply Hc|by apply Ht]. }
  destruct g; apply orelse_some in H as [H|H]; eauto.
Qed.

Lemma rm_reads {R} p n r (k : pos → captures → option R) at_ c x :
  rm r k at_ c = Some x → group_in p n c → captures_in p n r →
  ∃ at' c', k at' c' = Some x ∧ reads p r at_.2 at'.2 ∧ group_in p n c'.
Proof.
  revert k at_ c.
  induction r as [|q|a IHa b IHb|a IHa b IHb|g q|a IHa|n' a IHa| |]; intros k at_ c H Hc Hr; cbn in *.
  - exists at_, c. split_and!; [done|by exists []|done].
  - destruct (at_.2) as [|y t] eqn:Et; [done|]. destruct (q y) eqn:Eq; [|done]. eexists _, _. split_and!; [exact H| |done].
    exists [y]. split; [done|]. intros Hq. by repeat constructor; apply Hq.
  - destruct Hr as [Hra Hrb]. destruct (IHa _ _ _ H Hc Hra) as (at1 & c1 & E1 & (t1 & S1 & F1) & G1).
    destruct (IHb _ _ _ E1 G1 Hrb) as (at2 & c2 & E2 & (t2 & S2 & F2) & G2). exists at2, c2. split_and!; [done| |done].
    exists (t1 ++ t2). split; [by rewrite S1, S2, app_assoc|]. intros [Ha Hb]. apply Forall_app. auto.
  - destruct Hr as [Hra Hrb]. apply orelse_some in H as [H|H].
    + destruct (IHa _ _ _ H Hc Hra) as (at1 & c1 & E1 & (t1 & S1 & F1) & G1). exists at1, c1. split_and!; [done| |done].
      exists t1. split; [done|]. intros [Ha _]. auto.
    + destruct (IHb _ _ _ H Hc Hrb) as (at1 & c1 & E1 & (t1 & S1 & F1) & G1). exists at1, c1. split_and!; [done| |done].
      exists t1. split; [done|]. intros [_ Hb]. auto.
  - apply (rep_reads p) in H as (at1 & E1 & H1). eauto.
  - revert H. generalize (length at_.2) as fuel. intros fuel. revert at_ c Hc.
    induction fuel as [|fuel IH]; intros at_ c Hc H.
    { exists at_, c. split_and!; [done|by exists []|done]. }
    apply orelse_some in H as [H|H]; [|exists at_, c; split_and!; [done|by exists []|done]].
    destruct (IHa _ _ _ H Hc Hr) as (at1 & c1 & E1 & (t1 & S1 & F1) & G1).
    revert E1. match goal with |- (if ?b then _ else None) = _ → _ => destruct b; [intros E1|done] end.
    destruct (IH at1 c1 G1 E1) as (at2 & c2 & E2 & (t2 & S2 & F2) & G2). exists at2, c2. split_and!; [done| |done].
    exists (t1 ++ t2). split; [by rewrite S1, S2, app_assoc|]. intros Ha. apply Forall_app. auto.
  - destruct Hr as [Hn Ha]. destruct (IHa _ _ _ H Hc Ha) as (at1 & c1 & E1 & (t1 & S1 & F1) & G1).
    eexists at1, _. split_and!; [exact E1|by exists t1|]. intros t. cbn. rewrite S1, length_app.
    replace (length t1 + length at1.2 - length at1.2)%nat with (length t1) by lia. rewrite take_app_length.
    destruct (String.eqb_spec n n') as [->|]; [|apply G1]. intros [= <-]. auto.
  - case_bool_decide; [|done]. exists at_, c. split_and!; [done|by exists []|done].
  - destruct (xorb _ _); [|done]. exists at_, c. split_and!; [done|by exists []|done].
Qed.

Lemma re_match_group_in p n r s m : captures_in p n r → re_match r s = Some m → group_in p n (groups m).
Proof. intros Hr H. apply (rm_reads p n) in H as (at_ & c & [= <-] & _ & H); [done|done|done]. Qed.

Lemma re_fullmatch_group_in p n r s m : captures_in p n r → re_fullmatch r s = Some m → group_in p n (groups m).
Proof.
  intros Hr H. apply (rm_reads p n) in H as (at_ & c & H & _ & Hg); [|done|done]. case_bool_decide; [|done]. by injection H as <-.
Qed.

(** ** [re.findall] and [re.sub] of a pattern that consumes text

    The matches of a pattern from left to right, none overlapping another, with
    the text between them. *)
Fixpoint re_scan (fuel : nat) (r : re) (prev : option ascii) (s : list ascii) : list captures * list ascii :=
  match fuel with
  | O => ([], s)
  | S n =>
      match search_from r [] prev s with
      | None => ([], s)
      | Some (before, m) =>
          let used := take (length s - length (after m)) s in
          let '(ms, rest) := re_scan n r (last used) (after m) in (groups m :: ms, before ++ rest)
      end
  end.
Definition re_findall (r : re) (s : list ascii) : list captures := (re_scan (length s) r None s).1.
(** [r.sub("", s)] *)
Definition re_remove (r : re) (s : list ascii) : list ascii := (re_scan (length s) r None s).2.
