(* ===== verification/Sanitizer.v ===== *)
(** Compute Sanitizer reports: src/python/cutracer/compute_sanitizer/parser.py.

    The racecheck parser is a state machine over the lines of a log; its fields
    are those of [_RacecheckParser], its methods functions on them.  The other
    three tools share [_ErrorCheckerParser].  Patterns are transcribed from the
    source into Regex.v's; a [groupdict] is the captures of a match.  [int] of a
    run of digits is [dec_value]. *)
From S2P Require Import Prelude.
From S2P Require Import PyStr.
From S2P Require Import Regex.
From Stdlib Require Import Ascii.
From Stdlib Require String.
Local Open Scope Z_scope.

Notation text := (list ascii).

Inductive RacecheckSeverity := SevError | SevWarning.
#[export] Instance severity_eq_dec : EqDecision RacecheckSeverity.
Proof. solve_decision. Defined.

Inductive RacecheckParseDiagnostic :=
| MISSING_SUMMARY
| MALFORMED_SUMMARY
| MULTIPLE_SUMMARIES
| INCOMPLETE_FINDING
| UNPARSED_FINDING
| SUMMARY_COUNT_MISMATCH
| SUMMARY_FINDING_MISMATCH
| INTERNAL_TOOL_ERROR.
#[export] Instance diagnostic_eq_dec : EqDecision RacecheckParseDiagnostic.
Proof. solve_decision. Defined.

Inductive CheckerTool := INITCHECK | MEMCHECK | RACECHECK | SYNCCHECK.

Record RacecheckAccess := mkAccess {
  role : string;
  access_type : text;
  ac_function : text;
  ac_offset : text;
  ac_file : text;
  ac_line : Z;
  ac_hazards : option Z
}.

Record RacecheckFinding := mkFinding {
  severity : RacecheckSeverity;
  accesses : list RacecheckAccess;
  rf_raw_block : text
}.

Definition max_hazards (f : RacecheckFinding) : option Z :=
  match omap ac_hazards (accesses f) with [] => None | h :: r => Some (fold_left Z.max r h) end.

(** First-seen order. *)
Definition seen_once (l : list text) : list text :=
  fold_left (λ kinds k, if decide (k ∈ kinds) then kinds else kinds ++ [k]) l [].
Definition access_kinds (f : RacecheckFinding) : list text := seen_once (access_type <$> accesses f).

Record RacecheckInvalidAccess := mkInvalid {
  ri_message : text;
  ri_access_type : text;
  size_bytes : Z;
  access : option RacecheckAccess;
  ri_raw_block : text
}.

Record RacecheckSummary := mkSummary {
  total_hazards : Z;
  errors : Z;
  warnings : Z;
  rs_raw : text
}.

Record RacecheckParseResult := mkResult {
  findings : list RacecheckFinding;
  summary : option RacecheckSummary;
  diagnostics : list RacecheckParseDiagnostic;
  output_truncated : bool;
  invalid_accesses : list RacecheckInvalidAccess
}.

Definition has_positive_signal (r : RacecheckParseResult) : bool :=
  bool_decide (length (findings r) ≠ 0%nat) || bool_decide (length (invalid_accesses r) ≠ 0%nat).
Definition is_complete (r : RacecheckParseResult) : bool :=
  match summary r, diagnostics r with Some _, [] => true | _, _ => false end.

(** ** Patterns *)

Local Open Scope re_scope.

Definition opt_s : re := opt_re (lit "s").
Definition access_re : re :=
  Grp "type" (plus is_word) · lit " access at " · Grp "func" (plus not_space) · lit "+" ·
  Grp "offset" (lit "0x" · plus is_hex) · lit " in " · Grp "file" (plus_lazy any_char) · lit ":" ·
  Grp "line" (plus is_digit).

Definition HEADER_RE : re :=
  Grp "level" (lit "Error" ∥ lit "Warning") ·
  (lit ": Race reported between " · access_re · Rep true is_space · Eol).

Definition CONFLICT_RE : re :=
  lit "and " ·
  (access_re ·
   opt_re (Rep true is_space · lit "[" · Grp "hazards" (plus is_digit) · lit " hazard" · opt_s · lit "]") ·
   Rep true is_space · Eol).

Definition SUMMARY_RE : re :=
  lit "RACECHECK SUMMARY: " ·
  (Grp "total" (plus is_digit) · lit " hazard" · opt_s · lit " displayed (" ·
   Grp "errors" (plus is_digit) · lit " error" · opt_s · lit ", " ·
   Grp "warnings" (plus is_digit) · lit " warning" · opt_s · lit ")" · Eol).

Definition TRUNCATION_RE : re := lit "Warning: Maximum number of hazards reached" · Eps.

Definition INVALID_ACCESS_RE : re :=
  lit "Potential invalid __shared__ " ·
  (Grp "type" (plus is_word) · lit " of size " · Grp "size" (plus is_digit) · lit " bytes" ·
   Rep true is_space · Eol).

Definition INVALID_SITE_RE : re :=
  lit "at " ·
  (Grp "func" (plus_lazy any_char) · lit "+" · Grp "offset" (lit "0x" · plus is_hex) ·
   opt_re (lit " in " · Grp "file" (plus_lazy any_char) · lit ":" · Grp "line" (plus is_digit)) ·
   Rep true is_space · Eol).

Local Close Scope re_scope.

Definition SITE_LOOKAHEAD : Z := 3.
Definition PREFIX : text := chars "=========".
Definition INTERNAL_TOOL_ERROR_PREFIX : text := chars "Internal Sanitizer Error:".

Definition sanitizer_body (line : text) : option text :=
  match after_first (PREFIX ++ [" "%char]) line with
  | Some rest => Some (strip (" "%char :: rest))
  | None => None
  end.

(** ** Building reports from captured groups *)

Definition required (g : captures) (name : string) : res exn text :=
  match group g name with Some t => Ok t | None => Err ValueError end.

Definition build_access (g : captures) (role : string) : res exn RacecheckAccess :=
  type ← required g "type";
  func ← required g "func";
  offset ← required g "offset";
  file ← required g "file";
  line ← required g "line";
  Ok (mkAccess role type func offset file (dec_value line) (dec_value <$> group g "hazards")).

Fixpoint build_accesses (gs : list captures) (role : string) : res exn (list RacecheckAccess) :=
  match gs with
  | [] => Ok []
  | g :: r => a ← build_access g role; l ← build_accesses r role; Ok (a :: l)
  end.

Definition newline : text := ["010"%char].

Definition build_finding (header : captures) (conflicts : list captures) (raw_lines : list text)
    : res exn RacecheckFinding :=
  level ← required header "level";
  let sev := if bool_decide (level = chars "Error") then SevError else SevWarning in
  primary ← build_access header "primary";
  others ← build_accesses conflicts "conflict";
  Ok (mkFinding sev (primary :: others) (join_text newline raw_lines)).

Definition build_invalid_access (g : captures) (site : option captures) (raw_lines : list text)
    : res exn RacecheckInvalidAccess :=
  type ← required g "type";
  size ← required g "size";
  access ← match site with
           | None => Ok None
           | Some s =>
               func ← required s "func";
               offset ← required s "offset";
               Ok (Some (mkAccess "primary" type func offset (default [] (group s "file"))
                           (default 0 (dec_value <$> group s "line")) None))
           end;
  Ok (mkInvalid (chars "Potential invalid __shared__ " ++ type ++ chars " of size " ++
                 chars (pretty (dec_value size)) ++ chars " bytes")
        type (dec_value size) access (join_text newline raw_lines)).

Definition summary_consistency_diagnostics (s : RacecheckSummary) (fs : list RacecheckFinding)
    (invalid : list RacecheckInvalidAccess) : list RacecheckParseDiagnostic :=
  let total_is_zero := total_hazards s =? 0 in
  let severities_are_zero := (errors s =? 0) && (warnings s =? 0) in
  let summary_is_positive := negb (total_is_zero && severities_are_zero) in
  let reported_anything :=
    bool_decide (length fs ≠ 0%nat) || bool_decide (length invalid ≠ 0%nat) in
  let errors_mismatch := existsb (λ f, bool_decide (severity f = SevError)) fs && (errors s =? 0) in
  let warnings_mismatch := existsb (λ f, bool_decide (severity f = SevWarning)) fs && (warnings s =? 0) in
  let missing_report := summary_is_positive && negb reported_anything in
  let unexpected_report := negb summary_is_positive && reported_anything in
  (if xorb total_is_zero severities_are_zero then [SUMMARY_COUNT_MISMATCH] else []) ++
  (if missing_report || unexpected_report || errors_mismatch || warnings_mismatch
   then [SUMMARY_FINDING_MISMATCH] else []).

(** ** The racecheck parser *)

Record RacecheckParser := mkParser {
  p_findings : list RacecheckFinding;
  p_invalid : list RacecheckInvalidAccess;
  p_diagnostics : list RacecheckParseDiagnostic;
  p_summary : option RacecheckSummary;
  summary_markers : Z;
  p_truncated : bool;
  header : option captures;
  conflicts : list captures;
  raw_lines : list text;
  pending_invalid : option captures;
  invalid_lookahead : Z
}.
Definition parser0 : RacecheckParser := mkParser [] [] [] None 0 false None [] [] None 0.

Definition add_diagnostic (ds : list RacecheckParseDiagnostic) (issue : RacecheckParseDiagnostic)
    : list RacecheckParseDiagnostic :=
  if decide (issue ∈ ds) then ds else ds ++ [issue].

Definition diagnose (issue : RacecheckParseDiagnostic) (p : RacecheckParser) : RacecheckParser :=
  mkParser (p_findings p) (p_invalid p) (add_diagnostic (p_diagnostics p) issue) (p_summary p)
    (summary_markers p) (p_truncated p) (header p) (conflicts p) (raw_lines p) (pending_invalid p)
    (invalid_lookahead p).

(** The block being read; [flush] leaves none. *)
Definition set_block (h : option captures) (cs : list captures) (raw : list text)
    (inv : option captures) (look : Z) (p : RacecheckParser) : RacecheckParser :=
  mkParser (p_findings p) (p_invalid p) (p_diagnostics p) (p_summary p) (summary_markers p)
    (p_truncated p) h cs raw inv look.
Definition add_finding (f : RacecheckFinding) (p : RacecheckParser) : RacecheckParser :=
  mkParser (p_findings p ++ [f]) (p_invalid p) (p_diagnostics p) (p_summary p) (summary_markers p)
    (p_truncated p) (header p) (conflicts p) (raw_lines p) (pending_invalid p) (invalid_lookahead p).
Definition add_invalid (i : RacecheckInvalidAccess) (p : RacecheckParser) : RacecheckParser :=
  mkParser (p_findings p) (p_invalid p ++ [i]) (p_diagnostics p) (p_summary p) (summary_markers p)
    (p_truncated p) (header p) (conflicts p) (raw_lines p) (pending_invalid p) (invalid_lookahead p).
Definition set_summary (s : option RacecheckSummary) (markers : Z) (p : RacecheckParser) : RacecheckParser :=
  mkParser (p_findings p) (p_invalid p) (p_diagnostics p) s markers (p_truncated p) (header p)
    (conflicts p) (raw_lines p) (pending_invalid p) (invalid_lookahead p).
Definition set_truncated (p : RacecheckParser) : RacecheckParser :=
  mkParser (p_findings p) (p_invalid p) (p_diagnostics p) (p_summary p) (summary_markers p) true
    (header p) (conflicts p) (raw_lines p) (pending_invalid p) (invalid_lookahead p).

Definition flush_header (p : RacecheckParser) : res exn RacecheckParser :=
  match header p with
  | None => Ok p
  | Some h =>
      match conflicts p with
      | [] => Ok (diagnose INCOMPLETE_FINDING p)
      | cs => f ← build_finding h cs (raw_lines p); Ok (add_finding f p)
      end
  end.

Definition flush_invalid (p : RacecheckParser) : res exn RacecheckParser :=
  match pending_invalid p with
  | None => Ok p
  | Some g => i ← build_invalid_access g None (raw_lines p); Ok (add_invalid i p)
  end.

Definition flush (p : RacecheckParser) : res exn RacecheckParser :=
  p ← flush_header p;
  p ← flush_invalid p;
  Ok (set_block None [] [] None 0 p).

Definition summary_of_match (m : matched) (body : text) : res exn RacecheckSummary :=
  total ← required (groups m) "total";
  errs ← required (groups m) "errors";
  warns ← required (groups m) "warnings";
  Ok (mkSummary (dec_value total) (dec_value errs) (dec_value warns) body).

Definition consume_summary (body : text) (p : RacecheckParser) : res exn (RacecheckParser * bool) :=
  if contains (chars "RACECHECK SUMMARY:") body then
    p ← flush p;
    let p := set_summary (p_summary p) (summary_markers p + 1) p in
    match re_fullmatch SUMMARY_RE body with
    | Some m => s ← summary_of_match m body; Ok (set_summary (Some s) (summary_markers p) p, true)
    | None => Ok (diagnose MALFORMED_SUMMARY p, true)
    end
  else Ok (p, false).

(** The lines after an invalid-access message: its site, or a bounded search
    for it. *)
Definition consume_pending (body : text) (g : captures) (p : RacecheckParser)
    : res exn (RacecheckParser * bool) :=
  match re_match HEADER_RE body with
  | Some _ => p ← flush p; Ok (p, false)
  | None =>
      match re_match INVALID_SITE_RE body with
      | Some m =>
          i ← build_invalid_access g (Some (groups m)) (raw_lines p ++ [body]);
          let p := add_invalid i p in
          Ok (set_block (header p) (conflicts p) [] None (invalid_lookahead p) p, true)
      | None =>
          let look := invalid_lookahead p + 1 in
          if look <=? SITE_LOOKAHEAD
          then Ok (set_block (header p) (conflicts p) (raw_lines p ++ [body]) (Some g) look p, true)
          else p ← flush (set_block (header p) (conflicts p) (raw_lines p) (Some g) look p); Ok (p, false)
      end
  end.

Definition consume_auxiliary_block (body : text) (p : RacecheckParser)
    : res exn (RacecheckParser * bool) :=
  match re_match TRUNCATION_RE body with
  | Some _ => p ← flush p; Ok (set_truncated p, true)
  | None =>
      match re_match INVALID_ACCESS_RE body with
      | Some m =>
          p ← flush p;
          Ok (set_block (header p) (conflicts p) [body] (Some (groups m)) (invalid_lookahead p) p, true)
      | None =>
          match pending_invalid p with
          | Some g => consume_pending body g p
          | None => Ok (p, false)
          end
      end
  end.

(** A line that is neither a summary nor an auxiliary block. *)
Definition consume_race (body : text) (p : RacecheckParser) : res exn RacecheckParser :=
  match re_match HEADER_RE body with
  | Some m =>
      p ← flush p;
      Ok (set_block (Some (groups m)) (conflicts p) [body] (pending_invalid p) (invalid_lookahead p) p)
  | None =>
      if contains (chars "Race reported between") body then
        p ← flush p; Ok (diagnose UNPARSED_FINDING p)
      else match header p with
      | None => Ok p
      | Some h =>
          match re_match CONFLICT_RE body with
          | Some m =>
              Ok (set_block (Some h) (conflicts p ++ [groups m]) (raw_lines p ++ [body])
                    (pending_invalid p) (invalid_lookahead p) p)
          | None =>
              flush (if starts_with (chars "and ") body && contains (chars " access ") body
                     then diagnose UNPARSED_FINDING p else p)
          end
      end
  end.

Definition consume_body (body : text) (p : RacecheckParser) : res exn RacecheckParser :=
  if starts_with INTERNAL_TOOL_ERROR_PREFIX body then
    p ← flush p; Ok (diagnose INTERNAL_TOOL_ERROR p)
  else
    '(p, taken) ← consume_summary body p;
    if (taken : bool) then Ok p
    else
      '(p, taken) ← consume_auxiliary_block body p;
      if (taken : bool) then Ok p else consume_race body p.

Definition consume (line : text) (p : RacecheckParser) : res exn RacecheckParser :=
  match sanitizer_body line with None => Ok p | Some body => consume_body body p end.

Definition finish (p : RacecheckParser) : res exn RacecheckParseResult :=
  p ← flush p;
  let p := if summary_markers p =? 0 then diagnose MISSING_SUMMARY p
           else if 1 <? summary_markers p then diagnose MULTIPLE_SUMMARIES p else p in
  let ds := match p_summary p with
            | Some s => fold_left add_diagnostic
                          (summary_consistency_diagnostics s (p_findings p) (p_invalid p)) (p_diagnostics p)
            | None => p_diagnostics p
            end in
  Ok (mkResult (p_findings p) (p_summary p) ds (p_truncated p) (p_invalid p)).

Fixpoint consume_all (lines : list text) (p : RacecheckParser) : res exn RacecheckParser :=
  match lines with
  | [] => Ok p
  | line :: rest => p ← consume line p; consume_all rest p
  end.

Definition parse_racecheck_log (log : text) : res exn RacecheckParseResult :=
  p ← consume_all (splitlines log) parser0; finish p.

(** ** The tool-agnostic layer *)

Record CheckerSite := mkSite {
  symbol : text;
  offset : option text;
  file : option text;
  line : option Z
}.

Record CheckerIssue := mkCheckerIssue {
  ci_message : text;
  sites : list CheckerSite;
  ci_severity : RacecheckSeverity;
  hazards : option Z;
  ci_raw_block : text
}.

Record CheckerSummary := mkCheckerSummary {
  cs_errors : Z;
  cs_warnings : Z;
  cs_total_hazards : Z;
  not_printed : option Z;
  cs_raw : text
}.

Definition cs_is_positive (s : CheckerSummary) : bool :=
  (0 <? cs_errors s) || (0 <? cs_warnings s) || (0 <? cs_total_hazards s).
Definition cs_is_zero (s : CheckerSummary) : bool := negb (cs_is_positive s).

Record CheckerParseResult := mkCheckerResult {
  cr_tool : CheckerTool;
  issues : list CheckerIssue;
  cr_summary : option CheckerSummary;
  cr_diagnostics : list RacecheckParseDiagnostic;
  cr_truncated : bool
}.

Definition cr_is_complete (r : CheckerParseResult) : bool :=
  match cr_summary r, cr_diagnostics r with Some _, [] => true | _, _ => false end.

Local Open Scope re_scope.

Definition ERROR_SUMMARY_RE : re :=
  lit "ERROR SUMMARY: " · (Grp "errors" (plus is_digit) · lit " error" · opt_s · Eol).
Definition ERROR_NOT_PRINTED_RE : re :=
  lit "ERROR SUMMARY: " · (Grp "count" (plus is_digit) · lit " error" · opt_s · lit " were not printed" · Wordb).
Definition SITE_RE : re := lit "at " · (Grp "site" (plus any_char) · Eol).
Definition SITE_SOURCE_RE : re :=
  Grp "symbol" (Rep false any_char) · plus is_space · lit "in " · Grp "file" (plus_lazy any_char) ·
  lit ":" · Grp "line" (plus is_digit) · Eol.
Definition HAZARD_SUFFIX_RE : re :=
  Rep true is_space · lit "[" · Grp "hazards" (plus is_digit) · lit " hazard" · opt_s · lit "]" · Eol.
Definition OFFSET_RE : re := lit "+0x" · plus is_hex · Eol.
Definition MEMCHECK_MESSAGE_RE : re :=
  (lit "Invalid" ∥ lit "Misaligned" ∥ lit "Out of bounds" ∥ lit "Program hit" ∥ lit "Leaked") · lit " ".
Definition MEMCHECK_HOST_MESSAGE_RE : re := (lit "Program hit" ∥ lit "Leaked") · lit " ".
Definition MEMCHECK_ADDRESS_SUFFIX_RE : re :=
  plus is_space · lit "at 0x" · plus is_hex · Eol.

Local Close Scope re_scope.

Definition parse_site (raw : text) : res exn CheckerSite :=
  let t := re_strip HAZARD_SUFFIX_RE (strip raw) in
  '(t, file, line) ←
    match re_match SITE_SOURCE_RE t with
    | Some m =>
        sym ← required (groups m) "symbol";
        f ← required (groups m) "file";
        n ← required (groups m) "line";
        Ok (strip sym, Some f, Some (dec_value n))
    | None => Ok (t, None, None)
    end;
  match re_search OFFSET_RE t with
  | Some (c :: before, m) =>
      Ok (mkSite (c :: before) (Some (drop (length before + 2) t)) file line)
  | _ => Ok (mkSite t None file line)
  end.

(** [s.removesuffix(".")]. *)
Definition remove_dot (s : text) : text :=
  if ends_with (chars ".") s then take (length s - 1) s else s.

Definition checker_message (tool : CheckerTool) (body : text) : option text :=
  match tool with
  | INITCHECK => if starts_with (chars "Uninitialized ") body then Some body else None
  | SYNCCHECK =>
      if starts_with (chars "Barrier error detected.") body then Some (remove_dot body) else None
  | MEMCHECK =>
      match re_match MEMCHECK_MESSAGE_RE body with
      | Some _ => Some (re_strip MEMCHECK_ADDRESS_SUFFIX_RE body)
      | None => None
      end
  | RACECHECK => None
  end.

(** The sanitizer lines that may carry a site: at most [SITE_LOOKAHEAD]. *)
Fixpoint collect_sites (tool : CheckerTool) (sanitizer_lines : Z) (following : list (option text))
    : res exn (list CheckerSite * list text) :=
  match following with
  | [] => Ok ([], [])
  | None :: rest => collect_sites tool sanitizer_lines rest
  | Some body :: rest =>
      let n := sanitizer_lines + 1 in
      if SITE_LOOKAHEAD <? n then Ok ([], [])
      else if bool_decide (checker_message tool body ≠ None) || contains (chars "ERROR SUMMARY:") body
      then Ok ([], [])
      else
        here ← match re_match SITE_RE body with
               | Some m => s ← required (groups m) "site"; s ← parse_site s; Ok [s]
               | None => Ok []
               end;
        '(ss, raw) ← collect_sites tool n rest;
        Ok (here ++ ss, body :: raw)
  end.

(** [bodies[index]] and the bodies after it. *)
Definition checker_issue_at (tool : CheckerTool) (body : text) (following : list (option text))
    : res exn (option CheckerIssue) :=
  match checker_message tool body with
  | None => Ok None
  | Some message =>
      '(ss, raw) ← collect_sites tool 0 following;
      Ok (Some (mkCheckerIssue message ss SevError None (join_text newline (body :: raw))))
  end.

Record ErrorCheckerParser := mkChecker {
  e_issues : list CheckerIssue;
  e_diagnostics : list RacecheckParseDiagnostic;
  e_summary : option CheckerSummary;
  e_markers : Z;
  e_not_printed : option Z;
  e_truncated : bool
}.
Definition checker0 : ErrorCheckerParser := mkChecker [] [] None 0 None false.

Definition e_diagnose (issue : RacecheckParseDiagnostic) (p : ErrorCheckerParser) : ErrorCheckerParser :=
  mkChecker (e_issues p) (add_diagnostic (e_diagnostics p) issue) (e_summary p) (e_markers p)
    (e_not_printed p) (e_truncated p).

Definition e_consume_summary (body : text) (p : ErrorCheckerParser)
    : res exn (ErrorCheckerParser * bool) :=
  if contains (chars "ERROR SUMMARY:") body then
    match re_match ERROR_NOT_PRINTED_RE body with
    | Some m =>
        n ← required (groups m) "count";
        Ok (mkChecker (e_issues p) (e_diagnostics p) (e_summary p) (e_markers p)
              (Some (dec_value n)) true, true)
    | None =>
        let p := mkChecker (e_issues p) (e_diagnostics p) (e_summary p) (e_markers p + 1)
                   (e_not_printed p) (e_truncated p) in
        match re_match ERROR_SUMMARY_RE body with
        | Some m =>
            n ← required (groups m) "errors";
            Ok (mkChecker (e_issues p) (e_diagnostics p)
                  (Some (mkCheckerSummary (dec_value n) 0 0 None body)) (e_markers p)
                  (e_not_printed p) (e_truncated p), true)
        | None => Ok (e_diagnose MALFORMED_SUMMARY p, true)
        end
    end
  else Ok (p, false).

Definition consume_issue (tool : CheckerTool) (body : text) (following : list (option text))
    (p : ErrorCheckerParser) : res exn ErrorCheckerParser :=
  o ← checker_issue_at tool body following;
  match o with
  | None => Ok p
  | Some i =>
      let p := if bool_decide (length (sites i) = 0%nat) &&
                  negb (bool_decide (is_Some (re_match MEMCHECK_HOST_MESSAGE_RE (ci_message i))))
               then e_diagnose INCOMPLETE_FINDING p else p in
      Ok (mkChecker (e_issues p ++ [i]) (e_diagnostics p) (e_summary p) (e_markers p)
            (e_not_printed p) (e_truncated p))
  end.

Definition e_finish (tool : CheckerTool) (p : ErrorCheckerParser) : CheckerParseResult :=
  let p := if e_markers p =? 0 then e_diagnose MISSING_SUMMARY p
           else if 1 <? e_markers p then e_diagnose MULTIPLE_SUMMARIES p else p in
  match e_summary p with
  | None => mkCheckerResult tool (e_issues p) None (e_diagnostics p) (e_truncated p)
  | Some s =>
      let s := match e_not_printed p with
               | Some n => mkCheckerSummary (cs_errors s) 0 0 (Some n) (cs_raw s)
               | None => s
               end in
      let none := bool_decide (length (e_issues p) = 0%nat) in
      let printed_nothing := cs_is_positive s && none && negb (e_truncated p) in
      let p := if printed_nothing || (cs_is_zero s && negb none)
               then e_diagnose SUMMARY_FINDING_MISMATCH p else p in
      mkCheckerResult tool (e_issues p) (Some s) (e_diagnostics p) (e_truncated p)
  end.

Definition e_consume (tool : CheckerTool) (body : text) (following : list (option text))
    (p : ErrorCheckerParser) : res exn ErrorCheckerParser :=
  if starts_with INTERNAL_TOOL_ERROR_PREFIX body then Ok (e_diagnose INTERNAL_TOOL_ERROR p)
  else
    '(p, taken) ← e_consume_summary body p;
    if (taken : bool) then Ok p else consume_issue tool body following p.

Fixpoint e_consume_all (tool : CheckerTool) (bodies : list (option text)) (p : ErrorCheckerParser)
    : res exn ErrorCheckerParser :=
  match bodies with
  | [] => Ok p
  | None :: rest => e_consume_all tool rest p
  | Some body :: rest => p ← e_consume tool body rest p; e_consume_all tool rest p
  end.

Definition parse_error_checker_log (tool : CheckerTool) (log : text) : res exn CheckerParseResult :=
  p ← e_consume_all tool (sanitizer_body <$> splitlines log) checker0;
  Ok (e_finish tool p).

(** [x or None]. *)
Definition non_empty (t : text) : option text := match t with [] => None | _ => Some t end.
Definition non_zero (z : Z) : option Z := if z =? 0 then None else Some z.

Definition issue_of_finding (f : RacecheckFinding) : CheckerIssue :=
  mkCheckerIssue
    (match access_kinds f with
     | k :: _ => chars "Race reported between " ++ k ++ chars " access"
     | [] => chars "Race reported"
     end)
    ((λ a, mkSite (ac_function a) (Some (ac_offset a)) (Some (ac_file a)) (Some (ac_line a))) <$> accesses f)
    (severity f) (max_hazards f) (rf_raw_block f).

Definition issue_of_invalid (i : RacecheckInvalidAccess) : CheckerIssue :=
  mkCheckerIssue (ri_message i)
    (match access i with
     | None => []
     | Some a => [mkSite (ac_function a) (Some (ac_offset a)) (non_empty (ac_file a)) (non_zero (ac_line a))]
     end)
    SevError None (ri_raw_block i).

Definition racecheck_as_checker_result (log : text) : res exn CheckerParseResult :=
  parsed ← parse_racecheck_log log;
  Ok (mkCheckerResult RACECHECK
        ((issue_of_finding <$> findings parsed) ++ (issue_of_invalid <$> invalid_accesses parsed))
        ((λ s, mkCheckerSummary (errors s) (warnings s) (total_hazards s) None (rs_raw s)) <$> summary parsed)
        (diagnostics parsed) (output_truncated parsed)).

Definition parse_checker_log (tool : CheckerTool) (log : text) : res exn CheckerParseResult :=
  match tool with
  | RACECHECK => racecheck_as_checker_result log
  | _ => parse_error_checker_log tool log
  end.

(** *** Sample logs *)

Definition log_of (l : list string) : text := join_text newline (chars <$> l).

Definition race_log : text := log_of
  ["running test_a ... ========= Error: Race reported between Write access at k(int)+0x1a0 in a b.cu:12";
   "child output";
   "=========     and Read access at k(int)+0x2b0 in c.cu:7 [12 hazards]";
   "========= RACECHECK SUMMARY: 1 hazard displayed (1 error, 0 warnings)"]%string.

Example race_log_parsed :
  match parse_racecheck_log race_log with
  | Ok r =>
      (is_complete r, severity <$> findings r, (λ f, (λ a, (str (ac_function a), str (ac_file a), ac_line a)) <$> accesses f) <$> findings r, omap max_hazards (findings r))
      = (true, [SevError], [[("k(int)", "a b.cu", 12); ("k(int)", "c.cu", 7)]], [12])%string
  | Err _ => False
  end.
Proof. vm_compute. reflexivity. Qed.

Definition mem_log : text := log_of
  ["========= Invalid __global__ read of size 4 bytes at 0x7f00";
   "=========     at void k<int, (bool)1>(T1 *)+0x90 in /src/k.cu:31";
   "=========     by thread (0,0,0) in block (0,0,0)";
   "========= ERROR SUMMARY: 9 errors";
   "========= ERROR SUMMARY: 8 errors were not printed. Use --print-limit option"]%string.

Example mem_log_parsed :
  match parse_checker_log MEMCHECK mem_log with
  | Ok r =>
      (cr_is_complete r, cr_truncated r,
       (λ i, (str (ci_message i), (λ s, (str (symbol s), str <$> offset s, str <$> file s, line s)) <$> sites i)) <$> issues r,
       (λ s, (cs_errors s, not_printed s)) <$> cr_summary r)
      = (true, true,
         [("Invalid __global__ read of size 4 bytes",
           [("void k<int, (bool)1>(T1 *)", Some "0x90", Some "/src/k.cu", Some 31)])],
         Some (9, Some 8))%string
  | Err _ => False
  end.
Proof. vm_compute. reflexivity. Qed.

(** ** The parser never raises *)

Lemma opt_and {A B} (o : res exn A) (f : A → res exn B) a b : o = Ok a → f a = Ok b → o ≫= f = Ok b.
Proof. by intros ->. Qed.

(** A wanted group of a match is there. *)
Lemma required_ok ns c n : has_groups ns c → bool_decide (n ∈ ns) = true → ∃ t, required c n = Ok t.
Proof.
  intros H Hn%bool_decide_eq_true. destruct (has_groups_get _ _ _ H Hn) as [t E].
  exists t. unfold required. by rewrite E.
Qed.

Ltac require H n :=
  let t := fresh "t" in let E := fresh "E" in
  destruct (required_ok _ _ n H eq_refl) as [t E]; rewrite ?E; cbn [mbind res_bind]; try rewrite E; clear E.

Definition access_groups : list string := ["type"; "func"; "offset"; "file"; "line"].
Definition header_groups : list string := "level" :: access_groups.

Lemma build_access_ok g role : has_groups access_groups g → ∃ a, build_access g role = Ok a ∧ a.(Sanitizer.role) = role.
Proof.
  intros H. unfold build_access.
  destruct (required_ok _ _ "type" H eq_refl) as [t1 ->]. destruct (required_ok _ _ "func" H eq_refl) as [t2 ->].
  destruct (required_ok _ _ "offset" H eq_refl) as [t3 ->]. destruct (required_ok _ _ "file" H eq_refl) as [t4 ->].
  destruct (required_ok _ _ "line" H eq_refl) as [t5 ->]. cbn. eauto.
Qed.

Lemma build_accesses_ok gs role : Forall (has_groups access_groups) gs →
  ∃ l, build_accesses gs role = Ok l ∧ length l = length gs ∧ Forall (λ a, a.(Sanitizer.role) = role) l.
Proof.
  induction 1 as [|g gs Hg _ (l & IH & Hl & Hr)]; cbn; [exists []; by split_and!|].
  destruct (build_access_ok g role Hg) as (a & -> & Ha). cbn. rewrite IH. cbn.
  exists (a :: l). cbn. split_and!; [done|by f_equal|by constructor].
Qed.

(** A finding has its first access and at least one that conflicts with it. *)
Definition paired (f : RacecheckFinding) : Prop :=
  ∃ first others, accesses f = first :: others ∧ others ≠ [] ∧
    role first = "primary" ∧ Forall (λ a, role a = "conflict") others.

Lemma build_finding_ok h cs raw : has_groups header_groups h → cs ≠ [] →
  Forall (has_groups access_groups) cs → ∃ f, build_finding h cs raw = Ok f ∧ paired f.
Proof.
  intros Hh Hne Hcs. unfold build_finding. destruct (required_ok _ _ "level" Hh eq_refl) as [t ->]. cbn.
  assert (has_groups access_groups h) as Ha by by inversion Hh.
  destruct (build_access_ok h "primary" Ha) as (a & -> & Hr). cbn.
  destruct (build_accesses_ok cs "conflict" Hcs) as (l & -> & Hl & Hrs). cbn.
  eexists. split; [done|]. exists a, l. split_and!; [done| |done|done].
  intros ->. apply Hne. by apply nil_length_inv.
Qed.

Lemma build_invalid_ok g site raw :
  has_groups ["type"; "size"] g →
  match site with Some s => has_groups ["func"; "offset"] s | None => True end →
  ∃ i, build_invalid_access g site raw = Ok i.
Proof.
  intros H Hs. unfold build_invalid_access.
  destruct (required_ok _ _ "type" H eq_refl) as [t1 ->]. destruct (required_ok _ _ "size" H eq_refl) as [t2 ->].
  cbn. destruct site as [s|]; [|by eexists].
  destruct (required_ok _ _ "func" Hs eq_refl) as [t3 ->]. destruct (required_ok _ _ "offset" Hs eq_refl) as [t4 ->].
  by eexists.
Qed.

(** The captures the parser holds have their groups. *)
Record block_ok (p : RacecheckParser) : Prop := {
  ok_header : match header p with Some h => has_groups header_groups h | None => True end;
  ok_conflicts : Forall (has_groups access_groups) (conflicts p);
  ok_pending : match pending_invalid p with Some g => has_groups ["type"; "size"] g | None => True end
}.

Lemma header_match_groups b m : re_match HEADER_RE b = Some m → has_groups header_groups (groups m).
Proof. intros H. apply re_match_groups in H. by vm_compute in H |- *. Qed.
Lemma conflict_match_groups b m : re_match CONFLICT_RE b = Some m → has_groups access_groups (groups m).
Proof. intros H. apply re_match_groups in H. by vm_compute in H |- *. Qed.
Lemma invalid_match_groups b m : re_match INVALID_ACCESS_RE b = Some m → has_groups ["type"; "size"] (groups m).
Proof. intros H. apply re_match_groups in H. by vm_compute in H |- *. Qed.
Lemma site_match_groups b m : re_match INVALID_SITE_RE b = Some m → has_groups ["func"; "offset"] (groups m).
Proof. intros H. apply re_match_groups in H. by vm_compute in H |- *. Qed.
Lemma summary_match_groups b m :
  re_fullmatch SUMMARY_RE b = Some m → has_groups ["total"; "errors"; "warnings"] (groups m).
Proof. intros H. apply re_fullmatch_groups in H. by vm_compute in H |- *. Qed.

(** ** What a state accounts for

    While nothing has been diagnosed, every report line read is a report built
    or the block being read, and the summary is the one summary line read. *)

Definition header_line (b : text) : bool := bool_decide (is_Some (re_match HEADER_RE b)).
Definition invalid_line (b : text) : bool := bool_decide (is_Some (re_match INVALID_ACCESS_RE b)).
Definition summary_line (b : text) : bool := contains (chars "RACECHECK SUMMARY:") b.
Definition internal_line (b : text) : bool := starts_with INTERNAL_TOOL_ERROR_PREFIX b.

Definition some_n {A} (o : option A) : nat := match o with Some _ => 1 | None => 0 end.
Definition reports (p : RacecheckParser) : nat := length (p_findings p) + some_n (header p).
Definition invalids (p : RacecheckParser) : nat := length (p_invalid p) + some_n (pending_invalid p).

(** What every operation may do to a state: nothing but grow the diagnostics,
    or account for [h] headers, [i] invalid accesses. *)
Record grows (h i : nat) (p p' : RacecheckParser) : Prop := {
  gr_block : block_ok p';
  gr_clean : p_diagnostics p' = [] → p_diagnostics p = [] ∧
    reports p' = (h + reports p)%nat ∧ invalids p' = (i + invalids p)%nat;
  gr_summary : p_summary p' = p_summary p;
  gr_markers : summary_markers p' = summary_markers p;
  gr_paired : Forall paired (p_findings p) → Forall paired (p_findings p')
}.

Lemma grows_trans h i h' i' p p1 p2 : grows h i p p1 → grows h' i' p1 p2 → grows (h' + h) (i' + i) p p2.
Proof.
  intros [_ Hc1 Hs1 Hm1 Hp1] [Hb Hc2 Hs2 Hm2 Hp2]. split; [done| |congruence|congruence|auto].
  intros E. destruct (Hc2 E) as (E1 & H1 & H2). destruct (Hc1 E1) as (E0 & H3 & H4).
  split_and!; [done|lia|lia].
Qed.

Lemma grows_after h i p p1 p2 : grows 0 0 p p1 → grows h i p1 p2 → grows h i p p2.
Proof.
  intros H1 H2. pose proof (grows_trans _ _ _ _ _ _ _ H1 H2) as H. by rewrite !Nat.add_0_r in H.
Qed.

Lemma add_diagnostic_not_nil ds i : add_diagnostic ds i ≠ [].
Proof. unfold add_diagnostic. case_decide; [intros ->; by apply elem_of_nil in H|by destruct ds]. Qed.

Lemma grows_diagnose h i issue p : block_ok p → grows h i p (diagnose issue p).
Proof.
  intros [H1 H2 H3]. split; cbn; [by split|..]; try done. intros E. by apply add_diagnostic_not_nil in E.
Qed.

Lemma flush_ok p : block_ok p →
  ∃ p', flush p = Ok p' ∧ grows 0 0 p p' ∧ header p' = None ∧ pending_invalid p' = None ∧ conflicts p' = [].
Proof.
  intros [Hh Hc Hi]. unfold flush, flush_header.
  assert (∃ p1, flush_header p = Ok p1 ∧ p_invalid p1 = p_invalid p ∧ pending_invalid p1 = pending_invalid p ∧
    p_summary p1 = p_summary p ∧ summary_markers p1 = summary_markers p ∧
    (p_diagnostics p1 = [] → p_diagnostics p = [] ∧ length (p_findings p1) = reports p) ∧
    (Forall paired (p_findings p) → Forall paired (p_findings p1))) as (p1 & E & H1 & H2 & H3 & H4 & H5 & H6).
  { unfold flush_header, reports. destruct (header p) as [h|]; cbn; [|exists p; repeat split; try done; lia].
    destruct (conflicts p) as [|c cs].
    - eexists. split_and!; try done. cbn. intros E. by apply add_diagnostic_not_nil in E.
    - destruct (build_finding_ok h (c :: cs) (raw_lines p)) as (f & -> & Hf); [done|done|done|]. cbn.
      eexists. split_and!; try done; cbn; [|intros; by apply Forall_app_2; [|constructor]].
      intros; split; [done|]. rewrite length_app. cbn. lia. }
  unfold flush_header in E. rewrite E. cbn [mbind res_bind].
  assert (∃ p2, flush_invalid p1 = Ok p2 ∧ p_findings p2 = p_findings p1 ∧ length (p_invalid p2) = invalids p ∧
    p_summary p2 = p_summary p1 ∧ summary_markers p2 = summary_markers p1 ∧
    p_diagnostics p2 = p_diagnostics p1) as (p2 & -> & G1 & G2 & G3 & G4 & G5).
  { unfold flush_invalid, invalids. rewrite H2. destruct (pending_invalid p) as [g|]; cbn.
    - destruct (build_invalid_ok g None (raw_lines p1)) as (i & ->); [done|done|]. cbn.
      eexists. repeat split; cbn; rewrite ?length_app, ?H1; done.
    - exists p1. rewrite H1. repeat split; lia. }
  cbn. eexists. split_and!; [done| |done..]. split; cbn; [split; cbn; [done|constructor|done]|..].
  - rewrite G5. intros Ed. destruct (H5 Ed) as [Hd Hl]. unfold reports, invalids. cbn.
    rewrite G1, Hl, G2. unfold reports, invalids. split_and!; [done|lia|lia].
  - congruence.
  - congruence.
  - rewrite G1. done.
Qed.

(** A block is opened on a flushed state. *)
Lemma grows_open p h cs raw g look :
  block_ok (set_block h cs raw g look p) → header p = None → pending_invalid p = None →
  grows (some_n h) (some_n g) p (set_block h cs raw g look p).
Proof.
  intros Hb E1 E2. split; [done|..]; cbn; try done. intros Hd. split; [done|].
  unfold reports, invalids. cbn. rewrite E1, E2. cbn. lia.
Qed.

(** *** Which patterns exclude each other *)

Lemma header_shape b m : re_match HEADER_RE b = Some m →
  ∃ t, b = chars "Error: Race reported between " ++ t ∨ b = chars "Warning: Race reported between " ++ t.
Proof.
  intros H. apply orelse_some in H as [H|H];
    apply rm_lit in H as (pr & t & E & H); cbn [snd] in E; subst b;
    apply rm_lit in H as (pr' & t' & E & _); cbn [snd] in E; subst t; exists t'; [by left|by right].
Qed.

Lemma starts_with_app p l : starts_with p l = true → ∃ t, l = p ++ t.
Proof.
  revert l. induction p as [|a p IH]; intros l H; [by exists l|]. destruct l as [|b l]; [done|]. cbn in H.
  apply andb_prop in H as [->%Ascii.eqb_eq H]. apply IH in H as [t ->]. by exists t.
Qed.

(** A line with one of the report or summary shapes has none of the others. *)
Lemma not_header b (w : string) t : b = chars w ++ t →
  (∀ t', b ≠ chars "Error: Race reported between " ++ t') →
  (∀ t', b ≠ chars "Warning: Race reported between " ++ t') → header_line b = false.
Proof.
  intros _ H1 H2. apply bool_decide_eq_false. intros [m Hm]. apply header_shape in Hm as [t' [E|E]]; [by eapply H1|by eapply H2].
Qed.

Lemma header_excludes b : header_line b = true →
  invalid_line b = false ∧ internal_line b = false ∧ re_match TRUNCATION_RE b = None ∧
  re_fullmatch SUMMARY_RE b = None.
Proof.
  intros [m Hm]%bool_decide_eq_true. apply header_shape in Hm as [t Ht].
  split_and!.
  - apply bool_decide_eq_false. intros [m' H]. apply re_match_lit in H as [t' ->]. by destruct Ht.
  - destruct (internal_line b) eqn:E; [|done]. apply starts_with_app in E as [t' ->]. by destruct Ht.
  - destruct (re_match TRUNCATION_RE b) eqn:E; [|done]. apply re_match_lit in E as [t' ->]. by destruct Ht.
  - destruct (re_fullmatch SUMMARY_RE b) eqn:E; [|done]. apply re_fullmatch_lit in E as [t' ->]. by destruct Ht.
Qed.

Lemma invalid_excludes b : invalid_line b = true →
  internal_line b = false ∧ re_match TRUNCATION_RE b = None ∧ re_fullmatch SUMMARY_RE b = None.
Proof.
  intros [m Hm]%bool_decide_eq_true. apply re_match_lit in Hm as [t Ht]. split_and!.
  - destruct (internal_line b) eqn:E; [|done]. apply starts_with_app in E as [t' ->]. done.
  - destruct (re_match TRUNCATION_RE b) eqn:E; [|done]. apply re_match_lit in E as [t' ->]. done.
  - destruct (re_fullmatch SUMMARY_RE b) eqn:E; [|done]. apply re_fullmatch_lit in E as [t' ->]. done.
Qed.

Lemma not_by {A} (f : text → bool) b (o : option A) x :
  (f b = true → o = None) → o = Some x → f b = false.
Proof. destruct (f b); [|done]. intros H Hx. by rewrite H in Hx. Qed.

(** *** One line *)

Notation b2n := Nat.b2n.

Lemma grows_flush p : block_ok p → ∃ p', flush p = Ok p' ∧ grows 0 0 p p' ∧ header p' = None ∧
  pending_invalid p' = None ∧ conflicts p' = [].
Proof. apply flush_ok. Qed.

Lemma auxiliary_ok b p : block_ok p →
  ∃ p' taken, consume_auxiliary_block b p = Ok (p', taken) ∧
    (if (taken : bool) then grows (b2n (header_line b)) (b2n (invalid_line b)) p p'
     else grows 0 0 p p' ∧ invalid_line b = false).
Proof.
  intros Hb. unfold consume_auxiliary_block.
  destruct (flush_ok p Hb) as (p1 & Ef & Hg & Hh1 & Hp1 & Hc1).
  destruct (re_match TRUNCATION_RE b) as [mt|] eqn:Et.
  { rewrite (not_by header_line b _ _ (λ H, proj1 (proj2 (proj2 (header_excludes b H)))) Et).
    rewrite (not_by invalid_line b _ _ (λ H, proj1 (proj2 (invalid_excludes b H))) Et).
    rewrite Ef. cbn. eexists _, true. split; [done|]. destruct Hg as [[? ? ?] ? ? ? ?]. by split. }
  destruct (re_match INVALID_ACCESS_RE b) as [mi|] eqn:Ei.
  { assert (invalid_line b = true) as Hi by (by apply bool_decide_eq_true; eexists).
    assert (header_line b = false) as ->.
    { destruct (header_line b) eqn:E; [|done]. apply header_excludes in E as [E _]. congruence. }
    rewrite Hi, Ef. cbn. eexists _, true. split; [done|].
    eapply grows_after; [exact Hg|]. rewrite Hh1, Hc1.
    apply (grows_open _ None _ _ (Some (groups mi))); [|done|done].
    split; cbn; [done|constructor|by eapply invalid_match_groups]. }
  assert (invalid_line b = false) as Hi by (apply bool_decide_eq_false; rewrite Ei; by intros []).
  destruct (pending_invalid p) as [g|] eqn:Ep; [|exists p, false; split; [done|]; split; [|done]; by split].
  unfold consume_pending. destruct (re_match HEADER_RE b) as [mh|] eqn:Eh.
  { rewrite Ef. cbn. by exists p1, false. }
  assert (header_line b = false) as -> by (apply bool_decide_eq_false; rewrite Eh; by intros []).
  rewrite Hi. pose proof (ok_pending _ Hb) as Hpend. rewrite Ep in Hpend.
  destruct (re_match INVALID_SITE_RE b) as [ms|] eqn:Es.
  { destruct (build_invalid_ok g (Some (groups ms)) (raw_lines p ++ [b])) as (i & ->); [done|by eapply site_match_groups|].
    cbn. eexists _, true. split; [done|]. destruct Hb as [? ? ?]. split; cbn; [by split|..]; try done.
    intros E. split; [done|]. unfold reports, invalids. cbn. rewrite Ep, length_app. cbn. lia. }
  assert (block_ok (set_block (header p) (conflicts p) (raw_lines p ++ [b]) (Some g) (invalid_lookahead p + 1) p)
    ∧ block_ok (set_block (header p) (conflicts p) (raw_lines p) (Some g) (invalid_lookahead p + 1) p)) as [Hb1 Hb2]
    by (destruct Hb; split; by split).
  assert (∀ raw look, reports (set_block (header p) (conflicts p) raw (Some g) look p) = reports p ∧
    invalids (set_block (header p) (conflicts p) raw (Some g) look p) = invalids p) as Hsame
    by (intros; unfold invalids; by rewrite Ep).
  destruct (_ <=? _).
  - eexists _, true. split; [done|]. split; [done| |done..]. intros E. split; [done|]. exact (Hsame _ _).
  - destruct (flush_ok _ Hb2) as (p2 & -> & [Gb Gc Gs Gm Gp] & _). cbn. exists p2, false. split; [done|].
    split; [|done]. split; [done|..]; cbn in *; try done. intros E. destruct (Gc E) as (E' & -> & ->).
    destruct (Hsame (raw_lines p) (invalid_lookahead p + 1)) as [-> ->]. done.
Qed.

Lemma race_ok b p : block_ok p → ∃ p', consume_race b p = Ok p' ∧ grows (b2n (header_line b)) 0 p p'.
Proof.
  intros Hb. unfold consume_race. destruct (flush_ok p Hb) as (p1 & Ef & Hg & Hh1 & Hp1 & Hc1).
  destruct (re_match HEADER_RE b) as [m|] eqn:Em.
  { assert (header_line b = true) as -> by (apply bool_decide_eq_true; by eexists). rewrite Ef. cbn.
    eexists. split; [done|]. eapply grows_after; [exact Hg|]. rewrite Hp1, Hc1. apply (grows_open _ (Some (groups m)) _ _ None); [|done|done].
    split; cbn; [by eapply header_match_groups|constructor|done]. }
  assert (header_line b = false) as -> by (apply bool_decide_eq_false; rewrite Em; by intros []).
  destruct (contains (chars "Race reported between") b).
  { rewrite Ef. cbn. eexists. split; [done|]. eapply grows_after; [exact Hg|]. apply grows_diagnose, Hg. }
  destruct (header p) as [h|] eqn:Eh; [|exists p; split; [done|]; by split].
  destruct (re_match CONFLICT_RE b) as [m|] eqn:Ec.
  { eexists. split; [done|]. destruct Hb as [H1 H2 H3]. rewrite Eh in H1. split; cbn; [split; cbn|..]; try done.
    - apply Forall_app_2; [done|]. constructor; [by eapply conflict_match_groups|constructor].
    - intros E. split; [done|]. unfold reports, invalids. cbn. by rewrite Eh. }
  destruct (_ && _).
  - destruct (flush_ok (diagnose UNPARSED_FINDING p)) as (p2 & -> & Hg2 & _).
    { by apply (grows_diagnose 0 0 UNPARSED_FINDING p). }
    eexists. split; [done|]. eapply grows_after; [|exact Hg2]. by apply grows_diagnose.
  - rewrite Ef. by exists p1.
Qed.

Definition parsed_summary (s : RacecheckSummary) : Prop :=
  ∃ m, re_fullmatch SUMMARY_RE (rs_raw s) = Some m ∧ summary_of_match m (rs_raw s) = Ok s.

(** The state after one sanitizer line, in terms of the line. *)
Record steps (b : text) (p p' : RacecheckParser) : Prop := {
  st_block : block_ok p';
  st_clean : p_diagnostics p' = [] → p_diagnostics p = [] ∧ internal_line b = false ∧
    reports p' = (b2n (header_line b) + reports p)%nat ∧ invalids p' = (b2n (invalid_line b) + invalids p)%nat ∧
    if summary_line b then ∃ s, p_summary p' = Some s ∧ rs_raw s = b ∧ parsed_summary s
    else p_summary p' = p_summary p;
  st_markers : internal_line b = false → summary_markers p' = summary_markers p + (if summary_line b then 1 else 0);
  st_paired : Forall paired (p_findings p) → Forall paired (p_findings p')
}.

Lemma consume_body_ok b p : block_ok p → ∃ p', consume_body b p = Ok p' ∧ steps b p p'.
Proof.
  intros Hb. unfold consume_body. fold (internal_line b).
  destruct (flush_ok p Hb) as (p1 & Ef & Hg & _).
  destruct (internal_line b) eqn:Ei.
  { rewrite Ef. cbn. eexists. split; [done|].
    destruct (grows_diagnose 0 0 INTERNAL_TOOL_ERROR p1 (gr_block _ _ _ _ Hg)) as [Hb1 _ _ _ Hp1].
    split; [done| |congruence|by intros; apply Hp1, Hg]. cbn. intros E. by apply add_diagnostic_not_nil in E. }
  unfold consume_summary. fold (summary_line b). destruct (summary_line b) eqn:Es.
  { rewrite Ef. cbn [mbind res_bind]. destruct Hg as [Gb Gc Gs Gm Gp].
    destruct (re_fullmatch SUMMARY_RE b) as [m|] eqn:Em.
    - pose proof (summary_match_groups _ _ Em) as Hm.
      destruct (required_ok _ _ "total" Hm eq_refl) as [t1 E1].
      destruct (required_ok _ _ "errors" Hm eq_refl) as [t2 E2].
      destruct (required_ok _ _ "warnings" Hm eq_refl) as [t3 E3].
      assert (summary_of_match m b = Ok (mkSummary (dec_value t1) (dec_value t2) (dec_value t3) b)) as E.
      { unfold summary_of_match. rewrite E1. cbn. rewrite E2. cbn. by rewrite E3. }
      rewrite E. cbn. eexists. split; [done|]. destruct Gb as [? ? ?]. split; cbn; [by split|..]; try done.
      + intros Hc. destruct (Gc Hc) as (Hc' & Hr & Hinv).
        rewrite (not_by header_line b _ _ (λ H, proj2 (proj2 (proj2 (header_excludes b H)))) Em).
        rewrite (not_by invalid_line b _ _ (λ H, proj2 (proj2 (invalid_excludes b H))) Em).
        split_and!; try done. rewrite Es. eexists. split_and!; [done|done|by exists m].
      + rewrite Es. lia.
    - cbn. eexists. split; [done|]. destruct Gb as [? ? ?]. split; cbn; [by split|..]; try done.
      + intros E. by apply add_diagnostic_not_nil in E.
      + rewrite Es. lia. }
  cbn [mbind res_bind].
  destruct (auxiliary_ok b p Hb) as (p2 & taken & -> & Ht). cbn. destruct taken.
  - eexists. split; [done|]. destruct Ht as [Gb Gc Gs Gm Gp]. split; [done| |rewrite Es; lia|done].
    intros E. destruct (Gc E) as (? & ? & ?). rewrite Es. done.
  - destruct Ht as [[Gb Gc Gs Gm Gp] Hi]. destruct (race_ok b p2 Gb) as (p3 & -> & [Hb3 Hc3 Hs3 Hm3 Hp3]).
    eexists. split; [done|]. split; [done| |rewrite Es; lia|auto].
    intros E. destruct (Hc3 E) as (E2 & Hr & Hv). destruct (Gc E2) as (E1 & Hr1 & Hv1). rewrite Es, Hi.
    split_and!; [done|done|lia|cbn; lia|congruence].
Qed.

(** *** A whole log *)

Definition bodies_of (log : text) : list text := omap sanitizer_body (splitlines log).
Definition tally (f : text → bool) (bodies : list text) : nat := length (filter (λ b, f b = true) bodies).

Lemma tally_cons f b bs : tally f (b :: bs) = (b2n (f b) + tally f bs)%nat.
Proof. unfold tally. rewrite filter_cons. by destruct (f b). Qed.

(** The state after all lines: what [steps] says of each, added up. *)
Record accounts (bs : list text) (p p' : RacecheckParser) : Prop := {
  acc_block : block_ok p';
  acc_paired : Forall paired (p_findings p) → Forall paired (p_findings p');
  acc_clean : p_diagnostics p' = [] → p_diagnostics p = [] ∧ Forall (λ b, internal_line b = false) bs ∧
    reports p' = (tally header_line bs + reports p)%nat ∧
    invalids p' = (tally invalid_line bs + invalids p)%nat ∧
    summary_markers p' = summary_markers p + Z.of_nat (tally summary_line bs) ∧
    match last (filter (λ b, summary_line b = true) bs) with
    | Some b => ∃ s, p_summary p' = Some s ∧ rs_raw s = b ∧ parsed_summary s
    | None => p_summary p' = p_summary p
    end
}.

Lemma consume_all_bodies lines p :
  consume_all lines p = foldl (λ r b, p ← r; consume_body b p) (Ok p) (omap sanitizer_body lines).
Proof.
  revert p. induction lines as [|line lines IH]; intros p; [done|]. cbn. unfold consume.
  destruct (sanitizer_body line) as [b|]; cbn; [|apply IH].
  destruct (consume_body b p) as [p1|e]; cbn; [apply IH|].
  generalize (omap sanitizer_body lines). intros l. clear. by induction l.
Qed.

Lemma consume_bodies_ok bs p : block_ok p →
  ∃ p', foldl (λ r b, p ← r; consume_body b p) (Ok p) bs = Ok p' ∧ accounts bs p p'.
Proof.
  revert p. induction bs as [|b bs IH]; intros p Hb.
  { exists p. split; [done|]. split; [done|done|]. intros E. split_and!; try done. cbn. lia. }
  destruct (consume_body_ok b p Hb) as (p1 & E1 & [Hb1 Hc1 Hm1 Hp1]).
  destruct (IH p1 Hb1) as (p2 & E2 & [Hb2 Hp2 Hc2]). exists p2. split; [cbn; by rewrite E1|].
  split; [done|auto|]. intros E. destruct (Hc2 E) as (Ed & Hi & Hr & Hv & Hm & Hs).
  destruct (Hc1 Ed) as (Ed0 & Hi0 & Hr0 & Hv0 & Hs0). specialize (Hm1 Hi0).
  rewrite !tally_cons. split_and!; [done|by constructor|lia|lia|destruct (summary_line b); cbn; lia|].
  rewrite filter_cons. destruct (summary_line b) eqn:Es.
  - rewrite decide_True, last_cons by done. destruct (last _) as [b'|]; [done|]. destruct Hs0 as (s & ? & ? & ?).
    exists s. split_and!; [congruence|done|done].
  - rewrite decide_False by done. destruct (last _); [done|congruence].
Qed.

Lemma parser0_ok : block_ok parser0.
Proof. by split. Qed.

Lemma fold_diagnostics_nil ds l : fold_left add_diagnostic l ds = [] → ds = [] ∧ l = [].
Proof.
  revert ds. induction l as [|i l IH]; intros ds H; [done|]. cbn in H.
  apply IH in H as [H _]. by apply add_diagnostic_not_nil in H.
Qed.

Lemma parse_racecheck_ok log : ∃ r, parse_racecheck_log log = Ok r.
Proof.
  unfold parse_racecheck_log. rewrite consume_all_bodies.
  destruct (consume_bodies_ok (omap sanitizer_body (splitlines log)) parser0 parser0_ok) as (p & -> & H).
  cbn. unfold finish. destruct (flush_ok p (acc_block _ _ _ H)) as (p' & -> & _). by eexists.
Qed.

Lemma consistency_nil s fs ivs :
  summary_consistency_diagnostics s fs ivs = [] →
  (total_hazards s = 0 ↔ errors s = 0 ∧ warnings s = 0) ∧
  (total_hazards s = 0 ↔ fs = [] ∧ ivs = []) ∧
  ∀ f, f ∈ fs → match severity f with SevError => errors s ≠ 0 | SevWarning => warnings s ≠ 0 end.
Proof.
  unfold summary_consistency_diagnostics. intros [H1 H2]%app_eq_nil.
  destruct (xorb _ _) eqn:Ex; [done|]. apply xorb_eq in Ex. clear H1.
  destruct (_ || _ || _ || _) eqn:Eo; [done|]. clear H2.
  rewrite !orb_false_iff in Eo. destruct Eo as [[[Hm Hu] He] Hw].
  assert (total_hazards s = 0 ↔ errors s = 0 ∧ warnings s = 0) as Hz.
  { rewrite <- !Z.eqb_eq, Ex. apply andb_true_iff. }
  assert (∀ sev n, existsb (λ f, bool_decide (severity f = sev)) fs && (n =? 0) = false →
    ∀ f, f ∈ fs → severity f = sev → n ≠ 0) as Hsev.
  { intros sev n H f Hf Es ->. rewrite andb_true_r in H. apply not_true_iff_false in H. apply H.
    apply existsb_exists. exists f. split; [by apply list_elem_of_In|by apply bool_decide_eq_true]. }
  split_and!; [done| |].
  - rewrite <- Ex in Hm, Hu. rewrite andb_diag in Hm, Hu. rewrite <- Z.eqb_eq.
    assert (bool_decide (length fs ≠ 0%nat) || bool_decide (length ivs ≠ 0%nat) = negb (total_hazards s =? 0)) as E.
    { destruct (total_hazards s =? 0), (bool_decide _ || bool_decide _); done. }
    split.
    + intros Et. rewrite Et in E. cbn in E. apply orb_false_iff in E as [E1 E2].
      apply bool_decide_eq_false in E1, E2. split; apply nil_length_inv; lia.
    + intros [-> ->]. cbn in E. by destruct (total_hazards s =? 0).
  - intros f Hf. destruct (severity f) eqn:Es; by eapply Hsev.
Qed.


(** ** The other tools *)

Lemma parse_site_ok raw : ∃ s, parse_site raw = Ok s.
Proof.
  unfold parse_site. cbv zeta. set (t := re_strip HAZARD_SUFFIX_RE (strip raw)).
  assert (∃ x, match re_match SITE_SOURCE_RE t with
    | Some m => sym ← required (groups m) "symbol"; f ← required (groups m) "file";
        n ← required (groups m) "line"; Ok (strip sym, Some f, Some (dec_value n))
    | None => Ok (t, None, None) end = Ok (E := exn) x) as [[[t' f] n] ->].
  { destruct (re_match SITE_SOURCE_RE t) as [m|] eqn:E; [|by eexists].
    assert (has_groups ["symbol"; "file"; "line"] (groups m)) as H
      by (apply re_match_groups in E; by vm_compute in E |- *).
    destruct (required_ok _ _ "symbol" H eq_refl) as [t1 ->]. destruct (required_ok _ _ "file" H eq_refl) as [t2 ->].
    destruct (required_ok _ _ "line" H eq_refl) as [t3 ->]. by eexists. }
  cbn. destruct (re_search OFFSET_RE t') as [[[|c before] m]|]; by eexists.
Qed.

Lemma collect_sites_ok tool n bs : ∃ x, collect_sites tool n bs = Ok x.
Proof.
  revert n. induction bs as [|[b|] bs IH]; intros n; cbn [collect_sites]; [by eexists| |apply IH]. cbv zeta.
  destruct (_ <? _); [by eexists|]. destruct (_ || _); [by eexists|].
  assert (∃ x, match re_match SITE_RE b with
    | Some m => s ← required (groups m) "site"; s ← parse_site s; Ok [s] | None => Ok [] end = Ok (E := exn) x) as [here ->].
  { destruct (re_match SITE_RE b) as [m|] eqn:E; [|by eexists].
    assert (has_groups ["site"] (groups m)) as H by (apply re_match_groups in E; by vm_compute in E |- *).
    destruct (required_ok _ _ "site" H eq_refl) as [t ->]. cbn [mbind res_bind]. destruct (parse_site_ok t) as [s ->]. by eexists. }
  cbn. destruct (IH (n + 1)) as [[ss raw] ->]. by eexists.
Qed.

Lemma e_consume_ok tool b bs p : ∃ p', e_consume tool b bs p = Ok p'.
Proof.
  unfold e_consume. destruct (starts_with _ b); [by eexists|].
  assert (∃ p' taken, e_consume_summary b p = Ok (p', taken)) as (p1 & taken & ->).
  { unfold e_consume_summary. destruct (contains _ b); [|by do 2 eexists].
    destruct (re_match ERROR_NOT_PRINTED_RE b) as [m|] eqn:E.
    - assert (has_groups ["count"] (groups m)) as H by (apply re_match_groups in E; by vm_compute in E |- *).
      destruct (required_ok _ _ "count" H eq_refl) as [t ->]. by do 2 eexists.
    - destruct (re_match ERROR_SUMMARY_RE b) as [m|] eqn:E'; [|by do 2 eexists].
      assert (has_groups ["errors"] (groups m)) as H by (apply re_match_groups in E'; by vm_compute in E' |- *).
      destruct (required_ok _ _ "errors" H eq_refl) as [t ->]. by do 2 eexists. }
  cbn. destruct taken; [by eexists|]. unfold consume_issue, checker_issue_at.
  destruct (checker_message tool b); [|by eexists].
  destruct (collect_sites_ok tool 0 bs) as [[ss raw] ->]. by eexists.
Qed.

Lemma e_consume_all_ok tool bs p : ∃ p', e_consume_all tool bs p = Ok p'.
Proof.
  revert p. induction bs as [|[b|] bs IH]; intros p; cbn [e_consume_all]; [by eexists| |apply IH].
  destruct (e_consume_ok tool b bs p) as [p' ->]. apply IH.
Qed.

(** Lines of the child process may stand anywhere among the others. *)
Lemma collect_sites_bodies tool n bs : collect_sites tool n bs = collect_sites tool n (Some <$> omap id bs).
Proof.
  revert n. induction bs as [|[b|] bs IH]; intros n; [done| |by apply IH].
  cbn. destruct (_ <? _); [done|]. destruct (_ || _); [done|]. by rewrite IH.
Qed.

Lemma e_consume_all_bodies tool bs p :
  e_consume_all tool bs p = e_consume_all tool (Some <$> omap id bs) p.
Proof.
  revert p. induction bs as [|[b|] bs IH]; intros p; [done| |by apply IH].
  cbn [e_consume_all fmap list_fmap omap list_omap id].
  assert (e_consume tool b bs p = e_consume tool b (Some <$> omap id bs) p) as ->.
  { unfold e_consume, consume_issue, checker_issue_at. by rewrite collect_sites_bodies. }
  unfold mbind, res_bind. destruct (e_consume tool b _ p); [apply IH|done].
Qed.

Lemma omap_id_fmap {A B} (f : A → option B) (l : list A) : omap id (f <$> l) = omap f l.
Proof. induction l as [|a l IH]; [done|]. cbn. destruct (f a); cbn; by rewrite IH. Qed.

(** Reading a report never fails, whatever the log, and only what the
    sanitizer wrote matters: logs with the same sanitizer lines, after whatever
    text stands before their marker and between whatever lines the child
    process wrote, give the same result, for each of the four tools. *)
Theorem checker_reads_only_sanitizer_lines tool log :
  (∃ r, parse_checker_log tool log = Ok r) ∧
  ∀ log', bodies_of log' = bodies_of log → parse_checker_log tool log' = parse_checker_log tool log.
Proof.
  assert ((∃ r, parse_error_checker_log tool log = Ok r) ∧
    ∀ log', bodies_of log' = bodies_of log →
      parse_error_checker_log tool log' = parse_error_checker_log tool log) as [He He'].
  { unfold parse_error_checker_log, bodies_of. split.
    - destruct (e_consume_all_ok tool (sanitizer_body <$> splitlines log) checker0) as [p ->]. by eexists.
    - intros log' E. rewrite (e_consume_all_bodies tool (sanitizer_body <$> splitlines log')).
      rewrite (e_consume_all_bodies tool (sanitizer_body <$> splitlines log)). by rewrite !omap_id_fmap, E. }
  destruct tool; try done. cbn. unfold racecheck_as_checker_result. split.
  - destruct (parse_racecheck_ok log) as [r ->]. by eexists.
  - intros log' E. assert (parse_racecheck_log log' = parse_racecheck_log log) as ->; [|done].
    unfold parse_racecheck_log. rewrite !consume_all_bodies. unfold bodies_of in E. by rewrite E.
Qed.

Definition noisy_log : text := log_of
  ["========= Error: Race reported between Write access at k(int)+0x1a0 in a b.cu:12";
   "test_b PASSED"; "";
   "=========     and Read access at k(int)+0x2b0 in c.cu:7 [12 hazards]"; "more output";
   "x ========= RACECHECK SUMMARY: 1 hazard displayed (1 error, 0 warnings)"]%string.

Lemma checker_reads_only_sanitizer_lines_witness :
  race_log ≠ noisy_log ∧ parse_checker_log RACECHECK noisy_log = parse_checker_log RACECHECK race_log.
Proof.
  split; [by vm_compute|].
  apply (proj2 (checker_reads_only_sanitizer_lines RACECHECK race_log)). vm_compute. reflexivity.
Defined.

(** C11: a complete racecheck result accounts for the whole log: the log has
    exactly one summary line and it is the summary; every race header and every
    invalid-access line became a finding, with its conflicting accesses; no tool
    error was printed; and the counts agree with each other and with the
    findings, severity by severity. *)
Theorem racecheck_complete_accounts log r :
  parse_racecheck_log log = Ok r → is_complete r = true →
  ∃ s, summary r = Some s ∧ parsed_summary s ∧
    filter (λ b, summary_line b = true) (bodies_of log) = [rs_raw s] ∧
    length (findings r) = tally header_line (bodies_of log) ∧ Forall paired (findings r) ∧
    length (invalid_accesses r) = tally invalid_line (bodies_of log) ∧
    Forall (λ b, internal_line b = false) (bodies_of log) ∧
    (total_hazards s = 0 ↔ errors s = 0 ∧ warnings s = 0) ∧
    (total_hazards s = 0 ↔ findings r = [] ∧ invalid_accesses r = []) ∧
    ∀ f, f ∈ findings r → match severity f with SevError => errors s ≠ 0 | SevWarning => warnings s ≠ 0 end.
Proof.
  unfold parse_racecheck_log, bodies_of. rewrite consume_all_bodies. set (bs := omap sanitizer_body (splitlines log)).
  destruct (consume_bodies_ok bs parser0 parser0_ok) as (p & -> & [Hb Hp Hc]). cbn. unfold finish.
  destruct (flush_ok p Hb) as (p1 & -> & [_ Gc Gs Gm Gp] & Eh & Ei & _). cbn [mbind res_bind].
  intros [= <-] Hcomp. unfold is_complete in Hcomp.
  destruct (Z.eqb_spec (summary_markers p1) 0) as [E0|Hn0].
  { cbn in Hcomp. destruct (p_summary p1); [|done]. destruct (fold_left _ _ _) eqn:Ed; [|done].
    apply fold_diagnostics_nil in Ed as [Ed _]. by apply add_diagnostic_not_nil in Ed. }
  destruct (Z.ltb_spec 1 (summary_markers p1)) as [E1|Hn1].
  { cbn in Hcomp. destruct (p_summary p1); [|done]. destruct (fold_left _ _ _) eqn:Ed; [|done].
    apply fold_diagnostics_nil in Ed as [Ed _]. by apply add_diagnostic_not_nil in Ed. }
  cbn [summary diagnostics findings invalid_accesses] in *.
  destruct (p_summary p1) as [s|] eqn:Esum; [|done].
  destruct (fold_left _ _ _) eqn:Ed in Hcomp; [|done]. apply fold_diagnostics_nil in Ed as [Ed Hcons].
  destruct (Gc Ed) as (Edp & Hr & Hv). destruct (Hc Edp) as (_ & Hint & Hr0 & Hv0 & Hm0 & Hlast).
  exists s. apply consistency_nil in Hcons as (H1 & H2 & H3).
  unfold reports, invalids in *. rewrite Eh in Hr. rewrite Ei in Hv. cbn in Hr, Hv, Hr0, Hv0, Hm0.
  assert (∃ b, filter (λ b, summary_line b = true) bs = [b]) as [b Hf].
  { unfold tally in Hm0. destruct (filter (λ b, summary_line b = true) bs) as [|b [|]]; cbn in *; [lia|by exists b|lia]. }
  rewrite Hf in Hlast |- *. cbn in Hlast. destruct Hlast as (s' & Es' & <- & Hs').
  assert (s' = s) as -> by congruence.
  split_and!; try done; [lia| |lia]. apply Gp, Hp. constructor.
Qed.

Definition mixed_log : text := log_of
  ["========= Warning: Race reported between Read access at f+0x10 in a.cu:3";
   "=========     and Write access at f+0x20 in a.cu:4 [1 hazard]";
   "=========     and Write access at g+0x20 in b.cu:9 [31 hazards]";
   "noise"; "========= Potential invalid __shared__ read of size 4 bytes";
   "=========     at f+0x30 in a.cu:5";
   "========= RACECHECK SUMMARY: 2 hazards displayed (1 error, 1 warning)"]%string.

Lemma racecheck_complete_accounts_witness :
  ∃ r, parse_racecheck_log mixed_log = Ok r ∧ is_complete r = true ∧
    length (findings r) = 1%nat ∧ Forall paired (findings r).
Proof.
  destruct (parse_racecheck_log mixed_log) as [r|e] eqn:E; [|vm_compute in E; discriminate E].
  exists r. assert (is_complete r = true ∧ length (findings r) = 1%nat) as [Hc Hl].
  { vm_compute in E. injection E as <-. split; reflexivity. }
  destruct (racecheck_complete_accounts mixed_log r E Hc) as (s & _ & _ & _ & _ & Hp & _).
  split; [reflexivity|]. split; [exact Hc|]. split; [exact Hl|exact Hp].
Defined.

(** A race header that does not parse is diagnosed, unless it follows an
    invalid-access message within its lookahead: then nothing records it. *)
Definition lost_race_log : text := log_of
  ["========= Potential invalid __shared__ read of size 4 bytes";
   "========= Error: Race reported between Write access at kernel+0x100";
   "========= RACECHECK SUMMARY: 2 hazards displayed (1 error, 1 warning)"]%string.

Example lost_race_is_complete :
  match parse_racecheck_log lost_race_log with
  | Ok r => (is_complete r, length (findings r), length (invalid_accesses r)) = (true, 0%nat, 1%nat)
  | Err _ => False
  end.
Proof. vm_compute. reflexivity. Qed.
