(* ===== verification/Query.v ===== *)
(** Reading, filtering, selecting and grouping trace records: [query/reader.py],
    [query/grouper.py], and the record projection of [query/formatters.py].

    A record is the dict that JSON decoding returns for one line of a trace.
    The JSON decoder itself is a third-party function, the parameter [loads];
    opening and decompressing the file is left out, so a file is its lines. *)
From S2P Require Import Prelude.
From S2P Require Import PyStr.
From S2P Require Import PyDict.
From S2P Require Import Json.
From Stdlib Require Import Ascii.
From Stdlib Require String.
From Stdlib Require Import Floats.SpecFloat.
Local Open Scope Z_scope.

(** ** Equality of decoded values *)

(** [f == z]: exact, not after rounding. *)
Definition f_is_Z (f : float) (z : Z) : bool :=
  match f with
  | S754_zero _ => z =? 0
  | S754_finite s m e =>
      let a := if s then - Z.pos m else Z.pos m in
      if 0 <=? e then a * 2 ^ e =? z else a =? z * 2 ^ (- e)
  | _ => false
  end.

(** [a == b] in Python: booleans are the integers 0 and 1. *)
Fixpoint py_eq (a b : json) {struct a} : bool :=
  match a, b with
  | JNull, JNull => true
  | JBool x, JBool y => Bool.eqb x y
  | JBool x, JInt z | JInt z, JBool x => (if x then 1 else 0) =? z
  | JBool x, JFloat f | JFloat f, JBool x => f_is_Z f (if x then 1 else 0)
  | JInt x, JInt y => x =? y
  | JInt z, JFloat f | JFloat f, JInt z => f_is_Z f z
  | JFloat x, JFloat y => f_eq x y
  | JStr x, JStr y => String.eqb x y
  | JList x, JList y =>
      (fix go (x y : list json) : bool :=
         match x, y with
         | [], [] => true
         | v :: x, w :: y => py_eq v w && go x y
         | _, _ => false
         end) x y
  | JObj x, JObj y =>
      (length x =? length y)%nat &&
      (fix go (x : list (string * json)) : bool :=
         match x with
         | [] => true
         | (k, v) :: x => match field y k with Some w => py_eq v w | None => false end && go x
         end) x
  | _, _ => false
  end.

(** ** Filter expressions *)

Section Filters.
Context (loads : string → option json).

Definition record_pred : Type := obj → bool.

Definition parse_single_filter (expr : list ascii) : res exn record_pred :=
  if negb (contains ["="%char] expr) then Err ValueError
  else
    let '(f, v) := partition_at "="%char expr in
    let name := str (strip f) in
    let value := str (strip v) in
    if bool_decide (name = "") then Err ValueError
    else match int0 (strip v) with
    | Some z => Ok (λ r, py_eq (get r name) (JStr value) || py_eq (get r name) (JInt z))
    | None =>
        match loads value with
        | Some (JList l) => Ok (λ r, py_eq (get r name) (JList l))
        | Some (JObj d) => Ok (λ r, py_eq (get r name) (JObj d))
        | _ => Ok (λ r, py_eq (get r name) (JStr value))
        end
    end.

Fixpoint map_exn {A B} (f : A → res exn B) (l : list A) : res exn (list B) :=
  match l with
  | [] => Ok []
  | a :: r => b ← f a; bs ← map_exn f r; Ok (b :: bs)
  end.

Definition filter_parts (filter_expr : string) : list (list ascii) :=
  filter (λ p, p ≠ []) (strip <$> split_on ";"%char (chars filter_expr)).

Definition parse_filter_expr (filter_expr : string) : res exn record_pred :=
  match filter_parts filter_expr with
  | [] => Err ValueError
  | [p] => parse_single_filter p
  | parts =>
      predicates ← map_exn parse_single_filter parts;
      Ok (λ r, forallb (λ p : record_pred, p r) predicates)
  end.

Definition build_filter_predicate (filter_exprs : list string) : res exn record_pred :=
  predicates ← map_exn parse_filter_expr filter_exprs;
  match predicates with
  | [p] => Ok p
  | _ => Ok (λ r, forallb (λ p : record_pred, p r) predicates)
  end.
End Filters.

(** ** Selection *)

(** [deque(l, maxlen=n)] for [n > 0]. *)
Definition push {A} (n : nat) (d : list A) (a : A) : list A :=
  let d := d ++ [a] in drop (length d - n) d.
Definition bounded_deque {A} (n : nat) (l : list A) : list A := fold_left (push n) l [].

Definition select_records (records : list obj) (head tail : option Z) : list obj :=
  match tail with
  | Some n => if n <=? 0 then [] else bounded_deque (Z.to_nat n) records
  | None =>
      let n := default 10 head in
      if n <=? 0 then [] else take (Z.to_nat n) records
  end.

(** ** Reading a trace *)

Record Tables := mkTables {
  sass_table : dict string json;
  callstack_table : dict string (list json);
  capture_completion : option obj;
  capture_completion_count : Z
}.
Definition tables0 : Tables := mkTables [] [] None 0.

(** [str(j)] of an opcode id. *)
Definition key_text (j : json) : dres string :=
  match j with
  | JStr s => Ok s
  | JInt z => Ok (pretty z)
  | JBool b => Ok (if b then "True" else "False")
  | JNull => Ok "None"
  | _ => Err IllTyped
  end.

Definition has (r : obj) (k : string) : bool := bool_decide (field r k ≠ None).

Definition resolve_sass (sass_table : dict string json) (r : obj) : dres obj :=
  match field r "sass", field r "opcode_id" with
  | None, Some id =>
      if bool_decide (length sass_table = 0%nat) then Ok r
      else
        opcode_key ← key_text id;
        match dict_get sass_table opcode_key with
        | Some s => Ok (dict_set r "sass" s)
        | None => Ok r
        end
  | _, _ => Ok r
  end.

Definition resolve_caller (callstack_table : dict string (list json)) (r : obj) : dres obj :=
  if py_eq (get r "type") (JStr "kernel_launch") && has r "callstack_id"
     && bool_decide (length callstack_table ≠ 0%nat) && negb (has r "caller")
  then
    match get r "callstack_id" with
    | JStr cid =>
        match dict_get callstack_table cid with
        | Some frames =>
            match last frames with
            | Some frame => Ok (dict_set r "caller" frame)
            | None => Ok r
            end
        | None => Ok r
        end
    | JNull => Ok r
    | _ => Err IllTyped
    end
  else Ok r.

Definition resolve_record_references (t : Tables) (r : obj) : dres obj :=
  r ← resolve_sass (sass_table t) r;
  resolve_caller (callstack_table t) r.

(** The instruction table of a [kernel_metadata] record. *)
Definition add_instruction (d : dict string json) (e : string * json) : dict string json :=
  match e.2 with
  | JObj info => match field info "sass" with Some s => dict_set d e.1 s | None => d end
  | _ => d
  end.

Definition cache_instructions (r : obj) (t : Tables) : dres Tables :=
  instructions ← as_obj (get_or r "instructions" (JObj []));
  Ok (mkTables (fold_left add_instruction instructions (sass_table t)) (callstack_table t)
        (capture_completion t) (capture_completion_count t)).

Definition cache_callstack (r : obj) (t : Tables) : dres Tables :=
  match get r "callstack_id", get r "frames" with
  | cid, JList frames =>
      if negb (truthy cid) then Ok t
      else match cid with
      | JStr s => Ok (mkTables (sass_table t) (dict_set (callstack_table t) s frames)
                       (capture_completion t) (capture_completion_count t))
      | _ => Err IllTyped
      end
  | _, _ => Ok t
  end.

Definition is_type (r : obj) (type : string) : bool := py_eq (get r "type") (JStr type).

(** One decoded record: the record yielded, if any. *)
Definition read_record (r : obj) : st Tables derr (option obj) := λ t,
  if is_type r "capture_completion" then
    (mkTables (sass_table t) (callstack_table t) (Some r) (capture_completion_count t + 1), Ok None)
  else
    match (if is_type r "kernel_metadata" then cache_instructions r t else Ok t) with
    | Err e => (t, Err e)
    | Ok t =>
        if is_type r "callstack_def" then
          match cache_callstack r t with Ok t => (t, Ok None) | Err e => (t, Err e) end
        else match resolve_record_references t r with
             | Ok r => (t, Ok (Some r))
             | Err e => (t, Err e)
             end
    end.

Section Reader.
Context (loads : string → option json).

(** One line; text that is not JSON raises [JSONDecodeError], a [ValueError]. *)
Definition read_line (line : string) : st Tables derr (option obj) :=
  let line := str (strip (chars line)) in
  if bool_decide (line = "") then mret None
  else match loads line with
       | None => st_raise (Raised ValueError)
       | Some (JObj r) => read_record r
       | Some _ => st_raise IllTyped
       end.

(** The generator run to its end: the records it yields, then how it ends. *)
Fixpoint iter_from (lines : list string) (t : Tables) : Tables * list obj * dres () :=
  match lines with
  | [] => (t, [], Ok ())
  | line :: rest =>
      match read_line line t with
      | (t, Err e) => (t, [], Err e)
      | (t, Ok o) =>
          let '(t, rs, e) := iter_from rest t in
          (t, match o with Some r => r :: rs | None => rs end, e)
      end
  end.

Definition iter_records (lines : list string) : Tables * list obj * dres () :=
  iter_from lines tables0.
End Reader.

(** ** Displayed fields *)

Definition DEFAULT_FIELDS : list string := ["warp"; "pc"; "sass"].

(** [dict.fromkeys]: the first occurrence of each key, in order. *)
Definition add_key (seen : list string) (k : string) : list string :=
  if bool_decide (k ∈ seen) then seen else seen ++ [k].
Definition union_of_fields (records : list obj) : list string :=
  fold_left add_key (concat ((λ r : obj, r.*1) <$> records)) [].

Definition get_display_fields (records : list obj) (requested_fields : option string) : list string :=
  let all := match records with [] => DEFAULT_FIELDS | _ => union_of_fields records end in
  match requested_fields with
  | None => all
  | Some s =>
      if bool_decide (s = "") then all
      else
        let wanted := str (strip (chars s)) in
        if bool_decide (wanted = "*") || bool_decide (wanted = "all") then all
        else (λ f, str (strip f)) <$> split_on ","%char (chars s)
  end.

(** [{f: record.get(f) for f in fields if f in record}]. *)
Definition filtered_record (fields : list string) (r : obj) : obj :=
  fold_left (λ d f, match field r f with Some v => dict_set d f v | None => d end) fields [].

(** ** Grouping *)

(** Keys of the grouping dicts.  Booleans are the integers they equal. *)
Inductive key :=
| KNone
| KInt (z : Z)
| KStr (s : string)
| KTuple (l : list key).

#[export] Instance key_eq_dec : EqDecision key.
Proof.
  refine (fix go (a b : key) : {a = b} + {a ≠ b} :=
    match a, b with
    | KNone, KNone => left eq_refl
    | KInt x, KInt y => cast_if (decide (x = y))
    | KStr x, KStr y => cast_if (decide (x = y))
    | KTuple x, KTuple y => cast_if (@list_eq_dec key go x y)
    | _, _ => right _
    end); abstract congruence.
Defined.

(** A dict in a key raises; a float key is outside the model. *)
Fixpoint hashable (j : json) : dres key :=
  match j with
  | JNull => Ok KNone
  | JBool b => Ok (KInt (if b then 1 else 0))
  | JInt z => Ok (KInt z)
  | JStr s => Ok (KStr s)
  | JList l => ks ← map_res hashable l; Ok (KTuple ks)
  | JObj _ => Err (Raised TypeError)
  | JFloat _ => Err IllTyped
  end.

(** The grouper owns an iterator that can be consumed once. *)
Record Grouper := mkGrouper {
  g_records : list obj;
  group_field : string;
  g_consumed : bool
}.
Notation GM := (st Grouper derr).

Definition make_grouper (records : list obj) (group_field : string) : Grouper :=
  mkGrouper records group_field false.

Definition ensure_not_consumed : GM () := λ g,
  if g_consumed g then (g, Err (Raised RuntimeError))
  else (mkGrouper (g_records g) (group_field g) true, Ok ()).

(** [for record in self._records]: an error leaves the rest in the iterator. *)
Fixpoint run_records {B} (name : string) (step : B → key → obj → B) (rs : list obj) (b : B)
    : list obj * dres B :=
  match rs with
  | [] => ([], Ok b)
  | r :: rs =>
      match hashable (get r name) with
      | Ok k => run_records name step rs (step b k r)
      | Err e => (rs, Err e)
      end
  end.

Definition for_records {B} (step : B → key → obj → B) (b : B) : GM B := λ g,
  let '(rs, o) := run_records (group_field g) step (g_records g) b in
  (mkGrouper rs (group_field g) (g_consumed g), o).

Notation groups := (dict key (list obj)).

Definition append_record (d : groups) (k : key) (r : obj) : groups :=
  dict_upd d k (λ o, default [] o ++ [r]).
Definition count_record (d : dict key Z) (k : key) (r : obj) : dict key Z :=
  dict_upd d k (λ o, default 0 o + 1).

Definition head_step (n : Z) (b : groups * dict key Z) (k : key) (r : obj) : groups * dict key Z :=
  if default 0 (dict_get b.2 k) <? n
  then (append_record b.1 k r, count_record b.2 k r) else b.

Definition head_per_group (n : Z) : GM groups :=
  _ ← ensure_not_consumed;
  if n <=? 0 then mret []
  else b ← for_records (head_step n) ([], []); mret (fst b).

Definition tail_per_group (n : Z) : GM groups :=
  _ ← ensure_not_consumed;
  if n <=? 0 then mret []
  else for_records (λ d k r, dict_upd d k (λ o, push (Z.to_nat n) (default [] o) r)) [].

Definition count_per_group : GM (dict key Z) :=
  _ ← ensure_not_consumed;
  for_records count_record [].

Definition all_per_group : GM groups :=
  _ ← ensure_not_consumed;
  for_records append_record [].

(** ** Filters: the conditions of every expression, together *)

Lemma split_on_app sep a b :
  split_on sep (a ++ sep :: b) = split_on sep a ++ split_on sep b.
Proof.
  induction a as [|c a IH].
  - cbn. by rewrite Ascii.eqb_refl.
  - cbn [split_on app]. destruct (Ascii.eqb c sep); [cbn; by rewrite IH|].
    rewrite IH. destruct (split_on sep a) eqn:E; [|done].
    exfalso. clear IH. destruct a as [|d a]; [done|]. cbn in E. destruct (Ascii.eqb d sep); [done|].
    by destruct (split_on sep a).
Qed.

(** [";".join(exprs)]. *)
Fixpoint join_filters (exprs : list string) : string :=
  match exprs with
  | [] => ""
  | [e] => e
  | e :: rest => e +:+ ";" +:+ join_filters rest
  end.

Lemma filter_parts_join e exprs :
  filter_parts (join_filters (e :: exprs)) = concat (filter_parts <$> e :: exprs).
Proof.
  revert e. induction exprs as [|e' exprs IH]; intros e; [cbn; by rewrite app_nil_r|].
  change (join_filters (e :: e' :: exprs)) with (e +:+ ";" +:+ join_filters (e' :: exprs)).
  rewrite fmap_cons, concat_cons, <- IH. unfold filter_parts.
  rewrite !chars_app. change (chars ";" ++ ?x) with (";"%char :: x).
  by rewrite split_on_app, fmap_app, filter_app.
Qed.

Section FilterFacts.
Context (loads : string → option json).
Notation parse1 := (parse_single_filter loads).

(** What one condition [field=value] asks of a record: the text, or the number
    or container it denotes. *)
Definition value_matches (value : string) (j : json) : Prop :=
  match int0 (chars value), loads value with
  | Some z, _ => j = JStr value ∨ py_eq j (JInt z) = true
  | None, Some ((JList _ | JObj _) as v) => py_eq j v = true
  | None, _ => j = JStr value
  end.

Definition condition_holds (r : obj) (part : list ascii) : Prop :=
  let '(f, v) := partition_at "="%char part in
  value_matches (str (strip v)) (get r (str (strip f))).

Lemma lstrip_head l : match lstrip l with c :: _ => is_space c = false | [] => True end.
Proof. induction l as [|c l IH]; cbn; [done|]. by destruct (is_space c) eqn:E. Qed.

Lemma lstrip_idem l : match l with c :: _ => is_space c = false | [] => True end → lstrip l = l.
Proof. destruct l as [|c l]; [done|]. cbn. by intros ->. Qed.

Lemma lstrip_app_keep l c : is_space c = false → ∃ m, lstrip (l ++ [c]) = m ++ [c].
Proof.
  intros Hc. induction l as [|d l [m IH]]; cbn; [rewrite Hc; by exists []|].
  destruct (is_space d); [by exists m|by exists (d :: l)].
Qed.

Lemma strip_idem l : strip (strip l) = strip l.
Proof.
  unfold strip, rstrip. set (a := lstrip l).
  assert (lstrip (rev (lstrip (rev a))) = rev (lstrip (rev a))) as E.
  { apply lstrip_idem. pose proof (lstrip_head l) as Hh. fold a in Hh.
    destruct a as [|c a']; [done|]. cbn [rev].
    destruct (lstrip_app_keep (rev a') c Hh) as [m ->]. by rewrite rev_unit. }
  rewrite E, rev_involutive. f_equal. apply lstrip_idem, lstrip_head.
Qed.

Lemma py_eq_str j s : py_eq j (JStr s) = true ↔ j = JStr s.
Proof.
  destruct j; cbn; try (split; [done|by intros [=]]).
  rewrite String.eqb_eq. split; [by intros ->|by intros [= ->]].
Qed.

Lemma parse_single_spec part :
  match parse1 part with
  | Ok p => ∀ r, p r = true ↔ condition_holds r part
  | Err e => e = ValueError
  end.
Proof.
  unfold parse_single_filter, condition_holds.
  destruct (contains ["="%char] part); cbn [negb]; [|done].
  destruct (partition_at "="%char part) as [f v]. case_bool_decide as Hf; [done|].
  unfold value_matches. rewrite chars_str.
  assert (int0 (strip v) = int0 v) as -> by (unfold int0; by rewrite strip_idem).
  assert (int0 (strip v) = int0 v) as E by (unfold int0; by rewrite strip_idem).
  destruct (int0 v) as [z|]; [intros r; by rewrite orb_true_iff, py_eq_str|].
  destruct (loads (str (strip v))) as [[]|]; intros r; try apply py_eq_str; done.
Qed.

Lemma map_exn_forall {A B} (f : A → res exn B) l :
  match map_exn f l with
  | Ok bs => Forall2 (λ a b, f a = Ok b) l bs
  | Err e => ∃ a, a ∈ l ∧ f a = Err e
  end.
Proof.
  induction l as [|a l IH]; cbn; [constructor|].
  destruct (f a) as [b|e] eqn:E; cbn; [|exists a; split; [by left|done]].
  destruct (map_exn f l) as [bs|e]; cbn; [by constructor|].
  destruct IH as (x & Hx & He). exists x. split; [by right|done].
Qed.

Lemma map_exn_ok {A B} (f : A → res exn B) l bs :
  Forall2 (λ a b, f a = Ok b) l bs → map_exn f l = Ok bs.
Proof. induction 1 as [|a b l bs Hf _ IH]; cbn; [done|]. rewrite Hf; cbn. by rewrite IH. Qed.

(** A list of conditions, none of them malformed. *)
Definition well_formed (parts : list (list ascii)) : Prop :=
  Forall (λ p, is_ok (parse1 p) = true) parts.

Lemma all_conditions parts :
  match map_exn parse1 parts with
  | Ok ps => well_formed parts ∧
      ∀ r, forallb (λ p : record_pred, p r) ps = true ↔ Forall (condition_holds r) parts
  | Err e => e = ValueError ∧ ¬ well_formed parts
  end.
Proof.
  pose proof (map_exn_forall parse1 parts) as H. destruct (map_exn parse1 parts) as [ps|e].
  - induction H as [|part p parts ps Hp H [IHw IH]]; [split; [constructor|done]|].
    split; [constructor; [by rewrite Hp|done]|]. intros r. cbn [forallb].
    rewrite andb_true_iff, Forall_cons, IH. pose proof (parse_single_spec part) as Hs.
    rewrite Hp in Hs. by rewrite Hs.
  - destruct H as (part & Hin & He). pose proof (parse_single_spec part) as Hs. rewrite He in Hs.
    split; [done|]. intros Hw. eapply Forall_forall in Hw; [|exact Hin]. by rewrite He in Hw.
Qed.

Lemma parse_filter_spec e :
  match parse_filter_expr loads e with
  | Ok p => filter_parts e ≠ [] ∧ well_formed (filter_parts e) ∧
      ∀ r, p r = true ↔ Forall (condition_holds r) (filter_parts e)
  | Err x => x = ValueError ∧ ¬ (filter_parts e ≠ [] ∧ well_formed (filter_parts e))
  end.
Proof.
  unfold parse_filter_expr. pose proof (all_conditions (filter_parts e)) as H.
  destruct (filter_parts e) as [|a [|b l]]; [naive_solver|..].
  - cbn in H. destruct (parse1 a) as [p|x]; cbn in H; [|naive_solver].
    destruct H as [Hw H]. split_and!; [done|done|]. intros r. by rewrite <- H, andb_true_r.
  - unfold mbind, res_bind. destruct (map_exn parse1 (a :: b :: l)); naive_solver.
Qed.

Lemma build_filter_spec exprs :
  match build_filter_predicate loads exprs with
  | Ok p => Forall (λ e, filter_parts e ≠ [] ∧ well_formed (filter_parts e)) exprs ∧
      ∀ r, p r = true ↔ Forall (λ e, Forall (condition_holds r) (filter_parts e)) exprs
  | Err x => x = ValueError ∧ ¬ Forall (λ e, filter_parts e ≠ [] ∧ well_formed (filter_parts e)) exprs
  end.
Proof.
  unfold build_filter_predicate. pose proof (map_exn_forall (parse_filter_expr loads) exprs) as H.
  unfold mbind, res_bind. destruct (map_exn (parse_filter_expr loads) exprs) as [ps|x].
  - assert (Forall (λ e, filter_parts e ≠ [] ∧ well_formed (filter_parts e)) exprs ∧
      ∀ r, forallb (λ p : record_pred, p r) ps = true ↔
           Forall (λ e, Forall (condition_holds r) (filter_parts e)) exprs) as [Hw Hall].
    { induction H as [|e p exprs ps Hp H [IHw IH]]; [split; [constructor|done]|].
      pose proof (parse_filter_spec e) as Hs. rewrite Hp in Hs. destruct Hs as (H1 & H2 & H3).
      split; [by constructor|]. intros r. cbn [forallb]. by rewrite andb_true_iff, Forall_cons, IH, H3. }
    destruct ps as [|p [|q ps]]; (split; [done|]); intros r; rewrite <- Hall; [done| |done].
    cbn. by rewrite andb_true_r.
  - destruct H as (e & Hin & He). pose proof (parse_filter_spec e) as Hs. rewrite He in Hs.
    destruct Hs as [-> Hs]. split; [done|]. intros Hw. eapply Forall_forall in Hw; [|exact Hin]. done.
Qed.

End FilterFacts.

(** ** Reading: each record is resolved against the metadata before it *)

(** The last binding of a key. *)
Definition latest {A} (k : string) (l : list (string * A)) : option A :=
  snd <$> last (filter (λ e, e.1 = k) l).

Lemma latest_nil {A} k : latest k ([] : list (string * A)) = None.
Proof. done. Qed.

Lemma latest_snoc {A} k (l : list (string * A)) e :
  latest k (l ++ [e]) = if decide (e.1 = k) then Some e.2 else latest k l.
Proof.
  unfold latest. rewrite filter_app, filter_cons, filter_nil. case_decide; [by rewrite last_snoc|].
  by rewrite app_nil_r.
Qed.

Lemma fold_dict_set {A} (l : list (string * A)) (d b : list (string * A)) :
  (∀ k, dict_get d k = latest k b) →
  ∀ k, dict_get (fold_left (λ d e, dict_set d e.1 e.2) l d) k = latest k (b ++ l).
Proof.
  revert d b. induction l as [|e l IH]; intros d b Hd k; cbn [fold_left]; [by rewrite app_nil_r|].
  change (e :: l) with ([e] ++ l). rewrite app_assoc. apply IH. clear k. intros k.
  rewrite latest_snoc. case_decide as E; [subst k; apply dict_get_set_eq|].
  by rewrite dict_get_set_ne.
Qed.

(** The instruction and call-stack bindings a record defines. *)
Definition sass_of (e : string * json) : option (string * json) :=
  match e.2 with JObj info => (λ s, (e.1, s)) <$> field info "sass" | _ => None end.
Definition sass_bindings (r : obj) : list (string * json) :=
  match get_or r "instructions" (JObj []) with
  | JObj d => if is_type r "kernel_metadata" then omap sass_of d else []
  | _ => []
  end.
Definition frame_bindings (r : obj) : list (string * list json) :=
  match get r "callstack_id", get r "frames" with
  | JStr s, JList frames => if is_type r "callstack_def" && bool_decide (s ≠ "") then [(s, frames)] else []
  | _, _ => []
  end.
Definition all_sass (rs : list obj) : list (string * json) := concat (sass_bindings <$> rs).
Definition all_frames (rs : list obj) : list (string * list json) := concat (frame_bindings <$> rs).

(** Records that are metadata of the file and not yielded. *)
Definition yielded (r : obj) : bool :=
  negb (is_type r "capture_completion") && negb (is_type r "callstack_def").
Definition completions (rs : list obj) : list obj := filter (λ r, is_type r "capture_completion" = true) rs.

(** What resolution does to a record read after (and including) [past]: fields
    are only added, and only the two derived ones. *)
Record resolved (past : list obj) (r r' : obj) : Prop := {
  res_keeps : ∀ k v, field r k = Some v → field r' k = Some v;
  res_sass : field r' "sass" = match field r "sass", field r "opcode_id" with
                               | None, Some id =>
                                   match key_text id with Ok k => latest k (all_sass past) | Err _ => None end
                               | o, _ => o
                               end;
  res_caller : field r' "caller" = match field r "caller", get r "callstack_id" with
                                   | None, JStr id =>
                                       if is_type r "kernel_launch"
                                       then latest id (all_frames past) ≫= last else None
                                   | o, _ => o
                                   end;
  res_only : ∀ k, k ≠ "sass" → k ≠ "caller" → field r' k = field r k
}.

Record tables_ok (past : list obj) (t : Tables) : Prop := {
  tab_sass : ∀ k, dict_get (sass_table t) k = latest k (all_sass past);
  tab_frames : ∀ k, dict_get (callstack_table t) k = latest k (all_frames past);
  tab_last : capture_completion t = last (completions past);
  tab_count : capture_completion_count t = Z.of_nat (length (completions past))
}.

Lemma fold_add_instruction l d :
  fold_left add_instruction l d = fold_left (λ d e, dict_set d e.1 e.2) (omap sass_of l) d.
Proof.
  revert d. induction l as [|[k v] l IH]; intros d; [done|]. cbn [fold_left omap list_omap].
  rewrite IH. unfold add_instruction, sass_of. cbn [fst snd].
  destruct v; try done. by destruct (field d0 "sass").
Qed.

Lemma all_snoc {A} (f : obj → list A) rs r : concat (f <$> rs ++ [r]) = concat (f <$> rs) ++ f r.
Proof. by rewrite fmap_app, concat_app; cbn; rewrite app_nil_r. Qed.

Lemma is_type_eq r ty : is_type r ty = true → ∀ ty', is_type r ty' = bool_decide (ty = ty').
Proof.
  unfold is_type. rewrite py_eq_str. intros -> ty'. cbn.
  destruct (String.eqb_spec ty ty'); [by rewrite bool_decide_eq_true_2|by rewrite bool_decide_eq_false_2].
Qed.

Lemma no_sass r : is_type r "kernel_metadata" = false → sass_bindings r = [].
Proof. intros E. unfold sass_bindings. rewrite E. by destruct (get_or _ _ _). Qed.

Lemma no_frames r : is_type r "callstack_def" = false → frame_bindings r = [].
Proof. intros E. unfold frame_bindings. rewrite E. by destruct (get r "callstack_id"), (get r "frames"). Qed.

Lemma completions_snoc past r :
  completions (past ++ [r]) = completions past ++ (if is_type r "capture_completion" then [r] else []).
Proof.
  unfold completions. rewrite filter_app, filter_cons, filter_nil.
  by destruct (is_type r "capture_completion").
Qed.

(** A record that binds nothing and completes nothing leaves the tables right. *)
Lemma tables_ok_snoc past t r t' :
  tables_ok past t →
  (∀ k, dict_get (sass_table t') k = latest k (all_sass past ++ sass_bindings r)) →
  (∀ k, dict_get (callstack_table t') k = latest k (all_frames past ++ frame_bindings r)) →
  is_type r "capture_completion" = false →
  capture_completion t' = capture_completion t →
  capture_completion_count t' = capture_completion_count t →
  tables_ok (past ++ [r]) t'.
Proof.
  intros [_ _ Hl Hc] Hs Hf Hn El Ec. split.
  - intros k. rewrite Hs. unfold all_sass. by rewrite all_snoc.
  - intros k. rewrite Hf. unfold all_frames. by rewrite all_snoc.
  - by rewrite El, Hl, completions_snoc, Hn, app_nil_r.
  - by rewrite Ec, Hc, completions_snoc, Hn, app_nil_r.
Qed.

Lemma cache_instructions_ok past t r t' :
  tables_ok past t → is_type r "kernel_metadata" = true →
  cache_instructions r t = Ok t' → tables_ok (past ++ [r]) t'.
Proof.
  intros Ht Ety H. unfold cache_instructions in H. apply bind_ok in H as (d & Hd & H).
  injection H as <-. pose proof (is_type_eq _ _ Ety) as Ei.
  apply (tables_ok_snoc past t); cbn; try done; [|rewrite no_frames by by rewrite Ei].
  - intros k. rewrite fold_add_instruction. unfold sass_bindings. rewrite Ety.
    destruct (get_or r "instructions" (JObj [])); try done. injection Hd as ->.
    apply fold_dict_set, (tab_sass _ _ Ht).
  - rewrite app_nil_r. apply (tab_frames _ _ Ht).
Qed.

Lemma tables_ok_plain past t r :
  tables_ok past t → is_type r "capture_completion" = false →
  is_type r "kernel_metadata" = false → frame_bindings r = [] →
  tables_ok (past ++ [r]) t.
Proof.
  intros Ht H1 H2 H3. apply (tables_ok_snoc past t); try done.
  - rewrite no_sass, app_nil_r by done. apply (tab_sass _ _ Ht).
  - rewrite H3, app_nil_r. apply (tab_frames _ _ Ht).
Qed.

Lemma cache_callstack_ok past t r t' :
  tables_ok past t → is_type r "callstack_def" = true →
  cache_callstack r t = Ok t' → tables_ok (past ++ [r]) t'.
Proof.
  intros Ht Ety H. pose proof (is_type_eq _ _ Ety) as Ei.
  assert (frame_bindings r = [] → t' = t → tables_ok (past ++ [r]) t') as Hsame.
  { intros Hf ->. apply tables_ok_plain; try done; by rewrite Ei. }
  unfold cache_callstack in H. unfold frame_bindings in Hsame. rewrite Ety in Hsame.
  destruct (get r "frames") as [| | | | |frames|] eqn:Ef;
    try (injection H as <-; apply Hsame; [by destruct (get r "callstack_id")|done]).
  destruct (truthy (get r "callstack_id")) eqn:Etr; cbn [negb] in H.
  - destruct (get r "callstack_id") as [| | | |s| |] eqn:Ec; try done. injection H as <-.
    cbn in Etr. apply bool_decide_eq_true in Etr.
    apply (tables_ok_snoc past t); cbn; try done.
    + rewrite no_sass, app_nil_r by by rewrite Ei. apply (tab_sass _ _ Ht).
    + intros k. unfold frame_bindings. rewrite Ef, Ec, Ety, bool_decide_eq_true_2 by done. cbn [andb].
      rewrite latest_snoc. cbn [fst snd]. destruct (decide (s = k)) as [<-|]; [apply dict_get_set_eq|].
      rewrite dict_get_set_ne by done. apply (tab_frames _ _ Ht).
  - injection H as <-. apply Hsame; [|done]. destruct (get r "callstack_id"); try done.
    cbn in Etr. apply bool_decide_eq_false in Etr. by rewrite bool_decide_eq_false_2.
Qed.

Lemma field_dict_set (r : obj) k v k' :
  field (dict_set r k v) k' = if decide (k = k') then Some v else field r k'.
Proof.
  rewrite !field_dict_get. case_decide as E; [subst; apply dict_get_set_eq|by apply dict_get_set_ne].
Qed.

Lemma resolve_sass_ok past t r r' :
  tables_ok past t → resolve_sass (sass_table t) r = Ok r' →
  (∀ k, k ≠ "sass" → field r' k = field r k) ∧
  field r' "sass" = match field r "sass", field r "opcode_id" with
                    | None, Some id =>
                        match key_text id with Ok k => latest k (all_sass past) | Err _ => None end
                    | o, _ => o
                    end.
Proof.
  intros Ht H. unfold resolve_sass in H.
  destruct (field r "sass") as [s|] eqn:Es; [by injection H as <-|].
  destruct (field r "opcode_id") as [id|] eqn:Eid; [|by injection H as <-].
  case_bool_decide as Hl.
  - injection H as <-. split; [done|]. rewrite Es. destruct (key_text id) as [k|]; [|done].
    rewrite <- (tab_sass _ _ Ht). apply nil_length_inv in Hl. by rewrite Hl.
  - apply bind_ok in H as (k & Hk & H). rewrite Hk, <- (tab_sass _ _ Ht).
    destruct (dict_get (sass_table t) k) as [s|]; injection H as <-; [|by rewrite Es].
    split; [intros k' Hne|]; rewrite field_dict_set; [by rewrite decide_False|by rewrite decide_True].
Qed.

Lemma resolve_caller_ok past t r r' :
  tables_ok past t → resolve_caller (callstack_table t) r = Ok r' →
  (∀ k, k ≠ "caller" → field r' k = field r k) ∧
  field r' "caller" = match field r "caller", get r "callstack_id" with
                      | None, JStr id =>
                          if is_type r "kernel_launch"
                          then latest id (all_frames past) ≫= last else None
                      | o, _ => o
                      end.
Proof.
  intros Ht H. unfold resolve_caller in H. fold (is_type r "kernel_launch") in H.
  destruct (is_type r "kernel_launch"); cbn [andb] in H; cycle 1.
  { injection H as <-. split; [done|]. by destruct (field r "caller"), (get r "callstack_id"). }
  unfold has in H. destruct (field r "caller") as [c|] eqn:Ec.
  { rewrite (bool_decide_eq_true_2 (Some c ≠ None)) in H by done. rewrite andb_false_r in H. injection H as <-.
    split; [done|]. by rewrite Ec. }
  rewrite (bool_decide_eq_false_2 (None ≠ None)) in H by (intros Hn; by apply Hn).
  unfold get in *. destruct (field r "callstack_id") as [cid|] eqn:Eid; cycle 1.
  { rewrite bool_decide_eq_false_2 in H by (intros Hn; by apply Hn). injection H as <-. by rewrite Ec. }
  rewrite bool_decide_eq_true_2 in H by done. cbn [andb negb from_option id] in *. rewrite andb_true_r in H.
  case_bool_decide as Hl; cycle 1.
  { injection H as <-. split; [done|]. rewrite Ec. destruct cid; try done.
    rewrite <- (tab_frames _ _ Ht). by destruct (callstack_table t). }
  destruct cid as [| | | |s| |]; try done; [injection H as <-; by rewrite Ec|].
  rewrite <- (tab_frames _ _ Ht).
  destruct (dict_get (callstack_table t) s) as [frames|]; cbn; [|injection H as <-; by rewrite Ec].
  destruct (last frames) as [v|]; injection H as <-; [|by rewrite Ec].
  split; [intros k' Hne|]; rewrite field_dict_set; [by rewrite decide_False|by rewrite decide_True].
Qed.

Lemma resolve_ok past t r r' :
  tables_ok past t → resolve_record_references t r = Ok r' → resolved past r r'.
Proof.
  intros Ht H. apply bind_ok in H as (r1 & H1 & H2).
  destruct (resolve_sass_ok _ _ _ _ Ht H1) as [Hk1 Hs].
  destruct (resolve_caller_ok _ _ _ _ Ht H2) as [Hk2 Hc].
  split.
  - intros k v Hv. destruct (decide (k = "caller")) as [->|Hne].
    + rewrite Hc, (Hk1 "caller") by done. by rewrite Hv.
    + rewrite Hk2 by done. destruct (decide (k = "sass")) as [->|Hne']; [by rewrite Hs, Hv|].
      by rewrite Hk1.
  - by rewrite Hk2, Hs.
  - rewrite Hc. unfold is_type, get. by rewrite !Hk1.
  - intros k H1' H2'. by rewrite Hk2, Hk1.
Qed.

Lemma read_record_ok past t r t' o :
  tables_ok past t → read_record r t = (t', Ok o) →
  tables_ok (past ++ [r]) t' ∧
  match o with
  | None => yielded r = false
  | Some r' => yielded r = true ∧ resolved (past ++ [r]) r r'
  end.
Proof.
  intros Ht H. unfold read_record in H. unfold yielded.
  destruct (is_type r "capture_completion") eqn:Ecc.
  { injection H as <- <-. pose proof (is_type_eq _ _ Ecc) as Ei. split; [|done].
    destruct Ht as [Hs Hf Hl Hc]. unfold all_sass, all_frames in *. split; cbn.
    - intros k. unfold all_sass. by rewrite all_snoc, no_sass, app_nil_r by by rewrite Ei.
    - intros k. unfold all_frames. by rewrite all_snoc, no_frames, app_nil_r by by rewrite Ei.
    - by rewrite completions_snoc, Ecc, last_snoc.
    - rewrite completions_snoc, Ecc, length_app, Hc. cbn. lia. }
  destruct (is_type r "kernel_metadata") eqn:Ekm.
  - pose proof (is_type_eq _ _ Ekm) as Ei.
    destruct (cache_instructions r t) as [t1|e] eqn:Et; [|done]. rewrite (Ei "callstack_def") in *. cbn in H.
    destruct (resolve_record_references t1 r) as [r'|e] eqn:Er; [|done]. injection H as <- <-.
    pose proof (cache_instructions_ok _ _ _ _ Ht Ekm Et) as Ht1. split; [done|]. split; [done|].
    by eapply resolve_ok.
  - destruct (is_type r "callstack_def") eqn:Ecd.
    + destruct (cache_callstack r t) as [t1|e] eqn:Et; [|done]. injection H as <- <-.
      split; [by eapply cache_callstack_ok|done].
    + destruct (resolve_record_references t r) as [r'|e] eqn:Er; [|done]. injection H as <- <-.
      assert (tables_ok (past ++ [r]) t) as Ht1 by (apply tables_ok_plain; try done; by apply no_frames).
      split; [done|]. split; [done|]. by eapply resolve_ok.
Qed.

Section ReaderFacts.
Context (loads : string → option json).

(** The records on the lines that are not blank. *)
Fixpoint decode_lines (lines : list string) : option (list obj) :=
  match lines with
  | [] => Some []
  | line :: rest =>
      let text := str (strip (chars line)) in
      if bool_decide (text = "") then decode_lines rest
      else match loads text with Some (JObj r) => cons r <$> decode_lines rest | _ => None end
  end.

(** The records yielded for [ds], read after [past]. *)
Inductive yields : list obj → list obj → list obj → Prop :=
| yields_nil past : yields past [] []
| yields_skip past r ds rs :
    yielded r = false → yields (past ++ [r]) ds rs → yields past (r :: ds) rs
| yields_one past r r' ds rs :
    yielded r = true → resolved (past ++ [r]) r r' → yields (past ++ [r]) ds rs →
    yields past (r :: ds) (r' :: rs).

Lemma iter_from_ok lines past t t' rs e :
  tables_ok past t → iter_from loads lines t = (t', rs, e) →
  ∃ n ds, (n ≤ length lines)%nat ∧ decode_lines (take n lines) = Some ds ∧ yields past ds rs ∧
    (e = Ok () → n = length lines ∧ tables_ok (past ++ ds) t') ∧
    (e ≠ Ok () → (n < length lines)%nat).
Proof.
  revert past t rs. induction lines as [|line lines IH]; intros past t rs Ht H; cbn in H.
  { injection H as <- <- <-. exists 0%nat, []. rewrite app_nil_r. split_and!; try done; by constructor. }
  destruct (read_line loads line t) as [t1 [o|x]] eqn:Er; cycle 1.
  { injection H as <- <- <-. exists 0%nat, []. split_and!; cbn; try done; [lia|constructor|lia]. }
  destruct (iter_from loads lines t1) as [[t2 rs2] e2] eqn:Ei. injection H as <- <- <-.
  unfold read_line in Er. destruct (bool_decide (str (strip (chars line)) = "")) eqn:Eb.
  { injection Er as <- <-. destruct (IH past t rs2 Ht Ei) as (n & ds & Hn & Hd & Hy & H1 & H2).
    exists (S n), ds. cbn. rewrite Eb. split_and!; try done; [lia|naive_solver|intros; apply le_n_S, H2; done]. }
  destruct (loads (str (strip (chars line)))) as [[| | | | | |r]|] eqn:El; try done.
  destruct (read_record_ok _ _ _ _ _ Ht Er) as [Ht1 Ho].
  destruct (IH _ _ _ Ht1 Ei) as (n & ds & Hn & Hd & Hy & H1 & H2).
  exists (S n), (r :: ds). cbn. rewrite Eb, El, Hd. rewrite <- app_assoc in H1. split_and!; try done; [lia|..].
  - destruct o as [r'|]; [destruct Ho; by constructor|by constructor].
  - naive_solver.
  - intros; apply le_n_S, H2; done.
Qed.

Lemma tables0_ok : tables_ok [] tables0.
Proof. by split. Qed.
End ReaderFacts.

(** ** Grouping: the streaming accumulators against the groups themselves *)

Lemma push_lastn {A} n (l : list A) a :
  push n (drop (length l - n) l) a = drop (length (l ++ [a]) - n) (l ++ [a]).
Proof.
  unfold push. rewrite <- drop_app_le by lia. rewrite drop_drop, length_drop, length_app.
  cbn [length]. f_equal. lia.
Qed.

Lemma fold_push {A} n (l d m : list A) :
  d = drop (length m - n) m → fold_left (push n) l d = drop (length (m ++ l) - n) (m ++ l).
Proof.
  revert d m. induction l as [|a l IH]; intros d m ->; cbn [fold_left]; [by rewrite app_nil_r|].
  rewrite push_lastn. rewrite (IH _ (m ++ [a])) by done. by rewrite <- app_assoc.
Qed.

(** [deque(l, maxlen=n)] holds the last [n] elements. *)
Lemma bounded_deque_last {A} n (l : list A) : bounded_deque n l = drop (length l - n) l.
Proof. apply (fold_push n l [] []). done. Qed.

Section Groups.
Context {R : Type}.
Implicit Types (l : list (key * R)).

(** Keys in order of first appearance, and the records of one key. *)
Definition first_seen (ks : list key) : list key :=
  fold_left (λ seen k, if bool_decide (k ∈ seen) then seen else seen ++ [k]) ks [].
Definition group_of (k : key) l : list R := snd <$> filter (λ e, e.1 = k) l.

(** The groups, each summarised by [f]. *)
Definition batch {B} (f : list R → B) l : dict key B := (λ k, (k, f (group_of k l))) <$> first_seen l.*1.

Lemma first_seen_snoc ks k :
  first_seen (ks ++ [k]) = if bool_decide (k ∈ first_seen ks) then first_seen ks else first_seen ks ++ [k].
Proof. unfold first_seen. by rewrite fold_left_app. Qed.

Lemma first_seen_elem ks k : k ∈ first_seen ks ↔ k ∈ ks.
Proof.
  revert k. induction ks as [|x ks IH] using rev_ind; intros k; [done|].
  rewrite first_seen_snoc, elem_of_app, list_elem_of_singleton.
  case_bool_decide as Hx; [rewrite IH in Hx |- *; naive_solver|].
  by rewrite elem_of_app, list_elem_of_singleton, IH.
Qed.

Lemma first_seen_NoDup ks : NoDup (first_seen ks).
Proof.
  induction ks as [|x ks IH] using rev_ind; [constructor|]. rewrite first_seen_snoc.
  case_bool_decide as Hx; [done|]. apply NoDup_app. split_and!; [done|set_solver|apply NoDup_singleton].
Qed.

Lemma group_of_snoc k k' r l :
  group_of k (l ++ [(k', r)]) = if decide (k' = k) then group_of k l ++ [r] else group_of k l.
Proof.
  unfold group_of. rewrite filter_app, fmap_app, filter_cons, filter_nil. cbn [fst].
  case_decide; [done|]. by rewrite app_nil_r.
Qed.

Lemma batch_keys {B} (f : list R → B) l : (batch f l).*1 = first_seen l.*1.
Proof. unfold batch. rewrite <- list_fmap_compose. apply list_fmap_id. Qed.

Lemma batch_wf {B} (f : list R → B) l : dict_wf (batch f l).
Proof. unfold dict_wf. rewrite batch_keys. apply first_seen_NoDup. Qed.

Lemma batch_get {B} (f : list R → B) l k :
  dict_get (batch f l) k = if decide (k ∈ l.*1) then Some (f (group_of k l)) else None.
Proof.
  case_decide as Hk.
  - apply dict_wf_get; [apply batch_wf|]. unfold batch. apply list_elem_of_fmap.
    exists k. split; [done|]. by apply first_seen_elem.
  - apply dict_get_None. by rewrite batch_keys, first_seen_elem.
Qed.

Lemma group_of_none k l : k ∉ l.*1 → group_of k l = [].
Proof.
  intros Hk. unfold group_of. apply fmap_nil_iff, filter_nil_iff. intros [k' r] Hin <-.
  apply Hk, list_elem_of_fmap. by exists (k', r).
Qed.

(** One more record: its group is summarised again, the others stay. *)
Lemma batch_snoc {B} (f : list R → B) l k r :
  batch f (l ++ [(k, r)]) = dict_set (batch f l) k (f (group_of k l ++ [r])).
Proof.
  unfold batch at 1. rewrite fmap_app. cbn [fmap list_fmap fst]. rewrite first_seen_snoc.
  case_bool_decide as Hk.
  - rewrite dict_set_map by (apply batch_wf || by rewrite batch_keys). unfold batch.
    rewrite <- list_fmap_compose. apply list_fmap_ext. intros i k' Hi. cbn. rewrite group_of_snoc.
    destruct (decide (k' = k)) as [->|Hne]; [by rewrite decide_True|by rewrite decide_False by congruence].
  - rewrite fmap_app. cbn [fmap list_fmap]. rewrite group_of_snoc, decide_True by done.
    assert (∀ (d : dict key B) v, k ∉ d.*1 → dict_set d k v = d ++ [(k, v)]) as Hnew.
    { intros d v. induction d as [|[k' v'] d IH]; cbn; [done|]. rewrite not_elem_of_cons.
      intros [H1 H2]. rewrite decide_False by done. by rewrite IH. }
    rewrite Hnew by by rewrite batch_keys. f_equal. unfold batch. apply list_fmap_ext.
    intros i k' Hi. rewrite group_of_snoc, decide_False; [done|]. intros ->.
    apply Hk. by eapply list_elem_of_lookup_2.
Qed.

(** An accumulator over the groups computes [f] of each when [g] extends [f]. *)
Lemma batch_upd {B} (f : list R → B) (g : R → option B → B) l :
  (∀ m r, g r (if decide (m = []) then None else Some (f m)) = f (m ++ [r])) →
  fold_left (λ d e, dict_upd d e.1 (g e.2)) l [] = batch f l.
Proof.
  intros Hg. induction l as [|[k r] l IH] using rev_ind; [done|].
  rewrite fold_left_app, IH, batch_snoc. cbn [fold_left fst snd]. unfold dict_upd. f_equal.
  rewrite <- Hg. f_equal. rewrite batch_get. destruct (decide (k ∈ l.*1)) as [Hk|Hk].
  - rewrite decide_False; [done|]. apply list_elem_of_fmap in Hk as ([k' r'] & -> & Hin). cbn.
    unfold group_of. rewrite fmap_nil_iff. intros Hn. rewrite filter_nil_iff in Hn. by apply (Hn _ Hin).
  - by rewrite decide_True by by apply group_of_none.
Qed.
End Groups.

(** Reading a trace yields, in order, exactly the records that are not file
    metadata, each resolved against the metadata up to it: no field a record
    has is changed, the instruction text and the call site are added where the
    latest definitions give them, and nothing else is.  A failure stops at a
    line that was not read; at the end the completion records are the last one
    and their number. *)
Theorem trace_records_resolved loads lines t rs e :
  iter_records loads lines = (t, rs, e) →
  ∃ n ds, (n ≤ length lines)%nat ∧ decode_lines loads (take n lines) = Some ds ∧ yields [] ds rs ∧
    (e = Ok () → n = length lines ∧ capture_completion t = last (completions ds) ∧
       capture_completion_count t = Z.of_nat (length (completions ds))) ∧
    (e ≠ Ok () → (n < length lines)%nat).
Proof.
  intros H. destruct (iter_from_ok loads lines [] tables0 t rs e tables0_ok H)
    as (n & ds & Hn & Hd & Hy & H1 & H2).
  exists n, ds. split_and!; try done. intros He. destruct (H1 He) as [-> [_ _ Hl Hc]]. done.
Qed.

Definition demo_loads (line : string) : option json :=
  if bool_decide (line = "meta") then
    Some (JObj [("type", JStr "kernel_metadata");
                ("instructions", JObj [("7", JObj [("sass", JStr "EXIT ;")])])])
  else if bool_decide (line = "reg") then Some (JObj [("warp", JInt 3); ("opcode_id", JInt 7)])
  else if bool_decide (line = "done") then Some (JObj [("type", JStr "capture_completion")])
  else None.

Lemma trace_records_resolved_witness :
  iter_records demo_loads ["meta"; " reg "; ""; "done"; "oops"; "reg"] =
    (mkTables [("7", JStr "EXIT ;")] [] (Some [("type", JStr "capture_completion")]) 1,
     [[("type", JStr "kernel_metadata"); ("instructions", JObj [("7", JObj [("sass", JStr "EXIT ;")])])];
      [("warp", JInt 3); ("opcode_id", JInt 7); ("sass", JStr "EXIT ;")]],
     Err (Raised ValueError)) ∧
  ∃ n, (n < 6)%nat.
Proof.
  split; [vm_compute; reflexivity|].
  destruct (trace_records_resolved demo_loads ["meta"; " reg "; ""; "done"; "oops"; "reg"] _ _ _ eq_refl)
    as (n & ds & _ & _ & _ & _ & H).
  exists n. apply H. by vm_compute.
Defined.

(** The loop over hashable records is a fold over them with their keys. *)
Lemma run_records_ok {B} name (step : B → key → obj → B) rs ks b :
  map_res (λ r, hashable (get r name)) rs = Ok ks →
  run_records name step rs b = ([], Ok (fold_left (λ b e, step b e.1 e.2) (zip ks rs) b)).
Proof.
  revert ks b. induction rs as [|r rs IH]; intros ks b H; cbn in *; [by injection H as <-|].
  apply bind_ok in H as (k & Hk & H). apply bind_ok in H as (ks' & Hks & H). injection H as <-.
  rewrite Hk. by apply IH.
Qed.

Lemma all_batch (l : list (key * obj)) :
  fold_left (λ d e, append_record d e.1 e.2) l [] = batch (λ g, g) l.
Proof.
  apply (batch_upd (λ g, g) (λ r o, default [] o ++ [r])). intros m r. by case_decide; subst.
Qed.

Lemma count_batch (l : list (key * obj)) :
  fold_left (λ d e, count_record d e.1 e.2) l [] = batch (λ g, Z.of_nat (length g)) l.
Proof.
  apply (batch_upd (λ g, Z.of_nat (length g)) (λ r o, default 0 o + 1)). intros m r.
  rewrite length_app. case_decide; subst; cbn; lia.
Qed.

Lemma tail_batch n (l : list (key * obj)) :
  fold_left (λ d e, dict_upd d e.1 (λ o, push n (default [] o) e.2)) l [] =
  batch (λ g, drop (length g - n) g) l.
Proof.
  apply (batch_upd (λ g, drop (length g - n) g) (λ r o, push n (default [] o) r)). intros m r.
  rewrite <- push_lastn. by case_decide; subst.
Qed.

Lemma dict_set_same {K V} `{EqDecision K} (d : dict K V) k v : dict_get d k = Some v → dict_set d k v = d.
Proof.
  induction d as [|[k' v'] d IH]; cbn; [done|]. case_decide as E.
  - by intros [= ->]; subst.
  - intros H. by rewrite IH.
Qed.

Lemma head_batch n (l : list (key * obj)) : 0 < n →
  fold_left (λ b e, head_step n b e.1 e.2) l ([], []) =
  (batch (take (Z.to_nat n)) l, batch (λ g, Z.min n (Z.of_nat (length g))) l).
Proof.
  intros Hn. induction l as [|[k r] l IH] using rev_ind; [done|].
  rewrite fold_left_app, IH, !batch_snoc. cbn [fold_left fst snd]. unfold head_step. cbn [fst snd].
  rewrite batch_get. set (g := group_of k l).
  assert (k ∈ l.*1 ∨ g = []) as Hk.
  { destruct (decide (k ∈ l.*1)); [by left|right; by apply group_of_none]. }
  assert (default 0 (if decide (k ∈ l.*1) then Some (Z.min n (Z.of_nat (length g))) else None)
          = Z.min n (Z.of_nat (length g))) as ->.
  { case_decide; [done|]. destruct Hk as [?| ->]; [done|]. cbn. lia. }
  unfold append_record, count_record, dict_upd. rewrite !batch_get. fold g.
  case_decide as Hin; [|destruct Hk as [?| ->]; [done|]]; cbn [default from_option id].
  - destruct (Z.ltb_spec (Z.min n (Z.of_nat (length g))) n).
    + rewrite length_app. cbn [length].
      rewrite (take_ge (g ++ [r])) by (rewrite length_app; cbn; lia).
      rewrite (take_ge g) by lia. do 2 f_equal. lia.
    + rewrite (take_app_le g [r]) by lia. rewrite length_app. cbn [length].
      rewrite !dict_set_same; [done|..]; rewrite batch_get, decide_True by done; fold g; [f_equal; lia|done].
  - rewrite (proj2 (Z.ltb_lt (Z.min n (Z.of_nat (@length obj []))) n)) by (cbn; lia).
    cbn [app length]. rewrite (take_ge [r]) by (cbn; lia). repeat f_equal. cbn. lia.
Qed.

(** The streaming grouper computes the groups: for records whose key can
    be hashed, each operation returns, in order of first appearance, what
    [select_records] (or counting, or nothing) makes of each key's records,
    holding no more than asked for; the iterator is spent and every later call
    raises. *)
Theorem grouper_streams rs name ks n :
  map_res (λ r, hashable (get r name)) rs = Ok ks → 0 < n →
  let g := make_grouper rs name in
  let spent := mkGrouper [] name true in
  let l := zip ks rs in
  all_per_group g = (spent, Ok (batch (λ x, x) l)) ∧
  head_per_group n g = (spent, Ok (batch (λ x, select_records x (Some n) None) l)) ∧
  tail_per_group n g = (spent, Ok (batch (λ x, select_records x None (Some n)) l)) ∧
  count_per_group g = (spent, Ok (batch (λ x, Z.of_nat (length x)) l)) ∧
  (∀ m, all_per_group spent = (spent, Err (Raised RuntimeError)) ∧
        head_per_group m spent = (spent, Err (Raised RuntimeError)) ∧
        tail_per_group m spent = (spent, Err (Raised RuntimeError)) ∧
        count_per_group spent = (spent, Err (Raised RuntimeError))).
Proof.
  intros Hk Hn g spent l.
  assert (∀ {B} (step : B → key → obj → B) b, for_records step b (mkGrouper rs name true) =
    (spent, Ok (fold_left (λ b e, step b e.1 e.2) l b))) as Hrun.
  { intros B step b. unfold for_records. cbn. by rewrite (run_records_ok _ _ _ _ _ Hk). }
  assert ((n <=? 0) = false) as Hn0 by (by apply Z.leb_gt).
  split_and!; [..|done]; unfold all_per_group, head_per_group, tail_per_group, count_per_group, g,
    make_grouper, mbind, st_bind, ensure_not_consumed, select_records; cbn [g_consumed g_records group_field];
    rewrite ?Hn0; rewrite Hrun.
  - by rewrite all_batch.
  - cbn. rewrite head_batch by done. cbn [fst default from_option]. unfold id. by rewrite Hn0.
  - rewrite tail_batch. do 2 f_equal. unfold batch. apply list_fmap_ext. intros. by rewrite bounded_deque_last.
  - by rewrite count_batch.
Qed.

Definition demo_records : list obj :=
  [[("warp", JInt 1); ("sass", JStr "MOV R1, R2 ;")]; [("warp", JInt 0); ("sass", JStr "BRA ;")];
   [("warp", JBool true); ("sass", JStr "EXIT ;")]; [("warp", JInt 1); ("sass", JStr "NOP;")]].

Lemma grouper_streams_witness :
  head_per_group 2 (make_grouper demo_records "warp") =
    (mkGrouper [] "warp" true,
     Ok [(KInt 1, [[("warp", JInt 1); ("sass", JStr "MOV R1, R2 ;")]; [("warp", JBool true); ("sass", JStr "EXIT ;")]]);
         (KInt 0, [[("warp", JInt 0); ("sass", JStr "BRA ;")]])]).
Proof.
  destruct (grouper_streams demo_records "warp" [KInt 1; KInt 0; KInt 1; KInt 1] 2 eq_refl eq_refl)
    as (_ & H & _). rewrite H. vm_compute. reflexivity.
Defined.

(** Filters are conjunctions.  Building a predicate succeeds exactly when
    every expression has conditions and all are well formed; it then accepts a
    record exactly when the record meets every condition of every expression,
    and one expression with the conditions joined by semicolons does the same. *)
Theorem filters_are_conjunctions loads exprs :
  match build_filter_predicate loads exprs with
  | Ok p =>
      Forall (λ e, filter_parts e ≠ [] ∧ well_formed loads (filter_parts e)) exprs ∧
      (∀ r, p r = true ↔ Forall (λ e, Forall (condition_holds loads r) (filter_parts e)) exprs) ∧
      (exprs ≠ [] → ∃ q, parse_filter_expr loads (join_filters exprs) = Ok q ∧ ∀ r, q r = p r)
  | Err x => x = ValueError ∧
      ¬ Forall (λ e, filter_parts e ≠ [] ∧ well_formed loads (filter_parts e)) exprs
  end.
Proof.
  pose proof (build_filter_spec loads exprs) as H.
  destruct (build_filter_predicate loads exprs) as [p|x]; [|done].
  destruct H as [Hw Hp]. split_and!; [done|done|]. intros Hne.
  destruct exprs as [|e exprs]; [done|]. pose proof (parse_filter_spec loads (join_filters (e :: exprs))) as Hj.
  rewrite filter_parts_join in Hj.
  assert (well_formed loads (concat (filter_parts <$> e :: exprs))) as Hall.
  { apply Forall_concat, Forall_fmap. eapply Forall_impl; [exact Hw|]. by intros ? []. }
  destruct (parse_filter_expr loads (join_filters (e :: exprs))) as [q|x].
  - exists q. split; [done|]. intros r. apply eq_true_iff_eq. destruct Hj as (_ & _ & ->).
    by rewrite Hp, Forall_concat, Forall_fmap.
  - exfalso. apply (proj2 Hj). split; [|done]. apply Forall_cons in Hw as [[He _] _].
    rewrite fmap_cons, concat_cons. intros [E _]%app_eq_nil. done.
Qed.
