(* ===== verification/WarpSummary.v ===== *)
(** Warp completion summaries: [query/warp_summary.py], over the groups that the
    streaming grouper returns.  The text layout of the summary is left out. *)
From S2P Require Import Prelude.
From S2P Require Import PyStr.
From S2P Require Import PyDict.
From S2P Require Import Json.
From S2P Require Import Query.
From Stdlib Require Import Floats.SpecFloat.
Local Open Scope Z_scope.

Record WarpSummary := mkWarpSummary {
  total_observed : Z;
  min_warp_id : Z;
  max_warp_id : Z;
  completed_warp_ids : list Z;
  inprogress_warp_ids : list Z;
  missing_warp_ids : list Z
}.

Definition is_exit_sass (sass : string) : bool :=
  bool_decide (sass ≠ "") &&
  (contains (chars "EXIT") (upper (chars sass)) && ends_with (chars ";") (strip (chars sass))).

(** Falsy values are not exits; other values that are no text are outside. *)
Definition is_exit_instruction (r : obj) : dres bool :=
  match get_or r "sass" (JStr "") with
  | JStr s => Ok (is_exit_sass s)
  | j => if truthy j then Err IllTyped else Ok false
  end.

(** [any(...)]: stops at the first exit. *)
Fixpoint warp_completed (records : list obj) : dres bool :=
  match records with
  | [] => Ok false
  | r :: rest => b ← is_exit_instruction r; if (b : bool) then Ok true else warp_completed rest
  end.

Fixpoint merge_from (start end_ : Z) (ids : list Z) : list (Z * Z) :=
  match ids with
  | [] => [(start, end_)]
  | i :: rest =>
      if i =? end_ + 1 then merge_from start i rest
      else (start, end_) :: merge_from i i rest
  end.

Definition sorted_ints (l : list Z) : list Z := merge_sort Z.le l.

Definition merge_to_ranges (ids : list Z) : list (Z * Z) :=
  match sorted_ints ids with
  | [] => []
  | i :: rest => merge_from i i rest
  end.

Definition format_range (r : Z * Z) : string :=
  if r.1 =? r.2 then pretty r.1 else pretty r.1 +:+ "-" +:+ pretty r.2.
Fixpoint join_comma (l : list string) : string :=
  match l with
  | [] => ""
  | [s] => s
  | s :: r => s +:+ ", " +:+ join_comma r
  end.
Definition format_ranges (ranges : list (Z * Z)) : string :=
  match ranges with [] => "(none)" | _ => join_comma (format_range <$> ranges) end.

(** [int(warp_id)] where it does not raise. *)
Definition int_key (k : key) : option Z :=
  match k with
  | KInt z => Some z
  | KStr s => int10 (chars s)
  | KNone | KTuple _ => None
  end.

Record Classified := mkClassified {
  warp_ids : list Z;
  completed_ids : list Z;
  inprogress_ids : list Z
}.

Fixpoint classify (groups : dict key (list obj)) : dres Classified :=
  match groups with
  | [] => Ok (mkClassified [] [] [])
  | (k, records) :: rest =>
      match int_key k with
      | None => classify rest
      | Some w =>
          match records with
          | [] => c ← classify rest; Ok (mkClassified (w :: warp_ids c) (completed_ids c) (inprogress_ids c))
          | _ =>
              b ← warp_completed records;
              c ← classify rest;
              Ok (if (b : bool)
                  then mkClassified (w :: warp_ids c) (w :: completed_ids c) (inprogress_ids c)
                  else mkClassified (w :: warp_ids c) (completed_ids c) (w :: inprogress_ids c))
          end
      end
  end.

(** [sorted(set(range(0, m + 1)) - set(seen))]. *)
Definition unseen (m : Z) (seen : list Z) : list Z := filter (λ w, w ∉ seen) (seqZ 0 (m + 1)).

Definition compute_warp_summary (groups : dict key (list obj)) : dres (option WarpSummary) :=
  c ← classify groups;
  match warp_ids c with
  | [] => Ok None
  | w :: rest =>
      let min_warp := fold_left Z.min rest w in
      let max_warp := fold_left Z.max rest w in
      Ok (Some (mkWarpSummary (Z.of_nat (length (w :: rest))) min_warp max_warp
                  (sorted_ints (completed_ids c)) (sorted_ints (inprogress_ids c))
                  (unseen max_warp (w :: rest))))
  end.

(** [round(x, 1)]: the binary64 nearest to the exact value at one decimal,
    halves to the even digit. *)
Definition half_even (n d : Z) : Z :=
  let q := n / d in
  match Z.compare (2 * (n mod d)) d with
  | Lt => q
  | Gt => q + 1
  | Eq => if Z.even q then q else q + 1
  end.
Definition f_round1 (f : float) : float :=
  match f with
  | S754_finite s m e =>
      let k := if 0 <=? e then Z.pos m * 10 * 2 ^ e else half_even (Z.pos m * 10) (2 ^ (- e)) in
      let r := f_ratio k 10 in if s then SFopp r else r
  | _ => f
  end.

Definition f_hundred : float := S754_finite false 7036874417766400 (-46).

Definition percentage (count total : Z) : json :=
  if 0 <? total then JFloat (f_round1 (f_mul (f_ratio count total) f_hundred)) else JInt 0.

Definition ranges_json (ids : list Z) : json :=
  jlist (λ r : Z * Z, JList [JInt r.1; JInt r.2]) (merge_to_ranges ids).

Definition part_json (ids : list Z) (total : Z) : json :=
  JObj [("count", JInt (Z.of_nat (length ids)));
        ("percentage", percentage (Z.of_nat (length ids)) total);
        ("ranges", ranges_json ids)].

Definition warp_summary_to_dict (s : WarpSummary) : json :=
  JObj [("total_observed", JInt (total_observed s));
        ("warp_id_range", JList [JInt (min_warp_id s); JInt (max_warp_id s)]);
        ("completed", part_json (completed_warp_ids s) (total_observed s));
        ("in_progress", part_json (inprogress_warp_ids s) (total_observed s));
        ("missing", part_json (missing_warp_ids s) (max_warp_id s + 1))].

Example range_demo : merge_to_ranges [3; 0; 1; 7; 2; 6; 8; 9] = [(0, 3); (6, 9)].
Proof. vm_compute. reflexivity. Qed.
Example text_demo : format_ranges [(0, 3); (6, 6)] = "0-3, 6"%string.
Proof. vm_compute. reflexivity. Qed.
Example percent_demo :
  (percentage 1 3, percentage 1 8, percentage 3 3) =
  (JFloat (S754_finite false 4686558362232422 (-47)), JFloat (S754_finite false 7036874417766400 (-49)),
   JFloat f_hundred).
Proof. vm_compute. reflexivity. Qed.

(** ** Ranges *)

Definition expand (ranges : list (Z * Z)) : list Z :=
  concat ((λ r, seqZ r.1 (r.2 - r.1 + 1)) <$> ranges).

Lemma merge_from_expand ids start end_ : start ≤ end_ →
  expand (merge_from start end_ ids) = seqZ start (end_ - start + 1) ++ ids.
Proof.
  revert start end_. induction ids as [|i ids IH]; intros start end_ H; cbn [merge_from]; [done|].
  destruct (Z.eqb_spec i (end_ + 1)) as [->|Hne].
  - rewrite IH by lia. replace (end_ + 1 - start + 1) with ((end_ - start + 1) + 1) by lia.
    rewrite seqZ_app by lia. rewrite <- app_assoc. f_equal. cbn [app].
    by replace (start + (end_ - start + 1)) with (end_ + 1) by lia.
  - change (expand ((start, end_) :: merge_from i i ids)) with
      (seqZ start (end_ - start + 1) ++ expand (merge_from i i ids)).
    rewrite IH by lia. f_equal. by replace (i - i + 1) with 1 by lia.
Qed.

(** Ranges of increasing identifiers are not empty and do not touch. *)
Definition apart (r r' : Z * Z) : Prop := r.2 + 1 < r'.1.
Definition canonical (ranges : list (Z * Z)) : Prop :=
  Forall (λ r, r.1 ≤ r.2) ranges ∧ StronglySorted apart ranges.

Lemma merge_from_canonical ids start end_ :
  start ≤ end_ → StronglySorted Z.lt (end_ :: ids) →
  canonical (merge_from start end_ ids) ∧ Forall (λ r, start ≤ r.1) (merge_from start end_ ids).
Proof.
  revert start end_. induction ids as [|i ids IH]; intros start end_ H Hs; cbn [merge_from].
  { split; [split|]; repeat constructor; cbn; lia. }
  apply StronglySorted_inv in Hs as [Hs Hlt]. apply Forall_cons in Hlt as [Hi _].
  destruct (Z.eqb_spec i (end_ + 1)) as [->|Hne]; [apply IH; [lia|done]|].
  destruct (IH i i ltac:(lia) Hs) as [[Hne' Hap] Hge]. split; [split|].
  - by constructor.
  - constructor; [done|]. eapply Forall_impl; [exact Hge|]. unfold apart. cbn. lia.
  - constructor; [done|]. eapply Forall_impl; [exact Hge|]. cbn. lia.
Qed.

Lemma sorted_ints_id l : Sorted Z.le l → sorted_ints l = l.
Proof.
  intros H. apply (Sorted_unique Z.le); [apply Sorted_merge_sort, _|done|apply merge_sort_Permutation].
Qed.

Lemma expand_merge l : expand (merge_to_ranges l) = sorted_ints l.
Proof.
  unfold merge_to_ranges. destruct (sorted_ints l) as [|i rest]; [done|].
  rewrite merge_from_expand by lia. by replace (i - i + 1) with 1 by lia.
Qed.

Lemma merge_canonical l : NoDup l → canonical (merge_to_ranges l).
Proof.
  intros Hnd. unfold merge_to_ranges.
  assert (Sorted Z.le (sorted_ints l)) as Hs by apply Sorted_merge_sort, _.
  assert (NoDup (sorted_ints l)) as Hnd' by (unfold sorted_ints; by rewrite merge_sort_Permutation).
  apply Sorted_StronglySorted in Hs; [|intros x y z; lia].
  destruct (sorted_ints l) as [|i rest]; [split; constructor|].
  apply merge_from_canonical; [done|].
  clear Hnd. induction Hs as [|x xs Hs IH Hx]; [constructor|].
  apply NoDup_cons in Hnd' as [Hin Hnd']. constructor; [by apply IH|].
  rewrite Forall_forall in Hx |- *. intros y Hy. specialize (Hx y Hy).
  assert (x ≠ y) by (intros ->; done). lia.
Qed.

(** ** Classification of the groups *)

Definition exited (r : obj) : Prop := is_exit_instruction r = Ok true.
#[export] Instance exited_dec r : Decision (exited r).
Proof. unfold exited. destruct (is_exit_instruction r) as [[]|]; [by left|by right..]. Defined.

Lemma warp_completed_spec rs b :
  warp_completed rs = Ok b → (b = true ↔ ∃ r, r ∈ rs ∧ exited r).
Proof.
  induction rs as [|r rs IH]; cbn; intros H.
  { injection H as <-. split; [done|]. intros (r & Hr & _). by apply elem_of_nil in Hr. }
  apply bind_ok in H as (b' & Hb & H). destruct b'.
  - injection H as <-. split; [|done]. intros _. exists r. split; [by left|done].
  - rewrite (IH H). setoid_rewrite elem_of_cons. split; [naive_solver|].
    intros (r' & [->|Hr] & He); [|eauto]. unfold exited in He. congruence.
Qed.

Definition warp_of (e : key * list obj) : option Z := int_key e.1.

(** A group that shows warp [w] complete, or observed and not complete. *)
Definition shows_exit (w : Z) (k : key) (rs : list obj) : Prop :=
  int_key k = Some w ∧ ∃ r, r ∈ rs ∧ exited r.
Definition shows_no_exit (w : Z) (k : key) (rs : list obj) : Prop :=
  int_key k = Some w ∧ rs ≠ [] ∧ ∀ r, r ∈ rs → ¬ exited r.
Definition some_group (P : key → list obj → Prop) (gs : dict key (list obj)) : Prop :=
  ∃ k rs, (k, rs) ∈ gs ∧ P k rs.

Record classified (gs : dict key (list obj)) (c : Classified) : Prop := {
  cl_ids : warp_ids c = omap warp_of gs;
  cl_done : ∀ w, w ∈ completed_ids c ↔ some_group (shows_exit w) gs;
  cl_rest : ∀ w, w ∈ inprogress_ids c ↔ some_group (shows_no_exit w) gs
}.

Lemma some_group_nil P : some_group P [] ↔ False.
Proof. split; [|done]. intros (k & rs & H & _). by apply elem_of_nil in H. Qed.
Lemma some_group_cons P k rs gs : some_group P ((k, rs) :: gs) ↔ P k rs ∨ some_group P gs.
Proof. unfold some_group. setoid_rewrite elem_of_cons. naive_solver. Qed.

(** One group more: what it shows decides where its warp goes. *)
Lemma classified_cons k rs gs c c' :
  classified gs c' →
  warp_ids c = option_list (int_key k) ++ warp_ids c' →
  (∀ w, w ∈ completed_ids c ↔ shows_exit w k rs ∨ w ∈ completed_ids c') →
  (∀ w, w ∈ inprogress_ids c ↔ shows_no_exit w k rs ∨ w ∈ inprogress_ids c') →
  classified ((k, rs) :: gs) c.
Proof.
  intros [H1 H2 H3] Hi Hd Hr. split.
  - rewrite Hi, H1. unfold warp_of. cbn. by destruct (int_key k).
  - intros w. by rewrite Hd, some_group_cons, H2.
  - intros w. by rewrite Hr, some_group_cons, H3.
Qed.

Lemma classify_spec gs c : classify gs = Ok c → classified gs c.
Proof.
  revert c. induction gs as [|[k rs] gs IH]; intros c H; cbn in H.
  { injection H as <-. split; cbn; [done|..]; intros w; rewrite some_group_nil; apply elem_of_nil. }
  destruct (int_key k) as [w0|] eqn:Ek; cycle 1.
  { apply (classified_cons _ _ _ _ c); [by apply IH|by rewrite Ek|..]; intros w;
      unfold shows_exit, shows_no_exit; rewrite Ek; naive_solver. }
  destruct rs as [|r0 rs].
  { apply bind_ok in H as (c' & Hc & H). injection H as <-.
    apply (classified_cons _ _ _ _ c'); [by apply IH|by rewrite Ek|..]; intros w; cbn.
    - split; [by right|]. intros [(_ & r & Hr & _)|?]; [by apply elem_of_nil in Hr|done].
    - split; [by right|]. intros [(_ & ? & _)|?]; done. }
  apply bind_ok in H as (b & Hb & H). apply bind_ok in H as (c' & Hc & H).
  pose proof (warp_completed_spec _ _ Hb) as Hs. injection H as <-.
  apply (classified_cons _ _ _ _ c'); [by apply IH|rewrite Ek; by destruct b|..]; intros w;
    unfold shows_exit, shows_no_exit; rewrite Ek.
  - rewrite <- Hs. destruct b; cbn; [rewrite elem_of_cons|]; naive_solver.
  - assert ((∀ r, r ∈ r0 :: rs → ¬ exited r) ↔ b = false) as ->.
    { destruct b; [|split; [done|]; intros _ r Hr He; assert (false = true) by (apply Hs; eauto); done].
      destruct (proj1 Hs eq_refl) as (r & Hr & He). split; [|done]. intros H. by destruct (H r). }
    destruct b; cbn; [|rewrite elem_of_cons]; naive_solver.
Qed.

Lemma fold_min_spec l w :
  (fold_left Z.min l w ∈ w :: l) ∧ ∀ x, x ∈ w :: l → fold_left Z.min l w ≤ x.
Proof.
  revert w. induction l as [|y l IH]; intros w; cbn [fold_left].
  { split; [by left|]. intros x ->%list_elem_of_singleton. done. }
  destruct (IH (Z.min w y)) as [H1 H2]. split.
  - apply elem_of_cons in H1 as [->|H1]; [|set_solver].
    destruct (Z.min_spec w y) as [[_ ->]|[_ ->]]; set_solver.
  - intros x Hx. assert (fold_left Z.min l (Z.min w y) ≤ Z.min w y) by (apply H2; by left).
    rewrite !elem_of_cons in Hx. destruct Hx as [->|[->|Hx]]; [lia|lia|]. apply H2. by right.
Qed.

Lemma fold_max_spec l w :
  (fold_left Z.max l w ∈ w :: l) ∧ ∀ x, x ∈ w :: l → x ≤ fold_left Z.max l w.
Proof.
  revert w. induction l as [|y l IH]; intros w; cbn [fold_left].
  { split; [by left|]. intros x ->%list_elem_of_singleton. done. }
  destruct (IH (Z.max w y)) as [H1 H2]. split.
  - apply elem_of_cons in H1 as [->|H1]; [|set_solver].
    destruct (Z.max_spec w y) as [[_ ->]|[_ ->]]; set_solver.
  - intros x Hx. assert (Z.max w y ≤ fold_left Z.max l (Z.max w y)) by (apply H2; by left).
    rewrite !elem_of_cons in Hx. destruct Hx as [->|[->|Hx]]; [lia|lia|]. apply H2. by right.
Qed.

Lemma seqZ_sorted start n : StronglySorted Z.le (seqZ start (Z.of_nat n)).
Proof.
  revert start. induction n as [|n IH]; intros start; [constructor|].
  rewrite seqZ_cons by lia. replace (Z.pred (Z.of_nat (S n))) with (Z.of_nat n) by lia.
  constructor; [done|]. apply Forall_forall. intros x Hx%elem_of_seqZ. lia.
Qed.

Lemma unseen_spec m seen :
  (∀ w, w ∈ unseen m seen ↔ 0 ≤ w ≤ m ∧ w ∉ seen) ∧ NoDup (unseen m seen) ∧ Sorted Z.le (unseen m seen).
Proof.
  unfold unseen. split_and!.
  - intros w. rewrite list_elem_of_filter, elem_of_seqZ. intuition lia.
  - apply NoDup_filter, NoDup_seqZ.
  - apply StronglySorted_Sorted.
    assert (StronglySorted Z.le (seqZ 0 (m + 1))) as Hs.
    { destruct (decide (0 ≤ m + 1)); [|rewrite seqZ_nil by lia; constructor].
      rewrite <- (Z2Nat.id (m + 1)) by done. apply seqZ_sorted. }
    induction Hs as [|x l Hs IH Hx]; [constructor|]. rewrite filter_cons. case_decide; [|done].
    constructor; [done|]. rewrite Forall_forall in Hx |- *. intros y Hy.
    apply list_elem_of_filter in Hy as [_ Hy]. by apply Hx.
Qed.

(** The summary says what the groups show.  It exists when some key is a
    warp number; its counts and bounds are of those numbers; a warp is listed
    complete exactly when one of its records is an exit, in progress when it
    has records and none is, missing when no group has it though a higher one
    exists; and the printed ranges are those lists, without touching ranges
    among the missing ones. *)
Theorem warp_summary_exact gs o :
  compute_warp_summary gs = Ok o →
  let ids := omap warp_of gs in
  match o with
  | None => ids = []
  | Some s =>
      total_observed s = Z.of_nat (length ids) ∧ 0 < total_observed s ∧
      min_warp_id s ∈ ids ∧ max_warp_id s ∈ ids ∧
      (∀ w, w ∈ ids → min_warp_id s ≤ w ≤ max_warp_id s) ∧
      (∀ w, w ∈ completed_warp_ids s ↔ some_group (shows_exit w) gs) ∧
      (∀ w, w ∈ inprogress_warp_ids s ↔ some_group (shows_no_exit w) gs) ∧
      (∀ w, w ∈ missing_warp_ids s ↔ 0 ≤ w ≤ max_warp_id s ∧ w ∉ ids) ∧
      canonical (merge_to_ranges (missing_warp_ids s)) ∧
      Forall (λ l, Sorted Z.le l ∧ expand (merge_to_ranges l) = l)
        [completed_warp_ids s; inprogress_warp_ids s; missing_warp_ids s]
  end.
Proof.
  intros H ids. apply bind_ok in H as (c & Hc & H). destruct (classify_spec _ _ Hc) as [H1 H2 H3].
  unfold ids. rewrite <- H1. destruct (warp_ids c) as [|w0 rest]; [by injection H as <-|].
  injection H as <-. cbn [total_observed min_warp_id max_warp_id completed_warp_ids inprogress_warp_ids missing_warp_ids].
  destruct (fold_min_spec rest w0) as [Hmin Hmin']. destruct (fold_max_spec rest w0) as [Hmax Hmax'].
  destruct (unseen_spec (fold_left Z.max rest w0) (w0 :: rest)) as (Hu & Hnd & Hus).
  assert (∀ l, Sorted Z.le (sorted_ints l)) as Hsort by (intros l; apply Sorted_merge_sort, _).
  split_and!; try done.
  - by intros w Hw; split; [apply Hmin'|apply Hmax'].
  - intros w. unfold sorted_ints. by rewrite merge_sort_Permutation.
  - intros w. unfold sorted_ints. by rewrite merge_sort_Permutation.
  - by apply merge_canonical.
  - repeat constructor; try done; rewrite expand_merge; by apply sorted_ints_id.
Qed.

Definition demo_groups : dict key (list obj) :=
  [(KNone, [[("type", JStr "kernel_metadata")]]);
   (KInt 3, [[("sass", JStr "@P0 EXIT ;")]; [("sass", JStr "NOP;")]]);
   (KStr "1", [[("sass", JStr "BAR.SYNC 0x1 ;")]]);
   (KInt 0, [])].

Lemma warp_summary_exact_witness :
  compute_warp_summary demo_groups = Ok (Some (mkWarpSummary 3 0 3 [3] [1] [2])) ∧
  canonical (merge_to_ranges [2]).
Proof.
  split; [vm_compute; reflexivity|].
  destruct (warp_summary_exact demo_groups (Some (mkWarpSummary 3 0 3 [3] [1] [2])) eq_refl)
    as (_ & _ & _ & _ & _ & _ & _ & _ & H & _). exact H.
Defined.

(** A view of each group that drops records but not the group. *)
Definition group_view (f : list obj → list obj) : Prop :=
  (∀ g r, r ∈ f g → r ∈ g) ∧ ∀ g, f g = [] → g = [].

Lemma head_view n : 0 < n → group_view (λ g, select_records g (Some n) None).
Proof.
  intros Hn. unfold select_records. cbn [default from_option]. unfold id.
  rewrite (proj2 (Z.leb_gt n 0)) by done. split.
  - intros g r Hr. rewrite <- (take_drop (Z.to_nat n) g). apply elem_of_app. by left.
  - intros [|x g]; [done|]. by destruct (Z.to_nat n) eqn:E; [lia|].
Qed.

Lemma tail_view n : 0 < n → group_view (λ g, select_records g None (Some n)).
Proof.
  intros Hn. unfold select_records. rewrite (proj2 (Z.leb_gt n 0)) by done. split; intros g.
  - rewrite bounded_deque_last. intros r Hr. rewrite <- (take_drop (length g - Z.to_nat n) g). apply elem_of_app. by right.
  - rewrite bounded_deque_last. intros H%(f_equal length). rewrite length_drop in H. cbn in H.
    apply nil_length_inv. lia.
Qed.

Lemma batch_ids (f : list obj → list obj) l : omap warp_of (batch f l) = omap int_key (first_seen l.*1).
Proof.
  unfold batch. induction (first_seen l.*1) as [|k ks IH]; [done|].
  cbn [fmap list_fmap omap list_omap]. unfold warp_of at 1. cbn [fst]. destruct (int_key k); by rewrite IH.
Qed.

Lemma batch_groups (f : list obj → list obj) P l :
  some_group P (batch f l) ↔ ∃ k, k ∈ l.*1 ∧ P k (f (group_of k l)).
Proof.
  unfold some_group, batch. split.
  - intros (k & rs & Hin & HP). apply list_elem_of_fmap in Hin as (k' & [= -> ->] & Hk').
    exists k'. by rewrite first_seen_elem in Hk'.
  - intros (k & Hk & HP). exists k, (f (group_of k l)). split; [|done].
    apply list_elem_of_fmap. exists k. by rewrite first_seen_elem.
Qed.

Lemma summary_of gs o :
  compute_warp_summary gs = Ok (Some o) → ∃ w rest c,
    classified gs c ∧ omap warp_of gs = w :: rest ∧
    o = mkWarpSummary (Z.of_nat (length (w :: rest))) (fold_left Z.min rest w) (fold_left Z.max rest w)
          (sorted_ints (completed_ids c)) (sorted_ints (inprogress_ids c))
          (unseen (fold_left Z.max rest w) (w :: rest)).
Proof.
  intros H. apply bind_ok in H as (c & Hc & H). pose proof (classify_spec _ _ Hc) as Hs.
  rewrite <- (cl_ids _ _ Hs). destruct (warp_ids c) as [|w rest]; [done|]. injection H as <-. by exists w, rest, c.
Qed.

(** A summary of truncated groups (the first or the last records of each,
    as [query --group-by warp] prints) agrees with the summary of the whole
    trace on which warps were observed and which are missing, never calls a
    warp complete that is not, and errs only by calling complete warps in
    progress. *)
Theorem truncated_summary_sound (l : list (key * obj)) n head s s' :
  0 < n →
  let view (g : list obj) := if (head : bool) then select_records g (Some n) None
                             else select_records g None (Some n) in
  compute_warp_summary (batch view l) = Ok (Some s') →
  compute_warp_summary (batch (λ g, g) l) = Ok (Some s) →
  total_observed s' = total_observed s ∧ min_warp_id s' = min_warp_id s ∧
  max_warp_id s' = max_warp_id s ∧ missing_warp_ids s' = missing_warp_ids s ∧
  (∀ w, w ∈ completed_warp_ids s' → w ∈ completed_warp_ids s) ∧
  (∀ w, w ∈ inprogress_warp_ids s → w ∈ inprogress_warp_ids s') ∧
  (∀ w, w ∈ inprogress_warp_ids s' → w ∉ inprogress_warp_ids s → w ∈ completed_warp_ids s).
Proof.
  intros Hn view Hs' Hs.
  assert (group_view view) as [Hsub Hne] by (unfold view; destruct head; [by apply head_view|by apply tail_view]).
  apply summary_of in Hs' as (w0 & rest & c' & [_ Hd' Hr'] & Hids' & ->).
  apply summary_of in Hs as (w1 & rest1 & c & [_ Hd Hr] & Hids & ->).
  rewrite batch_ids in Hids, Hids'. rewrite Hids in Hids'. injection Hids' as <- <-. clear Hids.
  cbn. unfold sorted_ints. split_and!; try done; intros w; rewrite !merge_sort_Permutation.
  - rewrite Hd, Hd', !batch_groups. intros (k & Hk & Hi & r & Hr0 & He). exists k. split; [done|].
    split; [done|]. exists r. split; [by apply Hsub|done].
  - rewrite Hr, Hr', !batch_groups. intros (k & Hk & Hi & Hg & Hall). exists k. split; [done|].
    split_and!; [done|by intros ?%Hne|]. intros r Hr0. by apply Hall, Hsub.
  - rewrite Hr, Hr', Hd, !batch_groups. intros (k & Hk & Hi & Hg & _) Hno. exists k. split; [done|].
    split; [done|].
    destruct (decide (Exists exited (group_of k l))) as [Hx|Hx].
    + apply Exists_exists in Hx as (r & Hin & He). by exists r.
    + exfalso. apply Hno. exists k. split_and!; [done|split_and!; [done|..]].
      * intros E. apply Hg. rewrite E. destruct (view []) as [|r v] eqn:Ev; [done|].
        assert (r ∈ []) as Hin by (apply Hsub; rewrite Ev; by left). by apply elem_of_nil in Hin.
      * intros r Hin He. apply Hx, Exists_exists. by exists r.
Qed.

Definition demo_trace : list (key * obj) :=
  [(KInt 0, [("sass", JStr "MOV R1, R2 ;")]); (KInt 0, [("sass", JStr "EXIT ;")]);
   (KInt 1, [("sass", JStr "BRA ;")])].

(** The first record of each warp: warp 0 exits, and is listed in progress. *)
Lemma truncated_summary_sound_witness :
  compute_warp_summary (batch (λ g, select_records g (Some 1) None) demo_trace) =
    Ok (Some (mkWarpSummary 2 0 1 [] [0; 1] [])) ∧
  compute_warp_summary (batch (λ g, g) demo_trace) = Ok (Some (mkWarpSummary 2 0 1 [0] [1] [])) ∧
  ∀ w, w ∈ [0; 1] → w ∉ [1] → w ∈ [0].
Proof.
  split; [vm_compute; reflexivity|]. split; [vm_compute; reflexivity|].
  destruct (truncated_summary_sound demo_trace 1 true (mkWarpSummary 2 0 1 [0] [1] [])
              (mkWarpSummary 2 0 1 [] [0; 1] []) eq_refl eq_refl eq_refl) as (_ & _ & _ & _ & _ & _ & H).
  exact H.
Defined.
