(* ===== verification/Sha256.v ===== *)
(** [hashlib.sha256(...).hexdigest()]: SHA-256 on 32-bit words (FIPS 180-4), as
    identifiers and fingerprints are made with it.  Text is ASCII, so that its
    UTF-8 bytes are its characters' codes. *)
From S2P Require Import Prelude.
From S2P Require Import PyStr.
From Stdlib Require Import Ascii.
From Stdlib Require String.
Local Open Scope Z_scope.

Definition w32 (x : Z) : Z := x mod 2 ^ 32.
Definition rotr (n x : Z) : Z := Z.lor (Z.shiftr x n) (w32 (Z.shiftl x (32 - n))).

Definition small_sigma0 (x : Z) : Z := Z.lxor (Z.lxor (rotr 7 x) (rotr 18 x)) (Z.shiftr x 3).
Definition small_sigma1 (x : Z) : Z := Z.lxor (Z.lxor (rotr 17 x) (rotr 19 x)) (Z.shiftr x 10).
Definition big_sigma0 (x : Z) : Z := Z.lxor (Z.lxor (rotr 2 x) (rotr 13 x)) (rotr 22 x).
Definition big_sigma1 (x : Z) : Z := Z.lxor (Z.lxor (rotr 6 x) (rotr 11 x)) (rotr 25 x).
Definition sha_ch (x y z : Z) : Z := Z.lxor (Z.land x y) (Z.land (Z.lxor x (2 ^ 32 - 1)) z).
Definition sha_maj (x y z : Z) : Z := Z.lxor (Z.lxor (Z.land x y) (Z.land x z)) (Z.land y z).

(** The fractional parts of the cube and square roots of the first primes. *)
Definition round_constants : list Z :=
  [1116352408; 1899447441; 3049323471; 3921009573; 961987163; 1508970993; 2453635748; 2870763221;
   3624381080; 310598401; 607225278; 1426881987; 1925078388; 2162078206; 2614888103; 3248222580;
   3835390401; 4022224774; 264347078; 604807628; 770255983; 1249150122; 1555081692; 1996064986;
   2554220882; 2821834349; 2952996808; 3210313671; 3336571891; 3584528711; 113926993; 338241895;
   666307205; 773529912; 1294757372; 1396182291; 1695183700; 1986661051; 2177026350; 2456956037;
   2730485921; 2820302411; 3259730800; 3345764771; 3516065817; 3600352804; 4094571909; 275423344;
   430227734; 506948616; 659060556; 883997877; 958139571; 1322822218; 1537002063; 1747873779;
   1955562222; 2024104815; 2227730452; 2361852424; 2428436474; 2756734187; 3204031479; 3329325298].
Definition initial_hash : list Z :=
  [1779033703; 3144134277; 1013904242; 2773480762; 1359893119; 2600822924; 528734635; 1541459225].

(** The message with its padding and its length in bits. *)
Fixpoint be_bytes (n : nat) (x : Z) : list Z :=
  match n with O => [] | S m => Z.shiftr x (8 * Z.of_nat m) mod 256 :: be_bytes m x end.

Definition padded (msg : list Z) : list Z :=
  let len := Z.of_nat (length msg) in
  msg ++ [128] ++ replicate (Z.to_nat ((55 - len) mod 64)) 0 ++ be_bytes 8 (8 * len).

Fixpoint chunks {A} (fuel n : nat) (l : list A) : list (list A) :=
  match fuel, l with
  | O, _ | _, [] => []
  | S f, _ => take n l :: chunks f n (drop n l)
  end.

Definition be_word (bytes : list Z) : Z := fold_left (λ a b, 256 * a + b) bytes 0.

(** The message schedule, newest word first. *)
Definition schedule_step (w : list Z) (_ : nat) : list Z :=
  w32 (small_sigma1 (nth 1 w 0) + nth 6 w 0 + small_sigma0 (nth 14 w 0) + nth 15 w 0) :: w.
Definition schedule (block : list Z) : list Z :=
  rev (fold_left schedule_step (seq 16 48) (rev (be_word <$> chunks 16 4 block))).

Definition sha_round (s : list Z) (kw : Z * Z) : list Z :=
  match s with
  | [a; b; c; d; e; f; g; h] =>
      let t1 := w32 (h + big_sigma1 e + sha_ch e f g + kw.1 + kw.2) in
      let t2 := w32 (big_sigma0 a + sha_maj a b c) in
      [w32 (t1 + t2); a; b; c; w32 (d + t1); e; f; g]
  | _ => s
  end.

Definition compress (s : list Z) (block : list Z) : list Z :=
  zip_with (λ x y, w32 (x + y)) s (fold_left sha_round (zip round_constants (schedule block)) s).

Definition sha256_words (msg : list Z) : list Z :=
  let p := padded msg in fold_left compress (chunks (length p) 64 p) initial_hash.

Definition hex_char (d : Z) : ascii :=
  ascii_of_nat (Z.to_nat (if d <? 10 then 48 + d else 87 + d)).

Fixpoint hex_fixed (n : nat) (x : Z) : list ascii :=
  match n with O => [] | S m => hex_char (Z.shiftr x (4 * Z.of_nat m) mod 16) :: hex_fixed m x end.

Definition sha256_hexdigest (text : list ascii) : list ascii :=
  concat (hex_fixed 8 <$> sha256_words (code <$> text)).

Example sha256_empty :
  str (sha256_hexdigest []) = "e3b0c44298fc1c149afbf4c8996fb92427ae41e4649b934ca495991b7852b855".
Proof. vm_compute. reflexivity. Qed.

Example sha256_abc :
  str (sha256_hexdigest (chars "abc"))
  = "ba7816bf8f01cfea414140de5dae2223b00361a396177a9cb410ff61f20015ad".
Proof. vm_compute. reflexivity. Qed.

Example sha256_two_blocks :
  str (sha256_hexdigest (chars "abcdbcdecdefdefgefghfghighijhijkijkljklmklmnlmnomnopnopq"))
  = "248d6a61d20638b8e5c026930c3e6039a33ce45964ff2167f6ecedd419db06c1".
Proof. vm_compute. reflexivity. Qed.

Lemma length_hex_fixed n x : length (hex_fixed n x) = n.
Proof. induction n; cbn; congruence. Qed.

Lemma compress_length s block :
  length s = 8%nat → length (fold_left sha_round (zip round_constants (schedule block)) s) = 8%nat →
  length (compress s block) = 8%nat.
Proof. intros H1 H2. unfold compress. by rewrite length_zip_with, H1, H2. Qed.

Lemma sha_rounds_length l s : length s = 8%nat → length (fold_left sha_round l s) = 8%nat.
Proof.
  revert s. induction l as [|kw l IH]; cbn; intros s H; [done|]. apply IH.
  do 8 (destruct s as [|? s]; [done|]). by destruct s.
Qed.

(** A digest has 64 characters. *)
Lemma sha256_length text : length (sha256_hexdigest text) = 64%nat.
Proof.
  unfold sha256_hexdigest, sha256_words. cbv zeta.
  assert (∀ bs s, length s = 8%nat → length (fold_left compress bs s) = 8%nat) as H.
  { induction bs as [|b bs IH]; cbn; intros s Hs; [done|]. apply IH, compress_length; [done|].
    by apply sha_rounds_length. }
  specialize (H (chunks (length (padded (code <$> text))) 64 (padded (code <$> text))) initial_hash eq_refl).
  revert H. generalize (fold_left compress (chunks (length (padded (code <$> text))) 64
    (padded (code <$> text))) initial_hash). intros ws Hws.
  do 8 (destruct ws as [|? ws]; [done|]). destruct ws; [|done].
  cbn [fmap list_fmap concat]. rewrite !length_app, !length_hex_fixed. done.
Qed.
