(* ===== verification/PyText.v ===== *)
(** Values written as text, and order-preserving deduplication: [dict.fromkeys],
    [hex], [repr] of a string and [json.dumps] with sorted keys. *)
From S2P Require Import Prelude.
From S2P Require Import PyStr.
From S2P Require Import PyDict.
From S2P Require Import PySet.
From S2P Require Import Json.
From S2P Require Import Sha256.
From Stdlib Require Import Ascii.
From Stdlib Require String.
From Stdlib Require Import Floats.SpecFloat.
Local Open Scope Z_scope.

(** ** [list(dict.fromkeys(l))]: each element once, at its first place *)

Section FromKeys.
Context {A : Type} `{EqDecision A}.

Definition fromkeys_from (seen l : list A) : list A :=
  fold_left (λ u a, if decide (a ∈ u) then u else u ++ [a]) l seen.
Definition fromkeys : list A → list A := fromkeys_from [].

Lemma fromkeys_from_cons b l seen :
  fromkeys_from seen (b :: l) = fromkeys_from (if decide (b ∈ seen) then seen else seen ++ [b]) l.
Proof. done. Qed.

Lemma fromkeys_from_spec l seen :
  NoDup seen → NoDup (fromkeys_from seen l) ∧ ∀ a, a ∈ fromkeys_from seen l ↔ a ∈ seen ∨ a ∈ l.
Proof.
  revert seen. induction l as [|b l IH]; intros seen Hs; [cbn; set_solver|]. rewrite fromkeys_from_cons.
  destruct (decide (b ∈ seen)) as [Hb|Hb].
  - destruct (IH seen Hs) as [H1 H2]. split; [done|]. intros a. rewrite H2. set_solver.
  - destruct (IH (seen ++ [b])) as [H1 H2].
    { apply NoDup_app. split_and!; [done|set_solver|apply NoDup_singleton]. }
    split; [done|]. intros a. rewrite H2. set_solver.
Qed.

Lemma fromkeys_NoDup l : NoDup (fromkeys l).
Proof. apply fromkeys_from_spec. constructor. Qed.

Lemma elem_of_fromkeys l a : a ∈ fromkeys l ↔ a ∈ l.
Proof. unfold fromkeys. destruct (fromkeys_from_spec l [] ltac:(constructor)) as [_ ->]. set_solver. Qed.

Lemma fromkeys_from_NoDup l seen : NoDup (seen ++ l) → fromkeys_from seen l = seen ++ l.
Proof.
  revert seen. induction l as [|b l IH]; intros seen Hs; [by rewrite app_nil_r|]. rewrite fromkeys_from_cons.
  apply NoDup_app in Hs as Hs'. destruct Hs' as (_ & Hd & _).
  rewrite decide_False by (intros Hb; apply (Hd b Hb); set_solver).
  rewrite IH by (by rewrite <- app_assoc). by rewrite <- app_assoc.
Qed.

(** Deduplicating twice is deduplicating once. *)
Lemma fromkeys_id l : NoDup l → fromkeys l = l.
Proof. apply (fromkeys_from_NoDup l []). Qed.

Lemma fromkeys_idem l : fromkeys (fromkeys l) = fromkeys l.
Proof. apply fromkeys_id, fromkeys_NoDup. Qed.
End FromKeys.

(** ** [hex(n)] of a natural number *)

Fixpoint hex_digits (fuel : nat) (n : Z) (acc : list ascii) : list ascii :=
  match fuel with
  | O => acc
  | S f =>
      let acc := hex_char (n mod 16) :: acc in
      if n <? 16 then acc else hex_digits f (n / 16) acc
  end.

Definition py_hex (n : Z) : string :=
  str (chars "0x" ++ hex_digits (S (Z.to_nat (Z.log2 n))) n []).

Lemma hex_char_value d : 0 ≤ d < 16 → digit_value (hex_char d) = Some d ∧ hex_char d ≠ "_"%char.
Proof.
  intros H. assert (d ∈ [0;1;2;3;4;5;6;7;8;9;10;11;12;13;14;15]) as Hd
    by (apply list_elem_of_In; cbn; lia).
  repeat (apply elem_of_cons in Hd as [->|Hd]; [by vm_compute|]). by apply not_elem_of_nil in Hd.
Qed.

Lemma digits_value_hex d r acc b :
  0 ≤ d < 16 → digits_value 16 acc b (hex_char d :: r) = digits_value 16 (16 * acc + d) true r.
Proof.
  intros H. destruct (hex_char_value d H) as [H1 H2]. cbn [digits_value].
  destruct (Ascii.eqb_spec (hex_char d) "_"%char) as [E|_]; [done|]. rewrite H1.
  by replace (d <? 16) with true by lia.
Qed.

(** Digits followed by a text [r] read as the number, then as [r] does. *)
Lemma digits_value_hex_digits f n r :
  0 ≤ n < 16 ^ Z.of_nat f → digits_value 16 0 true (hex_digits f n r) = digits_value 16 n true r.
Proof.
  revert n r. induction f as [|f IH]; intros n r Hn.
  - cbn. by replace n with 0 by (change (16 ^ Z.of_nat 0) with 1 in Hn; lia).
  - cbn [hex_digits]. assert (0 ≤ n mod 16 < 16) as Hm by (apply Z.mod_pos_bound; lia).
    destruct (Z.ltb_spec n 16).
    + rewrite digits_value_hex by done. by rewrite Z.mod_small by lia.
    + rewrite IH.
      * rewrite digits_value_hex by done. f_equal. rewrite (Z.div_mod n 16) at 3 by lia. done.
      * rewrite Nat2Z.inj_succ, Z.pow_succ_r in Hn by lia.
        split; [apply Z.div_pos; lia|apply Z.div_lt_upper_bound; lia].
Qed.

Lemma log2_fuel n : 0 ≤ n → n < 16 ^ Z.of_nat (S (Z.to_nat (Z.log2 n))).
Proof.
  intros Hn. rewrite Nat2Z.inj_succ, Z2Nat.id by apply Z.log2_nonneg.
  destruct (Z.eq_dec n 0) as [->|]; [done|].
  pose proof (Z.log2_spec n ltac:(lia)) as [_ H]. pose proof (Z.log2_nonneg n).
  eapply Z.lt_le_trans; [exact H|]. apply Z.pow_le_mono_l. lia.
Qed.

Lemma hex_digits_ne f n acc : acc ≠ [] → hex_digits f n acc ≠ [].
Proof.
  revert n acc. induction f as [|f IH]; intros n acc H; [done|]. cbn [hex_digits].
  destruct (n <? 16); [done|]. by apply IH.
Qed.

Lemma hex_digits_no_space f n acc :
  0 ≤ n → Forall (λ c, is_space c = false) acc → Forall (λ c, is_space c = false) (hex_digits f n acc).
Proof.
  revert n acc. induction f as [|f IH]; intros n acc Hn H; [done|]. cbn [hex_digits].
  assert (is_space (hex_char (n mod 16)) = false) as Hc.
  { assert (n mod 16 ∈ [0;1;2;3;4;5;6;7;8;9;10;11;12;13;14;15]) as Hd
      by (pose proof (Z.mod_pos_bound n 16 ltac:(lia)); apply list_elem_of_In; cbn; lia).
    repeat (apply elem_of_cons in Hd as [->|Hd]; [by vm_compute|]). by apply not_elem_of_nil in Hd. }
  destruct (n <? 16); [by constructor|]. apply IH; [apply Z.div_pos; lia|by constructor].
Qed.

Lemma lstrip_id l : Forall (λ c, is_space c = false) l → lstrip l = l.
Proof. destruct 1 as [|c l Hc _]; [done|]. cbn [lstrip]. by rewrite Hc. Qed.

Lemma strip_id l : Forall (λ c, is_space c = false) l → strip l = l.
Proof.
  intros H. unfold strip, rstrip. rewrite (lstrip_id l H), lstrip_id by by apply Forall_rev.
  apply rev_involutive.
Qed.

(** [int(hex(n), 0) = n]. *)
Lemma int0_hex n : 0 ≤ n → int0 (chars (py_hex n)) = Some n.
Proof.
  intros Hn. unfold py_hex.
  assert (Forall (λ c, is_space c = false) (hex_digits (S (Z.to_nat (Z.log2 n))) n [])) as Hr
    by (by apply hex_digits_no_space).
  assert (hex_digits (S (Z.to_nat (Z.log2 n))) n [] ≠ []) as Hne.
  { cbn [hex_digits]. destruct (n <? 16); [done|]. by apply hex_digits_ne. }
  assert (digits_value 16 0 true (hex_digits (S (Z.to_nat (Z.log2 n))) n []) = Some n) as Hv.
  { rewrite digits_value_hex_digits; [done|]. split; [done|by apply log2_fuel]. }
  revert Hr Hne Hv. generalize (hex_digits (S (Z.to_nat (Z.log2 n))) n []). intros r Hr Hne Hv.
  unfold chars, str. rewrite String.list_ascii_of_string_of_list_ascii.
  unfold int0. rewrite strip_id by (repeat constructor; exact Hr).
  destruct r as [|c r]; [done|]. exact Hv.
Qed.

(** ** [repr(s)] of printable text *)

Definition repr_char (quote c : ascii) : list ascii :=
  if Ascii.eqb c quote || Ascii.eqb c "\"%char then ["\"%char; c]
  else let n := code c in
  if n =? 10 then chars "\n" else if n =? 13 then chars "\r" else if n =? 9 then chars "\t"
  else if (n <? 32) || (n =? 127) then chars "\x" ++ hex_fixed 2 n
  else [c].

Definition py_repr (s : string) : string :=
  let l := chars s in
  let quote := if bool_decide ("'"%char ∈ l) && negb (bool_decide ("034"%char ∈ l))
               then "034"%char else "'"%char in
  str ([quote] ++ concat (repr_char quote <$> l) ++ [quote]).

(** ** [json.dumps(x, sort_keys=True, separators=(",", ":"))], floats apart *)

Definition json_char (c : ascii) : list ascii :=
  let n := code c in
  if (n =? 34) || (n =? 92) then ["\"%char; c]
  else if n =? 10 then chars "\n" else if n =? 13 then chars "\r" else if n =? 9 then chars "\t"
  else if n =? 12 then chars "\f" else if n =? 8 then chars "\b"
  else if (n <? 32) || (126 <? n) then chars "\u" ++ hex_fixed 4 n
  else [c].

Definition json_string (s : string) : list ascii :=
  ["034"%char] ++ concat (json_char <$> chars s) ++ ["034"%char].

Definition key_le {A} (a b : string * A) : Prop := str_le a.1 b.1.
#[export] Instance key_le_dec {A} : RelDecision (@key_le A).
Proof. intros a b. unfold key_le. apply _. Defined.

(** Dictionaries are written with their entries in the order of their keys. No
    payload the code writes this way holds a float, and none is written here. *)
Fixpoint json_dumps (j : json) : list ascii :=
  match j with
  | JNull => chars "null"
  | JBool b => chars (if b then "true" else "false")
  | JInt z => chars (pretty z)
  | JFloat _ => []
  | JStr s => json_string s
  | JList l => ["["%char] ++ join_text [","%char] (json_dumps <$> l) ++ ["]"%char]
  | JObj d =>
      let entries := merge_sort key_le ((λ e, (e.1, json_string e.1 ++ [":"%char] ++ json_dumps e.2)) <$> d) in
      ["{"%char] ++ join_text [","%char] (entries.*2) ++ ["}"%char]
  end.

Example dumps_sorted :
  str (json_dumps (JObj [("b", JList [JInt (-3); JNull]); ("a", JStr "x/y")]))
  = str (chars "{" ++ json_string "a" ++ chars ":" ++ json_string "x/y" ++ chars "," ++
         json_string "b" ++ chars ":[-3,null]}").
Proof. vm_compute. reflexivity. Qed.

Example repr_quotes : py_repr "it's" = str ("034"%char :: chars "it's" ++ ["034"%char]).
Proof. vm_compute. reflexivity. Qed.

(** ** [a == b] of payloads *)

(** A float that is exactly the integer [z]. *)
Definition f_is_int (f : float) (z : Z) : bool :=
  match f with
  | S754_zero _ => z =? 0
  | S754_finite s m e =>
      let n := if s then Z.neg m else Z.pos m in
      if 0 <=? e then n * 2 ^ e =? z else n =? z * 2 ^ (- e)
  | _ => false
  end.

(** Numbers compare across their types; [True] is 1. *)
Definition number_eqb (a b : json) : bool :=
  let int x := match x with JBool b => Some (if b then 1 else 0) | JInt z => Some z | _ => None end in
  match a, b with
  | JFloat f, JFloat g => f_eq f g
  | JFloat f, x | x, JFloat f => match int x with Some z => f_is_int f z | None => false end
  | _, _ => match int a, int b with Some x, Some y => x =? y | _, _ => false end
  end.

Fixpoint json_eqb (a b : json) {struct a} : bool :=
  match a, b with
  | JNull, JNull => true
  | JStr s, JStr t => bool_decide (s = t)
  | JList l, JList k =>
      (fix go (l k : list json) : bool :=
         match l, k with
         | [], [] => true
         | x :: l, y :: k => json_eqb x y && go l k
         | _, _ => false
         end) l k
  | JObj d, JObj e =>
      (length d =? length e)%nat &&
      (fix go (d : list (string * json)) : bool :=
         match d with
         | [] => true
         | (k, v) :: d => match field e k with Some w => json_eqb v w | None => false end && go d
         end) d
  | _, _ => number_eqb a b
  end.

Example json_eqb_numbers :
  json_eqb (JObj [("a", JInt 1); ("b", JBool true)])
    (JObj [("b", JFloat f_one); ("a", JFloat f_one)]) = true
  ∧ json_eqb (JList [JFloat S754_nan]) (JList [JFloat S754_nan]) = false.
Proof. vm_compute. done. Qed.
