(* ===== verification/Experiments.v ===== *)
(** Wire contracts, third part: experiment specifications and their options, and
    the results of discovery, tracing and reduction, from
    src/python/cutracer/service/contracts.py.

    Where a [__post_init__] only checks, it is [X_check]; where it also rewrites
    the fields, it is [X_init], and a value is well formed when [X_init] leaves it
    as it is. *)
From S2P Require Import Prelude.
From S2P Require Import PyStr.
From S2P Require Import PyDict.
From S2P Require Import PySet.
From S2P Require Import Json.
From S2P Require Import PyText.
From S2P Require Import Contracts.
From S2P Require Import Results.
From Stdlib Require Import Ascii.
Local Open Scope Z_scope.

(** ** Shared *)

(** [ValueError(message)]: the message is kept where the code reads it. *)
Definition raising {A} (r : res string A) : dres A :=
  match r with Ok a => Ok a | Err _ => Err (Raised ValueError) end.

Lemma raising_ok {A} (r : res string A) a : raising r = Ok a → r = Ok a.
Proof. destruct r; cbn; congruence. Qed.

(** A dataclass whose [__post_init__] rewrites its fields. *)
Definition normalized {A} (init : A → res exn A) (a : A) : dres A :=
  match init a with Ok b => Ok b | Err e => Err (Raised e) end.

Lemma normalized_ok {A} (init : A → res exn A) a b : normalized init a = Ok b → init a = Ok b.
Proof. unfold normalized. destruct (init a); congruence. Qed.

Lemma list_sound {A} `{JsonSound A} j (l : list A) : list_of of_json j = Ok l → Forall valid l.
Proof.
  unfold list_of. destruct (as_list j) as [js|e]; cbn [mbind res_bind]; [|done]. apply map_res_sound.
Qed.

(** The parts of a decoded value are valid because they were decoded. *)
Ltac sound_part :=
  match goal with
  | |- True => exact I
  | E : opt of_json _ = Ok ?o |- valid_opt ?o => exact (opt_sound _ _ E)
  | E : list_of of_json _ = Ok ?l |- Forall valid ?l => exact (list_sound _ _ E)
  | E : of_json _ = Ok ?a |- valid ?a => exact (of_json_valid _ _ E)
  | E : (_ ≫= _) = Ok ?a |- valid ?a =>
      let j := fresh "j" in apply bind_ok in E as (j & _ & E); exact (of_json_valid _ _ E)
  end.
Ltac sound_parts := repeat split; cbn; try sound_part.

(** [str(x)] of the values that name a PC. *)
Definition py_str (j : json) : dres string :=
  match j with
  | JStr s => Ok s
  | JInt z => Ok (pretty z)
  | JBool b => Ok (if b then "True" else "False")
  | JNull => Ok "None"
  | _ => Err IllTyped
  end.

Lemma py_str_strings l : list_of py_str (jlist JStr l) = Ok l.
Proof. apply list_of_jlist, Forall_true. done. Qed.

(** A part that is never absent, read where it might be. *)
Lemma opt_to_json {A} `{JsonCodec A} (a : A) : valid a → opt of_json (to_json a) = Ok (Some a).
Proof. intros Hv. exact (opt_codec (Some a) Hv). Qed.

Lemma list_of_nil {A} (f : json → dres A) : list_of f (JList []) = Ok [].
Proof. done. Qed.

#[export] Hint Rewrite py_str_strings @list_of_nil : codec.
#[export] Hint Rewrite @opt_to_json using codec_side : codec.

Definition opt_kernel_eqb (a b : option KernelId) : bool :=
  match a, b with
  | Some x, Some y => KernelId_eqb x y
  | None, None => true
  | _, _ => false
  end.

Lemma KernelId_eqb_refl k : KernelId_eqb k k = true.
Proof. unfold KernelId_eqb. by rewrite !bool_decide_true. Qed.
Lemma opt_kernel_eqb_refl k : opt_kernel_eqb k k = true.
Proof. destruct k; [apply KernelId_eqb_refl|done]. Qed.

(** [==] of two provenances. *)
Definition provenance_eqb (a b : ExecutionProvenance) : bool :=
  bool_decide (pv_source_revision a = pv_source_revision b) && bool_decide (pv_arch a = pv_arch b)
  && opt_kernel_eqb (pv_kernel a) (pv_kernel b)
  && bool_decide (tool_version a = tool_version b)
  && bool_decide (toolchain_version a = toolchain_version b).

Definition U64_MAX : Z := 2 ^ 64 - 1.
Definition UINT32_MAX : Z := 2 ^ 32 - 1.

(** ** Trace targeting *)

Inductive TraceInstructionCategory := MMA | TMA | SYNC.
Inductive TraceConfigSource := TriggeringSource | MinimizedSource.

#[export] Instance TraceInstructionCategory_eq_dec : EqDecision TraceInstructionCategory.
Proof. solve_decision. Defined.
#[export] Instance TraceConfigSource_eq_dec : EqDecision TraceConfigSource.
Proof. solve_decision. Defined.

Definition TraceInstructionCategory_values : list (string * TraceInstructionCategory) :=
  [("mma", MMA); ("tma", TMA); ("sync", SYNC)].
Definition TraceConfigSource_values : list (string * TraceConfigSource) :=
  [("triggering", TriggeringSource); ("minimized", MinimizedSource)].

#[export] Instance TraceInstructionCategory_codec : JsonCodec TraceInstructionCategory :=
  enum_codec TraceInstructionCategory_values (enum_of TraceInstructionCategory_values)
    ltac:(intros a; enum_ok).
#[export] Instance TraceConfigSource_codec : JsonCodec TraceConfigSource :=
  enum_codec TraceConfigSource_values (enum_of TraceConfigSource_values) ltac:(intros a; enum_ok).

(** [member.value] as text. *)
Definition enum_text {A} `{JsonCodec A} (a : A) : string :=
  match to_json a with JStr s => s | _ => "" end.

Definition is_trace_kind (k : ExperimentKind) : bool :=
  match k with REG_TRACE | MEM_VALUE_TRACE => true | _ => false end.

Definition allowed_instrument_modes : list string := ["reg_trace"; "mem_value_trace"; "tma_trace"].

(** [_trace_instrument_modes]: the modes in the order of the allowlist, or [[]]
    when only the primary one is asked for. *)
Definition trace_instrument_modes (primary : ExperimentKind) (modes : list string) :
    res string (list string) :=
  if existsb (λ m, negb (bool_decide (m ∈ allowed_instrument_modes))) modes
  then Err "trace instrument_modes must be an allowlisted list"
  else if bool_decide (modes = []) then Ok []
  else if negb (bool_decide (enum_text primary ∈ modes))
  then Err "trace instrument_modes must include the primary mode"
  else
    let normalized := List.filter (λ m, bool_decide (m ∈ modes)) allowed_instrument_modes in
    if bool_decide (normalized = [enum_text primary]) then Ok [] else Ok normalized.

(** A list of text, or [ValueError]. *)
Definition mode_list (j : json) : dres (list string) :=
  l ← raw_list j; map_res (λ m, match m with JStr s => Ok s | _ => Err (Raised ValueError) end) l.

Definition pc_offset_of (value : string) : res string string :=
  match int0 (chars value) with
  | None => Err ("invalid PC offset: " +:+ py_repr value)
  | Some parsed =>
      if (0 <=? parsed) && (parsed <=? U64_MAX) then Ok (py_hex parsed)
      else Err "PC offset must fit an unsigned 64-bit integer"
  end.

Record TraceSelector := mkSelector {
  sel_kernel : option KernelId;
  sel_launch_id : option Z;
  sel_warp_id : option Z;
  sel_warpgroup_id : option Z;
  sel_pc_offsets : list string;
  sel_categories : list TraceInstructionCategory;
  sel_config_source : option TraceConfigSource
}.

Definition default_selector : TraceSelector := mkSelector None None None None [] [] None.

Definition outside (o : option Z) (hi : Z) : bool :=
  match o with Some n => negb ((0 <=? n) && (n <=? hi)) | None => false end.

(** [TraceSelector.__post_init__]. *)
Definition TraceSelector_init (s : TraceSelector) : res string TraceSelector :=
  if outside (sel_launch_id s) U64_MAX
  then Err "trace launch_id must fit an unsigned 64-bit integer"
  else if outside (sel_warp_id s) 31
  then Err "trace warp_id must be a CTA-local warp in [0, 31]"
  else if outside (sel_warpgroup_id s) 7 then Err "trace warpgroup_id must be in [0, 7]"
  else if bool_decide (sel_warp_id s ≠ None) && bool_decide (sel_warpgroup_id s ≠ None)
  then Err "trace selector cannot combine warp_id and warpgroup_id"
  else
    pcs ← mapM pc_offset_of (sel_pc_offsets s);
    if (32 <? length (fromkeys pcs))%nat then Err "trace selector accepts at most 32 PC offsets"
    else Ok (mkSelector (sel_kernel s) (sel_launch_id s) (sel_warp_id s) (sel_warpgroup_id s)
               (fromkeys pcs) (fromkeys (sel_categories s)) (sel_config_source s)).

Definition TraceSelector_to_dict (s : TraceSelector) : json :=
  JObj [("kernel", jopt to_json (sel_kernel s)); ("launch_id", jopt JInt (sel_launch_id s));
        ("warp_id", jopt JInt (sel_warp_id s)); ("warpgroup_id", jopt JInt (sel_warpgroup_id s));
        ("pc_offsets", jlist JStr (sel_pc_offsets s));
        ("instruction_categories", jlist to_json (sel_categories s));
        ("config_source", jopt to_json (sel_config_source s))].

Definition TraceSelector_from_dict (j : json) : dres TraceSelector :=
  d ← as_obj j;
  k ← opt of_json (get d "kernel");
  launch ← opt py_int (get d "launch_id");
  warp ← opt py_int (get d "warp_id");
  wg ← opt py_int (get d "warpgroup_id");
  pcs ← list_of py_str (get_or d "pc_offsets" (JList []));
  cats ← list_of of_json (get_or d "instruction_categories" (JList []));
  src ← opt of_json (get d "config_source");
  raising (TraceSelector_init (mkSelector k launch warp wg pcs cats src)).

Lemma pc_offset_of_idem v w : pc_offset_of v = Ok w → pc_offset_of w = Ok w.
Proof.
  unfold pc_offset_of. destruct (int0 (chars v)) as [n|]; [|done].
  destruct ((0 <=? n) && (n <=? U64_MAX)) eqn:E; [|done]. intros [= <-].
  rewrite int0_hex by lia. by rewrite E.
Qed.

Lemma mapM_fixed (f : string → res string string) (l : list string) :
  Forall (λ a, f a = Ok a) l → mapM f l = Ok l.
Proof. induction 1 as [|a l Ha _ IH]; [done|]. cbn. rewrite Ha. cbn. by rewrite IH. Qed.

Lemma mapM_image (f : string → res string string) (l k : list string) :
  (∀ a b, f a = Ok b → f b = Ok b) → mapM f l = Ok k → Forall (λ a, f a = Ok a) k.
Proof.
  intros Hf. revert k. induction l as [|a l IH]; cbn; intros k Hk; [injection Hk as <-; constructor|].
  apply bind_ok in Hk as (b & Hb & Hk). apply bind_ok in Hk as (r & Hr & Hk). injection Hk as <-.
  constructor; [by eapply Hf|by apply IH].
Qed.

(** Normalising twice is normalising once. *)
Lemma TraceSelector_init_idem s t : TraceSelector_init s = Ok t → TraceSelector_init t = Ok t.
Proof.
  unfold TraceSelector_init.
  destruct (outside (sel_launch_id s) U64_MAX) eqn:E1; [done|].
  destruct (outside (sel_warp_id s) 31) eqn:E2; [done|].
  destruct (outside (sel_warpgroup_id s) 7) eqn:E3; [done|].
  destruct (bool_decide (sel_warp_id s ≠ None) && bool_decide (sel_warpgroup_id s ≠ None)) eqn:E4; [done|].
  destruct (mapM pc_offset_of (sel_pc_offsets s)) as [pcs|] eqn:Em; cbn [mbind res_bind]; [|done].
  destruct (32 <? length (fromkeys pcs))%nat eqn:E5; [done|]. intros [= <-].
  cbn [sel_kernel sel_launch_id sel_warp_id sel_warpgroup_id sel_pc_offsets sel_categories sel_config_source].
  rewrite E1, E2, E3, E4, mapM_fixed; cbn [mbind res_bind].
  - by rewrite !fromkeys_idem, E5.
  - apply (mapM_image _ _ _ pc_offset_of_idem) in Em. rewrite Forall_forall in Em |- *.
    intros a Ha. apply Em, elem_of_fromkeys, Ha.
Qed.

#[global] Arguments TraceSelector_init : simpl never.
#[global] Arguments raising : simpl never.

Lemma raising_init {A} (init : A → res string A) a : init a = Ok a → raising (init a) = Ok a.
Proof. intros H. by rewrite H. Qed.
Lemma normalized_init {A} (init : A → res exn A) a : init a = Ok a → normalized init a = Ok a.
Proof. intros H. unfold normalized. by rewrite H. Qed.
#[export] Hint Rewrite @raising_init @normalized_init using assumption : codec.
#[global] Arguments normalized : simpl never.

#[export] Instance TraceSelector_codec : JsonCodec TraceSelector.
Proof.
  refine {| valid s := TraceSelector_init s = Ok s; to_json := TraceSelector_to_dict;
            of_json := TraceSelector_from_dict |}.
  - done.
  - intros [k l w g p c s] Hv; codec.
Defined.

#[export] Instance TraceSelector_sound : JsonSound TraceSelector.
Proof.
  intros j s H. change (TraceSelector_from_dict j = Ok s) in H. unfold TraceSelector_from_dict in H.
  decoded H. apply raising_ok in H. by eapply TraceSelector_init_idem.
Qed.

(** ** Trace and reduction options *)

Record TraceOptions := mkTraceOptions {
  to_mode : ExperimentKind;
  trace_size_limit_mb : Z;
  to_selector : TraceSelector;
  config_artifact : option ArtifactRef;
  to_instrument_modes : list string
}.

(** [TraceOptions.__post_init__]. *)
Definition TraceOptions_init (o : TraceOptions) : res string TraceOptions :=
  if negb (is_trace_kind (to_mode o)) then Err ("invalid trace mode: " +:+ enum_text (to_mode o))
  else
    modes ← trace_instrument_modes (to_mode o) (to_instrument_modes o);
    if negb ((1 <=? trace_size_limit_mb o) && (trace_size_limit_mb o <=? UINT32_MAX))
    then Err "trace_size_limit_mb must be in [1, UINT32_MAX]"
    else if negb (Bool.eqb (bool_decide (sel_config_source (to_selector o) = None))
                           (bool_decide (config_artifact o = None)))
    then Err "trace config_source and resolved config_artifact must be set together"
    else Ok (mkTraceOptions (to_mode o) (trace_size_limit_mb o) (to_selector o) (config_artifact o) modes).

Definition effective_instrument_modes (o : TraceOptions) : res string (list string) :=
  modes ← trace_instrument_modes (to_mode o) (to_instrument_modes o);
  Ok (if bool_decide (modes = []) then [enum_text (to_mode o)] else modes).

Definition TraceOptions_to_dict (o : TraceOptions) : json :=
  JObj ([("mode", to_json (to_mode o)); ("trace_size_limit_mb", JInt (trace_size_limit_mb o));
         ("selector", to_json (to_selector o)); ("config_artifact", jopt to_json (config_artifact o))] ++
        if bool_decide (to_instrument_modes o = []) then []
        else [("instrument_modes", jlist JStr (to_instrument_modes o))]).

Definition TraceOptions_from_dict (j : json) : dres TraceOptions :=
  d ← as_obj j;
  mode ← (x ← req d "mode"; of_json x);
  size ← py_int (get_or d "trace_size_limit_mb" (JInt 1024));
  sel ← opt of_json (get d "selector");
  art ← opt of_json (get d "config_artifact");
  modes ← mode_list (get_or d "instrument_modes" (JList []));
  raising (TraceOptions_init (mkTraceOptions mode size (default default_selector sel) art modes)).

Lemma mode_list_strings l : mode_list (jlist JStr l) = Ok l.
Proof. unfold mode_list. rewrite raw_list_jlist. cbn [mbind res_bind]. apply filters_roundtrip. Qed.
Lemma mode_list_nil : mode_list (JList []) = Ok [].
Proof. done. Qed.
#[export] Hint Rewrite mode_list_strings mode_list_nil : codec.
#[global] Arguments mode_list : simpl never.
#[global] Arguments trace_instrument_modes : simpl never.

(** What normalised modes are: a selection of the allowlist, in its order. *)
Lemma trace_instrument_modes_ok k l m :
  trace_instrument_modes k l = Ok m →
  m = [] ∨ (enum_text k ∈ m ∧ m ≠ [enum_text k] ∧
            m = List.filter (λ x, bool_decide (x ∈ l)) allowed_instrument_modes).
Proof.
  unfold trace_instrument_modes. generalize allowed_instrument_modes as al. intros al.
  destruct (existsb _ l) eqn:E0; [done|].
  case_bool_decide as E1; [intros [= <-]; by left|].
  destruct (bool_decide (enum_text k ∈ l)) eqn:E2; [|done]. cbn [negb].
  cbv zeta. destruct (bool_decide (List.filter _ _ = _)) eqn:E3; intros [= <-]; [by left|right].
  apply bool_decide_eq_false in E3. split_and!; [|done..].
  apply bool_decide_eq_true in E2. apply list_elem_of_In, List.filter_In.
  rewrite bool_decide_true by done. split; [|done].
  destruct (decide (enum_text k ∈ al)) as [Hin|Hout]; [by apply list_elem_of_In|].
  assert (existsb (λ m, negb (bool_decide (m ∈ al))) l = true) as Hc; [|congruence].
  apply existsb_exists. exists (enum_text k). split; [by apply list_elem_of_In|].
  by rewrite bool_decide_false.
Qed.

Lemma trace_instrument_modes_idem k l m :
  trace_instrument_modes k l = Ok m → trace_instrument_modes k m = Ok m.
Proof.
  intros H. apply trace_instrument_modes_ok in H as [->|(Hk & Hne & Hm)]; [done|].
  unfold trace_instrument_modes. revert Hm. generalize allowed_instrument_modes as al. intros al Hm.
  assert (∀ x, x ∈ m ↔ x ∈ al ∧ x ∈ l) as Hn.
  { intros x. rewrite Hm, !list_elem_of_In, List.filter_In, bool_decide_eq_true.
    by rewrite (list_elem_of_In l). }
  assert (List.filter (λ x, bool_decide (x ∈ m)) al = m) as Hf.
  { transitivity (List.filter (λ x, bool_decide (x ∈ l)) al); [|done].
    apply filter_ext_in. intros x Hx%list_elem_of_In. apply bool_decide_ext.
    rewrite Hn. tauto. }
  replace (existsb _ m) with false.
  2: { symmetry. apply not_true_iff_false. rewrite existsb_exists. intros (x & Hx & Hb).
       apply list_elem_of_In, Hn in Hx as [Hx _]. by rewrite bool_decide_true in Hb. }
  rewrite bool_decide_false by (intros ->; by apply not_elem_of_nil in Hk).
  rewrite bool_decide_true by done. cbn [negb]. cbv zeta. by rewrite Hf, bool_decide_false.
Qed.

Lemma TraceOptions_init_ok o p :
  TraceOptions_init o = Ok p → to_selector p = to_selector o ∧ TraceOptions_init p = Ok p.
Proof.
  unfold TraceOptions_init. destruct (negb (is_trace_kind (to_mode o))) eqn:E1; [done|].
  destruct (trace_instrument_modes _ _) as [m|] eqn:E2; cbn [mbind res_bind]; [|done].
  destruct (negb ((1 <=? _) && _)) eqn:E3; [done|].
  destruct (negb (Bool.eqb _ _)) eqn:E4; [done|]. intros [= <-].
  cbn [to_mode to_instrument_modes trace_size_limit_mb to_selector config_artifact].
  split; [done|]. rewrite E1, (trace_instrument_modes_idem _ _ _ E2). cbn [mbind res_bind].
  by rewrite E3, E4.
Qed.
#[global] Arguments TraceOptions_init : simpl never.

#[export] Instance TraceOptions_codec : JsonCodec TraceOptions.
Proof.
  refine {| valid o := TraceOptions_init o = Ok o ∧ valid (to_selector o);
            to_json := TraceOptions_to_dict; of_json := TraceOptions_from_dict |}.
  - done.
  - intros [m s t a i] Hv. unfold TraceOptions_to_dict. cbn [to_instrument_modes].
    destruct i as [|x i]; codec.
Defined.

#[export] Instance TraceOptions_sound : JsonSound TraceOptions.
Proof.
  intros j o H. change (TraceOptions_from_dict j = Ok o) in H. unfold TraceOptions_from_dict in H.
  decoded H. apply raising_ok, TraceOptions_init_ok in H as [Hs H]. split; [done|]. rewrite Hs.
  cbn [to_selector]. destruct a2 as [s|]; [|done].
  match goal with E : opt of_json _ = Ok (Some s) |- _ => exact (opt_sound _ _ E) end.
Qed.

Record ReduceOptions := mkReduceOptions {
  ro_triggering_config : TriggeringDelayConfig;
  ro_strategy : string;
  confidence_runs : Z;
  require_kernel_identity : bool
}.

Definition ReduceOptions_check (o : ReduceOptions) : res exn () :=
  if bool_decide (ro_strategy o ∈ ["linear"; "bisect"]) then Ok () else Err ValueError.

Definition ReduceOptions_to_dict (o : ReduceOptions) : json :=
  JObj [("triggering_config", to_json (ro_triggering_config o)); ("strategy", JStr (ro_strategy o));
        ("confidence_runs", JInt (confidence_runs o));
        ("require_kernel_identity", JBool (require_kernel_identity o))].

Definition ReduceOptions_from_dict (j : json) : dres ReduceOptions :=
  d ← as_obj j;
  cfg ← (x ← req d "triggering_config"; of_json x);
  st ← as_str (get_or d "strategy" (JStr "bisect"));
  runs ← py_int (get_or d "confidence_runs" (JInt 3));
  checked ReduceOptions_check
    (mkReduceOptions cfg st runs (as_bool (get_or d "require_kernel_identity" (JBool true)))).

#[export] Instance ReduceOptions_codec : JsonCodec ReduceOptions.
Proof.
  refine {| valid o := ReduceOptions_check o = Ok () ∧ valid (ro_triggering_config o);
            to_json := ReduceOptions_to_dict; of_json := ReduceOptions_from_dict |}.
  - done.
  - intros [c s n r] Hv; codec.
Defined.

#[export] Instance ReduceOptions_sound : JsonSound ReduceOptions.
Proof.
  intros j o H. change (ReduceOptions_from_dict j = Ok o) in H. unfold ReduceOptions_from_dict in H.
  decoded H. apply checked_inv in H as [<- H]. split; [done|]. cbn [ro_triggering_config]. sound_part.
Qed.

#[export] Instance KernelDiscoveryOptions_sound : JsonSound KernelDiscoveryOptions.
Proof.
  intros j o H. change (KernelDiscoveryOptions_from_dict j = Ok o) in H.
  unfold KernelDiscoveryOptions_from_dict in H. decoded H. by apply checked_inv in H as [<- H].
Qed.

(** ** Specifications *)

Record ExperimentSpec := mkSpec {
  sp_experiment_id : string;
  sp_session_id : string;
  sp_phase : ExperimentPhase;
  sp_kind : ExperimentKind;
  sp_unit : WorkUnit;
  sp_round_index : Z;
  sp_discovery : option KernelDiscoveryOptions;
  sp_sanitizer_tool : option string;
  sp_stress : option StressOptions;
  sp_trace : option TraceOptions;
  sp_reduction : option ReduceOptions
}.

Definition is_some {A} (o : option A) : bool := match o with Some _ => true | None => false end.

(** The replay context of a configuration is that of the unit. *)
Definition same_replay_context (c : TriggeringDelayConfig) (u : WorkUnit) : bool :=
  bool_decide (work_unit_id c = unit_id u) && bool_decide (target_argv c = argv u) &&
  bool_decide (Some (tc_oracle c) = oracle u) &&
  bool_decide (tc_source_revision c = source_revision u) && bool_decide (tc_arch c = arch u) &&
  opt_kernel_eqb (tc_kernel c) (kernel u).

(** [ExperimentSpec.__post_init__]. *)
Definition ExperimentSpec_check (s : ExperimentSpec) : res exn () :=
  let refuse (b : bool) (rest : res exn ()) := if b then Err ValueError else rest in
  refuse (bool_decide (sp_kind s = KERNEL_DISCOVERY) && negb (is_some (sp_discovery s)))
  (refuse (bool_decide (sp_kind s = KERNEL_DISCOVERY) && is_some (kernel (sp_unit s)))
  (refuse (bool_decide (sp_kind s = COMPUTE_SANITIZER) &&
           match sp_sanitizer_tool s with Some t => bool_decide (t = "") | None => true end)
  (refuse (bool_decide (sp_kind s = RANDOM_DELAY_STRESS) && negb (is_some (sp_stress s)))
  (refuse (is_trace_kind (sp_kind s) &&
           match sp_trace s with Some t => negb (bool_decide (to_mode t = sp_kind s)) | None => true end)
  (refuse (bool_decide (sp_kind s = REDUCE_DELAY_CONFIG) && negb (is_some (sp_reduction s)))
  (if bool_decide (sp_kind s = REDUCE_DELAY_CONFIG) then
     match sp_reduction s with
     | None => Err AssertionError
     | Some r =>
         refuse (negb (is_some (oracle (sp_unit s))))
         (refuse (negb (same_replay_context (ro_triggering_config r) (sp_unit s))) (Ok ()))
     end
   else Ok ())))))).

Definition ExperimentSpec_to_dict (s : ExperimentSpec) : json :=
  JObj [("experiment_id", JStr (sp_experiment_id s)); ("session_id", JStr (sp_session_id s));
        ("phase", to_json (sp_phase s)); ("kind", to_json (sp_kind s)); ("unit", to_json (sp_unit s));
        ("round_index", JInt (sp_round_index s)); ("discovery", jopt to_json (sp_discovery s));
        ("sanitizer_tool", jopt JStr (sp_sanitizer_tool s)); ("stress", jopt to_json (sp_stress s));
        ("trace", jopt to_json (sp_trace s)); ("reduction", jopt to_json (sp_reduction s))].

Definition ExperimentSpec_from_dict (j : json) : dres ExperimentSpec :=
  d ← as_obj j;
  id ← (x ← req d "experiment_id"; as_str x);
  sid ← (x ← req d "session_id"; as_str x);
  ph ← (x ← req d "phase"; of_json x);
  k ← (x ← req d "kind"; of_json x);
  u ← (x ← req d "unit"; of_json x);
  rd ← py_int (get_or d "round_index" (JInt 0));
  disc ← opt of_json (get d "discovery");
  tool ← opt as_str (get d "sanitizer_tool");
  st ← opt of_json (get d "stress");
  tr ← opt of_json (get d "trace");
  red ← opt of_json (get d "reduction");
  checked ExperimentSpec_check (mkSpec id sid ph k u rd disc tool st tr red).

#[export] Instance ExperimentSpec_codec : JsonCodec ExperimentSpec.
Proof.
  refine {| valid s := ExperimentSpec_check s = Ok () ∧ valid (sp_unit s) ∧
              valid_opt (sp_discovery s) ∧ valid_opt (sp_stress s) ∧ valid_opt (sp_trace s) ∧
              valid_opt (sp_reduction s);
            to_json := ExperimentSpec_to_dict; of_json := ExperimentSpec_from_dict |}.
  - done.
  - intros [i s p k u r d t st tr rd] (Hc & Hu & H1 & H2 & H3 & H4).
    cbn [sp_unit sp_discovery sp_stress sp_trace sp_reduction] in *.
    unfold ExperimentSpec_to_dict, ExperimentSpec_from_dict; codec.
Defined.

#[export] Instance ExperimentSpec_sound : JsonSound ExperimentSpec.
Proof.
  intros j s H. change (ExperimentSpec_from_dict j = Ok s) in H. unfold ExperimentSpec_from_dict in H.
  decoded H. apply checked_inv in H as [<- H]. split; [done|].
  cbn [sp_unit sp_discovery sp_stress sp_trace sp_reduction]. split_and!; sound_part.
Qed.

(** ** Kernel discovery *)

Inductive KernelDiscoveryOutcome :=
| Discovered | NoKernels | NoMatchingKernels | TooManyKernels | DiscoveryInfraError.

#[export] Instance KernelDiscoveryOutcome_eq_dec : EqDecision KernelDiscoveryOutcome.
Proof. solve_decision. Defined.

Definition KernelDiscoveryOutcome_values : list (string * KernelDiscoveryOutcome) :=
  [("discovered", Discovered); ("no_kernels", NoKernels); ("no_matching_kernels", NoMatchingKernels);
   ("too_many_kernels", TooManyKernels); ("infra_error", DiscoveryInfraError)].

#[export] Instance KernelDiscoveryOutcome_codec : JsonCodec KernelDiscoveryOutcome :=
  enum_codec KernelDiscoveryOutcome_values (enum_of KernelDiscoveryOutcome_values)
    ltac:(intros a; enum_ok).

Record KernelDiscoveryManifest := mkManifest {
  target_unit_id : string;
  dm_source_revision : string;
  dm_arch : string;
  dm_kernels : list KernelId;
  event_artifacts : list ArtifactRef;
  target_returncode : Z;
  dm_kernel_filters : list string
}.

(** Pairs of text in the order of Python's tuples. *)
Definition pair_le (a b : string * string) : Prop :=
  if decide (a.1 = b.1) then str_le a.2 b.2 else str_le a.1 b.1.
#[export] Instance pair_le_dec : RelDecision pair_le.
Proof. intros a b. unfold pair_le. destruct (decide (a.1 = b.1)); apply _. Defined.

(** [KernelDiscoveryManifest.__post_init__]. *)
Definition KernelDiscoveryManifest_check (m : KernelDiscoveryManifest) : res exn () :=
  let identities := (λ k, (ki_name k, cubin_hash k)) <$> dm_kernels m in
  if blank (target_unit_id m) then Err ValueError
  else if bool_decide (identities = []) ||
          negb (bool_decide (identities = merge_sort pair_le (remove_dups identities)))
  then Err ValueError
  else if existsb (λ i, blank i.1 || blank i.2) identities then Err ValueError
  else if bool_decide (event_artifacts m = []) then Err ValueError
  else if existsb (λ a, negb (is_visible_artifact_basename a)) (event_artifacts m) then Err ValueError
  else Ok ().

Definition KernelDiscoveryManifest_to_dict (m : KernelDiscoveryManifest) : json :=
  JObj [("target_unit_id", JStr (target_unit_id m)); ("source_revision", JStr (dm_source_revision m));
        ("arch", JStr (dm_arch m)); ("kernels", jlist to_json (dm_kernels m));
        ("event_artifacts", jlist to_json (event_artifacts m));
        ("target_returncode", JInt (target_returncode m));
        ("kernel_filters", jlist JStr (dm_kernel_filters m))].

Definition KernelDiscoveryManifest_from_dict (j : json) : dres KernelDiscoveryManifest :=
  d ← as_obj j;
  id ← (x ← req d "target_unit_id"; as_str x);
  rev ← as_str (get_or d "source_revision" (JStr ""));
  ar ← as_str (get_or d "arch" (JStr ""));
  ks ← list_of of_json (get_or d "kernels" (JList []));
  evs ← list_of of_json (get_or d "event_artifacts" (JList []));
  rc ← py_int (get_or d "target_returncode" (JInt 0));
  fs ← list_of as_str (get_or d "kernel_filters" (JList []));
  checked KernelDiscoveryManifest_check (mkManifest id rev ar ks evs rc fs).

#[global] Arguments KernelDiscoveryManifest_check : simpl never.

#[export] Instance KernelDiscoveryManifest_codec : JsonCodec KernelDiscoveryManifest.
Proof.
  refine {| valid m := KernelDiscoveryManifest_check m = Ok (); to_json := KernelDiscoveryManifest_to_dict;
            of_json := KernelDiscoveryManifest_from_dict |}.
  - done.
  - intros [i r a k e c f] Hv; codec.
Defined.

#[export] Instance KernelDiscoveryManifest_sound : JsonSound KernelDiscoveryManifest.
Proof.
  intros j o H. change (KernelDiscoveryManifest_from_dict j = Ok o) in H.
  unfold KernelDiscoveryManifest_from_dict in H. decoded H. by apply checked_inv in H as [<- H].
Qed.

Record KernelDiscoveryResult := mkDiscovery {
  dr_experiment_id : string;
  dr_execution_status : ExecutionStatus;
  dr_outcome : KernelDiscoveryOutcome;
  dr_provenance : ExecutionProvenance;
  dr_discovery : option KernelDiscoveryManifest;
  manifest_artifact : option ArtifactRef;
  dr_duration_s : float;
  dr_error : option string
}.

Definition discovery_expected_statuses (o : KernelDiscoveryOutcome) : list ExecutionStatus :=
  match o with
  | Discovered => []
  | NoKernels | NoMatchingKernels | TooManyKernels => [ExecFailed]
  | DiscoveryInfraError => [ExecInfraError; ExecTimedOut]
  end.

(** [error is None or not error.strip()]. *)
Definition no_error_text (e : option string) : bool :=
  match e with Some s => blank s | None => true end.

(** [KernelDiscoveryResult.__post_init__]. *)
Definition KernelDiscoveryResult_check (r : KernelDiscoveryResult) : res exn () :=
  if bool_decide (dr_outcome r = Discovered) then
    if negb (bool_decide (dr_execution_status r = Succeeded)) || negb (is_some (dr_discovery r)) ||
       negb (is_some (manifest_artifact r)) || is_some (dr_error r) then Err ValueError
    else if match manifest_artifact r with
            | Some a => negb (is_visible_artifact_basename a)
            | None => false
            end then Err ValueError
    else Ok ()
  else if bool_decide (dr_execution_status r = Succeeded) then Err ValueError
  else if is_some (dr_discovery r) || is_some (manifest_artifact r) then Err ValueError
  else if no_error_text (dr_error r) then Err ValueError
  else if bool_decide (dr_execution_status r ∈ discovery_expected_statuses (dr_outcome r))
  then Ok () else Err ValueError.

Definition KernelDiscoveryResult_to_dict (r : KernelDiscoveryResult) : json :=
  JObj [("kind", to_json KERNEL_DISCOVERY); ("experiment_id", JStr (dr_experiment_id r));
        ("execution_status", to_json (dr_execution_status r)); ("outcome", to_json (dr_outcome r));
        ("provenance", to_json (dr_provenance r)); ("discovery", jopt to_json (dr_discovery r));
        ("manifest_artifact", jopt to_json (manifest_artifact r));
        ("duration_s", JFloat (dr_duration_s r)); ("error", jopt JStr (dr_error r))].

Definition KernelDiscoveryResult_from_dict (j : json) : dres KernelDiscoveryResult :=
  d ← as_obj j;
  id ← (x ← req d "experiment_id"; as_str x);
  st ← (x ← req d "execution_status"; of_json x);
  out ← (x ← req d "outcome"; of_json x);
  prov ← (x ← req d "provenance"; of_json x);
  disc ← opt of_json (get d "discovery");
  art ← opt of_json (get d "manifest_artifact");
  dur ← py_float (get_or d "duration_s" (JFloat f_zero));
  err ← opt as_str (get d "error");
  checked KernelDiscoveryResult_check (mkDiscovery id st out prov disc art dur err).

#[global] Arguments KernelDiscoveryResult_check : simpl never.

#[export] Instance KernelDiscoveryResult_codec : JsonCodec KernelDiscoveryResult.
Proof.
  refine {| valid r := KernelDiscoveryResult_check r = Ok () ∧ valid_opt (dr_discovery r);
            to_json := KernelDiscoveryResult_to_dict; of_json := KernelDiscoveryResult_from_dict |}.
  - done.
  - intros [i s o p d a t e] Hv; codec.
Defined.

#[export] Instance KernelDiscoveryResult_sound : JsonSound KernelDiscoveryResult.
Proof.
  intros j o H. change (KernelDiscoveryResult_from_dict j = Ok o) in H.
  unfold KernelDiscoveryResult_from_dict in H. decoded H. apply checked_inv in H as [<- H].
  split; [done|]. cbn [dr_discovery]. sound_part.
Qed.

(** ** Trace analysis *)

Inductive TraceAnalysisSeverity := SeverityError | SeverityWarning | SeverityInfo.

#[export] Instance TraceAnalysisSeverity_eq_dec : EqDecision TraceAnalysisSeverity.
Proof. solve_decision. Defined.

Definition TraceAnalysisSeverity_values : list (string * TraceAnalysisSeverity) :=
  [("error", SeverityError); ("warning", SeverityWarning); ("info", SeverityInfo)].

#[export] Instance TraceAnalysisSeverity_codec : JsonCodec TraceAnalysisSeverity :=
  enum_codec TraceAnalysisSeverity_values (enum_of TraceAnalysisSeverity_values)
    ltac:(intros a; enum_ok).

Record TraceDetectorSummary := mkDetector {
  ds_source_tool : string;
  ds_sub_component : string;
  verdict : string;
  ds_severity : TraceAnalysisSeverity;
  finding_count : Z;
  ds_description : string;
  ds_trace_file : option string
}.

Definition blank_opt (o : option string) : bool := match o with Some s => blank s | None => false end.

Definition TraceDetectorSummary_check (s : TraceDetectorSummary) : res exn () :=
  if blank (ds_source_tool s) || blank (ds_sub_component s) then Err ValueError
  else if finding_count s <? 0 then Err ValueError
  else if blank_opt (ds_trace_file s) then Err ValueError
  else Ok ().

Definition TraceDetectorSummary_to_dict (s : TraceDetectorSummary) : json :=
  JObj [("source_tool", JStr (ds_source_tool s)); ("sub_component", JStr (ds_sub_component s));
        ("verdict", JStr (verdict s)); ("severity", to_json (ds_severity s));
        ("finding_count", JInt (finding_count s)); ("description", JStr (ds_description s));
        ("trace_file", jopt JStr (ds_trace_file s))].

Definition TraceDetectorSummary_from_dict (j : json) : dres TraceDetectorSummary :=
  d ← as_obj j;
  tool ← (x ← req d "source_tool"; as_str x);
  sub ← (x ← req d "sub_component"; as_str x);
  v ← (x ← req d "verdict"; as_str x);
  sev ← (x ← req d "severity"; of_json x);
  n ← py_int (get_or d "finding_count" (JInt 0));
  desc ← as_str (get_or d "description" (JStr ""));
  file ← opt py_str (get d "trace_file");
  checked TraceDetectorSummary_check (mkDetector tool sub v sev n desc file).

Lemma opt_py_str o : opt py_str (jopt JStr o) = Ok o.
Proof. by apply opt_jopt. Qed.
#[export] Hint Rewrite opt_py_str : codec.
#[global] Arguments TraceDetectorSummary_check : simpl never.

#[export] Instance TraceDetectorSummary_codec : JsonCodec TraceDetectorSummary.
Proof.
  refine {| valid s := TraceDetectorSummary_check s = Ok (); to_json := TraceDetectorSummary_to_dict;
            of_json := TraceDetectorSummary_from_dict |}.
  - done.
  - intros [t s v e n d f] Hv; codec.
Defined.

#[export] Instance TraceDetectorSummary_sound : JsonSound TraceDetectorSummary.
Proof.
  intros j o H. change (TraceDetectorSummary_from_dict j = Ok o) in H.
  unfold TraceDetectorSummary_from_dict in H. decoded H. by apply checked_inv in H as [<- H].
Qed.

Record TraceAnalysisFinding := mkTraceFinding {
  tf_source_tool : string;
  tf_sub_component : string;
  tf_severity : TraceAnalysisSeverity;
  category : string;
  tf_description : string;
  ctas : list (list Z);
  tf_warps : list Z;
  pcs : list string;
  trace_indices : list Z;
  source_locations : list (option SourceLoc);
  tf_trace_file : option string
}.

Definition TraceAnalysisFinding_check (f : TraceAnalysisFinding) : res exn () :=
  if blank (tf_source_tool f) || blank (tf_sub_component f) then Err ValueError
  else if negb (bool_decide (source_locations f = [])) &&
          negb (length (source_locations f) =? length (pcs f))%nat then Err ValueError
  else if existsb (λ c : list Z, negb (length c =? 3)%nat) (ctas f) then Err ValueError
  else if blank_opt (tf_trace_file f) then Err ValueError
  else Ok ().

Definition TraceAnalysisFinding_to_dict (f : TraceAnalysisFinding) : json :=
  JObj [("source_tool", JStr (tf_source_tool f)); ("sub_component", JStr (tf_sub_component f));
        ("severity", to_json (tf_severity f)); ("category", JStr (category f));
        ("description", JStr (tf_description f)); ("ctas", jlist (jlist JInt) (ctas f));
        ("warps", jlist JInt (tf_warps f)); ("pcs", jlist JStr (pcs f));
        ("trace_indices", jlist JInt (trace_indices f));
        ("source_locations", jlist (jopt to_json) (source_locations f));
        ("trace_file", jopt JStr (tf_trace_file f))].

Definition TraceAnalysisFinding_from_dict (j : json) : dres TraceAnalysisFinding :=
  d ← as_obj j;
  tool ← (x ← req d "source_tool"; as_str x);
  sub ← (x ← req d "sub_component"; as_str x);
  sev ← (x ← req d "severity"; of_json x);
  cat ← (x ← req d "category"; as_str x);
  desc ← as_str (get_or d "description" (JStr ""));
  cs ← list_of (list_of py_int) (get_or d "ctas" (JList []));
  ws ← list_of py_int (get_or d "warps" (JList []));
  ps ← list_of py_str (get_or d "pcs" (JList []));
  ti ← list_of py_int (get_or d "trace_indices" (JList []));
  ls ← list_of (opt of_json) (get_or d "source_locations" (JList []));
  file ← opt py_str (get d "trace_file");
  checked TraceAnalysisFinding_check (mkTraceFinding tool sub sev cat desc cs ws ps ti ls file).

Lemma ctas_roundtrip l : list_of (list_of py_int) (jlist (jlist JInt) l) = Ok l.
Proof. apply list_of_jlist, Forall_true. intros a. apply list_of_ints. Qed.
Lemma locations_roundtrip (l : list (option SourceLoc)) :
  list_of (opt of_json) (jlist (jopt to_json) l) = Ok l.
Proof. apply list_of_jlist, Forall_true. intros a. apply opt_codec. by destruct a. Qed.
#[export] Hint Rewrite ctas_roundtrip locations_roundtrip : codec.
#[global] Arguments TraceAnalysisFinding_check : simpl never.

#[export] Instance TraceAnalysisFinding_codec : JsonCodec TraceAnalysisFinding.
Proof.
  refine {| valid f := TraceAnalysisFinding_check f = Ok (); to_json := TraceAnalysisFinding_to_dict;
            of_json := TraceAnalysisFinding_from_dict |}.
  - done.
  - intros [t s e c d ct w p i l f] Hv; codec.
Defined.

#[export] Instance TraceAnalysisFinding_sound : JsonSound TraceAnalysisFinding.
Proof.
  intros j o H. change (TraceAnalysisFinding_from_dict j = Ok o) in H.
  unfold TraceAnalysisFinding_from_dict in H. decoded H. by apply checked_inv in H as [<- H].
Qed.

Definition TRACE_ANALYSIS_SCHEMA_VERSION : Z := 1.

Record TraceAnalysisEvidence := mkTraceAnalysis {
  analyzer : string;
  ta_execution_status : ExecutionStatus;
  detector_summaries : list TraceDetectorSummary;
  ta_findings : list TraceAnalysisFinding;
  total_findings : Z;
  ta_warnings : list string;
  ta_artifact : option ArtifactRef;
  ta_error : option string;
  ta_schema_version : Z;
  capture_summaries : list obj;
  omitted_capture_summaries : Z
}.

Definition TraceAnalysisEvidence_check (t : TraceAnalysisEvidence) : res exn () :=
  if negb (ta_schema_version t =? TRACE_ANALYSIS_SCHEMA_VERSION) then Err ValueError
  else if blank (analyzer t) then Err ValueError
  else if total_findings t <? 0 then Err ValueError
  else if total_findings t <? Z.of_nat (length (ta_findings t)) then Err ValueError
  else Ok ().

Definition omitted_findings (t : TraceAnalysisEvidence) : Z :=
  total_findings t - Z.of_nat (length (ta_findings t)).

Definition TraceAnalysisEvidence_to_dict (t : TraceAnalysisEvidence) : json :=
  JObj ([("schema_version", JInt (ta_schema_version t)); ("analyzer", JStr (analyzer t));
         ("execution_status", to_json (ta_execution_status t));
         ("detector_summaries", jlist to_json (detector_summaries t));
         ("findings", jlist to_json (ta_findings t)); ("total_findings", JInt (total_findings t));
         ("warnings", jlist JStr (ta_warnings t)); ("artifact", jopt to_json (ta_artifact t));
         ("error", jopt JStr (ta_error t))] ++
        if bool_decide (capture_summaries t = []) && (omitted_capture_summaries t =? 0) then []
        else [("capture_summaries", jlist JObj (capture_summaries t));
              ("omitted_capture_summaries", JInt (omitted_capture_summaries t))]).

(** [type(x) is int], checked by the class. *)
Definition strict_int (j : json) : dres Z :=
  match j with JInt z => Ok z | _ => Err (Raised ValueError) end.

(** [if k not in d: raise ValueError]. *)
Definition must_have (d : obj) (k : string) : dres () :=
  match field d k with Some _ => Ok () | None => Err (Raised ValueError) end.

Definition TraceAnalysisEvidence_from_dict (j : json) : dres TraceAnalysisEvidence :=
  d ← as_obj j;
  _ ← must_have d "schema_version";
  _ ← must_have d "total_findings";
  an ← (x ← req d "analyzer"; as_str x);
  st ← (x ← req d "execution_status"; of_json x);
  dets ← list_of of_json (get_or d "detector_summaries" (JList []));
  fs ← list_of of_json (get_or d "findings" (JList []));
  tot ← (x ← req d "total_findings"; py_int x);
  ws ← list_of py_str (get_or d "warnings" (JList []));
  art ← opt of_json (get d "artifact");
  err ← opt as_str (get d "error");
  v ← (x ← req d "schema_version"; strict_int x);
  caps ← list_of as_obj (get_or d "capture_summaries" (JList []));
  om ← py_int (get_or d "omitted_capture_summaries" (JInt 0));
  checked TraceAnalysisEvidence_check (mkTraceAnalysis an st dets fs tot ws art err v caps om).

Lemma captures_roundtrip l : list_of as_obj (jlist JObj l) = Ok l.
Proof. by apply list_of_jlist, Forall_true. Qed.
#[export] Hint Rewrite captures_roundtrip : codec.
#[global] Arguments TraceAnalysisEvidence_check : simpl never.

#[export] Instance TraceAnalysisEvidence_codec : JsonCodec TraceAnalysisEvidence.
Proof.
  refine {| valid t := TraceAnalysisEvidence_check t = Ok () ∧ Forall valid (detector_summaries t) ∧
              Forall valid (ta_findings t);
            to_json := TraceAnalysisEvidence_to_dict; of_json := TraceAnalysisEvidence_from_dict |}.
  - done.
  - intros [a s ds f n w r e v c o] Hv. unfold TraceAnalysisEvidence_to_dict.
    cbn [capture_summaries omitted_capture_summaries].
    case_bool_decide as Ec; cbn [andb]; [|codec].
    destruct (Z.eqb_spec o 0) as [Eo|Eo]; [subst c o|]; codec.
Defined.

#[export] Instance TraceAnalysisEvidence_sound : JsonSound TraceAnalysisEvidence.
Proof.
  intros j o H. change (TraceAnalysisEvidence_from_dict j = Ok o) in H.
  unfold TraceAnalysisEvidence_from_dict in H. decoded H. apply checked_inv in H as [<- H].
  split; [done|]. cbn [detector_summaries ta_findings]. split; sound_part.
Qed.

(** ** Trace results *)

Record TraceExperimentResult := mkTrace {
  tr_experiment_id : string;
  tr_execution_status : ExecutionStatus;
  tr_mode : ExperimentKind;
  tr_provenance : ExecutionProvenance;
  primary_trace : option ArtifactRef;
  tr_log : option ArtifactRef;
  analysis : option TraceAnalysisEvidence;
  tr_duration_s : float;
  tr_error : option string;
  raw_traces : list ArtifactRef;
  supporting_artifacts : list ArtifactRef;
  tr_completeness : ResultCompleteness;
  analysis_duration_s : float
}.

(** [TraceExperimentResult.__post_init__]: [trace] becomes the alias of
    [traces[0]], and repeated references go. *)
Definition TraceExperimentResult_init (r : TraceExperimentResult) : res exn TraceExperimentResult :=
  if negb (is_trace_kind (tr_mode r)) then Err ValueError
  else if match primary_trace r, raw_traces r with
          | Some t, t0 :: _ => negb (bool_decide (t = t0))
          | _, _ => false
          end then Err ValueError
  else
    let traces := deduplicate_artifact_refs (option_list (primary_trace r) ++ raw_traces r) in
    if negb (bool_decide (NoDup (relative_path <$> traces))) then Err ValueError
    else
      let supporting := deduplicate_artifact_refs (supporting_artifacts r) in
      if existsb (λ a, bool_decide (a ∈ traces)) supporting then Err ValueError
      else Ok (mkTrace (tr_experiment_id r) (tr_execution_status r) (tr_mode r) (tr_provenance r)
                 (head traces) (tr_log r) (analysis r) (tr_duration_s r) (tr_error r)
                 traces supporting (tr_completeness r) (analysis_duration_s r)).

Definition TraceExperimentResult_to_dict (r : TraceExperimentResult) : json :=
  JObj [("kind", to_json (tr_mode r)); ("experiment_id", JStr (tr_experiment_id r));
        ("execution_status", to_json (tr_execution_status r)); ("mode", to_json (tr_mode r));
        ("provenance", to_json (tr_provenance r)); ("trace", jopt to_json (primary_trace r));
        ("traces", jlist to_json (raw_traces r));
        ("supporting_artifacts", jlist to_json (supporting_artifacts r));
        ("log", jopt to_json (tr_log r)); ("analysis", jopt to_json (analysis r));
        ("duration_s", JFloat (tr_duration_s r));
        ("analysis_duration_s", JFloat (analysis_duration_s r)); ("error", jopt JStr (tr_error r));
        ("completeness", to_json (tr_completeness r))].

(** [d.get(k) or []]. *)
Definition get_list (d : obj) (k : string) : dres (list json) :=
  match get d k with JNull => Ok [] | j => as_list j end.

Definition TraceExperimentResult_from_dict (j : json) : dres TraceExperimentResult :=
  d ← as_obj j;
  id ← (x ← req d "experiment_id"; as_str x);
  st ← (x ← req d "execution_status"; of_json x);
  mode ← (k ← req d "kind"; of_json (get_or d "mode" k));
  prov ← (x ← req d "provenance"; of_json x);
  tr ← opt of_json (get d "trace");
  lg ← opt of_json (get d "log");
  an ← opt of_json (get d "analysis");
  dur ← py_float (get_or d "duration_s" (JFloat f_zero));
  adur ← py_float (get_or d "analysis_duration_s" (JFloat f_zero));
  err ← opt as_str (get d "error");
  trs ← (l ← get_list d "traces"; map_res of_json l);
  sup ← (l ← get_list d "supporting_artifacts"; map_res of_json l);
  co ← of_json (get_or d "completeness" (JStr "unknown"));
  normalized TraceExperimentResult_init (mkTrace id st mode prov tr lg an dur err trs sup co adur).

Lemma deduplicate_fromkeys l : deduplicate_artifact_refs l = fromkeys l.
Proof. done. Qed.
Lemma deduplicate_idem l :
  deduplicate_artifact_refs (deduplicate_artifact_refs l) = deduplicate_artifact_refs l.
Proof. exact (fromkeys_idem l). Qed.

Lemma TraceExperimentResult_init_ok r s :
  TraceExperimentResult_init r = Ok s → analysis s = analysis r ∧ TraceExperimentResult_init s = Ok s.
Proof.
  unfold TraceExperimentResult_init. destruct (negb (is_trace_kind (tr_mode r))) eqn:E1; [done|].
  destruct (match primary_trace r with Some _ => _ | None => _ end) eqn:E2; [done|]. cbv zeta.
  rewrite (deduplicate_fromkeys (option_list _ ++ _)).
  pose proof (fromkeys_NoDup (option_list (primary_trace r) ++ raw_traces r)) as Hnd.
  revert Hnd. generalize (fromkeys (option_list (primary_trace r) ++ raw_traces r)) as ts.
  intros ts Hnd. destruct (negb (bool_decide (NoDup (relative_path <$> ts)))) eqn:E3; [done|].
  destruct (existsb _ _) eqn:E4; [done|]. intros H. injection H as <-. split; [done|].
  cbn [tr_mode primary_trace raw_traces supporting_artifacts]. rewrite E1.
  rewrite (deduplicate_fromkeys (option_list _ ++ _)).
  replace (fromkeys (option_list (head ts) ++ ts)) with ts.
  2: { destruct ts as [|t ts]; [done|]. symmetry.
       change (fromkeys_from [] (t :: t :: ts) = t :: ts). rewrite fromkeys_from_cons, decide_False by apply not_elem_of_nil.
       change ([] ++ [t]) with [t]. rewrite fromkeys_from_cons, decide_True by set_solver. by apply (fromkeys_from_NoDup ts [t]). }
  rewrite E3, deduplicate_idem, E4. destruct ts as [|t ts]; [done|]. cbn. by rewrite bool_decide_true.
Qed.
#[global] Arguments TraceExperimentResult_init : simpl never.

Lemma get_list_roundtrip {A} `{JsonCodec A} d k (l : list A) :
  field d k = Some (jlist to_json l) → Forall valid l → (x ← get_list d k; map_res of_json x) = Ok l.
Proof. intros Hf Hv. unfold get_list, get. rewrite Hf. exact (list_codec l Hv). Qed.
#[global] Arguments get_list : simpl never.

#[export] Instance TraceExperimentResult_codec : JsonCodec TraceExperimentResult.
Proof.
  refine {| valid r := TraceExperimentResult_init r = Ok r ∧ valid_opt (analysis r);
            to_json := TraceExperimentResult_to_dict; of_json := TraceExperimentResult_from_dict |}.
  - done.
  - intros [i s m p t l a d e rt sa c ad] [Hi Ha]. cbn [analysis] in Ha.
    unfold TraceExperimentResult_to_dict, TraceExperimentResult_from_dict. codec.
    erewrite get_list_roundtrip; [|reflexivity|codec_side]. cbn [mbind res_bind].
    erewrite get_list_roundtrip; [|reflexivity|codec_side]. codec.
Defined.

#[export] Instance TraceExperimentResult_sound : JsonSound TraceExperimentResult.
Proof.
  intros j o H. change (TraceExperimentResult_from_dict j = Ok o) in H.
  unfold TraceExperimentResult_from_dict in H. decoded H.
  apply normalized_ok, TraceExperimentResult_init_ok in H as [Hsame H]. split; [done|]. rewrite Hsame.
  cbn [analysis]. sound_part.
Qed.

(** ** Reduction results *)

Record EssentialDelayPoint := mkEssential {
  ep_kernel_name : string;
  ep_pc_offset : string;
  ep_sass : string;
  ep_delay_ns : Z
}.

Definition EssentialDelayPoint_to_dict (p : EssentialDelayPoint) : json :=
  JObj [("kernel_name", JStr (ep_kernel_name p)); ("pc_offset", JStr (ep_pc_offset p));
        ("sass", JStr (ep_sass p)); ("delay_ns", JInt (ep_delay_ns p))].

Definition EssentialDelayPoint_from_dict (j : json) : dres EssentialDelayPoint :=
  d ← as_obj j;
  k ← as_str (get_or d "kernel_name" (JStr ""));
  pc ← py_str (get_or d "pc_offset" (JStr ""));
  s ← as_str (get_or d "sass" (JStr ""));
  n ← py_int (get_or d "delay_ns" (JInt 0));
  Ok (mkEssential k pc s n).

#[export] Instance EssentialDelayPoint_codec : JsonCodec EssentialDelayPoint.
Proof.
  refine {| valid _ := True; to_json := EssentialDelayPoint_to_dict;
            of_json := EssentialDelayPoint_from_dict |}.
  - done.
  - intros [k p s n] _; codec.
Defined.

Record ReduceExperimentResult := mkReduceResult {
  rr_experiment_id : string;
  rr_execution_status : ExecutionStatus;
  rr_outcome : ReduceOutcome;
  rr_provenance : ExecutionProvenance;
  input_config : TriggeringDelayConfig;
  minimized_config : option ArtifactRef;
  rr_report : option ArtifactRef;
  essential_points_artifact : option ArtifactRef;
  essential_points : list EssentialDelayPoint;
  rr_duration_s : float;
  rr_error : option string;
  note : string
}.

(** Report and configuration first. *)
Definition artifact_refs (r : ReduceExperimentResult) : list ArtifactRef :=
  option_list (rr_report r) ++ option_list (minimized_config r) ++
  option_list (essential_points_artifact r) ++ [artifact (input_config r)].

#[export] Instance ReduceOutcome_eq_dec : EqDecision ReduceOutcome.
Proof. solve_decision. Defined.

Definition ReduceExperimentResult_to_dict (r : ReduceExperimentResult) : json :=
  JObj [("kind", to_json REDUCE_DELAY_CONFIG); ("experiment_id", JStr (rr_experiment_id r));
        ("execution_status", to_json (rr_execution_status r));
        ("outcome", value_of ReduceOutcome_values (rr_outcome r));
        ("provenance", to_json (rr_provenance r)); ("input_config", to_json (input_config r));
        ("minimized_config", jopt to_json (minimized_config r)); ("report", jopt to_json (rr_report r));
        ("essential_points_artifact", jopt to_json (essential_points_artifact r));
        ("essential_points", jlist to_json (essential_points r));
        ("duration_s", JFloat (rr_duration_s r)); ("error", jopt JStr (rr_error r));
        ("note", JStr (note r))].

Definition ReduceExperimentResult_from_dict (j : json) : dres ReduceExperimentResult :=
  d ← as_obj j;
  id ← (x ← req d "experiment_id"; as_str x);
  st ← (x ← req d "execution_status"; of_json x);
  out ← (x ← req d "outcome"; ReduceOutcome_from_wire x);
  prov ← (x ← req d "provenance"; of_json x);
  cfg ← (x ← req d "input_config"; of_json x);
  min ← opt of_json (get d "minimized_config");
  rep ← opt of_json (get d "report");
  pts ← opt of_json (get d "essential_points_artifact");
  eps ← list_of of_json (get_or d "essential_points" (JList []));
  dur ← py_float (get_or d "duration_s" (JFloat f_zero));
  err ← opt as_str (get d "error");
  nt ← as_str (get_or d "note" (JStr ""));
  Ok (mkReduceResult id st out prov cfg min rep pts eps dur err nt).

(** The outcomes a producer writes: the retired values read as others. *)
Definition current_outcome (o : ReduceOutcome) : Prop :=
  match o with ReplayFailed | ReduceFailed => False | _ => True end.

Lemma current_outcome_roundtrip o :
  current_outcome o → ReduceOutcome_from_wire (value_of ReduceOutcome_values o) = Ok o.
Proof. by destruct o. Qed.

Lemma enum_of_text {A} (values : list (string * A)) j a :
  enum_of values j = Ok a → ∃ s, j = JStr s ∧ (s, a) ∈ values.
Proof.
  unfold enum_of. destruct j as [| | | |s| |]; try done. intros H. exists s. split; [done|].
  rewrite field_dict_get in H. destruct (dict_get values s) as [b|] eqn:E; [|done].
  injection H as <-. by apply dict_get_In.
Qed.

Lemma ReduceOutcome_from_wire_current j o : ReduceOutcome_from_wire j = Ok o → current_outcome o.
Proof.
  intros H.
  assert (ReduceOutcome_from_wire j = enum_of ReduceOutcome_values j ∨
          ReduceOutcome_from_wire j = Ok NonReproducible ∨
          ReduceOutcome_from_wire j = Ok ReduceInfraError) as [E|[E|E]].
  { unfold ReduceOutcome_from_wire. destruct j as [| | | |s| |]; auto. destruct (String.eqb s "replay_failed"), (String.eqb s "failed"); auto. }
  - rewrite E in H. apply enum_of_text in H as (s & -> & Hin).
    unfold ReduceOutcome_values in Hin.
    repeat (apply elem_of_cons in Hin as [Hin|Hin];
      [injection Hin as -> ->; try exact I; by vm_compute in E|]).
    by apply not_elem_of_nil in Hin.
  - rewrite E in H. by injection H as <-.
  - rewrite E in H. by injection H as <-.
Qed.
#[global] Arguments ReduceOutcome_from_wire : simpl never.
#[export] Hint Rewrite current_outcome_roundtrip using assumption : codec.

#[export] Instance ReduceExperimentResult_codec : JsonCodec ReduceExperimentResult.
Proof.
  refine {| valid r := current_outcome (rr_outcome r) ∧ valid (input_config r);
            to_json := ReduceExperimentResult_to_dict; of_json := ReduceExperimentResult_from_dict |}.
  - done.
  - intros [i s o p c m r e ps d er n] [Ho Hc]. cbn [rr_outcome input_config] in *.
    unfold ReduceExperimentResult_to_dict, ReduceExperimentResult_from_dict. codec_cbn. codec.
Defined.

#[export] Instance ReduceExperimentResult_sound : JsonSound ReduceExperimentResult.
Proof.
  intros j o H. change (ReduceExperimentResult_from_dict j = Ok o) in H.
  unfold ReduceExperimentResult_from_dict in H. decoded H. injection H as <-.
  cbn [valid ReduceExperimentResult_codec rr_outcome input_config]. split; [|sound_part].
  match goal with E : (_ ≫= (λ x, ReduceOutcome_from_wire x)) = _ |- _ =>
    apply bind_ok in E as (jo & _ & E); exact (ReduceOutcome_from_wire_current _ _ E) end.
Qed.

(** ** Any result *)

Inductive ExperimentResult :=
| DiscoveryResult (r : KernelDiscoveryResult)
| SweepResult (r : SanitizerSweepResult)
| StressResult (r : StressTestResult)
| TraceResult (r : TraceExperimentResult)
| ReduceResult (r : ReduceExperimentResult).

(** The fields every result has. *)
Definition result_kind (r : ExperimentResult) : ExperimentKind :=
  match r with
  | DiscoveryResult _ => KERNEL_DISCOVERY
  | SweepResult _ => COMPUTE_SANITIZER
  | StressResult _ => RANDOM_DELAY_STRESS
  | TraceResult t => tr_mode t
  | ReduceResult _ => REDUCE_DELAY_CONFIG
  end.
Definition result_id (r : ExperimentResult) : string :=
  match r with
  | DiscoveryResult r => dr_experiment_id r
  | SweepResult r => sw_experiment_id r
  | StressResult r => st_experiment_id r
  | TraceResult r => tr_experiment_id r
  | ReduceResult r => rr_experiment_id r
  end.
Definition result_status (r : ExperimentResult) : ExecutionStatus :=
  match r with
  | DiscoveryResult r => dr_execution_status r
  | SweepResult r => sw_execution_status r
  | StressResult r => st_execution_status r
  | TraceResult r => tr_execution_status r
  | ReduceResult r => rr_execution_status r
  end.
Definition result_provenance (r : ExperimentResult) : ExecutionProvenance :=
  match r with
  | DiscoveryResult r => dr_provenance r
  | SweepResult r => sw_provenance r
  | StressResult r => st_provenance r
  | TraceResult r => tr_provenance r
  | ReduceResult r => rr_provenance r
  end.

Definition ExperimentResult_to_dict (r : ExperimentResult) : json :=
  match r with
  | DiscoveryResult r => to_json r
  | SweepResult r => to_json r
  | StressResult r => to_json r
  | TraceResult r => to_json r
  | ReduceResult r => to_json r
  end.

(** [experiment_result_from_dict]. *)
Definition experiment_result_from_dict (j : json) : dres ExperimentResult :=
  d ← as_obj j;
  kind ← (x ← req d "kind"; of_json x);
  match kind with
  | KERNEL_DISCOVERY => r ← of_json j; Ok (DiscoveryResult r)
  | COMPUTE_SANITIZER => r ← of_json j; Ok (SweepResult r)
  | RANDOM_DELAY_STRESS => r ← of_json j; Ok (StressResult r)
  | REG_TRACE | MEM_VALUE_TRACE => r ← of_json j; Ok (TraceResult r)
  | REDUCE_DELAY_CONFIG => r ← of_json j; Ok (ReduceResult r)
  end.

Definition ExperimentResult_valid (r : ExperimentResult) : Prop :=
  match r with
  | DiscoveryResult r => valid r
  | SweepResult r => valid r
  | StressResult r => valid r
  | TraceResult r => valid r
  | ReduceResult r => valid r
  end.

Lemma trace_mode_of_init r s : TraceExperimentResult_init r = Ok s → is_trace_kind (tr_mode r) = true.
Proof. unfold TraceExperimentResult_init. by destruct (is_trace_kind (tr_mode r)). Qed.

(** The [kind] a result is written with selects the class it is read by. *)
Lemma result_kind_selects {A} (r : ExperimentResult) (f : ExperimentKind → dres A) :
  (d ← as_obj (ExperimentResult_to_dict r); kind ← (x ← req d "kind"; of_json x); f kind)
  = f (result_kind r).
Proof. destruct r as [r|r|r|r|r]; cbn; [done|done|done| |done]. by destruct (tr_mode r). Qed.

#[export] Instance ExperimentResult_codec : JsonCodec ExperimentResult.
Proof.
  refine {| valid := ExperimentResult_valid; to_json := ExperimentResult_to_dict;
            of_json := experiment_result_from_dict |}.
  - by intros [].
  - intros r Hv. unfold experiment_result_from_dict.
    rewrite (result_kind_selects r (λ kind, match kind with KERNEL_DISCOVERY => _ | _ => _ end)).
    destruct r as [r|r|r|r|r]; cbn [result_kind ExperimentResult_to_dict];
      [by rewrite of_to_json..| |by rewrite of_to_json].
    destruct Hv as [Hi Ha]. pose proof (trace_mode_of_init r r Hi) as Hm.
    destruct (tr_mode r); try done; by rewrite of_to_json by (split; done).
Defined.

#[export] Instance ExperimentResult_sound : JsonSound ExperimentResult.
Proof.
  intros j r H. change (experiment_result_from_dict j = Ok r) in H.
  unfold experiment_result_from_dict in H. apply bind_ok in H as (d & _ & H).
  apply bind_ok in H as (k & _ & H).
  destruct k; apply bind_ok in H as (x & Hx & H); injection H as <-; cbn;
    first [exact I | exact (of_json_valid _ _ Hx)].
Qed.
