(* ===== verification/SessionContracts.v ===== *)
(** Wire contracts, fourth part: what the reasoner reads and writes, the evidence
    of a session and the session itself, from
    src/python/cutracer/service/contracts.py. *)
From S2P Require Import Prelude.
From S2P Require Import PyStr.
From S2P Require Import PyDict.
From S2P Require Import Json.
From S2P Require Import PyText.
From S2P Require Import Sha256.
From S2P Require Import Contracts.
From S2P Require Import Results.
From S2P Require Import Experiments.
From Stdlib Require Import Ascii.
Local Open Scope Z_scope.

(** ** Explanations *)

Record ConfirmVerdict := mkConfirm {
  cv_status : ConfirmStatus;
  cv_rate : float;
  cv_delay_ns : option Z;
  cv_warpgroup : option Z
}.

#[export] Instance ConfirmStatus_eq_dec : EqDecision ConfirmStatus.
Proof. solve_decision. Defined.
#[export] Instance Confidence_eq_dec : EqDecision Confidence.
Proof. solve_decision. Defined.
#[export] Instance ConfirmStatus_codec : JsonCodec ConfirmStatus :=
  enum_codec ConfirmStatus_values (enum_of ConfirmStatus_values) ltac:(intros a; enum_ok).
#[export] Instance Confidence_codec : JsonCodec Confidence :=
  enum_codec Confidence_values (enum_of Confidence_values) ltac:(intros a; enum_ok).

Definition ConfirmVerdict_to_dict (c : ConfirmVerdict) : json :=
  JObj [("status", to_json (cv_status c)); ("rate", JFloat (cv_rate c));
        ("delay_ns", jopt JInt (cv_delay_ns c)); ("warpgroup", jopt JInt (cv_warpgroup c))].

Definition ConfirmVerdict_from_dict (j : json) : dres ConfirmVerdict :=
  d0 ← as_obj j;
  let d := known ["status"; "rate"; "delay_ns"; "warpgroup"] d0 in
  st ← (x ← req d "status"; of_json x);
  rate ← (x ← req d "rate"; py_float x);
  delay ← opt py_int (get d "delay_ns");
  wg ← opt py_int (get d "warpgroup");
  Ok (mkConfirm st rate delay wg).

#[export] Instance ConfirmVerdict_codec : JsonCodec ConfirmVerdict.
Proof.
  refine {| valid _ := True; to_json := ConfirmVerdict_to_dict; of_json := ConfirmVerdict_from_dict |}.
  - done.
  - intros [s r d w] _; codec.
Defined.

Record CrossValidation := mkCross {
  agrees : bool;
  notes : string
}.

Definition CrossValidation_to_dict (c : CrossValidation) : json :=
  JObj [("agrees", JBool (agrees c)); ("notes", JStr (notes c))].

Definition CrossValidation_from_dict (j : json) : dres CrossValidation :=
  d0 ← as_obj j;
  let d := known ["agrees"; "notes"] d0 in
  ag ← req d "agrees";
  n ← (x ← req d "notes"; as_str x);
  Ok (mkCross (as_bool ag) n).

#[export] Instance CrossValidation_codec : JsonCodec CrossValidation.
Proof.
  refine {| valid _ := True; to_json := CrossValidation_to_dict; of_json := CrossValidation_from_dict |}.
  - done.
  - intros [a n] _; codec.
Defined.

Record ExplainInput := mkExplainInput {
  ei_unit_id : string;
  ei_kernel : KernelId;
  ei_arch : string;
  ei_tool : string;
  ei_error_type : string;
  ei_source : SourceLoc;
  sani_log_path : option string;
  repro_cmd : string;
  trace_path : option string;
  confirm_verdict : option ConfirmVerdict
}.

Definition ExplainInput_to_dict (e : ExplainInput) : json :=
  JObj [("unit_id", JStr (ei_unit_id e)); ("kernel", to_json (ei_kernel e)); ("arch", JStr (ei_arch e));
        ("tool", JStr (ei_tool e)); ("error_type", JStr (ei_error_type e));
        ("source", to_json (ei_source e)); ("sani_log_path", jopt JStr (sani_log_path e));
        ("repro_cmd", JStr (repro_cmd e)); ("trace_path", jopt JStr (trace_path e));
        ("confirm_verdict", jopt to_json (confirm_verdict e))].

Definition ExplainInput_from_dict (j : json) : dres ExplainInput :=
  d0 ← as_obj j;
  let d := known ["unit_id"; "kernel"; "arch"; "tool"; "error_type"; "source"; "sani_log_path";
                  "repro_cmd"; "trace_path"; "confirm_verdict"] d0 in
  id ← (x ← req d "unit_id"; as_str x);
  k ← (x ← req d "kernel"; of_json x);
  ar ← (x ← req d "arch"; as_str x);
  tool ← (x ← req d "tool"; as_str x);
  err ← (x ← req d "error_type"; as_str x);
  src ← (x ← req d "source"; of_json x);
  lg ← opt as_str (get d "sani_log_path");
  cmd ← (x ← req d "repro_cmd"; as_str x);
  tr ← opt as_str (get d "trace_path");
  cv ← opt of_json (get d "confirm_verdict");
  Ok (mkExplainInput id k ar tool err src lg cmd tr cv).

#[export] Instance ExplainInput_codec : JsonCodec ExplainInput.
Proof.
  refine {| valid _ := True; to_json := ExplainInput_to_dict; of_json := ExplainInput_from_dict |}.
  - done.
  - intros [i k a t e s l c p v] _; codec.
Defined.

Record ExplainReport := mkReport {
  root_cause : string;
  race_class : RaceClass;
  confidence : Confidence;
  is_reproduced : bool;
  cross_validation : CrossValidation;
  evidence_sufficiency : EvidenceSufficiency;
  evidence_refs : list string;
  recommended_action : string;
  raw_ai_output : string
}.

Definition ExplainReport_to_dict (r : ExplainReport) : json :=
  JObj [("root_cause", JStr (root_cause r)); ("race_class", to_json (race_class r));
        ("confidence", to_json (confidence r)); ("is_reproduced", JBool (is_reproduced r));
        ("cross_validation", to_json (cross_validation r));
        ("evidence_sufficiency", to_json (evidence_sufficiency r));
        ("evidence_refs", jlist JStr (evidence_refs r));
        ("recommended_action", JStr (recommended_action r)); ("raw_ai_output", JStr (raw_ai_output r))].

Definition ExplainReport_from_dict (j : json) : dres ExplainReport :=
  d0 ← as_obj j;
  let d := known ["root_cause"; "race_class"; "confidence"; "is_reproduced"; "cross_validation";
                  "evidence_sufficiency"; "evidence_refs"; "recommended_action"; "raw_ai_output"] d0 in
  rc ← (x ← req d "root_cause"; as_str x);
  cl ← (x ← req d "race_class"; of_json x);
  co ← (x ← req d "confidence"; of_json x);
  rep ← req d "is_reproduced";
  cv ← (x ← req d "cross_validation"; of_json x);
  es ← (x ← req d "evidence_sufficiency"; of_json x);
  refs ← list_of as_str (get_or d "evidence_refs" (JList []));
  act ← (x ← req d "recommended_action"; as_str x);
  raw ← (x ← req d "raw_ai_output"; as_str x);
  Ok (mkReport rc cl co (as_bool rep) cv es refs act raw).

#[export] Instance ExplainReport_codec : JsonCodec ExplainReport.
Proof.
  refine {| valid _ := True; to_json := ExplainReport_to_dict; of_json := ExplainReport_from_dict |}.
  - done.
  - intros [r c f i v s e a w] _; codec.
Defined.

(** ** Dispatch *)

(** [experiment_dispatch_key]. *)
Definition experiment_dispatch_key (session_id experiment_id : string) (revision : Z) : string :=
  "dispatch-" +:+ str (sha256_hexdigest (json_dumps
    (JObj [("analyzed_state_revision", JInt revision); ("experiment_id", JStr experiment_id);
           ("session_id", JStr session_id)]))).

Record ExperimentDispatchBinding := mkBinding {
  db_session_id : string;
  db_experiment_id : string;
  analyzed_state_revision : Z;
  dispatch_key : string
}.

(** [ExperimentDispatchBinding.__post_init__]; a payload's revision that is not
    an [int] is refused where it is read. *)
Definition ExperimentDispatchBinding_check (b : ExperimentDispatchBinding) : res exn () :=
  if blank (db_session_id b) then Err ValueError
  else if blank (db_experiment_id b) then Err ValueError
  else if analyzed_state_revision b <? 0 then Err ValueError
  else if negb (bool_decide (dispatch_key b =
            experiment_dispatch_key (db_session_id b) (db_experiment_id b) (analyzed_state_revision b)))
  then Err ValueError
  else Ok ().

Definition create_binding (session_id experiment_id : string) (revision : Z) :
    res exn ExperimentDispatchBinding :=
  let b := mkBinding session_id experiment_id revision
             (experiment_dispatch_key session_id experiment_id revision) in
  _ ← ExperimentDispatchBinding_check b; Ok b.

Definition validate_experiment_identity (b : ExperimentDispatchBinding) (session_id experiment_id : string) :
    res exn () :=
  if negb (bool_decide (db_session_id b = session_id)) then Err ValueError
  else if negb (bool_decide (db_experiment_id b = experiment_id)) then Err ValueError
  else Ok ().

Definition ExperimentDispatchBinding_to_dict (b : ExperimentDispatchBinding) : json :=
  JObj [("session_id", JStr (db_session_id b)); ("experiment_id", JStr (db_experiment_id b));
        ("analyzed_state_revision", JInt (analyzed_state_revision b));
        ("dispatch_key", JStr (dispatch_key b))].

Definition ExperimentDispatchBinding_from_dict (j : json) : dres ExperimentDispatchBinding :=
  d ← as_obj j;
  sid ← (x ← req d "session_id"; as_str x);
  eid ← (x ← req d "experiment_id"; as_str x);
  rev ← (x ← req d "analyzed_state_revision"; strict_int x);
  key ← (x ← req d "dispatch_key"; as_str x);
  checked ExperimentDispatchBinding_check (mkBinding sid eid rev key).

#[global] Arguments ExperimentDispatchBinding_check : simpl never.
#[global] Arguments experiment_dispatch_key : simpl never.

#[export] Instance ExperimentDispatchBinding_codec : JsonCodec ExperimentDispatchBinding.
Proof.
  refine {| valid b := ExperimentDispatchBinding_check b = Ok ();
            to_json := ExperimentDispatchBinding_to_dict;
            of_json := ExperimentDispatchBinding_from_dict |}.
  - done.
  - intros [s e r k] Hv; codec.
Defined.

Definition EXPERIMENT_ENVELOPE_SCHEMA_VERSION : Z := 1.

Record ExperimentEnvelope := mkEnvelope {
  en_session_id : string;
  en_experiment_id : string;
  en_revision : Z;
  en_dispatch_key : string;
  en_result : ExperimentResult;
  en_schema_version : Z
}.

Definition envelope_binding (e : ExperimentEnvelope) : ExperimentDispatchBinding :=
  mkBinding (en_session_id e) (en_experiment_id e) (en_revision e) (en_dispatch_key e).

(** [ExperimentEnvelope.__post_init__]. *)
Definition ExperimentEnvelope_check (e : ExperimentEnvelope) : res exn () :=
  if negb (en_schema_version e =? EXPERIMENT_ENVELOPE_SCHEMA_VERSION) then Err ValueError
  else
    _ ← ExperimentDispatchBinding_check (envelope_binding e);
    if negb (bool_decide (result_id (en_result e) = en_experiment_id e)) then Err ValueError
    else Ok ().

Definition bind_envelope (b : ExperimentDispatchBinding) (r : ExperimentResult) : res exn ExperimentEnvelope :=
  let e := mkEnvelope (db_session_id b) (db_experiment_id b) (analyzed_state_revision b)
             (dispatch_key b) r EXPERIMENT_ENVELOPE_SCHEMA_VERSION in
  _ ← ExperimentEnvelope_check e; Ok e.

Definition ExperimentEnvelope_to_dict (e : ExperimentEnvelope) : json :=
  JObj [("schema_version", JInt (en_schema_version e)); ("session_id", JStr (en_session_id e));
        ("experiment_id", JStr (en_experiment_id e)); ("analyzed_state_revision", JInt (en_revision e));
        ("dispatch_key", JStr (en_dispatch_key e)); ("result", to_json (en_result e))].

Definition ExperimentEnvelope_from_dict (j : json) : dres ExperimentEnvelope :=
  d ← as_obj j;
  sid ← (x ← req d "session_id"; as_str x);
  eid ← (x ← req d "experiment_id"; as_str x);
  rev ← (x ← req d "analyzed_state_revision"; strict_int x);
  key ← (x ← req d "dispatch_key"; as_str x);
  r ← (x ← req d "result"; of_json x);
  v ← strict_int (get_or d "schema_version" (JInt 0));
  checked ExperimentEnvelope_check (mkEnvelope sid eid rev key r v).

#[global] Arguments ExperimentEnvelope_check : simpl never.

#[export] Instance ExperimentEnvelope_codec : JsonCodec ExperimentEnvelope.
Proof.
  refine {| valid e := ExperimentEnvelope_check e = Ok () ∧ valid (en_result e);
            to_json := ExperimentEnvelope_to_dict; of_json := ExperimentEnvelope_from_dict |}.
  - done.
  - intros [s e r k x v] Hv; codec.
Defined.

#[export] Instance ExperimentEnvelope_sound : JsonSound ExperimentEnvelope.
Proof.
  intros j e H. change (ExperimentEnvelope_from_dict j = Ok e) in H.
  unfold ExperimentEnvelope_from_dict in H. decoded H. apply checked_inv in H as [<- H].
  split; [done|]. cbn [en_result]. sound_part.
Qed.

(** ** Evidence *)

Record EvidenceBundle := mkBundle {
  eb_discovery : list KernelDiscoveryResult;
  eb_sanitizer : list SanitizerSweepResult;
  eb_stress : list StressTestResult;
  eb_traces : list TraceExperimentResult;
  eb_reductions : list ReduceExperimentResult
}.

Definition empty_bundle : EvidenceBundle := mkBundle [] [] [] [] [].

(** [EvidenceBundle.add]. *)
Definition bundle_add (e : EvidenceBundle) (r : ExperimentResult) : EvidenceBundle :=
  let '(mkBundle d s t tr rd) := e in
  match r with
  | DiscoveryResult x => mkBundle (d ++ [x]) s t tr rd
  | SweepResult x => mkBundle d (s ++ [x]) t tr rd
  | StressResult x => mkBundle d s (t ++ [x]) tr rd
  | TraceResult x => mkBundle d s t (tr ++ [x]) rd
  | ReduceResult x => mkBundle d s t tr (rd ++ [x])
  end.

(** [EvidenceBundle.triggering_config]: the first one there is. *)
Definition bundle_triggering_config (e : EvidenceBundle) : option TriggeringDelayConfig :=
  head (omap triggering_config (eb_stress e)).

Definition EvidenceBundle_to_dict (e : EvidenceBundle) : json :=
  JObj [("discovery", jlist to_json (eb_discovery e)); ("sanitizer", jlist to_json (eb_sanitizer e));
        ("stress", jlist to_json (eb_stress e)); ("traces", jlist to_json (eb_traces e));
        ("reductions", jlist to_json (eb_reductions e))].

Definition EvidenceBundle_from_dict (j : json) : dres EvidenceBundle :=
  d ← as_obj j;
  di ← list_of of_json (get_or d "discovery" (JList []));
  sa ← list_of of_json (get_or d "sanitizer" (JList []));
  st ← list_of of_json (get_or d "stress" (JList []));
  tr ← list_of of_json (get_or d "traces" (JList []));
  rd ← list_of of_json (get_or d "reductions" (JList []));
  Ok (mkBundle di sa st tr rd).

#[export] Instance EvidenceBundle_codec : JsonCodec EvidenceBundle.
Proof.
  refine {| valid e := Forall valid (eb_discovery e) ∧ Forall valid (eb_stress e) ∧
              Forall valid (eb_traces e) ∧ Forall valid (eb_reductions e);
            to_json := EvidenceBundle_to_dict; of_json := EvidenceBundle_from_dict |}.
  - done.
  - intros [d s t tr r] (H1 & H2 & H3 & H4). cbn [eb_discovery eb_stress eb_traces eb_reductions] in *.
    unfold EvidenceBundle_to_dict, EvidenceBundle_from_dict. codec.
Defined.

#[export] Instance EvidenceBundle_sound : JsonSound EvidenceBundle.
Proof.
  intros j e H. change (EvidenceBundle_from_dict j = Ok e) in H. unfold EvidenceBundle_from_dict in H.
  decoded H. injection H as <-. cbn [valid EvidenceBundle_codec eb_discovery eb_stress eb_traces eb_reductions].
  split_and!; sound_part.
Qed.

Lemma bundle_add_valid e r : valid e → valid r → valid (bundle_add e r).
Proof.
  intros (H1 & H2 & H3 & H4) Hr. destruct e as [d s t tr rd], r as [r|r|r|r|r];
    cbn [eb_discovery eb_stress eb_traces eb_reductions bundle_add] in *;
    cbn [valid EvidenceBundle_codec eb_discovery eb_stress eb_traces eb_reductions];
    split_and!; try done; apply Forall_app; split; try done; by apply Forall_singleton.
Qed.

(** ** Decisions *)

Record ExperimentRequest := mkRequest {
  rq_kind : ExperimentKind;
  rq_rationale : string;
  trace_selector : option TraceSelector;
  rq_instrument_modes : list string
}.

(** [ExperimentRequest.__post_init__]. *)
Definition ExperimentRequest_init (r : ExperimentRequest) : res exn ExperimentRequest :=
  if bool_decide (rq_kind r = KERNEL_DISCOVERY) then Err ValueError
  else if is_some (trace_selector r) && negb (is_trace_kind (rq_kind r)) then Err ValueError
  else if negb (bool_decide (rq_instrument_modes r = [])) && negb (is_trace_kind (rq_kind r))
  then Err ValueError
  else match trace_instrument_modes (rq_kind r) (rq_instrument_modes r) with
       | Err _ => Err ValueError
       | Ok modes => Ok (mkRequest (rq_kind r) (rq_rationale r) (trace_selector r) modes)
       end.

Definition ExperimentRequest_to_dict (r : ExperimentRequest) : json :=
  JObj ([("kind", to_json (rq_kind r)); ("rationale", JStr (rq_rationale r));
         ("trace_selector", jopt to_json (trace_selector r))] ++
        if bool_decide (rq_instrument_modes r = []) then []
        else [("instrument_modes", jlist JStr (rq_instrument_modes r))]).

Definition ExperimentRequest_from_dict (j : json) : dres ExperimentRequest :=
  d ← as_obj j;
  k ← (x ← req d "kind"; of_json x);
  why ← as_str (get_or d "rationale" (JStr ""));
  sel ← opt of_json (get d "trace_selector");
  modes ← mode_list (get_or d "instrument_modes" (JList []));
  normalized ExperimentRequest_init (mkRequest k why sel modes).

Lemma ExperimentRequest_init_ok r s :
  ExperimentRequest_init r = Ok s →
  trace_selector s = trace_selector r ∧ rq_kind s = rq_kind r ∧ ExperimentRequest_init s = Ok s.
Proof.
  unfold ExperimentRequest_init. destruct (bool_decide (rq_kind r = KERNEL_DISCOVERY)) eqn:E1; [done|].
  destruct (is_some (trace_selector r) && _) eqn:E2; [done|].
  destruct (negb _ && negb _) eqn:E3; [done|].
  destruct (trace_instrument_modes _ _) as [m|] eqn:E4; [|done]. intros H. injection H as <-.
  cbn [rq_kind trace_selector rq_instrument_modes rq_rationale]. split_and!; [done..|].
  rewrite E1, E2, (trace_instrument_modes_idem _ _ _ E4).
  destruct (is_trace_kind (rq_kind r)) eqn:Ek; [by rewrite andb_false_r|].
  destruct (bool_decide (rq_instrument_modes r = [])) eqn:Em; [|done].
  apply bool_decide_eq_true in Em. rewrite Em in E4. unfold trace_instrument_modes in E4.
  cbn in E4. injection E4 as <-. done.
Qed.
#[global] Arguments ExperimentRequest_init : simpl never.

#[export] Instance ExperimentRequest_codec : JsonCodec ExperimentRequest.
Proof.
  refine {| valid r := ExperimentRequest_init r = Ok r ∧ valid_opt (trace_selector r);
            to_json := ExperimentRequest_to_dict; of_json := ExperimentRequest_from_dict |}.
  - done.
  - intros [k w s m] [Hi Hs]. cbn [trace_selector] in Hs. unfold ExperimentRequest_to_dict.
    cbn [rq_instrument_modes]. destruct m as [|x m]; unfold ExperimentRequest_from_dict; codec.
Defined.

#[export] Instance ExperimentRequest_sound : JsonSound ExperimentRequest.
Proof.
  intros j r H. change (ExperimentRequest_from_dict j = Ok r) in H. unfold ExperimentRequest_from_dict in H.
  decoded H. apply normalized_ok, ExperimentRequest_init_ok in H as (Hs & _ & H). split; [done|].
  rewrite Hs. cbn [trace_selector]. sound_part.
Qed.

Inductive DecisionKind := FinalDecision | FollowupRequired | InconclusiveDecision.

#[export] Instance DecisionKind_eq_dec : EqDecision DecisionKind.
Proof. solve_decision. Defined.

Definition DecisionKind_values : list (string * DecisionKind) :=
  [("final", FinalDecision); ("followup_required", FollowupRequired);
   ("inconclusive", InconclusiveDecision)].

#[export] Instance DecisionKind_codec : JsonCodec DecisionKind :=
  enum_codec DecisionKind_values (enum_of DecisionKind_values) ltac:(intros a; enum_ok).

Record AnalysisDecision := mkDecision {
  ad_kind : DecisionKind;
  ad_rationale : string;
  ad_report : option ExplainReport;
  requests : list ExperimentRequest
}.

Definition AnalysisDecision_check (d : AnalysisDecision) : res exn () :=
  if bool_decide (ad_kind d = FollowupRequired) && bool_decide (length (requests d) = 0%nat)
  then Err ValueError
  else if negb (bool_decide (ad_kind d = FollowupRequired)) && negb (is_some (ad_report d))
  then Err ValueError
  else Ok ().

Definition AnalysisDecision_to_dict (d : AnalysisDecision) : json :=
  JObj [("kind", to_json (ad_kind d)); ("rationale", JStr (ad_rationale d));
        ("report", jopt to_json (ad_report d)); ("requests", jlist to_json (requests d))].

Definition AnalysisDecision_from_dict (j : json) : dres AnalysisDecision :=
  d ← as_obj j;
  k ← (x ← req d "kind"; of_json x);
  why ← as_str (get_or d "rationale" (JStr ""));
  rep ← opt of_json (get d "report");
  rqs ← list_of of_json (get_or d "requests" (JList []));
  checked AnalysisDecision_check (mkDecision k why rep rqs).

#[global] Arguments AnalysisDecision_check : simpl never.

#[export] Instance AnalysisDecision_codec : JsonCodec AnalysisDecision.
Proof.
  refine {| valid d := AnalysisDecision_check d = Ok () ∧ Forall valid (requests d);
            to_json := AnalysisDecision_to_dict; of_json := AnalysisDecision_from_dict |}.
  - done.
  - intros [k w r q] [Hc Hr]. cbn [requests] in Hr.
    unfold AnalysisDecision_to_dict, AnalysisDecision_from_dict; codec.
Defined.

#[export] Instance AnalysisDecision_sound : JsonSound AnalysisDecision.
Proof.
  intros j d H. change (AnalysisDecision_from_dict j = Ok d) in H. unfold AnalysisDecision_from_dict in H.
  decoded H. apply checked_inv in H as [<- H]. split; [done|]. cbn [requests]. sound_part.
Qed.

Record SessionBudget := mkSessionBudget {
  max_rounds : Z;
  max_experiments : Z
}.

Definition SessionBudget_check (b : SessionBudget) : res exn () :=
  if max_rounds b <? 0 then Err ValueError
  else if max_experiments b <? 0 then Err ValueError
  else Ok ().

Definition SessionBudget_to_dict (b : SessionBudget) : json :=
  JObj [("max_rounds", JInt (max_rounds b)); ("max_experiments", JInt (max_experiments b))].

Definition SessionBudget_from_dict (j : json) : dres SessionBudget :=
  d ← as_obj j;
  r ← py_int (get_or d "max_rounds" (JInt 2));
  e ← py_int (get_or d "max_experiments" (JInt 8));
  checked SessionBudget_check (mkSessionBudget r e).

#[export] Instance SessionBudget_codec : JsonCodec SessionBudget.
Proof.
  refine {| valid b := SessionBudget_check b = Ok (); to_json := SessionBudget_to_dict;
            of_json := SessionBudget_from_dict |}.
  - done.
  - intros [r e] Hv; codec.
Defined.

#[export] Instance SessionBudget_sound : JsonSound SessionBudget.
Proof.
  intros j b H. change (SessionBudget_from_dict j = Ok b) in H. unfold SessionBudget_from_dict in H.
  decoded H. by apply checked_inv in H as [<- H].
Qed.

Record AnalysisTurn := mkTurn {
  turn_index : Z;
  decision : AnalysisDecision;
  guard_notes : list string
}.

Definition AnalysisTurn_to_dict (t : AnalysisTurn) : json :=
  JObj [("turn_index", JInt (turn_index t)); ("decision", to_json (decision t));
        ("guard_notes", jlist JStr (guard_notes t))].

Definition AnalysisTurn_from_dict (j : json) : dres AnalysisTurn :=
  d ← as_obj j;
  i ← (x ← req d "turn_index"; py_int x);
  de ← (x ← req d "decision"; of_json x);
  ns ← list_of as_str (get_or d "guard_notes" (JList []));
  Ok (mkTurn i de ns).

#[export] Instance AnalysisTurn_codec : JsonCodec AnalysisTurn.
Proof.
  refine {| valid t := valid (decision t); to_json := AnalysisTurn_to_dict;
            of_json := AnalysisTurn_from_dict |}.
  - done.
  - intros [i d n] Hv. cbn [decision] in Hv. unfold AnalysisTurn_to_dict, AnalysisTurn_from_dict; codec.
Defined.

#[export] Instance AnalysisTurn_sound : JsonSound AnalysisTurn.
Proof.
  intros j t H. change (AnalysisTurn_from_dict j = Ok t) in H. unfold AnalysisTurn_from_dict in H.
  decoded H. injection H as <-. cbn [valid AnalysisTurn_codec decision]. sound_part.
Qed.

Record ExperimentRecord := mkRecord {
  er_experiment_id : string;
  er_kind : ExperimentKind;
  er_phase : ExperimentPhase;
  er_round_index : Z;
  er_execution_status : ExecutionStatus;
  er_outcome : string;
  er_completeness : string
}.

Definition ExperimentRecord_to_dict (r : ExperimentRecord) : json :=
  JObj [("experiment_id", JStr (er_experiment_id r)); ("kind", to_json (er_kind r));
        ("phase", to_json (er_phase r)); ("round_index", JInt (er_round_index r));
        ("execution_status", to_json (er_execution_status r)); ("outcome", JStr (er_outcome r));
        ("completeness", JStr (er_completeness r))].

Definition ExperimentRecord_from_dict (j : json) : dres ExperimentRecord :=
  d ← as_obj j;
  id ← (x ← req d "experiment_id"; as_str x);
  k ← (x ← req d "kind"; of_json x);
  ph ← (x ← req d "phase"; of_json x);
  rd ← py_int (get_or d "round_index" (JInt 0));
  st ← (x ← req d "execution_status"; of_json x);
  out ← as_str (get_or d "outcome" (JStr ""));
  co ← as_str (get_or d "completeness" (JStr ""));
  Ok (mkRecord id k ph rd st out co).

#[export] Instance ExperimentRecord_codec : JsonCodec ExperimentRecord.
Proof.
  refine {| valid _ := True; to_json := ExperimentRecord_to_dict; of_json := ExperimentRecord_from_dict |}.
  - done.
  - intros [i k p r s o c] _; codec.
Defined.

#[export] Instance TriageDecision_sound : JsonSound TriageDecision.
Proof.
  intros j t H. change (TriageDecision_from_dict j = Ok t) in H. unfold TriageDecision_from_dict in H.
  decoded H. injection H as <-. cbn [valid TriageDecision_codec td_snapshot]. sound_part.
Qed.

(** ** Sessions *)

Definition ANALYSIS_SESSION_SCHEMA_VERSION : Z := 7.
Definition MIN_ANALYSIS_SESSION_SCHEMA_VERSION : Z := 3.

Record AnalysisSession := mkSession {
  sn_session_id : string;
  sn_unit : WorkUnit;
  sn_status : SessionStatus;
  sn_evidence : EvidenceBundle;
  sn_budget : SessionBudget;
  sn_pending : list ExperimentSpec;
  sn_completed : list string;
  sn_fingerprints : list string;
  sn_round_index : Z;
  sn_submitted : Z;
  sn_turns : list AnalysisTurn;
  sn_report : option ExplainReport;
  sn_triage : option TriageDecision;
  sn_history : list ExperimentRecord;
  sn_discovery_plan : option KernelDiscoveryOptions;
  sn_child_tools : list string;
  sn_child_enable_stress : bool;
  sn_child_stress : option StressOptions;
  sn_child_session_ids : list string;
  sn_termination_reason : string;
  sn_publication : ReportPublicationStatus;
  sn_publication_error : string;
  sn_state_revision : Z;
  sn_schema_version : Z;
  sn_admission_digest : option string;
  sn_published_report : option ArtifactRef
}.

(** Assignments to the fields the transitions change. *)
Definition set_status (x : SessionStatus) (s : AnalysisSession) : AnalysisSession :=
  mkSession (sn_session_id s) (sn_unit s) x (sn_evidence s) (sn_budget s) (sn_pending s)
    (sn_completed s) (sn_fingerprints s) (sn_round_index s) (sn_submitted s) (sn_turns s)
    (sn_report s) (sn_triage s) (sn_history s) (sn_discovery_plan s) (sn_child_tools s)
    (sn_child_enable_stress s) (sn_child_stress s) (sn_child_session_ids s)
    (sn_termination_reason s) (sn_publication s) (sn_publication_error s) (sn_state_revision s)
    (sn_schema_version s) (sn_admission_digest s) (sn_published_report s).
Definition set_evidence (x : EvidenceBundle) (s : AnalysisSession) : AnalysisSession :=
  mkSession (sn_session_id s) (sn_unit s) (sn_status s) x (sn_budget s) (sn_pending s)
    (sn_completed s) (sn_fingerprints s) (sn_round_index s) (sn_submitted s) (sn_turns s)
    (sn_report s) (sn_triage s) (sn_history s) (sn_discovery_plan s) (sn_child_tools s)
    (sn_child_enable_stress s) (sn_child_stress s) (sn_child_session_ids s)
    (sn_termination_reason s) (sn_publication s) (sn_publication_error s) (sn_state_revision s)
    (sn_schema_version s) (sn_admission_digest s) (sn_published_report s).
Definition set_pending (x : list ExperimentSpec) (s : AnalysisSession) : AnalysisSession :=
  mkSession (sn_session_id s) (sn_unit s) (sn_status s) (sn_evidence s) (sn_budget s) x
    (sn_completed s) (sn_fingerprints s) (sn_round_index s) (sn_submitted s) (sn_turns s)
    (sn_report s) (sn_triage s) (sn_history s) (sn_discovery_plan s) (sn_child_tools s)
    (sn_child_enable_stress s) (sn_child_stress s) (sn_child_session_ids s)
    (sn_termination_reason s) (sn_publication s) (sn_publication_error s) (sn_state_revision s)
    (sn_schema_version s) (sn_admission_digest s) (sn_published_report s).
Definition set_completed (x : list string) (s : AnalysisSession) : AnalysisSession :=
  mkSession (sn_session_id s) (sn_unit s) (sn_status s) (sn_evidence s) (sn_budget s)
    (sn_pending s) x (sn_fingerprints s) (sn_round_index s) (sn_submitted s) (sn_turns s)
    (sn_report s) (sn_triage s) (sn_history s) (sn_discovery_plan s) (sn_child_tools s)
    (sn_child_enable_stress s) (sn_child_stress s) (sn_child_session_ids s)
    (sn_termination_reason s) (sn_publication s) (sn_publication_error s) (sn_state_revision s)
    (sn_schema_version s) (sn_admission_digest s) (sn_published_report s).
Definition set_fingerprints (x : list string) (s : AnalysisSession) : AnalysisSession :=
  mkSession (sn_session_id s) (sn_unit s) (sn_status s) (sn_evidence s) (sn_budget s)
    (sn_pending s) (sn_completed s) x (sn_round_index s) (sn_submitted s) (sn_turns s)
    (sn_report s) (sn_triage s) (sn_history s) (sn_discovery_plan s) (sn_child_tools s)
    (sn_child_enable_stress s) (sn_child_stress s) (sn_child_session_ids s)
    (sn_termination_reason s) (sn_publication s) (sn_publication_error s) (sn_state_revision s)
    (sn_schema_version s) (sn_admission_digest s) (sn_published_report s).
Definition set_round_index (x : Z) (s : AnalysisSession) : AnalysisSession :=
  mkSession (sn_session_id s) (sn_unit s) (sn_status s) (sn_evidence s) (sn_budget s)
    (sn_pending s) (sn_completed s) (sn_fingerprints s) x (sn_submitted s) (sn_turns s)
    (sn_report s) (sn_triage s) (sn_history s) (sn_discovery_plan s) (sn_child_tools s)
    (sn_child_enable_stress s) (sn_child_stress s) (sn_child_session_ids s)
    (sn_termination_reason s) (sn_publication s) (sn_publication_error s) (sn_state_revision s)
    (sn_schema_version s) (sn_admission_digest s) (sn_published_report s).
Definition set_submitted (x : Z) (s : AnalysisSession) : AnalysisSession :=
  mkSession (sn_session_id s) (sn_unit s) (sn_status s) (sn_evidence s) (sn_budget s)
    (sn_pending s) (sn_completed s) (sn_fingerprints s) (sn_round_index s) x (sn_turns s)
    (sn_report s) (sn_triage s) (sn_history s) (sn_discovery_plan s) (sn_child_tools s)
    (sn_child_enable_stress s) (sn_child_stress s) (sn_child_session_ids s)
    (sn_termination_reason s) (sn_publication s) (sn_publication_error s) (sn_state_revision s)
    (sn_schema_version s) (sn_admission_digest s) (sn_published_report s).
Definition set_turns (x : list AnalysisTurn) (s : AnalysisSession) : AnalysisSession :=
  mkSession (sn_session_id s) (sn_unit s) (sn_status s) (sn_evidence s) (sn_budget s)
    (sn_pending s) (sn_completed s) (sn_fingerprints s) (sn_round_index s) (sn_submitted s) x
    (sn_report s) (sn_triage s) (sn_history s) (sn_discovery_plan s) (sn_child_tools s)
    (sn_child_enable_stress s) (sn_child_stress s) (sn_child_session_ids s)
    (sn_termination_reason s) (sn_publication s) (sn_publication_error s) (sn_state_revision s)
    (sn_schema_version s) (sn_admission_digest s) (sn_published_report s).
Definition set_report (x : option ExplainReport) (s : AnalysisSession) : AnalysisSession :=
  mkSession (sn_session_id s) (sn_unit s) (sn_status s) (sn_evidence s) (sn_budget s)
    (sn_pending s) (sn_completed s) (sn_fingerprints s) (sn_round_index s) (sn_submitted s)
    (sn_turns s) x (sn_triage s) (sn_history s) (sn_discovery_plan s) (sn_child_tools s)
    (sn_child_enable_stress s) (sn_child_stress s) (sn_child_session_ids s)
    (sn_termination_reason s) (sn_publication s) (sn_publication_error s) (sn_state_revision s)
    (sn_schema_version s) (sn_admission_digest s) (sn_published_report s).
Definition set_triage (x : option TriageDecision) (s : AnalysisSession) : AnalysisSession :=
  mkSession (sn_session_id s) (sn_unit s) (sn_status s) (sn_evidence s) (sn_budget s)
    (sn_pending s) (sn_completed s) (sn_fingerprints s) (sn_round_index s) (sn_submitted s)
    (sn_turns s) (sn_report s) x (sn_history s) (sn_discovery_plan s) (sn_child_tools s)
    (sn_child_enable_stress s) (sn_child_stress s) (sn_child_session_ids s)
    (sn_termination_reason s) (sn_publication s) (sn_publication_error s) (sn_state_revision s)
    (sn_schema_version s) (sn_admission_digest s) (sn_published_report s).
Definition set_history (x : list ExperimentRecord) (s : AnalysisSession) : AnalysisSession :=
  mkSession (sn_session_id s) (sn_unit s) (sn_status s) (sn_evidence s) (sn_budget s)
    (sn_pending s) (sn_completed s) (sn_fingerprints s) (sn_round_index s) (sn_submitted s)
    (sn_turns s) (sn_report s) (sn_triage s) x (sn_discovery_plan s) (sn_child_tools s)
    (sn_child_enable_stress s) (sn_child_stress s) (sn_child_session_ids s)
    (sn_termination_reason s) (sn_publication s) (sn_publication_error s) (sn_state_revision s)
    (sn_schema_version s) (sn_admission_digest s) (sn_published_report s).
Definition set_child_session_ids (x : list string) (s : AnalysisSession) : AnalysisSession :=
  mkSession (sn_session_id s) (sn_unit s) (sn_status s) (sn_evidence s) (sn_budget s)
    (sn_pending s) (sn_completed s) (sn_fingerprints s) (sn_round_index s) (sn_submitted s)
    (sn_turns s) (sn_report s) (sn_triage s) (sn_history s) (sn_discovery_plan s)
    (sn_child_tools s) (sn_child_enable_stress s) (sn_child_stress s) x (sn_termination_reason s)
    (sn_publication s) (sn_publication_error s) (sn_state_revision s) (sn_schema_version s)
    (sn_admission_digest s) (sn_published_report s).
Definition set_termination_reason (x : string) (s : AnalysisSession) : AnalysisSession :=
  mkSession (sn_session_id s) (sn_unit s) (sn_status s) (sn_evidence s) (sn_budget s)
    (sn_pending s) (sn_completed s) (sn_fingerprints s) (sn_round_index s) (sn_submitted s)
    (sn_turns s) (sn_report s) (sn_triage s) (sn_history s) (sn_discovery_plan s)
    (sn_child_tools s) (sn_child_enable_stress s) (sn_child_stress s) (sn_child_session_ids s) x
    (sn_publication s) (sn_publication_error s) (sn_state_revision s) (sn_schema_version s)
    (sn_admission_digest s) (sn_published_report s).
Definition set_publication (x : ReportPublicationStatus) (s : AnalysisSession) : AnalysisSession :=
  mkSession (sn_session_id s) (sn_unit s) (sn_status s) (sn_evidence s) (sn_budget s)
    (sn_pending s) (sn_completed s) (sn_fingerprints s) (sn_round_index s) (sn_submitted s)
    (sn_turns s) (sn_report s) (sn_triage s) (sn_history s) (sn_discovery_plan s)
    (sn_child_tools s) (sn_child_enable_stress s) (sn_child_stress s) (sn_child_session_ids s)
    (sn_termination_reason s) x (sn_publication_error s) (sn_state_revision s)
    (sn_schema_version s) (sn_admission_digest s) (sn_published_report s).
Definition set_publication_error (x : string) (s : AnalysisSession) : AnalysisSession :=
  mkSession (sn_session_id s) (sn_unit s) (sn_status s) (sn_evidence s) (sn_budget s)
    (sn_pending s) (sn_completed s) (sn_fingerprints s) (sn_round_index s) (sn_submitted s)
    (sn_turns s) (sn_report s) (sn_triage s) (sn_history s) (sn_discovery_plan s)
    (sn_child_tools s) (sn_child_enable_stress s) (sn_child_stress s) (sn_child_session_ids s)
    (sn_termination_reason s) (sn_publication s) x (sn_state_revision s) (sn_schema_version s)
    (sn_admission_digest s) (sn_published_report s).
Definition set_published_report (x : option ArtifactRef) (s : AnalysisSession) : AnalysisSession :=
  mkSession (sn_session_id s) (sn_unit s) (sn_status s) (sn_evidence s) (sn_budget s)
    (sn_pending s) (sn_completed s) (sn_fingerprints s) (sn_round_index s) (sn_submitted s)
    (sn_turns s) (sn_report s) (sn_triage s) (sn_history s) (sn_discovery_plan s)
    (sn_child_tools s) (sn_child_enable_stress s) (sn_child_stress s) (sn_child_session_ids s)
    (sn_termination_reason s) (sn_publication s) (sn_publication_error s) (sn_state_revision s)
    (sn_schema_version s) (sn_admission_digest s) x.

Definition pending_experiment_ids (s : AnalysisSession) : list string :=
  sp_experiment_id <$> sn_pending s.

Definition terminal_status (s : SessionStatus) : bool :=
  match s with SessionCompleted | SessionInconclusive | SessionFailed => true | _ => false end.

(** [AnalysisSession.requires_reconciliation]. *)
Definition requires_reconciliation (s : AnalysisSession) : bool :=
  negb (terminal_status (sn_status s)) || bool_decide (sn_publication s = ReportPending).

Definition AnalysisSession_to_dict (s : AnalysisSession) : json :=
  JObj ([("schema_version", JInt (sn_schema_version s)); ("session_id", JStr (sn_session_id s));
         ("unit", to_json (sn_unit s)); ("status", to_json (sn_status s));
         ("evidence", to_json (sn_evidence s)); ("budget", to_json (sn_budget s));
         ("pending_experiments", jlist to_json (sn_pending s));
         ("completed_experiment_ids", jlist JStr (sn_completed s));
         ("experiment_fingerprints", jlist JStr (sn_fingerprints s));
         ("round_index", JInt (sn_round_index s)); ("submitted_experiments", JInt (sn_submitted s));
         ("turns", jlist to_json (sn_turns s)); ("report", jopt to_json (sn_report s));
         ("triage", jopt to_json (sn_triage s)); ("experiment_history", jlist to_json (sn_history s));
         ("discovery_plan", jopt to_json (sn_discovery_plan s));
         ("child_sanitizer_tools", jlist JStr (sn_child_tools s));
         ("child_enable_stress", JBool (sn_child_enable_stress s));
         ("child_stress_options", jopt to_json (sn_child_stress s));
         ("child_session_ids", jlist JStr (sn_child_session_ids s));
         ("termination_reason", JStr (sn_termination_reason s));
         ("report_publication", to_json (sn_publication s));
         ("report_publication_error", JStr (sn_publication_error s));
         ("state_revision", JInt (sn_state_revision s))] ++
        match sn_admission_digest s with Some x => [("admission_input_digest", JStr x)] | None => [] end ++
        match sn_published_report s with Some a => [("published_report", to_json a)] | None => [] end).

(** The publication state of a session written before there was one. *)
Definition legacy_publication (s : SessionStatus) : ReportPublicationStatus :=
  match s with SessionCompleted | SessionInconclusive => ReportPublished | _ => ReportNotReady end.

Definition AnalysisSession_from_dict (j : json) : dres AnalysisSession :=
  d ← as_obj j;
  version ← py_int (get_or d "schema_version" (JInt MIN_ANALYSIS_SESSION_SCHEMA_VERSION));
  if version <? MIN_ANALYSIS_SESSION_SCHEMA_VERSION then Err (Raised ValueError) else
  st ← (x ← req d "status"; of_json x);
  sid ← (x ← req d "session_id"; as_str x);
  u ← (x ← req d "unit"; of_json x);
  ev ← of_json (get_or d "evidence" (JObj []));
  bu ← of_json (get_or d "budget" (JObj []));
  pe ← list_of of_json (get_or d "pending_experiments" (JList []));
  co ← list_of as_str (get_or d "completed_experiment_ids" (JList []));
  fp ← list_of as_str (get_or d "experiment_fingerprints" (JList []));
  ri ← py_int (get_or d "round_index" (JInt 0));
  su ← py_int (get_or d "submitted_experiments" (JInt 0));
  tu ← list_of of_json (get_or d "turns" (JList []));
  re ← opt of_json (get d "report");
  tr ← opt of_json (get d "triage");
  hi ← list_of of_json (get_or d "experiment_history" (JList []));
  dp ← opt of_json (get d "discovery_plan");
  ct ← list_of as_str (get_or d "child_sanitizer_tools" (JList []));
  cs ← opt of_json (get d "child_stress_options");
  ci ← list_of as_str (get_or d "child_session_ids" (JList []));
  te ← as_str (get_or d "termination_reason" (JStr ""));
  pu ← opt of_json (get d "report_publication");
  pr ← as_str (get_or d "report_publication_error" (JStr ""));
  rv ← py_int (get_or d "state_revision" (JInt 0));
  ai ← opt as_str (get d "admission_input_digest");
  pb ← opt of_json (get d "published_report");
  Ok (mkSession sid u st ev bu pe co fp ri su tu re tr hi dp ct
        (as_bool (get_or d "child_enable_stress" (JBool true))) cs ci te
        (default (legacy_publication st) pu) pr rv
        (Z.max version ANALYSIS_SESSION_SCHEMA_VERSION) ai pb).

Definition AnalysisSession_valid (s : AnalysisSession) : Prop :=
  valid (sn_unit s) ∧ valid (sn_evidence s) ∧ valid (sn_budget s) ∧ Forall valid (sn_pending s) ∧
  Forall valid (sn_turns s) ∧ valid_opt (sn_triage s) ∧ valid_opt (sn_discovery_plan s) ∧
  valid_opt (sn_child_stress s) ∧ ANALYSIS_SESSION_SCHEMA_VERSION ≤ sn_schema_version s.

#[local] Arguments Z.ltb : simpl never.
#[local] Arguments Z.max : simpl never.

#[export] Instance AnalysisSession_codec : JsonCodec AnalysisSession.
Proof.
  refine {| valid := AnalysisSession_valid; to_json := AnalysisSession_to_dict;
            of_json := AnalysisSession_from_dict |}.
  - done.
  - intros [a b c e f g h i j k l m n o p q r s t u v w x y z pb] (H1 & H2 & H3 & H4 & H5 & H6 & H7 & H8 & H9).
    cbn [sn_unit sn_evidence sn_budget sn_pending sn_turns sn_triage sn_discovery_plan sn_child_stress
         sn_schema_version] in *.
    unfold AnalysisSession_to_dict, AnalysisSession_from_dict. codec_cbn.
    unfold ANALYSIS_SESSION_SCHEMA_VERSION, MIN_ANALYSIS_SESSION_SCHEMA_VERSION in *.
    rewrite (py_int_JInt y). cbn [mbind res_bind]. rewrite (proj2 (Z.ltb_ge y 3)) by lia.
    rewrite (Z.max_l y 7) by lia.
    destruct z as [z|], pb as [pb|]; codec.
Defined.

#[export] Instance AnalysisSession_sound : JsonSound AnalysisSession.
Proof.
  intros j s H. change (AnalysisSession_from_dict j = Ok s) in H. unfold AnalysisSession_from_dict in H.
  apply bind_ok in H as (d & _ & H). apply bind_ok in H as (ver & _ & H).
  destruct (ver <? _); [done|]. decoded H. injection H as <-.
  cbn [valid AnalysisSession_codec]. unfold AnalysisSession_valid.
  cbn [sn_unit sn_evidence sn_budget sn_pending sn_turns sn_triage sn_discovery_plan sn_child_stress
       sn_schema_version].
  split_and!; try sound_part. lia.
Qed.

(** ** Session reports *)

Record SessionReport := mkSessionReport {
  sr_session_id : string;
  sr_status : SessionStatus;
  explanation : ExplainReport;
  sr_evidence : EvidenceBundle;
  sr_turns : list AnalysisTurn;
  sr_termination_reason : string;
  sr_unit : option WorkUnit;
  sr_triage : option TriageDecision;
  experiments : list ExperimentRecord;
  artifact_citations : list string;
  triggering_configs : list string;
  minimized_configs : list string;
  rounds_used : Z
}.

Definition SessionReport_to_dict (r : SessionReport) : json :=
  JObj [("session_id", JStr (sr_session_id r)); ("status", to_json (sr_status r));
        ("explanation", to_json (explanation r)); ("evidence", to_json (sr_evidence r));
        ("turns", jlist to_json (sr_turns r)); ("termination_reason", JStr (sr_termination_reason r));
        ("unit", jopt to_json (sr_unit r)); ("triage", jopt to_json (sr_triage r));
        ("experiments", jlist to_json (experiments r));
        ("artifact_citations", jlist JStr (artifact_citations r));
        ("triggering_configs", jlist JStr (triggering_configs r));
        ("minimized_configs", jlist JStr (minimized_configs r)); ("rounds_used", JInt (rounds_used r))].

Definition SessionReport_fields : list string :=
  ["session_id"; "status"; "explanation"; "evidence"; "turns"; "termination_reason"; "unit"; "triage";
   "experiments"; "artifact_citations"; "triggering_configs"; "minimized_configs"; "rounds_used"].

Definition SessionReport_from_dict (j : json) : dres SessionReport :=
  d0 ← as_obj j;
  let d := known SessionReport_fields d0 in
  sid ← (x ← req d "session_id"; as_str x);
  st ← (x ← req d "status"; of_json x);
  ex ← (x ← req d "explanation"; of_json x);
  ev ← of_json (get_or d "evidence" (JObj []));
  tu ← list_of of_json (get_or d "turns" (JList []));
  te ← as_str (get_or d "termination_reason" (JStr ""));
  u ← opt of_json (get d "unit");
  tr ← opt of_json (get d "triage");
  ers ← list_of of_json (get_or d "experiments" (JList []));
  cit ← list_of as_str (get_or d "artifact_citations" (JList []));
  tcs ← list_of as_str (get_or d "triggering_configs" (JList []));
  mcs ← list_of as_str (get_or d "minimized_configs" (JList []));
  n ← py_int (get_or d "rounds_used" (JInt 0));
  Ok (mkSessionReport sid st ex ev tu te u tr ers cit tcs mcs n).

#[export] Instance SessionReport_codec : JsonCodec SessionReport.
Proof.
  refine {| valid r := valid (sr_evidence r) ∧ Forall valid (sr_turns r) ∧ valid_opt (sr_unit r) ∧
              valid_opt (sr_triage r);
            to_json := SessionReport_to_dict; of_json := SessionReport_from_dict |}.
  - done.
  - intros [i s e v t r u g x c a m n] (H1 & H2 & H3 & H4).
    cbn [sr_evidence sr_turns sr_unit sr_triage] in *.
    unfold SessionReport_to_dict, SessionReport_from_dict, SessionReport_fields. codec.
Defined.

(** Reports of a discovery parent; they are only written. *)
Record ChildDiagnosisReport := mkChildReport {
  cd_unit : WorkUnit;
  cd_report : SessionReport
}.

Definition ChildDiagnosisReport_to_dict (c : ChildDiagnosisReport) : json :=
  JObj [("unit", to_json (cd_unit c)); ("report", to_json (cd_report c))].

Record DiagnosisReport := mkDiagnosis {
  target : WorkUnit;
  dg_discovery : KernelDiscoveryResult;
  discovery_artifact : ArtifactRef;
  children : list ChildDiagnosisReport
}.

Definition DiagnosisReport_to_dict (r : DiagnosisReport) : json :=
  JObj [("target", to_json (target r)); ("discovery", to_json (dg_discovery r));
        ("discovery_artifact", to_json (discovery_artifact r));
        ("children", jlist ChildDiagnosisReport_to_dict (children r))].
