(* ===== verification/SanitizerResults.v ===== *)
(** From a Compute Sanitizer log to service evidence, and from a run that
    observed a whole target to one of its kernels:
    src/python/cutracer/service/sanitizer_results.py. *)
From S2P Require Import Prelude.
From S2P Require Import PyStr.
From S2P Require Import Sanitizer.
From S2P Require Import Json.
From S2P Require Import PyText.
From S2P Require Import Contracts.
From S2P Require Import Results.
From S2P Require Import Experiments.
From Stdlib Require Import Ascii.
Local Open Scope Z_scope.

Definition TARGET_SCOPED_SANITIZER_TOOLS : list string := ["initcheck"].

Definition ERROR_TYPE_UNINITIALIZED_READ : string := "uninitialized-read".
Definition ERROR_TYPE_RACE_CONDITION : string := "race-condition".
Definition ERROR_TYPE_INVALID_SHARED_ACCESS : string := "invalid-shared-access".
Definition ERROR_TYPE_BARRIER_ERROR : string := "barrier-error".
Definition ERROR_TYPE_INVALID_MEMORY_ACCESS : string := "invalid-memory-access".
Definition ERROR_TYPE_MISALIGNED_ACCESS : string := "misaligned-access".
Definition ERROR_TYPE_HARDWARE_EXCEPTION : string := "hardware-exception".
Definition ERROR_TYPE_MEMORY_LEAK : string := "memory-leak".
Definition ERROR_TYPE_UNCLASSIFIED : string := "unclassified".
Definition INTERNAL_TOOL_ERROR_TEXT : string := "Compute Sanitizer reported an internal tool error".

(** [_ERROR_TYPE_PREFIXES]: the first prefix that fits decides. *)
Definition error_type_prefixes : list (string * string) :=
  [("Potential invalid __shared__", ERROR_TYPE_INVALID_SHARED_ACCESS);
   ("Invalid __shared__", ERROR_TYPE_INVALID_SHARED_ACCESS);
   ("Uninitialized ", ERROR_TYPE_UNINITIALIZED_READ);
   ("Race reported", ERROR_TYPE_RACE_CONDITION);
   ("Barrier error detected", ERROR_TYPE_BARRIER_ERROR);
   ("Invalid ", ERROR_TYPE_INVALID_MEMORY_ACCESS);
   ("Out of bounds ", ERROR_TYPE_INVALID_MEMORY_ACCESS);
   ("Misaligned ", ERROR_TYPE_MISALIGNED_ACCESS);
   ("Program hit ", ERROR_TYPE_HARDWARE_EXCEPTION);
   ("Leaked ", ERROR_TYPE_MEMORY_LEAK)].

Definition is_target_scoped_sanitizer (tool : string) : bool :=
  bool_decide (tool ∈ TARGET_SCOPED_SANITIZER_TOOLS).

Definition classify_error_type (message : list ascii) : string :=
  match List.find (λ e : string * string, starts_with (chars e.1) message) error_type_prefixes with
  | Some e => e.2
  | None => ERROR_TYPE_UNCLASSIFIED
  end.

Definition CheckerTool_values : list (string * CheckerTool) :=
  [("initcheck", INITCHECK); ("memcheck", MEMCHECK); ("racecheck", RACECHECK); ("synccheck", SYNCCHECK)].

Definition checker_tool_value (t : CheckerTool) : string :=
  match t with
  | INITCHECK => "initcheck" | MEMCHECK => "memcheck"
  | RACECHECK => "racecheck" | SYNCCHECK => "synccheck"
  end.

Definition diagnostic_value (d : RacecheckParseDiagnostic) : string :=
  match d with
  | MISSING_SUMMARY => "missing_summary"
  | MALFORMED_SUMMARY => "malformed_summary"
  | MULTIPLE_SUMMARIES => "multiple_summaries"
  | INCOMPLETE_FINDING => "incomplete_finding"
  | UNPARSED_FINDING => "unparsed_finding"
  | SUMMARY_COUNT_MISMATCH => "summary_count_mismatch"
  | SUMMARY_FINDING_MISMATCH => "summary_finding_mismatch"
  | INTERNAL_TOOL_ERROR => "internal_tool_error"
  end.

(** ** Evidence of one log *)

Record CheckerEvidence := mkCheckerEvidence {
  ce_findings : list FindingRecord;
  ce_summary : option SanitizerSummary;
  ce_completeness : ResultCompleteness;
  ce_issues : list string;
  ce_truncated : bool
}.

Definition primary_site (i : CheckerIssue) : option CheckerSite := head (sites i).

Definition to_finding (tool : CheckerTool) (i : CheckerIssue) : FindingRecord :=
  let site := primary_site i in
  let src :=
    match site with
    | Some s => match Sanitizer.file s, Sanitizer.line s with
                | Some f, Some l => Some (mkSourceLoc (str f) l)
                | _, _ => None
                end
    | None => None
    end in
  Contracts.mkFinding ("compute_sanitizer/" +:+ checker_tool_value tool)
    (classify_error_type (ci_message i)) ((λ s, str (Sanitizer.symbol s)) <$> site) src
    (default 1 (Sanitizer.hazards i)) (str (ci_raw_block i)) (str (ci_message i)).

Definition to_summary (s : CheckerSummary) : SanitizerSummary :=
  mkSanitizerSummary (cs_total_hazards s) (cs_errors s) (cs_warnings s) (str (cs_raw s))
    (Sanitizer.not_printed s).

Definition parse_checker_evidence (tool : CheckerTool) (text : list ascii) : res exn CheckerEvidence :=
  parsed ← parse_checker_log tool text;
  Ok (mkCheckerEvidence (to_finding tool <$> issues parsed) (to_summary <$> cr_summary parsed)
        (if cr_is_complete parsed then Complete else Partial)
        (diagnostic_value <$> cr_diagnostics parsed) (cr_truncated parsed)).

Definition parse_racecheck_log_findings (text : list ascii) : res exn (list FindingRecord) :=
  e ← parse_checker_evidence RACECHECK text; Ok (ce_findings e).

(** [_checker_evidence]: an unknown tool proves nothing. *)
Definition checker_evidence (tool : string) (log_text : list ascii) : res exn CheckerEvidence :=
  match field CheckerTool_values tool with
  | None => Ok (mkCheckerEvidence [] None ResUnknown ["unsupported_sanitizer_tool"] false)
  | Some t => parse_checker_evidence t log_text
  end.

Definition sanitizer_outcome (e : CheckerEvidence) (status : ExecutionStatus) (log : option ArtifactRef) :
    SanitizerOutcome :=
  if negb (bool_decide (ce_completeness e = Complete)) then SaniUnknown
  else if match ce_summary e with Some s => summary_is_positive s | None => false end then SaniFinding
  else if bool_decide (status = Succeeded) && is_some log then SaniClean
  else SaniUnknown.

(** ** Projection on a kernel *)

Definition matches_kernel (f : FindingRecord) (k : KernelId) : bool :=
  match kernel_name f with
  | None => false
  | Some n => bool_decide (n ∈ ki_name k :: option_list (mangled_name k))
  end.

Definition with_kernel (k : KernelId) (p : ExecutionProvenance) : ExecutionProvenance :=
  mkProvenance (pv_source_revision p) (pv_arch p) (Some k) (tool_version p) (toolchain_version p).

Definition with_kernel_name (n : string) (f : FindingRecord) : FindingRecord :=
  Contracts.mkFinding (source_tool f) (error_type f) (Some n) (source f) (count f) (raw f) (error_detail f).

Definition finding_total (l : list FindingRecord) : Z := foldr (λ f n, count f + n) 0 l.

(** [project_target_scoped_sanitizer_result]. *)
Definition project_target_scoped_sanitizer_result (r : SanitizerSweepResult) (experiment_id : string)
    (k : KernelId) : res exn SanitizerSweepResult :=
  if negb (is_target_scoped_sanitizer (sw_tool r)) then Err ValueError
  else
    let provenance := with_kernel k (sw_provenance r) in
    if negb (sweep_has_positive_signal r) then
      Ok (mkSweep experiment_id (sw_execution_status r) (sw_outcome r) (sw_tool r) (Results.findings r)
            provenance (sw_log r) (sw_duration_s r) (sw_error r) (sw_summary r) (sw_completeness r)
            (summary_issues r) (Results.output_truncated r))
    else
      let all := Results.findings r in
      let matching := with_kernel_name (ki_name k) <$> List.filter (λ f, matches_kernel f k) all in
      let counts_match :=
        match sw_summary r with Some s => Contracts.errors s =? finding_total all | None => false end in
      let fully_attributed :=
        bool_decide (matching ≠ []) && (length matching =? length all)%nat && counts_match &&
        negb (Results.output_truncated r) in
      if fully_attributed then
        Ok (mkSweep experiment_id (sw_execution_status r) (sw_outcome r) (sw_tool r) matching
              provenance (sw_log r) (sw_duration_s r) (sw_error r) (sw_summary r) (sw_completeness r)
              (summary_issues r) (Results.output_truncated r))
      else
        let issues := summary_issues r ++
          (if Results.output_truncated r then ["target_scope_output_truncated"] else []) ++
          (if negb counts_match then ["target_scope_finding_count_mismatch"] else []) ++
          (if existsb (λ f, negb (is_some (kernel_name f))) all
           then ["target_scope_contains_unattributed_findings"] else []) ++
          (if existsb (λ f, is_some (kernel_name f) && negb (matches_kernel f k)) all
           then ["target_scope_contains_other_kernel_findings"] else []) ++
          (if bool_decide (matching = []) then ["target_scope_has_no_matching_finding"] else []) in
        Ok (mkSweep experiment_id (sw_execution_status r) SaniUnknown (sw_tool r) matching
              provenance (sw_log r) (sw_duration_s r) (sw_error r) None Partial
              (fromkeys issues) (Results.output_truncated r)).

(** ** The canonical result *)

Definition spec_provenance (u : WorkUnit) : ExecutionProvenance :=
  mkProvenance (source_revision u) (arch u) (kernel u) "" "".

(** [build_sanitizer_result]. *)
Definition build_sanitizer_result (spec : ExperimentSpec) (status : ExecutionStatus)
    (log_text : list ascii) (log : option ArtifactRef) (duration_s : float) (error : option string)
    (provenance : option ExecutionProvenance) : res exn SanitizerSweepResult :=
  match sp_sanitizer_tool spec with
  | None => Err ValueError
  | Some tool =>
      e ← checker_evidence tool log_text;
      let internal := bool_decide (diagnostic_value INTERNAL_TOOL_ERROR ∈ ce_issues e) in
      let status := if internal then ExecInfraError else status in
      let error := if internal then
                     Some (match error with
                           | None => INTERNAL_TOOL_ERROR_TEXT
                           | Some m => m +:+ "; " +:+ INTERNAL_TOOL_ERROR_TEXT
                           end)
                   else error in
      let r := mkSweep (sp_experiment_id spec) status (sanitizer_outcome e status log) tool
                 (ce_findings e) (default (spec_provenance (sp_unit spec)) provenance) log duration_s
                 error (ce_summary e) (ce_completeness e) (ce_issues e) (ce_truncated e) in
      match kernel (sp_unit spec) with
      | Some k =>
          if is_target_scoped_sanitizer tool
          then project_target_scoped_sanitizer_result r (sp_experiment_id spec) k
          else Ok r
      | None => Ok r
      end
  end.

Lemma checker_tool_value_field t : field CheckerTool_values (checker_tool_value t) = Some t.
Proof. by destruct t. Qed.
