(* ===== verification/Policy.v ===== *)
(** Campaign planning and the guard on follow-up experiments:
    src/python/cutracer/service/policy.py.

    A [ValueError] whose message ends up in the session carries it; a
    specification is built through the checks of its class. *)
From S2P Require Import Prelude.
From S2P Require Import PyStr.
From S2P Require Import Json.
From S2P Require Import PyText.
From S2P Require Import Sha256.
From S2P Require Import Contracts.
From S2P Require Import Results.
From S2P Require Import Experiments.
From S2P Require Import SessionContracts.
From Stdlib Require Import Ascii.
Local Open Scope Z_scope.

Definition MAX_TRACE_PC_OFFSETS : Z := 32.
Definition DEFAULT_LOCAL_SANITIZER_TOOLS : list string := ["memcheck"; "synccheck"; "initcheck"; "racecheck"].

Definition experiment_id_of (session_id : string) (phase : ExperimentPhase) (round : Z)
    (kind : ExperimentKind) (discriminator : string) : string :=
  let raw := session_id +:+ ":" +:+ enum_text phase +:+ ":" +:+ pretty round +:+ ":" +:+
             enum_text kind +:+ ":" +:+ discriminator in
  "exp-" +:+ str (take 16 (sha256_hexdigest (chars raw))).

Definition fingerprint_of (kind : ExperimentKind) (discriminator : string) : string :=
  enum_text kind +:+ ":" +:+ discriminator.

Definition request_discriminator (r : ExperimentRequest) (config : option TriggeringDelayConfig) : string :=
  match rq_kind r, config with
  | COMPUTE_SANITIZER, _ => "racecheck"
  | REDUCE_DELAY_CONFIG, Some c => uri (artifact c)
  | _, _ => ""
  end.

(** A construction that fails with [ValueError], its message not read. *)
Definition value_error {A} (r : res string A) : res exn A :=
  match r with Ok a => Ok a | Err _ => Err ValueError end.

Definition without_kernel (s : TraceSelector) : TraceSelector :=
  mkSelector None (sel_launch_id s) (sel_warp_id s) (sel_warpgroup_id s) (sel_pc_offsets s)
    (sel_categories s) (sel_config_source s).

Definition without_source (s : TraceSelector) : TraceSelector :=
  mkSelector (sel_kernel s) (sel_launch_id s) (sel_warp_id s) (sel_warpgroup_id s) (sel_pc_offsets s)
    (sel_categories s) None.

(** [value is None or value == []], of every value of the payload. *)
Definition selects_nothing (s : TraceSelector) : bool :=
  negb (is_some (sel_kernel s)) && negb (is_some (sel_launch_id s)) && negb (is_some (sel_warp_id s)) &&
  negb (is_some (sel_warpgroup_id s)) && bool_decide (sel_pc_offsets s = []) &&
  bool_decide (sel_categories s = []) && negb (is_some (sel_config_source s)).

(** [_trace_options_discriminator]. *)
Definition trace_options_discriminator (o : TraceOptions) (u : WorkUnit) : res exn string :=
  let selector := if opt_kernel_eqb (sel_kernel (to_selector o)) (kernel u)
                  then without_kernel (to_selector o) else to_selector o in
  let artifact_identity :=
    match config_artifact o with
    | None => JNull
    | Some a => match sha256 a, size_bytes a with
                | Some h, Some n => JObj [("sha256", JStr h); ("size_bytes", JInt n)]
                | _, _ => JObj [("uri", JStr (uri a))]
                end
    end in
  if selects_nothing selector && negb (is_some (config_artifact o)) &&
     bool_decide (to_instrument_modes o = []) then Ok ""
  else
    modes ← (if bool_decide (to_instrument_modes o = []) then Ok []
             else m ← value_error (effective_instrument_modes o); Ok [("instrument_modes", jlist JStr m)]);
    Ok (str (sha256_hexdigest (json_dumps
          (JObj ([("selector", to_json selector); ("config_artifact", artifact_identity)] ++ modes))))).

(** [experiment_spec_fingerprint]. *)
Definition experiment_spec_fingerprint (s : ExperimentSpec) : res exn string :=
  discriminator ←
    match sp_kind s with
    | COMPUTE_SANITIZER => Ok (default "" (sp_sanitizer_tool s))
    | REG_TRACE | MEM_VALUE_TRACE =>
        match sp_trace s with
        | Some t => trace_options_discriminator t (sp_unit s)
        | None => Ok ""
        end
    | REDUCE_DELAY_CONFIG =>
        match sp_reduction s with
        | Some r => Ok (uri (artifact (ro_triggering_config r)))
        | None => Ok ""
        end
    | _ => Ok ""
    end;
  Ok (fingerprint_of (sp_kind s) discriminator).

(** The latest successful reduction that kept a configuration. *)
Definition latest_minimized (e : EvidenceBundle) : option ReduceExperimentResult :=
  List.find (λ r, bool_decide (rr_execution_status r = Succeeded) && is_some (minimized_config r))
    (rev (eb_reductions e)).

Definition selected_config_artifact (e : EvidenceBundle) (source : TraceConfigSource) : option ArtifactRef :=
  match source with
  | TriggeringSource => artifact <$> bundle_triggering_config e
  | MinimizedSource => latest_minimized e ≫= minimized_config
  end.

Definition selected_config_point_count (e : EvidenceBundle) (source : TraceConfigSource) : option Z :=
  match source with
  | TriggeringSource => bundle_triggering_config e ≫= enabled_point_count
  | MinimizedSource =>
      (λ r, Z.of_nat (length (remove_dups (ep_pc_offset <$> essential_points r)))) <$> latest_minimized e
  end.

Definition pinned_kernel (k : option KernelId) : bool :=
  match k with Some k => negb (blank (ki_name k)) && negb (blank (cubin_hash k)) | None => false end.

Definition precedence_note : string :=
  "trace selector supplied both explicit PC offsets and a config source; explicit PC offsets take precedence".

(** [_resolve_trace_options], with the messages of its [ValueError]s. *)
Definition resolve_trace_options (s : AnalysisSession) (r : ExperimentRequest) (limit_mb : Z) :
    res string (TraceOptions * option string) :=
  if negb (pinned_kernel (kernel (sn_unit s)))
  then Err "targeted trace requires pinned kernel name and cubin identity"
  else
    let selector := default default_selector (trace_selector r) in
    if is_some (sel_kernel selector) && negb (opt_kernel_eqb (sel_kernel selector) (kernel (sn_unit s)))
    then Err "trace selector kernel does not match the pinned WorkUnit"
    else
      let both := negb (bool_decide (sel_pc_offsets selector = [])) && is_some (sel_config_source selector) in
      selector ← (if both then TraceSelector_init (without_source selector) else Ok selector);
      let note := if both then Some precedence_note else None in
      art ← match sel_config_source selector with
            | None => Ok None
            | Some source =>
                let name := enum_text source in
                match selected_config_artifact (sn_evidence s) source with
                | None => Err ("trace selector requires available " +:+ name +:+ " config")
                | Some a =>
                    match selected_config_point_count (sn_evidence s) source with
                    | None => Err ("trace from " +:+ name +:+ " config is deferred: enabled PC count is unknown")
                    | Some n =>
                        if n =? 0 then Err ("trace from " +:+ name +:+ " config has no enabled PCs")
                        else if MAX_TRACE_PC_OFFSETS <? n
                        then Err ("trace from " +:+ name +:+ " config is deferred: " +:+ pretty n +:+
                                  " enabled PCs exceed the " +:+ pretty MAX_TRACE_PC_OFFSETS +:+ "-PC limit")
                        else Ok (Some a)
                    end
                end
            end;
      o ← TraceOptions_init (mkTraceOptions (rq_kind r) limit_mb selector art (rq_instrument_modes r));
      Ok (o, note).

(** ** The initial campaign *)

Definition make_spec (s : ExperimentSpec) : res exn ExperimentSpec := _ ← ExperimentSpec_check s; Ok s.

Record CampaignPlan := mkPlan {
  plan_experiments : list ExperimentSpec;
  skipped_results : list StressTestResult
}.

Record InitialCampaignPolicy := mkPolicy {
  sanitizer_tools : list string;
  stress_options : StressOptions;
  enable_stress : bool
}.

Definition default_stress_options : StressOptions :=
  mkStressOptions [1000; 5000; 10000; 50000; 100000] 3 f_one [] true.
Definition default_policy : InitialCampaignPolicy := mkPolicy ["racecheck"] default_stress_options true.

(** [InitialCampaignPolicy.__post_init__]. *)
Definition InitialCampaignPolicy_check (p : InitialCampaignPolicy) : res exn () :=
  if existsb (λ t, negb (bool_decide (t ∈ DEFAULT_LOCAL_SANITIZER_TOOLS))) (sanitizer_tools p)
  then Err ValueError
  else if bool_decide (¬ NoDup (sanitizer_tools p)) then Err ValueError
  else if bool_decide (sanitizer_tools p = []) && negb (enable_stress p) then Err ValueError
  else Ok ().

Definition sanitizer_spec (session_id : string) (u : WorkUnit) (tool : string) : ExperimentSpec :=
  mkSpec (experiment_id_of session_id Initial 0 COMPUTE_SANITIZER tool) session_id Initial
    COMPUTE_SANITIZER u 0 None (Some tool) None None None.

Definition stress_spec (session_id : string) (u : WorkUnit) (o : StressOptions) : ExperimentSpec :=
  mkSpec (experiment_id_of session_id Initial 0 RANDOM_DELAY_STRESS "") session_id Initial
    RANDOM_DELAY_STRESS u 0 None None (Some o) None None.

Definition skipped_stress (session_id : string) (u : WorkUnit) : StressTestResult :=
  mkStress (experiment_id_of session_id Initial 0 RANDOM_DELAY_STRESS "") Succeeded StressSkipped 0 0 0
    (mkProvenance (source_revision u) (arch u) (kernel u) "" "") None None f_zero
    (Some "work unit has no pre-approved correctness oracle") 0 0 ResSkipped 0 [].

(** [InitialCampaignPolicy.plan]. *)
Definition campaign_plan (p : InitialCampaignPolicy) (session_id : string) (u : WorkUnit) :
    res exn CampaignPlan :=
  specs ← mapM (λ tool, make_spec (sanitizer_spec session_id u tool)) (sanitizer_tools p);
  if enable_stress p && is_some (oracle u) then
    st ← make_spec (stress_spec session_id u (stress_options p));
    Ok (mkPlan (specs ++ [st]) [])
  else if enable_stress p then Ok (mkPlan specs [skipped_stress session_id u])
  else Ok (mkPlan specs []).

(** ** Follow-up experiments *)

Record GuardedExperiments := mkGuarded {
  ge_experiments : list ExperimentSpec;
  ge_fingerprints : list string;
  rejections : list string;
  ge_notes : list string
}.

Record ExperimentGuardPolicy := mkGuard {
  default_trace_size_limit_mb : Z;
  auto_reduce_triggering_config : bool;
  require_kernel_identity_for_reduce : bool
}.

Definition default_guard : ExperimentGuardPolicy := mkGuard 1024 true true.

(** [_reduce_identity_rejection]. *)
Definition reduce_identity_rejection (g : ExperimentGuardPolicy) (u : WorkUnit)
    (c : TriggeringDelayConfig) : option string :=
  if negb (require_kernel_identity_for_reduce g) then None
  else if negb (pinned_kernel (kernel u)) || negb (pinned_kernel (tc_kernel c))
  then Some "reduce requires kernel name and cubin identity"
  else if negb (opt_kernel_eqb (tc_kernel c) (kernel u))
  then Some "reduce triggering config kernel identity differs from work unit"
  else None.

(** A specification, or a rejection. *)
Definition built : Type := option ExperimentSpec * option string.

(** The arguments every follow-up specification shares; the options follow. *)
Definition followup_spec (s : AnalysisSession) (r : ExperimentRequest) (index : Z) (discriminator : string)
    (tool : option string) (stress : option StressOptions) (trace : option TraceOptions)
    (reduction : option ReduceOptions) : ExperimentSpec :=
  mkSpec (experiment_id_of (sn_session_id s) Followup (sn_round_index s + 1) (rq_kind r)
            (pretty index +:+ ":" +:+ discriminator))
    (sn_session_id s) Followup (rq_kind r) (sn_unit s) (sn_round_index s + 1) None
    tool stress trace reduction.

Definition accept_spec (spec : ExperimentSpec) : res exn built := x ← make_spec spec; Ok (Some x, None).
Definition reject_spec (why : string) : res exn built := Ok (None, Some why).

(** [_build_reduce_spec]. *)
Definition build_reduce_spec (g : ExperimentGuardPolicy) (s : AnalysisSession)
    (config : option TriggeringDelayConfig) (common : option ReduceOptions → ExperimentSpec) :
    res exn built :=
  match config, oracle (sn_unit s) with
  | Some c, Some _ =>
      match reduce_identity_rejection g (sn_unit s) c with
      | Some why => reject_spec why
      | None =>
          let o := mkReduceOptions c "bisect" 3 (require_kernel_identity_for_reduce g) in
          _ ← ReduceOptions_check o;
          accept_spec (common (Some o))
      end
  | _, _ => reject_spec "reduce requires a reproduced config and its approved oracle"
  end.

(** [_build_spec]. *)
Definition build_spec (g : ExperimentGuardPolicy) (s : AnalysisSession) (r : ExperimentRequest)
    (config : option TriggeringDelayConfig) (index : Z) (discriminator : string)
    (trace_options : option TraceOptions) : res exn built :=
  let common := followup_spec s r index discriminator in
  match rq_kind r with
  | COMPUTE_SANITIZER => accept_spec (common (Some "racecheck") None None None)
  | RANDOM_DELAY_STRESS =>
      if negb (is_some (oracle (sn_unit s))) then reject_spec "random-delay stress requires an approved oracle"
      else accept_spec (common None (Some default_stress_options) None None)
  | REG_TRACE | MEM_VALUE_TRACE =>
      match trace_options with
      | None => reject_spec "trace options could not be resolved"
      | Some t => accept_spec (common None None (Some t) None)
      end
  | REDUCE_DELAY_CONFIG => build_reduce_spec g s config (common None None None)
  | KERNEL_DISCOVERY => reject_spec ("unsupported experiment kind: " +:+ enum_text (rq_kind r))
  end.

(** What the guard makes of the request number [index]. *)
Definition expand_one (g : ExperimentGuardPolicy) (s : AnalysisSession)
    (config : option TriggeringDelayConfig) (acc : GuardedExperiments) (index : Z)
    (r : ExperimentRequest) : res exn GuardedExperiments :=
  let '(mkGuarded specs fps rejs notes) := acc in
  let resolved :=
    if is_trace_kind (rq_kind r)
    then match resolve_trace_options s r (default_trace_size_limit_mb g) with
         | Ok (o, note) => Ok (Some o, option_list note)
         | Err m => Err m
         end
    else Ok (None, []) in
  match resolved with
  | Err message => Ok (mkGuarded specs fps (rejs ++ [message]) notes)
  | Ok (trace_options, note) =>
      let notes := notes ++ note in
      discriminator ← match trace_options with
                      | Some o => trace_options_discriminator o (sn_unit s)
                      | None => Ok (request_discriminator r config)
                      end;
      let fp := fingerprint_of (rq_kind r) discriminator in
      if bool_decide (fp ∈ sn_fingerprints s) || bool_decide (fp ∈ fps)
      then Ok (mkGuarded specs fps (rejs ++ ["duplicate experiment: " +:+ fp]) notes)
      else
        b ← build_spec g s r config index discriminator trace_options;
        Ok (match b with
            | (Some spec, _) => mkGuarded (specs ++ [spec]) (fps ++ [fp]) rejs notes
            | (None, why) => mkGuarded specs fps (rejs ++ option_list why) notes
            end)
  end.

Fixpoint expand_from (g : ExperimentGuardPolicy) (s : AnalysisSession)
    (config : option TriggeringDelayConfig) (acc : GuardedExperiments) (index : Z)
    (l : list ExperimentRequest) : res exn GuardedExperiments :=
  match l with
  | [] => Ok acc
  | r :: rest => acc' ← expand_one g s config acc index r; expand_from g s config acc' (index + 1) rest
  end.

Definition auto_reduce_request : ExperimentRequest :=
  mkRequest REDUCE_DELAY_CONFIG "standard reduction of the reproduced delay config" None [].

(** [ExperimentGuardPolicy.expand]. *)
Definition requested_experiments (g : ExperimentGuardPolicy) (s : AnalysisSession)
    (requests : list ExperimentRequest) : list ExperimentRequest :=
  if auto_reduce_triggering_config g && is_some (bundle_triggering_config (sn_evidence s)) &&
     negb (existsb (λ r, bool_decide (rq_kind r = REDUCE_DELAY_CONFIG)) requests)
  then requests ++ [auto_reduce_request] else requests.

Definition expand (g : ExperimentGuardPolicy) (s : AnalysisSession) (requests : list ExperimentRequest) :
    res exn GuardedExperiments :=
  expand_from g s (bundle_triggering_config (sn_evidence s)) (mkGuarded [] [] [] []) 0
    (requested_experiments g s requests).

(** ** The guard keeps its bookkeeping *)

(** What every accepted specification is. *)
Definition followup_of (s : AnalysisSession) (sp : ExperimentSpec) : Prop :=
  sp_session_id sp = sn_session_id s ∧ sp_phase sp = Followup ∧ sp_unit sp = sn_unit s ∧
  sp_round_index sp = sn_round_index s + 1 ∧ ExperimentSpec_check sp = Ok ().

Definition guard_inv (s : AnalysisSession) (acc : GuardedExperiments) : Prop :=
  mapM experiment_spec_fingerprint (ge_experiments acc) = Ok (ge_fingerprints acc) ∧
  NoDup (ge_fingerprints acc) ∧ (∀ f, f ∈ ge_fingerprints acc → f ∉ sn_fingerprints s) ∧
  Forall (followup_of s) (ge_experiments acc).

Lemma make_spec_ok s sp : make_spec s = Ok sp → sp = s ∧ ExperimentSpec_check s = Ok ().
Proof. unfold make_spec. destruct (ExperimentSpec_check s) as [[]|]; cbn; [|done]. by intros [= <-]. Qed.

Lemma accept_spec_ok sp x why : accept_spec sp = Ok (Some x, why) → x = sp ∧ ExperimentSpec_check sp = Ok ().
Proof.
  unfold accept_spec. intros H. apply bind_ok in H as (y & Hy & H). injection H as <- <-.
  by apply make_spec_ok.
Qed.

Lemma mapM_snoc {A B} (f : A → res exn B) l a k b :
  mapM f l = Ok k → f a = Ok b → mapM f (l ++ [a]) = Ok (k ++ [b]).
Proof.
  revert k. induction l as [|c l IH]; cbn; intros k Hl Ha.
  - injection Hl as <-. by rewrite Ha.
  - apply bind_ok in Hl as (x & Hx & Hl). apply bind_ok in Hl as (y & Hy & Hl). injection Hl as <-.
    rewrite Hx. cbn. by rewrite (IH y Hy Ha).
Qed.

(** The discriminator of a request is the one its options give. *)
Definition discriminates (s : AnalysisSession) (r : ExperimentRequest) (config : option TriggeringDelayConfig)
    (o : option TraceOptions) (d : string) : Prop :=
  match o with
  | Some t => is_trace_kind (rq_kind r) = true ∧ trace_options_discriminator t (sn_unit s) = Ok d
  | None => d = request_discriminator r config
  end.

Lemma followup_of_spec s r i d t st tr rd :
  ExperimentSpec_check (followup_spec s r i d t st tr rd) = Ok () →
  followup_of s (followup_spec s r i d t st tr rd).
Proof. intros H. by split_and!. Qed.

Lemma build_spec_ok g s r config i d o sp why :
  build_spec g s r config i d o = Ok (Some sp, why) → discriminates s r config o d →
  followup_of s sp ∧ experiment_spec_fingerprint sp = Ok (fingerprint_of (rq_kind r) d).
Proof.
  unfold build_spec, discriminates, request_discriminator. intros H Hd.
  destruct (rq_kind r) eqn:Ek; [done|..].
  - apply accept_spec_ok in H as [-> Hc]. split; [by apply followup_of_spec|].
    unfold experiment_spec_fingerprint. cbn [sp_kind followup_spec sp_sanitizer_tool]. rewrite Ek.
    destruct o as [t|]; [by destruct Hd|]. by rewrite Hd.
  - destruct (oracle (sn_unit s)); [|done]. apply accept_spec_ok in H as [-> Hc].
    split; [by apply followup_of_spec|].
    unfold experiment_spec_fingerprint. cbn [sp_kind followup_spec]. rewrite Ek.
    destruct o as [t|]; [by destruct Hd|]. by rewrite Hd.
  - destruct o as [t|]; [|done]. apply accept_spec_ok in H as [-> Hc]. destruct Hd as [_ Hd].
    split; [by apply followup_of_spec|].
    unfold experiment_spec_fingerprint. cbn [sp_kind followup_spec sp_trace sp_unit]. by rewrite Ek, Hd.
  - destruct o as [t|]; [|done]. apply accept_spec_ok in H as [-> Hc]. destruct Hd as [_ Hd].
    split; [by apply followup_of_spec|].
    unfold experiment_spec_fingerprint. cbn [sp_kind followup_spec sp_trace sp_unit]. by rewrite Ek, Hd.
  - unfold build_reduce_spec in H. destruct config as [c|]; [|done].
    destruct (oracle (sn_unit s)); [|done]. destruct (reduce_identity_rejection _ _ _); [done|].
    apply bind_ok in H as (u & _ & H). apply accept_spec_ok in H as [-> Hc].
    split; [by apply followup_of_spec|].
    unfold experiment_spec_fingerprint.
    cbn [sp_kind followup_spec sp_reduction ro_triggering_config]. rewrite Ek.
    destruct o as [t|]; [by destruct Hd|]. by rewrite Hd.
Qed.

Lemma expand_one_inv g s config acc i r acc' :
  guard_inv s acc → expand_one g s config acc i r = Ok acc' → guard_inv s acc'.
Proof.
  destruct acc as [specs fps rejs notes]. unfold expand_one. intros Hinv H.
  set (resolved := if is_trace_kind (rq_kind r) then _ else _) in H.
  assert (∀ o n, resolved = Ok (o, n) → ∀ d,
    match o with Some t => trace_options_discriminator t (sn_unit s) | None => Ok (request_discriminator r config) end
    = Ok d → discriminates s r config o d) as Hres.
  { unfold resolved, discriminates. intros o n Hr d Hd. destruct (is_trace_kind (rq_kind r)) eqn:Ek.
    - destruct (resolve_trace_options _ _ _) as [[t n']|]; [|done]. injection Hr as <- <-. done.
    - injection Hr as <- <-. by injection Hd as <-. }
  destruct resolved as [[o n]|m] eqn:Er; [|by injection H as <-].
  apply bind_ok in H as (d & Hd & H). cbv zeta in H. specialize (Hres o n eq_refl d Hd).
  destruct (bool_decide (_ ∈ sn_fingerprints s) || bool_decide (_ ∈ fps)) eqn:Edup.
  { by injection H as <-. }
  apply orb_false_iff in Edup as [E1 E2]. apply bool_decide_eq_false in E1, E2.
  apply bind_ok in H as ([[sp|] why] & Hb & H); injection H as <-; [|done].
  apply build_spec_ok in Hb as [Hf Hfp]; [|done]. destruct Hinv as (I1 & I2 & I3 & I4).
  cbn [ge_experiments ge_fingerprints] in *. split_and!; cbn [ge_experiments ge_fingerprints].
  - by apply mapM_snoc.
  - apply NoDup_app. split_and!; [done|set_solver|apply NoDup_singleton].
  - set_solver.
  - apply Forall_app. split; [done|by apply Forall_singleton].
Qed.

Lemma expand_from_inv g s config l acc i acc' :
  guard_inv s acc → expand_from g s config acc i l = Ok acc' → guard_inv s acc'.
Proof.
  revert acc i. induction l as [|r l IH]; cbn; intros acc i Hi H; [by injection H as <-|].
  apply bind_ok in H as (a & Ha & H). eapply IH; [|exact H]. by eapply expand_one_inv.
Qed.

(** The same facts, for the users of the guard. *)
Lemma expand_inv g s requests ge : expand g s requests = Ok ge → guard_inv s ge.
Proof.
  apply expand_from_inv. split_and!; [done|constructor| |constructor].
  intros f Hf. by apply not_elem_of_nil in Hf.
Qed.

(** Every request is answered: accepted, or refused with a reason. *)
Definition answered (acc : GuardedExperiments) : nat := (length (ge_experiments acc) + length (rejections acc))%nat.

Lemma build_spec_answers g s r config i d o b :
  build_spec g s r config i d o = Ok b → match b with (Some _, _) => True | (None, why) => is_some why = true end.
Proof.
  assert (∀ sp, accept_spec sp = Ok b → match b with (Some _, _) => True | (None, why) => is_some why = true end) as Hacc.
  { intros sp H. unfold accept_spec in H. apply bind_ok in H as (x & _ & H). by injection H as <-. }
  assert (∀ m, reject_spec m = Ok b → match b with (Some _, _) => True | (None, why) => is_some why = true end) as Hrej.
  { intros m H. by injection H as <-. }
  unfold build_spec, build_reduce_spec. intros H.
  destruct (rq_kind r); [first [exact (Hacc _ H) | exact (Hrej _ H)]|first [exact (Hacc _ H) | exact (Hrej _ H)]| | | |].
  - destruct (negb _); first [exact (Hacc _ H) | exact (Hrej _ H)].
  - destruct o; first [exact (Hacc _ H) | exact (Hrej _ H)].
  - destruct o; first [exact (Hacc _ H) | exact (Hrej _ H)].
  - destruct config; [|first [exact (Hacc _ H) | exact (Hrej _ H)]]. destruct (oracle (sn_unit s)); [|first [exact (Hacc _ H) | exact (Hrej _ H)]].
    destruct (reduce_identity_rejection _ _ _); [first [exact (Hacc _ H) | exact (Hrej _ H)]|].
    apply bind_ok in H as (? & _ & H); first [exact (Hacc _ H) | exact (Hrej _ H)].
Qed.

Lemma expand_one_answers g s config acc i r acc' :
  expand_one g s config acc i r = Ok acc' → answered acc' = S (answered acc).
Proof.
  destruct acc as [specs fps rejs notes]. unfold expand_one, answered. intros H.
  set (resolved := if is_trace_kind (rq_kind r) then _ else _) in H.
  destruct resolved as [[o n]|m]; [|injection H as <-; cbn; rewrite length_app; cbn; lia].
  apply bind_ok in H as (d & _ & H). cbv zeta in H. destruct (_ || _).
  { injection H as <-; cbn; rewrite length_app; cbn; lia. }
  apply bind_ok in H as ([[sp|] why] & Hb & H); injection H as <-; cbn; rewrite length_app; [cbn; lia|].
  apply build_spec_answers in Hb. destruct why; [cbn; lia|done].
Qed.

Lemma expand_accounts g s requests ge :
  expand g s requests = Ok ge → answered ge = length (requested_experiments g s requests).
Proof.
  unfold expand. generalize (requested_experiments g s requests) as l. intros l.
  assert (∀ l acc i, expand_from g s (bundle_triggering_config (sn_evidence s)) acc i l = Ok ge →
    answered ge = (answered acc + length l)%nat) as Hgen; [|by intros H%Hgen].
  clear. intros l. induction l as [|r l IH]; cbn; intros acc i H; [injection H as <-; lia|].
  apply bind_ok in H as (a & Ha & H). apply IH in H. apply expand_one_answers in Ha. lia.
Qed.

(** ** The guard always answers *)

(** What the guard needs of the session: it is well formed, and every
    configuration in its evidence replays its unit. *)
Definition replays_unit (s : AnalysisSession) : Prop :=
  ∀ c, bundle_triggering_config (sn_evidence s) = Some c → same_replay_context c (sn_unit s) = true.

Lemma accept_spec_total sp : ExperimentSpec_check sp = Ok () → accept_spec sp = Ok (Some sp, None).
Proof. intros H. unfold accept_spec, make_spec. by rewrite H. Qed.

Lemma default_stress_valid : valid default_stress_options.
Proof. vm_compute. reflexivity. Qed.

Lemma resolve_trace_options_valid s r limit o n :
  valid_opt (trace_selector r) → resolve_trace_options s r limit = Ok (o, n) →
  valid o ∧ to_mode o = rq_kind r.
Proof.
  intros Hv. unfold resolve_trace_options. destruct (negb (pinned_kernel _)); [done|].
  assert (valid (default default_selector (trace_selector r))) as Hsel.
  { destruct (trace_selector r); [exact Hv|]. vm_compute. reflexivity. }
  revert Hsel. generalize (default default_selector (trace_selector r)) as sel. intros sel Hsel.
  destruct (is_some (sel_kernel sel) && _); [done|]. cbv zeta. intros H.
  apply bind_ok in H as (sel' & Hs' & H). apply bind_ok in H as (art & _ & H).
  apply bind_ok in H as (o' & Ho & H). injection H as <- <-.
  assert (valid sel') as Hsel'.
  { destruct (negb _ && _) in Hs'; [|by injection Hs' as <-]. by eapply TraceSelector_init_idem. }
  pose proof Ho as Hm. apply TraceOptions_init_ok in Ho as [Hsame Ho].
  split; [split; [exact Ho|by rewrite Hsame]|].
  unfold TraceOptions_init in Hm. destruct (negb (is_trace_kind _)); [done|].
  apply bind_ok in Hm as (ms & _ & Hm). cbv beta in Hm.
  destruct (negb (_ && _)); [done|]. destruct (negb (Bool.eqb _ _)); [done|]. by injection Hm as <-.
Qed.

Lemma trace_options_discriminator_total o u : valid o → ∃ d, trace_options_discriminator o u = Ok d.
Proof.
  intros [Ho _]. unfold trace_options_discriminator. cbv zeta.
  destruct (_ && _ && _); [by eexists|].
  destruct (bool_decide (to_instrument_modes o = [])); [by eexists|].
  unfold effective_instrument_modes. unfold TraceOptions_init in Ho.
  destruct (negb (is_trace_kind _)); [done|].
  destruct (trace_instrument_modes _ _) as [ms|]; [|done]. by eexists.
Qed.

Lemma followup_spec_valid s r i d t st tr rd :
  valid s → ExperimentSpec_check (followup_spec s r i d t st tr rd) = Ok () →
  valid_opt st → valid_opt tr → valid_opt rd → valid (followup_spec s r i d t st tr rd).
Proof. intros (Hu & _) H1 H2 H3 H4. by split_and!. Qed.

Lemma build_spec_total g s r config i d o :
  valid s → (∀ c, config = Some c → valid c ∧ same_replay_context c (sn_unit s) = true) →
  (∀ t, o = Some t → valid t ∧ to_mode t = rq_kind r) →
  ∃ b, build_spec g s r config i d o = Ok b ∧ (∀ sp, b.1 = Some sp → valid sp).
Proof.
  intros Hs Hc Ho.
  assert (∀ t st tr rd, valid_opt st → valid_opt tr → valid_opt rd →
    ExperimentSpec_check (followup_spec s r i d t st tr rd) = Ok () →
    ∃ b, accept_spec (followup_spec s r i d t st tr rd) = Ok b ∧ (∀ sp, b.1 = Some sp → valid sp)) as Hacc.
  { intros t st tr rd H1 H2 H3 Hk. eexists. split; [by apply accept_spec_total|].
    intros sp [= <-]. by apply followup_spec_valid. }
  assert (∀ why, ∃ b, reject_spec why = Ok b ∧ (∀ sp, b.1 = Some sp → valid sp)) as Hrej
    by (intros why; by eexists).
  unfold build_spec. destruct (rq_kind r) eqn:Ek; try apply Hrej.
  - apply Hacc; try exact I. unfold ExperimentSpec_check, followup_spec. cbn. by rewrite Ek.
  - destruct (oracle (sn_unit s)); [|apply Hrej]. apply Hacc; try exact I; [exact default_stress_valid|].
    unfold ExperimentSpec_check, followup_spec. cbn. by rewrite Ek.
  - destruct o as [t|]; [|apply Hrej]. destruct (Ho t eq_refl) as [Ht Hm].
    apply Hacc; try exact I; [exact Ht|]. unfold ExperimentSpec_check, followup_spec. cbn. by rewrite Ek, Hm.
  - destruct o as [t|]; [|apply Hrej]. destruct (Ho t eq_refl) as [Ht Hm].
    apply Hacc; try exact I; [exact Ht|]. unfold ExperimentSpec_check, followup_spec. cbn. by rewrite Ek, Hm.
  - unfold build_reduce_spec. destruct config as [c|]; [|apply Hrej].
    destruct (oracle (sn_unit s)) as [orc|] eqn:Eo; [|apply Hrej].
    destruct (reduce_identity_rejection _ _ _); [apply Hrej|].
    destruct (Hc c eq_refl) as [Hv Hsame].
    change (∃ b, accept_spec (followup_spec s r i d None None None
      (Some (mkReduceOptions c "bisect" 3 (require_kernel_identity_for_reduce g)))) = Ok b
      ∧ (∀ sp, b.1 = Some sp → valid sp)).
    apply Hacc; try exact I; [by split|].
    unfold ExperimentSpec_check, followup_spec. cbn -[same_replay_context].
    by rewrite Ek, Eo, Hsame.
Qed.

Lemma expand_one_total g s config acc i r :
  valid s → (∀ c, config = Some c → valid c ∧ same_replay_context c (sn_unit s) = true) → valid r →
  Forall valid (ge_experiments acc) →
  ∃ acc', expand_one g s config acc i r = Ok acc' ∧ Forall valid (ge_experiments acc').
Proof.
  intros Hs Hc [_ Hr] Hacc. destruct acc as [specs fps rejs notes]. cbn in Hacc. unfold expand_one.
  set (resolved := if is_trace_kind (rq_kind r) then _ else _).
  assert (∀ o n, resolved = Ok (o, n) → ∀ t, o = Some t → valid t ∧ to_mode t = rq_kind r) as Hres.
  { unfold resolved. intros o n Ho t ->. destruct (is_trace_kind (rq_kind r)); [|done].
    destruct (resolve_trace_options _ _ _) as [[t' n']|] eqn:E; [|done]. injection Ho as -> _.
    by eapply resolve_trace_options_valid. }
  destruct resolved as [[o n]|m]; [|by eexists]. specialize (Hres o n eq_refl). cbv zeta.
  assert (∃ d, match o with
    | Some t => trace_options_discriminator t (sn_unit s)
    | None => Ok (request_discriminator r config) end = Ok d) as [d Hd].
  { destruct o as [t|]; [|by eexists]. apply trace_options_discriminator_total. by apply Hres. }
  rewrite Hd. cbn [mbind res_bind]. destruct (_ || _); [by eexists|].
  destruct (build_spec_total g s r config i d o Hs Hc Hres) as (b & -> & Hb). cbn [mbind res_bind].
  destruct b as [[sp|] why]; (eexists; split; [reflexivity|]); [|done].
  cbn [ge_experiments]. apply Forall_app. split; [done|]. by apply Forall_singleton, Hb.
Qed.

Lemma expand_from_total g s config l acc i :
  valid s → (∀ c, config = Some c → valid c ∧ same_replay_context c (sn_unit s) = true) → Forall valid l →
  Forall valid (ge_experiments acc) →
  ∃ acc', expand_from g s config acc i l = Ok acc' ∧ Forall valid (ge_experiments acc').
Proof.
  intros Hs Hc Hl. revert acc i. induction Hl as [|r l Hr _ IH]; intros acc i Hacc; [by eexists|].
  cbn [expand_from]. destruct (expand_one_total g s config acc i r Hs Hc Hr Hacc) as (a & -> & Ha).
  cbn [mbind res_bind]. by apply IH.
Qed.

Lemma first_triggering_valid e c : valid e → bundle_triggering_config e = Some c → valid c.
Proof.
  intros (_ & Hs & _) H. unfold bundle_triggering_config in H.
  assert (c ∈ omap triggering_config (eb_stress e)) as Hin.
  { destruct (omap _ _) as [|x l]; [done|]. injection H as ->. by left. }
  apply list_elem_of_omap in Hin as (r & Hr & Hc). rewrite Forall_forall in Hs.
  destruct (Hs r Hr) as [_ Hv]. by rewrite Hc in Hv.
Qed.

Lemma expand_total g s requests :
  valid s → replays_unit s → Forall valid requests →
  ∃ ge, expand g s requests = Ok ge ∧ Forall valid (ge_experiments ge).
Proof.
  intros Hs Hre Hl. apply expand_from_total; [done| | |constructor].
  - intros c Hc. split; [|by apply Hre]. eapply first_triggering_valid; [|exact Hc]. by destruct Hs as (_ & He & _).
  - unfold requested_experiments. destruct (_ && _ && _); [|done].
    apply Forall_app. split; [done|]. apply Forall_singleton. split; [vm_compute; reflexivity|exact I].
Qed.
