(* ===== verification/SessionValidation.v ===== *)
(** Which results a session accepts: the validation half of
    src/python/cutracer/service/session.py, with the artifact identities of
    src/python/cutracer/service/artifacts.py.

    A refusal ([ExperimentResultValidationError]) carries its code; any other
    exception is [Failed].  Messages of refusals are not modelled. *)
From S2P Require Import Prelude.
From S2P Require Import PyStr.
From S2P Require Import PyDict.
From S2P Require Import Json.
From S2P Require Import Contracts.
From S2P Require Import Results.
From S2P Require Import Experiments.
From S2P Require Import SessionContracts.
From Stdlib Require Import Ascii.
Local Open Scope Z_scope.

Inductive serr := Rejected (code : string) | Failed (e : derr).
Notation sres := (res serr).

Definition lift_d {A} (r : dres A) : sres A := match r with Ok a => Ok a | Err e => Err (Failed e) end.
Definition lift_e {A} (r : res exn A) : sres A := match r with Ok a => Ok a | Err e => Err (Failed (Raised e)) end.
Definition raise_value_error {A} : sres A := Err (Failed (Raised ValueError)).

(** [_reject_result]. *)
Definition reject_if (b : bool) (code : string) : sres () := if b then Err (Rejected code) else Ok ().

(** [assert x is not None]. *)
Definition assert_some {A} (o : option A) : sres A :=
  match o with Some a => Ok a | None => Err (Failed (Raised AssertionError)) end.

(** ** Equality as Python compares *)

(** Dictionaries are equal when their items are. *)
Definition env_eqb (a b : list (string * string)) : bool := bool_decide (a ≡ₚ b).

Definition WorkUnit_eqb (a b : WorkUnit) : bool :=
  bool_decide (unit_id a = unit_id b) && bool_decide (argv a = argv b) &&
  bool_decide (workload a = workload b) && bool_decide (test_id a = test_id b) &&
  bool_decide (cwd a = cwd b) && bool_decide (arch a = arch b) &&
  bool_decide (source_revision a = source_revision b) && opt_kernel_eqb (kernel a) (kernel b) &&
  bool_decide (oracle a = oracle b) && env_eqb (env a) (env b) &&
  bool_decide (kernel_filters a = kernel_filters b).

(** [a.to_dict() == b.to_dict()] of two configurations. *)
Definition config_dict_eqb (a b : TriggeringDelayConfig) : bool :=
  bool_decide (artifact a = artifact b) && bool_decide (work_unit_id a = work_unit_id b) &&
  bool_decide (target_argv a = target_argv b) && bool_decide (tc_oracle a = tc_oracle b) &&
  bool_decide (tc_source_revision a = tc_source_revision b) && bool_decide (tc_arch a = tc_arch b) &&
  bool_decide (tc_kernel a = tc_kernel b) && bool_decide (tc_delay_ns a = tc_delay_ns b) &&
  f_eq (enable_prob a) (enable_prob b) && bool_decide (warpgroup_id a = warpgroup_id b) &&
  bool_decide (attempt_index a = attempt_index b) &&
  bool_decide (completed_trials a = completed_trials b) &&
  bool_decide (reproductions a = reproductions b) &&
  f_eq (reproduction_rate a) (reproduction_rate b) &&
  bool_decide (enabled_point_count a = enabled_point_count b) &&
  bool_decide (cutracer_version a = cutracer_version b) &&
  bool_decide (tc_toolchain_version a = tc_toolchain_version b).

(** ** Artifact identities *)

Definition is_hex_digit (c : ascii) : bool :=
  let n := code c in
  is_digit c || ((97 <=? n) && (n <=? 102)) || ((65 <=? n) && (n <=? 70)).

(** [_expected_artifact_identity]: [None] for [ArtifactIdentityError]. *)
Definition expected_artifact_identity (a : ArtifactRef) : option (list ascii * Z) :=
  match sha256 a, size_bytes a with
  | Some h, Some n =>
      if negb (length (chars h) =? 64)%nat || negb (forallb is_hex_digit (chars h)) || (n <? 0) then None
      else Some (lower (chars h), n)
  | _, _ => None
  end.

Definition same_artifact_content (l r : ArtifactRef) : bool :=
  match expected_artifact_identity l, expected_artifact_identity r with
  | Some a, Some b => bool_decide (a = b)
  | _, _ => false
  end.

(** ** The session and the specification *)

Definition evidence_results (e : EvidenceBundle) : list ExperimentResult :=
  (DiscoveryResult <$> eb_discovery e) ++ (SweepResult <$> eb_sanitizer e) ++
  (StressResult <$> eb_stress e) ++ (TraceResult <$> eb_traces e) ++ (ReduceResult <$> eb_reductions e).

(** [Counter(...)[id]]. *)
Definition evidence_count (e : EvidenceBundle) (id : string) : nat :=
  length (filter (λ r, result_id r = id) (evidence_results e)).

Definition validate_session_result_indexes (s : AnalysisSession) : sres () :=
  let pending := pending_experiment_ids s in
  let completed := sn_completed s in
  _ ← reject_if (bool_decide (¬ NoDup pending)) "session_state_corrupt";
  _ ← reject_if (bool_decide (¬ NoDup completed)) "session_state_corrupt";
  _ ← reject_if (existsb (λ id, bool_decide (id ∈ completed)) pending) "session_state_corrupt";
  reject_if (existsb (λ id, negb (evidence_count (sn_evidence s) id =? 1)%nat) completed)
    "session_state_corrupt".

Definition validate_spec_context (s : AnalysisSession) (sp : ExperimentSpec) : sres () :=
  _ ← reject_if (negb (bool_decide (sp_session_id sp = sn_session_id s))) "session_mismatch";
  _ ← reject_if (negb (WorkUnit_eqb (sp_unit sp) (sn_unit s))) "session_mismatch";
  match sp_phase sp with
  | Initial =>
      _ ← reject_if (negb (bool_decide (sn_status s = WaitingInitial))) "phase_mismatch";
      reject_if (negb (sp_round_index sp =? 0) || negb (sn_round_index s =? 0)) "round_mismatch"
  | Followup =>
      _ ← reject_if (negb (bool_decide (sn_status s = WaitingFollowup))) "phase_mismatch";
      reject_if ((sp_round_index sp <? 1) || negb (sp_round_index sp =? sn_round_index s)) "round_mismatch"
  end.

Definition validate_provenance (sp : ExperimentSpec) (r : ExperimentResult) : sres () :=
  let p := result_provenance r in
  let u := sp_unit sp in
  _ ← reject_if (negb (bool_decide (pv_source_revision p = source_revision u))) "source_revision_mismatch";
  _ ← reject_if (negb (bool_decide (pv_arch p = arch u))) "arch_mismatch";
  match pv_kernel p, kernel u with
  | None, None => Ok ()
  | Some a, Some b =>
      _ ← reject_if (negb (bool_decide (ki_name a = ki_name b))) "kernel_name_mismatch";
      reject_if (negb (bool_decide (cubin_hash a = cubin_hash b))) "cubin_hash_mismatch"
  | _, _ => Err (Rejected "kernel_identity_mismatch")
  end.

(** ** Stress results *)

(** [_validate_triggering_config]. *)
Definition validate_triggering_config (sp : ExperimentSpec) (r : StressTestResult)
    (c : TriggeringDelayConfig) : sres () :=
  let mismatch b := reject_if b "trigger_config_mismatch" in
  _ ← mismatch (negb (same_replay_context c (sp_unit sp)) ||
                negb (bool_decide (cutracer_version c = tool_version (st_provenance r))) ||
                negb (bool_decide (tc_toolchain_version c = toolchain_version (st_provenance r))));
  o ← assert_some (sp_stress sp);
  _ ← mismatch (negb (bool_decide (tc_delay_ns c ∈ delay_ladder_ns o)));
  _ ← mismatch (negb (f_eq (enable_prob c) (so_enable_prob o)));
  _ ← mismatch (match warpgroup_ids o, warpgroup_id c with
                | [], w => is_some w
                | ws, Some w => negb (bool_decide (w ∈ ws))
                | _, None => true
                end);
  _ ← mismatch (negb ((0 <=? attempt_index c) && (attempt_index c <? attempts_per_delay o)));
  mismatch (negb (completed_trials c =? st_completed_trials r) ||
            negb (reproductions c =? st_reproductions r)).

Definition validate_stress_counts (sp : ExperimentSpec) (r : StressTestResult) : sres () :=
  o ← assert_some (sp_stress sp);
  _ ← reject_if (negb (st_planned_trials r =? planned_trials o)) "stress_plan_mismatch";
  reject_if
    ((st_completed_trials r <? 0) || (st_reproductions r <? 0) || (unattributed_reproductions r <? 0) ||
     (infra_errors r <? 0) || (timed_out_trials r <? 0) || (st_planned_trials r <? st_completed_trials r) ||
     (st_completed_trials r <? st_reproductions r + unattributed_reproductions r) ||
     (st_planned_trials r <? st_completed_trials r + timed_out_trials r)) "stress_plan_mismatch".

Definition validate_stress_triggering_config (sp : ExperimentSpec) (r : StressTestResult) : sres () :=
  match triggering_config r with
  | None => Ok ()
  | Some c =>
      _ ← reject_if (st_reproductions r =? 0) "trigger_config_mismatch";
      validate_triggering_config sp r c
  end.

Definition inconsistent_stress (b : bool) : sres () := reject_if b "stress_result_inconsistent".

Definition validate_skipped_stress_outcome (r : StressTestResult) : sres () :=
  if negb (bool_decide (st_outcome r = StressSkipped)) then Ok ()
  else inconsistent_stress
    (negb (bool_decide (st_execution_status r = Succeeded)) || negb (st_planned_trials r =? 0) ||
     negb (st_completed_trials r =? 0) || negb (st_reproductions r =? 0) ||
     negb (unattributed_reproductions r =? 0) || negb (infra_errors r =? 0) ||
     negb (timed_out_trials r =? 0) || is_some (triggering_config r) ||
     negb (bool_decide (st_completeness r = ResSkipped))).

Definition validate_stress_outcome (sp : ExperimentSpec) (r : StressTestResult) : sres () :=
  _ ← validate_stress_triggering_config sp r;
  _ ← inconsistent_stress (bool_decide (st_outcome r = Reproduced) &&
        ((st_reproductions r =? 0) || negb (is_some (triggering_config r))));
  _ ← inconsistent_stress (bool_decide (st_outcome r = UnattributedReproduction) &&
        ((unattributed_reproductions r =? 0) || negb (st_reproductions r =? 0) ||
         is_some (triggering_config r)));
  _ ← inconsistent_stress (bool_decide (st_outcome r = NotReproduced) &&
        negb (stress_has_trustworthy_non_reproduction r));
  validate_skipped_stress_outcome r.

Definition validate_stress_completeness (sp : ExperimentSpec) (r : StressTestResult) : sres () :=
  o ← assert_some (sp_stress sp);
  _ ← inconsistent_stress (negb (bool_decide (st_outcome r = StressSkipped)) &&
        bool_decide (st_completeness r = ResSkipped));
  _ ← inconsistent_stress (bool_decide (st_outcome r = StressIncomplete) &&
        (bool_decide (st_completeness r = Complete) || bool_decide (st_completeness r = CompleteEarly)));
  _ ← inconsistent_stress (bool_decide (st_completeness r = Complete) &&
        (negb (st_completed_trials r =? st_planned_trials r) || negb (infra_errors r =? 0) ||
         negb (timed_out_trials r =? 0)));
  inconsistent_stress (bool_decide (st_completeness r = CompleteEarly) &&
        (negb (bool_decide (st_outcome r = Reproduced)) || negb (stop_on_first_reproduction o) ||
         (st_planned_trials r <=? st_completed_trials r) || negb (infra_errors r =? 0) ||
         negb (timed_out_trials r =? 0))).

Definition validate_stress_result (sp : ExperimentSpec) (r : StressTestResult) : sres () :=
  _ ← validate_stress_counts sp r;
  _ ← validate_stress_outcome sp r;
  validate_stress_completeness sp r.

(** ** Sanitizer and discovery results *)

Definition validate_sanitizer_result (sp : ExperimentSpec) (r : SanitizerSweepResult) : sres () :=
  let inconsistent b := reject_if b "sanitizer_result_inconsistent" in
  let reported := bool_decide (findings r ≠ []) ||
                  match sw_summary r with Some s => summary_is_positive s | None => false end in
  _ ← reject_if (negb (bool_decide (Some (sw_tool r) = sp_sanitizer_tool sp))) "sanitizer_tool_mismatch";
  _ ← inconsistent (bool_decide (sw_outcome r = SaniFinding) && negb reported);
  _ ← inconsistent (bool_decide (sw_outcome r = SaniClean) && negb (sweep_has_trustworthy_clean r));
  _ ← inconsistent (bool_decide (sw_completeness r = Complete) && bool_decide (summary_issues r ≠ []));
  inconsistent (bool_decide (sw_completeness r = CompleteEarly)).

Definition validate_discovery_result (sp : ExperimentSpec) (r : KernelDiscoveryResult) : sres () :=
  if negb (bool_decide (dr_outcome r = Discovered)) then Ok ()
  else match dr_discovery r with
       | None => Err (Rejected "discovery_result_inconsistent")
       | Some m =>
           let u := sp_unit sp in
           _ ← reject_if (negb (bool_decide (target_unit_id m = unit_id u)) ||
                          negb (bool_decide (dm_source_revision m = source_revision u)) ||
                          negb (bool_decide (dm_arch m = arch u)) ||
                          negb (bool_decide (dm_kernel_filters m = kernel_filters u)))
                 "discovery_context_mismatch";
           o ← assert_some (sp_discovery sp);
           reject_if (do_max_kernels o <? Z.of_nat (length (dm_kernels m))) "discovery_result_inconsistent"
       end.

(** ** Trace results *)

Definition inconsistent_trace (b : bool) : sres () := reject_if b "trace_result_inconsistent".

Definition validate_trace_success_shape (r : TraceExperimentResult) : sres () :=
  _ ← inconsistent_trace (bool_decide (raw_traces r = []) || is_some (tr_error r));
  _ ← inconsistent_trace (negb (bool_decide (tr_completeness r ∈ [Complete; ResUnknown])));
  _ ← inconsistent_trace (bool_decide (tr_completeness r = ResUnknown) &&
        (negb (length (raw_traces r) =? 1)%nat || bool_decide (supporting_artifacts r ≠ [])));
  if negb (bool_decide (tr_completeness r = Complete)) then Ok ()
  else
    _ ← inconsistent_trace (negb (existsb (λ a, ends_with (chars ".cubin") (chars (relative_path a)))
                                    (supporting_artifacts r)));
    inconsistent_trace (negb (is_some (tr_log r))).

Definition validate_trace_failure_shape (r : TraceExperimentResult) : sres () :=
  _ ← inconsistent_trace (no_error_text (tr_error r));
  let has_partial := bool_decide (raw_traces r ≠ []) || bool_decide (supporting_artifacts r ≠ []) in
  _ ← inconsistent_trace (has_partial && negb (bool_decide (tr_completeness r = Partial)));
  inconsistent_trace (bool_decide (tr_completeness r ∈ [Complete; CompleteEarly; ResSkipped])).

(** An artifact with a digest and a size. *)
Definition has_identity (a : ArtifactRef) : bool :=
  match sha256 a, size_bytes a with
  | Some h, Some n => (length (chars h) =? 64)%nat && (0 <=? n)
  | _, _ => false
  end.

Definition analysis_artifact (r : TraceExperimentResult) : option ArtifactRef :=
  analysis r ≫= ta_artifact.

(** [_validate_trace_artifact_identity]; the names of the traces. *)
Definition validate_trace_artifact_identity (r : TraceExperimentResult) : sres (list string) :=
  let artifacts := raw_traces r ++ supporting_artifacts r ++ option_list (tr_log r) ++
                   option_list (analysis_artifact r) in
  _ ← inconsistent_trace (bool_decide (tr_completeness r ∈ [Complete; Partial]) &&
        existsb (λ a, negb (has_identity a)) artifacts);
  let names := relative_path <$> raw_traces r in
  _ ← inconsistent_trace (bool_decide (¬ NoDup names));
  Ok names.

(** The trace a detector's summary or finding speaks of. *)
Definition analysis_trace_files (a : TraceAnalysisEvidence) : list (option string) :=
  (ds_trace_file <$> detector_summaries a) ++ (tf_trace_file <$> ta_findings a).

Definition validate_trace_analysis_references (a : TraceAnalysisEvidence) (names : list string) : sres () :=
  let required := (1 <? length names)%nat in
  inconsistent_trace (existsb (λ f, match f with
                                    | None => required
                                    | Some n => negb (bool_decide (n ∈ names))
                                    end) (analysis_trace_files a)).

Definition validate_trace_analysis_status (r : TraceExperimentResult) (a : TraceAnalysisEvidence) : sres () :=
  _ ← (if bool_decide (tr_execution_status r = Succeeded)
       then inconsistent_trace (bool_decide (tr_completeness r = Complete) &&
              negb (bool_decide (ta_execution_status a = Succeeded)))
       else inconsistent_trace (negb (bool_decide (tr_execution_status r = ExecInfraError)) ||
              negb (bool_decide (tr_completeness r = Partial)) || bool_decide (raw_traces r = [])));
  if bool_decide (ta_execution_status a = Succeeded)
  then inconsistent_trace (negb (is_some (ta_artifact a)) || is_some (ta_error a))
  else inconsistent_trace (no_error_text (ta_error a)).

Definition validate_trace_result (r : TraceExperimentResult) : sres () :=
  _ ← (if bool_decide (tr_execution_status r = Succeeded)
       then validate_trace_success_shape r else validate_trace_failure_shape r);
  names ← validate_trace_artifact_identity r;
  match analysis r with
  | None => inconsistent_trace (bool_decide (tr_execution_status r = Succeeded) &&
                                bool_decide (tr_completeness r = Complete))
  | Some a =>
      _ ← validate_trace_analysis_references a names;
      validate_trace_analysis_status r a
  end.

(** ** Reduction results *)

Definition with_artifact (a : ArtifactRef) (c : TriggeringDelayConfig) : TriggeringDelayConfig :=
  mkTriggering a (work_unit_id c) (target_argv c) (tc_oracle c) (tc_source_revision c) (tc_arch c)
    (tc_kernel c) (tc_delay_ns c) (enable_prob c) (warpgroup_id c) (attempt_index c)
    (completed_trials c) (reproductions c) (reproduction_rate c) (enabled_point_count c)
    (cutracer_version c) (tc_toolchain_version c).

Definition reduce_expected_statuses (o : ReduceOutcome) : option (list ExecutionStatus) :=
  match o with
  | NonReproducible | ReduceStaleInput => Some [ExecFailed]
  | ReduceInfraError => Some [ExecInfraError; ExecTimedOut]
  | Reduced | ReplayFailed | ReduceFailed => None
  end.

(** [input_matches]: the input is the planned one, up to where an identical
    artifact of a successful reduction is stored. *)
Definition reduce_input_matches (expected : TriggeringDelayConfig) (r : ReduceExperimentResult) : sres bool :=
  let returned := input_config r in
  if config_dict_eqb returned expected then Ok true
  else if bool_decide (rr_execution_status r = Succeeded) && bool_decide (rr_outcome r = Reduced) &&
          same_artifact_content (artifact returned) (artifact expected)
  then
    let moved := with_artifact (artifact expected) returned in
    _ ← lift_e (TriggeringDelayConfig_check moved);
    Ok (config_dict_eqb moved expected)
  else Ok false.

Definition validate_reduce_result (sp : ExperimentSpec) (r : ReduceExperimentResult) : sres () :=
  let inconsistent b := reject_if b "reduce_result_inconsistent" in
  o ← assert_some (sp_reduction sp);
  same ← reduce_input_matches (ro_triggering_config o) r;
  _ ← reject_if (negb same) "reduce_input_config_mismatch";
  if bool_decide (rr_outcome r = Reduced) then
    inconsistent (negb (bool_decide (rr_execution_status r = Succeeded)) || negb (is_some (rr_report r)) ||
                  is_some (rr_error r))
  else
    _ ← inconsistent (is_some (minimized_config r) || is_some (rr_report r) ||
                      negb (length (essential_points r) =? 0)%nat ||
                      is_some (essential_points_artifact r));
    match reduce_expected_statuses (rr_outcome r) with
    | None => Err (Rejected "reduce_result_inconsistent")
    | Some l => inconsistent (negb (bool_decide (rr_execution_status r ∈ l)))
    end.

(** ** Any result *)

Definition expected_type_matches (sp : ExperimentSpec) (r : ExperimentResult) : bool :=
  match sp_kind sp, r with
  | KERNEL_DISCOVERY, DiscoveryResult _ | COMPUTE_SANITIZER, SweepResult _
  | RANDOM_DELAY_STRESS, StressResult _ | REDUCE_DELAY_CONFIG, ReduceResult _ => true
  | REG_TRACE, TraceResult _ | MEM_VALUE_TRACE, TraceResult _ => true
  | _, _ => false
  end.

(** [_validate_result_against_spec]. *)
Definition validate_result_against_spec (sp : ExperimentSpec) (r : ExperimentResult) : sres () :=
  _ ← reject_if (negb (bool_decide (result_kind r = sp_kind sp))) "kind_mismatch";
  _ ← reject_if (negb (expected_type_matches sp r)) "kind_mismatch";
  _ ← validate_provenance sp r;
  match r with
  | DiscoveryResult x => validate_discovery_result sp x
  | SweepResult x => validate_sanitizer_result sp x
  | StressResult x => validate_stress_result sp x
  | TraceResult x => validate_trace_result x
  | ReduceResult x => validate_reduce_result sp x
  end.
