(* ===== verification/Session.v ===== *)
(** The analysis-session state machine: src/python/cutracer/service/session.py,
    with the citable artifacts of src/python/cutracer/service/citations.py.

    A session is a value: every transition works on its own copy ([_clone],
    through the wire format) and gives the next session with its effects. *)
From S2P Require Import Prelude.
From S2P Require Import PyStr.
From S2P Require Import PyDict.
From S2P Require Import PySet.
From S2P Require Import Json.
From S2P Require Import PyText.
From S2P Require Import Contracts.
From S2P Require Import Results.
From S2P Require Import Experiments.
From S2P Require Import SessionContracts.
From S2P Require Import Triage.
From S2P Require Import SanitizerResults.
From S2P Require Import Policy.
From S2P Require Import SessionValidation.
From Stdlib Require Import Ascii.
Local Open Scope Z_scope.

(** ** Effects *)

Inductive SessionEffect :=
| SubmitExperiments (experiments : list ExperimentSpec)
| CreateChildSessions
| RunTriage
| RunReasoner
| PublishReport.

Record Transition := mkTransition {
  next : AnalysisSession;
  effects : list SessionEffect
}.

Definition MAX_TERMINATION_REASON_LENGTH : nat := 2048.

(** [resume_session]: the outstanding effects, from the state alone. *)
Definition resume_session (s : AnalysisSession) : sres Transition :=
  match sn_status s with
  | WaitingInitial | WaitingFollowup => Ok (mkTransition s [SubmitExperiments (sn_pending s)])
  | WaitingTriage => Ok (mkTransition s [RunTriage])
  | WaitingReasoner => Ok (mkTransition s [RunReasoner])
  | WaitingChildren => Ok (mkTransition s [CreateChildSessions])
  | SessionCompleted | SessionInconclusive | SessionFailed =>
      if bool_decide (sn_publication s = ReportPending) then Ok (mkTransition s [PublishReport])
      else Ok (mkTransition s [])
  end.

(** [_clone]. *)
Definition clone_session (s : AnalysisSession) : sres AnalysisSession := lift_d (of_json (to_json s)).

(** [reason.strip()[:2048]]. *)
Definition clipped (reason : list ascii) : string := str (take MAX_TERMINATION_REASON_LENGTH reason).

Definition record_infrastructure_failure (s : AnalysisSession) (reason : string) : sres Transition :=
  let normalized := strip (chars reason) in
  if bool_decide (normalized = []) then raise_value_error
  else if terminal_status (sn_status s) then Ok (mkTransition s [])
  else
    u ← clone_session s;
    Ok (mkTransition
          (set_termination_reason (clipped normalized)
            (set_report None (set_pending [] (set_status SessionFailed u)))) []).

(** ** Evidence *)

(** [citations.evidence_artifact_refs]. *)
Definition evidence_artifact_refs (e : EvidenceBundle) : list ArtifactRef :=
  concat ((λ d, option_list (manifest_artifact d) ++
                match dr_discovery d with Some m => event_artifacts m | None => [] end) <$> eb_discovery e) ++
  omap sw_log (eb_sanitizer e) ++
  concat ((λ t, option_list (artifact <$> triggering_config t) ++ option_list (st_log t)) <$> eb_stress e) ++
  concat ((λ t, option_list (analysis_artifact t) ++ raw_traces t ++ supporting_artifacts t ++
                option_list (tr_log t)) <$> eb_traces e) ++
  concat (artifact_refs <$> eb_reductions e).

(** [_artifact_refs]. *)
Definition artifact_ref_uris (e : EvidenceBundle) : list string := fromkeys (uri <$> evidence_artifact_refs e).

Definition reproduced (e : EvidenceBundle) : bool := existsb stress_has_positive_signal (eb_stress e).

Definition inconclusive_report (s : AnalysisSession) (reason : string) : ExplainReport :=
  mkReport "" RaceUnknown ConfidenceL (reproduced (sn_evidence s)) (mkCross false reason) Insufficient
    (artifact_ref_uris (sn_evidence s))
    "Review the preserved evidence and run a targeted experiment." "".

Definition triage_report (s : AnalysisSession) (d : TriageDecision) : ExplainReport :=
  mkReport "" RaceUnknown ConfidenceL (reproduced (sn_evidence s)) (mkCross true (td_reason d)) Sufficient
    (artifact_ref_uris (sn_evidence s)) ("No new action required: " +:+ td_reason d) "".

(** [_experiment_record]. *)
Definition experiment_record (sp : ExperimentSpec) (r : ExperimentResult) : ExperimentRecord :=
  let outcome := match r with
                 | DiscoveryResult x => enum_text (dr_outcome x)
                 | SweepResult x => enum_text (sw_outcome x)
                 | StressResult x => enum_text (st_outcome x)
                 | TraceResult _ => ""
                 | ReduceResult x => match value_of ReduceOutcome_values (rr_outcome x) with
                                     | JStr t => t | _ => "" end
                 end in
  let completeness := match r with
                      | SweepResult x => enum_text (sw_completeness x)
                      | StressResult x => enum_text (st_completeness x)
                      | TraceResult x => enum_text (tr_completeness x)
                      | _ => ""
                      end in
  mkRecord (result_id r) (result_kind r) (sp_phase sp) (sp_round_index sp) (result_status r) outcome
    completeness.

(** ** Creation *)

(** Termination with an inconclusive report. *)
Definition terminate_inconclusive (s : AnalysisSession) (reason : string) (triage : option TriageDecision) :
    sres Transition :=
  u ← clone_session s;
  let u := match triage with Some d => set_triage (Some d) u | None => u end in
  let u := set_termination_reason reason (set_status SessionInconclusive u) in
  let u := set_publication ReportPending (set_report (Some (inconclusive_report u reason)) u) in
  Ok (mkTransition u [PublishReport]).

(** Results shared by tool: each target-scoped, no tool twice. *)
Fixpoint shared_by_tool (seen : list (string * SanitizerSweepResult)) (l : list SanitizerSweepResult) :
    res exn (list (string * SanitizerSweepResult)) :=
  match l with
  | [] => Ok seen
  | r :: l =>
      if negb (is_target_scoped_sanitizer (sw_tool r)) then Err ValueError
      else if is_some (dict_get seen (sw_tool r)) then Err ValueError
      else shared_by_tool (seen ++ [(sw_tool r, r)]) l
  end.

Definition dict_remove {A} (d : list (string * A)) (k : string) : list (string * A) :=
  List.filter (λ e, negb (String.eqb e.1 k)) d.

Record CampaignState := mkCampaign {
  cg_evidence : EvidenceBundle;
  cg_pending : list ExperimentSpec;
  cg_completed : list string;
  cg_history : list ExperimentRecord
}.

Fixpoint campaign_specs (kernel : option KernelId) (c : CampaignState)
    (shared : list (string * SanitizerSweepResult)) (specs : list ExperimentSpec) :
    sres (CampaignState * list (string * SanitizerSweepResult)) :=
  match specs with
  | [] => Ok (c, shared)
  | sp :: rest =>
      let found := match sp_sanitizer_tool sp with
                   | Some t => (λ r, (t, r)) <$> dict_get shared t
                   | None => None
                   end in
      match found with
      | None =>
          campaign_specs kernel
            (mkCampaign (cg_evidence c) (cg_pending c ++ [sp]) (cg_completed c) (cg_history c)) shared rest
      | Some (tool, r) =>
          k ← match kernel with Some k => Ok k | None => raise_value_error end;
          p ← lift_e (project_target_scoped_sanitizer_result r (sp_experiment_id sp) k);
          _ ← validate_result_against_spec sp (SweepResult p);
          campaign_specs kernel
            (mkCampaign (bundle_add (cg_evidence c) (SweepResult p)) (cg_pending c)
               (cg_completed c ++ [sw_experiment_id p])
               (cg_history c ++ [experiment_record sp (SweepResult p)]))
            (dict_remove shared tool) rest
      end
  end.

(** [_initial_campaign_state]. *)
Definition initial_campaign_state (plan : CampaignPlan) (shared : list SanitizerSweepResult)
    (kernel : option KernelId) : sres CampaignState :=
  by_tool ← lift_e (shared_by_tool [] shared);
  let evidence := fold_left (λ e r, bundle_add e (StressResult r)) (skipped_results plan) empty_bundle in
  out ← campaign_specs kernel (mkCampaign evidence [] [] []) by_tool (plan_experiments plan);
  let '(c, unclaimed) := out in
  if bool_decide (length unclaimed = 0%nat) then Ok c else raise_value_error.

Definition default_budget : SessionBudget := mkSessionBudget 2 8.

(** A session with the fields its creation sets, the others at their defaults. *)
Definition new_session (session_id : string) (u : WorkUnit) (status : SessionStatus) (c : CampaignState)
    (budget : SessionBudget) (fingerprints : list string) (submitted : Z)
    (plan : option KernelDiscoveryOptions) (tools : list string) (stress_on : bool)
    (stress : option StressOptions) : AnalysisSession :=
  mkSession session_id u status (cg_evidence c) budget (cg_pending c) (cg_completed c) fingerprints 0
    submitted [] None None (cg_history c) plan tools stress_on stress [] "" ReportNotReady "" 0
    ANALYSIS_SESSION_SCHEMA_VERSION None None.

Definition exhausted (what : string) (required : nat) (limit : Z) : string :=
  what +:+ " experiment budget exhausted: required=" +:+ pretty (Z.of_nat required) +:+
  ", limit=" +:+ pretty limit.

(** [create_session]. *)
Definition create_session (session_id : string) (u : WorkUnit) (budget : option SessionBudget)
    (policy : option InitialCampaignPolicy) (shared : list SanitizerSweepResult) : sres Transition :=
  if negb (pinned_kernel (kernel u)) then raise_value_error
  else
    plan ← lift_e (campaign_plan (default default_policy policy) session_id u);
    let budget := default default_budget budget in
    c ← initial_campaign_state plan shared (kernel u);
    if max_experiments budget <? Z.of_nat (length (cg_pending c)) then
      let bare := mkCampaign (cg_evidence c) [] (cg_completed c) (cg_history c) in
      terminate_inconclusive (new_session session_id u WaitingTriage bare budget [] 0 None [] true None)
        (exhausted "initial" (length (cg_pending c)) (max_experiments budget)) None
    else
      fps ← lift_e (mapM experiment_spec_fingerprint (cg_pending c));
      let waiting := negb (bool_decide (length (cg_pending c) = 0%nat)) in
      let s := new_session session_id u (if waiting then WaitingInitial else WaitingTriage) c budget fps
                 (Z.of_nat (length (cg_pending c))) None [] true None in
      Ok (mkTransition s [if waiting then SubmitExperiments (cg_pending c) else RunTriage]).

Definition discovery_spec (session_id : string) (u : WorkUnit) (o : KernelDiscoveryOptions) : ExperimentSpec :=
  mkSpec (session_id +:+ "-kernel-discovery") session_id Initial KERNEL_DISCOVERY u 0 (Some o)
    None None None None.

(** [create_discovery_session]. *)
Definition create_discovery_session (session_id : string) (u : WorkUnit) (budget : option SessionBudget)
    (policy : option InitialCampaignPolicy) (max_kernels : Z) : sres Transition :=
  if is_some (kernel u) then raise_value_error
  else
    let policy := default default_policy policy in
    let o := mkDiscoveryOptions max_kernels in
    _ ← lift_e (KernelDiscoveryOptions_check o);
    first ← lift_e (make_spec (discovery_spec session_id u o));
    plan ← lift_e (campaign_plan policy session_id u);
    let scoped := List.filter (λ sp, bool_decide (sp_kind sp = COMPUTE_SANITIZER) &&
                    match sp_sanitizer_tool sp with Some t => is_target_scoped_sanitizer t | None => false end)
                    (plan_experiments plan) in
    let experiments := first :: scoped in
    let budget := default default_budget budget in
    let make pending status fps submitted :=
      new_session session_id u status (mkCampaign empty_bundle pending [] []) budget fps submitted (Some o)
        (sanitizer_tools policy) (enable_stress policy) (Some (stress_options policy)) in
    if max_experiments budget <? Z.of_nat (length experiments) then
      terminate_inconclusive (make [] WaitingTriage [] 0)
        (exhausted "discovery" (length experiments) (max_experiments budget)) None
    else
      fps ← lift_e (mapM experiment_spec_fingerprint experiments);
      Ok (mkTransition (make experiments WaitingInitial fps (Z.of_nat (length experiments)))
            [SubmitExperiments experiments]).

(** ** Results *)

(** [evidence.add(result)], the bookkeeping around it. *)
Definition accept_result (s : AnalysisSession) (sp : ExperimentSpec) (r : ExperimentResult) : AnalysisSession :=
  let s := set_evidence (bundle_add (sn_evidence s) r) s in
  let s := set_pending (List.filter (λ p, negb (bool_decide (sp_experiment_id p = result_id r))) (sn_pending s)) s in
  let s := set_completed (sn_completed s ++ [result_id r]) s in
  set_history (sn_history s ++ [experiment_record sp r]) s.

(** What follows the last pending result. *)
Definition after_last_result (s : AnalysisSession) (sp : ExperimentSpec) : sres Transition :=
  if is_some (sn_discovery_plan s) then
    match eb_discovery (sn_evidence s) with
    | [d] =>
        if negb (bool_decide (dr_outcome d = Discovered)) then
          let reason := match dr_error d with
                        | Some e => if bool_decide (e = "") then enum_text (dr_outcome d) else e
                        | None => enum_text (dr_outcome d)
                        end in
          Ok (mkTransition (set_termination_reason reason (set_status SessionFailed s)) [])
        else Ok (mkTransition (set_status WaitingChildren s) [CreateChildSessions])
    | _ => Err (Rejected "session_state_corrupt")
    end
  else match sp_phase sp with
       | Initial => Ok (mkTransition (set_status WaitingTriage s) [RunTriage])
       | Followup => Ok (mkTransition (set_status WaitingReasoner s) [RunReasoner])
       end.

Definition result_dict_eqb (a b : ExperimentResult) : bool :=
  json_eqb (ExperimentResult_to_dict a) (ExperimentResult_to_dict b).

(** [record_experiment_result]. *)
Definition record_experiment_result (s : AnalysisSession) (r : ExperimentResult) : sres Transition :=
  _ ← validate_session_result_indexes s;
  if bool_decide (result_id r ∈ sn_completed s) then
    match List.find (λ x, bool_decide (result_id x = result_id r)) (evidence_results (sn_evidence s)) with
    | None => Err (Failed (Raised RuntimeError))
    | Some accepted =>
        if result_dict_eqb accepted r then Ok (mkTransition s [])
        else Err (Rejected "duplicate_conflict")
    end
  else
    match List.filter (λ p, bool_decide (sp_experiment_id p = result_id r)) (sn_pending s) with
    | [] => Err (Rejected "experiment_not_pending")
    | [sp] =>
        _ ← validate_spec_context s sp;
        _ ← validate_result_against_spec sp r;
        u ← clone_session s;
        let u := accept_result u sp r in
        if bool_decide (length (sn_pending u) = 0%nat) then after_last_result u sp
        else Ok (mkTransition u [])
    | _ => Err (Rejected "session_state_corrupt")
    end.

(** ** Children and triage *)

(** [record_discovery_children_started]. *)
Definition record_discovery_children_started (s : AnalysisSession) (ids : list string) : sres Transition :=
  if bool_decide (¬ NoDup ids) then raise_value_error
  else if bool_decide (sn_status s = SessionCompleted) then
    if bool_decide (sorted_set (sn_child_session_ids s) = sorted_set ids) then Ok (mkTransition s [])
    else raise_value_error
  else if negb (bool_decide (sn_status s = WaitingChildren)) then raise_value_error
  else
    match dr_discovery <$> eb_discovery (sn_evidence s) with
    | [Some m] =>
        if negb (length ids =? length (dm_kernels m))%nat then raise_value_error
        else
          u ← clone_session s;
          Ok (mkTransition
                (set_termination_reason
                   ("created " +:+ pretty (Z.of_nat (length ids)) +:+ " kernel-pinned analysis sessions")
                   (set_status SessionCompleted (set_child_session_ids ids u))) [])
    | _ => raise_value_error
    end.

(** [record_triage_decision]. *)
Definition record_triage_decision (s : AnalysisSession) (d : TriageDecision) : sres Transition :=
  if negb (bool_decide (sn_status s = WaitingTriage)) then raise_value_error
  else match td_outcome d with
       | TriageInconclusive => terminate_inconclusive s (td_reason d) (Some d)
       | Finish =>
           u ← clone_session s;
           let u := set_termination_reason (td_reason d) (set_status SessionCompleted (set_triage (Some d) u)) in
           let u := set_publication ReportPending (set_report (Some (triage_report u d)) u) in
           Ok (mkTransition u [PublishReport])
       | Analyze =>
           u ← clone_session s;
           Ok (mkTransition (set_status WaitingReasoner (set_triage (Some d) u)) [RunReasoner])
       end.

(** ** What the reasoner may claim *)

Definition cited_complete_sanitizer_results (e : EvidenceBundle) (report : ExplainReport) :
    list SanitizerSweepResult :=
  List.filter (λ r,
    bool_decide (sw_execution_status r = Succeeded) && bool_decide (sw_outcome r = SaniFinding) &&
    bool_decide (sw_completeness r = Complete) && negb (output_truncated r) &&
    bool_decide (summary_issues r = []) &&
    match sw_log r with Some a => bool_decide (uri a ∈ evidence_refs report) | None => false end)
    (eb_sanitizer e).

Definition diagnosis_error_types : list string :=
  [ERROR_TYPE_UNINITIALIZED_READ; ERROR_TYPE_INVALID_MEMORY_ACCESS; ERROR_TYPE_MISALIGNED_ACCESS;
   ERROR_TYPE_MEMORY_LEAK].

(** [_has_cited_sanitizer_diagnosis]. *)
Definition has_cited_sanitizer_diagnosis (e : EvidenceBundle) (report : ExplainReport) : bool :=
  existsb (λ r, existsb (λ f, bool_decide (error_type f ∈ diagnosis_error_types)) (findings r))
    (cited_complete_sanitizer_results e report).

Definition race_finding (f : FindingRecord) : bool :=
  bool_decide (error_type f = ERROR_TYPE_RACE_CONDITION) && (0 <? count f) &&
  (negb (blank (error_detail f)) || negb (blank (raw f))).

Definition raw_detectors (a : TraceAnalysisEvidence) : list TraceDetectorSummary :=
  List.filter (λ s, bool_decide (ds_source_tool s = "cutracer") &&
                    bool_decide (ds_sub_component s ∈ ["data_race_raw"; "global_mem_raw"]))
    (detector_summaries a).

Definition trace_is_cited (r : TraceExperimentResult) (report : ExplainReport) : bool :=
  match analysis_artifact r with Some a => bool_decide (uri a ∈ evidence_refs report) | None => false end ||
  existsb (λ a, bool_decide (uri a ∈ evidence_refs report)) (raw_traces r).

Definition ordering_complete (r : TraceExperimentResult) (a : TraceAnalysisEvidence) : bool :=
  bool_decide (tr_execution_status r = Succeeded) && bool_decide (tr_completeness r = Complete) &&
  bool_decide (ta_execution_status a = Succeeded).

(** The loop over the traces; [limited] is [limited_raw_evidence]. *)
Fixpoint raw_trace_scan (report : ExplainReport) (limited : bool) (l : list TraceExperimentResult) : bool :=
  match l with
  | [] => limited
  | r :: l =>
      let cited := trace_is_cited r report in
      match analysis r with
      | None => raw_trace_scan report (limited || cited) l
      | Some a =>
          let complete := ordering_complete r a in
          let limited := limited || (cited && negb complete) ||
            existsb (λ s, negb complete || bool_decide (verdict s = "indeterminate") ||
                          bool_decide (ds_severity s = SeverityWarning)) (raw_detectors a) in
          if complete && cited &&
             existsb (λ s, bool_decide (verdict s = "violations_found") &&
                           bool_decide (ds_severity s = SeverityError) && (0 <? finding_count s))
               (raw_detectors a)
          then false
          else raw_trace_scan report limited l
      end
  end.

(** [_raw_trace_claim_is_unsupported]. *)
Definition raw_trace_claim_is_unsupported (e : EvidenceBundle) (report : ExplainReport) : bool :=
  if existsb (λ r, bool_decide (sw_tool r = "racecheck") && existsb race_finding (findings r))
       (cited_complete_sanitizer_results e report)
  then false
  else raw_trace_scan report false (eb_traces e).

Definition comma_text (l : list string) : string := str (join_text (chars ", ") (chars <$> l)).

(** [_analysis_report_rejection]. *)
Definition analysis_report_rejection (s : AnalysisSession) (d : AnalysisDecision) : option string :=
  match ad_report d with
  | None => None
  | Some report =>
      let foreign := set_minus (evidence_refs report) (artifact_ref_uris (sn_evidence s)) in
      if negb (bool_decide (foreign = []))
      then Some ("reasoner cited artifacts outside this session: " +:+ comma_text foreign)
      else if negb (bool_decide (ad_kind d = FinalDecision)) then None
      else if negb (bool_decide (evidence_sufficiency report = Sufficient))
      then Some "reasoner final claim is not supported by sufficient evidence"
      else if bool_decide (race_class report = RaceUnknown)
      then Some "reasoner final claim has an unknown race class"
      else if bool_decide (race_class report = RAW) && raw_trace_claim_is_unsupported (sn_evidence s) report
      then Some ("reasoner RAW diagnosis relies on incomplete ordering evidence; " +:+
                 "no cited complete RAW finding supports the mechanism")
      else if bool_decide (race_class report = RaceNone) && negb (blank (root_cause report)) &&
              negb (has_cited_sanitizer_diagnosis (sn_evidence s) report)
      then Some ("reasoner reported a root cause without a race class " +:+
                 "or a cited complete sanitizer finding")
      else if negb (bool_decide (race_class report = RaceNone)) && blank (root_cause report)
      then Some "reasoner classified a race without a root-cause explanation"
      else None
  end.

(** ** The reasoner's turn *)

(** [turns[-1].guard_notes.extend(...)]. *)
Definition note_last_turn (extra : list string) (l : list AnalysisTurn) : list AnalysisTurn :=
  match rev l with
  | [] => []
  | t :: r => rev r ++ [mkTurn (turn_index t) (decision t) (guard_notes t ++ extra)]
  end.

Definition initial_evidence (e : EvidenceBundle) : InitialEvidence := mkEvidence (eb_sanitizer e) (eb_stress e).

(** [_record_reasoner_turn]. *)
Definition record_reasoner_turn (s : AnalysisSession) (d : AnalysisDecision) :
    sres (AnalysisSession * option Transition) :=
  u ← clone_session s;
  let u := set_turns (sn_turns u ++ [mkTurn (Z.of_nat (length (sn_turns u))) d []]) u in
  let refuse reason :=
    let u := set_turns (note_last_turn [reason] (sn_turns u)) u in
    t ← terminate_inconclusive u reason None; Ok (u, Some t) in
  if (sn_round_index s =? 0) && initial_evidence_requires_inconclusive (initial_evidence (sn_evidence s))
  then refuse "initial evidence is incomplete"
  else match analysis_report_rejection s d with
       | None => Ok (u, None)
       | Some why => refuse why
       end.

(** A decision that ends the session, with its report. *)
Definition finish_with_report (u : AnalysisSession) (d : AnalysisDecision) (status : SessionStatus)
    (reason : string) : sres Transition :=
  match ad_report d with
  | None => raise_value_error
  | Some report =>
      let u := set_termination_reason reason (set_report (Some report) (set_status status u)) in
      Ok (mkTransition (set_publication ReportPending u) [PublishReport])
  end.

(** [record_analysis_decision]. *)
Definition record_analysis_decision (s : AnalysisSession) (d : AnalysisDecision)
    (guard : option ExperimentGuardPolicy) : sres Transition :=
  if negb (bool_decide (sn_status s = WaitingReasoner)) then raise_value_error
  else
    turn ← record_reasoner_turn s d;
    match turn with
    | (_, Some rejected) => Ok rejected
    | (u, None) =>
        match ad_kind d with
        | FinalDecision => finish_with_report u d SessionCompleted "reasoner finalized the report"
        | InconclusiveDecision => finish_with_report u d SessionInconclusive (ad_rationale d)
        | FollowupRequired =>
            if max_rounds (sn_budget u) <=? sn_round_index u
            then terminate_inconclusive u "follow-up round budget exhausted" None
            else
              ge ← lift_e (expand (default default_guard guard) u (requests d));
              let u := set_turns (note_last_turn (ge_notes ge ++ rejections ge) (sn_turns u)) u in
              if bool_decide (length (ge_experiments ge) = 0%nat) then
                terminate_inconclusive u
                  ("no new valid follow-up experiment" +:+
                   match rejections ge with
                   | [] => ""
                   | l => ": " +:+ str (join_text (chars "; ") (chars <$> l))
                   end) None
              else if max_experiments (sn_budget u) <? sn_submitted u + Z.of_nat (length (ge_experiments ge))
              then terminate_inconclusive u "experiment budget exhausted" None
              else
                let n := set_status WaitingFollowup (set_round_index (sn_round_index u + 1) u) in
                let n := set_fingerprints (sn_fingerprints u ++ ge_fingerprints ge)
                           (set_pending (ge_experiments ge) n) in
                Ok (mkTransition
                      (set_submitted (sn_submitted u + Z.of_nat (length (ge_experiments ge))) n)
                      [SubmitExperiments (ge_experiments ge)])
        end
    end.

(** ** Publication *)

Definition publishable (s : SessionStatus) : bool :=
  match s with SessionCompleted | SessionInconclusive => true | _ => false end.

(** [record_report_published]. *)
Definition record_report_published (s : AnalysisSession) (a : option ArtifactRef) : sres Transition :=
  if negb (publishable (sn_status s)) then raise_value_error
  else if negb (is_some (sn_report s)) then raise_value_error
  else if bool_decide (sn_publication s = ReportPublished) then Ok (mkTransition s [])
  else if negb (bool_decide (sn_publication s = ReportPending)) then raise_value_error
  else
    u ← clone_session s;
    Ok (mkTransition
          (set_published_report a (set_publication_error "" (set_publication ReportPublished u))) []).

(** [record_report_publication_failed]. *)
Definition record_report_publication_failed (s : AnalysisSession) (reason : string) : sres Transition :=
  let normalized := strip (chars reason) in
  if bool_decide (normalized = []) then raise_value_error
  else if negb (publishable (sn_status s)) then raise_value_error
  else if bool_decide (sn_publication s = ReportFailed) then Ok (mkTransition s [])
  else if negb (bool_decide (sn_publication s = ReportPending)) then raise_value_error
  else
    u ← clone_session s;
    Ok (mkTransition (set_publication_error (clipped normalized) (set_publication ReportFailed u)) []).

(** [build_session_report]. *)
Definition build_session_report (s : AnalysisSession) : sres SessionReport :=
  match sn_report s with
  | None => raise_value_error
  | Some report =>
      if negb (publishable (sn_status s)) then raise_value_error
      else
        Ok (mkSessionReport (sn_session_id s) (sn_status s) report (sn_evidence s) (sn_turns s)
              (sn_termination_reason s) (Some (sn_unit s)) (sn_triage s) (sn_history s)
              (artifact_ref_uris (sn_evidence s))
              (fromkeys ((λ c, uri (artifact c)) <$> omap triggering_config (eb_stress (sn_evidence s))))
              (fromkeys (uri <$> omap minimized_config (eb_reductions (sn_evidence s))))
              match er_round_index <$> sn_history s with
              | [] => 0
              | n :: l => fold_left Z.max l n + 1
              end)
  end.
