(* ===== verification/SessionLaws.v ===== *)
(** The laws of the session state machine of src/python/cutracer/service/session.py:
    an invariant of every session that can be reached, that no session runs
    forever, and that no handler fails on what a session waits for. *)
From S2P Require Import Prelude.
From S2P Require Import PyStr.
From S2P Require Import PyDict.
From S2P Require Import Json.
From S2P Require Import PyText.
From S2P Require Import Contracts.
From S2P Require Import Results.
From S2P Require Import Experiments.
From S2P Require Import SessionContracts.
From S2P Require Import Triage.
From S2P Require Import SanitizerResults.
From S2P Require Import Policy.
From S2P Require Import SessionValidation.
From S2P Require Import Session.
From Stdlib Require Import Ascii.
From stdpp Require Import relations.
Local Open Scope Z_scope.

(** ** The error monad of the session *)

Lemma lift_d_ok {A} (r : dres A) a : lift_d r = Ok a → r = Ok a.
Proof. destruct r; cbn; congruence. Qed.
Lemma lift_e_ok {A} (r : res exn A) a : lift_e r = Ok a → r = Ok a.
Proof. destruct r; cbn; congruence. Qed.
Lemma reject_if_ok b code : reject_if b code = Ok () → b = false.
Proof. by destruct b. Qed.
Lemma assert_some_ok {A} (o : option A) a : assert_some o = Ok a → o = Some a.
Proof. destruct o; cbn; congruence. Qed.

(** A well-formed session is its own clone. *)
Lemma clone_id_session s : valid s → clone_session s = Ok s.
Proof. intros Hv. unfold clone_session. by rewrite of_to_json. Qed.

(** ** What holds of a session *)

Definition waiting_results (s : SessionStatus) : bool :=
  match s with WaitingInitial | WaitingFollowup => true | _ => false end.

(** Every configuration in the evidence replays the session's unit. *)
Definition replayable (u : WorkUnit) (e : EvidenceBundle) : Prop :=
  ∀ r c, r ∈ eb_stress e → triggering_config r = Some c → same_replay_context c u = true.

(** The accounts: rounds, experiments, fingerprints, history and turns. *)
Record session_core (s : AnalysisSession) : Prop := {
  sc_valid : valid s;
  sc_rounds : 0 ≤ sn_round_index s ≤ max_rounds (sn_budget s);
  sc_submitted : Z.of_nat (length (sn_pending s)) ≤ sn_submitted s ≤ max_experiments (sn_budget s);
  sc_fingerprints : Z.of_nat (length (sn_fingerprints s)) = sn_submitted s;
  sc_no_repeat : NoDup (sn_fingerprints s);
  sc_replay : replayable (sn_unit s) (sn_evidence s);
  sc_history : length (sn_history s) = length (sn_completed s);
  sc_turns : Z.of_nat (length (sn_turns s)) ≤ sn_round_index s + 1
}.

(** What the status says about the rest. *)
Record session_shape (s : AnalysisSession) : Prop := {
  sh_pending : sn_pending s = [] ↔ waiting_results (sn_status s) = false;
  sh_turns : terminal_status (sn_status s) = false → Z.of_nat (length (sn_turns s)) = sn_round_index s;
  sh_report : sn_report s ≠ None → publishable (sn_status s) = true;
  sh_inconclusive : sn_status s = SessionInconclusive → sn_report s ≠ None;
  sh_completed : sn_status s = SessionCompleted → sn_discovery_plan s = None → sn_report s ≠ None;
  sh_children : sn_status s = WaitingChildren → sn_discovery_plan s ≠ None;
  sh_publication : sn_publication s = ReportNotReady ↔ sn_report s = None
}.

Definition session_inv (s : AnalysisSession) : Prop := session_core s ∧ session_shape s.

Lemma core_clone s : session_core s → clone_session s = Ok s.
Proof. intros H. apply clone_id_session, sc_valid, H. Qed.

Lemma replayable_first u e c :
  replayable u e → bundle_triggering_config e = Some c → same_replay_context c u = true.
Proof.
  intros Hr Hc. unfold bundle_triggering_config in Hc.
  assert (c ∈ omap triggering_config (eb_stress e)) as Hin.
  { destruct (omap _ _) as [|x l]; [done|]. injection Hc as ->. by left. }
  apply list_elem_of_omap in Hin as (r & Hin & H). by eapply Hr.
Qed.

(** ** The ends of a session *)

(** Fields that a transition leaves alone, or sets to what is known. *)
Ltac session_fields :=
  cbn; intros; first [ done | lia | by split_and! | by auto | congruence | split; intros; congruence ].
Ltac session_cases H :=
  let Hv := fresh "Hv" in
  destruct H as [Hv ? ? ? ? ? ? ?]; destruct Hv as (?&?&?&?&?&?&?&?&?).

(** From a session that waits for no result. *)
Lemma terminate_inv s reason triage t :
  session_core s → sn_pending s = [] → valid_opt triage →
  terminate_inconclusive s reason triage = Ok t → session_inv (next t).
Proof.
  intros H Hp Ht. unfold terminate_inconclusive. rewrite (core_clone _ H). cbn [mbind res_bind].
  intros E. injection E as <-. session_cases H.
  split; constructor; destruct triage as [d|]; session_fields.
Qed.

Lemma terminate_total s reason triage :
  session_core s → ∃ t, terminate_inconclusive s reason triage = Ok t.
Proof. intros H. unfold terminate_inconclusive. rewrite (core_clone _ H). by eexists. Qed.

(** ** What a session has left *)

(** What it still has to spend: its experiments, its rounds, and the
    decisions its state waits for. *)
Definition state_rank (s : AnalysisSession) : Z :=
  match sn_status s with
  | WaitingInitial | WaitingFollowup => 0
  | WaitingTriage => 3
  | WaitingReasoner => 2
  | WaitingChildren => 1
  | _ => if bool_decide (sn_publication s = ReportPending) then 1 else 0
  end.

Definition session_credit (s : AnalysisSession) : Z :=
  max_experiments (sn_budget s) - sn_submitted s + Z.of_nat (length (sn_pending s)) +
  (max_rounds (sn_budget s) - sn_round_index s).

Definition session_measure (s : AnalysisSession) : Z := 4 * session_credit s + state_rank s.

Lemma state_rank_range s : 0 ≤ state_rank s ≤ 3.
Proof. unfold state_rank. destruct (sn_status s); try lia; destruct (bool_decide _); lia. Qed.

Lemma rank_pending u :
  terminal_status (sn_status u) = true → sn_publication u = ReportPending → state_rank u = 1.
Proof. unfold state_rank. intros H ->. by destruct (sn_status u). Qed.

Lemma rank_settled u :
  terminal_status (sn_status u) = true → sn_publication u ≠ ReportPending → state_rank u = 0.
Proof. unfold state_rank. intros H Hp. rewrite bool_decide_false by done. by destruct (sn_status u). Qed.

Lemma rank_of u : terminal_status (sn_status u) = false → state_rank u =
  match sn_status u with WaitingTriage => 3 | WaitingReasoner => 2 | WaitingChildren => 1 | _ => 0 end.
Proof. unfold state_rank. by destruct (sn_status u). Qed.

Lemma terminate_spends u reason triage t :
  session_core u → terminate_inconclusive u reason triage = Ok t →
  session_credit (next t) = session_credit u ∧ state_rank (next t) = 1.
Proof.
  intros H. unfold terminate_inconclusive. rewrite (core_clone _ H). cbn [mbind res_bind].
  intros E. injection E as <-. split; [by destruct triage|]. apply rank_pending; by destruct triage.
Qed.

(** The session ends with a report to publish. *)
Definition ended (t : Transition) : Prop :=
  publishable (sn_status (next t)) = true ∧ sn_publication (next t) = ReportPending ∧ effects t = [PublishReport].

Lemma terminate_ended u reason triage t :
  session_core u → terminate_inconclusive u reason triage = Ok t → ended t.
Proof.
  intros H. unfold terminate_inconclusive. rewrite (core_clone _ H). cbn [mbind res_bind].
  intros E. injection E as <-. by destruct triage.
Qed.



Lemma infrastructure_failure_inv s reason t :
  session_inv s → record_infrastructure_failure s reason = Ok t → session_inv (next t).
Proof.
  intros [H Hsh]. unfold record_infrastructure_failure. destruct (bool_decide _); [done|].
  destruct (terminal_status (sn_status s)) eqn:Et; [by intros [= <-]|].
  rewrite (core_clone _ H). cbn [mbind res_bind]. intros E. injection E as <-.
  assert (sn_publication s = ReportNotReady) as Hpub.
  { apply (sh_publication _ Hsh). destruct (sn_report s) eqn:Er; [|done].
    pose proof (sh_report _ Hsh) as Hr. rewrite Er in Hr. specialize (Hr ltac:(done)).
    by destruct (sn_status s). }
  session_cases H. split; constructor; session_fields.
Qed.

(** An active session has no report. *)
Lemma active_no_report s :
  session_shape s → publishable (sn_status s) = false → sn_report s = None ∧ sn_publication s = ReportNotReady.
Proof.
  intros Hsh Ha. assert (sn_report s = None) as Hr.
  { destruct (sn_report s) eqn:Er; [|done]. pose proof (sh_report _ Hsh) as H. rewrite Er in H.
    rewrite H in Ha; done. }
  split; [done|]. by apply (sh_publication _ Hsh).
Qed.

(** ** Results *)

Lemma bool_and_true a b : a && b = true → a = true ∧ b = true.
Proof. by intros [-> ->]%andb_true_iff. Qed.

Ltac split_bools :=
  repeat match goal with
         | H : (_ && _) = true |- _ => apply andb_true_iff in H as [? ?]
         | H : (_ || _) = false |- _ => apply orb_false_iff in H as [? ?]
         | H : negb _ = true |- _ => apply negb_true_iff in H
         | H : negb _ = false |- _ => apply negb_false_iff in H
         | H : bool_decide _ = true |- _ => apply bool_decide_eq_true in H
         | H : bool_decide _ = false |- _ => apply bool_decide_eq_false in H
         end.

Lemma KernelId_eqb_trans a b c : KernelId_eqb a b = true → KernelId_eqb b c = true → KernelId_eqb a c = true.
Proof.
  unfold KernelId_eqb. intros H1 H2. split_bools.
  by rewrite !bool_decide_true by congruence.
Qed.

(** Units that compare equal are replayed by the same configurations. *)
Lemma replay_unit_eqb c u v :
  WorkUnit_eqb u v = true → same_replay_context c u = true → same_replay_context c v = true.
Proof.
  unfold WorkUnit_eqb, same_replay_context. intros Hu Hc. split_bools.
  rewrite !bool_decide_true by congruence. cbn.
  repeat match goal with H : opt_kernel_eqb _ _ = true |- _ => revert H end. unfold opt_kernel_eqb.
  destruct (tc_kernel c), (kernel u), (kernel v); try done. intros Ha Hb.
  by eapply KernelId_eqb_trans.
Qed.

(** One result named, out of pending specifications. *)
Lemma one_pending s id sp :
  List.filter (λ p, bool_decide (sp_experiment_id p = id)) (sn_pending s) = [sp] →
  sp ∈ sn_pending s ∧ sp_experiment_id sp = id ∧
  S (length (List.filter (λ p, negb (bool_decide (sp_experiment_id p = id))) (sn_pending s)))
    = length (sn_pending s).
Proof.
  intros H.
  assert (In sp (List.filter (λ p, bool_decide (sp_experiment_id p = id)) (sn_pending s))) as Hin
    by (rewrite H; by left).
  apply List.filter_In in Hin as [Hin Hid]. split_bools. split_and!; [by apply list_elem_of_In|done|].
  rewrite <- (List.filter_length (λ p, bool_decide (sp_experiment_id p = id)) (sn_pending s)), H. done.
Qed.

Lemma Forall_list_filter {A} (P : A → Prop) (f : A → bool) l : Forall P l → Forall P (List.filter f l).
Proof. induction 1 as [|a l Ha _ IH]; cbn; [done|]. destruct (f a); [by constructor|done]. Qed.

(** What a validated stress result brings into the evidence. *)
Lemma validated_replays sp u r c :
  WorkUnit_eqb (sp_unit sp) u = true → validate_stress_result sp r = Ok () → triggering_config r = Some c →
  same_replay_context c u = true.
Proof.
  intros Hu H Hc. unfold validate_stress_result in H.
  apply bind_ok in H as ([] & _ & H). apply bind_ok in H as ([] & H & _).
  unfold validate_stress_outcome in H. apply bind_ok in H as ([] & H & _).
  unfold validate_stress_triggering_config in H. rewrite Hc in H.
  apply bind_ok in H as ([] & _ & H). unfold validate_triggering_config in H.
  apply bind_ok in H as ([] & H & _). apply reject_if_ok in H. split_bools.
  by eapply replay_unit_eqb.
Qed.

Lemma replayable_add u e r :
  replayable u e →
  (∀ x c, r = StressResult x → triggering_config x = Some c → same_replay_context c u = true) →
  replayable u (bundle_add e r).
Proof.
  intros He Hr x c Hx Hc. destruct e as [d sa st tr rd], r as [y|y|y|y|y]; cbn in Hx; try by eapply He.
  apply elem_of_app in Hx as [Hx|Hx%list_elem_of_singleton]; [by eapply He|]. subst x. by eapply Hr.
Qed.

(** What a session checked before it took a result. *)
Lemma validated_result_replays s sp r :
  WorkUnit_eqb (sp_unit sp) (sn_unit s) = true → validate_result_against_spec sp r = Ok () →
  ∀ x c, r = StressResult x → triggering_config x = Some c → same_replay_context c (sn_unit s) = true.
Proof.
  intros Hu H x c -> Hc. unfold validate_result_against_spec in H.
  apply bind_ok in H as ([] & _ & H). apply bind_ok in H as ([] & _ & H).
  apply bind_ok in H as ([] & _ & H). by eapply validated_replays.
Qed.

Lemma spec_context_ok s sp :
  validate_spec_context s sp = Ok () →
  sp_session_id sp = sn_session_id s ∧ WorkUnit_eqb (sp_unit sp) (sn_unit s) = true ∧
  sn_status s = match sp_phase sp with Initial => WaitingInitial | Followup => WaitingFollowup end.
Proof.
  unfold validate_spec_context. intros H.
  apply bind_ok in H as ([] & H1 & H). apply bind_ok in H as ([] & H2 & H).
  apply reject_if_ok in H1, H2. split_bools. split_and!; [done..|].
  destruct (sp_phase sp); apply bind_ok in H as ([] & H3 & _); apply reject_if_ok in H3; by split_bools.
Qed.

(** The accounts after a result. *)
Lemma accept_core s sp r :
  session_core s → valid r → WorkUnit_eqb (sp_unit sp) (sn_unit s) = true →
  validate_result_against_spec sp r = Ok () → session_core (accept_result s sp r).
Proof.
  intros H Hr Hu Hv. pose proof (validated_result_replays s sp r Hu Hv) as Hre.
  session_cases H.
  pose proof (List.filter_length_le (λ p, negb (bool_decide (sp_experiment_id p = result_id r))) (sn_pending s)) as Hle.
  constructor; cbn; try done.
  - split_and!; try done; cbn; [by apply bundle_add_valid|by apply Forall_list_filter].
  - lia.
  - by apply replayable_add.
  - rewrite !length_app. cbn. lia.
Qed.

(** What an accepted result does to the session. *)
Inductive accepted (s : AnalysisSession) (r : ExperimentResult) (t : Transition) : Prop :=
| AcceptReplay : t = mkTransition s [] → accepted s r t
| AcceptFirst sp :
    List.filter (λ p, bool_decide (sp_experiment_id p = result_id r)) (sn_pending s) = [sp] →
    validate_spec_context s sp = Ok () → validate_result_against_spec sp r = Ok () →
    (let u := accept_result s sp r in
     if bool_decide (length (sn_pending u) = 0%nat) then after_last_result u sp = Ok t
     else t = mkTransition u []) → accepted s r t.

Lemma record_result_accepted s r t :
  session_core s → record_experiment_result s r = Ok t → accepted s r t.
Proof.
  intros H E. unfold record_experiment_result in E. apply bind_ok in E as ([] & _ & E).
  destruct (bool_decide (result_id r ∈ sn_completed s)).
  { destruct (List.find _ _) as [x|]; [|done]. destruct (result_dict_eqb x r); [|done].
    injection E as <-. by left. }
  destruct (List.filter (λ p, bool_decide (sp_experiment_id p = result_id r)) (sn_pending s))
    as [|sp [|sp' l]] eqn:Ef; try done.
  apply bind_ok in E as ([] & Hc & E). apply bind_ok in E as ([] & Hv & E).
  rewrite (core_clone _ H) in E. cbn [mbind res_bind] in E. cbv zeta in E.
  apply (AcceptFirst s r t sp); [done..|]. cbv zeta.
  destruct (bool_decide (length (sn_pending (accept_result s sp r)) = 0%nat)); [done|by injection E as <-].
Qed.

(** A session without a report is in shape when its waiting state fits. *)
Lemma shape_no_report u :
  publishable (sn_status u) = false → sn_report u = None → sn_publication u = ReportNotReady →
  (terminal_status (sn_status u) = false → Z.of_nat (length (sn_turns u)) = sn_round_index u) →
  (sn_pending u = [] ↔ waiting_results (sn_status u) = false) →
  (sn_status u = WaitingChildren → sn_discovery_plan u ≠ None) → session_shape u.
Proof.
  intros Ha Hr Hp Ht Hw Hd. constructor; try done.
  - intros E. by rewrite E in Ha.
  - intros E. by rewrite E in Ha.
Qed.

Lemma record_result_inv s r t :
  session_inv s → valid r → record_experiment_result s r = Ok t → session_inv (next t).
Proof.
  intros [H Hsh] Hr E. destruct (record_result_accepted s r t H E) as [->|sp Hf Hc Hv Ht]; [done|].
  destruct (spec_context_ok s sp Hc) as (_ & Hu & Hst).
  pose proof (accept_core s sp r H Hr Hu Hv) as Hcore. revert Ht.
  assert (publishable (sn_status s) = false) as Hact by (rewrite Hst; by destruct (sp_phase sp)).
  destruct (active_no_report s Hsh Hact) as [Hrep Hpub].
  assert (Z.of_nat (length (sn_turns s)) = sn_round_index s) as Hturns.
  { apply (sh_turns _ Hsh). rewrite Hst. by destruct (sp_phase sp). }
  cbv zeta. destruct (bool_decide_reflect (length (sn_pending (accept_result s sp r)) = 0%nat)) as [Hlast|Hmore].
  2: { intros ->. split; [done|]. apply shape_no_report; try done.
       - split; [intros E0; destruct Hmore; change (sn_pending (accept_result s sp r) = []) in E0; by rewrite E0|].
         cbn. rewrite Hst. by destruct (sp_phase sp).
       - cbn. rewrite Hst. by destruct (sp_phase sp). }
  apply length_zero_iff_nil in Hlast.
  assert (∀ st, publishable st = false → waiting_results st = false →
            (st = WaitingChildren → sn_discovery_plan s ≠ None) →
            session_inv (set_status st (accept_result s sp r))) as Hset.
  { intros st Hp Hw Hd. split; [|by apply shape_no_report].
    clear -Hcore. session_cases Hcore. constructor; session_fields. }
  unfold after_last_result. destruct (is_some (sn_discovery_plan _)) eqn:Ep.
  - assert (sn_discovery_plan s ≠ None) as Hplan by (intros E0; cbn in Ep; by rewrite E0 in Ep).
    destruct (eb_discovery _) as [|d [|d' ds]]; try done.
    destruct (negb _); intros Et; injection Et as <-; [|by apply Hset].
    destruct (Hset SessionFailed eq_refl eq_refl ltac:(done)) as [Hc' Hs']. split.
    + clear -Hc'. session_cases Hc'. constructor; session_fields.
    + by apply shape_no_report.
  - destruct (sp_phase sp); intros Et; injection Et as <-; by apply Hset.
Qed.

(** ** Children, triage and publication *)

Lemma children_inv s ids t :
  session_inv s → record_discovery_children_started s ids = Ok t → session_inv (next t).
Proof.
  intros [H Hsh]. unfold record_discovery_children_started. destruct (bool_decide (¬ _)); [done|].
  destruct (bool_decide (sn_status s = SessionCompleted)).
  { destruct (bool_decide _); [by intros [= <-]|done]. }
  destruct (bool_decide_reflect (sn_status s = WaitingChildren)) as [Est|]; [|done]. cbn [negb].
  destruct (dr_discovery <$> _) as [|[m|] [|? ?]]; try done. destruct (negb _); [done|].
  rewrite (core_clone _ H). cbn [mbind res_bind]. intros E. injection E as <-.
  destruct (active_no_report s Hsh ltac:(by rewrite Est)) as [Hrep Hpub].
  pose proof (sh_children _ Hsh Est) as Hd.
  assert (sn_pending s = []) as Hp by (apply (sh_pending _ Hsh); by rewrite Est).
  session_cases H. split; constructor; session_fields.
Qed.

Lemma triage_inv s d t :
  session_inv s → valid d → record_triage_decision s d = Ok t → session_inv (next t).
Proof.
  intros [H Hsh] Hd. unfold record_triage_decision.
  destruct (bool_decide_reflect (sn_status s = WaitingTriage)) as [Est|]; [|done]. cbn [negb].
  destruct (active_no_report s Hsh ltac:(by rewrite Est)) as [Hrep Hpub].
  assert (sn_pending s = []) as Hp by (apply (sh_pending _ Hsh); by rewrite Est).
  assert (Z.of_nat (length (sn_turns s)) = sn_round_index s) as Ht
    by (apply (sh_turns _ Hsh); by rewrite Est).
  destruct (td_outcome d).
  - rewrite (core_clone _ H). cbn [mbind res_bind]. intros E. injection E as <-.
    session_cases H. split; constructor; session_fields.
  - rewrite (core_clone _ H). cbn [mbind res_bind]. intros E. injection E as <-.
    session_cases H. split; constructor; session_fields.
  - by apply terminate_inv.
Qed.

Lemma published_inv s a t :
  session_inv s → record_report_published s a = Ok t → session_inv (next t).
Proof.
  intros [H Hsh]. unfold record_report_published.
  destruct (publishable (sn_status s)) eqn:Ep; [|done]. cbn [negb].
  destruct (sn_report s) eqn:Er; [|done]. cbn [is_some negb].
  destruct (bool_decide (sn_publication s = ReportPublished)); [by intros [= <-]|].
  destruct (negb _); [done|]. rewrite (core_clone _ H). cbn [mbind res_bind]. intros E. injection E as <-.
  destruct Hsh. session_cases H. split; constructor; session_fields.
Qed.

Lemma publication_failed_inv s reason t :
  session_inv s → record_report_publication_failed s reason = Ok t → session_inv (next t).
Proof.
  intros [H Hsh]. unfold record_report_publication_failed. destruct (bool_decide _); [done|].
  destruct (publishable (sn_status s)) eqn:Ep; [|done]. cbn [negb].
  destruct (bool_decide (sn_publication s = ReportFailed)); [by intros [= <-]|].
  destruct (bool_decide_reflect (sn_publication s = ReportPending)) as [Epub|]; [|done].
  cbn [negb]. rewrite (core_clone _ H). cbn [mbind res_bind]. intros E. injection E as <-.
  destruct Hsh as [? ? ? ? ? ? Hp]. assert (sn_report s ≠ None) as Hr.
  { intros E. apply Hp in E. by rewrite E in Epub. }
  session_cases H. split; constructor; session_fields.
Qed.

(** ** The reasoner's turn *)

Lemma note_last_turn_length extra l : length (note_last_turn extra l) = length l.
Proof.
  unfold note_last_turn. pose proof (length_rev l) as Hl. revert Hl. generalize (rev l) as k.
  intros [|t r] Hl; [exact Hl|]. rewrite length_app, length_rev. cbn in Hl |- *. lia.
Qed.

Lemma note_last_turn_valid extra l : Forall valid l → Forall valid (note_last_turn extra l).
Proof.
  intros H. unfold note_last_turn. apply Forall_rev in H. destruct H as [|t r Ht Hr]; [constructor|].
  apply Forall_app. split; [by apply Forall_rev|]. by apply Forall_singleton.
Qed.

Lemma core_notes s extra : session_core s → session_core (set_turns (note_last_turn extra (sn_turns s)) s).
Proof.
  intros H. session_cases H. constructor; cbn; try done.
  - split_and!; try done. by apply note_last_turn_valid.
  - by rewrite note_last_turn_length.
Qed.

(** The session with the turn recorded. *)
Definition with_turn (s : AnalysisSession) (d : AnalysisDecision) : AnalysisSession :=
  set_turns (sn_turns s ++ [mkTurn (Z.of_nat (length (sn_turns s))) d []]) s.

Lemma with_turn_core s d :
  session_core s → valid d → Z.of_nat (length (sn_turns s)) = sn_round_index s →
  session_core (with_turn s d).
Proof.
  intros H Hd Ht. session_cases H. constructor; cbn; try done.
  - split_and!; try done. apply Forall_app. split; [done|]. by apply Forall_singleton.
  - rewrite length_app. cbn. lia.
Qed.

(** The session goes on to its next round. *)
Definition goes_on (s : AnalysisSession) (t : Transition) : Prop :=
  sn_status (next t) = WaitingFollowup ∧ sn_round_index (next t) = sn_round_index s + 1 ∧
  sn_budget (next t) = sn_budget s ∧ effects t = [SubmitExperiments (sn_pending (next t))].

(** A decision ends the session, or costs it a round. *)
Definition turn_taken (s : AnalysisSession) (t : Transition) : Prop :=
  (session_credit (next t) = session_credit s ∧ state_rank (next t) = 1 ∧ ended t) ∨
  (session_credit (next t) < session_credit s ∧ goes_on s t).

Lemma terminate_turn u s reason triage t :
  session_core u → session_credit u = session_credit s → terminate_inconclusive u reason triage = Ok t →
  turn_taken s t.
Proof.
  intros H Hc E. left. destruct (terminate_spends _ _ _ _ H E) as [H1 H2]. rewrite <- Hc.
  split_and!; [exact H1|exact H2|..]; by destruct (terminate_ended _ _ _ _ H E) as (? & ? & ?).
Qed.

(** The turn is refused, with its reason noted, or it stands. *)
Lemma reasoner_turn_total s d :
  session_core s → sn_pending s = [] → valid d → Z.of_nat (length (sn_turns s)) = sn_round_index s →
  ∃ u o, record_reasoner_turn s d = Ok (u, o) ∧
    match o with
    | Some t => session_inv (next t) ∧ turn_taken s t
    | None => u = with_turn s d
    end.
Proof.
  intros H Hp Hd Ht. pose proof (with_turn_core s d H Hd Ht) as Hu.
  unfold record_reasoner_turn. rewrite (core_clone _ H). cbn [mbind res_bind]. cbv zeta.
  assert (∀ why, ∃ u o,
    (t ← terminate_inconclusive (set_turns (note_last_turn [why] (sn_turns (with_turn s d))) (with_turn s d)) why None;
     Ok (set_turns (note_last_turn [why] (sn_turns (with_turn s d))) (with_turn s d), Some t)) = Ok (u, o) ∧
    match o with
    | Some t => session_inv (next t) ∧ turn_taken s t
    | None => u = with_turn s d
    end) as Hrefuse.
  { intros why. pose proof (core_notes _ [why] Hu) as Hn. destruct (terminate_total _ why None Hn) as [t Et].
    rewrite Et. eexists _, _. split; [reflexivity|].
    split; [exact (terminate_inv _ _ None t Hn Hp I Et)|]. exact (terminate_turn _ s _ _ _ Hn eq_refl Et). }
  destruct (_ && _); [apply Hrefuse|]. destruct (analysis_report_rejection s d); [apply Hrefuse|].
  by eexists _, _.
Qed.

Lemma finish_inv u d st reason t :
  session_core u → sn_pending u = [] → publishable st = true →
  finish_with_report u d st reason = Ok t → session_inv (next t) ∧ turn_taken u t.
Proof.
  intros H Hp Hst. unfold finish_with_report. destruct (ad_report d) as [rep|]; [|done].
  intros E. injection E as <-. split.
  - session_cases H. split; constructor; destruct st; session_fields.
  - left. split_and!; [done|apply rank_pending; by destruct st|done..].
Qed.

Lemma mapM_length {A B} (f : A → res exn B) l k : mapM f l = Ok k → length k = length l.
Proof.
  revert k. induction l as [|a l IH]; cbn; intros k H; [by injection H as <-|].
  apply bind_ok in H as (b & _ & H). apply bind_ok in H as (c & Hc & H). injection H as <-.
  cbn. by rewrite (IH c Hc).
Qed.

(** The next round. *)
Definition next_round (u : AnalysisSession) (ge : GuardedExperiments) : AnalysisSession :=
  set_submitted (sn_submitted u + Z.of_nat (length (ge_experiments ge)))
    (set_fingerprints (sn_fingerprints u ++ ge_fingerprints ge)
      (set_pending (ge_experiments ge)
        (set_status WaitingFollowup (set_round_index (sn_round_index u + 1) u)))).

Lemma next_round_inv u ge :
  session_core u → guard_inv u ge → Forall valid (ge_experiments ge) → ge_experiments ge ≠ [] →
  sn_round_index u < max_rounds (sn_budget u) →
  sn_submitted u + Z.of_nat (length (ge_experiments ge)) ≤ max_experiments (sn_budget u) →
  Z.of_nat (length (sn_turns u)) = sn_round_index u + 1 → sn_report u = None → sn_publication u = ReportNotReady →
  session_inv (next_round u ge).
Proof.
  intros H (G1 & G2 & G3 & _) Hv Hne Hr Hb Ht Hrep Hpub. apply mapM_length in G1. session_cases H.
  split; constructor; try (session_fields; fail); cbn.
  - rewrite length_app. lia.
  - apply NoDup_app. split_and!; [done| |done]. intros f Hf Hin. by apply (G3 f Hin).
Qed.

Lemma next_round_credit u ge :
  sn_pending u = [] → session_credit (next_round u ge) = session_credit u - 1.
Proof.
  intros Hp. unfold session_credit. rewrite Hp.
  change (sn_pending (next_round u ge)) with (ge_experiments ge).
  change (sn_budget (next_round u ge)) with (sn_budget u).
  change (sn_submitted (next_round u ge)) with (sn_submitted u + Z.of_nat (length (ge_experiments ge))).
  change (sn_round_index (next_round u ge)) with (sn_round_index u + 1). cbn [length]. lia.
Qed.

(** In a state that waits for the reasoner every decision is taken. *)
Lemma analysis_total_inv s d g :
  session_inv s → sn_status s = WaitingReasoner → valid d →
  ∃ t, record_analysis_decision s d g = Ok t ∧ session_inv (next t) ∧ turn_taken s t.
Proof.
  intros [H Hsh] Est Hd. unfold record_analysis_decision. rewrite bool_decide_true by done. cbn [negb].
  assert (sn_pending s = []) as Hp by (apply (sh_pending _ Hsh); by rewrite Est).
  assert (Z.of_nat (length (sn_turns s)) = sn_round_index s) as Ht
    by (apply (sh_turns _ Hsh); by rewrite Est).
  destruct (active_no_report s Hsh ltac:(by rewrite Est)) as [Hrep Hpub].
  destruct (reasoner_turn_total s d H Hp Hd Ht) as (u & o & -> & Ho). cbn [mbind res_bind].
  destruct o as [t|]; [by exists t|]. subst u.
  pose proof (with_turn_core s d H Hd Ht) as Hu. revert Hu.
  assert (sn_pending (with_turn s d) = []) as Hup by done.
  assert (Z.of_nat (length (sn_turns (with_turn s d))) = sn_round_index (with_turn s d) + 1) as Hut
    by (cbn; rewrite length_app; cbn; lia).
  assert (sn_report (with_turn s d) = None ∧ sn_publication (with_turn s d) = ReportNotReady) as [Hur Hupub] by done.
  change (turn_taken s) with (turn_taken (with_turn s d)).
  generalize dependent (with_turn s d). intros u Hup Hut Hur Hupub Hu. destruct Hd as [Hck Hrq].
  assert (∀ why v, session_core v → sn_pending v = [] → session_credit v = session_credit u →
    ∃ t, terminate_inconclusive v why None = Ok t ∧ session_inv (next t) ∧ turn_taken u t) as Hterm.
  { intros why v Hv Hvp Hcr. destruct (terminate_total v why None Hv) as [t Et]. exists t.
    split; [done|].
    split; [exact (terminate_inv _ _ None t Hv Hvp I Et)|]. exact (terminate_turn _ u _ _ _ Hv Hcr Et). }
  destruct (ad_kind d) eqn:Ek.
  - destruct (ad_report d) as [rep|] eqn:Er.
    2: { unfold AnalysisDecision_check in Hck. by rewrite Ek, Er in Hck. }
    destruct (finish_with_report u d SessionCompleted "reasoner finalized the report") as [t|] eqn:Ef.
    + exists t. split; [done|]. refine (finish_inv u d _ _ t Hu Hup _ Ef). done.
    + unfold finish_with_report in Ef. by rewrite Er in Ef.
  - destruct (Z.leb_spec (max_rounds (sn_budget u)) (sn_round_index u)) as [|Hrd]; [by apply Hterm|].
    destruct (expand_total (default default_guard g) u (requests d)) as (ge & Ege & Hge).
    { by apply sc_valid. }
    { intros c Hc. eapply replayable_first; [|exact Hc]. by apply sc_replay. }
    { done. }
    rewrite Ege. cbn [lift_e mbind res_bind]. cbv zeta.
    pose proof (core_notes u (ge_notes ge ++ rejections ge) Hu) as Hn.
    set (n := set_turns _ u) in Hn |- *.
    destruct (bool_decide_reflect (length (ge_experiments ge) = 0%nat)) as [|Hne];
      [apply Hterm; [exact Hn|exact Hup|done]|].
    destruct (Z.ltb_spec (max_experiments (sn_budget n)) (sn_submitted n + Z.of_nat (length (ge_experiments ge))));
      [apply Hterm; [exact Hn|exact Hup|done]|].
    eexists. split; [reflexivity|]. split.
    2: { right. pose proof (next_round_credit n ge Hup) as Hc. split; [|done].
         change (session_credit (next_round n ge) < session_credit n). lia. }
    apply (next_round_inv n ge); try done.
    + apply expand_inv in Ege. exact Ege.
    + by destruct (ge_experiments ge).
    + unfold n. cbn. by rewrite note_last_turn_length.
  - destruct (ad_report d) as [rep|] eqn:Er.
    2: { unfold AnalysisDecision_check in Hck. by rewrite Ek, Er in Hck. }
    destruct (finish_with_report u d SessionInconclusive (ad_rationale d)) as [t|] eqn:Ef.
    + exists t. split; [done|]. refine (finish_inv u d _ _ t Hu Hup _ Ef). done.
    + unfold finish_with_report in Ef. by rewrite Er in Ef.
Qed.

(** ** Creation *)

(** A policy is built through the checks of its class. *)
Definition policy_ok (p : InitialCampaignPolicy) : Prop :=
  InitialCampaignPolicy_check p = Ok () ∧ valid (stress_options p).

Lemma default_policy_ok : policy_ok default_policy.
Proof. split; vm_compute; reflexivity. Qed.

Lemma mapM_sublist {A B} (f : A → res exn B) l l' k :
  mapM f l = Ok k → sublist l' l → ∃ k', mapM f l' = Ok k' ∧ sublist k' k.
Proof.
  intros H Hs. revert k H. induction Hs as [|a l' l Hs IH|a l' l Hs IH]; cbn; intros k H.
  - injection H as <-. by exists [].
  - apply bind_ok in H as (b & Hb & H). apply bind_ok in H as (r & Hr & H). injection H as <-.
    destruct (IH r Hr) as (r' & Hr' & Hsub). exists (b :: r'). rewrite Hb. cbn. rewrite Hr'.
    split; [done|by constructor].
  - apply bind_ok in H as (b & Hb & H). apply bind_ok in H as (r & Hr & H). injection H as <-.
    destruct (IH r Hr) as (r' & Hr' & Hsub). exists r'. split; [done|by constructor].
Qed.

Lemma list_filter_sublist {A} (f : A → bool) l : sublist (List.filter f l) l.
Proof. induction l as [|a l IH]; cbn; [done|]. destruct (f a); by constructor. Qed.

Lemma policy_tools p t : policy_ok p → t ∈ sanitizer_tools p → t ≠ "".
Proof.
  intros [H _] Hin ->. unfold InitialCampaignPolicy_check in H.
  assert (existsb (λ t, negb (bool_decide (t ∈ DEFAULT_LOCAL_SANITIZER_TOOLS))) (sanitizer_tools p) = true) as E.
  { apply existsb_exists. exists "". split; [by apply list_elem_of_In|done]. }
  by rewrite E in H.
Qed.

Lemma policy_tools_NoDup p : policy_ok p → NoDup (sanitizer_tools p).
Proof.
  intros [H _]. unfold InitialCampaignPolicy_check in H. destruct (existsb _ _); [done|].
  destruct (bool_decide_reflect (¬ NoDup (sanitizer_tools p))) as [|Hn]; [done|].
  destruct (decide (NoDup (sanitizer_tools p))); [done|by destruct Hn].
Qed.

Lemma sanitizer_spec_ok sid u t : t ≠ "" → ExperimentSpec_check (sanitizer_spec sid u t) = Ok ().
Proof. intros Ht. unfold ExperimentSpec_check, sanitizer_spec. cbn. by rewrite (bool_decide_false (t = "")). Qed.

Lemma sanitizer_specs_ok sid u l :
  (∀ t, t ∈ l → t ≠ "") →
  mapM (λ tool, make_spec (sanitizer_spec sid u tool)) l = Ok (sanitizer_spec sid u <$> l).
Proof.
  induction l as [|t l IH]; intros Hl; [done|]. cbn [mapM].
  assert (make_spec (sanitizer_spec sid u t) = Ok (sanitizer_spec sid u t)) as ->.
  { unfold make_spec. by rewrite sanitizer_spec_ok by set_solver. }
  rewrite IH by set_solver. done.
Qed.

Lemma sanitizer_fingerprints sid u l :
  mapM experiment_spec_fingerprint (sanitizer_spec sid u <$> l) = Ok (fingerprint_of COMPUTE_SANITIZER <$> l).
Proof. induction l as [|t l IH]; [done|]. cbn. by rewrite IH. Qed.

Lemma fingerprint_inj k : Inj (=) (=) (fingerprint_of k).
Proof. intros a b H. unfold fingerprint_of in H. by apply (inj (String.append _)), (inj (String.append _)) in H. Qed.

(** What a plan holds: well-formed specifications with distinct fingerprints. *)
Definition plan_ok (plan : CampaignPlan) : Prop :=
  Forall valid (plan_experiments plan) ∧
  (∃ fl, mapM experiment_spec_fingerprint (plan_experiments plan) = Ok fl ∧ NoDup fl ∧
         fingerprint_of KERNEL_DISCOVERY "" ∉ fl) ∧
  Forall (λ r, valid r ∧ triggering_config r = None) (skipped_results plan).

Lemma campaign_plan_total p sid u :
  policy_ok p → valid u → ∃ plan, campaign_plan p sid u = Ok plan ∧ plan_ok plan.
Proof.
  intros Hp Hu. unfold campaign_plan.
  rewrite sanitizer_specs_ok by (intros t; by apply policy_tools). cbn [mbind res_bind].
  assert (Forall valid (sanitizer_spec sid u <$> sanitizer_tools p)) as Hv.
  { apply Forall_fmap, Forall_forall. intros t Ht.
    split; [apply sanitizer_spec_ok; by eapply policy_tools|by split_and!]. }
  assert (NoDup (fingerprint_of COMPUTE_SANITIZER <$> sanitizer_tools p)) as Hnd.
  { apply NoDup_fmap_2; [apply fingerprint_inj|by apply policy_tools_NoDup]. }
  assert (∀ k, k ≠ COMPUTE_SANITIZER → fingerprint_of k "" ∉ fingerprint_of COMPUTE_SANITIZER <$> sanitizer_tools p) as Hother.
  { intros k Hk Hin. apply list_elem_of_fmap in Hin as (t & Ht & _).
    destruct k; try done; by injection Ht. }
  pose proof (sanitizer_fingerprints sid u (sanitizer_tools p)) as Hfp.
  destruct (enable_stress p && is_some (oracle u)) eqn:Eo.
  - assert (make_spec (stress_spec sid u (stress_options p)) = Ok (stress_spec sid u (stress_options p))) as -> by done.
    eexists. split; [reflexivity|]. destruct Hp as [_ Hst]. split_and!; cbn [plan_experiments skipped_results].
    + apply Forall_app. split; [done|]. apply Forall_singleton. by split_and!.
    + eexists. split; [by apply mapM_snoc|]. split.
      * apply NoDup_app. split_and!; [done| |apply NoDup_singleton].
        intros f Hf ->%list_elem_of_singleton. by apply (Hother RANDOM_DELAY_STRESS).
      * intros [H|H%list_elem_of_singleton]%elem_of_app; [by apply (Hother KERNEL_DISCOVERY)|done].
    + constructor.
  - destruct (enable_stress p); eexists; (split; [reflexivity|]);
      (split_and!; cbn [plan_experiments skipped_results]; [done| |]);
      try (eexists; split_and!; [done..|by apply Hother]).
    + by apply Forall_singleton.
    + constructor.
Qed.

(** The campaign keeps a part of the plan pending. *)
Lemma campaign_specs_ok ker c shared specs c' shared' :
  campaign_specs ker c shared specs = Ok (c', shared') →
  (∃ k, cg_pending c' = cg_pending c ++ k ∧ sublist k specs) ∧
  (length (cg_history c) = length (cg_completed c) → length (cg_history c') = length (cg_completed c')) ∧
  eb_stress (cg_evidence c') = eb_stress (cg_evidence c) ∧
  (valid (cg_evidence c) → valid (cg_evidence c')).
Proof.
  revert c shared. induction specs as [|sp specs IH]; cbn [campaign_specs]; intros c shared H.
  { injection H as <- <-. split_and!; try done. exists []. by rewrite app_nil_r. }
  destruct (match sp_sanitizer_tool sp with Some _ => _ | None => None end) as [[tool r]|].
  - apply bind_ok in H as (k & _ & H). apply bind_ok in H as (p & _ & H).
    apply bind_ok in H as ([] & _ & H). destruct (IH _ _ H) as ((l & Hl & Hs) & Hh & He & Hv).
    cbn [cg_pending cg_history cg_completed cg_evidence] in *. split_and!.
    + exists l. split; [done|by constructor].
    + intros Hlen. apply Hh. rewrite !length_app. cbn. lia.
    + rewrite He. by destruct (cg_evidence c).
    + intros Hc. apply Hv. by apply bundle_add_valid.
  - destruct (IH _ _ H) as ((l & Hl & Hs) & Hh & He & Hv).
    cbn [cg_pending cg_history cg_completed cg_evidence] in *. split_and!; try done.
    exists (sp :: l). split; [by rewrite Hl, <- app_assoc|by constructor].
Qed.

Lemma budget_nonneg b : valid b → 0 ≤ max_rounds b ∧ 0 ≤ max_experiments b.
Proof.
  intros H. change (SessionBudget_check b = Ok ()) in H. unfold SessionBudget_check in H.
  destruct (Z.ltb_spec (max_rounds b) 0); [done|]. destruct (Z.ltb_spec (max_experiments b) 0); [done|]. lia.
Qed.

Lemma default_budget_valid (b : option SessionBudget) : valid_opt b → valid (default default_budget b).
Proof. destruct b; [done|]. intros _. vm_compute. reflexivity. Qed.

Lemma default_policy_valid (p : option InitialCampaignPolicy) :
  match p with Some q => policy_ok q | None => True end → policy_ok (default default_policy p).
Proof. destruct p; [done|]. intros _. apply default_policy_ok. Qed.

(** The accounts of a new session. *)
Lemma new_session_core sid u st c b fps n plan tools on stress :
  valid u → valid b → valid (cg_evidence c) → Forall valid (cg_pending c) →
  valid_opt plan → valid_opt stress → replayable u (cg_evidence c) →
  length (cg_history c) = length (cg_completed c) →
  Z.of_nat (length (cg_pending c)) ≤ n ≤ max_experiments b → Z.of_nat (length fps) = n → NoDup fps →
  session_core (new_session sid u st c b fps n plan tools on stress).
Proof.
  intros Hu Hb He Hp Hpl Hs Hre Hh Hn Hf Hd. pose proof (budget_nonneg b Hb) as [H1 H2].
  constructor; session_fields.
Qed.

(** The evidence a campaign starts with. *)
Lemma skipped_evidence plan u (e := fold_left (λ e r, bundle_add e (StressResult r)) (skipped_results plan) empty_bundle) :
  plan_ok plan → valid e ∧ replayable u e.
Proof.
  intros (_ & _ & H). unfold e. clear e.
  assert (valid empty_bundle ∧ replayable u empty_bundle) as H0.
  { split; [split_and!; constructor|]. intros r c Hr. by apply not_elem_of_nil in Hr. }
  revert H0. generalize empty_bundle. induction H as [|r l [Hr Hn] _ IH]; intros e [He Hre]; [done|].
  cbn [fold_left]. apply IH. split; [by apply bundle_add_valid|].
  apply replayable_add; [done|]. intros x c [= <-]. by rewrite Hn.
Qed.

Lemma initial_campaign_ok plan shared ker c u :
  plan_ok plan → initial_campaign_state plan shared ker = Ok c →
  Forall valid (cg_pending c) ∧
  (∃ fl, mapM experiment_spec_fingerprint (cg_pending c) = Ok fl ∧ NoDup fl) ∧
  length (cg_history c) = length (cg_completed c) ∧ valid (cg_evidence c) ∧ replayable u (cg_evidence c).
Proof.
  intros Hplan H. pose proof (skipped_evidence plan u Hplan) as [He Hre].
  unfold initial_campaign_state in H. apply bind_ok in H as (by_tool & _ & H). cbv zeta in H.
  apply bind_ok in H as ([c' unclaimed] & H & E). destruct (bool_decide _); [|done]. injection E as ->.
  apply campaign_specs_ok in H as ((k & Hk & Hs) & Hh & Hst & Hv).
  cbn [cg_pending cg_history cg_completed cg_evidence app] in *.
  destruct Hplan as (Hpv & (fl & Hfl & Hnd & _) & _). rewrite Hk. split_and!.
  - rewrite Forall_forall in Hpv |- *. intros x Hx. apply Hpv.
    by eapply elem_of_submseteq; [|apply sublist_submseteq].
  - destruct (mapM_sublist _ _ _ _ Hfl Hs) as (fl' & Hfl' & Hsub). exists fl'. split; [done|].
    by eapply sublist_NoDup.
  - by apply Hh.
  - by apply Hv.
  - intros r x Hr. rewrite Hst in Hr. by apply Hre.
Qed.

Lemma create_inv sid u b p shared t :
  valid u → valid_opt b → match p with Some q => policy_ok q | None => True end →
  create_session sid u b p shared = Ok t → session_inv (next t).
Proof.
  intros Hu Hb Hp. unfold create_session. destruct (negb (pinned_kernel _)); [done|].
  destruct (campaign_plan_total _ sid u (default_policy_valid p Hp) Hu) as (plan & -> & Hplan).
  cbn [lift_e mbind res_bind]. cbv zeta. intros H. apply bind_ok in H as (c & Hc & H).
  destruct (initial_campaign_ok _ _ _ _ u Hplan Hc) as (Hpv & (fl & Hfl & Hnd) & Hh & He & Hre).
  pose proof (default_budget_valid b Hb) as Hbv. pose proof (budget_nonneg _ Hbv) as [Hb1 Hb2].
  destruct (Z.ltb_spec (max_experiments (default default_budget b)) (Z.of_nat (length (cg_pending c)))).
  - refine (terminate_inv _ _ None t _ _ _ H); try done.
    apply new_session_core; try done; try (cbn; lia); constructor.
  - rewrite Hfl in H. cbn [lift_e mbind res_bind] in H. injection H as <-.
    pose proof (mapM_length _ _ _ Hfl) as Hlen. split.
    + apply new_session_core; try done; cbn; lia.
    + destruct (bool_decide_reflect (length (cg_pending c) = 0%nat)) as [E|E];
        (apply shape_no_report; cbn; try done); by destruct (cg_pending c).
Qed.

Lemma create_discovery_inv sid u b p n t :
  valid u → valid_opt b → match p with Some q => policy_ok q | None => True end →
  create_discovery_session sid u b p n = Ok t → session_inv (next t).
Proof.
  intros Hu Hb Hp. unfold create_discovery_session. destruct (is_some (kernel u)) eqn:Ek; [done|].
  pose proof (default_policy_valid p Hp) as Hpol. cbv zeta. intros H.
  apply bind_ok in H as ([] & Hn & H). apply lift_e_ok in Hn.
  apply bind_ok in H as (first & Hf & H). apply lift_e_ok, make_spec_ok in Hf as [-> Hf].
  destruct (campaign_plan_total _ sid u Hpol Hu) as (plan & E & Hpv & (fl & Hfl & Hnd & Hdisc) & _).
  rewrite E in H. cbn [lift_e mbind res_bind] in H.
  set (scoped := List.filter _ _) in H.
  assert (sublist scoped (plan_experiments plan)) as Hsub by apply list_filter_sublist.
  destruct (mapM_sublist _ _ _ _ Hfl Hsub) as (fl' & Hfl' & Hsub').
  assert (Forall valid (discovery_spec sid u (mkDiscoveryOptions n) :: scoped)) as Hv.
  { constructor; [by split_and!|]. rewrite Forall_forall in Hpv |- *. intros x Hx. apply Hpv.
    by eapply elem_of_submseteq; [|apply sublist_submseteq]. }
  assert (valid empty_bundle ∧ replayable u empty_bundle) as [H0 H0'].
  { split; [split_and!; constructor|]. intros r c Hr. by apply not_elem_of_nil in Hr. }
  pose proof (default_budget_valid b Hb) as Hbv. pose proof (budget_nonneg _ Hbv) as [Hb1 Hb2].
  destruct Hpol as [_ Hstress].
  destruct (Z.ltb_spec (max_experiments (default default_budget b))
    (Z.of_nat (length (discovery_spec sid u (mkDiscoveryOptions n) :: scoped)))).
  - refine (terminate_inv _ _ None t _ _ _ H); try done.
    apply new_session_core; try done; try (cbn; lia); constructor.
  - assert (mapM experiment_spec_fingerprint (discovery_spec sid u (mkDiscoveryOptions n) :: scoped)
      = Ok (fingerprint_of KERNEL_DISCOVERY "" :: fl')) as Hm by (cbn [mapM]; by rewrite Hfl').
    rewrite Hm in H. cbn [lift_e mbind res_bind] in H. injection H as <-.
    pose proof (mapM_length _ _ _ Hm) as Hlen. split.
    + apply new_session_core; try done; try (cbn in *; lia).
      constructor; [|by eapply sublist_NoDup]. intros Hin. apply Hdisc.
      by eapply elem_of_submseteq; [|apply sublist_submseteq].
    + by apply shape_no_report.
Qed.

(** ** Reachable sessions *)

(** One accepted input; what a session is given is well formed. *)
Inductive session_step (s : AnalysisSession) : AnalysisSession → Prop :=
| StepResult r t : valid r → record_experiment_result s r = Ok t → session_step s (next t)
| StepTriage d t : valid d → record_triage_decision s d = Ok t → session_step s (next t)
| StepAnalysis d g t : valid d → record_analysis_decision s d g = Ok t → session_step s (next t)
| StepChildren ids t : record_discovery_children_started s ids = Ok t → session_step s (next t)
| StepFailure reason t : record_infrastructure_failure s reason = Ok t → session_step s (next t)
| StepPublished a t : record_report_published s a = Ok t → session_step s (next t)
| StepUnpublished reason t :
    record_report_publication_failed s reason = Ok t → session_step s (next t).

Inductive session_start : AnalysisSession → Prop :=
| StartSession sid u b p shared t :
    valid u → valid_opt b → match p with Some q => policy_ok q | None => True end →
    create_session sid u b p shared = Ok t → session_start (next t)
| StartDiscovery sid u b p n t :
    valid u → valid_opt b → match p with Some q => policy_ok q | None => True end →
    create_discovery_session sid u b p n = Ok t → session_start (next t).

Lemma start_inv s : session_start s → session_inv s.
Proof. intros []; [by eapply create_inv|by eapply create_discovery_inv]. Qed.

Lemma session_step_inv s s' : session_inv s → session_step s s' → session_inv s'.
Proof.
  intros H [r t Hv E|d t Hv E|d g t Hv E|ids t E|reason t E|a t E|reason t E].
  - by eapply record_result_inv.
  - by eapply triage_inv.
  - destruct (decide (sn_status s = WaitingReasoner)) as [Est|Est].
    + destruct (analysis_total_inv s d g H Est Hv) as (t' & E' & Hi & _). rewrite E in E'. by injection E' as <-.
    + unfold record_analysis_decision in E. by rewrite bool_decide_false in E by done.
  - by eapply children_inv.
  - by eapply infrastructure_failure_inv.
  - by eapply published_inv.
  - by eapply publication_failed_inv.
Qed.

Definition reachable (s : AnalysisSession) : Prop := ∃ s0, session_start s0 ∧ rtc session_step s0 s.

Lemma session_reachable_inv s : reachable s → session_inv s.
Proof.
  intros (s0 & H0 & Hs). apply start_inv in H0. induction Hs as [|a b c Hab _ IH]; [done|].
  apply IH. by eapply session_step_inv.
Qed.

(** ** Every session ends *)

Lemma measure_nonneg s : session_inv s → 0 ≤ session_measure s.
Proof.
  intros [H _]. pose proof (state_rank_range s). unfold session_measure, session_credit.
  destruct H as [_ H1 H2 _ _ _ _ _]. lia.
Qed.

(** A step changes nothing, or spends something. *)
Definition spends (s s' : AnalysisSession) : Prop := s' = s ∨ session_measure s' < session_measure s.

(** Taking a result spends an experiment. *)
Lemma accept_credit s sp r :
  List.filter (λ p, bool_decide (sp_experiment_id p = result_id r)) (sn_pending s) = [sp] →
  session_credit (accept_result s sp r) = session_credit s - 1.
Proof.
  intros Hf. destruct (one_pending s (result_id r) sp Hf) as (_ & _ & Hlen). unfold session_credit.
  change (sn_pending (accept_result s sp r)) with
    (List.filter (λ p, negb (bool_decide (sp_experiment_id p = result_id r))) (sn_pending s)).
  change (sn_budget (accept_result s sp r)) with (sn_budget s).
  change (sn_submitted (accept_result s sp r)) with (sn_submitted s).
  change (sn_round_index (accept_result s sp r)) with (sn_round_index s). lia.
Qed.

Lemma last_result_credit u sp t : after_last_result u sp = Ok t → session_credit (next t) = session_credit u.
Proof.
  unfold after_last_result. destruct (is_some _).
  - destruct (eb_discovery _) as [|d [|? ?]]; try done. destruct (negb _); by intros [= <-].
  - destruct (sp_phase sp); by intros [= <-].
Qed.

Lemma result_spends s r t :
  session_inv s → record_experiment_result s r = Ok t → spends s (next t).
Proof.
  intros [H Hsh] E. destruct (record_result_accepted s r t H E) as [->|sp Hf Hc Hv Ht]; [by left|right].
  pose proof (accept_credit s sp r Hf) as Hcr. cbv zeta in Ht.
  assert (session_credit (next t) = session_credit s - 1) as Hnext.
  { destruct (bool_decide _); [|by subst t]. by rewrite (last_result_credit _ _ _ Ht). }
  destruct (spec_context_ok s sp Hc) as (_ & _ & Hst).
  pose proof (state_rank_range (next t)). pose proof (state_rank_range s).
  unfold session_measure. lia.
Qed.

Lemma triage_spends s d t : session_inv s → record_triage_decision s d = Ok t → spends s (next t).
Proof.
  intros [H Hsh]. unfold record_triage_decision.
  destruct (bool_decide_reflect (sn_status s = WaitingTriage)) as [Est|]; [|done]. cbn [negb].
  assert (state_rank s = 3) as Hr by (unfold state_rank; by rewrite Est).
  rewrite (core_clone _ H). cbn [mbind res_bind].
  destruct (td_outcome d); intros E; right; unfold session_measure; rewrite Hr.
  - injection E as <-. change (4 * session_credit s + 2 < 4 * session_credit s + 3). lia.
  - injection E as <-. rewrite rank_pending by done.
    match goal with |- 4 * ?c + 1 < _ => change c with (session_credit s) end. lia.
  - apply terminate_spends in E as [Hc Ht]; [lia|done].
Qed.


Lemma analysis_spends s d g t :
  session_inv s → valid d → record_analysis_decision s d g = Ok t → spends s (next t).
Proof.
  intros H Hd E. destruct (decide (sn_status s = WaitingReasoner)) as [Est|Est].
  - destruct (analysis_total_inv s d g H Est Hd) as (t' & E' & Hi & Ht). rewrite E in E'. injection E' as <-.
    right. unfold session_measure. assert (state_rank s = 2) as -> by (unfold state_rank; by rewrite Est).
    pose proof (state_rank_range (next t)). destruct Ht as [(? & ? & _)|[? _]]; lia.
  - unfold record_analysis_decision in E. by rewrite bool_decide_false in E by done.
Qed.

Lemma children_spends s ids t :
  session_inv s → record_discovery_children_started s ids = Ok t → spends s (next t).
Proof.
  intros [H Hsh]. unfold record_discovery_children_started. destruct (bool_decide (¬ _)); [done|].
  destruct (bool_decide (sn_status s = SessionCompleted)).
  { destruct (bool_decide _); [|done]. intros E. injection E as <-. by left. }
  destruct (bool_decide_reflect (sn_status s = WaitingChildren)) as [Est|]; [|done]. cbn [negb].
  destruct (dr_discovery <$> _) as [|[m|] [|? ?]]; try done. destruct (negb _); [done|].
  rewrite (core_clone _ H). cbn [mbind res_bind]. intros E. injection E as <-. right.
  destruct (active_no_report s Hsh ltac:(by rewrite Est)) as [_ Hpub].
  unfold session_measure. rewrite rank_settled; [|done|change (sn_publication s ≠ ReportPending); by rewrite Hpub].
  assert (state_rank s = 1) as -> by (unfold state_rank; by rewrite Est).
  cbn [next]. match goal with |- 4 * ?c + 0 < _ => change c with (session_credit s) end. lia.
Qed.

Lemma failure_spends s reason t :
  session_inv s → record_infrastructure_failure s reason = Ok t → spends s (next t).
Proof.
  intros [H Hsh]. unfold record_infrastructure_failure. destruct (bool_decide _); [done|].
  destruct (terminal_status (sn_status s)) eqn:Et; [intros E; injection E as <-; by left|].
  rewrite (core_clone _ H). cbn [mbind res_bind]. intros E. injection E as <-. right.
  destruct (active_no_report s Hsh ltac:(by destruct (sn_status s))) as [_ Hpub].
  unfold session_measure. rewrite (rank_settled (next _)); [|done|change (sn_publication s ≠ ReportPending); by rewrite Hpub].
  cbn [next]. unfold session_credit.
  assert (state_rank s = 0 → sn_pending s ≠ []) as Hp.
  { intros Hr Hp. apply (sh_pending _ Hsh) in Hp. unfold state_rank in Hr. by destruct (sn_status s). }
  pose proof (state_rank_range s).
  change (4 * (max_experiments (sn_budget s) - sn_submitted s + 0 + (max_rounds (sn_budget s) - sn_round_index s)) + 0 <
    4 * (max_experiments (sn_budget s) - sn_submitted s + Z.of_nat (length (sn_pending s)) +
         (max_rounds (sn_budget s) - sn_round_index s)) + state_rank s).
  destruct (Z.eq_dec (state_rank s) 0) as [E0|]; [|lia]. specialize (Hp E0).
  destruct (sn_pending s); [done|]. cbn [length]. lia.
Qed.

Lemma published_spends s a t : session_inv s → record_report_published s a = Ok t → spends s (next t).
Proof.
  intros [H Hsh]. unfold record_report_published.
  destruct (publishable (sn_status s)) eqn:Ep; [|done]. cbn [negb].
  destruct (negb (is_some _)); [done|].
  destruct (bool_decide (sn_publication s = ReportPublished)); [intros E; injection E as <-; by left|].
  destruct (bool_decide_reflect (sn_publication s = ReportPending)) as [Epub|]; [|done]. cbn [negb].
  rewrite (core_clone _ H). cbn [mbind res_bind]. intros E. injection E as <-. right.
  assert (terminal_status (sn_status s) = true) as Ht by by destruct (sn_status s).
  unfold session_measure. rewrite (rank_settled (next _)), (rank_pending s) by done.
  cbn [next]. match goal with |- 4 * ?c + 0 < _ => change c with (session_credit s) end. lia.
Qed.

Lemma unpublished_spends s reason t :
  session_inv s → record_report_publication_failed s reason = Ok t → spends s (next t).
Proof.
  intros [H Hsh]. unfold record_report_publication_failed. destruct (bool_decide _); [done|].
  destruct (publishable (sn_status s)) eqn:Ep; [|done]. cbn [negb].
  destruct (bool_decide (sn_publication s = ReportFailed)); [intros E; injection E as <-; by left|].
  destruct (bool_decide_reflect (sn_publication s = ReportPending)) as [Epub|]; [|done]. cbn [negb].
  rewrite (core_clone _ H). cbn [mbind res_bind]. intros E. injection E as <-. right.
  assert (terminal_status (sn_status s) = true) as Ht by by destruct (sn_status s).
  unfold session_measure. rewrite (rank_settled (next _)), (rank_pending s) by done.
  cbn [next]. match goal with |- 4 * ?c + 0 < _ => change c with (session_credit s) end. lia.
Qed.

Lemma step_spends s s' : session_inv s → session_step s s' → spends s s'.
Proof.
  intros H [r t Hv E|d t Hv E|d g t Hv E|ids t E|reason t E|a t E|reason t E].
  - by eapply result_spends.
  - by eapply triage_spends.
  - by eapply analysis_spends.
  - by eapply children_spends.
  - by eapply failure_spends.
  - by eapply published_spends.
  - by eapply unpublished_spends.
Qed.

(** ** Progress *)

(** Failing is always possible for an active session, publishing for a report
    that is due. *)
Lemma can_step s : session_inv s → requires_reconciliation s = true → ∃ s', session_step s s' ∧ s' ≠ s.
Proof.
  intros [H Hsh] Hr. unfold requires_reconciliation in Hr.
  destruct (terminal_status (sn_status s)) eqn:Et.
  - cbn in Hr. apply bool_decide_eq_true in Hr.
    assert (sn_report s ≠ None) as Hrep.
    { intros E. apply (sh_publication _ Hsh) in E. by rewrite E in Hr. }
    pose proof (sh_report _ Hsh Hrep) as Hp.
    assert (∃ t, record_report_published s None = Ok t ∧ sn_publication (next t) = ReportPublished) as (t & E & Hpub).
    { unfold record_report_published. rewrite Hp. cbn [negb]. destruct (sn_report s); [|done]. cbn [is_some negb].
      rewrite Hr. cbn. rewrite (core_clone _ H). by eexists. }
    exists (next t). split; [by eapply StepPublished|]. intros Heq. by rewrite Heq, Hr in Hpub.
  - assert (∃ t, record_infrastructure_failure s "lost" = Ok t ∧ sn_status (next t) = SessionFailed) as (t & E & Hst).
    { unfold record_infrastructure_failure. rewrite Et. cbn. rewrite (core_clone _ H). by eexists. }
    exists (next t). split; [by eapply StepFailure|]. intros Heq. by rewrite Heq in Hst; rewrite Hst in Et.
Qed.

(** The outstanding effects, and none when nothing is left to do. *)
Lemma resume_ok s :
  session_inv s →
  ∃ l, resume_session s = Ok (mkTransition s l) ∧ (l = [] ↔ requires_reconciliation s = false) ∧
       SubmitExperiments [] ∉ l.
Proof.
  intros [H Hsh]. pose proof (sh_pending _ Hsh) as Hp. unfold resume_session, requires_reconciliation.
  destruct (sn_status s); cbn in *;
    try (destruct (bool_decide (sn_publication s = ReportPending)));
    eexists; (split; [reflexivity|]); (split; [done|]); try (by intros ?%not_elem_of_nil);
    intros E%list_elem_of_singleton; try done; injection E as E; symmetry in E; by apply (proj1 Hp) in E.
Qed.

(** ** Results are taken or refused, never lost in an exception *)

Definition no_raise {A} (x : sres A) : Prop := ∀ e, x ≠ Err (Failed e).

Lemma no_raise_bind {A B} (m : sres A) (f : A → sres B) :
  no_raise m → (∀ a, m = Ok a → no_raise (f a)) → no_raise (m ≫= f).
Proof.
  intros Hm Hf e. destruct m as [a|e']; cbn; [by apply Hf|]. intros E. injection E as ->. by apply (Hm e).
Qed.
Lemma no_raise_ok {A} (a : A) : no_raise (Ok a).
Proof. done. Qed.
Lemma no_raise_rejected {A} code : no_raise (Err (Rejected code) : sres A).
Proof. done. Qed.
Lemma no_raise_reject_if b code : no_raise (reject_if b code).
Proof. by destruct b. Qed.
Lemma no_raise_assert {A} (o : option A) : o ≠ None → no_raise (assert_some o).
Proof. by destruct o. Qed.

Lemma no_raise_stress b : no_raise (inconsistent_stress b).
Proof. apply no_raise_reject_if. Qed.
Lemma no_raise_trace b : no_raise (inconsistent_trace b).
Proof. apply no_raise_reject_if. Qed.

#[local] Hint Resolve no_raise_ok no_raise_rejected no_raise_reject_if no_raise_stress no_raise_trace : no_raise.

Ltac no_raise :=
  repeat first
    [ solve [auto with no_raise]
    | apply no_raise_bind; [|intros ? ?]
    | apply no_raise_assert
    | match goal with |- no_raise (if ?b then _ else _) => destruct b eqn:? end
    | match goal with |- no_raise (match ?x with _ => _ end) => destruct x eqn:? end ].

(** A planned experiment has the options of its kind. *)
Lemma spec_has_options sp :
  ExperimentSpec_check sp = Ok () →
  match sp_kind sp with
  | KERNEL_DISCOVERY => sp_discovery sp ≠ None
  | RANDOM_DELAY_STRESS => sp_stress sp ≠ None
  | REDUCE_DELAY_CONFIG => sp_reduction sp ≠ None
  | _ => True
  end.
Proof.
  unfold ExperimentSpec_check. destruct (sp_kind sp); try done; intros H E; by rewrite E in H.
Qed.

Lemma validate_result_no_raise sp r : valid sp → valid r → no_raise (validate_result_against_spec sp r).
Proof.
  intros [Hsp _] Hr. apply spec_has_options in Hsp. unfold validate_result_against_spec.
  apply no_raise_bind; [no_raise|]. intros [] Hk%reject_if_ok. split_bools.
  apply no_raise_bind; [no_raise|]. intros [] _.
  apply no_raise_bind; [unfold validate_provenance; cbv zeta; no_raise|]. intros [] _.
  destruct r as [x|x|x|x|x]; cbn [result_kind] in Hk.
  - rewrite <- Hk in Hsp. unfold validate_discovery_result. no_raise; done.
  - unfold validate_sanitizer_result. no_raise.
  - rewrite <- Hk in Hsp. unfold validate_stress_result, validate_stress_counts, validate_stress_outcome,
      validate_stress_triggering_config, validate_stress_completeness, validate_skipped_stress_outcome,
      validate_triggering_config. no_raise; done.
  - unfold validate_trace_result, validate_trace_success_shape, validate_trace_failure_shape,
      validate_trace_artifact_identity, validate_trace_analysis_references,
      validate_trace_analysis_status. no_raise.
  - rewrite <- Hk in Hsp. unfold validate_reduce_result, reduce_input_matches. destruct Hr as [_ [Hc _]].
    no_raise; try done.
    change (TriggeringDelayConfig_check (with_artifact (artifact (ro_triggering_config a)) (input_config x)))
      with (TriggeringDelayConfig_check (input_config x)). by rewrite Hc.
Qed.

Lemma record_result_no_raise s r :
  session_inv s → valid r → no_raise (record_experiment_result s r).
Proof.
  intros [H Hsh] Hr. unfold record_experiment_result.
  apply no_raise_bind; [unfold validate_session_result_indexes; no_raise|]. intros [] Hidx.
  destruct (bool_decide_reflect (result_id r ∈ sn_completed s)) as [Hin|].
  - destruct (List.find _ _) eqn:Ef; [no_raise|]. exfalso.
    unfold validate_session_result_indexes in Hidx.
    apply bind_ok in Hidx as ([] & _ & Hidx). apply bind_ok in Hidx as ([] & _ & Hidx).
    apply bind_ok in Hidx as ([] & _ & Hidx). apply reject_if_ok in Hidx.
    assert (existsb (λ id, negb (evidence_count (sn_evidence s) id =? 1)%nat) (sn_completed s) = true) as E; [|congruence].
    apply existsb_exists. exists (result_id r). split; [by apply list_elem_of_In|].
    apply negb_true_iff, Nat.eqb_neq. unfold evidence_count. intros Hc.
    destruct (filter (λ x, result_id x = result_id r) (evidence_results (sn_evidence s))) as [|x l] eqn:El; [done|].
    assert (x ∈ filter (λ x, result_id x = result_id r) (evidence_results (sn_evidence s))) as Hx
      by (rewrite El; by left).
    apply list_elem_of_filter in Hx as [Hid Hx]. apply list_elem_of_In in Hx.
    pose proof (List.find_none _ _ Ef x Hx) as Hn. cbv beta in Hn. by rewrite bool_decide_true in Hn.
  - destruct (List.filter _ _) as [|sp [|? ?]] eqn:Ef; [no_raise| |no_raise].
    destruct (one_pending s (result_id r) sp Ef) as (Hsp & _ & _).
    assert (valid sp) as Hspv.
    { destruct (sc_valid _ H) as (_ & _ & _ & Hp & _). rewrite Forall_forall in Hp. by apply Hp. }
    apply no_raise_bind; [unfold validate_spec_context; no_raise|]. intros [] _.
    apply no_raise_bind; [by apply validate_result_no_raise|]. intros [] _.
    rewrite (core_clone _ H). cbn [mbind res_bind]. cbv zeta. unfold after_last_result. no_raise.
Qed.

(** ** Retries *)

Lemma evidence_results_add e r : evidence_results (bundle_add e r) ≡ₚ r :: evidence_results e.
Proof.
  destruct e as [d s t tr rd], r as [r|r|r|r|r]; unfold evidence_results; cbn; rewrite fmap_app; cbn;
    solve_Permutation.
Qed.

Lemma evidence_count_add e r id :
  evidence_count (bundle_add e r) id = ((if decide (result_id r = id) then 1 else 0) + evidence_count e id)%nat.
Proof.
  unfold evidence_count. rewrite (evidence_results_add e r), filter_cons.
  by destruct (decide (result_id r = id)).
Qed.

(** What the checks of a session say of its lists. *)
Lemma indexes_ok s :
  validate_session_result_indexes s = Ok () ↔
  NoDup (pending_experiment_ids s) ∧ NoDup (sn_completed s) ∧
  (∀ id, id ∈ pending_experiment_ids s → id ∉ sn_completed s) ∧
  (∀ id, id ∈ sn_completed s → evidence_count (sn_evidence s) id = 1%nat).
Proof.
  unfold validate_session_result_indexes. cbv zeta. split.
  - intros H. apply bind_ok in H as ([] & H1%reject_if_ok & H). apply bind_ok in H as ([] & H2%reject_if_ok & H).
    apply bind_ok in H as ([] & H3%reject_if_ok & H4%reject_if_ok). split_bools. split_and!.
    + by apply dec_stable.
    + by apply dec_stable.
    + intros id Hp Hc. apply not_true_iff_false in H3. apply H3, existsb_exists. exists id.
      split; [by apply list_elem_of_In|by apply bool_decide_eq_true].
    + intros id Hc. apply not_true_iff_false in H4.
      destruct (decide (evidence_count (sn_evidence s) id = 1%nat)) as [|Hn]; [done|].
      exfalso. apply H4, existsb_exists. exists id. split; [by apply list_elem_of_In|].
      by apply negb_true_iff, Nat.eqb_neq.
  - intros (H1 & H2 & H3 & H4). rewrite !bool_decide_false by tauto. cbn [reject_if mbind res_bind].
    assert (existsb (λ id, bool_decide (id ∈ sn_completed s)) (pending_experiment_ids s) = false) as ->.
    { apply not_true_iff_false. rewrite existsb_exists. intros (id & Hp%list_elem_of_In & Hc).
      apply bool_decide_eq_true in Hc. by apply (H3 id). }
    cbn [reject_if mbind res_bind].
    assert (existsb (λ id, negb (evidence_count (sn_evidence s) id =? 1)%nat) (sn_completed s) = false) as ->; [|done].
    apply not_true_iff_false. rewrite existsb_exists. intros (id & Hc%list_elem_of_In & Hn).
    apply negb_true_iff, Nat.eqb_neq in Hn. by apply Hn, H4.
Qed.

Lemma list_filter_NoDup_fmap {A B} (g : A → B) (f : A → bool) l :
  NoDup (g <$> l) → NoDup (g <$> List.filter f l).
Proof.
  induction l as [|x l IH]; [done|]. cbn. intros [Hx Hl]%NoDup_cons.
  destruct (f x); [|by apply IH]. cbn. apply NoDup_cons. split; [|by apply IH].
  intros (y & Hy & Hin%list_elem_of_In%filter_In)%list_elem_of_fmap.
  apply Hx, list_elem_of_fmap. exists y. split; [done|]. apply list_elem_of_In, Hin.
Qed.

(** After a first delivery the session's lists are still sound. *)
Lemma accepted_indexes s sp r :
  validate_session_result_indexes s = Ok () → result_id r ∉ sn_completed s →
  evidence_count (sn_evidence s) (result_id r) = 0%nat →
  validate_session_result_indexes (accept_result s sp r) = Ok ().
Proof.
  rewrite !indexes_ok. unfold pending_experiment_ids. intros (H1 & H2 & H3 & H4) Hnew Hcount.
  cbn [accept_result set_history set_completed set_pending set_evidence sn_pending sn_completed sn_evidence].
  split_and!.
  - by apply list_filter_NoDup_fmap.
  - apply NoDup_app. split_and!; [done|set_solver|apply NoDup_singleton].
  - intros id Hp Hc. apply list_elem_of_fmap in Hp as (x & -> & Hx%list_elem_of_In%List.filter_In).
    destruct Hx as [Hx Hne]. split_bools. apply list_elem_of_In in Hx.
    apply elem_of_app in Hc as [Hc|Hc%list_elem_of_singleton]; [|done].
    by apply (H3 (sp_experiment_id x)); [apply list_elem_of_fmap; eauto|].
  - intros id Hc. rewrite evidence_count_add.
    apply elem_of_app in Hc as [Hc|Hc%list_elem_of_singleton].
    + rewrite decide_False by congruence. by apply H4.
    + subst id. rewrite decide_True by done. by rewrite Hcount.
Qed.

Lemma after_last_same u sp t :
  after_last_result u sp = Ok t →
  sn_completed (next t) = sn_completed u ∧ sn_evidence (next t) = sn_evidence u ∧ sn_pending (next t) = sn_pending u.
Proof.
  unfold after_last_result. destruct (is_some _).
  - destruct (eb_discovery _) as [|d [|? ?]]; try done. destruct (negb _); by intros [= <-].
  - destruct (sp_phase sp); by intros [= <-].
Qed.

Lemma find_the_one e r :
  evidence_count e (result_id r) = 0%nat →
  List.find (λ x, bool_decide (result_id x = result_id r)) (evidence_results (bundle_add e r)) = Some r.
Proof.
  intros Hc. destruct (List.find _ _) as [x|] eqn:Ef.
  - apply List.find_some in Ef as [Hx Hid]. split_bools. apply list_elem_of_In in Hx.
    rewrite evidence_results_add in Hx. apply elem_of_cons in Hx as [->|Hx]; [done|].
    exfalso. unfold evidence_count in Hc. apply length_zero_iff_nil in Hc.
    assert (x ∈ filter (λ y, result_id y = result_id r) (evidence_results e)) as Hf
      by by apply list_elem_of_filter.
    rewrite Hc in Hf. by apply not_elem_of_nil in Hf.
  - exfalso. assert (In r (evidence_results (bundle_add e r))) as Hr.
    { apply list_elem_of_In. rewrite evidence_results_add. by left. }
    pose proof (List.find_none _ _ Ef r Hr) as Hn. cbv beta in Hn. by rewrite bool_decide_true in Hn.
Qed.

(** What a session holds after it has taken a result. *)
Definition holds_result (u : AnalysisSession) (r : ExperimentResult) : Prop :=
  validate_session_result_indexes u = Ok () ∧ result_id r ∈ sn_completed u ∧
  List.find (λ x, bool_decide (result_id x = result_id r)) (evidence_results (sn_evidence u)) = Some r.

Lemma delivered_holds s r t :
  session_inv s → record_experiment_result s r = Ok t →
  evidence_count (sn_evidence s) (result_id r) = 0%nat → holds_result (next t) r.
Proof.
  intros [H Hsh] E Hc. unfold record_experiment_result in E.
  apply bind_ok in E as ([] & Hidx & E).
  destruct (bool_decide_reflect (result_id r ∈ sn_completed s)) as [Hin|Hnew].
  { apply indexes_ok in Hidx as (_ & _ & _ & H4). by rewrite (H4 _ Hin) in Hc. }
  destruct (List.filter (λ p, bool_decide (sp_experiment_id p = result_id r)) (sn_pending s))
    as [|sp [|sp' l]]; try done.
  apply bind_ok in E as ([] & _ & E). apply bind_ok in E as ([] & _ & E).
  rewrite (core_clone _ H) in E. cbn [mbind res_bind] in E. cbv zeta in E.
  pose proof (accepted_indexes s sp r Hidx Hnew Hc) as Hidx'.
  assert (sn_completed (next t) = sn_completed s ++ [result_id r] ∧
          sn_evidence (next t) = bundle_add (sn_evidence s) r ∧
          pending_experiment_ids (next t) = pending_experiment_ids (accept_result s sp r)) as (E1 & E2 & E3).
  { destruct (bool_decide _).
    - apply after_last_same in E as (E1 & E2 & E3). unfold pending_experiment_ids. by rewrite E1, E2, E3.
    - by injection E as <-. }
  split_and!.
  - rewrite indexes_ok, E1, E2, E3 in *. exact Hidx'.
  - rewrite E1. set_solver.
  - rewrite E2. by apply find_the_one.
Qed.

Lemma redelivery u r r' :
  holds_result u r → result_id r' = result_id r →
  record_experiment_result u r' =
    (if result_dict_eqb r r' then Ok (mkTransition u []) else Err (Rejected "duplicate_conflict")).
Proof.
  intros (H1 & H2 & H3) E. unfold record_experiment_result. rewrite H1, E. cbn [mbind res_bind].
  by rewrite bool_decide_true, H3 by done.
Qed.

(** A session that waits for its triage takes every decision. *)
Lemma triage_total s d :
  session_inv s → sn_status s = WaitingTriage →
  ∃ t, record_triage_decision s d = Ok t ∧ sn_status (next t) ≠ WaitingTriage.
Proof.
  intros [H _] Est. unfold record_triage_decision. rewrite bool_decide_true by done. cbn [negb].
  pose proof (core_clone _ H) as Hc.
  destruct (td_outcome d); unfold terminate_inconclusive; rewrite Hc; cbn [mbind res_bind];
    eexists; (split; [reflexivity|]); done.
Qed.
