(* ===== verification/SessionProperties.v ===== *)
(** What the session state machine promises: its guard, its invariant, that it
    settles, and that deliveries can be retried. *)
From S2P Require Import Prelude.
From S2P Require Import PyStr.
From S2P Require Import PyDict.
From S2P Require Import Json.
From S2P Require Import PyText.
From S2P Require Import Contracts.
From S2P Require Import Results.
From S2P Require Import Experiments.
From S2P Require Import SessionContracts.
From S2P Require Import Triage.
From S2P Require Import SanitizerResults.
From S2P Require Import Policy.
From S2P Require Import SessionValidation.
From S2P Require Import Session.
From S2P Require Import SessionLaws.
From stdpp Require Import relations.
Local Open Scope Z_scope.

(** ** A session to try things on *)

Definition ok_or {A} (d : A) (r : sres A) : A := match r with Ok a => a | Err _ => d end.

Definition demo_start : AnalysisSession :=
  ok_or (new_session "" demo_unit SessionFailed (mkCampaign empty_bundle [] [] []) default_budget [] 0 None [] true None)
    (next <$> create_session "s-1" demo_unit None None []).

Lemma demo_start_reachable : reachable demo_start.
Proof.
  exists demo_start. split; [|apply rtc_refl].
  refine (StartSession "s-1" demo_unit None None [] (mkTransition demo_start [SubmitExperiments (sn_pending demo_start)]) _ I I _).
  - split; vm_compute; reflexivity.
  - vm_compute. reflexivity.
Qed.

Definition demo_sweep : ExperimentResult :=
  SweepResult (mkSweep (default "" (head (pending_experiment_ids demo_start))) Succeeded SaniFinding "racecheck"
    [mkFinding "racecheck" "race_condition" (Some "matmul") None 1 "hazard" "RAW"]
    (mkProvenance "abc" "sm_90" (kernel demo_unit) "" "") None f_zero None None
    Partial ["no summary"] false).

Definition demo_request : ExperimentRequest := mkRequest REG_TRACE "values at the conflicting accesses" None [].

(** ** Follow-up experiments *)

(** C12: Guarded follow-up experiments.  Whatever valid requests the reasoner
    makes of a session that can be reached, [ExperimentGuardPolicy.expand]
    answers, with every request (and the standard reduction it adds) either
    accepted or refused with its reason.  What it accepts belongs to the
    session's next round, passes the checks of its class, and is recorded under
    the fingerprint [experiment_spec_fingerprint] computes from the
    specification itself; no fingerprint occurs twice and none was used by the
    session before. *)
Theorem guard_accepts_only_fresh_experiments g s requests :
  reachable s → Forall valid requests →
  ∃ ge, expand g s requests = Ok ge ∧
    (length (ge_experiments ge) + length (rejections ge) =
       length (requested_experiments g s requests))%nat ∧
    mapM experiment_spec_fingerprint (ge_experiments ge) = Ok (ge_fingerprints ge) ∧
    NoDup (ge_fingerprints ge) ∧ (∀ f, f ∈ ge_fingerprints ge → f ∉ sn_fingerprints s) ∧
    Forall valid (ge_experiments ge) ∧ Forall (followup_of s) (ge_experiments ge).
Proof.
  intros [H _]%session_reachable_inv Hr.
  destruct (expand_total g s requests (sc_valid _ H) (λ c, replayable_first _ _ c (sc_replay _ H)) Hr)
    as (ge & E & Hv).
  destruct (expand_inv _ _ _ _ E) as (H1 & H2 & H3 & H4). exists ge. split_and!; try done.
  by apply expand_accounts in E.
Qed.

Lemma guard_accepts_only_fresh_experiments_witness :
  ∃ ge, expand default_guard demo_start [demo_request; demo_request] = Ok ge ∧
    (length (ge_experiments ge) + length (rejections ge) = 2)%nat ∧ NoDup (ge_fingerprints ge).
Proof.
  destruct (guard_accepts_only_fresh_experiments default_guard demo_start [demo_request; demo_request])
    as (ge & E & Hl & _ & Hn & _).
  - exact demo_start_reachable.
  - repeat constructor; vm_compute; reflexivity.
  - exists ge. split_and!; [exact E|rewrite Hl; vm_compute; reflexivity|exact Hn].
Defined.

(** ** The invariant *)

(** C13: The session invariant.  Every session that can be reached, by any
    order of results, decisions, failures and publications, is written to the
    wire and read back unchanged, keeps within its rounds and experiments, has
    one fingerprint for each submitted experiment and none twice, one history
    record for each completed experiment, no more reasoner turns than rounds
    and one, and only delay configurations that replay its unit.  Its status
    says exactly whether results are awaited, and its publication state
    whether there is a report. *)
Theorem session_invariant s :
  reachable s →
  of_json (to_json s) = Ok s ∧
  0 ≤ sn_round_index s ≤ max_rounds (sn_budget s) ∧
  Z.of_nat (length (sn_pending s)) ≤ sn_submitted s ≤ max_experiments (sn_budget s) ∧
  NoDup (sn_fingerprints s) ∧ Z.of_nat (length (sn_fingerprints s)) = sn_submitted s ∧
  length (sn_history s) = length (sn_completed s) ∧
  Z.of_nat (length (sn_turns s)) ≤ sn_round_index s + 1 ∧
  (∀ r c, r ∈ eb_stress (sn_evidence s) → triggering_config r = Some c →
     same_replay_context c (sn_unit s) = true) ∧
  (sn_pending s = [] ↔ sn_status s ≠ WaitingInitial ∧ sn_status s ≠ WaitingFollowup) ∧
  (sn_publication s = ReportNotReady ↔ sn_report s = None) ∧
  (sn_report s ≠ None → sn_status s = SessionCompleted ∨ sn_status s = SessionInconclusive).
Proof.
  intros [H Hsh]%session_reachable_inv.
  assert (sn_pending s = [] ↔ sn_status s ≠ WaitingInitial ∧ sn_status s ≠ WaitingFollowup) as Hp.
  { rewrite (sh_pending _ Hsh). destruct (sn_status s); cbn; naive_solver. }
  assert (sn_report s ≠ None → sn_status s = SessionCompleted ∨ sn_status s = SessionInconclusive) as Hr.
  { intros Hr%(sh_report _ Hsh). destruct (sn_status s); try discriminate Hr; auto. }
  pose proof (sh_publication _ Hsh) as Hpub. destruct H as [Hv H1 H2 H3 H4 H5 H6 H7].
  pose proof (of_to_json s Hv) as Hj.
  exact (conj Hj (conj H1 (conj H2 (conj H4 (conj H3 (conj H6 (conj H7 (conj H5 (conj Hp (conj Hpub Hr)))))))))).
Qed.

Lemma session_invariant_witness :
  reachable demo_start ∧ of_json (to_json demo_start) = Ok demo_start ∧ length (sn_pending demo_start) = 2%nat.
Proof.
  split_and!; [exact demo_start_reachable|apply (session_invariant demo_start demo_start_reachable)|].
  vm_compute. reflexivity.
Defined.

(** ** Settling *)

Definition changes (s s' : AnalysisSession) : Prop := session_step s s' ∧ s' ≠ s.

Lemma changes_bounded n s s' :
  session_inv s → nsteps changes n s s' → Z.of_nat n + session_measure s' ≤ session_measure s.
Proof.
  intros H Hn. revert H. induction Hn as [s|n s u s' [Hsu Hne] _ IH]; intros H; [lia|].
  pose proof (session_step_inv _ _ H Hsu) as Hu. specialize (IH Hu).
  destruct (step_spends _ _ H Hsu) as [->|]; [done|lia].
Qed.

Lemma steps_inv s s' : session_inv s → rtc session_step s s' → session_inv s'.
Proof. intros H Hs. induction Hs as [|a b c Hab _ IH]; [done|]. apply IH. by eapply session_step_inv. Qed.

Lemma changes_inv n s s' : session_inv s → nsteps changes n s s' → session_inv s'.
Proof.
  intros H Hn. revert H. induction Hn as [s|n s u s' [Hsu _] _ IH]; intros H; [done|].
  apply IH. by eapply session_step_inv.
Qed.

Lemma turn_taken_changes s t :
  state_rank s = 2 → turn_taken s t → next t ≠ s.
Proof. intros Hr [(_ & H & _)|[H _]] E; rewrite E in H; lia. Qed.

(** C14: Every session settles.  From its creation a session changes at most
    four times per experiment and round of its budget and three times more,
    whatever happens to it; as long as it [requires_reconciliation] something
    can change it, and [resume_session] never fails and names an effect exactly
    then; a session that waits for its triage or for its reasoner accepts every
    well-formed decision and leaves that state or takes the turn. *)
Theorem session_settles s0 :
  session_start s0 →
  (∀ n s, nsteps changes n s0 s →
     Z.of_nat n ≤ 4 * (max_experiments (sn_budget s0) + max_rounds (sn_budget s0)) + 3) ∧
  (∀ s, rtc session_step s0 s →
     (requires_reconciliation s = true → ∃ s', changes s s') ∧
     (∃ l, resume_session s = Ok (mkTransition s l) ∧ (l = [] ↔ requires_reconciliation s = false)) ∧
     (∀ d, sn_status s = WaitingTriage → valid d →
        ∃ t, record_triage_decision s d = Ok t ∧ sn_status (next t) ≠ WaitingTriage) ∧
     (∀ d g, sn_status s = WaitingReasoner → valid d →
        ∃ t, record_analysis_decision s d g = Ok t ∧ changes s (next t))).
Proof.
  intros H0%start_inv. split.
  - intros n s Hn. pose proof (changes_bounded _ _ _ H0 Hn) as Hb.
    assert (session_inv s) as Hi by by eapply changes_inv.
    pose proof (measure_nonneg _ Hi) as Hm. pose proof (state_rank_range s0) as Hk. destruct H0 as [[_ Hround Hsub _ _ _ _ _] _].
    change (session_measure s0) with (4 * session_credit s0 + state_rank s0) in Hb. unfold session_credit in Hb. lia.
  - intros s Hs. pose proof (steps_inv _ _ H0 Hs) as H. split_and!.
    + intros Hr. by apply can_step.
    + destruct (resume_ok s H) as (l & E & Hl & _). by exists l.
    + intros d Est _. by apply triage_total.
    + intros d g Est Hd. destruct (analysis_total_inv s d g H Est Hd) as (t & E & _ & Ht).
      exists t. split; [exact E|]. split; [by eapply StepAnalysis|].
      eapply turn_taken_changes; [|exact Ht]. unfold state_rank. by rewrite Est.
Qed.

Lemma session_settles_witness :
  session_start demo_start ∧
  (∀ n s, nsteps changes n demo_start s → Z.of_nat n ≤ 43) ∧
  (∃ s, changes demo_start s).
Proof.
  assert (session_start demo_start) as H.
  { refine (StartSession "s-1" demo_unit None None [] (mkTransition demo_start [SubmitExperiments (sn_pending demo_start)]) _ I I _).
    - split; vm_compute; reflexivity.
    - vm_compute. reflexivity. }
  destruct (session_settles demo_start H) as [H1 H2]. split_and!; [exact H| |].
  - intros n s Hn. pose proof (H1 n s Hn) as Hb. vm_compute in Hb. vm_compute. exact Hb.
  - apply (H2 demo_start (rtc_refl _ _)). vm_compute. reflexivity.
Defined.

(** ** Deliveries *)

(** C15: Deliveries can be retried.  A session that can be reached answers
    every well-formed result with a transition or a named rejection, never an
    uncaught exception; after it has taken a result, delivering the same
    result again changes nothing and has no effect, and delivering a different
    result under the same identifier is refused as a conflict. *)
Theorem deliveries_are_retried_safely s r :
  reachable s → valid r →
  ((∃ t, record_experiment_result s r = Ok t) ∨ (∃ code, record_experiment_result s r = Err (Rejected code))) ∧
  (∀ t, record_experiment_result s r = Ok t → evidence_count (sn_evidence s) (result_id r) = 0%nat →
     (result_dict_eqb r r = true → record_experiment_result (next t) r = Ok (mkTransition (next t) [])) ∧
     (∀ r', result_id r' = result_id r → result_dict_eqb r r' = false →
        record_experiment_result (next t) r' = Err (Rejected "duplicate_conflict"))).
Proof.
  intros H%session_reachable_inv Hr. split.
  - pose proof (record_result_no_raise s r H Hr) as Hn.
    destruct (record_experiment_result s r) as [t|[code|e]]; [by left; exists t|by right; exists code|by destruct (Hn e)].
  - intros t E Hc. pose proof (delivered_holds s r t H E Hc) as Hh. split.
    + intros Heq. by rewrite (redelivery _ r r Hh eq_refl), Heq.
    + intros r' Hid Heq. by rewrite (redelivery _ r r' Hh Hid), Heq.
Qed.

Lemma deliveries_are_retried_safely_witness :
  ∃ t, record_experiment_result demo_start demo_sweep = Ok t ∧
       record_experiment_result (next t) demo_sweep = Ok (mkTransition (next t) []).
Proof.
  assert (is_ok (record_experiment_result demo_start demo_sweep) = true) as Hok by (vm_compute; reflexivity).
  destruct (record_experiment_result demo_start demo_sweep) as [t|e] eqn:E; [|discriminate Hok].
  exists t. split; [reflexivity|].
  assert (valid demo_sweep) as Hv by (vm_compute; exact I).
  assert (evidence_count (sn_evidence demo_start) (result_id demo_sweep) = 0%nat) as Hc by (vm_compute; reflexivity).
  assert (result_dict_eqb demo_sweep demo_sweep = true) as Heq by (vm_compute; reflexivity).
  exact (proj1 (proj2 (deliveries_are_retried_safely demo_start demo_sweep demo_start_reachable Hv) t E Hc) Heq).
Defined.
