(* ===== verification/Equality.v ===== *)
(** Decidable equality of the records of the wire contracts, up to a whole
    analysis session: what [is] decides of objects that are never changed. *)
From S2P Require Import Prelude.
From S2P Require Import Json.
From S2P Require Import Contracts.
From S2P Require Import Results.
From S2P Require Import Experiments.
From S2P Require Import SessionContracts.

#[export] Instance float_eq_dec : EqDecision float.
Proof. unfold float. solve_decision. Defined.
#[export] Instance json_eq_dec : EqDecision json.
Proof.
  refine (fix go (a b : json) {struct a} : Decision (a = b) :=
    match a, b with
    | JNull, JNull => left eq_refl
    | JBool x, JBool y => cast_if (decide (x = y))
    | JInt x, JInt y => cast_if (decide (x = y))
    | JFloat x, JFloat y => cast_if (decide (x = y))
    | JStr x, JStr y => cast_if (decide (x = y))
    | JList l, JList k => cast_if
        ((fix gol (l k : list json) : Decision (l = k) :=
           match l, k with
           | [], [] => left eq_refl
           | x :: l, y :: k => cast_if_and (go x y) (gol l k)
           | _, _ => right _
           end) l k)
    | JObj d, JObj e => cast_if
        ((fix god (d e : list (string * json)) : Decision (d = e) :=
           match d, e with
           | [], [] => left eq_refl
           | (k, v) :: d, (k', v') :: e => cast_if_and3 (decide (k = k')) (go v v') (god d e)
           | _, _ => right _
           end) d e)
    | _, _ => right _
    end); abstract congruence.
Defined.
#[export] Instance ExecutionProvenance_eq_dec : EqDecision ExecutionProvenance.
Proof. solve_decision. Defined.
#[export] Instance SanitizerSummary_eq_dec : EqDecision SanitizerSummary.
Proof. solve_decision. Defined.
#[export] Instance TriggeringDelayConfig_eq_dec : EqDecision TriggeringDelayConfig.
Proof. solve_decision. Defined.
#[export] Instance StressOptions_eq_dec : EqDecision StressOptions.
Proof. solve_decision. Defined.
#[export] Instance KernelDiscoveryOptions_eq_dec : EqDecision KernelDiscoveryOptions.
Proof. solve_decision. Defined.
#[export] Instance SuppressionDecision_eq_dec : EqDecision SuppressionDecision.
Proof. solve_decision. Defined.
#[export] Instance ScopeTriageSnapshot_eq_dec : EqDecision ScopeTriageSnapshot.
Proof. solve_decision. Defined.
#[export] Instance SuppressionAuditEntry_eq_dec : EqDecision SuppressionAuditEntry.
Proof. solve_decision. Defined.
#[export] Instance TriageSnapshot_eq_dec : EqDecision TriageSnapshot.
Proof. solve_decision. Defined.
#[export] Instance TriageDecision_eq_dec : EqDecision TriageDecision.
Proof. solve_decision. Defined.
#[export] Instance SanitizerSweepResult_eq_dec : EqDecision SanitizerSweepResult.
Proof. solve_decision. Defined.
#[export] Instance StressTestResult_eq_dec : EqDecision StressTestResult.
Proof. solve_decision. Defined.
#[export] Instance TraceSelector_eq_dec : EqDecision TraceSelector.
Proof. solve_decision. Defined.
#[export] Instance TraceOptions_eq_dec : EqDecision TraceOptions.
Proof. solve_decision. Defined.
#[export] Instance ReduceOptions_eq_dec : EqDecision ReduceOptions.
Proof. solve_decision. Defined.
#[export] Instance ExperimentSpec_eq_dec : EqDecision ExperimentSpec.
Proof. solve_decision. Defined.
#[export] Instance KernelDiscoveryManifest_eq_dec : EqDecision KernelDiscoveryManifest.
Proof. solve_decision. Defined.
#[export] Instance KernelDiscoveryResult_eq_dec : EqDecision KernelDiscoveryResult.
Proof. solve_decision. Defined.
#[export] Instance TraceDetectorSummary_eq_dec : EqDecision TraceDetectorSummary.
Proof. solve_decision. Defined.
#[export] Instance TraceAnalysisFinding_eq_dec : EqDecision TraceAnalysisFinding.
Proof. solve_decision. Defined.
#[export] Instance TraceAnalysisEvidence_eq_dec : EqDecision TraceAnalysisEvidence.
Proof. solve_decision. Defined.
#[export] Instance TraceExperimentResult_eq_dec : EqDecision TraceExperimentResult.
Proof. solve_decision. Defined.
#[export] Instance EssentialDelayPoint_eq_dec : EqDecision EssentialDelayPoint.
Proof. solve_decision. Defined.
#[export] Instance ReduceExperimentResult_eq_dec : EqDecision ReduceExperimentResult.
Proof. solve_decision. Defined.
#[export] Instance EvidenceBundle_eq_dec : EqDecision EvidenceBundle.
Proof. solve_decision. Defined.
#[export] Instance CrossValidation_eq_dec : EqDecision CrossValidation.
Proof. solve_decision. Defined.
#[export] Instance ExplainReport_eq_dec : EqDecision ExplainReport.
Proof. solve_decision. Defined.
#[export] Instance ExperimentRequest_eq_dec : EqDecision ExperimentRequest.
Proof. solve_decision. Defined.
#[export] Instance AnalysisDecision_eq_dec : EqDecision AnalysisDecision.
Proof. solve_decision. Defined.
#[export] Instance AnalysisTurn_eq_dec : EqDecision AnalysisTurn.
Proof. solve_decision. Defined.
#[export] Instance ExperimentRecord_eq_dec : EqDecision ExperimentRecord.
Proof. solve_decision. Defined.
#[export] Instance SessionBudget_eq_dec : EqDecision SessionBudget.
Proof. solve_decision. Defined.
#[export] Instance AnalysisSession_eq_dec : EqDecision AnalysisSession.
Proof. solve_decision. Defined.
