(* ===== verification/LocalDriver.v ===== *)
(** The local driver of a session: the second half of
    src/python/cutracer/service/runner.py.

    Everything outside the driver (experiments, the reasoner, the triage
    policy, the report sink, the session store and the clock) is a [Backend]:
    its answers may depend on the whole history of calls. *)
From S2P Require Import Prelude.
From S2P Require Import PyStr.
From S2P Require Import PyDict.
From S2P Require Import Json.
From S2P Require Import PyText.
From S2P Require Import Contracts.
From S2P Require Import Results.
From S2P Require Import Experiments.
From S2P Require Import SessionContracts.
From S2P Require Import Equality.
From S2P Require Import Triage.
From S2P Require Import SanitizerResults.
From S2P Require Import Policy.
From S2P Require Import SessionValidation.
From S2P Require Import Session.
From S2P Require Import SessionLaws.
From S2P Require Import SessionProperties.
From Stdlib Require Import Ascii.
Local Open Scope Z_scope.

(** ** What surrounds the driver *)

(** The calls a driver makes, in order. *)
Inductive DriverEvent :=
| ReadClock
| Executed (spec : ExperimentSpec)
| Analyzed (s : AnalysisSession)
| Triaged (s : AnalysisSession)
| Published (r : SessionReport)
| BaselinesRecorded (s : AnalysisSession)
| Saved (s : AnalysisSession).

(** An answer, an exception the driver handles (with its text), or another one. *)
Inductive answer (A : Type) :=
| Answered (a : A)
| Faulted (message : string)
| Threw (e : exn).
Arguments Answered {A} a.
Arguments Faulted {A} message.
Arguments Threw {A} e.

Record Backend := mkBackend {
  execute : list DriverEvent → ExperimentSpec → answer ExperimentResult;
  analyze : list DriverEvent → AnalysisSession → answer AnalysisDecision;
  triage_decide : list DriverEvent → AnalysisSession → dres TriageDecision;
  record_baselines : list DriverEvent → AnalysisSession → res exn ();
  publish : option (list DriverEvent → SessionReport → answer ());
  save : option (list DriverEvent → AnalysisSession → res exn ());
  clock_ms : list DriverEvent → Z;
  (** the second half of the text of an [ExperimentResultValidationError] *)
  refusal_detail : AnalysisSession → ExperimentResult → string
}.

Definition driver (A : Type) : Type := st (list DriverEvent) serr A.

(** A call, noted in the history. *)
Definition ask {A} (e : DriverEvent) (f : list DriverEvent → A) : driver A := λ h, (h ++ [e], Ok (f h)).

Definition set_state_revision (x : Z) (s : AnalysisSession) : AnalysisSession :=
  mkSession (sn_session_id s) (sn_unit s) (sn_status s) (sn_evidence s) (sn_budget s) (sn_pending s)
    (sn_completed s) (sn_fingerprints s) (sn_round_index s) (sn_submitted s) (sn_turns s)
    (sn_report s) (sn_triage s) (sn_history s) (sn_discovery_plan s) (sn_child_tools s)
    (sn_child_enable_stress s) (sn_child_stress s) (sn_child_session_ids s)
    (sn_termination_reason s) (sn_publication s) (sn_publication_error s) x
    (sn_schema_version s) (sn_admission_digest s) (sn_published_report s).

Section Driver.
Context (b : Backend) (guard_policy : option ExperimentGuardPolicy) (deadline_ms : option Z).

(** [deadline_ms is not None and clock_ms() >= deadline_ms]. *)
Definition past_deadline : driver bool :=
  match deadline_ms with
  | None => mret false
  | Some d => now ← ask ReadClock (clock_ms b); mret (d <=? now)
  end.

(** [_checkpoint]; a transition either returns its own session or a changed copy. *)
Definition checkpoint (previous current : AnalysisSession) : driver AnalysisSession :=
  if bool_decide (current = previous) then mret current
  else
    let current := set_state_revision (sn_state_revision previous + 1) current in
    match save b with
    | None => mret current
    | Some f => r ← ask (Saved current) (λ h, f h current); _ ← st_lift (lift_e r); mret current
    end.

(** A failure of the infrastructure ends the session. *)
Definition fail_session (current : AnalysisSession) (message : string) :
    driver (AnalysisSession * list SessionEffect) :=
  t ← st_lift (record_infrastructure_failure current message);
  c ← checkpoint current (next t); mret (c, []).

(** [_run_experiment_batch]. *)
Fixpoint run_experiment_batch (experiments : list ExperimentSpec) (current : AnalysisSession)
    (generated : list SessionEffect) : driver (AnalysisSession * list SessionEffect) :=
  match experiments with
  | [] => mret (current, generated)
  | sp :: rest =>
      late ← past_deadline;
      if late : bool then mret (current, generated)
      else
        a ← ask (Executed sp) (λ h, execute b h sp);
        match a with
        | Threw e => st_raise (Failed (Raised e))
        | Faulted message => fail_session current message
        | Answered r =>
            match record_experiment_result current r with
            | Err (Rejected code) => fail_session current (code +:+ ": " +:+ refusal_detail b current r)
            | Err e => st_raise e
            | Ok t => c ← checkpoint current (next t);
                      run_experiment_batch rest c (generated ++ effects t)
            end
        end
  end.

(** Publishing a report; without a sink the caller takes it. *)
Definition publish_report (current : AnalysisSession) : driver AnalysisSession :=
  report ← st_lift (build_session_report current);
  match publish b with
  | None => t ← st_lift (record_report_published current None); mret (next t)
  | Some f =>
      a ← ask (Published report) (λ h, f h report);
      match a with
      | Threw e => st_raise (Failed (Raised e))
      | Faulted message => t ← st_lift (record_report_publication_failed current message); mret (next t)
      | Answered _ =>
          t ← st_lift (record_report_published current None);
          r ← ask (BaselinesRecorded (next t)) (λ h, record_baselines b h (next t));
          _ ← st_lift (lift_e r); mret (next t)
      end
  end.

(** [_run_effect]. *)
Definition run_effect (session : AnalysisSession) (effect : SessionEffect) :
    driver (AnalysisSession * list SessionEffect) :=
  match effect with
  | SubmitExperiments experiments => run_experiment_batch experiments session []
  | RunTriage =>
      d ← ask (Triaged session) (λ h, triage_decide b h session);
      d ← st_lift (lift_d d);
      t ← st_lift (record_triage_decision session d);
      c ← checkpoint session (next t); mret (c, effects t)
  | RunReasoner =>
      a ← ask (Analyzed session) (λ h, analyze b h session);
      match a with
      | Threw e => st_raise (Failed (Raised e))
      | Faulted message => fail_session session message
      | Answered d =>
          t ← st_lift (record_analysis_decision session d guard_policy);
          c ← checkpoint session (next t); mret (c, effects t)
      end
  | PublishReport => u ← publish_report session; c ← checkpoint session u; mret (c, [])
  | CreateChildSessions => st_raise (Failed (Raised ValueError))
  end.

(** The loop of [resume_local_session], with [n] steps left. *)
Fixpoint drive (n : nat) (effects : list SessionEffect) (current : AnalysisSession) :
    driver AnalysisSession :=
  match effects with
  | [] => mret current
  | effect :: rest =>
      match n with
      | O => st_raise (Failed (Raised RuntimeError))
      | S n =>
          match effect with
          | CreateChildSessions => mret current
          | _ =>
              late ← past_deadline;
              if late : bool then mret current
              else r ← run_effect current effect; drive n (rest ++ r.2) r.1
          end
      end
  end.

Definition TRANSITION_LIMIT : nat := 100.

(** [resume_local_session]. *)
Definition resume_local_session (s : AnalysisSession) : driver AnalysisSession :=
  t ← st_lift (resume_session s); drive TRANSITION_LIMIT (effects t) s.

(** [run_local_session], on the transition [create_session] made; a failed
    session raises [SessionFailedError]. *)
Definition run_local_session (created : Transition) : driver SessionReport :=
  _ ← match save b with
      | None => mret ()
      | Some f => r ← ask (Saved (next created)) (λ h, f h (next created)); st_lift (lift_e r)
      end;
  current ← resume_local_session (next created);
  if bool_decide (sn_status current = SessionFailed) then st_raise (Failed (Raised RuntimeError))
  else st_lift (build_session_report current).
End Driver.

(** ** What a session is owed *)

(** The effects [resume_session] would ask for. *)
Definition owed (s : AnalysisSession) : list SessionEffect :=
  match resume_session s with Ok t => effects t | Err _ => [] end.

(** How many steps a driver may still have to take. *)
Definition driver_rank (s : AnalysisSession) : Z :=
  let rounds := max_rounds (sn_budget s) - sn_round_index s in
  match sn_status s with
  | WaitingInitial => 4 + 2 * rounds
  | WaitingTriage | WaitingFollowup => 3 + 2 * rounds
  | WaitingReasoner => 2 + 2 * rounds
  | WaitingChildren => 1
  | _ => if bool_decide (sn_publication s = ReportPending) then 1 else 0
  end.

Lemma owed_revision x s : owed (set_state_revision x s) = owed s.
Proof. unfold owed, resume_session. cbn. by destruct (sn_status s); try destruct (bool_decide (sn_publication s = ReportPending)). Qed.

Lemma rank_revision x s : driver_rank (set_state_revision x s) = driver_rank s.
Proof. done. Qed.

Lemma revision_inv x s : session_inv s → session_inv (set_state_revision x s).
Proof.
  intros [H [H1 H2 H3 H4 H5 H6 H7]]. split; [|by constructor].
  session_cases H. constructor; session_fields.
Qed.

Lemma rounds_left s : session_inv s → 0 ≤ max_rounds (sn_budget s) - sn_round_index s.
Proof. intros [[_ H _ _ _ _ _ _] _]. lia. Qed.

Lemma owed_ended t : ended t → effects t = owed (next t) ∧ driver_rank (next t) = 1.
Proof.
  intros (Hst & Hp & ->). unfold owed, driver_rank, resume_session.
  by destruct (sn_status (next t)); try discriminate Hst; rewrite bool_decide_true by done.
Qed.

Lemma owed_turn s t :
  session_inv s → sn_status s = WaitingReasoner → turn_taken s t →
  effects t = owed (next t) ∧ driver_rank (next t) < driver_rank s.
Proof.
  intros H Hs Ht. pose proof (rounds_left s H) as Hr.
  assert (driver_rank s = 2 + 2 * (max_rounds (sn_budget s) - sn_round_index s)) as ->
    by (unfold driver_rank; by rewrite Hs).
  destruct Ht as [(_ & _ & He)|[_ (Hst & Hrd & Hb & ->)]].
  - apply owed_ended in He as [-> ->]. split; [done|lia].
  - unfold owed, driver_rank, resume_session. rewrite Hst, Hrd, Hb. split; [done|lia].
Qed.

Lemma owed_triage s d :
  session_inv s → sn_status s = WaitingTriage → valid d →
  ∃ t, record_triage_decision s d = Ok t ∧ session_inv (next t) ∧
       effects t = owed (next t) ∧ driver_rank (next t) < driver_rank s.
Proof.
  intros H Est Hd. destruct (triage_total s d H Est) as (t & E & _). exists t.
  split; [done|]. split; [by eapply triage_inv|]. pose proof (rounds_left s H) as Hr.
  assert (driver_rank s = 3 + 2 * (max_rounds (sn_budget s) - sn_round_index s)) as ->
    by (unfold driver_rank; by rewrite Est).
  unfold record_triage_decision in E. rewrite bool_decide_true in E by done. cbn [negb] in E.
  destruct (td_outcome d).
  - rewrite (core_clone _ (proj1 H)) in E. cbn [mbind res_bind] in E. injection E as <-.
    unfold owed, driver_rank, resume_session. cbn. split; [done|lia].
  - rewrite (core_clone _ (proj1 H)) in E. cbn [mbind res_bind] in E. injection E as <-.
    split; [done|]. change (1 < 3 + 2 * (max_rounds (sn_budget s) - sn_round_index s)). lia.
  - pose proof (terminate_ended _ _ _ _ (proj1 H) E) as He. apply owed_ended in He as [-> ->]. split; [done|lia].
Qed.

(** An active session fails without leaving anything to do. *)
Lemma owed_failure s m :
  session_inv s → terminal_status (sn_status s) = false → strip (chars m) ≠ [] →
  ∃ t, record_infrastructure_failure s m = Ok t ∧ session_inv (next t) ∧
       owed (next t) = [] ∧ driver_rank (next t) = 0.
Proof.
  intros H Et Hm. destruct (record_infrastructure_failure s m) as [t|e] eqn:E.
  - exists t. split; [done|]. split; [by eapply infrastructure_failure_inv|]. revert E.
    unfold record_infrastructure_failure. rewrite bool_decide_false, Et by done.
    rewrite (core_clone _ (proj1 H)). cbn [mbind res_bind]. intros E. injection E as <-.
    assert (sn_publication s = ReportNotReady) as Hp.
    { apply (active_no_report s (proj2 H)). by destruct (sn_status s). }
    unfold owed, driver_rank, resume_session. cbn. by rewrite Hp.
  - exfalso. revert E. unfold record_infrastructure_failure. rewrite bool_decide_false, Et by done.
    by rewrite (core_clone _ (proj1 H)).
Qed.

(** The first of the pending experiments is answered. *)
Lemma first_answered s sp rest r t :
  session_inv s → sn_pending s = sp :: rest → result_id r = sp_experiment_id sp →
  record_experiment_result s r = Ok t →
  validate_spec_context s sp = Ok () ∧ sn_pending (accept_result s sp r) = rest ∧
  match rest with
  | [] => after_last_result (accept_result s sp r) sp = Ok t
  | _ => t = mkTransition (accept_result s sp r) []
  end.
Proof.
  intros [H _] Hp Hid E. pose proof E as E'. unfold record_experiment_result in E'.
  apply bind_ok in E' as ([] & Hidx & E'). apply indexes_ok in Hidx as (Hnd & _ & Hdis & _).
  unfold pending_experiment_ids in *. rewrite Hp in Hnd, Hdis.
  rewrite bool_decide_false in E' by (rewrite Hid; apply Hdis; by left). clear E'.
  apply NoDup_cons in Hnd as [Hnew Hnd].
  assert (∀ l, sp_experiment_id sp ∉ sp_experiment_id <$> l →
    List.filter (λ p, bool_decide (sp_experiment_id p = result_id r)) l = [] ∧
    List.filter (λ p, negb (bool_decide (sp_experiment_id p = result_id r))) l = l) as Hl.
  { induction l as [|x l IH]; [done|]. cbn. rewrite not_elem_of_cons. intros [Hx Hl].
    destruct (IH Hl) as [-> ->]. rewrite bool_decide_false by congruence. done. }
  destruct (Hl rest Hnew) as [Hl1 Hl2].
  assert (sn_pending (accept_result s sp r) = rest) as Hrest.
  { change (List.filter (λ p, negb (bool_decide (sp_experiment_id p = result_id r))) (sn_pending s) = rest).
    rewrite Hp. cbn. by rewrite bool_decide_true. }
  destruct (record_result_accepted s r t H E) as [->|sp' Hf Hc Hv Ht].
  - exfalso. unfold record_experiment_result in E. apply bind_ok in E as ([] & _ & E).
    rewrite bool_decide_false in E by (rewrite Hid; apply Hdis; by left). rewrite Hp in E. cbn in E.
    rewrite bool_decide_true in E by done. rewrite Hl1 in E.
    apply bind_ok in E as ([] & _ & E). apply bind_ok in E as ([] & _ & E).
    rewrite (core_clone _ H) in E. cbn [mbind res_bind] in E. cbv zeta in E.
    change (List.filter (λ p, negb (bool_decide (sp_experiment_id p = result_id r))) (sn_pending s))
      with (sn_pending (accept_result s sp r)) in E. rewrite Hrest in E.
    assert (sn_completed s = sn_completed s ++ [result_id r]) as Hbad.
    { destruct rest; cbn [length] in E.
      - rewrite bool_decide_true in E by done. apply after_last_same in E as (E1 & _). exact E1.
      - rewrite bool_decide_false in E by done. injection E as E.
        exact (f_equal sn_completed (eq_sym E)). }
    apply (f_equal length) in Hbad. rewrite length_app in Hbad. cbn in Hbad. lia.
  - rewrite Hp in Hf. cbn in Hf. rewrite bool_decide_true, Hl1 in Hf by done. injection Hf as <-.
    split; [done|]. split; [done|]. cbv zeta in Ht. rewrite Hrest in Ht.
    destruct rest; cbn [length] in Ht.
    + by rewrite bool_decide_true in Ht.
    + by rewrite bool_decide_false in Ht.
Qed.

(** After the last result the session asks for what it owes next. *)
Lemma owed_last s sp r t :
  session_inv s → validate_spec_context s sp = Ok () →
  after_last_result (accept_result s sp r) sp = Ok t →
  effects t = owed (next t) ∧ driver_rank (next t) < driver_rank s.
Proof.
  intros H Hc E. destruct (spec_context_ok s sp Hc) as (_ & _ & Hst). pose proof (rounds_left s H) as Hr.
  assert (3 + 2 * (max_rounds (sn_budget s) - sn_round_index s) +
          match sp_phase sp with Initial => 1 | Followup => 0 end = driver_rank s) as <-
    by (unfold driver_rank; rewrite Hst; destruct (sp_phase sp); lia).
  assert (sn_publication s = ReportNotReady) as Hp.
  { apply (active_no_report s (proj2 H)). rewrite Hst. by destruct (sp_phase sp). }
  unfold after_last_result in E. destruct (is_some _).
  - destruct (eb_discovery _) as [|d [|? ?]]; try done. destruct (negb _); injection E as <-.
    + unfold owed, driver_rank, resume_session. cbn. rewrite Hp.
      split; [done|]. rewrite bool_decide_false by done. destruct (sp_phase sp); lia.
    + unfold owed, driver_rank, resume_session. cbn. split; [done|]. destruct (sp_phase sp); lia.
  - destruct (sp_phase sp) eqn:Eph; injection E as <-; (split; [done|]).
    + unfold driver_rank. cbn. lia.
    + unfold driver_rank. cbn. lia.
Qed.

#[export] Instance SessionEffect_eq_dec : EqDecision SessionEffect.
Proof. solve_decision. Defined.

(** ** Runs of the driver *)

(** From the history [h], [m] returns, with what [P] says of the history and value. *)
Definition ends {A} (m : driver A) (h : list DriverEvent) (P : list DriverEvent → A → Prop) : Prop :=
  ∃ h' a, m h = (h', Ok a) ∧ P h' a.

Lemma ends_ret {A} (a : A) h (P : list DriverEvent → A → Prop) : P h a → ends (mret a) h P.
Proof. intros H. by exists h, a. Qed.

Lemma ends_lift {A} (x : sres A) a h (P : list DriverEvent → A → Prop) : x = Ok a → P h a → ends (st_lift x) h P.
Proof. intros -> H. by exists h, a. Qed.

Lemma ends_ask {A} e (f : list DriverEvent → A) h (P : list DriverEvent → A → Prop) :
  P (h ++ [e]) (f h) → ends (ask e f) h P.
Proof. intros H. by exists (h ++ [e]), (f h). Qed.

Lemma ends_bind {A B} (m : driver A) (k : A → driver B) h (Q : list DriverEvent → A → Prop) P :
  ends m h Q → (∀ h' a, Q h' a → ends (k a) h' P) → ends (m ≫= k) h P.
Proof.
  intros (h1 & a & Hm & HQ) Hk. destruct (Hk h1 a HQ) as (h2 & c & Hc & HP). exists h2, c.
  split; [|done]. unfold mbind, st_bind. by rewrite Hm.
Qed.

Lemma ends_bind_ask {A B} e (f : list DriverEvent → A) (k : A → driver B) h P :
  ends (k (f h)) (h ++ [e]) P → ends (ask e f ≫= k) h P.
Proof. intros (h2 & c & Hc & HP). exists h2, c. split; [exact Hc|done]. Qed.

Lemma ends_bind_lift {A B} (x : sres A) a (k : A → driver B) h P :
  x = Ok a → ends (k a) h P → ends (st_lift x ≫= k) h P.
Proof. intros -> (h2 & c & Hc & HP). exists h2, c. split; [exact Hc|done]. Qed.

(** The sessions saved so far; the store holds the last one. *)
Definition saves (h : list DriverEvent) : list AnalysisSession :=
  omap (λ e, match e with Saved s => Some s | _ => None end) h.

Definition stored (b : Backend) (s : AnalysisSession) (h : list DriverEvent) : Prop :=
  is_some (save b) = true → last (saves h) = Some s.

Lemma stored_other b s h e :
  match e with Saved _ => False | _ => True end → stored b s h → stored b s (h ++ [e]).
Proof.
  intros He Hs Hb. specialize (Hs Hb). unfold saves in *. rewrite omap_app. destruct e; try done; cbn;
    by rewrite app_nil_r.
Qed.

(** What surrounds the driver answers within its contracts: results for what
    was asked, well-formed values, failures with a text. *)
Record dependable (b : Backend) : Prop := {
  dp_execute h sp : valid sp →
    match execute b h sp with
    | Answered r => valid r ∧ result_id r = sp_experiment_id sp
    | Faulted m => strip (chars m) ≠ []
    | Threw _ => False
    end;
  dp_analyze h s :
    match analyze b h s with Answered d => valid d | Faulted m => strip (chars m) ≠ [] | Threw _ => False end;
  dp_triage h s : session_inv s → ∃ d, triage_decide b h s = Ok d ∧ valid d;
  dp_baselines h s : record_baselines b h s = Ok ();
  dp_publish f h r : publish b = Some f →
    match f h r with Answered _ => True | Faulted m => strip (chars m) ≠ [] | Threw _ => False end;
  dp_save f h s : save b = Some f → f h s = Ok ()
}.

Lemma refusal_text code m : strip (chars (code +:+ ": " +:+ m)) ≠ [].
Proof.
  apply (strip_not_nil _ ":"%char); [|done]. rewrite !chars_app. apply elem_of_app. right.
  apply elem_of_app. left. by left.
Qed.

(** ** The loop settles *)

Section Settles.
Context (b : Backend) (g : option ExperimentGuardPolicy) (Hb : dependable b).

(** What every part of the driver leaves behind. *)
Definition left_with (rank : Z) (h : list DriverEvent) (r : AnalysisSession * list SessionEffect) : Prop :=
  session_inv r.1 ∧ stored b r.1 h ∧ r.2 = owed r.1 ∧ driver_rank r.1 < rank.

(** A checkpoint keeps a session up to its revision, and stores it. *)
Lemma checkpoint_ends previous current h :
  stored b previous h → session_inv current →
  ends (checkpoint b previous current) h (λ h' c,
    stored b c h' ∧ session_inv c ∧ (c = current ∨ ∃ x, c = set_state_revision x current)).
Proof.
  intros Hs Hc. unfold checkpoint. destruct (bool_decide_reflect (current = previous)) as [->|].
  - apply ends_ret. split_and!; [exact Hs|exact Hc|by left].
  - cbv zeta. set (c := set_state_revision _ current).
    assert (session_inv c ∧ (c = current ∨ ∃ x, c = set_state_revision x current)) as [Hi Hx].
    { split; [by apply revision_inv|right; by eexists]. }
    destruct (save b) as [f|] eqn:Ef.
    + apply ends_bind_ask. rewrite (dp_save _ Hb f _ _ Ef). eapply ends_bind_lift; [reflexivity|].
      apply ends_ret. split_and!; [|exact Hi|exact Hx]. intros _. unfold saves.
      rewrite omap_app. apply last_snoc.
    + apply ends_ret. split_and!; [|exact Hi|exact Hx]. intros H. by rewrite Ef in H.
Qed.

(** The same, with what the session is owed. *)
Lemma checkpoint_left previous current h effs rank :
  stored b previous h → session_inv current → effs = owed current → driver_rank current < rank →
  ends (c ← checkpoint b previous current; mret (c, effs)) h (left_with rank).
Proof.
  intros Hs Hc He Hr. eapply ends_bind; [by apply checkpoint_ends|].
  intros h' c (Hs' & Hi & Hx). apply ends_ret. split_and!; [exact Hi|exact Hs'| |]; cbn;
    destruct Hx as [->|[x ->]]; rewrite ?owed_revision, ?rank_revision; done.
Qed.

Lemma rank_active s : session_inv s → terminal_status (sn_status s) = false → 0 < driver_rank s.
Proof. intros H Ht. pose proof (rounds_left s H). unfold driver_rank. destruct (sn_status s); try done; lia. Qed.

Lemma fail_ends s m h :
  session_inv s → stored b s h → terminal_status (sn_status s) = false → strip (chars m) ≠ [] →
  ends (fail_session b s m) h (left_with (driver_rank s)).
Proof.
  intros H Hs Ht Hm. destruct (owed_failure s m H Ht Hm) as (t & E & Hi & Ho & Hr).
  unfold fail_session. eapply ends_bind_lift; [exact E|]. apply checkpoint_left; try done.
  rewrite Hr. by apply rank_active.
Qed.

Lemma waiting_active s : waiting_results (sn_status s) = true → terminal_status (sn_status s) = false.
Proof. by destruct (sn_status s). Qed.

Lemma batch_ends experiments s h :
  experiments ≠ [] → sn_pending s = experiments → session_inv s → stored b s h →
  waiting_results (sn_status s) = true →
  ends (run_experiment_batch b None experiments s []) h (left_with (driver_rank s)).
Proof.
  revert s h. induction experiments as [|sp rest IH]; intros s h Hne Hp H Hs Hw; [done|]. clear Hne.
  cbn [run_experiment_batch past_deadline]. eapply ends_bind; [by apply (ends_ret false _ (λ h' l, h' = h ∧ l = false))|].
  intros h' l [-> ->]. apply ends_bind_ask.
  assert (stored b s (h ++ [Executed sp])) as Hs1 by by apply stored_other.
  assert (valid sp) as Hsp.
  { destruct H as [[(_ & _ & _ & Hv & _) _ _ _ _ _ _ _] _]. rewrite Hp in Hv. by apply Forall_cons in Hv as [? _]. }
  pose proof (dp_execute _ Hb h sp Hsp) as Hx. pose proof (waiting_active s Hw) as Hact.
  destruct (execute b h sp) as [r|m|e]; [|by apply fail_ends|done]. destruct Hx as [Hr Hid].
  destruct (record_experiment_result s r) as [t|[code|e]] eqn:E.
  2: { apply fail_ends; try done. apply refusal_text. }
  2: { exfalso. by eapply record_result_no_raise; [..|exact E]. }
  destruct (first_answered s sp rest r t H Hp Hid E) as (Hctx & Hrest & Ht).
  pose proof (record_result_inv s r t H Hr E) as Hi.
  eapply ends_bind; [by apply checkpoint_ends|]. intros h2 c (Hs2 & Hc & Hx). destruct rest as [|sp2 rest].
  - destruct (owed_last s sp r t H Hctx Ht) as [He Hk]. apply ends_ret.
    split_and!; cbn; [exact Hc|exact Hs2| |];
      destruct Hx as [->|[x ->]]; rewrite ?owed_revision, ?rank_revision; done.
  - rewrite Ht in Hx |- *. cbn [effects next app] in Hx |- *.
    assert (sn_pending c = sp2 :: rest ∧ sn_status c = sn_status s ∧ driver_rank c = driver_rank s) as (Hcp & Hst & Hk)
      by (destruct Hx as [->|[x ->]]; done).
    rewrite <- Hk. apply IH; try done. by rewrite Hst.
Qed.

(** A report that is due can be built, and its publication recorded. *)
Lemma due_report s :
  session_inv s → terminal_status (sn_status s) = true → sn_publication s = ReportPending →
  (∃ r, build_session_report s = Ok r) ∧
  (∃ t, record_report_published s None = Ok t ∧ session_inv (next t) ∧
        owed (next t) = [] ∧ driver_rank (next t) = 0) ∧
  (∀ m, strip (chars m) ≠ [] → ∃ t, record_report_publication_failed s m = Ok t ∧ session_inv (next t) ∧
        owed (next t) = [] ∧ driver_rank (next t) = 0).
Proof.
  intros H Ht Hp.
  assert (sn_report s ≠ None) as Hrep.
  { intros E. apply (sh_publication _ (proj2 H)) in E. by rewrite E in Hp. }
  pose proof (sh_report _ (proj2 H) Hrep) as Hpub. split_and!.
  - unfold build_session_report. destruct (sn_report s); [|done]. rewrite Hpub. by eexists.
  - destruct (record_report_published s None) as [t|] eqn:E.
    + exists t. split; [done|]. split; [by eapply published_inv|]. revert E.
      unfold record_report_published. rewrite Hpub, Hp. destruct (sn_report s); [|done]. cbn [is_some negb].
      rewrite bool_decide_false, bool_decide_true by done. rewrite (core_clone _ (proj1 H)).
      cbn [mbind res_bind negb]. intros E. injection E as <-.
      unfold owed, driver_rank, resume_session. cbn. by destruct (sn_status s).
    + exfalso. revert E. unfold record_report_published. rewrite Hpub, Hp. destruct (sn_report s); [|done].
      cbn [is_some negb]. rewrite bool_decide_false, bool_decide_true by done. by rewrite (core_clone _ (proj1 H)).
  - intros m Hm. destruct (record_report_publication_failed s m) as [t|] eqn:E.
    + exists t. split; [done|]. split; [by eapply publication_failed_inv|]. revert E.
      unfold record_report_publication_failed. rewrite Hpub, Hp.
      rewrite bool_decide_false by done. cbn [negb]. rewrite bool_decide_false, bool_decide_true by done.
      rewrite (core_clone _ (proj1 H)).
      cbn [mbind res_bind negb]. intros E. injection E as <-.
      unfold owed, driver_rank, resume_session. cbn. by destruct (sn_status s).
    + exfalso. revert E. unfold record_report_publication_failed. rewrite Hpub, Hp.
      rewrite bool_decide_false by done. cbn [negb]. rewrite bool_decide_false, bool_decide_true by done.
      by rewrite (core_clone _ (proj1 H)).
Qed.

Lemma publish_ends s h :
  session_inv s → stored b s h → terminal_status (sn_status s) = true → sn_publication s = ReportPending →
  ends (u ← publish_report b s; c ← checkpoint b s u; mret (c, [])) h (left_with (driver_rank s)).
Proof.
  intros H Hs Ht Hp. destruct (due_report s H Ht Hp) as ([r Er] & (t & Et & Hi & Ho & Hk) & Hfail).
  assert (driver_rank s = 1) as Hrank
    by (unfold driver_rank; rewrite Hp; by destruct (sn_status s)).
  eapply (ends_bind _ _ _ (λ h' u, stored b s h' ∧ session_inv u ∧ owed u = [] ∧ driver_rank u = 0)).
  2: { intros h' u (Hs' & Hu & Hou & Hku). apply checkpoint_left; try done. rewrite Hku, Hrank. lia. }
  unfold publish_report. eapply ends_bind_lift; [exact Er|]. destruct (publish b) as [f|] eqn:Ef.
  - apply ends_bind_ask. pose proof (dp_publish _ Hb f h r Ef) as Hx.
    assert (stored b s (h ++ [Published r])) as Hs1 by by apply stored_other.
    destruct (f h r) as [[]|m|e]; [| |done].
    + eapply ends_bind_lift; [exact Et|]. apply ends_bind_ask. rewrite (dp_baselines _ Hb).
      eapply ends_bind_lift; [reflexivity|]. apply ends_ret. split_and!; try done. by apply stored_other.
    + destruct (Hfail m Hx) as (t' & Et' & Hi' & Ho' & Hk'). eapply ends_bind_lift; [exact Et'|]. by apply ends_ret.
  - eapply ends_bind_lift; [exact Et|]. by apply ends_ret.
Qed.

(** One effect: what it leaves is owed again, and less of it. *)
Lemma run_effect_ends s e h :
  session_inv s → stored b s h → owed s = [e] → e ≠ CreateChildSessions →
  ends (run_effect b g None s e) h (left_with (driver_rank s)).
Proof.
  intros H Hs Ho Hne. unfold owed, resume_session in Ho. pose proof (sh_pending _ (proj2 H)) as Hp.
  destruct (sn_status s) eqn:Est; cbn in Ho;
    try match type of Ho with context [bool_decide ?P] => destruct (bool_decide_reflect P) end;
    try discriminate Ho; injection Ho as <-; cbn [run_effect].
  all: try (apply publish_ends; [done|done|by rewrite Est|done]).
  all: try (apply batch_ends; [|done|done|done|by rewrite Est];
            intros E; apply Hp in E; discriminate E).
  - done.
  - apply ends_bind_ask. destruct (dp_triage _ Hb h s H) as (d & -> & Hd). cbn [lift_d].
    eapply ends_bind_lift; [reflexivity|]. destruct (owed_triage s d H Est Hd) as (t & E & Hi & He & Hk).
    eapply ends_bind_lift; [exact E|]. apply checkpoint_left; try done. by apply stored_other.
  - apply ends_bind_ask. pose proof (dp_analyze _ Hb h s) as Hx.
    assert (stored b s (h ++ [Analyzed s])) as Hs1 by by apply stored_other.
    destruct (analyze b h s) as [d|m|e]; [|by apply fail_ends; rewrite ?Est|done].
    destruct (analysis_total_inv s d g H Est Hx) as (t & E & Hi & Ht).
    destruct (owed_turn s t H Est Ht) as [He Hk].
    eapply ends_bind_lift; [exact E|]. by apply checkpoint_left.
Qed.

Lemma owed_cases s : owed s = [] ∧ requires_reconciliation s = false ∨ (∃ e, owed s = [e]) ∧ requires_reconciliation s = true.
Proof.
  unfold owed, resume_session, requires_reconciliation. destruct (sn_status s); cbn; try (right; split; [by eexists|done]).
  all: destruct (bool_decide _); [right; split; [by eexists|done]|by left].
Qed.

Definition settled (s : AnalysisSession) : Prop :=
  requires_reconciliation s = false ∨ sn_status s = WaitingChildren.

Lemma drive_ends n s h :
  session_inv s → stored b s h → driver_rank s ≤ Z.of_nat n →
  ends (drive b g None n (owed s) s) h (λ h' c, session_inv c ∧ stored b c h' ∧ settled c).
Proof.
  revert s h. induction n as [|n IH]; intros s h H Hs Hn;
    (destruct (owed_cases s) as [[Ho Hr]|[[e Ho] Hr]]; rewrite Ho; cbn [drive];
     [by apply ends_ret; split_and!; [..|left]|]).
  - exfalso. unfold owed, resume_session in Ho. pose proof (rounds_left s H). unfold driver_rank in Hn.
    destruct (sn_status s); cbn in Ho, Hn; try lia; destruct (bool_decide _); try done; lia.
  - destruct (decide (e = CreateChildSessions)) as [->|He].
    + apply ends_ret. split_and!; [done|done|]. right. unfold owed, resume_session in Ho.
      destruct (sn_status s); try discriminate Ho; [done|..]; by destruct (bool_decide _) in Ho.
    + assert (ends (r ← run_effect b g None s e; drive b g None n ([] ++ r.2) r.1) h
               (λ h' c, session_inv c ∧ stored b c h' ∧ settled c)) as Hstep.
      { eapply ends_bind; [by apply run_effect_ends|]. intros h' [c q] (Hi & Hs' & -> & Hk). cbn in *.
        apply IH; [done|done|lia]. }
      destruct e; try done; cbn [past_deadline]; exact Hstep.
Qed.
End Settles.

(** C16: The local driver settles every session.  Whatever the experiments,
    the reasoner, the triage policy and the report sink answer within their
    contracts, failures included, [resume_local_session] without a deadline
    returns from every reachable session whose budget has at most 48 rounds:
    it stays within its limit of 100 transitions, and what it returns no
    longer requires reconciliation, or waits for its children.  The session it
    returns still satisfies the session invariant and is the one last saved. *)
Theorem local_driver_settles b g s h :
  reachable s → dependable b → stored b s h → max_rounds (sn_budget s) ≤ 48 →
  ∃ h' s', resume_local_session b g None s h = (h', Ok s') ∧
    session_inv s' ∧ (requires_reconciliation s' = false ∨ sn_status s' = WaitingChildren) ∧ stored b s' h'.
Proof.
  intros H%session_reachable_inv Hb Hs Hr. destruct (resume_ok s H) as (l & El & _).
  assert (driver_rank s ≤ Z.of_nat TRANSITION_LIMIT) as Hk.
  { change (Z.of_nat TRANSITION_LIMIT) with 100. destruct H as [[_ H1 _ _ _ _ _ _] _].
    unfold driver_rank. destruct (sn_status s); try lia; destruct (bool_decide _); lia. }
  destruct (drive_ends b g Hb TRANSITION_LIMIT s h H Hs Hk) as (h' & s' & E & Hi & Hs' & Hst).
  exists h', s'. split_and!; try done. unfold resume_local_session. rewrite El.
  unfold mbind, st_bind, st_lift. cbn [effects]. unfold owed in E. by rewrite El in E.
Qed.

(** A host without a device for anything but the sanitizer. *)
Definition demo_backend : Backend := mkBackend
  (λ _ sp, match sp_kind sp with
           | COMPUTE_SANITIZER =>
               Answered (SweepResult (mkSweep (sp_experiment_id sp) Succeeded SaniFinding (default "" (sp_sanitizer_tool sp))
                 [mkFinding "racecheck" "race-condition" None None 1 "hazard" "RAW"]
                 (mkProvenance (source_revision (sp_unit sp)) (arch (sp_unit sp)) (kernel (sp_unit sp)) "" "")
                 None f_zero None None Partial ["no summary"] false))
           | _ => Faulted "no device"
           end)
  (λ _ _, Faulted "no model")
  (λ _ _, Ok (mkTriageDecision Analyze "new findings" None))
  (λ _ _, Ok ())
  None
  (Some (λ _ _, Ok ()))
  (λ _, 0)
  (λ _ _, "").

Lemma demo_backend_dependable : dependable demo_backend.
Proof.
  constructor; cbn; try done.
  - intros _ sp Hsp. destruct (sp_kind sp); try (split; [exact I|reflexivity]); vm_compute; discriminate.
  - intros _ s _. by eexists.
  - intros f _ s [= <-]. done.
Qed.

Lemma local_driver_settles_witness :
  ∃ h' s', resume_local_session demo_backend None None demo_start [Saved demo_start] = (h', Ok s') ∧
    session_inv s' ∧ (requires_reconciliation s' = false ∨ sn_status s' = WaitingChildren) ∧
    stored demo_backend s' h'.
Proof.
  apply (local_driver_settles demo_backend None demo_start [Saved demo_start]).
  - exact demo_start_reachable.
  - exact demo_backend_dependable.
  - intros _. reflexivity.
  - vm_compute. discriminate.
Defined.
