(* ===== verification/RunSummaries.v ===== *)
(** What a run reports: the identities of discovered children
    (src/python/cutracer/service/discovery_plan.py), the aggregation of a
    run's sessions (service/run_summary.py) and the retry policy of its
    reconciliation (service/reconcile_policy.py). *)
From S2P Require Import Prelude.
From S2P Require Import PyStr.
From S2P Require Import PyDict.
From S2P Require Import PySet.
From S2P Require Import Json.
From S2P Require Import PyText.
From S2P Require Import Sha256.
From S2P Require Import Contracts.
From S2P Require Import Results.
From S2P Require Import Experiments.
From S2P Require Import SessionContracts.
From S2P Require Import RunContracts.
From S2P Require Import SessionProperties.
Local Open Scope Z_scope.

(** ** Children of a discovery *)

(** [_child_unit]. *)
Definition child_unit (parent : WorkUnit) (k : KernelId) : WorkUnit :=
  let identity := JObj [("parent_unit_id", JStr (unit_id parent));
                        ("kernel", JObj [("name", JStr (ki_name k)); ("cubin_hash", JStr (cubin_hash k))])] in
  let suffix := str (take 16 (sha256_hexdigest (json_dumps identity))) in
  mkUnit (unit_id parent +:+ "-kernel-" +:+ suffix) (argv parent) (workload parent) (test_id parent) (cwd parent)
    (arch parent) (source_revision parent) (Some k) (oracle parent) (env parent) [].

(** [pin_discovered_work_units]. *)
Definition pin_discovered_work_units (target : WorkUnit) (kernels : list KernelId) : res exn (list WorkUnit) :=
  match kernel target with
  | Some _ => Err ValueError
  | None => Ok (child_unit target <$> kernels)
  end.

(** The kernel of a serialized unit, without its mangled name. *)
Definition unit_identity (u : WorkUnit) : json :=
  match to_json u with
  | JObj d => JObj ((λ e, if String.eqb e.1 "kernel"
                          then match e.2 with
                               | JObj k => (e.1, JObj (List.filter (λ f, negb (String.eqb f.1 "mangled_name")) k))
                               | _ => e
                               end
                          else e) <$> d)
  | j => j
  end.

(** [discovery_child_session_id]. *)
Definition discovery_child_session_id (parent_session_id : string) (u : WorkUnit) : string :=
  let identity := JObj [("parent_session_id", JStr parent_session_id); ("unit", unit_identity u)] in
  str (take 226 (chars parent_session_id)) +:+ "-kernel-" +:+
  str (take 20 (sha256_hexdigest (json_dumps identity))).

(** ** The summary of a run *)

Definition unit_dict_eqb (a b : WorkUnit) : bool := json_eqb (to_json a) (to_json b).

(** A conflict with the stored request, or another exception. *)
Inductive run_error := InputConflict | RunRaised (e : exn).
Notation runres := (res run_error).

Definition lift_run {A} (r : res exn A) : runres A := match r with Ok a => Ok a | Err e => Err (RunRaised e) end.

(** [expected_run_units]; [unit] is the work unit the request holds. *)
Definition expected_run_units (request : RunInput) (unit : WorkUnit) (root : option AnalysisSession) :
    runres (dict string WorkUnit) :=
  let expected := [(root_session_id request, unit)] in
  match root with
  | None => Ok expected
  | Some r =>
      if negb (bool_decide (sn_session_id r = root_session_id request)) || negb (unit_dict_eqb (sn_unit r) unit)
      then Err InputConflict
      else
        expected ←
          match sn_discovery_plan r, dr_discovery <$> eb_discovery (sn_evidence r) with
          | Some _, Some manifest :: _ =>
              units ← lift_run (pin_discovered_work_units (sn_unit r) (dm_kernels manifest));
              Ok (fold_left (λ d u, dict_set d (discovery_child_session_id (sn_session_id r) u) u) units expected)
          | _, _ => Ok expected
          end;
        if bool_decide (set_minus (sn_child_session_ids r) (expected.*1) = []) then Ok expected
        else Err InputConflict
  end.

(** [summarize_session]. *)
Definition summarize_session (s : AnalysisSession) : RunSessionSummary :=
  mkRow (sn_session_id s) (unit_id (sn_unit s)) (Some (sn_status s)) (kernel (sn_unit s))
    (sn_termination_reason s) (sn_publication s) (sn_publication_error s)
    match sn_published_report s with Some a => uri a | None => "" end
    match sn_published_report s with Some a => default "" (sha256 a) | None => "" end
    (is_some (sn_report s)) (race_class <$> sn_report s) (evidence_sufficiency <$> sn_report s)
    match sn_triage s ≫= td_snapshot with Some t => initial_evidence_complete t | None => false end
    (existsb sweep_has_usable_positive_signal (eb_sanitizer (sn_evidence s)))
    (existsb stress_has_positive_signal (eb_stress (sn_evidence s)))
    (pending_experiment_ids s).

Definition not_started (id : string) (u : WorkUnit) : RunSessionSummary :=
  mkRow id (unit_id u) None (kernel u) "not started" ReportNotReady "" "" "" false None None false false false [].

Definition sessions_by_id (sessions : list AnalysisSession) : dict string AnalysisSession :=
  fold_left (λ d s, dict_set d (sn_session_id s) s) sessions [].

Definition failed_session (s : AnalysisSession) : bool := bool_decide (sn_status s = SessionFailed).

(** What has been delivered of the reports. *)
Definition delivery_status (request : RunInput) (sessions : list AnalysisSession) (pending : bool)
    (publication : option RunPublicationStatus) : RunPublicationStatus :=
  match mode (ri_output request) with
  | ReturnOnly => NotRequested
  | FileOutput => default PubPending publication
  | RemoteOutput =>
      let reports := List.filter (λ s, is_some (sn_report s)) sessions in
      if existsb (λ s, bool_decide (sn_publication s = ReportFailed)) reports then PubFailed
      else if pending || existsb (λ s, negb (bool_decide (sn_publication s = ReportPublished))) reports then PubPending
      else match reports with [] => NotRequested | _ => PubPublished end
  end.

Definition deadline_text : string := "run deadline reached; outstanding jobs were not cancelled".

(** [build_run_summary]. *)
Definition build_run_summary (request : RunInput) (sessions : list AnalysisSession)
    (expected : dict string WorkUnit) (now_ms : Z) (publication : option RunPublicationStatus) (error : string) :
    runres RunSummary :=
  let by_id := sessions_by_id sessions in
  if negb (length by_id =? length sessions)%nat || negb (is_some (dict_get expected (root_session_id request)))
  then Err (RunRaised ValueError)
  else if existsb (λ e, negb (is_some (dict_get expected e.1))) by_id then Err (RunRaised ValueError)
  else if existsb (λ s, match dict_get expected (sn_session_id s) with
                        | Some u => negb (unit_dict_eqb (sn_unit s) u) | None => true end) sessions
  then Err InputConflict
  else
    let rows := (λ e, match dict_get by_id e.1 with
                      | Some s => summarize_session s
                      | None => not_started e.1 e.2
                      end) <$> expected in
    let root_failed := match dict_get by_id (root_session_id request) with
                       | Some r => failed_session r | None => false end in
    let missing := negb (length by_id =? length expected)%nat in
    let active := existsb (λ s, negb (terminal_status (sn_status s))) sessions in
    let pending := active || (missing && negb root_failed) in
    let failed := existsb failed_session sessions in
    let delivery := delivery_status request sessions pending publication in
    let pending := pending || bool_decide (delivery = PubPending) in
    let failed := failed || bool_decide (delivery = PubFailed) || (root_failed && missing) in
    let '(status, error) :=
      if pending && (deadline_ms request <=? now_ms)
      then (RunExpired, if bool_decide (error = "") then deadline_text else error)
      else if pending then (RunRunning, error)
      else if failed then (RunFailed, error)
      else (RunCompleted, error) in
    Ok (mkRunSummary (ri_run_id request) status (root_session_id request) rows delivery error "").

(** ** Sessions by their identifiers *)

Lemma by_id_length l (d : dict string AnalysisSession) :
  (length (fold_left (λ d s, dict_set d (sn_session_id s) s) l d) ≤ length d + length l)%nat ∧
  (length (fold_left (λ d s, dict_set d (sn_session_id s) s) l d) = length d + length l →
   NoDup (sn_session_id <$> l) ∧ ∀ s, s ∈ l → sn_session_id s ∉ d.*1)%nat.
Proof.
  revert d. induction l as [|s l IH]; intros d; cbn; [split; [lia|]; intros _; split; [constructor|];
    intros s Hs; by apply not_elem_of_nil in Hs|].
  destruct (IH (dict_set d (sn_session_id s) s)) as [Hle Heq].
  pose proof (dict_keys_set d (sn_session_id s) s) as Hk. apply (f_equal length) in Hk.
  rewrite length_fmap in Hk. destruct (decide (sn_session_id s ∈ d.*1)) as [Hin|Hnew].
  - rewrite length_fmap in Hk. split; [lia|]. intros H. lia.
  - rewrite length_app, length_fmap in Hk. cbn in Hk. split; [lia|]. intros H.
    destruct Heq as [Hnd Hout]; [lia|]. split.
    + apply NoDup_cons. split; [|done]. intros (x & Hx & Hin)%list_elem_of_fmap. apply (Hout x Hin).
      rewrite <- Hx, dict_keys_set, decide_False by done. set_solver.
    + intros x [->|Hx]%elem_of_cons; [done|]. specialize (Hout x Hx).
      rewrite dict_keys_set, decide_False in Hout by done. set_solver.
Qed.

Lemma by_id_NoDup l :
  NoDup (sn_session_id <$> l) → sessions_by_id l = (λ s, (sn_session_id s, s)) <$> l.
Proof.
  intros H. unfold sessions_by_id. rewrite <- (dict_of_NoDup ((λ s, (sn_session_id s, s)) <$> l)).
  - unfold dict_of. generalize (@nil (string * AnalysisSession)). induction l as [|s l IH]; intros d; [done|].
    cbn in H |- *. apply NoDup_cons in H as [_ H]. by apply IH.
  - rewrite <- list_fmap_compose. exact H.
Qed.

Lemma by_id_count l : length (sessions_by_id l) = length l ↔ NoDup (sn_session_id <$> l).
Proof.
  split.
  - intros H. by apply (by_id_length l []).
  - intros H. rewrite by_id_NoDup by done. by rewrite length_fmap.
Qed.

(** ** What the summary says *)

(** Something is still to be done: a session is active, an expected one has
    not started though the root has not failed, or a delivery is due. *)
Definition outstanding (request : RunInput) (sessions : list AnalysisSession) (expected : dict string WorkUnit)
    (publication : RunPublicationStatus) : Prop :=
  (∃ s, s ∈ sessions ∧ terminal_status (sn_status s) = false) ∨
  ((∃ id, id ∈ expected.*1 ∧ id ∉ (sn_session_id <$> sessions)) ∧
   ∀ s, s ∈ sessions → sn_session_id s = root_session_id request → sn_status s ≠ SessionFailed) ∨
  publication = PubPending.

Definition some_failure (sessions : list AnalysisSession) (publication : RunPublicationStatus) : Prop :=
  (∃ s, s ∈ sessions ∧ sn_status s = SessionFailed) ∨ publication = PubFailed.

(** What a run hands to [build_run_summary]. *)
Definition well_formed_run (request : RunInput) (sessions : list AnalysisSession) (expected : dict string WorkUnit) : Prop :=
  NoDup (sn_session_id <$> sessions) ∧ root_session_id request ∈ expected.*1 ∧
  ∀ s, s ∈ sessions → ∃ u, (sn_session_id s, u) ∈ expected ∧ unit_dict_eqb (sn_unit s) u = true.

Lemma existsb_spec {A} (f : A → bool) l : existsb f l = true ↔ ∃ x, x ∈ l ∧ f x = true.
Proof. rewrite existsb_exists. setoid_rewrite list_elem_of_In. done. Qed.

Lemma existsb_none {A} (f : A → bool) l : existsb f l = false ↔ ∀ x, x ∈ l → f x = false.
Proof.
  rewrite <- not_true_iff_false, existsb_spec. split.
  - intros H x Hx. destruct (f x) eqn:E; [|done]. destruct H. eauto.
  - intros H (x & Hx & E). by rewrite H in E.
Qed.

Lemma is_some_get (d : dict string WorkUnit) k : is_some (dict_get d k) = true ↔ k ∈ d.*1.
Proof.
  destruct (dict_get d k) as [v|] eqn:E; cbn.
  - split; [intros _|done]. apply dict_get_In in E. apply list_elem_of_fmap. by exists (k, v).
  - apply dict_get_None in E. done.
Qed.

Section Summary.
Context (request : RunInput) (sessions : list AnalysisSession) (expected : dict string WorkUnit).
Context (Hwf : dict_wf expected).

(** No session outside the plan; the plan is complete when the counts agree. *)
Lemma missing_spec :
  well_formed_run request sessions expected →
  negb (length (sessions_by_id sessions) =? length expected)%nat = true ↔
  ∃ id, id ∈ expected.*1 ∧ id ∉ (sn_session_id <$> sessions).
Proof.
  intros (Hnd & _ & Hin). rewrite by_id_NoDup, length_fmap by done.
  rewrite negb_true_iff, Nat.eqb_neq.
  assert (sn_session_id <$> sessions ⊆+ expected.*1) as Hsub.
  { apply NoDup_submseteq; [done|]. intros id (s & -> & Hs)%list_elem_of_fmap.
    destruct (Hin s Hs) as (u & Hu & _). apply list_elem_of_fmap. by eexists (_, _). }
  split.
  - intros Hne. destruct (decide (Forall (λ id, id ∈ sn_session_id <$> sessions) expected.*1)) as [Hall|Hnot].
    + exfalso. apply Hne. rewrite Forall_forall in Hall.
      assert (expected.*1 ⊆+ sn_session_id <$> sessions) as Hsub' by by apply NoDup_submseteq.
      apply submseteq_length in Hsub, Hsub'. rewrite !length_fmap in *. lia.
    + apply not_Forall_Exists in Hnot; [|apply _]. apply Exists_exists in Hnot as (id & Hid & Hn). eauto.
  - intros (id & Hid & Hn) Heq.
    assert (sn_session_id <$> sessions ≡ₚ expected.*1) as Hp.
    { apply submseteq_length_Permutation; [done|]. rewrite !length_fmap. lia. }
    by rewrite <- Hp in Hid.
Qed.

Lemma root_failed_spec :
  NoDup (sn_session_id <$> sessions) →
  match dict_get (sessions_by_id sessions) (root_session_id request) with
  | Some r => failed_session r | None => false end = true ↔
  ∃ s, s ∈ sessions ∧ sn_session_id s = root_session_id request ∧ sn_status s = SessionFailed.
Proof.
  intros Hnd. rewrite by_id_NoDup by done. split.
  - destruct (dict_get _ _) as [r|] eqn:E; [|done]. intros Hf%bool_decide_eq_true.
    apply dict_get_In, list_elem_of_fmap in E as (s & [= E ->] & Hs). by exists s.
  - intros (s & Hs & Hid & Hf).
    rewrite (dict_wf_get _ (root_session_id request) s).
    + by apply bool_decide_eq_true.
    + unfold dict_wf. rewrite <- list_fmap_compose. exact Hnd.
    + apply list_elem_of_fmap. exists s. by rewrite Hid.
Qed.

(** The request is answered exactly when it is well formed. *)
Lemma guards_spec :
  negb (length (sessions_by_id sessions) =? length sessions)%nat ||
    negb (is_some (dict_get expected (root_session_id request))) = false ∧
  existsb (λ e, negb (is_some (dict_get expected e.1))) (sessions_by_id sessions) = false ∧
  existsb (λ s, match dict_get expected (sn_session_id s) with
                | Some u => negb (unit_dict_eqb (sn_unit s) u) | None => true end) sessions = false ↔
  well_formed_run request sessions expected.
Proof.
  unfold well_formed_run. rewrite orb_false_iff, !negb_false_iff, Nat.eqb_eq, by_id_count, is_some_get, !existsb_none.
  split.
  - intros ((Hnd & Hroot) & _ & H). split_and!; [done|done|]. intros s Hs. specialize (H s Hs).
    destruct (dict_get expected (sn_session_id s)) as [u|] eqn:E; [|done].
    exists u. split; [by apply dict_get_In|]. by apply negb_false_iff.
  - intros (Hnd & Hroot & H). split_and!; [done|done| |].
    + intros [k s] Hk. rewrite by_id_NoDup in Hk by done. apply list_elem_of_fmap in Hk as (s' & [= -> ->] & Hs).
      destruct (H s' Hs) as (u & Hu & _). apply negb_false_iff, is_some_get, list_elem_of_fmap. by eexists (_, _).
    + intros s Hs. destruct (H s Hs) as (u & Hu & Hd). by rewrite (dict_wf_get _ _ u), Hd.
Qed.

Definition summary_rows : list RunSessionSummary :=
  (λ e : string * WorkUnit, match dict_get (sessions_by_id sessions) e.1 with
         | Some s => summarize_session s
         | None => not_started e.1 e.2
         end) <$> expected.

Lemma row_of (Hok : well_formed_run request sessions expected) s :
  s ∈ sessions → dict_get (sessions_by_id sessions) (sn_session_id s) = Some s.
Proof.
  intros Hs. destruct Hok as [Hnd _]. rewrite by_id_NoDup by done. apply dict_wf_get.
  - unfold dict_wf. rewrite <- list_fmap_compose. exact Hnd.
  - apply list_elem_of_fmap. by exists s.
Qed.

Lemma rows_spec (Hok : well_formed_run request sessions expected) :
  (row_session_id <$> summary_rows) = expected.*1 ∧
  (∀ s, s ∈ sessions → summarize_session s ∈ summary_rows) ∧
  (∀ row, row ∈ summary_rows → row_status row = None ∨ ∃ s, s ∈ sessions ∧ row = summarize_session s).
Proof.
  pose proof Hok as (Hnd & _ & Hin). unfold summary_rows. split_and!.
  - rewrite <- list_fmap_compose. apply list_fmap_ext. intros i [k u] _. cbn.
    destruct (dict_get _ k) as [s|] eqn:E; [|done]. rewrite by_id_NoDup in E by done.
    by apply dict_get_In, list_elem_of_fmap in E as (s' & [= -> ->] & _).
  - intros s Hs. destruct (Hin s Hs) as (u & Hu & _). apply list_elem_of_fmap.
    exists (sn_session_id s, u). cbn. by rewrite row_of.
  - intros row ([k u] & -> & _)%list_elem_of_fmap. cbn.
    destruct (dict_get _ k) as [s|] eqn:E; [|by left]. right. rewrite by_id_NoDup in E by done.
    apply dict_get_In, list_elem_of_fmap in E as (s' & [= -> ->] & Hs). by exists s'.
Qed.

(** The status is decided by what is outstanding and what failed. *)
Definition decided (now : Z) (pub : RunPublicationStatus) (st : RunStatus) : Prop :=
  (outstanding request sessions expected pub ∧ st = (if deadline_ms request <=? now then RunExpired else RunRunning)) ∨
  (¬ outstanding request sessions expected pub ∧ some_failure sessions pub ∧ st = RunFailed) ∨
  (¬ outstanding request sessions expected pub ∧ ¬ some_failure sessions pub ∧ st = RunCompleted).

Lemma decided_iff now pub st :
  decided now pub st →
  (st = RunRunning ↔ outstanding request sessions expected pub ∧ now < deadline_ms request) ∧
  (st = RunExpired ↔ outstanding request sessions expected pub ∧ deadline_ms request ≤ now) ∧
  (st = RunFailed ↔ ¬ outstanding request sessions expected pub ∧ some_failure sessions pub) ∧
  (st = RunCompleted ↔ ¬ outstanding request sessions expected pub ∧ ¬ some_failure sessions pub).
Proof.
  unfold decided. generalize (outstanding request sessions expected pub) (some_failure sessions pub).
  intros O F. destruct (Z.leb_spec (deadline_ms request) now).
  - intros [(Ho & ->)|[(Ho & Hf & ->)|(Ho & Hf & ->)]]; intuition (discriminate || lia).
  - intros [(Ho & ->)|[(Ho & Hf & ->)|(Ho & Hf & ->)]]; intuition (discriminate || lia).
Qed.

Lemma summary_inv (Hok : well_formed_run request sessions expected) now publication error sm :
  build_run_summary request sessions expected now publication error = Ok sm →
  sm_sessions sm = summary_rows ∧ decided now (sm_publication sm) (sm_status sm).
Proof.
  intros E. destruct (proj2 guards_spec Hok) as (G1 & G2 & G3).
  unfold build_run_summary in E. cbv zeta in E. rewrite G1, G2, G3 in E.
  pose proof (missing_spec Hok) as Hm. pose proof (root_failed_spec (proj1 Hok)) as Hrf.
  set (missing := negb (length (sessions_by_id sessions) =? length expected)%nat) in *.
  set (rf := match dict_get _ _ with Some r => failed_session r | None => false end) in *.
  set (active := existsb _ sessions) in E.
  set (delivery := delivery_status _ _ _ _) in E.
  assert (active = true ↔ ∃ s, s ∈ sessions ∧ terminal_status (sn_status s) = false) as Ha.
  { unfold active. rewrite existsb_spec. by setoid_rewrite negb_true_iff. }
  assert (existsb failed_session sessions = true ↔ ∃ s, s ∈ sessions ∧ sn_status s = SessionFailed) as Hf.
  { rewrite existsb_spec. unfold failed_session. by setoid_rewrite bool_decide_eq_true. }
  assert ((active || (missing && negb rf)) || bool_decide (delivery = PubPending) = true ↔
          outstanding request sessions expected delivery) as Hout.
  { unfold outstanding. rewrite !orb_true_iff, andb_true_iff, negb_true_iff, bool_decide_eq_true, Ha, Hm,
      <- not_true_iff_false, Hrf.
    assert ((¬ ∃ s, s ∈ sessions ∧ sn_session_id s = root_session_id request ∧ sn_status s = SessionFailed) ↔
            ∀ s, s ∈ sessions → sn_session_id s = root_session_id request → sn_status s ≠ SessionFailed) as Hno
      by (clear; firstorder).
    clear -Hno. tauto. }
  assert (existsb failed_session sessions || bool_decide (delivery = PubFailed) || (rf && missing) = true ↔
          some_failure sessions delivery) as Hfail.
  { unfold some_failure. rewrite !orb_true_iff, andb_true_iff, bool_decide_eq_true, Hf, Hrf. naive_solver. }
  unfold decided.
  destruct ((active || _) || _) eqn:Ep; [|destruct (existsb failed_session sessions || _ || _) eqn:Ef].
  - cbn [andb] in E. destruct (deadline_ms request <=? now); injection E as <-; cbn; (split; [done|]); left;
      (split; [by apply Hout|done]).
  - cbn [andb] in E. injection E as <-. cbn. split; [done|]. right. left. split_and!; [|by apply Hfail|done].
    intros Ho. by apply Hout in Ho.
  - cbn [andb] in E. injection E as <-. cbn. split; [done|]. right. right. split_and!; [| |done].
    + intros Ho. by apply Hout in Ho.
    + intros Hs. by apply Hfail in Hs.
Qed.
End Summary.

(** C17: What a run's summary says.  [build_run_summary] answers exactly the
    requests whose sessions have distinct identifiers, are planned children
    with the planned unit, and whose plan has the root.  Its rows are the
    planned sessions in the order of the plan, each with its session's status or
    marked as not started.  The run is completed exactly when nothing is
    outstanding (no active session, no child that still has to start, no
    delivery due) and nothing failed; failed when nothing is outstanding and
    something failed; otherwise it runs until its deadline and is expired from
    then on. *)
Theorem run_summary_exact request sessions expected now_ms publication error :
  dict_wf expected →
  ((∃ sm, build_run_summary request sessions expected now_ms publication error = Ok sm) ↔
   well_formed_run request sessions expected) ∧
  ∀ sm, build_run_summary request sessions expected now_ms publication error = Ok sm →
    (row_session_id <$> sm_sessions sm) = expected.*1 ∧
    (∀ s, s ∈ sessions → summarize_session s ∈ sm_sessions sm) ∧
    (∀ row, row ∈ sm_sessions sm → row_status row = None ∨ ∃ s, s ∈ sessions ∧ row = summarize_session s) ∧
    (sm_status sm = RunRunning ↔
       outstanding request sessions expected (sm_publication sm) ∧ now_ms < deadline_ms request) ∧
    (sm_status sm = RunExpired ↔
       outstanding request sessions expected (sm_publication sm) ∧ deadline_ms request ≤ now_ms) ∧
    (sm_status sm = RunFailed ↔
       ¬ outstanding request sessions expected (sm_publication sm) ∧ some_failure sessions (sm_publication sm)) ∧
    (sm_status sm = RunCompleted ↔
       ¬ outstanding request sessions expected (sm_publication sm) ∧ ¬ some_failure sessions (sm_publication sm)).
Proof.
  intros Hwf. split.
  { rewrite <- (guards_spec request sessions expected Hwf). unfold build_run_summary. cbv zeta.
    destruct (_ || _); [split; [by intros [? ?]|by intros (? & ? & ?)]|]. destruct (existsb (λ e, negb _) _); [split; [by intros [? ?]|by intros (? & ? & ?)]|].
    destruct (existsb (λ s, match dict_get expected (sn_session_id s) with _ => _ end) _); [split; [by intros [? ?]|by intros (? & ? & ?)]|].
    split; [done|]. intros _.
    match goal with |- ∃ sm, (let '(_, _) := ?p in _) = _ => destruct p as [st er] end. by eexists. }
  intros sm E.
  assert (well_formed_run request sessions expected) as Hok.
  { apply guards_spec; [done|]. revert E. unfold build_run_summary. cbv zeta.
    destruct (_ || _); [done|]. destruct (existsb (λ e, negb _) _); [done|].
    by destruct (existsb (λ s, match dict_get expected (sn_session_id s) with _ => _ end) _). }
  destruct (summary_inv request sessions expected Hwf Hok _ _ _ _ E) as (Hrows & Hstatus).
  destruct (rows_spec request sessions expected Hok) as (R1 & R2 & R3). rewrite Hrows.
  exact (conj R1 (conj R2 (conj R3 (decided_iff _ _ _ _ _ _ Hstatus)))).
Qed.

Definition demo_run : RunInput :=
  mkRunInput "s-1" LocalProfile "1.0" 1000 "{}" "{}" "{}" 32 "" (mkRunOutput ReturnOnly "").

Lemma run_summary_exact_witness :
  ∃ sm, build_run_summary demo_run [demo_start] [("s-1", demo_unit)] 10 None "" = Ok sm ∧ sm_status sm = RunRunning.
Proof.
  destruct (run_summary_exact demo_run [demo_start] [("s-1", demo_unit)] 10 None "") as [[_ Hok] Hsm].
  - apply NoDup_singleton.
  - destruct Hok as [sm E].
    { split_and!.
      - apply NoDup_singleton.
      - by left.
      - intros s ->%list_elem_of_singleton. exists demo_unit. split; [by left|vm_compute; reflexivity]. }
    exists sm. split; [exact E|]. destruct (Hsm sm E) as (_ & _ & _ & H & _). apply H. split; [|done].
    left. exists demo_start. split; [by left|vm_compute; reflexivity].
Defined.

(** ** Retries of the reconciliation *)

Inductive ReconcilePolicyAction := PolicyWait | PolicyRetry | PolicyFail.
Inductive RemoteEffectKind := EXPERIMENT_JOB | REASONING_JOB.

#[export] Instance ReconcilePolicyAction_eq_dec : EqDecision ReconcilePolicyAction.
Proof. solve_decision. Defined.

Record ReconcilePolicyDecision := mkPolicyDecision {
  pd_action : ReconcilePolicyAction;
  pd_reason : string
}.

(** [ReconcilePolicyDecision.__post_init__]. *)
Definition make_decision (a : ReconcilePolicyAction) (reason : string) : res exn ReconcilePolicyDecision :=
  if Bool.eqb (bool_decide (a = PolicyFail)) (negb (bool_decide (reason = "")))
  then Ok (mkPolicyDecision a reason) else Err ValueError.

Record ReconcilePolicy := mkReconcilePolicy {
  revision_timeout_ms : Z;
  mast_timeout_ms : Z;
  sandcastle_timeout_ms : Z;
  report_timeout_ms : Z;
  max_consecutive_failures : Z;
  max_remote_attempts : Z;
  max_report_failures : Z
}.

Definition default_reconcile_policy : ReconcilePolicy :=
  mkReconcilePolicy (24 * 60 * 60 * 1000) (7 * 60 * 60 * 1000) (45 * 60 * 1000) (6 * 60 * 60 * 1000) 5 3 8.

(** [ReconcilePolicy.__post_init__]. *)
Definition ReconcilePolicy_check (p : ReconcilePolicy) : res exn () :=
  if (revision_timeout_ms p <=? 0) || (mast_timeout_ms p <=? 0) || (sandcastle_timeout_ms p <=? 0) ||
     (report_timeout_ms p <=? 0) || (max_consecutive_failures p <=? 0) || (max_remote_attempts p <=? 0) ||
     (max_report_failures p <=? 0)
  then Err ValueError
  else if revision_timeout_ms p <? Z.max (Z.max (mast_timeout_ms p) (sandcastle_timeout_ms p)) (report_timeout_ms p)
  then Err ValueError
  else Ok ().

(** What an attempt has gone through. *)
Record AttemptState := mkAttempt { age_ms : Z; consecutive_failures : Z }.

Definition assess_revision (p : ReconcilePolicy) (a : AttemptState) : res exn ReconcilePolicyDecision :=
  if revision_timeout_ms p <=? age_ms a
  then make_decision PolicyFail "distributed revision deadline exceeded"
  else if max_consecutive_failures p <=? consecutive_failures a
  then make_decision PolicyFail "distributed infrastructure failure retry limit exceeded"
  else make_decision PolicyWait "".

Definition assess_publication (p : ReconcilePolicy) (a : AttemptState) : res exn ReconcilePolicyDecision :=
  if report_timeout_ms p <=? age_ms a
  then make_decision PolicyFail "report publication deadline exceeded"
  else if max_report_failures p <=? consecutive_failures a
  then make_decision PolicyFail "report publication retry limit exceeded"
  else make_decision (if consecutive_failures a =? 0 then PolicyWait else PolicyRetry) "".

Definition assess_effect (p : ReconcilePolicy) (kind : RemoteEffectKind) (attempts updated_at_ms now_ms : Z)
    (terminal_failure : bool) : res exn ReconcilePolicyDecision :=
  if (attempts <? 0) || (updated_at_ms <? 0) || (now_ms <? 0) then Err ValueError
  else
    let timeout := match kind with EXPERIMENT_JOB => mast_timeout_ms p | REASONING_JOB => sandcastle_timeout_ms p end in
    let timed_out := (updated_at_ms <=? now_ms) && (timeout <=? now_ms - updated_at_ms) in
    if negb terminal_failure && negb timed_out then make_decision PolicyWait ""
    else if max_remote_attempts p <=? attempts
    then make_decision PolicyFail "remote effect retry limit exceeded"
    else make_decision PolicyRetry "".

(** An effect is left alone while it may still finish, tried again while
    attempts are left, and failed with a reason when they are used up. *)
Lemma assess_effect_spec p kind attempts updated now failed :
  ReconcilePolicy_check p = Ok () → 0 ≤ attempts → 0 ≤ updated → 0 ≤ now →
  let timeout := match kind with EXPERIMENT_JOB => mast_timeout_ms p | REASONING_JOB => sandcastle_timeout_ms p end in
  let over := failed = true ∨ updated + timeout ≤ now in
  ∃ d, assess_effect p kind attempts updated now failed = Ok d ∧
    (pd_action d = PolicyWait ↔ ¬ over) ∧
    (pd_action d = PolicyRetry ↔ over ∧ attempts < max_remote_attempts p) ∧
    (pd_action d = PolicyFail ↔ over ∧ max_remote_attempts p ≤ attempts) ∧
    (pd_reason d ≠ "" ↔ pd_action d = PolicyFail).
Proof.
  intros Hp H1 H2 H3. cbv zeta.
  assert (0 < mast_timeout_ms p ∧ 0 < sandcastle_timeout_ms p) as [Hm Hs].
  { unfold ReconcilePolicy_check in Hp.
    destruct (Z.leb_spec (mast_timeout_ms p) 0), (Z.leb_spec (sandcastle_timeout_ms p) 0); rewrite ?orb_true_r in Hp;
      cbn in Hp; rewrite ?orb_true_r in Hp; try done. }
  unfold assess_effect.
  destruct (Z.ltb_spec attempts 0), (Z.ltb_spec updated 0), (Z.ltb_spec now 0); try lia. cbn [orb].
  set (timeout := match kind with EXPERIMENT_JOB => _ | REASONING_JOB => _ end).
  assert (0 < timeout) as Ht by (unfold timeout; destruct kind; done). cbv zeta.
  destruct (Z.leb_spec updated now), (Z.leb_spec timeout (now - updated)), failed, (Z.leb_spec (max_remote_attempts p) attempts);
    cbn [negb andb]; (eexists; split; [reflexivity|]); cbn; intuition (discriminate || lia).
Qed.
