(* ===== verification/Catalog.v ===== *)
(** The workload catalog (src/python/cutracer/service/catalog.py) and its
    expansion into work units (service/catalog_adapters.py).

    A dataclass is built through its [__post_init__]; here that is an [_init]
    that returns the value it leaves or the exception. *)
From S2P Require Import Prelude.
From S2P Require Import PyStr.
From S2P Require Import PyDict.
From S2P Require Import PySet.
From S2P Require Import Json.
From S2P Require Import PyText.
From S2P Require Import Sha256.
From S2P Require Import Contracts.
From S2P Require Import Experiments.
From Stdlib Require Import Ascii.
Local Open Scope Z_scope.

Definition WORKLOAD_CATALOG_SCHEMA_VERSION : Z := 1.

(** ** Identifiers *)

Definition is_letter_or_digit (c : ascii) : bool :=
  let n := code c in is_digit c || ((65 <=? n) && (n <=? 90)) || ((97 <=? n) && (n <=? 122)).

(** [^[A-Za-z0-9][A-Za-z0-9._-]{0,127}$]. *)
Definition is_identifier (s : string) : bool :=
  match chars s with
  | [] => false
  | c :: r => is_letter_or_digit c && (length r <=? 127)%nat &&
              forallb (λ d, is_letter_or_digit d || bool_decide (d ∈ ["."%char; "_"%char; "-"%char])) r
  end.

(** [^sm_[0-9]+a?$]. *)
Definition is_architecture (s : string) : bool :=
  let l := chars s in
  let digits := drop 3 l in
  let digits := match rev digits with "a"%char :: r => rev r | _ => digits end in
  bool_decide (take 3 l = chars "sm_") && negb (bool_decide (digits = [])) && forallb is_digit digits.

(** ** Reading a catalog *)

(** A [ValueError] unless the value has the type. *)
Definition value_or {A} (o : option A) : dres A :=
  match o with Some a => Ok a | None => Err (Raised ValueError) end.

Definition json_text (j : json) : option string := match j with JStr s => Some s | _ => None end.

(** [_strings] of a value. *)
Definition strings_of (j : json) : dres (list string) :=
  match j with JList l => map_res (λ x, value_or (json_text x)) l | _ => Err (Raised ValueError) end.

(** [_text]. *)
Definition text_of (d : obj) (f : string) (default : json) : dres string :=
  value_or (json_text (get_or d f default)).

(** [_positive_integer]. *)
Definition positive_integer (d : obj) (f : string) (default : Z) : dres Z :=
  match get_or d f (JInt default) with
  | JInt z => if z <=? 0 then Err (Raised ValueError) else Ok z
  | _ => Err (Raised ValueError)
  end.

Inductive CatalogAdapter := TRITON_PYTEST | TLX_PYTEST | TRITONBENCH.
#[export] Instance CatalogAdapter_eq_dec : EqDecision CatalogAdapter.
Proof. solve_decision. Defined.

Definition CatalogAdapter_values : list (string * CatalogAdapter) :=
  [("triton_pytest", TRITON_PYTEST); ("tlx_pytest", TLX_PYTEST); ("tritonbench", TRITONBENCH)].
#[export] Instance CatalogAdapter_codec : JsonCodec CatalogAdapter :=
  enum_codec CatalogAdapter_values (enum_of CatalogAdapter_values) ltac:(intros a; enum_ok).

Record CatalogSamplingPolicy := mkSampling {
  max_selected : option Z;
  seed : string
}.
#[export] Instance CatalogSamplingPolicy_eq_dec : EqDecision CatalogSamplingPolicy.
Proof. solve_decision. Defined.

Definition CatalogSamplingPolicy_check (p : CatalogSamplingPolicy) : res exn () :=
  if match max_selected p with Some n => n <=? 0 | None => false end then Err ValueError
  else if blank (seed p) then Err ValueError
  else Ok ().

Definition CatalogSamplingPolicy_to_dict (p : CatalogSamplingPolicy) : json :=
  JObj [("max_selected", jopt JInt (max_selected p)); ("seed", JStr (seed p))].

Definition CatalogSamplingPolicy_from_dict (j : json) : dres CatalogSamplingPolicy :=
  d ← as_obj j;
  limit ← match get d "max_selected" with
          | JNull => Ok None
          | JInt n => Ok (Some n)
          | _ => Err (Raised ValueError)
          end;
  s ← text_of d "seed" (JStr "default");
  checked CatalogSamplingPolicy_check (mkSampling limit s).

#[global] Arguments strings_of : simpl never.

Lemma strings_of_jlist l : strings_of (jlist JStr l) = Ok l.
Proof. unfold strings_of, jlist. by apply map_res_to_json, Forall_true. Qed.
#[export] Hint Rewrite strings_of_jlist : codec.

#[export] Instance CatalogSamplingPolicy_codec : JsonCodec CatalogSamplingPolicy.
Proof.
  refine {| valid p := CatalogSamplingPolicy_check p = Ok (); to_json := CatalogSamplingPolicy_to_dict;
            of_json := CatalogSamplingPolicy_from_dict |}.
  - done.
  - intros [m s] Hv. unfold CatalogSamplingPolicy_from_dict, CatalogSamplingPolicy_to_dict.
    destruct m as [m|]; cbn; by apply checked_ok.
Defined.

Record WorkloadCatalogEntry := mkEntry {
  entry_id : string;
  adapter : CatalogAdapter;
  selectors : list string;
  architectures : list string;
  ce_source_revision : string;
  scope_id : string;
  ce_cwd : string;
  extra_args : list string;
  ce_env : list (string * string);
  ce_oracle : option OracleSpec;
  ce_kernel : option KernelId;
  ce_kernel_filters : list string;
  sampling : CatalogSamplingPolicy;
  cadence_days : Z;
  estimated_gpu_seconds : Z;
  enabled : bool
}.

(** [cwd] is absolute, on a drive, or climbs out of the repository. *)
Definition escapes_repository (cwd : string) : bool :=
  let portable := (λ c, if Ascii.eqb c "\"%char then "/"%char else c) <$> chars cwd in
  negb (bool_decide (cwd = "")) &&
  (starts_with ["/"%char] portable ||
   match portable with
   | c :: ":"%char :: "/"%char :: _ =>
       let n := code c in ((65 <=? n) && (n <=? 90)) || ((97 <=? n) && (n <=? 122))
   | _ => false
   end ||
   bool_decide (chars ".." ∈ split_on "/"%char portable)).

Definition with_env (e : WorkloadCatalogEntry) (env : list (string * string)) : WorkloadCatalogEntry :=
  mkEntry (entry_id e) (adapter e) (selectors e) (architectures e) (ce_source_revision e) (scope_id e)
    (ce_cwd e) (extra_args e) env (ce_oracle e) (ce_kernel e) (ce_kernel_filters e) (sampling e)
    (cadence_days e) (estimated_gpu_seconds e) (enabled e).

(** [WorkloadCatalogEntry.__post_init__]. *)
Definition WorkloadCatalogEntry_init (e : WorkloadCatalogEntry) : res exn WorkloadCatalogEntry :=
  let revision := strip (chars (ce_source_revision e)) in
  if negb (is_identifier (entry_id e)) || blank (scope_id e) then Err ValueError
  else if bool_decide (selectors e = []) || existsb blank (selectors e) then Err ValueError
  else if bool_decide (¬ NoDup (selectors e)) then Err ValueError
  else if bool_decide (architectures e = []) || existsb (λ a, negb (is_architecture a)) (architectures e)
  then Err ValueError
  else if bool_decide (¬ NoDup (architectures e)) then Err ValueError
  else if bool_decide (revision = []) || bool_decide (revision = chars "0+unknown") then Err ValueError
  else if escapes_repository (ce_cwd e) then Err ValueError
  else if bool_decide (¬ NoDup (ce_kernel_filters e)) ||
          existsb (λ v, blank v || bool_decide (","%char ∈ chars v)) (ce_kernel_filters e) then Err ValueError
  else if match ce_kernel e with Some k => blank (ki_name k) || blank (cubin_hash k) | None => false end
  then Err ValueError
  else if (cadence_days e <=? 0) || (estimated_gpu_seconds e <=? 0) then Err ValueError
  else if bool_decide (¬ NoDup (ce_env e).*1) ||
          existsb (λ k, bool_decide (k = "") || bool_decide ("="%char ∈ chars k)) (ce_env e).*1 then Err ValueError
  else Ok (with_env e (merge_sort pair_le (ce_env e))).

Definition WorkloadCatalogEntry_to_dict (e : WorkloadCatalogEntry) : json :=
  JObj [("entry_id", JStr (entry_id e)); ("adapter", to_json (adapter e));
        ("selectors", jlist JStr (selectors e)); ("architectures", jlist JStr (architectures e));
        ("source_revision", JStr (ce_source_revision e)); ("scope_id", JStr (scope_id e));
        ("cwd", JStr (ce_cwd e)); ("extra_args", jlist JStr (extra_args e));
        ("env", JObj ((λ e, (e.1, JStr e.2)) <$> ce_env e)); ("oracle", jopt to_json (ce_oracle e));
        ("kernel", jopt to_json (ce_kernel e)); ("kernel_filters", jlist JStr (ce_kernel_filters e));
        ("sampling", to_json (sampling e)); ("cadence_days", JInt (cadence_days e));
        ("estimated_gpu_seconds", JInt (estimated_gpu_seconds e)); ("enabled", JBool (enabled e))].

(** [isinstance(x, Mapping)], or [ValueError]. *)
Definition mapping (j : json) : dres obj := match j with JObj d => Ok d | _ => Err (Raised ValueError) end.

Definition opt_mapping {A} `{JsonCodec A} (j : json) : dres (option A) :=
  match j with JNull => Ok None | JObj _ => a ← of_json j; Ok (Some a) | _ => Err (Raised ValueError) end.

Definition must_null_or_mapping (j : json) : dres () :=
  match j with JNull | JObj _ => Ok () | _ => Err (Raised ValueError) end.

Definition entry_raising {A} (r : res exn A) : dres A := match r with Ok a => Ok a | Err e => Err (Raised e) end.

Definition WorkloadCatalogEntry_from_dict (j : json) : dres WorkloadCatalogEntry :=
  d ← as_obj j;
  environment ← mapping (get_or d "env" (JObj []));
  env ← map_res (λ e : string * json, s ← value_or (json_text e.2); Ok (e.1, s)) environment;
  _ ← must_null_or_mapping (get d "oracle");
  _ ← must_null_or_mapping (get d "kernel");
  sampling ← mapping (get_or d "sampling" (JObj []));
  on ← match get_or d "enabled" (JBool true) with JBool b => Ok b | _ => Err (Raised ValueError) end;
  id ← text_of d "entry_id" JNull;
  ad ← (x ← req d "adapter"; of_json x);
  sel ← strings_of (get d "selectors");
  arch ← strings_of (get d "architectures");
  rev ← text_of d "source_revision" JNull;
  sc ← text_of d "scope_id" JNull;
  cw ← text_of d "cwd" (JStr "");
  args ← strings_of (get_or d "extra_args" (JList []));
  o ← opt of_json (get d "oracle");
  k ← opt of_json (get d "kernel");
  fs ← strings_of (get_or d "kernel_filters" (JList []));
  sp ← of_json (JObj sampling);
  days ← positive_integer d "cadence_days" 1;
  secs ← positive_integer d "estimated_gpu_seconds" 900;
  entry_raising (WorkloadCatalogEntry_init
    (mkEntry id ad sel arch rev sc cw args (merge_sort pair_le env) o k fs sp days secs on)).

Record WorkloadCatalog := mkCatalog {
  catalog_revision : string;
  entries : list WorkloadCatalogEntry;
  catalog_schema_version : Z
}.

Definition WorkloadCatalog_check (c : WorkloadCatalog) : res exn () :=
  if negb (catalog_schema_version c =? WORKLOAD_CATALOG_SCHEMA_VERSION) then Err ValueError
  else if blank (catalog_revision c) then Err ValueError
  else if bool_decide (¬ NoDup (entry_id <$> entries c)) then Err ValueError
  else Ok ().

Definition WorkloadCatalog_to_dict (c : WorkloadCatalog) : json :=
  JObj [("schema_version", JInt (catalog_schema_version c)); ("catalog_revision", JStr (catalog_revision c));
        ("entries", JList (WorkloadCatalogEntry_to_dict <$> entries c))].

(** [WorkloadCatalog.digest]. *)
Definition catalog_digest (c : WorkloadCatalog) : string :=
  str (sha256_hexdigest (json_dumps (WorkloadCatalog_to_dict c))).

Definition WorkloadCatalog_from_dict (j : json) : dres WorkloadCatalog :=
  d ← as_obj j;
  l ← match get d "entries" with JList l => Ok l | _ => Err (Raised ValueError) end;
  _ ← map_res mapping l;
  version ← match get d "schema_version" with JInt z => Ok z | _ => Err (Raised ValueError) end;
  rev ← text_of d "catalog_revision" JNull;
  es ← map_res WorkloadCatalogEntry_from_dict l;
  checked WorkloadCatalog_check (mkCatalog rev es version).

(** ** Work units of a catalog *)

Record CatalogWorkUnit := mkTarget {
  cw_catalog_revision : string;
  cw_entry_id : string;
  selector_index : Z;
  cw_kernel_filters : list string;
  cw_sampling : CatalogSamplingPolicy;
  cw_cadence_days : Z;
  cw_estimated_gpu_seconds : Z;
  cw_unit : WorkUnit;
  cw_enabled : bool
}.

(** [target.unit.unit_id]. *)
Definition target_id (t : CatalogWorkUnit) : string := unit_id (cw_unit t).

(** [_unit_id]. *)
Definition catalog_unit_id (e : WorkloadCatalogEntry) (args : list string) (arch : string) (index : Z) : string :=
  let identity := JObj
    [("adapter", to_json (adapter e)); ("arch", JStr arch); ("argv", jlist JStr args);
     ("cwd", JStr (ce_cwd e)); ("entry_id", JStr (entry_id e));
     ("env", JObj ((λ x, (x.1, JStr x.2)) <$> ce_env e));
     ("kernel_filters", jlist JStr (ce_kernel_filters e)); ("kernel", jopt to_json (ce_kernel e));
     ("oracle", jopt to_json (ce_oracle e)); ("selector_index", JInt index);
     ("source_revision", JStr (ce_source_revision e))] in
  entry_id e +:+ "-" +:+ str (take 16 (sha256_hexdigest (json_dumps identity))).

Definition python_argv : list string := ["python"; "-m"; "pytest"].

Definition pytest_argv (e : WorkloadCatalogEntry) (selector : string) : list string :=
  python_argv ++ ["-p"; "no:xdist"; selector] ++ extra_args e.

Definition TRITONBENCH_FORBIDDEN_OPTIONS : list string :=
  ["--bypass-fail"; "--metrics"; "--num-inputs"; "--op"; "--rep"; "--repcnt"; "--test-only"; "--warmup"].

Definition option_name (argument : string) : string := str (partition_at "="%char (chars argument)).1.

Definition target_argv : list string :=
  ["buck2"; "--client-metadata"; "id=cutracer_service"; "run"; "@mode/opt"; "fbcode//pytorch/tritonbench:run"].

Definition tritonbench_argv (e : WorkloadCatalogEntry) (selector : string) : res exn (list string) :=
  let forbidden := List.filter (λ a, bool_decide (option_name a ∈ TRITONBENCH_FORBIDDEN_OPTIONS)) (extra_args e) in
  if enabled e && negb (bool_decide (forbidden = [])) then Err ValueError
  else Ok (target_argv ++ ["--"; "--op"; selector; "--metrics"; "accuracy"; "--num-inputs"; "1";
                           "--test-only"; "--isolate"] ++ extra_args e).

Definition enumerate {A} (l : list A) : list (Z * A) := zip (seqZ 0 (Z.of_nat (length l))) l.

(** One target of an entry: the unit is built through its own check. *)
Definition make_target (revision : string) (e : WorkloadCatalogEntry) (index : Z) (selector arch : string)
    (args : list string) : res exn CatalogWorkUnit :=
  let u := mkUnit (catalog_unit_id e args arch index) args
             match value_of CatalogAdapter_values (adapter e) with JStr w => w | _ => "" end
             selector (ce_cwd e) arch (ce_source_revision e) (ce_kernel e) (ce_oracle e) (ce_env e)
             (ce_kernel_filters e) in
  _ ← WorkUnit_check u;
  Ok (mkTarget revision (entry_id e) index (ce_kernel_filters e) (sampling e) (cadence_days e)
        (estimated_gpu_seconds e) u (enabled e)).

(** The [expand] of the two adapters, over what differs in their commands. *)
Definition expand_with (command : string → res exn (list string)) (revision : string) (e : WorkloadCatalogEntry) :
    res exn (list CatalogWorkUnit) :=
  targets ← mapM (λ s : Z * string,
              mapM (λ arch, args ← command s.2; make_target revision e s.1 s.2 arch args) (architectures e))
              (enumerate (selectors e));
  Ok (concat targets).

Definition expand_pytest (revision : string) (e : WorkloadCatalogEntry) : res exn (list CatalogWorkUnit) :=
  if bool_decide (adapter e = TRITONBENCH) then Err ValueError
  else if bool_decide (selectors e = []) || bool_decide (architectures e = []) then Err ValueError
  else expand_with (λ s, Ok (pytest_argv e s)) revision e.

Definition expand_tritonbench (revision : string) (e : WorkloadCatalogEntry) : res exn (list CatalogWorkUnit) :=
  if negb (bool_decide (adapter e = TRITONBENCH)) then Err ValueError
  else expand_with (tritonbench_argv e) revision e.

(** [expand_workload_catalog] with the default adapters. *)
Definition expand_workload_catalog (c : WorkloadCatalog) (include_disabled : bool) : res exn (list CatalogWorkUnit) :=
  targets ← mapM (λ e, match adapter e with
                       | TRITONBENCH => expand_tritonbench (catalog_revision c) e
                       | _ => expand_pytest (catalog_revision c) e
                       end)
              (List.filter (λ e, enabled e || include_disabled) (entries c));
  Ok (concat targets).
