(* ===== verification/Campaign.v ===== *)
(** Planning a scheduled campaign: sampling, sharding, cadence and budgets
    (src/python/cutracer/service/campaign.py) and the manifest that integrates
    them (service/campaign_manifest.py).

    Instants are those of [CampaignBudget]. *)
From S2P Require Import Prelude.
From S2P Require Import PyStr.
From S2P Require Import PyDict.
From S2P Require Import PySet.
From S2P Require Import Json.
From S2P Require Import PyText.
From S2P Require Import Sha256.
From S2P Require Import Contracts.
From S2P Require Import Experiments.
From S2P Require Import CampaignBudget.
From S2P Require Import Catalog.
From Stdlib Require Import Ascii.
Local Open Scope Z_scope.

Inductive SamplingDisposition := SELECTED | SAMPLED_OUT.
Inductive BudgetConstraint := RUN_CAP | GPU_SECONDS.
Inductive CampaignMode := SCHEDULED | ON_DEMAND.
Inductive CampaignTool := MEMCHECK | RACECHECK | INITCHECK | SYNCCHECK | STRESS_TOOL.
Inductive CadenceDisposition := DUE | NOT_DUE | NOT_APPLICABLE.

#[export] Instance SamplingDisposition_eq_dec : EqDecision SamplingDisposition.
Proof. solve_decision. Defined.
#[export] Instance CampaignMode_eq_dec : EqDecision CampaignMode.
Proof. solve_decision. Defined.
#[export] Instance CampaignTool_eq_dec : EqDecision CampaignTool.
Proof. solve_decision. Defined.
#[export] Instance CadenceDisposition_eq_dec : EqDecision CadenceDisposition.
Proof. solve_decision. Defined.

(** Text joined by NUL characters. *)
Definition nul_joined (l : list string) : list ascii := join_text ["000"%char] (chars <$> l).

(** [len(ids) != len(set(ids))]. *)
Definition repeated (ids : list string) : bool := bool_decide (¬ NoDup ids).

(** ** Sampling *)

(** [_sample_score]; digests compare as their hexadecimal text does. *)
Definition sample_score (t : CatalogWorkUnit) : string :=
  str (sha256_hexdigest (nul_joined
    [cw_catalog_revision t; cw_entry_id t; seed (cw_sampling t); pretty (selector_index t); test_id (cw_unit t)])).

Definition score_le (a b : string * Z) : Prop := if decide (a.1 = b.1) then a.2 ≤ b.2 else str_le a.1 b.1.
#[export] Instance score_le_dec : RelDecision score_le.
Proof. intros a b. unfold score_le. destruct (decide (a.1 = b.1)); apply _. Defined.

(** The first target of every selector, refused when a later one disagrees. *)
Fixpoint representatives (seen : dict Z CatalogWorkUnit) (l : list CatalogWorkUnit) :
    res exn (dict Z CatalogWorkUnit) :=
  match l with
  | [] => Ok seen
  | t :: l =>
      let prior := default t (dict_get seen (selector_index t)) in
      let seen := match dict_get seen (selector_index t) with
                  | Some _ => seen | None => dict_set seen (selector_index t) t end in
      if negb (bool_decide (test_id (cw_unit prior) = test_id (cw_unit t))) then Err ValueError
      else if negb (bool_decide (cw_sampling prior = cw_sampling t)) then Err ValueError
      else representatives seen l
  end.

(** [_selector_ranks]. *)
Definition selector_ranks (l : list CatalogWorkUnit) : res exn (dict Z Z) :=
  reps ← representatives [] l;
  let keys := merge_sort score_le ((λ e : Z * CatalogWorkUnit, (sample_score e.2, selector_index e.2)) <$> reps) in
  Ok ((λ e : Z * (string * Z), (e.2.2, e.1)) <$> enumerate keys).

Record SamplingDecision := mkSamplingDecision {
  sd_target : CatalogWorkUnit;
  sd_disposition : SamplingDisposition;
  sd_rank : Z;
  sd_limit : option Z
}.

Definition by_unit_id (a b : CatalogWorkUnit) : Prop := str_le (target_id a) (target_id b).
#[export] Instance by_unit_id_dec : RelDecision by_unit_id.
Proof. intros a b. unfold by_unit_id. apply _. Defined.

(** The targets of one entry. *)
Definition sample_entry (l : list CatalogWorkUnit) : res exn (list SamplingDecision) :=
  match l with
  | [] => Ok []
  | first :: _ =>
      if existsb (λ t, negb (bool_decide (cw_sampling t = cw_sampling first))) l then Err ValueError
      else
        ranks ← selector_ranks l;
        let limit := max_selected (cw_sampling first) in
        mapM (λ t, match dict_get ranks (selector_index t) with
                   | None => Err KeyError
                   | Some rank =>
                       let selected := match limit with None => true | Some n => rank <? n end in
                       Ok (mkSamplingDecision t (if selected then SELECTED else SAMPLED_OUT) rank limit)
                   end) (merge_sort by_unit_id l)
  end.

(** [plan_catalog_sampling]. *)
Definition plan_catalog_sampling (targets : list CatalogWorkUnit) (revision : string) :
    res exn (list SamplingDecision) :=
  if blank revision then Err ValueError
  else if existsb (λ t, negb (bool_decide (cw_catalog_revision t = revision))) targets then Err ValueError
  else if repeated (target_id <$> targets) then Err ValueError
  else
    ds ← mapM (λ entry, sample_entry (List.filter (λ t, bool_decide (cw_entry_id t = entry)) targets))
           (sorted_set (cw_entry_id <$> targets));
    Ok (concat ds).

(** [SamplingPlan.selected]. *)
Definition sampled (ds : list SamplingDecision) : list CatalogWorkUnit :=
  sd_target <$> filter (λ d, sd_disposition d = SELECTED) ds.

(** ** Shards *)

Definition hex_value (l : list ascii) : Z :=
  fold_left (λ acc c, 16 * acc + (let n := code c in if n <? 58 then n - 48 else n - 87)) l 0.

(** [deterministic_shard]: the first eight bytes of the digest, modulo the count. *)
Definition deterministic_shard (unit_id : string) (shard_count : Z) (seed : string) : res exn Z :=
  if blank unit_id then Err ValueError
  else if shard_count <=? 0 then Err ValueError
  else if blank seed then Err ValueError
  else Ok (hex_value (take 16 (sha256_hexdigest (nul_joined [seed; unit_id]))) `mod` shard_count).

(** [assign_catalog_shards]. *)
Definition assign_catalog_shards (targets : list CatalogWorkUnit) (shard_count : Z) (seed : string) :
    res exn (list (CatalogWorkUnit * Z)) :=
  if repeated (target_id <$> targets) then Err ValueError
  else mapM (λ t, s ← deterministic_shard (target_id t) shard_count seed; Ok (t, s))
         (merge_sort by_unit_id targets).

(** [select_catalog_shard]. *)
Definition select_catalog_shard (targets : list CatalogWorkUnit) (shard_index shard_count : Z) (seed : string) :
    res exn (list CatalogWorkUnit) :=
  if (shard_index <? 0) || (shard_count <=? shard_index) then Err ValueError
  else l ← assign_catalog_shards targets shard_count seed;
       Ok ((filter (λ e, e.2 = shard_index) l).*1).

(** ** Budget of runs *)

Record CampaignBudget := mkCampaignBudget {
  max_runs : option Z;
  max_gpu_seconds : option Z
}.

Definition CampaignBudget_check (b : CampaignBudget) : res exn () :=
  if negative (max_runs b) || negative (max_gpu_seconds b) then Err ValueError else Ok ().

Record AdmissionDecision := mkAdmission {
  ad_target : CatalogWorkUnit;
  ad_disposition : AdmissionDisposition;
  ad_constraints : list BudgetConstraint;
  cumulative_admitted_runs : Z;
  cumulative_admitted_gpu_seconds : Z
}.

(** [_budget_constraints]. *)
Definition budget_constraints (t : CatalogWorkUnit) (b : CampaignBudget) (runs seconds : Z) : list BudgetConstraint :=
  (match max_runs b with Some m => if m <=? runs then [RUN_CAP] else [] | None => [] end) ++
  (if exceeds (max_gpu_seconds b) (seconds + cw_estimated_gpu_seconds t) then [GPU_SECONDS] else []).

Fixpoint admit_runs (b : CampaignBudget) (runs seconds : Z) (l : list CatalogWorkUnit) : list AdmissionDecision :=
  match l with
  | [] => []
  | t :: l =>
      let cs := budget_constraints t b runs seconds in
      let fits := bool_decide (length cs = 0%nat) in
      let runs := if fits then runs + 1 else runs in
      let seconds := if fits then seconds + cw_estimated_gpu_seconds t else seconds in
      mkAdmission t (if fits then ADMITTED else DEFERRED) cs runs seconds :: admit_runs b runs seconds l
  end.

(** [apply_campaign_budget]. *)
Definition apply_campaign_budget (targets : list CatalogWorkUnit) (b : CampaignBudget) :
    res exn (list AdmissionDecision) :=
  if repeated (target_id <$> targets) then Err ValueError else Ok (admit_runs b 0 0 targets).

(** [AdmissionPlan.admitted]. *)
Definition runs_admitted (ds : list AdmissionDecision) : list CatalogWorkUnit :=
  ad_target <$> filter (λ d, ad_disposition d = ADMITTED) ds.

(** ** Cadence *)

Record ToolCadence := mkCadence {
  tool : CampaignTool;
  tc_cadence_days : Z
}.

Definition ToolCadence_check (c : ToolCadence) : res exn () :=
  if tc_cadence_days c <=? 0 then Err ValueError else Ok ().

Record CadenceDecision := mkCadenceDecision {
  cd_target : CatalogWorkUnit;
  cd_tool : CampaignTool;
  cd_disposition : CadenceDisposition;
  effective_cadence_days : option Z;
  cd_last_completed_at : option datetime;
  cd_reason : string
}.

Definition day_micros : Z := 24 * 60 * 60 * 1000000.

(** [timedelta(days=n)]. *)
Definition days_micros (n : Z) : res exn Z := if 999999999 <? n then Err OverflowError else Ok (n * day_micros).

(** [_cadence_disposition]. *)
Definition cadence_disposition (t : CatalogWorkUnit) (c : ToolCadence) (mode : CampaignMode) (as_of : datetime)
    (last : option datetime) : res exn (CadenceDisposition * string * option Z) :=
  if match last with Some l => micros as_of <? micros l | None => false end then Err ValueError
  else if bool_decide (tool c = STRESS_TOOL) && negb (is_some (oracle (cw_unit t)))
  then Ok (NOT_APPLICABLE, "random-delay stress requires an oracle", None)
  else
    let days := Z.max (cw_cadence_days t) (tc_cadence_days c) in
    match mode, last with
    | ON_DEMAND, _ => Ok (DUE, "on-demand campaigns bypass cadence", Some days)
    | SCHEDULED, None => Ok (DUE, "tool has no prior successful run", Some days)
    | SCHEDULED, Some l =>
        span ← days_micros days;
        Ok (if span <=? micros as_of - micros l then (DUE, "tool cadence has elapsed", Some days)
            else (NOT_DUE, "tool cadence has not elapsed", Some days))
    end.

(** The completions of tools, by unit and tool. *)
Definition completions : Type := string → CampaignTool → option datetime.

(** [plan_tool_cadence]. *)
Definition plan_tool_cadence (targets : list CatalogWorkUnit) (cadences : list ToolCadence) (mode : CampaignMode)
    (as_of : datetime) (last_completed : completions) : res exn (list CadenceDecision) :=
  if negb (tz_aware as_of) then Err ValueError
  else if repeated (target_id <$> targets) then Err ValueError
  else if bool_decide (¬ NoDup (tool <$> cadences)) then Err ValueError
  else
    ds ← mapM (λ t, mapM (λ c,
           let last := last_completed (target_id t) (tool c) in
           if match last with Some l => negb (tz_aware l) | None => false end then Err ValueError
           else d ← cadence_disposition t c mode as_of last;
                let '(disposition, reason, days) := d in
                Ok (mkCadenceDecision t (tool c) disposition days last reason)) cadences)
           (merge_sort by_unit_id targets);
    Ok (concat ds).

(** [ToolCadencePlan.due_tools]. *)
Definition due_tools (ds : list CadenceDecision) (unit_id : string) : list CampaignTool :=
  cd_tool <$> filter (λ d, target_id (cd_target d) = unit_id ∧ cd_disposition d = DUE) ds.

(** ** The manifest *)

Definition CAMPAIGN_MANIFEST_SCHEMA_VERSION : Z := 1.

Inductive ManifestOutcome :=
| OutAdmitted | OutDisabled | OutSampledOut | OutOtherShard | OutNotDue | OutNotApplicable | OutDeferredBudget.
#[export] Instance ManifestOutcome_eq_dec : EqDecision ManifestOutcome.
Proof. solve_decision. Defined.

Record CampaignPlannerConfig := mkConfig {
  cf_mode : CampaignMode;
  as_of : datetime;
  shard_index : Z;
  shard_count : Z;
  shard_seed : string;
  tool_cadences : list ToolCadence;
  execution_budget : CampaignBudget;
  resource_budget : CampaignResourceBudget
}.

Definition CampaignPlannerConfig_check (c : CampaignPlannerConfig) : res exn () :=
  if negb (tz_aware (as_of c)) then Err ValueError
  else if (shard_count c <=? 0) || negb ((0 <=? shard_index c) && (shard_index c <? shard_count c)) then Err ValueError
  else if blank (shard_seed c) then Err ValueError
  else if bool_decide (length (tool_cadences c) = 0%nat) then Err ValueError
  else Ok ().

Record CampaignManifestItem := mkItem {
  it_target : CatalogWorkUnit;
  it_tool : CampaignTool;
  outcome : ManifestOutcome
}.

Record PlannedCampaignSession := mkPlanned {
  pl_target : CatalogWorkUnit;
  pl_tools : list CampaignTool;
  pl_enable_stress : bool
}.

(** [PlannedCampaignSession.__post_init__]; the tools are those of the sanitizer. *)
Definition PlannedCampaignSession_check (p : PlannedCampaignSession) : res exn () :=
  if bool_decide (¬ NoDup (pl_tools p)) then Err ValueError
  else if bool_decide (STRESS_TOOL ∈ pl_tools p) then Err ValueError
  else if bool_decide (pl_tools p = []) && negb (pl_enable_stress p) then Err ValueError
  else Ok ().

Record CampaignManifest := mkManifest {
  mf_catalog_revision : string;
  mf_catalog_digest : string;
  config : CampaignPlannerConfig;
  items : list CampaignManifestItem;
  sessions : list PlannedCampaignSession
}.

(** [CampaignManifest.__post_init__], at its own schema version. *)
Definition CampaignManifest_check (m : CampaignManifest) : res exn () :=
  if blank (mf_catalog_revision m) || negb (length (chars (mf_catalog_digest m)) =? 64)%nat then Err ValueError
  else if repeated (target_id ∘ pl_target <$> sessions m) then Err ValueError
  else Ok ().

(** [_scheduled_sample]. *)
Definition scheduled_sample (targets : list CatalogWorkUnit) (c : WorkloadCatalog) (mode : CampaignMode) :
    res exn (list SamplingDecision * list CatalogWorkUnit) :=
  plan ← plan_catalog_sampling targets (catalog_revision c);
  Ok (plan, match mode with ON_DEMAND => targets | SCHEDULED => sampled plan end).

(** [_shard_selection]. *)
Definition shard_selection (targets : list CatalogWorkUnit) (c : CampaignPlannerConfig) :
    res exn (dict string Z * list CatalogWorkUnit) :=
  l ← assign_catalog_shards targets (shard_count c) (shard_seed c);
  let by_unit := fold_left (λ d e, dict_set d (target_id e.1) e.2) l [] in
  Ok (by_unit, match cf_mode c with
               | ON_DEMAND => targets
               | SCHEDULED => (filter (λ e, e.2 = shard_index c) l).*1
               end).

(** [_due_targets]: the first target of every unit with a due tool. *)
Definition due_targets (ds : list CadenceDecision) : list CatalogWorkUnit :=
  (fold_left (λ d x, match dict_get d (target_id (cd_target x)) with
                     | Some _ => d
                     | None => dict_set d (target_id (cd_target x)) (cd_target x)
                     end) (filter (λ x, cd_disposition x = DUE) ds) []).*2.

(** [d[k]]. *)
Definition item_of {A} (d : dict string A) (k : string) : res exn A :=
  match dict_get d k with Some a => Ok a | None => Err KeyError end.

(** The decisions of the gates, by unit. *)
Record Gates := mkGates {
  g_sample : dict string SamplingDisposition;
  g_shards : dict string Z;
  g_cadence : dict (string * CampaignTool) CadenceDecision;
  g_execution : dict string AdmissionDecision;
  g_resources : dict string (ResourceAdmissionDecision (U := CatalogWorkUnit))
}.

(** [_outcome], its reasons apart. *)
Definition outcome_of (c : CampaignPlannerConfig) (g : Gates) (t : CatalogWorkUnit) (tool : CampaignTool) :
    res exn ManifestOutcome :=
  let id := target_id t in
  if negb (cw_enabled t) then Ok OutDisabled
  else
    sampled_out ← match cf_mode c with
                  | SCHEDULED => s ← item_of (g_sample g) id; Ok (bool_decide (s = SAMPLED_OUT))
                  | ON_DEMAND => Ok false
                  end;
    if sampled_out : bool then Ok OutSampledOut
    else
      elsewhere ← match cf_mode c with
                  | SCHEDULED => s ← item_of (g_shards g) id; Ok (negb (s =? shard_index c))
                  | ON_DEMAND => Ok false
                  end;
      if elsewhere : bool then Ok OutOtherShard
      else
        match dict_get (g_cadence g) (id, tool) with
        | None => Ok OutNotApplicable
        | Some d =>
            match cd_disposition d with
            | NOT_APPLICABLE => Ok OutNotApplicable
            | NOT_DUE => Ok OutNotDue
            | DUE =>
                e ← item_of (g_execution g) id;
                match ad_disposition e with
                | DEFERRED => Ok OutDeferredBudget
                | ADMITTED =>
                    r ← item_of (g_resources g) id;
                    Ok (match disposition r with DEFERRED => OutDeferredBudget | ADMITTED => OutAdmitted end)
                end
            end
        end.

(** [_manifest_items]. *)
Definition manifest_items (targets : list CatalogWorkUnit) (c : CampaignPlannerConfig) (g : Gates) :
    res exn (list CampaignManifestItem) :=
  rows ← mapM (λ t, mapM (λ tc, o ← outcome_of c g t (tool tc); Ok (mkItem t (tool tc) o)) (tool_cadences c)) targets;
  Ok (concat rows).

(** [_planned_sessions]. *)
Definition planned_sessions (targets : list CatalogWorkUnit) (due : string → list CampaignTool) :
    res exn (list PlannedCampaignSession) :=
  mapM (λ t,
    let tools := due (target_id t) in
    let p := mkPlanned t (filter (λ x, x ≠ STRESS_TOOL) tools) (bool_decide (STRESS_TOOL ∈ tools)) in
    _ ← PlannedCampaignSession_check p; Ok p) targets.

(** [plan_campaign]. *)
Definition plan_campaign (catalog : WorkloadCatalog) (c : CampaignPlannerConfig)
    (estimates : dict string CampaignResourceEstimate) (last_completed : completions)
    (submitted_at : list datetime) (usage : option CampaignResourceUsage) : res exn CampaignManifest :=
  all ← expand_workload_catalog catalog true;
  let active := List.filter cw_enabled all in
  s ← scheduled_sample active catalog (cf_mode c);
  let '(sample_plan, selected) := s in
  sh ← shard_selection selected c;
  let '(shards, in_shard) := sh in
  cadence ← plan_tool_cadence in_shard (tool_cadences c) (cf_mode c) (as_of c) last_completed;
  execution ← apply_campaign_budget (due_targets cadence) (execution_budget c);
  resources ← apply_resource_budget target_id (runs_admitted execution) estimates (resource_budget c)
                (as_of c) submitted_at usage;
  let g := mkGates
    (dict_of ((λ d, (target_id (sd_target d), sd_disposition d)) <$> sample_plan))
    (fold_left (λ d e, dict_set d e.1 e.2) shards (dict_of ((λ t, (target_id t, -1)) <$> all)))
    (dict_of ((λ d, ((target_id (cd_target d), cd_tool d), d)) <$> cadence))
    (dict_of ((λ d, (target_id (ad_target d), d)) <$> execution))
    (dict_of ((λ d, (target_id (target d), d)) <$> decisions resources)) in
  its ← manifest_items all c g;
  ses ← planned_sessions (admitted resources) (due_tools cadence);
  let m := mkManifest (catalog_revision catalog) (catalog_digest catalog) c its ses in
  _ ← CampaignManifest_check m; Ok m.

(** ** What each gate decides *)

Lemma repeated_false l : repeated l = false → NoDup l.
Proof. intros H. apply bool_decide_eq_false in H. destruct (decide (NoDup l)); [done|by destruct H]. Qed.

(** With distinct unit ids a target is known by its id. *)
Definition by_id (l : list CatalogWorkUnit) : Prop := NoDup (target_id <$> l).

Lemma by_id_eq l a b : by_id l → a ∈ l → b ∈ l → target_id a = target_id b → a = b.
Proof.
  unfold by_id. intros Hnd (i & Hi)%list_elem_of_lookup (j & Hj)%list_elem_of_lookup E.
  assert (i = j) as <-; [|congruence].
  eapply (NoDup_lookup _ i j (target_id a)); [exact Hnd|..]; rewrite list_lookup_fmap, ?Hi, ?Hj; cbn; congruence.
Qed.

Lemma by_id_Permutation l k : l ≡ₚ k → by_id l → by_id k.
Proof. unfold by_id. by intros ->. Qed.

Lemma dict_set_elem_of {K V} `{EqDecision K} (d : dict K V) k v e : e ∈ dict_set d k v → e = (k, v) ∨ e ∈ d.
Proof.
  induction d as [|[k' v'] d IH]; cbn; [intros ->%list_elem_of_singleton; by left|].
  destruct (decide (k = k')) as [->|]; rewrite !elem_of_cons; naive_solver.
Qed.

(** *** Sampling *)

Lemma representatives_keys l seen reps :
  representatives seen l = Ok reps →
  (∀ k, k ∈ seen.*1 → k ∈ reps.*1) ∧ (∀ t, t ∈ l → selector_index t ∈ reps.*1) ∧
  ((∀ e, e ∈ seen → selector_index e.2 = e.1) → ∀ e, e ∈ reps → selector_index e.2 = e.1).
Proof.
  revert seen. induction l as [|t l IH]; cbn; intros seen H.
  { injection H as <-. split_and!; [done| |done]. intros t Ht. by apply not_elem_of_nil in Ht. }
  destruct (negb _); [done|]. destruct (negb _); [done|].
  destruct (dict_get seen (selector_index t)) as [p|] eqn:Eg.
  - destruct (IH _ H) as (H1 & H2 & H3). split_and!; [done| |done].
    intros x [->|Hx]%elem_of_cons; [|by apply H2]. apply H1. apply dict_get_In in Eg.
    apply list_elem_of_fmap. by exists (selector_index t, p).
  - destruct (IH _ H) as (H1 & H2 & H3). apply dict_get_None in Eg.
    assert (∀ k, k ∈ seen.*1 ∨ k = selector_index t → k ∈ reps.*1) as Hk.
    { intros k Hk. apply H1. rewrite dict_keys_set, decide_False by done. set_solver. }
    split_and!.
    + auto.
    + intros x [->|Hx]%elem_of_cons; [auto|by apply H2].
    + intros Hs. apply H3. intros e [->|He]%dict_set_elem_of; [done|by apply Hs].
Qed.

(** Every target of an entry has a rank. *)
Lemma ranks_total l ranks t :
  selector_ranks l = Ok ranks → t ∈ l → ∃ r, dict_get ranks (selector_index t) = Some r.
Proof.
  intros H Ht. unfold selector_ranks in H. apply bind_ok in H as (reps & Hr & H). injection H as <-.
  destruct (representatives_keys l [] reps Hr) as (_ & H2 & H3).
  specialize (H2 t Ht). apply list_elem_of_fmap in H2 as ([k p] & Hk & Hin). cbn in Hk.
  assert (selector_index p = k) as Hp.
  { apply (H3 ltac:(intros e He; by apply not_elem_of_nil in He) (k, p) Hin). }
  set (keys := merge_sort score_le _). destruct (dict_get _ (selector_index t)) as [r|] eqn:E; [by exists r|].
  exfalso. apply dict_get_None in E. apply E. rewrite <- list_fmap_compose.
  assert ((sample_score p, selector_index p) ∈ keys) as Hkey.
  { unfold keys. rewrite merge_sort_Permutation. apply list_elem_of_fmap. by exists (k, p). }
  apply list_elem_of_lookup in Hkey as (i & Hi). apply list_elem_of_fmap.
  exists (Z.of_nat i, (sample_score p, selector_index p)). split; [cbn; congruence|].
  apply list_elem_of_lookup. exists i. unfold enumerate. rewrite lookup_zip_with.
  rewrite lookup_seqZ_lt, Hi; [cbn; done|].
  apply lookup_lt_Some in Hi. lia.
Qed.

(** One decision per target, the same whenever it is taken. *)
Lemma sampling_decided targets revision ds :
  plan_catalog_sampling targets revision = Ok ds →
  by_id targets ∧
  (∀ d, d ∈ ds → sd_target d ∈ targets) ∧
  (∀ t, t ∈ targets → ∃ d, d ∈ ds ∧ sd_target d = t) ∧
  (∀ d d', d ∈ ds → d' ∈ ds → target_id (sd_target d) = target_id (sd_target d') → d = d').
Proof.
  unfold plan_catalog_sampling. destruct (blank revision); [done|]. destruct (existsb _ _); [done|].
  destruct (repeated _) eqn:Erep; [done|]. apply repeated_false in Erep. intros H.
  apply bind_ok in H as (rows & Hrows & H). injection H as <-.
  assert (∀ d, d ∈ concat rows → ∃ entry, sd_target d ∈ targets ∧ cw_entry_id (sd_target d) = entry ∧
    ∃ row ranks, sample_entry (List.filter (λ t, bool_decide (cw_entry_id t = entry)) targets) = Ok row ∧
      selector_ranks (List.filter (λ t, bool_decide (cw_entry_id t = entry)) targets) = Ok ranks ∧
      ∃ rank first, dict_get ranks (selector_index (sd_target d)) = Some rank ∧
        head (List.filter (λ t, bool_decide (cw_entry_id t = entry)) targets) = Some first ∧
        d = mkSamplingDecision (sd_target d)
              (if match max_selected (cw_sampling first) with None => true | Some n => rank <? n end
               then SELECTED else SAMPLED_OUT) rank (max_selected (cw_sampling first))) as Hd.
  { intros d (row & Hin & Hrow)%elem_of_rows.
    destruct (mapM_elem _ _ _ _ Hrows Hrow) as (entry & _ & E). exists entry. pose proof E as E0.
    unfold sample_entry in E. destruct (List.filter _ targets) as [|first l] eqn:El; [injection E as <-; by apply not_elem_of_nil in Hin|].
    destruct (existsb _ _); [done|]. apply bind_ok in E as (ranks & Er & E).
    destruct (mapM_elem _ _ _ _ E Hin) as (t & Ht & Ed). rewrite merge_sort_Permutation in Ht.
    destruct (dict_get ranks (selector_index t)) as [rank|] eqn:Eg; [|done]. injection Ed as <-. cbn [sd_target].
    rewrite <- El in Ht. apply list_elem_of_In, List.filter_In in Ht as [Ht He%bool_decide_eq_true].
    split_and!; [by apply list_elem_of_In|done|]. exists row, ranks. split_and!; [exact E0|exact Er|].
    exists rank, first. split_and!; done. }
  split_and!.
  - exact Erep.
  - intros d Hin. by destruct (Hd d Hin) as (? & ? & _).
  - intros t Ht.
    destruct (mapM_image_of _ _ _ (cw_entry_id t) Hrows) as (row & Hrow & E).
    { apply elem_of_sorted_set, list_elem_of_fmap. by exists t. }
    assert (t ∈ List.filter (λ x, bool_decide (cw_entry_id x = cw_entry_id t)) targets) as Hf.
    { apply list_elem_of_In, List.filter_In. split; [by apply list_elem_of_In|by apply bool_decide_eq_true]. }
    unfold sample_entry in E. destruct (List.filter _ targets) as [|first l] eqn:El; [by apply not_elem_of_nil in Hf|].
    destruct (existsb _ _); [done|]. apply bind_ok in E as (ranks & Er & E).
    destruct (mapM_image_of _ _ _ t E) as (d & Hin & Ed); [by rewrite merge_sort_Permutation|].
    destruct (dict_get ranks _) as [rank|]; [|done]. injection Ed as <-.
    eexists. split; [apply elem_of_rows; eexists; split; [exact Hin|exact Hrow]|done].
  - intros d d' H1 H2 Hid.
    destruct (Hd d H1) as (e1 & Ht1 & He1 & row1 & ranks1 & _ & Er1 & rank1 & f1 & Eg1 & Ef1 & D1).
    destruct (Hd d' H2) as (e2 & Ht2 & He2 & row2 & ranks2 & _ & Er2 & rank2 & f2 & Eg2 & Ef2 & D2).
    assert (sd_target d = sd_target d') as Et by by eapply by_id_eq.
    rewrite D1, D2, <- Et. rewrite <- Et in *. subst e1 e2. rewrite Er1 in Er2. injection Er2 as <-.
    rewrite Eg1 in Eg2. injection Eg2 as <-. rewrite Ef1 in Ef2. by injection Ef2 as <-.
Qed.

(** *** Shards *)

Lemma shards_decided targets n seed l :
  assign_catalog_shards targets n seed = Ok l →
  by_id targets ∧ (∀ e, e ∈ l → e.1 ∈ targets ∧ deterministic_shard (target_id e.1) n seed = Ok e.2) ∧
  (∀ t, t ∈ targets → ∃ s, (t, s) ∈ l).
Proof.
  unfold assign_catalog_shards. destruct (repeated _) eqn:Erep; [done|]. apply repeated_false in Erep.
  intros H. split_and!; [exact Erep| |].
  - intros e He. destruct (mapM_elem _ _ _ _ H He) as (t & Ht & E). rewrite merge_sort_Permutation in Ht.
    apply bind_ok in E as (s & Es & E). by injection E as <-.
  - intros t Ht. destruct (mapM_image_of _ _ _ t H) as (e & He & E); [by rewrite merge_sort_Permutation|].
    apply bind_ok in E as (s & Es & E). injection E as <-. by exists s.
Qed.

(** *** Cadence *)

Lemma cadence_decided targets cadences mode now last ds :
  plan_tool_cadence targets cadences mode now last = Ok ds →
  by_id targets ∧ NoDup (tool <$> cadences) ∧
  (∀ d, d ∈ ds → cd_target d ∈ targets ∧ cd_tool d ∈ tool <$> cadences) ∧
  (∀ t c, t ∈ targets → c ∈ cadences → ∃ d, d ∈ ds ∧ cd_target d = t ∧ cd_tool d = tool c) ∧
  (∀ d d', d ∈ ds → d' ∈ ds → target_id (cd_target d) = target_id (cd_target d') → cd_tool d = cd_tool d' → d = d').
Proof.
  unfold plan_tool_cadence. destruct (negb _); [done|]. destruct (repeated _) eqn:Erep; [done|].
  destruct (bool_decide_reflect (¬ NoDup (tool <$> cadences))) as [|Hnd]; [done|]. apply dec_stable in Hnd.
  apply repeated_false in Erep. intros H. apply bind_ok in H as (rows & Hrows & H). injection H as <-.
  assert (∀ d, d ∈ concat rows → ∃ t c, t ∈ targets ∧ c ∈ cadences ∧
    (dd ← cadence_disposition t c mode now (last (target_id t) (tool c));
     let '(disposition, reason, days) := dd in
     Ok (mkCadenceDecision t (tool c) disposition days (last (target_id t) (tool c)) reason)) = Ok d) as Hd.
  { intros d (row & Hin & Hrow)%elem_of_rows. destruct (mapM_elem _ _ _ _ Hrows Hrow) as (t & Ht & E).
    rewrite merge_sort_Permutation in Ht. destruct (mapM_elem _ _ _ _ E Hin) as (c & Hc & Ed).
    exists t, c. split_and!; [done|done|]. cbv zeta in Ed.
    destruct (match last (target_id t) (tool c) with Some l => negb (tz_aware l) | None => false end); [done|exact Ed]. }
  assert (∀ t c d, (dd ← cadence_disposition t c mode now (last (target_id t) (tool c));
     let '(disposition, reason, days) := dd in
     Ok (mkCadenceDecision t (tool c) disposition days (last (target_id t) (tool c)) reason)) = Ok d →
     cd_target d = t ∧ cd_tool d = tool c) as Hfields.
  { intros t c d E. apply bind_ok in E as ([[x y] z] & _ & E). by injection E as <-. }
  split_and!; [exact Erep|exact Hnd|..].
  - intros d Hin. destruct (Hd d Hin) as (t & c & Ht & Hc & E). destruct (Hfields _ _ _ E) as [-> ->].
    split; [done|]. apply list_elem_of_fmap. by exists c.
  - intros t c Ht Hc. destruct (mapM_image_of _ _ _ t Hrows) as (row & Hrow & E); [by rewrite merge_sort_Permutation|].
    destruct (mapM_image_of _ _ _ c E Hc) as (d & Hin & Ed). cbv zeta in Ed.
    
    destruct (match last (target_id t) (tool c) with Some l => negb (tz_aware l) | None => false end); [done|].
    exists d. split; [apply elem_of_rows; eauto|].
    by apply Hfields.
  - intros d d' H1 H2 Hid Htool. destruct (Hd d H1) as (t1 & c1 & Ht1 & Hc1 & E1).
    destruct (Hd d' H2) as (t2 & c2 & Ht2 & Hc2 & E2).
    destruct (Hfields _ _ _ E1) as [F1 G1], (Hfields _ _ _ E2) as [F2 G2].
    rewrite F1, F2 in Hid. rewrite G1, G2 in Htool.
    assert (t1 = t2) as <- by by eapply by_id_eq.
    assert (c1 = c2) as <-; [|congruence].
    apply list_elem_of_lookup in Hc1 as (i & Hi). apply list_elem_of_lookup in Hc2 as (j & Hj).
    assert (i = j) as <-; [|congruence].
    eapply (NoDup_lookup _ i j (tool c1)); [exact Hnd|..]; rewrite list_lookup_fmap, ?Hi, ?Hj; cbn; congruence.
Qed.

(** *** Targets with something due *)

Lemma due_targets_spec ds :
  (∀ t, t ∈ due_targets ds → ∃ d, d ∈ ds ∧ cd_disposition d = DUE ∧ cd_target d = t) ∧
  (∀ d, d ∈ ds → cd_disposition d = DUE → ∃ t, t ∈ due_targets ds ∧ target_id t = target_id (cd_target d)).
Proof.
  unfold due_targets.
  assert (∀ l (acc : dict string CatalogWorkUnit),
    let r := fold_left (λ d x, match dict_get d (target_id (cd_target x)) with
                     | Some _ => d
                     | None => dict_set d (target_id (cd_target x)) (cd_target x)
                     end) l acc in
    (∀ e, e ∈ r → e ∈ acc ∨ ∃ x, x ∈ l ∧ e = (target_id (cd_target x), cd_target x)) ∧
    (∀ k, k ∈ acc.*1 → k ∈ r.*1) ∧ (∀ x, x ∈ l → target_id (cd_target x) ∈ r.*1)) as Hgen.
  { induction l as [|x l IH]; intros acc; cbn.
    - split_and!; [by left|done|]. intros x Hx. by apply not_elem_of_nil in Hx.
    - destruct (dict_get acc (target_id (cd_target x))) as [t|] eqn:E.
      + destruct (IH acc) as (I1 & I2 & I3). split_and!; [|done|].
        * intros e He. destruct (I1 e He) as [|(y & Hy & ->)]; [by left|right; exists y; split; [by right|done]].
        * intros y [->|Hy]%elem_of_cons; [|by apply I3]. apply I2. apply dict_get_In in E.
          apply list_elem_of_fmap. by eexists (_, _).
      + destruct (IH (dict_set acc (target_id (cd_target x)) (cd_target x))) as (I1 & I2 & I3).
        assert (∀ k, k ∈ acc.*1 ∨ k = target_id (cd_target x) →
                k ∈ (dict_set acc (target_id (cd_target x)) (cd_target x)).*1) as Hk.
        { intros k. rewrite dict_keys_set. destruct (decide _); set_solver. }
        split_and!.
        * intros e He. destruct (I1 e He) as [[->|]%dict_set_elem_of|(y & Hy & ->)];
            [right; exists x; split; [by left|done]|by left|right; exists y; split; [by right|done]].
        * auto.
        * intros y [->|Hy]%elem_of_cons; [auto|by apply I3]. }
  specialize (Hgen (filter (λ x, cd_disposition x = DUE) ds) []). cbv zeta in Hgen.
  revert Hgen. generalize (fold_left (λ d x, match dict_get d (target_id (cd_target x)) with
                     | Some _ => d
                     | None => dict_set d (target_id (cd_target x)) (cd_target x)
                     end) (filter (λ x, cd_disposition x = DUE) ds) []).
  intros r (G1 & _ & G3). split.
  - intros t ([k t'] & -> & He)%list_elem_of_fmap.
    destruct (G1 _ He) as [Hn|(x & [Hx Hin]%list_elem_of_filter & [= -> ->])]; [by apply not_elem_of_nil in Hn|].
    by exists x.
  - intros d Hd Hdue. assert (d ∈ filter (λ x, cd_disposition x = DUE) ds) as Hf by by apply list_elem_of_filter.
    specialize (G3 d Hf). apply list_elem_of_fmap in G3 as ([k t] & Hk & He). exists t.
    split; [apply list_elem_of_fmap; by exists (k, t)|].
    destruct (G1 _ He) as [Hn|(x & _ & [= -> ->])]; [by apply not_elem_of_nil in Hn|]. by rewrite Hk.
Qed.

(** *** The budget of runs *)

Lemma admit_runs_targets b runs seconds l : ad_target <$> admit_runs b runs seconds l = l.
Proof. revert runs seconds. induction l as [|t l IH]; intros runs seconds; cbn; [done|]. by rewrite IH. Qed.

Definition gpu_seconds (l : list CatalogWorkUnit) : Z := foldr Z.add 0 (cw_estimated_gpu_seconds <$> l).

Lemma runs_admitted_cons d ds :
  runs_admitted (d :: ds) =
  match ad_disposition d with ADMITTED => ad_target d :: runs_admitted ds | DEFERRED => runs_admitted ds end.
Proof. unfold runs_admitted. rewrite filter_cons. by destruct (ad_disposition d). Qed.

(** What is admitted stays within both limits. *)
Lemma runs_within b runs seconds l :
  let got := runs_admitted (admit_runs b runs seconds l) in
  (match max_runs b with Some m => runs ≤ m → runs + Z.of_nat (length got) ≤ m | None => True end) ∧
  (match max_gpu_seconds b with Some m => seconds ≤ m → seconds + gpu_seconds got ≤ m | None => True end).
Proof.
  revert runs seconds. induction l as [|t l IH]; intros runs seconds; cbn [admit_runs]; cbv zeta.
  - unfold gpu_seconds. cbn. destruct (max_runs b), (max_gpu_seconds b); lia.
  - set (cs := budget_constraints t b runs seconds). rewrite runs_admitted_cons. cbn [ad_disposition].
    destruct (bool_decide_reflect (length cs = 0%nat)) as [Hc|Hc]; [|exact (IH runs seconds)].
    destruct (IH (runs + 1) (seconds + cw_estimated_gpu_seconds t)) as [I1 I2].
    apply length_zero_iff_nil in Hc. unfold cs, budget_constraints, exceeds in Hc. apply app_nil in Hc as [C1 C2].
    unfold gpu_seconds in *. rewrite !fmap_cons. cbn [length foldr ad_target]. split.
    + destruct (max_runs b) as [m|]; [|done]. destruct (Z.leb_spec m runs); [done|]. lia.
    + destruct (max_gpu_seconds b) as [m|]; [|done].
      destruct (Z.ltb_spec m (seconds + cw_estimated_gpu_seconds t)); [done|]. lia.
Qed.

Lemma gpu_seconds_sublist ds l :
  target <$> ds = l → (∀ t, t ∈ l → 0 ≤ cw_estimated_gpu_seconds t) →
  gpu_seconds (target <$> filter (λ d : ResourceAdmissionDecision, disposition d = ADMITTED) ds) ≤ gpu_seconds l.
Proof.
  intros <-. induction ds as [|d ds IH]; intros H; [done|]. rewrite fmap_cons in *. rewrite filter_cons.
  assert (0 ≤ cw_estimated_gpu_seconds (target d)) by (apply H; left).
  assert (gpu_seconds (target <$> filter (λ d, disposition d = ADMITTED) ds) ≤ gpu_seconds (target <$> ds)).
  { apply IH. intros t Ht. apply H. by right. }
  unfold gpu_seconds in *. destruct (decide _); rewrite ?fmap_cons; cbn [foldr]; lia.
Qed.

(** ** Lookups of what is known by a key *)

Section Keyed.
Context {A K V : Type} `{EqDecision K} (key : A → K) (val : A → V).

Definition determined (l : list A) : Prop := ∀ a b, a ∈ l → b ∈ l → key a = key b → a = b.

Lemma NoDup_determined l : NoDup (key <$> l) → determined l.
Proof.
  intros Hnd a b (i & Hi)%list_elem_of_lookup (j & Hj)%list_elem_of_lookup E.
  assert (i = j) as <-; [|congruence].
  eapply (NoDup_lookup _ i j (key a)); [exact Hnd|..]; rewrite list_lookup_fmap, ?Hi, ?Hj; cbn; congruence.
Qed.

Lemma keyed_In l k v : dict_get (dict_of ((λ a, (key a, val a)) <$> l)) k = Some v → ∃ a, a ∈ l ∧ key a = k ∧ val a = v.
Proof. intros (a & [= -> ->] & Ha)%dict_of_In%list_elem_of_fmap. by exists a. Qed.

Lemma keyed_has l a : a ∈ l → ∃ b, b ∈ l ∧ key b = key a ∧ dict_get (dict_of ((λ a, (key a, val a)) <$> l)) (key a) = Some (val b).
Proof.
  intros Ha. destruct (dict_of_has ((λ a, (key a, val a)) <$> l) (key a)) as (v & Hv).
  { apply list_elem_of_fmap. exists (key a, val a). split; [done|]. apply list_elem_of_fmap. by exists a. }
  destruct (keyed_In l _ v Hv) as (b & Hb & E & <-). by exists b.
Qed.

Lemma keyed_get l a : determined l → a ∈ l → dict_get (dict_of ((λ a, (key a, val a)) <$> l)) (key a) = Some (val a).
Proof. intros Hd Ha. destruct (keyed_has l a Ha) as (b & Hb & E & Hv). rewrite Hv. by rewrite (Hd b a Hb Ha E). Qed.
End Keyed.

(** ** The gates of one plan *)

(** The tools a planned session runs. *)
Definition planned_tools (p : PlannedCampaignSession) : list CampaignTool :=
  pl_tools p ++ (if pl_enable_stress p then [STRESS_TOOL] else []).

Lemma elem_of_planned t tools x :
  x ∈ planned_tools (mkPlanned t (filter (λ x, x ≠ STRESS_TOOL) tools) (bool_decide (STRESS_TOOL ∈ tools))) ↔ x ∈ tools.
Proof.
  unfold planned_tools. cbn. rewrite elem_of_app, list_elem_of_filter. case_bool_decide as E.
  - rewrite list_elem_of_singleton. destruct (decide (x = STRESS_TOOL)) as [->|]; tauto.
  - rewrite elem_of_nil. split; [tauto|]. intros Hx. left. split; [by intros ->|done].
Qed.

Lemma elem_of_due ds id x : x ∈ due_tools ds id ↔ ∃ d, d ∈ ds ∧ target_id (cd_target d) = id ∧ cd_tool d = x ∧ cd_disposition d = DUE.
Proof.
  unfold due_tools. rewrite list_elem_of_fmap. setoid_rewrite list_elem_of_filter. naive_solver.
Qed.

Section Plan.
Context (c : CampaignPlannerConfig) (revision : string) (all : list CatalogWorkUnit).
Let active := List.filter cw_enabled all.
Context (sample_plan : list SamplingDecision) (Hsample : plan_catalog_sampling active revision = Ok sample_plan).
Let selected := match cf_mode c with ON_DEMAND => active | SCHEDULED => sampled sample_plan end.
Context (shards : dict string Z) (in_shard : list CatalogWorkUnit)
  (Hshard : shard_selection selected c = Ok (shards, in_shard)).
Context (cadence : list CadenceDecision) (last : completions)
  (Hcadence : plan_tool_cadence in_shard (tool_cadences c) (cf_mode c) (as_of c) last = Ok cadence).
Context (execution : list AdmissionDecision)
  (Hexec : apply_campaign_budget (due_targets cadence) (execution_budget c) = Ok execution).
Context (resources : ResourceAdmissionPlan (U := CatalogWorkUnit)) (estimates : dict string CampaignResourceEstimate)
  (submitted : list datetime) (usage : option CampaignResourceUsage)
  (Hres : apply_resource_budget target_id (runs_admitted execution) estimates (resource_budget c)
            (as_of c) submitted usage = Ok resources).

Let g := mkGates
  (dict_of ((λ d, (target_id (sd_target d), sd_disposition d)) <$> sample_plan))
  (fold_left (λ d e, dict_set d e.1 e.2) shards (dict_of ((λ t, (target_id t, -1)) <$> all)))
  (dict_of ((λ d, ((target_id (cd_target d), cd_tool d), d)) <$> cadence))
  (dict_of ((λ d, (target_id (ad_target d), d)) <$> execution))
  (dict_of ((λ d, (target_id (target d), d)) <$> decisions resources)).

Lemma elem_of_active t : t ∈ active ↔ t ∈ all ∧ cw_enabled t = true.
Proof. unfold active. rewrite !list_elem_of_In, List.filter_In. done. Qed.

Lemma active_by_id : by_id active.
Proof. by apply (sampling_decided _ _ _ Hsample). Qed.

Lemma selected_active t : t ∈ selected → t ∈ active.
Proof.
  unfold selected. case (cf_mode c); [|done]. unfold sampled. intros (d & -> & [_ Hd]%list_elem_of_filter)%list_elem_of_fmap.
  by apply (sampling_decided _ _ _ Hsample).
Qed.

Lemma shards_In : ∃ l, assign_catalog_shards selected (shard_count c) (shard_seed c) = Ok l ∧
  shards = dict_of ((λ e, (target_id e.1, e.2)) <$> l) ∧
  in_shard = match cf_mode c with ON_DEMAND => selected | SCHEDULED => (filter (λ e, e.2 = shard_index c) l).*1 end.
Proof.
  revert Hshard. unfold shard_selection. intros H. apply bind_ok in H as (l & Hl & H). injection H as E1 E2.
  exists l. split_and!; [done| |done]. rewrite <- E1. unfold dict_of. generalize (@nil (string * Z)).
  clear. induction l as [|e l IH]; intros d; [done|]. cbn. apply IH.
Qed.

Lemma in_shard_selected t : t ∈ in_shard → t ∈ selected.
Proof.
  destruct shards_In as (l & Hl & _ & Heq). rewrite Heq. case_eq (cf_mode c); intros E; [|done].
  intros (e & -> & [_ He]%list_elem_of_filter)%list_elem_of_fmap. by apply (shards_decided _ _ _ _ Hl).
Qed.

Lemma in_shard_all t : t ∈ in_shard → t ∈ all ∧ cw_enabled t = true.
Proof. intros H. by apply elem_of_active, selected_active, in_shard_selected. Qed.

Lemma same_target t t' : t ∈ active → t' ∈ active → target_id t = target_id t' → t = t'.
Proof. apply by_id_eq, active_by_id. Qed.

(** *** What each gate records *)

Lemma sample_gate t : t ∈ active → ∃ s, dict_get (g_sample g) (target_id t) = Some s ∧
  (cf_mode c = SCHEDULED → (t ∈ selected ↔ s = SELECTED)).
Proof.
  intros Ht. destruct (sampling_decided _ _ _ Hsample) as (_ & _ & H3 & H4). destruct (H3 t Ht) as (d & Hd & <-).
  exists (sd_disposition d). split.
  { apply (keyed_get (λ d, target_id (sd_target d)) sd_disposition); [exact H4|done]. }
  intros Em. unfold selected. rewrite Em. unfold sampled. rewrite list_elem_of_fmap. setoid_rewrite list_elem_of_filter.
  split; [intros (d' & E & Hs & Hd')|intros Hs; by exists d].
  rewrite (H4 d d' Hd Hd'); [done|by rewrite E].
Qed.

Lemma fold_set_agree {K V} `{EqDecision K} (l d d' : list (K * V)) k :
  k ∈ l.*1 ∨ dict_get d k = dict_get d' k →
  dict_get (fold_left (λ d e, dict_set d e.1 e.2) l d) k = dict_get (fold_left (λ d e, dict_set d e.1 e.2) l d') k.
Proof.
  revert d d'. induction l as [|[k' v] l IH]; intros d d'; cbn; [intros [H|H]; [by apply not_elem_of_nil in H|done]|].
  intros H. apply IH. destruct (decide (k' = k)) as [->|Hne].
  - right. by rewrite !dict_get_set_eq.
  - rewrite !dict_get_set_ne by done. rewrite elem_of_cons in H. naive_solver.
Qed.

Lemma dict_of_wf {K V} `{EqDecision K} (l : list (K * V)) : dict_wf (dict_of l).
Proof.
  unfold dict_of. assert (dict_wf (@nil (K * V))) as H by (apply NoDup_nil; done). revert H.
  generalize (@nil (K * V)). induction l as [|e l IH]; intros d H; cbn; [done|]. by apply IH, dict_wf_set.
Qed.

Lemma shard_gate t : t ∈ selected → ∃ s, dict_get (g_shards g) (target_id t) = Some s ∧
  deterministic_shard (target_id t) (shard_count c) (shard_seed c) = Ok s ∧
  (cf_mode c = SCHEDULED → (t ∈ in_shard ↔ s = shard_index c)).
Proof.
  intros Ht. destruct shards_In as (l & Hl & Hs & Hin). destruct (shards_decided _ _ _ _ Hl) as (Hid & H2 & H3).
  assert (∀ e e', e ∈ l → e' ∈ l → target_id e.1 = target_id e'.1 → e = e') as Hdet.
  { intros [t1 s1] [t2 s2] E1 E2 E. destruct (H2 _ E1) as [A1 B1], (H2 _ E2) as [A2 B2]. cbn in *.
    assert (t1 = t2) as <- by by eapply by_id_eq. congruence. }
  destruct (H3 t Ht) as (s & Hts). exists s.
  pose proof (keyed_get (λ e : CatalogWorkUnit * Z, target_id e.1) snd l (t, s) Hdet Hts) as Hget. cbn in Hget.
  split_and!.
  - unfold g. cbn [g_shards]. rewrite Hs.
    rewrite (fold_set_agree _ _ []); [|left; apply dict_get_In in Hget; apply list_elem_of_fmap; by eexists (_, _)].
    change (dict_get (dict_of (dict_of ((λ e, (target_id e.1, e.2)) <$> l))) (target_id t) = Some s).
    rewrite dict_of_NoDup; [done|]. apply dict_of_wf.
  - by destruct (H2 _ Hts).
  - intros Em. rewrite Hin, Em, list_elem_of_fmap. setoid_rewrite list_elem_of_filter. split.
    + intros (e & -> & Hse & He). destruct (H2 _ Hts) as [_ B], (H2 _ He) as [_ B']. cbn in *. congruence.
    + intros ->. by exists (t, shard_index c).
Qed.

Lemma cadence_gate t x : t ∈ in_shard → x ∈ tool <$> tool_cadences c →
  ∃ d, dict_get (g_cadence g) (target_id t, x) = Some d ∧
    (cd_disposition d = DUE ↔ x ∈ due_tools cadence (target_id t)).
Proof.
  intros Ht (tc & -> & Htc)%list_elem_of_fmap. destruct (cadence_decided _ _ _ _ _ _ Hcadence) as (_ & _ & _ & H4 & H5).
  destruct (H4 t tc Ht Htc) as (d & Hd & <- & <-). exists d. split.
  - apply (keyed_get (λ d, (target_id (cd_target d), cd_tool d)) (λ d, d)); [|done].
    intros a b Ha Hb [= E1 E2]. by apply H5.
  - rewrite elem_of_due. split; [intros Hdue; by exists d|intros (d' & Hd' & E1 & E2 & Hdue)].
    by rewrite (H5 d d' Hd Hd' (eq_sym E1) (eq_sym E2)).
Qed.

Lemma exec_inv : NoDup (target_id <$> due_targets cadence) ∧ ad_target <$> execution = due_targets cadence ∧
  execution = admit_runs (execution_budget c) 0 0 (due_targets cadence).
Proof.
  revert Hexec. unfold apply_campaign_budget. destruct (repeated _) eqn:E; [done|]. apply repeated_false in E.
  intros [= <-]. by rewrite admit_runs_targets.
Qed.

Lemma exec_gate t : t ∈ due_targets cadence → ∃ e, dict_get (g_execution g) (target_id t) = Some e ∧
  (ad_disposition e = ADMITTED ↔ t ∈ runs_admitted execution).
Proof.
  destruct exec_inv as (Hnd & Heq & _). rewrite <- Heq, <- list_fmap_compose in Hnd. rewrite <- Heq.
  pose proof (NoDup_determined _ _ Hnd) as Hdet. intros (e & -> & He)%list_elem_of_fmap. exists e. split.
  - by apply (keyed_get (λ d, target_id (ad_target d)) (λ d, d)).
  - unfold runs_admitted. rewrite list_elem_of_fmap. setoid_rewrite list_elem_of_filter.
    split; [intros H; by exists e|intros (e' & E & Ha & He')].
    by rewrite (Hdet e e' He He'); [|unfold compose; rewrite E].
Qed.

Lemma res_inv : NoDup (target_id <$> runs_admitted execution) ∧ target <$> decisions resources = runs_admitted execution.
Proof.
  pose proof (apply_inv target_id (runs_admitted execution) estimates (resource_budget c) (as_of c) submitted usage) as H.
  rewrite Hres in H. destruct H as (Hnd & _ & _ & _ & Had). split; [done|].
  refine (proj1 (admit_all_decided target_id estimates (resource_budget c) _ (default (mkUsage 0 0) usage)
    (recent_submissions resources) [] _ _ _ _ _ Had)).
  - destruct (default (mkUsage 0 0) usage). cbn. f_equal; lia.
  - cbn. lia.
Qed.

Lemma res_gate t : t ∈ runs_admitted execution → ∃ r, dict_get (g_resources g) (target_id t) = Some r ∧
  (disposition r = ADMITTED ↔ t ∈ admitted resources).
Proof.
  destruct res_inv as (Hnd & Heq). rewrite <- Heq, <- list_fmap_compose in Hnd. rewrite <- Heq.
  pose proof (NoDup_determined _ _ Hnd) as Hdet. intros (e & -> & He)%list_elem_of_fmap. exists e. split.
  - by apply (keyed_get (λ d, target_id (target d)) (λ d, d)).
  - unfold admitted. rewrite list_elem_of_fmap. setoid_rewrite list_elem_of_filter.
    split; [intros H; by exists e|intros (e' & E & Ha & He')].
    by rewrite (Hdet e e' He He'); [|unfold compose; rewrite E].
Qed.

(** *** Down the chain *)

Lemma due_in_shard t : t ∈ due_targets cadence → t ∈ in_shard.
Proof.
  intros (d & Hd & _ & <-)%due_targets_spec. by apply (cadence_decided _ _ _ _ _ _ Hcadence).
Qed.

Lemma admitted_runs t : t ∈ admitted resources → t ∈ runs_admitted execution.
Proof.
  destruct res_inv as (_ & <-). unfold admitted. intros (d & -> & [_ Hd]%list_elem_of_filter)%list_elem_of_fmap.
  apply list_elem_of_fmap. by exists d.
Qed.

Lemma runs_due t : t ∈ runs_admitted execution → t ∈ due_targets cadence.
Proof.
  destruct exec_inv as (_ & <- & _). unfold runs_admitted. intros (d & -> & [_ Hd]%list_elem_of_filter)%list_elem_of_fmap.
  apply list_elem_of_fmap. by exists d.
Qed.

Lemma due_target t x : t ∈ in_shard → x ∈ due_tools cadence (target_id t) → t ∈ due_targets cadence.
Proof.
  intros Ht (d & Hd & E & _ & Hdue)%elem_of_due. destruct (proj2 (due_targets_spec cadence) d Hd Hdue) as (t' & Ht' & E').
  assert (t = t') as ->; [|done]. apply same_target.
  - by apply selected_active, in_shard_selected.
  - by apply selected_active, in_shard_selected, due_in_shard.
  - congruence.
Qed.

Lemma admitted_in_shard t : t ∈ admitted resources → t ∈ in_shard.
Proof. intros H. by apply due_in_shard, runs_due, admitted_runs. Qed.

(** What [outcome_of] answers for a target that reached the cadence gate. *)
Lemma gated_outcome t x : t ∈ in_shard → x ∈ tool <$> tool_cadences c → ∃ o,
  match dict_get (g_cadence g) (target_id t, x) with
  | None => Ok OutNotApplicable
  | Some d =>
      match cd_disposition d with
      | NOT_APPLICABLE => Ok OutNotApplicable
      | NOT_DUE => Ok OutNotDue
      | DUE =>
          e ← item_of (g_execution g) (target_id t);
          match ad_disposition e with
          | DEFERRED => Ok OutDeferredBudget
          | ADMITTED =>
              r ← item_of (g_resources g) (target_id t);
              Ok (match disposition r with DEFERRED => OutDeferredBudget | ADMITTED => OutAdmitted end)
          end
      end
  end = Ok o ∧ (o = OutDisabled ↔ cw_enabled t = false) ∧
  (o = OutAdmitted ↔ t ∈ admitted resources ∧ x ∈ due_tools cadence (target_id t)).
Proof.
  intros Ht Hx. destruct (cadence_gate t x Ht Hx) as (d & -> & Hd).
  destruct (in_shard_all t Ht) as [_ ->].
  destruct (cd_disposition d) eqn:Ed.
  2, 3: eexists; (split_and!; [done|done|split; [done|by intros [_ H%Hd]]]).
  assert (x ∈ due_tools cadence (target_id t)) as Hdue by by apply Hd.
  destruct (exec_gate t (due_target t x Ht Hdue)) as (e & He & Hadm). unfold item_of. rewrite He. cbn [mbind res_bind].
  destruct (ad_disposition e) eqn:Ee.
  2: { eexists. split_and!; [done|done|split; [done|by intros [H%admitted_runs%Hadm _]]]. }
  destruct (res_gate t) as (r & Hr & Hadm'); [by apply Hadm|]. rewrite Hr. cbn [mbind res_bind].
  eexists. split_and!; [done|by destruct (disposition r)|].
  destruct (disposition r); (split; [intros H|intros [H _]]); naive_solver.
Qed.

Lemma outcome_exact t x : t ∈ all → x ∈ tool <$> tool_cadences c → ∃ o, outcome_of c g t x = Ok o ∧
  (o = OutDisabled ↔ cw_enabled t = false) ∧
  (o = OutAdmitted ↔ t ∈ admitted resources ∧ x ∈ due_tools cadence (target_id t)).
Proof.
  intros Hall Hx. unfold outcome_of. cbv zeta. generalize (λ H, gated_outcome t x H Hx).
  destruct (cw_enabled t) eqn:Een; cbn [negb]; intros Hrest.
  2: { exists OutDisabled. split_and!; [done|done|split; [done|]].
       intros [Ha _]. by destruct (in_shard_all t (admitted_in_shard t Ha)) as [_ Hen]; rewrite Hen in Een. }
  assert (t ∈ active) as Hact by by apply elem_of_active.
  destruct (sample_gate t Hact) as (s & Hs & Hsel).
  assert (cf_mode c = ON_DEMAND → t ∈ in_shard) as Hod.
  { intros E. destruct shards_In as (l & _ & _ & Heq). rewrite Heq. unfold selected. by rewrite E. }
  case_eq (cf_mode c); intros Em; [|exact (Hrest (Hod Em))].
  unfold item_of. rewrite Hs. cbn [mbind res_bind].
  case_bool_decide as Es.
  { subst s. exists OutSampledOut. split_and!; [done|done|split; [done|]].
    intros [Ha%admitted_in_shard%in_shard_selected _]. by apply (Hsel Em) in Ha. }
  assert (t ∈ selected) as Hin by (apply Hsel; [done|by destruct s]).
  destruct (shard_gate t Hin) as (k & Hk & _ & Hshd). rewrite Hk. cbn [mbind res_bind].
  destruct (Z.eqb_spec k (shard_index c)) as [->|Hne]; cbn [negb].
  - apply Hrest. by apply Hshd.
  - exists OutOtherShard. split_and!; [done|done|split; [done|]].
    intros [Ha%admitted_in_shard _]. by apply (Hshd Em) in Ha.
Qed.

Lemma admitted_sound t : t ∈ admitted resources →
  t ∈ all ∧ cw_enabled t = true ∧
  (cf_mode c = SCHEDULED → deterministic_shard (target_id t) (shard_count c) (shard_seed c) = Ok (shard_index c)).
Proof.
  intros Hin%admitted_in_shard. destruct (in_shard_all t Hin) as [Hall Hen]. split_and!; [done|done|].
  intros Em. destruct (shard_gate t (in_shard_selected t Hin)) as (s & _ & Hs & Hiff). rewrite Hs. f_equal. by apply Hiff.
Qed.

Lemma due_configured id x : x ∈ due_tools cadence id → x ∈ tool <$> tool_cadences c.
Proof. intros (d & Hd & _ & <- & _)%elem_of_due. by apply (cadence_decided _ _ _ _ _ _ Hcadence). Qed.

Lemma admitted_NoDup : NoDup (target_id <$> admitted resources).
Proof.
  destruct res_inv as (Hnd & Heq). rewrite <- Heq in Hnd. unfold admitted. rewrite <- list_fmap_compose in *.
  eapply sublist_NoDup; [exact Hnd|]. by apply fmap_sublist, sublist_filter.
Qed.

Lemma admitted_within :
  (∀ n, max_runs (execution_budget c) = Some n → 0 ≤ n → Z.of_nat (length (admitted resources)) ≤ n) ∧
  (∀ n, max_gpu_seconds (execution_budget c) = Some n → 0 ≤ n →
    (∀ t, t ∈ all → 0 ≤ cw_estimated_gpu_seconds t) → gpu_seconds (admitted resources) ≤ n).
Proof.
  destruct exec_inv as (_ & _ & Hexe). destruct res_inv as (_ & Heq).
  pose proof (runs_within (execution_budget c) 0 0 (due_targets cadence)) as [H1 H2]. rewrite <- Hexe in H1, H2. split.
  - intros n Hn H0. rewrite Hn in H1. specialize (H1 H0). rewrite <- Heq, length_fmap in H1.
    unfold admitted. rewrite length_fmap.
    pose proof (length_filter (λ d : ResourceAdmissionDecision, disposition d = ADMITTED) (decisions resources)). lia.
  - intros n Hn H0 Hpos. rewrite Hn in H2. specialize (H2 H0). etransitivity; [|exact H2].
    apply gpu_seconds_sublist; [done|]. intros t Ht. apply Hpos. by apply in_shard_all, due_in_shard, runs_due.
Qed.
End Plan.

(** *** From the admissions to the manifest *)

Lemma mapM_fmap {E A B C} (f : A → res E B) (h : B → C) (k : A → C) l l' :
  mapM f l = Ok l' → (∀ x y, f x = Ok y → h y = k x) → h <$> l' = k <$> l.
Proof.
  intros H%mapM_Forall2 Hf. induction H as [|x y l l' Hxy _ IH]; [done|]. rewrite !fmap_cons, IH. f_equal. by apply Hf.
Qed.

Lemma items_of_gates targets c g its :
  manifest_items targets c g = Ok its →
  (λ i, (it_target i, it_tool i)) <$> its = concat ((λ t, (λ tc, (t, tool tc)) <$> tool_cadences c) <$> targets) ∧
  ∀ i, i ∈ its → it_target i ∈ targets ∧ it_tool i ∈ tool <$> tool_cadences c ∧
    outcome_of c g (it_target i) (it_tool i) = Ok (outcome i).
Proof.
  unfold manifest_items. intros H. apply bind_ok in H as (rows & Hrows & H). injection H as <-.
  assert (∀ t tc i, (o ← outcome_of c g t (tool tc); Ok (mkItem t (tool tc) o)) = Ok i →
    (it_target i, it_tool i) = (t, tool tc) ∧ outcome_of c g t (tool tc) = Ok (outcome i)) as Hitem.
  { intros t tc i E. apply bind_ok in E as (o & Eo & E). by injection E as <-. }
  split.
  - etransitivity; [exact (concat_map _ rows)|]. f_equal.
    apply (mapM_fmap _ _ _ _ _ Hrows). intros t row E. apply (mapM_fmap _ _ _ _ _ E).
    intros tc i Ei. by apply (Hitem t tc i).
  - intros i (row & Hi & Hrow)%elem_of_rows. destruct (mapM_elem _ _ _ _ Hrows Hrow) as (t & Ht & E).
    destruct (mapM_elem _ _ _ _ E Hi) as (tc & Htc & Ei). destruct (Hitem _ _ _ Ei) as [[= -> ->] Ho].
    split_and!; [done|apply list_elem_of_fmap; by exists tc|done].
Qed.

Lemma planned_runs_something p u : PlannedCampaignSession_check p = Ok u → planned_tools p ≠ [].
Proof.
  unfold PlannedCampaignSession_check, planned_tools. destruct (bool_decide (¬ _)); [done|].
  destruct (bool_decide (STRESS_TOOL ∈ _)); [done|].
  destruct (pl_tools p) as [|x l]; [|done]. by destruct (pl_enable_stress p).
Qed.

(** What [_planned_sessions] builds: a checked session for every target. *)
Lemma sessions_of targets due ses :
  planned_sessions targets due = Ok ses →
  pl_target <$> ses = targets ∧
  ∀ p, p ∈ ses → planned_tools p ≠ [] ∧ ∀ x, x ∈ planned_tools p ↔ x ∈ due (target_id (pl_target p)).
Proof.
  unfold planned_sessions. intros H. split.
  - rewrite <- (list_fmap_id targets). apply (mapM_fmap _ _ _ _ _ H).
    intros t p E. apply bind_ok in E as (u & _ & E). by injection E as <-.
  - intros p Hp. destruct (mapM_elem _ _ _ _ H Hp) as (t & _ & E). apply bind_ok in E as (u & Hc & E).
    injection E as <-. split; [|intros x; apply elem_of_planned].
    by eapply planned_runs_something.
Qed.

(** ** Properties *)

(** C18: a manifest is consistent.  It decides every tool of every target of
    the catalog exactly once, in order; a tool of a target is recorded as
    admitted exactly when a planned session runs it there; a planned session is
    for an enabled target, runs at least one tool and configured tools only, and
    in a scheduled campaign its target is of this shard; no two sessions
    are for one unit; the runs and the GPU time planned stay within the budget. *)
Theorem manifest_consistent catalog c estimates last submitted usage m :
  plan_campaign catalog c estimates last submitted usage = Ok m →
  ∃ all, expand_workload_catalog catalog true = Ok all ∧
  (λ i, (it_target i, it_tool i)) <$> items m = concat ((λ t, (λ tc, (t, tool tc)) <$> tool_cadences c) <$> all) ∧
  (∀ i, i ∈ items m →
    (outcome i = OutDisabled ↔ cw_enabled (it_target i) = false) ∧
    (outcome i = OutAdmitted ↔ ∃ p, p ∈ sessions m ∧ pl_target p = it_target i ∧ it_tool i ∈ planned_tools p)) ∧
  (∀ p, p ∈ sessions m →
    planned_tools p ≠ [] ∧ (∀ x, x ∈ planned_tools p → x ∈ tool <$> tool_cadences c) ∧
    pl_target p ∈ all ∧ cw_enabled (pl_target p) = true ∧
    (cf_mode c = SCHEDULED →
     deterministic_shard (target_id (pl_target p)) (shard_count c) (shard_seed c) = Ok (shard_index c))) ∧
  NoDup (target_id <$> (pl_target <$> sessions m)) ∧
  (∀ n, max_runs (execution_budget c) = Some n → 0 ≤ n → Z.of_nat (length (sessions m)) ≤ n) ∧
  (∀ n, max_gpu_seconds (execution_budget c) = Some n → 0 ≤ n →
    (∀ t, t ∈ all → 0 ≤ cw_estimated_gpu_seconds t) → gpu_seconds (pl_target <$> sessions m) ≤ n).
Proof.
  unfold plan_campaign. intros H. apply bind_ok in H as (all & Hall & H). exists all. split; [exact Hall|].
  apply bind_ok in H as ([sample_plan selected] & Hsample & H).
  apply bind_ok in Hsample as (sp & Hsample & Hsel). injection Hsel as -> <-.
  apply bind_ok in H as ([shards in_shard] & Hshard & H). apply bind_ok in H as (cadence & Hcad & H).
  apply bind_ok in H as (execution & Hexec & H). apply bind_ok in H as (resources & Hres & H).
  apply bind_ok in H as (its & Hits & H). apply bind_ok in H as (ses & Hses & H).
  apply bind_ok in H as (u & Hchk & H). injection H as <-. cbn [items sessions].
  destruct (items_of_gates _ _ _ _ Hits) as (Hgrid & Hitems). destruct (sessions_of _ _ _ Hses) as (Htargets & Hps).
  assert (∀ t, (∃ p, p ∈ ses ∧ pl_target p = t) ↔ t ∈ admitted resources) as Hadm.
  { intros t. rewrite <- Htargets, list_elem_of_fmap. split; intros (p & ? & ?); by exists p. }
  rewrite Htargets, <- (length_fmap pl_target ses), Htargets. split; [exact Hgrid|]. split; [|split].
  - intros i Hi. destruct (Hitems i Hi) as (Ht & Hx & Ho).
    eassert _ as Hexact by (eapply outcome_exact; [exact Hsample|exact Hshard|exact Hcad|exact Hexec|exact Hres|exact Ht|exact Hx]).
    destruct Hexact as (o & Ho' & Hdis & Hiff). rewrite Ho in Ho'. injection Ho' as <-.
    split; [exact Hdis|]. rewrite Hiff, <- Hadm. split.
    + intros [(p & Hp & E) Hdue]. exists p. split_and!; [done|done|]. apply (Hps p Hp). by rewrite E.
    + intros (p & Hp & E & Hp'). split; [by exists p|]. rewrite <- E. by apply (Hps p Hp).
  - intros p Hp. destruct (Hps p Hp) as (Hne & Hdue). split; [done|]. split.
    + intros x Hx%Hdue. by eapply due_configured.
    + eapply admitted_sound; eauto. by apply Hadm; exists p.
  - split; [by eapply admitted_NoDup|by eapply admitted_within].
Qed.

(** ** What planning may raise *)

(** Every exception of a computation satisfies [P]. *)
Definition raises {A} (P : exn → Prop) (r : res exn A) : Prop := match r with Ok _ => True | Err e => P e end.

Lemma raises_bind {A B} P (r : res exn A) (k : A → res exn B) :
  raises P r → (∀ a, r = Ok a → raises P (k a)) → raises P (a ← r; k a).
Proof. destruct r as [a|e]; cbn; auto. Qed.

Lemma raises_mapM {A B} P (f : A → res exn B) l : (∀ a, a ∈ l → raises P (f a)) → raises P (mapM f l).
Proof.
  induction l as [|a l IH]; intros H; [done|]. change (mapM f (a :: l)) with (b ← f a; bs ← mapM f l; Ok (b :: bs)).
  apply raises_bind; [apply H; by left|]. intros b _. apply raises_bind; [|done]. apply IH. intros x Hx. apply H. by right.
Qed.

Lemma raises_if {A} P (b : bool) e (r : res exn A) : P e → (b = false → raises P r) → raises P (if b then Err e else r).
Proof. destruct b; cbn; auto. Qed.

(** [ValueError], or [OverflowError] for a cadence of more days than a
    [timedelta] holds. *)
Definition planning_error (catalog : WorkloadCatalog) (cadences : list ToolCadence) (e : exn) : Prop :=
  e = ValueError ∨
  (e = OverflowError ∧ ∃ all t tc, expand_workload_catalog catalog true = Ok all ∧ t ∈ all ∧ tc ∈ cadences ∧
    999999999 < Z.max (cw_cadence_days t) (tc_cadence_days tc)).

Ltac raising :=
  repeat first
    [ exact I | apply raises_if; [first [left; reflexivity | reflexivity] | intros _]
    | apply raises_mapM; intros ? ? | apply raises_bind; [|intros ? ?] ].

Lemma expansion_raises catalog disabled : raises (λ e, e = ValueError) (expand_workload_catalog catalog disabled).
Proof.
  unfold expand_workload_catalog. raising.
  assert (∀ command : string → res exn (list string), (∀ s, raises (λ e, e = ValueError) (command s)) →
    ∀ e, raises (λ e, e = ValueError) (expand_with command (catalog_revision catalog) e)) as Hwith.
  { intros command Hc e. unfold expand_with. raising. apply Hc. }
  destruct (adapter a); unfold expand_pytest, expand_tritonbench; raising; apply Hwith; intros s; unfold tritonbench_argv; raising.
Qed.

Lemma sampling_raises targets revision : raises (λ e, e = ValueError) (plan_catalog_sampling targets revision).
Proof.
  assert (∀ l seen, raises (λ e, e = ValueError) (representatives seen l)) as Hreps.
  { induction l as [|t l IH]; intros seen; cbn [representatives]; raising. apply IH. }
  unfold plan_catalog_sampling. raising. unfold sample_entry. destruct (List.filter _ targets) as [|first l]; [done|].
  raising; [unfold selector_ranks; raising; apply Hreps|].
  match goal with H : ?t ∈ merge_sort _ _ |- _ => rewrite merge_sort_Permutation in H; rename H into Ht end.
  destruct (ranks_total _ _ _ H0 Ht) as (r & ->). done.
Qed.

Lemma raises_weaken {A} (P Q : exn → Prop) (r : res exn A) : raises P r → (∀ e, P e → Q e) → raises Q r.
Proof. destruct r; cbn; auto. Qed.

Lemma cadence_raises catalog all targets cadences mode now last :
  expand_workload_catalog catalog true = Ok all → (∀ t, t ∈ targets → t ∈ all) →
  raises (planning_error catalog cadences) (plan_tool_cadence targets cadences mode now last).
Proof.
  intros Hall Hsub. unfold plan_tool_cadence. repeat (apply raises_if; [by left|intros _]).
  apply raises_bind; [|done]. apply raises_mapM. intros t Ht. rewrite merge_sort_Permutation in Ht.
  apply raises_mapM. intros tc Htc. apply raises_if; [by left|intros _].
  apply raises_bind; [|by intros [[? ?] ?]]. unfold cadence_disposition. apply raises_if; [by left|intros _].
  destruct (bool_decide _ && _); [done|]. destruct mode, (last (target_id t) (tool tc)) as [d|]; try done. apply raises_bind; [|done].
  unfold days_micros. destruct (Z.ltb_spec 999999999 (Z.max (cw_cadence_days t) (tc_cadence_days tc))); [|done].
  right. split; [done|]. exists all, t, tc. auto.
Qed.

(** Planning fails only as documented.  Whatever the catalog, the
    configuration, the estimates and the history, [plan_campaign] answers or
    raises [ValueError], or [OverflowError] when a cadence exceeds the days of a
    [timedelta]; in particular the lookups of one gate in the decisions of
    another never raise [KeyError]. *)
Theorem planning_errors catalog c estimates last submitted usage :
  raises (planning_error catalog (tool_cadences c)) (plan_campaign catalog c estimates last submitted usage).
Proof.
  assert (∀ e, e = ValueError → planning_error catalog (tool_cadences c) e) as Hv by by left.
  unfold plan_campaign. apply raises_bind; [by eapply raises_weaken; [apply expansion_raises|]|]. intros all Hall.
  apply raises_bind.
  { unfold scheduled_sample. apply raises_bind; [by eapply raises_weaken; [apply sampling_raises|]|done]. }
  intros [sample_plan selected] Hs. apply bind_ok in Hs as (sp & Hsample & Hsel). injection Hsel as -> <-.
  apply raises_bind; [unfold shard_selection, assign_catalog_shards, deterministic_shard; raising|].
  intros [shards in_shard] Hshard. apply raises_bind.
  { apply cadence_raises with all; [done|]. intros t Ht. exact (proj1 (in_shard_all c (catalog_revision catalog) all sample_plan Hsample shards in_shard Hshard t Ht)). }
  intros cadence Hcad. apply raises_bind; [unfold apply_campaign_budget; raising|]. intros execution Hexec.
  apply raises_bind.
  { pose proof (apply_inv target_id (runs_admitted execution) estimates (resource_budget c) (as_of c) submitted usage) as H.
    destruct (apply_resource_budget _ _ _ _ _ _ _); [done|]. destruct H as [-> _]. by left. }
  intros resources Hres. apply raises_bind.
  - unfold manifest_items. raising.
    eassert _ as Hexact by (eapply (outcome_exact _ _ all); [exact Hsample|exact Hshard|exact Hcad|exact Hexec|exact Hres|
      eassumption|apply list_elem_of_fmap; eexists; split; [reflexivity|eassumption]]).
    destruct Hexact as (o & Ho & _). by rewrite Ho.
  - intros its _. unfold planned_sessions, PlannedCampaignSession_check, CampaignManifest_check. raising.
Qed.

(** ** A plan *)

Definition demo_entry (id : string) (on : bool) (sel : list string) (o : option OracleSpec) : WorkloadCatalogEntry :=
  mkEntry id TRITON_PYTEST sel ["sm_90"] "r1" "team" "" [] [] o None [] (mkSampling (Some 1) "s") 1 60 on.

Definition demo_catalog : WorkloadCatalog :=
  mkCatalog "rev" [demo_entry "a" true ["t.py"; "u.py"] None;
                   demo_entry "b" true ["v.py"] (Some (mkOracle "o" ["true"] [1]));
                   demo_entry "c" false ["w.py"] None] 1.

Definition demo_config : CampaignPlannerConfig :=
  mkConfig SCHEDULED (mkDatetime true 0) 0 1 "seed" [mkCadence MEMCHECK 1; mkCadence STRESS_TOOL 7]
    (mkCampaignBudget (Some 2) (Some 600)) (mkBudget None None None).

(** Every unit estimated at no cost. *)
Definition demo_needs : dict string CampaignResourceEstimate :=
  match expand_workload_catalog demo_catalog true with
  | Ok l => (λ t, (target_id t, mkEstimate 0 0 0)) <$> l
  | Err _ => []
  end.

(** Two of the three enabled targets are sampled; the one without an oracle
    is not stressed. *)
Lemma manifest_consistent_witness :
  match plan_campaign demo_catalog demo_config demo_needs (λ _ _, None) [] None with
  | Ok m =>
      (outcome <$> items m) =
        [OutAdmitted; OutNotApplicable; OutSampledOut; OutSampledOut; OutAdmitted; OutAdmitted; OutDisabled; OutDisabled] ∧
      NoDup (target_id <$> (pl_target <$> sessions m)) ∧ Z.of_nat (length (sessions m)) ≤ 2
  | Err _ => False
  end.
Proof.
  assert (match plan_campaign demo_catalog demo_config demo_needs (λ _ _, None) [] None with
          | Ok m => (outcome <$> items m) =
              [OutAdmitted; OutNotApplicable; OutSampledOut; OutSampledOut; OutAdmitted; OutAdmitted; OutDisabled; OutDisabled]
          | Err _ => False
          end) as H by (vm_compute; reflexivity).
  revert H. destruct (plan_campaign demo_catalog demo_config demo_needs (λ _ _, None) [] None) as [m|e] eqn:E; [|done].
  intros H. split; [exact H|].
  destruct (manifest_consistent demo_catalog demo_config demo_needs (λ _ _, None) [] None m E)
    as (all & _ & _ & _ & _ & Hnd & Hruns & _).
  split; [exact Hnd|by apply Hruns].
Defined.
