(* ===== verification/SessionStore.v ===== *)
(** Durable sessions: the contract of the store and the retention of its
    records (src/python/cutracer/service/storage.py) and the file store that
    implements it (service/file_store.py).

    A directory maps the digest of a session identifier to a file.  Writing a
    record and reading it back gives the payload that was written; the order of
    an object's keys, which [sort_keys] changes, is not observed.  Locks make
    every operation one atomic step. *)
From S2P Require Import Prelude.
From S2P Require Import PyStr.
From S2P Require Import PyDict.
From S2P Require Import PySet.
From S2P Require Import Json.
From S2P Require Import PyText.
From S2P Require Import Sha256.
From S2P Require Import Contracts.
From S2P Require Import SessionContracts.
From S2P Require Import Equality.
From S2P Require Import SessionValidation.
From S2P Require Import Session.
From S2P Require Import SessionLaws.
From S2P Require Import SessionProperties.
From S2P Require Import LocalDriver.
Local Open Scope Z_scope.

(** ** Retention and metadata *)

Record SessionRetentionPolicy := mkRetention {
  active_ttl_s : Z;
  terminal_ttl_s : Z;
  prune_batch_size : Z
}.

Definition default_retention : SessionRetentionPolicy := mkRetention (30 * 24 * 60 * 60) (90 * 24 * 60 * 60) 100.

Definition SessionRetentionPolicy_check (p : SessionRetentionPolicy) : res exn () :=
  if (active_ttl_s p <=? 0) || (terminal_ttl_s p <=? 0) then Err ValueError
  else if prune_batch_size p <=? 0 then Err ValueError else Ok ().

Definition expires_at_ms (p : SessionRetentionPolicy) (status : SessionStatus) (updated_at_ms : Z) : Z :=
  let ttl_s := if terminal_status status then terminal_ttl_s p else active_ttl_s p in
  updated_at_ms + ttl_s * 1000.

Record SessionMetadata := mkMetadata {
  smd_session_id : string;
  smd_state_revision : Z;
  smd_status : SessionStatus;
  session_blob : ArtifactRef;
  smd_updated_at_ms : Z;
  smd_expires_at_ms : Z;
  smd_publication : ReportPublicationStatus
}.

Definition SessionMetadata_check (d : SessionMetadata) : res exn () :=
  if blank (smd_session_id d) then Err ValueError
  else if smd_state_revision d <? 0 then Err ValueError
  else if (smd_updated_at_ms d <? 0) || (smd_expires_at_ms d <=? smd_updated_at_ms d) then Err ValueError
  else if blank (uri (session_blob d)) ||
          match sha256 (session_blob d) with
          | None => true
          | Some h => negb (length (chars h) =? 64)%nat || negb (forallb is_hex_digit (chars h))
          end ||
          match size_bytes (session_blob d) with None => true | Some n => n <=? 0 end ||
          negb (String.eqb (media_type (session_blob d)) "application/json")
  then Err ValueError else Ok ().

(** [SessionMetadata.pending]. *)
Definition metadata_pending (d : SessionMetadata) : bool :=
  negb (terminal_status (smd_status d)) || bool_decide (smd_publication d = ReportPending).

Definition SessionMetadata_to_dict (d : SessionMetadata) : json :=
  JObj [("session_id", JStr (smd_session_id d)); ("state_revision", JInt (smd_state_revision d));
        ("status", to_json (smd_status d)); ("session_blob", to_json (session_blob d));
        ("updated_at_ms", JInt (smd_updated_at_ms d)); ("expires_at_ms", JInt (smd_expires_at_ms d));
        ("report_publication", to_json (smd_publication d))].

Definition SessionMetadata_from_dict (j : json) : dres SessionMetadata :=
  d ← as_obj j;
  status ← (x ← req d "status"; of_json x);
  let publication := match get d "report_publication" with
                     | JNull => to_json (if publishable status then ReportPublished else ReportNotReady)
                     | x => x
                     end in
  id ← (x ← req d "session_id"; as_str x);
  revision ← (x ← req d "state_revision"; py_int x);
  blob ← (x ← req d "session_blob"; of_json x);
  updated ← (x ← req d "updated_at_ms"; py_int x);
  expires ← (x ← req d "expires_at_ms"; py_int x);
  publication ← of_json publication;
  checked SessionMetadata_check (mkMetadata id revision status blob updated expires publication).

#[export] Instance SessionMetadata_codec : JsonCodec SessionMetadata.
Proof.
  refine {| valid d := SessionMetadata_check d = Ok (); to_json := SessionMetadata_to_dict;
            of_json := SessionMetadata_from_dict |}.
  - done.
  - intros [id rev st blob u e p] Hv. unfold SessionMetadata_to_dict, SessionMetadata_from_dict.
    destruct p; codec; by apply checked_ok.
Defined.

(** ** The file store *)

(** The exceptions of a store: the three of storage.py, others that escape, and
    payloads outside the model. *)
Inductive session_error :=
| SessionConflict
| SessionUnavailable
| SessionNotFound
| SessionRaised (e : exn)
| SessionIllTyped.

#[export] Instance session_error_eq_dec : EqDecision session_error.
Proof. solve_decision. Defined.

Notation store_res := (res session_error).

(** What a path holds: a symbolic link, dangling or not, a file that is no JSON, or
    a payload. *)
Inductive stored_file := Symlink (dangling : bool) | NotJson | Payload (j : json).

Definition directory : Type := dict string stored_file.

(** [_key]. *)
Definition session_key (id : string) : store_res string :=
  if blank id then Err (SessionRaised ValueError) else Ok (str (sha256_hexdigest (chars id))).

(** [_read_record], on what the path of [id] holds. *)
Definition read_record (dir : directory) (key id : string) : store_res obj :=
  match dict_get dir key with
  | None => Err SessionNotFound
  | Some (Payload (JObj d)) =>
      if json_eqb (get d "session_id") (JStr id) then Ok d else Err SessionUnavailable
  | Some _ => Err SessionUnavailable
  end.

Section FileStore.
Context (retention : SessionRetentionPolicy).

(** [_record]. *)
Definition session_record (s : AnalysisSession) (updated_at_ms : Z) : obj :=
  [("session_id", JStr (sn_session_id s)); ("state_revision", JInt (sn_state_revision s));
   ("status", to_json (sn_status s)); ("updated_at_ms", JInt updated_at_ms);
   ("expires_at_ms", JInt (expires_at_ms retention (sn_status s) updated_at_ms));
   ("pending", JBool (requires_reconciliation s)); ("session", to_json s)].

(** The exceptions of decoding that the store turns into its own. *)
Definition unavailable_decode {A} (r : dres A) : store_res A :=
  match r with
  | Ok a => Ok a
  | Err (Raised (KeyError | TypeError | ValueError)) => Err SessionUnavailable
  | Err (Raised e) => Err (SessionRaised e)
  | Err IllTyped => Err SessionIllTyped
  end.

(** [_session]. *)
Definition session_of_record (record : obj) : store_res AnalysisSession :=
  match get record "session" with
  | JObj payload =>
      s ← unavailable_decode (of_json (JObj payload) : dres AnalysisSession);
      match get record "state_revision" with
      | JInt revision =>
          if revision <? 0 then Err SessionUnavailable
          else if negb (sn_state_revision s =? revision) then Err SessionUnavailable
          else if negb (json_eqb (to_json (sn_status s)) (get record "status")) then Err SessionUnavailable
          else match field record "pending" with
               | Some p => if negb (eqb (truthy p) (requires_reconciliation s)) then Err SessionUnavailable else Ok s
               | None => Ok s
               end
      | _ => Err SessionUnavailable
      end
  | _ => Err SessionUnavailable
  end.

(** Where the operating system may fail an operation: at the lock, before the
    temporary file replaces the record, or after. *)
Inductive os_fault := LockFails | WriteFails | SyncFails.

(** [_write_record] at the time the clock shows. *)
Definition write_record (fault : option os_fault) (now : Z) (dir : directory) (key : string) (s : AnalysisSession) :
    directory * store_res () :=
  let written := dict_set dir key (Payload (JObj (session_record s now))) in
  match fault with
  | None => (written, Ok ())
  | Some SyncFails => (written, Err SessionUnavailable)
  | Some _ => (dir, Err SessionUnavailable)
  end.

Definition lock_fails (fault : option os_fault) : bool :=
  match fault with Some LockFails => true | _ => false end.

(** [os.path.exists], which follows links. *)
Definition path_exists (dir : directory) (key : string) : bool :=
  match dict_get dir key with None | Some (Symlink true) => false | Some _ => true end.

(** [FileSessionStore.create]. *)
Definition store_create (fault : option os_fault) (now : Z) (dir : directory) (s : AnalysisSession) :
    directory * store_res () :=
  match session_key (sn_session_id s) with
  | Err e => (dir, Err e)
  | Ok key =>
      if lock_fails fault then (dir, Err SessionUnavailable)
      else if path_exists dir key then (dir, Err SessionConflict)
      else write_record fault now dir key s
  end.

(** [FileSessionStore.load]. *)
Definition store_load (fault : option os_fault) (dir : directory) (id : string) : store_res AnalysisSession :=
  key ← session_key id;
  if lock_fails fault then Err SessionUnavailable
  else record ← read_record dir key id; session_of_record record.

(** [FileSessionStore.compare_and_swap]. *)
Definition store_cas (fault : option os_fault) (now : Z) (dir : directory) (id : string) (expected : Z)
    (s : AnalysisSession) : directory * store_res () :=
  if negb (String.eqb (sn_session_id s) id) then (dir, Err (SessionRaised ValueError))
  else if negb (sn_state_revision s =? expected + 1) then (dir, Err (SessionRaised ValueError))
  else
    match (key ← session_key id;
           if lock_fails fault then Err SessionUnavailable
           else record ← read_record dir key id; current ← session_of_record record; Ok (key, current)) with
    | Err e => (dir, Err e)
    | Ok (key, current) =>
        if negb (sn_state_revision current =? expected) then (dir, Err SessionConflict)
        else write_record fault now dir key s
    end.

(** [_record_summaries]: every record, in the order of the file names. *)
Definition record_summaries (dir : directory) : store_res (list obj) :=
  mapM (λ e : string * stored_file, match e.2 with Payload (JObj d) => Ok d | _ => Err SessionUnavailable end)
    (merge_sort (λ a b : string * stored_file, str_le a.1 b.1) dir).

(** [_is_pending_record]. *)
Definition is_pending_record (record : obj) : dres bool :=
  match field record "pending" with
  | Some p => Ok (truthy p)
  | None => status ← (x ← req record "status"; of_json x); Ok (negb (terminal_status status))
  end.

Definition entry_le (a b : Z * string) : Prop := if decide (a.1 = b.1) then str_le a.2 b.2 else a.1 ≤ b.1.
#[export] Instance entry_le_dec : RelDecision entry_le.
Proof. intros a b. unfold entry_le. destruct (decide (a.1 = b.1)); apply _. Defined.

(** [list_pending]. *)
Definition list_pending (dir : directory) (limit : Z) : store_res (list string) :=
  if limit <=? 0 then Err (SessionRaised ValueError)
  else
    records ← record_summaries dir;
    pending ← unavailable_decode (mapM (λ r, p ← is_pending_record r;
                if p : bool then
                  updated ← (x ← req r "updated_at_ms"; py_int x);
                  id ← (x ← req r "session_id"; as_str x);
                  Ok (Some (updated, id))
                else Ok None) records);
    Ok (snd <$> take (Z.to_nat limit) (merge_sort entry_le (omap id pending))).

(** [_retention_metadata]. *)
Definition retention_metadata (record : obj) : store_res (Z * string) :=
  unavailable_decode
    (expires ← (x ← req record "expires_at_ms"; py_int x);
     id ← (x ← req record "session_id"; as_str x); Ok (expires, id)).

(** One candidate of a pruning pass, under its lock. *)
Definition prune_one (fault : option os_fault) (now_ms : Z) (dir : directory) (id : string) :
    directory * store_res bool :=
  match (key ← session_key id;
         if lock_fails fault then Err SessionUnavailable
         else match read_record dir key id with
              | Err SessionNotFound => Ok None
              | Err e => Err e
              | Ok record =>
                  m ← retention_metadata record;
                  Ok (if now_ms <? m.1 then None else Some key)
              end) with
  | Err e => (dir, Err e)
  | Ok None => (dir, Ok false)
  | Ok (Some key) =>
      match fault with
      | Some WriteFails => (dir, Err SessionUnavailable)
      | _ => (filter (λ e, e.1 ≠ key) dir, Ok true)
      end
  end.

Fixpoint prune_all (faults : nat → option os_fault) (now_ms : Z) (ids : list string) (removed : Z) (dir : directory) :
    directory * store_res Z :=
  match ids with
  | [] => (dir, if (0 <? removed) && match faults 0%nat with Some SyncFails => true | _ => false end
                then Err SessionUnavailable else Ok removed)
  | id :: ids =>
      match prune_one (faults (S (length ids))) now_ms dir id with
      | (dir, Err e) => (dir, Err e)
      | (dir, Ok b) => prune_all faults now_ms ids (if b : bool then removed + 1 else removed) dir
      end
  end.

(** [prune_expired]. *)
Definition prune_expired (faults : nat → option os_fault) (now_ms : Z) (limit : option Z) (dir : directory) :
    directory * store_res Z :=
  let batch := default (prune_batch_size retention) limit in
  if batch <=? 0 then (dir, Err (SessionRaised ValueError))
  else
    match (records ← record_summaries dir; mapM retention_metadata records) with
    | Err e => (dir, Err e)
    | Ok entries =>
        let expired := merge_sort entry_le (filter (λ e, e.1 ≤ now_ms) entries) in
        prune_all faults now_ms (snd <$> take (Z.to_nat batch) expired) 0 dir
    end.
End FileStore.

(** ** The contract *)

(** What [DistributedCoordinator] relies on: linearizable operations, any of
    which may fail.  [holds st id s]: the session durable under [id] is [s].
    An operation that reports a failure other than a lost race may have taken
    effect. *)
Class DurableSessionStore (S : Type) := {
  holds : S → string → AnalysisSession → Prop;
  load : S → string → store_res AnalysisSession → Prop;
  create : S → AnalysisSession → S → store_res () → Prop;
  compare_and_swap : S → string → Z → AnalysisSession → S → store_res () → Prop;
  writes st id s st' := holds st' id s ∧ ∀ id' x, id' ≠ id → (holds st' id' x ↔ holds st id' x);
  holds_unique st id s s' : holds st id s → holds st id s' → s = s';
  load_holds st id s : load st id (Ok s) → holds st id s;
  create_spec st s st' r :
    valid s → 0 ≤ sn_state_revision s → create st s st' r →
    (st' = st ∧ r ≠ Ok ()) ∨
    (r ≠ Err SessionConflict ∧ (∀ x, ¬ holds st (sn_session_id s) x) ∧ writes st (sn_session_id s) s st');
  cas_spec st id e s st' r :
    valid s → 0 ≤ e → compare_and_swap st id e s st' r →
    (st' = st ∧ r ≠ Ok ()) ∨
    (r ≠ Err SessionConflict ∧ sn_session_id s = id ∧ sn_state_revision s = e + 1 ∧
     (∃ cur, holds st id cur ∧ sn_state_revision cur = e) ∧ writes st id s st')
}.

(** ** The file store keeps the contract *)

Section FileStoreLaws.
Context (retention : SessionRetentionPolicy).

Lemma json_eqb_str a b : json_eqb (JStr a) (JStr b) = bool_decide (a = b).
Proof. cbn. destruct (String.eqb_spec a b); [by rewrite bool_decide_true|by rewrite bool_decide_false]. Qed.

Lemma status_eqb (st : SessionStatus) : json_eqb (to_json st) (to_json st) = true.
Proof. by destruct st. Qed.

(** A record that was written is read back as its session. *)
Lemma written_session s now :
  valid s → 0 ≤ sn_state_revision s → session_of_record (session_record retention s now) = Ok s.
Proof.
  intros Hv Hr. unfold session_of_record.
  change (get (session_record retention s now) "session") with (to_json s).
  destruct (to_json s) as [| | | | | |payload] eqn:E; try discriminate E. rewrite <- E, (of_to_json s Hv).
  cbn [unavailable_decode mbind res_bind].
  change (get (session_record retention s now) "state_revision") with (JInt (sn_state_revision s)). cbv iota.
  destruct (Z.ltb_spec (sn_state_revision s) 0); [lia|]. rewrite Z.eqb_refl. cbn [negb].
  change (get (session_record retention s now) "status") with (to_json (sn_status s)). rewrite status_eqb.
  change (field (session_record retention s now) "pending") with (Some (JBool (requires_reconciliation s))).
  cbn [truthy negb]. by rewrite eqb_reflx.
Qed.

Definition held (dir : directory) (id : string) (s : AnalysisSession) : Prop := store_load None dir id = Ok s.

Lemma held_iff dir id s key :
  session_key id = Ok key →
  held dir id s ↔ (r ← read_record dir key id; session_of_record r) = Ok s.
Proof. intros Hk. unfold held, store_load. by rewrite Hk. Qed.

(** Only the record of one identifier changes. *)
Lemma written_held now dir key s :
  session_key (sn_session_id s) = Ok key → valid s → 0 ≤ sn_state_revision s →
  (∀ x r, dict_get dir key = Some x → x = Payload (JObj r) → json_eqb (get r "session_id") (JStr (sn_session_id s)) = true) →
  let dir' := dict_set dir key (Payload (JObj (session_record retention s now))) in
  held dir' (sn_session_id s) s ∧
  ∀ id x, id ≠ sn_session_id s → (held dir' id x ↔ held dir id x).
Proof.
  intros Hk Hv Hr Hmine dir'. split.
  - apply (held_iff _ _ _ key Hk). unfold read_record, dir'. rewrite dict_get_set_eq.
    change (get (session_record retention s now) "session_id") with (JStr (sn_session_id s)).
    rewrite json_eqb_str, bool_decide_true by done. by apply written_session.
  - intros id x Hne. unfold held, store_load. destruct (session_key id) as [k|e]; [|done]. cbn [mbind res_bind lock_fails].
    unfold read_record, dir'. destruct (decide (key = k)) as [<-|Hkk]; [|by rewrite dict_get_set_ne].
    rewrite dict_get_set_eq. change (get (session_record retention s now) "session_id") with (JStr (sn_session_id s)).
    rewrite json_eqb_str, bool_decide_false by done. cbn [mbind res_bind]. split; [done|].
    destruct (dict_get dir key) as [[| |[| | | | | |r]]|] eqn:E; try done.
    destruct (json_eqb (get r "session_id") (JStr id)) eqn:Ej; [|done]. cbn. exfalso.
    specialize (Hmine _ r eq_refl eq_refl). destruct (get r "session_id"); try discriminate Ej.
    rewrite json_eqb_str in *. apply bool_decide_eq_true in Ej, Hmine. congruence.
Qed.

(** A write of a record under its own identifier. *)
Lemma write_spec fault now dir key s dir' r :
  session_key (sn_session_id s) = Ok key → valid s → 0 ≤ sn_state_revision s →
  (∀ x r, dict_get dir key = Some x → x = Payload (JObj r) → json_eqb (get r "session_id") (JStr (sn_session_id s)) = true) →
  write_record retention fault now dir key s = (dir', r) →
  (dir' = dir ∧ r ≠ Ok ()) ∨
  (r ≠ Err SessionConflict ∧ held dir' (sn_session_id s) s ∧
   ∀ id x, id ≠ sn_session_id s → (held dir' id x ↔ held dir id x)).
Proof.
  intros Hk Hv Hr Hmine. unfold write_record.
  destruct fault as [[]|]; intros [= <- <-]; [by left|by left|right|right];
    (split; [done|]); by apply written_held.
Qed.

Lemma create_holds fault now dir s dir' r :
  valid s → 0 ≤ sn_state_revision s → store_create retention fault now dir s = (dir', r) →
  (dir' = dir ∧ r ≠ Ok ()) ∨
  (r ≠ Err SessionConflict ∧ (∀ x, ¬ held dir (sn_session_id s) x) ∧ held dir' (sn_session_id s) s ∧
   ∀ id x, id ≠ sn_session_id s → (held dir' id x ↔ held dir id x)).
Proof.
  intros Hv Hr. unfold store_create. destruct (session_key (sn_session_id s)) as [key|e] eqn:Hk; [|intros [= <- <-]; by left].
  destruct (lock_fails fault); [intros [= <- <-]; by left|].
  unfold path_exists. destruct (dict_get dir key) as [[[]| |j]|] eqn:E; try (intros [= <- <-]; by left); intros Hw;
  (destruct (write_spec fault now dir key s dir' r Hk Hv Hr ltac:(intros; congruence) Hw) as [H|(H1 & H2 & H3)]; [by left|right];
   split_and!; [done| |done|done]; intros x Hx; apply (held_iff _ _ _ key Hk) in Hx; unfold read_record in Hx; by rewrite E in Hx).
Qed.

Lemma cas_holds fault now dir id e s dir' r :
  valid s → 0 ≤ e → store_cas retention fault now dir id e s = (dir', r) →
  (dir' = dir ∧ r ≠ Ok ()) ∨
  (r ≠ Err SessionConflict ∧ sn_session_id s = id ∧ sn_state_revision s = e + 1 ∧
   (∃ cur, held dir id cur ∧ sn_state_revision cur = e) ∧ held dir' id s ∧
   ∀ id' x, id' ≠ id → (held dir' id' x ↔ held dir id' x)).
Proof.
  intros Hv He. unfold store_cas. destruct (String.eqb_spec (sn_session_id s) id) as [<-|]; cbn [negb]; [|intros [= <- <-]; by left].
  destruct (Z.eqb_spec (sn_state_revision s) (e + 1)) as [Hrev|]; cbn [negb]; [|intros [= <- <-]; by left].
  destruct (session_key (sn_session_id s)) as [key|] eqn:Hk; [cbn [mbind res_bind]|intros [= <- <-]; by left].
  destruct (lock_fails fault); [intros [= <- <-]; by left|].
  destruct (read_record dir key (sn_session_id s)) as [rec|] eqn:Er; [cbn [mbind res_bind]|intros [= <- <-]; by left].
  destruct (session_of_record rec) as [cur|] eqn:Ec; [cbn [mbind res_bind]|intros [= <- <-]; by left].
  destruct (Z.eqb_spec (sn_state_revision cur) e) as [Hcur|]; cbn [negb]; [|intros [= <- <-]; by left]. intros Hw.
  destruct (write_spec fault now dir key s dir' r Hk Hv ltac:(lia)) as [H|(H1 & H2 & H3)]; [| done|by left|right].
  { intros x r0 Hx ->. unfold read_record in Er. rewrite Hx in Er. by destruct (json_eqb (get r0 "session_id") _). }
  split_and!; [done|done|done| |done|done]. exists cur. split; [|done].
  apply (held_iff _ _ _ key Hk). by rewrite Er.
Qed.

#[export] Instance FileSessionStore : DurableSessionStore directory.
Proof.
  refine {|
  holds := held;
  load dir id r := ∃ fault, r = store_load fault dir id;
  create dir s dir' r := ∃ fault now, store_create retention fault now dir s = (dir', r);
  compare_and_swap dir id e s dir' r := ∃ fault now, store_cas retention fault now dir id e s = (dir', r)
  |}.
  - intros dir id s s' H H'. unfold held in *. congruence.
  - intros dir id s ([f|] & H); [|done]. unfold held, store_load in *.
    destruct (session_key id); [|done]. cbn [mbind res_bind lock_fails] in *. by destruct f.
  - intros dir s dir' r Hv Hr (f & now & H). destruct (create_holds f now dir s dir' r Hv Hr H) as [|(H1 & H2 & H3 & H4)]; [by left|].
    right. by split_and!.
  - intros dir id e s dir' r Hv He (f & now & H).
    destruct (cas_holds f now dir id e s dir' r Hv He H) as [|(H1 & H2 & H3 & H4 & H5 & H6)]; [by left|].
    right. by split_and!.
Defined.

Lemma dict_get_without {A} (d : list (string * A)) key k :
  dict_get (filter (λ e : string * A, e.1 ≠ key) d) k = if decide (k = key) then None else dict_get d k.
Proof.
  induction d as [|[k' a] d IH]; [by destruct (decide (k = key))|]. rewrite filter_cons. cbn [dict_get].
  destruct (decide ((k', a).1 ≠ key)) as [Hk|Hk%dec_stable]; cbn in Hk |- *; rewrite IH;
    repeat destruct (decide _); try done; congruence.
Qed.

(** Pruning forgets expired records only, and changes no other. *)
Lemma prune_one_holds fault now dir id dir' r :
  prune_one fault now dir id = (dir', r) → ∀ id' s, held dir' id' s → held dir id' s.
Proof.
  unfold prune_one. destruct (session_key id ≫= _) as [[key|]|e]; try (by intros [= <- <-]).
  assert (∀ id' s, held (filter (λ e, e.1 ≠ key) dir) id' s → held dir id' s) as H.
  { intros id' s. unfold held, store_load. destruct (session_key id') as [k|]; [|done]. cbn [mbind res_bind lock_fails].
    unfold read_record. pose proof (dict_get_without dir key k) as E. unfold directory, dict in *. rewrite E.
    by destruct (decide (k = key)). }
  destruct fault as [[]|]; intros [= <- <-]; done.
Qed.

Lemma prune_all_holds faults now ids removed dir dir' r :
  prune_all faults now ids removed dir = (dir', r) → ∀ id s, held dir' id s → held dir id s.
Proof.
  revert removed dir. induction ids as [|i ids IH]; intros removed dir; cbn [prune_all]; [by intros [= <- _]|].
  destruct (prune_one _ now dir i) as [d [b|e]] eqn:E.
  - intros H id s Hh. eapply prune_one_holds; [exact E|]. by eapply IH.
  - intros [= <- _]. by eapply prune_one_holds.
Qed.

Lemma prune_holds faults now limit dir dir' r :
  prune_expired retention faults now limit dir = (dir', r) → ∀ id s, held dir' id s → held dir id s.
Proof.
  unfold prune_expired. cbv zeta. destruct (_ <=? 0); [by intros [= <- _]|].
  destruct (record_summaries dir ≫= _) as [entries|e]; [|by intros [= <- _]]. apply prune_all_holds.
Qed.
End FileStoreLaws.

(** ** Properties *)

(** C21: the file store keeps the contract of a durable store, wherever the
    operating system fails it.  A record that was written is read back as the
    very session; creating needs that nothing is stored under the identifier,
    replacing that exactly the expected revision is; a lost race changes
    nothing, no operation touches the session of another identifier, and
    pruning never brings anything back. *)
Theorem file_store_keeps_contract retention fault now dir s dir' :
  valid s → 0 ≤ sn_state_revision s →
  let id := sn_session_id s in
  let untouched := ∀ id' x, id' ≠ id → (held dir' id' x ↔ held dir id' x) in
  (∀ r, store_create retention fault now dir s = (dir', r) →
     (dir' = dir ∧ r ≠ Ok ()) ∨
     (r ≠ Err SessionConflict ∧ (∀ x, ¬ held dir id x) ∧ held dir' id s ∧ untouched)) ∧
  (∀ e r, 0 ≤ e → store_cas retention fault now dir id e s = (dir', r) →
     (dir' = dir ∧ r ≠ Ok ()) ∨
     (r ≠ Err SessionConflict ∧ sn_state_revision s = e + 1 ∧
      (∃ cur, held dir id cur ∧ sn_state_revision cur = e) ∧ held dir' id s ∧ untouched)) ∧
  (∀ faults limit r, prune_expired retention faults now limit dir = (dir', r) → ∀ id' x, held dir' id' x → held dir id' x).
Proof.
  intros Hv Hr id untouched. split_and!.
  - intros r. by apply create_holds.
  - intros e r He H. destruct (cas_holds retention fault now dir id e s dir' r Hv He H) as [|(H1 & _ & H2 & H3 & H4 & H5)];
      [by left|right]. by split_and!.
  - intros faults limit r. apply prune_holds.
Qed.

Lemma file_store_keeps_contract_witness :
  held (store_create default_retention None 5 [] demo_start).1 "s-1" demo_start ∧
  (store_create default_retention None 6 (store_create default_retention None 5 [] demo_start).1 demo_start).2 =
    Err SessionConflict.
Proof.
  assert ((store_create default_retention None 5 [] demo_start).2 = Ok ()) as Hok by (vm_compute; reflexivity).
  assert ((store_create default_retention None 6 (store_create default_retention None 5 [] demo_start).1 demo_start).2 =
    Err SessionConflict) as Hc by (vm_compute; reflexivity).
  split; [|exact Hc]. clear Hc. destruct (store_create default_retention None 5 [] demo_start) as [dir r] eqn:E. cbn in Hok |- *.
  assert (valid demo_start) as Hv by apply (sc_valid _ (proj1 (session_reachable_inv _ demo_start_reachable))).
  assert (0 <= sn_state_revision demo_start) as Hr by (vm_compute; discriminate).
  destruct (file_store_keeps_contract default_retention None 5 [] demo_start dir Hv Hr) as (Hcreate & _).
  destruct (Hcreate r E) as [[_ Hne]|(_ & _ & Hheld & _)]; [by rewrite Hok in Hne|exact Hheld].
Defined.
