(* ===== verification/Distributed.v ===== *)
(** The distributed coordinator (src/python/cutracer/service/distributed.py).

    Every method of [DistributedCoordinator] is a program over the actions it
    performs: operations of the session store and calls of what surrounds it.
    Any number of methods run at once, each action of each one a step of the
    system, over any store that keeps the contract [DurableSessionStore].

    [depth] is how many activations of [_dispatch] the interpreter still has room
    for; beyond it the code raises [RecursionError]. *)
From S2P Require Import Prelude.
From S2P Require Import PyStr.
From S2P Require Import PyDict.
From S2P Require Import Json.
From S2P Require Import PyText.
From S2P Require Import Sha256.
From S2P Require Import Contracts.
From S2P Require Import Results.
From S2P Require Import Experiments.
From S2P Require Import SessionContracts.
From S2P Require Import Equality.
From S2P Require Import Triage.
From S2P Require Import SanitizerResults.
From S2P Require Import Policy.
From S2P Require Import SessionValidation.
From S2P Require Import Session.
From S2P Require Import SessionLaws.
From S2P Require Import SessionProperties.
From S2P Require Import LocalDriver.
From S2P Require Import RunSummaries.
From S2P Require Import SessionStore.
From stdpp Require Import relations.
Local Open Scope Z_scope.

(** ** Programs over actions *)

Inductive coord_error :=
| OfStore (e : session_error)
| OfSession (e : serr)
| OfOutside (e : exn)
| Contention                      (* the [RuntimeError] of [_apply] *)
| FanoutFailed                    (* the [RuntimeError] of [_create_discovery_children] *)
| RecursionError.

Inductive action :=
| Load (id : string)
| Create (s : AnalysisSession)
| Swap (id : string) (expected : Z) (s : AnalysisSession)
| BeforeDispatch
| SubmitMast (id : string) (revision : Z) (experiments : list ExperimentSpec)
| SubmitTurn (id : string) (revision : Z)
| Publish (report : SessionReport)
| DecideTriage (s : AnalysisSession)
| RecordBaselines (s : AnalysisSession).

(** What an action gives back; a call outside the store may raise anything. *)
Definition reply (a : action) : Type :=
  match a with
  | Load _ => store_res AnalysisSession
  | Create _ | Swap _ _ _ => store_res ()
  | BeforeDispatch | SubmitMast _ _ _ | SubmitTurn _ _ | RecordBaselines _ => res coord_error ()
  | Publish _ => res coord_error (option ArtifactRef)
  | DecideTriage _ => res coord_error TriageDecision
  end.

Inductive prog (A : Type) : Type :=
| Ret (a : A)
| Raise (e : coord_error)
| Act (a : action) (k : reply a → prog A).
Arguments Ret {A} a.
Arguments Raise {A} e.
Arguments Act {A} a k.

Fixpoint bind {A B} (m : prog A) (f : A → prog B) : prog B :=
  match m with
  | Ret a => f a
  | Raise e => Raise e
  | Act a k => Act a (λ r, bind (k r) f)
  end.

#[export] Instance prog_ret : MRet prog := λ A a, Ret a.
#[export] Instance prog_bind : MBind prog := λ A B f m, bind m f.

(** [try: m except Exception as e: h]. *)
Fixpoint catch {A} (m : prog A) (h : coord_error → prog A) : prog A :=
  match m with
  | Ret a => Ret a
  | Raise e => h e
  | Act a k => Act a (λ r, catch (k r) h)
  end.

(** The value of a call, or its exception. *)
Definition returned {A} (r : res coord_error A) : prog A := match r with Ok a => Ret a | Err e => Raise e end.
Definition pure_step {A} (r : sres A) : prog A := match r with Ok a => Ret a | Err e => Raise (OfSession e) end.
Definition of_store {A} (r : store_res A) : prog A := match r with Ok a => Ret a | Err e => Raise (OfStore e) end.

Definition load_session (id : string) : prog AnalysisSession := Act (Load id) of_store.
Definition cas_session (id : string) (expected : Z) (s : AnalysisSession) : prog () := Act (Swap id expected s) of_store.
Definition ask (a : action) (k : reply a → prog ()) : prog () := Act a k.

(** ** Admission *)

Definition set_admission_digest (digest : string) (s : AnalysisSession) : AnalysisSession :=
  mkSession (sn_session_id s) (sn_unit s) (sn_status s) (sn_evidence s) (sn_budget s) (sn_pending s)
    (sn_completed s) (sn_fingerprints s) (sn_round_index s) (sn_submitted s) (sn_turns s)
    (sn_report s) (sn_triage s) (sn_history s) (sn_discovery_plan s) (sn_child_tools s)
    (sn_child_enable_stress s) (sn_child_stress s) (sn_child_session_ids s)
    (sn_termination_reason s) (sn_publication s) (sn_publication_error s) (sn_state_revision s)
    (sn_schema_version s) (Some digest) (sn_published_report s).

(** [session_admission_digest]. *)
Definition session_admission_digest (u : WorkUnit) (b : SessionBudget) (p : InitialCampaignPolicy) (max_kernels : Z)
    (shared : list SanitizerSweepResult) : string :=
  str (sha256_hexdigest (json_dumps (JObj
    [("unit", to_json u); ("budget", to_json b); ("sanitizer_tools", jlist JStr (sanitizer_tools p));
     ("stress_options", to_json (stress_options p)); ("enable_stress", JBool (enable_stress p));
     ("max_kernels", JInt max_kernels); ("shared_sanitizer_results", jlist to_json shared)]))).

Definition MAX_CAS_ATTEMPTS : nat := 8.

(** ** The coordinator *)

Section Coordinator.
Context (guard : option ExperimentGuardPolicy).

(** [self._before_dispatch()], where there is one. *)
Definition before_dispatch (gated : bool) : prog () :=
  if gated then Act BeforeDispatch returned else Ret ().

(** A reducer; its flag is what the callback's closure notes. *)
Definition reducer : Type := AnalysisSession → prog (Transition * bool).

Definition plain (f : AnalysisSession → sres Transition) : reducer := λ s, t ← pure_step (f s); Ret (t, true).

Section Dispatch.
Context (gated : bool) (dispatch : Transition → prog AnalysisSession).

(** [_apply]; the payloads of one object are equal, whatever floats it holds.  A
    lost race, even one raised while dispatching, starts over. *)
Fixpoint apply_attempts (id : string) (f : reducer) (n : nat) : prog (AnalysisSession * bool) :=
  match n with
  | O => Raise Contention
  | S n =>
      current ← load_session id;
      tb ← f current;
      let '(t, flag) := tb in
      if bool_decide (length (effects t) = 0%nat) &&
         (bool_decide (next t = current) || json_eqb (to_json (next t)) (to_json current))
      then Ret (current, flag)
      else
        let s := set_state_revision (sn_state_revision current + 1) (next t) in
        catch (_ ← cas_session id (sn_state_revision current) s;
               r ← dispatch (mkTransition s (effects t)); Ret (r, flag))
          (λ e, match e with OfStore SessionConflict => apply_attempts id f n | _ => Raise e end)
  end.

Definition apply (id : string) (f : reducer) : prog (AnalysisSession * bool) := apply_attempts id f MAX_CAS_ATTEMPTS.

(** [_record_triage_if_pending]. *)
Definition record_triage_if_pending : reducer := λ current,
  if bool_decide (sn_status current = WaitingTriage) then
    d ← Act (DecideTriage current) returned; t ← pure_step (record_triage_decision current d); Ret (t, true)
  else Ret (mkTransition current [], true).

(** [resume]. *)
Definition resume (id : string) : prog AnalysisSession :=
  s ← load_session id; t ← pure_step (resume_session s); dispatch t.

(** [start]. *)
Definition start (id : string) (u : WorkUnit) (budget : option SessionBudget) (policy : option InitialCampaignPolicy)
    (max_kernels : Z) (shared : list SanitizerSweepResult) : prog AnalysisSession :=
  let p := default default_policy policy in
  let b := default default_budget budget in
  let digest := session_admission_digest u b p max_kernels shared in
  t ← pure_step (match kernel u with
                 | None => create_discovery_session id u (Some b) (Some p) max_kernels
                 | Some _ => create_session id u (Some b) (Some p) shared
                 end);
  let s := set_admission_digest digest (set_state_revision 1 (next t)) in
  Act (Create s) (λ r, match r with
    | Ok _ => dispatch (mkTransition s (effects t))
    | Err SessionConflict =>
        existing ← load_session id;
        if bool_decide (sn_admission_digest existing = Some digest) then resume id
        else Raise (OfSession (Failed (Raised ValueError)))
    | Err e => Raise (OfStore e)
    end).

(** The loop of [_create_discovery_children]: the children started, and whether
    any failed. *)
Fixpoint start_children (parent : AnalysisSession) (policy : InitialCampaignPolicy) (shared : list SanitizerSweepResult)
    (units : list WorkUnit) (ids : list string) (failed : bool) : prog (list string * bool) :=
  match units with
  | [] => Ret (ids, failed)
  | u :: units =>
      _ ← before_dispatch gated;
      let id := discovery_child_session_id (sn_session_id parent) u in
      started ← catch (_ ← start id u (Some (sn_budget parent)) (Some policy) DEFAULT_MAX_DISCOVERED_KERNELS shared; Ret true)
                  (λ _, Ret false);
      start_children parent policy shared units (if started : bool then ids ++ [id] else ids) (failed || negb started)
  end.

(** [_create_discovery_children]. *)
Definition create_discovery_children (parent : AnalysisSession) : prog AnalysisSession :=
  match dr_discovery <$> eb_discovery (sn_evidence parent) with
  | [Some manifest] =>
      stress ← pure_step (match sn_child_stress parent with Some o => Ok o | None => raise_value_error end);
      let policy := mkPolicy (sn_child_tools parent) stress (sn_child_enable_stress parent) in
      _ ← pure_step (lift_e (InitialCampaignPolicy_check policy));
      let shared := List.filter (λ r, is_target_scoped_sanitizer (sw_tool r)) (eb_sanitizer (sn_evidence parent)) in
      units ← pure_step (lift_e (pin_discovered_work_units (sn_unit parent) (dm_kernels manifest)));
      ids ← start_children parent policy shared units [] false;
      if ids.2 : bool then Raise FanoutFailed
      else r ← apply (sn_session_id parent) (plain (λ s, record_discovery_children_started s ids.1)); Ret r.1
  | _ => Raise (OfSession (Failed (Raised ValueError)))
  end.

(** One effect of a transition on the session dispatched so far. *)
Definition run_coordinated (session : AnalysisSession) (e : SessionEffect) : prog AnalysisSession :=
  _ ← before_dispatch gated;
  match e with
  | SubmitExperiments experiments =>
      _ ← Act (SubmitMast (sn_session_id session) (sn_state_revision session) experiments) returned; Ret session
  | RunTriage => Ret session
  | CreateChildSessions => create_discovery_children session
  | RunReasoner => _ ← Act (SubmitTurn (sn_session_id session) (sn_state_revision session)) returned; Ret session
  | PublishReport =>
      report ← pure_step (build_session_report session);
      artifact ← Act (Publish report) returned;
      published ← pure_step (record_report_published session artifact);
      _ ← Act (RecordBaselines (next published)) returned;
      r ← apply (sn_session_id session) (plain (λ s, record_report_published s artifact)); Ret r.1
  end.

Fixpoint run_all (session : AnalysisSession) (l : list SessionEffect) : prog AnalysisSession :=
  match l with
  | [] => Ret session
  | e :: l => s ← run_coordinated session e; run_all s l
  end.

Definition is_triage (e : SessionEffect) : bool := match e with RunTriage => true | _ => false end.
Definition is_children (e : SessionEffect) : bool := match e with CreateChildSessions => true | _ => false end.

Definition dispatch_body (t : Transition) : prog AnalysisSession :=
  let alone := bool_decide (length (effects t) = 1%nat) in
  if existsb is_triage (effects t) && negb alone then Raise (OfSession (Failed (Raised ValueError)))
  else if existsb is_children (effects t) && negb alone then Raise (OfSession (Failed (Raised ValueError)))
  else
    s ← run_all (next t) (effects t);
    if existsb is_triage (effects t) then r ← apply (sn_session_id s) record_triage_if_pending; Ret r.1
    else Ret s.
End Dispatch.

(** [_dispatch]. *)
Fixpoint dispatch (gated : bool) (depth : nat) (t : Transition) : prog AnalysisSession :=
  match depth with
  | O => Raise RecursionError
  | S depth => dispatch_body gated (dispatch gated depth) t
  end.
End Coordinator.

(** ** The methods *)

Section Methods.
Context (guard : option ExperimentGuardPolicy) (gated : bool) (depth : nat).

Definition update (id : string) (f : reducer) : prog (AnalysisSession * bool) :=
  apply (dispatch gated depth) id f.

(** What may be reported as stale: the session as it is. *)
Definition stale (s : AnalysisSession) : prog (Transition * bool) := Ret (mkTransition s [], false).

Definition on_experiment_result (id : string) (r : ExperimentResult) : prog (AnalysisSession * bool) :=
  update id (plain (λ s, record_experiment_result s r)).

Definition on_experiment_envelope (e : ExperimentEnvelope) : prog (AnalysisSession * bool) :=
  update (en_session_id e) (λ s,
    if sn_state_revision s <? en_revision e
    then Raise (OfSession (Rejected "future_dispatch_revision"))
    else t ← pure_step (record_experiment_result s (en_result e));
         Ret (t, negb (bool_decide (en_experiment_id e ∈ sn_completed s)))).

Definition on_reasoning_decision (id : string) (revision : Z) (d : AnalysisDecision) : prog (AnalysisSession * bool) :=
  update id (λ s,
    if negb (sn_state_revision s =? revision) then stale s
    else t ← pure_step (record_analysis_decision s d guard); Ret (t, true)).

Definition on_infrastructure_failure (id : string) (revision : Z) (reason : string) : prog (AnalysisSession * bool) :=
  update id (λ s,
    if negb ((sn_state_revision s =? revision) && negb (terminal_status (sn_status s))) then stale s
    else t ← pure_step (record_infrastructure_failure s reason); Ret (t, true)).

Definition on_report_publication_failure (id : string) (revision : Z) (reason : string) :
    prog (AnalysisSession * bool) :=
  update id (λ s,
    if negb ((sn_state_revision s =? revision) && bool_decide (sn_publication s = ReportPending)) then stale s
    else t ← pure_step (record_report_publication_failed s reason); Ret (t, true)).

Definition start_session (id : string) (u : WorkUnit) (budget : option SessionBudget)
    (policy : option InitialCampaignPolicy) (max_kernels : Z) (shared : list SanitizerSweepResult) :
    prog (AnalysisSession * bool) :=
  s ← start (dispatch gated depth) id u budget policy max_kernels shared; Ret (s, true).

Definition resume_coordinated (id : string) : prog (AnalysisSession * bool) :=
  s ← resume (dispatch gated depth) id; Ret (s, true).

(** A method, on inputs that passed the checks of their classes. *)
Inductive method : prog (AnalysisSession * bool) → Prop :=
| MethodResult id r : valid r → method (on_experiment_result id r)
| MethodEnvelope e : valid (en_result e) → method (on_experiment_envelope e)
| MethodDecision id revision d : valid d → method (on_reasoning_decision id revision d)
| MethodFailure id revision reason : method (on_infrastructure_failure id revision reason)
| MethodUnpublished id revision reason : method (on_report_publication_failure id revision reason)
| MethodStart id u b p n shared :
    valid u → valid_opt b → match p with Some q => policy_ok q | None => True end →
    method (start_session id u b p n shared)
| MethodResume id : method (resume_coordinated id).
End Methods.

(** ** The system *)

(** What happened, newest first: the writes that took effect, with what they
    replaced and who made them, and the calls outside the store. *)
Inductive event :=
| Wrote (who : nat) (before : option AnalysisSession) (s : AnalysisSession)
| Called (a : action).

Section System.
Context {S : Type} `{DurableSessionStore S}.
Context (guard : option ExperimentGuardPolicy) (gated : bool).

Record Sys := mkSys {
  durable : S;
  threads : list (prog (AnalysisSession * bool));
  trace : list event
}.

(** One action of thread [j].  A failed write leaves the store as it was, or
    took effect unnoticed. *)
Inductive act (j : nat) (σ : S) : ∀ a : action, reply a → S → list event → Prop :=
| act_load id r : load σ id r → act j σ (Load id) r σ []
| act_create_lost s r : create σ s σ r → act j σ (Create s) r σ []
| act_create s st' r : create σ s st' r → st' ≠ σ → act j σ (Create s) r st' [Wrote j None s]
| act_swap_lost id e s r : compare_and_swap σ id e s σ r → act j σ (Swap id e s) r σ []
| act_swap id e s st' r cur :
    compare_and_swap σ id e s st' r → st' ≠ σ → holds σ id cur →
    act j σ (Swap id e s) r st' [Wrote j (Some cur) s]
| act_before r : act j σ BeforeDispatch r σ [Called BeforeDispatch]
| act_mast id n l r : act j σ (SubmitMast id n l) r σ [Called (SubmitMast id n l)]
| act_turn id n r : act j σ (SubmitTurn id n) r σ [Called (SubmitTurn id n)]
| act_publish p r : act j σ (Publish p) r σ [Called (Publish p)]
| act_triage s r : (∀ d, r = Ok d → valid d) → act j σ (DecideTriage s) r σ [Called (DecideTriage s)]
| act_baselines s r : act j σ (RecordBaselines s) r σ [Called (RecordBaselines s)].

Inductive step : Sys → Sys → Prop :=
| step_start σ depth p :
    method guard gated depth p → step σ (mkSys (durable σ) (threads σ ++ [p]) (trace σ))
| step_act σ j a (k : reply a → prog (AnalysisSession * bool)) r st' evs :
    threads σ !! j = Some (Act a k) → act j (durable σ) a r st' evs →
    step σ (mkSys st' (<[j := k r]> (threads σ)) (evs ++ trace σ)).

(** From an empty store. *)
Definition runs_to (σ : Sys) : Prop :=
  ∃ st0, (∀ id s, ¬ holds st0 id s) ∧ rtc step (mkSys st0 [] []) σ.
End System.

(** ** What a step keeps, and what it asks for *)

Lemma admission_inv x s : session_inv s → session_inv (set_admission_digest x s).
Proof.
  intros [H [H1 H2 H3 H4 H5 H6 H7]]. split; [|by constructor].
  session_cases H. constructor; session_fields.
Qed.

Lemma owed_admission x s : owed (set_admission_digest x s) = owed s.
Proof. unfold owed, resume_session. cbn. by destruct (sn_status s); try destruct (bool_decide (sn_publication s = ReportPending)). Qed.

Lemma terminate_id u reason triage t :
  session_core u → terminate_inconclusive u reason triage = Ok t → sn_session_id (next t) = sn_session_id u.
Proof.
  intros H. unfold terminate_inconclusive. rewrite (core_clone _ H). cbn [mbind res_bind]. intros [= <-].
  by destruct triage.
Qed.

Lemma analysis_id s d g t :
  session_inv s → valid d → record_analysis_decision s d g = Ok t → sn_session_id (next t) = sn_session_id s.
Proof.
  intros [H Hsh] Hd. unfold record_analysis_decision.
  destruct (bool_decide_reflect (sn_status s = WaitingReasoner)) as [Est|]; cbn [negb]; [|done].
  assert (Z.of_nat (length (sn_turns s)) = sn_round_index s) as Ht by (apply (sh_turns _ Hsh); by rewrite Est).
  pose proof (with_turn_core s d H Hd Ht) as Hu. intros E. apply bind_ok in E as ([u o] & Eu & E).
  unfold record_reasoner_turn in Eu. rewrite (core_clone _ H) in Eu. cbn [mbind res_bind] in Eu. cbv zeta in Eu.
  change (set_turns (sn_turns s ++ [mkTurn (Z.of_nat (length (sn_turns s))) d []]) s) with (with_turn s d) in Eu.
  change (sn_session_id s) with (sn_session_id (with_turn s d)).
  assert (∀ reason v w, (t ← terminate_inconclusive (set_turns (note_last_turn [reason] (sn_turns (with_turn s d))) (with_turn s d)) reason None;
    Ok (set_turns (note_last_turn [reason] (sn_turns (with_turn s d))) (with_turn s d), Some t)) = Ok (v, w) →
    ∃ t', w = Some t' ∧ sn_session_id (next t') = sn_session_id (with_turn s d)) as Href.
  { intros reason v w Er. apply bind_ok in Er as (t' & Et & Er). injection Er as <- <-. exists t'. split; [done|].
    apply terminate_id in Et; [done|by apply core_notes]. }
  destruct (_ && _) in Eu; [destruct (Href _ _ _ Eu) as (t' & -> & Hid); by injection E as <-|].
  destruct (analysis_report_rejection s d); [destruct (Href _ _ _ Eu) as (t' & -> & Hid); by injection E as <-|].
  injection Eu as <- <-. revert Hu E. generalize (with_turn s d). clear. intros u Hu E. destruct (ad_kind d).
  all: try (unfold finish_with_report in E; destruct (ad_report d); [by injection E as <-|done]).
  destruct (max_rounds (sn_budget u) <=? sn_round_index u); [by apply terminate_id in E|].
  apply bind_ok in E as (ge & _ & E). cbv zeta in E.
  destruct (bool_decide (length (ge_experiments ge) = 0%nat)); [apply terminate_id in E; [done|by apply core_notes]|].
  destruct (_ <? _); [apply terminate_id in E; [done|by apply core_notes]|]. by injection E as <-.
Qed.

(** What a transition asks for is what its session is owed, or nothing. *)
Definition asks (t : Transition) : Prop := effects t = [] ∨ effects t = owed (next t).

Definition carries (s : AnalysisSession) (t : Transition) : Prop :=
  sn_session_id (next t) = sn_session_id s ∧ asks t.

Lemma result_carries s r t : session_inv s → record_experiment_result s r = Ok t → carries s t.
Proof.
  intros H E. destruct (record_result_accepted s r t (proj1 H) E) as [->|sp _ Hc _ Ht]; [by split; [|left]|].
  cbv zeta in Ht. destruct (bool_decide _); [|subst t; by split; [|left]].
  split; [|right; by destruct (owed_last s sp r t H Hc Ht)].
  assert (sn_session_id (next t) = sn_session_id (accept_result s sp r)) as ->; [|done].
  unfold after_last_result in Ht. destruct (is_some _).
  - destruct (eb_discovery _) as [|? [|]]; try done. destruct (negb _); by injection Ht as <-.
  - destruct (sp_phase sp); by injection Ht as <-.
Qed.

Lemma triage_carries s d t : session_inv s → valid d → record_triage_decision s d = Ok t → carries s t.
Proof.
  intros H Hd E. destruct (decide (sn_status s = WaitingTriage)) as [Est|Est].
  2: { unfold record_triage_decision in E. by rewrite bool_decide_false in E. }
  destruct (owed_triage s d H Est Hd) as (t' & E' & _ & He & _). rewrite E in E'. injection E' as <-.
  split; [|by right]. unfold record_triage_decision in E. rewrite bool_decide_true in E by done. cbn [negb] in E.
  destruct (td_outcome d); [|..]; try (rewrite (core_clone _ (proj1 H)) in E; by injection E as <-).
  by apply terminate_id in E; [|apply H].
Qed.

Lemma analysis_carries s d g t : session_inv s → valid d → record_analysis_decision s d g = Ok t → carries s t.
Proof.
  intros H Hd E. split; [by eapply analysis_id|]. destruct (decide (sn_status s = WaitingReasoner)) as [Est|Est].
  2: { unfold record_analysis_decision in E. by rewrite bool_decide_false in E. }
  destruct (analysis_total_inv s d g H Est Hd) as (t' & E' & _ & Ht). rewrite E in E'. injection E' as <-.
  right. by apply (owed_turn s t H Est).
Qed.

(** The other reducers ask for nothing. *)
Ltac quiet H E :=
  repeat match type of E with
  | (if ?b then _ else _) = _ => destruct b; try done
  | match ?x with _ => _ end = _ => destruct x; try done
  end;
  try (rewrite (core_clone _ (proj1 H)) in E; cbn [mbind res_bind] in E); injection E as <-; by split; [|left].

Lemma failure_carries s reason t : session_inv s → record_infrastructure_failure s reason = Ok t → carries s t.
Proof. intros H E. unfold record_infrastructure_failure in E. cbv zeta in E. quiet H E. Qed.

Lemma published_carries s a t : session_inv s → record_report_published s a = Ok t → carries s t.
Proof. intros H E. unfold record_report_published in E. quiet H E. Qed.

Lemma unpublished_carries s reason t : session_inv s → record_report_publication_failed s reason = Ok t → carries s t.
Proof. intros H E. unfold record_report_publication_failed in E. cbv zeta in E. quiet H E. Qed.

Lemma children_carries s ids t : session_inv s → record_discovery_children_started s ids = Ok t → carries s t.
Proof. intros H E. unfold record_discovery_children_started in E. quiet H E. Qed.

Lemma terminate_asks u reason triage t : terminate_inconclusive u reason triage = Ok t → asks t.
Proof.
  unfold terminate_inconclusive. intros E. apply bind_ok in E as (u' & _ & E). injection E as <-.
  right. by destruct triage.
Qed.

Lemma create_asks id u b p shared t : create_session id u b p shared = Ok t → asks t.
Proof.
  unfold create_session. destruct (negb _); [done|]. intros E. apply bind_ok in E as (plan & _ & E). cbv zeta in E.
  apply bind_ok in E as (c & _ & E). destruct (_ <? _); [by eapply terminate_asks|].
  apply bind_ok in E as (fps & _ & E). injection E as <-. right. by destruct (negb _).
Qed.

Lemma create_discovery_asks id u b p n t : create_discovery_session id u b p n = Ok t → asks t.
Proof.
  unfold create_discovery_session. destruct (is_some _); [done|]. cbv zeta. intros E.
  apply bind_ok in E as ([] & _ & E). apply bind_ok in E as (first & _ & E). apply bind_ok in E as (plan & _ & E).
  destruct (_ <? _); [by eapply terminate_asks|]. apply bind_ok in E as (fps & _ & E). injection E as <-. by right.
Qed.

(** ** What may be done, from the sessions a program has seen *)

(** A session as [start] stores it. *)
Definition started (s : AnalysisSession) : Prop :=
  ∃ s0 digest, session_start s0 ∧ s = set_admission_digest digest (set_state_revision 1 s0).

(** A session as [_apply] stores it over [cur]. *)
Definition committed (cur s : AnalysisSession) : Prop :=
  ∃ u, session_step cur u ∧ sn_session_id u = sn_session_id cur ∧
    s = set_state_revision (sn_state_revision cur + 1) u.

Lemma started_inv s : started s → session_inv s ∧ sn_state_revision s = 1.
Proof. intros (s0 & x & H & ->). split; [|done]. by apply admission_inv, revision_inv, start_inv. Qed.

Lemma committed_inv cur s : session_inv cur → committed cur s →
  session_inv s ∧ sn_state_revision s = sn_state_revision cur + 1 ∧ sn_session_id s = sn_session_id cur.
Proof. intros H (u & Hu & Hid & ->). split; [|done]. by apply revision_inv, (session_step_inv cur). Qed.

(** An action that is justified by one of the sessions [K]. *)
Definition justified (K : list AnalysisSession) (a : action) : Prop :=
  match a with
  | Load _ | BeforeDispatch => True
  | Create s => started s
  | Swap id e s => ∃ cur, cur ∈ K ∧ sn_session_id cur = id ∧ sn_state_revision cur = e ∧ committed cur s
  | SubmitMast id n l =>
      ∃ s, s ∈ K ∧ sn_session_id s = id ∧ sn_state_revision s = n ∧ waiting_results (sn_status s) = true ∧ sn_pending s = l
  | SubmitTurn id n =>
      ∃ s, s ∈ K ∧ sn_session_id s = id ∧ sn_state_revision s = n ∧ sn_status s = WaitingReasoner
  | Publish p => ∃ s, s ∈ K ∧ sn_publication s = ReportPending ∧ build_session_report s = Ok p
  | DecideTriage s => s ∈ K ∧ sn_status s = WaitingTriage
  | RecordBaselines p =>
      ∃ s artifact t, s ∈ K ∧ sn_publication s = ReportPending ∧ record_report_published s artifact = Ok t ∧ p = next t
  end.

(** What the store and the triage policy answer. *)
Definition answer_ok (a : action) : reply a → Prop :=
  match a with
  | Load id => λ r, ∀ s, r = Ok s → session_inv s ∧ sn_session_id s = id
  | DecideTriage _ => λ r, ∀ d, r = Ok d → valid d
  | _ => λ _, True
  end.

(** What is learnt from an answer. *)
Definition learn (K : list AnalysisSession) (a : action) : reply a → list AnalysisSession :=
  match a with
  | Load _ => λ r, match r with Ok s => s :: K | Err _ => K end
  | Create s => λ r, match r with Ok _ => s :: K | Err _ => K end
  | Swap _ _ s => λ r, match r with Ok _ => s :: K | Err _ => K end
  | _ => λ _, K
  end.

Lemma learn_grows K a r s : s ∈ K → s ∈ learn K a r.
Proof. destruct a; cbn; try done; destruct r; try done; by right. Qed.

Lemma justified_grows K K' a : (∀ s, s ∈ K → s ∈ K') → justified K a → justified K' a.
Proof. intros Hk. destruct a; cbn; naive_solver. Qed.

(** Run after the sessions [K] have been seen, every action of the program is
    justified, and what it returns satisfies [Q]. *)
Fixpoint wp {A} (p : prog A) (Q : list AnalysisSession → res coord_error A → Prop) (K : list AnalysisSession) : Prop :=
  match p with
  | Ret a => Q K (Ok a)
  | Raise e => Q K (Err e)
  | Act a k => justified K a ∧ ∀ r, answer_ok a r → wp (k r) Q (learn K a r)
  end.

Lemma does_mono {A} (p : prog A) (Q Q' : list AnalysisSession → res coord_error A → Prop) K :
  wp p Q K → (∀ K' r, (∀ s, s ∈ K → s ∈ K') → Q K' r → Q' K' r) → wp p Q' K.
Proof.
  revert K. induction p as [a|e|a k IH]; intros K; cbn; [auto|auto|]. intros [Hj Hk] HQ. split; [done|].
  intros r Hr. apply (IH r); [by apply Hk|]. intros K' x HK. apply HQ. intros s Hs. by apply HK, learn_grows.
Qed.

Lemma does_bind {A B} (m : prog A) (f : A → prog B) Q K :
  wp m (λ K' r, match r with Ok a => wp (f a) Q K' | Err e => Q K' (Err e) end) K → wp (a ← m; f a) Q K.
Proof.
  revert K. induction m as [a|e|a k IH]; intros K; cbn; [done|done|]. intros [Hj Hk]. split; [done|].
  intros r Hr. by apply IH, Hk.
Qed.

Lemma does_catch {A} (m : prog A) (h : coord_error → prog A) Q K :
  wp m (λ K' r, match r with Ok a => Q K' (Ok a) | Err e => wp (h e) Q K' end) K → wp (catch m h) Q K.
Proof.
  revert K. induction m as [a|e|a k IH]; intros K; cbn; [done|done|]. intros [Hj Hk]. split; [done|].
  intros r Hr. by apply IH, Hk.
Qed.

(** Only what is returned matters. *)
Definition returns {A} (P : list AnalysisSession → A → Prop) (K : list AnalysisSession) (r : res coord_error A) : Prop :=
  match r with Ok a => P K a | Err _ => True end.

Lemma wp_then {A B} (m : prog A) (f : A → prog B) P (Q : list AnalysisSession → B → Prop) K :
  wp m (returns P) K → (∀ K' a, (∀ s, s ∈ K → s ∈ K') → P K' a → wp (f a) (returns Q) K') →
  wp (a ← m; f a) (returns Q) K.
Proof.
  intros Hm Hf. apply does_bind. eapply does_mono; [exact Hm|]. intros K' [a|e] HK H; [by apply Hf|exact I].
Qed.

Lemma wp_pure {A} (x : sres A) (P : list AnalysisSession → A → Prop) K :
  (∀ a, x = Ok a → P K a) → wp (pure_step x) (returns P) K.
Proof. destruct x as [a|e]; cbn; auto. Qed.

Lemma wp_weaken {A} (p : prog A) (P Q : list AnalysisSession → A → Prop) K :
  wp p (returns P) K → (∀ K' a, (∀ s, s ∈ K → s ∈ K') → P K' a → Q K' a) → wp p (returns Q) K.
Proof. intros Hp HQ. eapply does_mono; [exact Hp|]. intros K' [a|e] HK; cbn; auto. Qed.

(** ** Every method keeps to what is justified *)

Definition seen (id : string) (K : list AnalysisSession) (s : AnalysisSession) : Prop :=
  s ∈ K ∧ session_inv s ∧ sn_session_id s = id.

(** A reducer leaves its session alone, or takes an allowed step. *)
Definition reducer_ok (f : reducer) : Prop := ∀ s K, s ∈ K → session_inv s →
  wp (f s) (returns (λ _ tb, tb.1 = mkTransition s [] ∨ (session_step s (next tb.1) ∧ carries s tb.1))) K.

Definition dispatches (disp : Transition → prog AnalysisSession) : Prop := ∀ t K,
  next t ∈ K → session_inv (next t) → asks t → wp (disp t) (returns (seen (sn_session_id (next t)))) K.

Lemma load_ok id K : wp (load_session id) (returns (seen id)) K.
Proof.
  split; [exact I|]. intros [s|e] Hr; [|exact I]. destruct (Hr s eq_refl) as [Hi Hid]. split; [by left|done].
Qed.

Lemma plain_ok f : (∀ s t, session_inv s → f s = Ok t → session_step s (next t) ∧ carries s t) → reducer_ok (plain f).
Proof.
  intros Hf s K Hs Hi. unfold plain. eapply wp_then; [apply (wp_pure _ (λ _ t, f s = Ok t)); done|].
  intros K' t _ E. right. by apply Hf.
Qed.

Section Dispatched.
Context (gated : bool) (disp : Transition → prog AnalysisSession) (Hdisp : dispatches disp).

Lemma apply_ok id f n K : reducer_ok f → wp (apply_attempts disp id f n) (returns (λ K' r, seen id K' r.1)) K.
Proof.
  intros Hf. revert K. induction n as [|n IH]; intros K; [exact I|]. cbn [apply_attempts].
  eapply wp_then; [apply load_ok|]. intros K1 cur _ (Hc & Hi & Hid).
  eapply wp_then; [by apply Hf|]. intros K2 [t flag] HK2 Ht. cbn [fst] in Ht.
  pose proof (HK2 _ Hc) as Hc2.
  destruct (bool_decide (length (effects t) = 0%nat) && _) eqn:Eb; [by split|].
  assert (session_step cur (next t) ∧ carries cur t) as (Hstep & Hid' & Ha).
  { destruct Ht as [->|Ht]; [|done]. cbn [effects next length] in Eb. by rewrite !bool_decide_true in Eb by done. }
  cbv zeta. set (s := set_state_revision _ _).
  assert (committed cur s) as Hcs by by exists (next t).
  apply does_catch. eapply does_bind. split.
  { exists cur. split_and!; done. }
  intros [[]|e] _; cbn [of_store wp]; [|destruct e; try exact I; apply IH].
  apply does_bind. eapply does_mono.
  - apply (Hdisp (mkTransition s (effects t))); [by left|by destruct (committed_inv cur s Hi Hcs)|].
    destruct Ha as [Ha|Ha]; [by left|right]. cbn [effects next]. rewrite Ha. unfold s. by rewrite owed_revision.
  - intros K3 [s'|e] HK3 H; [|destruct e as [[]| | | | |]; try exact I; apply IH].
    cbn. destruct H as (H1 & H2 & H3). split_and!; [done|done|]. rewrite H3. cbn. by rewrite Hid'.
Qed.

Lemma gate_ok (Q : list AnalysisSession → () → Prop) K : (∀ u, Q K u) → wp (before_dispatch gated) (returns Q) K.
Proof. intros HQ. destruct gated; [|apply HQ]. split; [exact I|]. intros [u|e] _; [apply HQ|exact I]. Qed.

Lemma ask_ok a (k : reply a → prog ()) K (Q : list AnalysisSession → () → Prop) :
  justified K a → (∀ r, answer_ok a r → wp (k r) (returns Q) (learn K a r)) → wp (Act a k) (returns Q) K.
Proof. intros Hj Hk. by split. Qed.

Lemma coord_resume_ok id K : wp (resume disp id) (returns (seen id)) K.
Proof.
  unfold resume. eapply wp_then; [apply load_ok|]. intros K1 s _ (Hs & Hi & Hid).
  eapply wp_then; [apply (wp_pure _ (λ _ t, resume_session s = Ok t)); done|]. intros K2 t HK2 Et.
  assert (next t = s ∧ effects t = owed s) as [Hn He].
  { unfold owed. rewrite Et. split; [|done]. unfold resume_session in Et.
    destruct (sn_status s); try (by injection Et as <-); destruct (bool_decide _); by injection Et as <-. }
  rewrite <- Hid, <- Hn. apply Hdisp; [rewrite Hn; by apply HK2|by rewrite Hn|right; by rewrite Hn].
Qed.

Lemma start_ok id u b p n shared K :
  valid u → valid_opt b → match p with Some q => policy_ok q | None => True end →
  wp (start disp id u b p n shared) (returns (λ K' s, ∃ i, seen i K' s)) K.
Proof.
  intros Hu Hb Hp. unfold start. cbv zeta. set (digest := session_admission_digest _ _ _ _ _).
  pose proof (default_budget_valid b Hb) as Hbv.
  assert (policy_ok (default default_policy p)) as Hpv by (destruct p; [done|apply default_policy_ok]).
  eapply (wp_then _ _ (λ _ t, session_start (next t) ∧ asks t)).
  { apply wp_pure. intros t E. destruct (kernel u).
    - split; [by eapply (StartSession id u (Some _) (Some _))|by eapply create_asks].
    - split; [by eapply (StartDiscovery id u (Some _) (Some _))|by eapply create_discovery_asks]. }
  intros K1 t _ (Hst & Ha). set (s := set_admission_digest digest (set_state_revision 1 (next t))).
  assert (started s) as Hs by by exists (next t), digest.
  split; [done|]. intros [[]|e] _.
  - eapply wp_weaken; [apply Hdisp; [by left|by apply started_inv|]|intros K2 x _ Hx; by eexists].
    destruct Ha as [Ha|Ha]; [by left|right]. cbn [effects next]. rewrite Ha. unfold s.
    by rewrite owed_admission, owed_revision.
  - destruct e; try exact I. eapply wp_then; [apply load_ok|]. intros K2 ex _ _. destruct (bool_decide _); [|exact I].
    eapply wp_weaken; [apply coord_resume_ok|]. intros K3 x _ Hx. by exists id.
Qed.
End Dispatched.

(** *** Children *)

Lemma child_valid parent k : valid parent → valid (child_unit parent k).
Proof. by intros [_ Ho]. Qed.

Section Children.
Context (gated : bool) (disp : Transition → prog AnalysisSession) (Hdisp : dispatches disp).

Lemma start_children_ok parent policy shared units ids failed K :
  valid (sn_budget parent) → policy_ok policy → Forall valid units →
  wp (start_children gated disp parent policy shared units ids failed) (returns (λ _ _, True)) K.
Proof.
  intros Hb Hp Hu. revert ids failed K. induction Hu as [|u units Hu _ IH]; intros ids failed K; [exact I|].
  cbn [start_children]. eapply wp_then; [by apply (gate_ok _ (λ _ _, True))|]. intros K1 [] _ _. cbv zeta.
  eapply (wp_then _ _ (λ _ _, True)); [|intros K2 b _ _; apply IH].
  apply does_catch. apply (does_mono _ (returns (λ _ (_ : bool), True))).
  - eapply (wp_then _ _ (λ _ _, True)); [|by intros K2 x _ _].
    eapply wp_weaken; [apply (start_ok disp Hdisp _ u (Some _) (Some policy)); [exact Hu|exact Hb|exact Hp]|done].
  - by intros K2 [x|e] _ _.
Qed.

Lemma children_ok parent K :
  session_inv parent →
  wp (create_discovery_children gated disp parent) (returns (seen (sn_session_id parent))) K.
Proof.
  intros Hi. unfold create_discovery_children. destruct (dr_discovery <$> _) as [|[m|] [|]]; try exact I.
  pose proof (sc_valid _ (proj1 Hi)) as Hv.
  eapply (wp_then _ _ (λ _ o, sn_child_stress parent = Some o)).
  { apply wp_pure. intros o E. destruct (sn_child_stress parent); [by injection E as <-|done]. }
  intros K1 stress _ Hst. cbv zeta. set (policy := mkPolicy _ _ _).
  eapply (wp_then _ _ (λ _ _, InitialCampaignPolicy_check policy = Ok ())).
  { apply wp_pure. intros [] E. by apply lift_e_ok in E. }
  intros K2 [] _ Hpol.
  eapply (wp_then _ _ (λ _ units, Forall valid units)).
  { apply wp_pure. intros units E. apply lift_e_ok in E. unfold pin_discovered_work_units in E.
    destruct (kernel _); [done|]. injection E as <-. apply Forall_fmap, Forall_true. intros k. cbn. apply (child_valid (sn_unit parent) k), Hv. }
  intros K3 units _ Hu.
  eapply (wp_then _ _ (λ _ _, True)).
  { apply start_children_ok; [apply Hv| |done]. split; [done|].
    destruct Hv as (_ & _ & _ & _ & _ & _ & _ & Hc & _). by rewrite Hst in Hc. }
  intros K4 [ids failed] _ _. cbn [fst snd]. destruct failed; [exact I|].
  eapply wp_then; [apply apply_ok; [exact Hdisp|]|by intros K5 r _ Hr].
  apply plain_ok. intros s t Hs E. split; [by eapply StepChildren|by eapply children_carries].
Qed.
End Children.

(** *** Effects *)

Lemma owed_effect s e : owed s = [e] →
  match e with
  | SubmitExperiments l => waiting_results (sn_status s) = true ∧ sn_pending s = l
  | RunTriage => sn_status s = WaitingTriage
  | RunReasoner => sn_status s = WaitingReasoner
  | CreateChildSessions => sn_status s = WaitingChildren
  | PublishReport => sn_publication s = ReportPending
  end.
Proof.
  unfold owed, resume_session. destruct (sn_status s); cbn;
    try (destruct (bool_decide_reflect (sn_publication s = ReportPending)) as [Hp|]; cbn); intros [= <-]; done.
Qed.

Lemma triage_reducer_ok : reducer_ok record_triage_if_pending.
Proof.
  intros s K Hs Hi. unfold record_triage_if_pending. destruct (bool_decide_reflect (sn_status s = WaitingTriage)); [|by left].
  eapply (wp_then _ _ (λ _ d, valid d)).
  { split; [by split|]. intros [d|err] Hr; [|exact I]. by apply Hr. }
  intros K1 d _ Hd. eapply (wp_then _ _ (λ _ t, record_triage_decision s d = Ok t)); [by apply wp_pure|].
  intros K2 t _ E. right. split; [by eapply StepTriage|by eapply triage_carries].
Qed.

Section Effects.
Context (gated : bool) (disp : Transition → prog AnalysisSession) (Hdisp : dispatches disp).

Lemma effect_ok s e K :
  s ∈ K → session_inv s → owed s = [e] →
  wp (run_coordinated gated disp s e) (returns (seen (sn_session_id s))) K.
Proof.
  intros Hs Hi He%owed_effect. unfold run_coordinated.
  eapply wp_then; [by apply (gate_ok _ (λ _ _, True))|]. intros K1 [] HK1 _. apply HK1 in Hs. clear HK1.
  destruct e.
  - destruct He as [Hw Hp]. eapply (wp_then _ _ (λ K' _, s ∈ K')); [|by intros].
    split; [by exists s|]. intros [[]|err] _; done.
  - by apply children_ok.
  - by split.
  - eapply (wp_then _ _ (λ K' _, s ∈ K')); [|by intros]. split; [by exists s|]. intros [[]|err] _; done.
  - eapply (wp_then _ _ (λ K' p, s ∈ K' ∧ build_session_report s = Ok p)); [by apply wp_pure|]. intros K2 p _ [Hs2 Hp].
    eapply (wp_then _ _ (λ K' _, s ∈ K')); [split; [by exists s|]; intros [a|err] _; done|]. intros K3 a _ Hs3.
    eapply (wp_then _ _ (λ K' t, s ∈ K' ∧ record_report_published s a = Ok t)); [by apply wp_pure|]. intros K4 t _ [Hs4 Ht].
    eapply (wp_then _ _ (λ _ _, True)); [split; [by exists s, a, t|]; intros [[]|err] _; done|]. intros K5 [] _ _.
    eapply wp_then; [apply apply_ok; [exact Hdisp|]|by intros].
    apply plain_ok. intros u x Hu E. split; [by eapply StepPublished|by eapply published_carries].
Qed.

Lemma body_ok : dispatches (dispatch_body gated disp).
Proof.
  intros t K Hs Hi Ha. unfold dispatch_body. cbv zeta.
  assert (effects t = [] ∨ ∃ e, effects t = [e] ∧ owed (next t) = [e]) as [->|(e & -> & He)].
  { destruct Ha as [Ha|Ha]; [by left|]. rewrite Ha. destruct (owed_cases (next t)) as [[-> _]|[[e He] _]]; [by left|].
    right. by exists e. }
  - cbn. by split.
  - rewrite (bool_decide_true (length [e] = 1%nat)) by done. rewrite !andb_false_r. cbn [run_all existsb].
    eapply (wp_then _ _ (seen (sn_session_id (next t)))).
    { eapply wp_then; [by apply effect_ok|]. by intros K1 s _ H. }
    intros K1 s _ (H1 & H2 & H3). destruct (is_triage e || false); [|by split].
    eapply wp_then; [apply apply_ok; [exact Hdisp|apply triage_reducer_ok]|]. intros K2 r _ Hr. cbn. by rewrite <- H3.
Qed.
End Effects.

Lemma dispatch_ok gated depth : dispatches (dispatch gated depth).
Proof. induction depth as [|depth IH]; [by intros t K _ _ _|]. by apply body_ok. Qed.

Lemma stale_ok s K (Q : list AnalysisSession → Transition * bool → Prop) :
  (∀ K', Q K' (mkTransition s [], false)) → wp (stale s) (returns Q) K.
Proof. intros H. apply H. Qed.

(** Every method does only what is justified. *)
Lemma method_ok guard gated depth p : method guard gated depth p → wp p (λ _ _, True) [].
Proof.
  assert (∀ id f, reducer_ok f → wp (update gated depth id f) (λ _ _, True) []) as Hup.
  { intros id f Hf. eapply does_mono; [apply apply_ok; [apply dispatch_ok|exact Hf]|done]. }
  intros [id r Hr|e Hr|id rev d Hd|id rev reason|id rev reason|id u b q n shared Hu Hb Hq|id].
  - apply Hup, plain_ok. intros s t Hs E. split; [by eapply StepResult|by eapply result_carries].
  - apply Hup. intros s K Hs Hi. destruct (_ <? _); [exact I|].
    eapply (wp_then _ _ (λ _ t, record_experiment_result s (en_result e) = Ok t)); [by apply wp_pure|].
    intros K1 t _ E. right. split; [by eapply StepResult|by eapply result_carries].
  - apply Hup. intros s K Hs Hi. destruct (negb _); [by left|].
    eapply (wp_then _ _ (λ _ t, record_analysis_decision s d guard = Ok t)); [by apply wp_pure|].
    intros K1 t _ E. right. split; [by eapply StepAnalysis|by eapply analysis_carries].
  - apply Hup. intros s K Hs Hi. destruct (negb _); [by left|].
    eapply (wp_then _ _ (λ _ t, record_infrastructure_failure s reason = Ok t)); [by apply wp_pure|].
    intros K1 t _ E. right. split; [by eapply StepFailure|by eapply failure_carries].
  - apply Hup. intros s K Hs Hi. destruct (negb _); [by left|].
    eapply (wp_then _ _ (λ _ t, record_report_publication_failed s reason = Ok t)); [by apply wp_pure|].
    intros K1 t _ E. right. split; [by eapply StepUnpublished|by eapply unpublished_carries].
  - apply does_mono with (Q := returns (λ _ _, True)); [|done]. eapply (wp_then _ _ (λ _ _, True)); [|done].
    eapply wp_weaken; [by apply start_ok; [apply dispatch_ok|..]|done].
  - apply does_mono with (Q := returns (λ _ _, True)); [|done]. eapply (wp_then _ _ (λ _ _, True)); [|done].
    eapply wp_weaken; [apply coord_resume_ok, dispatch_ok|done].
Qed.

(** ** The invariant of the system *)

(** The session last written under [id]. *)
Fixpoint latest (tr : list event) (id : string) : option AnalysisSession :=
  match tr with
  | [] => None
  | Wrote _ _ s :: tr => if decide (sn_session_id s = id) then Some s else latest tr id
  | Called _ :: tr => latest tr id
  end.

(** Every session written. *)
Definition written (tr : list event) : list AnalysisSession :=
  omap (λ e, match e with Wrote _ _ s => Some s | Called _ => None end) tr.

Lemma written_cons j b s tr : written (Wrote j b s :: tr) = s :: written tr.
Proof. done. Qed.

(** Every write is a start where there was nothing, or a step over the session
    it replaces; every call is justified by a session written before it. *)
Fixpoint trace_ok (tr : list event) : Prop :=
  match tr with
  | [] => True
  | Wrote _ before s :: tr =>
      before = latest tr (sn_session_id s) ∧
      match before with None => started s | Some cur => committed cur s end ∧ trace_ok tr
  | Called a :: tr => justified (written tr) a ∧ trace_ok tr
  end.

Lemma latest_written tr id s : latest tr id = Some s → s ∈ written tr ∧ sn_session_id s = id.
Proof.
  induction tr as [|[j b x|a] tr IH]; cbn; [done| |auto].
  destruct (decide (sn_session_id x = id)) as [<-|]; [intros [= <-]; split; [by left|done]|].
  intros H. destruct (IH H). split; [by right|done].
Qed.

(** The revisions of a session grow along its history. *)
Lemma written_before tr s : trace_ok tr → s ∈ written tr →
  session_inv s ∧ 1 ≤ sn_state_revision s ∧
  ∃ cur, latest tr (sn_session_id s) = Some cur ∧ (cur = s ∨ sn_state_revision s < sn_state_revision cur).
Proof.
  revert s. induction tr as [|[j b x|a] tr IH]; intros s; cbn; [by intros _ H%not_elem_of_nil| |].
  - intros (Hb & Hx & Htr) Hs.
    assert (session_inv x ∧ 1 ≤ sn_state_revision x ∧
      ∀ c, latest tr (sn_session_id x) = Some c → sn_state_revision x = sn_state_revision c + 1) as (Hi & Hr & Hc).
    { destruct b as [cur|].
      - destruct (latest_written _ _ _ (eq_sym Hb)) as [Hw _]. destruct (IH cur Htr Hw) as (Hi & H1 & _).
        destruct (committed_inv cur x Hi Hx) as (Hix & Hrev & _). split_and!; [done|lia|]. intros c Hl.
        rewrite Hl in Hb. injection Hb as ->. done.
      - destruct (started_inv x Hx) as [Hi H1]. split_and!; [done|lia|]. intros c Hl. by rewrite Hl in Hb. }
    change (s ∈ x :: written tr) in Hs. apply elem_of_cons in Hs as [->|Hs].
    + split_and!; [done|done|]. exists x. rewrite decide_True by done. split; [done|by left].
    + destruct (IH s Htr Hs) as (His & H1 & cur & Hl & Hcur). split_and!; [done|done|].
      destruct (decide (sn_session_id x = sn_session_id s)) as [E|E]; [|by exists cur].
      exists x. split; [done|right]. rewrite E in Hc. specialize (Hc _ Hl). destruct Hcur as [->|]; lia.
  - intros [_ Htr] Hs. by apply IH.
Qed.

Lemma same_revision tr s cur : trace_ok tr → s ∈ written tr →
  latest tr (sn_session_id s) = Some cur → sn_state_revision s = sn_state_revision cur → s = cur.
Proof.
  intros Htr Hs Hl Hr. destruct (written_before tr s Htr Hs) as (_ & _ & c & Hl' & [->|Hlt]); [congruence|].
  rewrite Hl in Hl'. injection Hl' as ->. lia.
Qed.

(** A revision counts the writes. *)
Definition writes_to (id : string) (tr : list event) : list AnalysisSession :=
  filter (λ s, sn_session_id s = id) (written tr).

Lemma revision_counts tr id s :
  trace_ok tr → latest tr id = Some s → sn_state_revision s = Z.of_nat (length (writes_to id tr)).
Proof.
  assert (∀ tr', latest tr' id = None → writes_to id tr' = []) as Hnone.
  { induction tr' as [|[j b x|a] tr' IH]; cbn [latest]; [done| |exact IH]. destruct (decide (sn_session_id x = id)); [done|].
    intros H. unfold writes_to. rewrite written_cons. rewrite filter_cons_False by done. by apply IH. }
  revert s. induction tr as [|[j b x|a] tr IH]; intros s; cbn [trace_ok latest]; [done| |].
  - intros (Hb & Hx & Htr) Hl. unfold writes_to. rewrite written_cons.
    destruct (decide (sn_session_id x = id)) as [<-|Hne].
    + injection Hl as <-. rewrite filter_cons_True by done. cbn [length]. fold (writes_to (sn_session_id x) tr).
      destruct b as [cur|].
      * specialize (IH cur Htr (eq_sym Hb)). destruct (latest_written _ _ _ (eq_sym Hb)) as [Hw _].
        destruct (written_before tr cur Htr Hw) as (Hi & _). destruct (committed_inv cur x Hi Hx) as (_ & -> & _). lia.
      * destruct (started_inv x Hx) as [_ ->]. by rewrite Hnone.
    + rewrite filter_cons_False by done. by apply IH.
  - intros [_ Htr] Hl. by apply IH.
Qed.

Section Invariant.
Context {S : Type} `{DurableSessionStore S}.
Context (guard : option ExperimentGuardPolicy) (gated : bool).

Record sys_inv (σ : Sys (S := S)) : Prop := {
  si_store : ∀ id s, holds (durable σ) id s ↔ latest (trace σ) id = Some s;
  si_trace : trace_ok (trace σ);
  si_threads : ∀ j p, threads σ !! j = Some p →
    ∃ K, (∀ s, s ∈ K → s ∈ written (trace σ)) ∧ wp p (λ _ _, True) K
}.

(** What one action does to the store and the trace, and tells its thread. *)
Lemma coord_act_inv j st tr a r st' evs K :
  (∀ id s, holds st id s ↔ latest tr id = Some s) → trace_ok tr → (∀ s, s ∈ K → s ∈ written tr) →
  justified K a → act j st a r st' evs →
  (∀ id s, holds st' id s ↔ latest (evs ++ tr) id = Some s) ∧ trace_ok (evs ++ tr) ∧
  answer_ok a r ∧ ∀ s, s ∈ learn K a r → s ∈ written (evs ++ tr).
Proof.
  intros Hst Htr HK Hj Hact.
  assert (justified (written tr) a) as Hjw by (eapply justified_grows; [exact HK|exact Hj]).
  destruct Hact as [id r Hl|s r Hc|s st' r Hc Hne|id e s r Hc|id e s st' r cur Hc Hne Hcur
    |r|id n l r|id n r|p r|s r Hd|s r]; cbn [app].
  - split_and!; [done|done| |].
    + intros s ->. apply load_holds, Hst in Hl. destruct (latest_written _ _ _ Hl) as [Hw Hid].
      split; [by apply (written_before tr s)|done].
    + intros s. destruct r as [x|e]; cbn; [|auto]. intros [->|Hs]%elem_of_cons; [|auto].
      apply load_holds, Hst in Hl. exact (proj1 (latest_written _ _ _ Hl)).
  - destruct (started_inv s Hj) as [Hi Hr].
    destruct (create_spec st s st r (sc_valid _ (proj1 Hi)) ltac:(lia) Hc) as [[_ Hno]|(_ & Hnone & Hw & _)].
    + split_and!; [done|done|done|]. intros x. destruct r as [[]|e]; [done|auto].
    + by destruct (Hnone s).
  - destruct (started_inv s Hj) as [Hi Hr].
    destruct (create_spec st s st' r (sc_valid _ (proj1 Hi)) ltac:(lia) Hc) as [[-> _]|(_ & Hnone & Hw & Hframe)]; [done|].
    assert (latest tr (sn_session_id s) = None) as Hl.
    { destruct (latest tr (sn_session_id s)) as [x|] eqn:E; [|done]. by apply Hst, Hnone in E. }
    split_and!; [|by cbn; rewrite Hl|done|].
    + intros id x. cbn. destruct (decide (sn_session_id s = id)) as [<-|]; [|by rewrite Hframe, Hst].
      split; [|by intros [= <-]]. intros Hx. by rewrite (holds_unique _ _ _ _ Hx Hw).
    + intros x. rewrite written_cons, elem_of_cons.
      destruct r as [[]|e]; cbn; rewrite ?elem_of_cons; naive_solver.
  - destruct Hjw as (cur & Hcur & Hid & He & Hcm). destruct (written_before tr cur Htr Hcur) as (Hi & H1 & _).
    destruct (committed_inv cur s Hi Hcm) as (His & Hrs & _).
    destruct (cas_spec st id e s st r (sc_valid _ (proj1 His)) ltac:(lia) Hc) as [[_ Hno]|(_ & _ & Hr & (c & Hc1 & Hc2) & Hw & _)].
    + split_and!; [done|done|done|]. intros x. destruct r as [[]|err]; [done|auto].
    + rewrite (holds_unique _ _ _ _ Hw Hc1) in Hr. lia.
  - destruct Hjw as (c & Hcw & Hid & He & Hcm). destruct (written_before tr c Htr Hcw) as (Hi & H1 & _).
    destruct (committed_inv c s Hi Hcm) as (His & Hrs & Hids).
    destruct (cas_spec st id e s st' r (sc_valid _ (proj1 His)) ltac:(lia) Hc)
      as [[-> _]|(_ & Hsid & Hr & (c' & Hc1 & Hc2) & Hw & Hframe)]; [done|].
    rewrite (holds_unique _ _ _ _ Hc1 Hcur) in Hc2. apply Hst in Hcur.
    assert (c = cur) as <-.
    { apply (same_revision tr); [done|done|by rewrite Hid|lia]. }
    split_and!; [| |done|].
    + intros id' x. cbn. rewrite Hsid. destruct (decide (id = id')) as [<-|]; [|by rewrite Hframe, Hst].
      split; [|by intros [= <-]]. intros Hx. by rewrite (holds_unique _ _ _ _ Hx Hw).
    + cbn. rewrite Hsid. split_and!; [done|done|done].
    + intros x. rewrite written_cons, elem_of_cons.
      destruct r as [[]|err]; cbn; rewrite ?elem_of_cons; naive_solver.
  - done.
  - done.
  - done.
  - done.
  - split_and!; try done.
  - done.
Qed.

Lemma coord_step_inv σ σ' : sys_inv σ → step guard gated σ σ' → sys_inv σ'.
Proof.
  intros [Hst Htr Hth] Hs. destruct Hs as [σ depth p Hm|σ j a k r st' evs Hj Hact].
  - constructor; [done|done|]. cbn. intros i q Hq. apply lookup_app_Some in Hq as [Hq|[_ Hq]]; [by eapply Hth|].
    apply list_lookup_singleton_Some in Hq as [_ <-]. exists []. split; [|by eapply method_ok].
    intros s Hs. by apply not_elem_of_nil in Hs.
  - destruct (Hth j _ Hj) as (K & HK & Hjust & Hk).
    destruct (coord_act_inv j _ _ a r st' evs K Hst Htr HK Hjust Hact) as (H1 & H2 & H3 & H4).
    assert (∀ s, s ∈ written (trace σ) → s ∈ written (evs ++ trace σ)) as Hgrow.
    { intros s Hs. unfold written. rewrite omap_app, elem_of_app. by right. }
    constructor; [done|done|]. cbn. intros i q Hq. destruct (decide (i = j)) as [->|Hne].
    + rewrite list_lookup_insert_eq in Hq by (by eapply lookup_lt_Some). injection Hq as <-.
      exists (learn K a r). split; [done|by apply Hk].
    + rewrite list_lookup_insert_ne in Hq by done. destruct (Hth i q Hq) as (K' & HK' & Hq'). exists K'. auto.
Qed.

Lemma runs_inv σ : runs_to guard gated σ → sys_inv σ.
Proof.
  intros (st0 & Hempty & Hr).
  assert (sys_inv (mkSys st0 [] [])) as H0.
  { constructor; cbn; [|done|by intros j p Hj; rewrite lookup_nil in Hj].
    intros id s. split; [by intros Hh%Hempty|done]. }
  revert H0. induction Hr as [|a b c Hab _ IH]; [done|]. intros Ha. by apply IH, (coord_step_inv a).
Qed.
End Invariant.

Lemma trace_ok_app newer older : trace_ok (newer ++ older) → trace_ok older.
Proof. induction newer as [|[j b x|a] newer IH]; cbn; [done|tauto|tauto]. Qed.

(** C19: no update is lost.  However many coordinators work on however many
    sessions at once, over any store that keeps its contract and whose
    operations may fail at any point: what is stored under an identifier is the
    last session written there; every write creates a session by [start] where
    there was none, or takes one allowed step from exactly the session it
    replaces, so a revision counts the writes; and every stored session
    satisfies the invariant of the session state machine. *)
Theorem coordinators_lose_no_update {S : Type} `{DurableSessionStore S} guard gated σ :
  runs_to guard gated σ →
  (∀ id s, holds (durable σ) id s ↔ latest (trace σ) id = Some s) ∧
  (∀ newer j before s older, trace σ = newer ++ Wrote j before s :: older →
     before = latest older (sn_session_id s) ∧
     match before with None => started s | Some cur => committed cur s end) ∧
  (∀ id s, holds (durable σ) id s →
     session_inv s ∧ sn_session_id s = id ∧ sn_state_revision s = Z.of_nat (length (writes_to id (trace σ)))).
Proof.
  intros [Hst Htr _]%runs_inv. split; [exact Hst|]. split.
  - intros newer j before s older E. rewrite E in Htr. apply trace_ok_app in Htr as (H1 & H2 & _). done.
  - intros id s Hl%Hst. destruct (latest_written _ _ _ Hl) as [Hw Hid]. split; [by apply (written_before _ s Htr)|].
    split; [done|]. by apply revision_counts.
Qed.

(** C20: nothing is dispatched before it is durable.  Every experiment
    submitted, reasoner turn requested, report published, baseline advanced or
    triage decided was asked for by a session that had been written before, at
    the revision the call names: the experiments are those it has pending, the
    report is the one it is about to publish. *)
Theorem dispatched_only_when_durable {S : Type} `{DurableSessionStore S} guard gated σ newer a older :
  runs_to guard gated σ → trace σ = newer ++ Called a :: older → justified (written older) a.
Proof. intros [_ Htr _]%runs_inv E. rewrite E in Htr. by apply trace_ok_app in Htr as [Hj _]. Qed.

(** ** A run *)

Definition demo_method : prog (AnalysisSession * bool) := start_session true 5 "s-1" demo_unit None None 32 [].

(** The session that method stores. *)
Definition demo_stored : AnalysisSession :=
  set_admission_digest (session_admission_digest demo_unit default_budget default_policy 32 [])
    (set_state_revision 1 demo_start).

Definition demo_directory : directory :=
  (store_create default_retention None 0 [] demo_stored).1.

Lemma demo_created :
  create_session "s-1" demo_unit (Some default_budget) (Some default_policy) [] =
  Ok (mkTransition demo_start [SubmitExperiments (sn_pending demo_start)]).
Proof. vm_compute. reflexivity. Qed.

Lemma demo_method_acts : ∃ k k' k'',
  demo_method = Act (Create demo_stored) k ∧ k (Ok ()) = Act BeforeDispatch k' ∧
  k' (Ok ()) = Act (SubmitMast "s-1" 1 (sn_pending demo_start)) k''.
Proof.
  unfold demo_method, start_session, start.
  change (kernel demo_unit) with (Some (default (mkKernelId "" "" None) (kernel demo_unit))). cbv iota beta zeta.
  change (default default_policy None) with default_policy. change (default default_budget None) with default_budget.
  rewrite demo_created. cbn [pure_step].
  eexists _, _, _. split_and!; [reflexivity|reflexivity|reflexivity].
Qed.

Lemma demo_stored_inv : session_inv demo_stored.
Proof. apply admission_inv, revision_inv, session_reachable_inv, demo_start_reachable. Qed.

(** One [start], up to the call that submits its experiments. *)
Lemma demo_runs : ∃ p, runs_to (S := directory) (H := FileSessionStore default_retention) None true
  (mkSys demo_directory [p]
     [Called (SubmitMast "s-1" 1 (sn_pending demo_start)); Called BeforeDispatch; Wrote 0 None demo_stored]).
Proof.
  destruct demo_method_acts as (k & k' & k'' & E & E' & E''). exists (k'' (Ok ())). exists []. split.
  { intros id s Hh. unfold holds in Hh. cbn in Hh. unfold held, store_load in Hh. by destruct (session_key id). }
  eapply rtc_l; [apply (step_start None true (mkSys [] [] []) 5 demo_method)|].
  { apply MethodStart; [split; vm_compute; reflexivity|done|done]. }
  cbn [durable threads trace app]. rewrite E. eapply rtc_l.
  { eapply (step_act None true (mkSys [] [Act (Create demo_stored) k] []) 0 (Create demo_stored) k (Ok ()) demo_directory); [reflexivity|].
    apply act_create; [by exists None, 0|done]. }
  cbn [durable threads trace app list_insert insert list_alter]. rewrite E'. eapply rtc_l.
  { eapply (step_act None true (mkSys demo_directory [Act BeforeDispatch k'] [Wrote 0 None demo_stored]) 0 BeforeDispatch k' (Ok ())); [reflexivity|].
    apply act_before. }
  cbn [durable threads trace app list_insert insert list_alter]. rewrite E''. eapply rtc_l.
  { eapply (step_act None true (mkSys demo_directory [Act (SubmitMast "s-1" 1 (sn_pending demo_start)) k'']
      [Called BeforeDispatch; Wrote 0 None demo_stored]) 0 (SubmitMast "s-1" 1 (sn_pending demo_start)) k'' (Ok ())); [reflexivity|].
    apply act_mast. }
  apply rtc_refl.
Qed.

Lemma coordinators_lose_no_update_witness :
  ∃ σ : Sys (S := directory), runs_to (H := FileSessionStore default_retention) None true σ ∧
    latest (trace σ) "s-1" = Some demo_stored ∧ sn_state_revision demo_stored = Z.of_nat (length (writes_to "s-1" (trace σ))).
Proof.
  destruct demo_runs as [p Hp]. eexists. split; [exact Hp|].
  destruct (coordinators_lose_no_update None true _ Hp) as (Hst & _ & Hrev).
  assert (latest [Called (SubmitMast "s-1" 1 (sn_pending demo_start)); Called BeforeDispatch; Wrote 0 None demo_stored] "s-1"
    = Some demo_stored) as Hl by reflexivity.
  split; [exact Hl|]. apply (Hrev "s-1" demo_stored). apply Hst. exact Hl.
Defined.

Lemma dispatched_only_when_durable_witness :
  ∃ σ : Sys (S := directory), runs_to (H := FileSessionStore default_retention) None true σ ∧
    justified [demo_stored] (SubmitMast "s-1" 1 (sn_pending demo_start)).
Proof.
  destruct demo_runs as [p Hp]. eexists. split; [exact Hp|].
  exact (dispatched_only_when_durable None true _ [] _ [Called BeforeDispatch; Wrote 0 None demo_stored] Hp eq_refl).
Defined.
