(* ===== verification/TraceEvents.v ===== *)
(** Reading a trace for the memory-model audit: the first half of
    src/agentic/skills/audit-memory-model/scripts/trace_edges.py.

    A record is the fields of the decoded line that the script reads.  One
    event stands for one dynamic instruction of a warp, made from its
    memory-address record and its register record. *)
From S2P Require Import Prelude PyStr PyDict Regex.
From Stdlib Require Import Ascii.
From Stdlib Require String.
Local Open Scope Z_scope.

(** ** Constants and instruction classes *)

Definition GRANULE : Z := 16.
Definition FULL_MASK : Z := 0xFFFFFFFF.
Definition SHARED_LIMIT : Z := Z.shiftl 1 24.
Definition CLUSTER_WINDOW : Z := 16 * SHARED_LIMIT.

Inductive kind :=
| generic_r | generic_w | generic_rw | cpasync_w | async_w | async_r
| async_unresolved | async_desc | fence_s | mbar_tx | mbar_remote | mbar_arrive
| mbar_wait | mbar_init | bar_sync | bar_arv | warp_sync.
#[export] Instance kind_eq_dec : EqDecision kind.
Proof. solve_decision. Defined.

Definition kind_name (k : kind) : string :=
  match k with
  | generic_r => "generic_r" | generic_w => "generic_w" | generic_rw => "generic_rw"
  | cpasync_w => "cpasync_w" | async_w => "async_w" | async_r => "async_r"
  | async_unresolved => "async_unresolved" | async_desc => "async_desc" | fence_s => "fence_s"
  | mbar_tx => "mbar_tx" | mbar_remote => "mbar_remote" | mbar_arrive => "mbar_arrive"
  | mbar_wait => "mbar_wait" | mbar_init => "mbar_init" | bar_sync => "bar_sync"
  | bar_arv => "bar_arv" | warp_sync => "warp_sync"
  end.

Definition ACCESS_KINDS : list kind := [generic_r; generic_w; generic_rw; cpasync_w; async_w; async_r].

(** Where an instruction's operand is found. *)
Inductive operand := Lanes | Bracket0.

(** [^w\b] and [^(w|...)\b]; [re.match] anchors a pattern at the start. *)
Definition word (w : string) : re := (lit w · Wordb)%re.
Fixpoint any_of (ws : list string) : re :=
  match ws with [] => Eps | [w] => lit w | w :: r => (lit w ∥ any_of r)%re end.
Definition words (ws : list string) : re := (any_of ws · Wordb)%re.

(** Mnemonic pattern, kind, operand source, size in bytes ([Some 0]: extent unknown). *)
Definition OPCODES : list (re * (kind * option operand * option Z)) :=
  [ (word "LDSM", (generic_r, Some Lanes, Some 16));
    (word "LDS", (generic_r, Some Lanes, None));
    (word "STSM", (generic_w, Some Lanes, Some 16));
    (word "STS", (generic_w, Some Lanes, None));
    (words ["ATOMS"; "REDS"], (generic_rw, Some Lanes, None));
    (word "LDGSTS", (cpasync_w, Some Lanes, None));
    (word "UGETNEXTWORKID", (async_w, Some Bracket0, Some 16));
    (word "UTMALDG", (async_w, Some Bracket0, Some 0));
    (words ["UTMASTG"; "UTMAREDG"], (async_r, Some Bracket0, Some 0));
    (words ["UBLKCP"; "UBLKRED"], (async_unresolved, None, Some 0));
    (words ["UTCHMMA"; "UTCIMMA"; "UTCQMMA"; "UTCOMMA"; "UTCMMA"; "UTCCP"; "HGMMA"; "IGMMA"; "QGMMA"; "BGMMA"],
     (async_desc, None, Some 0));
    (word "FENCE.VIEW.ASYNC.S", (fence_s, None, Some 0));
    (lit "SYNCS.ARRIVE.TRANS64.RED.A0", (mbar_tx, None, Some 0));
    (lit "SYNCS.ARRIVE.TRANS64.A0", (mbar_tx, None, Some 0));
    (word "SYNCS.ARRIVE.TRANS64.RED", (mbar_remote, None, Some 0));
    (lit "SYNCS.ARRIVE", (mbar_arrive, None, Some 0));
    (lit "SYNCS.PHASECHK", (mbar_wait, None, Some 0));
    (word "SYNCS.EXCH.64", (mbar_init, None, Some 0));
    ((lit "BAR." · (lit "SYNC" ∥ lit "RED") · Wordb)%re, (bar_sync, None, Some 0));
    (word "BAR.ARV", (bar_arv, None, Some 0));
    (word "WARPSYNC", (warp_sync, None, Some 0)) ].

Fixpoint classify_in (rows : list (re * (kind * option operand * option Z))) (mnemonic : list ascii)
    : option (kind * option operand * option Z) :=
  match rows with
  | [] => None
  | (rx, row) :: r => if re_match rx mnemonic then Some row else classify_in r mnemonic
  end.
Definition classify (mnemonic : string) : option (kind * option operand * option Z) :=
  classify_in OPCODES (chars mnemonic).

(** ** Instruction text *)

(** The text up to the first character that fails a test, and the rest. *)
Fixpoint span (p : ascii → bool) (l : list ascii) : list ascii * list ascii :=
  match l with
  | [] => ([], [])
  | c :: r => if p c then let '(a, b) := span p r in (c :: a, b) else ([], l)
  end.

(** [s.split(None, 1)] *)
Definition split1 (l : list ascii) : list (list ascii) :=
  match lstrip l with
  | [] => []
  | s => let '(a, b) := span not_space s in match lstrip b with [] => [a] | r => [a; r] end
  end.

(** [s.rstrip(";")] *)
Definition rstrip_semi (l : list ascii) : list ascii := rev (span (Ascii.eqb ";"%char) (rev l)).2.

(** The guard predicate, the mnemonic and the operand text. *)
Definition split_sass (sass : string) : res exn (option string * string * string) :=
  let s := strip (rstrip_semi (strip (chars sass))) in
  '(guard, s) ←
    (if starts_with (chars "@") s then
       match split1 s with [g; s'] => Ok (Some (str g), s') | _ => Err ValueError end
     else Ok (None, s));
  match split1 s with
  | [] => Err IndexError
  | mn :: rest => Ok (guard, str mn, match rest with ops :: _ => str ops | [] => ""%string end)
  end.

Definition widths : list (string * Z) :=
  [(".128", 16); (".64", 8); (".U16", 2); (".S16", 2); (".U8", 1); (".S8", 1)]%string.
Fixpoint access_size_in (ws : list (string * Z)) (mnemonic : list ascii) : Z :=
  match ws with
  | [] => 4
  | (w, size) :: r => if contains (chars w) mnemonic then size else access_size_in r mnemonic
  end.
Definition access_size (mnemonic : string) : Z := access_size_in widths (chars mnemonic).

(** [int(s, 16)]: sign, an optional [0x], digits with single underscores between. *)
Definition unsigned16 (l : list ascii) : option Z :=
  match l with
  | z :: x :: r =>
      if Ascii.eqb z "0"%char && (Ascii.eqb x "x"%char || Ascii.eqb x "X"%char)
      then match r with [] => None | _ => digits_value 16 0 true r end
      else digits_value 16 0 false l
  | _ => digits_value 16 0 false l
  end.
Definition int16 (l : list ascii) : option Z :=
  match strip l with
  | c :: r =>
      if Ascii.eqb c "-"%char then Z.opp <$> unsigned16 r
      else if Ascii.eqb c "+"%char then unsigned16 r
      else unsigned16 (c :: r)
  | [] => None
  end.
Definition value_error {A} (o : option A) : res exn A := match o with Some a => Ok a | None => Err ValueError end.

(** The texts between brackets: [re.findall(r"\[([^\]]+)\]", s)].  A bracket
    that closes nothing, or closes at once, is passed over. *)
Fixpoint brackets (fuel : nat) (l : list ascii) : list (list ascii) :=
  match fuel, l with
  | S n, c :: r =>
      if Ascii.eqb c "["%char then
        match span (λ d, negb (Ascii.eqb d "]"%char)) r with
        | ((_ :: _) as inner, _ :: r') => inner :: brackets n r'
        | _ => brackets n r
        end
      else brackets n r
  | _, _ => []
  end.
Definition BRACKET_findall (l : list ascii) : list (list ascii) := brackets (length l) l.

Definition all_digits (l : list ascii) : bool := negb (bool_decide (l = [])) && forallb is_digit l.

(** One term of a bracketed operand: its value, or [None] when it is not known. *)
Definition term_value (uregs : list (Z * Z)) (term : list ascii) : res exn (option Z) :=
  if starts_with (chars "0x") term then Some <$> value_error (int16 term)
  else if bool_decide (term = chars "URZ") || bool_decide (term = chars "RZ") then Ok (Some 0)
  else if starts_with (chars "UR") term && all_digits (drop 2 term)
       then Ok (dict_get uregs (dec_value (drop 2 term)))
  else Ok None.

Fixpoint sum_terms (uregs : list (Z * Z)) (total : Z) (terms : list (list ascii)) : res exn (option Z) :=
  match terms with
  | [] => Ok (Some total)
  | t :: r =>
      v ← term_value uregs t;
      match v with Some x => sum_terms uregs (total + x) r | None => Ok None end
  end.

Definition bracket_value (operands : string) (which : nat) (uregs : list (Z * Z)) : res exn (option Z) :=
  match BRACKET_findall (chars operands) !! which with
  | None => Ok None
  | Some t =>
      sum_terms uregs 0 (split_on "+"%char (List.filter (λ c, negb (Ascii.eqb c " "%char)) t))
  end.

(** ** Records and events *)

(** A line's dict: [rec.get(...)] is an option, [rec[...]] a value. *)
Record trace_rec := mkRec {
  r_type : string; r_cta : list Z; r_warp : Z; r_pc : string; r_opcode_id : Z;
  r_active_mask : option string; r_addrs : option (list Z);
  r_regs_indices : option (list Z); r_regs : option (list (list Z));
  r_uregs_indices : option (list Z); r_uregs : option (list Z);
  r_trace_index : option Z }.

Inductive flag := operand_unresolved | matrix_footprint_approx | footprint_unresolved | barrier_nonuniform | remote_shared.
#[export] Instance flag_eq_dec : EqDecision flag.
Proof. solve_decision. Defined.

(** The parity operand of a wait: not read, read, or not one value. *)
Inductive token := NoToken | Token (v : Z) | Nonuniform.
#[export] Instance token_eq_dec : EqDecision token.
Proof. solve_decision. Defined.

Record Event := mkEvent {
  cta : list Z; warp : Z; pos : nat; t : option Z; pc : string; sass : string;
  guard : option string; mn : string; ops : string; knd : option kind;
  ranges : list (Z * Z); mask : Z; flags : list flag;
  bar : option Z; bar_set : option (list Z); raw_bars : option (list Z); src_bar : option Z;
  tok : token; members : option Z; bar_id : option Z; bar_count : option Z;
  success : option bool }.

Definition add_flag (f : flag) (l : list flag) : list flag := if decide (f ∈ l) then l else f :: l.

Definition set_knd (k : option kind) (e : Event) : Event :=
  mkEvent (cta e) (warp e) (pos e) (t e) (pc e) (sass e) (guard e) (mn e) (ops e) k (ranges e) (mask e)
    (flags e) (bar e) (bar_set e) (raw_bars e) (src_bar e) (tok e) (members e) (bar_id e) (bar_count e) (success e).
Definition set_ranges (r : list (Z * Z)) (e : Event) : Event :=
  mkEvent (cta e) (warp e) (pos e) (t e) (pc e) (sass e) (guard e) (mn e) (ops e) (knd e) r (mask e)
    (flags e) (bar e) (bar_set e) (raw_bars e) (src_bar e) (tok e) (members e) (bar_id e) (bar_count e) (success e).
Definition flags_add (f : flag) (e : Event) : Event :=
  mkEvent (cta e) (warp e) (pos e) (t e) (pc e) (sass e) (guard e) (mn e) (ops e) (knd e) (ranges e) (mask e)
    (add_flag f (flags e)) (bar e) (bar_set e) (raw_bars e) (src_bar e) (tok e) (members e) (bar_id e) (bar_count e)
    (success e).
Definition set_bars (b : option Z) (bs raw : option (list Z)) (src : option Z) (e : Event) : Event :=
  mkEvent (cta e) (warp e) (pos e) (t e) (pc e) (sass e) (guard e) (mn e) (ops e) (knd e) (ranges e) (mask e)
    (flags e) b bs raw src (tok e) (members e) (bar_id e) (bar_count e) (success e).
Definition set_tok (v : token) (e : Event) : Event :=
  mkEvent (cta e) (warp e) (pos e) (t e) (pc e) (sass e) (guard e) (mn e) (ops e) (knd e) (ranges e) (mask e)
    (flags e) (bar e) (bar_set e) (raw_bars e) (src_bar e) v (members e) (bar_id e) (bar_count e) (success e).
Definition set_members (m : option Z) (e : Event) : Event :=
  mkEvent (cta e) (warp e) (pos e) (t e) (pc e) (sass e) (guard e) (mn e) (ops e) (knd e) (ranges e) (mask e)
    (flags e) (bar e) (bar_set e) (raw_bars e) (src_bar e) (tok e) m (bar_id e) (bar_count e) (success e).
Definition set_bar_ids (i c : option Z) (e : Event) : Event :=
  mkEvent (cta e) (warp e) (pos e) (t e) (pc e) (sass e) (guard e) (mn e) (ops e) (knd e) (ranges e) (mask e)
    (flags e) (bar e) (bar_set e) (raw_bars e) (src_bar e) (tok e) (members e) i c (success e).
Definition set_success (s : option bool) (e : Event) : Event :=
  mkEvent (cta e) (warp e) (pos e) (t e) (pc e) (sass e) (guard e) (mn e) (ops e) (knd e) (ranges e) (mask e)
    (flags e) (bar e) (bar_set e) (raw_bars e) (src_bar e) (tok e) (members e) (bar_id e) (bar_count e) s.

(** [[a for i, a in enumerate(xs) if mask >> i & 1]] *)
Definition active_lanes (mask : Z) (xs : list Z) : list Z :=
  (filter (λ e, Z.testbit mask (Z.of_nat e.1) = true) (imap pair xs)).*2.

(** [idx.index(n)], where [n in idx]. *)
Definition index_of (n : Z) (idx : list Z) : option nat := fst <$> list_find (n =.) idx.

(** The values of register [n] in the active lanes; [None] when it was not
    recorded.  A register listed without its row of values raises. *)
Definition reg_lanes (rec : trace_rec) (n mask : Z) : res exn (option (list Z)) :=
  match index_of n (default [] (r_regs_indices rec)) with
  | None => Ok None
  | Some i =>
      match default [] (r_regs rec) !! i with
      | None => Err IndexError
      | Some vals => Ok (Some (remove_dups (active_lanes mask (take 32 vals))))
      end
  end.

Definition reg_value (rec : trace_rec) (n mask : Z) : res exn (option Z) :=
  seen ← reg_lanes rec n mask;
  Ok (match seen with Some [v] => Some v | _ => None end).

(** [R<n>] and number literals, as the operands are matched. *)
Definition reg_re : re := (lit "R" · Grp "n" (plus is_digit))%re.
Definition int_re : re := (lit "0x" · plus is_hex ∥ plus is_digit)%re.
Definition group_int (m : matched) (name : string) : Z := dec_value (default [] (group (groups m) name)).

(** A static instruction: text, guard, mnemonic, operands, and its class. *)
Definition listed : Type := string * option string * string * string.
Definition static_row : Type := listed * option (kind * option operand * option Z).

Definition in_window (a : Z) : bool := (0 <=? a) && (a <? CLUSTER_WINDOW).

(** [sorted(set(xs))] *)
Definition sorted_Z (xs : list Z) : list Z := merge_sort Z.le (remove_dups xs).

(** Accesses through lane addresses. *)
Definition fill_access (lanes : list Z) (size : option Z) (ev : Event) : Event :=
  let shared := List.filter in_window lanes in
  let ev :=
    if negb (bool_decide (lanes = [])) && bool_decide (shared = []) then set_knd None ev
    else if bool_decide (shared = []) then flags_add operand_unresolved ev else ev in
  let sz := match size with Some (Zpos p) => Zpos p | _ => access_size (mn ev) end in
  let ev := set_ranges ((λ a, (a, a + sz)) <$> sorted_Z shared) ev in
  if starts_with (chars "LDSM") (chars (mn ev)) || starts_with (chars "STSM") (chars (mn ev))
  then flags_add matrix_footprint_approx ev else ev.

(** Asynchronous accesses through uniform registers. *)
Definition fill_async (uregs : list (Z * Z)) (size : option Z) (ev : Event) : res exn Event :=
  base ← bracket_value (ops ev) 0 uregs;
  let sz := default 0 size in
  let ev :=
    match base with
    | Some b =>
        if in_window b then
          let ev := set_ranges [(b, b + (if sz =? 0 then 1 else sz))] ev in
          if sz =? 0 then flags_add footprint_unresolved ev else ev
        else flags_add operand_unresolved ev
    | None => flags_add operand_unresolved ev
    end in
  if starts_with (chars "UGETNEXTWORKID") (chars (mn ev)) then
    src ← bracket_value (ops ev) 1 uregs;
    Ok (set_bars (bar ev) (bar_set ev) (raw_bars ev) src ev)
  else Ok ev.

(** The parity operand: [re.search(r"\],\s*R(\d+)", ops)]. *)
Definition token_re : re := (lit "]," · Rep true is_space · reg_re)%re.
Definition wait_token (rec : trace_rec) (ops : string) (mask : Z) : res exn token :=
  match re_search token_re (chars ops) with
  | None => Ok NoToken
  | Some (_, m) =>
      toks ← reg_lanes rec (group_int m "n") mask;
      Ok (match toks with None => NoToken | Some [v] => Token v | Some _ => Nonuniform end)
  end.

(** Memory barriers: the address of every lane, or the bracketed operand. *)
Definition fill_mbar (k : kind) (rec : trace_rec) (uregs : list (Z * Z)) (lanes : list Z) (ev : Event)
    : res exn Event :=
  let addrs := sorted_Z (List.filter in_window lanes) in
  ev ← match addrs with
       | _ :: _ :: _ => Ok (flags_add barrier_nonuniform (set_bars (bar ev) (Some addrs) (raw_bars ev) (src_bar ev) ev))
       | [a] => Ok (set_bars (Some a) (bar_set ev) (raw_bars ev) (src_bar ev) ev)
       | [] => b ← bracket_value (ops ev) 0 uregs; Ok (set_bars b (bar_set ev) (raw_bars ev) (src_bar ev) ev)
       end;
  if bool_decide (k = mbar_wait) then tk ← wait_token rec (ops ev) (mask ev); Ok (set_tok tk ev) else Ok ev.

(** An immediate or a register; [None] when it is not resolved. *)
Definition operand_value (rec : trace_rec) (mask : Z) (o : list ascii) : res exn (option Z) :=
  match re_fullmatch int_re o with
  | Some _ => Some <$> value_error (int0 o)
  | None =>
      match re_fullmatch reg_re o with
      | Some m => reg_value rec (group_int m "n") mask
      | None => Ok None
      end
  end.

Definition fill_warp_sync (rec : trace_rec) (ev : Event) : res exn Event :=
  if starts_with (chars "WARPSYNC.ALL") (chars (mn ev)) then Ok (set_members (Some FULL_MASK) ev)
  else v ← operand_value rec (mask ev) (strip (chars (ops ev))); Ok (set_members (Some (default 0 v)) ev).

Definition fill_named_bar (rec : trace_rec) (ev : Event) : res exn Event :=
  let os := take 2 (List.filter (λ o, negb (bool_decide (o = []))) (strip <$> split_on ","%char (chars (ops ev)))) in
  vals ← mapM (operand_value rec (mask ev)) os;
  let ev := if bool_decide (vals = []) || bool_decide (None ∈ vals) then flags_add operand_unresolved ev else ev in
  Ok (set_bar_ids (vals !! 0%nat ≫= id) (vals !! 1%nat ≫= id) ev).

(** ** Building the events of a trace *)

(** A CTA's coordinates and a warp's number. *)
Definition warp_key : Type := list Z * Z.
Definition warps : Type := dict warp_key (list Event).

(** [d.get(key, [])] of a dict of lists. *)
Definition dlist {K V} `{EqDecision K} (d : dict K (list V)) (k : K) : list V := default [] (dict_get d k).
Definition dict_push {K V} `{EqDecision K} (d : dict K (list V)) (k : K) (v : V)
    : dict K (list V) := dict_upd d k (λ o, default [] o ++ [v]).

(** The metadata's instructions, as they were written: opcode id and text; and
    the static listing, by program counter. *)
Definition read_instruction (e : string * string) : res exn (string * Z * static_row) :=
  '(g, mn, ops) ← split_sass e.2;
  n ← value_error (int10 (chars e.1));
  Ok (e.1, n * 16, ((e.2, g, mn, ops), classify mn)).
Definition read_instructions (instructions : list (string * string))
    : res exn (dict string static_row * dict Z listed) :=
  rows ← mapM read_instruction instructions;
  Ok (dict_of ((λ r, (r.1.1, r.2)) <$> rows), dict_of ((λ r, (r.1.2, r.2.1)) <$> rows)).

Definition active_mask (rec : trace_rec) : res exn Z :=
  value_error (int16 (chars (default "0xffffffff"%string (r_active_mask rec)))).

(** The event of one dynamic instruction, the [n]-th of its warp. *)
Definition event_of (row : static_row) (key : warp_key) (n : nat) (rec : trace_rec) (mem : option trace_rec)
    : res exn Event :=
  let '((sass, g, mn, ops), class) := row in
  let uregs := dict_of (zip (default [] (r_uregs_indices rec)) (default [] (r_uregs rec))) in
  m ← active_mask (default rec mem);
  let ev := mkEvent key.1 key.2 n (r_trace_index rec) (r_pc rec) sass g mn ops (fst ∘ fst <$> class) [] m []
              None None None None NoToken None None None None in
  let lanes := match mem with Some x => active_lanes m (default [] (r_addrs x)) | None => [] end in
  match class with
  | None => Ok ev
  | Some (k, _, size) =>
      match k with
      | generic_r | generic_w | generic_rw | cpasync_w => Ok (fill_access lanes size ev)
      | async_w | async_r => fill_async uregs size ev
      | mbar_arrive | mbar_wait | mbar_init | mbar_tx | mbar_remote => fill_mbar k rec uregs lanes ev
      | warp_sync => fill_warp_sync rec ev
      | bar_sync | bar_arv => fill_named_bar rec ev
      | _ => Ok ev
      end
  end.

(** A record that waits for its register record, with the [extra_addrs] the
    script adds to its dict. *)
Definition pending_rec : Type := trace_rec * list Z.

Record build := mkBuild {
  b_warps : warps;
  b_pending : dict warp_key pending_rec;
  b_listing_ok : bool }.

Section Build.
Variable static : dict string static_row.

Definition emit (key : warp_key) (rec : trace_rec) (mem : option trace_rec) (s : build) : res exn build :=
  match dict_get static (pretty (r_opcode_id rec)) with
  | None => Err KeyError
  | Some row =>
      p ← value_error (int16 (chars (r_pc rec)));
      ev ← event_of row key (length (dlist (b_warps s) key)) rec mem;
      Ok (mkBuild (dict_push (b_warps s) key ev) (b_pending s)
            (b_listing_ok s && (p =? r_opcode_id rec * 16)))
  end.

Definition set_pending (p : dict warp_key pending_rec) (s : build) : build :=
  mkBuild (b_warps s) p (b_listing_ok s).

Definition rec_key (rec : trace_rec) : warp_key := (r_cta rec, r_warp rec).

(** A memory record waits for the register record of its instruction. *)
Definition on_mem (rec : trace_rec) (s : build) : res exn build :=
  let key := rec_key rec in
  match dict_get (b_pending s) key with
  | Some (old, extra) =>
      if decide (r_pc old = r_pc rec) then
        m ← active_mask rec;
        Ok (set_pending (dict_set (b_pending s) key (old, extra ++ active_lanes m (default [] (r_addrs rec)))) s)
      else
        s' ← emit key old (Some old) (set_pending (dict_pop (b_pending s) key) s);
        Ok (set_pending (dict_set (b_pending s') key (rec, [])) s')
  | None => Ok (set_pending (dict_set (b_pending s) key (rec, [])) s)
  end.

Definition on_reg (rec : trace_rec) (s : build) : res exn build :=
  let key := rec_key rec in
  let s1 := set_pending (dict_pop (b_pending s) key) s in
  match dict_get (b_pending s) key with
  | Some (mem, _) =>
      if decide (r_pc mem = r_pc rec) then emit key rec (Some mem) s1
      else s2 ← emit key mem (Some mem) s1; emit key rec None s2
  | None => emit key rec None s1
  end.

Definition on_line (rec : trace_rec) (s : build) : res exn build :=
  if String.eqb (r_type rec) "mem_addr_trace" then on_mem rec s
  else if String.eqb (r_type rec) "reg_trace" then on_reg rec s
  else Ok s.

Fixpoint build_lines (lines : list trace_rec) (s : build) : res exn build :=
  match lines with [] => Ok s | rec :: r => s' ← on_line rec s; build_lines r s' end.

(** What is still pending when the trace ends. *)
Fixpoint flush (pending : list (warp_key * pending_rec)) (s : build) : res exn build :=
  match pending with [] => Ok s | (key, (mem, _)) :: r => s' ← emit key mem (Some mem) s; flush r s' end.

Definition build_all (lines : list trace_rec) : res exn build :=
  s ← build_lines lines (mkBuild [] [] true); flush (b_pending s) s.
End Build.

(** ** Cluster addresses *)

Definition local_kinds : list kind := [generic_r; generic_w; generic_rw; cpasync_w; mbar_wait].
Definition is_local_kind (k : option kind) : bool := match k with Some k => bool_decide (k ∈ local_kinds) | None => false end.

Definition counter : Type := dict Z nat.
Definition count1 (c : counter) (k : Z) : counter := dict_upd c k (λ o, S (default 0%nat o)).

(** The ranks an event votes for. *)
Definition event_votes (ev : Event) : list Z :=
  ((λ r, r.1 / SHARED_LIMIT) <$> ranges ev) ++ match bar ev with Some b => [b / SHARED_LIMIT] | None => [] end.

Definition vote (vs : counter * counter) (ev : Event) : counter * counter :=
  if is_local_kind (knd ev) then (fold_left count1 (event_votes ev) vs.1, vs.2)
  else (vs.1, fold_left count1 (event_votes ev) vs.2).

Definition votes_of (pw : warps) : dict (list Z) (counter * counter) :=
  fold_left (λ votes e, fold_left (λ votes ev, dict_upd votes e.1.1 (λ o, vote (default ([], []) o) ev)) e.2 votes) pw [].

(** [c.most_common(1)[0][0]]: the first key with the highest count. *)
Definition most_common (c : counter) : option Z :=
  fst <$> fold_left (λ best e, match best with
                               | Some b => if (b.2 <? e.2)%nat then Some e else best
                               | None => Some e end) c None.

Definition own_rank (votes : counter * counter) : option Z :=
  match votes.1 with [] => most_common votes.2 | _ => most_common votes.1 end.

Definition local (own a : Z) : Z :=
  if in_window a then if a / SHARED_LIMIT =? own then a - own * SHARED_LIMIT else CLUSTER_WINDOW + a else a.

Definition raw_names (ev : Event) : list Z :=
  match bar ev with Some b => [b] | None => [] end ++ default [] (bar_set ev).

Definition rebase_event (own : Z) (ev : Event) : Event :=
  let raw := if bool_decide (knd ev = Some mbar_remote) then Some (raw_names ev) else raw_bars ev in
  let ev' := if existsb (λ r, negb (r.1 / SHARED_LIMIT =? own)) (ranges ev) then flags_add remote_shared ev else ev in
  let ev' := set_ranges ((λ r, (local own r.1, local own r.1 + (r.2 - r.1))) <$> ranges ev) ev' in
  set_bars (local own <$> bar ev) ((λ s : list Z, local own <$> s) <$> bar_set ev) raw (local own <$> src_bar ev) ev'.

Definition rebase_entry (votes : dict (list Z) (counter * counter)) (e : warp_key * list Event)
    : warp_key * list Event :=
  (e.1, match own_rank (default ([], []) (dict_get votes e.1.1)) with
        | Some own => rebase_event own <$> e.2
        | None => e.2
        end).
Definition rebase_cluster_addresses (pw : warps) : warps :=
  fmap (M := list) (rebase_entry (votes_of pw)) pw.

Definition build_events (instructions : list (string * string)) (lines : list trace_rec)
    : res exn (warps * dict Z listed) :=
  '(static, listing) ← read_instructions instructions;
  s ← build_all static lines;
  Ok (rebase_cluster_addresses (b_warps s), if b_listing_ok s then listing else []).

(** ** Dicts of lists *)

#[global] Arguments dlist : simpl never.
#[global] Arguments dict_push : simpl never.
#[global] Arguments dict_pop : simpl never.

Lemma dlist_push {K V} `{EqDecision K} (d : dict K (list V)) k v k' :
  dlist (dict_push d k v) k' = if decide (k = k') then dlist d k ++ [v] else dlist d k'.
Proof. unfold dlist, dict_push. rewrite dict_get_upd. case_decide; [by subst|done]. Qed.

Lemma dict_wf_push {K V} `{EqDecision K} (d : dict K (list V)) k v : dict_wf d → dict_wf (dict_push d k v).
Proof. apply dict_wf_set. Qed.

(** ** What filling in an event keeps *)

(** The identity of an event: where it ran, what it is, and its lanes. *)
Definition core (e : Event) : list Z * Z * nat * option Z * (string * string * option string * string * string) * Z :=
  (cta e, warp e, pos e, t e, (pc e, sass e, guard e, mn e, ops e), mask e).

Lemma fill_access_core lanes size ev : core (fill_access lanes size ev) = core ev.
Proof. unfold fill_access. destruct (_ || _); repeat case_match; reflexivity. Qed.

Lemma fill_async_core uregs size ev ev' : fill_async uregs size ev = Ok ev' → core ev' = core ev.
Proof.
  unfold fill_async. intros (base & _ & H)%bind_ok. cbv zeta in H.
  assert (∀ x : Event, (if starts_with (chars "UGETNEXTWORKID") (chars (mn x))
     then src ← bracket_value (ops x) 1 uregs; Ok (set_bars (bar x) (bar_set x) (raw_bars x) src x)
     else Ok x) = Ok ev' → core ev' = core x) as Hx.
  { intros x Hx. case_match; [apply bind_ok in Hx as (src & _ & [= <-]); done|by injection Hx as <-]. }
  apply Hx in H. rewrite H. repeat case_match; reflexivity.
Qed.

Lemma fill_mbar_core k rec uregs lanes ev ev' : fill_mbar k rec uregs lanes ev = Ok ev' → core ev' = core ev.
Proof.
  unfold fill_mbar. intros (ev1 & H1 & H)%bind_ok.
  assert (core ev1 = core ev) as <-.
  { destruct (sorted_Z _) as [|a [|a' l]];
      [apply bind_ok in H1 as (o & _ & H1)|..]; injection H1 as <-; reflexivity. }
  case_bool_decide; [apply bind_ok in H as (tk & _ & [= <-])|injection H as <-]; done.
Qed.

Lemma fill_warp_sync_core rec ev ev' : fill_warp_sync rec ev = Ok ev' → core ev' = core ev.
Proof.
  unfold fill_warp_sync. case_match; [by intros [= <-]|]. by intros (v & _ & [= <-])%bind_ok.
Qed.

Lemma fill_named_bar_core rec ev ev' : fill_named_bar rec ev = Ok ev' → core ev' = core ev.
Proof.
  unfold fill_named_bar. intros (vals & _ & [= <-])%bind_ok. by destruct (_ || _).
Qed.

Lemma event_of_core row key n rec mem ev :
  event_of row key n rec mem = Ok ev →
  cta ev = key.1 ∧ warp ev = key.2 ∧ pos ev = n ∧ t ev = r_trace_index rec ∧ pc ev = r_pc rec ∧
  active_mask (default rec mem) = Ok (mask ev).
Proof.
  unfold event_of. destruct row as [[[[sass g] mn] ops] class].
  intros (m & Hm & H)%bind_ok. rewrite Hm. cbv zeta in H.
  assert (core ev = (key.1, key.2, n, r_trace_index rec, (r_pc rec, sass, g, mn, ops), m)) as Hc.
  { destruct class as [[[k src] size]|]; [|by injection H as <-].
    destruct k; try (injection H as <-; rewrite ?fill_access_core; done);
      first [apply fill_async_core in H|apply fill_mbar_core in H|apply fill_warp_sync_core in H
            |apply fill_named_bar_core in H]; by rewrite H. }
  unfold core in Hc. injection Hc. intros; by subst.
Qed.

(** ** Well-formed events *)

(** The event at a position says where it is, and some lane executed it. *)
Record event_wf (key : warp_key) (i : nat) (ev : Event) : Prop := {
  ew_cta : cta ev = key.1;
  ew_warp : warp ev = key.2;
  ew_pos : pos ev = i;
  ew_mask : 0 < mask ev }.

Definition warps_wf (pw : warps) : Prop :=
  dict_wf pw ∧ ∀ key i ev, dlist pw key !! i = Some ev → event_wf key i ev.

Lemma event_wf_core key i ev ev' : core ev' = core ev → event_wf key i ev → event_wf key i ev'.
Proof.
  intros Hc [H1 H2 H3 H4]. unfold core in Hc. injection Hc as E1 E2 E3 E4 E5 E6 E7 E8 E9 E10.
  split; congruence.
Qed.

Lemma warps_wf_fmap (f : warp_key → list Event → list Event) pw :
  (∀ key evs i ev', f key evs !! i = Some ev' → ∃ ev, evs !! i = Some ev ∧ core ev' = core ev) →
  warps_wf pw → warps_wf (fmap (M := list) (λ e : warp_key * list Event, (e.1, f e.1 e.2)) pw).
Proof.
  intros Hf [Hd Hw]. split.
  - unfold dict_wf. rewrite <- list_fmap_compose. exact Hd.
  - intros key i ev' H. unfold dlist in H, Hw.
    destruct (dict_get (fmap (M := list) _ pw) key) as [evs'|] eqn:E; cbn in H; [|done].
    apply dict_get_In, list_elem_of_fmap in E as ([k evs] & [= -> ->] & Hin).
    destruct (Hf _ _ _ _ H) as (ev & Hev & Hc). eapply event_wf_core; [exact Hc|].
    apply Hw. by rewrite (dict_wf_get _ _ _ Hd Hin).
Qed.

Lemma rebase_event_core own ev : core (rebase_event own ev) = core ev.
Proof. unfold rebase_event. by destruct (existsb _ _). Qed.

Lemma rebase_wf pw : warps_wf pw → warps_wf (rebase_cluster_addresses pw).
Proof.
  apply (warps_wf_fmap (λ key evs, match own_rank (default ([], []) (dict_get (votes_of pw) key.1)) with
        | Some own => rebase_event own <$> evs
        | None => evs
        end)).
  intros key evs i ev'. destruct (own_rank _) as [own|]; [|by eauto].
  intros (ev & -> & Hev)%list_lookup_fmap_Some. exists ev. split; [done|apply rebase_event_core].
Qed.

(** ** What is built of each warp

    [pair_up] is what the merge means for one warp: each register record is an
    instruction, with the memory record just before it when it is of the same
    instruction; a memory record without one is an instruction of its own. *)

Fixpoint pair_up (pending : option trace_rec) (rs : list trace_rec) : list (trace_rec * option trace_rec) :=
  match rs with
  | [] => match pending with Some m => [(m, Some m)] | None => [] end
  | rec :: r =>
      if String.eqb (r_type rec) "mem_addr_trace" then
        match pending with
        | Some m => if decide (r_pc m = r_pc rec) then pair_up (Some m) r else (m, Some m) :: pair_up (Some rec) r
        | None => pair_up (Some rec) r
        end
      else
        match pending with
        | Some m => if decide (r_pc m = r_pc rec) then (rec, Some m) :: pair_up None r
                    else (m, Some m) :: (rec, None) :: pair_up None r
        | None => (rec, None) :: pair_up None r
        end
  end.

(** The records of a warp among the lines of a trace. *)
Definition of_warp (key : warp_key) (rec : trace_rec) : bool :=
  (String.eqb (r_type rec) "mem_addr_trace" || String.eqb (r_type rec) "reg_trace") && bool_decide (rec_key rec = key).
Definition warp_records (key : warp_key) (lines : list trace_rec) : list trace_rec := List.filter (of_warp key) lines.

Section Made.
Variable static : dict string static_row.

(** The events made of a list of instructions, the first one the [n]-th. *)
Inductive made (key : warp_key) : nat → list (trace_rec * option trace_rec) → list Event → Prop :=
| made_nil n : made key n [] []
| made_cons n rec mem ins row ev evs :
    dict_get static (pretty (r_opcode_id rec)) = Some row →
    event_of row key n rec mem = Ok ev →
    made key (S n) ins evs →
    made key n ((rec, mem) :: ins) (ev :: evs).

Lemma made_app key n ins evs ins' evs' :
  made key n ins evs → made key (n + length evs) ins' evs' → made key n (ins ++ ins') (evs ++ evs').
Proof.
  induction 1 as [n|n rec mem ins row ev evs Hr He _ IH]; cbn; [by rewrite Nat.add_0_r|].
  intros H. eapply made_cons; [done|done|]. apply IH. by rewrite Nat.add_succ_comm.
Qed.

Lemma made_fun key n ins evs evs' : made key n ins evs → made key n ins evs' → evs = evs'.
Proof.
  intros H. revert evs'. induction H as [n|n rec mem ins row ev evs Hr He _ IH]; intros evs' H'; inversion H'; [done|].
  simplify_eq. f_equal; [congruence|by apply IH].
Qed.

Lemma made_lookup key n ins evs i ev :
  made key n ins evs → evs !! i = Some ev →
  ∃ rec mem row, ins !! i = Some (rec, mem) ∧ event_of row key (n + i) rec mem = Ok ev.
Proof.
  intros H. revert i. induction H as [n|n rec mem ins row ev' evs Hr He _ IH]; intros [|i]; cbn; try done.
  - intros [= <-]. exists rec, mem, row. by rewrite Nat.add_0_r.
  - intros H. rewrite Nat.add_succ_r. exact (IH i H).
Qed.

(** From one state of the build to a later one, a warp gains the events of [is]. *)
Definition gains (key : warp_key) (s s' : build) (ins : list (trace_rec * option trace_rec)) : Prop :=
  ∃ evs, dlist (b_warps s') key = dlist (b_warps s) key ++ evs ∧ made key (length (dlist (b_warps s) key)) ins evs.

Lemma gains_refl key s s' : b_warps s' = b_warps s → gains key s s' [].
Proof. intros E. exists []. rewrite E, app_nil_r. split; [done|constructor]. Qed.

Lemma gains_trans key s1 s2 s3 ins ins' : gains key s1 s2 ins → gains key s2 s3 ins' → gains key s1 s3 (ins ++ ins').
Proof.
  intros (e1 & E1 & M1) (e2 & E2 & M2). exists (e1 ++ e2).
  split; [by rewrite E2, E1, app_assoc|]. apply made_app; [done|]. by rewrite E1, length_app in M2.
Qed.

Lemma emit_gains key0 rec mem s s' key :
  emit static key0 rec mem s = Ok s' →
  b_pending s' = b_pending s ∧ gains key s s' (if decide (key0 = key) then [(rec, mem)] else []).
Proof.
  unfold emit. destruct (dict_get static _) as [row|] eqn:Hr; [|done].
  intros (p & _ & (ev & Hev & [= <-])%bind_ok)%bind_ok. split; [done|]. unfold gains. cbn.
  rewrite dlist_push. case_decide as E; [subst key0|].
  - exists [ev]. split; [done|]. econstructor; [done|exact Hev|constructor].
  - exists []. rewrite app_nil_r. split; [done|constructor].
Qed.

Definition pend (s : build) (key : warp_key) : option trace_rec := fst <$> dict_get (b_pending s) key.

Lemma on_mem_gains rec s s' key :
  String.eqb (r_type rec) "mem_addr_trace" = true → on_mem static rec s = Ok s' →
  ∃ ins, gains key s s' ins ∧
    ∀ rs, pair_up (pend s key) ((if decide (rec_key rec = key) then [rec] else []) ++ rs) = ins ++ pair_up (pend s' key) rs.
Proof.
  intros Ht. unfold on_mem, pend. destruct (dict_get (b_pending s) (rec_key rec)) as [[old extra]|] eqn:Hp.
  - case_decide as Hpc.
    + intros (m & _ & [= <-])%bind_ok. exists []. split; [by apply gains_refl|]. intros rs. cbn.
      destruct (decide (rec_key rec = key)) as [<-|Hne].
      * rewrite Hp, dict_get_set_eq. cbn. by rewrite Ht, decide_True.
      * by rewrite dict_get_set_ne.
    + intros (s1 & H1 & [= <-])%bind_ok. apply (emit_gains _ _ _ _ _ key) in H1 as [Hpend Hg].
      eexists. split; [exact Hg|]. intros rs. cbn. rewrite Hpend. cbn.
      destruct (decide (rec_key rec = key)) as [<-|Hne].
      * rewrite Hp, dict_get_set_eq. cbn. by rewrite Ht, decide_False.
      * rewrite dict_get_set_ne by done. by rewrite dict_get_pop, decide_False.
  - intros [= <-]. exists []. split; [by apply gains_refl|]. intros rs. cbn.
    destruct (decide (rec_key rec = key)) as [<-|Hne].
    + rewrite Hp, dict_get_set_eq. cbn. by rewrite Ht.
    + by rewrite dict_get_set_ne.
Qed.

Lemma on_reg_gains rec s s' key :
  String.eqb (r_type rec) "mem_addr_trace" = false → on_reg static rec s = Ok s' →
  ∃ ins, gains key s s' ins ∧
    ∀ rs, pair_up (pend s key) ((if decide (rec_key rec = key) then [rec] else []) ++ rs) = ins ++ pair_up (pend s' key) rs.
Proof.
  intros Ht. unfold on_reg, pend. destruct (dict_get (b_pending s) (rec_key rec)) as [[old extra]|] eqn:Hp.
  - case_decide as Hpc.
    + intros (Hpend & Hg)%(emit_gains _ _ _ _ _ key). eexists. split; [exact Hg|]. intros rs. rewrite Hpend. cbn.
      rewrite dict_get_pop. destruct (decide (rec_key rec = key)) as [<-|Hne]; [|done].
      rewrite Hp. cbn. by rewrite Ht, decide_True.
    + intros (s2 & (Hp1 & Hg1)%(emit_gains _ _ _ _ _ key) & (Hp2 & Hg2)%(emit_gains _ _ _ _ _ key))%bind_ok.
      eexists. split; [exact (gains_trans _ _ _ _ _ _ Hg1 Hg2)|]. intros rs. rewrite Hp2, Hp1. cbn.
      rewrite dict_get_pop. destruct (decide (rec_key rec = key)) as [<-|Hne]; [|done].
      rewrite Hp. cbn. by rewrite Ht, decide_False.
  - intros (Hpend & Hg)%(emit_gains _ _ _ _ _ key). eexists. split; [exact Hg|]. intros rs. rewrite Hpend. cbn.
    rewrite dict_get_pop. destruct (decide (rec_key rec = key)) as [<-|Hne]; [|done].
    rewrite Hp. cbn. by rewrite Ht.
Qed.

Lemma on_line_gains rec s s' key :
  on_line static rec s = Ok s' →
  ∃ ins, gains key s s' ins ∧
    ∀ rs, pair_up (pend s key) (warp_records key [rec] ++ rs) = ins ++ pair_up (pend s' key) rs.
Proof.
  unfold on_line, warp_records, of_warp. cbn.
  destruct (String.eqb (r_type rec) "mem_addr_trace") eqn:Hm; cbn.
  - intros H. destruct (on_mem_gains _ _ _ key Hm H) as (ins & Hg & Hp). exists ins. split; [done|].
    intros rs. rewrite <- Hp. case_bool_decide; [by rewrite decide_True|by rewrite decide_False].
  - destruct (String.eqb (r_type rec) "reg_trace") eqn:Hr; cbn.
    + intros H. destruct (on_reg_gains _ _ _ key Hm H) as (ins & Hg & Hp). exists ins. split; [done|].
      intros rs. rewrite <- Hp. case_bool_decide; [by rewrite decide_True|by rewrite decide_False].
    + intros [= <-]. exists []. split; [by apply gains_refl|done].
Qed.

Lemma build_lines_gains lines s s' key :
  build_lines static lines s = Ok s' →
  ∃ ins, gains key s s' ins ∧
    ∀ rs, pair_up (pend s key) (warp_records key lines ++ rs) = ins ++ pair_up (pend s' key) rs.
Proof.
  revert s. induction lines as [|rec lines IH]; intros s; cbn.
  - intros [= <-]. exists []. split; [by apply gains_refl|done].
  - intros (s1 & H1 & H2)%bind_ok. destruct (on_line_gains _ _ _ key H1) as (ins1 & Hg1 & Hp1).
    destruct (IH _ H2) as (ins2 & Hg2 & Hp2). exists (ins1 ++ ins2).
    split; [by eapply gains_trans|]. intros rs. rewrite <- app_assoc, <- Hp2, <- Hp1. f_equal.
    unfold warp_records. cbn. by destruct (of_warp key rec).
Qed.

Lemma flush_gains pending s s' key :
  dict_wf pending → flush static pending s = Ok s' →
  gains key s s' (match dict_get pending key with Some (m, _) => [(m, Some m)] | None => [] end).
Proof.
  revert s. induction pending as [|[k [m x]] pending IH]; intros s Hwf; cbn.
  - intros [= <-]. by apply gains_refl.
  - intros (s1 & (_ & Hg1)%(emit_gains _ _ _ _ _ key) & H2)%bind_ok.
    unfold dict_wf in Hwf. apply NoDup_cons in Hwf as [Hk Hwf]. specialize (IH _ Hwf H2).
    destruct (decide (k = key)) as [<-|]; [rewrite decide_True by done
      |rewrite decide_False by congruence; exact (gains_trans _ _ _ _ _ _ Hg1 IH)].
    apply dict_get_None in Hk. cbn in Hk. rewrite Hk in IH. exact (gains_trans _ _ _ _ _ _ Hg1 IH).
Qed.

(** Pending entries keep distinct keys. *)
Lemma on_line_pending_wf rec s s' :
  on_line static rec s = Ok s' → dict_wf (b_pending s) → dict_wf (b_pending s').
Proof.
  assert (∀ key r m s s', emit static key r m s = Ok s' → b_pending s' = b_pending s) as He.
  { intros key r m s0 s0' H. by apply (emit_gains _ _ _ _ _ key) in H as [-> _]. }
  unfold on_line, on_mem, on_reg. intros H Hwf.
  repeat case_match; repeat match goal with
    | H : _ ≫= _ = Ok _ |- _ => apply bind_ok in H as (? & ? & H)
    | H : emit _ _ _ _ _ = Ok _ |- _ => apply He in H
    | H : Ok _ = Ok _ |- _ => injection H as <-
    end; cbn in *; repeat match goal with H : b_pending _ = _ |- _ => rewrite H in *; clear H end; cbn;
    auto using dict_wf_set, dict_wf_pop.
Qed.

Lemma build_lines_pending_wf lines s s' :
  build_lines static lines s = Ok s' → dict_wf (b_pending s) → dict_wf (b_pending s').
Proof.
  revert s. induction lines as [|rec lines IH]; intros s; cbn; [by intros [= <-]|].
  intros (s1 & H1 & H2)%bind_ok Hwf. eapply IH; [exact H2|]. by eapply on_line_pending_wf.
Qed.

(** What is built of a warp is made of its own records, paired up. *)
Lemma build_all_made lines s key :
  build_all static lines = Ok s →
  made key 0 (pair_up None (warp_records key lines)) (dlist (b_warps s) key).
Proof.
  unfold build_all. intros (s1 & H1 & H2)%bind_ok.
  assert (dict_wf (b_pending s1)) as Hwf by (eapply build_lines_pending_wf; [exact H1|constructor]).
  destruct (build_lines_gains _ _ _ key H1) as (ins & Hg & Hp). apply (flush_gains _ _ _ key Hwf) in H2.
  destruct (gains_trans _ _ _ _ _ _ Hg H2) as (evs & E & M). cbn in E, M.
  specialize (Hp []). rewrite app_nil_r in Hp. unfold pend in Hp at 1. cbn in Hp.
  rewrite E. cbn. rewrite Hp. cbn [pair_up]. unfold pend.
  by destruct (dict_get (b_pending s1) key) as [[m x]|].
Qed.

(** ** Well-formedness of what is built *)

(** Every record was executed by some lane. *)
Definition active (rec : trace_rec) : Prop := ∀ m, active_mask rec = Ok m → 0 < m.

Lemma pair_up_elem pending rs rec mem :
  (rec, mem) ∈ pair_up pending rs → default rec mem ∈ rs ∨ pending = Some (default rec mem).
Proof.
  revert pending. induction rs as [|r rs IH]; intros pending; cbn.
  - destruct pending as [m|]; [|by intros ?%elem_of_nil]. intros [[= -> ->]|?%elem_of_nil]%elem_of_cons; [by right|done].
  - assert (default rec mem ∈ rs ∨ pending = Some (default rec mem) ∨ default rec mem = r →
      (default rec mem = r ∨ default rec mem ∈ rs) ∨ pending = Some (default rec mem)) as Hdone by tauto.
    rewrite elem_of_cons.
    destruct (String.eqb _ _), pending as [m|]; try case_decide; intros Hin; apply Hdone; clear Hdone;
      repeat match goal with
        | H : _ ∈ _ :: _ |- _ => apply elem_of_cons in H as [[= ? ?]|H]; [subst; by auto|]
        end; apply IH in Hin as [Hin|Hin]; try discriminate; try injection Hin as Hin; subst; auto.
Qed.

Lemma build_all_wf lines s : build_all static lines = Ok s → Forall active lines → warps_wf (b_warps s).
Proof.
  intros H Hact. split.
  - assert (∀ key r m s s', emit static key r m s = Ok s' → dict_wf (b_warps s) → dict_wf (b_warps s')) as He.
    { intros key r m s0 s0'. unfold emit. destruct (dict_get _ _); [|done].
      intros (p & _ & (ev & _ & [= <-])%bind_ok)%bind_ok. cbn. apply dict_wf_push. }
    assert (∀ rec s s', on_line static rec s = Ok s' → dict_wf (b_warps s) → dict_wf (b_warps s')) as Hl.
    { intros rec s0 s0'. unfold on_line, on_mem, on_reg. intros H0 Hwf.
      repeat case_match; repeat match goal with
        | H : _ ≫= _ = Ok _ |- _ => apply bind_ok in H as (? & ? & H)
        | H : Ok _ = Ok _ |- _ => injection H as <-
        end; cbn; eauto. }
    unfold build_all in H. apply bind_ok in H as (s1 & H1 & H2).
    assert (dict_wf (b_warps s1)) as Hs1.
    { clear H2 Hact. revert H1. generalize (mkBuild [] [] true) (NoDup_nil_2 : dict_wf (b_warps (mkBuild [] [] true))).
      induction lines as [|rec lines IH]; intros s0 Hs0; cbn; [by intros [= <-]|].
      intros (s2 & H1 & H2)%bind_ok. eapply IH; [|exact H2]. by eapply Hl. }
    clear H1. remember (b_pending s1) as pending eqn:E. clear E. revert s1 Hs1 H2.
    induction pending as [|[k [m x]] pending IH]; intros s1 Hs1; cbn; [by intros [= <-]|].
    intros (s2 & H1 & H2)%bind_ok. eapply IH; [|exact H2]. by eapply He.
  - intros key i ev Hev. pose proof (build_all_made _ _ key H) as Hm.
    destruct (made_lookup _ _ _ _ _ _ Hm Hev) as (rec & mem & row & Hi & He).
    apply event_of_core in He as (E1 & E2 & E3 & _ & _ & E4). split; [done..|].
    apply list_elem_of_lookup_2, pair_up_elem in Hi as [Hi|]; [|done].
    apply list_elem_of_In, filter_In in Hi as [Hi _]. rewrite Forall_forall in Hact.
    by apply (Hact _ (proj2 (list_elem_of_In _ _) Hi)).
Qed.
End Made.

Lemma build_events_wf instructions lines pw listing :
  build_events instructions lines = Ok (pw, listing) → Forall active lines → warps_wf pw.
Proof.
  unfold build_events. intros ([st ls] & _ & (s & Hs & [= <- _])%bind_ok)%bind_ok Hact.
  apply rebase_wf. by eapply build_all_wf.
Qed.

(** ** Ranges

    Ranges are not empty, and only accesses through lane addresses have more
    than one. *)

Definition lane_kind (k : option kind) : bool :=
  bool_decide (k ∈ [Some generic_r; Some generic_w; Some generic_rw; Some cpasync_w]).

Definition ranges_wf (ev : Event) : Prop :=
  Forall (λ r : Z * Z, r.1 < r.2) (ranges ev) ∧ (lane_kind (knd ev) = false → (length (ranges ev) <= 1)%nat).

Definition size_ok (class : option (kind * option operand * option Z)) : Prop :=
  match class with Some (_, _, Some n) => 0 ≤ n | _ => True end.

Lemma classify_size mn : size_ok (classify mn).
Proof.
  unfold classify. assert (∀ rows, Forall (λ row, size_ok (Some row.2)) rows → ∀ m, size_ok (classify_in rows m)) as H.
  { induction 1 as [|[rx row] rows Hrow _ IH]; intros m; cbn; [done|]. destruct (re_match rx m); [exact Hrow|apply IH]. }
  apply H. repeat constructor; cbn; lia.
Qed.

Lemma access_size_pos mn : 0 < access_size mn.
Proof.
  unfold access_size. assert (∀ ws, Forall (λ w : string * Z, 0 < w.2) ws → ∀ m, 0 < access_size_in ws m) as H.
  { induction 1 as [|[w n] ws Hw _ IH]; intros m; cbn; [lia|]. destruct (contains (chars w) m); [exact Hw|apply IH]. }
  apply H. repeat constructor; cbn; lia.
Qed.

Lemma fill_access_ranges lanes size ev :
  lane_kind (knd ev) = true → ranges_wf (fill_access lanes size ev).
Proof.
  intros Hk. unfold fill_access, ranges_wf. set (sz := match size with Some (Zpos p) => Zpos p | _ => _ end).
  assert (0 < sz) as Hsz by (subst sz; repeat case_match; try lia; apply access_size_pos).
  clearbody sz. set (shared := List.filter in_window lanes).
  assert (∀ e, ranges (set_ranges ((λ a, (a, a + sz)) <$> sorted_Z shared) e) = (λ a, (a, a + sz)) <$> sorted_Z shared) as Hr by done.
  assert (Forall (λ r : Z * Z, r.1 < r.2) ((λ a, (a, a + sz)) <$> sorted_Z shared)) as Hf.
  { apply Forall_fmap, Forall_forall. intros a _. cbn. lia. }
  assert (∀ e, (shared = [] ∨ lane_kind (knd e) = true) → ∀ e', (e' = set_ranges ((λ a, (a, a + sz)) <$> sorted_Z shared) e ∨
    e' = flags_add matrix_footprint_approx (set_ranges ((λ a, (a, a + sz)) <$> sorted_Z shared) e)) →
    Forall (λ r : Z * Z, r.1 < r.2) (ranges e') ∧ (lane_kind (knd e') = false → (length (ranges e') <= 1)%nat)) as Hgoal.
  { intros e He e' [-> | ->]; cbn; (split; [done|]);
      (destruct He as [E|He]; [intros _; rewrite E; cbn; lia|congruence]). }
  destruct (negb (bool_decide (lanes = [])) && bool_decide (shared = [])) eqn:E1;
    [apply andb_true_iff in E1 as [_ E1%bool_decide_eq_true]|destruct (bool_decide (shared = [])) eqn:E2];
    destruct (_ || _); (eapply Hgoal; [|by auto]; first [left; exact E1|right; exact Hk]).
Qed.

Lemma fill_async_ranges uregs size ev ev' :
  fill_async uregs size ev = Ok ev' → 0 ≤ default 0 size → ranges ev = [] → ranges_wf ev'.
Proof.
  unfold fill_async. intros (base & _ & H)%bind_ok Hsz Hr. cbv zeta in H.
  assert (∀ x : Event, (if starts_with (chars "UGETNEXTWORKID") (chars (mn x))
     then src ← bracket_value (ops x) 1 uregs; Ok (set_bars (bar x) (bar_set x) (raw_bars x) src x)
     else Ok x) = Ok ev' → ranges ev' = ranges x) as Hx.
  { intros x Hx. case_match; [apply bind_ok in Hx as (src & _ & [= <-]); done|by injection Hx as <-]. }
  apply Hx in H. unfold ranges_wf. rewrite H. clear H Hx.
  destruct base as [a|]; [|cbn; rewrite Hr; cbn; split; [constructor|lia]].
  destruct (in_window a); [|cbn; rewrite Hr; cbn; split; [constructor|lia]].
  destruct (default 0 size =? 0) eqn:E; cbn; (split; [repeat constructor; cbn|lia]).
  - lia.
  - apply Z.eqb_neq in E. lia.
Qed.

Lemma fill_others_ranges k rec uregs lanes ev ev' :
  fill_mbar k rec uregs lanes ev = Ok ev' ∨ fill_warp_sync rec ev = Ok ev' ∨ fill_named_bar rec ev = Ok ev' →
  ranges ev' = ranges ev.
Proof.
  intros [H|[H|H]].
  - unfold fill_mbar in H. apply bind_ok in H as (ev1 & H1 & H).
    assert (ranges ev1 = ranges ev) as <-.
    { destruct (sorted_Z _) as [|a [|a' l]];
        [apply bind_ok in H1 as (o & _ & H1)|..]; injection H1 as <-; reflexivity. }
    case_bool_decide; [apply bind_ok in H as (tk & _ & [= <-])|injection H as <-]; done.
  - unfold fill_warp_sync in H. case_match; [by injection H as <-|]. by apply bind_ok in H as (v & _ & [= <-]).
  - unfold fill_named_bar in H. apply bind_ok in H as (vals & _ & [= <-]). by destruct (_ || _).
Qed.

Lemma event_of_ranges row key n rec mem ev :
  event_of row key n rec mem = Ok ev → size_ok row.2 → ranges_wf ev.
Proof.
  unfold event_of. destruct row as [[[[sass g] mn] ops] class].
  intros (m & _ & H)%bind_ok. cbv zeta in H. cbn. intros Hsz.
  assert (∀ e, ranges e = [] → ranges_wf e) as Hnil by (intros e E; unfold ranges_wf; rewrite E; cbn; split; [constructor|lia]).
  destruct class as [[[k src] size]|]; [|injection H as <-; by apply Hnil].
  assert (0 ≤ default 0 size) by (destruct size; cbn in *; lia).
  destruct k; try (injection H as <-; first [by apply fill_access_ranges|by apply Hnil]);
    first [eapply fill_async_ranges in H; done
          |by apply Hnil; erewrite (fill_others_ranges mbar_arrive rec _ _ _ _ (or_introl H))
          |idtac].
  all: try (apply Hnil; first
    [by rewrite (fill_others_ranges _ _ _ _ _ _ (or_introl H))
    |by rewrite (fill_others_ranges mbar_arrive rec [] [] _ _ (or_intror (or_introl H)))
    |by rewrite (fill_others_ranges mbar_arrive rec [] [] _ _ (or_intror (or_intror H)))]).
Qed.

Lemma static_size instructions static listing oid row :
  read_instructions instructions = Ok (static, listing) → dict_get static oid = Some row → size_ok row.2.
Proof.
  unfold read_instructions. intros (rows & Hrows & [= <- _])%bind_ok Hget.
  apply dict_of_In, list_elem_of_fmap in Hget as ([[oid' n] row'] & [= -> ->] & Hin).
  destruct (mapM_elem _ _ _ _ Hrows Hin) as ([o sass] & _ & He). unfold read_instruction in He.
  apply bind_ok in He as ([[g mn] ops] & _ & (n' & _ & [= _ _ <-])%bind_ok). apply classify_size.
Qed.

Lemma rebase_ranges own ev : ranges_wf ev → ranges_wf (rebase_event own ev).
Proof.
  intros [Hf Hl]. unfold ranges_wf, rebase_event.
  destruct (existsb _ _); cbn; rewrite length_fmap; (split; [|done]);
    rewrite Forall_fmap; (eapply Forall_impl; [exact Hf|]); intros [lo hi]; cbn; lia.
Qed.

(** A property of events that every step of the build keeps. *)
Lemma build_events_all (P : Event → Prop) instructions lines pw listing :
  build_events instructions lines = Ok (pw, listing) →
  (∀ static listing oid row key n rec mem ev, read_instructions instructions = Ok (static, listing) → dict_get static oid = Some row →
     event_of row key n rec mem = Ok ev → P ev) →
  (∀ own ev, P ev → P (rebase_event own ev)) →
  ∀ key i ev, dlist pw key !! i = Some ev → P ev.
Proof.
  unfold build_events. intros ([st ls] & Hst & (s & Hs & [= <- _])%bind_ok)%bind_ok He Hr key i ev.
  assert (∀ i ev, dlist (b_warps s) key !! i = Some ev → P ev) as Hb.
  { intros j e Hj. pose proof (build_all_made _ _ _ key Hs) as Hm. clear -Hm Hj He Hst.
    revert j Hj. induction Hm as [n|n rec mem ins row ev evs Hrow Hev _ IH]; intros [|j]; cbn; try done.
    - intros [= <-]. by eapply He.
    - apply IH. }
  unfold rebase_cluster_addresses, dlist. intros H.
  destruct (dict_get (fmap (M := list) _ _) key) as [evs'|] eqn:E; cbn in H; [|done].
  assert (∀ f : warp_key * list Event → list Event, ∀ d : warps,
    dict_get (fmap (M := list) (λ e : warp_key * list Event, (e.1, f e)) d) key = Some evs' →
    ∃ evs, dict_get d key = Some evs ∧ evs' = f (key, evs)) as Hget.
  { intros f d. induction d as [|[k v] d IH]; cbn; [done|]. case_decide as Ek; [|exact IH].
    intros [= <-]. subst. eauto. }
  apply Hget in E as (evs & Eevs & ->). cbn in H.
  assert (dlist (b_warps s) key = evs) as El by (unfold dlist; by rewrite Eevs).
  destruct (own_rank _) as [own|]; [|apply (Hb i); by rewrite El].
  apply list_lookup_fmap_Some in H as (ev0 & -> & Hev0). apply Hr, (Hb i). by rewrite El.
Qed.

Lemma build_events_ranges instructions lines pw listing :
  build_events instructions lines = Ok (pw, listing) → ∀ key i ev, dlist pw key !! i = Some ev → ranges_wf ev.
Proof.
  intros H. apply (build_events_all _ _ _ _ _ H); [|apply rebase_ranges].
  intros static ls oid row key n rec mem ev Hst Hrow Hev. eapply event_of_ranges; [exact Hev|]. by eapply static_size.
Qed.

(** ** Properties *)

(** C26: the events of a warp depend on that warp's own records only: each
    register record gives one event, joined with the memory record of the same
    instruction just before it, each other memory record gives one event of its
    own, in program order; so any interleaving of the warps' records builds the
    same events for every warp. *)
Theorem events_follow_their_warp static lines lines' s s'
    (Hrun : build_all static lines = Ok s) (Hrun' : build_all static lines' = Ok s')
    (Hsame : ∀ key, warp_records key lines = warp_records key lines') :
  ∀ key, made static key 0 (pair_up None (warp_records key lines)) (dlist (b_warps s) key) ∧
         dlist (b_warps s) key = dlist (b_warps s') key.
Proof.
  intros key. pose proof (build_all_made _ _ _ key Hrun) as H. split; [exact H|].
  apply (build_all_made _ _ _ key) in Hrun'. rewrite <- Hsame in Hrun'. by eapply made_fun.
Qed.

Definition two_static : dict string static_row :=
  match read_instructions [("0", "LDS.128 R4, [UR9+0x10] ;"); ("1", "NOP ;")]%string with Ok s => s.1 | Err _ => [] end.
Definition two_record (type : string) (w oid : Z) (pc : string) : trace_rec :=
  mkRec type [0; 0; 0] w pc oid (Some "0x3"%string) (Some [0x1000; 0x1010]) None None None None None.
Definition two_lines : list trace_rec :=
  [two_record "mem_addr_trace" 0 0 "0x0"; two_record "reg_trace" 0 0 "0x0"; two_record "mem_addr_trace" 1 0 "0x0";
   two_record "reg_trace" 1 1 "0x10"].
Definition two_lines' : list trace_rec :=
  [two_record "mem_addr_trace" 1 0 "0x0"; two_record "mem_addr_trace" 0 0 "0x0"; two_record "reg_trace" 1 1 "0x10";
   two_record "reg_trace" 0 0 "0x0"].

Lemma events_follow_their_warp_witness :
  ∃ s s', build_all two_static two_lines = Ok s ∧ build_all two_static two_lines' = Ok s' ∧
    length (dlist (b_warps s) ([0; 0; 0], 1)) = 2%nat ∧
    dlist (b_warps s) ([0; 0; 0], 1) = dlist (b_warps s') ([0; 0; 0], 1).
Proof.
  destruct (build_all two_static two_lines) as [s|] eqn:E; [|by vm_compute in E].
  destruct (build_all two_static two_lines') as [s'|] eqn:E'; [|by vm_compute in E'].
  exists s, s'. split; [reflexivity|]. split; [reflexivity|]. split.
  - change (length (dlist (b_warps s) ([0; 0; 0], 1))) with
      (length (dlist (match Ok (E := exn) s with Ok s => b_warps s | Err _ => [] end) ([0; 0; 0], 1))).
    rewrite <- E. vm_compute. reflexivity.
  - apply (events_follow_their_warp two_static two_lines two_lines' s s' E E').
    intros [c w]. unfold warp_records, two_lines, two_lines', of_warp. cbn.
    repeat case_bool_decide; try reflexivity; unfold rec_key in *; cbn in *; congruence.
Defined.
