(* ===== verification/TraceSync.v ===== *)
(** Synchronisation observed in a trace: the second part of
    src/agentic/skills/audit-memory-model/scripts/trace_edges.py.

    Which waits succeeded, which releases each acquire matches, and the chains
    of releases, acquires and warp-wide syncs between two accesses. *)
From S2P Require Import Prelude PyStr PyDict PyText Regex TraceEvents.
From Stdlib Require Import Ascii.
From Stdlib Require String.
Local Open Scope Z_scope.

(** ** Which waits succeeded *)

(** [int(ev.pc, 16)]: the program counter of an event was read when it was built. *)
Definition pc_of (ev : Event) : Z := default 0 (int16 (chars (pc ev))).

Definition control_flow : list string :=
  ["BR"; "JM"; "CALL"; "RET"; "EXIT"; "KILL"; "BPT"; "BSSY"; "BSYNC"; "WARPSYNC"]%string.

(** The instruction's operands, without a leading negation. *)
Definition plain_operands (ops : string) : list (list ascii) :=
  (λ o, (span (Ascii.eqb "!"%char) (strip o)).2) <$> split_on ","%char (chars ops).

Section Waits.
Variable pc_sass : dict Z listed.

(** The first branch after a wait, if it is guarded on [pred] and [pred] is not
    redefined before it. *)
Fixpoint guarded_branch (window : nat) (wait_pc : Z) (pred : list ascii) : option (Z * string * option string) :=
  match window with
  | O => None
  | S w =>
      let pc := wait_pc + 16 in
      match dict_get pc_sass pc with
      | None => None
      | Some (_, guard, mn, ops) =>
          if bool_decide (head (split_on "."%char (chars mn)) = Some (chars "BRA")) then
            if String.eqb mn "BRA"
               && (bool_decide (guard = Some (str (chars "@" ++ pred)))
                   || bool_decide (guard = Some (str (chars "@!" ++ pred))))
               && negb (contains (chars ",") (chars ops))
            then Some (pc, default ""%string guard, str <$> head (split_ws (chars ops)))
            else None
          else if existsb (λ p, starts_with (chars p) (chars mn)) control_flow then None
          else if bool_decide (pred ∈ plain_operands ops) || bool_decide (chars "PR" ∈ plain_operands ops)
                  || bool_decide (chars "UPR" ∈ plain_operands ops) then None
          else guarded_branch w pc pred
      end
  end.

(** [re.match(r"(P\d+)", ops)] *)
Definition pred_re : re := Grp "p" (lit "P" · plus is_digit)%re.

(** The straight-line instructions between the wait and the branch. *)
Fixpoint straight (wait_pc bra_pc : Z) (evs : list Event) : list Event * list Event :=
  match evs with
  | [] => ([], [])
  | e :: r =>
      if (wait_pc <? pc_of e) && (pc_of e <? bra_pc) then let '(a, b) := straight wait_pc bra_pc r in (e :: a, b)
      else ([], evs)
  end.

(** Whether the wait [ev] succeeded, from the events after it. *)
Definition wait_success (ev : Event) (rest : list Event) : option bool :=
  match re_match pred_re (chars (ops ev)) with
  | None => None
  | Some m =>
      match guarded_branch 32 (pc_of ev) (default [] (group (groups m) "p")) with
      | None => None
      | Some (bra_pc, g, _) =>
          let on_failure := starts_with (chars "@!") (chars g) in
          match straight (pc_of ev) bra_pc rest with
          | (_, []) => None
          | (skipped, nxt :: _) =>
              if existsb (λ e, bool_decide (guard e = None) && negb (mask e =? mask ev)) (skipped ++ [nxt]) then None
              else
                let taken := pc_of nxt =? bra_pc in
                if taken && negb (mask nxt =? mask ev) then None
                else if negb taken && negb ((bra_pc <? pc_of nxt) && (pc_of nxt <=? bra_pc + 16 * 8)) then None
                else Some (if on_failure then negb taken else taken)
          end
      end
  end.

Fixpoint mark_events (evs : list Event) : list Event :=
  match evs with
  | [] => []
  | ev :: r =>
      (if bool_decide (knd ev = Some mbar_wait) then set_success (wait_success ev r) ev else ev) :: mark_events r
  end.
End Waits.

Definition mark_wait_success (pw : warps) (pc_sass : dict Z listed) : warps :=
  fmap (M := list) (λ e : warp_key * list Event, (e.1, mark_events pc_sass e.2)) pw.

(** ** Barriers: ordinal matching of releases to acquires *)

Inductive bar_name :=
| Mbar (cta : list Z) (a : Z)
| BarOf (cta : list Z)
| BarKey (cta : list Z) (id count : option Z).
#[export] Instance bar_name_eq_dec : EqDecision bar_name.
Proof. solve_decision. Defined.

Inductive reason :=
| unresolved_operand | remote_arrive | nonuniform_lane_addresses | token_encoding_unknown
| phase_token_repeat | reinitialized | unequal_invocations | more_warps_than_count.
#[export] Instance reason_eq_dec : EqDecision reason.
Proof. solve_decision. Defined.

Definition mbar_key : Type := list Z * Z.
Definition named_key : Type := list Z * option Z * option Z.
Definition problem_set : Type := dict bar_name (list reason).

(** [problems.setdefault(key, set()).add(why)] *)
Definition add_problem (p : problem_set) (k : bar_name) (why : reason) : problem_set :=
  dict_upd p k (λ o, let l := default [] o in if decide (why ∈ l) then l else l ++ [why]).

Definition push2 {K V} `{EqDecision K} (d : dict K (dict Z (list V))) (k : K) (w : Z) (v : V)
    : dict K (dict Z (list V)) := dict_upd d k (λ o, dict_push (default [] o) w v).

Record Barriers := mkBarriers {
  arrive : dict mbar_key (dict Z (list nat));
  wait : dict mbar_key (dict Z (list (nat * token)));
  issue : dict mbar_key (dict Z (list nat));
  named : dict named_key (dict Z (list (nat * kind)));
  inits : dict mbar_key nat;
  problems : problem_set;
  phase : dict (mbar_key * Z) (dict Z nat) }.

Definition use_named (b : Barriers) (cta : list Z) (warp : Z) (ev : Event) (k : kind) : Barriers :=
  mkBarriers (arrive b) (wait b) (issue b)
    (push2 (named b) (cta, bar_id ev, bar_count ev) warp (pos ev, k)) (inits b) (problems b) (phase b).

(** The first pass: where each barrier is used. *)
Definition collect (b : Barriers) (key : warp_key) (ev : Event) : Barriers :=
  let '(cta, warp) := key in
  match knd ev, bar ev, src_bar ev with
  | Some mbar_arrive, Some a, _ =>
      mkBarriers (push2 (arrive b) (cta, a) warp (pos ev)) (wait b) (issue b) (named b) (inits b) (problems b) (phase b)
  | Some mbar_wait, Some a, _ =>
      if bool_decide (success ev = Some true) then
        mkBarriers (arrive b) (push2 (wait b) (cta, a) warp (pos ev, tok ev)) (issue b) (named b) (inits b)
          (problems b) (phase b)
      else b
  | Some mbar_init, Some a, _ =>
      mkBarriers (arrive b) (wait b) (issue b) (named b) (dict_upd (inits b) (cta, a) (λ o, S (default 0%nat o)))
        (problems b) (phase b)
  | Some async_w, _, Some a =>
      mkBarriers (arrive b) (wait b) (push2 (issue b) (cta, a) warp (pos ev)) (named b) (inits b) (problems b) (phase b)
  | Some bar_sync, _, _ => use_named b cta warp ev bar_sync
  | Some bar_arv, _, _ => use_named b cta warp ev bar_arv
  | _, _, _ => b
  end.

(** The names a barrier that is arrived at remotely can have: its offset in the
    CTA it belongs to, and its remote name in any other. *)
Definition remote_names (a : Z) : list Z :=
  if in_window a then [a; a mod SHARED_LIMIT; CLUSTER_WINDOW + a] else [a].

(** The second pass: what rules a barrier out. *)
Definition event_problems (ctas : list (list Z)) (key : warp_key) (p : problem_set) (ev : Event) : problem_set :=
  let p := if bool_decide (knd ev = Some bar_sync ∨ knd ev = Some bar_arv)
              && bool_decide (operand_unresolved ∈ flags ev)
           then add_problem p (BarOf key.1) unresolved_operand else p in
  let p := if bool_decide (knd ev = Some mbar_remote) then
             let names := match raw_bars ev with Some raw => raw | None => raw_names ev end ≫= remote_names in
             fold_left (λ p a, fold_left (λ p c, add_problem p (Mbar c a) remote_arrive) ctas p) names p
           else p in
  fold_left (λ p a, add_problem p (Mbar key.1 a) nonuniform_lane_addresses) (default [] (bar_set ev)) p.

(** The parity of bit 31. *)
Definition PARITY1 : Z := 0x80000000.
Definition token_ok (tk : token) : bool := bool_decide (tk = Token 0) || bool_decide (tk = Token PARITY1).
Fixpoint repeats (ts : list token) : bool :=
  match ts with a :: (b :: _) as r => bool_decide (a = b) || repeats r | _ => false end.

(** The phase each successful wait of a warp observes; a warp whose first parity
    is 1 starts on the phase before phase 0. *)
Definition origin_of (toks : list token) : Z :=
  if bool_decide (head toks = Some (Token PARITY1)) then -1 else 0.
Definition phases_of (ws : list (nat * token)) : dict Z nat :=
  imap (λ n w, (origin_of ws.*2 + Z.of_nat n, w.1)) ws.

Definition waiter_phases (key : mbar_key) (s : problem_set * dict (mbar_key * Z) (dict Z nat))
    (waiter : Z * list (nat * token)) : problem_set * dict (mbar_key * Z) (dict Z nat) :=
  let toks := waiter.2.*2 in
  if existsb (λ tk, negb (token_ok tk)) toks then (add_problem s.1 (Mbar key.1 key.2) token_encoding_unknown, s.2)
  else if repeats toks then (add_problem s.1 (Mbar key.1 key.2) phase_token_repeat, s.2)
  else (s.1, dict_set s.2 (key, waiter.1) (phases_of waiter.2)).

Definition barrier_phases (inits : dict mbar_key nat) (s : problem_set * dict (mbar_key * Z) (dict Z nat))
    (e : mbar_key * dict Z (list (nat * token))) : problem_set * dict (mbar_key * Z) (dict Z nat) :=
  let s := fold_left (waiter_phases e.1) e.2 s in
  if (1 <? default 0%nat (dict_get inits e.1))%nat then (add_problem s.1 (Mbar e.1.1 e.1.2) reinitialized, s.2) else s.

Definition named_problems (p : problem_set) (e : named_key * dict Z (list (nat * kind))) : problem_set :=
  let '(cta, id, count) := e.1 in
  let p := if (1 <? length (remove_dups (length ∘ snd <$> e.2)))%nat
           then add_problem p (BarKey cta id count) unequal_invocations else p in
  match count with
  | Some n =>
      if negb (n =? 0) && (n / 32 <? Z.of_nat (length e.2))
      then add_problem p (BarKey cta id count) more_warps_than_count else p
  | None => p
  end.

Definition collect_all (pw : warps) : Barriers :=
  fold_left (λ b e, fold_left (λ b ev, collect b e.1 ev) e.2 b) pw (mkBarriers [] [] [] [] [] [] []).

Definition barriers_of (pw : warps) : Barriers :=
  let b := collect_all pw in
  let ctas := remove_dups (fmap (M := list) (λ e : warp_key * list Event, e.1.1) pw) in
  let p := fold_left (λ p e, fold_left (event_problems ctas e.1) e.2 p) pw [] in
  let '(p, ph) := fold_left (barrier_phases (inits b)) (wait b) (p, []) in
  mkBarriers (arrive b) (wait b) (issue b) (named b) (inits b) (fold_left named_problems (named b) p) ph.

Definition has_problem (b : Barriers) (k : bar_name) : bool := bool_decide (k ∈ (problems b).*1).
Definition mbar_ok (b : Barriers) (cta : list Z) (a : Z) : bool := negb (has_problem b (Mbar cta a)).

(** The position of [x] in a list it belongs to. *)
Definition ordinal (x : nat) (l : list nat) : option nat := fst <$> list_find (x =.) l.

(** Acquires that match, by ordinal, the release of [warp] at [release_pos]. *)
Definition mbar_links (b : Barriers) (cta : list Z) (warp : Z) (release_pos : nat)
    (e : mbar_key * dict Z (list nat)) : list (Z * nat) :=
  if bool_decide (e.1.1 = cta) && mbar_ok b cta e.1.2 then
    match ordinal release_pos (dlist e.2 warp) with
    | None => []
    | Some k =>
        omap (λ w2, (λ p, (w2, p)) <$> dict_get (default [] (dict_get (phase b) (cta, e.1.2, w2))) (Z.of_nat k))
          (default [] (dict_get (wait b) (cta, e.1.2))).*1
    end
  else [].

Definition named_links (b : Barriers) (cta : list Z) (warp : Z) (release_pos : nat)
    (e : named_key * dict Z (list (nat * kind))) : list (Z * nat) :=
  let '(c, id, count) := e.1 in
  if bool_decide (c = cta) && negb (has_problem b (BarKey c id count)) && negb (has_problem b (BarOf cta)) then
    match ordinal release_pos (dlist e.2 warp).*1 with
    | None => []
    | Some k =>
        omap (λ u, match u.2 !! k with
                   | Some (p, kd) => if bool_decide (u.1 ≠ warp) && bool_decide (kd = bar_sync) then Some (u.1, p) else None
                   | None => None
                   end) e.2
    end
  else [].

Definition links_from (b : Barriers) (cta : list Z) (warp : Z) (release_pos : nat) : list (Z * nat) :=
  (arrive b ≫= mbar_links b cta warp release_pos) ++ (named b ≫= named_links b cta warp release_pos).

(** ** Lane coverage and chains *)

Definition is_release (k : option kind) : bool :=
  bool_decide (k = Some mbar_arrive) || bool_decide (k = Some bar_sync) || bool_decide (k = Some bar_arv).

Definition releases_after (evs : list Event) (p : nat) : list Event :=
  List.filter (λ ev, is_release (knd ev)) (drop (S p) evs).

Definition covers (mask lanes : Z) : bool := Z.land mask lanes =? lanes.

(** [evs[lo + 1 : hi]] *)
Definition between (evs : list Event) (lo hi : nat) : list Event := drop (S lo) (take hi evs).

(** A warp-wide sync that includes the lanes. *)
Definition syncs (need : Z) (e : Event) : bool :=
  match knd e with
  | Some bar_sync => covers (mask e) need
  | Some warp_sync => covers (Z.land (mask e) (default 0 (members e))) need
  | _ => false
  end.

(** Lane evidence that [lanes] are ordered with [anchor]: nothing to show, one
    sync, or none. *)
Definition join (evs : list Event) (lo hi : nat) (lanes : Z) (anchor : Event) : option (list Event) :=
  if covers (mask anchor) lanes then Some []
  else
    match List.find (syncs (Z.lor lanes (mask anchor))) (between evs lo hi) with
    | Some e => Some [e]
    | None => None
    end.

Inductive role := Fence | Sync | Release | Acquire | Wait.
Definition chain_step : Type := role * Z * string * string * option Z.
Definition step (r : role) (ev : Event) : chain_step := (r, warp ev, pc ev, py_hex (mask ev), t ev).

Inductive link := Linked | LinkedDepth2 | LanesUnresolved.
#[export] Instance link_eq_dec : EqDecision link.
Proof. solve_decision. Defined.
Definition rank (l : link) : nat := match l with LanesUnresolved => 0 | LinkedDepth2 => 1 | Linked => 2 end.
Definition resolved (l : link) : bool := (0 <? rank l)%nat.

Definition steps_of (r : role) (j : option (list Event)) : list chain_step := step r <$> default [] j.

(** [bisect.bisect_right(xs, x)] of a sorted list. *)
Definition bisect_right (xs : list nat) (x : nat) : nat := length (List.filter (λ y, (y <=? x)%nat) xs).

(** [a > b] of the tuples that rank the evidence of a release. *)
Definition score : Type := bool * bool * nat.
Definition score_gt (a b : score) : bool :=
  let '(a1, a2, a3) := a in let '(b1, b2, b3) := b in
  if Bool.eqb a1 b1 then if Bool.eqb a2 b2 then (b3 <? a3)%nat else a2 && negb b2 else a1 && negb b1.

Section Handshake.
Variables (pw : warps) (b : Barriers) (cta : list Z).

Definition evs_of (w : Z) : list Event := dlist pw (cta, w).

(** [per_warp[key][pos]] of a position that a barrier recorded. *)
Definition no_event : Event :=
  mkEvent [] 0 0 None "" "" None "" "" None [] 0 [] None None None None NoToken None None None None.
Definition event_at (w : Z) (p : nat) : Event := default no_event (evs_of w !! p).

Section Pair.
Variables (w1 : Z) (p1 : nat) (w2 : Z) (p2 : nat).
Let x_lanes : Z := mask (event_at w1 p1).
Let y_lanes : Z := mask (event_at w2 p2).

Definition fences_after : list Event :=
  let fences := List.filter (λ e, bool_decide (knd e = Some fence_s) && covers (mask e) x_lanes) (evs_of w1) in
  drop (bisect_right (pos <$> fences) p1) fences.

(** The first fence before the release that is itself joined to it. *)
Fixpoint joined_fence (fences : list Event) (rel : Event) : option (Event * list Event) :=
  match fences with
  | [] => None
  | f :: r =>
      if (pos rel <=? pos f)%nat then None
      else match join (evs_of w1) (pos f) (pos rel) x_lanes rel with
           | Some j => Some (f, j)
           | None => joined_fence r rel
           end
  end.

(** The last hop: the second access after an acquire. *)
Definition last_hop (acq : nat) : option (list Event) := join (evs_of w2) acq p2 y_lanes (event_at w2 acq).

Definition direct (head : list chain_step) (j_rel : option (list Event)) (rel : Event)
    : option (link * list chain_step) :=
  match List.find (λ l, bool_decide (l.1 = w2) && (l.2 <? p2)%nat) (links_from b cta w1 (pos rel)) with
  | None => None
  | Some (_, acq) =>
      let j_acq := last_hop acq in
      Some (if is_Some_dec j_rel then if is_Some_dec j_acq then Linked else LanesUnresolved else LanesUnresolved,
            head ++ steps_of Sync j_rel ++ [step Release rel; step Acquire (event_at w2 acq)] ++ steps_of Sync j_acq)
  end.

(** Every chain through one intermediate warp, in the order they are tried. *)
Definition indirect (head : list chain_step) (j_rel : option (list Event)) (rel : Event)
    : list (link * list chain_step) :=
  '(wx, acq) ← links_from b cta w1 (pos rel);
  rel2 ← releases_after (evs_of wx) acq;
  '(wy, acq2) ← links_from b cta wx (pos rel2);
  if bool_decide (wy = w2) && (acq2 <? p2)%nat then
    let j_mid := join (evs_of wx) acq (pos rel2) (mask rel2) (event_at wx acq) in
    let j_acq := last_hop acq2 in
    [(if is_Some_dec j_rel then if is_Some_dec j_mid then if is_Some_dec j_acq then LinkedDepth2
      else LanesUnresolved else LanesUnresolved else LanesUnresolved,
      head ++ steps_of Sync j_rel ++ [step Release rel; step Acquire (event_at wx acq)] ++ steps_of Sync j_mid
      ++ [step Release rel2; step Acquire (event_at w2 acq2)] ++ steps_of Sync j_acq)]
  else [].

(** [if link is None or rank[cand] > rank[link]: link, chain = cand, ...] *)
Definition better (cur : option (link * list chain_step)) (cand : link * list chain_step)
    : option (link * list chain_step) :=
  match cur with
  | None => Some cand
  | Some c => if (rank c.1 <? rank cand.1)%nat then Some cand else cur
  end.

(** What one release shows: whether a fence precedes it, whether one is joined
    to it, and its best link. *)
Record evidence := mkEvidence {
  e_fence : bool; e_joined : bool; e_link : option (link * list chain_step) }.

Definition release_evidence (rel : Event) : evidence :=
  let first_fence := head fences_after in
  let fence := match first_fence with Some f => (pos f <? pos rel)%nat | None => false end in
  let jf := joined_fence fences_after rel in
  let joined := bool_decide (is_Some jf) in
  let j_rel := match jf with
               | Some (_, j) => Some j
               | None => join (evs_of w1) p1 (pos rel) x_lanes rel
               end in
  let head := match jf, first_fence with
              | Some (f, _), _ => [step Fence f]
              | None, Some f => if fence then [step Fence f] else []
              | None, None => []
              end in
  let lk := direct head j_rel rel in
  mkEvidence fence joined
    (if bool_decide (fst <$> lk = Some Linked) then lk
     else fold_left better (indirect head j_rel rel) lk).

Definition score_of (e : evidence) (l : link) : score := (resolved l, e_joined e, rank l).

(** The loop over the releases: [best] is the evidence kept so far. *)
Fixpoint scan (rels : list Event) (fallback : option bool) (best : option (evidence * (link * list chain_step)))
    : option bool * option (evidence * (link * list chain_step)) :=
  match rels with
  | [] => (fallback, best)
  | rel :: r =>
      let e := release_evidence rel in
      let fallback := match fallback with None => Some (e_fence e) | _ => fallback end in
      match e_link e with
      | None => scan r fallback best
      | Some l =>
          let wins := match best with
                      | None => true
                      | Some (e', l') => score_gt (score_of e l.1) (score_of e' l'.1)
                      end in
          if wins then
            if e_joined e && bool_decide (l.1 = Linked) then (fallback, Some (e, l)) else scan r fallback (Some (e, l))
          else scan r fallback best
      end
  end.

(** Whether a fence was seen, whether it is joined, the link, and its chain. *)
Definition handshake : bool * bool * option link * list chain_step :=
  match scan (releases_after (evs_of w1) p1) None None with
  | (_, Some (e, (l, chain))) => (e_fence e, e_joined e, Some l, chain)
  | (fallback, None) => (default false fallback, false, None, [])
  end.
End Pair.

Inductive wait_result := WaitLinked | WaitLanesUnresolved | NoWait | Undecidable.
#[export] Instance wait_result_eq_dec : EqDecision wait_result.
Proof. solve_decision. Defined.

(** An async write that completes on a barrier, then a read: the reader's wait
    on the phase the write completes. *)
Definition wait_link (ww : Z) (wpos : nat) (bar : option Z) (rw : Z) (rpos : nat) : wait_result * list chain_step :=
  match bar with
  | None => (Undecidable, [])
  | Some a =>
      if negb (mbar_ok b cta a) then (Undecidable, [])
      else
        match ordinal wpos (dlist (default [] (dict_get (issue b) (cta, a))) ww) with
        | None => (Undecidable, [])
        | Some k =>
            match dict_get (default [] (dict_get (phase b) (cta, a, rw))) (Z.of_nat k) with
            | None => (NoWait, [])
            | Some p =>
                if (rpos <=? p)%nat then (NoWait, [])
                else
                  let j := join (evs_of rw) p rpos (mask (event_at rw rpos)) (event_at rw p) in
                  (if is_Some_dec j then WaitLinked else WaitLanesUnresolved,
                   step Wait (event_at rw p) :: steps_of Sync j)
            end
        end
  end.
End Handshake.

(** ** Dicts of dicts of lists, filled from the events *)

Definition get2 {K V} `{EqDecision K} (d : dict K (dict Z (list V))) (k : K) (w : Z) : list V :=
  dlist (default [] (dict_get d k)) w.

Lemma get2_push2 {K V} `{EqDecision K} (d : dict K (dict Z (list V))) k w v k' w' :
  get2 (push2 d k w v) k' w' = get2 d k' w' ++ (if decide (k = k' ∧ w = w') then [v] else []).
Proof.
  unfold get2, push2. rewrite dict_get_upd. destruct (decide (k = k')) as [<-|Hk].
  - cbn. rewrite dlist_push. destruct (decide (w = w')) as [<-|Hw].
    + by rewrite decide_True.
    + rewrite (decide_False (P := _ ∧ _)) by tauto. by rewrite app_nil_r.
  - rewrite (decide_False (P := _ ∧ _)) by tauto. by rewrite app_nil_r.
Qed.

(** Distinct keys at both levels, and no entry without a use. *)
Definition nested_wf {K V} `{EqDecision K} (d : dict K (dict Z (list V))) : Prop :=
  dict_wf d ∧ ∀ k i, (k, i) ∈ d → dict_wf i ∧ ∀ w l, (w, l) ∈ i → l ≠ [].

Lemma dict_set_In {K V} `{EqDecision K} (d : dict K V) k v e : e ∈ dict_set d k v → e = (k, v) ∨ e ∈ d.
Proof.
  induction d as [|[k' v'] d IH]; cbn.
  - rewrite list_elem_of_singleton. auto.
  - case_decide; rewrite !elem_of_cons; naive_solver.
Qed.

Lemma nested_inner {K V} `{EqDecision K} (d : dict K (dict Z (list V))) k :
  nested_wf d → dict_wf (default [] (dict_get d k)) ∧ ∀ w l, (w, l) ∈ default [] (dict_get d k) → l ≠ [].
Proof.
  intros [Hd Hi]. destruct (dict_get d k) as [i|] eqn:E; [exact (Hi _ _ (dict_get_In _ _ _ E))|].
  split; [constructor|by intros w l ?%elem_of_nil].
Qed.

Lemma nested_wf_push2 {K V} `{EqDecision K} (d : dict K (dict Z (list V))) k w v :
  nested_wf d → nested_wf (push2 d k w v).
Proof.
  intros [Hd Hi]. split; [by apply dict_wf_set|].
  intros k' i [[= -> ->]|Hin]%dict_set_In; [|by eapply Hi].
  destruct (nested_inner d k (conj Hd Hi)) as [H1 H2].
  split; [by apply dict_wf_set|]. intros w' l [[= -> ->]|?]%dict_set_In; [by intros [_ ?]%app_eq_nil|by eapply H2].
Qed.

Section Uses.
Context {K V : Type} `{EqDecision K}.
Variable cta_of : K → list Z.
Variable use : warp_key → Event → option (K * V).
Hypothesis use_cta : ∀ key ev k v, use key ev = Some (k, v) → cta_of k = key.1.

Definition push_opt (d : dict K (dict Z (list V))) (w : Z) (o : option (K * V)) : dict K (dict Z (list V)) :=
  match o with Some (k, v) => push2 d k w v | None => d end.
Definition push_events (key : warp_key) (evs : list Event) (d : dict K (dict Z (list V))) : dict K (dict Z (list V)) :=
  fold_left (λ d ev, push_opt d key.2 (use key ev)) evs d.
Definition push_all (pw : warps) (d : dict K (dict Z (list V))) : dict K (dict Z (list V)) :=
  fold_left (λ d (e : warp_key * list Event), push_events e.1 e.2 d) pw d.

(** What the events of one warp say of a key. *)
Definition used (key : warp_key) (k : K) (evs : list Event) : list V :=
  omap (λ ev, match use key ev with Some (k', v) => if decide (k' = k) then Some v else None | None => None end) evs.

Lemma push_events_get2 key evs d k w :
  get2 (push_events key evs d) k w = get2 d k w ++ (if decide (key.2 = w) then used key k evs else []).
Proof.
  unfold push_events. revert d. induction evs as [|ev evs IH]; intros d; cbn [fold_left].
  - unfold used. cbn. case_decide; by rewrite app_nil_r.
  - rewrite IH. unfold used at 2. cbn [omap list_omap]. destruct (use key ev) as [[k' v]|]; cbn [push_opt]; [|done].
    rewrite get2_push2, <- app_assoc. f_equal. destruct (decide (key.2 = w)) as [Hw|Hw].
    + destruct (decide (k' = k)) as [Hk|Hk]; [by rewrite decide_True|].
      by rewrite decide_False by tauto.
    + by rewrite decide_False by tauto.
Qed.

Lemma used_other_cta key k evs : cta_of k ≠ key.1 → used key k evs = [].
Proof.
  intros Hne. unfold used. induction evs as [|ev evs IH]; cbn; [done|].
  destruct (use key ev) as [[k' v]|] eqn:E; [|done]. case_decide as Hk; [|done]. subst k'.
  by apply use_cta in E.
Qed.

Lemma push_all_get2_from pw d k w :
  dict_wf pw →
  get2 (push_all pw d) k w = get2 d k w ++ used (cta_of k, w) k (dlist pw (cta_of k, w)).
Proof.
  unfold push_all, dict_wf. revert d. induction pw as [|[key evs] pw IH]; intros d; cbn [fold_left].
  - intros _. by rewrite app_nil_r.
  - intros [Hkey Hpw]%NoDup_cons. rewrite IH by done. cbn [fst snd]. rewrite push_events_get2, <- app_assoc. f_equal.
    destruct (decide ((cta_of k, w) = key)) as [<-|Hne].
    + cbn. rewrite decide_True by done. unfold dlist at 2. cbn. rewrite decide_True by done. cbn.
      apply (dict_get_None (K := warp_key)) in Hkey. unfold dlist. cbn in Hkey. rewrite Hkey. cbn. by rewrite app_nil_r.
    + unfold dlist at 2. cbn. rewrite (decide_False (P := (cta_of k, w) = key)) by done. fold (dlist pw (cta_of k, w)).
      case_decide as Hw; [|done]. rewrite used_other_cta; [done|]. intros Hc. apply Hne. destruct key. by cbn in *; subst.
Qed.

Lemma push_all_get2 pw k w :
  dict_wf pw → get2 (push_all pw []) k w = used (cta_of k, w) k (dlist pw (cta_of k, w)).
Proof. intros H. by rewrite push_all_get2_from. Qed.

Lemma push_all_wf pw d : nested_wf d → nested_wf (push_all pw d).
Proof.
  unfold push_all. revert d. induction pw as [|[key evs] pw IH]; intros d Hd; cbn [fold_left]; [done|].
  apply IH. cbn [fst snd]. unfold push_events. revert d Hd.
  induction evs as [|ev evs IHe]; intros d Hd; cbn [fold_left]; [done|]. apply IHe.
  destruct (use key ev) as [[k v]|]; cbn; [by apply nested_wf_push2|done].
Qed.
End Uses.

(** The uses of each table of [Barriers]. *)
Definition arrive_use (key : warp_key) (ev : Event) : option (mbar_key * nat) :=
  match knd ev, bar ev with Some mbar_arrive, Some a => Some ((key.1, a), pos ev) | _, _ => None end.
Definition wait_use (key : warp_key) (ev : Event) : option (mbar_key * (nat * token)) :=
  match knd ev, bar ev with
  | Some mbar_wait, Some a => if bool_decide (success ev = Some true) then Some ((key.1, a), (pos ev, tok ev)) else None
  | _, _ => None
  end.
Definition issue_use (key : warp_key) (ev : Event) : option (mbar_key * nat) :=
  match knd ev, src_bar ev with Some async_w, Some a => Some ((key.1, a), pos ev) | _, _ => None end.
Definition named_use (key : warp_key) (ev : Event) : option (named_key * (nat * kind)) :=
  match knd ev with
  | Some bar_sync => Some ((key.1, bar_id ev, bar_count ev), (pos ev, bar_sync))
  | Some bar_arv => Some ((key.1, bar_id ev, bar_count ev), (pos ev, bar_arv))
  | _ => None
  end.

Lemma fold_proj {S T A} (p : S → T) (f : S → A → S) (g : T → A → T) l s :
  (∀ s a, p (f s a) = g (p s) a) → p (fold_left f l s) = fold_left g l (p s).
Proof. intros H. revert s. induction l as [|a l IH]; intros s; cbn; [done|]. by rewrite IH, H. Qed.

Lemma collect_tables b key ev :
  arrive (collect b key ev) = push_opt (arrive b) key.2 (arrive_use key ev) ∧
  wait (collect b key ev) = push_opt (wait b) key.2 (wait_use key ev) ∧
  issue (collect b key ev) = push_opt (issue b) key.2 (issue_use key ev) ∧
  named (collect b key ev) = push_opt (named b) key.2 (named_use key ev).
Proof.
  unfold collect, arrive_use, wait_use, issue_use, named_use. destruct key as [c w].
  destruct (knd ev) as [[]|], (bar ev), (src_bar ev); cbn; try done; by case_bool_decide.
Qed.

Lemma collect_all_push {K V} `{EqDecision K} (p : Barriers → dict K (dict Z (list V))) use pw :
  (∀ b key ev, p (collect b key ev) = push_opt (p b) key.2 (use key ev)) →
  p (collect_all pw) = push_all use pw (p (mkBarriers [] [] [] [] [] [] [])).
Proof.
  intros H. unfold collect_all, push_all. apply fold_proj. intros b [key evs].
  unfold push_events. apply fold_proj. intros b' ev. apply H.
Qed.

Lemma collect_all_tables pw :
  arrive (collect_all pw) = push_all arrive_use pw [] ∧
  wait (collect_all pw) = push_all wait_use pw [] ∧
  issue (collect_all pw) = push_all issue_use pw [] ∧
  named (collect_all pw) = push_all named_use pw [].
Proof.
  split_and!; [apply (collect_all_push arrive)|apply (collect_all_push wait)|apply (collect_all_push issue)
    |apply (collect_all_push named)]; intros; apply collect_tables.
Qed.

(** ** Phases *)

(** The waits of a warp show phases in turn: parities, alternating. *)
Definition alternating (ws : list (nat * token)) : Prop :=
  Forall (λ w, w.2 = Token 0 ∨ w.2 = Token PARITY1) ws ∧
  ∀ i a b, ws !! i = Some a → ws !! S i = Some b → a.2 ≠ b.2.

Definition toks_valid (toks : list token) : bool := forallb token_ok toks && negb (repeats toks).

Lemma repeats_spec ts : repeats ts = false ↔ ∀ i a b, ts !! i = Some a → ts !! S i = Some b → a ≠ b.
Proof.
  induction ts as [|a [|b r] IH]; [done|..].
  - split; [|done]. intros _ [|i] x y; cbn; [done|]. by destruct i.
  - cbn [repeats]. rewrite orb_false_iff, bool_decide_eq_false, IH. split.
    + intros [Hab H] [|i] x y; [cbn; by intros [= <-] [= <-]|apply H].
    + intros H. split; [by apply (H 0%nat)|]. intros i. apply (H (S i)).
Qed.

Lemma toks_valid_spec ws : toks_valid ws.*2 = true ↔ alternating ws.
Proof.
  unfold toks_valid, alternating. rewrite andb_true_iff, negb_true_iff, repeats_spec. f_equiv.
  - rewrite forallb_forall, Forall_forall. setoid_rewrite <- list_elem_of_In. split.
    + intros H w Hw. specialize (H w.2 (list_elem_of_fmap_2 _ _ _ Hw)).
      apply orb_true_iff in H. by rewrite !bool_decide_eq_true in H.
    + intros H tk (w & -> & Hw)%list_elem_of_fmap. unfold token_ok. apply orb_true_iff.
      rewrite !bool_decide_eq_true. by apply H.
  - split.
    + intros H i a b Ha Hb. apply (H i); rewrite list_lookup_fmap; [by rewrite Ha|by rewrite Hb].
    + intros H i a b (x & -> & Hx)%list_lookup_fmap_Some (y & -> & Hy)%list_lookup_fmap_Some. by eapply H.
Qed.

Section Phases.
Implicit Types ph : dict (mbar_key * Z) (dict Z nat).

Definition phase_step ph (e : mbar_key * Z * list (nat * token)) : dict (mbar_key * Z) (dict Z nat) :=
  if toks_valid e.2.*2 then dict_set ph e.1 (phases_of e.2) else ph.

Lemma waiter_phases_snd key s w : (waiter_phases key s w).2 = phase_step s.2 (key, w.1, w.2).
Proof.
  unfold waiter_phases, phase_step, toks_valid. cbn [fst snd].
  destruct (existsb _ _) eqn:E.
  - apply existsb_exists in E as (tk & Hin & Hn). cbn.
    destruct (forallb token_ok _) eqn:F; [|done]. rewrite forallb_forall in F. by rewrite F in Hn.
  - assert (forallb token_ok w.2.*2 = true) as ->.
    { apply forallb_forall. intros x Hx. destruct (token_ok x) eqn:T; [done|].
      assert (existsb (λ tk, negb (token_ok tk)) w.2.*2 = true) as Hc; [|congruence].
      apply existsb_exists. exists x. by rewrite T. }
    cbn. by destruct (repeats _).
Qed.

Lemma barrier_phases_snd ini s e :
  (barrier_phases ini s e).2 = fold_left (λ ph w, phase_step ph (e.1, w.1, w.2)) e.2 s.2.
Proof.
  unfold barrier_phases. rewrite <- (fold_proj snd (waiter_phases e.1)) by (intros; apply waiter_phases_snd).
  by case_match.
Qed.

Definition flat2 {V} (d : dict mbar_key (dict Z (list V))) : list (mbar_key * Z * list V) :=
  d ≫= λ e, (λ w : Z * list V, (e.1, w.1, w.2)) <$> e.2.

Lemma phases_flat ini (d : dict mbar_key (dict Z (list (nat * token)))) s :
  (fold_left (barrier_phases ini) d s).2 = fold_left phase_step (flat2 d) s.2.
Proof.
  revert s. induction d as [|e d IH]; intros s; cbn [fold_left]; [done|].
  rewrite IH, barrier_phases_snd. unfold flat2. cbn [mbind list_bind]. rewrite fold_left_app. f_equal.
  destruct e as [k i], s as [p ph]. cbn [fst snd]. clear IH. revert ph.
  induction i as [|w i IHi]; intros ph; cbn; [done|]. apply IHi.
Qed.

Lemma phase_fold_get l ph k :
  NoDup l.*1 →
  dict_get (fold_left phase_step l ph) k =
  match dict_get l k with
  | Some ws => if toks_valid ws.*2 then Some (phases_of ws) else dict_get ph k
  | None => dict_get ph k
  end.
Proof.
  revert ph. induction l as [|[k' ws] l IH]; intros ph; cbn [fold_left]; [done|].
  intros [Hk Hl]%NoDup_cons. rewrite IH by done. cbn [dict_get]. case_decide as E.
  - subst k'. apply dict_get_None in Hk. cbn in Hk. rewrite Hk. unfold phase_step. cbn [fst snd].
    destruct (toks_valid _); [|done]. apply dict_get_set_eq.
  - assert (dict_get (phase_step ph (k', ws)) k = dict_get ph k) as ->; [|done].
    unfold phase_step. cbn [fst snd]. destruct (toks_valid _); [|done]. apply dict_get_set_ne. congruence.
Qed.

Lemma flat2_NoDup {V} (d : dict mbar_key (dict Z (list V))) : nested_wf d → NoDup (flat2 d).*1.
Proof.
  unfold flat2, nested_wf, dict_wf. induction d as [|[k i] d IH]; intros [Hd Hi]; cbn; [constructor|].
  apply NoDup_cons in Hd as [Hk Hd]. rewrite fmap_app. apply NoDup_app. split_and!.
  - destruct (Hi k i) as [Hw _]; [by left|]. rewrite <- list_fmap_compose.
    change (NoDup ((λ w : Z * list V, (k, w.1)) <$> i)).
    replace ((λ w : Z * list V, (k, w.1)) <$> i) with (pair k <$> i.*1) by (by rewrite <- list_fmap_compose).
    apply NoDup_fmap; [intros a b [= ->]; done|done].
  - intros x (e1 & -> & (w & -> & Hw)%list_elem_of_fmap)%list_elem_of_fmap
      (e2 & E & ([k3 i3] & (w' & -> & _)%list_elem_of_fmap & Hin)%list_elem_of_bind)%list_elem_of_fmap.
    cbn in E. injection E as E1 E2. apply Hk. cbn. apply list_elem_of_fmap. exists (k3, i3). by subst.
  - apply IH. split; [done|]. intros k' i' Hin. apply (Hi k' i'). by right.
Qed.

Lemma flat2_get {V} (d : dict mbar_key (dict Z (list V))) k w :
  nested_wf d → dict_get (flat2 d) (k, w) = dict_get (default [] (dict_get d k)) w.
Proof.
  intros Hwf. pose proof (flat2_NoDup d Hwf) as Hnd. destruct Hwf as [Hd Hi].
  destruct (dict_get (default [] (dict_get d k)) w) as [l|] eqn:E.
  - apply dict_wf_get; [done|]. destruct (dict_get d k) as [i|] eqn:Ek; [|done]. cbn in E.
    apply dict_get_In in E, Ek. unfold flat2. apply list_elem_of_bind. exists (k, i).
    split; [|done]. apply list_elem_of_fmap. by exists (w, l).
  - apply dict_get_None. intros (e & Ee & ([k2 i2] & (w' & -> & Hw)%list_elem_of_fmap & Hin)%list_elem_of_bind)%list_elem_of_fmap.
    cbn in *. injection Ee as -> ->. rewrite (dict_wf_get _ _ _ Hd Hin) in E. cbn in E. apply dict_get_None in E.
    apply E, list_elem_of_fmap. by exists w'.
Qed.
End Phases.

Section Tables.
Variable pw : warps.
Hypothesis Hpw : warps_wf pw.

Lemma barriers_tables :
  arrive (barriers_of pw) = push_all arrive_use pw [] ∧
  wait (barriers_of pw) = push_all wait_use pw [] ∧
  issue (barriers_of pw) = push_all issue_use pw [] ∧
  named (barriers_of pw) = push_all named_use pw [].
Proof. unfold barriers_of. destruct (fold_left _ (wait _) _). apply collect_all_tables. Qed.

Definition waits_of (c : list Z) (a w : Z) : list (nat * token) := used wait_use (c, w) (c, a) (dlist pw (c, w)).
Definition arrivals_of (c : list Z) (a w : Z) : list nat := used arrive_use (c, w) (c, a) (dlist pw (c, w)).
Definition issues_of (c : list Z) (a w : Z) : list nat := used issue_use (c, w) (c, a) (dlist pw (c, w)).
Definition named_of (c : list Z) (id count : option Z) (w : Z) : list (nat * kind) :=
  used named_use (c, w) (c, id, count) (dlist pw (c, w)).

Lemma nested_nil {K V} `{EqDecision K} : nested_wf (K := K) (V := V) [].
Proof. split; [constructor|by intros k i ?%elem_of_nil]. Qed.

Lemma tables_wf :
  nested_wf (arrive (barriers_of pw)) ∧ nested_wf (wait (barriers_of pw)) ∧
  nested_wf (issue (barriers_of pw)) ∧ nested_wf (named (barriers_of pw)).
Proof.
  destruct barriers_tables as (-> & -> & -> & ->). split_and!; apply push_all_wf, nested_nil.
Qed.

Lemma arrive_get2 c a w : get2 (arrive (barriers_of pw)) (c, a) w = arrivals_of c a w.
Proof.
  destruct barriers_tables as (-> & _). apply (push_all_get2 fst); [|apply Hpw].
  unfold arrive_use. intros key ev k v. repeat case_match; naive_solver.
Qed.
Lemma wait_get2 c a w : get2 (wait (barriers_of pw)) (c, a) w = waits_of c a w.
Proof.
  destruct barriers_tables as (_ & -> & _). apply (push_all_get2 fst); [|apply Hpw].
  unfold wait_use. intros key ev k v. repeat case_match; naive_solver.
Qed.
Lemma issue_get2 c a w : get2 (issue (barriers_of pw)) (c, a) w = issues_of c a w.
Proof.
  destruct barriers_tables as (_ & _ & -> & _). apply (push_all_get2 fst); [|apply Hpw].
  unfold issue_use. intros key ev k v. repeat case_match; naive_solver.
Qed.
Lemma named_get2 c id n w : get2 (named (barriers_of pw)) (c, id, n) w = named_of c id n w.
Proof.
  destruct barriers_tables as (_ & _ & _ & ->). apply (push_all_get2 (λ k, k.1.1)); [|apply Hpw].
  unfold named_use. intros key ev k v. repeat case_match; naive_solver.
Qed.

Lemma dict_get_nonempty {V} (i : dict Z (list V)) w :
  (∀ w l, (w, l) ∈ i → l ≠ []) →
  dict_get i w = match dlist i w with [] => None | l => Some l end.
Proof.
  intros H. unfold dlist. destruct (dict_get i w) as [l|] eqn:E; [|done]. cbn.
  apply dict_get_In in E. destruct l; [by apply H in E|done].
Qed.

(** The phases a warp observes on a barrier. *)
Lemma phase_get c a w :
  dict_get (phase (barriers_of pw)) (c, a, w) =
  if toks_valid (waits_of c a w).*2 && negb (bool_decide (waits_of c a w = []))
  then Some (phases_of (waits_of c a w)) else None.
Proof.
  destruct tables_wf as (_ & Hw & _ & _).
  assert (phase (barriers_of pw) = fold_left phase_step (flat2 (wait (barriers_of pw))) []) as ->.
  { unfold barriers_of. destruct (fold_left (barrier_phases _) _ _) as [p ph] eqn:E. cbn.
    apply (f_equal snd) in E. cbn in E. by rewrite phases_flat in E. }
  rewrite phase_fold_get by (by apply flat2_NoDup). rewrite flat2_get by done.
  rewrite dict_get_nonempty.
  2: { by apply nested_inner. }
  fold (get2 (wait (barriers_of pw)) (c, a) w). rewrite wait_get2.
  destruct (waits_of c a w) as [|x l] eqn:E; cbn; [done|].
  rewrite andb_true_r. done.
Qed.

(** ** Matched releases and acquires *)

(** The release of warp [w] at [p] and the acquire of warp [w2] at [p2] are of
    the same phase of a memory barrier, or the same invocation of a named one. *)
Inductive synchronizes (c : list Z) (w : Z) (p : nat) (w2 : Z) (p2 : nat) : Prop :=
| sync_mbar a k n tk :
    mbar_ok (barriers_of pw) c a = true →
    arrivals_of c a w !! k = Some p →
    alternating (waits_of c a w2) →
    waits_of c a w2 !! n = Some (p2, tk) →
    origin_of (waits_of c a w2).*2 + Z.of_nat n = Z.of_nat k →
    synchronizes c w p w2 p2
| sync_named id count k kd :
    has_problem (barriers_of pw) (BarKey c id count) = false →
    has_problem (barriers_of pw) (BarOf c) = false →
    w2 ≠ w →
    named_of c id count w !! k = Some (p, kd) →
    named_of c id count w2 !! k = Some (p2, bar_sync) →
    synchronizes c w p w2 p2.

Lemma used_elem {K V} `{EqDecision K} (use : warp_key → Event → option (K * V)) key k evs v :
  v ∈ used use key k evs ↔ ∃ ev, ev ∈ evs ∧ use key ev = Some (k, v).
Proof.
  unfold used. rewrite list_elem_of_omap. split; intros (ev & Hin & H); exists ev; (split; [done|]).
  - destruct (use key ev) as [[k' v']|]; [|done]. case_decide; [|done]. by simplify_eq.
  - rewrite H. by rewrite decide_True.
Qed.

(** Positions are in program order, so none repeats. *)
Lemma used_NoDup {K V} `{EqDecision K} (use : warp_key → Event → option (K * V)) (f : V → nat) c w k :
  (∀ ev v, use (c, w) ev = Some (k, v) → f v = pos ev) → NoDup (f <$> used use (c, w) k (dlist pw (c, w))).
Proof.
  intros Hf. assert (∀ i ev, dlist pw (c, w) !! i = Some ev → pos ev = (0 + i)%nat) as Hpos.
  { intros i ev H. cbn. by apply (ew_pos _ _ _ (proj2 Hpw _ _ _ H)). }
  revert Hpos. generalize 0%nat. induction (dlist pw (c, w)) as [|ev evs IH]; intros n Hpos; [constructor|].
  assert (∀ i ev, evs !! i = Some ev → pos ev = (S n + i)%nat) as Hpos'.
  { intros i e He. rewrite (Hpos (S i) e He). lia. }
  specialize (IH _ Hpos'). unfold used. cbn [omap list_omap].
  destruct (use (c, w) ev) as [[k' v]|] eqn:E; [|done]. case_decide as Hk; [subst k'|done].
  rewrite fmap_cons. constructor; [|done]. intros (v' & Hv & Hin)%list_elem_of_fmap.
  apply used_elem in Hin as (e & (i & Hi)%list_elem_of_lookup & He). apply Hf in E, He.
  rewrite (Hpos 0%nat ev eq_refl) in E. rewrite (Hpos' i e Hi) in He. lia.
Qed.

Lemma ordinal_spec x l k : NoDup l → ordinal x l = Some k ↔ l !! k = Some x.
Proof.
  intros Hnd. unfold ordinal. rewrite fmap_Some. split.
  - intros ([i y] & (H & -> & _)%list_find_Some & ->). exact H.
  - intros H. exists (k, x). split; [|done]. apply list_find_Some. split_and!; [done..|].
    intros j y Hj Hlt <-. pose proof (NoDup_lookup _ _ _ _ Hnd H Hj). lia.
Qed.

Lemma phases_get (ws : list (nat * token)) k q :
  dict_get (phases_of ws) k = Some q ↔ ∃ n tk, ws !! n = Some (q, tk) ∧ origin_of ws.*2 + Z.of_nat n = k.
Proof.
  unfold phases_of. generalize (origin_of ws.*2) as o. intros o.
  assert (∀ m, dict_get (imap (λ n w, (o + Z.of_nat (m + n), w.1)) ws) k = Some q ↔
    ∃ n tk, ws !! n = Some (q, tk) ∧ o + Z.of_nat (m + n) = k) as Hgen; [|exact (Hgen 0%nat)].
  induction ws as [|[q' tk'] ws IH]; intros m; cbn.
  - split; [done|]. by intros (n & tk & ? & _).
  - rewrite Nat.add_0_r. case_decide as E.
    + split; [intros [= <-]; exists 0%nat, tk'; rewrite Nat.add_0_r; done|].
      intros ([|n] & tk & Hn & Hk); [cbn in Hn; congruence|lia].
    + specialize (IH (S m)). erewrite imap_ext in IH; [unfold compose; rewrite IH|].
      2: { intros i x _. cbn. by rewrite Nat.add_succ_r. }
      split; intros (n & tk & Hn & Hk).
      * exists (S n), tk. split; [done|]. lia.
      * destruct n as [|n]; [exfalso; apply E; rewrite Nat.add_0_r in Hk; done|]. exists n, tk. split; [done|]. lia.
Qed.

Lemma mbar_links_spec c w p w2 p2 a i :
  dict_get (arrive (barriers_of pw)) (c, a) = Some i →
  (w2, p2) ∈ mbar_links (barriers_of pw) c w p ((c, a), i) ↔
  ∃ k n tk, mbar_ok (barriers_of pw) c a = true ∧ arrivals_of c a w !! k = Some p ∧ alternating (waits_of c a w2) ∧
    waits_of c a w2 !! n = Some (p2, tk) ∧ origin_of (waits_of c a w2).*2 + Z.of_nat n = Z.of_nat k.
Proof.
  intros Hi. unfold mbar_links. cbn [fst snd]. rewrite bool_decide_true by done. cbn [andb].
  destruct (mbar_ok _ c a); [|split; [by intros ?%elem_of_nil|naive_solver]].
  assert (dlist i w = arrivals_of c a w) as Harr.
  { rewrite <- arrive_get2. unfold get2. by rewrite Hi. }
  rewrite Harr. assert (NoDup (arrivals_of c a w)) as Hnd.
  { rewrite <- (list_fmap_id (arrivals_of c a w)). apply used_NoDup. unfold arrive_use.
    intros ev v H. repeat case_match; naive_solver. }
  destruct (ordinal p (arrivals_of c a w)) as [k|] eqn:Ek.
  - apply ordinal_spec in Ek; [|done]. rewrite list_elem_of_omap. split.
    + intros (w' & Hw & (q & H & [= -> ->])%fmap_Some). rewrite phase_get in H.
      destruct (toks_valid _) eqn:Et; [|done]. destruct (bool_decide _); [done|]. cbn in H.
      apply phases_get in H as (n & tk & Hn & Hk). exists k, n, tk. by rewrite <- toks_valid_spec.
    + intros (k' & n & tk & _ & Hk' & Halt & Hn & Horig).
      rewrite (NoDup_lookup _ _ _ _ Hnd Hk' Ek) in Horig.
      exists w2. split.
      * assert (dlist (default [] (dict_get (wait (barriers_of pw)) (c, a))) w2 = waits_of c a w2) as Hw by apply wait_get2.
        unfold dlist in Hw. destruct (dict_get (default [] _) w2) as [l|] eqn:E.
        -- apply dict_get_In in E. apply list_elem_of_fmap. by exists (w2, l).
        -- cbn in Hw. by rewrite <- Hw in Hn.
      * apply fmap_Some. exists p2. split; [|done]. rewrite phase_get.
        rewrite <- toks_valid_spec in Halt. rewrite Halt. rewrite bool_decide_false; [|intros E0; by rewrite E0 in Hn].
        cbn. apply phases_get. by exists n, tk.
  - split; [by intros ?%elem_of_nil|]. intros (k & n & tk & _ & Hk & _).
    apply ordinal_spec in Hk; [|done]. congruence.
Qed.

Lemma named_links_spec c w p w2 p2 id count i :
  dict_get (named (barriers_of pw)) (c, id, count) = Some i →
  (w2, p2) ∈ named_links (barriers_of pw) c w p ((c, id, count), i) ↔
  ∃ k kd, has_problem (barriers_of pw) (BarKey c id count) = false ∧ has_problem (barriers_of pw) (BarOf c) = false ∧
    w2 ≠ w ∧ named_of c id count w !! k = Some (p, kd) ∧ named_of c id count w2 !! k = Some (p2, bar_sync).
Proof.
  intros Hi. unfold named_links. cbn [fst snd]. rewrite bool_decide_true by done.
  destruct (has_problem _ (BarKey _ _ _)); [split; [by intros ?%elem_of_nil|naive_solver]|].
  destruct (has_problem _ (BarOf _)); [split; [by intros ?%elem_of_nil|naive_solver]|]. cbn [andb negb].
  assert (∀ w, dlist i w = named_of c id count w) as Hl.
  { intros w'. rewrite <- named_get2. unfold get2. by rewrite Hi. }
  rewrite Hl. assert (NoDup (named_of c id count w).*1) as Hnd.
  { apply used_NoDup. unfold named_use. intros ev v H. repeat case_match; naive_solver. }
  destruct (proj2 (proj2 (proj2 tables_wf))) as [_ Hin]. apply dict_get_In in Hi as Hii. apply Hin in Hii as [Hd _].
  destruct (ordinal p (named_of c id count w).*1) as [k|] eqn:Ek.
  - apply ordinal_spec in Ek; [|done]. apply list_lookup_fmap_Some in Ek as ([p0 kd] & Ep & Hk). cbn in Ep. subst p0.
    rewrite list_elem_of_omap. split.
    + intros ([w' l] & Hw & H). cbn in H. destruct (l !! k) as [[q kq]|] eqn:Eq; [|done].
      repeat case_bool_decide; cbn in H; simplify_eq. exists k, kd.
      rewrite <- (Hl w2). unfold dlist. by rewrite (dict_wf_get _ _ _ Hd Hw).
    + intros (k' & kd' & _ & _ & Hne & Hk' & Hq).
      assert (k' = k) as ->.
      { apply (NoDup_lookup _ _ _ p Hnd); by rewrite list_lookup_fmap, ?Hk, ?Hk'. }
      exists (w2, named_of c id count w2). cbn. rewrite Hq, !bool_decide_true by done. split; [|done].
      rewrite <- (Hl w2) in Hq |- *. unfold dlist in *. destruct (dict_get i w2) as [l|] eqn:E; [|done].
      by apply dict_get_In.
  - split; [by intros ?%elem_of_nil|]. intros (k & kd & _ & _ & _ & Hk & _).
    assert (ordinal p (named_of c id count w).*1 = Some k); [|congruence].
    apply ordinal_spec; [done|]. by rewrite list_lookup_fmap, Hk.
Qed.

Lemma links_from_spec c w p w2 p2 :
  (w2, p2) ∈ links_from (barriers_of pw) c w p ↔ synchronizes c w p w2 p2.
Proof.
  destruct tables_wf as ([Harr _] & _ & _ & [Hnam _]).
  unfold links_from. rewrite elem_of_app, !list_elem_of_bind. split.
  - intros [([[c' a] i] & Hl & Hin)|([[[c' id] count] i] & Hl & Hin)].
    + assert (c' = c) as -> by (unfold mbar_links in Hl; cbn in Hl; case_bool_decide; [done|by apply elem_of_nil in Hl]).
      apply mbar_links_spec in Hl as (k & n & tk & H1 & H2 & H3 & H4 & H5);
        [by eapply sync_mbar|by apply dict_wf_get].
    + assert (c' = c) as -> by (unfold named_links in Hl; cbn in Hl; case_bool_decide; [done|by apply elem_of_nil in Hl]).
      apply named_links_spec in Hl as (k & kd & H1 & H2 & H3 & H4 & H5);
        [by eapply sync_named|by apply dict_wf_get].
  - intros [a k n tk H1 H2 H3 H4 H5|id count k kd H1 H2 H3 H4 H5]; [left|right].
    + destruct (dict_get (arrive (barriers_of pw)) (c, a)) as [i|] eqn:E.
      * exists ((c, a), i). split; [|by apply dict_get_In]. apply mbar_links_spec; [done|]. by exists k, n, tk.
      * pose proof (arrive_get2 c a w) as Hg. unfold get2 in Hg. rewrite E in Hg. cbn in Hg.
        by rewrite <- Hg in H2.
    + destruct (dict_get (named (barriers_of pw)) (c, id, count)) as [i|] eqn:E.
      * exists ((c, id, count), i). split; [|by apply dict_get_In]. apply named_links_spec; [done|]. by exists k, kd.
      * pose proof (named_get2 c id count w) as Hg. unfold get2 in Hg. rewrite E in Hg. cbn in Hg.
        by rewrite <- Hg in H4.
Qed.
End Tables.

(** ** What chains mean: an order on what lanes do

    A node is what one lane does at one position of a warp.  Lanes follow
    program order, a warp-wide sync orders all its lanes with each other, and a
    release orders its lanes before every lane of an acquire it matches. *)

Definition node : Type := Z * nat * Z.

Definition sync_lane (e : Event) (l : Z) : Prop :=
  match knd e with
  | Some bar_sync => Z.testbit (mask e) l = true
  | Some warp_sync => Z.testbit (Z.land (mask e) (default 0 (members e))) l = true
  | _ => False
  end.

Section Order.
Variable pw : warps.
Variable c : list Z.

Definition active_at (w : Z) (p : nat) (l : Z) : Prop :=
  ∃ ev, evs_of pw c w !! p = Some ev ∧ Z.testbit (mask ev) l = true.

Inductive before1 : node → node → Prop :=
| before_program w p q l :
    (p < q)%nat → active_at w p l → active_at w q l → before1 (w, p, l) (w, q, l)
| before_sync w p e l l' :
    evs_of pw c w !! p = Some e → sync_lane e l → sync_lane e l' → before1 (w, p, l) (w, p, l')
| before_release w p l w' p' l' :
    synchronizes pw c w p w' p' → active_at w p l → active_at w' p' l' → before1 (w, p, l) (w', p', l').
Definition before : node → node → Prop := rtc before1.

(** [lanes] are ordered with [anchor], by lane or by a sync strictly between. *)
Definition lane_joined (w : Z) (lo hi : nat) (lanes : Z) (anchor : Event) : Prop :=
  covers (mask anchor) lanes = true ∨
  ∃ q e, (lo < q < hi)%nat ∧ evs_of pw c w !! q = Some e ∧ syncs (Z.lor lanes (mask anchor)) e = true.
End Order.

Lemma covers_spec m x : covers m x = true ↔ ∀ l, Z.testbit x l = true → Z.testbit m l = true.
Proof.
  unfold covers. rewrite Z.eqb_eq. split.
  - intros <- l. rewrite Z.land_spec. by intros [H _]%andb_true_iff.
  - intros H. apply Z.bits_inj. intros l. rewrite Z.land_spec. specialize (H l).
    destruct (Z.testbit x l); [by rewrite H|by rewrite andb_false_r].
Qed.

Lemma covers_trans a b d : covers a b = true → covers b d = true → covers a d = true.
Proof. rewrite !covers_spec. auto. Qed.

Lemma syncs_lane need e l : syncs need e = true → Z.testbit need l = true → sync_lane e l.
Proof.
  unfold syncs, sync_lane. destruct (knd e) as [[]|]; try done; rewrite covers_spec; auto.
Qed.

Lemma between_elem (evs : list Event) lo hi e :
  e ∈ between evs lo hi ↔ ∃ q, (lo < q < hi)%nat ∧ evs !! q = Some e.
Proof.
  unfold between. rewrite list_elem_of_lookup. split.
  - intros (i & Hi). rewrite lookup_drop in Hi. apply lookup_take_Some in Hi as [Hi Hlt].
    exists (S lo + i)%nat. split; [lia|done].
  - intros (q & Hq & H). exists (q - S lo)%nat. rewrite lookup_drop. apply lookup_take_Some.
    replace (S lo + (q - S lo))%nat with q by lia. split; [done|lia].
Qed.

Lemma join_spec pw c w lo hi lanes anchor :
  is_Some (join (evs_of pw c w) lo hi lanes anchor) ↔ lane_joined pw c w lo hi lanes anchor.
Proof.
  unfold join, lane_joined. destruct (covers (mask anchor) lanes); [split; [by left|by eexists]|].
  destruct (List.find _ _) as [e|] eqn:E.
  - split; [|by eexists]. intros _. right. apply find_some in E as [Hin Hs].
    apply list_elem_of_In, between_elem in Hin as (q & Hq & He). by exists q, e.
  - split; [by intros [? ?]|]. intros [?|(q & e & Hq & He & Hs)]; [done|].
    rewrite (find_none _ _ E e) in Hs; [done|]. apply list_elem_of_In, between_elem. by exists q.
Qed.

Lemma lane_of m : 0 < m → ∃ l, Z.testbit m l = true.
Proof. intros H. exists (Z.log2 m). by apply Z.bit_log2. Qed.

Section OrderFacts.
Variables (pw : warps) (c : list Z).
Hypothesis Hpw : warps_wf pw.
Local Abbreviation evs := (evs_of pw c).

Lemma evs_wf w p ev : evs w !! p = Some ev → event_wf (c, w) p ev.
Proof. intros H. by apply (proj2 Hpw). Qed.

(** A sync between two events orders the lanes it includes. *)
Lemma through_sync w lo q hi x e y need l r :
  (lo < q < hi)%nat → evs w !! lo = Some x → evs w !! q = Some e → evs w !! hi = Some y →
  syncs need e = true → Z.testbit need l = true → Z.testbit need r = true →
  Z.testbit (mask x) l = true → Z.testbit (mask y) r = true → before pw c (w, lo, l) (w, hi, r).
Proof.
  intros Hq Hx He Hy Hs Hl Hr Hxl Hyr.
  assert (∀ l, Z.testbit need l = true → sync_lane e l) as Hsync by (intros ?; by apply syncs_lane).
  assert (∀ l, sync_lane e l → active_at pw c w q l) as Hact.
  { intros l' H. exists e. split; [done|]. unfold sync_lane in H.
    destruct (knd e) as [[]|]; try done. rewrite Z.land_spec in H. by apply andb_true_iff in H as [? _]. }
  eapply rtc_l; [apply (before_program _ _ w lo q l); [lia|by exists x|by auto]|].
  eapply rtc_l; [by eapply before_sync; eauto|].
  apply rtc_once, before_program; [lia|by auto|by exists y].
Qed.

(** Lanes of the first event of a warp come before some lane of the second. *)
Lemma join_forward w lo hi lanes x anchor l :
  lane_joined pw c w lo hi lanes anchor → (lo < hi)%nat →
  evs w !! lo = Some x → evs w !! hi = Some anchor → covers (mask x) lanes = true → Z.testbit lanes l = true →
  ∃ r, Z.testbit (mask anchor) r = true ∧ before pw c (w, lo, l) (w, hi, r).
Proof.
  intros Hj Hlt Hx Ha Hc Hl. rewrite covers_spec in Hc. destruct Hj as [Hj|(q & e & Hq & He & Hs)].
  - rewrite covers_spec in Hj. exists l. split; [by apply Hj|].
    apply rtc_once, before_program; [done|by exists x; auto|by exists anchor; auto].
  - destruct (lane_of (mask anchor)) as [r Hr]; [by apply (ew_mask _ _ _ (evs_wf _ _ _ Ha))|].
    exists r. split; [done|]. eapply through_sync; try done; [by rewrite Z.lor_spec, Hl| |by apply Hc].
    rewrite Z.lor_spec, Hr. apply orb_true_r.
Qed.

(** Some lane of the first event comes before each lane of the second. *)
Lemma join_backward w lo hi anchor y l :
  lane_joined pw c w lo hi (mask y) anchor → (lo < hi)%nat →
  evs w !! lo = Some anchor → evs w !! hi = Some y → Z.testbit (mask y) l = true →
  ∃ r, Z.testbit (mask anchor) r = true ∧ before pw c (w, lo, r) (w, hi, l).
Proof.
  intros Hj Hlt Ha Hy Hl. destruct Hj as [Hj|(q & e & Hq & He & Hs)].
  - rewrite covers_spec in Hj. exists l. split; [by apply Hj|].
    apply rtc_once, before_program; [done|by exists anchor; auto|by exists y].
  - destruct (lane_of (mask anchor)) as [r Hr]; [by apply (ew_mask _ _ _ (evs_wf _ _ _ Ha))|].
    exists r. split; [done|]. eapply through_sync; try done; [|by rewrite Z.lor_spec, Hl].
    rewrite Z.lor_spec, Hr. apply orb_true_r.
Qed.

(** ** What a match is a match of *)

Lemma used_at {K V} `{EqDecision K} (use : warp_key → Event → option (K * V)) k w v :
  v ∈ used use (c, w) k (dlist pw (c, w)) →
  ∃ ev, evs w !! pos ev = Some ev ∧ use (c, w) ev = Some (k, v).
Proof.
  intros (ev & (i & Hi)%list_elem_of_lookup & Hu)%used_elem. exists ev. split; [|done].
  by rewrite (ew_pos _ _ _ (evs_wf _ _ _ Hi)).
Qed.

Lemma synchronizes_events w p w2 p2 :
  synchronizes pw c w p w2 p2 →
  ∃ rel acq, evs w !! p = Some rel ∧ is_release (knd rel) = true ∧ evs w2 !! p2 = Some acq.
Proof.
  intros [a k n tk _ Hr _ Hw _|id count k kd _ _ _ Hr Hw].
  - apply list_elem_of_lookup_2, used_at in Hr as (rel & Hrel & Hu).
    apply list_elem_of_lookup_2, used_at in Hw as (acq & Hacq & Hu2).
    unfold arrive_use in Hu. unfold wait_use in Hu2. exists rel, acq.
    destruct (knd rel) as [[]|] eqn:Ek; try done. destruct (bar rel); [|done]. injection Hu as _ <-.
    destruct (knd acq) as [[]|]; try done. destruct (bar acq); [|done]. case_bool_decide; [|done].
    injection Hu2 as _ <- _. by split_and!.
  - apply list_elem_of_lookup_2, used_at in Hr as (rel & Hrel & Hu).
    apply list_elem_of_lookup_2, used_at in Hw as (acq & Hacq & Hu2).
    unfold named_use in *. exists rel, acq.
    destruct (knd rel) as [[]|] eqn:Ek; simplify_eq; destruct (knd acq) as [[]|]; simplify_eq; by split_and!.
Qed.

(** A release matches at most one acquire of each warp. *)
Lemma synchronizes_fun w p w2 q q' :
  synchronizes pw c w p w2 q → synchronizes pw c w p w2 q' → q = q'.
Proof.
  assert (∀ a w, NoDup (arrivals_of pw c a w)) as Hnd.
  { intros a w'. rewrite <- (list_fmap_id (arrivals_of _ _ _ _)). apply used_NoDup; [done|].
    unfold arrive_use. intros ev v H. repeat case_match; naive_solver. }
  assert (∀ id count w, NoDup (named_of pw c id count w).*1) as Hnd2.
  { intros id count w'. apply used_NoDup; [done|]. unfold named_use. intros ev v H. repeat case_match; naive_solver. }
  assert (∀ a k, arrivals_of pw c a w !! k = Some p → ∃ ev, evs w !! p = Some ev ∧ knd ev = Some mbar_arrive ∧ bar ev = Some a) as Ha.
  { intros a k H. apply list_elem_of_lookup_2, used_at in H as (ev & Hev & Hu).
    unfold arrive_use in Hu. repeat case_match; simplify_eq. eauto. }
  assert (∀ id count k kd, named_of pw c id count w !! k = Some (p, kd) →
    ∃ ev, evs w !! p = Some ev ∧ (knd ev = Some bar_sync ∨ knd ev = Some bar_arv) ∧ bar_id ev = id ∧ bar_count ev = count) as Hb.
  { intros id count k kd H. apply list_elem_of_lookup_2, used_at in H as (ev & Hev & Hu).
    unfold named_use in Hu. repeat case_match; simplify_eq; eauto 10. }
  intros [a k n tk _ Hr _ Hw Ho|id count k kd _ _ _ Hr Hw] [a' k' n' tk' _ Hr' _ Hw' Ho'|id' count' k' kd' _ _ _ Hr' Hw'];
    try (apply Ha in Hr as Hx); try (apply Hb in Hr as Hx); try (apply Ha in Hr' as Hx'); try (apply Hb in Hr' as Hx').
  - destruct Hx as (ev & E1 & _ & E2), Hx' as (ev' & E1' & _ & E2'). simplify_eq.
    pose proof (NoDup_lookup _ _ _ _ (Hnd _ _) Hr Hr'). subst k'. assert (n' = n) as -> by lia. congruence.
  - destruct Hx as (ev & E1 & E2 & _), Hx' as (ev' & E1' & [E2'|E2'] & _); congruence.
  - destruct Hx as (ev & E1 & [E2|E2] & _), Hx' as (ev' & E1' & E2' & _); congruence.
  - assert (id' = id ∧ count' = count) as [-> ->].
    { destruct Hx as (ev & E1 & _ & E2 & E3), Hx' as (ev' & E1' & _ & E2' & E3'). split; congruence. }
    assert (k = k') as ->; [|congruence].
    apply (NoDup_lookup _ _ _ p (Hnd2 id count w)); by rewrite list_lookup_fmap, ?Hr, ?Hr'.
Qed.

Lemma before_sync_edge w p l w2 p2 l2 rel acq :
  synchronizes pw c w p w2 p2 → evs w !! p = Some rel → evs w2 !! p2 = Some acq →
  Z.testbit (mask rel) l = true → Z.testbit (mask acq) l2 = true → before pw c (w, p, l) (w2, p2, l2).
Proof. intros H Hr Ha Hl Hl2. apply rtc_once, before_release; [done|by exists rel|by exists acq]. Qed.
End OrderFacts.

(** ** Chains from one access to another *)

Section Chains.
Variables (pw : warps) (c : list Z).
Hypothesis Hpw : warps_wf pw.
Variables (w1 : Z) (p1 : nat) (x : Event) (w2 : Z) (p2 : nat) (y : Event).
Local Abbreviation evs := (evs_of pw c).
Local Abbreviation b := (barriers_of pw).
Hypothesis Hx : evs w1 !! p1 = Some x.
Hypothesis Hy : evs w2 !! p2 = Some y.

(** From the release at [q] of the first warp to the second access: directly,
    or through an acquire and a release of one other warp. *)
Definition tail_direct (q : nat) : Prop :=
  ∃ a acq, synchronizes pw c w1 q w2 a ∧ (a < p2)%nat ∧ evs w2 !! a = Some acq ∧
    lane_joined pw c w2 a p2 (mask y) acq.
Definition tail_via (q : nat) : Prop :=
  ∃ wx a acqx q2 rel2 a2 acq2,
    synchronizes pw c w1 q wx a ∧ evs wx !! a = Some acqx ∧
    (a < q2)%nat ∧ evs wx !! q2 = Some rel2 ∧ lane_joined pw c wx a q2 (mask rel2) acqx ∧
    synchronizes pw c wx q2 w2 a2 ∧ (a2 < p2)%nat ∧ evs w2 !! a2 = Some acq2 ∧
    lane_joined pw c w2 a2 p2 (mask y) acq2.

(** The lanes of the first access reach the release at [q], from position [lo]. *)
Definition reaches (lo q : nat) : Prop :=
  (lo < q)%nat ∧ ∃ rel, evs w1 !! q = Some rel ∧ is_release (knd rel) = true ∧ lane_joined pw c w1 lo q (mask x) rel.

Definition chained (q : nat) : Prop := reaches p1 q ∧ (tail_direct q ∨ tail_via q).

(** A proxy fence at [f] that every lane of the access executes. *)
Definition fence_at (f : nat) : Prop :=
  (p1 < f)%nat ∧ ∃ fe, evs w1 !! f = Some fe ∧ knd fe = Some fence_s ∧ covers (mask fe) (mask x) = true.
Definition fenced (q : nat) : Prop := ∃ f, fence_at f ∧ reaches f q.

(** *** A chain orders every lane of the first access before every lane of the
    second *)

Lemma tail_before q rel r l :
  evs w1 !! q = Some rel → tail_direct q ∨ tail_via q →
  Z.testbit (mask rel) r = true → Z.testbit (mask y) l = true → before pw c (w1, q, r) (w2, p2, l).
Proof.
  intros Hrel Ht Hr Hl.
  destruct Ht as [(a & acq & Hs & Ha & Hacq & Hj)|(wx & a & acqx & q2 & rel2 & a2 & acq2 & Hs & Hax & Hlt & Hr2 & Hm & Hs2 & Ha2 & Hacq2 & Hj)].
  - destruct (join_backward _ _ Hpw _ _ _ _ _ _ Hj Ha Hacq Hy Hl) as (r' & Hr' & Hb).
    etrans; [|exact Hb]. by eapply before_sync_edge.
  - destruct (join_backward _ _ Hpw _ _ _ _ _ _ Hj Ha2 Hacq2 Hy Hl) as (r2 & Hr2' & Hb).
    etrans; [|exact Hb]. destruct (lane_of (mask rel2)) as [s Hsl]; [by apply (ew_mask _ _ _ (evs_wf _ _ Hpw _ _ _ Hr2))|].
    etrans; [|by eapply (before_sync_edge _ _ _ _ s)].
    destruct (join_backward _ _ Hpw _ _ _ _ _ _ Hm Hlt Hax Hr2 Hsl) as (s' & Hs' & Hb').
    etrans; [|exact Hb']. by eapply before_sync_edge.
Qed.

Lemma chain_before lo q z l1 l2 :
  reaches lo q → tail_direct q ∨ tail_via q →
  evs w1 !! lo = Some z → covers (mask z) (mask x) = true →
  Z.testbit (mask x) l1 = true → Z.testbit (mask y) l2 = true → before pw c (w1, lo, l1) (w2, p2, l2).
Proof.
  intros (Hlt & rel & Hrel & _ & Hj) Ht Hz Hc Hl1 Hl2.
  destruct (join_forward _ _ Hpw _ _ _ _ _ _ _ Hj Hlt Hz Hrel Hc Hl1) as (r & Hr & Hb).
  etrans; [exact Hb|]. by eapply tail_before.
Qed.

Lemma covers_refl m : covers m m = true.
Proof. by apply covers_spec. Qed.

Lemma chained_before q l1 l2 :
  chained q → Z.testbit (mask x) l1 = true → Z.testbit (mask y) l2 = true → before pw c (w1, p1, l1) (w2, p2, l2).
Proof. intros [Hr Ht] H1 H2. eapply chain_before; eauto using covers_refl. Qed.

(** *** The evidence of one release *)

Lemma event_at_eq w p ev : evs w !! p = Some ev → event_at pw c w p = ev.
Proof. intros H. unfold event_at. by rewrite H. Qed.

Lemma releases_after_elem w p rel :
  rel ∈ releases_after (evs w) p ↔ (p < pos rel)%nat ∧ evs w !! pos rel = Some rel ∧ is_release (knd rel) = true.
Proof.
  unfold releases_after. rewrite list_elem_of_In, filter_In, <- list_elem_of_In, list_elem_of_lookup. split.
  - intros [(i & Hi) Hk]. rewrite lookup_drop in Hi. pose proof (ew_pos _ _ _ (evs_wf _ _ Hpw _ _ _ Hi)) as E.
    rewrite E. split_and!; [lia|done|done].
  - intros (Hlt & Hl & Hk). split; [|done]. exists (pos rel - S p)%nat. rewrite lookup_drop.
    by replace (S p + (pos rel - S p))%nat with (pos rel) by lia.
Qed.

Lemma last_hop_spec a acq :
  evs w2 !! a = Some acq → is_Some (last_hop pw c w2 p2 a) ↔ lane_joined pw c w2 a p2 (mask y) acq.
Proof. intros H. unfold last_hop. rewrite (event_at_eq _ _ _ H), (event_at_eq _ _ _ Hy). apply join_spec. Qed.

Lemma find_unique {A} (f : A → bool) l a :
  a ∈ l → f a = true → (∀ a', a' ∈ l → f a' = true → a' = a) → List.find f l = Some a.
Proof.
  intros Hin Hf Hu. destruct (List.find f l) as [a'|] eqn:E.
  - apply find_some in E as [Hin' Hf']. f_equal. apply Hu; [by apply list_elem_of_In|done].
  - rewrite (find_none _ _ E a) in Hf; [done|by apply list_elem_of_In].
Qed.

Lemma direct_linked hd j_rel rel :
  fst <$> direct pw b c w1 w2 p2 hd j_rel rel = Some Linked ↔ is_Some j_rel ∧ tail_direct (pos rel).
Proof.
  unfold direct. split.
  - destruct (List.find _ _) as [[w a]|] eqn:E; [|done].
    apply find_some in E as [Hin Hf]. cbn in Hf. apply andb_true_iff in Hf as [->%bool_decide_eq_true Ha%Nat.ltb_lt].
    apply list_elem_of_In, links_from_spec in Hin; [|done].
    destruct (synchronizes_events _ _ Hpw _ _ _ _ Hin) as (_ & acq & _ & _ & Hacq).
    destruct (is_Some_dec j_rel); [|done]. destruct (is_Some_dec (last_hop _ _ _ _ _)) as [Hl|]; [|done].
    intros _. split; [done|]. exists a, acq. split_and!; try done. by apply last_hop_spec.
  - intros (Hj & a & acq & Hs & Ha & Hacq & Hl). apply links_from_spec in Hs as Hin; [|done].
    rewrite (find_unique _ _ (w2, a) Hin).
    + cbn. apply last_hop_spec in Hl; [|done]. destruct (is_Some_dec j_rel); [|done].
      by destruct (is_Some_dec (last_hop _ _ _ _ _)).
    + cbn. rewrite bool_decide_true by done. by apply Nat.ltb_lt.
    + intros [w' a'] Hin' Hf. cbn in Hf. apply andb_true_iff in Hf as [->%bool_decide_eq_true _].
      f_equal. apply links_from_spec in Hin'; [|done]. by eapply synchronizes_fun.
Qed.

Lemma direct_not_via hd j_rel rel l : fst <$> direct pw b c w1 w2 p2 hd j_rel rel = Some l → l = Linked ∨ l = LanesUnresolved.
Proof.
  unfold direct. destruct (List.find _ _) as [[w a]|]; [|done]. cbn.
  repeat case_match; intros [= <-]; auto.
Qed.

Lemma indirect_resolved hd j_rel rel :
  (∃ l, l ∈ indirect pw b c w1 w2 p2 hd j_rel rel ∧ resolved l.1 = true) ↔ is_Some j_rel ∧ tail_via (pos rel).
Proof.
  unfold indirect. setoid_rewrite list_elem_of_bind. split.
  - intros (l & ([wx a] & (rel2 & ([wy a2] & Hl & Hin2)%list_elem_of_bind & Hrel2)%list_elem_of_bind & Hin) & Hres).
    destruct (bool_decide (wy = w2) && (a2 <? p2)%nat) eqn:E; [|by apply elem_of_nil in Hl].
    apply andb_true_iff in E as [->%bool_decide_eq_true Ha2%Nat.ltb_lt].
    apply list_elem_of_singleton in Hl as ->. cbn in Hres.
    destruct (is_Some_dec j_rel) as [Hj|]; [|done]. destruct (is_Some_dec (join _ _ _ _ _)) as [Hm|]; [|done].
    destruct (is_Some_dec (last_hop _ _ _ _ _)) as [Hl|]; [|done]. split; [done|].
    apply links_from_spec in Hin, Hin2; [|done..]. apply releases_after_elem in Hrel2 as (Hlt & Hr2 & _).
    destruct (synchronizes_events _ _ Hpw _ _ _ _ Hin) as (_ & acqx & _ & _ & Hax).
    destruct (synchronizes_events _ _ Hpw _ _ _ _ Hin2) as (_ & acq2 & _ & _ & Ha2').
    exists wx, a, acqx, (pos rel2), rel2, a2, acq2. split_and!; try done.
    + rewrite (event_at_eq _ _ _ Hax) in Hm. by apply join_spec in Hm.
    + by apply last_hop_spec.
  - intros (Hj & wx & a & acqx & q2 & rel2 & a2 & acq2 & Hs & Hax & Hlt & Hr2 & Hm & Hs2 & Ha2 & Hacq2 & Hl).
    pose proof (ew_pos _ _ _ (evs_wf _ _ Hpw _ _ _ Hr2)) as Ep. subst q2.
    destruct (synchronizes_events _ _ Hpw _ _ _ _ Hs2) as (rel2' & _ & E & Hk & _).
    assert (rel2' = rel2) as -> by congruence.
    eexists. split.
    + exists (wx, a). split; [|by apply links_from_spec]. apply list_elem_of_bind.
      exists rel2. split; [|by apply releases_after_elem]. apply list_elem_of_bind.
      exists (w2, a2). split; [|by apply links_from_spec]. rewrite bool_decide_true by done.
      apply Nat.ltb_lt in Ha2. rewrite Ha2. cbn. by left.
    + cbn. rewrite (event_at_eq _ _ _ Hax). apply join_spec in Hm. apply last_hop_spec in Hl; [|done].
      destruct (is_Some_dec j_rel); [|done]. destruct (is_Some_dec (join _ _ _ _ _)); [|done].
      by destruct (is_Some_dec (last_hop _ _ _ _ _)).
Qed.

Lemma better_resolved ls cur :
  resolved (default LanesUnresolved (fst <$> fold_left better ls cur)) = true ↔
  resolved (default LanesUnresolved (fst <$> cur)) = true ∨ ∃ l, l ∈ ls ∧ resolved l.1 = true.
Proof.
  revert cur. induction ls as [|l ls IH]; intros cur; cbn [fold_left].
  - split; [by left|]. intros [?|(l & ?%elem_of_nil & _)]; done.
  - rewrite IH. assert (resolved (default LanesUnresolved (fst <$> better cur l)) = true ↔
      resolved (default LanesUnresolved (fst <$> cur)) = true ∨ resolved l.1 = true) as ->.
    { unfold better, resolved. destruct cur as [[l' ch]|], l as [l ch2]; cbn; destruct l; try destruct l'; cbn;
        (split; [intros H; first [discriminate H|by left|by right]|by intros [?|?]]). }
    setoid_rewrite elem_of_cons. split.
    + intros [[?|?]|(l' & ? & ?)]; [by left|right; exists l; by auto|right; exists l'; by auto].
    + intros [?|(l' & [->|?] & ?)]; [by left; left|by left; right|right; by exists l'].
Qed.
(** *** Fences *)

Lemma drop_sorted_filter (l : list Event) q :
  StronglySorted (λ a b, (pos a < pos b)%nat) l →
  drop (bisect_right (pos <$> l) q) l = List.filter (λ e, negb (pos e <=? q)%nat) l.
Proof.
  unfold bisect_right. induction 1 as [|e l Hl IH He]; cbn; [done|].
  destruct (Nat.leb_spec (pos e) q) as [Hle|Hgt]; cbn; [exact IH|].
  assert (∀ a, In a l → (pos a <=? q)%nat = false) as Hall.
  { intros a Ha%list_elem_of_In. rewrite Forall_forall in He. specialize (He _ Ha). apply Nat.leb_gt. lia. }
  clear -Hall. assert (List.filter (λ y, (y <=? q)%nat) (pos <$> l) = []) as ->.
  { induction l as [|a l IH]; cbn; [done|]. rewrite Hall by (by left). apply IH. intros a' Ha'. apply Hall. by right. }
  cbn. f_equal. induction l as [|a l IH]; cbn; [done|].
  rewrite Hall by (by left). cbn. f_equal. apply IH. intros a' Ha'. apply Hall. by right.
Qed.

Lemma evs_sorted w : StronglySorted (λ a b, (pos a < pos b)%nat) (evs w).
Proof.
  assert (∀ i ev, evs w !! i = Some ev → pos ev = (0 + i)%nat) as H.
  { intros i ev Hi. by apply (ew_pos _ _ _ (evs_wf _ _ Hpw _ _ _ Hi)). }
  revert H. generalize 0%nat. induction (evs w) as [|e l IH]; intros n Hn; constructor.
  - apply (IH (S n)). intros i ev Hi. rewrite (Hn (S i) ev Hi). lia.
  - apply Forall_forall. intros ev (i & Hi)%list_elem_of_lookup. rewrite (Hn 0%nat e eq_refl), (Hn (S i) ev Hi). lia.
Qed.

Lemma filter_sorted (f : Event → bool) l :
  StronglySorted (λ a b, (pos a < pos b)%nat) l → StronglySorted (λ a b, (pos a < pos b)%nat) (List.filter f l).
Proof.
  induction 1 as [|e l Hl IH He]; cbn; [constructor|]. destruct (f e); [|done]. constructor; [done|].
  rewrite Forall_forall in *. intros a Ha%list_elem_of_In. apply filter_In in Ha as [Ha _].
  by apply He, list_elem_of_In.
Qed.

Lemma fences_sorted : StronglySorted (λ a b, (pos a < pos b)%nat) (fences_after pw c w1 p1).
Proof. unfold fences_after. rewrite drop_sorted_filter; repeat apply filter_sorted; apply evs_sorted. Qed.

Lemma fences_elem f : f ∈ fences_after pw c w1 p1 ↔ evs w1 !! pos f = Some f ∧ fence_at (pos f).
Proof.
  unfold fences_after. rewrite drop_sorted_filter by (apply filter_sorted, evs_sorted).
  rewrite list_elem_of_In, !filter_In, <- list_elem_of_In, list_elem_of_lookup.
  rewrite (event_at_eq _ _ _ Hx). unfold fence_at. rewrite andb_true_iff, bool_decide_eq_true, negb_true_iff, Nat.leb_gt. split.
  - intros [[(i & Hi) [Hk Hc]] Hlt]. pose proof (ew_pos _ _ _ (evs_wf _ _ Hpw _ _ _ Hi)) as <-.
    split; [done|]. split; [done|]. by exists f.
  - intros [Hf (Hlt & fe & Hfe & Hk & Hc)]. rewrite Hf in Hfe. injection Hfe as <-. split_and!; eauto.
Qed.

Lemma joined_fence_spec q rel :
  evs w1 !! q = Some rel → is_release (knd rel) = true →
  is_Some (joined_fence pw c w1 p1 (fences_after pw c w1 p1) rel) ↔ fenced q.
Proof.
  intros Hrel Hk. pose proof (ew_pos _ _ _ (evs_wf _ _ Hpw _ _ _ Hrel)) as Ep.
  assert (∀ f, f ∈ fences_after pw c w1 p1 → evs w1 !! pos f = Some f ∧ fence_at (pos f)) as Hel by (intros; by apply fences_elem).
  transitivity (∃ f, f ∈ fences_after pw c w1 p1 ∧ (pos f < q)%nat ∧ lane_joined pw c w1 (pos f) q (mask x) rel).
  - pose proof fences_sorted as Hs. clear Hel. induction Hs as [|f l Hl IH Hf]; cbn.
    + split; [by intros [? ?]|]. by intros (f & ?%elem_of_nil & _).
    + rewrite Ep, (event_at_eq _ _ _ Hx). destruct (Nat.leb_spec q (pos f)) as [Hge|Hlt].
      * split; [by intros [? ?]|]. intros (f' & [->|Hin]%elem_of_cons & Hlt & _); [lia|].
        rewrite Forall_forall in Hf. specialize (Hf _ Hin). lia.
      * pose proof (join_spec pw c w1 (pos f) q (mask x) rel) as Hj.
        destruct (join _ _ _ _ _) as [j|].
        -- split; [|by eexists]. intros _. exists f. split; [by left|]. split; [done|]. by apply Hj; eexists.
        -- rewrite IH. split; intros (f' & Hin & Hlt' & Hj'); exists f'; (split; [|done]).
           ++ by right.
           ++ apply elem_of_cons in Hin as [->|Hin]; [|done]. apply Hj in Hj' as [? ?]. done.
  - unfold fenced, reaches. split.
    + intros (f & Hf & Hlt & Hj). apply Hel in Hf as [_ Hf]. exists (pos f). split; [done|]. eauto.
    + intros (f & (Hp & fe & Hfe & Hkf & Hc) & Hlt & rel' & Hrel' & _ & Hj).
      pose proof (ew_pos _ _ _ (evs_wf _ _ Hpw _ _ _ Hfe)) as Ef. subst f.
      exists fe. rewrite Hrel in Hrel'. injection Hrel' as <-. split_and!; [|done|done].
      apply fences_elem. split; [done|]. split; [done|]. by exists fe.
Qed.

(** A fence joined to the release joins the access to it. *)
Lemma fenced_reaches q : fenced q → reaches p1 q.
Proof.
  intros (f & (Hp & _) & Hlt & rel & Hrel & Hk & Hj). split; [lia|]. exists rel. split_and!; [done..|].
  destruct Hj as [?|(s & e & Hs & He & Hc)]; [by left|]. right. exists s, e. split; [lia|done].
Qed.

(** *** What a release shows *)

Local Abbreviation ev_of := (release_evidence pw b c w1 p1 w2 p2).

Lemma evidence_joined q rel :
  evs w1 !! q = Some rel → is_release (knd rel) = true → e_joined (ev_of rel) = true ↔ fenced q.
Proof. intros Hrel Hk. cbn. rewrite bool_decide_eq_true. by apply joined_fence_spec. Qed.

(** The lane evidence of the release, whichever fence it is taken from. *)
Definition j_rel_of (rel : Event) : option (list Event) :=
  match joined_fence pw c w1 p1 (fences_after pw c w1 p1) rel with
  | Some (_, j) => Some j
  | None => join (evs w1) p1 (pos rel) (mask x) rel
  end.

Lemma j_rel_spec q rel :
  evs w1 !! q = Some rel → (p1 < q)%nat → is_release (knd rel) = true → is_Some (j_rel_of rel) ↔ reaches p1 q.
Proof.
  intros Hrel Hlt Hk. pose proof (ew_pos _ _ _ (evs_wf _ _ Hpw _ _ _ Hrel)) as Ep.
  unfold j_rel_of. pose proof (joined_fence_spec _ _ Hrel Hk) as Hf.
  destruct (joined_fence _ _ _ _ _ _) as [[f j]|].
  - split; [|by eexists]. intros _. apply fenced_reaches, Hf. by eexists.
  - rewrite Ep. rewrite join_spec. unfold reaches. split.
    + intros Hj. split; [done|]. by exists rel.
    + intros (_ & rel' & Hrel' & _ & Hj). rewrite Hrel in Hrel'. by injection Hrel' as <-.
Qed.

Lemma evidence_resolved q rel :
  evs w1 !! q = Some rel → (p1 < q)%nat → is_release (knd rel) = true →
  resolved (default LanesUnresolved (fst <$> e_link (ev_of rel))) = true ↔ chained q.
Proof.
  intros Hrel Hlt Hk. pose proof (ew_pos _ _ _ (evs_wf _ _ Hpw _ _ _ Hrel)) as Ep.
  pose proof (j_rel_spec _ _ Hrel Hlt Hk) as Hj. unfold chained. rewrite <- Hj. subst q.
  unfold release_evidence. cbn [e_link]. rewrite (event_at_eq _ _ _ Hx). fold (j_rel_of rel).
  generalize (match joined_fence pw c w1 p1 (fences_after pw c w1 p1) rel with
     | Some (f, _) => [step Fence f]
     | None => match head (fences_after pw c w1 p1) with
               | Some f => if match head (fences_after pw c w1 p1) with Some f => (pos f <? pos rel)%nat | None => false end
                           then [step Fence f] else []
               | None => []
               end
     end) as hd. intros hd.
  pose proof (direct_linked hd (j_rel_of rel) rel) as Hd. case_bool_decide as E.
  - rewrite E. cbn. split; [|done]. intros _. apply Hd in E as [? ?]. auto.
  - rewrite better_resolved. rewrite indirect_resolved. split.
    + intros [H|[? ?]]; [|auto]. destruct (fst <$> direct _ _ _ _ _ _ hd (j_rel_of rel) rel) as [l|] eqn:El; [|done].
      apply direct_not_via in El as [->| ->]; done.
    + intros [Hs [Ht|Ht]]; [|by right]. by destruct E; apply Hd.
Qed.
(** *** The best evidence of all releases *)

Definition value_of (e : evidence) (l : link) : nat :=
  ((if resolved l then 6 else 0) + (if e_joined e then 3 else 0) + rank l)%nat.

Lemma score_gt_value e l e' l' : score_gt (score_of e l) (score_of e' l') = (value_of e' l' <? value_of e l)%nat.
Proof. unfold score_gt, score_of, value_of. by destruct l, l', (e_joined e), (e_joined e'). Qed.

Lemma value_max e l : (value_of e l <= 11)%nat.
Proof. unfold value_of. destruct l, (e_joined e); cbn; lia. Qed.

Definition shown (rels : list Event) (e : evidence) (l : link * list chain_step) : Prop :=
  ∃ rel, rel ∈ rels ∧ e = ev_of rel ∧ e_link e = Some l.

Lemma scan_spec rels fb best fb' best' :
  scan pw b c w1 p1 w2 p2 rels fb best = (fb', best') →
  (∀ e l, best' = Some (e, l) → best = Some (e, l) ∨ shown rels e l) ∧
  (∀ e l, best = Some (e, l) ∨ shown rels e l → ∃ e' l', best' = Some (e', l') ∧ (value_of e l.1 <= value_of e' l'.1)%nat).
Proof.
  assert (∀ rel rels e l, shown (rel :: rels) e l ↔ (e = ev_of rel ∧ e_link e = Some l) ∨ shown rels e l) as Hcons.
  { intros rel rs e l. unfold shown. setoid_rewrite elem_of_cons. split.
    - intros (r & [->|Hin] & Hs); [by left|right; by exists r].
    - intros [Hs|(r & Hin & Hs)]; [exists rel; auto|exists r; auto]. }
  revert fb best. induction rels as [|rel rels IH]; intros fb best H; cbn [scan] in H.
  - injection H as <- <-. split; [by left|]. intros e l [->|(r & ?%elem_of_nil & _)]; [|done]. by exists e, l.
  - setoid_rewrite Hcons. destruct (e_link (ev_of rel)) as [l|] eqn:El.
    2: { apply IH in H as [H1 H2]. split.
         - intros e l Hb. destruct (H1 _ _ Hb); auto.
         - intros e l [?|[[-> ?]|?]]; [by apply H2; left|congruence|by apply H2; right]. }
    assert (∀ best' wins, wins = match best with None => true | Some (e', l') => score_gt (score_of (ev_of rel) l.1) (score_of e' l'.1) end →
      best' = (if wins then Some (ev_of rel, l) else best) → ∀ e0 l0, best = Some (e0, l0) ∨ (e0 = ev_of rel ∧ e_link e0 = Some l0) →
      ∃ e' l', best' = Some (e', l') ∧ (value_of e0 l0.1 <= value_of e' l'.1)%nat) as Hkeep.
    { intros b' wins -> ->. intros e0 l0 Hor. destruct best as [[e' l']|].
      - rewrite score_gt_value. destruct (Nat.ltb_spec (value_of e' l'.1) (value_of (ev_of rel) l.1)) as [Hlt|Hge];
          (destruct Hor as [E|[E Hl0]]; [injection E as <- <-|subst e0; rewrite El in Hl0; injection Hl0 as <-]);
          eexists _, _; (split; [done|]); lia.
      - destruct Hor as [?|[-> Hl0]]; [done|]. rewrite El in Hl0. injection Hl0 as <-. eexists _, _. by split. }
    set (wins := match best with None => true | Some _ => _ end) in H.
    specialize (Hkeep _ wins eq_refl eq_refl). destruct wins; [destruct (e_joined (ev_of rel) && bool_decide (l.1 = Linked)) eqn:Estop|].
    + injection H as _ <-. apply andb_true_iff in Estop as [Ej El1%bool_decide_eq_true]. split.
      * intros e l0 [= <- <-]. right. by left.
      * intros e l0 _. eexists _, _. split; [done|]. etrans; [apply value_max|].
        unfold value_of. rewrite Ej, El1. cbn. lia.
    + apply IH in H as [H1 H2]. split.
      * intros e l0 Hb. destruct (H1 _ _ Hb) as [[= <- <-]|?]; auto.
      * intros e l0 [Hb|[Hb|?]]; [..|by apply H2; right];
          (destruct (Hkeep e l0) as (e' & l' & E & Hle); [auto|]);
          (destruct (H2 e' l') as (e'' & l'' & E'' & Hle''); [by left|]); exists e'', l''; (split; [done|lia]).
    + apply IH in H as [H1 H2]. split.
      * intros e l0 Hb. destruct (H1 _ _ Hb) as [?|?]; auto.
      * intros e l0 [Hb|[Hb|?]]; [..|by apply H2; right];
          (destruct (Hkeep e l0) as (e' & l' & E & Hle); [auto|]);
          (destruct (H2 e' l') as (e'' & l'' & E'' & Hle''); [by left|]); exists e'', l''; (split; [done|lia]).
Qed.

(** Whether the link that is reported holds lane by lane. *)
Definition is_linked (l : option link) : bool := match l with Some l => resolved l | None => false end.

Lemma handshake_spec fence joined lk chain :
  handshake pw b c w1 p1 w2 p2 = (fence, joined, lk, chain) →
  (is_linked lk = true ↔ ∃ q, chained q) ∧
  (joined && is_linked lk = true ↔ ∃ q, fenced q ∧ chained q).
Proof.
  unfold handshake. destruct (scan _ _ _ _ _ _ _ _ _ _) as [fb best] eqn:Es.
  apply scan_spec in Es as [Hfrom Hmax]. intros H.
  assert (∀ rel, rel ∈ releases_after (evs w1) p1 → evs w1 !! pos rel = Some rel ∧ (p1 < pos rel)%nat ∧ is_release (knd rel) = true) as Hrel.
  { intros rel Hin. by apply releases_after_elem in Hin as (? & ? & ?). }
  assert (∀ q, chained q → ∃ e l, shown (releases_after (evs w1) p1) e l ∧ resolved l.1 = true ∧ (e_joined e = true ↔ fenced q)) as Hshow.
  { intros q Hq. destruct Hq as [Hr Ht] eqn:E. clear E. destruct Hr as (Hlt & rel & Hq1 & Hk & Hj) eqn:E. clear E.
    pose proof (ew_pos _ _ _ (evs_wf _ _ Hpw _ _ _ Hq1)) as Ep.
    pose proof (proj2 (evidence_resolved _ _ Hq1 Hlt Hk) Hq) as Hres.
    destruct (e_link (ev_of rel)) as [l|] eqn:El; [|done]. cbn in Hres.
    exists (ev_of rel), l. split_and!; [|done|by apply evidence_joined].
    exists rel. split_and!; [|done|done]. apply releases_after_elem. rewrite Ep. done. }
  assert (∀ e l, shown (releases_after (evs w1) p1) e l → ∃ q, (resolved l.1 = true → chained q) ∧ (e_joined e = true → fenced q)) as Hback.
  { intros e l (rel & Hin & -> & El). destruct (Hrel _ Hin) as (H1 & H2 & H3). exists (pos rel). split.
    - intros Hres. apply (evidence_resolved _ _ H1 H2 H3). by rewrite El.
    - by apply evidence_joined. }
  assert (∀ e l, best = Some (e, l) → shown (releases_after (evs w1) p1) e l) as Hbest.
  { intros e l Hb. by destruct (Hfrom _ _ Hb). }
  assert (lk = fst ∘ snd <$> best ∧ (joined = match best with Some (e, _) => e_joined e | None => false end)) as [-> ->].
  { destruct best as [[e [l ch]]|]; by simplify_eq. }
  clear H. split; split.
  - destruct best as [[e l]|]; cbn; [|done]. intros Hres. destruct (Hback _ _ (Hbest _ _ eq_refl)) as (q & Hq & _). eauto.
  - intros (q & (e & l & Hs & Hres & _)%Hshow). destruct (Hmax e l (or_intror Hs)) as (e' & l' & -> & Hle). cbn.
    unfold value_of in Hle. rewrite Hres in Hle. destruct (l'.1), (e_joined e'); cbn in *; try done; lia.
  - destruct best as [[e l]|]; cbn; [|done]. intros [Hj Hres]%andb_true_iff.
    destruct (Hback _ _ (Hbest _ _ eq_refl)) as (q & Hq & Hf). eauto.
  - intros (q & Hf & (e & l & Hs & Hres & Hj)%Hshow). apply Hj in Hf.
    destruct (Hmax e l (or_intror Hs)) as (e' & l' & -> & Hle). cbn. unfold value_of in Hle. rewrite Hres, Hf in Hle.
    destruct (l'.1), (e_joined e'); cbn in *; try done; destruct (l.1); cbn in *; try done; lia.
Qed.
End Chains.

(** ** Well-formedness after the waits are marked *)

Lemma mark_events_lookup pc_sass evs i ev' :
  mark_events pc_sass evs !! i = Some ev' → ∃ ev, evs !! i = Some ev ∧ core ev' = core ev.
Proof.
  revert i. induction evs as [|ev evs IH]; intros [|i]; cbn; try done; [|by apply IH].
  intros [= <-]. exists ev. split; [done|]. by case_bool_decide.
Qed.

Lemma mark_wf pw pc_sass : warps_wf pw → warps_wf (mark_wait_success pw pc_sass).
Proof. apply (warps_wf_fmap (λ _ evs, mark_events pc_sass evs)). intros _ evs i ev'. apply mark_events_lookup. Qed.

(** ** Waits *)

(** A guard [@P] or [@!P] holds in the lanes of a mask where it does. *)
Definition guard_lanes (negated : bool) (m : Z) (P : Z → bool) (taken : Z) : Prop :=
  ∀ l, Z.testbit taken l = Z.testbit m l && xorb negated (P l).

(** What the trace records of a guarded branch that the lanes of [m] reach: the
    lanes whose guard holds, or nothing when there is none. *)
Definition branch_recorded (bra_pc : Z) (negated : bool) (m : Z) (P : Z → bool) (nxt : Event) : Prop :=
  if pc_of nxt =? bra_pc then guard_lanes negated m P (mask nxt) else guard_lanes negated m P 0.

(** Between the wait and the branch, nothing else can transfer control or
    redefine the predicate. *)
Definition undisturbed (pc_sass : dict Z listed) (pred : list ascii) (pc : Z) : Prop :=
  ∃ sass g mn ops, dict_get pc_sass pc = Some (sass, g, mn, ops) ∧
    head (split_on "."%char (chars mn)) ≠ Some (chars "BRA") ∧
    (∀ p, p ∈ control_flow → starts_with (chars p) (chars mn) = false) ∧
    pred ∉ plain_operands ops ∧ chars "PR" ∉ plain_operands ops ∧ chars "UPR" ∉ plain_operands ops.

Lemma guarded_branch_spec pc_sass w pc pred bra g tgt :
  guarded_branch pc_sass w pc pred = Some (bra, g, tgt) →
  ∃ k, (k < w)%nat ∧ bra = pc + 16 * (Z.of_nat k + 1) ∧
    (g = str (chars "@" ++ pred) ∨ g = str (chars "@!" ++ pred)) ∧
    (∃ sass ops, dict_get pc_sass bra = Some (sass, Some g, "BRA"%string, ops)) ∧
    ∀ j, (j < k)%nat → undisturbed pc_sass pred (pc + 16 * (Z.of_nat j + 1)).
Proof.
  revert pc. induction w as [|w IH]; intros pc; cbn [guarded_branch]; [done|].
  destruct (dict_get pc_sass (pc + 16)) as [[[[sass gd] mn] ops]|] eqn:E; [|done].
  destruct (bool_decide (head _ = _)) eqn:Eb.
  - destruct (_ && _ && _) eqn:Ec; [|done]. intros [= <- <- <-].
    apply andb_true_iff in Ec as [[Hmn Hg]%andb_true_iff _]. apply String.eqb_eq in Hmn as ->.
    exists 0%nat. split_and!; [lia|lia| |replace (pc + 16 * (Z.of_nat 0 + 1)) with (pc + 16) by lia|intros j Hj; lia].
    + apply orb_true_iff in Hg as [->%bool_decide_eq_true| ->%bool_decide_eq_true]; [by left|by right].
    + exists sass, ops. rewrite E. apply orb_true_iff in Hg as [->%bool_decide_eq_true| ->%bool_decide_eq_true]; done.
  - destruct (existsb _ control_flow) eqn:Ecf; [done|]. destruct (_ || _ || _) eqn:Eo; [done|].
    intros (k & Hk & -> & Hg & Hl & Hu)%IH. exists (S k). split_and!; [lia|lia|done| |].
    + replace (pc + 16 * (Z.of_nat (S k) + 1)) with (pc + 16 + 16 * (Z.of_nat k + 1)) by lia. done.
    + intros [|j] Hj.
      * replace (pc + 16 * (Z.of_nat 0 + 1)) with (pc + 16) by lia. exists sass, gd, mn, ops.
        apply bool_decide_eq_false in Eb.
        apply orb_false_iff in Eo as [[?%bool_decide_eq_false ?%bool_decide_eq_false]%orb_false_iff ?%bool_decide_eq_false].
        split_and!; try done. intros p Hp. destruct (starts_with (chars p) (chars mn)) eqn:Es; [|done].
        assert (existsb (λ p, starts_with (chars p) (chars mn)) control_flow = true) as Hc; [|congruence].
        apply existsb_exists. exists p. by rewrite list_elem_of_In in Hp.
      * replace (pc + 16 * (Z.of_nat (S j) + 1)) with (pc + 16 + 16 * (Z.of_nat j + 1)) by lia. apply Hu. lia.
Qed.

(** A phase is decided: the predicate the wait produced has one value in all its lanes. *)
(** The predicate a wait sets: the first operand of its text, a [P] and all the
    digits after it. *)
Definition sets_predicate (ops : string) (pred : list ascii) : Prop :=
  ∃ digits tail, pred = "P"%char :: digits ∧ chars ops = "P"%char :: digits ++ tail ∧
    digits ≠ [] ∧ Forall (λ x, is_digit x = true) digits ∧
    ∀ x, head tail = Some x → is_digit x = false.

Lemma pred_re_sets ops m :
  re_match pred_re (chars ops) = Some m → sets_predicate ops (default [] (group (groups m) "p")).
Proof.
  unfold re_match, match_from, pred_re, lit, plus, sets_predicate. generalize (chars ops) as s. intros s.
  change (chars "P") with ["P"%char].
  destruct s as [|x s]; [done|]. cbn [rm lit_chars fst snd].
  destruct (Ascii.eqb_spec "P" x) as [<-|]; [|done].
  destruct s as [|y s]; [done|]. destruct (is_digit y) eqn:Ey; [|done].
  match goal with |- rep true is_digit ?k ?pv s ?c = _ → _ =>
    destruct (rep_greedy is_digit k pv s c) as (d & t & pv' & -> & Hd & Ht & ->); [done|] end.
  intros [= <-]. exists (y :: d), t.
  split_and!; [|done|done|by constructor|done]. cbn [groups snd].
  cbn [group String.eqb Ascii.eqb Bool.eqb default].
  match goal with |- context [take ?n ?l] => replace (take n l) with ("P"%char :: y :: d); [done|] end.
  replace (_ - _)%nat with (length ("P"%char :: y :: d)); [by rewrite !app_comm_cons, take_app_length|].
  cbn [length]. rewrite length_app. lia.
Qed.

Lemma wait_success_spec pc_sass ev rest r :
  wait_success pc_sass ev rest = Some r →
  ∃ m bra g tgt skipped nxt more,
    re_match pred_re (chars (ops ev)) = Some m ∧
    guarded_branch pc_sass 32 (pc_of ev) (default [] (group (groups m) "p")) = Some (bra, g, tgt) ∧
    rest = skipped ++ nxt :: more ∧
    Forall (λ e, pc_of ev < pc_of e < bra) skipped ∧
    Forall (λ e, guard e = None → mask e = mask ev) (skipped ++ [nxt]) ∧
    (pc_of nxt = bra ∧ mask nxt = mask ev ∨ bra < pc_of nxt <= bra + 16 * 8) ∧
    r = xorb (starts_with (chars "@!") (chars g)) (pc_of nxt =? bra) ∧
    ∀ P, branch_recorded bra (starts_with (chars "@!") (chars g)) (mask ev) P nxt →
      ∀ l, Z.testbit (mask ev) l = true → P l = r.
Proof.
  unfold wait_success. destruct (re_match _ _) as [m|]; [|done].
  destruct (guarded_branch _ _ _ _) as [[[bra g] tgt]|] eqn:Eg; [|done].
  remember (starts_with (chars "@!") (chars g)) as neg eqn:Eneg.
  assert (∀ rs skipped more, straight (pc_of ev) bra rs = (skipped, more) →
    rs = skipped ++ more ∧ Forall (λ e, pc_of ev < pc_of e < bra) skipped) as Hst.
  { intros rs. induction rs as [|e rs IH]; intros sk mo; cbn; [intros [= <- <-]; done|].
    destruct (_ && _) eqn:E; [|intros [= <- <-]; done]. apply andb_true_iff in E as [H1%Z.ltb_lt H2%Z.ltb_lt].
    destruct (straight _ _ rs) as [sk' mo'] eqn:Es. intros [= <- <-]. destruct (IH _ _ eq_refl) as [-> Hf].
    split; [done|by constructor]. }
  destruct (straight _ _ rest) as [skipped [|nxt more]] eqn:Es; [done|]. apply Hst in Es as [-> Hsk].
  destruct (existsb _ _) eqn:Ex; [done|]. destruct (_ && negb _) eqn:E1; [done|].
  destruct (negb _ && _) eqn:E2; [done|]. intros [= <-].
  exists m, bra, g, tgt, skipped, nxt, more. split_and!; [done..| | | |].
  - apply Forall_forall. intros e He Hgd. destruct (Z.eqb_spec (mask e) (mask ev)) as [|Hne]; [done|].
    assert (existsb (λ e, bool_decide (guard e = None) && negb (mask e =? mask ev)) (skipped ++ [nxt]) = true); [|congruence].
    apply existsb_exists. exists e. rewrite <- list_elem_of_In. split; [done|].
    by rewrite bool_decide_true, (proj2 (Z.eqb_neq _ _) Hne).
  - destruct (Z.eqb_spec (pc_of nxt) bra); [left|right].
    + cbn in E1. by apply negb_false_iff, Z.eqb_eq in E1.
    + cbn in E2. by apply negb_false_iff, andb_true_iff in E2 as [?%Z.ltb_lt ?%Z.leb_le].
  - rewrite <- Eneg. by destruct neg, (pc_of nxt =? bra).
  - intros P. rewrite <- Eneg. unfold branch_recorded.
    destruct (pc_of nxt =? bra); intros HP l Hl; specialize (HP l).
    + cbn in E1. apply negb_false_iff, Z.eqb_eq in E1. rewrite E1, Hl in HP. by destruct neg, (P l).
    + rewrite Z.bits_0, Hl in HP. by destruct neg, (P l).
Qed.

(** *** Asynchronous writes and the waits that see them complete *)

(** The async write of [ww] at [wpos] completes the phase of the barrier that
    the wait of [rw] at [p] observes. *)
Definition completion_seen (pw : warps) (c : list Z) (a ww : Z) (wpos : nat) (rw : Z) (p : nat) : Prop :=
  mbar_ok (barriers_of pw) c a = true ∧
  ∃ k n tk, issues_of pw c a ww !! k = Some wpos ∧ alternating (waits_of pw c a rw) ∧
    waits_of pw c a rw !! n = Some (p, tk) ∧ origin_of (waits_of pw c a rw).*2 + Z.of_nat n = Z.of_nat k.

Lemma wait_link_spec pw c a ww wpos rw rpos y :
  warps_wf pw → evs_of pw c rw !! rpos = Some y →
  (wait_link pw (barriers_of pw) c ww wpos (Some a) rw rpos).1 = WaitLinked ↔
  ∃ p ev, completion_seen pw c a ww wpos rw p ∧ (p < rpos)%nat ∧ evs_of pw c rw !! p = Some ev ∧
    lane_joined pw c rw p rpos (mask y) ev.
Proof.
  intros Hpw Hy. unfold wait_link, completion_seen.
  destruct (mbar_ok _ c a); cbn [negb]; [|split; [done|by intros (p & ev & [? _] & _)]].
  fold (get2 (issue (barriers_of pw)) (c, a) ww). rewrite issue_get2 by done.
  assert (NoDup (issues_of pw c a ww)) as Hnd.
  { rewrite <- (list_fmap_id (issues_of _ _ _ _)). apply used_NoDup; [done|].
    unfold issue_use. intros ev v H. repeat case_match; naive_solver. }
  rewrite phase_get by done.
  destruct (ordinal wpos (issues_of pw c a ww)) as [k|] eqn:Ek.
  2: { split; [done|]. intros (p & ev & (_ & k & n & tk & Hk & _) & _). apply ordinal_spec in Hk; [|done]. congruence. }
  apply ordinal_spec in Ek; [|done].
  transitivity (∃ p, dict_get (default [] (if toks_valid (waits_of pw c a rw).*2 && negb (bool_decide (waits_of pw c a rw = []))
    then Some (phases_of (waits_of pw c a rw)) else None)) (Z.of_nat k) = Some p ∧ (p < rpos)%nat ∧
    is_Some (join (evs_of pw c rw) p rpos (mask y) (event_at pw c rw p))).
  - rewrite (event_at_eq _ _ _ _ _ Hy). destruct (dict_get _ _) as [p|]; [|split; [done|by intros (? & ? & _)]].
    destruct (Nat.leb_spec rpos p); [split; [done|intros (p' & [= <-] & ? & _); lia]|]. cbn [fst].
    destruct (is_Some_dec _) as [Hj|Hj]; split; try done; [intros _; by exists p|]. by intros (p' & [= <-] & _ & ?).
  - split.
    + intros (p & H & Hlt & Hj). destruct (toks_valid _) eqn:Et; [|done]. destruct (bool_decide _); [done|]. cbn in H.
      apply phases_get in H as (n & tk & Hn & Ho). apply toks_valid_spec in Et.
      apply list_elem_of_lookup_2 in Hn as Hin. apply (used_at _ _ Hpw) in Hin as (ev & Hev & Hu).
      assert (pos ev = p) as Hp.
      { unfold wait_use in Hu. repeat case_match; simplify_eq; done. }
      rewrite Hp in Hev. exists p, ev. split_and!; [done| |done|done|].
      * by exists k, n, tk.
      * rewrite (event_at_eq _ _ _ _ _ Hev) in Hj. by apply join_spec in Hj.
    + intros (p & ev & (_ & k' & n & tk & Hk' & Halt & Hn & Ho) & Hlt & Hev & Hj).
      rewrite (NoDup_lookup _ _ _ _ Hnd Hk' Ek) in Ho. exists p. split_and!; [|done|].
      * apply toks_valid_spec in Halt. rewrite Halt, bool_decide_false by (intros E; by rewrite E in Hn).
        cbn. apply phases_get. by exists n, tk.
      * rewrite (event_at_eq _ _ _ _ _ Hev). by apply join_spec.
Qed.

(** ** Properties *)

(** C24: what [handshake] says of two accesses of a CTA is exact.  It reports a
    lane-resolved link when, and only when, some release after the first access
    reaches the second one through matched acquires, directly or through one
    other warp, with lane coverage at every hop; and [fence_and_link] when, and
    only when, some such release also has a proxy fence joined to it.  A
    reported link orders every lane of the first access before every lane of
    the second; with [fence_and_link], through one fence that every lane of the
    first access executes. *)
Theorem handshake_exact pw c w1 p1 x w2 p2 y fence joined lk chain
    (Hwf : warps_wf pw)
    (Hx : evs_of pw c w1 !! p1 = Some x) (Hy : evs_of pw c w2 !! p2 = Some y)
    (Hrun : handshake pw (barriers_of pw) c w1 p1 w2 p2 = (fence, joined, lk, chain)) :
  (is_linked lk = true ↔ ∃ q, chained pw c w1 p1 x w2 p2 y q) ∧
  (joined && is_linked lk = true ↔ ∃ q, fenced pw c w1 p1 x q ∧ chained pw c w1 p1 x w2 p2 y q) ∧
  (is_linked lk = true → ∀ l1 l2, Z.testbit (mask x) l1 = true → Z.testbit (mask y) l2 = true →
     before pw c (w1, p1, l1) (w2, p2, l2)) ∧
  (joined && is_linked lk = true → ∃ f, fence_at pw c w1 p1 x f ∧
     ∀ l1 l2, Z.testbit (mask x) l1 = true → Z.testbit (mask y) l2 = true →
       before pw c (w1, p1, l1) (w1, f, l1) ∧ before pw c (w1, f, l1) (w2, p2, l2)).
Proof.
  destruct (handshake_spec _ _ Hwf _ _ _ _ _ _ Hx Hy _ _ _ _ Hrun) as [H1 H2]. split_and!; [done..| |].
  - intros (q & Hq)%H1 l1 l2. by eapply chained_before.
  - intros (q & (f & Hf & Hr) & _ & Ht)%H2. exists f. split; [done|]. intros l1 l2 Hl1 Hl2.
    destruct Hf as (Hlt & fe & Hfe & _ & Hc). split.
    + apply rtc_once, before_program; [done|by exists x|]. exists fe. rewrite covers_spec in Hc. auto.
    + by eapply chain_before.
Qed.

(** An async write reported as [wait_linked] completes the phase that a
    successful wait of the reader observes before the read, and every lane of
    the read comes after a lane of that wait; and a read that such a wait covers
    is reported so. *)
Theorem wait_linked_exact pw c a ww wpos rw rpos y
    (Hwf : warps_wf pw) (Hy : evs_of pw c rw !! rpos = Some y) :
  ((wait_link pw (barriers_of pw) c ww wpos (Some a) rw rpos).1 = WaitLinked ↔
   ∃ p ev, completion_seen pw c a ww wpos rw p ∧ (p < rpos)%nat ∧ evs_of pw c rw !! p = Some ev ∧
     lane_joined pw c rw p rpos (mask y) ev) ∧
  ((wait_link pw (barriers_of pw) c ww wpos (Some a) rw rpos).1 = WaitLinked →
   ∃ p ev, completion_seen pw c a ww wpos rw p ∧ evs_of pw c rw !! p = Some ev ∧
     ∀ l, Z.testbit (mask y) l = true →
       ∃ r, Z.testbit (mask ev) r = true ∧ before pw c (rw, p, r) (rw, rpos, l)).
Proof.
  split; [by apply wait_link_spec|]. intros (p & ev & Hc & Hlt & Hev & Hj)%(wait_link_spec _ _ _ _ _ _ _ _ Hwf Hy).
  exists p, ev. split_and!; [done..|]. intros l Hl. by eapply join_backward.
Qed.

(** A guard is negated exactly when its text starts so. *)
Lemma negated_guard pred g ops :
  sets_predicate ops pred → (g = str (chars "@" ++ pred) ∨ g = str (chars "@!" ++ pred)) →
  starts_with (chars "@!") (chars g) = bool_decide (g = str (chars "@!" ++ pred)).
Proof.
  intros (d & t & -> & _) [-> | ->].
  - rewrite bool_decide_eq_false_2 by (intros H; apply (f_equal chars) in H; by rewrite !chars_str in H).
    by rewrite chars_str.
  - rewrite bool_decide_eq_true_2 by done. by rewrite chars_str.
Qed.

(** C25: a wait is given an outcome only when the trace decides it.  The
    predicate is the one the wait itself sets, its first operand.  The branch
    the outcome is read from is the first after the wait that can transfer
    control, is guarded on that predicate, and nothing before it redefines the
    predicate; the warp's next records run straight to it with the lanes of the
    wait, and the first that does not lies on the branch, with all those lanes,
    or close after it.  The outcome is whether the guard's sense and the branch
    being recorded agree; and if the trace records of the branch exactly the
    lanes whose guard held, the predicate has the reported value in every lane
    of the wait. *)
Theorem wait_outcome_sound pc_sass ev rest r
    (Hrun : wait_success pc_sass ev rest = Some r) :
  ∃ pred bra g k skipped nxt more,
    sets_predicate (ops ev) pred ∧
    bra = pc_of ev + 16 * (Z.of_nat k + 1) ∧ (k < 32)%nat ∧
    (g = str (chars "@" ++ pred) ∨ g = str (chars "@!" ++ pred)) ∧
    (∃ sass ops, dict_get pc_sass bra = Some (sass, Some g, "BRA"%string, ops)) ∧
    (∀ j, (j < k)%nat → undisturbed pc_sass pred (pc_of ev + 16 * (Z.of_nat j + 1))) ∧
    rest = skipped ++ nxt :: more ∧
    Forall (λ e, pc_of ev < pc_of e < bra) skipped ∧
    Forall (λ e, guard e = None → mask e = mask ev) (skipped ++ [nxt]) ∧
    (pc_of nxt = bra ∧ mask nxt = mask ev ∨ bra < pc_of nxt <= bra + 16 * 8) ∧
    r = xorb (bool_decide (g = str (chars "@!" ++ pred))) (pc_of nxt =? bra) ∧
    ∀ P, branch_recorded bra (bool_decide (g = str (chars "@!" ++ pred))) (mask ev) P nxt →
      ∀ l, Z.testbit (mask ev) l = true → P l = r.
Proof.
  destruct (wait_success_spec _ _ _ _ Hrun)
    as (m & bra & g & tgt & sk & nxt & more & Hm & Hg & Hr & Hs & Hmk & Hn & Ho & HP).
  destruct (guarded_branch_spec _ _ _ _ _ _ _ Hg) as (k & Hk & Hbra & Hgd & Hl & Hu).
  pose proof (pred_re_sets _ _ Hm) as Hpred. set (pred := default [] (group (groups m) "p")) in *.
  rewrite (negated_guard pred g (ops ev)) in Ho, HP by done.
  exists pred, bra, g, k, sk, nxt, more. by split_and!.
Qed.

(** *** A read by one warp, and the asynchronous write of another *)

Definition demo_code : list (string * string) :=
  [("0", "LDS.128 R4, [UR9+0x10] ;"); ("1", "FENCE.VIEW.ASYNC.S ;");
   ("2", "SYNCS.ARRIVE.TRANS64.A1T0 RZ, [UR9+0x0], RZ ;");
   ("64", "SYNCS.PHASECHK.TRANS64.TRYWAIT P0, [UR8+0x0], R6 ;"); ("65", "@!P0 BRA 0x3f00 ;");
   ("66", "UGETNEXTWORKID.BROADCAST [UR4], [UR5] ;"); ("67", "NOP ;");
   ("128", "SYNCS.PHASECHK.TRANS64.TRYWAIT P0, [UR8+0x0], R6 ;"); ("129", "@!P0 BRA 0x3f00 ;");
   ("130", "LDS.128 R4, [UR9+0x10] ;")]%string.

Definition demo_mem (w oid : Z) (pc mask : string) (a i : Z) : trace_rec :=
  mkRec "mem_addr_trace" [0; 0; 0] w pc oid (Some mask) (Some (repeat a 32)) None None None None (Some i).
Definition demo_reg (w oid : Z) (pc mask : string) (regs uregs : list (Z * Z)) (i : Z) : trace_rec :=
  mkRec "reg_trace" [0; 0; 0] w pc oid (Some mask) None
    (Some regs.*1) (Some ((λ r, repeat r.2 32) <$> regs)) (Some uregs.*1) (Some uregs.*2) (Some i).

Definition demo_full : string := "0xffffffff".
Definition demo_lines : list trace_rec :=
  [demo_mem 1 0 "0x0" "0x1" 0x1000 0; demo_reg 1 0 "0x0" "0x1" [] [] 1;
   demo_reg 1 1 "0x10" "0x1" [] [] 2;
   demo_mem 1 2 "0x20" "0x1" 0x20500 3; demo_reg 1 2 "0x20" "0x1" [] [] 4;
   demo_mem 0 64 "0x400" demo_full 0x20500 5; demo_reg 0 64 "0x400" demo_full [(6, 0)] [] 6;
   demo_reg 0 67 "0x430" demo_full [] [] 7;
   demo_reg 0 66 "0x420" "0x1" [] [(4, 0x1000); (5, 0x20510)] 8;
   demo_mem 1 128 "0x800" demo_full 0x20510 9; demo_reg 1 128 "0x800" demo_full [(6, 0)] [] 10;
   demo_mem 1 130 "0x820" demo_full 0x1000 11; demo_reg 1 130 "0x820" demo_full [] [] 12].

Definition demo_built : warps * dict Z listed :=
  match build_events demo_code demo_lines with Ok x => x | Err _ => ([], []) end.
Definition demo_warps : warps := mark_wait_success demo_built.1 demo_built.2.

Lemma demo_wf : warps_wf demo_warps.
Proof.
  apply mark_wf. destruct (build_events demo_code demo_lines) as [[pw l]|] eqn:E; [|by vm_compute in E].
  unfold demo_built. rewrite E. eapply build_events_wf; [exact E|].
  repeat constructor; intros m; vm_compute; by intros [= <-].
Qed.

Lemma demo_event w p : ∃ ev, (w = 1 ∧ (p = 0%nat ∨ p = 4%nat) ∨ w = 0 ∧ p = 2%nat) →
  evs_of demo_warps [0; 0; 0] w !! p = Some ev.
Proof.
  destruct (evs_of demo_warps [0; 0; 0] w !! p) as [ev|] eqn:E; [by exists ev|]. exists no_event.
  intros [[-> [->| ->]]|[-> ->]]; by vm_compute in E.
Qed.

Lemma handshake_exact_witness :
  ∃ x y chain, handshake demo_warps (barriers_of demo_warps) [0; 0; 0] 1 0 0 2 = (true, true, Some Linked, chain) ∧
    (∃ q, fenced demo_warps [0; 0; 0] 1 0 x q ∧ chained demo_warps [0; 0; 0] 1 0 x 0 2 y q).
Proof.
  destruct (demo_event 1 0) as [x Hx], (demo_event 0 2) as [y Hy]. exists x, y.
  destruct (handshake demo_warps (barriers_of demo_warps) [0; 0; 0] 1 0 0 2) as [[[f j] lk] ch] eqn:E.
  assert ((f, j, lk) = (true, true, Some Linked)) as Ev.
  { change ((f, j, lk)) with (f, j, lk, ch).1. rewrite <- E. vm_compute. reflexivity. }
  injection Ev as -> -> ->. exists ch. split; [reflexivity|].
  apply (handshake_exact demo_warps [0; 0; 0] 1 0 x 0 2 y true true (Some Linked) ch demo_wf
    (Hx ltac:(auto)) (Hy ltac:(auto)) E). reflexivity.
Defined.

Lemma wait_linked_exact_witness :
  ∃ y p ev, evs_of demo_warps [0; 0; 0] 1 !! 4%nat = Some y ∧
    completion_seen demo_warps [0; 0; 0] 0x20510 0 2 1 p ∧ evs_of demo_warps [0; 0; 0] 1 !! p = Some ev.
Proof.
  destruct (demo_event 1 4) as [y Hy]. exists y. specialize (Hy ltac:(auto)).
  destruct (proj2 (wait_linked_exact demo_warps [0; 0; 0] 0x20510 0 2 1 4 y demo_wf Hy)) as (p & ev & Hc & He & _).
  - vm_compute. reflexivity.
  - exists p, ev. by split_and!.
Defined.

Lemma wait_outcome_sound_witness :
  ∃ ev rest bra, evs_of demo_warps [0; 0; 0] 0 = ev :: rest ∧ wait_success demo_built.2 ev rest = Some true ∧
    bra = pc_of ev + 16 ∧ (∃ pred, sets_predicate (ops ev) pred) ∧ ∃ sass g ops, dict_get demo_built.2 bra = Some (sass, Some g, "BRA"%string, ops).
Proof.
  destruct (evs_of demo_warps [0; 0; 0] 0) as [|ev rest] eqn:E; [by vm_compute in E|].
  assert (wait_success demo_built.2 ev rest = Some true) as Hs.
  { change (match ev :: rest with e :: r => wait_success demo_built.2 e r | [] => None end = Some true).
    rewrite <- E. vm_compute. reflexivity. }
  exists ev, rest, (pc_of ev + 16). split; [reflexivity|]. split; [exact Hs|]. split; [reflexivity|].
  destruct (wait_outcome_sound demo_built.2 ev rest true Hs)
    as (pred & bra & g & k & sk & nxt & more & Hp & Hb & Hk & _ & (sass & ops & Hl) & Hu & _).
  split; [exists pred; exact Hp|].
  destruct k as [|k].
  - exists sass, g, ops. rewrite Hb in Hl. exact Hl.
  - destruct (Hu 0%nat ltac:(lia)) as (s & g0 & mn & o & Hd & Hbra & _). exfalso. apply Hbra.
    assert (pc_of ev = 0x400) as Hpc.
    { change (match ev :: rest with e :: _ => pc_of e | [] => 0 end = 0x400). rewrite <- E. vm_compute. reflexivity. }
    rewrite Hpc in Hd.
    assert (fmap (λ x : listed, x.1.2) (dict_get demo_built.2 (0x400 + 16 * (Z.of_nat 0 + 1))) = Some "BRA"%string) as Hm
      by (vm_compute; reflexivity).
    rewrite Hd in Hm. injection Hm as ->. reflexivity.
Defined.
