(* ===== verification/TraceEdges.v ===== *)
(** Candidate shared-memory edges: the last part of
    src/agentic/skills/audit-memory-model/scripts/trace_edges.py.

    Pairs of accesses to overlapping bytes are found by granule, and each pair is
    counted under its kind and program counters with the evidence seen for it. *)
From S2P Require Import Prelude PyStr PyDict PyText Regex TraceEvents TraceSync.
From Stdlib Require Import Ascii.
From Stdlib Require String.
Local Open Scope Z_scope.

(** ** Pairs *)

Definition overlaps (a b : list (Z * Z)) : bool :=
  existsb (λ r1, existsb (λ r2, (r1.1 <? r2.2) && (r2.1 <? r1.2)) b) a.

Definition MAX_LATER : nat := 64.

Inductive edge :=
| GenericReadAsyncWrite | GenericWriteAsyncRead | GenericWriteAsyncWrite | AsyncWriteGenericRead
| AsyncReadGenericWrite | AsyncAsync | CpasyncWriteGenericRead.
#[export] Instance edge_eq_dec : EqDecision edge.
Proof. solve_decision. Defined.

Definition generic_read (k : option kind) : bool := bool_decide (k = Some generic_r ∨ k = Some generic_rw).
Definition generic_write (k : option kind) : bool :=
  bool_decide (k = Some generic_w ∨ k = Some generic_rw ∨ k = Some cpasync_w).
Definition is_async (k : option kind) : bool :=
  match k with Some (async_w | async_r | async_desc | async_unresolved) => true | _ => false end.

(** The kind of an edge from [a] to a later [b], when the pair needs a check. *)
Definition pair_kind (a b : Event) : option edge :=
  let wr k := bool_decide (k = Some async_w) in let rd k := bool_decide (k = Some async_r) in
  if generic_read (knd a) && wr (knd b) then Some GenericReadAsyncWrite
  else if generic_write (knd a) && rd (knd b) then Some GenericWriteAsyncRead
  else if generic_write (knd a) && wr (knd b) then Some GenericWriteAsyncWrite
  else if wr (knd a) && generic_read (knd b) then Some AsyncWriteGenericRead
  else if rd (knd a) && generic_write (knd b) then Some AsyncReadGenericWrite
  else if is_async (knd a) && is_async (knd b) then Some AsyncAsync
  else if bool_decide (knd a = Some cpasync_w) && generic_read (knd b) then Some CpasyncWriteGenericRead
  else None.

Definition candidate : Type := edge * Event * Event.

(** The later accesses paired with [a], at most [n] more of them, and whether
    some were left out. *)
Fixpoint pair_later (n : nat) (a : Event) (later : list Event) : list candidate * bool :=
  match later with
  | [] => ([], false)
  | b :: r =>
      match pair_kind a b with
      | None => pair_later n a r
      | Some k =>
          match n with
          | O => ([], true)
          | S n' => let '(cs, capped) := pair_later n' a r in ((k, a, b) :: cs, capped)
          end
      end
  end.

Definition capped_counts : Type := dict (string * option kind) nat.

Fixpoint candidate_pairs (seq : list Event) (capped : capped_counts) : list candidate * capped_counts :=
  match seq with
  | [] => ([], capped)
  | a :: r =>
      let '(cs, c) := pair_later MAX_LATER a r in
      let capped := if c : bool then dict_upd capped (pc a, knd a) (λ o, S (default 0%nat o)) else capped in
      let '(cs', capped) := candidate_pairs r capped in (cs ++ cs', capped)
  end.

(** ** Counting *)

Inductive column :=
| occurrences | fence_seen | sync_linked | fence_and_link | no_sync_link | linked_via_intermediate
| wait_linked | wait_lanes_unresolved | sync_lanes_unresolved | no_wait_link | barrier_unknown
| same_warp | same_warp_fence_seen | same_warp_lanes_unresolved | unresolved_wait_in_second_warp
| footprint_unresolved_col | completion_unchecked | manual.
#[export] Instance column_eq_dec : EqDecision column.
Proof. solve_decision. Defined.

Definition counts : Type := dict column nat.
Definition row_key : Type := edge * string * string.
Definition table : Type := dict row_key counts.

(** [r[col] += n] *)
Definition bump (r : counts) (cn : column * nat) : counts := dict_upd r cn.1 (λ o, (default 0%nat o + cn.2)%nat).

Section Classify.
Variables (pw : warps) (b : Barriers) (cta : list Z).

Definition when (g : bool) (c : column) : list (column * nat) := if g then [(c, 1%nat)] else [].
Definition flag_count (g : bool) (c : column) : list (column * nat) := [(c, if g then 1%nat else 0%nat)].

(** Two accesses of one warp. *)
Definition same_warp_counts (x y : Event) : list (column * nat) :=
  (same_warp, 1%nat) ::
  (if negb (Z.ldiff (mask x) (mask y) =? 0) then [(same_warp_lanes_unresolved, 1%nat)]
   else when (existsb (λ e, bool_decide (knd e = Some fence_s) && (pos x <? pos e)%nat && (pos e <? pos y)%nat
                            && (Z.land (mask e) (mask x) =? mask x)) (evs_of pw cta (warp x)))
          same_warp_fence_seen).

Definition wait_column (r : wait_result) : column :=
  match r with
  | Undecidable => barrier_unknown | NoWait => no_wait_link
  | WaitLinked => wait_linked | WaitLanesUnresolved => wait_lanes_unresolved
  end.

(** What is counted for a pair, and its chain. *)
Definition cross_warp_counts (k : edge) (x y : Event) : list (column * nat) * list chain_step :=
  match k with
  | AsyncAsync => ([(manual, 1%nat)], [])
  | AsyncWriteGenericRead =>
      let '(wl, chain) := wait_link pw b cta (warp x) (pos x) (src_bar x) (warp y) (pos y) in
      ([(wait_column wl, 1%nat)], chain)
  | _ =>
      let '(fence, joined, lk, chain) := handshake pw b cta (warp x) (pos x) (warp y) (pos y) in
      let linked := is_linked lk in
      ((if bool_decide (k = AsyncReadGenericWrite) then []
        else flag_count fence fence_seen ++ flag_count (joined && linked) fence_and_link)
       ++ [(if linked then sync_linked else no_sync_link, 1%nat)]
       ++ when (bool_decide (lk = Some LinkedDepth2)) linked_via_intermediate
       ++ when (bool_decide (lk = Some LanesUnresolved)) sync_lanes_unresolved
       ++ when (negb linked && existsb (λ e, bool_decide (knd e = Some mbar_wait) && bool_decide (success e = None)
                                             && (pos e <? pos y)%nat) (evs_of pw cta (warp y)))
            unresolved_wait_in_second_warp, chain)
  end.

Definition pair_counts (k : edge) (x y : Event) : list (column * nat) * list chain_step :=
  let base := (occurrences, 1%nat) ::
    when (bool_decide (footprint_unresolved ∈ flags x ∨ footprint_unresolved ∈ flags y)) footprint_unresolved_col
    ++ when (bool_decide (knd x = Some cpasync_w) || bool_decide (k = AsyncReadGenericWrite)) completion_unchecked in
  if warp x =? warp y then (base ++ same_warp_counts x y, [])
  else let '(cs, chain) := cross_warp_counts k x y in (base ++ cs, chain).

(** The witness kept for a row: the first occurrence, replaced by the first one
    with a chain. *)
Definition seen_pair : Type := list Z * Z * option Z * string * Z * option Z * string * list chain_step.
Definition sighting (x y : Event) (chain : list chain_step) : seen_pair :=
  (cta, warp x, t x, py_hex (mask x), warp y, t y, py_hex (mask y), chain).

Definition keep_witness (w : dict row_key seen_pair) (key : row_key) (x y : Event) (chain : list chain_step)
    : dict row_key seen_pair :=
  match dict_get w key with
  | None => dict_set w key (sighting x y chain)
  | Some old => match chain, old.2 with _ :: _, [] => dict_set w key (sighting x y chain) | _, _ => w end
  end.

Definition signature : Type := edge * Z * nat * Z * nat.
Definition sig_of (p : candidate) : signature :=
  let '(k, x, y) := p in (k, warp x, pos x, warp y, pos y).
Definition key_of (p : candidate) : row_key := let '(k, x, y) := p in (k, pc x, pc y).

Definition tally : Type := table * dict row_key seen_pair.

Definition count_pair (s : tally) (p : candidate) : tally :=
  let '(k, x, y) := p in
  let '(cs, chain) := pair_counts k x y in
  (dict_upd s.1 (key_of p) (λ o, fold_left bump cs (default [] o)), keep_witness s.2 (key_of p) x y chain).

(** One granule's candidates: those already seen and those that do not overlap
    are passed over. *)
Fixpoint count_pairs (ps : list candidate) (seen : list signature) (s : tally) : list signature * tally :=
  match ps with
  | [] => (seen, s)
  | p :: r =>
      if bool_decide (sig_of p ∈ seen) || negb (overlaps (ranges p.1.2) (ranges p.2)) then count_pairs r seen s
      else count_pairs r (sig_of p :: seen) (count_pair s p)
  end.
End Classify.

(** ** Granules *)

(** [range(lo // GRANULE, (hi - 1) // GRANULE + 1)] *)
Definition granules (r : Z * Z) : list Z := seqZ (r.1 / GRANULE) ((r.2 - 1) / GRANULE + 1 - r.1 / GRANULE).

Definition index_event (index : dict Z (list Event)) (e : Event) : dict Z (list Event) :=
  fold_left (λ d g, dict_push d g e) (ranges e ≫= granules) index.
Definition index_of_events (evs : list Event) : dict Z (list Event) := fold_left index_event evs [].

(** [l.sort(key=…)], which keeps the order of what the key does not tell apart. *)
Section StableSort.
Context {A : Type} (le : A → A → Prop) `{!RelDecision le}.

Fixpoint insert_before (x : A) (l : list A) : list A :=
  match l with
  | [] => [x]
  | y :: r => if decide (le x y) then x :: l else y :: insert_before x r
  end.
Definition stable_sort (l : list A) : list A := foldr insert_before [] l.

Lemma insert_before_Permutation x l : insert_before x l ≡ₚ x :: l.
Proof. induction l as [|y l IH]; cbn; [done|]. case_decide; [done|]. rewrite IH. apply Permutation_swap. Qed.

Lemma stable_sort_Permutation l : stable_sort l ≡ₚ l.
Proof. induction l as [|x l IH]; cbn; [done|]. by rewrite insert_before_Permutation, IH. Qed.

Lemma insert_before_Sorted `{!Total le} x l : Sorted le l → Sorted le (insert_before x l).
Proof.
  induction 1 as [|y l Hl IH Hy]; cbn; [by repeat constructor|]. case_decide as Hxy; [by repeat constructor|].
  constructor; [done|]. assert (le y x) by (destruct (total le x y); done).
  destruct Hy as [|z l Hz]; cbn; [by constructor|]. by case_decide; constructor.
Qed.

Lemma stable_sort_Sorted `{!Total le} l : Sorted le (stable_sort l).
Proof. induction l as [|x l IH]; cbn; [constructor|]. by apply insert_before_Sorted. Qed.

(** What the order does not tell apart stays in its order. *)
Lemma stable_sort_stable (P : A → Prop) `{!∀ x, Decision (P x)} l :
  (∀ x y, P x → P y → le x y) → filter P (stable_sort l) = filter P l.
Proof.
  intros HP. induction l as [|x l IH]; [done|]. cbn [stable_sort foldr]. fold (stable_sort l).
  rewrite filter_cons, <- IH. generalize (stable_sort l). clear IH l. intros l.
  induction l as [|y l IH]; cbn [insert_before]; [by rewrite filter_cons|].
  destruct (decide (le x y)) as [|Hxy]; [by rewrite filter_cons|]. rewrite !(filter_cons _ y), IH.
  destruct (decide (P x)) as [Hx|Hx], (decide (P y)) as [Hy|Hy]; try done. by destruct Hxy; apply HP.
Qed.
End StableSort.

(** [evs.sort(key=lambda e: e.t or 0)] *)
Definition t_le (a b : Event) : Prop := default 0 (t a) <= default 0 (t b).
#[export] Instance t_le_dec : RelDecision t_le.
Proof. intros a b. unfold t_le. apply _. Defined.

Definition cta_step (pw : warps) (b : Barriers) (s : tally * capped_counts) (e : list Z * list Event)
    : tally * capped_counts :=
  let index := index_of_events (stable_sort t_le e.2) in
  let '(_, tl, capped) :=
    fold_left (λ '(seen, tl, capped) (sq : Z * list Event),
      let '(ps, capped) := candidate_pairs sq.2 capped in
      let '(seen, tl) := count_pairs pw b e.1 ps seen tl in (seen, tl, capped))
      index ([], s.1, s.2) in
  (tl, capped).

(** ** What cannot be resolved *)

Definition why : list flag := [footprint_unresolved; operand_unresolved; remote_shared].
Definition flag_name (f : flag) : string :=
  match f with
  | operand_unresolved => "operand_unresolved" | matrix_footprint_approx => "matrix_footprint_approx"
  | footprint_unresolved => "footprint_unresolved" | barrier_nonuniform => "barrier_nonuniform"
  | remote_shared => "remote_shared"
  end.
Definition unresolved_table : Type := dict (string * string * string) nat.
Definition note (u : unresolved_table) (pc sass w : string) : unresolved_table :=
  dict_upd u (pc, sass, w) (λ o, S (default 0%nat o)).

Definition is_access (k : option kind) : bool := match k with Some k => bool_decide (k ∈ ACCESS_KINDS) | None => false end.

Definition event_unresolved (u : unresolved_table) (ev : Event) : unresolved_table :=
  let text := str (strip (chars (sass ev))) in
  let bad := List.filter (λ f, bool_decide (f ∈ flags ev)) why in
  let u :=
    match knd ev with
    | Some async_desc => note u (pc ev) text "descriptor"
    | Some async_unresolved => note u (pc ev) text "unsupported"
    | k => if is_access k && negb (bool_decide (bad = []))
           then note u (pc ev) text (str (join_text (chars ",") (chars ∘ flag_name <$> bad))) else u
    end in
  if bool_decide (knd ev = Some mbar_wait) && bool_decide (success ev = None)
  then note u (pc ev) text "wait_success_unresolved" else u.

Definition accesses_by_cta (pw : warps) : dict (list Z) (list Event) :=
  fold_left (λ d (e : warp_key * list Event),
    fold_left (λ d ev, if is_access (knd ev) && negb (bool_decide (ranges ev = [])) then dict_push d e.1.1 ev else d) e.2 d)
    pw [].

Definition unresolved_events (pw : warps) : unresolved_table :=
  fold_left (λ u (e : warp_key * list Event), fold_left event_unresolved e.2 u) pw [].

Definition capped_note : string := "discovery_capped_at_64".
Definition add_capped (u : unresolved_table) (e : string * option kind * nat) : unresolved_table :=
  dict_upd u (e.1.1, match e.1.2 with Some k => kind_name k | None => "None"%string end, capped_note)
    (λ o, (default 0%nat o + e.2)%nat).

Record analysis := mkAnalysis {
  rows : table; witness : dict row_key seen_pair; unresolved : unresolved_table; barriers : Barriers }.

(** The analysis of the marked events. *)
Definition analyze_events (pw : warps) : tally * capped_counts * Barriers :=
  let b := barriers_of pw in (fold_left (cta_step pw b) (accesses_by_cta pw) ([], [], []), b).

Definition analyze (instructions : list (string * string)) (lines : list trace_rec) : res exn analysis :=
  '(pw, pc_sass) ← build_events instructions lines;
  let pw := mark_wait_success pw pc_sass in
  let '(tl, capped, b) := analyze_events pw in
  Ok (mkAnalysis tl.1 tl.2 (fold_left add_capped capped (unresolved_events pw)) b).

Definition war_edge (k : edge) : bool := bool_decide (k = GenericReadAsyncWrite ∨ k = AsyncReadGenericWrite).

(** Whether the warning that no buffer was seen reused is given. *)
Definition reuse_warning (rows : table) : bool := negb (existsb (λ e, war_edge e.1.1.1) rows).

(** ** Candidates: every conflicting pair *)

(** Every pair of a list, in order, that needs a check. *)
Fixpoint all_pairs (seq : list Event) : list candidate :=
  match seq with
  | [] => []
  | a :: r => omap (λ b, (λ k, (k, a, b)) <$> pair_kind a b) r ++ all_pairs r
  end.

(** The conflicts among accesses in receive order: what is to be counted. *)
Definition conflict (p : candidate) : bool := overlaps (ranges p.1.2) (ranges p.2).
Definition conflicts (evs : list Event) : list candidate := List.filter conflict (all_pairs evs).

Lemma pair_later_all n a later cs :
  pair_later n a later = (cs, false) → cs = omap (λ b, (λ k, (k, a, b)) <$> pair_kind a b) later.
Proof.
  revert n cs. induction later as [|b r IH]; intros n cs; cbn; [by intros [= <-]|].
  destruct (pair_kind a b) as [k|]; cbn; [|apply IH].
  destruct n as [|n]; [done|]. destruct (pair_later n a r) as [cs' c] eqn:E. intros [= <- ->]. by rewrite (IH _ _ E).
Qed.

Lemma dict_set_not_nil {K V} `{EqDecision K} (d : dict K V) k v : dict_set d k v ≠ [].
Proof. destruct d as [|[k' v'] d]; cbn; [done|]. by case_decide. Qed.

(** With no truncation to report, the candidates are all the pairs. *)
Lemma candidate_pairs_all seq capped ps :
  candidate_pairs seq capped = (ps, []) → capped = [] ∧ ps = all_pairs seq.
Proof.
  revert capped ps. induction seq as [|a r IH]; intros capped ps; cbn; [by intros [= <- ->]|].
  destruct (pair_later MAX_LATER a r) as [cs c] eqn:E.
  destruct (candidate_pairs r _) as [cs' capped'] eqn:E'. intros [= <- ->]. apply IH in E' as [Hc ->].
  destruct c; [by apply dict_set_not_nil in Hc|]. by rewrite (pair_later_all _ _ _ _ E).
Qed.

Lemma all_pairs_elem k a b seq :
  (k, a, b) ∈ all_pairs seq ↔
  ∃ i j, (i < j)%nat ∧ seq !! i = Some a ∧ seq !! j = Some b ∧ pair_kind a b = Some k.
Proof.
  induction seq as [|e r IH]; cbn.
  - split; [by intros ?%elem_of_nil|by intros (i & j & _ & ? & _)].
  - rewrite elem_of_app, IH, list_elem_of_omap. split.
    + intros [(y & (j & Hj)%list_elem_of_lookup & (k' & Hk & [= -> -> ->])%fmap_Some)|(i & j & Hij & Hi & Hj & Hk)].
      * exists 0%nat, (S j). split_and!; [lia|done..].
      * exists (S i), (S j). split_and!; [lia|done..].
    + intros (i & j & Hij & Hi & Hj & Hk). destruct j as [|j]; [lia|]. cbn in Hj. destruct i as [|i]; cbn in Hi.
      * left. exists b. split; [by eapply list_elem_of_lookup_2|]. injection Hi as ->. by rewrite Hk.
      * right. exists i, j. split_and!; [lia|done..].
Qed.

(** *** What is passed over *)

Fixpoint accept (ps : list candidate) (seen : list signature) : list candidate :=
  match ps with
  | [] => []
  | p :: r => if bool_decide (sig_of p ∈ seen) || negb (conflict p) then accept r seen else p :: accept r (sig_of p :: seen)
  end.

Definition count_all (pw : warps) (b : Barriers) (c : list Z) (s : tally) (ps : list candidate) : tally :=
  fold_left (count_pair pw b c) ps s.

Lemma count_pairs_accept pw b c ps seen s seen' s' :
  count_pairs pw b c ps seen s = (seen', s') →
  s' = count_all pw b c s (accept ps seen) ∧ seen' = rev (sig_of <$> accept ps seen) ++ seen.
Proof.
  revert seen s. induction ps as [|p r IH]; intros seen s; cbn.
  - by intros [= <- <-].
  - unfold conflict at 1 2. destruct (_ || _); [apply IH|]. intros [-> ->]%IH. split; [done|].
    cbn. by rewrite <- app_assoc.
Qed.

Lemma accept_app ps ps' seen :
  accept (ps ++ ps') seen = accept ps seen ++ accept ps' (rev (sig_of <$> accept ps seen) ++ seen).
Proof.
  revert seen. induction ps as [|p r IH]; intros seen; cbn; [done|].
  destruct (_ || _); [done|]. cbn. rewrite IH. by rewrite <- app_assoc.
Qed.

Lemma accept_elem p ps seen : p ∈ accept ps seen → p ∈ ps ∧ conflict p = true ∧ sig_of p ∉ seen.
Proof.
  revert seen. induction ps as [|q r IH]; intros seen; cbn; [by intros ?%elem_of_nil|].
  rewrite elem_of_cons. destruct (bool_decide _ || _) eqn:E.
  - intros H%IH. naive_solver.
  - apply orb_false_iff in E as [Hs%bool_decide_eq_false Hc%negb_false_iff].
    intros [->|(Hin & Hcp & Hnot)%IH]%elem_of_cons; [by auto|]. rewrite elem_of_cons in Hnot. naive_solver.
Qed.

Lemma accept_NoDup ps seen : NoDup (sig_of <$> accept ps seen).
Proof.
  revert seen. induction ps as [|p r IH]; intros seen; cbn; [constructor|].
  destruct (_ || _); [done|]. cbn. constructor; [|apply IH].
  intros (q & E & Hq)%list_elem_of_fmap. apply accept_elem in Hq as (_ & _ & Hq). apply Hq. rewrite <- E. by left.
Qed.

Lemma accept_complete p ps seen :
  p ∈ ps → conflict p = true → sig_of p ∈ seen ∨ ∃ q, q ∈ accept ps seen ∧ sig_of q = sig_of p.
Proof.
  revert seen. induction ps as [|q r IH]; intros seen; cbn; [by intros ?%elem_of_nil|].
  intros Hin Hc. apply elem_of_cons in Hin as [<-|Hin].
  - rewrite Hc, orb_false_r. case_bool_decide as Hs; [by left|]. right. exists p. split; [by left|done].
  - destruct (_ || _); [by apply IH|]. destruct (IH (sig_of q :: seen) Hin Hc) as [[->|?]%elem_of_cons|(q' & Hq & E)].
    + right. exists q. split; [by left|done].
    + by left.
    + right. exists q'. split; [by right|done].
Qed.

(** *** Granules *)

Lemma granules_elem g r : g ∈ granules r ↔ r.1 / GRANULE ≤ g ≤ (r.2 - 1) / GRANULE.
Proof. unfold granules. rewrite elem_of_seqZ. lia. Qed.

Lemma granules_NoDup r : NoDup (granules r).
Proof. apply NoDup_seqZ. Qed.

(** The entries of an access in a granule. *)
Definition hits (g : Z) (e : Event) : list Event :=
  (λ _, e) <$> List.filter (Z.eqb g) (ranges e ≫= granules).

Lemma hits_elem g e x : x ∈ hits g e ↔ x = e ∧ g ∈ ranges e ≫= granules.
Proof.
  unfold hits. rewrite list_elem_of_fmap. setoid_rewrite list_elem_of_In. setoid_rewrite filter_In.
  setoid_rewrite Z.eqb_eq. split.
  - intros (g' & -> & Hg & <-). by split.
  - intros [-> Hg]. by exists g.
Qed.

Lemma index_get evs g : dlist (index_of_events evs) g = evs ≫= hits g.
Proof.
  assert (∀ gs (d : dict Z (list Event)) e, dlist (fold_left (λ d g, dict_push d g e) gs d) g = dlist d g ++ ((λ _ : Z, e) <$> List.filter (Z.eqb g) gs)) as Hg.
  { induction gs as [|g' gs IH]; intros d e; cbn; [by rewrite app_nil_r|].
    rewrite IH, dlist_push. destruct (Z.eqb_spec g g') as [<-|Hne].
    - rewrite decide_True by done. by rewrite <- app_assoc.
    - by rewrite decide_False. }
  assert (∀ d, dlist (fold_left index_event evs d) g = dlist d g ++ (evs ≫= hits g)) as H; [|apply (H [])].
  induction evs as [|e evs IH]; intros d; cbn; [by rewrite app_nil_r|].
  rewrite IH. unfold index_event at 1. rewrite Hg. by rewrite <- app_assoc.
Qed.

Lemma index_wf evs : dict_wf (index_of_events evs).
Proof.
  unfold index_of_events. assert (∀ d, dict_wf d → dict_wf (fold_left index_event evs d)) as H; [|apply H; constructor].
  induction evs as [|e evs IH]; intros d Hd; cbn; [done|]. apply IH. unfold index_event.
  revert d Hd. induction (ranges e ≫= granules) as [|g gs IHg]; intros d Hd; cbn; [done|]. by apply IHg, dict_wf_push.
Qed.

Lemma bind_order {A B} (f : A → list B) (l : list A) i j x y :
  (i < j)%nat → (l ≫= f) !! i = Some x → (l ≫= f) !! j = Some y →
  ∃ u v a b, l !! u = Some a ∧ l !! v = Some b ∧ x ∈ f a ∧ y ∈ f b ∧
    ((u < v)%nat ∨ u = v ∧ (1 < length (f a))%nat).
Proof.
  revert i j. induction l as [|a l IH]; intros i j Hij; cbn; [done|].
  rewrite !lookup_app. destruct (f a !! i) as [x'|] eqn:Ei.
  - intros [= ->]. destruct (f a !! j) as [y'|] eqn:Ej.
    + intros [= ->]. exists 0%nat, 0%nat, a, a. split_and!; [done|done|by eapply list_elem_of_lookup_2..|].
      right. split; [done|]. apply lookup_lt_Some in Ej. lia.
    + intros Hy. apply list_elem_of_lookup_2, list_elem_of_bind in Hy as (b & Hb & (v & Hv)%list_elem_of_lookup).
      exists 0%nat, (S v), a, b. split_and!; [done|done|by eapply list_elem_of_lookup_2|done|left; lia].
  - intros Hx. apply lookup_ge_None in Ei. destruct (f a !! j) as [y'|] eqn:Ej; [apply lookup_lt_Some in Ej; lia|].
    intros Hy. destruct (IH (i - length (f a))%nat (j - length (f a))%nat ltac:(lia) Hx Hy) as (u & v & a' & b' & Hu & Hv & Hxa & Hyb & Hor).
    exists (S u), (S v), a', b'. split_and!; [done..|]. destruct Hor as [?|[-> ?]]; [left; lia|by right].
Qed.

Lemma bind_order_intro {A B} (f : A → list B) (l : list A) u v a b x y :
  (u < v)%nat → l !! u = Some a → l !! v = Some b → x ∈ f a → y ∈ f b →
  ∃ i j, (i < j)%nat ∧ (l ≫= f) !! i = Some x ∧ (l ≫= f) !! j = Some y.
Proof.
  revert u v. induction l as [|c l IH]; intros u v Huv; cbn; [done|].
  destruct v as [|v]; [lia|]. cbn. destruct u as [|u]; cbn.
  - intros [= ->] Hv (i & Hi)%list_elem_of_lookup Hy.
    assert (y ∈ l ≫= f) as (j & Hj)%list_elem_of_lookup.
    { apply list_elem_of_bind. exists b. split; [done|]. by eapply list_elem_of_lookup_2. }
    exists i, (length (f a) + j)%nat. apply lookup_lt_Some in Hi as Hlt. split_and!; [lia| |].
    + by apply lookup_app_l_Some.
    + rewrite lookup_app_r by lia. by replace (length (f a) + j - length (f a))%nat with j by lia.
  - intros Hu Hv Hx Hy. destruct (IH u v ltac:(lia) Hu Hv Hx Hy) as (i & j & Hij & Hi & Hj).
    exists (length (f c) + i)%nat, (length (f c) + j)%nat. split_and!; [lia|..]; rewrite lookup_app_r by lia;
      [by replace (length (f c) + i - length (f c))%nat with i by lia
      |by replace (length (f c) + j - length (f c))%nat with j by lia].
Qed.

(** *** The accesses of a CTA *)

Definition is_tracked (ev : Event) : bool := is_access (knd ev) && negb (bool_decide (ranges ev = [])).

Lemma accesses_get pw c :
  dlist (accesses_by_cta pw) c = pw ≫= λ e : warp_key * list Event, if decide (e.1.1 = c) then List.filter is_tracked e.2 else [].
Proof.
  assert (∀ key evs (d : dict (list Z) (list Event)), dlist (fold_left (λ d ev, if is_tracked ev then dict_push d key ev else d) evs d) c =
    dlist d c ++ (if decide (key = c) then List.filter is_tracked evs else [])) as He.
  { intros key. induction evs as [|ev evs IH]; intros d; cbn; [case_decide; by rewrite app_nil_r|].
    rewrite IH. destruct (is_tracked ev); [|done]. rewrite dlist_push.
    case_decide as E; [|done]. subst key. by rewrite <- app_assoc. }
  unfold accesses_by_cta. assert (∀ d : dict (list Z) (list Event), dlist (fold_left (λ d (e : warp_key * list Event),
    fold_left (λ d ev, if is_tracked ev then dict_push d e.1.1 ev else d) e.2 d) pw d) c =
    dlist d c ++ (pw ≫= λ e : warp_key * list Event, if decide (e.1.1 = c) then List.filter is_tracked e.2 else [])) as H; [|apply (H [])].
  induction pw as [|e pw IH]; intros d; cbn; [by rewrite app_nil_r|]. rewrite IH, He. by rewrite <- app_assoc.
Qed.

Lemma accesses_wf pw : dict_wf (accesses_by_cta pw).
Proof.
  unfold accesses_by_cta.
  assert (∀ d : dict (list Z) (list Event), dict_wf d → dict_wf (fold_left (λ d (e : warp_key * list Event),
    fold_left (λ d ev, if is_tracked ev then dict_push d e.1.1 ev else d) e.2 d) pw d)) as H; [|apply H; constructor].
  induction pw as [|[key evs] pw IH]; intros d Hd; cbn; [done|]. apply IH. revert d Hd.
  induction evs as [|ev evs IHe]; intros d Hd; cbn; [done|]. apply IHe. destruct (is_tracked ev); [by apply dict_wf_push|done].
Qed.

Definition place (ev : Event) : Z * nat := (warp ev, pos ev).

Section Accesses.
Variable pw : warps.
Hypothesis Hpw : warps_wf pw.
Hypothesis Hranges : ∀ key i ev, dlist pw key !! i = Some ev → ranges_wf ev.

Lemma pw_entry key evs i ev : (key, evs) ∈ pw → evs !! i = Some ev → dlist pw key !! i = Some ev.
Proof. intros Hin Hi. unfold dlist. by rewrite (dict_wf_get _ _ _ (proj1 Hpw) Hin). Qed.

Lemma accesses_elem c ev :
  ev ∈ dlist (accesses_by_cta pw) c ↔ evs_of pw c (warp ev) !! pos ev = Some ev ∧ is_tracked ev = true.
Proof.
  rewrite accesses_get, list_elem_of_bind. split.
  - intros ([[c' w] evs] & Hev & Hin). cbn in Hev. case_decide as E; [subst c'|by apply elem_of_nil in Hev].
    apply list_elem_of_In, filter_In in Hev as [(i & Hi)%list_elem_of_In%list_elem_of_lookup Ht]. split; [|done].
    pose proof (pw_entry _ _ _ _ Hin Hi) as Hl. destruct (proj2 Hpw _ _ _ Hl) as [_ Hw Hp _].
    unfold evs_of. rewrite Hw, Hp. exact Hl.
  - intros [Hl Ht]. unfold evs_of, dlist in Hl. destruct (dict_get pw (c, warp ev)) as [evs|] eqn:E; [|done]. cbn in Hl.
    exists ((c, warp ev), evs). split; [|by apply dict_get_In]. cbn. rewrite decide_True by done.
    apply list_elem_of_In, filter_In. split; [|done]. by eapply list_elem_of_In, list_elem_of_lookup_2.
Qed.

Lemma accesses_NoDup c : NoDup (place <$> dlist (accesses_by_cta pw) c).
Proof.
  rewrite accesses_get. destruct Hpw as [Hd _]. pose proof pw_entry as He. clear Hranges.
  assert (∀ key evs i ev, (key, evs) ∈ pw → evs !! i = Some ev → warp ev = key.2 ∧ pos ev = i) as Hat.
  { intros key evs i ev Hin Hi. destruct (proj2 Hpw _ _ _ (He _ _ _ _ Hin Hi)). done. }
  clear Hpw He. unfold dict_wf in Hd. induction pw as [|[[c' w] evs] pw' IH]; cbn; [constructor|].
  apply NoDup_cons in Hd as [Hk Hd]. rewrite fmap_app. apply NoDup_app. split_and!.
  - case_decide; [|constructor]. assert (NoDup (place <$> evs)) as Hn.
    { apply NoDup_alt. intros i j p (a & -> & Ha)%list_lookup_fmap_Some (b & E & Hb)%list_lookup_fmap_Some.
      destruct (Hat _ _ i a ltac:(by left) Ha) as [_ <-], (Hat _ _ j b ltac:(by left) Hb) as [_ <-].
      unfold place in E. congruence. }
    clear -Hn. induction evs as [|e evs IH]; cbn; [constructor|]. apply NoDup_cons in Hn as [He Hn].
    destruct (is_tracked e); [|by apply IH]. cbn. constructor; [|by apply IH].
    intros (x & E & Hx)%list_elem_of_fmap. apply He. rewrite E. apply list_elem_of_fmap_2.
    apply list_elem_of_In in Hx. apply filter_In in Hx as [Hx _]. by apply list_elem_of_In.
  - intros p (a & -> & Ha)%list_elem_of_fmap (b & E & ([[c2 w2] evs2] & Hb & Hin)%list_elem_of_bind)%list_elem_of_fmap.
    cbn in Ha, Hb. destruct (decide (c' = c)) as [Ec|]; [|by apply elem_of_nil in Ha].
    destruct (decide (c2 = c)) as [Ec2|]; [|by apply elem_of_nil in Hb].
    apply list_elem_of_In, filter_In in Ha as [(i & Hi)%list_elem_of_In%list_elem_of_lookup _].
    apply list_elem_of_In, filter_In in Hb as [(j & Hj)%list_elem_of_In%list_elem_of_lookup _].
    destruct (Hat _ _ i a ltac:(by left) Hi) as [Hwa _], (Hat _ _ j b ltac:(by right) Hj) as [Hwb _].
    unfold place in E. cbn in Hwa, Hwb. apply Hk, list_elem_of_fmap. exists ((c2, w2), evs2). split; [|done].
    cbn. injection E as E1 E2. congruence.
  - apply IH; [done|]. intros key evs' i ev Hin. apply Hat. by right.
Qed.

(** *** Counted pairs are the conflicts *)

Section Cta.
Variable c : list Z.
Let received : list Event := stable_sort t_le (dlist (accesses_by_cta pw) c).

Lemma received_elem ev : ev ∈ received ↔ evs_of pw c (warp ev) !! pos ev = Some ev ∧ is_tracked ev = true.
Proof. subst received. rewrite stable_sort_Permutation. apply accesses_elem. Qed.

Lemma received_NoDup : NoDup received.
Proof. subst received. rewrite stable_sort_Permutation. apply (NoDup_fmap_1 place), accesses_NoDup. Qed.

Lemma place_inj a b : a ∈ received → b ∈ received → place a = place b → a = b.
Proof.
  intros [Ha _]%received_elem [Hb _]%received_elem [= E1 E2]. rewrite E1, E2 in Ha. congruence.
Qed.

Lemma received_ranges a : a ∈ received → ranges_wf a.
Proof. intros [Ha _]%received_elem. by eapply Hranges. Qed.

Lemma async_hits g a : a ∈ received → is_async (knd a) = true → (length (hits g a) <= 1)%nat.
Proof.
  intros Ha Hk. destruct (received_ranges a Ha) as [_ Hl]. unfold hits. rewrite length_fmap.
  assert (length (ranges a) <= 1)%nat as Hlen.
  { apply Hl. unfold lane_kind. destruct (knd a) as [[]|]; try done; vm_compute; done. }
  destruct (ranges a) as [|r [|r' l]]; cbn in Hlen; [cbn; lia| |lia]. cbn. rewrite app_nil_r.
  pose proof (granules_NoDup r) as Hnd. clear -Hnd. induction (granules r) as [|x l IH]; cbn; [lia|].
  apply NoDup_cons in Hnd as [Hx Hnd]. destruct (Z.eqb_spec g x) as [->|]; [|by apply IH]. cbn.
  assert (List.filter (Z.eqb x) l = []) as ->; [|cbn; lia].
  destruct (List.filter (Z.eqb x) l) as [|y r'] eqn:E; [done|].
  assert (In y (List.filter (Z.eqb x) l)) as [Hy Hxy]%filter_In by (rewrite E; by left).
  apply Z.eqb_eq in Hxy as <-. by apply list_elem_of_In in Hy.
Qed.

Lemma pair_kind_self a k : pair_kind a a = Some k → is_async (knd a) = true.
Proof. unfold pair_kind. destruct (knd a) as [[]|]; cbn; done. Qed.

Definition granule_pairs : list candidate := (index_of_events received).*2 ≫= all_pairs.

Lemma granule_pairs_elem p : conflict p = true → p ∈ granule_pairs ↔ p ∈ all_pairs received.
Proof.
  destruct p as [[k a] b]. intros Hc. unfold granule_pairs. rewrite list_elem_of_bind. split.
  - intros (seq & Hp & ([g seq'] & -> & Hin)%list_elem_of_fmap). cbn in Hp.
    assert (seq' = received ≫= hits g) as ->.
    { rewrite <- index_get. unfold dlist. by rewrite (dict_wf_get _ _ _ (index_wf received) Hin). }
    apply all_pairs_elem in Hp as (i & j & Hij & Hi & Hj & Hk).
    destruct (bind_order _ _ _ _ _ _ Hij Hi Hj) as (u & v & a' & b' & Hu & Hv & [<- _]%hits_elem & [<- _]%hits_elem & [Hlt|[-> Hlen]]).
    + apply all_pairs_elem. by exists u, v.
    + rewrite Hu in Hv. injection Hv as <-. apply pair_kind_self in Hk.
      apply (async_hits g) in Hk; [lia|]. by eapply list_elem_of_lookup_2.
  - intros (u & v & Huv & Hu & Hv & Hk)%all_pairs_elem.
    destruct (received_ranges a) as [Hra _]; [by eapply list_elem_of_lookup_2|].
    destruct (received_ranges b) as [Hrb _]; [by eapply list_elem_of_lookup_2|].
    unfold conflict, overlaps in Hc. cbn in Hc. apply existsb_exists in Hc as (r1 & Hr1 & (r2 & Hr2 & Ho)%existsb_exists).
    apply andb_true_iff in Ho as [H1%Z.ltb_lt H2%Z.ltb_lt]. rewrite <- list_elem_of_In in Hr1, Hr2.
    rewrite Forall_forall in Hra, Hrb. specialize (Hra _ Hr1). specialize (Hrb _ Hr2).
    set (g := Z.max r1.1 r2.1 / GRANULE).
    assert (∀ r, r.1 ≤ Z.max r1.1 r2.1 ≤ r.2 - 1 → g ∈ granules r) as Hg.
    { intros r Hr. apply granules_elem. split; apply Z.div_le_mono; unfold GRANULE; lia. }
    destruct (bind_order_intro (hits g) received u v a b a b Huv Hu Hv) as (i & j & Hij & Hi & Hj).
    { apply hits_elem. split; [done|]. apply list_elem_of_bind. exists r1. split; [apply Hg; lia|done]. }
    { apply hits_elem. split; [done|]. apply list_elem_of_bind. exists r2. split; [apply Hg; lia|done]. }
    rewrite <- index_get in Hi, Hj. unfold dlist in Hi, Hj.
    destruct (dict_get (index_of_events received) g) as [seq|] eqn:E; [|done]. cbn in Hi, Hj.
    exists seq. split; [apply all_pairs_elem; by exists i, j|].
    apply dict_get_In in E. apply list_elem_of_fmap. by exists (g, seq).
Qed.

Lemma all_pairs_NoDup l : NoDup l → NoDup (all_pairs l).
Proof.
  induction 1 as [|a r Ha Hr IH]; cbn; [constructor|]. apply NoDup_app. split_and!; [|..|done].
  - clear -Hr. induction Hr as [|b r Hb _ IH]; cbn; [constructor|].
    destruct (pair_kind a b) as [k|]; cbn; [|done]. constructor; [|done].
    intros (b' & Hb' & (k' & _ & [= _ ->])%fmap_Some)%list_elem_of_omap. done.
  - intros [[k x] y] (b & _ & (k' & _ & [= -> -> ->])%fmap_Some)%list_elem_of_omap (i & j & _ & Hi & _)%all_pairs_elem.
    apply Ha. by eapply list_elem_of_lookup_2.
Qed.

Lemma accepted_conflicts : accept granule_pairs [] ≡ₚ conflicts received.
Proof.
  apply NoDup_Permutation.
  - apply (NoDup_fmap_1 sig_of), accept_NoDup.
  - apply NoDup_ListNoDup, List.NoDup_filter, NoDup_ListNoDup, all_pairs_NoDup, received_NoDup.
  - intros p. unfold conflicts. rewrite (list_elem_of_In (List.filter _ _) p), filter_In, <- list_elem_of_In. split.
    + intros (Hin & Hc & _)%accept_elem. split; [by apply granule_pairs_elem|done].
    + intros [Hin Hc]. apply (granule_pairs_elem p Hc) in Hin as Hg.
      destruct (accept_complete p granule_pairs [] Hg Hc) as [?%elem_of_nil|(q & Hq & E)]; [done|].
      assert (q = p) as <-; [|done]. apply accept_elem in Hq as (Hqg & Hqc & _).
      apply (granule_pairs_elem q Hqc) in Hqg. destruct p as [[k a] b], q as [[k' a'] b'].
      apply all_pairs_elem in Hin as (i & j & _ & Ha%list_elem_of_lookup_2 & Hb%list_elem_of_lookup_2 & _).
      apply all_pairs_elem in Hqg as (i' & j' & _ & Ha'%list_elem_of_lookup_2 & Hb'%list_elem_of_lookup_2 & _).
      cbn in E. injection E as -> E1 E2 E3 E4.
      rewrite (place_inj a' a Ha' Ha) by (unfold place; congruence).
      rewrite (place_inj b' b Hb' Hb) by (unfold place; congruence). done.
Qed.
End Cta.
End Accesses.

(** ** What the rows add up to *)

Definition cell (tb : table) (key : row_key) (col : column) : nat :=
  default 0%nat (dict_get (default [] (dict_get tb key)) col).

(** The sum of a function over a list. *)
Definition total {A} (f : A → nat) (l : list A) : nat := sum_list_with f l.

Definition amount (cs : list (column * nat)) (col : column) : nat :=
  total (λ cn, if decide (cn.1 = col) then cn.2 else 0%nat) cs.

(** What a pair adds to a column of its row. *)
Definition share (pw : warps) (c : list Z) (col : column) (p : candidate) : nat :=
  amount (pair_counts pw (barriers_of pw) c p.1.1 p.1.2 p.2).1 col.

Definition row_total (pw : warps) (c : list Z) (key : row_key) (col : column) (ps : list candidate) : nat :=
  total (λ p, if decide (key_of p = key) then share pw c col p else 0%nat) ps.

(** The accesses of a CTA in receive order. *)
Definition received_of (pw : warps) (c : list Z) : list Event := stable_sort t_le (dlist (accesses_by_cta pw) c).

Lemma bump_cell cs r col :
  default 0%nat (dict_get (fold_left bump cs r) col) = (default 0%nat (dict_get r col) + amount cs col)%nat.
Proof.
  revert r. induction cs as [|[c n] cs IH]; intros r; cbn [fold_left]; [cbn; lia|].
  change (amount ((c, n) :: cs) col) with ((if decide (c = col) then n else 0) + amount cs col)%nat.
  rewrite IH. unfold bump. rewrite dict_get_upd. cbn [fst snd]. case_decide as E; [subst c; cbn; lia|lia].
Qed.

Lemma count_pair_cell pw c s p key col :
  cell (count_pair pw (barriers_of pw) c s p).1 key col =
  (cell s.1 key col + (if decide (key_of p = key) then share pw c col p else 0))%nat.
Proof.
  destruct p as [[k x] y]. unfold count_pair, share. cbn [fst snd].
  destruct (pair_counts pw (barriers_of pw) c k x y) as [cs chain]. unfold cell. cbn [fst].
  rewrite dict_get_upd. case_decide as E; [|lia]. subst key. cbn. by rewrite bump_cell.
Qed.

Lemma count_all_cell pw c ps s key col :
  cell (count_all pw (barriers_of pw) c s ps).1 key col = (cell s.1 key col + row_total pw c key col ps)%nat.
Proof.
  unfold count_all, row_total, total. revert s. induction ps as [|p ps IH]; intros s; cbn; [lia|].
  rewrite IH, count_pair_cell. lia.
Qed.

Lemma row_total_Permutation pw c key col ps ps' :
  ps ≡ₚ ps' → row_total pw c key col ps = row_total pw c key col ps'.
Proof. unfold row_total, total. by intros ->. Qed.

Lemma index_fold pw c (l : list (Z * list Event)) seen tl capped seen' tl' :
  fold_left (λ '(seen, tl, capped) (sq : Z * list Event),
      let '(ps, capped) := candidate_pairs sq.2 capped in
      let '(seen, tl) := count_pairs pw (barriers_of pw) c ps seen tl in (seen, tl, capped)) l (seen, tl, capped)
    = (seen', tl', []) →
  capped = [] ∧ tl' = count_all pw (barriers_of pw) c tl (accept (l.*2 ≫= all_pairs) seen).
Proof.
  revert seen tl capped. induction l as [|[g sq] l IH]; intros seen tl capped; cbn; [by intros [= _ <- ->]|].
  destruct (candidate_pairs sq capped) as [ps capped1] eqn:Ec.
  destruct (count_pairs _ _ _ ps seen tl) as [seen1 tl1] eqn:Ep. intros [-> ->]%IH.
  apply candidate_pairs_all in Ec as [-> ->]. split; [done|].
  apply count_pairs_accept in Ep as [-> ->]. rewrite accept_app. unfold count_all. by rewrite fold_left_app.
Qed.

Section Rows.
Variable pw : warps.
Hypothesis Hpw : warps_wf pw.
Hypothesis Hranges : ∀ key i ev, dlist pw key !! i = Some ev → ranges_wf ev.

Lemma ctas_fold (l : list (list Z * list Event)) s tl :
  (∀ e, e ∈ l → e.2 = dlist (accesses_by_cta pw) e.1) →
  fold_left (cta_step pw (barriers_of pw)) l s = (tl, []) →
  s.2 = [] ∧ ∀ key col, cell tl.1 key col =
    (cell s.1.1 key col + total (λ e, row_total pw e.1 key col (conflicts (received_of pw e.1))) l)%nat.
Proof.
  revert s. induction l as [|[c evs] l IH]; intros s Hl; cbn [fold_left].
  - intros ->. split; [done|]. intros key col. cbn. lia.
  - intros H. apply IH in H as [Hc Hcell]; [|intros e He; apply Hl; by right].
    pose proof (Hl (c, evs) ltac:(by left)) as He. cbn in He. subst evs.
    unfold cta_step in Hc, Hcell. cbn [fst snd] in Hc, Hcell.
    destruct (fold_left _ (index_of_events _) _) as [[seen' tl'] capped'] eqn:Ef. cbn in Hc, Hcell. subst capped'.
    apply index_fold in Ef as [Hs ->]. split; [done|]. intros key col. rewrite Hcell, count_all_cell.
    pose proof (accepted_conflicts pw Hpw Hranges c) as Hperm. unfold granule_pairs in Hperm.
    rewrite (row_total_Permutation _ _ _ _ _ _ Hperm). cbn. unfold received_of, total. lia.
Qed.

Lemma analyze_cells tl b :
  analyze_events pw = (tl, [], b) →
  ∀ key col, cell tl.1 key col =
    total (λ c, row_total pw c key col (conflicts (received_of pw c))) (accesses_by_cta pw).*1.
Proof.
  unfold analyze_events. intros [= H _] key col.
  destruct (ctas_fold (accesses_by_cta pw) ([], [], []) tl) as [_ Hc]; [|done|].
  - intros [c evs] Hin. cbn. unfold dlist. by rewrite (dict_wf_get _ _ _ (accesses_wf pw) Hin).
  - rewrite Hc. cbn. unfold total. clear. induction (accesses_by_cta pw) as [|e l IH]; cbn; [done|]. by rewrite IH.
Qed.
End Rows.

(** ** What a row says of the trace *)

(** The conflicts of a trace, with their CTA, and those of one row. *)
Definition all_conflicts (pw : warps) : list (list Z * candidate) :=
  (accesses_by_cta pw).*1 ≫= λ c, pair c <$> conflicts (received_of pw c).
Definition row_conflicts (pw : warps) (key : row_key) : list (list Z * candidate) :=
  List.filter (λ e, bool_decide (key_of e.2 = key)) (all_conflicts pw).

Lemma total_app {A} (f : A → nat) l k : total f (l ++ k) = (total f l + total f k)%nat.
Proof. unfold total. induction l as [|a l IH]; cbn; [done|]. lia. Qed.

Lemma row_conflicts_total pw key col :
  total (λ c, row_total pw c key col (conflicts (received_of pw c))) (accesses_by_cta pw).*1 =
  total (λ e, share pw e.1 col e.2) (row_conflicts pw key).
Proof.
  unfold row_conflicts, all_conflicts. induction ((accesses_by_cta pw).*1) as [|c cs IH]; [done|].
  cbn [mbind list_bind]. rewrite List.filter_app, total_app, <- IH. unfold total at 1. cbn. fold (total (A := list Z)).
  f_equal. clear. unfold row_total, total. induction (conflicts (received_of pw c)) as [|p ps IH]; cbn; [done|].
  rewrite IH. case_bool_decide; case_decide; done.
Qed.

Lemma total_add {A} (f g : A → nat) l : total (λ a, f a + g a)%nat l = (total f l + total g l)%nat.
Proof. unfold total. induction l as [|a l IH]; cbn; [done|]. lia. Qed.

Lemma total_ext {A} (f g : A → nat) l : (∀ a, a ∈ l → f a = g a) → total f l = total g l.
Proof.
  unfold total. intros H. induction l as [|a l IH]; cbn; [done|]. rewrite H by (by left). f_equal.
  apply IH. intros b Hb. apply H. by right.
Qed.

Lemma total_one {A} (l : list A) : total (λ _, 1%nat) l = length l.
Proof. unfold total. induction l as [|a l IH]; cbn; [done|]. lia. Qed.

Lemma total_full {A} (f : A → nat) l :
  (∀ a, a ∈ l → (f a <= 1)%nat) → total f l = length l ↔ ∀ a, a ∈ l → f a = 1%nat.
Proof.
  intros Hle. assert (total f l <= length l)%nat as Hb.
  { revert Hle. unfold total. induction l as [|a l IH]; cbn; intros Hle; [lia|].
    pose proof (Hle a ltac:(by left)). specialize (IH ltac:(intros b Hb; apply Hle; by right)). lia. }
  split.
  - revert Hle Hb. unfold total. induction l as [|a l IH]; cbn; intros Hle _ E b Hb; [by apply elem_of_nil in Hb|].
    pose proof (Hle a ltac:(by left)).
    assert (sum_list_with f l <= length l)%nat as Hl.
    { clear -Hle. revert Hle. induction l as [|c l IH]; cbn; intros Hle; [lia|].
      pose proof (Hle c ltac:(right; by left)).
      specialize (IH ltac:(intros b Hb; apply Hle; apply elem_of_cons in Hb as [->|?]; [by left|right; by right])). lia. }
    apply elem_of_cons in Hb as [->|Hb]; [lia|]. apply IH; [|done|lia|done]. intros d Hd. apply Hle. by right.
  - intros H. rewrite <- total_one. by apply total_ext.
Qed.

(** *** What one pair adds *)

Lemma amount_app cs cs' col : amount (cs ++ cs') col = (amount cs col + amount cs' col)%nat.
Proof. apply total_app. Qed.
Lemma amount_when g c col : amount (when g c) col = if g && bool_decide (c = col) then 1%nat else 0%nat.
Proof. destruct g; cbn; [|done]. unfold amount, total. cbn. case_decide; [by rewrite bool_decide_true|by rewrite bool_decide_false]. Qed.
Lemma amount_cons c n cs col : amount ((c, n) :: cs) col = ((if bool_decide (c = col) then n else 0) + amount cs col)%nat.
Proof. unfold amount at 1, total. cbn. fold (amount cs col). by case_decide; [rewrite bool_decide_true|rewrite bool_decide_false]. Qed.
Lemma amount_flag g c col : amount (flag_count g c) col = if bool_decide (c = col) then (if g then 1 else 0)%nat else 0%nat.
Proof. unfold amount, total. cbn. case_decide; [rewrite bool_decide_true by done; lia|by rewrite bool_decide_false]. Qed.

(** The columns that say how a pair was settled: each pair adds to one of them. *)
Definition outcome_columns : list column :=
  [same_warp; manual; barrier_unknown; no_wait_link; wait_linked; wait_lanes_unresolved; sync_linked; no_sync_link].

(** The pairs that are settled by a handshake. *)
Definition by_handshake (p : candidate) : bool :=
  negb (warp p.1.2 =? warp p.2) && negb (bool_decide (p.1.1 = AsyncAsync)) && negb (bool_decide (p.1.1 = AsyncWriteGenericRead)).

Definition handshake_of (pw : warps) (c : list Z) (p : candidate) : bool * bool * option link * list chain_step :=
  handshake pw (barriers_of pw) c (warp p.1.2) (pos p.1.2) (warp p.2) (pos p.2).

(** Columns are compared by computation. *)
Ltac columns :=
  repeat match goal with
    | |- context [bool_decide (@eq column ?a ?b)] =>
        let v := eval vm_compute in (bool_decide (a = b)) in change (bool_decide (a = b)) with v
    end.
Ltac shares :=
  repeat (rewrite amount_cons || rewrite amount_app || rewrite amount_when || rewrite amount_flag);
  columns; rewrite ?andb_false_r, ?andb_true_r.

Lemma share_occurrences pw c p : share pw c occurrences p = 1%nat.
Proof.
  destruct p as [[k x] y]. unfold share, pair_counts, cross_warp_counts, same_warp_counts. cbn [fst snd].
  destruct (warp x =? warp y); [destruct (negb _)|destruct k; try (destruct (wait_link _ _ _ _ _ _ _ _) as [[]]);
    try (destruct (handshake _ _ _ _ _ _ _) as [[[? ?] lk] ?]; destruct (is_linked lk))]; cbn [fst wait_column];
    repeat case_bool_decide; shares; reflexivity.
Qed.

Lemma share_outcome pw c p : total (λ col, share pw c col p) outcome_columns = 1%nat.
Proof.
  destruct p as [[k x] y]. unfold share, pair_counts, cross_warp_counts, same_warp_counts, total. cbn [fst snd].
  destruct (warp x =? warp y); [destruct (negb _)|destruct k; try (destruct (wait_link _ _ _ _ _ _ _ _) as [[]]);
    try (destruct (handshake _ _ _ _ _ _ _) as [[[? ?] lk] ?]; destruct (is_linked lk))]; cbn [fst wait_column];
    cbn [sum_list_with foldr outcome_columns fmap list_fmap]; shares; reflexivity.
Qed.

Lemma share_sync_linked pw c p :
  share pw c sync_linked p = if by_handshake p && is_linked (handshake_of pw c p).1.2 then 1%nat else 0%nat.
Proof.
  destruct p as [[k x] y]. unfold share, pair_counts, cross_warp_counts, same_warp_counts, by_handshake, handshake_of.
  cbn [fst snd]. destruct (warp x =? warp y); cbn [negb andb].
  - destruct (negb _); cbn [fst]; shares; reflexivity.
  - destruct k; try (destruct (wait_link _ _ _ _ _ _ _ _) as [[]]);
      try (destruct (handshake _ _ _ _ _ _ _) as [[[? ?] lk] ?]; cbn [fst snd]; destruct (is_linked lk)); cbn [fst wait_column];
      shares; reflexivity.
Qed.

Lemma share_fence_and_link pw c p :
  share pw c fence_and_link p =
  if by_handshake p && negb (bool_decide (p.1.1 = AsyncReadGenericWrite)) &&
     ((handshake_of pw c p).1.1.2 && is_linked (handshake_of pw c p).1.2) then 1%nat else 0%nat.
Proof.
  destruct p as [[k x] y]. unfold share, pair_counts, cross_warp_counts, same_warp_counts, by_handshake, handshake_of.
  cbn [fst snd]. destruct (warp x =? warp y); cbn [negb andb].
  - destruct (negb _); cbn [fst]; shares; reflexivity.
  - destruct k; try (destruct (wait_link _ _ _ _ _ _ _ _) as [[]]);
      try (destruct (handshake _ _ _ _ _ _ _) as [[[? j] lk] ?]; cbn [fst snd]; destruct j, (is_linked lk)); cbn [fst wait_column];
      repeat (rewrite bool_decide_true by done || rewrite bool_decide_false by done); shares; reflexivity.
Qed.

(** Some chain, or some fenced chain, leads from the first access of a pair to
    the second. *)
Definition links (pw : warps) (c : list Z) (p : candidate) : Prop :=
  ∃ q, chained pw c (warp p.1.2) (pos p.1.2) p.1.2 (warp p.2) (pos p.2) p.2 q.
Definition fence_links (pw : warps) (c : list Z) (p : candidate) : Prop :=
  ∃ q, fenced pw c (warp p.1.2) (pos p.1.2) p.1.2 q ∧
       chained pw c (warp p.1.2) (pos p.1.2) p.1.2 (warp p.2) (pos p.2) p.2 q.

(** Every lane of the first access before every lane of the second. *)
Definition ordered (pw : warps) (c : list Z) (p : candidate) : Prop :=
  ∀ l1 l2, Z.testbit (mask p.1.2) l1 = true → Z.testbit (mask p.2) l2 = true →
    before pw c (warp p.1.2, pos p.1.2, l1) (warp p.2, pos p.2, l2).
(** The same, through one proxy fence that every lane of the first executes. *)
Definition ordered_by_fence (pw : warps) (c : list Z) (p : candidate) : Prop :=
  ∃ f, fence_at pw c (warp p.1.2) (pos p.1.2) p.1.2 f ∧
    ∀ l1 l2, Z.testbit (mask p.1.2) l1 = true → Z.testbit (mask p.2) l2 = true →
      before pw c (warp p.1.2, pos p.1.2, l1) (warp p.1.2, f, l1) ∧
      before pw c (warp p.1.2, f, l1) (warp p.2, pos p.2, l2).

Section Meaning.
Variable pw : warps.
Hypothesis Hpw : warps_wf pw.

Lemma all_conflicts_elem c p :
  (c, p) ∈ all_conflicts pw →
  evs_of pw c (warp p.1.2) !! pos p.1.2 = Some p.1.2 ∧ evs_of pw c (warp p.2) !! pos p.2 = Some p.2 ∧
  pair_kind p.1.2 p.2 = Some p.1.1 ∧ conflict p = true.
Proof.
  unfold all_conflicts. rewrite list_elem_of_bind. intros (c' & (p' & [= -> ->] & Hp)%list_elem_of_fmap & _).
  apply list_elem_of_In, filter_In in Hp as [Hp Hc]. destruct p' as [[k a] b].
  apply list_elem_of_In, all_pairs_elem in Hp as (i & j & _ & Ha & Hb & Hk).
  apply list_elem_of_lookup_2, (received_elem pw Hpw) in Ha as [Ha _].
  apply list_elem_of_lookup_2, (received_elem pw Hpw) in Hb as [Hb _]. done.
Qed.

Lemma share_linked_iff c p :
  (c, p) ∈ all_conflicts pw → share pw c sync_linked p = 1%nat ↔ by_handshake p = true ∧ links pw c p.
Proof.
  intros (Hx & Hy & _)%all_conflicts_elem. rewrite share_sync_linked.
  destruct (handshake_of pw c p) as [[[fe jo] lk] ch] eqn:E. unfold handshake_of in E.
  destruct (handshake_spec _ _ Hpw _ _ _ _ _ _ Hx Hy _ _ _ _ E) as [Hl _]. cbn [fst snd]. fold (links pw c p) in Hl.
  rewrite <- Hl. destruct (by_handshake p), (is_linked lk); cbn; naive_solver.
Qed.

Lemma share_fenced_iff c p :
  (c, p) ∈ all_conflicts pw →
  share pw c fence_and_link p = 1%nat ↔ by_handshake p = true ∧ p.1.1 ≠ AsyncReadGenericWrite ∧ fence_links pw c p.
Proof.
  intros (Hx & Hy & _)%all_conflicts_elem. rewrite share_fence_and_link.
  destruct (handshake_of pw c p) as [[[fe jo] lk] ch] eqn:E. unfold handshake_of in E.
  destruct (handshake_spec _ _ Hpw _ _ _ _ _ _ Hx Hy _ _ _ _ E) as [_ Hf]. cbn [fst snd]. fold (fence_links pw c p) in Hf.
  rewrite <- Hf. case_bool_decide; destruct (by_handshake p), (jo && is_linked lk); cbn; naive_solver.
Qed.

Lemma links_ordered c p : (c, p) ∈ all_conflicts pw → links pw c p → ordered pw c p.
Proof. intros (Hx & Hy & _)%all_conflicts_elem (q & Hq) l1 l2. by eapply chained_before. Qed.

Lemma fence_links_ordered c p : (c, p) ∈ all_conflicts pw → fence_links pw c p → ordered_by_fence pw c p.
Proof.
  intros (Hx & Hy & _)%all_conflicts_elem (q & (f & Hf & Hr) & _ & Ht). exists f. split; [done|]. intros l1 l2 Hl1 Hl2.
  destruct Hf as (Hlt & fe & Hfe & _ & Hc). split.
  - apply rtc_once, before_program; [done|by eexists|]. exists fe. rewrite covers_spec in Hc. auto.
  - by eapply chain_before.
Qed.
End Meaning.

(** ** A whole analysis *)

Lemma add_capped_capped cs u :
  cs ≠ [] → ∃ k, k ∈ (fold_left add_capped cs u).*1 ∧ k.2 = capped_note.
Proof.
  assert (∀ l u k, k ∈ u.*1 → k ∈ (fold_left add_capped l u).*1) as Hmono.
  { clear. induction l as [|e l IH]; intros u' k Hk; cbn; [done|]. apply IH. unfold add_capped, dict_upd.
    rewrite dict_keys_set. destruct (decide _); [exact Hk|]. rewrite elem_of_app. by left. }
  intros Hne. destruct cs as [|e cs]; [done|]. cbn. eexists. split; [apply Hmono|].
  - unfold add_capped, dict_upd. rewrite dict_keys_set. destruct (decide _) as [Hin|]; [exact Hin|].
    rewrite elem_of_app. right. by left.
  - done.
Qed.

(** The report says that no candidate was left out. *)
Definition not_capped (a : analysis) : Prop := ∀ k, k ∈ (unresolved a).*1 → k.2 ≠ capped_note.

Lemma analyze_inv code lines a :
  analyze code lines = Ok a → Forall active lines → not_capped a →
  ∃ built listing, build_events code lines = Ok (built, listing) ∧
    let pw := mark_wait_success built listing in
    warps_wf pw ∧
    ∀ key col, cell (rows a) key col = total (λ e, share pw e.1 col e.2) (row_conflicts pw key).
Proof.
  unfold analyze. intros ([built listing] & Hb & H)%bind_ok Hact Hcap. exists built, listing. split; [done|].
  set (pw := mark_wait_success built listing) in *. cbv zeta.
  destruct (analyze_events pw) as [[tl capped] b] eqn:E. injection H as <-. cbn [rows unresolved] in *.
  assert (warps_wf pw) as Hwf by (apply mark_wf; by eapply build_events_wf). split; [done|].
  assert (capped = []) as ->.
  { destruct capped as [|e cs]; [done|].
    destruct (add_capped_capped (e :: cs) (unresolved_events pw)) as (k & Hk & Ek); [done|]. by apply Hcap in Hk. }
  intros key col. rewrite <- row_conflicts_total. eapply analyze_cells; [done| |exact E].
  intros k i ev Hev. subst pw. unfold mark_wait_success, dlist in Hev.
  destruct (dict_get (fmap (M := list) _ _) k) as [evs'|] eqn:Ek; cbn in Hev; [|done].
  apply dict_get_In, list_elem_of_fmap in Ek as ([k' evs] & [= -> ->] & Hin).
  assert (∃ ev0, evs !! i = Some ev0 ∧ ranges ev = ranges ev0 ∧ knd ev = knd ev0) as (ev0 & H0 & Er & Ek).
  { clear -Hev. revert i Hev. induction evs as [|e evs IH]; intros [|i]; cbn; try done; [|apply IH].
    intros [= <-]. exists e. split; [done|]. by case_bool_decide. }
  assert (ranges_wf ev0) as Hr.
  { eapply (build_events_ranges _ _ _ _ Hb k' i). unfold dlist.
    rewrite (dict_wf_get built k' evs); [done| |done]. by apply (build_events_wf _ _ _ _ Hb). }
  unfold ranges_wf in *. by rewrite Er, Ek.
Qed.

(** ** Properties *)

Lemma row_conflicts_elem pw key c p : (c, p) ∈ row_conflicts pw key ↔ (c, p) ∈ all_conflicts pw ∧ key_of p = key.
Proof.
  unfold row_conflicts. rewrite list_elem_of_In, filter_In, <- list_elem_of_In, bool_decide_eq_true. done.
Qed.

Lemma all_conflicts_NoDup pw : warps_wf pw → NoDup (all_conflicts pw).
Proof.
  intros Hpw. unfold all_conflicts. pose proof (accesses_wf pw) as Hd. unfold dict_wf in Hd.
  induction Hd as [|c cs Hc _ IH]; cbn; [constructor|]. apply NoDup_app. split_and!; [| |done].
  - apply NoDup_fmap; [by intros p q [= ->]|]. apply NoDup_ListNoDup, List.NoDup_filter, NoDup_ListNoDup, all_pairs_NoDup.
    by apply received_NoDup.
  - intros x (p & -> & _)%list_elem_of_fmap (c' & (q & [= -> ->] & _)%list_elem_of_fmap & Hc')%list_elem_of_bind. done.
Qed.

Lemma all_conflicts_complete pw c k x y i j :
  (i < j)%nat → received_of pw c !! i = Some x → received_of pw c !! j = Some y →
  pair_kind x y = Some k → overlaps (ranges x) (ranges y) = true → (c, (k, x, y)) ∈ all_conflicts pw.
Proof.
  intros Hij Hx Hy Hk Ho. unfold all_conflicts. apply list_elem_of_bind. exists c. split.
  - apply list_elem_of_fmap_2, list_elem_of_In, filter_In. split; [|done].
    apply list_elem_of_In, all_pairs_elem. by exists i, j.
  - apply list_elem_of_lookup_2 in Hx. unfold received_of in Hx. rewrite stable_sort_Permutation in Hx.
    unfold dlist in Hx. destruct (dict_get (accesses_by_cta pw) c) as [l|] eqn:E; [|by apply elem_of_nil in Hx].
    apply dict_get_In in E. apply list_elem_of_fmap. by exists (c, l).
Qed.

(** C23: when the report names no truncation, the rows count every conflict of
    the trace exactly once: every two accesses of a CTA, of kinds that need a
    check and with overlapping bytes, in receive order, under their kind and
    program counters.  Each occurrence is settled by exactly one of the outcome
    columns. *)
Theorem edges_counted_exactly code lines a
    (Hrun : analyze code lines = Ok a) (Hact : Forall active lines) (Hcap : not_capped a) :
  ∃ built listing, build_events code lines = Ok (built, listing) ∧
    let pw := mark_wait_success built listing in
    NoDup (all_conflicts pw) ∧
    (∀ c k x y i j, (i < j)%nat → received_of pw c !! i = Some x → received_of pw c !! j = Some y →
       pair_kind x y = Some k → overlaps (ranges x) (ranges y) = true →
       (c, (k, x, y)) ∈ row_conflicts pw (k, pc x, pc y)) ∧
    ∀ key, cell (rows a) key occurrences = length (row_conflicts pw key) ∧
           total (cell (rows a) key) outcome_columns = cell (rows a) key occurrences.
Proof.
  destruct (analyze_inv _ _ _ Hrun Hact Hcap) as (built & listing & Hb & Hwf & Hcell).
  exists built, listing. split; [done|]. cbv zeta. split_and!.
  - by apply all_conflicts_NoDup.
  - intros c k x y i j Hij Hx Hy Hk Ho. apply row_conflicts_elem. split; [|done]. by eapply all_conflicts_complete.
  - intros key. assert (cell (rows a) key occurrences = length (row_conflicts (mark_wait_success built listing) key)) as Hocc.
    { rewrite Hcell, <- total_one. apply total_ext. intros [c p] _. apply share_occurrences. }
    split; [done|]. rewrite Hocc, <- total_one.
    rewrite (total_ext _ (λ e, total (λ col, share (mark_wait_success built listing) e.1 col e.2) outcome_columns))
      by (intros [c p] _; symmetry; apply share_outcome).
    unfold outcome_columns, total at 1. cbn [sum_list_with]. rewrite !Hcell. unfold total.
    generalize (row_conflicts (mark_wait_success built listing) key) as es. intros es.
    induction es as [|e es IH]; cbn [sum_list_with] in *; [done|]. lia.
Qed.

(** C22: when the report names no truncation and every occurrence of a row is
    [sync_linked], then, and only then, a chain of matched releases and acquires
    leads from the first to the second access of every conflict of the row, and
    each such conflict is ordered lane by lane.  When every occurrence is
    [fence_and_link], then, and only then, the chain has a joined proxy fence
    too, and each conflict is ordered through one that covers the access. *)
Theorem linked_rows_are_ordered code lines a
    (Hrun : analyze code lines = Ok a) (Hact : Forall active lines) (Hcap : not_capped a) :
  ∃ built listing, build_events code lines = Ok (built, listing) ∧
    let pw := mark_wait_success built listing in
    ∀ key,
      (cell (rows a) key sync_linked = cell (rows a) key occurrences ↔
         ∀ c p, (c, p) ∈ row_conflicts pw key → by_handshake p = true ∧ links pw c p) ∧
      (cell (rows a) key fence_and_link = cell (rows a) key occurrences ↔
         ∀ c p, (c, p) ∈ row_conflicts pw key →
           by_handshake p = true ∧ p.1.1 ≠ AsyncReadGenericWrite ∧ fence_links pw c p) ∧
      (cell (rows a) key sync_linked = cell (rows a) key occurrences →
         ∀ c p, (c, p) ∈ row_conflicts pw key → ordered pw c p) ∧
      (cell (rows a) key fence_and_link = cell (rows a) key occurrences →
         ∀ c p, (c, p) ∈ row_conflicts pw key → ordered_by_fence pw c p).
Proof.
  destruct (analyze_inv _ _ _ Hrun Hact Hcap) as (built & listing & Hb & Hwf & Hcell).
  exists built, listing. split; [done|]. cbv zeta. set (pw := mark_wait_success built listing) in *. intros key.
  assert (cell (rows a) key occurrences = length (row_conflicts pw key)) as ->.
  { rewrite Hcell, <- total_one. apply total_ext. intros [c p] _. apply share_occurrences. }
  rewrite !Hcell. rewrite !total_full.
  2: { intros [c p] _. cbn. rewrite share_fence_and_link. by case_match; lia. }
  2: { intros [c p] _. cbn. rewrite share_sync_linked. by case_match; lia. }
  assert (∀ c p, (c, p) ∈ row_conflicts pw key → (c, p) ∈ all_conflicts pw) as Hin by (by intros c p [? _]%row_conflicts_elem).
  assert ((∀ e, e ∈ row_conflicts pw key → share pw e.1 sync_linked e.2 = 1%nat) ↔
    ∀ c p, (c, p) ∈ row_conflicts pw key → by_handshake p = true ∧ links pw c p) as Hs.
  { split; [intros H c p Hp|intros H [c p] Hp; cbn]; apply (share_linked_iff pw Hwf); auto. by apply (H (c, p)). }
  assert ((∀ e, e ∈ row_conflicts pw key → share pw e.1 fence_and_link e.2 = 1%nat) ↔
    ∀ c p, (c, p) ∈ row_conflicts pw key → by_handshake p = true ∧ p.1.1 ≠ AsyncReadGenericWrite ∧ fence_links pw c p) as Hf.
  { split; [intros H c p Hp|intros H [c p] Hp; cbn]; apply (share_fenced_iff pw Hwf); auto. by apply (H (c, p)). }
  split; [exact Hs|]. split; [exact Hf|]. split.
  - intros H c p Hp. apply (links_ordered pw Hwf); [by apply Hin|]. by apply Hs.
  - intros H c p Hp. apply (fence_links_ordered pw Hwf); [by apply Hin|]. by apply Hf.
Qed.

Lemma not_capped_nil a : unresolved a = [] → not_capped a.
Proof. intros E k. rewrite E. intros Hk. by apply elem_of_nil in Hk. Qed.

Definition demo_key : row_key := (GenericReadAsyncWrite, "0x0", "0x420")%string.

Lemma demo_active : Forall active demo_lines.
Proof. repeat constructor; intros m; vm_compute; by intros [= <-]. Qed.

Lemma demo_analyzed : ∃ a, analyze demo_code demo_lines = Ok a ∧ unresolved a = [] ∧
  cell (rows a) demo_key fence_and_link = 1%nat ∧ cell (rows a) demo_key occurrences = 1%nat.
Proof.
  destruct (analyze demo_code demo_lines) as [a|] eqn:E; [|by vm_compute in E]. exists a. split; [done|].
  assert (∀ (P : analysis → Prop), match analyze demo_code demo_lines with Ok a => P a | Err _ => True end → P a) as HP
    by (intros P; by rewrite E).
  split_and!; apply HP; vm_compute; reflexivity.
Qed.

Lemma edges_counted_exactly_witness :
  ∃ built listing, build_events demo_code demo_lines = Ok (built, listing) ∧
    length (row_conflicts (mark_wait_success built listing) demo_key) = 1%nat.
Proof.
  destruct demo_analyzed as (a & Ha & Hu & _ & Ho).
  destruct (edges_counted_exactly demo_code demo_lines a Ha demo_active) as (built & listing & Hb & _ & _ & Hc).
  - exact (not_capped_nil a Hu).
  - exists built, listing. split; [exact Hb|]. rewrite <- (proj1 (Hc demo_key)). exact Ho.
Defined.

Lemma linked_rows_are_ordered_witness :
  ∃ built listing, build_events demo_code demo_lines = Ok (built, listing) ∧
    ∀ c p, (c, p) ∈ row_conflicts (mark_wait_success built listing) demo_key →
      ordered_by_fence (mark_wait_success built listing) c p.
Proof.
  destruct demo_analyzed as (a & Ha & Hu & Hf & Ho).
  destruct (linked_rows_are_ordered demo_code demo_lines a Ha demo_active) as (built & listing & Hb & Hc).
  - exact (not_capped_nil a Hu).
  - exists built, listing. split; [exact Hb|]. apply (Hc demo_key). rewrite Hf, Ho. reflexivity.
Defined.
