(* ===== verification/AmdPacked.v ===== *)
(** Packed FP32 arithmetic: src/python/cutracer/isa/amdgcn/packed.py.

    [decode_packed] reads the instruction's text, [allowed_results] brackets the
    exact result of one half between FP32 neighbours, [selection_models] names
    the single-source substitutions that explain a wrong result, and
    [check_packed] checks a snapshot.

    A [Fraction] here always has a power of two for denominator: an operand is a
    numerator over [2 ^ 149], the least FP32 magnitude, and a result a numerator
    over [2 ^ 298].  The source rounds a result twice, [float(exact)] to 53 bits
    and [struct.pack("<f", ...)] to 24; the theorems below show that the pair
    still yields the two FP32 neighbours of the exact result. *)
From S2P Require Import Prelude.
From S2P Require Import PyStr.
From S2P Require Import Bits.
From S2P Require Import Regex.
From S2P Require Import Sha256.
From Stdlib Require Import Ascii.
Local Open Scope Z_scope.

(** ** Instructions *)

Definition PACKED_F32 (opcode : string) : option nat :=
  if String.eqb opcode "v_pk_add_f32" then Some 2%nat
  else if String.eqb opcode "v_pk_mul_f32" then Some 2%nat
  else if String.eqb opcode "v_pk_fma_f32" then Some 3%nat
  else None.

Definition PAIR_RE : re :=
  (lit "v[" · Grp "1" (plus is_digit) · lit ":" · Grp "2" (plus is_digit) · lit "]")%re.

Definition is_bit (c : ascii) : bool := Ascii.eqb c "0"%char || Ascii.eqb c "1"%char.

Definition MODIFIER_RE : re :=
  (Wordb · Grp "1" (lit "op_sel_hi" ∥ lit "op_sel" ∥ lit "neg_lo" ∥ lit "neg_hi") · lit ":["
   · Grp "2" (Cls is_bit · Many (lit "," · Cls is_bit)) · lit "]")%re.

Record PackedInstruction := mkPackedInstruction {
  opcode : string;
  destination : string * string;
  sources : list (string * string);
  op_sel : list Z;
  op_sel_hi : list Z;
  neg_lo : list Z;
  neg_hi : list Z
}.

(** [dict.fromkeys]: the first occurrence of each name. *)
Fixpoint fromkeys (seen : gset string) (l : list string) : list string :=
  match l with
  | [] => []
  | x :: r => if bool_decide (x ∈ seen) then fromkeys seen r else x :: fromkeys ({[x]} ∪ seen) r
  end.

Definition pair_names (l : list (string * string)) : list string := concat ((λ p, [p.1; p.2]) <$> l).

Definition registers (i : PackedInstruction) : list string :=
  fromkeys ∅ (pair_names (sources i ++ [destination i])).

Definition overwrites_input (i : PackedInstruction) : bool :=
  bool_decide ((destination i).1 ∈ pair_names (sources i) ∨ (destination i).2 ∈ pair_names (sources i)).

(** The text of a numbered group of a match. *)
Definition grp (c : captures) (name : string) : list ascii := default [] (group c name).

(** [modifiers[name]], the last occurrence of a modifier. *)
Definition modifier_bits (found : list captures) (name : string) : option (list Z) :=
  match filter (λ c, str (grp c "1") = name) (rev found) with
  | c :: _ => Some (dec_value <$> split_on ","%char (grp c "2"))
  | [] => None
  end.

Definition pair_of (m : matched) : string * string :=
  ("v" +:+ str (grp (groups m) "1"), "v" +:+ str (grp (groups m) "2"))%string.

(** [pair is None or int(pair[2]) != int(pair[1]) + 1], negated. *)
Definition is_pair (m : option matched) : bool :=
  match m with
  | None => false
  | Some m => dec_value (grp (groups m) "2") =? dec_value (grp (groups m) "1") + 1
  end.

Definition decode_packed (asm : string) : res exn (option PackedInstruction) :=
  let '(op, rest) := partition_at " "%char (join_text [" "%char] (split_ws (chars asm))) in
  match PACKED_F32 (str op) with
  | None => Ok None
  | Some count =>
      let found := re_findall MODIFIER_RE rest in
      let modifiers := modifier_bits found in
      let fields := strip <$> split_on ","%char (re_remove MODIFIER_RE rest) in
      let pairs := re_fullmatch PAIR_RE <$> fields in
      if negb (length fields =? S count)%nat || negb (forallb is_pair pairs) then Err ValueError
      else if existsb (λ bits, negb (length bits =? count)%nat)
                (omap modifiers ["op_sel_hi"; "op_sel"; "neg_lo"; "neg_hi"]%string) then Err ValueError
      else
        match pair_of <$> omap id pairs with
        | [] => Err ValueError
        | dest :: srcs =>
            Ok (Some (mkPackedInstruction (str op) dest srcs
              (default (replicate count 0) (modifiers "op_sel"%string))
              (default (replicate count 1) (modifiers "op_sel_hi"%string))
              (default (replicate count 0) (modifiers "neg_lo"%string))
              (default (replicate count 0) (modifiers "neg_hi"%string))))
        end
  end.

(** The reproducer's subtraction, a scalar operand, and another opcode. *)
Example decode_subtraction :
  decode_packed "v_pk_add_f32 v[18:19], v[8:9], v[12:13] op_sel:[0,1] neg_lo:[0,1] neg_hi:[0,1]"
  = Ok (Some (mkPackedInstruction "v_pk_add_f32" ("v18", "v19") [("v8", "v9"); ("v12", "v13")]
                [0; 1] [1; 1] [0; 1] [0; 1]))%string.
Proof. vm_compute. reflexivity. Qed.
Example decode_scalar : decode_packed "v_pk_add_f32 v[0:1], s[0:1], v[2:3]" = Err ValueError.
Proof. vm_compute. reflexivity. Qed.
Example decode_other : decode_packed "v_add_f32 v1, v2, v3" = Ok None.
Proof. vm_compute. reflexivity. Qed.

(** ** FP32 words *)

(** A Python float that a 32-bit word reads as: finite ones over [2 ^ 149]. *)
Inductive pyfloat := Finite (n : Z) | Infinite (negative : bool) | NotANumber.

Definition fp32 (word : Z) : res exn pyfloat :=
  if negb ((0 <=? word) && (word <? 2 ^ 32)) then Err StructError
  else
    let sgn := if Z.testbit word 31 then -1 else 1 in
    let e := Z.land (Z.shiftr word 23) 255 in
    let m := Z.land word (Z.shiftl 1 23 - 1) in
    Ok (if e =? 255 then (if m =? 0 then Infinite (Z.testbit word 31) else NotANumber)
        else if e =? 0 then Finite (sgn * m)
        else Finite (sgn * ((m + 2 ^ 23) * 2 ^ (e - 1)))).

(** [Fraction(f)] of a float. *)
Definition fraction (f : pyfloat) : res exn Z :=
  match f with Finite n => Ok n | Infinite _ => Err OverflowError | NotANumber => Err ValueError end.

Definition exact_of (word : Z) : res exn (option Z) :=
  let magnitude := Z.land word 2147483647 in
  if negb (magnitude =? 0) && negb ((8388608 <=? magnitude) && (magnitude <? 2139095040)) then Ok None
  else f ← fp32 word; n ← fraction f; Ok (Some n).

(** Nearest integer to [n / u], ties to even. *)
Definition half_even (n u : Z) : Z :=
  let q := n / u in
  match 2 * (n mod u) ?= u with
  | Lt => q
  | Gt => q + 1
  | Eq => if Z.even q then q else q + 1
  end.

(** Round to a [p]-bit significand. *)
Definition round_to (p n : Z) : Z :=
  let u := 2 ^ Z.max 0 (Z.log2 (Z.abs n) + 1 - p) in
  Z.sgn n * (half_even (Z.abs n) u * u).

(** [float(exact)], for a magnitude in the normal range of a double. *)
Definition to_double (n : Z) : Z := round_to 53 n.

(** [struct.unpack("<I", struct.pack("<f", d))[0]], for a magnitude of at least
    [2 ** -126]. *)
Definition pack_f (d : Z) : res exn Z :=
  let r := round_to 24 d in
  let b := Z.log2 (Z.abs r) in
  let e := b - 171 in
  if 255 <=? e then Err OverflowError
  else Ok ((if r <? 0 then 2 ^ 31 else 0) + (e * 2 ^ 23 + (Z.abs r / 2 ^ (b - 23) - 2 ^ 23))).

(** [l[i]] of a list. *)
Definition at_index {A} (l : list A) (i : nat) : res exn A :=
  match l !! i with Some x => Ok x | None => Err IndexError end.

(** The exact sum, product or fused product-sum, over [2 ^ 298]. *)
Definition exact_result (opcode : string) (values : list Z) : res exn Z :=
  a ← at_index values 0;
  b ← at_index values 1;
  if String.eqb opcode "v_pk_add_f32" then Ok ((a + b) * 2 ^ 149)
  else if String.eqb opcode "v_pk_mul_f32" then Ok (a * b)
  else c ← at_index values 2; Ok (a * b + c * 2 ^ 149).

(** The values of the words, [None] as soon as one is not a normal number or zero. *)
Fixpoint exact_values (words : list Z) : res exn (option (list Z)) :=
  match words with
  | [] => Ok (Some [])
  | w :: r =>
      v ← exact_of w;
      match v with
      | None => Ok None
      | Some x => rest ← exact_values r; Ok (option_map (cons x) rest)
      end
  end.

Definition min_normal : Z := 2 ^ (298 - 126).
Definition max_finite : Z := (2 ^ 24 - 1) * 2 ^ 253 * 2 ^ 149.
Example max_finite_word : fp32 2139095039 = Ok (Finite ((2 ^ 24 - 1) * 2 ^ 253)).
Proof. vm_compute. reflexivity. Qed.

(** The bracketing words of an exact result, [None] outside the normal range. *)
Definition bracket (exact : Z) : res exn (option (list Z)) :=
  if exact =? 0 then Ok (Some [0; 2147483648])
  else if negb ((min_normal <=? Z.abs exact) && (Z.abs exact <=? max_finite)) then Ok None
  else
    nearest ← pack_f (to_double exact);
    f ← fp32 nearest;
    r ← fraction f;
    let rounded := r * 2 ^ 149 in
    if rounded =? exact then Ok (Some [nearest])
    else
      let toward := if rounded <? exact then 1 else -1 in
      Ok (Some [nearest; nearest + (if Z.shiftr nearest 31 =? 0 then toward else - toward)]).

(** A frozenset is the list of its elements. *)
Definition allowed_results (opcode : string) (words : list Z) : res exn (option (list Z)) :=
  values ← exact_values words;
  match values with
  | None => Ok None
  | Some values => exact ← exact_result opcode values; bracket exact
  end.

(** The documented examples. *)
Example allowed_sub : allowed_results "v_pk_add_f32" [1126039552; 3290628096] = Ok (Some [3287744512]).
Proof. vm_compute. reflexivity. Qed.
Example allowed_tie : allowed_results "v_pk_add_f32" [1065353216; 864026624] = Ok (Some [1065353216; 1065353217]).
Proof. vm_compute. reflexivity. Qed.
Example allowed_nan : allowed_results "v_pk_add_f32" [2143289344; 1065353216] = Ok None.
Proof. vm_compute. reflexivity. Qed.

(** ** Selection models and the check of a snapshot *)

(** [changed[index] = word ^ (negations[index] << 31)] of a copy of [words]. *)
Definition substituted (words negations : list Z) (index : nat) (word : Z) : res exn (list Z) :=
  neg ← at_index negations index;
  if (index <? length words)%nat then Ok (<[index := Z.lxor word (Z.shiftl neg 31)]> words)
  else Err IndexError.

(** The substitution gives the observed value and no correct one. *)
Definition explains (opcode : string) (words negations : list Z) (observed : Z) (allowed : list Z)
    (index : nat) (word : Z) : res exn bool :=
  changed ← substituted words negations index word;
  bounds ← allowed_results opcode changed;
  Ok (match bounds with
      | None => false
      | Some b => bool_decide (observed ∈ b) && forallb (λ x, negb (bool_decide (x ∈ allowed))) b
      end).

Definition models_of (opcode : string) (words negations : list Z) (observed : Z) (allowed : list Z)
    (p : nat * Z) : res exn (list string) :=
  let '(index, other) := p in
  let base := ("src" +:+ pretty index)%string in
  a ← explains opcode words negations observed allowed index other;
  b ← explains opcode words negations observed allowed index 0;
  Ok ((if (a : bool) then [base +:+ "_other_dword"%string] else []) ++ (if (b : bool) then [base +:+ "_zero"%string] else [])).

Definition enumerate {A} (l : list A) : list (nat * A) := imap (λ i x, (i, x)) l.

Definition selection_models (opcode : string) (words unselected negations : list Z) (observed : Z)
    (allowed : list Z) : res exn (list string) :=
  models ← mapM (models_of opcode words negations observed allowed) (enumerate unselected);
  Ok (concat models).

Record Snapshot := mkSnapshot { snap_registers : gmap string (list Z); snap_exec : Z }.

Record Violation := mkViolation {
  v_lane : nat; v_half : nat; v_register : string; v_inputs : list string; v_observed : string;
  v_allowed : list string; v_models : list string
}.

Record Checked := mkChecked { checked : nat; excluded : nat; violations : list Violation }.

(** [f"0x{word:08x}"] *)
Definition hex_word (word : Z) : string :=
  ("0x" +:+ str (hex_fixed (Nat.max 8 (Z.to_nat (Z.log2 word / 4 + 1))) word))%string.

(** [pair[k]] *)
Definition side (p : string * string) (k : Z) : res exn string :=
  if (k =? 0) || (k =? -2) then Ok p.1 else if (k =? 1) || (k =? -1) then Ok p.2 else Err IndexError.

(** [registers[name][lane]] *)
Definition lane_word (s : Snapshot) (name : string) (lane : nat) : res exn Z :=
  match snap_registers s !! name with None => Err KeyError | Some l => at_index l lane end.

(** The DWORD of source [index] that feeds a half, and the other one. *)
Definition selected (s : Snapshot) (selectors negations : list Z) (lane : nat)
    (p : nat * (string * string)) : res exn Z :=
  k ← at_index selectors p.1;
  name ← side p.2 k;
  w ← lane_word s name lane;
  neg ← at_index negations p.1;
  Ok (Z.lxor w (Z.shiftl neg 31)).
Definition other_word (s : Snapshot) (selectors : list Z) (lane : nat)
    (p : nat * (string * string)) : res exn Z :=
  k ← at_index selectors p.1;
  name ← side p.2 (1 - k);
  lane_word s name lane.

(** [sorted] of the one or two allowed words. *)
Definition sorted_words (l : list Z) : list Z := merge_sort Z.le l.

(** One active lane of one half: the loop's body. *)
Definition check_lane (i : PackedInstruction) (s : Snapshot) (half : nat) (dest : string)
    (selectors negations : list Z) (r : Checked) (lane : nat) : res exn Checked :=
  words ← mapM (selected s selectors negations lane) (enumerate (sources i));
  allowed ← allowed_results (opcode i) words;
  match allowed with
  | None => Ok (mkChecked (checked r) (S (excluded r)) (violations r))
  | Some allowed =>
      observed ← lane_word s dest lane;
      if bool_decide (observed ∈ allowed) then Ok (mkChecked (S (checked r)) (excluded r) (violations r))
      else
        unselected ← mapM (other_word s selectors lane) (enumerate (sources i));
        models ← selection_models (opcode i) words unselected negations observed allowed;
        Ok (mkChecked (S (checked r)) (excluded r)
              (violations r ++
               [mkViolation lane half dest (hex_word <$> words) (hex_word observed)
                  (hex_word <$> sorted_words allowed) models]))
  end.

Definition is_active (s : Snapshot) (lane : nat) : bool :=
  negb (Z.land (Z.shiftr (snap_exec s) (Z.of_nat lane)) 1 =? 0).

Fixpoint check_lanes (step : Checked → nat → res exn Checked) (r : Checked) (lanes : list nat)
    : res exn Checked :=
  match lanes with
  | [] => Ok r
  | l :: rest => r' ← step r l; check_lanes step r' rest
  end.

Definition half_step (i : PackedInstruction) (s : Snapshot) (half : nat) (dest : string) :
    Checked → nat → res exn Checked :=
  check_lane i s half dest (if half =? 0 then op_sel i else op_sel_hi i)%nat
    (if half =? 0 then neg_lo i else neg_hi i)%nat.

Definition active_lanes (s : Snapshot) : list nat := filter (is_active s) (seq 0 64).

Definition check_packed (i : PackedInstruction) (s : Snapshot) : res exn Checked :=
  r ← check_lanes (half_step i s 0 (destination i).1) (mkChecked 0 0 []) (active_lanes s);
  check_lanes (half_step i s 1 (destination i).2) r (active_lanes s).

(** The documented example: lane 48's low half lost the low DWORD's partner. *)
Definition example_instruction : PackedInstruction :=
  mkPackedInstruction "v_pk_add_f32" ("v18", "v19") [("v8", "v9"); ("v12", "v13")]
    [0; 1] [1; 1] [0; 1] [0; 1].
Definition lane48 (w : Z) : list Z := replicate 48 0 ++ [w] ++ replicate 15 0.
Definition example_snapshot : Snapshot :=
  mkSnapshot (list_to_map [("v8", lane48 1126039552); ("v9", lane48 1133936640); ("v12", lane48 0);
    ("v13", lane48 1143144448); ("v18", lane48 1126039552); ("v19", lane48 3283058688)]%string) (2 ^ 48).
Definition example_result : Checked :=
  mkChecked 2 0 [mkViolation 48 0 "v18" ["0x431e0000"; "0xc4230000"] "0x431e0000" ["0xc3f70000"]
                   ["src1_other_dword"; "src1_zero"]]%string.
Example check_example : check_packed example_instruction example_snapshot = Ok example_result.
Proof. vm_compute. reflexivity. Qed.

(** ** The FP32 number line

    [mag m] is the value of the magnitude bits [m] of a normal number, and
    [word_value w] of a word. *)

Definition mag (m : Z) : Z := (m mod 2 ^ 23 + 2 ^ 23) * 2 ^ (m / 2 ^ 23 - 1).
Definition normal (m : Z) : Prop := 2 ^ 23 ≤ m < 255 * 2 ^ 23.
Definition mag0 (m : Z) : Z := if m =? 0 then 0 else mag m.
Definition word_value (w : Z) : Z := if w <? 2 ^ 31 then mag0 w else - mag0 (w - 2 ^ 31).

Local Ltac pow_facts :=
  change (2 ^ 23) with 8388608 in *; change (2 ^ 31) with 2147483648 in *;
  change (2 ^ 32) with 4294967296 in *; change (2 ^ 24) with 16777216 in *.

Lemma mag_exponent m : 2 ^ 23 ≤ m → ∃ e k, 1 ≤ e ∧ 2 ^ 23 ≤ k < 2 ^ 24 ∧ m = (e - 1) * 2 ^ 23 + k
    ∧ m / 2 ^ 23 = e ∧ mag m = k * 2 ^ (e - 1).
Proof.
  intros H. exists (m / 2 ^ 23), (m mod 2 ^ 23 + 2 ^ 23). unfold mag.
  pose proof (Z.div_mod m (2 ^ 23) ltac:(done)). pose proof (Z.mod_pos_bound m (2 ^ 23) ltac:(done)).
  pow_facts. split_and!; lia.
Qed.

(** Consecutive words are one unit in the last place apart. *)
Lemma mag_succ m : 2 ^ 23 ≤ m → mag (m + 1) = mag m + 2 ^ (m / 2 ^ 23 - 1).
Proof.
  intros H. destruct (mag_exponent m H) as (e & k & He & Hk & Hm & E & ->). rewrite E. unfold mag.
  destruct (Z.eq_dec (k + 1) (2 ^ 24)) as [Hc|Hc].
  - replace (m + 1) with ((e + 1) * 2 ^ 23) by (pow_facts; lia).
    rewrite Z.mod_mul, Z.div_mul by done. replace (e + 1 - 1) with (Z.succ (e - 1)) by lia.
    rewrite Z.pow_succ_r by lia. replace k with (2 ^ 24 - 1) by lia. pow_facts. lia.
  - assert (Hq : (m + 1) / 2 ^ 23 = e).
    { symmetry. apply (Z.div_unique _ _ _ (k + 1 - 2 ^ 23)); pow_facts; lia. }
    rewrite Hq, Z.mod_eq, Hq by done. replace (m + 1 - 2 ^ 23 * e + 2 ^ 23) with (k + 1) by (pow_facts; lia). lia.
Qed.

Lemma mag_pos m : 2 ^ 23 ≤ m → 0 < mag m.
Proof.
  intros H. destruct (mag_exponent m H) as (e & k & He & Hk & _ & _ & ->).
  apply Z.mul_pos_pos; [pow_facts; lia|apply Z.pow_pos_nonneg; lia].
Qed.

Lemma mag_lt m n : 2 ^ 23 ≤ m → m < n → mag m < mag n.
Proof.
  intros H Hn. replace n with (m + 1 + (n - m - 1)) by lia.
  assert (Hd : 0 ≤ n - m - 1) by lia. revert Hd. generalize (n - m - 1). apply natlike_ind.
  - rewrite Z.add_0_r, mag_succ by done. assert (0 < 2 ^ (m / 2 ^ 23 - 1)); [|lia].
    apply Z.pow_pos_nonneg; [done|]. destruct (mag_exponent m H) as (e & k & He & _ & _ & -> & _). lia.
  - intros x Hx IH. replace (m + 1 + Z.succ x) with (m + 1 + x + 1) by lia.
    rewrite mag_succ by lia. assert (0 ≤ 2 ^ ((m + 1 + x) / 2 ^ 23 - 1)); [|lia]. apply Z.pow_nonneg. done.
Qed.

Lemma mag_le_inv m n : 2 ^ 23 ≤ m → 2 ^ 23 ≤ n → mag m ≤ mag n → m ≤ n.
Proof. intros Hm Hn H. destruct (Z.le_gt_cases m n); [done|]. pose proof (mag_lt n m Hn ltac:(lia)). lia. Qed.
Lemma mag_lt_inv m n : 2 ^ 23 ≤ m → 2 ^ 23 ≤ n → mag m < mag n → m < n.
Proof.
  intros Hm Hn H. destruct (Z.lt_ge_cases m n) as [|Hge]; [done|].
  destruct (Z.eq_dec n m) as [->|]; [lia|]. pose proof (mag_lt n m Hn ltac:(lia)). lia.
Qed.

(** [fp32] of a normal number or zero, and the words [_exact] reads. *)
Lemma testbit31 w : 0 ≤ w < 2 ^ 32 → Z.testbit w 31 = negb (w <? 2 ^ 31).
Proof.
  intros H. rewrite Z.testbit_eqb by done.
  destruct (Z.ltb_spec w (2 ^ 31)) as [Hw|Hw].
  - by rewrite Z.div_small by lia.
  - replace (w / 2 ^ 31) with 1 by (apply (Z.div_unique _ _ _ (w - 2 ^ 31)); pow_facts; lia). done.
Qed.

Lemma sign_split w : 0 ≤ w < 2 ^ 32 →
  w mod 2 ^ 31 = (if w <? 2 ^ 31 then w else w - 2 ^ 31).
Proof.
  intros H. destruct (Z.ltb_spec w (2 ^ 31)) as [Hw|Hw]; [by apply Z.mod_small; lia|].
  symmetry. apply (Z.mod_unique _ _ 1); pow_facts; lia.
Qed.

Lemma fp32_fields w : 0 ≤ w < 2 ^ 32 →
  Z.land (Z.shiftr w 23) 255 = w mod 2 ^ 31 / 2 ^ 23 ∧ Z.land w (Z.shiftl 1 23 - 1) = w mod 2 ^ 31 mod 2 ^ 23.
Proof.
  intros H. change 255 with (Z.shiftl 1 8 - 1). rewrite !mask_mod by done.
  rewrite Z.shiftr_div_pow2 by done. rewrite (sign_split w H). split.
  - destruct (Z.ltb_spec w (2 ^ 31)) as [Hw|Hw].
    + apply Z.mod_small. split; [apply Z.div_pos; pow_facts; lia|apply Z.div_lt_upper_bound; pow_facts; lia].
    + replace (w / 2 ^ 23) with ((w - 2 ^ 31) / 2 ^ 23 + 1 * 2 ^ 8).
      * rewrite Z_mod_plus_full. apply Z.mod_small.
        split; [apply Z.div_pos; pow_facts; lia|apply Z.div_lt_upper_bound; pow_facts; lia].
      * replace w with (w - 2 ^ 31 + 2 ^ 8 * 2 ^ 23) at 2 by (pow_facts; lia). by rewrite Z.div_add by done.
  - destruct (w <? 2 ^ 31); [done|]. replace (w - 2 ^ 31) with (w + (- 2 ^ 8) * 2 ^ 23) by (pow_facts; lia).
    by rewrite Z_mod_plus_full.
Qed.

(** The words that are a normal number or zero. *)
Definition regular (w : Z) : Prop := 0 ≤ w < 2 ^ 32 ∧ (w mod 2 ^ 31 = 0 ∨ normal (w mod 2 ^ 31)).

Lemma fp32_regular w : regular w → fp32 w = Ok (Finite (word_value w)).
Proof.
  intros [Hw Hm]. unfold fp32. destruct (Z.leb_spec 0 w); [|lia]. destruct (Z.ltb_spec w (2 ^ 32)); [|lia].
  cbn [andb negb]. destruct (fp32_fields w Hw) as [-> ->]. rewrite testbit31 by done.
  unfold word_value. rewrite (sign_split w Hw) in *.
  set (m := if w <? 2 ^ 31 then w else w - 2 ^ 31) in *. unfold normal in Hm. cbv zeta.
  replace (if w <? 2 ^ 31 then mag0 w else - mag0 (w - 2 ^ 31))
    with ((if negb (w <? 2 ^ 31) then -1 else 1) * mag0 m)
    by (subst m; destruct (w <? 2 ^ 31); unfold negb; lia).
  destruct Hm as [Hm|Hm].
  - rewrite Hm. done.
  - destruct (mag_exponent m) as (e & k & He & Hk & E & Ee & _); [tauto|]. rewrite Ee. unfold mag0.
    destruct (Z.eqb_spec e 255); [pow_facts; lia|]. destruct (Z.eqb_spec e 0); [lia|].
    destruct (Z.eqb_spec m 0); [pow_facts; lia|]. unfold mag. by rewrite Ee.
Qed.

Lemma exact_of_spec w x : exact_of w = Ok (Some x) ↔ regular w ∧ x = word_value w.
Proof.
  unfold exact_of. change 2147483647 with (Z.shiftl 1 31 - 1). rewrite mask_mod by done.
  split.
  - intros H. destruct (negb _ && negb _) eqn:E; [done|].
    assert (Hm : w mod 2 ^ 31 = 0 ∨ normal (w mod 2 ^ 31)).
    { unfold normal. pow_facts. destruct (Z.eqb_spec (w mod 2147483648) 0); [by left|]. right.
      cbn [negb andb] in E. apply negb_false_iff, andb_prop in E. lia. }
    assert (Hw : 0 ≤ w < 2 ^ 32).
    { unfold fp32 in H. destruct ((0 <=? w) && (w <? 2 ^ 32)) eqn:Hb; [|discriminate H]. apply andb_prop in Hb. lia. }
    pose proof (conj Hw Hm : regular w) as Hr. rewrite (fp32_regular w Hr) in H. cbn in H. split; [done|congruence].
  - intros [Hr ->]. rewrite (fp32_regular w Hr). destruct Hr as [Hw Hm]. unfold normal in Hm.
    destruct (_ && _) eqn:E; [|done]. pow_facts. lia.
Qed.

(** The sign bit alone changes the sign of the value. *)
Definition flip (w : Z) : Z := if w <? 2 ^ 31 then w + 2 ^ 31 else w - 2 ^ 31.

Lemma flip_regular w : regular w → regular (flip w) ∧ word_value (flip w) = - word_value w.
Proof.
  intros [Hw Hm]. unfold regular, word_value, flip in *.
  assert (Hf : 0 ≤ (if w <? 2 ^ 31 then w + 2 ^ 31 else w - 2 ^ 31) < 2 ^ 32)
    by (destruct (Z.ltb_spec w (2 ^ 31)); pow_facts; lia).
  split.
  - split; [done|]. rewrite (sign_split _ Hw) in Hm. rewrite (sign_split _ Hf).
    destruct (Z.ltb_spec w (2 ^ 31)).
    + destruct (Z.ltb_spec (w + 2 ^ 31) (2 ^ 31)); [pow_facts; lia|]. by replace (w + 2 ^ 31 - 2 ^ 31) with w by (pow_facts; lia).
    + destruct (Z.ltb_spec (w - 2 ^ 31) (2 ^ 31)); [done|pow_facts; lia].
  - destruct (Z.ltb_spec w (2 ^ 31)).
    + destruct (Z.ltb_spec (w + 2 ^ 31) (2 ^ 31)); [pow_facts; lia|]. by replace (w + 2 ^ 31 - 2 ^ 31) with w by (pow_facts; lia).
    + destruct (Z.ltb_spec (w - 2 ^ 31) (2 ^ 31)); [pow_facts; lia|pow_facts; lia].
Qed.

Lemma flip_flip w : 0 ≤ w < 2 ^ 32 → flip (flip w) = w.
Proof.
  intros H. unfold flip. destruct (Z.ltb_spec w (2 ^ 31)).
  - destruct (Z.ltb_spec (w + 2 ^ 31) (2 ^ 31)); pow_facts; lia.
  - destruct (Z.ltb_spec (w - 2 ^ 31) (2 ^ 31)); pow_facts; lia.
Qed.

(** ** Rounding *)

Lemma half_even_bracket n u : 0 < u → half_even n u = n / u ∨ half_even n u = n / u + 1.
Proof. intros Hu. unfold half_even. destruct (_ ?= _); [destruct (Z.even _)| |]; auto. Qed.

Lemma half_even_exact k u : 0 < u → half_even (k * u) u = k.
Proof.
  intros Hu. unfold half_even. rewrite Z.div_mul, Z.mod_mul by lia. destruct (Z.compare_spec (2 * 0) u); lia.
Qed.

(** Between [k * u] and [(k + 1) * u] rounding does not leave the interval,
    whatever precision the multiples of [u] have to spare. *)
Lemma half_even_within n v j k : 0 < v → 0 < j → k * (j * v) ≤ n < (k + 1) * (j * v) →
  k * (j * v) ≤ half_even n v * v ≤ (k + 1) * (j * v).
Proof.
  intros Hv Hj H. assert (Hq : k * j ≤ n / v < (k + 1) * j).
  { split; [apply Z.div_le_lower_bound; nia|apply Z.div_lt_upper_bound; nia]. }
  destruct (half_even_bracket n v Hv) as [-> | ->]; nia.
Qed.

Lemma round_pos p n : 0 < n → round_to p n =
  half_even n (2 ^ Z.max 0 (Z.log2 n + 1 - p)) * 2 ^ Z.max 0 (Z.log2 n + 1 - p).
Proof. intros H. unfold round_to. rewrite Z.sgn_pos, Z.abs_eq by lia. lia. Qed.

Lemma round_opp p n : round_to p (- n) = - round_to p n.
Proof. unfold round_to. rewrite Z.abs_opp, Z.sgn_opp. lia. Qed.

(** A number with at most [p] significant bits is a fixed point. *)
Lemma round_fix p k i : 0 ≤ i → 1 ≤ p → 2 ^ (p - 1) ≤ k < 2 ^ p → round_to p (k * 2 ^ i) = k * 2 ^ i.
Proof.
  intros Hi Hp Hk. assert (0 < 2 ^ (p - 1)) by (apply Z.pow_pos_nonneg; lia).
  assert (0 < 2 ^ i) by (apply Z.pow_pos_nonneg; lia).
  rewrite round_pos by nia. rewrite Z.log2_mul_pow2 by lia.
  rewrite (Z.log2_unique k (p - 1)) by (replace (Z.succ (p - 1)) with p; lia).
  replace (Z.max 0 (i + (p - 1) + 1 - p)) with i by lia. by rewrite half_even_exact.
Qed.

(** FP32 values over [2 ^ 298]. *)
Definition scaled (m : Z) : Z := mag m * 2 ^ 149.

Lemma scaled_shape m : 2 ^ 23 ≤ m → ∃ k i, 149 ≤ i ∧ 2 ^ 23 ≤ k < 2 ^ 24 ∧ scaled m = k * 2 ^ i
    ∧ i = m / 2 ^ 23 + 148 ∧ m = (i - 149) * 2 ^ 23 + k ∧ scaled (m + 1) = (k + 1) * 2 ^ i.
Proof.
  intros H. destruct (mag_exponent m H) as (e & k & He & Hk & E & Ee & Em).
  unfold scaled. rewrite mag_succ, Em, Ee by done.
  exists k, (e + 148). replace (e + 148) with (e - 1 + 149) by lia. rewrite Z.pow_add_r by lia.
  split_and!; try lia. all: nia.
Qed.

Lemma scaled_log2 m : 2 ^ 23 ≤ m → Z.log2 (scaled m) = m / 2 ^ 23 + 171.
Proof.
  intros H. destruct (scaled_shape m H) as (k & i & Hi & Hk & -> & Ei & _).
  pow_facts. rewrite Z.log2_mul_pow2 by lia.
  rewrite (Z.log2_unique k 23) by (change (2 ^ 23) with 8388608; change (2 ^ Z.succ 23) with 16777216; lia). lia.
Qed.

(** FP32 values survive both roundings. *)
Lemma round24_scaled m : 2 ^ 23 ≤ m → round_to 24 (scaled m) = scaled m.
Proof.
  intros H. destruct (scaled_shape m H) as (k & i & Hi & Hk & -> & _). apply round_fix; [lia|lia|done].
Qed.
Lemma round53_scaled m : 2 ^ 23 ≤ m → to_double (scaled m) = scaled m.
Proof.
  intros H. destruct (scaled_shape m H) as (k & i & Hi & Hk & -> & _).
  replace i with (29 + (i - 29)) by lia. rewrite Z.pow_add_r, Z.mul_assoc by lia. apply round_fix; [lia|lia|].
  change (2 ^ (53 - 1)) with (2 ^ 23 * 2 ^ 29). change (2 ^ 53) with (2 ^ 24 * 2 ^ 29).
  split; [apply Z.mul_le_mono_nonneg_r|apply Z.mul_lt_mono_pos_r]; lia.
Qed.

(** Rounding a number between two neighbouring FP32 values stays between them. *)
Lemma round_within p m n : 24 ≤ p ≤ 53 → 2 ^ 23 ≤ m → scaled m ≤ n < scaled (m + 1) →
  scaled m ≤ round_to p n ≤ scaled (m + 1).
Proof.
  intros Hp H Hn. destruct (scaled_shape m H) as (k & i & Hi & Hk & E & _ & _ & E'). rewrite E, E' in *.
  assert (0 < 2 ^ i) by (apply Z.pow_pos_nonneg; lia).
  assert (Hlog : Z.log2 n = i + 23).
  { apply Z.log2_unique; [lia|]. rewrite Z.pow_add_r by lia. replace (Z.succ (i + 23)) with (24 + i) by lia.
    rewrite Z.pow_add_r by lia. split; nia. }
  rewrite round_pos by nia. rewrite Hlog. replace (Z.max 0 (i + 23 + 1 - p)) with (i + 24 - p) by lia.
  replace (2 ^ i) with (2 ^ (p - 24) * 2 ^ (i + 24 - p)) in * by (rewrite <- Z.pow_add_r; [f_equal|..]; lia).
  apply half_even_within; [apply Z.pow_pos_nonneg; lia..|done].
Qed.

(** Rounding to 24 bits gives one of the two neighbours. *)
Lemma round24_neighbour m n : 2 ^ 23 ≤ m → scaled m ≤ n < scaled (m + 1) →
  round_to 24 n = scaled m ∨ round_to 24 n = scaled (m + 1).
Proof.
  intros H Hn. destruct (scaled_shape m H) as (k & i & Hi & Hk & E & _ & _ & E').
  pose proof (round_within 24 m n ltac:(lia) H Hn) as Hr. rewrite E, E' in *.
  assert (0 < 2 ^ i) by (apply Z.pow_pos_nonneg; lia).
  assert (Hlog : Z.log2 n = i + 23).
  { apply Z.log2_unique; [lia|]. rewrite Z.pow_add_r by lia. replace (Z.succ (i + 23)) with (24 + i) by lia.
    rewrite Z.pow_add_r by lia. split; nia. }
  rewrite round_pos in * by nia. rewrite Hlog in *. replace (Z.max 0 (i + 23 + 1 - 24)) with i in * by lia.
  set (q := half_even n (2 ^ i)) in *. assert (k ≤ q ≤ k + 1) by nia.
  destruct (Z.eq_dec q k) as [->|]; [by left|]. right. f_equal. lia.
Qed.

(** So does the pair of roundings the source performs. *)
Lemma double_rounding m n : 2 ^ 23 ≤ m → scaled m ≤ n < scaled (m + 1) →
  (round_to 24 (to_double n) = scaled m ∨ round_to 24 (to_double n) = scaled (m + 1))
  ∧ (n = scaled m → round_to 24 (to_double n) = scaled m).
Proof.
  intros H Hn. split.
  - pose proof (round_within 53 m n ltac:(lia) H Hn) as Hd. fold (to_double n) in Hd.
    destruct (Z.eq_dec (to_double n) (scaled (m + 1))) as [->|Hne].
    + right. apply round24_scaled. lia.
    + apply round24_neighbour; [done|lia].
  - intros ->. by rewrite round53_scaled, round24_scaled.
Qed.

(** ** Encoding *)

Lemma normal_bounds m : normal m → 2 ^ 23 ≤ m ∧ m < 2139095040.
Proof. unfold normal. pow_facts. lia. Qed.

(** [word_of s m]: the word with sign [s] and magnitude [m]. *)
Definition word_of (negative : bool) (m : Z) : Z := (if negative then 2 ^ 31 else 0) + m.

Lemma word_of_regular s m : normal m → regular (word_of s m) ∧ word_value (word_of s m) = if s then - mag m else mag m.
Proof.
  intros H. pose proof (normal_bounds m H) as Hb. unfold word_of, word_value, mag0.
  assert (Hw : 0 ≤ (if s then 2 ^ 31 else 0) + m < 2 ^ 32) by (destruct s; pow_facts; lia).
  assert (E : ((if s then 2 ^ 31 else 0) + m) mod 2 ^ 31 = m).
  { rewrite (sign_split _ Hw). destruct s.
    - destruct (Z.ltb_spec (2 ^ 31 + m) (2 ^ 31)); pow_facts; lia.
    - destruct (Z.ltb_spec (0 + m) (2 ^ 31)); pow_facts; lia. }
  split; [split; [done|right; by rewrite E]|].
  destruct s.
  - destruct (Z.ltb_spec (2 ^ 31 + m) (2 ^ 31)); [lia|]. replace (2 ^ 31 + m - 2 ^ 31) with m by lia.
    destruct (Z.eqb_spec m 0); [pow_facts; lia|done].
  - destruct (Z.ltb_spec (0 + m) (2 ^ 31)); [|pow_facts; lia]. rewrite Z.add_0_l.
    destruct (Z.eqb_spec m 0); [pow_facts; lia|done].
Qed.

Lemma word_of_sign s m : normal m → (Z.shiftr (word_of s m) 31 =? 0) = negb s.
Proof.
  intros H. pose proof (normal_bounds m H). unfold word_of.
  rewrite shiftr_zero by (try done; destruct s; pow_facts; lia).
  destruct s; unfold negb.
  - destruct (Z.ltb_spec (2 ^ 31 + m) (2 ^ 31)); [pow_facts; lia|done].
  - destruct (Z.ltb_spec (0 + m) (2 ^ 31)); [done|pow_facts; lia].
Qed.

Lemma scaled_pos m : 2 ^ 23 ≤ m → 0 < scaled m.
Proof. intros H. pose proof (mag_pos m H). unfold scaled. lia. Qed.

Lemma pack_f_scaled d m : normal m → round_to 24 d = scaled m ∨ round_to 24 d = - scaled m →
  pack_f d = Ok (word_of (bool_decide (round_to 24 d < 0)) m).
Proof.
  intros H Hd. destruct (normal_bounds m H) as [Hl Hu]. pose proof (scaled_pos m Hl).
  assert (Ha : Z.abs (round_to 24 d) = scaled m) by lia. unfold pack_f. rewrite Ha, (scaled_log2 m Hl).
  destruct (scaled_shape m Hl) as (k & i & Hi & Hk & E & Ei & Em & _).
  replace (m / 2 ^ 23 + 171 - 171) with (i - 148) by lia.
  replace (m / 2 ^ 23 + 171 - 23) with i by lia. rewrite E, Z.div_mul by (apply Z.pow_nonzero; lia).
  destruct (Z.leb_spec 255 (i - 148)); [pow_facts; lia|]. unfold word_of. do 3 f_equal.
  - case_bool_decide as Hc; destruct (Z.ltb_spec (round_to 24 d) 0); lia || done.
  - rewrite Em. lia.
Qed.

(** ** The neighbours of an exact result *)

(** [w] is the greatest FP32 value that does not exceed the exact result, and the
    least that is not below it. *)
Definition rounds_down (exact w : Z) : Prop :=
  ∃ x, exact_of w = Ok (Some x) ∧ x * 2 ^ 149 ≤ exact
       ∧ ∀ w' x', exact_of w' = Ok (Some x') → x' * 2 ^ 149 ≤ exact → x' ≤ x.
Definition rounds_up (exact w : Z) : Prop :=
  ∃ x, exact_of w = Ok (Some x) ∧ exact ≤ x * 2 ^ 149
       ∧ ∀ w' x', exact_of w' = Ok (Some x') → exact ≤ x' * 2 ^ 149 → x ≤ x'.

Lemma rounds_flip exact w : rounds_down exact w → rounds_up (- exact) (flip w).
Proof.
  intros (x & [Hr ->]%exact_of_spec & Hle & Hmax). destruct (flip_regular w Hr) as [Hf Ev].
  exists (- word_value w). split_and!; [by apply exact_of_spec|lia|].
  intros w' x' [Hr' ->]%exact_of_spec Hx. destruct (flip_regular w' Hr') as [Hf' Ev'].
  enough (word_value (flip w') ≤ word_value w) by lia.
  apply (Hmax (flip w')); [by apply exact_of_spec|lia].
Qed.
Lemma rounds_flip_up exact w : rounds_up exact w → rounds_down (- exact) (flip w).
Proof.
  intros (x & [Hr ->]%exact_of_spec & Hle & Hmax). destruct (flip_regular w Hr) as [Hf Ev].
  exists (- word_value w). split_and!; [by apply exact_of_spec|lia|].
  intros w' x' [Hr' ->]%exact_of_spec Hx. destruct (flip_regular w' Hr') as [Hf' Ev'].
  enough (word_value w ≤ word_value (flip w')) by lia.
  apply (Hmax (flip w')); [by apply exact_of_spec|lia].
Qed.

(** A word with a positive value is its own magnitude. *)
Lemma word_value_pos w : regular w → 0 < word_value w → normal w ∧ word_value w = mag w.
Proof.
  intros [Hw Hm] Hpos. unfold word_value, mag0 in *. rewrite (sign_split w Hw) in Hm. unfold normal in *.
  destruct (w <? 2 ^ 31).
  - destruct (Z.eqb_spec w 0); [lia|]. destruct Hm; [lia|done].
  - destruct (Z.eqb_spec (w - 2 ^ 31) 0); [lia|]. destruct Hm as [|Hm]; [lia|].
    pose proof (mag_pos (w - 2 ^ 31) ltac:(lia)). lia.
Qed.

(** The brackets of a positive result between the values of [m] and [m + 1]. *)
Lemma rounds_down_pos exact m w : normal m → scaled m ≤ exact < scaled (m + 1) →
  rounds_down exact w ↔ w = m.
Proof.
  intros H He. destruct (normal_bounds m H) as [Hl _]. pose proof (scaled_pos m Hl) as Hp. unfold scaled in *.
  destruct (word_of_regular false m H) as [Hr Hv]. unfold word_of in *. rewrite Z.add_0_l in *.
  split.
  - intros (x & [Hx ->]%exact_of_spec & Hle & Hmax).
    specialize (Hmax m (mag m)). rewrite exact_of_spec in Hmax. specialize (Hmax (conj Hr (eq_sym Hv)) ltac:(lia)).
    pose proof (mag_pos m Hl). destruct (word_value_pos w Hx ltac:(lia)) as [[Hw _] E]. rewrite E in *.
    pose proof (mag_le_inv m w Hl Hw Hmax). pose proof (mag_lt_inv w (m + 1) Hw ltac:(lia) ltac:(lia)). lia.
  - intros ->. exists (mag m). split_and!; [by apply exact_of_spec|lia|].
    intros w' x' [Hx ->]%exact_of_spec Hle. destruct (Z.le_gt_cases (word_value w') 0); [pose proof (mag_pos m Hl); lia|].
    destruct (word_value_pos w' Hx ltac:(lia)) as [[Hw _] E]. rewrite E in *.
    pose proof (mag_lt_inv w' (m + 1) Hw ltac:(lia) ltac:(lia)).
    destruct (Z.eq_dec w' m) as [->|]; [lia|]. pose proof (mag_lt w' m Hw ltac:(lia)). lia.
Qed.

Lemma rounds_up_pos exact m w : normal m → 2 ^ 23 < m → scaled (m - 1) < exact ≤ scaled m →
  rounds_up exact w ↔ w = m.
Proof.
  intros H Hgt He. destruct (normal_bounds m H) as [Hl _]. pose proof (scaled_pos (m - 1) ltac:(lia)) as Hp.
  unfold scaled in *. destruct (word_of_regular false m H) as [Hr Hv]. unfold word_of in *. rewrite Z.add_0_l in *.
  split.
  - intros (x & [Hx ->]%exact_of_spec & Hle & Hmax).
    specialize (Hmax m (mag m)). rewrite exact_of_spec in Hmax. specialize (Hmax (conj Hr (eq_sym Hv)) ltac:(lia)).
    destruct (word_value_pos w Hx ltac:(lia)) as [[Hw _] E]. rewrite E in *.
    pose proof (mag_le_inv w m Hw Hl Hmax). pose proof (mag_lt_inv (m - 1) w ltac:(lia) Hw ltac:(lia)). lia.
  - intros ->. exists (mag m). split_and!; [by apply exact_of_spec|lia|].
    intros w' x' [Hx ->]%exact_of_spec Hle.
    destruct (word_value_pos w' Hx ltac:(lia)) as [[Hw _] E]. rewrite E in *.
    pose proof (mag_lt_inv (m - 1) w' ltac:(lia) Hw ltac:(lia)).
    destruct (Z.eq_dec w' m) as [->|]; [lia|]. pose proof (mag_lt m w' Hl ltac:(lia)). lia.
Qed.

(** The least normal number is its own ceiling. *)
Lemma rounds_up_value exact m w : normal m → exact = scaled m → rounds_up exact w ↔ w = m.
Proof.
  intros H ->. destruct (normal_bounds m H) as [Hl _]. pose proof (mag_pos m Hl) as Hp. unfold scaled.
  destruct (word_of_regular false m H) as [Hr Hv]. unfold word_of in *. rewrite Z.add_0_l in *. split.
  - intros (x & [Hx ->]%exact_of_spec & Hle & Hmax).
    specialize (Hmax m (mag m)). rewrite exact_of_spec in Hmax. specialize (Hmax (conj Hr (eq_sym Hv)) ltac:(lia)).
    destruct (word_value_pos w Hx ltac:(lia)) as [[Hw _] E]. rewrite E in *.
    pose proof (mag_le_inv w m Hw Hl Hmax). pose proof (mag_le_inv m w Hl Hw ltac:(lia)). lia.
  - intros ->. exists (mag m). split_and!; [by apply exact_of_spec|lia|]. intros w' x' _ Hle. lia.
Qed.

(** Every result in the normal range lies between two neighbours. *)
Lemma neighbours exact : min_normal ≤ exact ≤ max_finite →
  ∃ m, normal m ∧ scaled m ≤ exact < scaled (m + 1) ∧ (scaled m < exact → normal (m + 1)).
Proof.
  intros He. unfold min_normal, max_finite in He. assert (0 < exact) by (pose proof (Z.pow_pos_nonneg 2 (298 - 126)); lia).
  set (b := Z.log2 exact). assert (Hb : 172 ≤ b) by (apply Z.log2_le_pow2; lia).
  destruct (Z.log2_spec exact ltac:(done)) as [Hb1 Hb2]. fold b in Hb1, Hb2.
  assert (Hb3 : b < 426). { apply Z.log2_lt_pow2; [done|]. eapply Z.le_lt_trans; [apply He|]. by vm_compute. }
  set (u := 2 ^ (b - 23)). assert (0 < u) by (apply Z.pow_pos_nonneg; lia).
  assert (E1 : 2 ^ b = 2 ^ 23 * u) by (unfold u; rewrite <- Z.pow_add_r by lia; f_equal; lia).
  assert (E2 : 2 ^ Z.succ b = 2 ^ 24 * u) by (unfold u; rewrite <- Z.pow_add_r by lia; f_equal; lia).
  set (k := exact / u). assert (Hk : 2 ^ 23 ≤ k < 2 ^ 24).
  { split; [apply Z.div_le_lower_bound; lia|apply Z.div_lt_upper_bound; lia]. }
  set (m := (b - 172) * 2 ^ 23 + k). assert (Hm : 2 ^ 23 ≤ m) by (unfold m; pow_facts; lia).
  assert (Hq : m / 2 ^ 23 = b - 171).
  { symmetry. apply (Z.div_unique _ _ _ (k - 2 ^ 23)); unfold m; pow_facts; lia. }
  destruct (scaled_shape m Hm) as (k' & i & Hi & Hk' & Es & Ei & Em & Es').
  assert (i = b - 23) by lia. subst i. assert (k' = k) by (unfold m in Em; pow_facts; lia). subst k'.
  rewrite H1 in Es, Es'. fold u in Es, Es'.
  pose proof (Z.div_mod exact u ltac:(lia)) as Hd. pose proof (Z.mod_pos_bound exact u ltac:(done)) as Hr. fold k in Hd.
  assert (Hn : normal m) by (unfold normal, m; pow_facts; lia).
  exists m. split_and!; [done|lia|lia|]. intros Hlt. unfold normal in *.
  assert (m + 1 ≤ 2139095039); [|pow_facts; lia].
  enough (m < 2139095039) by lia. apply mag_lt_inv; [done|done|].
  enough (scaled m < scaled 2139095039) by (unfold scaled in *; lia).
  assert (Emax : scaled 2139095039 = (2 ^ 24 - 1) * 2 ^ 253 * 2 ^ 149) by by vm_compute.
  rewrite Emax. lia.
Qed.

(** ** The bracketing words *)

Lemma round_sign e : e ≠ 0 → round_to 24 (to_double e) = Z.sgn e * round_to 24 (to_double (Z.abs e)).
Proof.
  intros H. unfold to_double. destruct (Z.lt_trichotomy e 0) as [He|[->|He]]; [|done|].
  - rewrite Z.abs_neq, Z.sgn_neg, !round_opp by lia. lia.
  - rewrite Z.abs_eq, Z.sgn_pos by lia. lia.
Qed.

(** What the source computes: the nearest word, and the next one when the result
    is not exact. *)
Lemma bracket_from_nearest e n : e ≠ 0 → min_normal ≤ Z.abs e ≤ max_finite → normal n →
  round_to 24 (to_double (Z.abs e)) = scaled n →
  let s := bool_decide (e < 0) in
  bracket e = Ok (Some (if scaled n =? Z.abs e then [word_of s n]
                        else [word_of s n; word_of s (if scaled n <? Z.abs e then n + 1 else n - 1)])).
Proof.
  intros He Hb Hn Hr s. destruct (normal_bounds n Hn) as [Hl _]. pose proof (scaled_pos n Hl) as Hp.
  unfold bracket. destruct (Z.eqb_spec e 0); [done|].
  destruct (Z.leb_spec min_normal (Z.abs e)); [|lia]. destruct (Z.leb_spec (Z.abs e) max_finite); [|lia].
  cbn [andb negb]. rewrite (pack_f_scaled (to_double e) n Hn) by (rewrite (round_sign e He), Hr; lia).
  assert (Es : bool_decide (round_to 24 (to_double e) < 0) = s).
  { subst s. rewrite (round_sign e He), Hr. apply bool_decide_ext. lia. }
  rewrite Es. destruct (word_of_regular s n Hn) as [Hreg Hv]. cbn [mbind res_bind].
  rewrite (fp32_regular _ Hreg), Hv. cbn [mbind res_bind fraction]. rewrite (word_of_sign s n Hn).
  assert (Hsv : (if s then - mag n else mag n) * 2 ^ 149 = if s then - scaled n else scaled n)
    by (unfold scaled; destruct s; lia). rewrite Hsv. clear Es Hv Hsv Hreg Hr. subst s.
  case_bool_decide; cbn [negb]; unfold word_of.
  - destruct (Z.eqb_spec (- scaled n) e); destruct (Z.eqb_spec (scaled n) (Z.abs e)); try lia; [done|].
    destruct (Z.ltb_spec (- scaled n) e); destruct (Z.ltb_spec (scaled n) (Z.abs e)); try lia;
      do 4 f_equal; lia.
  - destruct (Z.eqb_spec (scaled n) e); destruct (Z.eqb_spec (scaled n) (Z.abs e)); try lia; [done|].
    destruct (Z.ltb_spec (scaled n) e); destruct (Z.ltb_spec (scaled n) (Z.abs e)); try lia;
      do 4 f_equal; lia.
Qed.

(** The bracket, by the neighbours of the magnitude. *)
Lemma bracket_words e : e ≠ 0 → min_normal ≤ Z.abs e ≤ max_finite →
  ∃ m ws, normal m ∧ scaled m ≤ Z.abs e < scaled (m + 1) ∧ (scaled m < Z.abs e → normal (m + 1))
    ∧ bracket e = Ok (Some ws)
    ∧ ∀ w, w ∈ ws ↔ w = word_of (bool_decide (e < 0)) m
                    ∨ (scaled m < Z.abs e ∧ w = word_of (bool_decide (e < 0)) (m + 1)).
Proof.
  intros He Hb. destruct (neighbours _ Hb) as (m & Hm & Hbr & Hm1). destruct (normal_bounds m Hm) as [Hl _].
  destruct (double_rounding m (Z.abs e) Hl Hbr) as [Hd Hfix]. pose proof (bracket_from_nearest e) as Hnear.
  destruct (Z.eq_dec (scaled m) (Z.abs e)) as [E|E].
  - exists m. eexists. split_and!; [done|lia|lia|done|apply (Hnear m); auto; apply Hfix; lia|].
    intros w. rewrite E, Z.eqb_refl, list_elem_of_singleton. split; [by left|]. intros [->|[? _]]; [done|lia].
  - assert (Hlt : scaled m < Z.abs e) by lia. specialize (Hm1 Hlt).
    destruct Hd as [Hd|Hd]; exists m; eexists;
      (split_and!; [done|lia|lia|done| |]); [by apply (Hnear m)| |by apply (Hnear (m + 1))|]; intros w.
    + destruct (Z.eqb_spec (scaled m) (Z.abs e)); [lia|]. destruct (Z.ltb_spec (scaled m) (Z.abs e)); [|lia].
      set_solver.
    + destruct (Z.eqb_spec (scaled (m + 1)) (Z.abs e)); [lia|].
      destruct (Z.ltb_spec (scaled (m + 1)) (Z.abs e)); [lia|]. replace (m + 1 - 1) with m by lia. set_solver.
Qed.

Lemma flip_word_of s m : normal m → flip (word_of s m) = word_of (negb s) m.
Proof.
  intros H. pose proof (normal_bounds m H). unfold flip, word_of. destruct s; unfold negb.
  - destruct (Z.ltb_spec (2 ^ 31 + m) (2 ^ 31)); pow_facts; lia.
  - destruct (Z.ltb_spec (0 + m) (2 ^ 31)); pow_facts; lia.
Qed.

Lemma rounds_word exact w : rounds_down exact w ∨ rounds_up exact w → regular w.
Proof. by intros [(x & [H _]%exact_of_spec & _)|(x & [H _]%exact_of_spec & _)]. Qed.

Lemma rounds_neg exact w : 0 ≤ w < 2 ^ 32 →
  rounds_down exact w ∨ rounds_up exact w ↔ rounds_down (- exact) (flip w) ∨ rounds_up (- exact) (flip w).
Proof.
  intros Hw. split; [intros [?%rounds_flip|?%rounds_flip_up]; tauto|].
  intros [H%rounds_flip|H%rounds_flip_up]; rewrite Z.opp_involutive, flip_flip in H by done; tauto.
Qed.

Lemma rounds_positive e m w : 0 < e → normal m → scaled m ≤ e < scaled (m + 1) → (scaled m < e → normal (m + 1)) →
  rounds_down e w ∨ rounds_up e w ↔ w = m ∨ (scaled m < e ∧ w = m + 1).
Proof.
  intros Hp Hm Hb Hm1. destruct (normal_bounds m Hm) as [Hl _]. rewrite (rounds_down_pos e m w Hm Hb).
  destruct (Z.eq_dec (scaled m) e) as [E|E].
  - rewrite (rounds_up_value e m w Hm (eq_sym E)). lia.
  - rewrite (rounds_up_pos e (m + 1) w); [lia|apply Hm1; lia|lia|].
    replace (m + 1 - 1) with m by lia. lia.
Qed.

Lemma word_value_zero w : regular w → word_value w = 0 ↔ w = 0 ∨ w = 2147483648.
Proof.
  intros [Hw Hm]. rewrite (sign_split w Hw) in Hm. unfold word_value, mag0, normal in *. pow_facts.
  destruct (Z.ltb_spec w 2147483648) as [Hlt|Hge].
  - destruct (Z.eqb_spec w 0); [lia|]. destruct Hm as [|Hm]; [lia|]. pose proof (mag_pos w ltac:(lia)). lia.
  - destruct (Z.eqb_spec (w - 2147483648) 0); [lia|]. destruct Hm as [|Hm]; [lia|].
    pose proof (mag_pos (w - 2147483648) ltac:(lia)). lia.
Qed.

Lemma rounds_zero w : rounds_down 0 w ∨ rounds_up 0 w ↔ w = 0 ∨ w = 2147483648.
Proof.
  assert (Hz : regular 0) by (split; [done|by left]).
  split.
  - intros H. pose proof (rounds_word 0 w H) as Hr. apply (word_value_zero w Hr).
    destruct H as [(x & [_ ->]%exact_of_spec & Hle & Hmax)|(x & [_ ->]%exact_of_spec & Hle & Hmax)];
      (assert (H0 : exact_of 0 = Ok (Some 0)) by done); specialize (Hmax 0 0 H0 ltac:(lia)); lia.
  - intros Hw. left. assert (Hr : regular w) by (destruct Hw as [->| ->]; (split; [done|by left])).
    exists 0. split_and!; [|lia|].
    + apply exact_of_spec. split; [done|]. symmetry. by apply word_value_zero.
    + intros w' x' _ Hle. lia.
Qed.

(** The bracket of a result is the set of its roundings. *)
Lemma bracket_exact e ws : bracket e = Ok (Some ws) → ∀ w, w ∈ ws ↔ rounds_down e w ∨ rounds_up e w.
Proof.
  intros H w. destruct (Z.eq_dec e 0) as [->|He].
  { injection H as <-. rewrite rounds_zero. set_solver. }
  assert (Hb : min_normal ≤ Z.abs e ≤ max_finite).
  { unfold bracket in H. destruct (Z.eqb_spec e 0); [done|]. destruct (_ && _) eqn:Hb; [|done].
    apply andb_prop in Hb. lia. }
  destruct (bracket_words e He Hb) as (m & ws' & Hm & Hbr & Hm1 & E & Hin).
  assert (ws' = ws) as -> by congruence. rewrite Hin. clear H E Hin.
  destruct (Z.lt_ge_cases e 0) as [Hneg|Hpos].
  - rewrite bool_decide_true by done. rewrite Z.abs_neq in * by lia.
    split; intros H.
    + assert (Hw : 0 ≤ w < 2 ^ 32).
      { destruct H as [->|[Hlt ->]]; [apply (word_of_regular true m Hm)|apply (word_of_regular true (m + 1)), Hm1, Hlt]. }
      rewrite rounds_neg by done. rewrite (rounds_positive (- e) m) by (done || lia).
      destruct H as [->|[Hlt ->]]; rewrite flip_word_of by auto; cbn; [by left|by right].
    + pose proof (rounds_word e w H) as [Hw _]. rewrite rounds_neg in H by done.
      rewrite (rounds_positive (- e) m) in H by (done || lia). rewrite <- (flip_flip w Hw).
      destruct H as [->|[Hlt ->]]; [left; apply (flip_word_of false m Hm)|right; split; [done|]].
      apply (flip_word_of false (m + 1)); auto.
  - rewrite bool_decide_false by lia. rewrite Z.abs_eq in * by lia. rewrite (rounds_positive e m) by (done || lia).
    done.
Qed.

(** Outside the normal range, and only there, the result is left unchecked. *)
Lemma bracket_defined e : ∃ o, bracket e = Ok o ∧ (o = None ↔ e ≠ 0 ∧ ¬ (min_normal ≤ Z.abs e ≤ max_finite)).
Proof.
  destruct (Z.eq_dec e 0) as [->|He]; [exists (Some [0; 2147483648]); split; [done|naive_solver]|].
  destruct (decide (min_normal ≤ Z.abs e ≤ max_finite)) as [Hb|Hb].
  - destruct (bracket_words e He Hb) as (m & ws & _ & _ & _ & E & _). eexists. split; [exact E|]. naive_solver.
  - exists None. split; [|tauto]. unfold bracket. destruct (Z.eqb_spec e 0); [done|].
    destruct (Z.leb_spec min_normal (Z.abs e)); destruct (Z.leb_spec (Z.abs e) max_finite); lia || done.
Qed.

(** ** Results *)

Lemma exact_values_some words xs :
  exact_values words = Ok (Some xs) ↔ Forall2 (λ w x, exact_of w = Ok (Some x)) words xs.
Proof.
  split.
  - revert xs. induction words as [|w words IH]; cbn; intros xs H; [injection H as <-; constructor|].
    apply bind_ok in H as ([x|] & Hx & H); [|done]. apply bind_ok in H as ([l|] & Hl & H); [|done].
    injection H as <-. constructor; [done|by apply IH].
  - induction 1 as [|w x words xs Hx _ IH]; [done|]. cbn. rewrite Hx. cbn. by rewrite IH.
Qed.

(** The exact result of the operation on words that are all normal numbers or zero. *)
Definition exact_of_words (opcode : string) (words : list Z) (e : Z) : Prop :=
  ∃ xs, Forall2 (λ w x, exact_of w = Ok (Some x)) words xs ∧ exact_result opcode xs = Ok e.

(** Results that FP32 represents as zero or a normal number. *)
Definition in_range (e : Z) : Prop := e = 0 ∨ min_normal ≤ Z.abs e ≤ max_finite.

Lemma allowed_results_inv op words o : allowed_results op words = Ok o →
  exact_values words = Ok None ∧ o = None
  ∨ ∃ e, exact_of_words op words e ∧ bracket e = Ok o.
Proof.
  intros H. apply bind_ok in H as ([xs|] & Hxs & H); [|injection H as <-; by left].
  apply bind_ok in H as (e & He & H). right. exists e. split; [|done]. exists xs.
  split; [by apply exact_values_some|done].
Qed.

Lemma bracket_in_range e : (∃ ws, bracket e = Ok (Some ws)) ↔ in_range e.
Proof.
  unfold in_range. destruct (bracket_defined e) as (o & E & Ho). split.
  - intros [ws Hws]. rewrite Hws in E. injection E as <-.
    destruct (decide (e = 0)); [by left|]. right. apply dec_stable. intros Hn. by destruct Ho as [_ Ho%(λ f, f (conj n Hn))].
  - intros Hr. destruct o as [ws|]; [eauto|]. destruct Ho as [Ho _]. destruct (Ho eq_refl). tauto.
Qed.

Lemma exact_of_words_fun op words e e' : exact_of_words op words e → exact_of_words op words e' → e = e'.
Proof.
  intros (xs & Hx%exact_values_some & He) (xs' & Hx'%exact_values_some & He').
  rewrite Hx in Hx'. injection Hx' as <-. rewrite He in He'. congruence.
Qed.

Lemma allowed_results_some op words e : exact_of_words op words e → allowed_results op words = bracket e.
Proof. intros (xs & Hx%exact_values_some & He). unfold allowed_results. rewrite Hx. cbn. by rewrite He. Qed.

(** C30: [allowed_results] answers with the two FP32 roundings of the exact sum,
    product or fused product-sum, although it rounds twice on the way: a word is
    allowed exactly when it is the greatest FP32 value not above the exact result
    or the least not below it.  It declines exactly when an input is not a normal
    number or zero, or the exact result leaves the normal range. *)
Theorem allowed_results_exact op words o : allowed_results op words = Ok o →
  match o with
  | Some ws => ∃ e, exact_of_words op words e ∧ in_range e ∧ ∀ w, w ∈ ws ↔ rounds_down e w ∨ rounds_up e w
  | None => ¬ ∃ e, exact_of_words op words e ∧ in_range e
  end.
Proof.
  intros H. destruct o as [ws|].
  - apply allowed_results_inv in H as [[_ H]|(e & He & H)]; [done|]. exists e.
    split_and!; [done|apply bracket_in_range; eauto|by apply bracket_exact].
  - intros (e & He & [ws Hr]%bracket_in_range). rewrite (allowed_results_some _ _ _ He) in H. congruence.
Qed.

Lemma allowed_results_exact_witness :
  ∃ ws, allowed_results "v_pk_add_f32" [1065353216; 864026624] = Ok (Some ws)
  ∧ ∃ e, exact_of_words "v_pk_add_f32" [1065353216; 864026624] e ∧ in_range e
         ∧ ∀ w, w ∈ ws ↔ rounds_down e w ∨ rounds_up e w.
Proof.
  exists [1065353216; 1065353217]. split; [apply allowed_tie|].
  exact (allowed_results_exact _ _ _ allowed_tie).
Defined.

(** ** The models of a wrong result *)

Lemma enumerate_elem {A} (l : list A) p : p ∈ enumerate l ↔ l !! p.1 = Some p.2.
Proof.
  unfold enumerate. destruct p as [i x]. rewrite elem_of_lookup_imap. cbn. split.
  - intros (j & y & [= -> ->] & H). done.
  - intros H. by exists i, x.
Qed.

(** A model is named exactly when its substitution explains the observation. *)
Lemma selection_models_exact op words unselected negations observed allowed models n :
  selection_models op words unselected negations observed allowed = Ok models →
  n ∈ models ↔ ∃ i w, unselected !! i = Some w ∧
    ((n = "src" +:+ pretty i +:+ "_other_dword" ∧ explains op words negations observed allowed i w = Ok true)
     ∨ (n = "src" +:+ pretty i +:+ "_zero" ∧ explains op words negations observed allowed i 0 = Ok true)).
Proof.
  intros H. apply bind_ok in H as (l & Hl & [= <-]). rewrite elem_of_rows. split.
  - intros (ms & Hn & Hms). destruct (mapM_elem _ _ _ _ Hl Hms) as ([i w] & Hp & E).
    apply enumerate_elem in Hp. cbn in Hp. exists i, w. split; [done|].
    apply bind_ok in E as (a & Ea & E). apply bind_ok in E as (b & Eb & [= <-]).
    apply elem_of_app in Hn as [Hn|Hn]; [left; destruct a|right; destruct b]; set_solver.
  - intros (i & w & Hi & Hor). apply (enumerate_elem unselected (i, w)) in Hi.
    destruct (mapM_image_of _ _ _ _ Hl Hi) as (ms & Hms & E). exists ms. split; [|done].
    apply bind_ok in E as (a & Ea & E). apply bind_ok in E as (b & Eb & [= <-]). apply elem_of_app.
    destruct Hor as [[-> E]|[-> E]]; [left|right]; [assert (a = true) as -> by congruence|assert (b = true) as -> by congruence];
      apply list_elem_of_singleton; done.
Qed.

(** ** The check of a snapshot *)

(** The result half of a lane whose operation has an exact result in range and
    whose register holds neither of its roundings. *)
Definition wrong_half (i : PackedInstruction) (s : Snapshot) (half lane : nat) : Prop :=
  ∃ words e observed,
    mapM (selected s (if half =? 0 then op_sel i else op_sel_hi i)%nat
            (if half =? 0 then neg_lo i else neg_hi i)%nat lane) (enumerate (sources i)) = Ok words
    ∧ exact_of_words (opcode i) words e ∧ in_range e
    ∧ lane_word s (if half =? 0 then (destination i).1 else (destination i).2)%nat lane = Ok observed
    ∧ ¬ (rounds_down e observed ∨ rounds_up e observed).

(** What one step adds. *)
Definition step_adds (P : nat → Prop) (half lane : nat) (r r' : Checked) : Prop :=
  (checked r' + excluded r' = S (checked r + excluded r))%nat
  ∧ ∃ vs, violations r' = violations r ++ vs ∧ Forall (λ v, v_lane v = lane ∧ v_half v = half) vs
          ∧ (vs ≠ [] ↔ P lane).

Lemma half_step_adds i s half r lane r' : (half < 2)%nat →
  half_step i s half (if half =? 0 then (destination i).1 else (destination i).2)%nat r lane = Ok r' →
  step_adds (wrong_half i s half) half lane r r'.
Proof.
  intros Hh H. unfold half_step, check_lane in H. apply bind_ok in H as (words & Hw & H).
  apply bind_ok in H as (o & Ho & H). destruct o as [ws|].
  - apply allowed_results_inv in Ho as [[_ Ho]|(e & He & Ho)]; [done|].
    pose proof (bracket_exact e ws Ho) as Hws. assert (Hr : in_range e) by (apply bracket_in_range; eauto).
    apply bind_ok in H as (obs & Hobs & H). case_bool_decide as Hin.
    + injection H as <-. split; [cbn; lia|]. exists []. cbn. rewrite app_nil_r. split_and!; [done|by constructor|].
      split; [done|]. intros (words' & e' & obs' & Hw' & He' & _ & Hobs' & Hno). exfalso. apply Hno.
      rewrite Hw in Hw'. injection Hw' as <-. rewrite Hobs in Hobs'. injection Hobs' as <-.
      rewrite <- (exact_of_words_fun _ _ _ _ He He'). by apply Hws.
    + apply bind_ok in H as (un & Hun & H). apply bind_ok in H as (ms & Hms & [= <-]).
      split; [cbn; lia|]. eexists. split_and!; [done|by repeat constructor|].
      split; [|done]. intros _. exists words, e, obs. split_and!; [done..|]. by rewrite <- Hws.
  - injection H as <-. split; [cbn; lia|]. exists []. cbn. rewrite app_nil_r. split_and!; [done|by constructor|].
    split; [done|]. intros (words' & e' & obs' & Hw' & He' & Hr & _). exfalso.
    rewrite Hw in Hw'. injection Hw' as <-. apply bracket_in_range in Hr as [ws Hr].
    rewrite (allowed_results_some _ _ _ He') in Ho. congruence.
Qed.

Lemma check_lanes_adds (P : nat → Prop) half step lanes r r' :
  (∀ r l r', step r l = Ok r' → step_adds P half l r r') → check_lanes step r lanes = Ok r' →
  (checked r' + excluded r' = length lanes + (checked r + excluded r))%nat
  ∧ ∃ vs, violations r' = violations r ++ vs ∧ Forall (λ v, v_half v = half) vs
          ∧ ∀ lane, (∃ v, v ∈ vs ∧ v_lane v = lane) ↔ lane ∈ lanes ∧ P lane.
Proof.
  intros Hstep. revert r. induction lanes as [|l lanes IH]; cbn; intros r H.
  - injection H as <-. split; [done|]. exists []. rewrite app_nil_r. split_and!; [done|by constructor|]. set_solver.
  - apply bind_ok in H as (r1 & H1 & H). destruct (Hstep _ _ _ H1) as (Hc & vs1 & E1 & Hf1 & HP).
    destruct (IH _ H) as (Hc2 & vs2 & E2 & Hf2 & Hl). split; [lia|].
    exists (vs1 ++ vs2). rewrite E2, E1, app_assoc. split_and!; [done| |].
    + apply Forall_app. split; [|done]. by eapply Forall_impl; [exact Hf1|naive_solver].
    + intros lane. rewrite Forall_forall in Hf1. split.
      * intros (v & [Hv|Hv]%elem_of_app & <-).
        { destruct (Hf1 v Hv) as [-> _]. split; [by left|]. apply HP. by intros ->; apply elem_of_nil in Hv. }
        { destruct (Hl (v_lane v)) as [[? ?] _]; [by exists v|]. split; [by right|done]. }
      * intros [[->|Hin]%elem_of_cons HPl].
        { destruct vs1 as [|v vs1]; [by destruct (proj2 HP HPl)|]. exists v. split; [by left|]. apply Hf1. by left. }
        { destruct (proj2 (Hl lane) (conj Hin HPl)) as (v & Hv & E). exists v. split; [|done]. apply elem_of_app. by right. }
Qed.

(** C31: every active lane of both halves is either checked or excluded, and a
    violation is reported for a half of a lane exactly when its operands have an
    exact result in range and the destination register holds neither rounding of
    it: a correctly rounded result, in any rounding mode, is never reported, and a
    wrong one always is. *)
Theorem check_packed_exact i s r : check_packed i s = Ok r →
  (checked r + excluded r = 2 * length (active_lanes s))%nat
  ∧ ∀ half lane, (∃ v, v ∈ violations r ∧ v_half v = half ∧ v_lane v = lane)
                 ↔ (half < 2)%nat ∧ lane ∈ active_lanes s ∧ wrong_half i s half lane.
Proof.
  intros H. apply bind_ok in H as (r1 & H1 & H2).
  destruct (check_lanes_adds (wrong_half i s 0) 0 _ _ _ _ (λ r l r', half_step_adds i s 0 r l r' ltac:(lia)) H1)
    as (Hc1 & vs1 & E1 & Hf1 & Hl1).
  destruct (check_lanes_adds (wrong_half i s 1) 1 _ _ _ _ (λ r l r', half_step_adds i s 1 r l r' ltac:(lia)) H2)
    as (Hc2 & vs2 & E2 & Hf2 & Hl2).
  cbn [checked excluded violations app] in Hc1, E1. split; [lia|]. intros half lane. rewrite E2, E1. rewrite Forall_forall in Hf1, Hf2. split.
  - intros (v & [Hv|Hv]%elem_of_app & Eh & El).
    + rewrite (Hf1 v Hv) in Eh. subst half. split; [lia|]. apply Hl1. eauto.
    + rewrite (Hf2 v Hv) in Eh. subst half. split; [lia|]. apply Hl2. eauto.
  - intros (Hh & Hin & Hw). destruct half as [|[|half]]; [| |lia].
    + destruct (proj2 (Hl1 lane) (conj Hin Hw)) as (v & Hv & E). exists v. split; [apply elem_of_app; by left|auto].
    + destruct (proj2 (Hl2 lane) (conj Hin Hw)) as (v & Hv & E). exists v. split; [apply elem_of_app; by right|auto].
Qed.

Lemma check_packed_exact_witness :
  check_packed example_instruction example_snapshot = Ok example_result
  ∧ (checked example_result + excluded example_result = 2 * length (active_lanes example_snapshot))%nat
  ∧ ∀ half lane, (∃ v, v ∈ violations example_result ∧ v_half v = half ∧ v_lane v = lane)
      ↔ (half < 2)%nat ∧ lane ∈ active_lanes example_snapshot
        ∧ wrong_half example_instruction example_snapshot half lane.
Proof.
  pose proof check_example as E. split; [exact E|].
  exact (check_packed_exact example_instruction example_snapshot example_result E).
Defined.
