(* ===== verification/AmdLds.v ===== *)
(** The decoder of LDS accesses and workgroup barriers:
    src/python/cutracer/isa/amdgcn/lds.py. *)
From S2P Require Import Prelude.
From S2P Require Import PyStr.
From S2P Require Import Regex.
From Stdlib Require Import Ascii.
Local Open Scope Z_scope.

(** [re.IGNORECASE] of a literal and of [[a-z0-9_]], which with both cases is a
    word character. *)
Definition lit_ci (s : string) : re :=
  foldr (λ c r, Cat (Cls (λ d, Ascii.eqb (lower_char d) (lower_char c))) r) Eps (chars s).
Definition is_hex_ci (c : ascii) : bool := is_hex (lower_char c).
Definition is_offset_slot (c : ascii) : bool := Ascii.eqb c "0"%char || Ascii.eqb c "1"%char.

Definition RELEVANT_MNEMONIC_RE : re :=
  (Wordb · Grp "mnemonic" ((lit_ci "ds_" · plus is_word)
                           ∥ (lit_ci "s_barrier" · opt_re (lit_ci "_" · plus is_word))) · Wordb)%re.

(** [(?<![A-Za-z0-9_])v]: before the word character [v], that is [\bv]. *)
Definition VGPR_RE : re :=
  (Wordb · lit_ci "v"
   · ((lit "[" · Grp "range_start" (plus is_digit) · lit ":" · plus is_digit · lit "]")
      ∥ Grp "single" (plus is_digit)))%re.

Definition OFFSET_RE : re :=
  (Wordb · lit_ci "offset" · Grp "slot" (opt_re (Cls is_offset_slot)) · lit ":" · Rep true is_space
   · Grp "value" ((lit_ci "0x" · plus is_hex_ci) ∥ plus is_digit))%re.

Definition GDS_MODIFIER_RE : re := (Wordb · lit_ci "gds" · Wordb)%re.

Record AccessRange := mkAccessRange { offset_bytes : Z; width_bytes : Z }.

Record DecodedInstruction := mkDecodedInstruction {
  kind : string;
  supported : bool;
  address_vgpr : option string;
  accesses : list AccessRange
}.

#[export] Instance AccessRange_eq_dec : EqDecision AccessRange.
Proof. solve_decision. Defined.
#[export] Instance DecodedInstruction_eq_dec : EqDecision DecodedInstruction.
Proof. solve_decision. Defined.

(** [match.group(a) or match.group(b)]: a group that matched is not empty here. *)
Definition vgprs_in_order (operand_text : list ascii) : list string :=
  (λ c, let number := match group c "range_start" with
                      | Some n => n
                      | None => default [] (group c "single")
                      end in
        ("v" +:+ pretty (dec_value number))%string) <$> re_findall VGPR_RE operand_text.

(** The pairs in the order they are written: a later one replaces an earlier one. *)
Definition encoded_offsets (operand_text : list ascii) : res exn (list (string * Z)) :=
  mapM (λ c, match int0 (default [] (group c "value")) with
             | Some v => Ok (str (default [] (group c "slot")), v)
             | None => Err ValueError
             end) (re_findall OFFSET_RE operand_text).

(** [offsets.get(slot, 0)] *)
Definition offset_of (offsets : list (string * Z)) (slot : string) : Z :=
  match filter (λ p, p.1 = slot) (rev offsets) with p :: _ => p.2 | [] => 0 end.

Definition unsupported : DecodedInstruction := mkDecodedInstruction "unsupported" false None [].

(** The forms with accesses: kind, address operand, width, slots and scale. *)
Definition access_form (mnemonic : string) : option (string * nat * Z * list string * Z) :=
  if String.eqb mnemonic "ds_read_b128" then Some ("read"%string, 1%nat, 16, [""%string], 1)
  else if String.eqb mnemonic "ds_write2_b32" then Some ("write"%string, 0%nat, 4, ["0"; "1"]%string, 4)
  else None.

Definition decode_access (mnemonic : string) (operand_text : list ascii) : res exn DecodedInstruction :=
  match access_form mnemonic with
  | None => Ok unsupported
  | Some (k, address_index, width, slots, scale) =>
      match vgprs_in_order operand_text !! address_index with
      | None => Ok unsupported
      | Some address =>
          offsets ← encoded_offsets operand_text;
          if existsb (λ p, negb (bool_decide (p.1 ∈ slots))) offsets then Ok unsupported
          else Ok (mkDecodedInstruction k true (Some address)
                     ((λ slot, mkAccessRange (offset_of offsets slot * scale) width) <$> slots))
      end
  end.

Definition decode_instruction (asm : string) : res exn (option DecodedInstruction) :=
  match re_search RELEVANT_MNEMONIC_RE (chars asm) with
  | None => Ok None
  | Some (_, m) =>
      let mnemonic := str (lower (default [] (group (groups m) "mnemonic"))) in
      let operand_text := after m in
      if String.eqb mnemonic "s_barrier" then Ok (Some (mkDecodedInstruction "barrier" true None []))
      else if starts_with (chars "s_barrier") (chars mnemonic) then Ok (Some unsupported)
      else if re_search GDS_MODIFIER_RE operand_text then Ok (Some unsupported)
      else if String.eqb mnemonic "ds_bpermute_b32" then Ok (Some (mkDecodedInstruction "ignored" true None []))
      else Some <$> decode_access mnemonic operand_text
  end.

Example decode_read : decode_instruction "DS_READ_B128 v[0:3], v12 offset:0x10" =
  Ok (Some (mkDecodedInstruction "read" true (Some "v12"%string) [mkAccessRange 16 16])).
Proof. vm_compute. reflexivity. Qed.
Example decode_write2 : decode_instruction "ds_write2_b32 v7, v1, v2 offset1:3" =
  Ok (Some (mkDecodedInstruction "write" true (Some "v7"%string) [mkAccessRange 0 4; mkAccessRange 12 4])).
Proof. vm_compute. reflexivity. Qed.
Example decode_gds : decode_instruction "ds_write2_b32 v7, v1, v2 gds" = Ok (Some unsupported).
Proof. vm_compute. reflexivity. Qed.
Example decode_split_barrier : decode_instruction "s_barrier_signal -1" = Ok (Some unsupported).
Proof. vm_compute. reflexivity. Qed.
Example decode_plain_alu : decode_instruction "v_add_u32 v0, v1, v2" = Ok None.
Proof. vm_compute. reflexivity. Qed.
(** Python's [int(text, 0)] refuses a decimal with leading zeros. *)
Example decode_leading_zero : decode_instruction "ds_read_b128 v[0:3], v12 offset:010" = Err ValueError.
Proof. vm_compute. reflexivity. Qed.

(** A supported access has the address register of its form and one range per
    slot, all of the form's width and at the scaled offset; nothing else is
    reported as a read or a write. *)
Lemma decode_access_shape mnemonic text d : decode_access mnemonic text = Ok d → supported d = true →
  ∃ k i w slots scale offsets, access_form mnemonic = Some (k, i, w, slots, scale) ∧ kind d = k
    ∧ address_vgpr d = vgprs_in_order text !! i ∧ is_Some (address_vgpr d)
    ∧ encoded_offsets text = Ok offsets ∧ (∀ p, p ∈ offsets → p.1 ∈ slots)
    ∧ accesses d = (λ slot, mkAccessRange (offset_of offsets slot * scale) w) <$> slots.
Proof.
  intros H Hs. unfold decode_access in H. destruct (access_form mnemonic) as [[[[[k i] w] slots] scale]|] eqn:Ef.
  2: { injection H as <-. done. }
  destruct (vgprs_in_order text !! i) as [a|] eqn:Ea; [|injection H as <-; done].
  apply bind_ok in H as (offsets & Ho & H). destruct (existsb _ offsets) eqn:Ex; [injection H as <-; done|].
  injection H as <-. exists k, i, w, slots, scale, offsets. cbn. rewrite Ea. split_and!; [done..| |done].
  intros p Hp. apply dec_stable. intros Hn. assert (existsb (λ p, negb (bool_decide (p.1 ∈ slots))) offsets = true); [|congruence].
  apply existsb_exists. exists p. split; [by apply list_elem_of_In|]. by rewrite bool_decide_false.
Qed.

(** An instruction in scope is never dropped: it decodes or is reported
    unsupported, and only an offset that is not an integer literal raises. *)
Lemma decode_in_scope asm before m : re_search RELEVANT_MNEMONIC_RE (chars asm) = Some (before, m) →
  (∃ d, decode_instruction asm = Ok (Some d))
  ∨ (decode_instruction asm = Err ValueError ∧ encoded_offsets (after m) = Err ValueError).
Proof.
  intros Hm. unfold decode_instruction. rewrite Hm.
  destruct (String.eqb _ "s_barrier"); [eauto|]. destruct (starts_with _ _); [eauto|].
  destruct (re_search GDS_MODIFIER_RE _); [eauto|]. destruct (String.eqb _ _); [eauto|].
  unfold decode_access. destruct (access_form _) as [[[[[k i] w] slots] scale]|]; [|by left; eexists].
  destruct (_ !! i); [|by left; eexists]. destruct (encoded_offsets (after m)) as [offsets|e] eqn:Eo.
  - left. cbn. destruct (existsb _ offsets); by eexists.
  - right. assert (e = ValueError) as ->; [|done]. clear -Eo. unfold encoded_offsets in Eo.
    revert Eo. generalize (re_findall OFFSET_RE (after m)). intros l. revert e.
    induction l as [|c l IH]; cbn; intros e H; [done|]. destruct (int0 _); [|cbn in H; congruence]. cbn in H.
    match type of H with mbind _ ?x = _ => destruct x eqn:El end; [done|]. cbn in H. injection H as <-. by apply IH.
Qed.
