(* ===== verification/StressPlan.v ===== *)
(** The plan of a stress search, and the evidence an attempt leaves:
    src/python/cutracer/stress/stress.py, its configuration, the targets and the
    schedule, the checks of a dumped delay configuration and of the recorded
    launches, and the options that replay an attempt.

    A file is what reading it gives: a delay configuration parses or does not, a
    text file has its lines and, where reading it stopped early, the error.  JSON
    decoding is the parameter [loads]; [repr] is Python's, of a decoded value. *)
From S2P Require Import Prelude.
From S2P Require Import PyStr.
From S2P Require Import PyDict.
From S2P Require Import Json.
From S2P Require Import Sha256.
From Stdlib Require Import Ascii.
Local Open Scope Z_scope.

Definition DEFAULT_NO_DATA_TIMEOUT_S : Z := 15.
Definition SYMPTOM_FAILURE : string := "failure".
Definition SYMPTOM_HANG : string := "hang".
Definition STRATEGY_RANDOM : string := "random".
Definition STRATEGY_ISOLATE : string := "isolate".
Definition ISOLATE_DEFAULT_PATTERNS : string := "SYNCS.PHASECHK".
Definition MAX_WARPS : Z := 32.

(** ** Targets *)

Record DelayTarget := mkDelayTarget { warp : Z; cluster_rank : option Z }.

#[export] Instance DelayTarget_eq_dec : EqDecision DelayTarget.
Proof. solve_decision. Defined.

(** [hex(n)] of a natural number. *)
Definition py_hex (n : Z) : string := ("0x" +:+ str (hex_fixed (Z.to_nat (Z.log2 n / 4 + 1)) n))%string.

Definition warp_mask (t : DelayTarget) : string := py_hex (Z.shiftl 1 (warp t)).

Definition label (t : DelayTarget) : string :=
  match cluster_rank t with
  | None => "warp " +:+ pretty (warp t)
  | Some r => "cluster rank " +:+ pretty r +:+ ", warp " +:+ pretty (warp t)
  end%string.

Definition target_to_dict (t : DelayTarget) : obj :=
  [("cluster_rank", jopt JInt (cluster_rank t)); ("warp", JInt (warp t)); ("warp_mask", JStr (warp_mask t))]%string.

(** ** Results *)

Record TriggeringConfig := mkTriggeringConfig {
  config_path : string; tc_delay_ns : Z; tc_warpgroup_id : option Z; tc_enable_prob : float;
  tc_attempt_index : Z; tc_enabled_point_count : option Z; symptom : string;
  tc_target : option obj; replay_args : list string
}.

Record StressResult := mkStressResult {
  reproduced : bool; completed_trials : Z; reproductions : Z; infra_errors : Z;
  reproduction_rate : float; triggering : option TriggeringConfig; log_path : option string;
  timed_out : Z; hangs : Z; unattributed : Z;
  baseline_requested : Z; baseline_completed : Z; baseline_reproductions : Z;
  baseline_timed_out : Z; baseline_infra_errors : Z; baseline_hangs : Z;
  attribution : string; log_size_bytes : option Z; rejected_config_paths : list string;
  sr_strategy : string; sr_targets : list obj;
  sr_delay_ladder_ns : option (list Z); sr_attempts_per_delay : option Z
}.

(** ** Configuration *)

Record StressConfig := mkStressConfig {
  delay_ladder_ns : list Z; enable_prob : float; warpgroup_ids : list Z; attempts_per_delay : Z;
  stop_on_first : bool; not_interesting_exit_codes : list Z; kernel_filters : option string;
  baseline_runs : Z; output_dir : string; kernel_timeout_s : Z; hang_is_bug : bool;
  strategy : string; isolate_ranks : option (list Z); isolate_warps : option (list Z);
  delay_patterns : option string; resume_result : option StressResult;
  expected_kernel_name : option string; expected_kernel_checksum : option string
}.

Definition is_isolate (c : StressConfig) : bool := String.eqb (strategy c) STRATEGY_ISOLATE.
Definition nonempty_list {A} (l : list A) : bool := match l with [] => false | _ => true end.

(** [__post_init__]; every refusal is a [ValueError]. *)
Definition config_ok (c : StressConfig) : bool :=
  nonempty_list (delay_ladder_ns c)
  && forallb (λ d, 1 <=? d) (delay_ladder_ns c)
  && (1 <=? attempts_per_delay c)
  && (f_lt f_zero (enable_prob c) && f_le (enable_prob c) f_one)
  && forallb (λ g, (0 <=? g) && (g <? 8)) (warpgroup_ids c)
  && (0 <=? baseline_runs c)
  && (0 <=? kernel_timeout_s c)
  && (is_isolate c || String.eqb (strategy c) STRATEGY_RANDOM)
  && (if is_isolate c then negb (nonempty_list (warpgroup_ids c))
      else bool_decide (isolate_ranks c = None) && bool_decide (isolate_warps c = None))
  && bool_decide (isolate_ranks c ≠ Some []) && bool_decide (isolate_warps c ≠ Some [])
  && forallb (λ r, 0 <=? r) (default [] (isolate_ranks c))
  && forallb (λ w, (0 <=? w) && (w <? MAX_WARPS)) (default [] (isolate_warps c)).

Definition post_init (c : StressConfig) : res exn StressConfig :=
  if config_ok c then Ok c else Err ValueError.

(** ** Launches *)

Record TextFile := mkTextFile { file_lines : list string; file_error : option string }.
(** [os.listdir] with the files it names, or the error it raised. *)
Inductive Directory := Listed (files : list (string * TextFile)) | Unlistable (message : string).

Record LaunchGeometry := mkLaunchGeometry { geo_warps : Z; cluster_size : Z }.

Definition merge_geometry (g : LaunchGeometry) (o : option LaunchGeometry) : LaunchGeometry :=
  match o with
  | None => g
  | Some o => mkLaunchGeometry (Z.max (geo_warps g) (geo_warps o)) (Z.max (cluster_size g) (cluster_size o))
  end.

Definition block_warps (event : obj) : option Z :=
  match get event "block" with
  | JList [JInt a; JInt b; JInt c] =>
      if (0 <? a) && (0 <? b) && (0 <? c) then Some ((a * b * c + 31) / 32) else None
  | _ => None
  end.

Definition event_cluster_size (event : obj) : Z :=
  match get_or event "cluster_size" (JInt 1) with JInt z => if 1 <=? z then z else 1 | _ => 1 end.

Definition is_events_file (name : string) : bool :=
  starts_with (chars "cutracer_kernel_events_") (chars name) && ends_with (chars ".ndjson") (chars name).

(** ** Delay configurations *)

Inductive DelayFile := UnreadableFile (message : string) | Parsed (payload : json).

Definition obj_values (j : json) : option (list json) := match j with JObj d => Some d.*2 | _ => None end.
Definition is_on (point : json) : bool :=
  match point with JObj p => match get p "on" with JBool true => true | _ => false end | _ => false end.

Definition kernel_on (raw_kernel : json) : option Z :=
  match raw_kernel with
  | JObj k =>
      points ← obj_values (get_or k "instrumentation_points" (JObj []));
      Some (Z.of_nat (length (List.filter is_on points)))
  | _ => Some 0
  end.

(** [None]: the file cannot be inspected. *)
Definition enabled_point_count (file : option DelayFile) : option Z :=
  match file with
  | Some (Parsed (JObj payload)) =>
      kernels ← obj_values (get_or payload "kernels" (JObj []));
      counts ← mapM kernel_on kernels;
      Some (foldr Z.add 0 counts)
  | _ => None
  end.

(** Why an attempt is rejected. *)
Inductive Problem :=
| NoDelayConfig
| UnreadableConfig (message : string)
| UnsupportedVersion
| DelayMismatch (found : json) (delay_ns : Z)
| NoKernels
| WrongKernel
| NoEnabledPoint
| LaunchesUnreadable (message : string)
| NoLiveWarp (label : string)
| NoLaunch (label : string)
| UnexpectedReturnCode (code : Z)
| NothingInjected.

(** [type(point_delay) is int and ...]: the program counter of a point that is on
    with the attempted delay. *)
Definition enabled_pc (delay_ns : Z) (point : json) : option Z :=
  match point with
  | JObj p =>
      if is_on point then
        match get p "delay", get p "pc", get p "sass" with
        | JInt d, JInt pc, JStr sass =>
            if (d =? delay_ns) && (0 <=? pc) && bool_decide (sass ≠ ""%string) then Some pc else None
        | _, _, _ => None
        end
      else None
  | _ => None
  end.

(** A kernel entry with its name and checksum, both present. *)
Definition kernel_identity (raw_kernel : json) : option (string * string * json) :=
  match raw_kernel with
  | JObj k =>
      match get k "kernel_name", get k "kernel_checksum" with
      | JStr name, JStr checksum =>
          if bool_decide (name ≠ ""%string) && bool_decide (checksum ≠ ""%string)
          then Some (name, checksum, get k "instrumentation_points") else None
      | _, _ => None
      end
  | _ => None
  end.

Definition expected (name_ checksum_ : option string) (name checksum : string) : bool :=
  match checksum_ with
  | Some s => String.eqb checksum s
  | None => match name_ with Some n => String.eqb name n | None => true end
  end.

(** The first expected kernel with an enabled point; else whether one was seen. *)
Fixpoint scan_kernels (delay_ns : Z) (name_ checksum_ : option string) (matched : bool)
    (kernels : list json) : bool + (string * string * Z) :=
  match kernels with
  | [] => inl matched
  | raw :: rest =>
      match kernel_identity raw with
      | None => scan_kernels delay_ns name_ checksum_ matched rest
      | Some (name, checksum, points) =>
          if negb (expected name_ checksum_ name checksum) then scan_kernels delay_ns name_ checksum_ matched rest
          else
            let pcs := match obj_values points with
                       | None => []
                       | Some ps => remove_dups (omap (enabled_pc delay_ns) ps)
                       end in
            match pcs with
            | [] => scan_kernels delay_ns name_ checksum_ true rest
            | _ => inr (name, checksum, Z.of_nat (length pcs))
            end
      end
  end.

Definition validate_delay_config (file : option DelayFile) (delay_ns : Z) (name_ checksum_ : option string)
    : Problem + (string * string * Z) :=
  match file with
  | None => inl NoDelayConfig
  | Some (UnreadableFile m) => inl (UnreadableConfig m)
  | Some (Parsed j) =>
      match j with
      | JObj payload =>
          match get payload "version" with
          | JStr v =>
              if negb (String.eqb v "1.0") then inl UnsupportedVersion
              else
                let configured := get payload "delay_ns" in
                if negb (match configured with JInt d => d =? delay_ns | _ => false end)
                then inl (DelayMismatch configured delay_ns)
                else
                  match get payload "kernels" with
                  | JObj (k :: ks) =>
                      match scan_kernels delay_ns name_ checksum_ false (k :: ks).*2 with
                      | inr found => inr found
                      | inl matched =>
                          if negb matched && (bool_decide (name_ ≠ None) || bool_decide (checksum_ ≠ None))
                          then inl WrongKernel else inl NoEnabledPoint
                      end
                  | _ => inl NoKernels
                  end
          | _ => inl UnsupportedVersion
          end
      | _ => inl UnsupportedVersion
      end
  end.

(** ** The launches a run recorded *)

Definition file_le (a b : string * TextFile) : Prop := String.leb a.1 b.1 = true.
#[export] Instance file_le_dec a b : Decision (file_le a b).
Proof. unfold file_le. apply _. Defined.

Section Launches.
Variable loads : string → option json.

(** The [kernel_launch] events of a file's lines. *)
Definition launch_event (line : string) : option obj :=
  match loads line with
  | Some (JObj d) => match get d "type" with JStr t => if String.eqb t "kernel_launch" then Some d else None | _ => None end
  | _ => None
  end.

Definition events_of_file (f : TextFile) : list obj := omap launch_event (file_lines f).

Definition event_files (files : list (string * TextFile)) : list (string * TextFile) :=
  List.filter (λ f, is_events_file f.1) files.

(** [_kernel_launch_events]: the files in name order; what was read before an
    error is kept. *)
Definition kernel_launch_events (d : Directory) : list obj :=
  match d with
  | Unlistable _ => []
  | Listed files => concat ((λ f, events_of_file f.2) <$> event_files (merge_sort file_le files))
  end.

(** A member of the set of checksums: a JSON list or object cannot be hashed. *)
Definition hashable (j : json) : bool := match j with JList _ | JObj _ => false | _ => true end.

(** The checksums of the kernels that have delay points. *)
Fixpoint delay_checksums (kernels : list json) : res exn (list json) :=
  match kernels with
  | [] => Ok []
  | JObj k :: rest =>
      if truthy (get k "instrumentation_points") then
        if hashable (get k "kernel_checksum") then
          l ← delay_checksums rest; Ok (get k "kernel_checksum" :: l)
        else Err TypeError
      else delay_checksums rest
  | _ :: rest => delay_checksums rest
  end.

Definition has_checksum (s : string) (l : list json) : bool :=
  existsb (λ j, match j with JStr t => String.eqb s t | _ => false end) l.

Definition note_launch (checksums : list json) (seen : dict string LaunchGeometry) (event : obj)
    : dict string LaunchGeometry :=
  match block_warps event, get event "kernel_checksum" with
  | Some warps, JStr s =>
      if has_checksum s checksums then
        dict_set seen s (merge_geometry (mkLaunchGeometry warps (event_cluster_size event)) (dict_get seen s))
      else seen
  | _, _ => seen
  end.

(** [max(..., key=lambda item: (item.warps, item.cluster_size))] *)
Definition wider (a b : LaunchGeometry) : bool :=
  (geo_warps a <? geo_warps b) || ((geo_warps a =? geo_warps b) && (cluster_size a <? cluster_size b)).
Definition widest (g : LaunchGeometry) (l : list LaunchGeometry) : LaunchGeometry :=
  fold_left (λ best x, if wider best x then x else best) l g.

Definition instrumented_geometry (d : Directory) (dump : option DelayFile) : res exn (option LaunchGeometry) :=
  match dump with
  | Some (Parsed (JObj payload)) =>
      match obj_values (get_or payload "kernels" (JObj [])) with
      | None => Ok None
      | Some kernels =>
          checksums ← delay_checksums kernels;
          match (fold_left (note_launch checksums) (kernel_launch_events d) []).*2 with
          | [] => Ok None
          | g :: l => Ok (Some (widest g l))
          end
      end
  | _ => Ok None
  end.

(** [_validate_target_launch]. *)
Definition of_kernel (checksum : string) (event : obj) : bool :=
  match get event "kernel_checksum" with JStr s => String.eqb s checksum | _ => false end.

Definition is_live (warp : Z) (rank : option Z) (event : obj) : bool :=
  match block_warps event with
  | Some warps => (warp <? warps) && match rank with None => true | Some r => r <? event_cluster_size event end
  | None => false
  end.

Definition validate_target_launch (d : Directory) (checksum : string) (warp : Z) (rank : option Z) (label : string)
    : option Problem :=
  match d with
  | Unlistable m => Some (LaunchesUnreadable m)
  | Listed files =>
      let events := List.filter (of_kernel checksum) (concat ((λ f, events_of_file f.2) <$> event_files files)) in
      if existsb (is_live warp rank) events then None
      else
        match omap (λ f, (λ m, chars (f.1 +:+ ": " +:+ m)%string) <$> file_error f.2) (event_files files) with
        | [] => match events with [] => Some (NoLaunch label) | _ => Some (NoLiveWarp label) end
        | errors => Some (LaunchesUnreadable (str (join_text (chars "; ") errors)))
        end
  end.

Definition validate_warpgroup_launch (d : Directory) (checksum : string) (warpgroup : Z) : option Problem :=
  validate_target_launch d checksum (4 * warpgroup) None ("warpgroup " +:+ pretty warpgroup).
End Launches.

(** ** Targets and schedule *)

Definition Z_sorted_set (l : list Z) : list Z := merge_sort Z.le (remove_dups l).

(** Without explicit ranks and warps the targets come from the control runs. *)
Definition isolate_targets (c : StressConfig) (geometry : option LaunchGeometry) : res exn (list DelayTarget) :=
  if (bool_decide (isolate_ranks c = None) || bool_decide (isolate_warps c = None)) && bool_decide (geometry = None)
  then Err ValueError
  else
    let warps := match isolate_warps c with
                 | Some ws => Z_sorted_set ws
                 | None => seqZ 0 (Z.min MAX_WARPS (match geometry with Some g => geo_warps g | None => 0 end))
                 end in
    let ranks := match isolate_ranks c, geometry with
                 | Some rs, _ => Some <$> rev (Z_sorted_set rs)
                 | None, Some g => if 1 <? cluster_size g then Some <$> rev (seqZ 0 (cluster_size g)) else [None]
                 | None, None => [None]
                 end in
    Ok (rank ← ranks; w ← warps; [mkDelayTarget w rank]).

Record Trial := mkTrial { t_delay_ns : Z; t_attempt : Z; t_warpgroup : option Z; t_target : option DelayTarget }.

Definition attempts_of (c : StressConfig) : list Z := seqZ 0 (attempts_per_delay c).

Definition trial_schedule (c : StressConfig) (targets : list DelayTarget) : list Trial :=
  if is_isolate c then
    target ← targets; d ← delay_ladder_ns c; a ← attempts_of c; [mkTrial d a None (Some target)]
  else
    let warpgroups := match warpgroup_ids c with [] => [None] | l => Some <$> l end in
    d ← delay_ladder_ns c; g ← warpgroups; a ← attempts_of c; [mkTrial d a g None].

(** ** Options *)

Definition no_data_timeout_s (c : StressConfig) : Z :=
  if 0 <? kernel_timeout_s c then 0 else DEFAULT_NO_DATA_TIMEOUT_S.

(** Truth of an optional string. *)
Definition given (o : option string) : option string :=
  match o with Some s => if String.eqb s "" then None else Some s | None => None end.

Definition delay_patterns_of (c : StressConfig) : option string :=
  match given (delay_patterns c) with
  | Some p => Some p
  | None => if is_isolate c then Some ISOLATE_DEFAULT_PATTERNS else None
  end.

Definition option_args (flag : string) (o : option string) : list string :=
  match o with Some v => [flag; v] | None => [] end.

Definition targeting_args (c : StressConfig) (warpgroup : option Z) (target : option DelayTarget) : list string :=
  option_args "-k" (given (kernel_filters c))
  ++ match target with
     | Some t =>
         match cluster_rank t with
         | None => ["--delay-mode"; "fixed"]%string
         | Some r => ["--delay-mode"; "cluster_fixed"; "--delay-cluster-cta-id"; pretty r]%string
         end ++ ["--delay-warp-mask"%string; warp_mask t]
     | None => option_args "--delay-warpgroup-id" (pretty <$> warpgroup)
     end
  ++ option_args "--delay-patterns" (delay_patterns_of c)
  ++ (if 0 <? kernel_timeout_s c then ["--kernel-timeout-s"%string; pretty (kernel_timeout_s c)] else []).

Definition replay_args_of (c : StressConfig) (delay_ns : Z) (warpgroup : option Z) (target : option DelayTarget)
    : list string :=
  (["-i"; "random_delay"; "-a"; "random_delay"; "--delay-ns"; pretty delay_ns]%string
   ++ targeting_args c warpgroup target)
  ++ (if 0 <? kernel_timeout_s c then ["--no-data-timeout-s"; "0"]%string else []).

(** [target.get("cluster_rank")], declared as an optional integer. *)
Definition rank_of (j : json) : dres (option Z) :=
  match j with JNull => Ok None | JInt z => Ok (Some z) | _ => Err IllTyped end.

Definition reduce_args (c : StressConfig) (t : TriggeringConfig) : dres (list string) :=
  target ← match tc_target t with
           | None => Ok None
           | Some d =>
               match get d "warp" with
               | JNull => Ok None
               | w => w ← py_int w; r ← rank_of (get d "cluster_rank"); Ok (Some (mkDelayTarget w r))
               end
           end;
  Ok (targeting_args c (tc_warpgroup_id t) target
      ++ (if String.eqb (symptom t) SYMPTOM_HANG then ["--hang-is-bug"%string] else [])).

(** The name of an attempt's delay configuration. *)
Definition attempt_config_name (t : Trial) : string :=
  match t_target t with
  | None =>
      "delay-" +:+ pretty (t_delay_ns t) +:+ "-wg-"
      +:+ match t_warpgroup t with None => "None" | Some g => pretty g end
      +:+ "-attempt-" +:+ pretty (t_attempt t) +:+ ".json"
  | Some d =>
      "delay-" +:+ pretty (t_delay_ns t) +:+ "-rank-"
      +:+ match cluster_rank d with None => "all" | Some r => pretty r end
      +:+ "-warp-" +:+ pretty (warp d) +:+ "-attempt-" +:+ pretty (t_attempt t) +:+ ".json"
  end%string.

(** [os.path.join(directory, name)] of a plain name. *)
Definition path_join (directory name : string) : string :=
  if bool_decide (directory = ""%string) || ends_with ["/"%char] (chars directory) then (directory +:+ name)%string
  else (directory +:+ "/" +:+ name)%string.

(** How an attempt's delays are placed. *)
Record Targeting := mkTargeting {
  delay_mode : string; delay_enable_prob : float; delay_warpgroup_id : option Z;
  delay_cluster_cta_id : option Z; delay_warp_mask : option string
}.

Definition attempt_targeting (c : StressConfig) (warpgroup : option Z) (target : option DelayTarget) : Targeting :=
  match target with
  | None => mkTargeting "random" (enable_prob c) warpgroup None None
  | Some t =>
      mkTargeting (match cluster_rank t with None => "fixed" | Some _ => "cluster_fixed" end)%string
        f_one None (cluster_rank t) (Some (warp_mask t))
  end.

(** ** Log text *)

Definition placement (warpgroup : option Z) (target : option DelayTarget) : string :=
  match target with
  | Some t => "target=" +:+ label t
  | None => "warpgroup=" +:+ match warpgroup with None => "all" | Some g => pretty g end
  end%string.

Definition section_of (title text : string) : list string :=
  if String.eqb text "" then [] else [title; text].

Definition attempt_log (delay_ns : Z) (warpgroup : option Z) (attempt : Z) (returncode : option Z)
    (stdout stderr error : string) (watchdog : list string) (target : option DelayTarget) : string :=
  str (join_text ["010"%char] (chars <$>
    ([("=== delay_ns=" +:+ pretty delay_ns +:+ " " +:+ placement warpgroup target
       +:+ " attempt=" +:+ pretty attempt +:+ " ===")%string]
     ++ match returncode with Some r => [("returncode=" +:+ pretty r)%string] | None => [] end
     ++ section_of "--- stdout ---" stdout ++ section_of "--- stderr ---" stderr
     ++ match watchdog with [] => [] | _ => "--- CUTracer watchdog ---"%string :: watchdog end
     ++ section_of "--- error ---" error))).

Section Wording.
Variable repr : json → string.

Definition wording (p : Problem) : string :=
  match p with
  | NoDelayConfig => "CUTracer wrote no delay config"
  | UnreadableConfig m => "delay config is unreadable: " +:+ m
  | UnsupportedVersion => "delay config has an unsupported or missing version"
  | DelayMismatch found d =>
      "delay config does not match the attempted delay (" +:+ repr found +:+ " != " +:+ pretty d +:+ ")"
  | NoKernels => "delay config contains no instrumented kernels"
  | WrongKernel => "delay config does not contain the expected kernel identity"
  | NoEnabledPoint => "delay config contains no enabled point for the expected delay"
  | LaunchesUnreadable m => "kernel launch evidence is unreadable: " +:+ m
  | NoLiveWarp l => l +:+ " has no live warp in the matching kernel launch"
  | NoLaunch l => "no matching kernel launch evidence was recorded for " +:+ l +:+ " targeting"
  | UnexpectedReturnCode r => "unexpected oracle returncode " +:+ pretty r
  | NothingInjected =>
      "oracle reported the bug but the delay config enabled 0 verifiable injection points: the target reproduces without attributable injected delay"
  end%string.

(** The log of an attempt followed by the reason it does not count. *)
Definition log_with (log : string) (p : Problem) : string :=
  (log +:+ str ["010"%char] +:+ "--- error ---" +:+ str ["010"%char] +:+ wording p)%string.
End Wording.

(** ** CUTracer's watchdog: src/python/cutracer/watchdog.py *)

Definition WATCHDOG_MARKERS : list string := ["Kernel timeout: running for"; "No-data hang detected"].

Definition is_main_log (name : string) : bool :=
  starts_with (chars "cutracer_main_") (chars name) && ends_with (chars ".log") (chars name).

Definition main_logs (d : Directory) : list string :=
  match d with Unlistable _ => [] | Listed files => List.filter is_main_log files.*1 end.

(** A line with a marker, without its line end. *)
Definition watchdog_line (line : string) : bool :=
  existsb (λ marker, contains (chars marker) (chars line)) WATCHDOG_MARKERS.

(** [watchdog_terminations]; an unreadable log is skipped. *)
Definition watchdog_terminations (d : Directory) (before : list string) : list string :=
  match d with
  | Unlistable _ => []
  | Listed files =>
      concat ((λ f, List.filter watchdog_line (file_lines f.2))
                <$> List.filter (λ f, is_main_log f.1 && negb (bool_decide (f.1 ∈ before))) (merge_sort file_le files))
  end.

(** ** Names of delay configurations

    Within one schedule of a checked configuration, whose delays and warpgroups
    are not repeated, every attempt has a file of its own. *)

Definition no_dash (l : list ascii) : Prop := "-"%char ∉ l.

Lemma split_dash x y u v : no_dash x → no_dash y → x ++ "-"%char :: u = y ++ "-"%char :: v → x = y ∧ u = v.
Proof.
  unfold no_dash. revert y. induction x as [|a x IH]; intros [|b y] Hx Hy H; cbn in H.
  - injection H as H. done.
  - injection H as Hb _. set_solver.
  - injection H as Ha _. set_solver.
  - injection H as -> H. apply IH in H; [|set_solver..]. naive_solver.
Qed.

Lemma pretty_N_go_digits x : ∀ s, Forall (λ c, is_digit c = true) (chars s) → Forall (λ c, is_digit c = true) (chars (pretty_N_go x s)).
Proof.
  induction (N.lt_wf_0 x) as [x _ IH]; intros s Hs. destruct (decide (x = 0)%N) as [->|Hx]; [by rewrite pretty_N_go_0|].
  rewrite pretty_N_go_step by lia. apply IH; [by apply N.div_lt; lia|]. constructor; [|done].
  unfold pretty_N_char. by repeat case_match.
Qed.

Lemma pretty_digits z : 0 ≤ z → Forall (λ c, is_digit c = true) (chars (pretty z)).
Proof.
  intros H. destruct z as [|p|p]; [by repeat constructor| |lia].
  unfold pretty, pretty_Z, pretty, pretty_positive, pretty, pretty_N. destruct (decide _); [done|].
  apply pretty_N_go_digits. constructor.
Qed.

Lemma pretty_no_dash z : 0 ≤ z → no_dash (chars (pretty z)).
Proof. intros H Hin. pose proof (pretty_digits z H) as Hd. rewrite Forall_forall in Hd. by specialize (Hd _ Hin). Qed.

Lemma chars_inj a b : chars a = chars b → a = b.
Proof.
  intros H. rewrite <- (String.string_of_list_ascii_of_string a), <- (String.string_of_list_ascii_of_string b).
  unfold chars in H. by rewrite H.
Qed.

(** The words a name has in place of a number. *)
Lemma word_in_name none : none = "all"%string ∨ none = "None"%string →
  no_dash (chars none) ∧ ¬ Forall (λ c, is_digit c = true) (chars none).
Proof.
  intros [->| ->]; (split; [intros H; repeat (apply elem_of_cons in H as [H|H]; [done|]); by apply elem_of_nil in H|]);
    intros [Hf _]%Forall_cons; done.
Qed.

(** An optional number in a name, where [none] is not a number. *)
Lemma option_text_inj none a b : none = "all"%string ∨ none = "None"%string →
  (∀ z, a = Some z → 0 ≤ z) → (∀ z, b = Some z → 0 ≤ z) →
  let text o := match o with None => none | Some z => pretty z end in
  no_dash (chars (text a)) ∧ (text a = text b → a = b).
Proof.
  intros [Hn Hd]%word_in_name Ha Hb text. split; [destruct a as [z|]; [by apply pretty_no_dash, Ha|done]|].
  destruct a as [x|], b as [y|]; cbn; intros H; [by apply (inj pretty) in H as ->| | |done];
    exfalso; apply Hd; [rewrite <- H|rewrite H]; apply pretty_digits; auto.
Qed.

(** Taking a name apart at its dashes. *)
Ltac split_name E := rewrite <- ?app_assoc in E; apply app_inv_head in E; cbn [app] in E; apply split_dash in E as [? E].

Lemma warpgroup_name_inj d g a d' g' a' : 0 ≤ d → 0 ≤ d' → (∀ z, g = Some z → 0 ≤ z) → (∀ z, g' = Some z → 0 ≤ z) →
  attempt_config_name (mkTrial d a g None) = attempt_config_name (mkTrial d' a' g' None) → d = d' ∧ g = g' ∧ a = a'.
Proof.
  intros Hd Hd' Hg Hg' E. apply (f_equal chars) in E.
  unfold attempt_config_name in E. cbn [t_target t_delay_ns t_warpgroup t_attempt] in E.
  destruct (option_text_inj "None" g g') as [Hn1 Hi1]; [auto|done|done|].
  destruct (option_text_inj "None" g' g) as [Hn2 _]; [auto|done|done|]. rewrite !chars_app in E.
  change (chars "delay-") with (chars "delay-" ++ []) in E.
  change (chars "-wg-") with ("-"%char :: chars "wg-" ++ []) in E.
  change (chars "-attempt-") with ("-"%char :: chars "attempt-" ++ []) in E.
  split_name E; [|by apply pretty_no_dash..]. split_name E; [|done..].
  rewrite <- ?app_assoc in E. apply app_inv_head in E. cbn [app] in E. apply app_inv_tail, chars_inj, (inj pretty) in E.
  split_and!; [by apply (inj pretty), chars_inj|by apply Hi1, chars_inj|done].
Qed.

Lemma target_name_inj d g a w r d' g' a' w' r' : 0 ≤ d → 0 ≤ d' → 0 ≤ w → 0 ≤ w' →
  (∀ z, r = Some z → 0 ≤ z) → (∀ z, r' = Some z → 0 ≤ z) →
  attempt_config_name (mkTrial d a g (Some (mkDelayTarget w r)))
  = attempt_config_name (mkTrial d' a' g' (Some (mkDelayTarget w' r'))) → d = d' ∧ w = w' ∧ r = r' ∧ a = a'.
Proof.
  intros Hd Hd' Hw Hw' Hr Hr' E. apply (f_equal chars) in E.
  unfold attempt_config_name in E. cbn [t_target t_delay_ns t_attempt warp cluster_rank] in E.
  destruct (option_text_inj "all" r r') as [Hn1 Hi1]; [auto|done|done|].
  destruct (option_text_inj "all" r' r) as [Hn2 _]; [auto|done|done|]. rewrite !chars_app in E.
  change (chars "delay-") with (chars "delay-" ++ []) in E.
  change (chars "-rank-") with ("-"%char :: chars "rank-" ++ []) in E.
  change (chars "-warp-") with ("-"%char :: chars "warp-" ++ []) in E.
  change (chars "-attempt-") with ("-"%char :: chars "attempt-" ++ []) in E.
  split_name E; [|by apply pretty_no_dash..]. split_name E; [|done..]. split_name E; [|by apply pretty_no_dash..].
  rewrite <- ?app_assoc in E. apply app_inv_head in E. cbn [app] in E. apply app_inv_tail, chars_inj, (inj pretty) in E.
  split_and!; [by apply (inj pretty), chars_inj|by apply (inj pretty), chars_inj|by apply Hi1, chars_inj|done].
Qed.

Lemma config_ok_parts c : config_ok c = true →
  (∀ d, d ∈ delay_ladder_ns c → 1 ≤ d) ∧ (∀ g, g ∈ warpgroup_ids c → 0 ≤ g)
  ∧ (∀ r, r ∈ default [] (isolate_ranks c) → 0 ≤ r) ∧ (∀ w, w ∈ default [] (isolate_warps c) → 0 ≤ w).
Proof.
  unfold config_ok. rewrite !andb_true_iff, !forallb_forall. setoid_rewrite <- list_elem_of_In.
  intros H. split_and!; intros x Hx.
  - assert ((1 <=? x) = true) by (apply H, Hx). lia.
  - assert (((0 <=? x) && (x <? 8)) = true) by (apply H, Hx). lia.
  - assert ((0 <=? x) = true) by (apply H, Hx). lia.
  - assert (((0 <=? x) && (x <? MAX_WARPS)) = true) by (apply H, Hx). lia.
Qed.

Lemma Z_sorted_set_ok l : NoDup (Z_sorted_set l) ∧ ∀ x, x ∈ Z_sorted_set l ↔ x ∈ l.
Proof.
  unfold Z_sorted_set. split; [rewrite merge_sort_Permutation; apply NoDup_remove_dups|].
  intros x. by rewrite merge_sort_Permutation, elem_of_remove_dups.
Qed.

Lemma rev_NoDup {A} (l : list A) : NoDup l → NoDup (rev l).
Proof. intros H. apply NoDup_ListNoDup, List.NoDup_rev. by apply NoDup_ListNoDup. Qed.

(** The ranks of an isolate search, high to low and each once. *)
Lemma elem_of_rev {A} (x : A) l : x ∈ rev l ↔ x ∈ l.
Proof. by rewrite !list_elem_of_In, <- in_rev. Qed.

(** Combinations of the elements of lists, each once. *)
Lemma NoDup_pairs {A B D} (f : A → B → D) (la : list A) (lb : list B) :
  (∀ a b a' b', f a b = f a' b' → a = a' ∧ b = b') → NoDup la → NoDup lb → NoDup (a ← la; b ← lb; [f a b]).
Proof.
  intros Hf Ha Hb. apply NoDup_bind; [|intros a _; apply NoDup_bind|done].
  - intros a a' t _ _ (b & ->%list_elem_of_singleton & _)%list_elem_of_bind (b' & E%list_elem_of_singleton & _)%list_elem_of_bind.
    by apply Hf in E as [-> _].
  - intros b b' t _ _ ->%list_elem_of_singleton E%list_elem_of_singleton. by apply Hf in E as [_ ->].
  - intros b _. apply NoDup_singleton.
  - done.
Qed.

Lemma NoDup_triples {A B C D} (f : A → B → C → D) (la : list A) (lb : list B) (lc : list C) :
  (∀ a b c a' b' c', f a b c = f a' b' c' → a = a' ∧ b = b' ∧ c = c') → NoDup la → NoDup lb → NoDup lc →
  NoDup (a ← la; b ← lb; c ← lc; [f a b c]).
Proof.
  intros Hf Ha Hb Hc. apply NoDup_bind; [|intros a _; apply NoDup_pairs; [|done..]; intros b c b' c' E; apply Hf in E; tauto|done].
  intros a a' t _ _ (b & (c & ->%list_elem_of_singleton & _)%list_elem_of_bind & _)%list_elem_of_bind
    (b' & (c' & E%list_elem_of_singleton & _)%list_elem_of_bind & _)%list_elem_of_bind. by apply Hf in E as [-> _].
Qed.

Lemma elem_of_triples {A B C D} (f : A → B → C → D) (la : list A) (lb : list B) (lc : list C) t :
  t ∈ (a ← la; b ← lb; c ← lc; [f a b c]) ↔ ∃ a b c, t = f a b c ∧ a ∈ la ∧ b ∈ lb ∧ c ∈ lc.
Proof.
  rewrite list_elem_of_bind. setoid_rewrite list_elem_of_bind. setoid_rewrite list_elem_of_bind.
  setoid_rewrite list_elem_of_singleton. naive_solver.
Qed.

(** The targets of an isolate search are distinct, with natural numbers. *)
Lemma isolate_targets_ok c g targets : config_ok c = true → isolate_targets c g = Ok targets →
  NoDup targets ∧ ∀ t, t ∈ targets → 0 ≤ warp t ∧ ∀ r, cluster_rank t = Some r → 0 ≤ r.
Proof.
  intros Hc H. destruct (config_ok_parts c Hc) as (_ & _ & Hr & Hw). unfold isolate_targets in H.
  destruct (_ && _); [done|]. injection H as <-.
  set (warps := match isolate_warps c with Some ws => Z_sorted_set ws | None => _ end).
  set (ranks := match isolate_ranks c, g with Some rs, _ => _ | _, _ => _ end).
  assert (Hwarps : NoDup warps ∧ ∀ w, w ∈ warps → 0 ≤ w).
  { subst warps. destruct (isolate_warps c) as [ws|].
    - destruct (Z_sorted_set_ok ws) as [Hn Hin]. split; [done|]. intros w Hw'. by apply Hw, Hin.
    - split; [apply NoDup_seqZ|]. intros w ?%elem_of_seqZ. lia. }
  assert (Hranks : NoDup ranks ∧ ∀ r, Some r ∈ ranks → 0 ≤ r).
  { assert (Hs : ∀ l : list Z, NoDup l → (∀ r, r ∈ l → 0 ≤ r) →
      NoDup (Some <$> rev l) ∧ ∀ r, Some r ∈ Some <$> rev l → 0 ≤ r).
    { intros l Hn Hl. split; [apply NoDup_fmap_2; [apply _|by apply rev_NoDup]|].
      intros r (r' & [= <-] & Hin)%list_elem_of_fmap. by apply Hl, elem_of_rev. }
    assert (H1 : NoDup [@None Z] ∧ ∀ r, Some r ∈ [@None Z] → 0 ≤ r).
    { split; [apply NoDup_singleton|]. by intros r ?%list_elem_of_singleton. }
    subst ranks. destruct (isolate_ranks c) as [rs|].
    - apply Hs; [apply Z_sorted_set_ok|]. intros r Hin. by apply Hr, (proj2 (Z_sorted_set_ok rs)).
    - destruct g as [g|]; [|done]. destruct (1 <? cluster_size g); [|done].
      apply Hs; [apply NoDup_seqZ|]. intros r ?%elem_of_seqZ. lia. }
  destruct Hwarps as [Hnw Hww], Hranks as [Hnr Hrr]. clearbody warps ranks. split.
  - apply NoDup_pairs; [|done..]. intros *. cbn. naive_solver.
  - intros t (r & (w & ->%list_elem_of_singleton & Hw')%list_elem_of_bind & Hr')%list_elem_of_bind. cbn.
    split; [by apply Hww|]. intros r' ->. by apply Hrr.
Qed.

(** Every attempt of a schedule writes to a file of its own. *)
Lemma schedule_names_NoDup c targets : config_ok c = true →
  (is_isolate c = true → NoDup targets ∧ ∀ t, t ∈ targets → 0 ≤ warp t ∧ ∀ r, cluster_rank t = Some r → 0 ≤ r) →
  NoDup (delay_ladder_ns c) → NoDup (warpgroup_ids c) → NoDup (attempt_config_name <$> trial_schedule c targets).
Proof.
  intros Hc Ht Hd Hg. destruct (config_ok_parts c Hc) as (Hd0 & Hg0 & _ & _). unfold trial_schedule.
  assert (Ha : NoDup (attempts_of c)) by apply NoDup_seqZ. destruct (is_isolate c).
  - destruct (Ht eq_refl) as [Hnt Ht0]. apply NoDup_fmap_2_strong.
    + intros t u ([w r] & d & a & -> & Hx & Hy & _)%(elem_of_triples (λ target d a, mkTrial d a None (Some target)))
        ([w' r'] & d' & a' & -> & Hx' & Hy' & _)%(elem_of_triples (λ target d a, mkTrial d a None (Some target))) E.
      destruct (Ht0 _ Hx) as [Hw Hr], (Ht0 _ Hx') as [Hw' Hr']. pose proof (Hd0 _ Hy). pose proof (Hd0 _ Hy').
      apply target_name_inj in E as (-> & -> & -> & ->); [done|lia|lia|done..].
    + apply (NoDup_triples (λ target d a, mkTrial d a None (Some target))); [|done..]. intros *. cbn. naive_solver.
  - set (groups := match warpgroup_ids c with [] => [None] | _ => _ end).
    assert (Hgr : NoDup groups ∧ ∀ g, Some g ∈ groups → 0 ≤ g).
    { subst groups. destruct (warpgroup_ids c) as [|g gs].
      - split; [apply NoDup_singleton|]. by intros r ?%list_elem_of_singleton.
      - split; [by apply NoDup_fmap_2; [apply _|]|]. intros r (r' & [= <-] & Hin)%list_elem_of_fmap. by apply Hg0. }
    destruct Hgr as [Hng Hg1]. clearbody groups. apply NoDup_fmap_2_strong.
    + intros t u (d & g & a & -> & Hx & Hy & _)%(elem_of_triples (λ d g a, mkTrial d a g None))
        (d' & g' & a' & -> & Hx' & Hy' & _)%(elem_of_triples (λ d g a, mkTrial d a g None)) E.
      pose proof (Hd0 _ Hx). pose proof (Hd0 _ Hx').
      apply warpgroup_name_inj in E as (-> & -> & ->); [done|lia|lia|intros z ->; auto|intros z ->; auto].
    + apply (NoDup_triples (λ d g a, mkTrial d a g None)); [|done..]. intros *. cbn. naive_solver.
Qed.

(** ** What an accepted delay configuration holds *)

Lemma scan_kernels_sound d n_ s_ kernels : ∀ matched name checksum k,
  scan_kernels d n_ s_ matched kernels = inr (name, checksum, k) →
  1 ≤ k ∧ expected n_ s_ name checksum = true
  ∧ ∃ raw points ps p, raw ∈ kernels ∧ kernel_identity raw = Some (name, checksum, points)
      ∧ obj_values points = Some ps ∧ p ∈ ps ∧ is_Some (enabled_pc d p).
Proof.
  induction kernels as [|raw rest IH]; intros matched name checksum k H; cbn [scan_kernels] in H; [done|].
  assert (Hrest : ∀ matched, scan_kernels d n_ s_ matched rest = inr (name, checksum, k) →
    1 ≤ k ∧ expected n_ s_ name checksum = true
    ∧ ∃ raw' points ps p, raw' ∈ raw :: rest ∧ kernel_identity raw' = Some (name, checksum, points)
        ∧ obj_values points = Some ps ∧ p ∈ ps ∧ is_Some (enabled_pc d p)).
  { intros m Hm. destruct (IH _ _ _ _ Hm) as (Hk & He & raw' & points & ps & p & Hin & Hrest). split_and!; [done..|].
    exists raw', points, ps, p. split; [by right|done]. }
  destruct (kernel_identity raw) as [[[name' checksum'] points]|] eqn:Eid; [|by eapply Hrest].
  destruct (expected n_ s_ name' checksum') eqn:Ee; cbn [negb] in H; [|by eapply Hrest].
  destruct (obj_values points) as [ps|] eqn:Ep; [|by eapply Hrest].
  destruct (remove_dups (omap (enabled_pc d) ps)) as [|pc pcs] eqn:Er; [by eapply Hrest|].
  injection H as <- <- <-. split_and!; [cbn [length]; lia|done|].
  assert (Hpc : pc ∈ omap (enabled_pc d) ps) by (apply elem_of_remove_dups; rewrite Er; by left).
  apply list_elem_of_omap in Hpc as (p & Hp & Epc). exists raw, points, ps, p. split_and!; [by left|done..|eauto].
Qed.

(** The configuration records the attempted delay, and an expected kernel has a
    point that is on with it. *)
Lemma validate_delay_config_sound file d n_ s_ name checksum k :
  validate_delay_config file d n_ s_ = inr (name, checksum, k) →
  1 ≤ k ∧ expected n_ s_ name checksum = true
  ∧ ∃ payload kernels raw points ps p, file = Some (Parsed (JObj payload)) ∧ get payload "delay_ns" = JInt d
      ∧ get payload "kernels" = JObj kernels ∧ raw ∈ kernels.*2 ∧ kernel_identity raw = Some (name, checksum, points)
      ∧ obj_values points = Some ps ∧ p ∈ ps ∧ is_Some (enabled_pc d p).
Proof.
  intros H. destruct file as [[m|j]|]; [done| |done]. destruct j as [| | | | | |payload]; try done. unfold validate_delay_config in H.
  destruct (get payload "version") as [| | | |v| |]; try done. destruct (v =? "1.0")%string; [|done].
  destruct (get payload "delay_ns") as [| |d'| | | |] eqn:Ed; try done. cbn [negb] in H.
  destruct (Z.eqb_spec d' d) as [->|]; [|done]. cbn [negb] in H.
  destruct (get payload "kernels") as [| | | | | |[|kn kns]] eqn:Ek; try done.
  destruct (scan_kernels d n_ s_ false _) as [matched|[[name' checksum'] k']] eqn:Es; [by destruct (_ && _)|].
  injection H as -> -> ->. destruct (scan_kernels_sound _ _ _ _ _ _ _ _ Es) as (Hk & He & raw & points & ps & p & Hin & Hid & Hps & Hp & Hpc).
  split_and!; [done..|]. exists payload, (kn :: kns), raw, points, ps, p. split_and!; done.
Qed.
