(* ===== verification/StressSearch.v ===== *)
(** The stress search: src/python/cutracer/stress/stress.py, one attempt, the
    control runs, the log and [run_stress].

    What surrounds the search is a parameter: [target_run] starts the oracle
    under CUTracer ([run_instrumented_target]) and says how it ended, what it
    dumped and what its output directory holds; [log_write] says whether a write
    to the log was made durable; [new_rejected_name] is [tempfile.mkstemp], [None]
    where it fails; [owned] is [_is_owned_path]; [on_progress] is the progress
    callback, which can read the files of the search and raise, and writes only
    to its own part of the world.  Their state is [W].

    The [Store] holds the delay configurations and the logs by path, and the
    results the progress callback has been given.  Two paths name one file only
    if they are the same text. *)
From S2P Require Import Prelude.
From S2P Require Import PyStr.
From S2P Require Import PyDict.
From S2P Require Import Json.
From S2P Require Import PyText.
From S2P Require Import Results.
From S2P Require Import StressPlan.
From Stdlib Require Import Ascii.
Local Open Scope Z_scope.

(** ** Runs and the store *)

(** The parts of [InstrumentationConfig] the search decides. *)
Record Launch := mkLaunch {
  la_delay_ns : Z; la_targeting : Targeting; la_patterns : option string; la_dump : option string;
  la_kernel_events : bool; la_kernel_timeout_s : Z; la_no_data_timeout_s : Z
}.

(** [LaunchFailed e m]: the exception [e], where [m] is its type's name, a colon and
    what it prints as; [NotStarted e]: [mkdtemp], or [os.unlink] of the file of an
    earlier run, raised [e] before the oracle was launched. *)
Inductive Ending :=
| NotStarted (e : exn)
| Exited (returncode : Z) (stdout stderr : string)
| TimedOut (message : string)
| LaunchFailed (e : exn) (message : string).

(** The output directory before and after a run, and the file it dumped. *)
Record Run := mkRun { ending : Ending; dir_before : Directory; dir_after : Directory; dump : option DelayFile }.

Inductive LogWrite := Durable | WriteFailed (left : option string).

Record Store (W : Type) := mkStore {
  configs : gmap string DelayFile; logs : gmap string string; published : list StressResult; world : W
}.
Arguments mkStore {W} configs logs published world.
Arguments configs {W} s.
Arguments logs {W} s.
Arguments published {W} s.
Arguments world {W} s.

Record AttemptResult := mkAttemptResult {
  ar_completed : Z; ar_reproductions : Z; ar_infra_errors : Z; ar_triggering : option TriggeringConfig;
  ar_log : string; ar_timed_out : Z; ar_unattributed : Z; ar_hangs : Z; ar_rejected : option string
}.

Record BaselineResult := mkBaselineResult {
  requested : Z; br_completed : Z; br_reproductions : Z; br_timed_out : Z; br_infra_errors : Z;
  br_logs : list string; br_hangs : Z; geometry : option LaunchGeometry
}.

(** What the loop carries from one attempt to the next. *)
Record Progress := mkProgress {
  p_completed : Z; p_reproductions : Z; p_infra_errors : Z; p_timed_out : Z; p_hangs : Z; p_unattributed : Z;
  p_triggering : option TriggeringConfig; p_rejected : list string;
  p_log_path : option string; p_log_size : Z; p_stop : bool
}.

Definition attempted (p : Progress) : Z := p_completed p + p_infra_errors p + p_timed_out p.

Section Search.
Context {W : Type}.
Variable target_run : Launch → W → W * Run.
Variable log_write : W → W * LogWrite.
Variable new_rejected_name : string → gset string → option string.
Variable owned : string → string → bool.
Variable loads : string → option json.
Variable repr : json → string.
Variable on_progress : StressPlan.StressResult → gmap string DelayFile → gmap string string → W → W * option exn.

Notation SM := (st (Store W) exn).

Definition set_configs (f : gmap string DelayFile → gmap string DelayFile) : SM () :=
  st_modify (λ s, mkStore (f (configs s)) (logs s) (published s) (world s)).
Definition set_logs (f : gmap string string → gmap string string) : SM () :=
  st_modify (λ s, mkStore (configs s) (f (logs s)) (published s) (world s)).
(** [config.progress_callback(r)] *)
Definition publish (r : StressResult) : SM () :=
  λ s, let '(w, o) := on_progress r (configs s) (logs s) (world s) in
       (mkStore (configs s) (logs s) (published s ++ [r]) w, match o with None => Ok () | Some e => Err e end).

(** [_unlink] *)
Definition unlink (path : string) : SM () := set_configs (delete path).

(** The removal of the file of an earlier run, where the launch dumps its own, and
    [run_instrumented_target].  A dump outside the store is not kept. *)
Definition dumped (l : Launch) (r : Run) (keep : bool) (m : gmap string DelayFile) : gmap string DelayFile :=
  match la_dump l with
  | Some path =>
      if keep then match dump r with Some d => <[path := d]> (delete path m) | None => delete path m end else m
  | None => m
  end.
Definition launch (l : Launch) (keep : bool) : SM Run :=
  λ s, let '(w, r) := target_run l (world s) in
       match ending r with
       | NotStarted e => (mkStore (configs s) (logs s) (published s) w, Err e)
       | _ => (mkStore (dumped l r keep (configs s)) (logs s) (published s) w, Ok r)
       end.

(** [_preserve_rejected_config] *)
Definition preserve_rejected_config (path : string) : SM (option string) :=
  s ← st_get;
  match configs s !! path with
  | None => mret None
  | Some file =>
      match new_rejected_name path (dom (configs s)) with
      | None => mret None
      | Some rejected => _ ← set_configs (λ m, <[rejected := file]> (delete path m)); mret (Some rejected)
      end
  end.

(** [dict.fromkeys], retention, and the removal of what is not retained. *)
Definition drop_unretained (c : StressConfig) (candidates retained : list string) : SM () :=
  set_configs (λ m, foldr delete m
    (List.filter (λ p, negb (bool_decide (p ∈ retained)) && owned p (output_dir c)) candidates)).

Definition first_seen (l : list string) : list string := rev (remove_dups (rev l)).

Definition bounded_rejected (c : StressConfig) (paths : list string) : SM (list string) :=
  let unique := first_seen paths in
  let retained := retain_oldest_and_newest unique in
  _ ← drop_unretained c unique retained; mret retained.

Definition record_rejected (c : StressConfig) (paths : list string) (rejected : option string) : SM (list string) :=
  match rejected with
  | None => mret paths
  | Some r =>
      if bool_decide (r ∈ paths) then mret paths
      else
        let candidates := paths ++ [r] in
        let retained := retain_oldest_and_newest candidates in
        _ ← drop_unretained c candidates retained; mret retained
  end.

(** ** One attempt *)

Definition config_path_of (c : StressConfig) (t : Trial) : string :=
  path_join (output_dir c) (attempt_config_name t).

Definition attempt_launch (c : StressConfig) (t : Trial) : Launch :=
  mkLaunch (t_delay_ns t) (attempt_targeting c (t_warpgroup t) (t_target t)) (delay_patterns_of c)
    (Some (config_path_of c t))
    (bool_decide (t_warpgroup t ≠ None) || bool_decide (t_target t ≠ None))
    (kernel_timeout_s c) (no_data_timeout_s c).

(** [except (click.ClickException, OSError, ValueError)] *)
Definition caught (e : exn) : bool := match e with ClickException | OSError | ValueError => true | _ => false end.

Definition infra_error (log : string) (hangs : Z) (rejected : option string) : AttemptResult :=
  mkAttemptResult 0 0 1 None log 0 0 hangs rejected.

(** The attempt does not count: its configuration is set aside. *)
Definition reject (path log : string) (hangs : Z) (p : Problem) : SM AttemptResult :=
  rejected ← preserve_rejected_config path;
  mret (infra_error (log_with repr log p) hangs rejected).

Definition launch_problem (c : StressConfig) (t : Trial) (d : Directory) (checksum : string) : option Problem :=
  match t_target t, t_warpgroup t with
  | Some target, _ => validate_target_launch loads d checksum (warp target) (cluster_rank target) (label target)
  | None, Some g => validate_warpgroup_launch loads d checksum g
  | None, None => None
  end.

Definition triggering_of (c : StressConfig) (t : Trial) (hung : bool) (enabled : Z) : TriggeringConfig :=
  mkTriggeringConfig (config_path_of c t) (t_delay_ns t) (t_warpgroup t) (enable_prob c) (t_attempt t)
    (Some enabled) (if hung then SYMPTOM_HANG else SYMPTOM_FAILURE) (target_to_dict <$> t_target t)
    (replay_args_of c (t_delay_ns t) (t_warpgroup t) (t_target t)).

(** The oracle's verdict: the bug, a clean run, or neither. *)
Definition interesting (hung : bool) (returncode : option Z) : bool := hung || bool_decide (returncode = Some 0).
Definition clean (c : StressConfig) (returncode : option Z) : bool :=
  match not_interesting_exit_codes c with
  | [] => true
  | codes => match returncode with Some r => bool_decide (r ∈ codes) | None => false end
  end.

(** The second half of an attempt: what its ending and its files say. *)
Definition judge_attempt (c : StressConfig) (t : Trial) (r : Run) (returncode : option Z) (watchdog : list string)
    (log : string) : SM AttemptResult :=
  let path := config_path_of c t in
  let hangs := if nonempty_list watchdog then 1 else 0 in
  let hung := nonempty_list watchdog && hang_is_bug c in
  if bool_decide (returncode = None) && negb hung then
    _ ← unlink path; mret (mkAttemptResult 0 0 0 None log 1 0 hangs None)
  else
    let is_interesting := interesting hung returncode in
    if negb is_interesting && negb (clean c returncode) then
      reject path log hangs (UnexpectedReturnCode (default 0 returncode))
    else
      s ← st_get;
      let file := configs s !! path in
      if is_interesting && bool_decide (enabled_point_count file = Some 0) then
        _ ← unlink path;
        mret (mkAttemptResult 1 0 0 None (log_with repr log NothingInjected) 0 1 hangs None)
      else
        match validate_delay_config file (t_delay_ns t) (expected_kernel_name c) (expected_kernel_checksum c) with
        | inl p => reject path log hangs p
        | inr (_, checksum, enabled) =>
            match launch_problem c t (dir_after r) checksum with
            | Some p => reject path log hangs p
            | None =>
                if is_interesting then
                  mret (mkAttemptResult 1 1 0 (Some (triggering_of c t hung enabled)) log 0 0 hangs None)
                else _ ← unlink path; mret (mkAttemptResult 1 0 0 None log 0 0 hangs None)
            end
        end.

Definition run_attempt (c : StressConfig) (t : Trial) : SM AttemptResult :=
  let path := config_path_of c t in
  r ← launch (attempt_launch c t) true;
  let watchdog := watchdog_terminations (dir_after r) (main_logs (dir_before r)) in
  let log returncode out err error lines :=
    attempt_log (t_delay_ns t) (t_warpgroup t) (t_attempt t) returncode out err error lines (t_target t) in
  match ending r with
  | NotStarted e => st_raise e
  | LaunchFailed e m =>
      if caught e then
        _ ← unlink path; mret (infra_error (log None "" "" ("launch failed: " +:+ m) [])%string 0 None)
      else st_raise e
  | TimedOut m => judge_attempt c t r None watchdog (log None "" "" ("timed out: " +:+ m) watchdog)%string
  | Exited code out err => judge_attempt c t r (Some code) watchdog (log (Some code) out err "" watchdog)%string
  end.

(** ** The log *)

Definition stress_log (c : StressConfig) : string := path_join (output_dir c) "stress.log".
Definition size_of (s : string) : Z := Z.of_nat (String.length s).

Definition log_outcome : SM LogWrite := λ s, let '(w, o) := log_write (world s) in
  (mkStore (configs s) (logs s) (published s) w, Ok o).

(** [_write_stress_log]: a failed append is rolled back, [kept] being what could
    not be. *)
Definition write_stress_log (c : StressConfig) (part : string) (append : bool) : SM (string * Z) :=
  let path := stress_log c in
  s ← st_get;
  if append then
    match logs s !! path with
    | None => st_raise OSError
    | Some previous =>
        let payload := (if String.eqb previous "" then part else str ["010"%char] +:+ part)%string in
        o ← log_outcome;
        match o with
        | Durable => _ ← set_logs (insert path (previous +:+ payload)%string);
                     mret (path, size_of previous + size_of payload)
        | WriteFailed kept =>
            _ ← set_logs (insert path (previous +:+ default "" kept)%string); st_raise OSError
        end
    end
  else
    o ← log_outcome;
    match o with
    | Durable => _ ← set_logs (insert path part); mret (path, size_of part)
    | WriteFailed kept =>
        _ ← set_logs (match kept with None => delete path | Some t => insert path t end); st_raise OSError
    end.

Definition prefix_of (s : string) (n : Z) : string := String.substring 0 (Z.to_nat n) s.

(** [_prepare_stress_log] *)
Definition prepare_stress_log (c : StressConfig) (result : option StressResult) : SM (option string * Z) :=
  let path := stress_log c in
  match result with
  | None => _ ← set_logs (delete path); mret (None, 0)
  | Some r =>
      if completed_trials r + infra_errors r + timed_out r =? 0 then _ ← set_logs (delete path); mret (None, 0)
      else
        match log_path r with
        | None => st_raise ValueError
        | Some source =>
            s ← st_get;
            match logs s !! source with
            | None => st_raise OSError
            | Some text =>
                let expected_size := default (size_of text) (log_size_bytes r) in
                if (expected_size <? 0) || (size_of text <? expected_size) then st_raise ValueError
                else _ ← set_logs (insert path (prefix_of text expected_size)); mret (Some path, expected_size)
            end
        end
  end.

(** ** The control runs *)

Definition baseline_launch (c : StressConfig) (delay_ns : Z) : Launch :=
  mkLaunch delay_ns (mkTargeting "random" f_zero None None None) (delay_patterns_of c)
    (if is_isolate c then Some "delay_config.json"%string else None) (is_isolate c)
    (kernel_timeout_s c) (no_data_timeout_s c).

(** One control run counted. *)
Definition count_baseline (c : StressConfig) (hung : bool) (returncode : option Z) (log : string) (hang : Z)
    (g : option LaunchGeometry) (b : BaselineResult) : BaselineResult :=
  let '(completed, reproduced, timed, infra) :=
    if hung then (1, 1, 0, 0)
    else match returncode with
         | None => (0, 0, 1, 0)
         | Some code =>
             if code =? 0 then (1, 1, 0, 0)
             else if clean c returncode then (1, 0, 0, 0) else (0, 0, 0, 1)
         end in
  mkBaselineResult (requested b) (br_completed b + completed) (br_reproductions b + reproduced)
    (br_timed_out b + timed) (br_infra_errors b + infra) (br_logs b ++ [log]) (br_hangs b + hang) g.

Definition baseline_run (c : StressConfig) (delay_ns attempt : Z) (b : BaselineResult) : SM BaselineResult :=
  r ← launch (baseline_launch c delay_ns) false;
  let watchdog := watchdog_terminations (dir_after r) (main_logs (dir_before r)) in
  ends ← match ending r with
         | NotStarted e | LaunchFailed e _ => st_raise e
         | TimedOut m => mret (None, ""%string, ""%string, ("baseline timed out: " +:+ m)%string)
         | Exited code out err => mret (Some code, out, err, "baseline (injection disabled)"%string)
         end;
  let '(returncode, out, err, error) := ends in
  g ← (if is_isolate c then
         launches ← st_lift (instrumented_geometry loads (dir_after r) (dump r));
         mret (match launches with Some l => Some (merge_geometry l (geometry b)) | None => geometry b end)
       else mret (geometry b));
  mret (count_baseline c (nonempty_list watchdog && hang_is_bug c) returncode
          (attempt_log delay_ns None attempt None out err error watchdog None)
          (if nonempty_list watchdog then 1 else 0) g b).

Fixpoint baseline_runs_from (c : StressConfig) (delay_ns : Z) (attempts : list Z) (b : BaselineResult)
    : SM BaselineResult :=
  match attempts with
  | [] => mret b
  | a :: rest => b' ← baseline_run c delay_ns a b; baseline_runs_from c delay_ns rest b'
  end.

Definition run_baseline (c : StressConfig) : SM BaselineResult :=
  if baseline_runs c <=? 0 then mret (mkBaselineResult 0 0 0 0 0 [] 0 None)
  else
    match delay_ladder_ns c with
    | [] => st_raise IndexError
    | delay_ns :: _ =>
        baseline_runs_from c delay_ns (seqZ 0 (baseline_runs c))
          (mkBaselineResult (baseline_runs c) 0 0 0 0 [] 0 None)
    end.

Definition baseline_of_result (r : StressResult) : BaselineResult :=
  mkBaselineResult (baseline_requested r) (baseline_completed r) (baseline_reproductions r)
    (baseline_timed_out r) (baseline_infra_errors r) [] (baseline_hangs r) None.

(** ** Attribution *)

Definition attribution_of (b : BaselineResult) (triggering : option TriggeringConfig) : string :=
  if requested b =? 0 then "no_baseline"
  else if 0 <? br_reproductions b then "natural"
  else if br_completed b <? requested b then "baseline_incomplete"
  else match triggering with None => "not_reproduced" | Some _ => "attributed" end.

(** ** The search *)

(** [progress_result(log_path)] *)
Definition result_of (c : StressConfig) (b : BaselineResult) (targets : list DelayTarget) (p : Progress)
    (path : option string) : StressResult :=
  mkStressResult (bool_decide (p_triggering p ≠ None)) (p_completed p) (p_reproductions p) (p_infra_errors p)
    (if p_completed p =? 0 then f_zero else f_ratio (p_reproductions p) (p_completed p))
    (p_triggering p) path (p_timed_out p) (p_hangs p) (p_unattributed p)
    (requested b) (br_completed b) (br_reproductions b) (br_timed_out b) (br_infra_errors b) (br_hangs b)
    (attribution_of b (p_triggering p)) (match path with Some _ => Some (p_log_size p) | None => None end)
    (p_rejected p) (strategy c) (target_to_dict <$> targets) (Some (delay_ladder_ns c)) (Some (attempts_per_delay c)).

(** The counts after an attempt. *)
Definition count_attempt (c : StressConfig) (p : Progress) (o : AttemptResult) (rejected : list string) : Progress :=
  mkProgress (p_completed p + ar_completed o) (p_reproductions p + ar_reproductions o)
    (p_infra_errors p + ar_infra_errors o) (p_timed_out p + ar_timed_out o) (p_hangs p + ar_hangs o)
    (p_unattributed p + ar_unattributed o)
    (match p_triggering p with Some t => Some t | None => ar_triggering o end) rejected
    (p_log_path p) (p_log_size p)
    (p_stop p || (bool_decide (ar_triggering o ≠ None) && stop_on_first c)).

Definition logged (p : Progress) (path : string) (size : Z) : Progress :=
  mkProgress (p_completed p) (p_reproductions p) (p_infra_errors p) (p_timed_out p) (p_hangs p) (p_unattributed p)
    (p_triggering p) (p_rejected p) (Some path) size (p_stop p).

(** The log of an attempt and the progress reported after it, also when the log
    cannot be written. *)
Definition log_attempt (c : StressConfig) (b : BaselineResult) (targets : list DelayTarget) (p : Progress)
    (log : string) : SM Progress :=
  λ s, match write_stress_log c log (bool_decide (p_log_path p ≠ None)) s with
       | (s', Ok (path, size)) =>
           let p := logged p path size in
           (_ ← publish (result_of c b targets p (Some path)); (mret p : SM Progress)) s'
       | (s', Err e) => (_ ← publish (result_of c b targets p None); (st_raise e : SM Progress)) s'
       end.

Definition search_step (c : StressConfig) (b : BaselineResult) (targets : list DelayTarget) (p : Progress) (t : Trial)
    : SM Progress :=
  o ← run_attempt c t;
  rejected ← record_rejected c (p_rejected p) (ar_rejected o);
  log_attempt c b targets (count_attempt c p o rejected) (ar_log o).

Fixpoint search (c : StressConfig) (b : BaselineResult) (targets : list DelayTarget) (p : Progress)
    (trials : list Trial) : SM Progress :=
  match trials with
  | [] => mret p
  | t :: rest =>
      if p_stop p then mret p
      else p' ← search_step c b targets p t; search c b targets p' rest
  end.

(** The schedule a resumed search must share with the first one. *)
Definition same_plan (c : StressConfig) (targets : list DelayTarget) (r : StressResult) : bool :=
  match sr_delay_ladder_ns r with Some l => bool_decide (l = delay_ladder_ns c) | None => true end
  && match sr_attempts_per_delay r with Some n => n =? attempts_per_delay c | None => true end
  && (negb (nonempty_list (sr_targets r))
      || json_eqb (JList (JObj <$> sr_targets r)) (JList (JObj <$> (target_to_dict <$> targets)))).

Definition plan_targets (c : StressConfig) (b : BaselineResult) : res exn (list DelayTarget) :=
  if is_isolate c then
    if bool_decide (resume_result c ≠ None)
       && (bool_decide (isolate_ranks c = None) || bool_decide (isolate_warps c = None))
    then Err ValueError
    else isolate_targets c (geometry b)
  else Ok [].

(** The progress a search starts from. *)
Definition initial_progress (c : StressConfig) (rejected : list string) (log_path : option string) (size : Z)
    : Progress :=
  match resume_result c with
  | None => mkProgress 0 0 0 0 0 0 None rejected log_path size false
  | Some r =>
      mkProgress (completed_trials r) (reproductions r) (infra_errors r) (timed_out r) (hangs r) (unattributed r)
        (triggering r) rejected log_path size (bool_decide (triggering r ≠ None) && stop_on_first c)
  end.

(** The counts a resumed search may start from; [isfile] of the triggering
    configuration is [present]. *)
Definition progress_ok (p : Progress) (planned : Z) (present : bool) : bool :=
  negb ((p_completed p <? 0) || (p_reproductions p <? 0) || (p_unattributed p <? 0)
        || (p_infra_errors p <? 0) || (p_timed_out p <? 0))
  && negb ((p_completed p <? p_reproductions p + p_unattributed p) || (planned <? attempted p))
  && match p_triggering p with
     | Some _ => negb (p_reproductions p =? 0) && present
     | None => negb (0 <? p_reproductions p)
     end.

(** Everything before the first attempt: the control runs, the targets, the
    checks of a resumed progress and the log it continues. *)
Definition start (c : StressConfig) : SM (BaselineResult * list DelayTarget * Progress) :=
  b ← match resume_result c with None => run_baseline c | Some r => mret (baseline_of_result r) end;
  rejected ← bounded_rejected c (match resume_result c with None => [] | Some r => rejected_config_paths r end);
  targets ← st_lift (plan_targets c b);
  _ ← st_lift (match resume_result c with
               | Some r => if same_plan c targets r then Ok () else Err ValueError
               | None => Ok ()
               end);
  let p := initial_progress c rejected None 0 in
  s ← st_get;
  let present := match p_triggering p with
                 | Some t => bool_decide (configs s !! config_path t ≠ None)
                 | None => false
                 end in
  _ ← st_lift (if progress_ok p (Z.of_nat (length (trial_schedule c targets))) present then Ok () else Err ValueError);
  '(path, size) ← prepare_stress_log c (resume_result c);
  '(path, size) ← (match br_logs b with
                   | [] => mret (path, size)
                   | l => '(path, size) ← write_stress_log c (str (join_text ["010"%char] (chars <$> l)))
                                            (bool_decide (path ≠ None));
                          mret (Some path, size)
                   end : SM (option string * Z));
  mret (b, targets, initial_progress c rejected path size).

Definition run_stress (c : StressConfig) : SM StressResult :=
  '(b, targets, p) ← start c;
  p' ← search c b targets p (drop (Z.to_nat (attempted p)) (trial_schedule c targets));
  mret (result_of c b targets p' (p_log_path p')).
End Search.
