(* ===== verification/StressProperties.v ===== *)
(** What a stress search guarantees (stress/stress.py): its counts are those of
    the attempts it made, a triggering configuration is evidence that stays on
    disk, and a search resumed from a progress it reported ends like the one that
    was not interrupted. *)
From S2P Require Import Prelude.
From S2P Require Import PyStr.
From S2P Require Import PyDict.
From S2P Require Import Json.
From S2P Require Import PyText.
From S2P Require Import Results.
From S2P Require Import StressPlan.
From S2P Require Import StressSearch.
From Stdlib Require Import Ascii.
Local Open Scope Z_scope.

(** ** A scripted environment

    The oracle's runs are read off a list; every log write is durable. *)

Definition script_run (l : Launch) (w : list Run) : list Run * Run :=
  match w with
  | r :: rest => (rest, r)
  | [] => ([], mkRun (Exited 1 "" "") (Listed []) (Listed []) None)
  end.
Definition script_log (w : list Run) : list Run * LogWrite := (w, Durable).
Definition script_name (path : string) (names : gset string) : option string :=
  if bool_decide ("rejected"%string ∈ names) then None else Some "rejected"%string.
(** No callback. *)
Definition silent {W : Type} (r : StressPlan.StressResult) (_ : gmap string DelayFile) (_ : gmap string string) (w : W)
  : W * option exn := (w, None).
Definition script_search (c : StressConfig) : st (Store (list Run)) exn StressResult :=
  run_stress script_run script_log script_name (λ _ _, true) (λ _, None) (λ _, "?"%string) silent c.

(** A delay configuration with one point at program counter 16. *)
Definition script_dump (delay_ns : Z) (on : bool) : DelayFile :=
  Parsed (JObj
    [("version", JStr "1.0"); ("delay_ns", JInt delay_ns);
     ("kernels", JObj [("k", JObj
        [("kernel_name", JStr "gemm"); ("kernel_checksum", JStr "c0ffee");
         ("instrumentation_points", JObj [("p", JObj
            [("on", JBool on); ("delay", JInt delay_ns); ("pc", JInt 16); ("sass", JStr "LDG.E")])])])])])%string.
Definition script_exit (code delay_ns : Z) : Run :=
  mkRun (Exited code "" "") (Listed []) (Listed []) (Some (script_dump delay_ns true)).

Definition script_config (ladder : list Z) (first : bool) (resume : option StressResult) : StressConfig :=
  mkStressConfig ladder f_one [] 1 first [] None 0 "out" 0 false STRATEGY_RANDOM None None None resume None None.
Definition script_store (runs : list Run) : Store (list Run) := mkStore ∅ ∅ [] runs.

Definition outcome_of_search (x : Store (list Run) * res exn StressResult) :=
  match x.2 with
  | Ok r => Some (completed_trials r, reproductions r, infra_errors r, attribution r, log_size_bytes r,
                  config_path <$> triggering r,
                  match triggering r with Some t => bool_decide (configs x.1 !! config_path t ≠ None) | None => false end)
  | Err _ => None
  end.

Example search_clean_then_bug :
  outcome_of_search (script_search (script_config [100; 200] true None) (script_store [script_exit 1 100; script_exit 0 200]))
  = Some (2, 1, 0, "no_baseline"%string, Some 115, Some "out/delay-200-wg-None-attempt-0.json"%string, true).
Proof. vm_compute. reflexivity. Qed.

(** A delay listed twice: both attempts write to one file, and the second removes
    the configuration that the first one's result names. *)
Example repeated_delay_loses_configuration :
  outcome_of_search (script_search (script_config [100; 100] false None) (script_store [script_exit 0 100; script_exit 1 100]))
  = Some (2, 1, 0, "no_baseline"%string, Some 115, Some "out/delay-100-wg-None-attempt-0.json"%string, false).
Proof. vm_compute. reflexivity. Qed.

(** ** Attempts *)

Section Properties.
Context {W : Type}.
Variable target_run : Launch → W → W * Run.
Variable log_write : W → W * LogWrite.
Variable new_rejected_name : string → gset string → option string.
Variable owned : string → string → bool.
Variable loads : string → option json.
Variable repr : json → string.
Variable on_progress : StressPlan.StressResult → gmap string DelayFile → gmap string string → W → W * option exn.

Notation run_attempt := (run_attempt target_run new_rejected_name loads repr).
Notation judge_attempt := (judge_attempt new_rejected_name loads repr).
Notation search_step := (search_step target_run log_write new_rejected_name owned loads repr on_progress).
Notation search := (search target_run log_write new_rejected_name owned loads repr on_progress).
Notation start := (start target_run log_write owned loads).
Notation run_stress := (run_stress target_run log_write new_rejected_name owned loads repr on_progress).

(** An attempt counts as exactly one of completed, infrastructure error and
    timeout; a reproduction is completed and is what carries a configuration. *)
Definition counted_once (o : AttemptResult) : Prop :=
  0 ≤ ar_completed o ∧ 0 ≤ ar_infra_errors o ∧ 0 ≤ ar_timed_out o ∧ 0 ≤ ar_hangs o ≤ 1
  ∧ ar_completed o + ar_infra_errors o + ar_timed_out o = 1
  ∧ 0 ≤ ar_reproductions o ∧ 0 ≤ ar_unattributed o ∧ ar_reproductions o + ar_unattributed o ≤ ar_completed o
  ∧ (ar_triggering o ≠ None ↔ 0 < ar_reproductions o).

Local Ltac counted := unfold counted_once; cbn; split_and!; first [lia | split; intros ?; first [lia | done | congruence]].

(** What stands behind a triggering configuration, from the run that the attempt
    makes in the world [w]: the oracle reported the bug or hung, that run dumped
    a file, which is what the attempt's path holds in [s] and has [n] points on
    with the delay of the attempt in the expected kernel, and a launch of that
    kernel has the targeted warps. *)
Definition evidence (c : StressConfig) (t : Trial) (tc : TriggeringConfig) (w : W) (s : Store W) : Prop :=
  ∃ w' r hung name checksum n file,
    target_run (attempt_launch c t) w = (w', r) ∧ dump r = Some file
    ∧ tc = triggering_of c t hung n
    ∧ (if (hung : bool) then hang_is_bug c = true ∧ watchdog_terminations (dir_after r) (main_logs (dir_before r)) ≠ []
       else (∃ out err, ending r = Exited 0 out err))
    ∧ launch_problem loads c t (dir_after r) checksum = None
    ∧ configs s !! config_path_of c t = Some file
    ∧ validate_delay_config (Some file) (t_delay_ns t) (expected_kernel_name c) (expected_kernel_checksum c)
      = inr (name, checksum, n).

(** [mkstemp] gives a name no file has, and no attempt's: it starts with
    [rejected-]. *)
Definition fresh_names (c : StressConfig) : Prop :=
  ∀ p names r, new_rejected_name p names = Some r → r ∉ names ∧ ∀ t, r ≠ config_path_of c t.

(** What an attempt leaves alone: the log, what was published, and the files of
    other attempts; a rejected file has a fresh name. *)
Definition attempt_frame (c : StressConfig) (path : string) (s s' : Store W) (rejected : option string) : Prop :=
  logs s' = logs s ∧ published s' = published s
  ∧ (∀ p, p ≠ path → configs s !! p ≠ None → configs s' !! p = configs s !! p)
  ∧ (∀ r, rejected = Some r → ∀ t, r ≠ config_path_of c t).

Lemma unlink_frame c path s : attempt_frame c path s (unlink path s).1 None.
Proof.
  split_and!; [done..| |done]. intros p Hp _. cbn. by rewrite lookup_delete_ne.
Qed.

Lemma frame_trans c path s1 s2 s3 o : attempt_frame c path s1 s2 None → attempt_frame c path s2 s3 o →
  attempt_frame c path s1 s3 o.
Proof.
  intros (L1 & P1 & F1 & _) (L2 & P2 & F2 & R2). split_and!; [congruence..| |done].
  intros p Hp Hn. rewrite (F2 p Hp); [by apply F1|]. by rewrite F1.
Qed.

Lemma preserve_frame c path s s' o : fresh_names c →
  preserve_rejected_config new_rejected_name path s = (s', Ok o) → attempt_frame c path s s' o.
Proof.
  intros Hf H. unfold preserve_rejected_config, mbind, st_bind in H. cbn in H.
  destruct (configs s !! path) as [file|] eqn:Ef; [|injection H as <- <-; split_and!; done].
  destruct (new_rejected_name path _) as [r|] eqn:Er; [|injection H as <- <-; split_and!; done].
  injection H as <- <-. destruct (Hf _ _ _ Er) as [Hr Ht]. split_and!; [done..| |naive_solver].
  intros p Hp Hn. cbn. assert (r ≠ p) by (intros ->; apply Hr, elem_of_dom; by apply not_eq_None_Some).
  by rewrite lookup_insert_ne, lookup_delete_ne.
Qed.

Lemma infra_counted log h r : 0 ≤ h ≤ 1 → counted_once (infra_error log h r).
Proof. intros H. by counted. Qed.

(** The outcome of an attempt that was not refused. *)
Definition attempt_post (c : StressConfig) (t : Trial) (path : string) (w : W) (s s' : Store W) (o : AttemptResult) : Prop :=
  counted_once o ∧ attempt_frame c path s s' (ar_rejected o)
  ∧ (∀ tc, ar_triggering o = Some tc → evidence c t tc w s').

Lemma reject_post c t path log h p w s s' o : fresh_names c → 0 ≤ h ≤ 1 →
  reject new_rejected_name repr path log h p s = (s', Ok o) → attempt_post c t path w s s' o.
Proof.
  intros Hf Hh H. apply st_bind_ok in H as (s1 & r & Hp & [= <- <-]).
  split_and!; [by apply infra_counted|by eapply preserve_frame|done].
Qed.

Lemma discard_post c t path o w s s' r : counted_once o → ar_rejected o = None → ar_triggering o = None →
  (_ ← unlink path; (mret o : st (Store W) exn AttemptResult)) s = (s', Ok r) → attempt_post c t path w s s' r.
Proof.
  intros Hc Hr Ht [= <- <-]. split_and!; [done|rewrite Hr; apply (unlink_frame c path s)|by rewrite Ht].
Qed.

Lemma judge_attempt_post c t r returncode wd log s s' o w w' : fresh_names c →
  target_run (attempt_launch c t) w = (w', r) → configs s !! config_path_of c t = dump r → wd = watchdog_terminations (dir_after r) (main_logs (dir_before r)) →
  (∀ code, returncode = Some code → ∃ out err, ending r = Exited code out err) →
  judge_attempt c t r returncode wd log s = (s', Ok o) → attempt_post c t (config_path_of c t) w s s' o.
Proof.
  intros Hf Hrun Hdump Hwd Hcode H. unfold StressSearch.judge_attempt in H.
  set (hangs := if nonempty_list wd then 1 else 0) in H.
  assert (Hh : 0 ≤ hangs ≤ 1) by (unfold hangs; destruct (nonempty_list wd); lia).
  set (hung := nonempty_list wd && hang_is_bug c) in H.
  destruct (bool_decide (returncode = None) && negb hung) eqn:Et.
  { revert H. apply discard_post; [|done..]. by counted. }
  destruct (negb (interesting hung returncode) && negb (clean c returncode)) eqn:Ei; [by eapply reject_post|].
  apply st_bind_ok in H as (s1 & x & [= <- <-] & H).
  destruct (interesting hung returncode && bool_decide (enabled_point_count (configs s !! config_path_of c t) = Some 0)) eqn:E0.
  { revert H. apply discard_post; [|done..]. by counted. }
  destruct (validate_delay_config _ _ _ _) as [p|[[name checksum] n]] eqn:Ev; [by eapply reject_post|].
  destruct (launch_problem loads c t (dir_after r) checksum) as [p|] eqn:El; [by eapply reject_post|].
  destruct (interesting hung returncode) eqn:Eint.
  2: { revert H. apply discard_post; [|done..]. by counted. }
  injection H as <- <-. split_and!.
  - by counted.
  - split_and!; done.
  - intros tc [= <-]. destruct (configs s !! config_path_of c t) as [file|] eqn:Ef; [|done].
    exists w', r, hung, name, checksum, n, file. split_and!; [done|done|done| |done|done|done].
    unfold interesting in Eint. destruct hung eqn:Eh.
    + subst hung. apply andb_prop in Eh as [Hn Hb]. split; [done|]. rewrite <- Hwd. by destruct wd.
    + cbn in Eint. apply bool_decide_eq_true in Eint. by apply Hcode.
Qed.

(** A launch that started: what it dumped, and no file of an earlier run. *)
Lemma launch_ok l keep s s' r : launch target_run l keep s = (s', Ok r) →
  ∃ w, target_run l (world s) = (w, r) ∧ s' = mkStore (dumped l r keep (configs s)) (logs s) (published s) w.
Proof.
  unfold launch. destruct (target_run l (world s)) as [w x]. destruct (ending x); intros H; try done;
    injection H as <- <-; by exists w.
Qed.

Lemma run_attempt_post c t s s' o : fresh_names c → run_attempt c t s = (s', Ok o) →
  attempt_post c t (config_path_of c t) (world s) s s' o.
Proof.
  intros Hf H. apply st_bind_ok in H as (s1 & r & H1 & H). apply launch_ok in H1 as (w & Er & ->).
  set (s1 := mkStore _ _ _ _) in H.
  assert (F : attempt_frame c (config_path_of c t) s s1 None).
  { split_and!; [done..| |done]. intros p Hp _. cbn. unfold dumped. cbn.
    destruct (dump r); rewrite ?lookup_insert_ne by done; by rewrite lookup_delete_ne. }
  assert (Hd : configs s1 !! config_path_of c t = dump r).
  { cbn. unfold dumped. cbn. destruct (dump r); [apply lookup_insert_eq|apply lookup_delete_eq]. }
  assert (Hpost : attempt_post c t (config_path_of c t) (world s) s1 s' o →
    attempt_post c t (config_path_of c t) (world s) s s' o).
  { intros (Hc & F' & He). split_and!; [done| |done]. by eapply frame_trans. }
  apply Hpost. clearbody s1. destruct (ending r) as [e|code out err|m|e m] eqn:Ee; [done|..].
  - eapply judge_attempt_post; [done|exact Er|exact Hd|done| |exact H]. intros code' [= <-]. eauto.
  - eapply judge_attempt_post; [done|exact Er|exact Hd|done| |exact H]. done.
  - destruct (caught e); [|done]. revert H. apply discard_post; [|done..]. by apply infra_counted.
Qed.

(** ** Retention and the log *)

Lemma retain_sublist {A} (l : list A) : retain_oldest_and_newest l `sublist_of` l.
Proof.
  unfold retain_oldest_and_newest. destruct (Nat.leb_spec (length l) MAX_REJECTED_CONFIGS) as [|H]; [done|].
  change (MAX_REJECTED_CONFIGS / 2)%nat with 8%nat. change (MAX_REJECTED_CONFIGS - 8)%nat with 8%nat.
  change MAX_REJECTED_CONFIGS with 16%nat in H.
  assert (E : drop (length l - 8) l = drop (length l - 16) (drop 8 l)) by (rewrite drop_drop; f_equal; lia).
  rewrite E. rewrite <- (take_drop 8 l) at 4. apply sublist_app; [done|]. apply sublist_drop.
Qed.

Lemma retain_length {A} (l : list A) : (length (retain_oldest_and_newest l) ≤ 16)%nat.
Proof.
  unfold retain_oldest_and_newest. destruct (Nat.leb_spec (length l) MAX_REJECTED_CONFIGS) as [|H]; [done|].
  change (MAX_REJECTED_CONFIGS / 2)%nat with 8%nat. change (MAX_REJECTED_CONFIGS - 8)%nat with 8%nat.
  rewrite length_app, length_take, length_drop. lia.
Qed.

Lemma retain_small {A} (l : list A) : (length l ≤ 16)%nat → retain_oldest_and_newest l = l.
Proof.
  intros H. unfold retain_oldest_and_newest. destruct (Nat.leb_spec (length l) MAX_REJECTED_CONFIGS); [done|].
  change MAX_REJECTED_CONFIGS with 16%nat in *. lia.
Qed.

(** The retained rejected configurations: at most sixteen, none twice, and none
    an attempt's own file. *)
Definition rejected_ok (c : StressConfig) (l : list string) : Prop :=
  NoDup l ∧ (length l ≤ 16)%nat ∧ ∀ x t, x ∈ l → x ≠ config_path_of c t.

Lemma record_rejected_ok c l o (s s' : Store W) l' : rejected_ok c l → (∀ r, o = Some r → ∀ t, r ≠ config_path_of c t) →
  record_rejected owned c l o s = (s', Ok l') →
  rejected_ok c l' ∧ logs s' = logs s ∧ published s' = published s
  ∧ ∀ t, configs s' !! config_path_of c t = configs s !! config_path_of c t.
Proof.
  intros (Hn & Hl & Hp) Ho H. unfold record_rejected in H. destruct o as [r|]; [|by injection H as <- <-].
  case_bool_decide as Hin; [by injection H as <- <-|].
  assert (Hc : NoDup (l ++ [r])).
  { apply NoDup_app. split_and!; [done| |apply NoDup_singleton]. intros x Hx ->%list_elem_of_singleton. done. }
  assert (Hx : ∀ x t, x ∈ l ++ [r] → x ≠ config_path_of c t).
  { intros x t [Hx|Hx]%elem_of_app; [by apply Hp|]. apply list_elem_of_singleton in Hx as ->. by apply Ho. }
  apply st_bind_ok in H as (s1 & [] & [= <-] & [= <- <-]). cbn. split_and!; [|done..|].
  - split_and!; [eapply sublist_NoDup; [exact Hc|apply retain_sublist]|apply retain_length|].
    intros x t Hx'. apply Hx. by eapply elem_of_sublist; [|apply retain_sublist].
  - intros t. set (dropped := List.filter _ _).
    assert (Hd : config_path_of c t ∉ dropped).
    { intros [Hd _]%list_elem_of_In%filter_In. apply list_elem_of_In in Hd. by apply (Hx _ t Hd). }
    clearbody dropped. induction dropped as [|x d IH]; [done|]. cbn. rewrite lookup_delete_ne by set_solver. apply IH. set_solver.
Qed.

Lemma size_of_app a b : size_of (a +:+ b)%string = size_of a + size_of b.
Proof. unfold size_of. rewrite <- Nat2Z.inj_add. f_equal. induction a as [|x a IH]; [done|].
  change (S (String.length (a +:+ b)) = S (String.length a + String.length b)). by rewrite IH. Qed.

(** After a write the log holds what the reported size says. *)
Definition log_holds (c : StressConfig) (s : Store W) (path : option string) (size : Z) : Prop :=
  path = Some (stress_log c) ∧ ∃ text, logs s !! stress_log c = Some text ∧ size_of text = size.

Lemma write_stress_log_ok c part append (s s' : Store W) path size :
  write_stress_log log_write c part append s = (s', Ok (path, size)) →
  configs s' = configs s ∧ published s' = published s ∧ log_holds c s' (Some path) size.
Proof.
  intros H. unfold write_stress_log, log_outcome, mbind, st_bind in H. cbn in H. destruct append.
  - destruct (logs s !! stress_log c) as [prev|]; [|done]. cbn in H. destruct (log_write (world s)) as [w o].
    destruct o as [|kept]; [|done]. injection H as <- <- <-. split_and!; [done..|].
    split; [done|]. eexists. split; [apply lookup_insert_eq|]. by rewrite size_of_app.
  - cbn in H. destruct (log_write (world s)) as [w o]. destruct o as [|[]]; try done.
    injection H as <- <- <-. split_and!; [done..|]. split; [done|]. eexists. split; [apply lookup_insert_eq|done].
Qed.

Lemma log_attempt_ok c b targets p log (s s' : Store W) p' : log_attempt log_write on_progress c b targets p log s = (s', Ok p') →
  ∃ size, p' = logged p (stress_log c) size ∧ configs s' = configs s
  ∧ log_holds c s' (Some (stress_log c)) size
  ∧ published s' = published s ++ [result_of c b targets p' (Some (stress_log c))].
Proof.
  unfold log_attempt. destruct (write_stress_log _ _ _ _ _) as [s1 [[path size]|e]] eqn:Ew.
  2: { by intros (s2 & [] & _ & ?)%st_bind_ok. }
  destruct (write_stress_log_ok _ _ _ _ _ _ _ Ew) as (Hc & Hp & [= ->] & Ht).
  intros (s2 & [] & H2 & [= <- <-])%st_bind_ok. unfold publish in H2.
  destruct (on_progress _ _ _ _) as [w [e|]]; [done|]. injection H2 as <-.
  exists size. cbn. split_and!; [done|done|by split|by rewrite Hp].
Qed.

(** ** The loop *)


(** The counts of a progress fit together. *)
Definition counts_ok (p : Progress) : Prop :=
  0 ≤ p_completed p ∧ 0 ≤ p_infra_errors p ∧ 0 ≤ p_timed_out p ∧ 0 ≤ p_hangs p ≤ attempted p
  ∧ 0 ≤ p_reproductions p ∧ 0 ≤ p_unattributed p ∧ p_reproductions p + p_unattributed p ≤ p_completed p
  ∧ (p_triggering p ≠ None ↔ 0 < p_reproductions p).

(** The invariant of the loop, after the trials [done_]. *)
Definition progress_inv (c : StressConfig) (done_ : list Trial) (s : Store W) (p : Progress) : Prop :=
  counts_ok p ∧ rejected_ok c (p_rejected p)
  ∧ (∀ tc, p_triggering p = Some tc → ∃ t w, t ∈ done_ ∧ evidence c t tc w s)
  ∧ (p_log_path p = None ∨ log_holds c s (p_log_path p) (p_log_size p))
  ∧ (p_stop p = true ↔ stop_on_first c = true ∧ p_triggering p ≠ None)
  ∧ (0 < attempted p → p_log_path p ≠ None).

(** No later attempt writes to the file of an earlier one. *)
Definition files_kept (c : StressConfig) (schedule : list Trial) : Prop :=
  stop_on_first c = true ∨ NoDup (config_path_of c <$> schedule).

Lemma evidence_config_path c t tc w s : evidence c t tc w s → config_path tc = config_path_of c t.
Proof. by intros (w' & r & hung & name & checksum & n & file & _ & _ & -> & _). Qed.

Lemma evidence_keep c t tc w s s' : configs s' !! config_path_of c t = configs s !! config_path_of c t →
  evidence c t tc w s → evidence c t tc w s'.
Proof.
  intros E (w' & r & hung & name & checksum & n & file & H1 & H2 & H3 & H4 & H5 & H6 & H7).
  exists w', r, hung, name, checksum, n, file. split_and!; try done. by rewrite E.
Qed.

Lemma evidence_file c t tc w s : evidence c t tc w s → configs s !! config_path_of c t ≠ None.
Proof. intros (w' & r & hung & name & checksum & n & file & _ & _ & _ & _ & _ & H & _). by rewrite H. Qed.

(** One step of the loop, taken apart. *)
Lemma search_step_ok c b targets p t s s' p' : fresh_names c → rejected_ok c (p_rejected p) →
  search_step c b targets p t s = (s', Ok p') →
  ∃ o s1 size rejected, run_attempt c t s = (s1, Ok o) ∧ attempt_post c t (config_path_of c t) (world s) s s1 o
  ∧ rejected_ok c rejected ∧ p' = logged (count_attempt c p o rejected) (stress_log c) size
  ∧ (∀ u, configs s' !! config_path_of c u = configs s1 !! config_path_of c u)
  ∧ log_holds c s' (Some (stress_log c)) size
  ∧ published s' = published s ++ [result_of c b targets p' (Some (stress_log c))].
Proof.
  intros Hf Hr H. apply st_bind_ok in H as (s1 & o & Ho & H). pose proof (run_attempt_post c t s s1 o Hf Ho) as Hpost.
  destruct Hpost as (Hc & (Hl & Hp & Hfr & Hrej) & Hev).
  apply st_bind_ok in H as (s2 & rejected & Hrec & H).
  destruct (record_rejected_ok c _ _ _ _ _ Hr Hrej Hrec) as (Hr' & Hl2 & Hp2 & Hc2).
  apply log_attempt_ok in H as (size & -> & Hc3 & Hlog & Hpub).
  exists o, s1, size, rejected. split_and!; [done|by split_and!|done|done| |done|].
  - intros u. by rewrite Hc3.
  - rewrite Hpub. by rewrite Hp2, Hp.
Qed.

Lemma search_step_inv c b targets p done_ t s s' p' : fresh_names c → files_kept c (done_ ++ [t]) → p_stop p = false →
  progress_inv c done_ s p → search_step c b targets p t s = (s', Ok p') →
  progress_inv c (done_ ++ [t]) s' p' ∧ attempted p' = attempted p + 1.
Proof.
  intros Hf Hk Hstop (Hcnt & Hrej & Htrig & Hlog & Hst & Hatt) H.
  destruct (search_step_ok c b targets p t s s' p' Hf Hrej H) as (o & s1 & size & rejected & _ & Hpost & Hr' & -> & Hcf & Hlg & _).
  destruct Hpost as (Hc & (_ & _ & Hfr & _) & Hev).
  unfold progress_inv, counted_once, counts_ok, attempted in *. cbn.
  assert (Hone : p_completed p + ar_completed o + (p_infra_errors p + ar_infra_errors o) + (p_timed_out p + ar_timed_out o)
    = p_completed p + p_infra_errors p + p_timed_out p + 1) by lia.
  assert (Htr : (match p_triggering p with Some t => Some t | None => ar_triggering o end) ≠ None
                ↔ p_triggering p ≠ None ∨ ar_triggering o ≠ None) by (destruct (p_triggering p); naive_solver).
  split; [|done]. split_and!; try lia; try done.
  - rewrite Htr. destruct Hcnt as (_ & _ & _ & _ & ? & _ & _ & ->). destruct Hc as (_ & _ & _ & _ & _ & ? & _ & _ & ->). lia.
  - intros tc Htc. destruct (p_triggering p) as [tc'|] eqn:Et.
    + injection Htc as ->. destruct (Htrig _ eq_refl) as (u & w & Hu & He). exists u, w. split; [apply elem_of_app; by left|].
      eapply evidence_keep; [|exact He]. rewrite Hcf. apply Hfr; [|by eapply evidence_file].
      destruct Hk as [Hk|Hk]; [destruct Hst as [_ Hst]; rewrite Hst in Hstop; [done|by rewrite Hk]|].
      intros E. rewrite fmap_app in Hk. apply NoDup_app in Hk as (_ & Hd & _).
      apply (Hd (config_path_of c u)); [by apply list_elem_of_fmap_2|]. rewrite E. by left.
    + exists t, (world s). split; [apply elem_of_app; right; by left|]. eapply evidence_keep; [apply Hcf|]. by apply Hev.
  - by right.
  - rewrite Hstop, orb_false_l, andb_true_iff, bool_decide_eq_true, Htr. split; [intros [? ?]; auto|].
    intros [Hs [Ht|Ht]]; [|done]. rewrite (proj2 Hst) in Hstop; [done|]. by split.
Qed.

Lemma search_stopped c b targets p trials s : p_stop p = true → search c b targets p trials s = (s, Ok p).
Proof. intros H. destruct trials as [|t l]; [done|]. cbn. by rewrite H. Qed.

Lemma search_app c b targets p l1 l2 s :
  search c b targets p (l1 ++ l2) s = (p' ← search c b targets p l1; search c b targets p' l2) s.
Proof.
  revert p s. induction l1 as [|t l1 IH]; intros p s; [done|]. cbn [app StressSearch.search].
  destruct (p_stop p) eqn:E.
  - unfold mbind, st_bind. cbn. by rewrite search_stopped.
  - unfold mbind, st_bind. destruct (search_step c b targets p t s) as [s1 [p1|e]]; [|done].
    specialize (IH p1 s1). unfold mbind, st_bind in IH. exact IH.
Qed.

(** The loop stops early or makes every attempt; the invariant holds throughout. *)
Lemma search_inv c b targets trials : ∀ done_ p s s' p', fresh_names c → files_kept c (done_ ++ trials) →
  progress_inv c done_ s p → search c b targets p trials s = (s', Ok p') →
  ∃ k, (k ≤ length trials)%nat ∧ progress_inv c (done_ ++ take k trials) s' p'
       ∧ attempted p' = attempted p + Z.of_nat k ∧ (k = length trials ∨ p_stop p' = true).
Proof.
  induction trials as [|t l IH]; intros done_ p s s' p' Hf Hk Hi H; cbn [StressSearch.search] in H.
  - injection H as <- <-. exists 0%nat. rewrite take_nil, app_nil_r. split_and!; [lia|done|lia|by left].
  - destruct (p_stop p) eqn:E.
    { injection H as <- <-. exists 0%nat. rewrite take_0, app_nil_r. split_and!; [lia|done|lia|by right]. }
    apply st_bind_ok in H as (s1 & p1 & H1 & H).
    assert (Hk1 : files_kept c (done_ ++ [t])).
    { destruct Hk as [Hk|Hk]; [by left|right]. rewrite cons_middle, app_assoc, fmap_app in Hk. by apply NoDup_app in Hk as (? & _). }
    destruct (search_step_inv c b targets p done_ t s s1 p1 Hf Hk1 E Hi H1) as [Hi1 Ha].
    rewrite cons_middle, app_assoc in Hk. destruct (IH _ _ _ _ _ Hf Hk Hi1 H) as (k & Hl & Hi' & Ha' & Hor).
    exists (S k). cbn. rewrite cons_middle, app_assoc. split_and!; [lia|done|lia|]. destruct Hor; [left; lia|by right].
Qed.

(** A file that was there, of a trial that does not come again, stays; and the
    first configuration found stays the one reported. *)
Lemma search_keeps c b targets trials t : ∀ p s s' p', fresh_names c → rejected_ok c (p_rejected p) →
  p_stop p = true ∨ config_path_of c t ∉ config_path_of c <$> trials →
  configs s !! config_path_of c t ≠ None → search c b targets p trials s = (s', Ok p') →
  configs s' !! config_path_of c t = configs s !! config_path_of c t
  ∧ (∀ tc, p_triggering p = Some tc → p_triggering p' = Some tc).
Proof.
  induction trials as [|u l IH]; intros p s s' p' Hf Hr Hk Hn H; cbn [StressSearch.search] in H; [by injection H as <- <-|].
  destruct (p_stop p) eqn:E; [by injection H as <- <-|]. destruct Hk as [?|Hk]; [done|].
  apply not_elem_of_cons in Hk as [Hu Hk].
  apply st_bind_ok in H as (s1 & p1 & H1 & H).
  destruct (search_step_ok c b targets p u s s1 p1 Hf Hr H1)
    as (o & s2 & size & rejected & _ & (_ & (_ & _ & Hfr & _) & _) & Hr' & Ep1 & Hcf & _).
  assert (Hs1 : configs s1 !! config_path_of c t = configs s !! config_path_of c t) by (rewrite Hcf; by apply Hfr).
  assert (Hr1 : rejected_ok c (p_rejected p1)) by (by rewrite Ep1).
  destruct (IH p1 s1 s' p' Hf Hr1 ltac:(by right) ltac:(by rewrite Hs1) H) as [Hc Ht]. split; [congruence|].
  intros tc Htc. apply Ht. rewrite Ep1. cbn. by rewrite Htc.
Qed.

(** The configuration found is what some attempt of the loop gave, and its
    evidence stays to the end. *)
Lemma search_finds c b targets trials : ∀ p s s' p' tc, fresh_names c → files_kept c trials →
  rejected_ok c (p_rejected p) → p_triggering p = None →
  search c b targets p trials s = (s', Ok p') → p_triggering p' = Some tc →
  ∃ k t sk pk, trials !! k = Some t ∧ search c b targets p (take k trials) s = (sk, Ok pk)
    ∧ p_triggering pk = None ∧ p_stop pk = false ∧ evidence c t tc (world sk) s'.
Proof.
  induction trials as [|t l IH]; intros p s s' p' tc Hf Hk Hr Hp H Htc; cbn [StressSearch.search] in H.
  { injection H as <- <-. congruence. }
  destruct (p_stop p) eqn:E; [injection H as <- <-; congruence|].
  apply st_bind_ok in H as (s1 & p1 & H1 & H).
  destruct (search_step_ok c b targets p t s s1 p1 Hf Hr H1)
    as (o & s2 & size & rejected & _ & (_ & _ & Hev) & Hr' & Ep1 & Hcf & _).
  assert (Ht1 : p_triggering p1 = ar_triggering o) by (rewrite Ep1; cbn; by rewrite Hp).
  assert (Hrj : p_rejected p1 = rejected) by (by rewrite Ep1).
  destruct (ar_triggering o) as [tc'|] eqn:Eo.
  - exists 0%nat, t, s, p. rewrite take_0. specialize (Hev tc' eq_refl).
    assert (Hk' : p_stop p1 = true ∨ config_path_of c t ∉ config_path_of c <$> l).
    { destruct Hk as [Hs|Hnd]; [left|right; by apply NoDup_cons in Hnd as [? _]].
      rewrite Ep1. cbn. by rewrite Eo, Hs, orb_true_r. }
    apply (evidence_keep _ _ _ _ s2 s1) in Hev; [|by rewrite Hcf].
    destruct (search_keeps c b targets l t p1 s1 s' p' Hf ltac:(by rewrite Hrj) Hk' (evidence_file _ _ _ _ _ Hev) H)
      as [Hc Ht]. rewrite (Ht tc' Ht1) in Htc. injection Htc as <-.
    split_and!; [done|done|done|done|]. by eapply evidence_keep.
  - assert (Hk1 : files_kept c l) by (destruct Hk as [|Hnd]; [by left|right; by apply NoDup_cons in Hnd as [_ ?]]).
    destruct (IH p1 s1 s' p' tc Hf Hk1 ltac:(by rewrite Hrj) Ht1 H Htc) as (k & u & sk & pk & Hl & Hs & Hn & Hst & He).
    exists (S k), u, sk, pk. split_and!; [done| |done|done|done]. cbn [take StressSearch.search]. rewrite E.
    unfold mbind, st_bind. by rewrite H1.
Qed.

(** ** Accounting *)






(** ** The start of a search that does not resume *)

Lemma unique_rejected l : NoDup l → first_seen l = l.
Proof.
  intros H. unfold first_seen. assert (E : remove_dups (rev l) = rev l).
  { assert (Hn : NoDup (rev l)) by (apply NoDup_ListNoDup, List.NoDup_rev; by apply NoDup_ListNoDup). revert Hn. generalize (rev l).
    induction 1 as [|x k Hx _ IH]; [done|]. cbn. destruct (decide_rel _ x k); [done|]. by rewrite IH. }
  by rewrite E, rev_involutive.
Qed.

Lemma bounded_rejected_id c l (s : Store W) : NoDup l → (length l ≤ 16)%nat → bounded_rejected owned c l s = (s, Ok l).
Proof.
  intros Hn Hl. unfold bounded_rejected, mbind, st_bind. cbn. rewrite (unique_rejected l Hn), (retain_small l Hl).
  assert (E : List.filter (λ p, negb (bool_decide (p ∈ l)) && owned p (output_dir c)) l = []).
  { enough (∀ k, k ⊆ l → List.filter (λ p, negb (bool_decide (p ∈ l)) && owned p (output_dir c)) k = []) by auto.
    induction k as [|x k IH]; intros Hk; [done|]. cbn. rewrite bool_decide_true by (apply Hk; by left). cbn.
    apply IH. intros y Hy. apply Hk. by right. }
  rewrite E. cbn. by destruct s.
Qed.

Lemma bind_state {A B} (m : st (Store W) exn A) (k : A → st (Store W) exn B) s s1 a :
  m s = (s1, Ok a) → (m ≫= k) s = k a s1.
Proof. intros H. unfold mbind, st_bind. by rewrite H. Qed.

Lemma start_fresh c s s1 b targets p : resume_result c = None → start c s = (s1, Ok (b, targets, p)) →
  progress_inv c [] s1 p ∧ plan_targets c b = Ok targets
  ∧ (∃ s0, run_baseline target_run loads c s = (s0, Ok b))
  ∧ ∃ path size, p = mkProgress 0 0 0 0 0 0 None [] path size false.
Proof.
  intros Hn H. unfold StressSearch.start in H. rewrite Hn in H.
  apply st_bind_ok in H as (s2 & b' & Hb & H).
  rewrite (bind_state _ _ _ s2 []) in H by (apply bounded_rejected_id; [constructor|cbn; lia]).
  apply st_bind_ok in H as (s3 & targets' & Ht & H). injection Ht as <- Ht.
  assert (Hi : ∀ path size, initial_progress c [] path size = mkProgress 0 0 0 0 0 0 None [] path size false)
    by (intros; unfold initial_progress; by rewrite Hn).
  rewrite (bind_state _ _ _ s2 ()) in H by done. rewrite (bind_state _ _ _ s2 s2) in H by done. cbv zeta in H.
  rewrite Hi in H. apply st_bind_ok in H as (s4 & [] & H4 & H). injection H4 as <- _.
  apply st_bind_ok in H as (s5 & [path size] & H5 & H). injection H5 as <- <- <-.
  apply st_bind_ok in H as (s6 & [path size] & H6 & H). injection H as <- <- <- <-. rewrite Hi.
  split_and!; [|done|eauto|eauto].
  assert (Hlog : path = None ∨ log_holds c s6 path size).
  { destruct (br_logs b') as [|l ls]; [injection H6 as _ <- _; by left|].
    apply st_bind_ok in H6 as (s7 & [path' size'] & Hw & [= <- <- <-]). right. by apply write_stress_log_ok in Hw as (_ & _ & Hw). }
  unfold progress_inv, counts_ok, attempted. cbn. split_and!; try lia; try done.
  - split_and!; [constructor|cbn; lia|]. intros x t Hx. by apply elem_of_nil in Hx.
  - split; [done|]. intros [_ Hne]. by destruct Hne.
Qed.

(** ** Resuming *)

(** The configuration of a search that resumes from [r]. *)
Definition resume (c : StressConfig) (r : StressResult) : StressConfig :=
  mkStressConfig (delay_ladder_ns c) (enable_prob c) (warpgroup_ids c) (attempts_per_delay c) (stop_on_first c)
    (not_interesting_exit_codes c) (kernel_filters c) (baseline_runs c) (output_dir c) (kernel_timeout_s c)
    (hang_is_bug c) (strategy c) (isolate_ranks c) (isolate_warps c) (delay_patterns c) (Some r)
    (expected_kernel_name c) (expected_kernel_checksum c).

(** Targets that do not have to be discovered again. *)
Definition explicit_targets (c : StressConfig) : Prop :=
  is_isolate c = true → isolate_ranks c ≠ None ∧ isolate_warps c ≠ None.

Lemma plan_targets_explicit c b b' targets r : explicit_targets c → plan_targets c b = Ok targets →
  plan_targets (resume c r) b' = Ok targets.
Proof.
  intros He H. unfold plan_targets in *. change (is_isolate (resume c r)) with (is_isolate c).
  destruct (is_isolate c) eqn:Ei; [|done]. destruct (He Ei) as [Hr Hw]. cbn in *.
  unfold isolate_targets in *. cbn. destruct (isolate_ranks c); [|done]. destruct (isolate_warps c); [|done].
  cbn in *. destruct (bool_decide _ && _); [done|]. exact H.
Qed.

Lemma json_eqb_targets (l : list DelayTarget) :
  json_eqb (JList (JObj <$> (target_to_dict <$> l))) (JList (JObj <$> (target_to_dict <$> l))) = true.
Proof.
  cbn. induction l as [|t l IH]; [done|]. cbn [fmap list_fmap]. rewrite IH, andb_true_r.
  unfold target_to_dict. generalize (warp_mask t). intros m.
  destruct t as [w [r|]]; cbn; rewrite ?Z.eqb_refl, bool_decide_true by done; done.
Qed.

(** The loop uses neither the resumed result nor what the control runs logged. *)
Lemma search_resumed c r b b' targets trials : (∀ p path, result_of c b' targets p path = result_of c b targets p path) →
  ∀ p s, search (resume c r) b' targets p trials s = search c b targets p trials s.
Proof.
  intros Hr. assert (Hl : ∀ p log s, log_attempt log_write on_progress (resume c r) b' targets p log s
                                   = log_attempt log_write on_progress c b targets p log s).
  { intros p log s. unfold log_attempt.
    change (write_stress_log log_write (resume c r)) with (write_stress_log log_write c).
    destruct (write_stress_log _ _ _ _ _) as [s1 [[path size]|e]];
      change (result_of (resume c r)) with (result_of c); by rewrite Hr. }
  assert (Hs : ∀ p t s, search_step (resume c r) b' targets p t s = search_step c b targets p t s).
  { intros p t s. unfold StressSearch.search_step, mbind, st_bind.
    change (run_attempt (resume c r)) with (run_attempt c). destruct (run_attempt c t s) as [s1 [o|e]]; [|done].
    change (@record_rejected W owned (resume c r)) with (@record_rejected W owned c).
    destruct (record_rejected owned c _ _ s1) as [s2 [l|e]]; [|done].
    change (count_attempt (resume c r)) with (count_attempt c). apply Hl. }
  induction trials as [|t l IH]; intros p s; [done|]. cbn [StressSearch.search]. destruct (p_stop p); [done|].
  unfold mbind, st_bind. rewrite Hs. destruct (search_step c b targets p t s) as [s1 [p1|e]]; [apply IH|done].
Qed.

Lemma prefix_all s : prefix_of s (size_of s) = s.
Proof.
  unfold prefix_of, size_of. rewrite Nat2Z.id. induction s as [|x s IH]; [done|]. cbn. by rewrite IH.
Qed.

Lemma stop_iff c (stop : bool) (t : option TriggeringConfig) :
  (stop = true ↔ stop_on_first c = true ∧ t ≠ None) → stop = bool_decide (t ≠ None) && stop_on_first c.
Proof.
  intros H. apply eq_true_iff_eq. rewrite andb_true_iff, bool_decide_eq_true, H. tauto.
Qed.

Lemma progress_ok_inv p planned present path size : counts_ok p → attempted p ≤ planned →
  (p_triggering p ≠ None → present = true) →
  progress_ok (mkProgress (p_completed p) (p_reproductions p) (p_infra_errors p) (p_timed_out p) (p_hangs p)
    (p_unattributed p) (p_triggering p) (p_rejected p) path size (p_stop p)) planned present = true.
Proof.
  intros (H1 & H2 & H3 & _ & H5 & H6 & H7 & H8) Ha Hp. unfold progress_ok, attempted in *. cbn.
  apply andb_true_intro. split; [apply andb_true_intro; split; apply negb_true_iff; lia|].
  destruct (p_triggering p) as [tc|].
  - rewrite Hp by done. assert (0 < p_reproductions p) by (by apply H8). rewrite andb_true_r. apply negb_true_iff. lia.
  - apply negb_true_iff, Z.ltb_ge. destruct (Z.le_gt_cases (p_reproductions p) 0); [done|]. by destruct (proj2 H8).
Qed.

Lemma prepare_resumed c (s : Store W) r text : 0 < completed_trials r + infra_errors r + timed_out r →
  log_path r = Some (stress_log c) → logs s !! stress_log c = Some text → log_size_bytes r = Some (size_of text) →
  prepare_stress_log (resume c r) (Some r) s = (s, Ok (Some (stress_log c), size_of text)).
Proof.
  intros Ha Hp Ht Hs. unfold prepare_stress_log. destruct (Z.eqb_spec (completed_trials r + infra_errors r + timed_out r) 0); [lia|].
  rewrite Hp, Hs. rewrite (bind_state _ _ s s s) by done. rewrite Ht. change (default (size_of text) (Some (size_of text))) with (size_of text). cbv zeta.
  assert (0 ≤ size_of text) by (unfold size_of; lia).
  destruct (Z.ltb_spec (size_of text) 0); [lia|]. rewrite Z.ltb_irrefl. cbn [orb].
  change (stress_log (resume c r)) with (stress_log c). unfold set_logs, mbind, st_bind. cbn.
  rewrite prefix_all, insert_id by done. by destruct s.
Qed.

(** A resumed search starts where the reported progress was. *)
Lemma start_resumed c s b targets p done_ path : explicit_targets c → plan_targets c b = Ok targets →
  progress_inv c done_ s p → p_log_path p = Some path → 0 < attempted p ≤ Z.of_nat (length (trial_schedule c targets)) →
  let r := result_of c b targets p (Some path) in
  start (resume c r) s = (s, Ok (baseline_of_result r, targets, p)).
Proof.
  intros He Ht (Hc & (Hn & Hl & Hp) & Htr & Hlog & Hst & _) Hpath Ha r.
  destruct Hlog as [Hlog|[Hlog (text & Htext & Hsize)]]; [congruence|]. rewrite Hpath in Hlog. injection Hlog as ->.
  unfold StressSearch.start. change (resume_result (resume c r)) with (Some r). cbv iota.
  rewrite (bind_state _ _ s s (baseline_of_result r)) by done.
  change (@bounded_rejected W owned (resume c r)) with (@bounded_rejected W owned c).
  rewrite (bind_state _ _ s s (p_rejected p)) by by apply bounded_rejected_id.
  rewrite (plan_targets_explicit c b _ targets r He Ht). rewrite (bind_state _ _ s s targets) by done.
  assert (Hsame : same_plan (resume c r) targets r = true).
  { unfold same_plan. subst r. cbn [sr_delay_ladder_ns sr_attempts_per_delay sr_targets result_of].
    rewrite json_eqb_targets, orb_true_r. change (delay_ladder_ns (resume c _)) with (delay_ladder_ns c).
    change (attempts_per_delay (resume c _)) with (attempts_per_delay c).
    by rewrite bool_decide_true, Z.eqb_refl. }
  rewrite Hsame. rewrite (bind_state _ _ s s ()) by done. rewrite (bind_state _ _ s s s) by done. cbv zeta.
  assert (Hinit : ∀ path size, initial_progress (resume c r) (p_rejected p) path size
    = mkProgress (p_completed p) (p_reproductions p) (p_infra_errors p) (p_timed_out p) (p_hangs p)
        (p_unattributed p) (p_triggering p) (p_rejected p) path size (p_stop p)).
  { intros. unfold initial_progress. subst r. cbn. f_equal. symmetry. apply (stop_iff c _ _ Hst). }
  rewrite Hinit. cbn [p_triggering].
  assert (Hcheck : ∀ present, (p_triggering p ≠ None → present = true) →
    progress_ok (mkProgress (p_completed p) (p_reproductions p) (p_infra_errors p) (p_timed_out p) (p_hangs p)
        (p_unattributed p) (p_triggering p) (p_rejected p) None 0 (p_stop p))
      (Z.of_nat (length (trial_schedule (resume c r) targets))) present = true).
  { intros present Hpres. change (trial_schedule (resume c r) targets) with (trial_schedule c targets).
    apply progress_ok_inv; [done|lia|done]. }
  rewrite Hcheck.
  2: { intros Hne. destruct (p_triggering p) as [tc|]; [|done]. apply bool_decide_eq_true.
       destruct (Htr tc eq_refl) as (t & w & _ & Hev). rewrite (evidence_config_path _ _ _ _ _ Hev). by eapply evidence_file. }
  rewrite (bind_state _ _ s s ()) by done.
  rewrite (bind_state _ _ s s (Some (stress_log c), p_log_size p)).
  2: { rewrite <- Hsize. apply prepare_resumed; [|done|done|].
       - unfold attempted in Ha. subst r. cbn. lia.
       - subst r. cbn. by rewrite Hsize. }
  cbn [br_logs baseline_of_result]. rewrite (bind_state _ _ s s (Some (stress_log c), p_log_size p)) by done.
  rewrite Hinit. do 3 f_equal. rewrite <- Hpath. by destruct p.
Qed.

(** The rest of a search, from a progress it reported. *)
Lemma search_rest c b targets s1 p k sk pk : fresh_names c → files_kept c (trial_schedule c targets) →
  progress_inv c [] s1 p → attempted p = 0 → search c b targets p (take k (trial_schedule c targets)) s1 = (sk, Ok pk) →
  (∃ done_, progress_inv c done_ sk pk) ∧ attempted pk ≤ Z.of_nat (length (trial_schedule c targets))
  ∧ search c b targets p (trial_schedule c targets) s1
    = search c b targets pk (drop (Z.to_nat (attempted pk)) (trial_schedule c targets)) sk.
Proof.
  intros Hf Hk Hi Ha H. set (sched := trial_schedule c targets) in *.
  assert (Hk' : files_kept c ([] ++ take k sched)).
  { destruct Hk as [Hk|Hk]; [by left|right]. eapply sublist_NoDup; [exact Hk|]. apply fmap_sublist, sublist_take. }
  destruct (search_inv c b targets _ _ _ _ _ _ Hf Hk' Hi H) as (j & Hj & Hij & Haj & Hor).
  rewrite length_take in Hj. split_and!; [eauto|lia|].
  rewrite <- (take_drop k sched) at 1. rewrite search_app. unfold mbind, st_bind. rewrite H.
  destruct Hor as [Hor|Hor]; [|by rewrite !search_stopped].
  rewrite length_take in Hor. rewrite Haj, Ha, Nat2Z.id || (replace (Z.to_nat (attempted pk)) with j by lia).
  destruct (Nat.le_gt_cases k (length sched)).
  - by replace j with k by lia.
  - replace j with (length sched) by lia. by rewrite drop_ge, (drop_ge sched (length sched)) by lia.
Qed.

(** The last progress reported is the one the loop continues from. *)
Lemma search_published c b targets trials : ∀ p s s' p', fresh_names c → rejected_ok c (p_rejected p) →
  search c b targets p trials s = (s', Ok p') →
  (s' = s ∧ p' = p) ∨ last (published s') = Some (result_of c b targets p' (p_log_path p')).
Proof.
  induction trials as [|t l IH]; intros p s s' p' Hf Hr H; cbn [StressSearch.search] in H; [injection H as <- <-; by left|].
  destruct (p_stop p); [injection H as <- <-; by left|]. right.
  apply st_bind_ok in H as (s1 & p1 & H1 & H).
  destruct (search_step_ok c b targets p t s s1 p1 Hf Hr H1) as (o & s2 & size & rejected & _ & _ & Hr1 & E & _ & _ & Hpub).
  assert (Hr1' : rejected_ok c (p_rejected p1)) by by rewrite E.
  destruct (IH p1 s1 s' p' Hf Hr1' H) as [[-> ->]|Hl]; [|done].
  rewrite Hpub, last_snoc. by rewrite E.
Qed.

(** Delays and warpgroups that are not repeated keep the files apart; stopping at
    the first reproduction leaves nothing to run after it. *)
Definition unrepeated (c : StressConfig) : Prop :=
  stop_on_first c = true ∨ NoDup (delay_ladder_ns c) ∧ NoDup (warpgroup_ids c).

Lemma path_join_inj d a b : path_join d a = path_join d b → a = b.
Proof.
  unfold path_join. intros H. apply chars_inj. apply (f_equal chars) in H. destruct (_ || _).
  - rewrite !chars_app in H. by apply app_inv_head in H.
  - rewrite !chars_app in H. by apply app_inv_head, app_inv_head in H.
Qed.

Lemma unrepeated_files c b targets : config_ok c = true → unrepeated c → plan_targets c b = Ok targets →
  files_kept c (trial_schedule c targets).
Proof.
  intros Hc [Hu|[Hd Hg]] Ht; [by left|right]. unfold config_path_of.
  assert (Hn : NoDup (attempt_config_name <$> trial_schedule c targets)).
  { apply schedule_names_NoDup; [done| |done..]. intros Hi. unfold plan_targets in Ht. rewrite Hi in Ht.
    destruct (_ && _); [done|]. by eapply isolate_targets_ok. }
  change ((λ t, path_join (output_dir c) (attempt_config_name t)) <$> trial_schedule c targets)
    with ((path_join (output_dir c) ∘ attempt_config_name) <$> trial_schedule c targets).
  rewrite list_fmap_compose. apply NoDup_fmap_2; [|done]. intros x y. apply path_join_inj.
Qed.

(** ** What a search guarantees *)


(** C28: the configuration a search names is evidence: some attempt of the
    schedule, the first to find one, started when those before it had been made;
    the run it made then dumped a file, and that file is what the named path
    holds when the search ends, with enabled points of exactly that attempt's
    delay in the expected kernel; in that run the oracle reported the bug (or
    CUTracer ended a hang that counts as one), and some launch of the kernel has
    the warps that were targeted.  A file left from before is never evidence. *)
Theorem triggering_is_evidence c s s' r tc : config_ok c = true → fresh_names c → unrepeated c → resume_result c = None →
  run_stress c s = (s', Ok r) → triggering r = Some tc →
  ∃ b targets p0 s1 k t sk pk,
    start c s = (s1, Ok (b, targets, p0)) ∧ trial_schedule c targets !! k = Some t
    ∧ search c b targets p0 (take k (trial_schedule c targets)) s1 = (sk, Ok pk) ∧ p_triggering pk = None
    ∧ evidence c t tc (world sk) s' ∧ config_path tc = config_path_of c t
    ∧ ∃ n, tc_enabled_point_count tc = Some n ∧ 1 ≤ n.
Proof.
  intros Hc Hf Hu Hn H Ht. apply st_bind_ok in H as (s1 & [[b targets] p] & Hs & H).
  destruct (start_fresh c s s1 b targets p Hn Hs) as (Hi & Hpl & _ & path & size & Ep).
  apply st_bind_ok in H as (s2 & p' & Hp & [= <- <-]).
  assert (attempted p = 0) as Ha by (by rewrite Ep). rewrite Ha, drop_0 in Hp.
  destruct Hi as (_ & Hr & _).
  destruct (search_finds c b targets _ _ _ _ _ tc Hf (unrepeated_files c b targets Hc Hu Hpl) Hr ltac:(by rewrite Ep) Hp Ht)
    as (k & t & sk & pk & Hk & Hsk & Hno & _ & He).
  exists b, targets, p, s1, k, t, sk, pk. split_and!; [done|done|done|done|done|by eapply evidence_config_path|].
  destruct He as (w' & q & hung & name & checksum & n & file & _ & _ & -> & _ & _ & _ & Hv). exists n. split; [done|].
  by apply validate_delay_config_sound in Hv as [Hv _].
Qed.

(** C27: interrupting a search is harmless: started again from the progress that
    was reported last, on the files of that moment, it makes the attempts that
    are left and ends, in every detail, as the search that was not interrupted. *)
Theorem resume_is_exact c s s1 b targets p k sk pk : config_ok c = true → fresh_names c → unrepeated c →
  explicit_targets c → resume_result c = None → start c s = (s1, Ok (b, targets, p)) →
  search c b targets p (take k (trial_schedule c targets)) s1 = (sk, Ok pk) → 0 < attempted pk →
  ∃ r, last (published sk) = Some r ∧ run_stress (resume c r) sk = run_stress c s.
Proof.
  intros Hc Hf Hu He Hn Hs Hk Ha. destruct (start_fresh c s s1 b targets p Hn Hs) as (Hi & Hpl & _ & path & size & Ep).
  pose proof (unrepeated_files c b targets Hc Hu Hpl) as Hfiles.
  assert (Ha0 : attempted p = 0) by by rewrite Ep.
  destruct (search_rest c b targets s1 p k sk pk Hf Hfiles Hi Ha0 Hk) as ((done_ & Hik) & Hle & Hrest).
  assert (Hlogp : p_log_path pk ≠ None) by (by apply Hik). destruct (p_log_path pk) as [lp|] eqn:Elp; [|done].
  exists (result_of c b targets pk (Some lp)). split.
  - destruct (search_published c b targets _ _ _ _ _ Hf (proj1 (proj2 Hi)) Hk) as [[_ E]|E]; [rewrite E in Ha; lia|].
    by rewrite Elp in E.
  - unfold StressSearch.run_stress.
    rewrite (bind_state _ _ _ _ _ (start_resumed c sk b targets pk done_ lp He Hpl Hik Elp ltac:(lia))).
    rewrite (bind_state _ _ _ _ _ Hs). rewrite Ha0, drop_0. unfold mbind, st_bind. rewrite Hrest.
    rewrite (search_resumed c _ b) by done.
    change (trial_schedule (resume c _) targets) with (trial_schedule c targets).
    destruct (search c b targets pk _ sk) as [s2 [p2|e]]; done.
Qed.

(** *** Attribution *)

(** Every control run is completed, timed out or an infrastructure error. *)
Definition baseline_ok (b : BaselineResult) (done_ : Z) : Prop :=
  0 ≤ br_reproductions b ≤ br_completed b ∧ 0 ≤ br_timed_out b ∧ 0 ≤ br_infra_errors b
  ∧ br_completed b + br_timed_out b + br_infra_errors b = done_.

Lemma count_baseline_ok c h code log hang g b n : baseline_ok b n →
  baseline_ok (count_baseline c h code log hang g b) (n + 1) ∧ requested (count_baseline c h code log hang g b) = requested b.
Proof.
  intros (H1 & H2 & H3 & H4). unfold count_baseline, baseline_ok.
  destruct h; [|destruct code as [z|]; [destruct (z =? 0); [|destruct (clean c (Some z))]|]]; cbn; split; lia.
Qed.

Lemma baseline_run_ok c d a b s s' b' n : baseline_ok b n →
  baseline_run target_run loads c d a b s = (s', Ok b') → baseline_ok b' (n + 1) ∧ requested b' = requested b.
Proof.
  intros Hb H. apply st_bind_ok in H as (s1 & r & _ & H). apply st_bind_ok in H as (s2 & [[[code out] err] error] & _ & H).
  apply st_bind_ok in H as (s3 & g & _ & H). injection H as _ <-. by apply count_baseline_ok.
Qed.

Lemma run_baseline_ok c s s' b : run_baseline target_run loads c s = (s', Ok b) →
  requested b = Z.max 0 (baseline_runs c) ∧ baseline_ok b (requested b).
Proof.
  intros H. unfold run_baseline in H. destruct (Z.leb_spec (baseline_runs c) 0) as [Hle|Hgt].
  { injection H as _ <-. unfold baseline_ok. cbn. lia. }
  destruct (delay_ladder_ns c) as [|d ds]; [done|].
  assert (Hgo : ∀ l b0 n s, baseline_ok b0 n → baseline_runs_from target_run loads c d l b0 s = (s', Ok b) →
    baseline_ok b (n + Z.of_nat (length l)) ∧ requested b = requested b0).
  { induction l as [|a l IH]; intros b0 n s0 Hb0 Hrun; cbn [baseline_runs_from] in Hrun.
    - injection Hrun as _ <-. cbn. by rewrite Z.add_0_r.
    - apply st_bind_ok in Hrun as (s1 & b1 & H1 & Hrun). destruct (baseline_run_ok _ _ _ _ _ _ _ _ Hb0 H1) as [Hb1 Hq1].
      destruct (IH _ _ _ Hb1 Hrun) as [Hb2 Hq2]. split; [|congruence].
      replace (n + Z.of_nat (length (a :: l))) with (n + 1 + Z.of_nat (length l)) by (cbn [length]; lia). done. }
  assert (H0 : baseline_ok (mkBaselineResult (baseline_runs c) 0 0 0 0 [] 0 None) 0) by (unfold baseline_ok; cbn; lia).
  destruct (Hgo _ _ 0 _ H0 H) as [Hb Hq]. rewrite length_seqZ, Z.add_0_l, Z2Nat.id in Hb by lia. cbn in Hq.
  rewrite Hq. split; [lia|done].
Qed.

(** A reproduction is credited to the delay only when control runs were asked
    for, every one of them completed, and none reproduced. *)
Lemma attributed_only_against_controls c s s' r : resume_result c = None → run_stress c s = (s', Ok r) →
  attribution r = "attributed"%string ↔
  0 < baseline_runs c ∧ baseline_completed r = baseline_runs c ∧ baseline_reproductions r = 0 ∧ reproduced r = true.
Proof.
  intros Hn H. apply st_bind_ok in H as (s1 & [[b targets] p] & Hs & H).
  destruct (start_fresh c s s1 b targets p Hn Hs) as (_ & _ & (s0 & Hb) & _). apply run_baseline_ok in Hb as [Hq Hb].
  apply st_bind_ok in H as (s2 & p' & _ & [= _ <-]).
  unfold baseline_ok in Hb. cbn. unfold attribution_of.
  destruct (Z.eqb_spec (requested b) 0); [split; [done|lia]|].
  destruct (Z.ltb_spec 0 (br_reproductions b)); [split; [done|lia]|].
  destruct (Z.ltb_spec (br_completed b) (requested b)); [split; [done|lia]|].
  rewrite bool_decide_eq_true. destruct (p_triggering p'); [|naive_solver]. split; [intros _; split_and!; done || lia|done].
Qed.
End Properties.

(** ** A search that finds the bug at its second delay *)

Definition witness_config : StressConfig := script_config [100; 200] true None.
Definition witness_store : Store (list Run) := script_store [script_exit 1 100; script_exit 0 200].

Lemma script_names_fresh c : output_dir c = "out"%string → fresh_names script_name c.
Proof.
  intros Ho p names r H. unfold script_name in H. case_bool_decide; [done|]. injection H as <-. split; [done|].
  intros t. unfold config_path_of. rewrite Ho. done.
Qed.


Lemma triggering_is_evidence_witness :
  ∃ s' r tc, script_search witness_config witness_store = (s', Ok r) ∧ triggering r = Some tc
  ∧ ∃ b targets p0 s1 k t sk pk,
      start script_run script_log (λ _ _, true) (λ _, None) witness_config witness_store = (s1, Ok (b, targets, p0))
      ∧ trial_schedule witness_config targets !! k = Some t
      ∧ search script_run script_log script_name (λ _ _, true) (λ _, None) (λ _, "?"%string) silent witness_config b targets p0
          (take k (trial_schedule witness_config targets)) s1 = (sk, Ok pk)
      ∧ p_triggering pk = None
      ∧ evidence script_run (λ _, None) witness_config t tc (world sk) s' ∧ config_path tc = config_path_of witness_config t
      ∧ ∃ n, tc_enabled_point_count tc = Some n ∧ 1 ≤ n.
Proof.
  eexists _, _, _. split; [vm_compute; reflexivity|]. split; [vm_compute; reflexivity|].
  eapply (triggering_is_evidence script_run script_log script_name (λ _ _, true) (λ _, None) (λ _, "?"%string) silent
           witness_config witness_store);
    [vm_compute; reflexivity|by apply script_names_fresh|left; reflexivity|reflexivity|vm_compute; reflexivity|vm_compute; reflexivity].
Defined.

(** Interrupted after its first attempt. *)
Lemma resume_is_exact_witness :
  ∃ s1 b targets p sk pk,
    start script_run script_log (λ _ _, true) (λ _, None) witness_config witness_store = (s1, Ok (b, targets, p))
    ∧ search script_run script_log script_name (λ _ _, true) (λ _, None) (λ _, "?"%string) silent witness_config b targets p
        (take 1 (trial_schedule witness_config targets)) s1 = (sk, Ok pk)
    ∧ attempted pk = 1
    ∧ ∃ r, last (published sk) = Some r ∧ script_search (resume witness_config r) sk = script_search witness_config witness_store.
Proof.
  eexists _, _, _, _, _, _. split; [vm_compute; reflexivity|]. split; [vm_compute; reflexivity|]. split; [reflexivity|].
  eapply (resume_is_exact script_run script_log script_name (λ _ _, true) (λ _, None) (λ _, "?"%string) silent
            witness_config witness_store _ _ _ _ 1);
    [vm_compute; reflexivity|by apply script_names_fresh|left; reflexivity|intros H; discriminate H|reflexivity
    |vm_compute; reflexivity|vm_compute; reflexivity|vm_compute; reflexivity].
Defined.
