(* ===== verification/StressExperiment.v ===== *)
(** The service's adapter over the stress search:
    src/python/cutracer/service/experiments/stress.py, with
    [publish_local_artifact] of src/python/cutracer/service/artifacts.py.

    The adapter runs [StressSearch.run_stress] in a private attempt directory,
    publishes what it finds into the experiment's output directory, and reports
    every progress as a [StressTestResult].  [Service] is its state: the files of
    the output directory by name, the last progress and the last core result, and
    what the caller's callback was given.

    Parameters, beside those of the search: [copy_file], how copying a file into
    the output directory ends; [unlink_ok], whether a removal succeeds; [elapsed],
    the seconds since the start; [exn_text], [str(error)]; [config_text], the bytes
    of a delay configuration; [local_file_uri]; the caller's [callback]. *)
From S2P Require Import Prelude.
From S2P Require Import PyStr.
From S2P Require Import PyDict.
From S2P Require Import PyText.
From S2P Require Import Json.
From S2P Require Import Sha256.
From S2P Require Import Contracts.
From S2P Require Import Results.
From S2P Require Import Experiments.
From S2P Require Import StressPlan.
From S2P Require Import StressSearch.
From Stdlib Require Import Ascii.
Local Open Scope Z_scope.

Notation CoreResult := StressPlan.StressResult.

(** ** Classifying a result *)

Definition campaign_completed (r : CoreResult) (planned_trials : Z) : bool :=
  (completed_trials r =? planned_trials) && (infra_errors r =? 0) && (timed_out r =? 0).

(** [_classify_stress_result]; the error is present or not, its wording is not
    modelled. *)
Definition classify_stress_result (r : CoreResult) (planned_trials : Z) (stop_on_first reproduced : bool)
    : StressOutcome * ExecutionStatus * option string * ResultCompleteness :=
  let completed := campaign_completed r planned_trials in
  if reproduced then
    let attempted_trials := completed_trials r + infra_errors r + timed_out r in
    let completeness :=
      if completed then Complete
      else if stop_on_first && (attempted_trials <? planned_trials) && (infra_errors r =? 0) && (timed_out r =? 0)
      then CompleteEarly
      else Partial in
    (Reproduced, Succeeded, None, completeness)
  else if 0 <? unattributed r then
    (UnattributedReproduction, Succeeded, None, if completed then Complete else Partial)
  else if completed && (reproductions r =? 0) then (NotReproduced, Succeeded, None, Complete)
  else if 0 <? infra_errors r then
    (StressIncomplete, ExecInfraError, Some "stress campaign had one or more infrastructure failures"%string, Partial)
  else if 0 <? timed_out r then
    (StressIncomplete, ExecTimedOut,
     Some "stress campaign timed out before completing its planned trials"%string, Partial)
  else
    (StressIncomplete, ExecInfraError,
     Some "stress campaign did not complete enough valid oracle trials"%string, Partial).

(** [_partial_stress_outcome] *)
Definition partial_stress_outcome (triggering : option TriggeringDelayConfig) (reproductions unattributed : Z)
    : StressOutcome :=
  match triggering with
  | Some _ => Reproduced
  | None =>
      if (reproductions =? 0) && (0 <? unattributed) then UnattributedReproduction else StressIncomplete
  end.

(** [_stress_provenance] *)
Definition stress_provenance (sp : ExperimentSpec) (cutracer_version toolchain_version : string)
    : ExecutionProvenance :=
  let u := sp_unit sp in
  mkProvenance (source_revision u) (arch u) (kernel u) cutracer_version toolchain_version.

(** [_triggering_delay_config] *)
Definition triggering_delay_config (sp : ExperimentSpec) (core : CoreResult) (artifact : ArtifactRef)
    (cutracer_version toolchain_version : string) : res exn TriggeringDelayConfig :=
  match triggering core, oracle (sp_unit sp) with
  | None, _ | _, None => Err ValueError
  | Some t, Some o =>
      let u := sp_unit sp in
      let c := mkTriggering artifact (unit_id u) (argv u) o (source_revision u) (arch u) (kernel u)
                 (tc_delay_ns t) (tc_enable_prob t) (tc_warpgroup_id t) (tc_attempt_index t)
                 (completed_trials core) (reproductions core)
                 (if completed_trials core =? 0 then f_zero
                  else f_ratio (reproductions core) (completed_trials core))
                 (tc_enabled_point_count t) cutracer_version toolchain_version in
      _ ← TriggeringDelayConfig_check c; Ok c
  end.

(** [_merge_rejected_configs] *)
Definition merge_rejected_configs (previous current : list ArtifactRef) : list ArtifactRef :=
  let by_path := dict_of ((λ a, (relative_path a, a)) <$> (previous ++ current)) in
  retain_oldest_and_newest by_path.*2.

(** [_REJECTED_CONFIG_NAME_RE]: [rejected_delay_config_], 64 hex digits, [.json]. *)
Definition is_lower_hex (c : ascii) : bool := is_digit c || ((97 <=? code c) && (code c <=? 102)).
Definition is_rejected_config_name (name : string) : bool :=
  match after_first (chars "rejected_delay_config_") (chars name) with
  | Some rest =>
      starts_with (chars "rejected_delay_config_") (chars name)
      && forallb is_lower_hex (take 64 rest) && bool_decide (drop 64 rest = chars ".json")
  | None => false
  end.

(** ** The output directory *)

Inductive OutFile := ConfigFile (f : DelayFile) | LogFile (text : string).

(** [Unsynced]: the file is in place and [os.fsync] of the directory failed. *)
Inductive Copying := Copied | NotCopied | Unsynced.

Record Service (W : Type) := mkService {
  out_files : gmap string OutFile;
  latest : option StressTestResult;
  latest_core : option CoreResult;
  reported : list StressTestResult;
  env_ : W
}.
Arguments mkService {W} out_files latest latest_core reported env_.
Arguments out_files {W} s.
Arguments latest {W} s.
Arguments latest_core {W} s.
Arguments reported {W} s.
Arguments env_ {W} s.

Definition stem_and_suffix (name : string) : list ascii * list ascii :=
  let '(tail, head) := partition_at "."%char (rev (chars name)) in
  match head with [] => (chars name, []) | _ => (rev head, "."%char :: rev tail) end.

(** [f"{stem}_{digest}{suffix}"] *)
Definition content_addressed_name (name : string) (digest : list ascii) : string :=
  let '(stem, suffix) := stem_and_suffix name in str (stem ++ "_"%char :: digest ++ suffix).

Section Adapter.
Context {W : Type}.
Variable target_run : Launch → W → W * Run.
Variable log_write : W → W * LogWrite.
Variable new_rejected_name : string → gset string → option string.
Variable owned : string → string → bool.
Variable loads : string → option json.
Variable repr : json → string.
Variable copy_file : W → W * Copying.
Variable unlink_ok : W → W * bool.
Variable elapsed : W → W * float.
Variable exn_text : exn → string.
Variable config_text : DelayFile → string.
Variable local_file_uri : string → string.
Variable callback : option (StressTestResult → W → W * option exn).

Notation AM := (st (Service W) exn).

Definition with_env (s : Service W) (w : W) : Service W :=
  mkService (out_files s) (latest s) (latest_core s) (reported s) w.
Definition with_files (s : Service W) (f : gmap string OutFile) : Service W :=
  mkService f (latest s) (latest_core s) (reported s) (env_ s).

(** A step of the environment. *)
Definition ask {A} (step : W → W * A) : AM A := λ s, let '(w, a) := step (env_ s) in (with_env s w, Ok a).

Definition file_text (f : OutFile) : string :=
  match f with ConfigFile c => config_text c | LogFile t => t end.

(** The file as the search reads it. *)
Definition as_delay_file (f : OutFile) : DelayFile :=
  match f with
  | ConfigFile c => c
  | LogFile t => match loads t with Some j => Parsed j | None => UnreadableFile t end
  end.

(** [publish_local_artifact(source, os.path.join(out_dir, name))]; every failure
    is an [OSError]. *)
Definition publish_local_artifact (out_dir : string) (source : option OutFile) (name media_type : string)
    (content_addressed : bool) : AM ArtifactRef :=
  match source with
  | None => st_raise OSError
  | Some file =>
      let text := file_text file in
      let digest := sha256_hexdigest (chars text) in
      let name := if content_addressed then content_addressed_name name digest else name in
      o ← ask copy_file;
      match o with
      | NotCopied => st_raise OSError
      | Unsynced => _ ← st_modify (λ s, with_files s (<[name := file]> (out_files s))); st_raise OSError
      | Copied =>
          _ ← st_modify (λ s, with_files s (<[name := file]> (out_files s)));
          mret (mkArtifactRef (local_file_uri (path_join out_dir name)) name (Some (str digest))
                  (Some (Z.of_nat (String.length text))) media_type)
      end
  end.

(** [try: … except e: …] *)
Definition try_catch {A} (catches : exn → bool) (m : AM A) (handler : exn → AM A) : AM A :=
  λ s, match m s with
       | (s', Err e) => if catches e then handler e s' else (s', Err e)
       | r => r
       end.
Definition is_os_error (e : exn) : bool := match e with OSError => true | _ => false end.

(** The value, or the [OSError] that was caught. *)
Definition attempt_os {A} (m : AM A) : AM (A + exn) :=
  try_catch is_os_error (a ← m; mret (inl a)) (λ e, mret (inr e)).

Definition config_source (cs : gmap string DelayFile) (path : string) : option OutFile := ConfigFile <$> (cs !! path).
Definition log_source (ls : gmap string string) (path : string) : option OutFile := LogFile <$> (ls !! path).

(** ** Rejected configurations *)

(** The loop of [_promote_rejected_configs] over its sources. *)
Fixpoint promote_from (out_dir : string) (cs : gmap string DelayFile) (sources : list string)
    (promoted : list (string * ArtifactRef)) : AM (list (string * ArtifactRef)) :=
  match sources with
  | [] => mret promoted
  | source :: rest =>
      if (MAX_REJECTED_CONFIGS <=? length promoted)%nat then mret promoted
      else
        r ← try_catch (λ _, true)
              (a ← publish_local_artifact out_dir (config_source cs source) "rejected_delay_config.json"
                     "application/json" true;
               mret (dict_set promoted (relative_path a) a))
              (λ _, mret promoted);
        promote_from out_dir cs rest r
  end.

(** [_promote_rejected_configs]: the retained paths first, then the others. *)
Definition promote_rejected_configs (out_dir : string) (cs : gmap string DelayFile) (core : CoreResult)
    : AM (list ArtifactRef) :=
  let unique_sources := fromkeys (rejected_config_paths core) in
  let preferred := retain_oldest_and_newest unique_sources in
  let sources := preferred ++ List.filter (λ s, negb (bool_decide (s ∈ preferred))) unique_sources in
  promoted ← promote_from out_dir cs sources []; mret promoted.*2.

(** [_cleanup_unreferenced_rejected_configs]; the directory is listed in the
    order of the map. *)
Fixpoint unlink_names (names : list string) : AM () :=
  match names with
  | [] => mret ()
  | name :: rest =>
      ok ← ask unlink_ok;
      _ ← st_modify (λ s, if ok : bool then with_files s (delete name (out_files s)) else s);
      unlink_names rest
  end.

Definition cleanup_unreferenced_rejected_configs (referenced : list ArtifactRef) : AM () :=
  s ← st_get;
  unlink_names (List.filter (λ name, negb (bool_decide (name ∈ relative_path <$> referenced))
                                     && is_rejected_config_name name)
                  (map_to_list (out_files s)).*1).

(** [_stage_rejected_configs_for_resume]: the paths staged in the attempt
    directory, with the files there. *)
Definition staged_path (attempt_dir : string) (index : nat) : string :=
  path_join attempt_dir ("resumed_rejected_config_" +:+ pretty index +:+ ".json").

Fixpoint stage_from (attempt_dir : string) (index : nat) (artifacts : list ArtifactRef)
    (cs : gmap string DelayFile) : AM (list string * gmap string DelayFile) :=
  match artifacts with
  | [] => mret ([], cs)
  | a :: rest =>
      s ← st_get;
      o ← (match out_files s !! relative_path a with
           | None => mret NotCopied
           | Some _ => ask copy_file
           end : AM Copying);
      let path := staged_path attempt_dir index in
      match o, out_files s !! relative_path a with
      | Copied, Some file =>
          '(paths, cs') ← stage_from attempt_dir (S index) rest (<[path := as_delay_file file]> cs);
          mret (path :: paths, cs')
      | _, _ => stage_from attempt_dir (S index) rest cs
      end
  end.

(** ** Publishing a result *)

Section Experiment.
Variable sp : ExperimentSpec.
Variables out_dir attempt_dir : string.
Variables cutracer_version toolchain_version : string.

Definition provenance : ExecutionProvenance := stress_provenance sp cutracer_version toolchain_version.
Definition planned : Z := match sp_stress sp with Some o => planned_trials o | None => 0 end.

Definition publish_log (ls : gmap string string) (source : string) : AM ArtifactRef :=
  publish_local_artifact out_dir (log_source ls source) "stress.log" "text/plain" false.

Definition publish_triggering (cs : gmap string DelayFile) (core : CoreResult) (t : TriggeringConfig)
    : AM TriggeringDelayConfig :=
  a ← publish_local_artifact out_dir (config_source cs (config_path t)) "triggering_config.json"
        "application/json" true;
  st_lift (triggering_delay_config sp core a cutracer_version toolchain_version).

(** A published value and the error that kept it from being published. *)
Definition published_or_error {A} (r : A + exn) : option A * option exn :=
  match r with inl a => (Some a, None) | inr e => (None, Some e) end.

(** The log and the triggering configuration, and the first error of each: what
    [_publish_progress_artifacts] and [_publish_stress_artifacts] share. *)
Definition publish_artifacts (cs : gmap string DelayFile) (ls : gmap string string) (core : CoreResult)
    : AM (option ArtifactRef * option exn * (option TriggeringDelayConfig * option exn)) :=
  log ← (match log_path core with
         | None => mret (None, Some OSError)
         | Some source => r ← attempt_os (publish_log ls source); mret (published_or_error r)
         end : AM (option ArtifactRef * option exn));
  trigger ← (match triggering core with
             | None => mret (None, None)
             | Some t => r ← attempt_os (publish_triggering cs core t); mret (published_or_error r)
             end : AM (option TriggeringDelayConfig * option exn));
  mret (log, trigger).

(** [_publish_progress_artifacts]: the first error counts. *)
Definition publish_progress_artifacts (cs : gmap string DelayFile) (ls : gmap string string) (core : CoreResult)
    : AM (option ArtifactRef * option TriggeringDelayConfig * option exn) :=
  '((log, e1), (triggering, e2)) ← publish_artifacts cs ls core;
  mret (log, triggering, match e1 with Some e => Some e | None => e2 end).

(** [_publish_stress_artifacts]: the text of every error is kept. *)
Definition log_error (core : CoreResult) (e : exn) : string :=
  match log_path core with
  | None => "stress campaign did not persist stress.log"
  | Some _ => "could not publish stress log: " +:+ exn_text e
  end.
Definition triggering_error (e : exn) : string := "could not publish triggering config: " +:+ exn_text e.
Definition publish_stress_artifacts (cs : gmap string DelayFile) (ls : gmap string string) (core : CoreResult)
    : AM (option ArtifactRef * option TriggeringDelayConfig * list string) :=
  '((log, e1), (triggering, e2)) ← publish_artifacts cs ls core;
  mret (log, triggering, omap id [log_error core <$> e1; triggering_error <$> e2]).

(** [StressTestResult(…)], which checks its fields. *)
Definition new_result (r : StressTestResult) : AM StressTestResult := _ ← st_lift (StressTestResult_check r); mret r.

Definition or_else {A} (a b : option A) : option A := match a with Some x => Some x | None => b end.

(** [_adapt_core_progress] *)
Definition adapt_core_progress (cs : gmap string DelayFile) (ls : gmap string string) (core : CoreResult)
    (previous : option StressTestResult) : AM (StressTestResult * option exn) :=
  '((log, triggering), error) ← publish_progress_artifacts cs ls core;
  promoted ← promote_rejected_configs out_dir cs core;
  let durable_log := or_else log (previous ≫= st_log) in
  let durable_trigger := or_else triggering (previous ≫= triggering_config) in
  let durable_rejected :=
    merge_rejected_configs (match previous with Some p => rejected_configs p | None => [] end) promoted in
  duration ← ask elapsed;
  progress ← new_result
    (mkStress (sp_experiment_id sp) Succeeded
       (partial_stress_outcome durable_trigger (reproductions core) (unattributed core))
       (completed_trials core) (reproductions core) (infra_errors core) provenance durable_trigger durable_log
       duration None planned (timed_out core) Partial (unattributed core) durable_rejected);
  mret (progress, error).

(** [_StressProgressAdapter.__call__] *)
Definition progress_adapter (cs : gmap string DelayFile) (ls : gmap string string) (core : CoreResult) : AM () :=
  s ← st_get;
  _ ← st_modify (λ s, mkService (out_files s) (latest s) (Some core) (reported s) (env_ s));
  '(progress, error) ← adapt_core_progress cs ls core (latest s);
  _ ← st_modify (λ s, mkService (out_files s) (Some progress) (latest_core s) (reported s) (env_ s));
  _ ← (match callback with
       | None => cleanup_unreferenced_rejected_configs (rejected_configs progress)
       | Some _ => mret ()
       end : AM ());
  match error with
  | Some e => st_raise e
  | None =>
      match callback with
      | None => mret ()
      | Some f =>
          _ ← st_modify (λ s, mkService (out_files s) (latest s) (latest_core s) (reported s ++ [progress]) (env_ s));
          o ← ask (f progress);
          match o with Some e => st_raise e | None => mret () end
      end
  end.

(** ** Resuming *)

(** [_resume_core_result]; with it, the files of the attempt directory. *)
Definition resume_core_result (resume_from : option StressTestResult)
    : AM (option CoreResult * gmap string DelayFile) :=
  match resume_from with
  | None => mret (None, ∅)
  | Some r =>
      if negb (bool_decide (st_experiment_id r = sp_experiment_id sp)) || negb (st_planned_trials r =? planned)
         || negb (provenance_eqb (st_provenance r) provenance) || negb (bool_decide (st_completeness r = Partial))
      then st_raise ValueError
      else
        let trigger :=
          (λ c, mkTriggeringConfig (path_join out_dir (relative_path (artifact c))) (Contracts.tc_delay_ns c)
                  (warpgroup_id c) (Contracts.enable_prob c) (attempt_index c) (Contracts.enabled_point_count c)
                  SYMPTOM_FAILURE None []) <$> triggering_config r in
        '(staged, cs) ← stage_from attempt_dir 0 (rejected_configs r) ∅;
        mret (Some (mkStressResult (bool_decide (trigger ≠ None)) (st_completed_trials r) (st_reproductions r)
                      (Results.infra_errors r) (st_reproduction_rate r) trigger
                      ((λ l, path_join out_dir (relative_path l)) <$> st_log r)
                      (timed_out_trials r) 0 (unattributed_reproductions r) 0 0 0 0 0 0 "no_baseline"
                      (st_log r ≫= size_bytes) staged STRATEGY_RANDOM [] None None), cs)
  end.

(** ** Ending without a result of the search *)

(** [_republish_stress_log] *)
Definition republish_stress_log (log : option ArtifactRef) : AM (option ArtifactRef) :=
  match log with
  | None => mret None
  | Some l =>
      if String.eqb (relative_path l) "stress.log" then mret (Some l)
      else
        s ← st_get;
        r ← attempt_os (publish_local_artifact out_dir (out_files s !! relative_path l) "stress.log" "text/plain" false);
        match r with
        | inl a => mret (Some a)
        | inr _ => s ← st_get; mret (if bool_decide (out_files s !! relative_path l ≠ None) then Some l else None)
        end
  end.

Record Counts := mkCounts { n_completed : Z; n_reproductions : Z; n_infra : Z; n_timed_out : Z; n_unattributed : Z }.

(** [_recover_stress_progress] *)
Definition recovered_counts (core : option CoreResult) (last : option StressTestResult) : Counts :=
  match core, last with
  | Some c, _ => mkCounts (completed_trials c) (reproductions c) (infra_errors c + 1) (timed_out c) (unattributed c)
  | None, Some l => mkCounts (st_completed_trials l) (st_reproductions l) (Results.infra_errors l + 1)
                      (timed_out_trials l) (unattributed_reproductions l)
  | None, None => mkCounts 0 0 1 0 0
  end.

Definition recover_stress_progress (core : option CoreResult) (last : option StressTestResult)
    : AM (Counts * option ArtifactRef * option TriggeringDelayConfig) :=
  log ← republish_stress_log (last ≫= st_log);
  mret (recovered_counts core last, log, last ≫= triggering_config).

(** [_fallback_stress_artifacts] *)
Definition fallback_stress_artifacts (log : option ArtifactRef) (triggering : option TriggeringDelayConfig)
    (last : option StressTestResult) : AM (option ArtifactRef * option TriggeringDelayConfig) :=
  log' ← republish_stress_log (or_else log (last ≫= st_log));
  mret (log', or_else triggering (last ≫= triggering_config)).

(** [_terminal_stress_result] of an infrastructure error. *)
Definition terminal_stress_result (error : string) (outcome : StressOutcome) (n : Counts)
    (log : option ArtifactRef) (triggering : option TriggeringDelayConfig) (rejected : list ArtifactRef)
    : AM StressTestResult :=
  duration ← ask elapsed;
  new_result (mkStress (sp_experiment_id sp) ExecInfraError outcome (n_completed n) (n_reproductions n) (n_infra n)
    provenance triggering log duration (Some error) planned (n_timed_out n) Partial (n_unattributed n) rejected).

Definition cleanup_without_callback (rejected : list ArtifactRef) : AM () :=
  match callback with None => cleanup_unreferenced_rejected_configs rejected | Some _ => mret () end.
Definition latest_rejected (s : Service W) : list ArtifactRef :=
  match latest s with Some l => rejected_configs l | None => [] end.

(** ** The search, run *)

(** The progress callback of the search. *)
Definition on_progress (core : CoreResult) (cs : gmap string DelayFile) (ls : gmap string string) (s : Service W)
    : Service W * option exn :=
  match progress_adapter cs ls core s with (s', Ok _) => (s', None) | (s', Err e) => (s', Some e) end.

Definition lift_step {A} (step : W → W * A) (s : Service W) : Service W * A :=
  let '(w, a) := step (env_ s) in (with_env s w, a).

Definition search_config (o : StressOptions) (resume : option CoreResult) : StressConfig :=
  let u := sp_unit sp in
  mkStressConfig (Contracts.delay_ladder_ns o) (so_enable_prob o) (Contracts.warpgroup_ids o)
    (Contracts.attempts_per_delay o) (stop_on_first_reproduction o)
    (match oracle u with Some q => Contracts.not_interesting_exit_codes q | None => [] end)
    (match kernel u with
     | None => given (Some (str (join_text [","%char] (chars <$> Contracts.kernel_filters u))))
     | Some _ => None
     end)
    0 attempt_dir 0 false STRATEGY_RANDOM None None None resume
    (ki_name <$> kernel u) (cubin_hash <$> kernel u).

(** What the search finds: the files of the output directory and the staged ones. *)
Definition search_files (staged : gmap string DelayFile) (s : Service W) : Store (Service W) :=
  mkStore (staged ∪ kmap (path_join out_dir) (as_delay_file <$> out_files s))
    (kmap (path_join out_dir) (omap (λ f, match f with LogFile t => Some t | ConfigFile _ => None end) (out_files s)))
    [] s.

Definition core_search (c : StressConfig) : st (Store (Service W)) exn CoreResult :=
  if config_ok c
  then run_stress (λ l, lift_step (target_run l)) (lift_step log_write) new_rejected_name owned loads repr on_progress c
  else st_raise ValueError.

(** [_run_stress_attempt] after the search raised what it catches. *)
Definition after_failure (cs : gmap string DelayFile) (e : exn) : AM StressTestResult :=
  s ← st_get;
  '((n, log), trigger) ← recover_stress_progress (latest_core s) (latest s);
  s ← st_get;
  promoted ← (match latest_core s with
              | None => mret []
              | Some observed => promote_rejected_configs out_dir cs observed
              end : AM (list ArtifactRef));
  let rejected := merge_rejected_configs (latest_rejected s) promoted in
  terminal ← terminal_stress_result (exn_text e)
    (partial_stress_outcome trigger (n_reproductions n) (n_unattributed n)) n log trigger rejected;
  _ ← cleanup_without_callback rejected; mret terminal.

(** The artifacts of the result could not all be published. *)
Definition after_artifact_errors (core : CoreResult) (log : option ArtifactRef)
    (triggering : option TriggeringDelayConfig) (errors : list string) (rejected : list ArtifactRef)
    : AM StressTestResult :=
  s ← st_get;
  '(log', trigger) ← fallback_stress_artifacts log triggering (latest s);
  terminal ← terminal_stress_result (str (join_text (chars "; ") (chars <$> errors)))
    (partial_stress_outcome trigger (reproductions core) (unattributed core))
    (mkCounts (completed_trials core) (reproductions core) (infra_errors core + 1) (timed_out core) (unattributed core))
    log' trigger rejected;
  _ ← cleanup_without_callback rejected; mret terminal.

(** [_run_stress_attempt] after the search returned. *)
Definition after_search (o : StressOptions) (cs : gmap string DelayFile) (ls : gmap string string) (core : CoreResult)
    : AM StressTestResult :=
  '((log, trigger), errors) ← publish_stress_artifacts cs ls core;
  promoted ← promote_rejected_configs out_dir cs core;
  s ← st_get;
  let rejected := merge_rejected_configs (latest_rejected s) promoted in
  match errors with
  | _ :: _ => after_artifact_errors core log trigger errors rejected
  | [] =>
      let '(outcome, status, error, completeness) :=
        classify_stress_result core planned (stop_on_first_reproduction o) (bool_decide (trigger ≠ None)) in
      duration ← ask elapsed;
      result ← new_result
        (mkStress (sp_experiment_id sp) status outcome (completed_trials core) (reproductions core) (infra_errors core)
           provenance trigger log duration error planned (timed_out core) completeness (unattributed core) rejected);
      _ ← cleanup_without_callback rejected; mret result
  end.

(** The search on the files of the output directory, and its outcome. *)
Definition search_and_publish (o : StressOptions) (resume : option CoreResult) (staged : gmap string DelayFile)
    : AM StressTestResult :=
  λ s, match core_search (search_config o resume) (search_files staged s) with
       | (t, Ok core) => after_search o (configs t) (logs t) core (world t)
       | (t, Err e) => if caught e then after_failure (configs t) e (world t) else (world t, Err e)
       end.

(** [_run_stress_attempt] *)
Definition run_stress_attempt (o : StressOptions) (resume_from : option StressTestResult) : AM StressTestResult :=
  '(core_resume, staged) ← resume_core_result resume_from;
  _ ← st_modify (λ s, mkService (out_files s) resume_from None (reported s) (env_ s));
  search_and_publish o core_resume staged.

(** [run_stress_experiment]; the attempt directory is removed at the end, and
    nothing outside the search looks into it. *)
Definition run_stress_experiment (resume_from : option StressTestResult) : AM StressTestResult :=
  if negb (bool_decide (sp_kind sp = RANDOM_DELAY_STRESS)) then st_raise ValueError
  else
    match sp_stress sp with
    | None => st_raise ValueError
    | Some o =>
        match oracle (sp_unit sp) with
        | None => st_raise ValueError
        | Some _ => run_stress_attempt o resume_from
        end
    end.
End Experiment.
End Adapter.
