(* ===== verification/Ratio.v ===== *)
(** The quotient of two counts, as binary64: Python's [a / b] of [0 <= a <= b] is
    between 0 and 1, whatever the rounding. *)
From S2P Require Import Prelude.
From S2P Require Import Json.
From Stdlib Require Import Floats.SpecFloat.
Local Open Scope Z_scope.

(** [m * 2^e] with what was shifted out is at most 1. *)
Definition at_most_one (m : Z) (r s : bool) (e : Z) : Prop :=
  e ≤ -52 ∧ 0 ≤ m ∧ (m < 2 ^ (- e) ∨ (m = 2 ^ (- e) ∧ r = false ∧ s = false)).

Definition record_at_most_one (x : shr_record) (e : Z) : Prop := at_most_one (shr_m x) (shr_r x) (shr_s x) e.

Lemma shr_1_at_most_one x e : e < -52 → record_at_most_one x e → record_at_most_one (shr_1 x) (e + 1).
Proof.
  destruct x as [m r s]. unfold record_at_most_one, at_most_one. cbn [shr_m shr_r shr_s]. intros He (_ & Hm & H).
  assert (E : 2 ^ (- e) = 2 * 2 ^ (- (e + 1))).
  { replace (- e) with (Z.succ (- (e + 1))) by lia. by rewrite Z.pow_succ_r by lia. }
  assert (0 < 2 ^ (- (e + 1))) by (apply Z.pow_pos_nonneg; lia). rewrite E in H.
  split_and!; [lia|destruct m as [|[]|]; cbn; lia|].
  destruct m as [|[p|p|]|]; cbn [shr_1 shr_m shr_r shr_s]; try lia.
  destruct H as [H|(H & -> & ->)]; [left; lia|right; split_and!; [lia|done|done]].
Qed.

Lemma iter_shr_at_most_one p : ∀ x e, e + Z.pos p ≤ -52 → record_at_most_one x e →
  record_at_most_one (iter_pos shr_1 p x) (e + Z.pos p).
Proof.
  induction p as [p IH|p IH|]; intros x e He Hx; cbn [iter_pos].
  - replace (e + Z.pos p~1) with (e + 1 + Z.pos p + Z.pos p) by lia.
    apply IH; [lia|]. apply IH; [lia|]. apply shr_1_at_most_one; [lia|done].
  - replace (e + Z.pos p~0) with (e + Z.pos p + Z.pos p) by lia. apply IH; [lia|]. apply IH; [lia|done].
  - apply shr_1_at_most_one; [lia|done].
Qed.

Lemma digits2_log2 p : Z.pos (digits2_pos p) = Z.log2 (Z.pos p) + 1.
Proof.
  assert (E : digits2_pos p = Pos.size p) by (induction p; cbn; congruence).
  rewrite E. destruct p as [p|p|]; cbn; lia.
Qed.

(** The exponent that precision 53 needs is at most -52. *)
Lemma fexp_at_most_one m r s e : at_most_one m r s e → fexp 53 1024 (Zdigits2 m + e) ≤ -52.
Proof.
  intros (He & Hm & H). unfold fexp, emin. assert (Zdigits2 m ≤ - e + 1); [|lia].
  destruct m as [|p|]; cbn; [lia| |lia]. rewrite digits2_log2.
  assert (Z.log2 (Z.pos p) ≤ Z.log2 (2 ^ (- e))) by (apply Z.log2_le_mono; lia).
  rewrite Z.log2_pow2 in * by lia. lia.
Qed.

Lemma shr_fexp_at_most_one m e l : record_at_most_one (shr_record_of_loc m l) e →
  let '(x, e') := shr_fexp 53 1024 m e l in record_at_most_one x e'.
Proof.
  intros H. assert (E : shr_m (shr_record_of_loc m l) = m) by by destruct l as [|[]].
  unfold shr_fexp, shr. destruct (fexp 53 1024 (Zdigits2 m + e) - e) as [|p|p] eqn:Ef; [done| |done].
  rewrite <- Ef. pose proof (fexp_at_most_one _ _ _ _ H) as Hf. rewrite E in Hf. rewrite Ef.
  apply iter_shr_at_most_one; [lia|done].
Qed.

Lemma rounded_at_most_one x e : record_at_most_one x e →
  at_most_one (round_nearest_even (shr_m x) (loc_of_shr_record x)) false false e.
Proof.
  destruct x as [m r s]. unfold record_at_most_one, at_most_one. cbn [shr_m shr_r shr_s]. intros (He & Hm & H).
  assert (0 < 2 ^ (- e)) by (apply Z.pow_pos_nonneg; lia).
  destruct H as [H|(-> & -> & ->)].
  - assert (m ≤ round_nearest_even m (loc_of_shr_record {| shr_m := m; shr_r := r; shr_s := s |}) ≤ m + 1).
    { destruct r, s; cbn; try destruct (Z.even m); lia. }
    split_and!; [done|lia|]. destruct (decide (round_nearest_even m (loc_of_shr_record {| shr_m := m; shr_r := r; shr_s := s |}) < 2 ^ (- e)));
      [by left|right; split_and!; [lia|done|done]].
  - cbn. split_and!; [done|lia|by right].
Qed.

Lemma compare_cont_Eq p q : Pos.compare_cont Eq p q = Pos.compare p q.
Proof. reflexivity. Qed.

Lemma binary_round_at_most_one m e l : record_at_most_one (shr_record_of_loc m l) e →
  let f := binary_round_aux 53 1024 false m e l in f_le f_zero f = true ∧ f_le f f_one = true.
Proof.
  intros H. pose proof (shr_fexp_at_most_one m e l H) as H1. cbv zeta. unfold binary_round_aux.
  destruct (shr_fexp 53 1024 m e l) as [x1 e1]. apply rounded_at_most_one in H1.
  pose proof (shr_fexp_at_most_one (round_nearest_even (shr_m x1) (loc_of_shr_record x1)) e1 loc_Exact H1) as H2.
  destruct (shr_fexp 53 1024 _ e1 loc_Exact) as [x2 e2]. destruct H2 as (He & Hm & H2).
  destruct (shr_m x2) as [|p|p]; [done| |lia]. destruct (Z.leb_spec e2 (1024 - 53)); [|lia]. split; [done|].
  unfold f_le, SFleb, f_one. cbn [SFcompare]. destruct (Z.compare_spec e2 (-52)) as [->|?|?]; [|done|lia].
  assert (Hp : Z.pos p ≤ 4503599627370496) by (replace (2 ^ (- -52)) with 4503599627370496 in H2 by reflexivity; lia).
  revert Hp. generalize 4503599627370496%positive as q. intros q Hq. rewrite compare_cont_Eq.
  destruct (Pos.compare_spec p q); [done|done|lia].
Qed.

Lemma f_ratio_unit a b : 0 ≤ a ≤ b → f_le f_zero (f_ratio a b) = true ∧ f_le (f_ratio a b) f_one = true.
Proof.
  intros Hab. unfold f_ratio, f_div. destruct a as [|p|p], b as [|q|q]; try done; try lia. cbn [SFdiv xorb].
  unfold SFdiv_core_binary. cbv zeta. 
  set (e' := Z.min _ _).
  assert (He : e' ≤ -53).
  { unfold e', fexp, emin, Zdigits2. rewrite !digits2_log2.
    assert (Z.log2 (Z.pos p) ≤ Z.log2 (Z.pos q)) by (apply Z.log2_le_mono; lia). lia. }
  destruct (0 - 0 - e') as [|s|s] eqn:Es; [lia| |lia].
  assert (Hd : Z.div_eucl (Z.shiftl (Z.pos p) (Z.pos s)) (Z.pos q)
    = (Z.shiftl (Z.pos p) (Z.pos s) / Z.pos q, Z.shiftl (Z.pos p) (Z.pos s) mod Z.pos q)).
  { unfold Z.div, Z.modulo. by destruct (Z.div_eucl _ _). }
  rewrite Hd. apply binary_round_at_most_one. rewrite Z.shiftl_mul_pow2 by lia.
  assert (Hp : 0 < 2 ^ Z.pos s) by (apply Z.pow_pos_nonneg; lia).
  assert (E : shr_m (shr_record_of_loc (Z.pos p * 2 ^ Z.pos s / Z.pos q)
    (new_location (Z.pos q) (Z.pos p * 2 ^ Z.pos s mod Z.pos q))) = Z.pos p * 2 ^ Z.pos s / Z.pos q)
    by by destruct (new_location _ _) as [|[]].
  unfold record_at_most_one, at_most_one. rewrite E. replace (- e') with (Z.pos s) by lia.
  split_and!; [lia|apply Z.div_pos; lia|]. destruct (decide (p = q)) as [->|Hne].
  - right. rewrite Z.mul_comm, Z.div_mul, Z.mod_mul by lia. split; [done|]. unfold new_location, new_location_even, new_location_odd.
    by destruct (Z.even _).
  - left. apply Z.div_lt_upper_bound; [lia|]. apply Z.mul_lt_mono_pos_r; lia.
Qed.
