(* ===== verification/StressReports.v ===== *)
(** What a stress search reports, to its progress callback and in the end: counts
    that fit the schedule, and a triggering configuration from the schedule.  An
    invariant of the world that every run, log write and callback keeps holds
    after the search, however it ends. *)
From S2P Require Import Prelude.
From S2P Require Import PyStr.
From S2P Require Import PyDict.
From S2P Require Import Json.
From S2P Require Import PyText.
From S2P Require Import Results.
From S2P Require Import StressPlan.
From S2P Require Import StressSearch.
From S2P Require Import StressProperties.
From Stdlib Require Import Ascii.
Local Open Scope Z_scope.

(** A triggering configuration of the schedule of a random search. *)
Definition planned_trigger (c : StressConfig) (t : TriggeringConfig) : Prop :=
  tc_delay_ns t ∈ delay_ladder_ns c ∧ tc_enable_prob t = enable_prob c
  ∧ match warpgroup_ids c, tc_warpgroup_id t with
    | [], None => True
    | ws, Some g => g ∈ ws
    | _, None => False
    end
  ∧ 0 ≤ tc_attempt_index t < attempts_per_delay c
  ∧ match tc_enabled_point_count t with Some n => 1 ≤ n | None => True end.

Lemma schedule_trigger c hung n t targets : is_isolate c = false → 1 ≤ n → t ∈ trial_schedule c targets →
  planned_trigger c (triggering_of c t hung n).
Proof.
  intros Hi Hn Ht. unfold trial_schedule in Ht. rewrite Hi in Ht.
  apply (elem_of_triples (λ d g a, mkTrial d a g None)) in Ht as (d & g & a & -> & Hd & Hg & Ha).
  apply elem_of_seqZ in Ha. unfold planned_trigger, triggering_of. cbn. split_and!; [done|done| |lia|lia|done].
  destruct (warpgroup_ids c) as [|w ws].
  - by apply list_elem_of_singleton in Hg as ->.
  - apply list_elem_of_fmap in Hg as (g' & -> & Hg). done.
Qed.

(** The length of the schedule. *)
Lemma schedule_length c targets : is_isolate c = false → 0 ≤ attempts_per_delay c →
  Z.of_nat (length (trial_schedule c targets))
  = Z.of_nat (length (delay_ladder_ns c))
    * (match warpgroup_ids c with [] => 1 | l => Z.of_nat (length l) end) * attempts_per_delay c.
Proof.
  intros Hi Ha. unfold trial_schedule. rewrite Hi.
  set (groups := match warpgroup_ids c with [] => [None] | _ => _ end).
  assert (Hg : Z.of_nat (length groups) = match warpgroup_ids c with [] => 1 | l => Z.of_nat (length l) end).
  { subst groups. destruct (warpgroup_ids c); [done|]. by rewrite length_fmap. }
  rewrite <- Hg. clear Hg. generalize groups as gs. intros gs.
  assert (Hrow : ∀ d, length (g ← gs; a ← attempts_of c; [mkTrial d a g None])
                      = (length gs * length (attempts_of c))%nat).
  { intros d. induction gs as [|g gs IH]; [done|]. cbn [mbind list_bind]. rewrite length_app. cbn [mbind list_bind] in IH. rewrite IH.
    assert (E : ∀ l : list Z, length (a ← l; [mkTrial d a g None]) = length l) by (induction l as [|a l IHl]; [done|]; cbn; by f_equal).
    rewrite E. cbn [length]. lia. }
  assert (E : length (d ← delay_ladder_ns c; g ← gs; a ← attempts_of c; [mkTrial d a g None])
    = (length (delay_ladder_ns c) * (length gs * length (attempts_of c)))%nat).
  { induction (delay_ladder_ns c) as [|d ds IH]; [done|]. cbn [mbind list_bind]. rewrite length_app. cbn [mbind list_bind] in IH.
    rewrite IH. specialize (Hrow d). cbn [mbind list_bind] in Hrow. rewrite Hrow. cbn [length]. lia. }
  rewrite E. unfold attempts_of. rewrite length_seqZ. lia.
Qed.

(** The counts of a progress fit together, and its configuration is planned. *)
Definition tallies (c : StressConfig) (p : Progress) : Prop :=
  0 ≤ p_completed p ∧ 0 ≤ p_infra_errors p ∧ 0 ≤ p_timed_out p ∧ 0 ≤ p_reproductions p ∧ 0 ≤ p_unattributed p
  ∧ p_reproductions p + p_unattributed p ≤ p_completed p
  ∧ (p_triggering p ≠ None ↔ 0 < p_reproductions p)
  ∧ (∀ t, p_triggering p = Some t → planned_trigger c t)
  ∧ (p_stop p = true ↔ p_triggering p ≠ None ∧ stop_on_first c = true).

(** The same of a result, which covers at most [planned] trials. *)
Definition reported_ok (c : StressConfig) (planned : Z) (r : StressResult) : Prop :=
  0 ≤ completed_trials r ∧ 0 ≤ infra_errors r ∧ 0 ≤ timed_out r ∧ 0 ≤ reproductions r ∧ 0 ≤ unattributed r
  ∧ reproductions r + unattributed r ≤ completed_trials r
  ∧ completed_trials r + infra_errors r + timed_out r ≤ planned
  ∧ (triggering r ≠ None ↔ 0 < reproductions r)
  ∧ (∀ t, triggering r = Some t → planned_trigger c t).

Lemma tallies_reported c b targets p path planned : tallies c p → attempted p ≤ planned →
  reported_ok c planned (result_of c b targets p path).
Proof. intros (? & ? & ? & ? & ? & ? & ? & ? & ?) Ha. unfold reported_ok, attempted in *. cbn. by split_and!. Qed.

Lemma tallies_count c p t o rejected targets : tallies c p → p_stop p = false → counted_once o →
  is_isolate c = false → t ∈ trial_schedule c targets →
  (∀ tc, ar_triggering o = Some tc → ∃ hung n, tc = triggering_of c t hung n ∧ 1 ≤ n) →
  tallies c (count_attempt c p o rejected) ∧ attempted (count_attempt c p o rejected) = attempted p + 1.
Proof.
  intros (H1 & H2 & H3 & H4 & H5 & H6 & H7 & H8 & H9) Hs (C1 & C2 & C3 & _ & C5 & C6 & C7 & C8 & C9) Hi Ht Htr.
  unfold tallies, attempted. cbn. split; [|lia]. split_and!; try lia.
  - destruct (p_triggering p) as [x|].
    + assert (0 < p_reproductions p) by by apply (proj1 H7). split; [lia|intros _ E; discriminate E].
    + rewrite C9. assert (¬ 0 < p_reproductions p) by (intros H; by apply (proj2 H7 H)). lia.
  - intros tc Htc. destruct (p_triggering p) as [x|]; [injection Htc as <-; by apply H8|].
    destruct (Htr tc Htc) as (hung & n & -> & Hn). by eapply schedule_trigger.
  - rewrite Hs, orb_false_l, andb_true_iff, bool_decide_eq_true. destruct (p_triggering p) as [x|]; [|done].
    split; [intros [_ ?]; by split|]. intros [_ ?]. destruct H9 as [_ H9]. rewrite H9 in Hs by done. done.
Qed.

(** ** The world during a search *)

Section Reports.
Context {W : Type}.
Variable target_run : Launch → W → W * Run.
Variable log_write : W → W * LogWrite.
Variable new_rejected_name : string → gset string → option string.
Variable owned : string → string → bool.
Variable loads : string → option json.
Variable repr : json → string.
Variable on_progress : StressResult → gmap string DelayFile → gmap string string → W → W * option exn.

Notation run_attempt := (run_attempt target_run new_rejected_name loads repr).
Notation search_step := (search_step target_run log_write new_rejected_name owned loads repr on_progress).
Notation search := (search target_run log_write new_rejected_name owned loads repr on_progress).
Notation start := (start target_run log_write owned loads).
Notation run_stress := (run_stress target_run log_write new_rejected_name owned loads repr on_progress).

Variable c : StressConfig.
Variable planned : Z.

(** The configuration known before the next report. *)
Definition prior (pub : list StressResult) : option TriggeringConfig :=
  match last pub with
  | Some r => triggering r
  | None => resume_result c ≫= triggering
  end.

(** [I pub w]: what holds of the world once [pub] has been reported. *)
Variable I : list StressResult → W → Prop.
Hypothesis keep_run : ∀ pub l w, I pub w → I pub (target_run l w).1.
Hypothesis keep_log : ∀ pub w, I pub w → I pub (log_write w).1.
Hypothesis keep_report : ∀ pub r cs ls w,
  reported_ok c planned r → (prior pub = None ∨ stop_on_first c = false) →
  (∀ t, prior pub = Some t → triggering r = Some t) →
  I pub w → I (pub ++ [r]) (on_progress r cs ls w).1.

Definition holds (pub : list StressResult) (s : Store W) : Prop := published s = pub ∧ I pub (world s).

Lemma holds_configs pub f : preserves (holds pub) (set_configs f : st (Store W) exn ()).
Proof. by intros s s' r [= <- <-]. Qed.
Lemma holds_logs pub f : preserves (holds pub) (set_logs f : st (Store W) exn ()).
Proof. by intros s s' r [= <- <-]. Qed.
Lemma holds_launch pub l keep : preserves (holds pub) (launch target_run l keep).
Proof.
  intros s s' r H [Hp Hi]. unfold launch in H. specialize (keep_run pub l _ Hi). destruct (target_run l (world s)) as [w x].
  cbn in H. by destruct (ending x); injection H as <- <-.
Qed.
Lemma holds_log_outcome pub : preserves (holds pub) (log_outcome log_write).
Proof.
  intros s s' r H [Hp Hi]. unfold log_outcome in H. specialize (keep_log pub _ Hi). destruct (log_write (world s)) as [w x].
  by injection H as <- <-.
Qed.
Local Hint Resolve holds_configs holds_logs holds_launch holds_log_outcome : cutracer.

(** Follows the shape of a computation. *)
Local Ltac keep := repeat first
  [ progress intros
  | solve [eauto with cutracer]
  | apply preserves_bind
  | match goal with
    | |- preserves _ (match ?x with _ => _ end) => destruct x
    | |- preserves _ (let _ := _ in _) => cbv zeta
    end ].

Lemma holds_unlink pub path : preserves (holds pub) (unlink path : st (Store W) exn ()).
Proof. apply holds_configs. Qed.
Local Hint Resolve holds_unlink : cutracer.

Lemma holds_preserve pub path : preserves (holds pub) (preserve_rejected_config new_rejected_name path : st (Store W) exn _).
Proof. unfold preserve_rejected_config. keep. Qed.
Local Hint Resolve holds_preserve : cutracer.

Lemma holds_reject pub path log h p : preserves (holds pub) (reject new_rejected_name repr path log h p : st (Store W) exn _).
Proof. unfold reject. keep. Qed.
Local Hint Resolve holds_reject : cutracer.

Lemma holds_judge pub t r code wd log : preserves (holds pub) (judge_attempt new_rejected_name loads repr c t r code wd log : st (Store W) exn _).
Proof. unfold judge_attempt. keep. Qed.
Local Hint Resolve holds_judge : cutracer.

Lemma holds_attempt pub t : preserves (holds pub) (run_attempt c t).
Proof. unfold StressSearch.run_attempt. keep. Qed.

Lemma holds_record pub paths o : preserves (holds pub) (record_rejected owned c paths o : st (Store W) exn _).
Proof. unfold record_rejected, drop_unretained. keep. Qed.

Lemma holds_bounded pub paths : preserves (holds pub) (bounded_rejected owned c paths : st (Store W) exn _).
Proof. unfold bounded_rejected, drop_unretained. keep. Qed.

Lemma holds_write pub part append : preserves (holds pub) (write_stress_log log_write c part append).
Proof. unfold write_stress_log. keep. Qed.

Lemma holds_prepare pub r : preserves (holds pub) (prepare_stress_log c r : st (Store W) exn _).
Proof. unfold prepare_stress_log. keep. Qed.

Lemma holds_baseline pub : preserves (holds pub) (run_baseline target_run loads c).
Proof.
  unfold run_baseline. keep. generalize (seqZ 0 (baseline_runs c)) as runs.
  generalize (mkBaselineResult (baseline_runs c) 0 0 0 0 [] 0 None) as b. intros b runs. revert b.
  induction runs as [|x runs IH]; intros b; cbn [baseline_runs_from]; [keep|]. apply preserves_bind; [|intros; by apply IH].
  unfold baseline_run. keep.
Qed.
Local Hint Resolve holds_attempt holds_record holds_bounded holds_write holds_prepare holds_baseline : cutracer.

Lemma holds_start pub : preserves (holds pub) (start c).
Proof. unfold StressSearch.start. keep. Qed.

Hypothesis fresh : fresh_names new_rejected_name c.
Hypothesis random : is_isolate c = false.

(** A report keeps the invariant, also when the callback raises. *)
Lemma publish_reports pub r (s s' : Store W) x :
  reported_ok c planned r → (prior pub = None ∨ stop_on_first c = false) →
  (∀ t, prior pub = Some t → triggering r = Some t) →
  holds pub s → publish on_progress r s = (s', x) → holds (pub ++ [r]) s'.
Proof.
  intros Hr Hs Hp [Hpub Hi] H. unfold publish in H.
  pose proof (keep_report pub r (configs s) (logs s) _ Hr Hs Hp Hi) as Hk.
  destruct (on_progress _ _ _ _) as [w o]. injection H as <- <-. by split; [cbn; rewrite Hpub|].
Qed.

Lemma log_attempt_reports b targets pub p log (s s' : Store W) x :
  tallies c p → attempted p ≤ planned → (prior pub = None ∨ stop_on_first c = false) →
  (∀ t, prior pub = Some t → p_triggering p = Some t) →
  holds pub s → log_attempt log_write on_progress c b targets p log s = (s', x) →
  (∃ r, holds (pub ++ [r]) s')
  ∧ ∀ p', x = Ok p' → ∃ size, p' = logged p (stress_log c) size
      ∧ holds (pub ++ [result_of c b targets p' (p_log_path p')]) s'.
Proof.
  intros Ht Ha Hs Hp Hh H. unfold log_attempt in H.
  destruct (write_stress_log _ _ _ _ s) as [s1 [[path size]|e]] eqn:Ew; pose proof (holds_write pub _ _ _ _ _ Ew Hh) as H1.
  - destruct (write_stress_log_ok _ _ _ _ _ _ _ _ Ew) as (_ & _ & [= ->] & _).
    set (p1 := logged p (stress_log c) size) in *.
    assert (Hr : reported_ok c planned (result_of c b targets p1 (Some (stress_log c)))) by by apply tallies_reported.
    unfold mbind, st_bind in H. destruct (publish on_progress _ s1) as [s2 [[]|e]] eqn:Ep;
      (eapply publish_reports in Ep; [|done|done|done|done]); injection H as <- <-; (split; [eauto|]); [|done].
    intros p' [= <-]. eauto.
  - assert (Hr : reported_ok c planned (result_of c b targets p None)) by by apply tallies_reported.
    unfold mbind, st_bind in H. destruct (publish on_progress _ s1) as [s2 [[]|e']] eqn:Ep;
      (eapply publish_reports in Ep; [|done|done|done|done]); injection H as <- <-; split; eauto; done.
Qed.

Lemma search_step_reports b targets p t (s s' : Store W) x :
  tallies c p → p_stop p = false → attempted p + 1 ≤ planned → t ∈ trial_schedule c targets →
  p_triggering p = prior (published s) → I (published s) (world s) →
  search_step c b targets p t s = (s', x) →
  I (published s') (world s')
  ∧ ∀ p', x = Ok p' → tallies c p' ∧ attempted p' = attempted p + 1
      ∧ published s' = published s ++ [result_of c b targets p' (p_log_path p')].
Proof.
  intros Ht Hs Ha Hin Hp Hi H. assert (Hh : holds (published s) s) by done.
  unfold StressSearch.search_step, mbind, st_bind in H.
  destruct (run_attempt c t s) as [s1 [o|e]] eqn:Eo; pose proof (holds_attempt (published s) t _ _ _ Eo Hh) as H1.
  2: { injection H as <- <-. destruct H1 as [-> ?]. by split. }
  assert (Hpost : attempt_post target_run loads c t (config_path_of c t) (world s) s s1 o) by by eapply run_attempt_post.
  destruct Hpost as (Hc & _ & Hev).
  destruct (record_rejected owned c _ _ s1) as [s2 [rejected|e]] eqn:Er; pose proof (holds_record (published s) _ _ _ _ _ Er H1) as H2.
  2: { injection H as <- <-. destruct H2 as [-> ?]. by split. }
  destruct (tallies_count c p t o rejected targets Ht Hs Hc random Hin) as [Ht' Ha'].
  { intros tc Htc. destruct (Hev tc Htc) as (w' & r & hung & name & checksum & n & file & _ & _ & -> & _ & _ & _ & Hv).
    apply validate_delay_config_sound in Hv as [Hv _]. eauto. }
  assert (Hstop : prior (published s) = None ∨ stop_on_first c = false).
  { destruct (prior (published s)) as [x0|] eqn:Epr; [|by left]. right. destruct (stop_on_first c) eqn:Es; [|done].
    destruct Ht as (_ & _ & _ & _ & _ & _ & _ & _ & [_ Hst]). rewrite Hst in Hs; [done|]. rewrite Hp. done. }
  assert (Htr : ∀ t0, prior (published s) = Some t0 → p_triggering (count_attempt c p o rejected) = Some t0).
  { intros t0 Et. cbn. by rewrite Hp, Et. }
  destruct (log_attempt_reports b targets (published s) _ _ _ _ _ Ht' ltac:(lia) Hstop Htr H2 H) as ((r & Hr) & Hok).
  split; [by destruct Hr as [-> ?]|]. intros p' Ep. destruct (Hok p' Ep) as (size & -> & Hh' & _). by split_and!.
Qed.

Lemma search_reports b targets trials : ∀ p (s s' : Store W) x,
  tallies c p → attempted p + Z.of_nat (length trials) ≤ planned → (∀ t, t ∈ trials → t ∈ trial_schedule c targets) →
  p_triggering p = prior (published s) → I (published s) (world s) →
  search c b targets p trials s = (s', x) →
  I (published s') (world s')
  ∧ ∀ p', x = Ok p' → tallies c p' ∧ attempted p' ≤ planned
      ∧ (p' = p ∧ s' = s ∨ last (published s') = Some (result_of c b targets p' (p_log_path p'))).
Proof.
  induction trials as [|t l IH]; intros p s s' x Ht Ha Hin Hp Hi H; cbn [StressSearch.search] in H.
  { injection H as <- <-. split; [done|]. intros p' [= <-]. split_and!; [done|cbn in Ha; lia|by left]. }
  cbn [length] in Ha.
  destruct (p_stop p) eqn:Es. { injection H as <- <-. split; [done|]. intros p' [= <-]. split_and!; [done|lia|by left]. }
  unfold mbind, st_bind in H. destruct (search_step c b targets p t s) as [s1 [p1|e]] eqn:E1.
  all: destruct (search_step_reports b targets p t s _ _ Ht Es ltac:(lia) ltac:(apply Hin; by left) Hp Hi E1) as [Hi1 Hok].
  2: { by injection H as <- <-. }
  destruct (Hok p1 eq_refl) as (Ht1 & Ha1 & Hpub).
  assert (Hp1 : p_triggering p1 = prior (published s1)) by (unfold prior; by rewrite Hpub, last_snoc).
  destruct (IH p1 s1 s' x Ht1 ltac:(lia) ltac:(intros u Hu; apply Hin; by right) Hp1 Hi1 H) as [Hi' Hok'].
  split; [done|]. intros p' Ep. destruct (Hok' p' Ep) as (Ht' & Ha' & [[-> ->]|Hl]); (split_and!; [done|done|right]); [|done].
  by rewrite Hpub, last_snoc.
Qed.

(** ** The whole search *)

Hypothesis enough : Z.of_nat (length (trial_schedule c [])) ≤ planned.
Hypothesis resumed : ∀ r t, resume_result c = Some r → triggering r = Some t → planned_trigger c t.

(** The counts a search starts from. *)
Definition starting (r : StressResult) : Prop :=
  match resume_result c with
  | None => completed_trials r = 0 ∧ reproductions r = 0 ∧ infra_errors r = 0 ∧ timed_out r = 0 ∧ unattributed r = 0
            ∧ triggering r = None
  | Some r0 => completed_trials r = completed_trials r0 ∧ reproductions r = reproductions r0
               ∧ infra_errors r = infra_errors r0 ∧ timed_out r = timed_out r0 ∧ unattributed r = unattributed r0
               ∧ triggering r = triggering r0
  end.

Lemma initial_tallies rejected path size planned' present :
  progress_ok (initial_progress c rejected None 0) planned' present = true →
  tallies c (initial_progress c rejected path size) ∧ attempted (initial_progress c rejected path size) ≤ planned'.
Proof.
  unfold progress_ok, tallies, attempted, initial_progress. destruct (resume_result c) as [r|] eqn:Er; cbn.
  2: { intros H. split_and!; try lia; try done. split; [done|]. by intros [? _]. }
  rewrite !andb_true_iff, !negb_true_iff. intros [[H1 H2] H3].
  assert (Hp : triggering r ≠ None ↔ 0 < reproductions r).
  { destruct (triggering r) as [t|]; [|rewrite negb_true_iff in H3; split; [done|lia]].
    rewrite andb_true_iff, negb_true_iff in H3. split; [lia|intros _ E; discriminate E]. }
  split; [|lia]. split_and!; [lia|lia|lia|lia|lia|lia|done|by intros t Ht; eapply resumed|].
  by rewrite bool_decide_eq_true.
Qed.

Lemma schedule_random targets : trial_schedule c targets = trial_schedule c [].
Proof. unfold trial_schedule. by rewrite random. Qed.

Lemma start_reports (s s' : Store W) x : published s = [] → I [] (world s) → start c s = (s', x) →
  holds [] s' ∧ ∀ b targets p, x = Ok (b, targets, p) →
    tallies c p ∧ attempted p ≤ Z.of_nat (length (trial_schedule c targets))
    ∧ p_triggering p = prior [] ∧ ∃ rejected path size, p = initial_progress c rejected path size.
Proof.
  intros Hp Hi H. assert (Hh : holds [] s) by by split. split; [by eapply holds_start|].
  intros b targets p ->. unfold StressSearch.start in H.
  apply st_bind_ok in H as (s1 & b' & _ & H). apply st_bind_ok in H as (s2 & rejected & _ & H).
  apply st_bind_ok in H as (s3 & targets' & _ & H). apply st_bind_ok in H as (s4 & [] & _ & H).
  apply st_bind_ok in H as (s5 & s6 & _ & H). cbv zeta in H. apply st_bind_ok in H as (s7 & [] & Hok & H).
  apply st_bind_ok in H as (s8 & [path size] & _ & H). apply st_bind_ok in H as (s9 & [path' size'] & _ & H).
  injection H as _ _ <- <-. destruct (progress_ok _ _ _) eqn:E in Hok; [|done].
  destruct (initial_tallies rejected path' size' _ _ E) as [Ht Ha]. split_and!; [done|done| |eauto].
  unfold initial_progress, prior. cbn. by destruct (resume_result c).
Qed.

Lemma search_starting b targets rejected path size path' :
  starting (result_of c b targets (initial_progress c rejected path size) path').
Proof. unfold starting, initial_progress. destruct (resume_result c); cbn; by split_and!. Qed.

(** However a search ends, the world has what every report keeps; a result has
    counts that fit the plan and is the last one reported, or what the search
    started from. *)
Lemma run_stress_reports (s s' : Store W) x : published s = [] → I [] (world s) → run_stress c s = (s', x) →
  I (published s') (world s')
  ∧ ∀ r, x = Ok r → reported_ok c planned r
      ∧ match last (published s') with Some r' => r = r' | None => starting r end.
Proof.
  intros Hp Hi H. unfold StressSearch.run_stress, mbind, st_bind in H.
  destruct (start c s) as [s1 [[[b targets] p]|e]] eqn:Es; destruct (start_reports s _ _ Hp Hi Es) as [[Hp1 Hi1] Hok].
  2: { injection H as <- <-. by rewrite Hp1. }
  destruct (Hok b targets p eq_refl) as (Ht & Ha & Htr & Hinit). rewrite schedule_random in Ha, H.
  assert (Hlen : attempted p + Z.of_nat (length (drop (Z.to_nat (attempted p)) (trial_schedule c []))) ≤ planned).
  { destruct Ht as (? & ? & ? & _). rewrite length_drop. unfold attempted in *. lia. }
  assert (Hin : ∀ t, t ∈ drop (Z.to_nat (attempted p)) (trial_schedule c []) → t ∈ trial_schedule c targets).
  { intros t Hd. rewrite schedule_random. by eapply elem_of_sublist, sublist_drop. }
  rewrite <- Hp1 in Htr, Hi1.
  destruct (search c b targets p _ s1) as [s2 [p2|e]] eqn:E2;
    destruct (search_reports b targets _ p s1 _ _ Ht Hlen Hin Htr Hi1 E2) as [Hi2 Hok2]; injection H as <- <-; (split; [done|]); [|done].
  intros r [= <-]. destruct (Hok2 p2 eq_refl) as (Ht2 & Ha2 & Hor). split; [by apply tallies_reported|].
  destruct Hor as [[-> ->]|Hl]; [|by rewrite Hl]. rewrite Hp1. cbn. destruct Hinit as (rejected & path & size & ->).
  apply search_starting.
Qed.
End Reports.
