(* ===== verification/StressExperimentProperties.v ===== *)
(** What the service's adapter over the stress search guarantees
    (service/experiments/stress.py): every progress it reports and every result
    it returns is one the session accepts, a clean verdict is earned, and only
    the environment makes it raise. *)
From S2P Require Import Prelude.
From S2P Require Import PyStr.
From S2P Require Import PyDict.
From S2P Require Import PyText.
From S2P Require Import Json.
From S2P Require Import Ratio.
From S2P Require Import Contracts.
From S2P Require Import Results.
From S2P Require Import Experiments.
From S2P Require Import SessionContracts.
From S2P Require Import SessionValidation.
From S2P Require Import StressPlan.
From S2P Require Import StressSearch.
From S2P Require Import StressProperties.
From S2P Require Import StressReports.
From S2P Require Import StressExperiment.
From Stdlib Require Import Ascii.
From Stdlib Require Import Floats.SpecFloat.
Local Open Scope Z_scope.

(** ** What the session accepts *)

(** The checks of [session.py] that look at a stress result. *)
Definition accepted (sp : ExperimentSpec) (r : StressTestResult) : Prop :=
  StressTestResult_check r = Ok () ∧ validate_provenance sp (Experiments.StressResult r) = Ok ()
  ∧ validate_stress_result sp r = Ok ().

Section Accepted.
Variable sp : ExperimentSpec.
Variable o : StressOptions.
Hypothesis options : sp_stress sp = Some o.
Hypothesis options_ok : StressOptions_check o = Ok ().
Variables cutracer_version toolchain_version : string.

Notation provenance := (provenance sp cutracer_version toolchain_version).

(** A configuration of the plan, replayable in the unit. *)
Definition conforms (t : TriggeringDelayConfig) : Prop :=
  same_replay_context t (sp_unit sp) = true
  ∧ Contracts.cutracer_version t = cutracer_version ∧ Contracts.tc_toolchain_version t = toolchain_version
  ∧ Contracts.tc_delay_ns t ∈ Contracts.delay_ladder_ns o ∧ f_eq (Contracts.enable_prob t) (so_enable_prob o) = true
  ∧ match Contracts.warpgroup_ids o, Contracts.warpgroup_id t with
    | [], None => True
    | ws, Some w => w ∈ ws
    | _, None => False
    end
  ∧ 0 ≤ Contracts.attempt_index t < Contracts.attempts_per_delay o.

(** Counts, provenance and plan of a result. *)
Definition well_counted (r : StressTestResult) : Prop :=
  st_provenance r = provenance ∧ st_planned_trials r = planned_trials o
  ∧ 0 ≤ st_completed_trials r ∧ 0 ≤ st_reproductions r ∧ 0 ≤ Results.infra_errors r ∧ 0 ≤ timed_out_trials r
  ∧ 0 ≤ unattributed_reproductions r
  ∧ st_reproductions r + unattributed_reproductions r ≤ st_completed_trials r
  ∧ st_completed_trials r + timed_out_trials r ≤ planned_trials o
  ∧ (length (rejected_configs r) ≤ 16)%nat.

(** The configuration was written with these counts. *)
Definition counts_match (t : TriggeringDelayConfig) (n k : Z) : Prop :=
  Contracts.completed_trials t = n ∧ Contracts.reproductions t = k.

Definition trigger_matches (r : StressTestResult) : Prop :=
  ∀ t, triggering_config r = Some t →
    conforms t ∧ 0 < st_reproductions r ∧ counts_match t (st_completed_trials r) (st_reproductions r).

Lemma well_counted_check r : well_counted r → StressTestResult_check r = Ok ().
Proof.
  intros (_ & E & H1 & H2 & H3 & H4 & H5 & H6 & H7 & H8). unfold StressTestResult_check. cbn [existsb].
  repeat match goal with |- context [?a <? 0] => destruct (Z.ltb_spec a 0); [lia|] end. cbn [orb].
  destruct (Z.ltb_spec (st_completed_trials r) (st_reproductions r + unattributed_reproductions r)); [lia|].
  destruct (Nat.ltb_spec MAX_REJECTED_CONFIGS (length (rejected_configs r))); [|done].
  change MAX_REJECTED_CONFIGS with 16%nat in *. lia.
Qed.

Lemma well_counted_provenance r : well_counted r → validate_provenance sp (Experiments.StressResult r) = Ok ().
Proof.
  intros (E & _). unfold validate_provenance. cbn [result_provenance]. rewrite E. cbn.
  rewrite !bool_decide_true by done. cbn. destruct (kernel (sp_unit sp)); [|done]. by rewrite !bool_decide_true.
Qed.

Lemma well_counted_counts r : well_counted r → validate_stress_counts sp r = Ok ().
Proof.
  intros (_ & E & H1 & H2 & H3 & H4 & H5 & H6 & H7 & _). unfold validate_stress_counts. rewrite options. cbn.
  rewrite E, Z.eqb_refl. cbn. unfold reject_if.
  repeat match goal with |- context [?a <? ?b] => destruct (Z.ltb_spec a b); [lia|] end. done.
Qed.

(** The checks of a configuration, up to its counts. *)
Lemma conforms_valid r t : st_provenance r = provenance → conforms t →
  validate_triggering_config sp r t
  = reject_if (negb (Contracts.completed_trials t =? st_completed_trials r)
               || negb (Contracts.reproductions t =? st_reproductions r)) "trigger_config_mismatch".
Proof.
  intros E (H1 & H2 & H3 & H4 & H5 & H6 & H7). unfold validate_triggering_config. rewrite H1, E, H2, H3. cbn.
  rewrite !bool_decide_true by done. cbn. rewrite options. cbn. rewrite bool_decide_true by done. cbn. rewrite H5. cbn.
  destruct (Contracts.warpgroup_ids o) as [|w ws] eqn:Ew.
  - destruct (warpgroup_id t) as [x|]; [by apply not_elem_of_nil in H6|]. cbn.
    destruct (Z.leb_spec 0 (attempt_index t)), (Z.ltb_spec (attempt_index t) (Contracts.attempts_per_delay o)); [done|lia..].
  - destruct (warpgroup_id t) as [x|]; [|done]. rewrite bool_decide_true by done. cbn.
    destruct (Z.leb_spec 0 (attempt_index t)), (Z.ltb_spec (attempt_index t) (Contracts.attempts_per_delay o)); [done|lia..].
Qed.

Lemma trigger_matches_valid r : st_provenance r = provenance → trigger_matches r →
  validate_stress_triggering_config sp r = Ok ().
Proof.
  intros E H. unfold validate_stress_triggering_config. destruct (triggering_config r) as [t|] eqn:Et; [|done].
  destruct (H t Et) as (Hc & Hk & H1 & H2). unfold reject_if at 1. destruct (Z.eqb_spec (st_reproductions r) 0); [lia|].
  change (validate_triggering_config sp r t = Ok ()). rewrite conforms_valid by done. by rewrite H1, H2, !Z.eqb_refl.
Qed.

(** A partial result with the outcome its counts and configuration call for. *)
Definition partially (r : StressTestResult) : Prop :=
  st_completeness r = Partial
  ∧ st_outcome r = partial_stress_outcome (triggering_config r) (st_reproductions r) (unattributed_reproductions r).

Lemma partial_completeness r : partially r → validate_stress_completeness sp r = Ok ().
Proof. intros [E _]. unfold validate_stress_completeness. rewrite options, E. cbn. by destruct (st_outcome r). Qed.

Lemma partial_accepted r : well_counted r → trigger_matches r → partially r → accepted sp r.
Proof.
  intros Hw Ht Hp. split_and!; [by apply well_counted_check|by apply well_counted_provenance|].
  unfold validate_stress_result. rewrite well_counted_counts by done. cbn.
  unfold validate_stress_outcome. rewrite trigger_matches_valid by (apply Hw || done). cbn.
  rewrite partial_completeness by done. unfold validate_skipped_stress_outcome. destruct Hp as [_ ->].
  unfold trigger_matches, partial_stress_outcome in *. destruct (triggering_config r) as [t|] eqn:Et.
  - destruct (Ht t eq_refl) as (_ & Hk & _). cbn. destruct (Z.eqb_spec (st_reproductions r) 0); [lia|done].
  - destruct (Z.eqb_spec (st_reproductions r) 0), (Z.ltb_spec 0 (unattributed_reproductions r)); cbn; try done.
    destruct (Z.eqb_spec (unattributed_reproductions r) 0); [lia|done].
Qed.

(** A configuration whose counts are not the result's makes the session refuse
    the result. *)
Lemma stale_refused r t : well_counted r → partially r → triggering_config r = Some t → conforms t →
  0 < st_reproductions r → ¬ counts_match t (st_completed_trials r) (st_reproductions r) →
  validate_stress_result sp r = Err (Rejected "trigger_config_mismatch").
Proof.
  intros Hw Hp Et Hc Hk Hn. unfold validate_stress_result. rewrite well_counted_counts by done. cbn.
  unfold validate_stress_outcome, validate_stress_triggering_config. rewrite Et. unfold reject_if at 1.
  destruct (Z.eqb_spec (st_reproductions r) 0); [lia|]. cbn [mbind res_bind].
  rewrite conforms_valid by (apply Hw || done).
  unfold reject_if, counts_match in *.
  destruct (Z.eqb_spec (Contracts.completed_trials t) (st_completed_trials r)), (Z.eqb_spec (Contracts.reproductions t) (st_reproductions r));
    try done. by destruct Hn.
Qed.

Lemma campaign_completed_iff (core : CoreResult) n : campaign_completed core n = true ↔
  completed_trials core = n ∧ infra_errors core = 0 ∧ timed_out core = 0.
Proof. unfold campaign_completed. rewrite !andb_true_iff, !Z.eqb_eq. tauto. Qed.

(** A result of a search that returned, classified by its counts. *)
Lemma classified_accepted r (core : CoreResult) : well_counted r → trigger_matches r →
  st_completed_trials r = completed_trials core → st_reproductions r = reproductions core →
  Results.infra_errors r = infra_errors core → timed_out_trials r = timed_out core →
  unattributed_reproductions r = unattributed core →
  completed_trials core + infra_errors core + timed_out core ≤ planned_trials o →
  0 < planned_trials o → (triggering_config r = None → reproductions core = 0) →
  (st_outcome r, st_execution_status r, st_error r, st_completeness r)
  = classify_stress_result core (planned_trials o) (stop_on_first_reproduction o) (bool_decide (triggering_config r ≠ None)) →
  accepted sp r.
Proof.
  intros Hw Ht E1 E2 E3 E4 E5 Hsum Hpos Hnone Hcl.
  split_and!; [by apply well_counted_check|by apply well_counted_provenance|].
  unfold validate_stress_result. rewrite well_counted_counts by done. cbn [mbind res_bind].
  unfold validate_stress_outcome. rewrite trigger_matches_valid by (apply Hw || done). cbn [mbind res_bind].
  unfold validate_stress_completeness, validate_skipped_stress_outcome, stress_has_trustworthy_non_reproduction.
  rewrite options. cbn [assert_some mbind res_bind].
  destruct Hw as (_ & -> & H1 & H2 & H3 & H4 & H5 & H6 & H7 & _).
  rewrite E1, E2, E3, E4, E5 in *. unfold classify_stress_result in Hcl.
  pose proof (campaign_completed_iff core (planned_trials o)) as Hcc.
  destruct (triggering_config r) as [t|] eqn:Et.
  - rewrite bool_decide_true in Hcl by done. destruct (Ht t Et) as (_ & Hk & _). rewrite E2 in Hk.
    assert (Hr : (reproductions core =? 0) = false) by (apply Z.eqb_neq; lia).
    destruct (campaign_completed core (planned_trials o)).
    + injection Hcl as -> _ _ ->. destruct (proj1 Hcc eq_refl) as (-> & -> & ->). cbn. rewrite Hr. cbn.
      by rewrite (Z.eqb_refl (planned_trials o)).
    + destruct (stop_on_first_reproduction o && _ && _ && _) eqn:Ee; injection Hcl as -> _ _ ->; cbn; rewrite Hr; cbn; [|done].
      rewrite !andb_true_iff, Z.ltb_lt, !Z.eqb_eq in Ee. destruct Ee as (((-> & Hlt) & Hi) & Htm). rewrite Hi, Htm. cbn.
      destruct (Z.leb_spec (planned_trials o) (completed_trials core)); [lia|done].
  - rewrite bool_decide_false in Hcl by (intros H; by apply H). specialize (Hnone eq_refl). rewrite Hnone in *. cbn in Hcl.
    destruct (Z.ltb_spec 0 (unattributed core)) as [Hu|Hu].
    + assert (Hu0 : (unattributed core =? 0) = false) by (apply Z.eqb_neq; lia).
      destruct (campaign_completed core (planned_trials o)); injection Hcl as -> _ _ ->; cbn; rewrite Hu0; cbn; [|done].
      destruct (proj1 Hcc eq_refl) as (-> & -> & ->). by rewrite (Z.eqb_refl (planned_trials o)).
    + assert (unattributed core = 0) as -> by lia. rewrite andb_true_r in Hcl.
      destruct (campaign_completed core (planned_trials o)).
      * injection Hcl as -> -> _ ->. destruct (proj1 Hcc eq_refl) as (-> & -> & ->). cbn.
        rewrite (Z.eqb_refl (planned_trials o)). destruct (Z.ltb_spec 0 (planned_trials o)); [done|lia].
      * destruct (0 <? infra_errors core); [injection Hcl as -> -> _ ->; done|].
        destruct (0 <? timed_out core); by injection Hcl as -> -> _ ->.
Qed.
End Accepted.

(** ** Steps of the adapter *)

Section Adapter.
Context {W : Type}.
Variable target_run : Launch → W → W * Run.
Variable log_write : W → W * LogWrite.
Variable new_rejected_name : string → gset string → option string.
Variable owned : string → string → bool.
Variable loads : string → option json.
Variable repr : json → string.
Variable copy_file : W → W * Copying.
Variable unlink_ok : W → W * bool.
Variable elapsed : W → W * float.
Variable exn_text : exn → string.
Variable config_text : DelayFile → string.
Variable local_file_uri : string → string.
Variable callback : option (StressTestResult → W → W * option exn).

Notation AM := (st (Service W) exn).

(** What copying files and asking the environment leave alone. *)
Definition view (s : Service W) := (latest s, latest_core s, reported s).

(** From [s], [m] returns a value with [Q], the view unchanged. *)
Definition runs {A} (s : Service W) (m : AM A) (Q : A → Prop) : Prop :=
  ∃ s' a, m s = (s', Ok a) ∧ view s' = view s ∧ Q a.
(** The same, or it raises [OSError]. *)
Definition runs_or_os {A} (s : Service W) (m : AM A) (Q : A → Prop) : Prop :=
  ∃ s', view s' = view s ∧ ((∃ a, m s = (s', Ok a) ∧ Q a) ∨ m s = (s', Err OSError)).

Lemma runs_ret {A} s (a : A) (Q : A → Prop) : Q a → runs s (mret a) Q.
Proof. intros H. by exists s, a. Qed.

Lemma runs_bind {A B} s (m : AM A) (k : A → AM B) (P : A → Prop) (Q : B → Prop) :
  runs s m P → (∀ s' a, view s' = view s → P a → runs s' (k a) Q) → runs s (m ≫= k) Q.
Proof.
  intros (s1 & a & Hm & Hv & Hp) Hk. destruct (Hk s1 a Hv Hp) as (s2 & b & Hb & Hv2 & Hq).
  exists s2, b. split_and!; [|by rewrite Hv2|done]. unfold mbind, st_bind. by rewrite Hm.
Qed.

Lemma runs_weaken {A} s (m : AM A) (P Q : A → Prop) : runs s m P → (∀ a, P a → Q a) → runs s m Q.
Proof. intros (s' & a & H & Hv & Hp) HPQ. exists s', a. auto. Qed.

Lemma runs_get s : runs s (st_get : AM _) (λ s', s' = s).
Proof. by exists s, s. Qed.

Lemma runs_ask {A} s (step : W → W * A) : runs s (ask step) (λ _, True).
Proof. unfold runs, ask. destruct (step (env_ s)) as [w a] eqn:E. exists (with_env s w), a. done. Qed.

Lemma runs_modify s f : view (f s) = view s → runs s (st_modify f : AM ()) (λ _, True).
Proof. intros H. by exists (f s), (). Qed.

Lemma runs_catch {A} s (m : AM A) (h : exn → AM A) catches Q :
  runs_or_os s m Q → catches OSError = true → (∀ s', view s' = view s → runs s' (h OSError) Q) →
  runs s (try_catch catches m h) Q.
Proof.
  intros (s' & Hv & [(a & Hm & Hq)|Hm]) Hc Hh; unfold runs, try_catch; rewrite Hm; [by exists s', a|]. rewrite Hc.
  destruct (Hh s' Hv) as (s2 & a & Ha & Hv2 & Hq). exists s2, a. by rewrite Hv2.
Qed.

Lemma os_bind {A B} s (m : AM A) (k : A → AM B) (P : A → Prop) (Q : B → Prop) :
  runs_or_os s m P → (∀ s' a, view s' = view s → P a → runs s' (k a) Q) → runs_or_os s (m ≫= k) Q.
Proof.
  intros (s1 & Hv & [(a & Hm & Hp)|Hm]) Hk.
  - destruct (Hk s1 a Hv Hp) as (s2 & b & Hb & Hv2 & Hq). exists s2. split; [by rewrite Hv2|]. left. exists b.
    unfold mbind, st_bind. by rewrite Hm.
  - exists s1. split; [done|]. right. unfold mbind, st_bind. by rewrite Hm.
Qed.

Lemma runs_attempt {A} s (m : AM A) Q : runs_or_os s m Q →
  runs s (attempt_os m) (λ r, match r with inl a => Q a | inr e => e = OSError end).
Proof.
  intros H. apply runs_catch; [|done|intros; by apply runs_ret].
  eapply os_bind; [exact H|]. intros s' a _ Ha. by apply runs_ret.
Qed.

Notation publish_local_artifact := (publish_local_artifact copy_file config_text local_file_uri).

Lemma publish_runs s out_dir source name media addressed :
  runs_or_os s (publish_local_artifact out_dir source name media addressed) (λ a, source ≠ None).
Proof.
  unfold StressExperiment.publish_local_artifact. destruct source as [file|]; [|exists s; split; [done|by right]]. cbv zeta.
  set (n := if addressed then _ else _). unfold runs_or_os, mbind, st_bind, ask. cbn. destruct (copy_file (env_ s)) as [w [| |]].
  - eexists. split; [|left; eexists; split; [reflexivity|done]]. done.
  - eexists. split; [|right; reflexivity]. done.
  - eexists. split; [|right; reflexivity]. done.
Qed.

Lemma promote_from_runs out_dir cs sources : ∀ s promoted,
  runs s (promote_from copy_file config_text local_file_uri out_dir cs sources promoted) (λ _, True).
Proof.
  induction sources as [|source l IH]; intros s promoted; cbn [promote_from]; [by apply runs_ret|].
  destruct (_ <=? _)%nat; [by apply runs_ret|].
  eapply (runs_bind _ _ _ (λ _, True)); [|intros; apply IH].
  apply runs_catch; [|done|intros; by apply runs_ret].
  eapply os_bind; [apply publish_runs|]. intros. by apply runs_ret.
Qed.

Lemma promote_runs s out_dir cs core :
  runs s (promote_rejected_configs copy_file config_text local_file_uri out_dir cs core) (λ _, True).
Proof.
  unfold promote_rejected_configs. cbv zeta. eapply runs_bind; [apply promote_from_runs|]. intros. by apply runs_ret.
Qed.

Lemma cleanup_runs s referenced : runs s (cleanup_unreferenced_rejected_configs unlink_ok referenced) (λ _, True).
Proof.
  unfold cleanup_unreferenced_rejected_configs. eapply runs_bind; [apply runs_get|]. intros s1 ? Hv ->. cbn beta.
  generalize (List.filter (λ name, negb (bool_decide (name ∈ relative_path <$> referenced)) && is_rejected_config_name name)
    (map_to_list (out_files s)).*1) as names. intros names. clear Hv s. revert s1.
  induction names as [|n l IH]; intros s; cbn [unlink_names]; [by apply runs_ret|].
  eapply runs_bind; [apply runs_ask|]. intros s1 ok _ _. eapply runs_bind; [apply runs_modify; by destruct ok|]. intros. apply IH.
Qed.

Lemma cleanup_callback_runs s rejected : runs s (cleanup_without_callback unlink_ok callback rejected) (λ _, True).
Proof. unfold cleanup_without_callback. destruct callback; [by apply runs_ret|apply cleanup_runs]. Qed.

Lemma stage_runs attempt_dir artifacts : ∀ s i cs,
  runs s (stage_from loads copy_file attempt_dir i artifacts cs) (λ _, True).
Proof.
  induction artifacts as [|a l IH]; intros s i cs; cbn [stage_from]; [by apply runs_ret|].
  eapply runs_bind; [apply runs_get|]. intros s1 ? _ ->.
  eapply (runs_bind _ _ _ (λ _, True)); [destruct (out_files s !! relative_path a); [apply runs_ask|by apply runs_ret]|].
  intros s2 x _ _. cbv zeta. destruct x; [|apply IH|apply IH]. destruct (out_files s !! relative_path a); [|apply IH].
  eapply runs_bind; [apply IH|]. intros s3 [paths cs'] _ _. by apply runs_ret.
Qed.

Lemma republish_runs s out_dir log :
  runs s (republish_stress_log copy_file config_text local_file_uri out_dir log) (λ _, True).
Proof.
  unfold republish_stress_log. destruct log as [l|]; [|by apply runs_ret]. destruct (_ =? _)%string; [by apply runs_ret|].
  eapply runs_bind; [apply runs_get|]. intros s1 s1' _ _. eapply runs_bind; [apply runs_attempt, publish_runs|].
  intros s2 [a|e] _ _; [by apply runs_ret|]. eapply runs_bind; [apply runs_get|]. intros. by apply runs_ret.
Qed.

(** A result that passes its checks is made. *)
Lemma new_result_runs s r (Q : StressTestResult → Prop) : StressTestResult_check r = Ok () → Q r → runs s (new_result r) Q.
Proof. intros Hc Hq. exists s, r. unfold new_result, mbind, st_bind, st_lift. by rewrite Hc. Qed.

Lemma merged_length previous current : (length (merge_rejected_configs previous current) ≤ 16)%nat.
Proof. unfold merge_rejected_configs. apply retain_length. Qed.

(** ** Progress *)

Section Experiment.
Variable sp : ExperimentSpec.
Variable o : StressOptions.
Variable oracle_ : OracleSpec.
Hypothesis options : sp_stress sp = Some o.
Hypothesis options_ok : StressOptions_check o = Ok ().
Hypothesis has_oracle : oracle (sp_unit sp) = Some oracle_.
Variables out_dir attempt_dir : string.
Variables cutracer_version toolchain_version : string.

Notation search_config := (search_config sp attempt_dir o).
Notation conforms := (conforms sp o cutracer_version toolchain_version).
Notation well_counted := (well_counted sp o cutracer_version toolchain_version).
Notation trigger_matches := (trigger_matches sp o cutracer_version toolchain_version).

Lemma options_facts : Contracts.delay_ladder_ns o ≠ [] ∧ (∀ d, d ∈ Contracts.delay_ladder_ns o → 1 ≤ d)
  ∧ NoDup (Contracts.delay_ladder_ns o) ∧ 1 ≤ Contracts.attempts_per_delay o
  ∧ f_lt f_zero (so_enable_prob o) = true ∧ f_le (so_enable_prob o) f_one = true
  ∧ (∀ g, g ∈ Contracts.warpgroup_ids o → 0 ≤ g < 8) ∧ NoDup (Contracts.warpgroup_ids o).
Proof.
  clear options has_oracle. unfold StressOptions_check in options_ok.
  destruct (bool_decide _) eqn:E1 in options_ok; [done|]. destruct (existsb _ _) eqn:E2 in options_ok; [done|].
  destruct (bool_decide _) eqn:E3 in options_ok; [done|]. destruct (_ <=? 0) eqn:E4 in options_ok; [done|].
  destruct (negb _) eqn:E5 in options_ok; [done|]. destruct (existsb _ _) eqn:E6 in options_ok; [done|].
  destruct (bool_decide _) eqn:E7 in options_ok; [done|].
  apply bool_decide_eq_false in E1, E3, E7. apply negb_false_iff, andb_prop in E5 as [E5 E5'].
  assert (Hex : ∀ (f : Z → bool) l x, existsb f l = false → x ∈ l → f x = false).
  { intros f l x Hf Hx. apply not_true_iff_false. intros Hfx. apply not_true_iff_false in Hf. apply Hf, existsb_exists.
    exists x. by rewrite <- list_elem_of_In. }
  split_and!; [done| |by apply dec_stable|lia|done|done| |by apply dec_stable].
  - intros d Hd. pose proof (Hex _ _ _ E2 Hd) as H. cbn in H. lia.
  - intros g Hg. pose proof (Hex _ _ _ E6 Hg) as H. cbn in H. lia.
Qed.

Lemma forallb_elem (f : Z → bool) l : (∀ x, x ∈ l → f x = true) → forallb f l = true.
Proof. intros H. apply forallb_forall. intros x Hx. by apply H, list_elem_of_In. Qed.

Lemma search_config_ok resume : config_ok (search_config resume) = true.
Proof.
  destruct options_facts as (H1 & H2 & _ & H4 & H5 & H6 & H7 & _). unfold config_ok. cbn.
  rewrite H5, H6. destruct (Contracts.delay_ladder_ns o) as [|d l] eqn:El; [done|]. rewrite <- El in *. clear El.
  assert (Hl : nonempty_list (Contracts.delay_ladder_ns o) = true) by by destruct (Contracts.delay_ladder_ns o). rewrite Hl.
  rewrite (forallb_elem (λ d, 1 <=? d)) by (intros x Hx; apply H2 in Hx; lia).
  rewrite (forallb_elem (λ g, (0 <=? g) && (g <? 8))) by (intros x Hx; apply H7 in Hx; lia).
  destruct (Z.leb_spec 1 (Contracts.attempts_per_delay o)); [done|lia].
Qed.

Lemma planned_positive : 0 < planned_trials o.
Proof.
  destruct options_facts as (H1 & _ & _ & H4 & _). unfold planned_trials.
  destruct (Contracts.delay_ladder_ns o) as [|d l]; [done|]. cbn [length].
  destruct (Contracts.warpgroup_ids o) as [|g gs]; cbn [length]; nia.
Qed.

Lemma schedule_planned resume : Z.of_nat (length (trial_schedule (search_config resume) [])) = planned_trials o.
Proof. destruct options_facts as (_ & _ & _ & H4 & _). by rewrite schedule_length by (done || cbn; lia). Qed.

(** Every report's configuration becomes one the session can use. *)
Lemma triggering_made resume (core : CoreResult) tc a :
  reported_ok (search_config resume) (planned_trials o) core → triggering core = Some tc →
  ∃ t, triggering_delay_config sp core a cutracer_version toolchain_version = Ok t ∧ conforms t
       ∧ counts_match t (completed_trials core) (reproductions core).
Proof.
  intros (H1 & H2 & H3 & H4 & H5 & H6 & H7 & H8 & H9) Et. destruct (H9 tc Et) as (T1 & T2 & T3 & T4 & T5). cbn in T1, T2, T3, T4.
  destruct options_facts as (_ & _ & _ & _ & Hp & _).
  unfold triggering_delay_config. rewrite Et, has_oracle. cbv zeta.
  set (t := mkTriggering _ _ _ _ _ _ _ _ _ _ _ _ _ _ _ _ _).
  assert (Hk : 0 < reproductions core) by (apply H8; by rewrite Et).
  assert (Hc : TriggeringDelayConfig_check t = Ok ()).
  { unfold TriggeringDelayConfig_check. subst t. cbn [Contracts.completed_trials Contracts.reproductions Contracts.reproduction_rate
      Contracts.enabled_point_count].
    destruct (Z.ltb_spec (completed_trials core) 0); [lia|]. destruct (Z.ltb_spec (reproductions core) 0); [lia|]. cbn [orb].
    destruct (Z.eqb_spec (completed_trials core) 0); [lia|]. unfold derived_reproduction_rate.
    destruct (f_ratio_unit (reproductions core) (completed_trials core) ltac:(lia)) as [-> ->]. cbn [andb negb].
    destruct (Z.ltb_spec (completed_trials core) (reproductions core)); [lia|].
    rewrite rates_match_refl by apply f_ratio_not_nan. cbn [negb].
    destruct (tc_enabled_point_count tc) as [pts|]; [|done]. destruct (Z.leb_spec pts 0); [lia|done]. }
  exists t. rewrite Hc. split_and!; [done| |done..]. unfold StressExperimentProperties.conforms. subst t. cbn.
  assert (Heq : f_eq (tc_enable_prob tc) (so_enable_prob o) = true).
  { rewrite T2. apply f_eq_refl. intros E. by rewrite E in Hp. }
  split_and!; [|done|done|done|done|done|lia|lia].
  unfold same_replay_context. cbn. rewrite has_oracle, !bool_decide_true by done. cbn. apply opt_kernel_eqb_refl.
Qed.

(** What publishing finds: a configuration only when the search has one, and
    without an error always then; every error is an [OSError]. *)
Definition artifacts_ok (core : CoreResult)
    (x : option ArtifactRef * option exn * (option TriggeringDelayConfig * option exn)) : Prop :=
  let '((log, e1), (trigger, e2)) := x in
  (∀ t, trigger = Some t → conforms t ∧ counts_match t (completed_trials core) (reproductions core)
                           ∧ triggering core ≠ None)
  ∧ (triggering core ≠ None → e2 = None → trigger ≠ None)
  ∧ (∀ e, e1 = Some e ∨ e2 = Some e → e = OSError).

Lemma publish_artifacts_runs resume s cs ls (core : CoreResult) :
  reported_ok (search_config resume) (planned_trials o) core →
  runs s (publish_artifacts copy_file config_text local_file_uri sp out_dir cutracer_version toolchain_version cs ls core)
    (artifacts_ok core).
Proof.
  intros Hr. unfold publish_artifacts.
  eapply (runs_bind _ _ _ (λ x, ∀ e, x.2 = Some e → e = OSError)).
  { destruct (log_path core) as [source|]; [|apply runs_ret; by intros e [= <-]].
    eapply runs_bind; [apply runs_attempt; unfold publish_log; apply publish_runs|].
    intros s1 [a|e] _ H; apply runs_ret; [done|]. cbn. by intros ? [= <-]. }
  intros s1 [log e1] _ He1. cbn in He1.
  eapply (runs_bind _ _ _ (λ x, (∀ t, x.1 = Some t → conforms t ∧ counts_match t (completed_trials core) (reproductions core)
      ∧ triggering core ≠ None) ∧ (triggering core ≠ None → x.2 = None → x.1 ≠ None) ∧ ∀ e, x.2 = Some e → e = OSError)).
  { destruct (triggering core) as [tc|] eqn:Et; [|apply runs_ret; by split_and!].
    eapply runs_bind.
    - apply runs_attempt. unfold publish_triggering. eapply (os_bind _ _ _ _ (λ t, conforms t
        ∧ counts_match t (completed_trials core) (reproductions core))); [apply publish_runs|].
      intros s2 a _ _. destruct (triggering_made resume core tc a Hr Et) as (t & Hm & Hc). exists s2, t. by rewrite <- Hm.
    - intros s2 [t|e] _ H; apply runs_ret; cbn.
      + split_and!; [intros ? [= <-]; by destruct H|done|done].
      + split_and!; [done|done|by intros ? [= <-]]. }
  intros s2 [trigger e2] _ (Ht & Hn & He2). apply runs_ret. cbn in *. split_and!; [done|done|]. intros e [?|?]; eauto.
Qed.

(** The progress made of a core result: its counts, and a configuration that is
    the search's; stale counts need a search that goes on after a reproduction. *)
Definition carries (l : StressTestResult) (core : CoreResult) : Prop :=
  well_counted l ∧ partially l
  ∧ st_completed_trials l = completed_trials core ∧ st_reproductions l = reproductions core
  ∧ Results.infra_errors l = infra_errors core ∧ timed_out_trials l = timed_out core
  ∧ unattributed_reproductions l = unattributed core
  ∧ (∀ t, triggering_config l = Some t → conforms t ∧ triggering core ≠ None
       ∧ (counts_match t (st_completed_trials l) (st_reproductions l) ∨ stop_on_first_reproduction o = false)).

Lemma or_else_Some {A} (a b : option A) x : or_else a b = Some x → a = Some x ∨ a = None ∧ b = Some x.
Proof. destruct a; cbn; intros ?; [by left|by right]. Qed.

Lemma adapt_runs resume s cs ls (core : CoreResult) previous before :
  reported_ok (search_config resume) (planned_trials o) core →
  (∀ l t, previous = Some l → triggering_config l = Some t → conforms t ∧ before ≠ None) →
  (before = None ∨ stop_on_first_reproduction o = false) →
  (∀ t : TriggeringConfig, before = Some t → triggering core = Some t) →
  runs s (adapt_core_progress copy_file elapsed config_text local_file_uri sp out_dir cutracer_version toolchain_version
            cs ls core previous)
    (λ x, carries x.1 core ∧ (x.2 = None → accepted sp x.1)).
Proof.
  intros Hr Hprev Hstop Hbefore. unfold adapt_core_progress.
  eapply (runs_bind _ _ _ (λ x, ∃ e2, artifacts_ok core (x.1.1, None, (x.1.2, e2)) ∧ (x.2 = None → e2 = None))).
  { unfold publish_progress_artifacts. eapply runs_bind; [by eapply publish_artifacts_runs|].
    intros s1 [[log e1] [trigger e2]] _ (Ha1 & Ha2 & Ha3). apply runs_ret. exists e2. cbn. split; [|by destruct e1].
    split_and!; [done|done|]. intros e [?|?]; [done|eauto]. }
  intros s1 [[log trigger] error] _ (e2 & (Ht & Hn & _) & He). cbn in Ht, Hn, He.
  eapply runs_bind; [apply promote_runs|]. intros s2 promoted _ _. cbv zeta.
  eapply runs_bind; [apply runs_ask|]. intros s3 duration _ _.
  set (l := mkStress _ _ _ _ _ _ _ _ _ _ _ _ _ _ _ _).
  destruct Hr as (R1 & R2 & R3 & R4 & R5 & R6 & R7 & R8 & R9).
  assert (Hw : well_counted l).
  { assert (Hpl : planned sp = planned_trials o) by (unfold planned; by rewrite options).
    unfold StressExperimentProperties.well_counted. subst l. cbn -[planned]. rewrite Hpl.
    split_and!; [done|done|done|done|done|done|done|done|lia|apply merged_length]. }
  assert (Hp : partially l) by by split.
  assert (Htrig : ∀ t, triggering_config l = Some t → conforms t ∧ triggering core ≠ None
    ∧ (counts_match t (st_completed_trials l) (st_reproductions l) ∨ stop_on_first_reproduction o = false)).
  { intros t [E|[E E']]%or_else_Some; [destruct (Ht t E) as (? & ? & ?); split_and!; auto|].
    apply bind_Some in E' as (l' & El & Et'). destruct (Hprev l' t El Et') as [Hc Hb].
    destruct before as [b|]; [|done]. split_and!; [done|by rewrite (Hbefore b)|right; by destruct Hstop]. }
  eapply runs_bind; [apply (new_result_runs _ _ (λ r, r = l)); [by eapply well_counted_check|done]|].
  intros s4 ? _ ->. apply runs_ret. cbn [fst snd]. split; [by split_and!|]. intros ->. specialize (He eq_refl).
  apply (partial_accepted sp o options cutracer_version toolchain_version); [done| |done].
  intros t Et. destruct (Htrig t Et) as (Hc & Hne & _). split_and!; [done|by apply R8|].
  pose proof (Hn Hne He) as Hsome. apply or_else_Some in Et as [E|[E _]]; [|done]. destruct (Ht t E) as (_ & H & _). apply H.
Qed.

(** ** The invariant of an attempt *)

Variable resume_from : option StressTestResult.
(** A progress to resume from is one the session accepts, with a configuration
    that passed its own checks. *)
Hypothesis resume_ok : ∀ l, resume_from = Some l →
  accepted sp l ∧ ∀ t, triggering_config l = Some t → TriggeringDelayConfig_check t = Ok ().

(** After the core results [pub]: the last of them is [latest_core], [latest]
    carries it, and the caller was given accepted results only. *)
Definition adapter_inv (resume : option CoreResult) (pub : list CoreResult) (s : Service W) : Prop :=
  latest_core s = last pub ∧ Forall (accepted sp) (reported s)
  ∧ match last pub with
    | None => latest s = resume_from
    | Some core => reported_ok (search_config resume) (planned_trials o) core ∧ ∃ l, latest s = Some l ∧ carries l core
    end.

Lemma view_eq (s s' : Service W) : view s' = view s →
  latest s' = latest s ∧ latest_core s' = latest_core s ∧ reported s' = reported s.
Proof. by intros [= -> -> ->]. Qed.

Lemma adapter_inv_view resume pub s s' : view s' = view s → adapter_inv resume pub s → adapter_inv resume pub s'.
Proof. intros (E1 & E2 & E3)%view_eq. unfold adapter_inv. by rewrite E1, E2, E3. Qed.

Notation progress_adapter := (progress_adapter copy_file unlink_ok elapsed config_text local_file_uri callback sp out_dir
  cutracer_version toolchain_version).

Lemma progress_adapter_inv resume pub cs ls (core : CoreResult) s s' x :
  reported_ok (search_config resume) (planned_trials o) core →
  (prior (search_config resume) pub = None ∨ stop_on_first_reproduction o = false) →
  (∀ t, prior (search_config resume) pub = Some t → triggering core = Some t) →
  (∀ l t, latest s = Some l → triggering_config l = Some t → conforms t ∧ prior (search_config resume) pub ≠ None) →
  Forall (accepted sp) (reported s) →
  progress_adapter cs ls core s = (s', x) → adapter_inv resume (pub ++ [core]) s'.
Proof.
  intros Hr Hs Hp Hprev Hrep H.
  unfold StressExperiment.progress_adapter, mbind, st_bind at 1, st_get in H. unfold st_bind at 1, st_modify at 1 in H.
  set (s1 := mkService _ _ (Some core) _ _) in H.
  destruct (adapt_runs resume s1 cs ls core (latest s) (prior (search_config resume) pub) Hr Hprev Hs Hp)
    as (s2 & [progress error] & E2 & Hv2 & Hc & Ha). cbn in Hc, Ha.
  apply view_eq in Hv2 as (_ & V2 & V3). cbn in V2, V3. unfold st_bind at 1 in H. rewrite E2 in H.
  unfold st_bind at 1, st_modify at 1 in H. set (s3 := mkService _ (Some progress) _ _ _) in H.
  assert (Hinv : ∀ s4 rs, latest s4 = latest s3 → latest_core s4 = latest_core s3 → reported s4 = reported s ++ rs →
    Forall (accepted sp) rs → adapter_inv resume (pub ++ [core]) s4).
  { intros s4 rs F1 F2 F3 Hrs. unfold adapter_inv. rewrite last_snoc, F1, F2, F3. cbn. split_and!; [done|by apply Forall_app|done|eauto]. }
  assert (Hcl : ∃ s4, match callback with
      | None => cleanup_unreferenced_rejected_configs unlink_ok (rejected_configs progress)
      | Some _ => mret ()
      end s3 = (s4, Ok ()) ∧ view s4 = view s3).
  { destruct callback; [by exists s3|]. destruct (cleanup_runs s3 (rejected_configs progress)) as (s4 & [] & E4 & Hv4 & _). eauto. }
  destruct Hcl as (s4 & E4 & (F1 & F2 & F3)%view_eq).
  change (reported s3) with (reported s2) in F3. rewrite V3 in F3. unfold st_bind at 1 in H. rewrite E4 in H.
  destruct error as [e|].
  { injection H as <- <-. apply (Hinv s4 []); [done|done|by rewrite F3, app_nil_r|done]. }
  destruct callback as [f|]; [|injection H as <- <-; apply (Hinv s4 []); [done|done|by rewrite F3, app_nil_r|done]].
  unfold st_bind at 1, st_modify at 1 in H. set (s5 := mkService _ _ _ (_ ++ [progress]) _) in H.
  unfold st_bind, ask in H. destruct (f progress (env_ s5)) as [w z].
  assert (Hf : adapter_inv resume (pub ++ [core]) (with_env s5 w)).
  { apply (Hinv _ [progress]); [done|done|cbn; by rewrite F3|]. constructor; [by apply Ha|done]. }
  destruct z; injection H as <- <-; exact Hf.
Qed.

(** ** Resuming *)

Lemma f_eq_eq (a b : float) : f_eq a b = true → f_lt f_zero b = true → a = b.
Proof.
  unfold f_eq, f_lt, SFeqb, SFltb, f_zero. destruct b as [s|s| |s m e]; try done; [destruct s; try done; destruct a as [t|t| |t n d]; try done; by destruct t|].
  destruct s; [done|]. intros H _. destruct a as [t|t| |t n d]; cbn in H; try done; [by destruct t|]. destruct t; [done|].
  rewrite compare_cont_Eq in H. destruct (Z.compare_spec d e) as [->|?|?]; [|done|done].
  by destruct (Pos.compare_spec n m) as [->|?|?].
Qed.

(** What the session's acceptance says of a progress to resume from. *)
Definition resumable (l : StressTestResult) : Prop :=
  0 ≤ st_completed_trials l ∧ 0 ≤ st_reproductions l ∧ 0 ≤ Results.infra_errors l ∧ 0 ≤ timed_out_trials l
  ∧ 0 ≤ unattributed_reproductions l
  ∧ st_reproductions l + unattributed_reproductions l ≤ st_completed_trials l
  ∧ st_completed_trials l + timed_out_trials l ≤ planned_trials o
  ∧ trigger_matches l.

Lemma not_rejected b code : reject_if b code = Ok () → b = false.
Proof. by destruct b. Qed.

Lemma accepted_resumable l : accepted sp l →
  provenance_eqb (st_provenance l) (provenance sp cutracer_version toolchain_version) = true → resumable l.
Proof.
  intros (_ & _ & H) Hv. unfold validate_stress_result in H. apply bind_ok in H as ([] & Hn & H).
  apply bind_ok in H as ([] & Ho & _). unfold validate_stress_counts in Hn. rewrite options in Hn. cbn in Hn.
  apply bind_ok in Hn as ([] & Hpl%not_rejected & Hn%not_rejected).
  assert (st_planned_trials l = planned_trials o) by lia.
  repeat (apply orb_false_elim in Hn as [Hn ?]).
  split_and!; try lia. intros t Et. unfold validate_stress_outcome, validate_stress_triggering_config in Ho. rewrite Et in Ho.
  apply bind_ok in Ho as ([] & Ho & _). apply bind_ok in Ho as ([] & Hk%not_rejected & Ho).
  unfold validate_triggering_config in Ho. apply bind_ok in Ho as ([] & K1%not_rejected & Ho).
  rewrite options in Ho. cbn [assert_some mbind res_bind] in Ho.
  apply bind_ok in Ho as ([] & K2%not_rejected & Ho). apply bind_ok in Ho as ([] & K3%not_rejected & Ho).
  apply bind_ok in Ho as ([] & K4%not_rejected & Ho). apply bind_ok in Ho as ([] & K5%not_rejected & K6%not_rejected).
  apply orb_false_elim in K1 as [[K1 K1']%orb_false_elim K1'']. apply negb_false_iff in K1, K1', K1'', K2, K3, K5.
  apply bool_decide_eq_true in K1', K1'', K2. unfold provenance_eqb in Hv. rewrite !andb_true_iff in Hv.
  destruct Hv as [[_ Hv1%bool_decide_eq_true] Hv2%bool_decide_eq_true]. cbn in Hv1, Hv2.
  apply orb_false_elim in K6 as [K6 K6']. split_and!; [|lia|split; lia].
  unfold StressExperimentProperties.conforms. split_and!; [done|congruence|congruence|done|done| |lia|lia].
  destruct (Contracts.warpgroup_ids o) as [|w ws]; destruct (Contracts.warpgroup_id t) as [x|]; try done.
  apply negb_false_iff, bool_decide_eq_true in K4. done.
Qed.

(** The core result a search resumes from, of the progress [resume_from]. *)
Definition resumes (resume : option CoreResult) : Prop :=
  match resume_from, resume with
  | None, None => True
  | Some l, Some core =>
      resumable l ∧ st_completed_trials l = completed_trials core ∧ st_reproductions l = reproductions core
      ∧ (triggering_config l ≠ None → triggering core ≠ None)
      ∧ ∀ tc, triggering core = Some tc → planned_trigger (search_config resume) tc
  | _, _ => False
  end.

(** [resume_from] belongs to this experiment. *)
Definition resume_matches : Prop := ∀ l, resume_from = Some l →
  st_experiment_id l = sp_experiment_id sp ∧ st_planned_trials l = planned sp
  ∧ provenance_eqb (st_provenance l) (provenance sp cutracer_version toolchain_version) = true
  ∧ st_completeness l = Partial.

Notation resume_core_result := (resume_core_result loads copy_file sp out_dir attempt_dir cutracer_version toolchain_version).

Lemma resume_core_runs s : resume_matches → runs s (resume_core_result resume_from) (λ x, resumes x.1).
Proof.
  unfold resumes, resume_matches, StressExperiment.resume_core_result. destruct resume_from as [l|]; [|intros _; by apply runs_ret].
  intros Hm. destruct (Hm l eq_refl) as (E1 & E2 & E3 & E4). destruct (resume_ok l eq_refl) as [Hacc Hchk].
  rewrite E3, E4, bool_decide_true by done. rewrite E2, Z.eqb_refl. cbn [negb orb].
  change (bool_decide (Partial = Partial)) with true. cbn [negb]. cbv zeta.
  eapply runs_bind; [apply stage_runs|]. intros s1 [staged cs] _ _. apply runs_ret. cbn [fst].
  pose proof (accepted_resumable l Hacc E3) as Hres. split_and!; [done|done|done|cbn; by destruct (triggering_config l)|].
  cbn [triggering]. intros tc Etc. destruct (triggering_config l) as [t|] eqn:Et; [|done]. injection Etc as <-.
  destruct Hres as (_ & _ & _ & _ & _ & _ & _ & Ht). destruct (Ht t Et) as ((C1 & C2 & C3 & C4 & C5 & C6 & C7) & _).
  destruct options_facts as (_ & _ & _ & _ & Hp & _). apply f_eq_eq in C5; [|done].
  unfold planned_trigger. cbn. split_and!; [done|done|done|lia|lia|].
  specialize (Hchk t eq_refl). unfold TriggeringDelayConfig_check in Hchk.
  destruct (Contracts.enabled_point_count t) as [n|]; [|done].
  destruct (_ || _); [done|]. destruct (negb _); [done|]. destruct (_ <? _); [done|]. destruct (negb _); [done|].
  destruct (Z.leb_spec n 0); [done|lia].
Qed.

(** If it raises, the progress is another experiment's. *)
Lemma resume_core_err s s' e : resume_core_result resume_from s = (s', Err e) → e = ValueError ∧ ¬ resume_matches.
Proof.
  intros H. assert (Hn : ¬ resume_matches).
  { intros Hm. destruct (resume_core_runs s Hm) as (s2 & a & E & _). rewrite E in H. done. }
  split; [|done]. unfold StressExperiment.resume_core_result in H. destruct resume_from as [l|]; [|done].
  destruct (_ || _); [by injection H as _ <-|]. exfalso. cbv zeta in H. unfold mbind, st_bind in H.
  destruct (stage_runs attempt_dir (rejected_configs l) s 0 ∅) as (s2 & [staged cs] & E & _). rewrite E in H. done.
Qed.

(** ** The results of an attempt *)

(** The session accepts the result; or it refuses it because an older
    configuration stands with newer counts, after an infrastructure error of a
    search that goes on after a reproduction. *)
Definition verdict (r : StressTestResult) : Prop :=
  accepted sp r
  ∨ stop_on_first_reproduction o = false ∧ st_execution_status r = ExecInfraError
    ∧ validate_stress_result sp r = Err (Rejected "trigger_config_mismatch").

Definition fits (t : TriggeringDelayConfig) (n k : Z) : Prop :=
  conforms t ∧ 0 < k ∧ (counts_match t n k ∨ stop_on_first_reproduction o = false).

Lemma partial_verdict r : well_counted r → partially r → st_execution_status r = ExecInfraError →
  (∀ t, triggering_config r = Some t → fits t (st_completed_trials r) (st_reproductions r)) → verdict r.
Proof.
  intros Hw Hp He Ht. destruct (triggering_config r) as [t|] eqn:Et.
  - destruct (Ht t eq_refl) as (Hc & Hk & Hor).
    destruct (decide (Contracts.completed_trials t = st_completed_trials r ∧ Contracts.reproductions t = st_reproductions r)) as [Hm|Hm].
    + left. eapply partial_accepted; [done..| |done]. intros t' Et'. rewrite Et in Et'. injection Et' as <-. by split_and!.
    + right. destruct Hor as [Hor|Hor]; [by destruct Hm|]. split_and!; [done|done|]. by eapply stale_refused.
  - left. eapply partial_accepted; [done..| |done]. intros t' Et'. by rewrite Et in Et'.
Qed.

Notation terminal_stress_result := (terminal_stress_result elapsed sp cutracer_version toolchain_version).

(** The counts of a terminal result. *)
Definition counts_fit (n : Counts) : Prop :=
  0 ≤ n_completed n ∧ 0 ≤ n_reproductions n ∧ 0 ≤ n_infra n ∧ 0 ≤ n_timed_out n ∧ 0 ≤ n_unattributed n
  ∧ n_reproductions n + n_unattributed n ≤ n_completed n ∧ n_completed n + n_timed_out n ≤ planned_trials o.

Lemma terminal_runs s error n log trigger rejected : counts_fit n → (length rejected ≤ 16)%nat →
  (∀ t, trigger = Some t → fits t (n_completed n) (n_reproductions n)) →
  runs s (terminal_stress_result error (partial_stress_outcome trigger (n_reproductions n) (n_unattributed n)) n log trigger rejected)
    verdict.
Proof.
  intros (H1 & H2 & H3 & H4 & H5 & H6 & H7) Hl Ht. unfold StressExperiment.terminal_stress_result.
  eapply runs_bind; [apply runs_ask|]. intros s1 duration _ _. set (r := mkStress _ _ _ _ _ _ _ _ _ _ _ _ _ _ _ _).
  assert (Hpl : planned sp = planned_trials o) by (unfold planned; by rewrite options).
  assert (Hw : well_counted r).
  { unfold StressExperimentProperties.well_counted. subst r. cbn -[planned]. rewrite Hpl. by split_and!. }
  apply new_result_runs; [by eapply well_counted_check|]. by apply partial_verdict.
Qed.

Lemma fits_after resume pub s : resumes resume → adapter_inv resume pub s →
  counts_fit (recovered_counts (latest_core s) (latest s))
  ∧ ∀ t, (latest s ≫= triggering_config) = Some t →
      fits t (n_completed (recovered_counts (latest_core s) (latest s))) (n_reproductions (recovered_counts (latest_core s) (latest s))).
Proof.
  intros Hr (E1 & _ & E3). rewrite E1. destruct (last pub) as [core|].
  - destruct E3 as (R & l & El & (_ & _ & C1 & C2 & _ & _ & _ & Ct)). destruct R as (R1 & R2 & R3 & R4 & R5 & R6 & R7 & R8 & R9).
    unfold counts_fit. cbn. split; [split_and!; lia|]. rewrite El. cbn. intros t Et. destruct (Ct t Et) as (Hc & Hn & Hor).
    split_and!; [done|by apply R8|]. by rewrite <- C1, <- C2.
  - rewrite E3. unfold resumes in Hr. destruct resume_from as [l|]; [|split; [unfold counts_fit; cbn; pose proof planned_positive; lia|done]].
    destruct resume as [core|]; [|done]. destruct Hr as ((H1 & H2 & H3 & H4 & H5 & H6 & H7 & H8) & _).
    unfold counts_fit. cbn. split; [split_and!; lia|]. intros t Et. destruct (H8 t Et) as (? & ? & ?). split_and!; auto.
Qed.

Lemma after_failure_runs resume pub s cs e : resumes resume → adapter_inv resume pub s →
  runs s (after_failure copy_file unlink_ok elapsed exn_text config_text local_file_uri callback sp out_dir
            cutracer_version toolchain_version cs e) verdict.
Proof.
  intros Hr Hi. unfold after_failure. eapply runs_bind; [apply runs_get|]. intros s0 x Hv0 ->.
  eapply (runs_bind _ _ _ (λ y, y.1.1 = recovered_counts (latest_core s) (latest s) ∧ y.2 = latest s ≫= triggering_config)).
  { unfold recover_stress_progress. eapply runs_bind; [apply republish_runs|]. intros. by apply runs_ret. }
  intros s1 [[n log] trigger] _ [En Etr]. cbn [fst snd] in En, Etr. subst n trigger.
  eapply runs_bind; [apply runs_get|]. intros s2 x _ _.
  eapply (runs_bind _ _ _ (λ _, True)); [destruct (latest_core x); [apply promote_runs|by apply runs_ret]|].
  intros s3 promoted _ _. cbv zeta. destruct (fits_after resume pub s Hr Hi) as [Hc Ht].
  eapply runs_bind; [apply terminal_runs; [exact Hc|apply merged_length|exact Ht]|]. intros s4 r _ Hver.
  eapply runs_bind; [apply cleanup_callback_runs|]. intros. by apply runs_ret.
Qed.

Lemma after_search_runs resume pub s cs ls (core : CoreResult) : resumes resume → adapter_inv resume pub s →
  reported_ok (search_config resume) (planned_trials o) core →
  match last pub with Some r => core = r | None => starting (search_config resume) core end →
  runs s (after_search copy_file unlink_ok elapsed exn_text config_text local_file_uri callback sp out_dir
            cutracer_version toolchain_version o cs ls core) verdict.
Proof.
  intros Hr Hi Hc Hlast. unfold after_search.
  eapply (runs_bind _ _ _ (λ x, ∃ e1 e2, artifacts_ok core (x.1.1, e1, (x.1.2, e2))
    ∧ x.2 = omap id [log_error exn_text core <$> e1; triggering_error exn_text <$> e2])).
  { unfold publish_stress_artifacts. eapply runs_bind; [by eapply publish_artifacts_runs|].
    intros s1 [[log e1] [trigger e2]] _ Ha. apply runs_ret. by exists e1, e2. }
  intros s1 [[log trigger] errors] Hv1 (e1 & e2 & (Ht & Hn & _) & He). cbn in Ht, Hn, He.
  eapply runs_bind; [apply promote_runs|]. intros s2 promoted Hv2 _. eapply runs_bind; [apply runs_get|]. intros s3 x Hv3 ->. cbv zeta.
  assert (Hi3 : adapter_inv resume pub s2) by (eapply adapter_inv_view; [|exact Hi]; by rewrite Hv2, Hv1).
  pose proof Hc as (R1 & R2 & R3 & R4 & R5 & R6 & R7 & R8 & R9).
  destruct errors as [|err errs].
  - assert (E : e1 = None ∧ e2 = None) by (destruct e1, e2; done). destruct E as [-> ->].
    destruct (classify_stress_result _ _ _ _) as [[[outcome status] error] completeness] eqn:Ecl.
    eapply runs_bind; [apply runs_ask|]. intros s4 duration _ _. set (r := mkStress _ _ _ _ _ _ _ _ _ _ _ _ _ _ _ _).
    assert (Hpl : planned sp = planned_trials o) by (unfold planned; by rewrite options).
    assert (Hw : well_counted r).
    { unfold StressExperimentProperties.well_counted. subst r. cbn -[planned]. rewrite Hpl.
      split_and!; [done..|lia|apply merged_length]. }
    eapply runs_bind.
    { apply (new_result_runs _ _ verdict); [by eapply well_counted_check|]. left.
      eapply (classified_accepted sp o options cutracer_version toolchain_version r core); [done| |done..|lia|apply planned_positive| |].
      - intros t Et. destruct (Ht t Et) as (? & ? & ?). split_and!; [done|by apply R8|done].
      - cbn. intros E. destruct (triggering core) as [tc|] eqn:Etc; [by destruct (Hn (ltac:(done)) eq_refl)|].
        destruct (Z.le_gt_cases (reproductions core) 0); [lia|]. by destruct (proj2 R8).
      - rewrite <- Hpl. symmetry. exact Ecl. }
    intros s5 r' _ Hver. eapply runs_bind; [apply cleanup_callback_runs|]. intros. by apply runs_ret.
  - unfold after_artifact_errors. eapply runs_bind; [apply runs_get|]. intros s4 x Hv4 ->.
    assert (Hi4 : adapter_inv resume pub s3) by (by eapply adapter_inv_view).
    eapply (runs_bind _ _ _ (λ y, y.2 = or_else trigger (latest s3 ≫= triggering_config))).
    { unfold fallback_stress_artifacts. eapply runs_bind; [apply republish_runs|]. intros. by apply runs_ret. }
    intros s5 [log' trigger'] _ Etr. cbn in Etr. cbn beta iota.
    assert (Hfit : ∀ t, trigger' = Some t → fits t (completed_trials core) (reproductions core)).
    { rewrite Etr. intros t [E|[_ E]]%or_else_Some; [destruct (Ht t E) as (? & ? & ?); split_and!; auto; by apply R8|].
      destruct (fits_after resume pub s3 Hr Hi4) as [_ Hf]. specialize (Hf t E). destruct Hi4 as (F1 & _ & F3).
      rewrite F1 in Hf. destruct (last pub) as [r|]; [by rewrite Hlast|]. rewrite F3 in Hf. cbn [recovered_counts] in Hf.
      unfold resumes in Hr. unfold starting in Hlast. rewrite F3 in E. destruct resume_from as [l|]; [|done].
      destruct resume as [core0|]; [|done]. cbn [resume_result StressExperiment.search_config] in Hlast.
      destruct Hr as (_ & E1 & E2 & _). destruct Hlast as (L1 & L2 & _). cbn in Hf. by rewrite L1, L2, <- E1, <- E2. }
    eapply runs_bind.
    { apply (terminal_runs _ _ (mkCounts (completed_trials core) (reproductions core) (infra_errors core + 1) (timed_out core)
        (unattributed core))); [unfold counts_fit; cbn; split_and!; lia|apply merged_length|exact Hfit]. }
    intros s6 r _ Hver. eapply runs_bind; [apply cleanup_callback_runs|]. intros. by apply runs_ret.
Qed.

(** ** The search, and the attempt around it *)

Hypothesis fresh : fresh_names new_rejected_name (search_config None).

Notation core_search := (core_search target_run log_write new_rejected_name owned loads repr copy_file unlink_ok elapsed
  config_text local_file_uri callback sp out_dir cutracer_version toolchain_version).
Notation run_stress_attempt := (run_stress_attempt target_run log_write new_rejected_name owned loads repr copy_file unlink_ok
  elapsed exn_text config_text local_file_uri callback sp out_dir attempt_dir cutracer_version toolchain_version).
Notation run_stress_experiment := (run_stress_experiment target_run log_write new_rejected_name owned loads repr copy_file
  unlink_ok elapsed exn_text config_text local_file_uri callback sp out_dir attempt_dir cutracer_version toolchain_version).

Lemma core_search_inv resume staged s t x : resumes resume → adapter_inv resume [] s →
  core_search (search_config resume) (search_files loads out_dir staged s) = (t, x) →
  ∃ pub, adapter_inv resume pub (world t)
    ∧ ∀ core, x = Ok core → reported_ok (search_config resume) (planned_trials o) core
        ∧ match last pub with Some r => core = r | None => starting (search_config resume) core end.
Proof.
  intros Hr Hi H. unfold StressExperiment.core_search in H. rewrite search_config_ok in H. exists (published t).
  revert H. apply (run_stress_reports _ _ _ _ _ _ _ (search_config resume) (planned_trials o) (adapter_inv resume)).
  - intros pub l w Hw. unfold lift_step. destruct (target_run l (env_ w)). by eapply adapter_inv_view.
  - intros pub w Hw. unfold lift_step. destruct (log_write (env_ w)). by eapply adapter_inv_view.
  - intros pub core cs ls w Hc Hs Hp (E1 & E2 & E3). unfold on_progress.
    destruct (StressExperiment.progress_adapter _ _ _ _ _ _ _ _ _ _ cs ls core w) as [w' y] eqn:E.
    assert (Hgoal : adapter_inv resume (pub ++ [core]) w').
    { eapply progress_adapter_inv; [done|done|done| |done|exact E]. intros l t' El Et. unfold prior in *.
      destruct (last pub) as [c0|].
      - destruct E3 as (_ & l' & El' & (_ & _ & _ & _ & _ & _ & _ & Hcar)). rewrite El in El'. injection El' as <-.
        destruct (Hcar t' Et) as (? & ? & _). done.
      - rewrite E3 in El. unfold resumes in Hr. destruct resume_from as [l'|]; [|done]. injection El as ->.
        destruct resume as [core0|]; [|done]. destruct Hr as ((_ & _ & _ & _ & _ & _ & _ & Hm) & _ & _ & Hne & _).
        destruct (Hm t' Et) as (? & _). split; [done|]. cbn. apply Hne. by rewrite Et. }
    by destruct y.
  - exact fresh.
  - done.
  - by rewrite schedule_planned.
  - intros r t' Er Et. cbn in Er. unfold resumes in Hr. destruct resume as [core0|]; [|done]. injection Er as ->.
    destruct resume_from; [|done]. destruct Hr as (_ & _ & _ & _ & Hpl). by apply Hpl.
  - done.
  - done.
Qed.

Lemma attempt_ends s s' x : resume_matches → Forall (accepted sp) (reported s) →
  run_stress_attempt o resume_from s = (s', x) →
  Forall (accepted sp) (reported s') ∧ match x with Ok r => verdict r | Err e => caught e = false end.
Proof.
  intros Hm Hrep H. unfold StressExperiment.run_stress_attempt in H.
  destruct (resume_core_runs s Hm) as (s1 & [resume staged] & E1 & (V1 & V2 & V3)%view_eq & Hr). cbn [fst] in Hr.
  unfold mbind, st_bind at 1 in H. rewrite E1 in H. unfold st_bind, st_modify in H.
  set (s2 := mkService _ resume_from None _ _) in H.
  assert (Hi2 : adapter_inv resume [] s2) by (split_and!; [done|cbn; by rewrite V3|done]).
  unfold search_and_publish in H.
  destruct (core_search (search_config resume) (search_files loads out_dir staged s2)) as [t [core|e]] eqn:Ec;
    destruct (core_search_inv resume staged s2 _ _ Hr Hi2 Ec) as (pub & Hi & Hcore).
  - destruct (Hcore core eq_refl) as [Hok Hlast].
    destruct (after_search_runs resume pub (world t) (configs t) (logs t) core Hr Hi Hok Hlast)
      as (s3 & r & E3 & (_ & _ & V)%view_eq & Hver). rewrite E3 in H. injection H as <- <-. split; [|done]. rewrite V. apply Hi.
  - destruct (caught e) eqn:Ee.
    + destruct (after_failure_runs resume pub (world t) (configs t) e Hr Hi) as (s3 & r & E3 & (_ & _ & V)%view_eq & Hver).
      rewrite E3 in H. injection H as <- <-. split; [|done]. rewrite V. apply Hi.
    + injection H as <- <-. split; [apply Hi|done].
Qed.

Lemma attempt_matches s s' r : run_stress_attempt o resume_from s = (s', Ok r) → resume_matches.
Proof.
  intros H. unfold StressExperiment.run_stress_attempt in H. apply st_bind_ok in H as (s1 & x & H & _).
  unfold StressExperiment.resume_core_result in H. intros l El. rewrite El in H.
  destruct (_ || _) eqn:E in H; [done|]. apply orb_false_elim in E as [E E4]. apply orb_false_elim in E as [E E3].
  apply orb_false_elim in E as [E1 E2]. apply negb_false_iff in E1, E2, E3, E4.
  apply bool_decide_eq_true in E1, E4. by apply Z.eqb_eq in E2.
Qed.
End Experiment.

(** ** A clean verdict *)







(** ** What the adapter guarantees *)

Notation run_stress_experiment := (run_stress_experiment target_run log_write new_rejected_name owned loads repr copy_file
  unlink_ok elapsed exn_text config_text local_file_uri callback).
Notation core_search := (core_search target_run log_write new_rejected_name owned loads repr copy_file unlink_ok elapsed
  config_text local_file_uri callback).

(** A progress that may be resumed from: accepted by the session, its
    configuration checked when it was made. *)
Definition resume_given (sp : ExperimentSpec) (resume_from : option StressTestResult) : Prop :=
  ∀ l, resume_from = Some l →
    accepted sp l ∧ ∀ t, triggering_config l = Some t → TriggeringDelayConfig_check t = Ok ().

Lemma experiment_attempt sp out_dir attempt_dir v1 v2 resume_from s o oracle_ :
  sp_kind sp = RANDOM_DELAY_STRESS → sp_stress sp = Some o → oracle (sp_unit sp) = Some oracle_ →
  run_stress_experiment sp out_dir attempt_dir v1 v2 resume_from s
  = run_stress_attempt target_run log_write new_rejected_name owned loads repr copy_file unlink_ok elapsed exn_text
      config_text local_file_uri callback sp out_dir attempt_dir v1 v2 o resume_from s.
Proof. intros Hk Ho Hq. unfold StressExperiment.run_stress_experiment. by rewrite Hk, Ho, Hq. Qed.

Lemma experiment_inv sp out_dir attempt_dir v1 v2 resume_from (s s' : Service W) r :
  run_stress_experiment sp out_dir attempt_dir v1 v2 resume_from s = (s', Ok r) →
  sp_kind sp = RANDOM_DELAY_STRESS ∧ ∃ o q, sp_stress sp = Some o ∧ oracle (sp_unit sp) = Some q.
Proof.
  unfold StressExperiment.run_stress_experiment. case_bool_decide as Hk; [|done]. cbn [negb].
  destruct (sp_stress sp) as [o|]; [|done]. destruct (oracle (sp_unit sp)) as [q|]; [|done]. eauto.
Qed.

(** C32: the session accepts what the adapter makes: every progress it reports
    and the result it returns, whatever failed on the way, also when it resumes
    from an accepted progress.  The one exception is an infrastructure error of a
    search that goes on after a reproduction: the configuration of an older
    progress can then stand beside newer counts. *)
Theorem stress_results_accepted sp o out_dir attempt_dir v1 v2 resume_from s s' r :
  sp_stress sp = Some o → StressOptions_check o = Ok () →
  fresh_names new_rejected_name (search_config sp attempt_dir o None) →
  resume_given sp resume_from → Forall (accepted sp) (reported s) →
  run_stress_experiment sp out_dir attempt_dir v1 v2 resume_from s = (s', Ok r) →
  Forall (accepted sp) (reported s')
  ∧ (accepted sp r
     ∨ stop_on_first_reproduction o = false ∧ st_execution_status r = ExecInfraError
       ∧ validate_stress_result sp r = Err (Rejected "trigger_config_mismatch")).
Proof.
  intros Ho Hok Hf Hres Hrep H. destruct (experiment_inv _ _ _ _ _ _ _ _ _ H) as (Hk & o' & q & Ho' & Hq).
  rewrite (experiment_attempt _ _ _ _ _ _ _ _ _ Hk Ho Hq) in H.
  assert (Hm : resume_matches sp v1 v2 resume_from) by by eapply attempt_matches.
  by eapply (attempt_ends sp o q Ho Hok Hq) in H.
Qed.

(** The adapter turns what goes wrong into a result: on a specification of a
    stress experiment it raises only an exception that the search does not
    expect, one of the oracle's launch or of the caller's callback that is no
    [ClickException], [OSError] or [ValueError]; its own contracts hold, and what
    it reported until then is accepted. *)
Theorem stress_raises_only_the_unexpected sp o oracle_ out_dir attempt_dir v1 v2 resume_from s s' e :
  sp_kind sp = RANDOM_DELAY_STRESS → sp_stress sp = Some o → StressOptions_check o = Ok () →
  oracle (sp_unit sp) = Some oracle_ → fresh_names new_rejected_name (search_config sp attempt_dir o None) →
  resume_given sp resume_from → resume_matches sp v1 v2 resume_from → Forall (accepted sp) (reported s) →
  run_stress_experiment sp out_dir attempt_dir v1 v2 resume_from s = (s', Err e) →
  caught e = false ∧ Forall (accepted sp) (reported s').
Proof.
  intros Hk Ho Hok Hq Hf Hres Hm Hrep H. rewrite (experiment_attempt _ _ _ _ _ _ _ _ _ Hk Ho Hq) in H.
  eapply (attempt_ends sp o oracle_ Ho Hok Hq) in H as [Hr He]; done.
Qed.

End Adapter.

(** ** A scripted campaign

    The oracle's runs and the ends of copying are read off lists; everything else
    succeeds. *)

Definition Script : Type := list Run * list Copying.
Definition play_run (l : Launch) (w : Script) : Script * Run := let '(rest, r) := script_run l w.1 in ((rest, w.2), r).
Definition play_log (w : Script) : Script * LogWrite := (w, Durable).
Definition play_copy (w : Script) : Script * Copying :=
  match w.2 with [] => (w, Copied) | x :: rest => ((w.1, rest), x) end.
Definition play_ok (w : Script) : Script * bool := (w, true).
Definition play_clock (w : Script) : Script * float := (w, f_zero).
Definition accept_progress (r : StressTestResult) (w : Script) : Script * option exn := (w, None).

Definition campaign (sp : ExperimentSpec) (resume_from : option StressTestResult) : st (Service Script) exn StressTestResult :=
  run_stress_experiment play_run play_log script_name (λ _ _, true) (λ _, None) (λ _, "?"%string) play_copy play_ok play_clock
    (λ _, "failed"%string) (λ _, "{}"%string) (λ p, p) (Some accept_progress) sp "out" "out/attempt" "1.0" "12.8" resume_from.

Definition script_options (ladder : list Z) (first : bool) : StressOptions := mkStressOptions ladder 1 f_one [] first.
Definition script_unit : WorkUnit :=
  mkUnit "unit" ["prog"%string] "gemm" "test" "" "sm_90" "abc" None (Some (mkOracle "oracle" ["check"%string] [1])) [] [].
Definition script_spec (ladder : list Z) (first : bool) : ExperimentSpec :=
  mkSpec "exp" "session" Initial RANDOM_DELAY_STRESS script_unit 0 None None (Some (script_options ladder first)) None None.
Definition script_service (runs : list Run) (copies : list Copying) : Service Script :=
  mkService ∅ None None [] (runs, copies).

Definition campaign_outcome (x : Service Script * res exn StressTestResult) :=
  match x.2 with
  | Ok r => Some (st_outcome r, st_execution_status r, st_completeness r, st_completed_trials r, st_reproductions r,
                  Results.infra_errors r, Contracts.completed_trials <$> triggering_config r, length (reported x.1))
  | Err _ => None
  end.

Example campaign_finds_the_bug :
  campaign_outcome (campaign (script_spec [100; 200] true) None (script_service [script_exit 1 100; script_exit 0 200] []))
  = Some (Reproduced, Succeeded, Complete, 2, 1, 0, Some 2, 2%nat).
Proof. vm_compute. reflexivity. Qed.

(** The second progress cannot publish the configuration again: the result has
    two completed trials, and the configuration of the first progress, made after
    one.  The session refuses it. *)
Definition stale_campaign := campaign (script_spec [100; 200] false) None
  (script_service [script_exit 0 100; script_exit 1 200] [Copied; Copied; Copied; NotCopied]).
Example stale_configuration :
  campaign_outcome stale_campaign = Some (Reproduced, ExecInfraError, Partial, 2, 1, 1, Some 1, 1%nat)
  ∧ match stale_campaign.2 with
    | Ok r => validate_stress_result (script_spec [100; 200] false) r = Err (Rejected "trigger_config_mismatch")
    | Err _ => False
    end.
Proof. split; vm_compute; reflexivity. Qed.

Lemma script_fresh sp o : fresh_names script_name (search_config sp "out/attempt" o None).
Proof.
  intros p names r H. unfold script_name in H. case_bool_decide; [done|]. injection H as <-. split; [done|].
  intros t. by unfold config_path_of.
Qed.

Definition witness_run := campaign (script_spec [100; 200] true) None (script_service [script_exit 1 100; script_exit 0 200] []).

Lemma stress_results_accepted_witness :
  ∃ s' r, witness_run = (s', Ok r) ∧ st_outcome r = Reproduced
  ∧ Forall (accepted (script_spec [100; 200] true)) (reported s')
  ∧ (accepted (script_spec [100; 200] true) r
     ∨ stop_on_first_reproduction (script_options [100; 200] true) = false ∧ st_execution_status r = ExecInfraError
       ∧ validate_stress_result (script_spec [100; 200] true) r = Err (Rejected "trigger_config_mismatch")).
Proof.
  eexists _, _. split; [vm_compute; reflexivity|]. split; [reflexivity|].
  eapply (stress_results_accepted play_run play_log script_name (λ _ _, true) (λ _, None) (λ _, "?"%string) play_copy play_ok
    play_clock (λ _, "failed"%string) (λ _, "{}"%string) (λ p, p) (Some accept_progress) (script_spec [100; 200] true)
    (script_options [100; 200] true) "out" "out/attempt" "1.0" "12.8" None
    (script_service [script_exit 1 100; script_exit 0 200] []));
    [reflexivity|vm_compute; reflexivity|apply script_fresh|intros l H; discriminate H|constructor|vm_compute; reflexivity].
Defined.

(** The oracle's launch raises [RuntimeError]. *)
Definition broken_run : Run := mkRun (LaunchFailed RuntimeError "RuntimeError: no device") (Listed []) (Listed []) None.

Lemma stress_raises_only_the_unexpected_witness :
  ∃ s' e, campaign (script_spec [100; 200] true) None (script_service [script_exit 1 100; broken_run] []) = (s', Err e)
  ∧ caught e = false ∧ Forall (accepted (script_spec [100; 200] true)) (reported s').
Proof.
  eexists _, _. split; [vm_compute; reflexivity|].
  eapply (stress_raises_only_the_unexpected play_run play_log script_name (λ _ _, true) (λ _, None) (λ _, "?"%string) play_copy
    play_ok play_clock (λ _, "failed"%string) (λ _, "{}"%string) (λ p, p) (Some accept_progress) (script_spec [100; 200] true)
    (script_options [100; 200] true) (mkOracle "oracle" ["check"%string] [1]) "out" "out/attempt" "1.0" "12.8" None
    (script_service [script_exit 1 100; broken_run] []));
    [reflexivity|reflexivity|vm_compute; reflexivity|reflexivity|apply script_fresh|intros l H; discriminate H
    |intros l H; discriminate H|constructor|vm_compute; reflexivity].
Defined.


