(* ===== verification/Paths.v ===== *)
(** POSIX paths and a disk: the parts of [os.path] the service uses, and the
    files they name.  Paths are text; a disk maps absolute paths to entries. *)
From S2P Require Import Prelude.
From S2P Require Import PyStr.
From S2P Require Import PySet.
From Stdlib Require Import Ascii.
From Stdlib Require String.
Local Open Scope Z_scope.

Definition slash : ascii := "/"%char.

(** [os.path.isabs]. *)
Definition is_abs (p : string) : bool := starts_with [slash] (chars p).

(** [os.path.join(a, b)]. *)
Definition join (a b : string) : string :=
  if is_abs b then b
  else if bool_decide (a = ""%string) || ends_with [slash] (chars a) then (a +:+ b)%string
  else (a +:+ "/" +:+ b)%string.

(** The text after the last slash, and everything up to it. *)
Definition tail_of (p : list ascii) : list ascii := rev (partition_at slash (rev p)).1.
Definition head_of (p : list ascii) : list ascii := take (length p - length (tail_of p)) p.

Fixpoint drop_slashes (l : list ascii) : list ascii :=
  match l with c :: r => if Ascii.eqb c slash then drop_slashes r else l | [] => [] end.

(** [os.path.basename] and [os.path.dirname]. *)
Definition basename (p : string) : string := str (tail_of (chars p)).
Definition dirname (p : string) : string :=
  let h := head_of (chars p) in
  str (if forallb (Ascii.eqb slash) h then h else rev (drop_slashes (rev h))).

(** One component of [os.path.normpath]; the accumulator is reversed. *)
Definition normal_step (rooted : bool) (acc : list (list ascii)) (c : list ascii) : list (list ascii) :=
  if bool_decide (c = []) || bool_decide (c = chars ".") then acc
  else if negb (bool_decide (c = chars "..")) then c :: acc
  else match acc with
       | [] => if rooted then [] else [c]
       | top :: rest => if bool_decide (top = chars "..") then c :: acc else rest
       end.
Definition normal_components (rooted : bool) (p : list ascii) : list (list ascii) :=
  rev (fold_left (normal_step rooted) (split_on slash p) []).

(** Two leading slashes stay two, three or more become one. *)
Definition initial_slashes (p : list ascii) : nat :=
  if negb (starts_with [slash] p) then 0
  else if starts_with [slash; slash] p && negb (starts_with [slash; slash; slash] p) then 2 else 1.

(** [os.path.normpath]. *)
Definition normpath (p : string) : string :=
  let n := initial_slashes (chars p) in
  let t := replicate n slash ++ join_text [slash] (normal_components (bool_decide (n ≠ 0%nat)) (chars p)) in
  match t with [] => "." | _ => str t end.

(** [os.path.abspath], in the working directory [cwd]. *)
Definition abspath (cwd p : string) : string := normpath (if is_abs p then p else join cwd p).

(** [os.path.commonpath] of two absolute paths. *)
Fixpoint common_prefix {A} `{EqDecision A} (l k : list A) : list A :=
  match l, k with
  | a :: l, b :: k => if decide (a = b) then a :: common_prefix l k else []
  | _, _ => []
  end.
Definition path_components (p : string) : list (list ascii) :=
  List.filter (λ c, negb (bool_decide (c = []) || bool_decide (c = chars "."))) (split_on slash (chars p)).
Definition commonpath (p q : string) : string :=
  str (slash :: join_text [slash] (common_prefix (path_components p) (path_components q))).

(** ** Paths in the order of their names: [key=lambda p: (basename(p), p)] *)

Definition path_le (a b : string) : Prop :=
  if decide (basename a = basename b) then str_le a b else str_le (basename a) (basename b).
#[export] Instance path_le_dec : RelDecision path_le.
Proof. intros a b. unfold path_le. destruct (decide _); apply _. Defined.
#[export] Instance path_le_total : Total path_le.
Proof.
  intros a b. unfold path_le. destruct (decide (basename a = basename b)) as [E|E].
  - rewrite decide_True by done. apply str_le_total.
  - rewrite decide_False by done. apply str_le_total.
Qed.

(** [sorted({...}, key=...)]. *)
Definition sorted_paths (l : list string) : list string := merge_sort path_le (remove_dups l).

Lemma elem_of_sorted_paths l x : x ∈ sorted_paths l ↔ x ∈ l.
Proof. unfold sorted_paths. by rewrite merge_sort_Permutation, elem_of_remove_dups. Qed.
Lemma sorted_paths_NoDup l : NoDup (sorted_paths l).
Proof. unfold sorted_paths. rewrite merge_sort_Permutation. apply NoDup_remove_dups. Qed.
Lemma sorted_paths_Sorted l : Sorted path_le (sorted_paths l).
Proof. apply Sorted_merge_sort, _. Qed.

(** ** A disk *)

(** [Symlink]: what reading through the link gives; nothing when it dangles. *)
Inductive Entry := Regular (text : string) | Symlink (text : option string) | Directory | Special.
Notation Disk := (gmap string Entry).

(** What [open] reads. *)
Definition entry_text (e : Entry) : option string :=
  match e with Regular t => Some t | Symlink t => t | Directory | Special => None end.
Definition read_file (d : Disk) (path : string) : option string := d !! path ≫= entry_text.

(** [os.path.exists], [isfile], [islink] and [isdir]. *)
Definition path_exists (d : Disk) (path : string) : bool :=
  match d !! path with None | Some (Symlink None) => false | Some _ => true end.
Definition is_file (d : Disk) (path : string) : bool := bool_decide (read_file d path ≠ None).
Definition is_link (d : Disk) (path : string) : bool :=
  match d !! path with Some (Symlink _) => true | _ => false end.
Definition is_dir (d : Disk) (path : string) : bool :=
  match d !! path with Some Directory => true | _ => false end.

(** A regular file, not reached through a link. *)
Definition regular_file (d : Disk) (path : string) : bool := is_file d path && negb (is_link d path).

Lemma regular_file_true d path : regular_file d path = true ↔ ∃ t, d !! path = Some (Regular t).
Proof.
  unfold regular_file, is_file, is_link, read_file. destruct (d !! path) as [[t|[t|]| |]|]; cbn; naive_solver.
Qed.

(** [os.listdir]. *)
Definition listdir (d : Disk) (directory : string) : list string :=
  basename <$> List.filter (λ p, bool_decide (dirname p = directory) && bool_decide (p ≠ directory)) (map_to_list d).*1.

Example paths :
  (basename "/a/b.c", dirname "/a/b.c", dirname "/a", dirname "x", abspath "/w" "a/../b//./c", abspath "/w" "//x/..",
   commonpath "/a/b" "/a/bc/d") = ("b.c", "/a", "/", "", "/w/b/c", "//", "/a")%string.
Proof. vm_compute. done. Qed.

(** ** Normal paths stay as they are *)

Lemma str_chars s : str (chars s) = s.
Proof. apply String.string_of_list_ascii_of_string. Qed.

(** A component that normalising keeps. *)
Definition good_component (c : list ascii) : Prop := c ≠ [] ∧ c ≠ chars "." ∧ c ≠ chars ".." ∧ slash ∉ c.

Lemma split_on_no_sep sep l c : c ∈ split_on sep l → sep ∉ c.
Proof.
  revert c. induction l as [|a l IH]; cbn; intros c H.
  - apply list_elem_of_singleton in H as ->. apply not_elem_of_nil.
  - destruct (Ascii.eqb_spec a sep) as [->|Hne].
    + apply elem_of_cons in H as [->|H]; [apply not_elem_of_nil|by apply IH].
    + destruct (split_on sep l) as [|x rest] eqn:E.
      * apply list_elem_of_singleton in H as ->. rewrite list_elem_of_singleton. congruence.
      * apply elem_of_cons in H as [->|H]; [|apply IH; by right].
        rewrite not_elem_of_cons. split; [congruence|]. apply IH. by left.
Qed.

Lemma split_on_nosep sep l : sep ∉ l → split_on sep l = [l].
Proof.
  induction l as [|a l IH]; [done|]. rewrite not_elem_of_cons. intros [Hne Hl]. cbn.
  destruct (Ascii.eqb_spec a sep) as [->|_]; [done|]. by rewrite IH.
Qed.

Lemma split_on_cons sep l r : sep ∉ l → split_on sep (l ++ sep :: r) = l :: split_on sep r.
Proof.
  induction l as [|a l IH]; cbn; intros H.
  - by rewrite Ascii.eqb_refl.
  - apply not_elem_of_cons in H as [Hne Hl]. destruct (Ascii.eqb_spec a sep) as [->|_]; [done|]. by rewrite IH.
Qed.

Lemma split_join sep l : l ≠ [] → Forall (λ c, sep ∉ c) l → split_on sep (join_text [sep] l) = l.
Proof.
  induction l as [|a l IH]; [done|]. intros _ [Ha Hl]%Forall_cons. destruct l as [|b l].
  - cbn. by apply split_on_nosep.
  - change (join_text [sep] (a :: b :: l)) with (a ++ sep :: join_text [sep] (b :: l)).
    rewrite split_on_cons by done. by rewrite IH.
Qed.

Lemma normal_components_good p : Forall good_component (normal_components true p).
Proof.
  unfold normal_components. apply Forall_rev.
  assert (Hgen : ∀ l acc, Forall (λ c, slash ∉ c) l → Forall good_component acc →
            Forall good_component (fold_left (normal_step true) l acc)).
  { induction l as [|c l IH]; intros acc Hl Hacc; [done|]. apply Forall_cons in Hl as [Hc Hl]. cbn.
    apply IH; [done|]. unfold normal_step. destruct (bool_decide (c = [])) eqn:E1; [done|].
    destruct (bool_decide (c = chars ".")) eqn:E2; [done|]. cbn [orb].
    destruct (bool_decide (c = chars "..")) eqn:E3; cbn [negb].
    - destruct acc as [|top rest]; [done|]. apply Forall_cons in Hacc as [(_ & _ & Ht & _) Hr].
      by rewrite bool_decide_false.
    - apply bool_decide_eq_false in E1, E2, E3. by constructor. }
  apply Hgen; [|constructor]. rewrite Forall_forall. intros c Hc. by eapply split_on_no_sep.
Qed.

Lemma normal_components_fixed l : Forall good_component l →
  fold_left (normal_step true) (l : list (list ascii)) [] = rev l.
Proof.
  intros H. rewrite <- (app_nil_r (rev l)). generalize (@nil (list ascii)) as acc.
  induction H as [|c l (H1 & H2 & H3 & _) _ IH]; intros acc; [done|]. cbn [fold_left rev].
  rewrite IH, <- app_assoc. f_equal. unfold normal_step. by rewrite !bool_decide_false.
Qed.

Lemma normal_step_empty l acc : fold_left (normal_step true) ([] :: l) acc = fold_left (normal_step true) l acc.
Proof. done. Qed.

(** The slashes of a text that starts with its own. *)
Lemma initial_slashes_of n x : (n = 1 ∨ n = 2)%nat → starts_with [slash] x = false →
  initial_slashes (replicate n slash ++ x) = n.
Proof.
  intros Hn Hx. unfold initial_slashes.
  destruct Hn as [-> | ->]; cbn [replicate app starts_with]; rewrite ?Ascii.eqb_refl; cbn [andb negb].
  - assert (match x with [] => false | c :: _ => Ascii.eqb slash c && true end = false) as Hh.
    { destruct x; [done|]. cbn [starts_with] in Hx. exact Hx. }
    destruct x as [|c r]; [done|]. cbn [starts_with] in *. by rewrite Hh.
  - destruct x as [|c r]; [done|]. cbn [starts_with] in *. by rewrite Hx.
Qed.

Lemma join_no_slash l : Forall good_component l → starts_with [slash] (join_text [slash] l) = false.
Proof.
  intros H. destruct H as [|c l (H1 & _ & _ & Hs) _]; [done|]. destruct c as [|a c]; [done|].
  apply not_elem_of_cons in Hs as [Ha _].
  destruct l; cbn [join_text app starts_with]; by destruct (Ascii.eqb_spec slash a).
Qed.

Lemma initial_slashes_abs p : is_abs p = true → (initial_slashes (chars p) = 1 ∨ initial_slashes (chars p) = 2)%nat.
Proof. unfold is_abs, initial_slashes. intros ->. cbn [negb]. destruct (_ && _); [by right|by left]. Qed.

Lemma normpath_chars p : is_abs p = true →
  chars (normpath p) = replicate (initial_slashes (chars p)) slash ++ join_text [slash] (normal_components true (chars p)).
Proof.
  intros Hp. unfold normpath. destruct (initial_slashes_abs p Hp) as [E|E]; rewrite E;
    rewrite (bool_decide_true (_ ≠ _)) by done; cbn [replicate app]; apply chars_str.
Qed.

(** A normal path of an absolute one is absolute, and normal. *)
Lemma normpath_abs p : is_abs p = true → is_abs (normpath p) = true.
Proof.
  intros Hp. unfold is_abs. rewrite normpath_chars by done.
  destruct (initial_slashes_abs p Hp) as [-> | ->]; done.
Qed.

Lemma normpath_idem p : is_abs p = true → normpath (normpath p) = normpath p.
Proof.
  intros Hp.
  assert (E : chars (normpath (normpath p)) = chars (normpath p));
    [|by rewrite <- (str_chars (normpath (normpath p))), E, str_chars].
  rewrite (normpath_chars (normpath p)) by by apply normpath_abs. rewrite normpath_chars by done.
  pose proof (normal_components_good (chars p)) as Hg.
  rewrite initial_slashes_of; [|by apply initial_slashes_abs|by apply join_no_slash]. f_equal. f_equal.
  unfold normal_components at 1.
  assert (Hs : ∀ x, fold_left (normal_step true) (split_on slash (replicate (initial_slashes (chars p)) slash ++ x)) []
                    = fold_left (normal_step true) (split_on slash x) []).
  { intros x. destruct (initial_slashes_abs p Hp) as [-> | ->]; done. }
  rewrite Hs. destruct (normal_components true (chars p)) as [|c l] eqn:E; [done|].
  rewrite split_join; [|done|].
  - rewrite normal_components_fixed by done. apply rev_involutive.
  - eapply Forall_impl; [exact Hg|]. by intros x (_ & _ & _ & H).
Qed.

Lemma abspath_abs cwd p : is_abs cwd = true → is_abs (abspath cwd p) = true.
Proof.
  intros Hc. unfold abspath. apply normpath_abs. destruct (is_abs p) eqn:Hp; [done|].
  unfold join, is_abs in *. rewrite Hp. destruct (_ || _); rewrite !chars_app; by destruct (chars cwd) as [|c l]; [|cbn in *].
Qed.

Lemma abspath_idem cwd p : is_abs cwd = true → abspath cwd (abspath cwd p) = abspath cwd p.
Proof.
  intros Hc. unfold abspath at 1. rewrite abspath_abs by done. unfold abspath. apply normpath_idem.
  destruct (is_abs p) eqn:Hp; [done|].
  unfold join, is_abs in *. rewrite Hp. destruct (_ || _); rewrite !chars_app; by destruct (chars cwd) as [|c l]; [|cbn in *].
Qed.

(** ** Names in a directory *)

Lemma partition_no_sep sep l : sep ∉ (partition_at sep l).1.
Proof.
  induction l as [|c l IH]; [apply not_elem_of_nil|]. cbn [partition_at].
  destruct (Ascii.eqb_spec c sep) as [->|Hne]; [apply not_elem_of_nil|].
  destruct (partition_at sep l) as [a b]. cbn [fst] in *. rewrite not_elem_of_cons. split; [congruence|done].
Qed.

Lemma partition_app sep l r : sep ∉ l → partition_at sep (l ++ sep :: r) = (l, r).
Proof.
  induction l as [|c l IH]; cbn [app partition_at]; intros H.
  - by rewrite Ascii.eqb_refl.
  - apply not_elem_of_cons in H as [Hne Hl]. destruct (Ascii.eqb_spec c sep) as [->|_]; [done|]. by rewrite IH.
Qed.

Lemma elem_of_rev_chars {A} (x : A) l : x ∈ rev l ↔ x ∈ l.
Proof. rewrite !list_elem_of_In. symmetry. apply in_rev. Qed.

Lemma basename_no_slash p : slash ∉ chars (basename p).
Proof. unfold basename, tail_of. rewrite chars_str, elem_of_rev_chars. apply partition_no_sep. Qed.

Lemma tail_of_app x name : slash ∉ name → tail_of (x ++ slash :: name) = name.
Proof.
  intros H. unfold tail_of. rewrite rev_app_distr. cbn [rev]. rewrite <- app_assoc. cbn [app].
  rewrite partition_app by by rewrite elem_of_rev_chars. apply rev_involutive.
Qed.

Lemma starts_with_partition sep p l :
  sep ∉ p → starts_with p l = true → starts_with p (partition_at sep l).1 = true.
Proof.
  revert l. induction p as [|c p IH]; [done|]. intros [|d l] Hp; [done|]. apply not_elem_of_cons in Hp as [Hc Hp].
  cbn [starts_with partition_at]. intros [->%Ascii.eqb_eq Hl]%andb_true_iff.
  destruct (Ascii.eqb_spec d sep) as [->|_]; [done|]. specialize (IH l Hp Hl).
  destruct (partition_at sep l) as [a b]. cbn [fst starts_with] in *. by rewrite Ascii.eqb_refl, IH.
Qed.

(** An ending without a slash is an ending of the name. *)
Lemma ends_with_basename suffix p :
  slash ∉ suffix → ends_with suffix (chars p) = true → ends_with suffix (chars (basename p)) = true.
Proof.
  intros Hs H. unfold ends_with, basename, tail_of in *. rewrite chars_str, rev_involutive.
  apply starts_with_partition; [by rewrite elem_of_rev_chars|done].
Qed.

(** A plain file name. *)
Definition good_name (n : string) : Prop := good_component (chars n).

Lemma good_name_not_abs n : good_name n → is_abs n = false.
Proof.
  intros (H & _ & _ & Hs). unfold is_abs. destruct (chars n) as [|c l]; [done|]. cbn [starts_with].
  apply not_elem_of_cons in Hs as [Hc _]. destruct (Ascii.eqb_spec slash c) as [E|_]; [by destruct Hc|done].
Qed.

(** Joining a directory and a plain name puts a slash before the name, unless the
    directory is the empty text. *)
Lemma join_chars dir n : is_abs n = false → dir ≠ ""%string → ∃ x, chars (join dir n) = x ++ slash :: chars n
  ∧ (is_abs dir = true → is_abs (join dir n) = true).
Proof.
  intros Hn Hd. unfold join. rewrite Hn, bool_decide_false by done. cbn [orb].
  assert (Hne : chars dir ≠ []) by (intros E; apply Hd; rewrite <- (str_chars dir), E; done).
  destruct (ends_with [slash] (chars dir)) eqn:E.
  - unfold ends_with in E. cbn [rev app] in E. destruct (rev (chars dir)) as [|c r] eqn:Er; [done|].
    cbn [starts_with] in E. rewrite andb_true_r in E. apply Ascii.eqb_eq in E. subst c.
    apply (f_equal (@rev ascii)) in Er. rewrite rev_involutive in Er. cbn [rev] in Er. exists (rev r).
    unfold is_abs. rewrite chars_app. split; [by rewrite Er, <- app_assoc|].
    rewrite Er. destruct (rev r); done.
  - exists (chars dir). unfold is_abs. rewrite !chars_app. split; [done|].
    destruct (chars dir) as [|c l]; done.
Qed.

Lemma split_on_ne sep l : split_on sep l ≠ [].
Proof. destruct l as [|c l]; [done|]. cbn. destruct (Ascii.eqb c sep); [done|]. by destruct (split_on sep l). Qed.

Lemma split_on_last sep x n : sep ∉ n → split_on sep (x ++ sep :: n) = split_on sep x ++ [n].
Proof.
  intros Hn. induction x as [|c x IH]; cbn [app split_on].
  - rewrite Ascii.eqb_refl. by rewrite split_on_nosep.
  - destruct (Ascii.eqb_spec c sep) as [->|_]; rewrite IH; [done|].
    pose proof (split_on_ne sep x). by destruct (split_on sep x) as [|a l].
Qed.

Lemma normal_components_last x n : good_component n → ∃ cs, normal_components true (x ++ slash :: n) = cs ++ [n].
Proof.
  intros (H1 & H2 & H3 & Hs). unfold normal_components. rewrite split_on_last by done. rewrite fold_left_app.
  cbn [fold_left]. unfold normal_step at 1. rewrite !bool_decide_false by done. cbn [orb negb rev]. by eexists.
Qed.

(** The name of a plain file in a directory. *)
Lemma basename_abspath_join cwd dir n : is_abs cwd = true → good_name n → basename (abspath cwd (join dir n)) = n.
Proof.
  intros Hc Hg. pose proof (good_name_not_abs n Hg) as Hn.
  assert (Hcne : cwd ≠ ""%string) by (intros ->; done).
  assert (∃ q x, abspath cwd (join dir n) = normpath q ∧ is_abs q = true ∧ chars q = x ++ slash :: chars n) as (q & x & -> & Hq & Ex).
  { destruct (decide (dir = ""%string)) as [->|Hd].
    - destruct (join_chars cwd n Hn Hcne) as (x & Ex & Hx).
      assert (E : join "" n = n) by (unfold join; by rewrite Hn).
      exists (join cwd n), x. rewrite E. unfold abspath. rewrite Hn. by auto.
    - destruct (join_chars dir n Hn Hd) as (x & Ex & Hx). destruct (is_abs (join dir n)) eqn:Ea.
      + exists (join dir n), x. unfold abspath. rewrite Ea. done.
      + destruct (join_chars cwd (join dir n) Ea Hcne) as (y & Ey & Hy).
        exists (join cwd (join dir n)), (y ++ slash :: x). unfold abspath. rewrite Ea. split_and!; [done|by apply Hy|].
        by rewrite Ey, Ex, <- app_assoc. }
  unfold basename. rewrite normpath_chars by done. rewrite Ex at 2.
  destruct (normal_components_last x (chars n) Hg) as [cs ->]. destruct Hg as (_ & _ & _ & Hs).
  rewrite <- (str_chars n) at 2. f_equal.
  assert (∃ y, replicate (initial_slashes (chars q)) slash ++ join_text [slash] (cs ++ [chars n]) = y ++ slash :: chars n) as [y ->];
    [|by apply tail_of_app].
  destruct cs as [|c cs].
  - cbn [app join_text]. destruct (initial_slashes_abs q Hq) as [-> | ->]; [by exists []|by exists [slash]].
  - assert (∃ z, join_text [slash] ((c :: cs) ++ [chars n]) = z ++ slash :: chars n) as [z ->].
    { clear. revert c. induction cs as [|d cs IH]; intros c; [by exists c|]. destruct (IH d) as [z Hz].
      exists (c ++ slash :: z). change ((c :: d :: cs) ++ [chars n]) with (c :: (d :: cs) ++ [chars n]).
      cbn [app] in *. cbn [join_text]. cbn [join_text] in Hz. rewrite Hz. by rewrite <- app_assoc. }
    eexists. by rewrite app_assoc.
Qed.

Lemma basename_join dir n : slash ∉ chars n → is_abs n = false → basename (join dir n) = n.
Proof.
  intros Hs Hn. unfold basename. rewrite <- (str_chars n) at 2. f_equal. destruct (decide (dir = ""%string)) as [->|Hd].
  - assert (E : join "" n = n) by (unfold join; by rewrite Hn). rewrite E. unfold tail_of.
    assert (Hp : ∀ l, slash ∉ l → partition_at slash l = (l, [])).
    { clear. induction l as [|c l IH]; [done|]. rewrite not_elem_of_cons. intros [Hc Hl]. cbn.
      destruct (Ascii.eqb_spec c slash) as [->|_]; [done|]. by rewrite IH. }
    rewrite Hp by by rewrite elem_of_rev_chars. apply rev_involutive.
  - destruct (join_chars dir n Hn Hd) as (x & -> & _). by apply tail_of_app.
Qed.
