(* ===== verification/Artifacts.v ===== *)
(** Local artifacts: src/python/cutracer/service/artifacts.py, except
    [publish_local_artifact], which is in StressExperiment, and the comparison of
    identities, which is in SessionValidation.

    [local_file_uri] and [local_uri_path] turn paths into file URIs and back;
    [stage_verified_local_artifact] copies an artifact whose bytes have the
    declared size and digest.  [Machine] is the disk with the environment's state.

    Parameters: the working directory [cwd]; [ip_literal_ok], whether the standard
    library accepts a bracketed host of a URI; [entry_size], the size of an entry
    that is no file; [os_step], whether a call of the operating system succeeds;
    [write_file], how replacing a file ends. *)
From S2P Require Import Prelude.
From S2P Require Import PyStr.
From S2P Require Import PyText.
From S2P Require Import Sha256.
From S2P Require Import Json.
From S2P Require Import Contracts.
From S2P Require Import SessionValidation.
From S2P Require Import Paths.
From Stdlib Require Import Ascii.
From Stdlib Require String.
Local Open Scope Z_scope.

(** The disk and the environment. *)
Record Machine (W : Type) := mkMachine { disk : Disk; env_ : W }.
Arguments mkMachine {W} disk env_.
Arguments disk {W} m.
Arguments env_ {W} m.

(** [Unsynced]: the file is in place and [os.fsync] of its directory failed. *)
Inductive Writing := Written | NotWritten | Unsynced.

(** [VerifiedLocalArtifact]. *)
Record VerifiedLocalArtifact := mkVerified { va_path : string; va_sha256 : list ascii; va_size : Z }.

(** ** Percent-encoding *)

Definition is_letter (c : ascii) : bool :=
  let n := code c in ((65 <=? n) && (n <=? 90)) || ((97 <=? n) && (n <=? 122)).

(** What [urllib.parse.quote] leaves as it is. *)
Definition is_unreserved (c : ascii) : bool :=
  is_letter c || is_digit c || existsb (Ascii.eqb c) (chars "_.-~/").

Definition quote_char (c : ascii) : list ascii :=
  if is_unreserved c then [c] else "%"%char :: upper (hex_fixed 2 (code c)).
Definition quote (l : list ascii) : list ascii := concat (quote_char <$> l).

Definition hex_digit_value (c : ascii) : option Z := if is_hex_digit c then digit_value c else None.

(** [urllib.parse.unquote]: a percent sign without two hex digits stays. *)
Fixpoint unquote (l : list ascii) : list ascii :=
  match l with
  | [] => []
  | c :: r =>
      if Ascii.eqb c "%"%char then
        match r with
        | a :: b :: r' =>
            match hex_digit_value a, hex_digit_value b with
            | Some x, Some y => ascii_of_nat (Z.to_nat (16 * x + y)) :: unquote r'
            | _, _ => c :: unquote r
            end
        | _ => c :: unquote r
        end
      else c :: unquote r
  end.

(** ** [urllib.parse.urlparse]: scheme, network location and path *)

Record Url := mkUrl { scheme : list ascii; netloc : list ascii; url_path : list ascii }.

Definition is_c0_or_space (c : ascii) : bool := code c <=? 32.
Fixpoint strip_c0 (l : list ascii) : list ascii :=
  match l with c :: r => if is_c0_or_space c then strip_c0 r else l | [] => [] end.
Definition is_unsafe (c : ascii) : bool := (code c =? 9) || (code c =? 10) || (code c =? 13).
Definition is_scheme_char (c : ascii) : bool := is_letter c || is_digit c || existsb (Ascii.eqb c) (chars "+-.").

(** The text before the first character for which [stop] holds, and the rest. *)
Fixpoint break_at (stop : ascii → bool) (l : list ascii) : list ascii * list ascii :=
  match l with
  | [] => ([], [])
  | c :: r => if stop c then ([], l) else let '(a, b) := break_at stop r in (c :: a, b)
  end.

Definition split_scheme (l : list ascii) : list ascii * list ascii :=
  match break_at (Ascii.eqb ":"%char) l with
  | (c :: s, _ :: rest) =>
      if is_letter c && forallb is_scheme_char (c :: s) then (lower (c :: s), rest) else ([], l)
  | _ => ([], l)
  end.

Section Urls.
Variable ip_literal_ok : list ascii → bool.

Definition urlparse (uri : list ascii) : res exn Url :=
  let '(s, rest) := split_scheme (List.filter (λ c, negb (is_unsafe c)) (strip_c0 uri)) in
  let '(loc, rest) :=
    if starts_with (chars "//") rest
    then break_at (λ c, existsb (Ascii.eqb c) (chars "/?#")) (drop 2 rest) else ([], rest) in
  let opening := bool_decide ("["%char ∈ loc) in
  let closing := bool_decide ("]"%char ∈ loc) in
  if xorb opening closing || (opening && closing && negb (ip_literal_ok loc)) then Err ValueError
  else Ok (mkUrl s loc (break_at (λ c, existsb (Ascii.eqb c) (chars "?#")) rest).1).

(** [_local_uri_paths]: the decoded path first, then the path as it is written. *)
Definition raw_uri_path (uri : list ascii) (loc : list ascii) : list ascii :=
  match loc with
  | [] => if starts_with (chars "file://") uri then drop 7 uri
          else if starts_with (chars "file:") uri then drop 5 uri else []
  | _ => []
  end.

Definition local_uri_paths (uri : string) : res exn (list string) :=
  u ← urlparse (chars uri);
  if bool_decide (scheme u = []) then Ok [uri]
  else if negb (bool_decide (scheme u = chars "file")) || negb (bool_decide (netloc u ∈ [[]; chars "localhost"]))
  then Ok []
  else
    let decoded := unquote (url_path u) in
    let raw := raw_uri_path (chars uri) (netloc u) in
    Ok (str <$> fromkeys (decoded :: if negb (bool_decide (raw = decoded)) && is_abs (str raw) then [raw] else [])).

(** ** Which local file a reference means *)

(** [_matches_declared_identity]. *)
Definition matches_declared_identity (d : Disk) (path : string) (ref : ArtifactRef) : bool :=
  match sha256 ref, size_bytes ref, read_file d path with
  | Some h, Some n, Some text =>
      (Z.of_nat (String.length text) =? n) && bool_decide (lower (sha256_hexdigest (chars text)) = lower (chars h))
  | _, _, _ => false
  end.

Definition has_declared_identity (ref : ArtifactRef) : bool :=
  match sha256 ref, size_bytes ref with Some _, Some _ => true | _, _ => false end.

(** [_local_uri_path]. *)
Definition local_uri_path (d : Disk) (ref : ArtifactRef) : res exn (option string) :=
  candidates ← local_uri_paths (uri ref);
  match candidates with
  | [] => Ok None
  | [c] => Ok (Some c)
  | c :: _ =>
      if has_declared_identity ref then
        match List.find (λ p, matches_declared_identity d p ref) candidates with
        | Some p => Ok (Some p)
        | None =>
            if existsb (path_exists d) candidates then Err (ArtifactVerificationError "identity_mismatch")
            else Ok (Some c)
        end
      else
        match List.filter (path_exists d) candidates with
        | [] => Ok (Some c)
        | [p] => Ok (Some p)
        | _ => Err ValueError
        end
  end.

(** [local_path]. *)
Definition local_path (d : Disk) (ref : ArtifactRef) : res exn string :=
  p ← local_uri_path d ref;
  match p with Some path => Ok path | None => Err ValueError end.

(** [_verified_source_path]. *)
Definition verified_source_path (d : Disk) (ref : ArtifactRef) : res exn string :=
  p ← local_uri_path d ref;
  match p with
  | None => Err (ArtifactVerificationError "not_local")
  | Some path => if is_abs path then Ok path else Err (ArtifactVerificationError "not_absolute")
  end.

(** [_expected_artifact_identity], with the code of its error. *)
Definition required_identity (ref : ArtifactRef) : res exn (list ascii * Z) :=
  if negb (has_declared_identity ref) then Err (ArtifactVerificationError "identity_missing")
  else match expected_artifact_identity ref with
       | Some i => Ok i
       | None => Err (ArtifactVerificationError "identity_invalid")
       end.

Section Files.
Variable cwd : string.
Variable entry_size : string → Z.

(** [local_file_uri]. *)
Definition local_file_uri (path : string) : string := str (chars "file://" ++ quote (chars (abspath cwd path))).

(** [local_artifact]: a file that is not there has no size; any other entry that
    cannot be read raises. *)
Definition local_artifact (d : Disk) (path media_type : string) (include_sha256 : bool) : res exn ArtifactRef :=
  let absolute := abspath cwd path in
  let ref h n := mkArtifactRef (local_file_uri absolute) (basename absolute) h n media_type in
  match d !! absolute with
  | None | Some (Symlink None) => Ok (ref None None)
  | Some e =>
      match entry_text e with
      | Some text =>
          Ok (ref (if include_sha256 then Some (str (sha256_hexdigest (chars text))) else None)
                (Some (Z.of_nat (String.length text))))
      | None => if include_sha256 then Err OSError else Ok (ref None (Some (entry_size absolute)))
      end
  end.

(** ** Staging verified bytes *)

Context {W : Type}.
Variable os_step : W → W * bool.
Variable write_file : W → W * Writing.
Notation M := (st (Machine W) exn).

(** A call of the operating system that only fails or succeeds. *)
Definition attempt_step : M bool := λ m, let '(w, ok) := os_step (env_ m) in (mkMachine (disk m) w, Ok ok).
Definition step_or_raise (e : exn) : M () := ok ← attempt_step; if ok : bool then mret () else st_raise e.

(** [os.replace] by a complete copy, and [os.fsync] of the directory. *)
Definition replace_file (e : exn) (path text : string) : M () := λ m,
  if is_dir (disk m) path then (m, Err e)
  else
    let '(w, o) := write_file (env_ m) in
    match o with
    | Written => (mkMachine (<[path := Regular text]> (disk m)) w, Ok ())
    | NotWritten => (mkMachine (disk m) w, Err e)
    | Unsynced => (mkMachine (<[path := Regular text]> (disk m)) w, Err e)
    end.

(** The bytes [_copy_to_temporary] copies. *)
Definition source_bytes (d : Disk) (source : string) : res exn string :=
  match d !! source with
  | None | Some (Symlink None) => Err (ArtifactVerificationError "not_found")
  | Some Directory => Err (ArtifactVerificationError "stage_failed")
  | Some Special => Err (ArtifactVerificationError "not_regular")
  | Some (Regular t) | Some (Symlink (Some t)) => Ok t
  end.

(** [stage_verified_local_artifact]; an [OSError] becomes [stage_failed]. *)
Definition stage_verified_local_artifact (ref : ArtifactRef) (destination : string) : M VerifiedLocalArtifact :=
  '(expected_digest, expected_size) ← st_lift (required_identity ref);
  m ← st_get;
  source ← st_lift (verified_source_path (disk m) ref);
  _ ← step_or_raise (ArtifactVerificationError "stage_failed");
  text ← st_lift (source_bytes (disk m) source);
  _ ← step_or_raise (ArtifactVerificationError "stage_failed");
  let digest := sha256_hexdigest (chars text) in
  let size := Z.of_nat (String.length text) in
  if negb (size =? expected_size) then st_raise (ArtifactVerificationError "size_mismatch")
  else if negb (bool_decide (digest = expected_digest)) then st_raise (ArtifactVerificationError "sha256_mismatch")
  else
    let destination := abspath cwd destination in
    _ ← replace_file (ArtifactVerificationError "stage_failed") destination text;
    mret (mkVerified destination digest size).
End Files.
End Urls.

(** ** A path and its URI *)

(** Quoted text holds no character that a URI reads specially. *)
Definition is_plain (c : ascii) : bool :=
  negb (is_unsafe c) && negb (existsb (Ascii.eqb c) (chars "?#[]")).

Definition quote_ok (c : ascii) : bool :=
  forallb is_plain (quote_char c) &&
  match quote_char c with
  | [d] => Ascii.eqb d c && negb (Ascii.eqb c "%"%char)
  | [p; a; b] =>
      Ascii.eqb p "%"%char
      && match hex_digit_value a, hex_digit_value b with
         | Some x, Some y => Ascii.eqb (ascii_of_nat (Z.to_nat (16 * x + y))) c
         | _, _ => false
         end
  | _ => false
  end.

Lemma quote_ok_all c : quote_ok c = true.
Proof. destruct c as [[] [] [] [] [] [] [] []]; vm_compute; reflexivity. Qed.

Lemma quote_char_facts c :
  forallb is_plain (quote_char c) = true
  ∧ ((quote_char c = [c] ∧ c ≠ "%"%char)
     ∨ ∃ a b x y, quote_char c = ["%"%char; a; b] ∧ hex_digit_value a = Some x ∧ hex_digit_value b = Some y
                  ∧ ascii_of_nat (Z.to_nat (16 * x + y)) = c).
Proof.
  pose proof (quote_ok_all c) as [Hp H]%andb_true_iff. split; [done|].
  destruct (quote_char c) as [|d [|a [|b [|? ?]]]]; try done.
  - left. apply andb_true_iff in H as [->%Ascii.eqb_eq H]. split; [done|]. intros ->. done.
  - right. apply andb_true_iff in H as [->%Ascii.eqb_eq H].
    destruct (hex_digit_value a) as [x|] eqn:Ex; [|done]. destruct (hex_digit_value b) as [y|] eqn:Ey; [|done].
    exists a, b, x, y. split_and!; [done|done|done|by apply Ascii.eqb_eq].
Qed.

Lemma unquote_quote l : unquote (quote l) = l.
Proof.
  unfold quote. induction l as [|c l IH]; [done|]. rewrite fmap_cons. cbn [concat].
  destruct (quote_char_facts c) as [_ [[-> Hc]|(a & b & x & y & -> & Ha & Hb & Hv)]]; cbn [app unquote].
  - destruct (Ascii.eqb_spec c "%"%char) as [E|_]; [done|]. by rewrite IH.
  - change (Ascii.eqb "%" "%") with true. cbn iota. by rewrite Ha, Hb, Hv, IH.
Qed.

Lemma quote_plain l : forallb is_plain (quote l) = true.
Proof.
  unfold quote. induction l as [|c l IH]; [done|]. rewrite fmap_cons. cbn [concat].
  rewrite forallb_app, IH, andb_true_r. apply quote_char_facts.
Qed.

Lemma break_at_none stop l : forallb (λ c, negb (stop c)) l = true → break_at stop l = (l, []).
Proof.
  induction l as [|c l IH]; [done|]. cbn. intros [Hc Hl]%andb_true_iff. apply negb_true_iff in Hc.
  by rewrite Hc, IH.
Qed.

Lemma filter_all {A} (f : A → bool) l : forallb f l = true → List.filter f l = l.
Proof. induction l as [|c l IH]; [done|]. cbn. intros [-> Hl]%andb_true_iff. by rewrite IH. Qed.

Lemma forallb_weaken {A} (f g : A → bool) l :
  (∀ a, f a = true → g a = true) → forallb f l = true → forallb g l = true.
Proof. intros H. rewrite !forallb_forall. auto. Qed.

Lemma quote_abs p : is_abs p = true → ∃ r, quote (chars p) = slash :: r.
Proof.
  unfold is_abs, quote. destruct (chars p) as [|c l]; [done|]. cbn [starts_with]. rewrite andb_true_r.
  intros H%Ascii.eqb_eq. subst c. rewrite fmap_cons. change (quote_char slash) with [slash]. by eexists.
Qed.

Lemma urlparse_file ok q r : q = slash :: r → forallb is_plain q = true →
  urlparse ok (chars "file://" ++ q) = Ok (mkUrl (chars "file") [] q).
Proof.
  intros Hr Hq. unfold urlparse.
  assert (E : List.filter (λ c, negb (is_unsafe c)) (strip_c0 (chars "file://" ++ q)) = chars "file://" ++ q).
  { change (strip_c0 (chars "file://" ++ q)) with (chars "file://" ++ q). apply filter_all.
    rewrite forallb_app. apply andb_true_iff. split; [done|]. eapply forallb_weaken; [|exact Hq].
    intros a [H _]%andb_true_iff. exact H. }
  rewrite E. change (split_scheme (chars "file://" ++ q)) with (chars "file", chars "//" ++ q). cbn iota beta.
  change (starts_with (chars "//") (chars "//" ++ q)) with true. cbn iota.
  change (drop 2 (chars "//" ++ q)) with q. rewrite Hr at 1. cbn [break_at].
  change (existsb (Ascii.eqb slash) (chars "/?#")) with true. cbn iota.
  change (bool_decide ("["%char ∈ ([] : list ascii))) with false.
  change (bool_decide ("]"%char ∈ ([] : list ascii))) with false. cbn [xorb andb orb].
  rewrite <- Hr, break_at_none; [reflexivity|]. eapply forallb_weaken; [|exact Hq].
  intros a [_ H]%andb_true_iff. apply negb_true_iff in H. apply negb_true_iff.
  change (chars "?#[]") with (chars "?#" ++ chars "[]") in H. rewrite existsb_app in H.
  by apply orb_false_iff in H as [H _].
Qed.

Section Properties.
Variable ip_literal_ok : list ascii → bool.
Variable cwd : string.
Variable entry_size : string → Z.
Hypothesis cwd_abs : is_abs cwd = true.

Lemma file_uri_paths path : ∃ rest,
  local_uri_paths ip_literal_ok (local_file_uri cwd path) = Ok (abspath cwd path :: rest).
Proof.
  set (p := abspath cwd path). assert (Hp : is_abs p = true) by by apply abspath_abs.
  destruct (quote_abs p Hp) as [r Hr]. unfold local_uri_paths, local_file_uri. fold p.
  rewrite chars_str, (urlparse_file _ _ r Hr (quote_plain _)). cbn [mbind res_bind scheme netloc url_path].
  rewrite bool_decide_false by done. rewrite (bool_decide_true (chars "file" = _)) by done.
  rewrite bool_decide_true by set_solver. cbn [negb orb]. rewrite unquote_quote.
  unfold fromkeys. rewrite fromkeys_from_cons, decide_False by apply not_elem_of_nil. cbn [app].
  destruct (_ && _).
  - rewrite fromkeys_from_cons. destruct (decide _); cbn [fromkeys_from fold_left app fmap list_fmap];
      rewrite str_chars; by eexists.
  - cbn [fromkeys_from fold_left fmap list_fmap]. rewrite str_chars. by eexists.
Qed.

(** A reference whose URI was made from a path means that path, when the file
    there is what the reference declares. *)
Lemma file_uri_path d path ref : uri ref = local_file_uri cwd path →
  matches_declared_identity d (abspath cwd path) ref = true →
  local_uri_path ip_literal_ok d ref = Ok (Some (abspath cwd path)).
Proof.
  intros Hu Hm. unfold local_uri_path. rewrite Hu. destruct (file_uri_paths path) as [rest ->].
  cbn [mbind res_bind]. destruct rest as [|c rest]; [done|].
  assert (has_declared_identity ref = true) as ->.
  { unfold matches_declared_identity in Hm. unfold has_declared_identity.
    destruct (sha256 ref); [|done]. by destruct (size_bytes ref). }
  cbn [List.find]. by rewrite Hm.
Qed.

(** ** Digests are what identities require *)

Lemma hex_chars_lower (n : nat) (x : Z) :
  lower (hex_fixed n x) = hex_fixed n x ∧ forallb is_hex_digit (hex_fixed n x) = true.
Proof.
  induction n as [|n [IH1 IH2]]; [done|]. cbn [hex_fixed]. set (d := Z.shiftr x (4 * Z.of_nat n) mod 16).
  assert (Hd : lower_char (hex_char d) = hex_char d ∧ is_hex_digit (hex_char d) = true).
  { assert (d ∈ [0;1;2;3;4;5;6;7;8;9;10;11;12;13;14;15]) as H
      by (pose proof (Z.mod_pos_bound (Z.shiftr x (4 * Z.of_nat n)) 16 ltac:(lia)); apply list_elem_of_In; cbn; lia).
    repeat (apply elem_of_cons in H as [->|H]; [by vm_compute|]). by apply not_elem_of_nil in H. }
  destruct Hd as [H1 H2]. split; [|cbn [forallb]; by rewrite H2].
  unfold lower in *. rewrite fmap_cons, H1. by f_equal.
Qed.

Lemma lower_hex_digit c : is_hex_digit (lower_char c) = true → is_hex_digit c = true.
Proof. destruct c as [[] [] [] [] [] [] [] []]; vm_compute; done. Qed.

Lemma digest_hex text : lower (sha256_hexdigest text) = sha256_hexdigest text
  ∧ forallb is_hex_digit (sha256_hexdigest text) = true.
Proof.
  unfold sha256_hexdigest. induction (sha256_words (code <$> text)) as [|w ws [IH1 IH2]]; [done|].
  rewrite fmap_cons. cbn [concat]. destruct (hex_chars_lower 8 w) as [H1 H2]. split.
  - unfold lower in *. rewrite fmap_app, H1. by f_equal.
  - by rewrite forallb_app, H2.
Qed.

(** The digest and the size the reference declares are those of [text]. *)
Definition declares (ref : ArtifactRef) (text : string) : Prop :=
  ∃ h, sha256 ref = Some h ∧ lower (chars h) = sha256_hexdigest (chars text)
       ∧ size_bytes ref = Some (Z.of_nat (String.length text)).

Lemma required_identity_ok ref i : required_identity ref = Ok i →
  ∃ h, sha256 ref = Some h ∧ size_bytes ref = Some i.2 ∧ i.1 = lower (chars h).
Proof.
  unfold required_identity, has_declared_identity, expected_artifact_identity.
  destruct (sha256 ref) as [h|]; [|done]. destruct (size_bytes ref) as [n|]; [|done]. cbn [negb].
  destruct (_ || _); [done|]. intros [= <-]. by exists h.
Qed.

Lemma required_identity_digest ref text : declares ref text →
  required_identity ref = Ok (sha256_hexdigest (chars text), Z.of_nat (String.length text)).
Proof.
  intros (h & Hh & Hl & Hn). unfold required_identity, has_declared_identity, expected_artifact_identity.
  rewrite Hh, Hn. cbn [negb]. pose proof (digest_hex (chars text)) as [_ Hx]. pose proof (sha256_length (chars text)) as H64.
  assert (E : length (chars h) = 64%nat). { rewrite <- H64, <- Hl. unfold lower. by rewrite length_fmap. }
  rewrite E, Hl. cbn [Nat.eqb negb orb].
  assert (Hhex : forallb is_hex_digit (chars h) = true).
  { rewrite <- Hl in Hx. revert Hx. unfold lower. rewrite !forallb_forall. intros Hx c Hc.
    specialize (Hx (lower_char c)). rewrite <- list_elem_of_In in Hx. specialize (Hx (list_elem_of_fmap_2 _ _ _ (proj2 (list_elem_of_In _ _) Hc))).
    exact (lower_hex_digit c Hx). }
  rewrite Hhex. cbn [negb orb]. by rewrite (proj2 (Z.ltb_ge _ 0)) by lia.
Qed.

Lemma declares_matches d path ref text :
  declares ref text → read_file d path = Some text → matches_declared_identity d path ref = true.
Proof.
  intros (h & Hh & Hl & Hn) Hr. unfold matches_declared_identity. rewrite Hh, Hn, Hr, Z.eqb_refl. cbn [andb].
  apply bool_decide_eq_true. rewrite Hl. apply digest_hex.
Qed.

(** What [local_artifact] says of a file it has read. *)
Lemma local_artifact_declares d path media ref :
  local_artifact cwd entry_size d path media true = Ok ref → sha256 ref ≠ None →
  ∃ text, read_file d (abspath cwd path) = Some text ∧ declares ref text
          ∧ uri ref = local_file_uri cwd (abspath cwd path) ∧ relative_path ref = basename (abspath cwd path).
Proof.
  unfold local_artifact, read_file. intros H Hs.
  assert (Hd : ∀ text, declares (mkArtifactRef (local_file_uri cwd (abspath cwd path)) (basename (abspath cwd path))
             (Some (str (sha256_hexdigest (chars text)))) (Some (Z.of_nat (String.length text))) media) text).
  { intros text. exists (str (sha256_hexdigest (chars text))). cbn. split_and!; [done| |done].
    rewrite chars_str. apply digest_hex. }
  destruct (d !! abspath cwd path) as [[t|[t|]| |]|]; cbn in *; try done; injection H as <-; try done;
    exists t; by split_and!.
Qed.

(** ** Staging *)

Section Staging.
Context {W : Type}.
Variable os_step : W → W * bool.
Variable write_file : W → W * Writing.

Notation stage := (stage_verified_local_artifact ip_literal_ok cwd os_step write_file).

(** What staging may leave behind: nothing, or verified bytes at the destination. *)
Definition staged_disk (ref : ArtifactRef) (destination : string) (d d' : Disk) : Prop :=
  d' = d ∨ ∃ text, declares ref text ∧ d' = <[abspath cwd destination := Regular text]> d.

(** The exceptions of staging. *)
Definition staging_error (ref : ArtifactRef) (e : exn) : Prop :=
  (∃ code, e = ArtifactVerificationError code)
  ∨ (e = ValueError ∧ urlparse ip_literal_ok (chars (uri ref)) = Err ValueError).

Lemma verified_source_error d ref i e :
  required_identity ref = Ok i → verified_source_path ip_literal_ok d ref = Err e → staging_error ref e.
Proof.
  intros (h & Hh & Hn & _)%required_identity_ok. unfold verified_source_path, local_uri_path, staging_error.
  unfold local_uri_paths. destruct (urlparse ip_literal_ok (chars (uri ref))) as [u|x] eqn:Eu.
  - assert (has_declared_identity ref = true) as Hi by (unfold has_declared_identity; by rewrite Hh, Hn).
    intros H. left. cbn [mbind res_bind] in H. rewrite Hi in H. cbn iota in H.
    match type of H with
      context [mbind (M := res exn) ?f (if ?b then Ok ?x else _)] =>
        destruct (if b then Ok x else _) as [cs|x'] eqn:Ec
    end.
    + cbn [mbind res_bind] in H. destruct cs as [|c [|c' cs]].
      * injection H as <-. by eexists.
      * cbn [mbind res_bind] in H. destruct (is_abs c); [done|]. injection H as <-. by eexists.
      * destruct (List.find _ _) as [q|]; [|destruct (existsb _ _)]; cbn [mbind res_bind] in H.
        -- destruct (is_abs q); [done|]. injection H as <-. by eexists.
        -- injection H as <-. by eexists.
        -- destruct (is_abs c); [done|]. injection H as <-. by eexists.
    + exfalso. revert Ec. destruct (bool_decide _); [done|]. by destruct (_ || _).
  - intros H. right. unfold urlparse in Eu. destruct (split_scheme _) as [s r].
    destruct (if starts_with _ _ then _ else _) as [l r'].
    destruct (_ || _); [|done]. injection Eu as <-. cbn in H. injection H as <-. done.
Qed.

Lemma replace_file_run e path text m m' r :
  replace_file write_file e path text m = (m', r) →
  (disk m' = disk m ∨ disk m' = <[path := Regular text]> (disk m))
  ∧ match r with Ok _ => disk m' = <[path := Regular text]> (disk m) | Err x => x = e end.
Proof.
  unfold replace_file. destruct (is_dir _ _); [intros [= <- <-]; auto|].
  destruct (write_file (env_ m)) as [w []]; intros [= <- <-]; auto.
Qed.

Lemma step_or_raise_run e (m m' : Machine W) r :
  step_or_raise os_step e m = (m', r) → disk m' = disk m ∧ match r with Ok _ => True | Err x => x = e end.
Proof.
  unfold step_or_raise, attempt_step, mbind, st_bind. destruct (os_step (env_ m)) as [w []]; by intros [= <- <-].
Qed.

(** What a staging does. *)
Lemma stage_run ref destination m m' r :
  stage ref destination m = (m', r) →
  staged_disk ref destination (disk m) (disk m') ∧
  match r with
  | Ok v => ∃ source text,
      verified_source_path ip_literal_ok (disk m) ref = Ok source ∧ read_file (disk m) source = Some text
      ∧ declares ref text ∧ disk m' = <[abspath cwd destination := Regular text]> (disk m)
      ∧ v = mkVerified (abspath cwd destination) (sha256_hexdigest (chars text)) (Z.of_nat (String.length text))
  | Err e => staging_error ref e
  end.
Proof.
  unfold stage_verified_local_artifact, st_lift, st_get, mbind, st_bind.
  destruct (required_identity ref) as [i|e] eqn:Ei.
  2: { intros [= <- <-]. split; [by left|]. left. unfold required_identity in Ei.
       destruct (negb _); [injection Ei as <-; by eexists|].
       destruct (expected_artifact_identity ref); [done|]. injection Ei as <-. by eexists. }
  apply required_identity_ok in Ei as Hi. destruct Hi as (h & Hh & Hn & Hd). destruct i as [digest size]. cbn [fst snd] in Hn, Hd.
  destruct (verified_source_path ip_literal_ok (disk m) ref) as [source|e] eqn:Es.
  2: { intros [= <- <-]. split; [by left|]. by eapply verified_source_error. }
  destruct (step_or_raise os_step _ m) as [m1 [?|e]] eqn:E1; apply step_or_raise_run in E1 as [D1 X1].
  2: { intros [= <- <-]. subst e. rewrite D1. split; [by left|]. left. by eexists. }
  destruct (source_bytes (disk m) source) as [text|e] eqn:Et.
  2: { intros [= <- <-]. rewrite D1. split; [by left|]. left. unfold source_bytes in Et.
       destruct (disk m !! source) as [[?|[?|]| |]|]; try done; injection Et as <-; by eexists. }
  destruct (step_or_raise os_step _ m1) as [m2 [?|e]] eqn:E2; apply step_or_raise_run in E2 as [D2 X2].
  2: { intros [= <- <-]. subst e. rewrite D2, D1. split; [by left|]. left. by eexists. }
  cbv zeta. destruct (Z.eqb_spec (Z.of_nat (String.length text)) size) as [<-|_]; cbn [negb].
  2: { intros [= <- <-]. rewrite D2, D1. split; [by left|]. left. by eexists. }
  case_bool_decide as Hdig; cbn [negb].
  2: { intros [= <- <-]. rewrite D2, D1. split; [by left|]. left. by eexists. }
  assert (Hdecl : declares ref text) by (exists h; split_and!; [done|by rewrite Hdig, Hd|done]).
  assert (Hread : read_file (disk m) source = Some text).
  { unfold source_bytes in Et. unfold read_file. by destruct (disk m !! source) as [[?|[?|]| |]|]; simplify_eq/=. }
  destruct (replace_file write_file _ _ text m2) as [m3 r3] eqn:E3. apply replace_file_run in E3 as [D3 X3].
  rewrite D2, D1 in D3, X3. intros H. assert (m' = m3) as -> by (unfold mret, st_ret in H; destruct r3; congruence). split.
  - destruct D3 as [->| ->]; [by left|]. right. by exists text.
  - destruct r3 as [u|e].
    + injection H as <-. exists source, text. split_and!; done.
    + injection H as <-. subst e. left. by eexists.
Qed.

(** C37: Staging copies bytes with the declared digest and size, or refuses: when
    it succeeds, the destination is a regular file whose bytes were read from the
    path the reference means and have exactly the declared size and SHA-256; when
    it raises, it is with a verification error (or [ValueError], for a URI whose
    host is malformed); and either way nothing but the destination is touched, and
    the destination never holds bytes the reference does not declare. *)
Theorem staging_is_verified ref destination m m' r :
  stage ref destination m = (m', r) →
  staged_disk ref destination (disk m) (disk m') ∧
  match r with
  | Ok v => ∃ source text,
      verified_source_path ip_literal_ok (disk m) ref = Ok source ∧ read_file (disk m) source = Some text
      ∧ declares ref text ∧ disk m' = <[abspath cwd destination := Regular text]> (disk m)
      ∧ v = mkVerified (abspath cwd destination) (sha256_hexdigest (chars text)) (Z.of_nat (String.length text))
  | Err e => staging_error ref e
  end.
Proof. apply stage_run. Qed.

(** C38: A reference made by [local_artifact] finds its file again.  Whatever
    characters the path has, [local_path] of the reference is the absolute path
    while the file holds the bytes that were hashed; and on a system whose calls
    succeed, staging it puts exactly those bytes at the destination, changes nothing
    else and reports the reference's own digest and size. *)
Theorem described_artifacts_stage path media ref destination m :
  local_artifact cwd entry_size (disk m) path media true = Ok ref → sha256 ref ≠ None →
  (∀ w, (os_step w).2 = true) → (∀ w, (write_file w).2 = Written) →
  is_dir (disk m) (abspath cwd destination) = false →
  ∃ text, read_file (disk m) (abspath cwd path) = Some text
    ∧ local_path ip_literal_ok (disk m) ref = Ok (abspath cwd path)
    ∧ ∃ m', stage ref destination m
        = (m', Ok (mkVerified (abspath cwd destination) (sha256_hexdigest (chars text)) (Z.of_nat (String.length text))))
      ∧ disk m' = <[abspath cwd destination := Regular text]> (disk m)
      ∧ required_identity ref = Ok (sha256_hexdigest (chars text), Z.of_nat (String.length text)).
Proof.
  intros Ha Hs Hok Hw Hdir. destruct (local_artifact_declares _ _ _ _ Ha Hs) as (text & Hr & Hd & Hu & _).
  exists text. pose proof (required_identity_digest _ _ Hd) as Hi.
  assert (Hp : local_uri_path ip_literal_ok (disk m) ref = Ok (Some (abspath cwd path))).
  { rewrite <- (abspath_idem cwd path cwd_abs). apply file_uri_path; [done|].
    eapply declares_matches; [done|]. by rewrite abspath_idem. }
  assert (Hv : verified_source_path ip_literal_ok (disk m) ref = Ok (abspath cwd path)).
  { unfold verified_source_path. rewrite Hp. cbn [mbind res_bind]. by rewrite abspath_abs. }
  split_and!; [done|unfold local_path; by rewrite Hp|].
  assert (Hb : source_bytes (disk m) (abspath cwd path) = Ok text).
  { unfold read_file in Hr. unfold source_bytes. by destruct (disk m !! abspath cwd path) as [[?|[?|]| |]|]; simplify_eq/=. }
  assert (Hstep : ∀ e n, ∃ n', step_or_raise os_step e n = (n', Ok ()) ∧ disk n' = disk n).
  { intros e n. unfold step_or_raise, attempt_step, mbind, st_bind. specialize (Hok (env_ n)).
    destruct (os_step (env_ n)) as [w b]. cbn in Hok. subst b. by eexists. }
  destruct (Hstep (ArtifactVerificationError "stage_failed") m) as (m1 & E1 & D1).
  destruct (Hstep (ArtifactVerificationError "stage_failed") m1) as (m2 & E2 & D2).
  unfold stage_verified_local_artifact, st_lift, st_get, mbind, st_bind.
  rewrite Hi, Hv, E1, Hb, E2, Z.eqb_refl. cbn [negb]. rewrite bool_decide_true by done. cbn [negb].
  unfold replace_file. rewrite D2, D1, Hdir. specialize (Hw (env_ m2)).
  destruct (write_file (env_ m2)) as [w o]. cbn in Hw. subst o. by eexists.
Qed.
End Staging.
End Properties.

(** ** A path with characters a URI escapes *)

Module Escaped.
Definition os_step (w : ()) : () * bool := (w, true).
Definition write_file (w : ()) : () * Writing := (w, Written).
Definition no_size (_ : string) : Z := 0.
Definition start : Machine () :=
  mkMachine {["/w/run #1/a b.ndjson" := Regular "trace"; "/w/run #1" := Directory]}%string ().
Definition made : ArtifactRef :=
  mkArtifactRef "file:///w/run%20%231/a%20b.ndjson" "a b.ndjson"
    (Some (str (sha256_hexdigest (chars "trace")))) (Some 5) "text/plain".

Lemma described_artifacts_stage_witness :
  ∃ text, local_path (λ _, true) (disk start) made = Ok "/w/run #1/a b.ndjson"%string
  ∧ read_file (disk start) "/w/run #1/a b.ndjson"%string = Some text
  ∧ ∃ m', stage_verified_local_artifact (λ _, true) "/w" os_step write_file made "copy" start
     = (m', Ok (mkVerified "/w/copy"%string (sha256_hexdigest (chars text)) (Z.of_nat (String.length text)))).
Proof.
  destruct (described_artifacts_stage (λ _, true) "/w" no_size eq_refl os_step write_file
    "run #1/a b.ndjson" "text/plain" made "copy" start) as (text & H1 & H2 & m' & H3 & _).
  - vm_compute. reflexivity.
  - vm_compute. discriminate.
  - intros w. reflexivity.
  - intros w. reflexivity.
  - vm_compute. reflexivity.
  - exists text. split; [exact H2|]. split; [exact H1|]. exists m'. exact H3.
Defined.

Lemma staging_is_verified_witness :
  staged_disk "/w" made "copy" (disk start)
    (disk (stage_verified_local_artifact (λ _, true) "/w" os_step write_file made "copy" start).1).
Proof.
  destruct (stage_verified_local_artifact (λ _, true) "/w" os_step write_file made "copy" start) as [m' r] eqn:E.
  exact (proj1 (staging_is_verified (λ _, true) "/w" os_step write_file made "copy" start m' r E)).
Defined.
End Escaped.
