(* ===== verification/TraceCapture.v ===== *)
(** Which captured traces count: the checks, the targeting and the selection of
    src/python/cutracer/service/experiments/trace.py.

    A capture writes traces and cubins into its attempt directory.  The trace of a
    launch begins with a [kernel_metadata] record that says which kernel ran, at
    which launch and with which filters; [selected_capture_outputs] keeps the
    traces of the pinned kernel and refuses any whose filters are not the
    requested ones.

    Parameters: [loads], JSON decoding; [read_lines], the lines of a trace's bytes
    and the error that ends them, if one does (decompression and text decoding);
    [ip_literal_ok] and [cwd] as in Artifacts. *)
From S2P Require Import Prelude.
From S2P Require Import PyStr.
From S2P Require Import PySet.
From S2P Require Import PyText.
From S2P Require Import Json.
From S2P Require Import Contracts.
From S2P Require Import Results.
From S2P Require Import Experiments.
From S2P Require Import Paths.
From S2P Require Import Artifacts.
From Stdlib Require Import Ascii.
From Stdlib Require String.
Local Open Scope Z_scope.

Definition raise_if (b : bool) : res exn () := if b then Err ValueError else Ok ().
Definition or_value_error {A} (o : option A) : res exn A := match o with Some a => Ok a | None => Err ValueError end.

(** ** The specification at run time *)

Definition validate_trace_spec (sp : ExperimentSpec) : res exn TraceOptions :=
  _ ← raise_if (negb (is_trace_kind (sp_kind sp)));
  or_value_error (sp_trace sp).

Definition validate_trace_runtime_identity (sp : ExperimentSpec) (o : TraceOptions) : res exn () :=
  _ ← raise_if (negb (bool_decide (to_mode o = sp_kind sp)));
  _ ← raise_if (negb ((0 <? trace_size_limit_mb o) && (trace_size_limit_mb o <=? UINT32_MAX)));
  raise_if (match kernel (sp_unit sp) with
            | None => true
            | Some k => blank (ki_name k) || blank (cubin_hash k)
            end).

Definition validate_trace_selector_scalars (s : TraceSelector) : res exn () :=
  _ ← raise_if (outside (sel_launch_id s) U64_MAX);
  _ ← raise_if (outside (sel_warp_id s) 31);
  _ ← raise_if (outside (sel_warpgroup_id s) 7);
  raise_if (is_some (sel_warp_id s) && is_some (sel_warpgroup_id s)).

(** The categories are of the enumeration by their type. *)
Definition validate_trace_selector_lists (s : TraceSelector) : res exn () :=
  _ ← raise_if (32 <? length (sel_pc_offsets s))%nat;
  _ ← mapM (λ offset, value ← or_value_error (int0 (chars offset)); raise_if (outside (Some value) U64_MAX))
        (sel_pc_offsets s);
  Ok ().

Definition validate_trace_config_binding (o : TraceOptions) : res exn () :=
  let source := sel_config_source (to_selector o) in
  _ ← raise_if (is_some source && negb (is_some (config_artifact o)));
  raise_if (negb (is_some source) && is_some (config_artifact o)).

Definition validate_trace_runtime_spec (sp : ExperimentSpec) : res exn () :=
  o ← validate_trace_spec sp;
  _ ← validate_trace_runtime_identity sp o;
  _ ← validate_trace_selector_scalars (to_selector o);
  _ ← validate_trace_selector_lists (to_selector o);
  validate_trace_config_binding o.

(** ** Finding the traces of an attempt *)

(** [_TRACE_SUFFIXES] and [_RESERVED_CAPTURE_BASENAMES]. *)
Definition has_trace_suffix (name : string) : bool :=
  ends_with (chars ".ndjson") (chars name) || ends_with (chars ".ndjson.zst") (chars name).
Definition RESERVED_CAPTURE_BASENAMES : list string :=
  ["_SUCCESS"; "experiment_envelope.json"; "index.json"; "trace.log"; "trace_analysis.json"; "trace_progress.json"].

Definition is_trace_candidate (name : string) : bool :=
  negb (starts_with (chars "cutracer_kernel_events_") (chars name)
        || bool_decide (name ∈ RESERVED_CAPTURE_BASENAMES) || negb (has_trace_suffix name)).

(** [_default_trace_locator]. *)
Definition default_trace_locator (d : Disk) (out_dir : string) : res exn (option (list string)) :=
  if negb (is_dir d out_dir) then Ok (Some [])
  else
    paths ← mapM (λ path, if regular_file d path then Ok path else Err OSError)
              (join out_dir <$> List.filter is_trace_candidate (listdir d out_dir));
    Ok (Some (merge_sort path_le paths)).

(** [_located_trace_paths], of what the locator gave. *)
Definition check_located_path (d : Disk) (root path : string) : res exn string :=
  _ ← raise_if (negb (bool_decide (commonpath root path = root)));
  if negb (regular_file d path) then Err OSError
  else _ ← raise_if (negb (has_trace_suffix path)); Ok path.

Definition located_trace_paths (cwd : string) (d : Disk) (out_dir : string) (located : option (list string))
    : res exn (list string) :=
  match located with
  | None => Ok []
  | Some raw => mapM (check_located_path d (abspath cwd out_dir)) (sorted_paths (abspath cwd <$> raw))
  end.

(** ** The header of a trace *)

Section Capture.
Variable loads : string → option json.
Variable read_lines : string → list string * option exn.
Variable ip_literal_ok : list ascii → bool.
Variable cwd : string.

(** [_trace_metadata]: reading stops at the first record of the trace's data. *)
Fixpoint scan_records (lines : list string) (failure : option exn) (metadata : option obj) : res exn (obj * bool) :=
  match lines with
  | [] =>
      match failure with
      | Some e => Err e
      | None => m ← or_value_error metadata; Ok (m, false)
      end
  | raw :: rest =>
      match strip (chars raw) with
      | [] => scan_records rest failure metadata
      | line =>
          match loads (str line) with
          | Some (JObj record) =>
              let type := get record "type" in
              match metadata with
              | None =>
                  if json_eqb type (JStr "kernel_metadata") then scan_records rest failure (Some record)
                  else Err ValueError
              | Some m =>
                  if json_eqb type (JStr "kernel_metadata") || json_eqb type (JStr "callstack_def")
                  then scan_records rest failure metadata else Ok (m, true)
              end
          | _ => Err ValueError
          end
      end
  end.

Definition trace_metadata (d : Disk) (path : string) : res exn (obj * bool) :=
  match read_file d path with
  | None => Err OSError
  | Some text => let '(lines, failure) := read_lines text in scan_records lines failure None
  end.

(** ** What the capture is asked for *)

(** [_selected_kernel]. *)
Definition selected_kernel (sp : ExperimentSpec) (o : TraceOptions) : res exn (option KernelId) :=
  match sel_kernel (to_selector o) with
  | Some k => _ ← raise_if (negb (opt_kernel_eqb (Some k) (kernel (sp_unit sp)))); Ok (kernel (sp_unit sp))
  | None => Ok (kernel (sp_unit sp))
  end.

(** [_trace_warp_mask]: the mask of one warp, or of the four of a warpgroup. *)
Definition trace_warp_mask (s : TraceSelector) : res exn (option string) :=
  match sel_warp_id s, sel_warpgroup_id s with
  | Some w, _ => _ ← raise_if (outside (Some w) 31); Ok (Some (py_hex (Z.shiftl 1 w)))
  | None, Some g => _ ← raise_if (outside (Some g) 7); Ok (Some (py_hex (Z.shiftl 15 (g * 4))))
  | None, None => Ok None
  end.

(** [hex(n)] of any integer. *)
Definition signed_hex (n : Z) : string := if n <? 0 then ("-" +:+ py_hex (- n))%string else py_hex n.

(** [_parse_config_pc]: of the JSON values, only text and integers print as
    integer literals. *)
Definition parse_config_pc (value : json) : res exn Z :=
  match value with
  | JInt n => Ok n
  | JStr text =>
      match int0 (chars text) with
      | Some n => Ok n
      | None =>
          if bool_decide (text ≠ "") && forallb is_digit (chars text) then or_value_error (int10 (chars text))
          else Err ValueError
      end
  | _ => Err ValueError
  end.

(** [_resolved_trace_config_path]. *)
Definition resolved_trace_config_path (d : Disk) (o : TraceOptions) (resolved_config_path : option string)
    : res exn (option string) :=
  let source := sel_config_source (to_selector o) in
  match config_artifact o with
  | None =>
      _ ← raise_if (is_some source);
      _ ← raise_if (is_some resolved_config_path);
      Ok None
  | Some a =>
      _ ← raise_if (negb (is_some source));
      match resolved_config_path with
      | None => p ← local_path ip_literal_ok d a; Ok (Some p)
      | Some p => _ ← raise_if (negb (is_abs p)); Ok (Some p)
      end
  end.

(** [_enabled_point_offset]. *)
Definition enabled_point_offset (key : string) (point : json) : res exn (option string) :=
  match point with
  | JObj p =>
      if negb (truthy (get_or p "on" (JBool true))) then Ok None
      else
        n ← parse_config_pc (match field p "pc" with Some v => v | None => JStr key end);
        Ok (Some (signed_hex n))
  | _ => Ok None
  end.

(** [_matching_config_offsets]: the enabled points of the kernels with the pinned
    checksum, and whether there is such a kernel. *)
Definition matches_checksum (pinned : KernelId) (raw_kernel : json) : bool :=
  match raw_kernel with
  | JObj k => json_eqb (get k "kernel_checksum") (JStr (cubin_hash pinned))
  | _ => false
  end.

Definition kernel_offsets (raw_kernel : json) : res exn (list string) :=
  match raw_kernel with
  | JObj k =>
      match get k "instrumentation_points" with
      | JObj points =>
          offsets ← mapM (λ e, enabled_point_offset e.1 e.2) points; Ok (omap (λ x, x) offsets)
      | _ => Ok []
      end
  | _ => Ok []
  end.

Definition matching_config_offsets (kernels : obj) (pinned : KernelId) : res exn (list string * bool) :=
  let matching := List.filter (matches_checksum pinned) kernels.*2 in
  offsets ← mapM kernel_offsets matching;
  Ok (concat offsets, bool_decide (matching ≠ [])).

(** [_config_pc_offsets]. *)
Definition config_pc_offsets (d : Disk) (sp : ExperimentSpec) (o : TraceOptions) (resolved_config_path : option string)
    : res exn (list string) :=
  config_path ← resolved_trace_config_path d o resolved_config_path;
  match config_path with
  | None => Ok []
  | Some path =>
      match read_file d (abspath cwd path) with
      | None => Err OSError
      | Some text =>
          payload ← or_value_error (loads text);
          kernels ← or_value_error (match payload with
                                    | JObj p => match get p "kernels" with JObj k => Some k | _ => None end
                                    | _ => None
                                    end);
          k ← selected_kernel sp o;
          pinned ← or_value_error k;
          '(offsets, matched_kernel) ← matching_config_offsets kernels pinned;
          _ ← raise_if (negb matched_kernel);
          _ ← raise_if (bool_decide (offsets = []));
          Ok offsets
      end
  end.

(** [_trace_pc_offsets]: each once, in the order of their numbers. *)
Definition requested_offsets (d : Disk) (sp : ExperimentSpec) (o : TraceOptions) (resolved_config_path : option string)
    : res exn (list string) :=
  match sel_pc_offsets (to_selector o) with
  | [] => config_pc_offsets d sp o resolved_config_path
  | offsets => Ok offsets
  end.

Definition trace_pc_numbers (d : Disk) (sp : ExperimentSpec) (o : TraceOptions) (resolved_config_path : option string)
    : res exn (list Z) :=
  offsets ← requested_offsets d sp o resolved_config_path;
  numbers ← mapM (λ offset, or_value_error (int0 (chars offset))) offsets;
  let normalized := merge_sort Z.le (remove_dups numbers) in
  _ ← raise_if (existsb (λ n, outside (Some n) U64_MAX) normalized);
  _ ← raise_if (32 <? length normalized)%nat;
  Ok normalized.

Definition trace_pc_offsets (d : Disk) (sp : ExperimentSpec) (o : TraceOptions) (resolved_config_path : option string)
    : res exn (list string) :=
  numbers ← trace_pc_numbers d sp o resolved_config_path; Ok (fmap (M:=list) py_hex numbers).

(** [_expected_targeting_metadata]: the fields the instrumentation reports of its
    filters, [null] for no filter. *)
Definition expected_targeting_metadata (d : Disk) (sp : ExperimentSpec) (o : TraceOptions)
    (resolved_config_path : option string) : res exn (list (string * json)) :=
  let s := to_selector o in
  warp_mask ← trace_warp_mask s;
  pc_offsets ← trace_pc_offsets d sp o resolved_config_path;
  mask ← (match warp_mask with
          | None => Ok JNull
          | Some m => n ← or_value_error (int0 (chars m)); Ok (JInt n)
          end : res exn json);
  numbers ← mapM (λ offset, or_value_error (int0 (chars offset))) pc_offsets;
  let categories := List.filter (λ e, bool_decide (e.2 ∈ sel_categories s)) TraceInstructionCategory_values in
  Ok [("trace_launch_id", jopt JInt (sel_launch_id s)); ("trace_warp_mask", mask);
      ("trace_pc_offsets", match numbers with [] => JNull | _ => jlist JInt numbers end);
      ("trace_pc_filter_valid", JBool true);
      ("trace_instr_categories", match categories with [] => JNull | _ => jlist JStr categories.*1 end)].

(** ** Which traces are selected *)

(** [_matches_pinned_capture]. *)
Definition matches_pinned_capture (metadata : obj) (pinned : KernelId) (launch_matches : bool) : res exn bool :=
  if negb (json_eqb (get metadata "mangled_name") (JStr (ki_name pinned))
           || json_eqb (get metadata "unmangled_name") (JStr (ki_name pinned)))
  then Ok false
  else if negb (json_eqb (get metadata "kernel_checksum") (JStr (cubin_hash pinned)))
  then if launch_matches then Err ValueError else Ok false
  else Ok true.

(** [_validate_effective_targeting]. *)
Definition as_text (j : json) : option string := match j with JStr s => Some s | _ => None end.
Definition modes_match (actual : json) (modes : list string) : bool :=
  match actual with
  | JList l =>
      match mapM as_text l with
      | Some names => bool_decide (merge_sort str_le names = merge_sort str_le modes)
      | None => false
      end
  | _ => false
  end.

Definition validate_effective_targeting (metadata : obj) (expected_targeting : list (string * json))
    (modes : list string) : res exn () :=
  _ ← raise_if (existsb (λ e, negb (json_eqb (get metadata e.1) e.2)) expected_targeting);
  raise_if (negb (modes_match (get metadata "instrument_modes") modes)).

(** [_portable_cubin_name]. *)
Definition portable_cubin_name (metadata : obj) : res exn string :=
  match get metadata "cubin_path" with
  | JStr name =>
      _ ← raise_if (negb (ends_with (chars ".cubin") (chars name)) || negb (bool_decide (basename name = name)));
      Ok name
  | _ => Err ValueError
  end.

(** [effective_instrument_modes], whose error is a [ValueError]. *)
Definition instrument_modes (o : TraceOptions) : res exn (list string) :=
  match effective_instrument_modes o with Ok l => Ok l | Err _ => Err ValueError end.

(** [_selected_capture_metadata]. *)
Definition selected_capture_metadata (metadata : obj) (o : TraceOptions) (pinned : KernelId)
    (expected_targeting : list (string * json)) : res exn (option (Z * string)) :=
  let launch_id := get metadata "grid_launch_id" in
  let launch_matches :=
    match sel_launch_id (to_selector o) with None => true | Some l => json_eqb launch_id (JInt l) end in
  pinned_here ← matches_pinned_capture metadata pinned launch_matches;
  if negb pinned_here then Ok None
  else
    match launch_id with
    | JInt launch =>
        if negb launch_matches then Ok None
        else
          modes ← instrument_modes o;
          _ ← validate_effective_targeting metadata expected_targeting modes;
          cubin ← portable_cubin_name metadata;
          Ok (Some (launch, cubin))
    | _ => Err ValueError
    end.

(** The loop of [_selected_capture_outputs]: the selected paths, the names of
    their cubins, their launches, and whether each has records. *)
Record Selection := mkSelection {
  selected : list string; cubin_names : list string; launch_ids : list Z; all_have_records : bool
}.

Definition no_selection : Selection := mkSelection [] [] [] true.

Definition select_path (d : Disk) (o : TraceOptions) (pinned : KernelId) (expected : list (string * json))
    (s : Selection) (path : string) : res exn Selection :=
  '(metadata, has_records) ← trace_metadata d path;
  r ← selected_capture_metadata metadata o pinned expected;
  match r with
  | None => Ok s
  | Some (launch_id, cubin_name) =>
      if bool_decide (launch_id ∈ launch_ids s) then Err ValueError
      else Ok (mkSelection (selected s ++ [path]) (cubin_names s ++ [cubin_name]) (launch_ids s ++ [launch_id])
                 (all_have_records s && has_records))
  end.

Fixpoint select_paths (d : Disk) (o : TraceOptions) (pinned : KernelId) (expected : list (string * json))
    (s : Selection) (paths : list string) : res exn Selection :=
  match paths with
  | [] => Ok s
  | path :: rest => s ← select_path d o pinned expected s path; select_paths d o pinned expected s rest
  end.

(** [_selected_capture_outputs]. *)
Definition selected_capture_outputs (d : Disk) (paths : list string) (attempt_dir : string) (sp : ExperimentSpec)
    (o : TraceOptions) (resolved_config_path : option string) : res exn (list string * list string * bool) :=
  k ← selected_kernel sp o;
  pinned ← or_value_error k;
  expected ← expected_targeting_metadata d sp o resolved_config_path;
  s ← select_paths d o pinned expected no_selection paths;
  _ ← raise_if (bool_decide (selected s = []));
  supporting ← mapM (λ name, let path := join attempt_dir name in
                             if regular_file d path then Ok path else Err OSError)
                 (sorted_set (cubin_names s));
  Ok (selected s, supporting, all_have_records s).
End Capture.

(** ** What the targeting says *)

Lemma raise_if_ok b : raise_if b = Ok () ↔ b = false.
Proof. by destruct b. Qed.
Lemma or_value_error_ok {A} (x : option A) a : or_value_error x = Ok a ↔ x = Some a.
Proof. destruct x; cbn; naive_solver. Qed.

Ltac guarded H Hg := apply bind_ok in H as ([] & Hg%raise_if_ok & H).

Lemma outside_false n hi : outside (Some n) hi = false ↔ 0 ≤ n ≤ hi.
Proof. unfold outside. rewrite negb_false_iff, andb_true_iff, !Z.leb_le. done. Qed.

(** The warps a mask lets through. *)
Definition warp_selected (s : TraceSelector) (i : Z) : Prop :=
  match sel_warp_id s, sel_warpgroup_id s with
  | Some w, _ => i = w
  | None, Some g => 4 * g ≤ i < 4 * g + 4
  | None, None => True
  end.

Definition unfiltered_warps (s : TraceSelector) : Prop := sel_warp_id s = None ∧ sel_warpgroup_id s = None.

Lemma warp_mask_bits s m : trace_warp_mask s = Ok m →
  match m with
  | None => unfiltered_warps s
  | Some text => ∃ n, int0 (chars text) = Some n ∧ ∀ i, 0 ≤ i → Z.testbit n i = true ↔ warp_selected s i
  end.
Proof.
  unfold trace_warp_mask, unfiltered_warps, warp_selected. destruct (sel_warp_id s) as [w|].
  - intros H. guarded H Hr. apply outside_false in Hr. injection H as <-.
    exists (Z.shiftl 1 w). split; [apply int0_hex, Z.shiftl_nonneg; lia|]. intros i Hi.
    rewrite Z.shiftl_spec by done. destruct (Z.lt_trichotomy i w) as [Hl|[->|Hl]].
    + rewrite Z.testbit_neg_r by lia. split; [done|lia].
    + rewrite Z.sub_diag. done.
    + rewrite (Z.bits_above_log2 1) by (cbn; lia). split; [done|lia].
  - destruct (sel_warpgroup_id s) as [g|]; [|intros [= <-]; done].
    intros H. guarded H Hr. apply outside_false in Hr. injection H as <-.
    exists (Z.shiftl 15 (g * 4)). split; [apply int0_hex, Z.shiftl_nonneg; lia|]. intros i Hi.
    rewrite Z.shiftl_spec by done. destruct (Z.lt_ge_cases i (g * 4)) as [Hl|Hg].
    + rewrite Z.testbit_neg_r by lia. split; [done|lia].
    + destruct (Z.lt_ge_cases (i - g * 4) 4) as [Hl|Hg'].
      * assert (i - g * 4 = 0 ∨ i - g * 4 = 1 ∨ i - g * 4 = 2 ∨ i - g * 4 = 3) as [E|[E|[E|E]]] by lia;
          rewrite E; split; intros; first [done|lia].
      * rewrite (Z.bits_above_log2 15) by (cbn; lia). split; [done|lia].
Qed.

(** The requested categories, in the order of the enumeration. *)
Lemma categories_chosen (l : list TraceInstructionCategory) :
  let chosen := List.filter (λ k, bool_decide (k ∈ l)) [MMA; TMA; SYNC] in
  chosen `sublist_of` [MMA; TMA; SYNC] ∧ (∀ k, k ∈ chosen ↔ k ∈ l)
  ∧ (let categories := List.filter (λ e, bool_decide (e.2 ∈ l)) TraceInstructionCategory_values in
     match categories with [] => JNull | _ => jlist JStr categories.*1 end)
    = if bool_decide (l = []) then JNull else jlist JStr (enum_text <$> chosen).
Proof.
  intros chosen. cbv zeta.
  assert (Hin : ∀ k, k ∈ chosen ↔ k ∈ l).
  { intros k. unfold chosen. rewrite list_elem_of_In, filter_In, bool_decide_eq_true. destruct k; cbn; naive_solver. }
  split_and!; [|done|].
  - unfold chosen. cbn [List.filter]. repeat case_bool_decide; repeat constructor.
  - case_bool_decide as E.
    + subst l. done.
    + destruct l as [|k l]; [done|]. assert (Hk : k ∈ chosen) by (apply Hin; by left). revert Hk. unfold chosen.
      unfold TraceInstructionCategory_values. cbn [List.filter snd].
      repeat case_bool_decide; intros Hk; try done; by apply not_elem_of_nil in Hk.
Qed.

Section CaptureProperties.
Variable loads : string → option json.
Variable read_lines : string → list string * option exn.
Variable ip_literal_ok : list ascii → bool.
Variable cwd : string.

Notation resolved_trace_config_path := (resolved_trace_config_path ip_literal_ok).
Notation requested_offsets := (requested_offsets loads ip_literal_ok cwd).
Notation trace_pc_numbers := (trace_pc_numbers loads ip_literal_ok cwd).
Notation trace_pc_offsets := (trace_pc_offsets loads ip_literal_ok cwd).
Notation expected_targeting_metadata := (expected_targeting_metadata loads ip_literal_ok cwd).
Notation trace_metadata := (trace_metadata loads read_lines).
Notation select_path := (select_path loads read_lines).
Notation select_paths := (select_paths loads read_lines).
Notation selected_capture_outputs := (selected_capture_outputs loads read_lines ip_literal_ok cwd).

(** The offsets are numbers, each once, in order, within 64 bits and at most 32;
    they are those the request writes. *)
Definition exact_offsets (texts : list string) (numbers : list Z) : Prop :=
  NoDup numbers ∧ Sorted Z.le numbers ∧ Forall (λ n, 0 ≤ n ≤ U64_MAX) numbers ∧ (length numbers ≤ 32)%nat
  ∧ (∀ n, n ∈ numbers ↔ ∃ t, t ∈ texts ∧ int0 (chars t) = Some n)
  ∧ ∀ t, t ∈ texts → ∃ n, int0 (chars t) = Some n.

Lemma trace_pc_numbers_exact d sp o c numbers : trace_pc_numbers d sp o c = Ok numbers →
  ∃ texts, requested_offsets d sp o c = Ok texts ∧ exact_offsets texts numbers.
Proof.
  intros H. apply bind_ok in H as (texts & Ht & H). exists texts. split; [done|].
  apply bind_ok in H as (raw & Hraw & H). cbv zeta in H. guarded H Hr. guarded H Hlen.
  injection H as <-. unfold exact_offsets. split_and!.
  - rewrite merge_sort_Permutation. apply NoDup_remove_dups.
  - apply Sorted_merge_sort, _.
  - rewrite Forall_forall. intros n Hn. apply outside_false, not_true_iff_false. intros E. apply not_true_iff_false in Hr.
    apply Hr, existsb_exists. exists n. by rewrite <- list_elem_of_In.
  - by apply Nat.ltb_ge in Hlen.
  - intros n. rewrite merge_sort_Permutation, elem_of_remove_dups. split.
    + intros Hn. destruct (mapM_elem _ _ _ _ Hraw Hn) as (t & Hin & E). exists t. split; [done|]. by apply or_value_error_ok.
    + intros (t & Hin & E). destruct (mapM_image_of _ _ _ _ Hraw Hin) as (n' & Hn' & E'). apply or_value_error_ok in E'. congruence.
  - intros t Hin. destruct (mapM_image_of _ _ _ _ Hraw Hin) as (n & _ & E). exists n. by apply or_value_error_ok.
Qed.

Lemma hex_spaceless n : 0 ≤ n →
  ∃ r, Forall (λ c, is_space c = false) ("0"%char :: r) ∧ chars (py_hex n) = "0"%char :: r.
Proof.
  intros Hn. unfold py_hex. eexists. split; [|by rewrite chars_str].
  repeat (constructor; [reflexivity|]). by apply hex_digits_no_space.
Qed.

(** [int(hex(n), 0) = n], of any sign. *)
Lemma int0_signed n : int0 (chars (signed_hex n)) = Some n.
Proof.
  unfold signed_hex. destruct (Z.ltb_spec n 0) as [Hn|Hn]; [|by apply int0_hex].
  pose proof (int0_hex (- n) ltac:(lia)) as H. pose proof (hex_spaceless (- n) ltac:(lia)) as (r & Hr & E).
  change (chars ("-" +:+ py_hex (- n))) with ("-"%char :: chars (py_hex (- n))). rewrite E in H |- *.
  unfold int0 in H |- *. rewrite strip_id in H by done. rewrite strip_id by (by constructor).
  cbn [Ascii.eqb Bool.eqb] in H |- *. rewrite H. cbn. by rewrite Z.opp_involutive.
Qed.

Lemma numbers_of_hex numbers : Forall (λ n, 0 ≤ n ≤ U64_MAX) numbers →
  mapM (λ offset, or_value_error (int0 (chars offset))) (py_hex <$> numbers) = Ok numbers.
Proof.
  induction 1 as [|n l Hn _ IH]; [done|]. rewrite fmap_cons. cbn [mapM]. rewrite int0_hex by lia. cbn [or_value_error mbind res_bind].
  by rewrite IH.
Qed.

(** A point of a kernel with the pinned checksum, in a delay configuration. *)
Definition config_point (kernels : obj) (pinned : KernelId) (key : string) (p : obj) : Prop :=
  ∃ name raw points, (name, JObj raw) ∈ kernels ∧ matches_checksum pinned (JObj raw) = true
    ∧ get raw "instrumentation_points" = JObj points ∧ (key, JObj p) ∈ points.

(** The program counter a point names: its [pc], else its key. *)
Definition point_pc (key : string) (p : obj) (n : Z) : Prop :=
  parse_config_pc (match field p "pc" with Some v => v | None => JStr key end) = Ok n.

(** The configuration that a request without offsets of its own is read from. *)
Definition configured (d : Disk) (sp : ExperimentSpec) (o : TraceOptions) (c : option string)
    (kernels : obj) (pinned : KernelId) : Prop :=
  ∃ path text p, resolved_trace_config_path d o c = Ok (Some path) ∧ read_file d (abspath cwd path) = Some text
    ∧ loads text = Some (JObj p) ∧ get p "kernels" = JObj kernels ∧ selected_kernel sp o = Ok (Some pinned).

(** Every point says in so many words whether it is on. *)
Definition explicit_points (kernels : obj) (pinned : KernelId) : Prop :=
  ∀ key p, config_point kernels pinned key p → ∃ on, field p "on" = Some (JBool on).

Lemma enabled_point key p t : enabled_point_offset key p = Ok (Some t) →
  ∃ q n, p = JObj q ∧ truthy (get_or q "on" (JBool true)) = true ∧ point_pc key q n ∧ t = signed_hex n.
Proof.
  unfold enabled_point_offset. destruct p as [| | | | | |q]; try done. destruct (truthy _) eqn:Et; [|done].
  cbn [negb]. intros H. apply bind_ok in H as (n & Hn & [= <-]). by exists q, n.
Qed.

(** The texts a configuration gives are the program counters of its points. *)
Lemma config_texts kernels pinned texts matched : matching_config_offsets kernels pinned = Ok (texts, matched) →
  ∀ t, t ∈ texts ↔ ∃ key q n, config_point kernels pinned key q
    ∧ truthy (get_or q "on" (JBool true)) = true ∧ point_pc key q n ∧ t = signed_hex n.
Proof.
  intros H. apply bind_ok in H as (offsets & Hm & [= <- <-]). intros t.
  rewrite list_elem_of_In, in_concat. split.
  - intros (l & Hl & Ht). apply list_elem_of_In in Hl. destruct (mapM_elem _ _ _ _ Hm Hl) as (raw & Hr & E).
    apply list_elem_of_In, filter_In in Hr as [Hr Hc]. apply list_elem_of_In, list_elem_of_fmap in Hr as ([name raw'] & -> & Hr).
    destruct raw' as [| | | | | |k]; try done. cbn [snd] in *. unfold kernel_offsets in E.
    destruct (get k "instrumentation_points") as [| | | | | |points] eqn:Ep; try (by injection E as <-).
    apply bind_ok in E as (os & Hos & [= <-]). apply list_elem_of_In, list_elem_of_omap in Ht as (x & Hx & ->).
    destruct (mapM_elem _ _ _ _ Hos Hx) as ([key p] & Hp & Ee). apply enabled_point in Ee as (q & n & Eq & Ht & Hn & ->).
    cbn [snd fst] in *. subst p. exists key, q, n. split_and!; [|done..]. by exists name, k, points.
  - intros (key & q & n & (name & k & points & Hin & Hc & Ep & Hp) & Ht & Hn & ->).
    assert (JObj k ∈ List.filter (matches_checksum pinned) kernels.*2) as Hk.
    { apply list_elem_of_In, filter_In. split; [|done]. apply list_elem_of_In, list_elem_of_fmap. by exists (name, JObj k). }
    destruct (mapM_image_of _ _ _ _ Hm Hk) as (l & Hl & E). exists l. split; [by apply list_elem_of_In|].
    unfold kernel_offsets in E. rewrite Ep in E. apply bind_ok in E as (os & Hos & [= <-]).
    destruct (mapM_image_of _ _ _ _ Hos Hp) as (x & Hx & Ee). apply list_elem_of_In, list_elem_of_omap.
    exists x. split; [done|]. cbn [fst snd] in Ee. unfold enabled_point_offset in Ee. rewrite Ht in Ee. cbn [negb] in Ee.
    unfold point_pc in Hn. rewrite Hn in Ee. by injection Ee as <-.
Qed.

(** Where the offsets come from when the request writes none. *)
Lemma config_pc_offsets_ok d sp o c texts : config_pc_offsets loads ip_literal_ok cwd d sp o c = Ok texts →
  (resolved_trace_config_path d o c = Ok None ∧ texts = [])
  ∨ ∃ kernels pinned, configured d sp o c kernels pinned ∧ texts ≠ []
      ∧ ∃ matched, matching_config_offsets kernels pinned = Ok (texts, matched).
Proof.
  intros H. apply bind_ok in H as ([path|] & Hp & H); [|left; by injection H as <-]. right.
  destruct (read_file d (abspath cwd path)) as [text|] eqn:Er; [|done].
  apply bind_ok in H as (payload & Hl%or_value_error_ok & H). apply bind_ok in H as (kernels & Hk%or_value_error_ok & H).
  apply bind_ok in H as (k & Hs & H). apply bind_ok in H as (pinned & Hk'%or_value_error_ok & H). subst k.
  apply bind_ok in H as ([offsets matched] & Hm & H). guarded H Hx. guarded H Hy. injection H as <-.
  destruct payload as [| | | | | |p]; try done. destruct (get p "kernels") as [| | | | | |ks] eqn:Eg; try done. injection Hk as <-.
  exists ks, pinned. split; [by exists path, text, p|]. split; [|by exists matched].
  by apply bool_decide_eq_false in Hy.
Qed.

(** C36: The metadata a captured trace must show is the requested targeting.  The
    warp mask has a bit set for exactly the warps selected; the categories are
    those requested, in the order the instrumentation writes; the launch is the
    requested one; and a filter that was not asked for must be absent.  The
    program counters are in order, each once, within 64 bits and at most 32.
    When the selector writes offsets they are exactly those numbers.  Otherwise
    there is no such filter without a configuration, and with one the filter is
    not empty, lists every point of the pinned kernel that is explicitly on, and
    lists nothing else if every point says explicitly whether it is on: then a
    point that is off never widens a trace. *)
Theorem targeting_is_exact d sp o c fields : expected_targeting_metadata d sp o c = Ok fields →
  ∃ mask offsets numbers categories,
    fields = [("trace_launch_id", jopt JInt (sel_launch_id (to_selector o))); ("trace_warp_mask", jopt JInt mask);
              ("trace_pc_offsets", offsets); ("trace_pc_filter_valid", JBool true);
              ("trace_instr_categories", categories)]
    ∧ match mask with
      | None => unfiltered_warps (to_selector o)
      | Some n => ∀ i, 0 ≤ i → Z.testbit n i = true ↔ warp_selected (to_selector o) i
      end
    ∧ NoDup numbers ∧ Sorted Z.le numbers ∧ Forall (λ n, 0 ≤ n ≤ U64_MAX) numbers ∧ (length numbers ≤ 32)%nat
    ∧ offsets = (if bool_decide (numbers = []) then JNull else jlist JInt numbers)
    ∧ match sel_pc_offsets (to_selector o) with
      | [] =>
          (resolved_trace_config_path d o c = Ok None ∧ numbers = [])
          ∨ ∃ kernels pinned, configured d sp o c kernels pinned ∧ numbers ≠ []
              ∧ (∀ key p n, config_point kernels pinned key p → field p "on" = Some (JBool true) → point_pc key p n →
                   n ∈ numbers)
              ∧ (explicit_points kernels pinned → ∀ n, n ∈ numbers →
                   ∃ key p, config_point kernels pinned key p ∧ field p "on" = Some (JBool true) ∧ point_pc key p n)
      | texts => numbers ≠ [] ∧ ∀ n, n ∈ numbers ↔ ∃ t, t ∈ texts ∧ int0 (chars t) = Some n
      end
    ∧ (∃ chosen, chosen `sublist_of` [MMA; TMA; SYNC] ∧ (∀ k, k ∈ chosen ↔ k ∈ sel_categories (to_selector o))
         ∧ categories = if bool_decide (sel_categories (to_selector o) = []) then JNull
                        else jlist JStr (enum_text <$> chosen)).
Proof.
  intros H. unfold expected_targeting_metadata in H. cbv zeta in H.
  apply bind_ok in H as (m & Hm & H). apply bind_ok in H as (hexes & Hh & H).
  apply bind_ok in H as (mask & Hmask & H). apply bind_ok in H as (numbers & Hn & H). injection H as <-.
  apply warp_mask_bits in Hm. unfold trace_pc_offsets in Hh. apply bind_ok in Hh as (ns & Hns & Hh). injection Hh as <-.
  apply trace_pc_numbers_exact in Hns as (texts & Ht & Hd & Hs & Hf & Hl & He & Hall).
  assert (numbers = ns) as -> by (rewrite numbers_of_hex in Hn by done; congruence).
  assert (∃ n, mask = jopt JInt n ∧ match n with
            | None => unfiltered_warps (to_selector o)
            | Some n => ∀ i, 0 ≤ i → Z.testbit n i = true ↔ warp_selected (to_selector o) i end) as (n & -> & Hbits).
  { destruct m as [text|]; [|injection Hmask as <-; by exists None].
    destruct Hm as (n & Hn' & Hb). rewrite Hn' in Hmask. injection Hmask as <-. by exists (Some n). }
  assert (texts ≠ [] → ns ≠ []) as Hne.
  { intros Hx ->. destruct texts as [|t texts]; [done|]. destruct (Hall t) as [n' Hn']; [by left|].
    apply (not_elem_of_nil n'). apply He. exists t. split; [by left|done]. }
  exists n. eexists. exists ns. eexists. split; [reflexivity|]. do 5 (split; [assumption|]).
  split; [by destruct ns|]. split.
  - unfold requested_offsets in Ht. destruct (sel_pc_offsets (to_selector o)) as [|t ts].
    + destruct (config_pc_offsets_ok _ _ _ _ _ Ht) as [[Hr ->]|(kernels & pinned & Hc & Hx & matched & Hmt)].
      { left. split; [done|]. destruct ns as [|x ns]; [done|]. destruct (proj1 (He x)) as (t & Hin & _); [by left|].
        by apply not_elem_of_nil in Hin. }
      right. exists kernels, pinned. split; [done|]. split; [by apply Hne|]. pose proof (config_texts _ _ _ _ Hmt) as Htx. split.
      * intros key p x Hp Hon Hpc. apply He. exists (signed_hex x). split; [|apply int0_signed].
        apply Htx. exists key, p, x. unfold get_or. by rewrite Hon.
      * intros Hexp x (t & (key & p & x' & Hp & Hon & Hpc & ->)%Htx & Ex)%He.
        rewrite int0_signed in Ex. injection Ex as <-. exists key, p. split; [done|].
        destruct (Hexp key p Hp) as [on Eon]. unfold get_or in Hon. rewrite Eon in Hon |- *. by destruct on.
    + injection Ht as <-. split; [by apply Hne|done].
  - exists (List.filter (λ k, bool_decide (k ∈ sel_categories (to_selector o))) [MMA; TMA; SYNC]).
    apply categories_chosen.
Qed.

(** ** What is selected *)

Lemma json_eqb_text j s : json_eqb j (JStr s) = true ↔ j = JStr s.
Proof.
  destruct j; cbn; rewrite ?bool_decide_eq_true; split; intros H; try done; try congruence.
Qed.

Lemma json_eqb_launch l r : json_eqb (JInt l) (JInt r) = (l =? r).
Proof. done. Qed.

(** The trace is of a launch of the pinned kernel that was asked for. *)
Definition target_launch (o : TraceOptions) (pinned : KernelId) (m : obj) : option Z :=
  if (json_eqb (get m "mangled_name") (JStr (ki_name pinned)) || json_eqb (get m "unmangled_name") (JStr (ki_name pinned)))
     && json_eqb (get m "kernel_checksum") (JStr (cubin_hash pinned))
  then
    match get m "grid_launch_id" with
    | JInt l =>
        match sel_launch_id (to_selector o) with
        | None => Some l
        | Some r => if l =? r then Some l else None
        end
    | _ => None
    end
  else None.

(** Its filters, modes and cubin are as requested. *)
Definition faithful_capture (expected : list (string * json)) (modes : list string) (m : obj) (cubin : string) : Prop :=
  Forall (λ e, json_eqb (get m e.1) e.2 = true) expected
  ∧ (∃ names, get m "instrument_modes" = JList (JStr <$> names) ∧ names ≡ₚ modes)
  ∧ get m "cubin_path" = JStr cubin ∧ ends_with (chars ".cubin") (chars cubin) = true ∧ basename cubin = cubin.

Lemma mapM_as_text l names : mapM as_text l = Some names → l = JStr <$> names.
Proof.
  revert names. induction l as [|j l IH]; intros names; [by intros [= <-]|]. cbn [mapM].
  destruct j; cbn [as_text mbind option_bind]; try done. destruct (mapM as_text l) as [k|]; [|done].
  intros [= <-]. by rewrite fmap_cons, <- IH.
Qed.

Lemma modes_match_true j modes : modes_match j modes = true → ∃ names, j = JList (JStr <$> names) ∧ names ≡ₚ modes.
Proof.
  unfold modes_match. destruct j as [| | | | |l|]; try done. destruct (mapM as_text l) as [names|] eqn:E; [|done].
  intros H%bool_decide_eq_true. exists names. split; [by f_equal; apply mapM_as_text|].
  by rewrite <- (merge_sort_Permutation str_le names), H, merge_sort_Permutation.
Qed.

Lemma effective_targeting_ok m expected modes : validate_effective_targeting m expected modes = Ok () →
  Forall (λ e, json_eqb (get m e.1) e.2 = true) expected ∧ modes_match (get m "instrument_modes") modes = true.
Proof.
  unfold validate_effective_targeting. intros H. guarded H Hall. apply raise_if_ok, negb_false_iff in H.
  split; [|done]. rewrite Forall_forall. intros e He. destruct (json_eqb (get m e.1) e.2) eqn:E; [done|].
  apply not_true_iff_false in Hall. exfalso. apply Hall, existsb_exists. exists e. rewrite E.
  by rewrite <- list_elem_of_In.
Qed.

Lemma portable_cubin_ok m cubin : portable_cubin_name m = Ok cubin →
  get m "cubin_path" = JStr cubin ∧ ends_with (chars ".cubin") (chars cubin) = true ∧ basename cubin = cubin.
Proof.
  unfold portable_cubin_name. destruct (get m "cubin_path") as [| | | |name| |] eqn:E; try done.
  intros H. guarded H Hn. injection H as <-. apply orb_false_iff in Hn as [H1%negb_false_iff H2%negb_false_iff].
  by apply bool_decide_eq_true in H2.
Qed.

(** A header is a selected launch with the requested targeting, or no launch of
    the selection. *)
Lemma selected_metadata_ok m o pinned expected r : selected_capture_metadata m o pinned expected = Ok r →
  match r with
  | Some (launch, cubin) => target_launch o pinned m = Some launch
      ∧ ∃ modes, instrument_modes o = Ok modes ∧ faithful_capture expected modes m cubin
  | None => target_launch o pinned m = None
  end.
Proof.
  unfold selected_capture_metadata. cbv zeta. intros H. apply bind_ok in H as (here & Hp & H).
  unfold matches_pinned_capture in Hp. unfold target_launch.
  destruct (json_eqb (get m "mangled_name") _ || _) eqn:En; cbn [negb andb] in *.
  2: { injection Hp as <-. cbn [negb] in H. by injection H as <-. }
  destruct (json_eqb (get m "kernel_checksum") _) eqn:Ec; cbn [negb] in Hp.
  2: { destruct (match sel_launch_id _ with Some _ => _ | None => _ end); [done|]. injection Hp as <-.
       cbn [negb] in H. by injection H as <-. }
  injection Hp as <-. cbn [negb] in H. destruct (get m "grid_launch_id") as [| |l| | | |]; try done.
  assert (Hl : match sel_launch_id (to_selector o) with
               | None => Some l | Some r0 => if l =? r0 then Some l else None end
             = if match sel_launch_id (to_selector o) with Some l0 => json_eqb (JInt l) (JInt l0) | None => true end
               then Some l else None).
  { destruct (sel_launch_id (to_selector o)); [by rewrite json_eqb_launch|done]. }
  rewrite Hl. destruct (match sel_launch_id _ with Some _ => _ | None => _ end); cbn [negb] in H; [|by injection H as <-].
  apply bind_ok in H as (modes & Hm & H). apply bind_ok in H as ([] & Ht & H). apply bind_ok in H as (cubin & Hc & H).
  injection H as <-. split; [done|]. exists modes. split; [done|].
  apply effective_targeting_ok in Ht as [H1 H2%modes_match_true]. apply portable_cubin_ok in Hc as (H3 & H4 & H5).
  by split_and!.
Qed.

(** One selected trace: its path, header, launch, cubin, and whether it has records. *)
Record Row := mkRow { row_path : string; row_header : obj; row_launch : Z; row_cubin : string; row_records : bool }.

Definition row_ok (d : Disk) (o : TraceOptions) (pinned : KernelId) (expected : list (string * json)) (r : Row) : Prop :=
  trace_metadata d (row_path r) = Ok (row_header r, row_records r)
  ∧ target_launch o pinned (row_header r) = Some (row_launch r)
  ∧ ∃ modes, instrument_modes o = Ok modes ∧ faithful_capture expected modes (row_header r) (row_cubin r).

(** The trace at [path] is a launch to select. *)
Definition is_target (d : Disk) (o : TraceOptions) (pinned : KernelId) (path : string) : bool :=
  match trace_metadata d path with
  | Ok (m, _) => bool_decide (target_launch o pinned m ≠ None)
  | Err _ => false
  end.

Definition selection_of (rows : list Row) : Selection :=
  mkSelection (row_path <$> rows) (row_cubin <$> rows) (row_launch <$> rows) (forallb row_records rows).

Lemma select_path_rows d o pinned expected rows path s :
  NoDup (row_launch <$> rows) → Forall (row_ok d o pinned expected) rows →
  select_path d o pinned expected (selection_of rows) path = Ok s →
  ∃ more, s = selection_of (rows ++ more) ∧ NoDup (row_launch <$> rows ++ more)
    ∧ Forall (row_ok d o pinned expected) (rows ++ more)
    ∧ row_path <$> more = List.filter (is_target d o pinned) [path].
Proof.
  intros Hnd Hok H. unfold TraceCapture.select_path in H. apply bind_ok in H as ([m b] & Hm & H).
  apply bind_ok in H as (r & Hr & H). apply selected_metadata_ok in Hr.
  cbn [List.filter]. unfold is_target. fold (trace_metadata d path) in Hm. rewrite Hm.
  destruct r as [[l cubin]|].
  - destruct Hr as [Ht Hf]. case_bool_decide as Hl; [done|]. injection H as <-.
    exists [mkRow path m l cubin b]. rewrite Ht, bool_decide_true by done. unfold selection_of in *.
    cbn [launch_ids] in Hl. rewrite !fmap_app, forallb_app. cbn [forallb row_records fmap list_fmap row_path row_cubin row_launch].
    rewrite andb_true_r. split_and!; [done| | |done].
    + apply NoDup_app. split_and!; [done| |apply NoDup_singleton]. intros x Hx ->%list_elem_of_singleton. done.
    + apply Forall_app. split; [done|]. constructor; [|constructor]. by split_and!.
  - injection H as <-. rewrite Hr, bool_decide_false by (intros E; by apply E). exists []. by rewrite app_nil_r.
Qed.

Lemma select_paths_rows d o pinned expected paths rows s :
  NoDup (row_launch <$> rows) → Forall (row_ok d o pinned expected) rows →
  select_paths d o pinned expected (selection_of rows) paths = Ok s →
  ∃ more, s = selection_of (rows ++ more) ∧ NoDup (row_launch <$> rows ++ more)
    ∧ Forall (row_ok d o pinned expected) (rows ++ more)
    ∧ row_path <$> more = List.filter (is_target d o pinned) paths.
Proof.
  revert rows. induction paths as [|p paths IH]; intros rows Hnd Hok H.
  - injection H as <-. exists []. by rewrite app_nil_r.
  - cbn [TraceCapture.select_paths] in H. apply bind_ok in H as (s1 & H1 & H).
    destruct (select_path_rows _ _ _ _ _ _ _ Hnd Hok H1) as (m1 & -> & Hnd1 & Hok1 & Hp1).
    destruct (IH _ Hnd1 Hok1 H) as (m2 & -> & Hnd2 & Hok2 & Hp2). exists (m1 ++ m2). rewrite app_assoc.
    split_and!; [done|done|done|]. rewrite fmap_app, Hp1, Hp2. change (p :: paths) with ([p] ++ paths).
    by rewrite List.filter_app.
Qed.

Lemma selected_outputs_rows d paths attempt_dir sp o c sel sup records :
  selected_capture_outputs d paths attempt_dir sp o c = Ok (sel, sup, records) →
  ∃ pinned expected rows,
    kernel (sp_unit sp) = Some pinned ∧ expected_targeting_metadata d sp o c = Ok expected
    ∧ sel = List.filter (is_target d o pinned) paths ∧ sel ≠ []
    ∧ sel = row_path <$> rows ∧ Forall (row_ok d o pinned expected) rows ∧ NoDup (row_launch <$> rows)
    ∧ sup = join attempt_dir <$> sorted_set (row_cubin <$> rows) ∧ Forall (λ p, regular_file d p = true) sup
    ∧ records = forallb row_records rows.
Proof.
  intros H. unfold TraceCapture.selected_capture_outputs in H.
  apply bind_ok in H as (k & Hk & H). apply bind_ok in H as (pinned & Hp%or_value_error_ok & H).
  apply bind_ok in H as (expected & He & H). apply bind_ok in H as (s & Hs & H). guarded H Hne.
  apply bind_ok in H as (files & Hf & H). injection H as <- <- <-.
  change no_selection with (selection_of []) in Hs.
  apply (select_paths_rows d o pinned expected paths []) in Hs as (rows & -> & Hnd & Hok & Hr); [|constructor|constructor].
  cbn [app] in *. exists pinned, expected, rows. apply bool_decide_eq_false in Hne.
  assert (Hfiles : files = join attempt_dir <$> sorted_set (row_cubin <$> rows) ∧ Forall (λ p, regular_file d p = true) files).
  { cbn [cubin_names selection_of] in Hf. apply mapM_Forall2 in Hf. clear -Hf.
    induction Hf as [|n f ns fs Hnf _ [-> Hfs]]; [done|]. cbv zeta in Hnf.
    destruct (regular_file d (join attempt_dir n)) eqn:E; [|done]. injection Hnf as <-. split; [done|]. by constructor. }
  destruct Hfiles as [Hfiles Hreg].
  split_and!; try done.
  unfold selected_kernel in Hk. destruct (sel_kernel _); [|by injection Hk as <-]. guarded Hk Hx. by injection Hk as <-.
Qed.
(** The files a selection names. *)
Lemma selected_names d paths attempt_dir sp o c sel sup records :
  selected_capture_outputs d paths attempt_dir sp o c = Ok (sel, sup, records) →
  (∀ p, p ∈ sel → p ∈ paths)
  ∧ ∀ p, p ∈ sup → ∃ cubin, p = join attempt_dir cubin ∧ ends_with (chars ".cubin") (chars cubin) = true ∧ basename cubin = cubin.
Proof.
  intros H. apply selected_outputs_rows in H as (pinned & expected & rows & _ & _ & -> & _ & _ & Hok & _ & -> & _). split.
  - intros p. rewrite !list_elem_of_In, filter_In. tauto.
  - intros p (cubin & -> & Hc)%list_elem_of_fmap. exists cubin. apply elem_of_sorted_set, list_elem_of_fmap in Hc as (r & -> & Hr).
    rewrite Forall_forall in Hok. destruct (Hok r Hr) as (_ & _ & modes & _ & _ & _ & _ & H1 & H2). by split_and!.
Qed.

Lemma located_names d out_dir located paths : located_trace_paths cwd d out_dir located = Ok paths →
  NoDup paths ∧ ∀ p, p ∈ paths → has_trace_suffix p = true.
Proof.
  unfold located_trace_paths. destruct located as [raw|]; intros H.
  - assert (Hf : Forall2 (λ p q, p = q ∧ has_trace_suffix q = true) (sorted_paths (abspath cwd <$> raw)) paths).
    { apply mapM_Forall2 in H. eapply Forall2_impl; [exact H|]. intros p q Hc. unfold check_located_path in Hc.
      guarded Hc Hx. destruct (negb (regular_file d p)); [done|]. guarded Hc Hs. injection Hc as <-.
      by apply negb_false_iff in Hs. }
    assert (paths = sorted_paths (abspath cwd <$> raw)) as ->.
    { clear -Hf. induction Hf as [|p q l k [-> _] _ IH]; [done|by rewrite IH]. }
    split; [apply sorted_paths_NoDup|]. intros p Hp. apply list_elem_of_lookup in Hp as [i Hi].
    destruct (Forall2_lookup_r _ _ _ _ _ Hf Hi) as (q & _ & _ & Hs). exact Hs.
  - injection H as <-. split; [constructor|]. intros p Hp. by apply not_elem_of_nil in Hp.
Qed.

(** C35: A capture's outputs are exactly its launches of the pinned kernel.  When
    the selection succeeds, the selected traces are those paths, in order, whose
    header names the pinned kernel with its checksum at a requested launch; there is
    at least one and no launch occurs twice; each header shows exactly the expected
    targeting, the requested instrumentation modes and a cubin that is a plain file
    name; the supporting files are those cubins, once each, all regular files of the
    attempt; and the flag says whether every selected trace has records.  So a trace
    captured with other filters is never selected: it makes the selection fail. *)
Theorem selected_captures_exact d paths attempt_dir sp o c sel sup records :
  selected_capture_outputs d paths attempt_dir sp o c = Ok (sel, sup, records) →
  ∃ pinned expected rows,
    kernel (sp_unit sp) = Some pinned ∧ expected_targeting_metadata d sp o c = Ok expected
    ∧ sel = List.filter (is_target d o pinned) paths ∧ sel ≠ []
    ∧ sel = row_path <$> rows ∧ Forall (row_ok d o pinned expected) rows ∧ NoDup (row_launch <$> rows)
    ∧ sup = join attempt_dir <$> sorted_set (row_cubin <$> rows) ∧ Forall (λ p, regular_file d p = true) sup
    ∧ records = forallb row_records rows.
Proof. apply selected_outputs_rows. Qed.
End CaptureProperties.

(** ** A capture of two launches of one kernel, and one of another *)

Module GemmCapture.
Definition pinned : KernelId := mkKernelId "gemm" "c0ffee" None.
Definition selector : TraceSelector := mkSelector None None None (Some 1) ["0x20"; "0x10"]%string [SYNC; MMA] None.
Definition options : TraceOptions := mkTraceOptions REG_TRACE 64 selector None [].
Definition gemm_unit : WorkUnit :=
  mkUnit "unit" ["prog"%string] "gemm" "test" "" "sm_90" "abc" (Some pinned) None [] [].
Definition spec : ExperimentSpec := mkSpec "exp" "session" Followup REG_TRACE gemm_unit 1 None None None (Some options) None.

Definition header (name : string) (launch : Z) (offsets : list Z) : json :=
  JObj [("type", JStr "kernel_metadata"); ("mangled_name", JStr "_Z4gemm"); ("unmangled_name", JStr name);
        ("kernel_checksum", JStr "c0ffee"); ("grid_launch_id", JInt launch); ("trace_warp_mask", JInt 240);
        ("trace_pc_offsets", jlist JInt offsets); ("trace_pc_filter_valid", JBool true);
        ("trace_instr_categories", jlist JStr ["mma"; "sync"]%string); ("instrument_modes", jlist JStr ["reg_trace"%string]);
        ("cubin_path", JStr "gemm.cubin")]%string.

(** The decoded lines of the traces below. *)
Definition loads (line : string) : option json :=
  if bool_decide (line = "H0"%string) then Some (header "gemm" 0 [16; 32])
  else if bool_decide (line = "H1"%string) then Some (header "gemm" 1 [16; 32])
  else if bool_decide (line = "WIDE"%string) then Some (header "gemm" 2 [16; 32; 48])
  else if bool_decide (line = "OTHER"%string) then Some (header "copy" 1 [])
  else if bool_decide (line = "CFG"%string) then
    Some (JObj [("kernels", JObj
      [("k0", JObj [("kernel_checksum", JStr "c0ffee");
         ("instrumentation_points", JObj [("16", JObj [("on", JBool true)]); ("32", JObj [("pc", JInt 32); ("on", JBool false)])])]);
       ("k1", JObj [("kernel_checksum", JStr "beef");
         ("instrumentation_points", JObj [("48", JObj [("on", JBool true)])])])])]%string)
  else if bool_decide (line = "R"%string) then Some (JObj [("type", JStr "reg_trace")]%string)
  else None.
Definition read_lines (text : string) : list string * option exn := (str <$> split_on " "%char (chars text), None).

Definition attempt : Disk :=
  {["/o" := Directory; "/o/a.ndjson" := Regular "H1 R"; "/o/b.ndjson" := Regular "H0 R broken"; "/o/c.ndjson" := Regular "OTHER R";
    "/o/wide.ndjson" := Regular "WIDE R"; "/o/gemm.cubin" := Regular "ELF"; "/c/delay.json" := Regular "CFG"]}%string.

Definition outputs (names : list string) : res exn (list string * list string * bool) :=
  selected_capture_outputs loads read_lines (λ _, true) "/w" attempt (join "/o" <$> names) "/o" spec options None.

Example located : default_trace_locator attempt "/o" = Ok (Some ["/o/a.ndjson"; "/o/b.ndjson"; "/o/c.ndjson"; "/o/wide.ndjson"]%string).
Proof. vm_compute. reflexivity. Qed.

(** A trace with a wider filter is refused, and so is the same launch twice. *)
Example refused :
  outputs ["a.ndjson"; "wide.ndjson"]%string = Err ValueError ∧ outputs ["a.ndjson"; "a.ndjson"]%string = Err ValueError
  ∧ outputs ["c.ndjson"]%string = Err ValueError.
Proof. vm_compute. done. Qed.

(** A targeting read from a delay configuration: the point that is off, and the
    points of another kernel, are not asked for. *)
Definition config_selector : TraceSelector := mkSelector None None None None [] [] (Some TriggeringSource).
Definition config_options : TraceOptions :=
  mkTraceOptions REG_TRACE 64 config_selector (Some (mkArtifactRef "file:///c/delay.json" "delay.json" None None "")) [].
Definition config_spec : ExperimentSpec :=
  mkSpec "exp" "session" Followup REG_TRACE gemm_unit 1 None None None (Some config_options) None.
Example config_targeting :
  expected_targeting_metadata loads (λ _, true) "/w" attempt config_spec config_options (Some "/c/delay.json"%string)
  = Ok [("trace_launch_id", JNull); ("trace_warp_mask", JNull); ("trace_pc_offsets", jlist JInt [16]);
        ("trace_pc_filter_valid", JBool true); ("trace_instr_categories", JNull)]%string.
Proof. vm_compute. reflexivity. Qed.

Lemma targeting_is_exact_witness : ∃ fields,
  expected_targeting_metadata loads (λ _, true) "/w" attempt config_spec config_options (Some "/c/delay.json"%string) = Ok fields
  ∧ ∃ mask offsets numbers categories,
      fields = [("trace_launch_id", JNull); ("trace_warp_mask", jopt JInt mask); ("trace_pc_offsets", offsets);
                ("trace_pc_filter_valid", JBool true); ("trace_instr_categories", categories)]%string
      ∧ Sorted Z.le numbers
      ∧ ∃ kernels pinned,
          configured loads (λ _, true) "/w" attempt config_spec config_options (Some "/c/delay.json"%string) kernels pinned
          ∧ numbers ≠ []
          ∧ (∀ key p n, config_point kernels pinned key p → field p "on" = Some (JBool true) → point_pc key p n → n ∈ numbers).
Proof.
  eexists. split; [exact config_targeting|].
  edestruct (targeting_is_exact loads (λ _, true) "/w" attempt config_spec config_options (Some "/c/delay.json"%string))
    as (mask & offsets & numbers & categories & H & _ & _ & Hs & _ & _ & _ & Hc & _); [exact config_targeting|].
  exists mask, offsets, numbers, categories. split; [exact H|]. split; [exact Hs|].
  destruct Hc as [[Hno _]|(kernels & pinned & Hcf & Hne & Hin & _)]; [vm_compute in Hno; discriminate|].
  exists kernels, pinned. split; [exact Hcf|]. split; [exact Hne|exact Hin].
Defined.

Lemma selected_captures_exact_witness : ∃ sel sup records,
  outputs ["a.ndjson"; "b.ndjson"; "c.ndjson"]%string = Ok (sel, sup, records)
  ∧ sel = ["/o/a.ndjson"; "/o/b.ndjson"]%string ∧ sup = ["/o/gemm.cubin"]%string ∧ records = true
  ∧ ∃ p rows, kernel gemm_unit = Some p ∧ sel = row_path <$> rows ∧ NoDup (row_launch <$> rows).
Proof.
  do 3 eexists. split; [vm_compute; reflexivity|]. do 3 (split; [reflexivity|]).
  edestruct (selected_captures_exact loads read_lines (λ _, true) "/w" attempt
    (join "/o" <$> ["a.ndjson"; "b.ndjson"; "c.ndjson"]%string) "/o" spec options None)
    as (p & expected & rows & Hk & _ & _ & _ & Hr & _ & Hnd & _); [vm_compute; reflexivity|].
  exists p, rows. split; [exact Hk|]. split; [exact Hr|exact Hnd].
Defined.
End GemmCapture.
