(* ===== verification/TraceExperiment.v ===== *)
(** Trace experiments: the run of src/python/cutracer/service/experiments/trace.py,
    over the selection of TraceCapture.

    [run_trace_experiment] captures every launch of the pinned kernel in a private
    attempt directory, promotes the selected files into the output directory, gives
    a checkpoint to the caller, and analyses the traces; or it resumes from a
    checkpoint and analyses again.  [TraceRun] is its state: the machine and
    [_TraceRunState].

    Parameters, beside those of TraceCapture and Artifacts: [run_target], the
    instrumented run of runner.py; [analysis_runner] and its name; [clock], the
    monotonic clock; [exn_text], [str(error)]; [environ], the process environment;
    [leftover], the files a removal of the attempt directory leaves; the caller's
    [trace_locator] and [progress_callback]. *)
From S2P Require Import Prelude.
From S2P Require Import PyStr.
From S2P Require Import PyDict.
From S2P Require Import PyText.
From S2P Require Import Json.
From S2P Require Import Contracts.
From S2P Require Import Results.
From S2P Require Import Experiments.
From S2P Require Import Paths.
From S2P Require Import Artifacts.
From S2P Require Import TraceCapture.
From Stdlib Require Import Ascii.
From Stdlib Require String.
Local Open Scope Z_scope.

(** ** What the target is run with, and what it gives back *)

(** [InstrumentationConfig], as a trace experiment fills it. *)
Record TraceLaunch := mkTraceLaunch {
  tl_argv : list string; tl_instrument : string; tl_kernel_filters : option string;
  tl_exact_kernel_name : option string; tl_exact_kernel_checksum : option string;
  tl_instr_categories : option string; tl_launch_id : option Z; tl_warp_mask : option string;
  tl_pc_offsets : option string; tl_output_dir : string; tl_size_limit_mb : Z; tl_cwd : option string;
  tl_timeout : Z; tl_base_env : dict string string; tl_use_bundled_cuda_tools : bool
}.

(** [subprocess.CompletedProcess]. *)
Record CompletedProcess := mkProcess { returncode : Z; proc_stdout : option string; proc_stderr : option string }.

Definition text_of (o : option string) : string := default "" o.
Definition target_failure_detail (p : CompletedProcess) : string :=
  if bool_decide (text_of (proc_stderr p) ≠ "") then text_of (proc_stderr p)
  else if bool_decide (text_of (proc_stdout p) ≠ "") then text_of (proc_stdout p)
  else "instrumented target failed".

(** [_capture_error]. *)
Definition capture_error (p : CompletedProcess) (traces supporting : list ArtifactRef) (all_have_records : bool)
    : option (ExecutionStatus * string) :=
  if negb (returncode p =? 0) then Some (ExecFailed, target_failure_detail p)
  else if bool_decide (traces = []) then Some (ExecInfraError, "CUTracer completed without producing a trace"%string)
  else if bool_decide (supporting = [])
  then Some (ExecInfraError, "CUTracer completed without producing a cubin artifact"%string)
  else if contains (chars "Trace size limit exceeded")
            (chars (text_of (proc_stdout p)) ++ "010"%char :: chars (text_of (proc_stderr p)))
  then Some (ExecInfraError, "CUTracer stopped capture after the trace size limit was exceeded"%string)
  else if negb all_have_records
  then Some (ExecInfraError, "one or more targeted traces contain metadata but no selected trace records"%string)
  else None.

(** [x or None] of text. *)
Definition text_or_none (s : string) : option string := if bool_decide (s = "") then None else Some s.
Definition join_names (l : list string) : string := str (join_text [","%char] (chars <$> l)).

(** ** The state of a run *)

(** [_TraceRunState] with the machine; [checkpoints] is what the progress callback
    was given, each with the disk at that moment. *)
Record TraceRun (W : Type) := mkTraceRun {
  machine : Machine W;
  capture_duration_s : option float;
  ts_analysis_duration_s : float;
  ts_traces : list ArtifactRef;
  ts_supporting : list ArtifactRef;
  ts_log : option ArtifactRef;
  ts_analysis : option TraceAnalysisEvidence;
  checkpoints : list (Disk * TraceExperimentResult)
}.
Arguments mkTraceRun {W} machine capture_duration_s ts_analysis_duration_s ts_traces ts_supporting ts_log ts_analysis checkpoints.
Arguments machine {W} t.
Arguments capture_duration_s {W} t.
Arguments ts_analysis_duration_s {W} t.
Arguments ts_traces {W} t.
Arguments ts_supporting {W} t.
Arguments ts_log {W} t.
Arguments ts_analysis {W} t.
Arguments checkpoints {W} t.

Section Trace.
Context {W : Type}.
Notation TM := (st (TraceRun W) exn).

Definition with_machine (m : Machine W) (s : TraceRun W) : TraceRun W :=
  mkTraceRun m (capture_duration_s s) (ts_analysis_duration_s s) (ts_traces s) (ts_supporting s) (ts_log s)
    (ts_analysis s) (checkpoints s).
Definition with_durations (c : option float) (a : float) (s : TraceRun W) : TraceRun W :=
  mkTraceRun (machine s) c a (ts_traces s) (ts_supporting s) (ts_log s) (ts_analysis s) (checkpoints s).
Definition with_artifacts (ts ss : list ArtifactRef) (s : TraceRun W) : TraceRun W :=
  mkTraceRun (machine s) (capture_duration_s s) (ts_analysis_duration_s s) ts ss (ts_log s) (ts_analysis s) (checkpoints s).
Definition with_log (l : option ArtifactRef) (s : TraceRun W) : TraceRun W :=
  mkTraceRun (machine s) (capture_duration_s s) (ts_analysis_duration_s s) (ts_traces s) (ts_supporting s) l
    (ts_analysis s) (checkpoints s).
Definition with_analysis (a : option TraceAnalysisEvidence) (s : TraceRun W) : TraceRun W :=
  mkTraceRun (machine s) (capture_duration_s s) (ts_analysis_duration_s s) (ts_traces s) (ts_supporting s) (ts_log s)
    a (checkpoints s).
Definition with_checkpoint (r : TraceExperimentResult) (s : TraceRun W) : TraceRun W :=
  mkTraceRun (machine s) (capture_duration_s s) (ts_analysis_duration_s s) (ts_traces s) (ts_supporting s) (ts_log s)
    (ts_analysis s) (checkpoints s ++ [(disk (machine s), r)]).

(** An operation on the machine, and one that only reads the disk. *)
Definition on_machine {A} (m : st (Machine W) exn A) : TM A := λ s,
  let '(m', r) := m (machine s) in (with_machine m' s, r).
Definition reading {A} (f : Disk → res exn A) : TM A := λ s, (s, f (disk (machine s))).

Definition push_trace (a : ArtifactRef) : TM () := st_modify (λ s, with_artifacts (ts_traces s ++ [a]) (ts_supporting s) s).
Definition push_supporting (a : ArtifactRef) : TM () := st_modify (λ s, with_artifacts (ts_traces s) (ts_supporting s ++ [a]) s).

Definition catch {A} (m : TM A) (handler : exn → option (TM A)) : TM A := λ s,
  match m s with
  | (s', Err e) => match handler e with Some h => h s' | None => (s', Err e) end
  | x => x
  end.

Definition put_file (path text : string) : st (Machine W) exn () :=
  st_modify (λ m, mkMachine (<[path := Regular text]> (disk m)) (env_ m)).

Variable loads : string → option json.
Variable read_lines : string → list string * option exn.
Variable ip_literal_ok : list ascii → bool.
Variable cwd : string.
Variable entry_size : string → Z.
Variable os_step : W → W * bool.
Variable write_file : W → W * Writing.
Variable clock : W → W * float.
Variable leftover : W → W * (string → bool).
Variable run_target : TraceLaunch → st (Machine W) exn CompletedProcess.
Variable analysis_runner : list string → string → string → st (Machine W) exn TraceAnalysisEvidence.
Variable analyzer_name : string.
Variable exn_text : exn → string.
Variable environ : dict string string.

Definition monotonic : TM float := on_machine (λ m, let '(w, t) := clock (env_ m) in (mkMachine (disk m) w, Ok t)).

(** ** Sealing what a capture produced *)

(** [_capture_to_log], whose reference is not used; a log that cannot be written is
    reported in the service's log only. *)
Definition capture_to_log (log_path : string) (out err : option string) : TM () :=
  ok ← on_machine (attempt_step os_step);
  if ok : bool
  then on_machine (put_file (abspath cwd log_path) (text_of out +:+ (String "010"%char "") +:+ text_of err)%string)
  else mret ().

(** [_sealed_log_if_available]. *)
Definition sealed_log_if_available (out_dir : string) : TM (option ArtifactRef) :=
  let path := join out_dir "trace.log" in
  reading (λ d,
    if negb (regular_file d (abspath cwd path)) then Ok None
    else a ← local_artifact cwd entry_size d path "text/plain" true; Ok (Some a)).

(** [_promote_artifact]. *)
Definition promote_artifact (source destination media_type : string) : TM ArtifactRef :=
  _ ← on_machine (step_or_raise os_step OSError);
  text ← reading (λ d, match read_file d (abspath cwd source) with Some t => Ok t | None => Err OSError end);
  _ ← on_machine (replace_file write_file OSError (abspath cwd destination) text);
  a ← reading (λ d, local_artifact cwd entry_size d destination media_type true);
  if has_declared_identity a then mret a else st_raise OSError.

(** [_promote_paths]: the names are checked before anything is copied. *)
Definition promotable_names (names : list string) : bool :=
  bool_decide (NoDup names)
  && forallb (λ n, negb (bool_decide (n = "")) && negb (bool_decide (n ∈ RESERVED_CAPTURE_BASENAMES))) names.

Definition promoted_media_type (media_type path : string) : string :=
  if bool_decide (media_type = "application/x-ndjson") && ends_with (chars ".zst") (chars path)
  then "application/zstd" else media_type.

Fixpoint promote_each (out_dir media_type : string) (push : ArtifactRef → TM ()) (paths : list string) : TM () :=
  match paths with
  | [] => mret ()
  | path :: rest =>
      a ← promote_artifact path (join out_dir (basename path)) (promoted_media_type media_type path);
      _ ← push a;
      promote_each out_dir media_type push rest
  end.

Definition promote_paths (paths : list string) (out_dir media_type : string) (push : ArtifactRef → TM ()) : TM () :=
  if promotable_names (basename <$> paths) then promote_each out_dir media_type push paths else st_raise ValueError.

Section Run.
Variable sp : ExperimentSpec.
Variable o : TraceOptions.
Variables out_dir attempt_dir : string.
Variables cutracer_version toolchain_version : string.
Variable started : float.

(** [_TraceRunOptions]. *)
Variable trace_locator : option (Disk → string → res exn (option (list string))).
Variable progress_callback : option (TraceExperimentResult → st (Machine W) exn ()).
Variable timeout : Z.
Variable resolved_argv : option (list string).
Variable resolved_cwd : option string.
Variable resolved_base_env : option (dict string string).
Variable resolved_config_path : option string.
Variable use_bundled_cuda_tools : bool.

Definition locate : Disk → string → res exn (option (list string)) := default default_trace_locator trace_locator.

(** [_seal_capture_artifacts]: what is promoted goes into the state's lists. *)
Definition seal_capture_artifacts (out err : option string) : TM (ArtifactRef * bool) :=
  let attempt_log := join attempt_dir "trace.log" in
  _ ← capture_to_log attempt_log out err;
  log ← promote_artifact attempt_log (join out_dir "trace.log") "text/plain";
  '((paths, supporting), all_have_records) ← reading (λ d,
     located ← locate d attempt_dir;
     paths ← located_trace_paths cwd d attempt_dir located;
     selected_capture_outputs loads read_lines ip_literal_ok cwd d paths attempt_dir sp o resolved_config_path);
  _ ← promote_paths paths out_dir "application/x-ndjson" push_trace;
  _ ← promote_paths supporting out_dir "application/x-cubin" push_supporting;
  mret (log, all_have_records).

(** ** Results *)

Definition trace_provenance : ExecutionProvenance :=
  let u := sp_unit sp in
  mkProvenance (source_revision u) (arch u) (kernel u) cutracer_version toolchain_version.

(** [_TraceRunState.result]. *)
Definition trace_result (status : ExecutionStatus) (error : option string) (completeness : ResultCompleteness)
    : TM TraceExperimentResult :=
  s ← st_get;
  duration ← (match capture_duration_s s with
              | Some d => mret d
              | None => now ← monotonic; mret (f_sub now started)
              end : TM float);
  st_lift (TraceExperimentResult_init
    (mkTrace (sp_experiment_id sp) status (sp_kind sp) trace_provenance (head (ts_traces s)) (ts_log s) (ts_analysis s)
       duration error (ts_traces s) (ts_supporting s) completeness (ts_analysis_duration_s s))).

(** ** Running the target *)

(** [_trace_base_env]. *)
Definition trace_base_env : dict string string :=
  match resolved_base_env with
  | Some e => e
  | None => fold_left (λ d e, dict_set d e.1 e.2) (env (sp_unit sp)) environ
  end.

(** The configuration [_run_trace_capture] makes. *)
Definition trace_launch (d : Disk) : res exn TraceLaunch :=
  let u := sp_unit sp in
  selected ← selected_kernel sp o;
  pc_offsets ← trace_pc_offsets loads ip_literal_ok cwd d sp o resolved_config_path;
  modes ← instrument_modes o;
  mask ← trace_warp_mask (to_selector o);
  Ok (mkTraceLaunch (default (Contracts.argv u) resolved_argv) (join_names modes)
        (match selected with Some _ => None | None => text_or_none (join_names (Contracts.kernel_filters u)) end)
        ((λ k, match mangled_name k with
               | Some n => if bool_decide (n = "") then ki_name k else n
               | None => ki_name k
               end) <$> selected)
        (cubin_hash <$> selected)
        (text_or_none (join_names (enum_text <$> sel_categories (to_selector o))))
        (sel_launch_id (to_selector o)) mask (text_or_none (join_names pc_offsets)) attempt_dir
        (trace_size_limit_mb o)
        (match resolved_cwd with Some c => Some c | None => text_or_none (Contracts.cwd u) end)
        timeout trace_base_env use_bundled_cuda_tools).

Definition run_trace_capture : TM CompletedProcess :=
  launch ← reading trace_launch; on_machine (run_target launch).

(** ** A fresh capture *)

Definition is_os_or_value_error (e : exn) : bool := match e with OSError | ValueError => true | _ => false end.

(** What [_seal_fresh_capture] does when sealing raised [seal_error]. *)
Definition after_failed_seal (p : CompletedProcess) (seal_error : exn) : TM (option bool * option TraceExperimentResult) :=
  log ← sealed_log_if_available out_dir;
  _ ← st_modify (with_log log);
  if negb (returncode p =? 0) then
    r ← trace_result ExecFailed
          (Some (target_failure_detail p +:+ "; partial evidence could not be sealed: " +:+ exn_text seal_error)%string) Partial;
    mret (None, Some r)
  else st_raise seal_error.

(** The sealed capture: [Some all_have_records], or the result that ends the run. *)
Definition seal_or_fail (p : CompletedProcess) : TM (option bool * option TraceExperimentResult) :=
  catch
    ('(log, all_have_records) ← seal_capture_artifacts (proc_stdout p) (proc_stderr p);
     _ ← st_modify (with_log (Some log));
     mret (Some all_have_records, None))
    (λ e, if is_os_or_value_error e then Some (after_failed_seal p e) else None).

Definition report_progress : TM () :=
  match progress_callback with
  | None => mret ()
  | Some f =>
      r ← trace_result Succeeded None Partial;
      _ ← st_modify (with_checkpoint r);
      on_machine (f r)
  end.

(** [_seal_fresh_capture] after sealing. *)
Definition after_seal (p : CompletedProcess) (all_have_records : bool) : TM (option TraceExperimentResult) :=
  now ← monotonic;
  _ ← st_modify (λ s, with_durations (Some (f_sub now started)) (ts_analysis_duration_s s) s);
  s ← st_get;
  match capture_error p (ts_traces s) (ts_supporting s) all_have_records with
  | Some (status, error) => r ← trace_result status (Some error) Partial; mret (Some r)
  | None => _ ← report_progress; mret None
  end.

Definition seal_fresh_capture (p : CompletedProcess) : TM (option TraceExperimentResult) :=
  '(sealed, failed) ← seal_or_fail p;
  match sealed with
  | None => mret failed
  | Some all_have_records => after_seal p all_have_records
  end.

(** [_fresh_analysis_paths]. *)
Definition fresh_analysis_paths : TM (list string * option TraceExperimentResult) :=
  p ← run_trace_capture;
  early ← seal_fresh_capture p;
  s ← st_get;
  paths ← reading (λ d, mapM (local_path ip_literal_ok d) (ts_traces s));
  mret (paths, early).

(** ** Resuming *)

(** [_validate_resume]. *)
Definition validate_resume (r : TraceExperimentResult) : res exn () :=
  raise_if (negb (bool_decide (tr_experiment_id r = sp_experiment_id sp)) || negb (bool_decide (tr_mode r = sp_kind sp))
            || negb (provenance_eqb (tr_provenance r) trace_provenance)
            || negb (bool_decide (tr_execution_status r = Succeeded)) || negb (bool_decide (tr_completeness r = Partial))
            || is_some (analysis r) || bool_decide (raw_traces r = []) || bool_decide (supporting_artifacts r = [])
            || negb (is_some (tr_log r))).

(** [_load_resume_state]. *)
Definition load_resume_state (r : TraceExperimentResult) : TM () :=
  _ ← st_lift (validate_resume r);
  st_modify (λ s, mkTraceRun (machine s) (Some (tr_duration_s r)) (analysis_duration_s r) (raw_traces r)
                    (supporting_artifacts r) (tr_log r) (ts_analysis s) (checkpoints s)).

(** [_stage_resume_artifacts]: the staged paths. *)
Fixpoint stage_each (source_dir destination_dir : string) (seen : list string) (artifacts : list ArtifactRef)
    : TM (list string) :=
  match artifacts with
  | [] => mret []
  | a :: rest =>
      let name := basename (relative_path a) in
      if bool_decide (name = "") || negb (bool_decide (relative_path a = name)) || bool_decide (name ∈ seen)
      then st_raise ValueError
      else
        let source_path := abspath cwd (join source_dir name) in
        _ ← reading (λ d, raise_if (is_link d source_path));
        v ← on_machine (stage_verified_local_artifact ip_literal_ok cwd os_step write_file
              (mkArtifactRef (local_file_uri cwd source_path) name (sha256 a) (size_bytes a) (media_type a))
              (join destination_dir name));
        paths ← stage_each source_dir destination_dir (name :: seen) rest;
        mret (va_path v :: paths)
  end.

Definition stage_resume_artifacts (artifacts : list ArtifactRef) (source_dir destination_dir : string) : TM (list string) :=
  _ ← on_machine (step_or_raise os_step OSError);
  stage_each source_dir destination_dir [] artifacts.

(** [_resume_analysis_paths]. *)
Definition resume_analysis_paths : TM (list string) :=
  s ← st_get;
  staged ← stage_resume_artifacts (ts_traces s ++ ts_supporting s) out_dir (join attempt_dir "resume_capture");
  match ts_log s with
  | None => st_raise ValueError
  | Some log =>
      _ ← stage_resume_artifacts [log] out_dir (join attempt_dir "resume_log");
      mret (take (length (ts_traces s)) staged)
  end.

(** ** The analysis *)

Definition hashed (a : option ArtifactRef) : bool :=
  match a with Some r => has_declared_identity r | None => false end.

(** [TraceAnalysisEvidence(…)], which checks its fields. *)
Definition new_analysis (t : TraceAnalysisEvidence) : TM TraceAnalysisEvidence :=
  _ ← st_lift (TraceAnalysisEvidence_check t); mret t.

Definition failed_analysis (error : string) : TraceAnalysisEvidence :=
  mkTraceAnalysis analyzer_name ExecInfraError [] [] 0 [] None (Some error) TRACE_ANALYSIS_SCHEMA_VERSION [] 0.

(** [dataclasses.replace(analysis, execution_status=…, artifact=…, error=…)]. *)
Definition refused_analysis (t : TraceAnalysisEvidence) (error : string) : TraceAnalysisEvidence :=
  mkTraceAnalysis (analyzer t) ExecInfraError (detector_summaries t) (ta_findings t) (total_findings t) (ta_warnings t)
    (if hashed (ta_artifact t) then ta_artifact t else None) (Some error) (ta_schema_version t) (capture_summaries t)
    (omitted_capture_summaries t).

(** [_run_trace_analyzer]: the evidence, and the error that makes the result partial. *)
Definition judge_analysis (t : TraceAnalysisEvidence) : TM (TraceAnalysisEvidence * option string) :=
  if negb (bool_decide (ta_execution_status t = Succeeded)) || negb (hashed (ta_artifact t)) then
    let error := match ta_error t with
                 | Some e => if bool_decide (e = "") then "deterministic trace analysis did not produce a hashed report"%string else e
                 | None => "deterministic trace analysis did not produce a hashed report"%string
                 end in
    t' ← new_analysis (refused_analysis t error); mret (t', Some error)
  else mret (t, None).

Definition run_trace_analyzer (paths : list string) : TM (TraceAnalysisEvidence * option string) :=
  outcome ← catch (t ← on_machine (analysis_runner paths (Contracts.arch (sp_unit sp)) out_dir); mret (inl t))
              (λ e, Some (mret (inr e)) : option (TM (TraceAnalysisEvidence + exn)));
  match outcome with
  | inl t => judge_analysis t
  | inr e =>
      let error := ("deterministic trace analysis failed: " +:+ exn_text e)%string in
      t ← new_analysis (failed_analysis error); mret (t, Some error)
  end.

(** [_analyze_trace_paths]; the duration counts whether the analysis raised or not. *)
Definition timed_analysis (paths : list string) : TM (option string) := λ s,
  match monotonic s with
  | (s, Err e) => (s, Err e)
  | (s, Ok before) =>
      let '(s, r) := (x ← run_trace_analyzer paths; _ ← st_modify (with_analysis (Some x.1)); mret x.2) s in
      match monotonic s with
      | (s, Err e) => (s, Err e)
      | (s, Ok after) => (with_durations (capture_duration_s s) (f_add (ts_analysis_duration_s s) (f_sub after before)) s, r)
      end
  end.

Definition analyze_trace_paths (paths : list string) : TM TraceExperimentResult :=
  error ← timed_analysis paths;
  match error with
  | Some e => trace_result ExecInfraError (Some e) Partial
  | None => trace_result Succeeded None Complete
  end.

(** ** Timing out *)

(** [_seal_timed_out_capture]: the lists start anew; the error, if one. *)
Definition seal_timed_out_capture (out err : option string) : TM (option string) :=
  _ ← st_modify (with_artifacts [] []);
  catch
    ('(log, _) ← seal_capture_artifacts out err; _ ← st_modify (with_log (Some log)); mret None)
    (λ e, Some (
      log ← sealed_log_if_available out_dir;
      _ ← st_modify (with_log log);
      mret (Some ("trace timed out and partial evidence could not be sealed: " +:+ exn_text e)%string))).

(** [_timeout_trace_result]. *)
Definition timeout_trace_result (e : exn) (out err : option string) : TM TraceExperimentResult :=
  seal_error ← seal_timed_out_capture out err;
  trace_result ExecTimedOut
    (Some (match seal_error with None => exn_text e | Some x => exn_text e +:+ "; " +:+ x end)%string) Partial.

(** ** The experiment *)

(** The body of the [try] of [run_trace_experiment]. *)
Definition fresh_experiment : TM TraceExperimentResult :=
  '(paths, early) ← fresh_analysis_paths;
  match early with Some r => mret r | None => analyze_trace_paths paths end.

Definition trace_attempt (resume_from : option TraceExperimentResult) : TM TraceExperimentResult :=
  match resume_from with
  | Some r =>
      _ ← load_resume_state r;
      _ ← st_lift (validate_trace_runtime_spec sp);
      paths ← resume_analysis_paths;
      analyze_trace_paths paths
  | None =>
      _ ← st_lift (validate_trace_runtime_spec sp);
      fresh_experiment
  end.

Definition trace_handler (e : exn) : option (TM TraceExperimentResult) :=
  match e with
  | TimeoutExpired out err => Some (timeout_trace_result e out err)
  | ArtifactVerificationError _ | ClickException | OSError | ValueError =>
      Some (trace_result ExecInfraError (Some (exn_text e)) Partial)
  | _ => None
  end.

(** The path is the directory or in it. *)
Definition is_under (root path : string) : bool :=
  bool_decide (path = root) || starts_with (chars root ++ [slash]) (chars path).

(** [shutil.rmtree(attempt_dir, ignore_errors=True)]. *)
Definition remove_attempt : st (Machine W) exn () := λ m,
  let '(w, keep) := leftover (env_ m) in
  (mkMachine (filter (λ e : string * Entry, negb (is_under (abspath cwd attempt_dir) e.1) || keep e.1 = true) (disk m)) w,
   Ok ()).

Definition attempt_and_clean (resume_from : option TraceExperimentResult) : TM TraceExperimentResult := λ s,
  let '(s, r) := catch (trace_attempt resume_from) trace_handler s in
  let '(m, _) := remove_attempt (machine s) in (with_machine m s, r).
End Run.

(** [run_trace_experiment]: the attempt directory is one [tempfile.mkdtemp] made. *)
Definition run_trace_experiment (sp : ExperimentSpec) (out_dir attempt_dir cutracer_version toolchain_version : string)
    (trace_locator : option (Disk → string → res exn (option (list string))))
    (progress_callback : option (TraceExperimentResult → st (Machine W) exn ()))
    (timeout : Z) (resolved_argv : option (list string)) (resolved_cwd : option string)
    (resolved_base_env : option (dict string string)) (resolved_config_path : option string)
    (use_bundled_cuda_tools : bool) (resume_from : option TraceExperimentResult) : TM TraceExperimentResult :=
  o ← st_lift (validate_trace_spec sp);
  _ ← on_machine (step_or_raise os_step OSError);
  _ ← on_machine (step_or_raise os_step OSError);
  _ ← on_machine (st_modify (λ m, mkMachine (<[abspath cwd attempt_dir := Directory]> (disk m)) (env_ m)));
  started ← monotonic;
  attempt_and_clean sp o out_dir attempt_dir cutracer_version toolchain_version started trace_locator progress_callback
    timeout resolved_argv resolved_cwd resolved_base_env resolved_config_path use_bundled_cuda_tools resume_from.
End Trace.
