(* ===== verification/Hoare.v ===== *)
(** Weakest preconditions of stateful code that can raise: what a computation
    establishes of its value, or of its exception, and of the state it leaves. *)
From S2P Require Import Prelude.

Section Wp.
Context {S E : Type}.

(** [m], run in [s], ends in [Q] when it returns and in [R] when it raises. *)
Definition wp {A} (m : st S E A) (Q : A → S → Prop) (R : E → S → Prop) (s : S) : Prop :=
  match m s with (s', Ok a) => Q a s' | (s', Err e) => R e s' end.

Lemma hoare_run {A} (m : st S E A) Q R s s' r : wp m Q R s → m s = (s', r) →
  match r with Ok a => Q a s' | Err e => R e s' end.
Proof. unfold wp. intros H Hm. rewrite Hm in H. destruct r; exact H. Qed.

Lemma hoare_ret {A} (a : A) (Q : A → S → Prop) R s : Q a s → wp (mret a) Q R s.
Proof. done. Qed.

Lemma hoare_raise {A} (e : E) (Q : A → S → Prop) (R : E → S → Prop) s : R e s → wp (st_raise e) Q R s.
Proof. done. Qed.

Lemma hoare_bind {A B} (m : st S E A) (k : A → st S E B) Q R s :
  wp m (λ a s', wp (k a) Q R s') R s → wp (m ≫= k) Q R s.
Proof. unfold wp, mbind, st_bind. by destruct (m s) as [s' [a|e]]. Qed.

Lemma hoare_mono {A} (m : st S E A) (Q Q' : A → S → Prop) (R R' : E → S → Prop) s :
  wp m Q R s → (∀ a s', Q a s' → Q' a s') → (∀ e s', R e s' → R' e s') → wp m Q' R' s.
Proof. unfold wp. destruct (m s) as [s' [a|e]]; auto. Qed.

Lemma hoare_get (Q : S → S → Prop) R s : Q s s → wp st_get Q R s.
Proof. done. Qed.

Lemma hoare_modify f (Q : () → S → Prop) R s : Q () (f s) → wp (st_modify f) Q R s.
Proof. done. Qed.

Lemma hoare_lift {A} (x : res E A) (Q : A → S → Prop) (R : E → S → Prop) s :
  match x with Ok a => Q a s | Err e => R e s end → wp (st_lift x) Q R s.
Proof. unfold wp, st_lift. by destruct x. Qed.
End Wp.
