(* ===== verification/TraceExperimentProperties.v ===== *)
(** What the trace experiments guarantee (service/experiments/trace.py): every
    result is one the session accepts, every checkpoint can be resumed, and the
    files a checkpoint names are on disk with the bytes it declares. *)
From S2P Require Import Prelude.
From S2P Require Import PyStr.
From S2P Require Import PyDict.
From S2P Require Import PyText.
From S2P Require Import Sha256.
From S2P Require Import Json.
From S2P Require Import Contracts.
From S2P Require Import Results.
From S2P Require Import Experiments.
From S2P Require Import SessionContracts.
From S2P Require Import SessionValidation.
From S2P Require Import Paths.
From S2P Require Import Artifacts.
From S2P Require Import TraceCapture.
From S2P Require Import TraceExperiment.
From S2P Require Import Hoare.
From Stdlib Require Import Ascii.
From Stdlib Require String.
Local Open Scope Z_scope.

(** ** What the session accepts *)

(** The checks of [session.py] that look at a trace result. *)
Definition accepted_trace (sp : ExperimentSpec) (r : TraceExperimentResult) : Prop :=
  TraceExperimentResult_init r = Ok r ∧ validate_provenance sp (TraceResult r) = Ok ()
  ∧ validate_trace_result r = Ok ().

(** A result of failure whose error is blank: the session refuses it. *)
Definition refused_blank (r : TraceExperimentResult) : Prop :=
  tr_execution_status r ≠ Succeeded ∧ no_error_text (tr_error r) = true
  ∧ validate_trace_result r = Err (Rejected "trace_result_inconsistent").

(** The artifacts of a run: hashed, traces with distinct names, cubins apart. *)
Record artifacts_ok (ts ss : list ArtifactRef) (log : option ArtifactRef) : Prop := {
  identities : Forall (λ a, has_identity a = true) (ts ++ ss ++ option_list log);
  distinct_traces : NoDup (relative_path <$> ts);
  distinct_supporting : NoDup ss;
  apart : ∀ a, a ∈ ss → a ∉ ts;
  cubins : Forall (λ a, ends_with (chars ".cubin") (chars (relative_path a)) = true) ss;
  plain_traces : Forall good_name (relative_path <$> ts)
}.

(** What a checkpoint is: a capture whose analysis is still to be done. *)
Definition checkpoint_ok (sp : ExperimentSpec) (prov : ExecutionProvenance) (r : TraceExperimentResult) : Prop :=
  tr_experiment_id r = sp_experiment_id sp ∧ tr_mode r = sp_kind sp ∧ tr_provenance r = prov
  ∧ tr_execution_status r = Succeeded ∧ tr_completeness r = Partial ∧ analysis r = None ∧ tr_error r = None
  ∧ raw_traces r ≠ [] ∧ supporting_artifacts r ≠ [] ∧ tr_log r ≠ None
  ∧ artifacts_ok (raw_traces r) (supporting_artifacts r) (tr_log r).

(** What an analysis may be given: traces with absolute paths and distinct names. *)
Definition addressable (cwd : string) (paths : list string) : Prop :=
  paths ≠ [] ∧ NoDup (basename <$> paths) ∧ Forall (λ p, abspath cwd p = p) paths.

(** What an analysis of the traces named [names] may say. *)
Record analysis_ok (names : list string) (t : TraceAnalysisEvidence) : Prop := {
  evidence_checked : TraceAnalysisEvidence_check t = Ok ();
  names_known : Forall (λ f, match f with None => (length names ≤ 1)%nat | Some n => n ∈ names end) (analysis_trace_files t);
  report_hashed : ∀ a, ta_artifact t = Some a → has_declared_identity a = true → has_identity a = true;
  success_clean : ta_execution_status t = Succeeded → ta_error t = None
}.

Lemma existsb_negb_none {A} (f : A → bool) l : Forall (λ a, f a = true) l → existsb (λ a, negb (f a)) l = false.
Proof. induction 1 as [|a l Ha _ IH]; [done|]. cbn. by rewrite Ha, IH. Qed.

Lemma fromkeys_head {A} `{EqDecision A} (ts : list A) : NoDup ts → fromkeys (option_list (head ts) ++ ts) = ts.
Proof.
  intros H. destruct ts as [|t ts]; [done|]. change (fromkeys_from [] (t :: t :: ts) = t :: ts).
  rewrite fromkeys_from_cons, decide_False by apply not_elem_of_nil. change ([] ++ [t]) with [t].
  rewrite fromkeys_from_cons, decide_True by set_solver. by apply (fromkeys_from_NoDup ts [t]).
Qed.

Lemma init_fixed r : is_trace_kind (tr_mode r) = true → primary_trace r = head (raw_traces r) →
  artifacts_ok (raw_traces r) (supporting_artifacts r) (tr_log r) → TraceExperimentResult_init r = Ok r.
Proof.
  intros Hk Hp [_ Hd Hs Ha _ _]. unfold TraceExperimentResult_init. rewrite Hk, Hp. cbn [negb].
  assert (match head (raw_traces r), raw_traces r with
          | Some t, t0 :: _ => negb (bool_decide (t = t0)) | _, _ => false end = false) as ->.
  { destruct (raw_traces r); [done|]. cbn. by rewrite bool_decide_true. }
  cbv zeta. assert (NoDup (raw_traces r)) as Hnd by by eapply NoDup_fmap_1.
  rewrite (deduplicate_fromkeys (option_list _ ++ _)), (deduplicate_fromkeys (supporting_artifacts r)).
  rewrite fromkeys_head by done. rewrite (fromkeys_id (supporting_artifacts r)) by done.
  rewrite bool_decide_true by done. cbn [negb].
  assert (existsb (λ a, bool_decide (a ∈ raw_traces r)) (supporting_artifacts r) = false) as ->.
  { apply not_true_iff_false. intros (a & Hin & Hb)%existsb_exists. apply bool_decide_eq_true in Hb.
    apply (Ha a); [by apply list_elem_of_In|done]. }
  destruct r; cbn in *. by subst.
Qed.

Lemma provenance_valid sp (r : TraceExperimentResult) v tv :
  tr_provenance r = trace_provenance sp v tv → validate_provenance sp (TraceResult r) = Ok ().
Proof.
  intros E. unfold validate_provenance. cbn [result_provenance]. rewrite E. cbn.
  rewrite !bool_decide_true by done. cbn. destruct (kernel (sp_unit sp)); [|done]. by rewrite !bool_decide_true.
Qed.

Lemma identities_valid r : Forall (λ a, has_identity a = true)
    (raw_traces r ++ supporting_artifacts r ++ option_list (tr_log r) ++ option_list (analysis_artifact r)) →
  NoDup (relative_path <$> raw_traces r) →
  validate_trace_artifact_identity r = Ok (relative_path <$> raw_traces r).
Proof.
  intros Hi Hn. unfold validate_trace_artifact_identity. cbv zeta. rewrite existsb_negb_none by done.
  rewrite andb_false_r. cbn. by rewrite bool_decide_false by (intros H; by apply H).
Qed.

Lemma references_valid names t :
  Forall (λ f, match f with None => (length names ≤ 1)%nat | Some n => n ∈ names end) (analysis_trace_files t) →
  validate_trace_analysis_references t names = Ok ().
Proof.
  intros H. unfold validate_trace_analysis_references. cbv zeta.
  assert (existsb (λ f, match f with None => (1 <? length names)%nat | Some n => negb (bool_decide (n ∈ names)) end)
            (analysis_trace_files t) = false) as ->; [|done].
  induction H as [|f l Hf _ IH]; [done|]. cbn [existsb]. rewrite IH, orb_false_r. destruct f as [n|].
  - by rewrite bool_decide_true.
  - by apply Nat.ltb_ge.
Qed.

(** A failed capture. *)
Lemma failure_valid r : tr_execution_status r ≠ Succeeded → tr_completeness r = Partial → analysis r = None →
  artifacts_ok (raw_traces r) (supporting_artifacts r) (tr_log r) →
  validate_trace_result r = if no_error_text (tr_error r) then Err (Rejected "trace_result_inconsistent") else Ok ().
Proof.
  intros Hst Hc Ha [Hi Hd _ _ _ _]. unfold validate_trace_result. rewrite bool_decide_false by done.
  unfold validate_trace_failure_shape, inconsistent_trace. destruct (no_error_text (tr_error r)); [done|].
  rewrite Hc. cbn [reject_if mbind res_bind]. rewrite (bool_decide_true (Partial = Partial)) by done.
  cbn [negb]. rewrite (andb_false_r (bool_decide _ || bool_decide _)). cbn [reject_if mbind res_bind]. rewrite bool_decide_false by set_solver.
  cbn [reject_if mbind res_bind]. rewrite identities_valid; [|unfold analysis_artifact; rewrite Ha; cbn [mbind option_bind option_list]; by rewrite app_nil_r|done].
  cbn [mbind res_bind]. by rewrite Ha.
Qed.

(** A failed analysis of a sealed capture. *)
Lemma analysis_failure_valid r t e : tr_execution_status r = ExecInfraError → tr_completeness r = Partial →
  analysis r = Some t → raw_traces r ≠ [] → ta_execution_status t = ExecInfraError →
  tr_error r = Some e → ta_error t = Some e → no_error_text (Some e) = false →
  (∀ a, ta_artifact t = Some a → has_identity a = true) →
  Forall (λ f, match f with None => (length (raw_traces r) ≤ 1)%nat | Some n => n ∈ relative_path <$> raw_traces r end)
    (analysis_trace_files t) →
  artifacts_ok (raw_traces r) (supporting_artifacts r) (tr_log r) → validate_trace_result r = Ok ().
Proof.
  intros Hst Hc Ha Hne Hts He Hte Hb Hart Href [Hi Hd _ _ _ _]. unfold validate_trace_result. rewrite Hst.
  rewrite bool_decide_false by done. unfold validate_trace_failure_shape, inconsistent_trace. rewrite He, Hb, Hc.
  cbn [reject_if mbind res_bind]. rewrite (bool_decide_true (Partial = Partial)) by done.
  cbn [negb]. rewrite (andb_false_r (bool_decide _ || bool_decide _)). cbn [reject_if mbind res_bind]. rewrite bool_decide_false by set_solver.
  cbn [reject_if mbind res_bind]. rewrite identities_valid; [|unfold analysis_artifact; rewrite Ha; cbn [mbind option_bind]|done].
  2: { destruct (ta_artifact t) as [a|]; [|by rewrite app_nil_r]. rewrite !app_assoc. apply Forall_app. split; [|by constructor; [apply Hart|]].
       by rewrite <- app_assoc. }
  cbn [mbind res_bind]. rewrite Ha, references_valid by by rewrite length_fmap. cbn [mbind res_bind].
  unfold validate_trace_analysis_status, inconsistent_trace. rewrite Hst, Hc, Hts, Hte, Hb.
  rewrite bool_decide_false by done. rewrite (bool_decide_true (ExecInfraError = _)) by done.
  rewrite (bool_decide_true (Partial = _)) by done. rewrite bool_decide_false by done. done.
Qed.

(** A complete result. *)
Lemma success_valid r t : tr_execution_status r = Succeeded → tr_completeness r = Complete → tr_error r = None →
  analysis r = Some t → raw_traces r ≠ [] → supporting_artifacts r ≠ [] → tr_log r ≠ None →
  ta_execution_status t = Succeeded → ta_error t = None → (∃ a, ta_artifact t = Some a ∧ has_identity a = true) →
  Forall (λ f, match f with None => (length (raw_traces r) ≤ 1)%nat | Some n => n ∈ relative_path <$> raw_traces r end)
    (analysis_trace_files t) →
  artifacts_ok (raw_traces r) (supporting_artifacts r) (tr_log r) → validate_trace_result r = Ok ().
Proof.
  intros Hst Hc He Ha Hne Hsne Hl Hts Hte (a & Hart & Hid) Href [Hi Hd _ _ Hcub _]. unfold validate_trace_result. rewrite Hst.
  rewrite bool_decide_true by done. unfold validate_trace_success_shape, inconsistent_trace. rewrite He, Hc.
  rewrite (bool_decide_false (raw_traces r = [])) by done. cbn [is_some orb reject_if mbind res_bind].
  rewrite (bool_decide_true (Complete ∈ _)) by set_solver. cbn [negb reject_if mbind res_bind].
  rewrite (bool_decide_false (Complete = ResUnknown)) by done. cbn [andb reject_if mbind res_bind].
  rewrite (bool_decide_true (Complete = Complete)) by done. cbn [negb].
  assert (existsb (λ a, ends_with (chars ".cubin") (chars (relative_path a))) (supporting_artifacts r) = true) as ->.
  { destruct (supporting_artifacts r) as [|s ss]; [done|]. apply Forall_cons in Hcub as [Hs _]. cbn [existsb]. by rewrite Hs. }
  destruct (tr_log r) as [l|] eqn:El; [|done]. cbn [is_some negb reject_if mbind res_bind].
  rewrite identities_valid; [|rewrite El; unfold analysis_artifact; rewrite Ha; cbn [mbind option_bind]; rewrite Hart|done].
  2: { rewrite !app_assoc. apply Forall_app. split; [|by constructor]. by rewrite <- app_assoc. }
  cbn [mbind res_bind]. rewrite Ha, references_valid by by rewrite length_fmap. cbn [mbind res_bind].
  unfold validate_trace_analysis_status, inconsistent_trace. rewrite Hst, Hc, Hts, Hte, Hart.
  rewrite !bool_decide_true by done. done.
Qed.

(** ** Names and text *)

Lemma suffix_good_name suffix n :
  suffix ∈ [".ndjson"; ".ndjson.zst"; ".cubin"]%string → slash ∉ chars n → ends_with (chars suffix) (chars n) = true → good_name n.
Proof.
  intros Hs Hn H. unfold good_name, good_component.
  assert (chars n ≠ [] ∧ chars n ≠ chars "." ∧ chars n ≠ chars "..") as (H1 & H2 & H3); [|done].
  repeat (apply elem_of_cons in Hs as [->|Hs]; [split_and!; intros E; rewrite E in H; vm_compute in H; discriminate H|]).
  by apply not_elem_of_nil in Hs.
Qed.

Lemma trace_suffix_name p : has_trace_suffix p = true → has_trace_suffix (basename p) = true ∧ good_name (basename p).
Proof.
  unfold has_trace_suffix. intros [H|H]%orb_true_iff.
  - apply ends_with_basename in H; [|vm_compute; set_solver]. split; [by rewrite H|].
    eapply suffix_good_name; [|apply basename_no_slash|exact H]. set_solver.
  - apply ends_with_basename in H; [|vm_compute; set_solver]. split; [by rewrite H, orb_true_r|].
    eapply suffix_good_name; [|apply basename_no_slash|exact H]. set_solver.
Qed.

(** No name ends both as a trace and as a cubin. *)
Lemma cubin_not_trace n : ends_with (chars ".cubin") (chars n) = true → has_trace_suffix n = true → False.
Proof.
  unfold has_trace_suffix, ends_with. intros H1 H2. revert H1 H2. generalize (rev (chars n)) as l. intros l.
  change (rev (chars ".cubin")) with (chars "nibuc."). change (rev (chars ".ndjson")) with (chars "nosjdn.").
  change (rev (chars ".ndjson.zst")) with (chars "tsz.nosjdn.").
  destruct l as [|a [|b l]]; [done|cbn; rewrite !andb_false_r; done|]. cbn [chars String.list_ascii_of_string starts_with].
  intros [Ha Hb]%andb_true_iff. apply andb_true_iff in Hb as [Hb _]. apply Ascii.eqb_eq in Ha, Hb. subst a b.
  intros H. vm_compute in H. discriminate H.
Qed.

Lemma text_not_blank p s c : c ∈ chars p → is_space c = false → no_error_text (Some (p +:+ s)%string) = false.
Proof.
  intros Hc Hs. unfold no_error_text. assert (strip (chars (p +:+ s)) ≠ []) as H.
  { eapply strip_not_nil; [|exact Hs]. rewrite chars_app. set_solver. }
  unfold blank. by rewrite bool_decide_false.
Qed.

Section Runs.
Context {W : Type}.
Variable loads : string → option json.
Variable read_lines : string → list string * option exn.
Variable ip_literal_ok : list ascii → bool.
Variable cwd : string.
Variable entry_size : string → Z.
Variable os_step : W → W * bool.
Variable write_file : W → W * Writing.
Variable clock : W → W * float.
Variable leftover : W → W * (string → bool).
Variable run_target : TraceLaunch → st (Machine W) exn CompletedProcess.
Variable analysis_runner : list string → string → string → st (Machine W) exn TraceAnalysisEvidence.
Variable analyzer_name : string.
Variable exn_text : exn → string.
Variable environ : dict string string.
Variable sp : ExperimentSpec.
Variable o : TraceOptions.
Variables out_dir attempt_dir : string.
Variables cutracer_version toolchain_version : string.
Variable started : float.
Variable trace_locator : option (Disk → string → res exn (option (list string))).
Variable progress_callback : option (TraceExperimentResult → st (Machine W) exn ()).
Variable timeout : Z.
Variable resolved_argv : option (list string).
Variable resolved_cwd : option string.
Variable resolved_base_env : option (dict string string).
Variable resolved_config_path : option string.
Variable use_bundled_cuda_tools : bool.

Hypothesis cwd_abs : is_abs cwd = true.
Hypothesis kind_ok : is_trace_kind (sp_kind sp) = true.

Notation TM := (st (TraceRun W) exn).
Notation provenance := (trace_provenance sp cutracer_version toolchain_version).
Notation monotonic := (monotonic clock).
Notation capture_to_log := (capture_to_log cwd os_step).
Notation sealed_log_if_available := (sealed_log_if_available cwd entry_size).
Notation promote_artifact := (promote_artifact cwd entry_size os_step write_file).
Notation promote_each := (promote_each cwd entry_size os_step write_file).
Notation promote_paths := (promote_paths cwd entry_size os_step write_file).
Notation seal_capture_artifacts :=
  (seal_capture_artifacts loads read_lines ip_literal_ok cwd entry_size os_step write_file sp o out_dir attempt_dir
     trace_locator resolved_config_path).
Notation trace_result := (trace_result clock sp cutracer_version toolchain_version started).

(** ** Only the machine changes *)

Definition frame (s s' : TraceRun W) : Prop := ∃ m, s' = with_machine m s.

Lemma frame_refl s : frame s s.
Proof. exists (machine s). by destruct s. Qed.
Lemma run_frame_trans s1 s2 s3 : frame s1 s2 → frame s2 s3 → frame s1 s3.
Proof. intros [m ->] [m' ->]. by exists m'. Qed.
Hint Resolve frame_refl run_frame_trans : core.

Notation diskof s := (disk (machine s)).

Lemma wp_machine {A} (m : st (Machine W) exn A) Q R s :
  (∀ m' r, m (machine s) = (m', r) → match r with Ok a => Q a (with_machine m' s) | Err e => R e (with_machine m' s) end) →
  wp (on_machine m) Q R s.
Proof. unfold wp, on_machine. destruct (m (machine s)) as [m' r]. intros H. specialize (H m' r eq_refl). by destruct r. Qed.

Lemma wp_reading {A} (f : Disk → res exn A) Q R (s : TraceRun W) :
  match f (diskof s) with Ok a => Q a s | Err e => R e s end → wp (reading f) Q R s.
Proof. unfold wp, reading. by destruct (f (diskof s)). Qed.

Lemma wp_catching {A} (m : TM A) h Q R s :
  wp m Q (λ e s', match h e with Some k => wp k Q R s' | None => R e s' end) s → wp (catch m h) Q R s.
Proof. unfold wp, catch. destruct (m s) as [s' [a|e]]; [done|]. by destruct (h e). Qed.

Lemma wp_step e (Q : () → TraceRun W → Prop) R s :
  (∀ s', frame s s' → diskof s' = diskof s → Q () s') → (∀ s', frame s s' → diskof s' = diskof s → R e s') →
  wp (on_machine (step_or_raise os_step e)) Q R s.
Proof.
  intros HQ HR. apply wp_machine. intros m' r H. apply step_or_raise_run in H as [Hd Hr].
  destruct r as [[]|x]; [apply HQ|subst x; apply HR]; try done; by eexists.
Qed.

Lemma wp_monotonic (Q : float → TraceRun W → Prop) R s :
  (∀ t s', frame s s' → diskof s' = diskof s → Q t s') → wp monotonic Q R s.
Proof.
  intros HQ. apply wp_machine. intros m' r H. destruct (clock (env_ (machine s))) as [w t]. injection H as <- <-.
  apply HQ; [by eexists|done].
Qed.

(** ** Files promoted into the output directory *)

Definition file_of (name : string) : string := abspath cwd (join out_dir name).

(** The output directory holds the bytes the artifact declares. *)
Definition stored (d : Disk) (a : ArtifactRef) : Prop :=
  ∃ text, d !! file_of (relative_path a) = Some (Regular text) ∧ declares a text
          ∧ uri a = local_file_uri cwd (file_of (relative_path a)).

Lemma file_of_inj n k : good_name n → good_name k → file_of n = file_of k → n = k.
Proof. intros Hn Hk H. rewrite <- (basename_abspath_join cwd out_dir n), <- (basename_abspath_join cwd out_dir k) by done. by unfold file_of in H; rewrite H. Qed.

Lemma declares_identity a text : declares a text → has_identity a = true.
Proof.
  intros (h & Hh & Hl & Hn). unfold has_identity. rewrite Hh, Hn.
  assert (length (chars h) = 64%nat) as -> by (rewrite <- (sha256_length (chars text)), <- Hl; unfold lower; by rewrite length_fmap).
  cbn. by apply Z.leb_le, Nat2Z.is_nonneg.
Qed.

Lemma stored_identity d a : stored d a → has_identity a = true.
Proof. intros (text & _ & H & _). by eapply declares_identity. Qed.

(** Writing one name leaves what is stored under the others. *)
Lemma stored_insert d a n e : good_name n → good_name (relative_path a) → relative_path a ≠ n →
  stored d a → stored (<[file_of n := e]> d) a.
Proof.
  intros Hn Ha Hne (text & Hd & H). exists text. split; [|done]. rewrite lookup_insert_ne; [done|].
  intros E. apply Hne. symmetry. by apply file_of_inj.
Qed.

Lemma wp_promote_artifact source n media s : good_name n →
  wp (promote_artifact source (join out_dir n) media)
    (λ a s', frame s s' ∧ relative_path a = n ∧ media_type a = media ∧ stored (diskof s') a
       ∧ ∀ b, good_name (relative_path b) → relative_path b ≠ n → stored (diskof s) b → stored (diskof s') b)
    (λ e s', frame s s' ∧ e = OSError) s.
Proof.
  intros Hn. unfold TraceExperiment.promote_artifact. apply hoare_bind, wp_step; [|by auto]. intros s1 F1 D1.
  apply hoare_bind, wp_reading. destruct (read_file _ _) as [text|]; [|by auto].
  apply hoare_bind, wp_machine. intros m2 r H. apply replace_file_run in H as [_ H].
  destruct r as [[]|e]; [|by subst e; split; [eapply run_frame_trans; [exact F1|by eexists]|]].
  set (s2 := with_machine m2 s1). assert (F2 : frame s s2) by (eapply run_frame_trans; [exact F1|by eexists]).
  assert (D2 : diskof s2 = <[file_of n := Regular text]> (diskof s)) by (rewrite <- D1; exact H).
  apply hoare_bind, wp_reading. rewrite D2. unfold local_artifact. fold (file_of n). rewrite lookup_insert_eq. cbn [entry_text].
  cbn [has_declared_identity sha256 size_bytes]. apply hoare_ret.
  assert (Hb : basename (file_of n) = n) by by apply basename_abspath_join.
  split_and!; [done|exact Hb|done| |].
  - exists text. cbn [relative_path uri]. rewrite Hb, D2, lookup_insert_eq. split_and!; [done| |].
    + eexists. cbn. split_and!; [done| |done]. rewrite chars_str. apply digest_hex.
    + done.
  - intros b Hb' Hne Hs. rewrite D2. by apply stored_insert.
Qed.

(** Which of the two lists grows. *)
Definition grow (traces : bool) (new : list ArtifactRef) (s : TraceRun W) : TraceRun W :=
  if traces then with_artifacts (ts_traces s ++ new) (ts_supporting s) s
  else with_artifacts (ts_traces s) (ts_supporting s ++ new) s.
Definition push (traces : bool) : ArtifactRef → TM () := if traces then push_trace else push_supporting.

Definition grown (traces : bool) (new : list ArtifactRef) (s s' : TraceRun W) : Prop :=
  ∃ m, s' = with_machine m (grow traces new s).

Lemma grown_nil b s s' : frame s s' → grown b [] s s'.
Proof. intros [m ->]. exists m. unfold grow. destruct b; cbn; by rewrite app_nil_r. Qed.

Lemma push_grown b a s s1 : frame s s1 → push b a s1 = (grow b [a] s1, Ok ()) ∧ grown b [a] s (grow b [a] s1).
Proof. intros [m ->]. split; [by destruct b|]. exists m. by destruct b. Qed.

Lemma grown_trans b k l s s1 s2 : grown b k s s1 → grown b l s1 s2 → grown b (k ++ l) s s2.
Proof. intros [m1 ->] [m2 ->]. exists m2. unfold grow. destruct b; cbn; by rewrite app_assoc. Qed.

(** The artifacts made of some paths. *)
Definition promoted (media : string) (paths : list string) (new : list ArtifactRef) : Prop :=
  Forall2 (λ p a, relative_path a = basename p ∧ media_type a = promoted_media_type media p ∧ has_identity a = true) paths new.

Lemma promoted_names media paths new : promoted media paths new → relative_path <$> new = basename <$> paths.
Proof. induction 1 as [|p a ps new [E _] _ IH]; [done|]. by rewrite !fmap_cons, E, IH. Qed.

(** What is stored under other names stays. *)
Definition spares (names : list string) (d d' : Disk) : Prop :=
  ∀ b, good_name (relative_path b) → relative_path b ∉ names → stored d b → stored d' b.

Lemma wp_promote_each b media paths s :
  Forall good_name (basename <$> paths) → NoDup (basename <$> paths) →
  wp (promote_each out_dir media (push b) paths)
    (λ _ s', ∃ new, grown b new s s' ∧ promoted media paths new ∧ Forall (stored (diskof s')) new
       ∧ spares (basename <$> paths) (diskof s) (diskof s'))
    (λ e s', ∃ new done, grown b new s s' ∧ done `prefix_of` paths ∧ promoted media done new ∧ e = OSError) s.
Proof.
  revert s. induction paths as [|p paths IH]; intros s Hg Hnd; cbn [TraceExperiment.promote_each].
  - apply hoare_ret. exists []. split_and!; [apply grown_nil, frame_refl|constructor|constructor|by intros x _ _ H].
  - rewrite fmap_cons in Hg, Hnd. apply Forall_cons in Hg as [Hp Hg]. apply NoDup_cons in Hnd as [Hpn Hnd].
    apply hoare_bind. eapply hoare_mono; [by apply wp_promote_artifact| |].
    + intros a s1 (F1 & Hr & Hm & Hst & Hkeep). destruct (push_grown b a s s1 F1) as [Hpush G1].
      apply hoare_bind. unfold wp at 1. rewrite Hpush.
      assert (D1 : diskof (grow b [a] s1) = diskof s1) by by destruct b.
      eapply hoare_mono; [by apply IH| |].
      * intros _ s2 (new & G2 & P2 & S2 & K2). exists (a :: new). split_and!.
        -- exact (grown_trans b [a] new _ _ _ G1 G2).
        -- constructor; [split_and!; [done|done|by eapply stored_identity]|done].
        -- constructor; [|done]. apply K2; rewrite ?Hr; [done|done|by rewrite D1].
        -- intros x Hx. rewrite fmap_cons, not_elem_of_cons. intros [Hne Hni] Hsx. apply K2; [done|done|].
           rewrite D1. by apply Hkeep.
      * intros e s2 (new & done & G2 & Pre & P2 & He). exists (a :: new), (p :: done). split_and!; [|by apply prefix_cons| |done].
        -- exact (grown_trans b [a] new _ _ _ G1 G2).
        -- constructor; [split_and!; [done|done|by eapply stored_identity]|done].
    + intros e s1 (F1 & He). exists [], []. split_and!; [by apply grown_nil|apply prefix_nil|constructor|done].
Qed.

Lemma promotable_names_true names : promotable_names names = true →
  NoDup names ∧ Forall (λ n, n ∉ RESERVED_CAPTURE_BASENAMES) names.
Proof.
  unfold promotable_names. intros [Hn%bool_decide_eq_true Hf]%andb_true_iff. split; [done|].
  rewrite Forall_forall. intros n Hin. rewrite forallb_forall in Hf. apply list_elem_of_In, Hf, andb_true_iff in Hin as [_ Hin].
  by apply negb_true_iff, bool_decide_eq_false in Hin.
Qed.

Lemma wp_promote_paths b media paths s : Forall good_name (basename <$> paths) →
  wp (promote_paths paths out_dir media (push b))
    (λ _ s', ∃ new, grown b new s s' ∧ promoted media paths new ∧ Forall (stored (diskof s')) new
       ∧ NoDup (basename <$> paths) ∧ Forall (λ n, n ∉ RESERVED_CAPTURE_BASENAMES) (basename <$> paths)
       ∧ spares (basename <$> paths) (diskof s) (diskof s'))
    (λ e s', ∃ new done, grown b new s s' ∧ done `prefix_of` paths ∧ promoted media done new
       ∧ NoDup (basename <$> done)) s.
Proof.
  intros Hg. unfold TraceExperiment.promote_paths. destruct (promotable_names _) eqn:E.
  - apply promotable_names_true in E as [Hnd Hres]. eapply hoare_mono; [by apply wp_promote_each| |].
    + intros _ s' (new & G & P & S & K). exists new. by split_and!.
    + intros e s' (new & done & G & Pre & P & _). exists new, done. split_and!; [done|done|done|].
      destruct Pre as [rest ->]. rewrite fmap_app in Hnd. by apply NoDup_app in Hnd as [Hnd _].
  - apply hoare_raise. exists [], []. split_and!; [apply grown_nil, frame_refl|apply prefix_nil|constructor|constructor].
Qed.

(** ** Sealing a capture *)

(** All but the machine and the two lists. *)
Definition rest_same (s s' : TraceRun W) : Prop :=
  capture_duration_s s' = capture_duration_s s ∧ ts_analysis_duration_s s' = ts_analysis_duration_s s
  ∧ ts_log s' = ts_log s ∧ ts_analysis s' = ts_analysis s ∧ checkpoints s' = checkpoints s.

Lemma rest_refl s : rest_same s s.
Proof. done. Qed.
Lemma rest_trans s1 s2 s3 : rest_same s1 s2 → rest_same s2 s3 → rest_same s1 s3.
Proof. unfold rest_same. intros (-> & -> & -> & -> & ->) (-> & -> & -> & -> & ->). done. Qed.
Lemma frame_rest s s' : frame s s' → rest_same s s' ∧ ts_traces s' = ts_traces s ∧ ts_supporting s' = ts_supporting s.
Proof. by intros [m ->]. Qed.
Lemma grown_rest b new s s' : grown b new s s' → rest_same s s'
  ∧ ts_traces s' = (if b then ts_traces s ++ new else ts_traces s)
  ∧ ts_supporting s' = (if b then ts_supporting s else ts_supporting s ++ new).
Proof. intros [m ->]. by destruct b. Qed.
Hint Resolve rest_refl rest_trans : core.

Lemma promoted_identities media paths new : promoted media paths new → Forall (λ a, has_identity a = true) new.
Proof. induction 1 as [|p a ps new (_ & _ & E) _ IH]; constructor; auto. Qed.

Lemma promoted_apart tpaths ts spaths ss a :
  promoted "application/x-ndjson" tpaths ts → promoted "application/x-cubin" spaths ss → a ∈ ss → a ∉ ts.
Proof.
  intros Ht Hs Ha Hin. apply list_elem_of_lookup in Ha as [i Hi], Hin as [j Hj].
  destruct (Forall2_lookup_r _ _ _ _ _ Hs Hi) as (p & _ & _ & E1 & _).
  destruct (Forall2_lookup_r _ _ _ _ _ Ht Hj) as (q & _ & _ & E2 & _).
  change (promoted_media_type "application/x-cubin" p) with "application/x-cubin"%string in E1. rewrite E1 in E2.
  unfold promoted_media_type in E2. destruct (_ && _) in E2; discriminate E2.
Qed.

Lemma artifacts_of tpaths ts spaths ss log :
  promoted "application/x-ndjson" tpaths ts → promoted "application/x-cubin" spaths ss →
  NoDup (basename <$> tpaths) → NoDup (basename <$> spaths) → Forall good_name (basename <$> tpaths) →
  Forall (λ p, ends_with (chars ".cubin") (chars (basename p)) = true) spaths →
  Forall (λ a, has_identity a = true) (option_list log) → artifacts_ok ts ss log.
Proof.
  intros Ht Hs Hnt Hns Hgt Hcs Hl. constructor.
  - rewrite !Forall_app. split_and!; [by eapply promoted_identities|by eapply promoted_identities|done].
  - by rewrite (promoted_names _ _ _ Ht).
  - apply (NoDup_fmap_1 relative_path). by rewrite (promoted_names _ _ _ Hs).
  - intros a. by eapply promoted_apart.
  - clear -Hs Hcs. revert Hcs. induction Hs as [|p a ps ss (E & _) _ IH]; [constructor|].
    intros [Hp Hcs]%Forall_cons. constructor; [by rewrite E|by apply IH].
  - by rewrite (promoted_names _ _ _ Ht).
Qed.

Lemma wp_capture_to_log path out err (Q : () → TraceRun W → Prop) R s :
  (∀ s', frame s s' → Q () s') → wp (capture_to_log path out err) Q R s.
Proof.
  intros HQ. apply hoare_bind, wp_machine. intros m r H. unfold attempt_step in H.
  destruct (os_step (env_ (machine s))) as [w ok]. injection H as <- <-. destruct ok.
  - apply wp_machine. intros m' r' H'. injection H' as <- <-. apply HQ. by eexists.
  - apply hoare_ret, HQ. by eexists.
Qed.

(** What a capture seals. *)
Definition sealed_ok (d : Disk) (ts ss : list ArtifactRef) (log : ArtifactRef) : Prop :=
  artifacts_ok ts ss (Some log) ∧ Forall (stored d) (ts ++ ss ++ [log]).

Lemma log_name : good_name "trace.log".
Proof. unfold good_name, good_component. vm_compute. set_solver. Qed.

Definition selected_files (d : Disk) : res exn (list string * list string * bool) :=
  located ← locate trace_locator d attempt_dir;
  paths ← located_trace_paths cwd d attempt_dir located;
  selected_capture_outputs loads read_lines ip_literal_ok cwd d paths attempt_dir sp o resolved_config_path.

Lemma selected_file_names d sel sup records : selected_files d = Ok (sel, sup, records) →
  Forall good_name (basename <$> sel) ∧ Forall (λ p, has_trace_suffix (basename p) = true) sel
  ∧ Forall good_name (basename <$> sup) ∧ Forall (λ p, ends_with (chars ".cubin") (chars (basename p)) = true) sup.
Proof.
  intros H. unfold selected_files in H. apply bind_ok in H as (located & _ & H). apply bind_ok in H as (paths & Hp & H).
  apply located_names in Hp as [_ Hp]. apply selected_names in H as [Hsel Hsup].
  assert (Hc : ∀ p, p ∈ sup → ends_with (chars ".cubin") (chars (basename p)) = true ∧ good_name (basename p)).
  { intros p Hin. destruct (Hsup p Hin) as (c & -> & Hc & Hb).
    assert (Hs : slash ∉ chars c) by (rewrite <- Hb; apply basename_no_slash).
    assert (Hg : good_name c) by (eapply suffix_good_name; [|done|exact Hc]; set_solver).
    rewrite basename_join by (done || by apply good_name_not_abs). done. }
  rewrite !Forall_fmap. split_and!; apply Forall_forall; intros p Hin.
  - by apply trace_suffix_name, Hp, Hsel.
  - by apply trace_suffix_name, Hp, Hsel.
  - by apply Hc.
  - by apply Hc.
Qed.

Lemma not_reserved_log names : Forall (λ n, n ∉ RESERVED_CAPTURE_BASENAMES) names → "trace.log"%string ∉ names.
Proof. intros H Hin. rewrite Forall_forall in H. apply (H _ Hin). unfold RESERVED_CAPTURE_BASENAMES. set_solver. Qed.

Lemma spares_stored names d d' l : spares names d d' → Forall (λ a, good_name (relative_path a)) l →
  (∀ a, a ∈ l → relative_path a ∉ names) → Forall (stored d) l → Forall (stored d') l.
Proof. intros Hs Hg Hn H. rewrite !Forall_forall in *. intros a Ha. apply Hs; auto. Qed.

(** The two promotions of a selection, after the log's. *)
Lemma wp_promote_selection sel sup log s :
  ts_traces s = [] → ts_supporting s = [] →
  Forall good_name (basename <$> sel) → Forall (λ p, has_trace_suffix (basename p) = true) sel →
  Forall good_name (basename <$> sup) → Forall (λ p, ends_with (chars ".cubin") (chars (basename p)) = true) sup →
  relative_path log = "trace.log"%string → stored (diskof s) log →
  wp (_ ← promote_paths sel out_dir "application/x-ndjson" push_trace;
      promote_paths sup out_dir "application/x-cubin" push_supporting)
    (λ _ s', rest_same s s' ∧ sealed_ok (diskof s') (ts_traces s') (ts_supporting s') log)
    (λ e s', rest_same s s' ∧ artifacts_ok (ts_traces s') (ts_supporting s') None) s.
Proof.
  intros Et Es Hgt Hts Hgs Hcs Hln Hlog. change push_trace with (push true). change push_supporting with (push false).
  assert (Hid : has_identity log = true) by by eapply stored_identity.
  apply hoare_bind. eapply hoare_mono; [by apply wp_promote_paths| |].
  - intros _ s1 (ts & G1 & P1 & S1 & N1 & R1 & K1). apply grown_rest in G1 as (X1 & T1 & U1). rewrite Et in T1. rewrite Es in U1.
    cbn [app] in T1.
    assert (Hlog1 : stored (diskof s1) log) by (apply K1; rewrite ?Hln; [apply log_name|by apply not_reserved_log|done]).
    eapply hoare_mono; [by apply wp_promote_paths| |].
    + intros _ s2 (ss & G2 & P2 & S2 & N2 & R2 & K2). apply grown_rest in G2 as (X2 & T2 & U2). rewrite U1 in U2.
      cbn [app] in U2. rewrite T2, U2, T1. split; [by eapply rest_trans|]. split.
      * eapply artifacts_of; try done. by constructor.
      * rewrite !Forall_app. split_and!; [|done|].
        -- eapply spares_stored; [exact K2| | |done].
           ++ rewrite <- (promoted_names _ _ _ P1) in Hgt. by apply (Forall_fmap relative_path good_name) in Hgt.
           ++ intros a Ha Hin. apply (list_elem_of_fmap_2 relative_path) in Ha. rewrite (promoted_names _ _ _ P1) in Ha.
              apply list_elem_of_fmap in Ha as (p & Ea & Hp), Hin as (q & Eq & Hq). rewrite Forall_forall in Hts, Hcs.
              specialize (Hts p Hp). specialize (Hcs q Hq). rewrite <- Ea in Hts. rewrite <- Eq in Hcs. by eapply cubin_not_trace.
        -- constructor; [|done]. apply K2; rewrite ?Hln; [apply log_name|by apply not_reserved_log|done].
    + intros e s2 (ss & done' & G2 & Pre & P2 & N2). apply grown_rest in G2 as (X2 & T2 & U2). rewrite U1 in U2.
      cbn [app] in U2. rewrite T2, U2, T1. split; [by eapply rest_trans|]. eapply artifacts_of; try done; try apply Forall_nil_2.
      destruct Pre as [rest ->]. by apply Forall_app in Hcs as [Hcs _].
  - intros e s1 (ts & done' & G1 & Pre & P1 & N1). apply grown_rest in G1 as (X1 & T1 & U1). rewrite Et in T1. rewrite Es in U1.
    cbn [app] in T1. rewrite T1, U1. split; [done|].
    eapply (artifacts_of done' ts [] []); try done; try constructor.
    destruct Pre as [rest ->]. rewrite fmap_app in Hgt. by apply Forall_app in Hgt as [Hgt _].
Qed.

Lemma wp_seal out err s : ts_traces s = [] → ts_supporting s = [] →
  wp (seal_capture_artifacts out err)
    (λ x s', rest_same s s' ∧ sealed_ok (diskof s') (ts_traces s') (ts_supporting s') x.1)
    (λ e s', rest_same s s' ∧ artifacts_ok (ts_traces s') (ts_supporting s') None) s.
Proof.
  intros Et Es. unfold TraceExperiment.seal_capture_artifacts. cbv zeta.
  assert (Hempty : ∀ s1, frame s s1 → rest_same s s1 ∧ artifacts_ok (ts_traces s1) (ts_supporting s1) None).
  { intros s1 F1. apply frame_rest in F1 as (X1 & -> & ->). rewrite Et, Es. split; [done|].
    eapply (artifacts_of [] [] [] []); constructor. }
  apply hoare_bind, wp_capture_to_log. intros s1 F1. apply hoare_bind.
  eapply hoare_mono; [apply wp_promote_artifact, log_name| |].
  2: { intros e s2 [F2 _]. apply Hempty. by eapply run_frame_trans. }
  intros log s2 (F2 & Hn & _ & Hst & _). assert (F : frame s s2) by by eapply run_frame_trans.
  apply hoare_bind, wp_reading. fold (selected_files (diskof s2)).
  destruct (selected_files (diskof s2)) as [[[sel sup] records]|e] eqn:E; [|by apply Hempty].
  apply selected_file_names in E as (H1 & H2 & H3 & H4).
  apply frame_rest in F as (X & Et2 & Es2). rewrite Et in Et2. rewrite Es in Es2.
  pose proof (wp_promote_selection sel sup log s2 Et2 Es2 H1 H2 H3 H4 Hn Hst) as Hp.
  unfold wp, mbind, st_bind in Hp |- *.
  destruct (promote_paths sel out_dir "application/x-ndjson" push_trace s2) as [s3 [u|e]].
  - destruct (promote_paths sup out_dir "application/x-cubin" push_supporting s3) as [s4 [v|e]].
    + destruct Hp as [X4 H]. split; [by eapply rest_trans|done].
    + destruct Hp as [X4 H]. split; [by eapply rest_trans|done].
  - destruct Hp as [X4 H]. split; [by eapply rest_trans|done].
Qed.

(** ** Results of a state *)

Definition shape (s : TraceRun W) : Prop := artifacts_ok (ts_traces s) (ts_supporting s) (ts_log s).

(** What [result] reports of a state. *)
Definition reports (s : TraceRun W) status error completeness (r : TraceExperimentResult) : Prop :=
  ∃ d, r = mkTrace (sp_experiment_id sp) status (sp_kind sp) provenance (head (ts_traces s)) (ts_log s) (ts_analysis s)
             d error (ts_traces s) (ts_supporting s) completeness (ts_analysis_duration_s s).

Lemma reports_init s status error completeness r :
  shape s → reports s status error completeness r → TraceExperimentResult_init r = Ok r.
Proof. intros H [d ->]. by apply init_fixed. Qed.

Lemma wp_trace_result status error completeness s (Q : TraceExperimentResult → TraceRun W → Prop) R : shape s →
  (∀ r s', frame s s' → diskof s' = diskof s → reports s status error completeness r → Q r s') →
  wp (trace_result status error completeness) Q R s.
Proof.
  intros Hs HQ. unfold TraceExperiment.trace_result. apply hoare_bind, hoare_get, hoare_bind.
  assert (Hend : ∀ d s', frame s s' → diskof s' = diskof s →
    wp (st_lift (TraceExperimentResult_init (mkTrace (sp_experiment_id sp) status (sp_kind sp) provenance (head (ts_traces s))
          (ts_log s) (ts_analysis s) d error (ts_traces s) (ts_supporting s) completeness (ts_analysis_duration_s s)))) Q R s').
  { intros d s' F D. apply hoare_lift. rewrite init_fixed by done. apply HQ; [done|done|by exists d]. }
  destruct (capture_duration_s s) as [d|].
  - apply hoare_ret. by apply Hend.
  - apply hoare_bind, wp_monotonic. intros t s' F D. apply hoare_ret. by apply Hend.
Qed.

Definition good_result (r : TraceExperimentResult) : Prop := accepted_trace sp r ∨ refused_blank r.

Lemma reports_accepted s status error completeness r : shape s → reports s status error completeness r →
  validate_trace_result r = Ok () → accepted_trace sp r.
Proof.
  intros Hs Hr Hv. split_and!; [by eapply reports_init| |done]. destruct Hr as [d ->]. by eapply provenance_valid.
Qed.

Lemma blank_refused r : tr_execution_status r ≠ Succeeded → no_error_text (tr_error r) = true → refused_blank r.
Proof.
  intros Hst Hb. split_and!; [done|done|]. unfold validate_trace_result. rewrite bool_decide_false by done.
  unfold validate_trace_failure_shape, inconsistent_trace. by rewrite Hb.
Qed.

Lemma failure_good s status e r : shape s → ts_analysis s = None → status ≠ Succeeded →
  reports s status (Some e) Partial r → good_result r.
Proof.
  intros Hs Ha Hst Hr. destruct (no_error_text (Some e)) eqn:Eb.
  - right. apply blank_refused; by destruct Hr as [d ->].
  - left. eapply reports_accepted; [done|done|]. destruct Hr as [d ->]. rewrite failure_valid; [|done..]. cbn [tr_error]. by rewrite Eb.
Qed.

(** ** The states between the steps *)

(** A checkpoint with the disk of its moment. *)
Definition good_checkpoint (c : Disk * TraceExperimentResult) : Prop :=
  checkpoint_ok sp provenance c.2
  ∧ Forall (stored c.1) (raw_traces c.2 ++ supporting_artifacts c.2 ++ option_list (tr_log c.2)).

Definition well (s : TraceRun W) : Prop :=
  shape s ∧ ts_analysis s = None ∧ Forall good_checkpoint (checkpoints s).

Lemma well_frame s s' : frame s s' → well s → well s'.
Proof. by intros [m ->]. Qed.

Lemma wp_failure status e s (Q : TraceExperimentResult → TraceRun W → Prop) R : well s → status ≠ Succeeded →
  (∀ r s', well s' → good_result r → Q r s') → wp (trace_result status (Some e) Partial) Q R s.
Proof.
  intros Hw Hst HQ. destruct Hw as (Hs & Ha & Hc) eqn:Ew. apply wp_trace_result; [done|]. intros r s' F _ Hr.
  apply HQ; [by eapply well_frame|by eapply failure_good].
Qed.

Lemma wp_sealed_log (Q : option ArtifactRef → TraceRun W → Prop) R s :
  (∀ log, Forall (λ a, has_identity a = true) (option_list log) → Q log s) →
  wp (sealed_log_if_available out_dir) Q R s.
Proof.
  intros HQ. apply wp_reading. cbv zeta. set (path := abspath cwd (join out_dir "trace.log")).
  destruct (regular_file (diskof s) path) eqn:E; cbn [negb]; [|apply HQ; constructor].
  apply regular_file_true in E as [t Ht]. unfold local_artifact. fold path. rewrite Ht. cbn [entry_text mbind res_bind].
  apply HQ. constructor; [|constructor]. eapply (declares_identity _ t). eexists. cbn. split_and!; [done| |done].
  rewrite chars_str. apply digest_hex.
Qed.

Lemma artifacts_ok_log ts ss log log' : artifacts_ok ts ss log →
  Forall (λ a, has_identity a = true) (option_list log') → artifacts_ok ts ss log'.
Proof.
  intros [Hi Hd Hs Ha Hc Hp] Hl. constructor; try done. rewrite !Forall_app in Hi |- *. destruct Hi as (H1 & H2 & _). done.
Qed.

(** A capture sealed in the state. *)
Definition sealed_state (s : TraceRun W) : Prop :=
  well s ∧ ∃ log, ts_log s = Some log ∧ sealed_ok (diskof s) (ts_traces s) (ts_supporting s) log.

Lemma well_with_log s s1 log : well s → rest_same s s1 → artifacts_ok (ts_traces s1) (ts_supporting s1) None →
  Forall (λ a, has_identity a = true) (option_list log) → well (with_log log s1).
Proof.
  intros (_ & Ha & Hc) (_ & _ & _ & Ea & Ec) Hok Hl. split_and!.
  - eapply artifacts_ok_log; [exact Hok|done].
  - cbn. by rewrite Ea.
  - cbn. by rewrite Ec.
Qed.

Notation after_failed_seal := (after_failed_seal cwd entry_size clock exn_text sp out_dir cutracer_version toolchain_version started).
Notation seal_or_fail := (seal_or_fail loads read_lines ip_literal_ok cwd entry_size os_step write_file clock exn_text sp o
  out_dir attempt_dir cutracer_version toolchain_version started trace_locator resolved_config_path).

Lemma wp_after_failed_seal p e s s1 (Q : option bool * option TraceExperimentResult → TraceRun W → Prop) R :
  well s → rest_same s s1 → artifacts_ok (ts_traces s1) (ts_supporting s1) None →
  (∀ r s', well s' → good_result r → Q (None, Some r) s') → (∀ s', well s' → R e s') →
  wp (after_failed_seal p e) Q R s1.
Proof.
  intros Hw X Hok HQ HR. apply hoare_bind, wp_sealed_log. intros log Hl. apply hoare_bind, hoare_modify.
  assert (Hw' : well (with_log log s1)) by by eapply well_with_log.
  destruct (negb _).
  - apply hoare_bind, wp_failure; [done|done|]. intros r s' Hs' Hr. apply hoare_ret. by apply HQ.
  - apply hoare_raise. by apply HR.
Qed.

Lemma wp_seal_or_fail p s : well s → ts_traces s = [] → ts_supporting s = [] → ts_log s = None →
  wp (seal_or_fail p)
    (λ x s', match x with
             | (Some _, None) => sealed_state s'
             | (None, Some r) => well s' ∧ good_result r
             | _ => False
             end)
    (λ e s', well s') s.
Proof.
  intros Hw Et Es El. apply wp_catching, hoare_bind. eapply hoare_mono; [by apply wp_seal| |].
  - intros [log records] s1 (X & Hseal). cbn [fst] in Hseal. apply hoare_bind, hoare_modify, hoare_ret. split.
    + destruct Hw as (_ & Ha & Hc), X as (_ & _ & _ & Ea & Ec). split_and!; [apply Hseal|cbn; by rewrite Ea|cbn; by rewrite Ec].
    + exists log. split; [done|exact Hseal].
  - intros e s1 (X & Hok). destruct (is_os_or_value_error e) eqn:E.
    + eapply wp_after_failed_seal; [exact Hw|exact X|exact Hok|by auto|by auto].
    + destruct X as (X1 & X2 & X3 & X4 & X5). destruct Hw as (_ & Ha & Hc). split_and!.
      * eapply artifacts_ok_log; [exact Hok|]. rewrite X3, El. constructor.
      * by rewrite X4.
      * by rewrite X5.
Qed.

(** ** A fresh capture *)

(** The callback leaves the traces it was told of where they are. *)
Hypothesis callback_keeps : ∀ f r m m' x, progress_callback = Some f → f r m = (m', x) →
  ∀ a, a ∈ raw_traces r → stored (disk m) a → stored (disk m') a.

Notation report_progress := (report_progress clock sp cutracer_version toolchain_version started progress_callback).
Notation after_seal := (after_seal clock sp cutracer_version toolchain_version started progress_callback).
Notation seal_fresh_capture := (seal_fresh_capture loads read_lines ip_literal_ok cwd entry_size os_step write_file clock exn_text
  sp o out_dir attempt_dir cutracer_version toolchain_version started trace_locator progress_callback resolved_config_path).
Notation fresh_analysis_paths := (fresh_analysis_paths loads read_lines ip_literal_ok cwd entry_size os_step write_file clock
  run_target exn_text environ sp o out_dir attempt_dir cutracer_version toolchain_version started trace_locator progress_callback
  timeout resolved_argv resolved_cwd resolved_base_env resolved_config_path use_bundled_cuda_tools).

(** Ready for the analysis: a whole capture, its traces stored. *)
Definition whole (s : TraceRun W) : Prop :=
  well s ∧ ts_traces s ≠ [] ∧ ts_supporting s ≠ [] ∧ ts_log s ≠ None.
Definition analysable (s : TraceRun W) (paths : list string) : Prop :=
  whole s ∧ basename <$> paths = relative_path <$> ts_traces s ∧ addressable cwd paths.

(** Files of a directory, by the names of the traces. *)
Lemma analysable_joined dir s : whole s →
  analysable s ((λ n, abspath cwd (join dir n)) <$> (relative_path <$> ts_traces s)).
Proof.
  intros Hw. pose proof Hw as ((Hs & _) & Ht & _). destruct Hs as [_ Hd _ _ _ Hp].
  assert (Hn : basename <$> ((λ n, abspath cwd (join dir n)) <$> (relative_path <$> ts_traces s)) = relative_path <$> ts_traces s).
  { clear -Hp cwd_abs. induction (relative_path <$> ts_traces s) as [|n l IH]; [done|]. apply Forall_cons in Hp as [Hn Hp].
    rewrite !fmap_cons, IH by done. f_equal. by apply basename_abspath_join. }
  split_and!; [done|done|]. split_and!; [by destruct (ts_traces s)|by rewrite Hn|].
  apply Forall_fmap, Forall_true. intros n. by apply abspath_idem.
Qed.

Lemma sealed_checkpoint s r : sealed_state s → ts_traces s ≠ [] → ts_supporting s ≠ [] →
  reports s Succeeded None Partial r → good_checkpoint (diskof s, r).
Proof.
  intros [(_ & Ha & _) (log & El & Hok & Hst)] Ht Hss [d ->]. unfold good_checkpoint, checkpoint_ok. cbn. rewrite El, Ha.
  split; [by split_and!|done].
Qed.

Lemma wp_report_progress s : sealed_state s → ts_traces s ≠ [] → ts_supporting s ≠ [] →
  wp report_progress (λ _ s', whole s' ∧ ts_traces s' = ts_traces s ∧ Forall (stored (diskof s')) (ts_traces s'))
    (λ _ s', well s') s.
Proof.
  intros Hs Ht Hss. destruct Hs as [Hw Hlog] eqn:Es. pose proof Hlog as (log & El & Hok & Hst).
  apply Forall_app in Hst as [Htr _]. unfold TraceExperiment.report_progress.
  destruct progress_callback as [f|] eqn:Ef.
  - apply hoare_bind, wp_trace_result; [apply Hw|]. intros r s1 F1 D1 Hr. apply hoare_bind, hoare_modify.
    assert (Hc : good_checkpoint (diskof s1, r)) by (rewrite D1; by eapply sealed_checkpoint).
    assert (Hw1 : well (with_checkpoint r s1)).
    { destruct F1 as [m ->]. destruct Hw as (H1 & H2 & H3). split_and!; [done|done|]. cbn. apply Forall_app. split; [done|by constructor]. }
    apply wp_machine. intros m' x Hx.
    assert (Hkeep : Forall (stored (disk m')) (ts_traces s)).
    { rewrite Forall_forall in Htr |- *. intros a Ha. eapply callback_keeps; [reflexivity|exact Hx| |].
      - by destruct Hr as [d ->].
      - cbn [machine with_checkpoint]. rewrite D1. by apply Htr. }
    destruct F1 as [m ->]. destruct x as [u|e]; [|done]. split_and!; [|done|done]. split_and!; [done|done|done|cbn; by rewrite El].
  - apply hoare_ret. split_and!; [|done|done]. split_and!; [done|done|done|by rewrite El].
Qed.

Lemma capture_error_none p ts ss records : capture_error p ts ss records = None → ts ≠ [] ∧ ss ≠ [].
Proof.
  unfold capture_error. destruct (negb _); [done|]. case_bool_decide; [done|]. case_bool_decide; [done|]. done.
Qed.

Lemma capture_error_some p ts ss records status e : capture_error p ts ss records = Some (status, e) → status ≠ Succeeded.
Proof.
  unfold capture_error. destruct (negb (returncode p =? 0)); [by intros [= <- _]|].
  case_bool_decide; [by intros [= <- _]|]. case_bool_decide; [by intros [= <- _]|].
  destruct (contains _ _); [by intros [= <- _]|]. destruct (negb records); [by intros [= <- _]|done].
Qed.

Lemma wp_after_seal p records s : sealed_state s →
  wp (after_seal p records)
    (λ early s', match early with
                 | Some r => well s' ∧ good_result r
                 | None => whole s' ∧ Forall (stored (diskof s')) (ts_traces s')
                 end)
    (λ _ s', well s') s.
Proof.
  intros Hs. apply hoare_bind, wp_monotonic. intros t s1 F1 D1. apply hoare_bind, hoare_modify, hoare_bind, hoare_get.
  set (s2 := with_durations _ _ s1).
  assert (Hs2 : sealed_state s2).
  { destruct F1 as [m ->]. destruct Hs as [Hw (log & El & Hok)]. split; [exact Hw|]. exists log. split; [done|].
    cbn in *. by rewrite D1. }
  destruct (capture_error p (ts_traces s2) (ts_supporting s2) records) as [[status e]|] eqn:Ec.
  - apply hoare_bind, wp_failure; [apply Hs2|by eapply capture_error_some|]. intros r s' Hw Hr. by apply hoare_ret.
  - apply capture_error_none in Ec as [Ht Hss]. apply hoare_bind.
    eapply hoare_mono; [by apply wp_report_progress| |done]. intros u s3 (Hw & Et & Hst). by apply hoare_ret.
Qed.

Lemma stored_local_path d a : stored d a → local_path ip_literal_ok d a = Ok (file_of (relative_path a)).
Proof.
  intros (text & Hd & Hdec & Hu). unfold local_path.
  assert (Hi : abspath cwd (file_of (relative_path a)) = file_of (relative_path a)) by by apply abspath_idem.
  rewrite (file_uri_path ip_literal_ok cwd entry_size cwd_abs d (file_of (relative_path a)) a Hu); rewrite Hi; [done|].
  eapply declares_matches; [exact Hdec|]. unfold read_file. by rewrite Hd.
Qed.

Lemma stored_local_paths d l : Forall (stored d) l → mapM (local_path ip_literal_ok d) l = Ok (file_of <$> (relative_path <$> l)).
Proof.
  induction 1 as [|a l Ha _ IH]; [done|]. cbn [mapM]. rewrite stored_local_path by done. cbn [mbind res_bind]. by rewrite IH.
Qed.

Lemma wp_fresh_analysis_paths s : well s → ts_traces s = [] → ts_supporting s = [] → ts_log s = None →
  wp fresh_analysis_paths
    (λ x s', match x.2 with Some r => well s' ∧ good_result r | None => analysable s' x.1 end)
    (λ _ s', well s') s.
Proof.
  intros Hw Et Es El. apply hoare_bind.
  assert (Hrun : wp (run_trace_capture loads ip_literal_ok cwd run_target environ sp o attempt_dir timeout resolved_argv resolved_cwd
      resolved_base_env resolved_config_path use_bundled_cuda_tools) (λ _ s', frame s s') (λ _ s', frame s s') s).
  { apply hoare_bind, wp_reading. destruct (trace_launch _ _ _ _ _ _ _ _ _ _ _ _ _) as [l|e]; [|done].
    apply wp_machine. intros m [p|e] _; by eexists. }
  eapply hoare_mono; [exact Hrun| |intros e s1 F; exact (well_frame _ _ F Hw)].
  intros p s1 F. cbn beta in F. assert (Hw1 : well s1) by exact (well_frame _ _ F Hw). destruct F as [m ->]. apply hoare_bind, hoare_bind.
  eapply hoare_mono; [by apply wp_seal_or_fail| |done].
  intros [sealed failed] s2 H.
  assert (Hseal : wp (match sealed with Some records => after_seal p records | None => mret failed end)
    (λ early s', match early with
                 | Some r => well s' ∧ good_result r
                 | None => whole s' ∧ Forall (stored (diskof s')) (ts_traces s')
                 end) (λ _ s', well s') s2).
  { destruct sealed as [records|], failed as [r|]; try done. by apply wp_after_seal. }
  eapply hoare_mono; [exact Hseal| |done]. intros early s3 H3. apply hoare_bind, hoare_get, hoare_bind, wp_reading.
  destruct early as [r|].
  - destruct H3 as [H3 Hr]. destruct (mapM _ _) as [ps|e]; [|done]. by apply hoare_ret.
  - destruct H3 as [H3 Hst]. rewrite stored_local_paths by done. apply hoare_ret.
    cbn [snd fst]. by apply analysable_joined.
Qed.

(** ** Resuming *)

Notation stage_each := (stage_each ip_literal_ok cwd os_step write_file).
Notation stage_resume_artifacts := (stage_resume_artifacts ip_literal_ok cwd os_step write_file).
Notation resume_analysis_paths := (resume_analysis_paths ip_literal_ok cwd os_step write_file out_dir attempt_dir).
Notation load_resume_state := (load_resume_state sp cutracer_version toolchain_version).

Lemma wp_stage_each source dest seen l s :
  wp (stage_each source dest seen l)
    (λ paths s', frame s s' ∧ paths = (λ n, abspath cwd (join dest n)) <$> (relative_path <$> l))
    (λ _ s', frame s s') s.
Proof.
  revert seen s. induction l as [|a l IH]; intros seen s; cbn [TraceExperiment.stage_each]; [by apply hoare_ret|]. cbv zeta.
  destruct (bool_decide (basename (relative_path a) = "") || _ || _) eqn:E; [by apply hoare_raise|].
  apply orb_false_iff in E as [[_ E]%orb_false_iff _]. apply negb_false_iff, bool_decide_eq_true in E.
  apply hoare_bind, wp_reading. destruct (raise_if _) as [u|e]; [|done].
  apply hoare_bind, wp_machine. intros m r H. apply stage_run in H as [_ H].
  destruct r as [v|e]; [|by eexists]. destruct H as (_ & text & _ & _ & _ & _ & ->).
  apply hoare_bind. eapply hoare_mono; [apply IH| |].
  - intros paths s' [F ->]. apply hoare_ret. split; [eapply run_frame_trans; [by eexists|exact F]|]. rewrite !fmap_cons. cbn [va_path].
    by rewrite <- E.
  - intros e s' F. eapply run_frame_trans; [by eexists|exact F].
Qed.

Lemma wp_stage_resume l source dest s :
  wp (stage_resume_artifacts l source dest)
    (λ paths s', frame s s' ∧ paths = (λ n, abspath cwd (join dest n)) <$> (relative_path <$> l))
    (λ _ s', frame s s') s.
Proof.
  apply hoare_bind, wp_step; [|done]. intros s1 F _. eapply hoare_mono; [apply wp_stage_each| |].
  - intros paths s2 [F2 H]. split; [by eapply run_frame_trans|done].
  - intros e s2 F2. by eapply run_frame_trans.
Qed.

Lemma whole_frame s s' : frame s s' → whole s → whole s'.
Proof. by intros [m ->]. Qed.

Lemma wp_resume_analysis_paths s : whole s →
  wp resume_analysis_paths (λ paths s', analysable s' paths) (λ _ s', well s') s.
Proof.
  intros Hw. apply hoare_bind, hoare_get, hoare_bind. eapply hoare_mono; [apply wp_stage_resume| |].
  2: { intros e s' F. exact (well_frame _ _ F (proj1 Hw)). }
  intros staged s1 [F1 ->]. destruct (ts_log s) as [log|]; [|exact (well_frame _ _ F1 (proj1 Hw))].
  apply hoare_bind. eapply hoare_mono; [apply wp_stage_resume| |].
  - intros paths s2 [F2 _]. apply hoare_ret. assert (F : frame s s2) by by eapply run_frame_trans.
    rewrite !fmap_app, take_app_le by by rewrite !length_fmap. rewrite firstn_all2 by by rewrite !length_fmap.
    assert (Hw2 : whole s2) by by eapply whole_frame. destruct F as [m ->]. by apply (analysable_joined _ _ Hw2).
  - intros e s2 F2. exact (well_frame _ _ (run_frame_trans _ _ _ F1 F2) (proj1 Hw)).
Qed.

(** A checkpoint some trace experiment reported. *)
Definition some_checkpoint (r : TraceExperimentResult) : Prop := ∃ sp' prov', checkpoint_ok sp' prov' r.

Lemma wp_load_resume r s : well s → some_checkpoint r →
  wp (load_resume_state r) (λ _ s', whole s') (λ _ s', well s') s.
Proof.
  intros Hw (sp' & prov' & Hr). destruct Hr as (_ & _ & _ & _ & _ & _ & _ & H1 & H2 & H3 & H4).
  apply hoare_bind, hoare_lift. destruct (validate_resume _ _ _ r) as [u|e]; [|done]. apply hoare_modify.
  destruct Hw as (_ & Ha & Hc). split_and!; [|done|done|done]. by split_and!.
Qed.

(** ** The analysis *)

(** The analysis speaks of the traces it was given, with a checked report. *)
Hypothesis analysis_contract : ∀ paths arch out m m' t,
  addressable cwd paths → analysis_runner paths arch out m = (m', Ok t) → analysis_ok (basename <$> paths) t.
Hypothesis analyzer_named : blank analyzer_name = false.

Notation run_trace_analyzer := (run_trace_analyzer analysis_runner analyzer_name exn_text sp out_dir).
Notation timed_analysis := (timed_analysis clock analysis_runner analyzer_name exn_text sp out_dir).
Notation analyze_trace_paths := (analyze_trace_paths clock analysis_runner analyzer_name exn_text sp out_dir cutracer_version
  toolchain_version started).

Definition speaks_of (names : list string) (t : TraceAnalysisEvidence) : Prop :=
  Forall (λ f, match f with None => (length names ≤ 1)%nat | Some n => n ∈ names end) (analysis_trace_files t).

(** The evidence and the error of an analysis fit. *)
Definition judged (names : list string) (x : TraceAnalysisEvidence * option string) : Prop :=
  speaks_of names x.1
  ∧ match x.2 with
    | Some e => ta_execution_status x.1 = ExecInfraError ∧ ta_error x.1 = Some e
                ∧ ∀ a, ta_artifact x.1 = Some a → has_identity a = true
    | None => ta_execution_status x.1 = Succeeded ∧ ta_error x.1 = None
              ∧ ∃ a, ta_artifact x.1 = Some a ∧ has_identity a = true
    end.

Lemma wp_new_analysis t (Q : TraceAnalysisEvidence → TraceRun W → Prop) R s :
  TraceAnalysisEvidence_check t = Ok () → Q t s → wp (new_analysis t : TM _) Q R s.
Proof. intros Hc HQ. apply hoare_bind, hoare_lift. rewrite Hc. by apply hoare_ret. Qed.

Lemma failed_analysis_checked e : TraceAnalysisEvidence_check (failed_analysis analyzer_name e) = Ok ().
Proof. unfold TraceAnalysisEvidence_check, failed_analysis. cbn -[blank]. by rewrite analyzer_named. Qed.

Lemma wp_judge names t s : analysis_ok names t → wp (judge_analysis t : TM _) (λ x s', s' = s ∧ judged names x) (λ _ _, False) s.
Proof.
  intros [Hc Hn Hr Hs]. unfold judge_analysis. destruct (negb _ || negb _) eqn:E.
  - cbv zeta. apply hoare_bind, wp_new_analysis; [exact Hc|]. apply hoare_ret. split; [done|]. split; [exact Hn|].
    cbn. split_and!; [done|done|]. intros a. destruct (hashed (ta_artifact t)) eqn:Eh; [|done]. intros Ha.
    apply Hr; [done|]. by rewrite Ha in Eh.
  - apply orb_false_iff in E as [E1%negb_false_iff E2%negb_false_iff]. apply bool_decide_eq_true in E1.
    apply hoare_ret. split; [done|]. split; [exact Hn|]. cbn. split_and!; [done|by apply Hs|].
    destruct (ta_artifact t) as [a|]; [|done]. exists a. split; [done|]. by apply Hr.
Qed.

Lemma wp_run_analyzer paths s : addressable cwd paths →
  wp (run_trace_analyzer paths) (λ x s', frame s s' ∧ judged (basename <$> paths) x) (λ _ _, False) s.
Proof.
  intros Hp. apply hoare_bind, wp_catching, hoare_bind, wp_machine. intros m r H. destruct r as [t|e].
  - apply hoare_ret. eapply hoare_mono; [eapply wp_judge, analysis_contract, H; exact Hp| |done].
    intros x s' [-> Hx]. split; [by eexists|done].
  - apply hoare_ret. cbv zeta. apply hoare_bind, wp_new_analysis; [apply failed_analysis_checked|]. apply hoare_ret. split; [by eexists|].
    split; [constructor|]. by split_and!.
Qed.

(** The state after an analysis. *)
Definition analysed (s s' : TraceRun W) (t : TraceAnalysisEvidence) : Prop :=
  ts_traces s' = ts_traces s ∧ ts_supporting s' = ts_supporting s ∧ ts_log s' = ts_log s ∧ checkpoints s' = checkpoints s
  ∧ ts_analysis s' = Some t.

Lemma wp_timed_analysis paths s : addressable cwd paths →
  wp (timed_analysis paths)
    (λ e s', ∃ t, analysed s s' t ∧ judged (basename <$> paths) (t, e)) (λ _ _, False) s.
Proof.
  intros Hp. pose proof (λ s, wp_run_analyzer paths s Hp) as Hrun. unfold wp in *. unfold TraceExperiment.timed_analysis, TraceExperiment.monotonic, on_machine.
  destruct (clock (env_ (machine s))) as [w1 t1]. unfold mbind, st_bind, st_modify, mret, st_ret.
  specialize (Hrun (with_machine (mkMachine (disk (machine s)) w1) s)).
  destruct (run_trace_analyzer paths _) as [s1 [x|e]]; [|done]. destruct Hrun as [[m ->] Hx].
  destruct (clock _) as [w2 t2]. exists x.1. split; [done|]. by destruct x.
Qed.

Definition finished (r : TraceExperimentResult) (s : TraceRun W) : Prop :=
  good_result r ∧ Forall good_checkpoint (checkpoints s).

Lemma wp_analyze paths s : analysable s paths → wp (analyze_trace_paths paths) finished (λ _ _, False) s.
Proof.
  intros (((Hs & _ & Hc) & Ht & Hss & Hl) & Hn & Hp). apply hoare_bind. eapply hoare_mono; [by apply wp_timed_analysis| |done].
  intros e s1 (t & (E1 & E2 & E3 & E4 & E5) & Hsp & Hj). rewrite Hn in Hsp. cbn [fst snd] in *.
  assert (Hs1 : shape s1) by (unfold shape; by rewrite E1, E2, E3).
  unfold speaks_of in Hsp. rewrite length_fmap in Hsp.
  destruct e as [e|]; apply wp_trace_result; try done; intros r s2 F _ Hr; (split; [|destruct F as [m ->]; cbn; by rewrite E4]).
  - destruct Hj as (J1 & J2 & J3). destruct (no_error_text (Some e)) eqn:Eb.
    + right. apply blank_refused; by destruct Hr as [d ->].
    + left. eapply reports_accepted; [exact Hs1|exact Hr|]. destruct Hr as [d ->].
      by apply (analysis_failure_valid _ t e); cbn; rewrite ?E1, ?E2, ?E3.
  - destruct Hj as (J1 & J2 & J3). left. eapply reports_accepted; [exact Hs1|exact Hr|]. destruct Hr as [d ->].
    by apply (success_valid _ t); cbn; rewrite ?E1, ?E2, ?E3.
Qed.

(** ** Timing out, and the whole attempt *)

Notation timeout_trace_result := (timeout_trace_result loads read_lines ip_literal_ok cwd entry_size os_step write_file clock
  exn_text sp o out_dir attempt_dir cutracer_version toolchain_version started trace_locator resolved_config_path).
Notation trace_attempt := (trace_attempt loads read_lines ip_literal_ok cwd entry_size os_step write_file clock run_target
  analysis_runner analyzer_name exn_text environ sp o out_dir attempt_dir cutracer_version toolchain_version started
  trace_locator progress_callback timeout resolved_argv resolved_cwd resolved_base_env resolved_config_path
  use_bundled_cuda_tools).
Notation trace_handler := (trace_handler loads read_lines ip_literal_ok cwd entry_size os_step write_file clock exn_text sp o
  out_dir attempt_dir cutracer_version toolchain_version started trace_locator resolved_config_path).
Notation attempt_and_clean := (attempt_and_clean loads read_lines ip_literal_ok cwd entry_size os_step write_file clock leftover
  run_target analysis_runner analyzer_name exn_text environ sp o out_dir attempt_dir cutracer_version toolchain_version started
  trace_locator progress_callback timeout resolved_argv resolved_cwd resolved_base_env resolved_config_path
  use_bundled_cuda_tools).

Lemma well_finished r s : well s → good_result r → finished r s.
Proof. intros (_ & _ & H) Hr. by split. Qed.

Lemma wp_timeout_result e out err s : well s → wp (timeout_trace_result e out err) finished (λ _ _, False) s.
Proof.
  intros Hw. apply hoare_bind.
  assert (Hseal : wp (seal_timed_out_capture loads read_lines ip_literal_ok cwd entry_size os_step write_file exn_text sp o out_dir
     attempt_dir trace_locator resolved_config_path out err) (λ _ s', well s') (λ _ _, False) s).
  { apply hoare_bind, hoare_modify. set (s0 := with_artifacts [] [] s).
    assert (Hw0 : well s0).
    { destruct Hw as (Hs & Ha & Hc). split_and!; [|done|done]. eapply (artifacts_ok_log [] [] None).
      - eapply (artifacts_of [] [] [] []); constructor.
      - destruct Hs as [Hi _ _ _ _ _]. rewrite !Forall_app in Hi. by destruct Hi as (_ & _ & Hi). }
    apply wp_catching, hoare_bind. eapply hoare_mono; [by apply wp_seal| |].
    - intros [log records] s1 (X & Hseal). apply hoare_bind, hoare_modify, hoare_ret.
      destruct Hw0 as (_ & Ha & Hc), X as (_ & _ & _ & Ea & Ec). split_and!; [apply Hseal|cbn; by rewrite Ea|cbn; by rewrite Ec].
    - intros x s1 (X & Hok). apply hoare_bind, wp_sealed_log. intros log Hl. apply hoare_bind, hoare_modify, hoare_ret.
      by eapply well_with_log. }
  eapply hoare_mono; [exact Hseal| |done]. intros x s1 Hw1. apply wp_failure; [exact Hw1|done|].
  intros r s2 Hw2 Hr. by apply well_finished.
Qed.

(** What [run_trace_experiment] turns into a result. *)
Definition handled (e : exn) : bool :=
  match e with
  | TimeoutExpired _ _ | ArtifactVerificationError _ | ClickException | OSError | ValueError => true
  | _ => false
  end.

Lemma wp_handler e s (R : exn → TraceRun W → Prop) : well s → (handled e = false → R e s) →
  match trace_handler e with Some h => wp h finished R s | None => R e s end.
Proof.
  intros Hw HR. destruct e; cbn [TraceExperiment.trace_handler]; try (by apply HR);
    try (apply wp_failure; [done|done|]; intros r s' Hw' Hr; by apply well_finished).
  eapply hoare_mono; [by apply wp_timeout_result|done|done].
Qed.

Definition at_start (s : TraceRun W) : Prop :=
  well s ∧ ts_traces s = [] ∧ ts_supporting s = [] ∧ ts_log s = None.

Lemma wp_trace_attempt resume_from s : at_start s → (∀ r, resume_from = Some r → some_checkpoint r) →
  wp (trace_attempt resume_from) finished (λ _ s', well s') s.
Proof.
  intros (Hw & Et & Es & El) Hres. unfold TraceExperiment.trace_attempt. destruct resume_from as [r|].
  - apply hoare_bind. eapply hoare_mono; [apply wp_load_resume; [done|by apply Hres]| |done]. intros u s1 Hw1.
    apply hoare_bind, hoare_lift. destruct (validate_trace_runtime_spec sp) as [v|e]; [|apply Hw1].
    apply hoare_bind. eapply hoare_mono; [by apply wp_resume_analysis_paths| |done]. intros paths s2 Hp.
    eapply hoare_mono; [by apply wp_analyze|done|done].
  - apply hoare_bind, hoare_lift. destruct (validate_trace_runtime_spec sp) as [v|e]; [|done].
    apply hoare_bind. eapply hoare_mono; [by apply wp_fresh_analysis_paths| |done]. intros [paths [r|]] s1 H.
    + apply hoare_ret. destruct H as [H1 H2]. by apply well_finished.
    + eapply hoare_mono; [by apply wp_analyze|done|done].
Qed.

Lemma wp_attempt_and_clean resume_from s : at_start s → (∀ r, resume_from = Some r → some_checkpoint r) →
  wp (attempt_and_clean resume_from) finished
    (λ e s', handled e = false ∧ Forall good_checkpoint (checkpoints s')) s.
Proof.
  intros Hs Hres.
  assert (H : wp (catch (trace_attempt resume_from) trace_handler) finished
      (λ e s', handled e = false ∧ Forall good_checkpoint (checkpoints s')) s).
  { apply wp_catching. eapply hoare_mono; [by apply wp_trace_attempt|done|]. intros e s' Hw. apply wp_handler; [done|].
    intros He. split; [done|]. by destruct Hw as (_ & _ & H). }
  unfold wp in *. unfold TraceExperiment.attempt_and_clean. destruct (catch _ _ s) as [s1 r].
  destruct (remove_attempt _ _ _ _) as [m u]. by destruct r.
Qed.
End Runs.

(** ** The whole experiment *)

Section Experiment.
Context {W : Type}.
Variable loads : string → option json.
Variable read_lines : string → list string * option exn.
Variable ip_literal_ok : list ascii → bool.
Variable cwd : string.
Variable entry_size : string → Z.
Variable os_step : W → W * bool.
Variable write_file : W → W * Writing.
Variable clock : W → W * float.
Variable leftover : W → W * (string → bool).
Variable run_target : TraceLaunch → st (Machine W) exn CompletedProcess.
Variable analysis_runner : list string → string → string → st (Machine W) exn TraceAnalysisEvidence.
Variable analyzer_name : string.
Variable exn_text : exn → string.
Variable environ : dict string string.

Hypothesis cwd_abs : is_abs cwd = true.
Hypothesis analysis_contract : ∀ paths arch out m m' t,
  addressable cwd paths → analysis_runner paths arch out m = (m', Ok t) → analysis_ok (basename <$> paths) t.
Hypothesis analyzer_named : blank analyzer_name = false.

(** Nothing captured yet. *)
Definition fresh_run (m : Machine W) : TraceRun W := mkTraceRun m None f_zero [] [] None None [].

(** C34: Every trace result is accepted by the session.  For any trace
    specification, whatever the target, the file system and the analysis do within
    their contracts, resumed from a checkpoint or not: a result the experiment
    returns passes the session's checks (provenance, completeness, artifact
    identities, references and status of the analysis), unless it is a failure whose
    error text is blank, which the session refuses; every checkpoint given to the
    callback is a partial success one can resume from, whose artifacts are in the
    output directory at that moment with the declared bytes; and the experiment
    raises only exceptions it does not handle, or before anything ran, when the
    specification is no trace or a directory cannot be made. *)
Theorem trace_results_accepted sp out_dir attempt_dir cutracer_version toolchain_version trace_locator progress_callback
    timeout resolved_argv resolved_cwd resolved_base_env resolved_config_path use_bundled_cuda_tools resume_from m s' x :
  (∀ f r m m' y, progress_callback = Some f → f r m = (m', y) →
     ∀ a, a ∈ raw_traces r → stored cwd out_dir (disk m) a → stored cwd out_dir (disk m') a) →
  (∀ r, resume_from = Some r → some_checkpoint r) →
  run_trace_experiment loads read_lines ip_literal_ok cwd entry_size os_step write_file clock leftover run_target
    analysis_runner analyzer_name exn_text environ sp out_dir attempt_dir cutracer_version toolchain_version trace_locator
    progress_callback timeout resolved_argv resolved_cwd resolved_base_env resolved_config_path use_bundled_cuda_tools
    resume_from (fresh_run m) = (s', x) →
  Forall (good_checkpoint cwd sp out_dir cutracer_version toolchain_version) (checkpoints s')
  ∧ match x with
    | Ok r => accepted_trace sp r ∨ refused_blank r
    | Err e => handled e = false
               ∨ (e = ValueError ∧ validate_trace_spec sp = Err ValueError ∨ e = OSError)
                 ∧ checkpoints s' = [] ∧ disk (machine s') = disk m
    end.
Proof.
  intros Hcb Hres. unfold run_trace_experiment, st_lift, mbind at 1, st_bind at 1.
  destruct (validate_trace_spec sp) as [o|e] eqn:Eo.
  2: { intros [= <- <-]. split; [constructor|]. right. split; [|done]. left. assert (e = ValueError) as ->; [|done].
       unfold validate_trace_spec in Eo. destruct (negb _); [by injection Eo as <-|]. cbn in Eo. by destruct (sp_trace sp); simplify_eq/=. }
  assert (Hk : is_trace_kind (sp_kind sp) = true).
  { unfold validate_trace_spec in Eo. by destruct (is_trace_kind (sp_kind sp)). }
  match goal with |- ?run (fresh_run m) = _ → _ =>
    assert (Hrun : wp run (finished cwd sp out_dir cutracer_version toolchain_version)
      (λ e s', (handled e = false ∧ Forall (good_checkpoint cwd sp out_dir cutracer_version toolchain_version) (checkpoints s'))
               ∨ e = OSError ∧ checkpoints s' = [] ∧ disk (machine s') = disk m) (fresh_run m))
  end.
  { apply hoare_bind, wp_step; [intros s1 F1 D1|intros s1 [m1 ->] D1; right; by split_and!].
    apply hoare_bind, wp_step; [intros s2 F2 D2|intros s2 [m2 ->] D2; right; destruct F1 as [m1 ->]; split_and!; [done|done|by rewrite D2, D1]].
    apply hoare_bind, wp_machine. intros m3 r H. injection H as <- <-.
    apply hoare_bind, wp_monotonic. intros started s4 F4 _. eapply hoare_mono; [apply wp_attempt_and_clean; try done| |].
    - destruct F4 as [m4 ->], F2 as [m2 ->], F1 as [m1 ->]. unfold at_start, well, shape. cbn. split_and!; try done; try apply Forall_nil_2.
      eapply (artifacts_of [] [] [] []); constructor.
    - done.
    - intros e s5 H5. by left. }
  intros H. pose proof (hoare_run _ _ _ _ _ _ Hrun H) as Hx. destruct x as [r|e].
  - destruct Hx as [Hr Hc]. by split.
  - destruct Hx as [[He Hc]|(-> & Hc & Hd)]; [split; [done|by left]|]. split; [rewrite Hc; constructor|]. right. split; [by right|done].
Qed.
End Experiment.

(** ** A capture, its resumption, and two failures *)

Module GemmRun.
Import GemmCapture.

Definition ready (w : ()) : () * bool := (w, true).
Definition written (w : ()) : () * Writing := (w, Written).
Definition still (w : ()) : () * float := (w, f_zero).
Definition nothing (w : ()) : () * (string → bool) := (w, λ _, false).
Definition no_size (_ : string) : Z := 0.
Definition message (e : exn) : string := match e with TimeoutExpired _ _ => "timed out" | _ => "failed" end.

(** The files the instrumented target writes. *)
Definition capture_files (dir : string) : Disk :=
  {[join dir "a.ndjson" := Regular "H1 R"; join dir "b.ndjson" := Regular "H0 R"; join dir "c.ndjson" := Regular "OTHER R";
    join dir "gemm.cubin" := Regular "ELF"]}%string.

Definition target (code : Z) (err : string) (l : TraceLaunch) : st (Machine ()) exn CompletedProcess :=
  λ m, (mkMachine (capture_files (tl_output_dir l) ∪ disk m) (env_ m), Ok (mkProcess code (Some "") (Some err))).
Definition slow_target (l : TraceLaunch) : st (Machine ()) exn CompletedProcess :=
  λ m, (mkMachine (capture_files (tl_output_dir l) ∪ disk m) (env_ m), Err (TimeoutExpired (Some "slow"%string) None)).

Definition report : ArtifactRef :=
  mkArtifactRef "file:///o/trace_analysis.json" "trace_analysis.json"
    (Some (str (sha256_hexdigest (chars "report")))) (Some 6) "application/json".
Definition evidence : TraceAnalysisEvidence :=
  mkTraceAnalysis "data_race" Succeeded [] [] 0 [] (Some report) None TRACE_ANALYSIS_SCHEMA_VERSION [] 0.
Definition analysis (_ : list string) (_ _ : string) : st (Machine ()) exn TraceAnalysisEvidence := λ m, (m, Ok evidence).
Definition broken_analysis (_ : list string) (_ _ : string) : st (Machine ()) exn TraceAnalysisEvidence :=
  λ m, (m, Err RuntimeError).
Definition keep (_ : TraceExperimentResult) : st (Machine ()) exn () := λ m, (m, Ok ()).

Definition run run_target analyse resume_from m :=
  run_trace_experiment loads read_lines (λ _, true) "/w" no_size ready written still nothing run_target analyse "data_race"
    message [] spec "/o" "/o/.attempt" "1.0" "12.8" None (Some keep) 60 None None None None true resume_from (fresh_run m).

Definition empty : Machine () := mkMachine {["/o" := Directory]}%string ().

(** The first run's analysis breaks; resumed from its checkpoint, the experiment
    completes with the same traces. *)
Example resumed :
  let first := run (target 0 "") broken_analysis None empty in
  match first.2, checkpoints first.1 with
  | Ok r, [(_, c)] =>
      match (run (target 0 "") analysis (Some c) (machine first.1)).2 with
      | Ok r' => (tr_execution_status r, tr_completeness r, relative_path <$> raw_traces r)
                 = (ExecInfraError, Partial, ["a.ndjson"; "b.ndjson"]%string)
                 ∧ (tr_execution_status r', tr_completeness r', raw_traces r') = (Succeeded, Complete, raw_traces r)
      | Err _ => False
      end
  | _, _ => False
  end.
Proof. vm_compute. done. Qed.

(** A target that fails with a blank message: the session refuses the result. *)
Example blank_failure :
  match (run (target 1 (String "010"%char "")) analysis None empty).2 with
  | Ok r => tr_execution_status r = ExecFailed ∧ validate_trace_result r = Err (Rejected "trace_result_inconsistent")
  | Err _ => False
  end.
Proof. vm_compute. done. Qed.

(** A target that runs out of time: what it captured is kept. *)
Example timed_out :
  match (run slow_target analysis None empty).2 with
  | Ok r => tr_execution_status r = ExecTimedOut ∧ (relative_path <$> raw_traces r) = ["a.ndjson"; "b.ndjson"]%string
            ∧ validate_trace_result r = Ok ()
  | Err _ => False
  end.
Proof. vm_compute. done. Qed.

End GemmRun.
