(* ===== verification/TraceAnalysis.v ===== *)
(** The deterministic analysis of captured traces: the batch half of
    src/python/cutracer/service/trace_analysis.py.

    [run_trace_analysis] analyses every trace on its own, keeps the per-file
    failures, samples the findings fairly and writes one report; it implements the
    contract a trace experiment asks of its analysis.

    The detectors (cutracer.analyze.fb) are not in the repository: [analyze] is a
    parameter, and its output has the attributes the code reads of it
    ([DeterministicAnalysisOutput], [AnalysisResult], [Finding]); so are the control
    flow of a cubin ([Cfg]) and the classification of an instruction.
    [_run_data_race_analyzer], which only calls them, is not modelled.  Other
    parameters: [dump_json], the text of a report; [exn_text] and the operating
    system, as in TraceExperiment.  Payload fields are of the types the
    instrumentation writes: offsets are integers, names are text. *)
From S2P Require Import Prelude.
From S2P Require Import PyStr.
From S2P Require Import PyDict.
From S2P Require Import PyText.
From S2P Require Import Sha256.
From S2P Require Import Json.
From S2P Require Import Contracts.
From S2P Require Import Results.
From S2P Require Import Experiments.
From S2P Require Import SessionValidation.
From S2P Require Import Paths.
From S2P Require Import Artifacts.
From S2P Require Import TraceCapture.
From S2P Require Import TraceExperiment.
From Stdlib Require Import Ascii.
From Stdlib Require String.
Local Open Scope Z_scope.

(** ** What the detectors give *)

Record Finding := mkFinding {
  fd_severity : string; fd_category : string; fd_description : string; fd_ctas : list (list Z); fd_warps : list Z;
  fd_pcs : list Z; fd_trace_indices : list Z; fd_source_locations : list (option SourceLoc)
}.

(** A detector's summary and findings. *)
Record AnalysisResult := mkAnalysisResult {
  ar_tool : string; ar_sub_component : string; ar_verdict : string; ar_severity : string; ar_description : string;
  ar_findings : list Finding
}.

Record DeterministicAnalysisOutput := mkOutput {
  ao_analyzer : string;
  detector_results : list AnalysisResult;
  ao_warnings : list string;
  ao_payload : json;
  static_instructions : dict Z (string * string);
  source_mappings : dict Z obj;
  static_context_status : string
}.

Definition MAX_COMPACT_FINDINGS : nat := 32.
Definition MAX_CAPTURE_INSTRUCTIONS : nat := 32.
Definition MAX_CAPTURE_SUMMARIES : nat := 4.

(** ** Round robin *)

(** The heads of the lists, then of what is left of them, [n] times: the rows of
    [itertools.zip_longest], without the fill. *)
Fixpoint interleave {A} (n : nat) (ls : list (list A)) : list A :=
  match n with O => [] | S n => omap head ls ++ interleave n (tail <$> ls) end.
Definition round_robin {A} (ls : list (list A)) : list A := interleave (foldr Nat.max 0%nat (length <$> ls)) ls.

(** ** What may execute: [load_trace_static_context] *)

(** The control flow of a cubin: its entry blocks, the instructions of each block,
    and the blocks that follow it. *)
Record Cfg := mkCfg {
  entry_blocks : list string; cfg_blocks : dict string (list (Z * string)); successors : dict string (list string)
}.

(** The [while pending] loop; the head of [pending] is what [pop] takes.  A block
    without successors raises. *)
Fixpoint reachable_from (fuel : nat) (next : dict string (list string)) (pending reachable : list string) : res exn (list string) :=
  match fuel, pending with
  | _, [] => Ok reachable
  | O, _ => Err RuntimeError
  | S fuel, block :: rest =>
      if bool_decide (block ∈ reachable) then reachable_from fuel next rest reachable
      else
        match dict_get next block with
        | None => Err KeyError
        | Some blocks =>
            let reachable := block :: reachable in
            reachable_from fuel next (List.filter (λ b, negb (bool_decide (b ∈ reachable))) blocks ++ rest) reachable
        end
  end.

(** Every block is entered once, and adds its successors once. *)
Definition reach_fuel (next : dict string (list string)) (pending : list string) : nat :=
  length pending + sum_list (length <$> next.*2).

(** The instructions of the blocks, [None] when an offset occurs twice. *)
Fixpoint collect_instructions (classify : string → res exn string) (l : list (Z * string)) (acc : dict Z (string * string))
    : res exn (option (dict Z (string * string))) :=
  match l with
  | [] => Ok (Some acc)
  | (pc, sass) :: rest =>
      if is_some (dict_get acc pc) then Ok None
      else kind ← classify sass; collect_instructions classify rest (dict_set acc pc (sass, kind))
  end.

(** [entry.rsplit("@", 1)[0]]: the text before the last [@]. *)
Fixpoint before_last (c : ascii) (l : list ascii) : option (list ascii) :=
  match l with
  | [] => None
  | x :: rest =>
      match before_last c rest with
      | Some b => Some (x :: b)
      | None => if bool_decide (x = c) then Some [] else None
      end
  end.
Definition scope_of (entry : string) : string := str (default (chars entry) (before_last "@"%char (chars entry))).

Definition same_blocks (l k : list string) : bool :=
  forallb (λ b, bool_decide (b ∈ k)) l && forallb (λ b, bool_decide (b ∈ l)) k.

(** [load_trace_static_context]: [loaded] is what reading the cubin gives, [decoder]
    the decoder of the architecture; any exception leaves no context. *)
Definition static_context {D} (loaded : option Cfg * string) (decoder : res exn D) (classify : D → string → res exn string)
    (kernel_name : string) : res exn (dict Z (string * string) * string) :=
  let unverified := Ok ([], "kernel_scope_unverified"%string) in
  match loaded with
  | (None, status) => Ok ([], status)
  | (Some cfg, status) =>
      match entry_blocks cfg with
      | [entry] =>
          if negb (bool_decide (scope_of entry = kernel_name)) then unverified
          else
            reachable ← reachable_from (reach_fuel (successors cfg) [entry]) (successors cfg) [entry] [];
            if negb (same_blocks reachable (cfg_blocks cfg).*1) then unverified
            else
              d ← decoder;
              instructions ← collect_instructions (classify d) (concat (cfg_blocks cfg).*2) [];
              match instructions with None => unverified | Some instructions => Ok (instructions, status) end
      | _ => unverified
      end
  end.
Definition load_trace_static_context {D} (loaded : res exn (option Cfg * string)) (decoder : res exn D)
    (classify : D → string → res exn string) (kernel_name : string) : dict Z (string * string) * string :=
  match x ← loaded; static_context x decoder classify kernel_name with
  | Ok context => context
  | Err _ => ([], "unavailable"%string)
  end.

(** ** What a capture saw: [_capture_summary] *)

(** [_sample_capture_pcs]: the requested offsets, then the others of each kind in
    turn. *)
Definition pc_le {A} (a b : Z * A) : Prop := a.1 ≤ b.1.
#[export] Instance pc_le_dec {A} : RelDecision (@pc_le A).
Proof. intros a b. unfold pc_le. apply _. Defined.

Definition has_pc {V} (d : dict Z V) (pc : Z) : bool := is_some (dict_get d pc).

Definition sample_capture_pcs (candidates : dict Z (string * string)) (observed : dict Z json) (requested : list Z) : list Z :=
  let requested_sample := take MAX_CAPTURE_INSTRUCTIONS requested in
  let others := List.filter (λ e, negb (bool_decide (e.1 ∈ requested_sample))
                                  && (negb (bool_decide (e.2.2 = "NONE")) || has_pc observed e.1))
                  (merge_sort pc_le candidates) in
  let groups : dict string (list Z) := fold_left (λ g e, dict_upd g e.2.2 (λ l, default [] l ++ [e.1])) others [] in
  requested_sample ++ take (MAX_CAPTURE_INSTRUCTIONS - length requested_sample) (round_robin groups.*2).

(** Text at most [n] long. *)
Definition clip (n : nat) (s : string) : string := str (take n (chars s)).
Definition longer (n : nat) (s : string) : bool := (n <? length (chars s))%nat.

(** [x or y] of payload values. *)
Definition json_or (a b : json) : json := if truthy a then a else b.
Definition dict_or_empty (j : option json) : option obj :=
  match j with None => Some [] | Some (JObj d) => Some d | _ => None end.
Definition text_value (j : json) : option string := match j with JStr s => Some s | _ => None end.

Definition source_mapping (o : DeterministicAnalysisOutput) (pc : Z) : obj :=
  if bool_decide (static_context_status o = "ok"%string) then default [] (dict_get (source_mappings o) pc) else [].

(** The file of an instruction: [source.get("file") or source_files.get(…) or ""]. *)
Definition source_file_of (o : DeterministicAnalysisOutput) (payload dynamic : obj) (pc : Z) : option string :=
  let direct := get (source_mapping o pc) "file" in
  if truthy direct then text_value direct
  else
    files ← (if bool_decide (static_context_status o = "ok"%string) then dict_or_empty (field payload "source_files") else Some []);
    let source_id := get dynamic "source_file" in
    name ← (match py_str source_id with Ok s => Some s | Err _ => None end);
    let found := json_or (get_or files name (JStr "")) (JStr "") in
    text_value found.

(** [_capture_instruction]: [None] when it raises. *)
Definition capture_instruction (o : DeterministicAnalysisOutput) (payload : obj) (observed : dict Z json) (pc : Z)
    (instruction : string * string) : option json :=
  let '(sass, kind) := instruction in
  dynamic ← dict_or_empty (dict_get observed pc);
  source_file ← source_file_of o payload dynamic pc;
  Some (JObj [("pc", JStr (signed_hex pc)); ("sass", JStr (clip 512 sass)); ("event_kind", JStr kind);
              ("source_file", JStr (clip 256 source_file));
              ("source_line", get_or (source_mapping o pc) "line"
                 (if bool_decide (static_context_status o = "ok"%string) then get dynamic "source_line" else JNull));
              ("static", JBool (has_pc (static_instructions o) pc)); ("observed", JBool (has_pc observed pc));
              ("text_clipped", JBool (longer 512 sass || longer 256 source_file))]%string).

(** [sorted(set(requested or []))] of a list of integers. *)
Definition number_value (j : json) : option Z :=
  match j with JInt n => Some n | JBool b => Some (if b then 1 else 0) | _ => None end.
Definition requested_pcs_of (requested : json) : option (list Z) :=
  if negb (truthy requested) then Some []
  else match requested with
       | JList l => ns ← mapM number_value l; Some (merge_sort Z.le (remove_dups ns))
       | _ => None
       end.

(** [candidates.setdefault(pc, v)]. *)
Definition set_default {V} (d : dict Z V) (pc : Z) (v : V) : dict Z V := if has_pc d pc then d else dict_set d pc v.

Definition observed_instructions (instructions : obj) : option (dict Z json) :=
  l ← mapM (λ e : string * json, pc ← int0 (chars e.1); Some (pc, e.2)) instructions; Some (dict_of l).

(** The instructions a summary can show. *)
Definition sass_of (info : json) : option string :=
  match info with JObj d => text_value (get_or d "sass" (JStr "")) | _ => None end.
Definition candidates_of (o : DeterministicAnalysisOutput) (observed : dict Z json) (requested : list Z)
    : option (dict Z (string * string)) :=
  seen ← mapM (λ e : Z * json, s ← sass_of e.2; Some (e.1, (s, "UNCLASSIFIED"%string))) observed;
  let with_observed := fold_left (λ d e, set_default d e.1 e.2) seen (static_instructions o) in
  Some (fold_left (λ d pc, set_default d pc (""%string, "UNAVAILABLE"%string)) requested with_observed).

Definition count_json {A} (l : list A) : json := JInt (Z.of_nat (length l)).
Definition omitted_json {A} (l : list A) : json := JInt (Z.of_nat (length l - MAX_CAPTURE_INSTRUCTIONS)).
Definition hex_list (l : list Z) : json := jlist (λ pc, JStr (signed_hex pc)) (take MAX_CAPTURE_INSTRUCTIONS l).

(** The notes every summary carries. *)
Definition capture_notes : json := jlist JStr
  ["Missing requested PCs were not observed; this does not prove they were not executed.";
   "Static instructions are capture-planning context, not evidence that an instruction executed.";
   "Capture selectors intersect. Omitted selector metadata means unknown, not unfiltered.";
   "A completed capture can leave individual detectors indeterminate. Missing EXIT records do not alone prove truncation."]%string.

Definition capture_selectors (metadata : obj) : obj :=
  omap (λ k, (λ v, (k, v)) <$> field metadata k)
    ["instr_categories"; "trace_instr_categories"; "trace_launch_id"; "trace_warp_mask"; "trace_pc_filter_valid"]%string.

(** [_capture_summary]: [None] when it raises; an empty one is no summary. *)
Definition capture_summary (o : DeterministicAnalysisOutput) (payload : obj) : option obj :=
  match get payload "kernel_metadata", get payload "instructions" with
  | JObj metadata, JObj instructions =>
      observed ← observed_instructions instructions;
      let requested := get metadata "trace_pc_offsets" in
      requested_pcs ← requested_pcs_of requested;
      let missing := List.filter (λ pc, negb (has_pc observed pc)) requested_pcs in
      candidates ← candidates_of o observed requested_pcs;
      let sample := sample_capture_pcs candidates observed requested_pcs in
      entries ← mapM (λ pc, instruction ← dict_get candidates pc; capture_instruction o payload observed pc instruction) sample;
      let seen := merge_sort Z.le observed.*1 in
      Some [("instrument_modes", get_or metadata "instrument_modes" (JList []));
            ("grid_launch_id", get metadata "grid_launch_id"); ("capture_selectors", JObj (capture_selectors metadata));
            ("requested_pc_offsets", match requested with JNull => JNull | _ => hex_list requested_pcs end);
            ("requested_pc_count", count_json requested_pcs); ("omitted_requested_pcs", omitted_json requested_pcs);
            ("observed_pc_offsets", hex_list seen); ("observed_pc_count", count_json seen);
            ("omitted_observed_pcs", omitted_json seen); ("missing_requested_pc_offsets", hex_list missing);
            ("missing_requested_pc_count", count_json missing); ("omitted_missing_requested_pcs", omitted_json missing);
            ("static_context_status", JStr (static_context_status o)); ("static_pc_count", count_json (static_instructions o));
            ("instructions", JList entries);
            ("omitted_instruction_count", JInt (Z.of_nat (length candidates) - Z.of_nat (length entries)));
            ("notes", capture_notes)]%string
  | _, _ => Some []
  end.

(** The payload with the summary of its capture. *)
Definition summary_unavailable : json :=
  JObj [("static_context_status", JStr "summary_unavailable"); ("notes", jlist JStr ["Capture summary unavailable; consult the lossless analysis artifact."%string])]%string.
Definition summarised_payload (o : DeterministicAnalysisOutput) (payload : obj) : obj :=
  match capture_summary o payload with
  | None => dict_set payload "capture_summary"%string summary_unavailable
  | Some [] => payload
  | Some s => dict_set payload "capture_summary"%string (JObj s)
  end.

Section Analysis.
Context {W : Type}.
Notation M := (st (Machine W) exn).
Variable cwd : string.
Variable entry_size : string → Z.
Variable os_step : W → W * bool.
Variable exn_text : exn → string.
Variable dump_json : json → res exn string.

(** ** Projecting what a detector says *)

(** [TraceAnalysisSeverity(value)]. *)
Definition severity_of (value : string) : res exn TraceAnalysisSeverity :=
  or_value_error (field TraceAnalysisSeverity_values value).

(** [_summary] and [_finding]; the dataclasses check their fields. *)
Definition summary_of (r : AnalysisResult) (trace_file : string) : res exn TraceDetectorSummary :=
  sev ← severity_of (ar_severity r);
  let s := mkDetector (ar_tool r) (ar_sub_component r) (ar_verdict r) sev (Z.of_nat (length (ar_findings r)))
             (ar_description r) (Some trace_file) in
  _ ← TraceDetectorSummary_check s; Ok s.

Definition finding_of (r : AnalysisResult) (f : Finding) (trace_file : string) : res exn TraceAnalysisFinding :=
  sev ← severity_of (fd_severity f);
  let x := mkTraceFinding (ar_tool r) (ar_sub_component r) sev (fd_category f) (fd_description f) (fd_ctas f) (fd_warps f)
             (signed_hex <$> fd_pcs f) (fd_trace_indices f) (fd_source_locations f) (Some trace_file) in
  _ ← TraceAnalysisFinding_check x; Ok x.

(** ** [_sample_findings] *)

Notation Group := (AnalysisResult * string)%type.

(** One iterator: the place of its detector, the detector, its trace, and the
    findings left. *)
Record Cursor := mkCursor { cu_index : nat; cu_result : AnalysisResult; cu_trace : string; cu_left : list Finding }.

Definition finding_error (c : Cursor) (e : exn) : string :=
  (cu_trace c +:+ ": detector " +:+ pretty (cu_index c) +:+ " finding: " +:+ exn_text e)%string.

(** Taking a finding: it is sampled, or its error is kept while there are few. *)
Definition take_finding (c : Cursor) (f : Finding) (acc : list TraceAnalysisFinding * list string)
    : list TraceAnalysisFinding * list string :=
  let '(sampled, errors) := acc in
  match finding_of (cu_result c) f (cu_trace c) with
  | Ok x => (sampled ++ [x], errors)
  | Err e => (sampled, if (length errors <? MAX_COMPACT_FINDINGS)%nat then errors ++ [finding_error c e] else errors)
  end.

(** One pass of the [for] loop, which stops when the sample is full. *)
Fixpoint sample_pass (max : nat) (cursors : list Cursor) (acc : list TraceAnalysisFinding * list string) (progress : bool)
    : list Cursor * (list TraceAnalysisFinding * list string) * bool :=
  match cursors with
  | [] => ([], acc, progress)
  | c :: rest =>
      if (length acc.1 =? max)%nat then (cursors, acc, progress)
      else
        match cu_left c with
        | [] => let '(rest', acc', p) := sample_pass max rest acc progress in (c :: rest', acc', p)
        | f :: remaining =>
            let '(rest', acc', p) := sample_pass max rest (take_finding c f acc) true in
            (mkCursor (cu_index c) (cu_result c) (cu_trace c) remaining :: rest', acc', p)
        end
  end.

(** The [while] loop; every pass but the last takes a finding. *)
Fixpoint sample_loop (fuel max : nat) (cursors : list Cursor) (acc : list TraceAnalysisFinding * list string)
    : list TraceAnalysisFinding * list string :=
  match fuel with
  | O => acc
  | S fuel =>
      if (length acc.1 <? max)%nat then
        let '(cursors', acc', progress) := sample_pass max cursors acc false in
        if progress then sample_loop fuel max cursors' acc' else acc'
      else acc
  end.

Definition cursors_of (groups : list Group) : list Cursor :=
  imap (λ i g, mkCursor i g.1 g.2 (ar_findings g.1)) groups.
Definition sample_fuel (cursors : list Cursor) : nat := S (sum_list (length ∘ cu_left <$> cursors)).
Definition sample_findings (groups : list Group) (max : nat) : list TraceAnalysisFinding * list string :=
  sample_loop (sample_fuel (cursors_of groups)) max (cursors_of groups) ([], []).

(** [_analyzer_name] of an analyzer: its [__name__] when that is a text, and the name
    of its type. *)
Definition analyzer_name (declared : option string) (type_name : string) : string :=
  let normalized := str (strip (chars (default "" declared)))%string in
  if bool_decide (normalized ≠ ""%string) then normalized
  else
    let type_name := str (strip (chars type_name)) in
    if bool_decide (type_name ≠ ""%string) then type_name else "trace_analyzer"%string.

(** ** One trace *)

(** [_TraceProjection]. *)
Record TraceProjection := mkProjection {
  tp_analyzer : string; analyzer_confirmed : bool; tp_summaries : list TraceDetectorSummary; tp_groups : list Group;
  tp_total : Z; tp_warnings : list string; tp_payload : option obj; tp_error : option string
}.

(** [_project_trace_detectors]: summaries, groups, findings and errors, detector by
    detector. *)
Fixpoint project_trace_detectors (index : nat) (results : list AnalysisResult) (trace_file : string)
    : list TraceDetectorSummary * list Group * Z * list string :=
  match results with
  | [] => ([], [], 0, [])
  | r :: rest =>
      let '(summaries, groups, total, errors) := project_trace_detectors (S index) rest trace_file in
      match summary_of r trace_file with
      | Ok s => (s :: summaries, (r, trace_file) :: groups, Z.of_nat (length (ar_findings r)) + total, errors)
      | Err e => (summaries, groups, total, ("detector " +:+ pretty index +:+ " summary: " +:+ exn_text e)%string :: errors)
      end
  end.

Definition join_errors (errors : list string) : string := str (join_text (chars "; ") (chars <$> errors)).

(** The projection of an output whose analyzer is confirmed. *)
Definition project_output (o : DeterministicAnalysisOutput) (name : string) (trace_file : string) : TraceProjection :=
  match ao_payload o with
  | JObj payload =>
      let '(summaries, groups, total, errors) := project_trace_detectors 0 (detector_results o) trace_file in
      mkProjection name true summaries groups total (ao_warnings o ++ errors) (Some (summarised_payload o payload))
        (match errors with [] => None | _ => Some ("detector projection failed: " +:+ join_errors errors)%string end)
  | _ => mkProjection name true [] [] 0 (ao_warnings o) None (Some (exn_text ValueError))
  end.

Definition failed_projection (o : option DeterministicAnalysisOutput) (name : string) (e : exn) : TraceProjection :=
  mkProjection name false [] [] 0 (match o with Some x => ao_warnings x | None => [] end)
    (match o with Some x => match ao_payload x with JObj p => Some p | _ => None end | None => None end) (Some (exn_text e)).

(** [_analyze_trace_file]; every exception becomes a failed projection. *)
Definition judge_output (o : DeterministicAnalysisOutput) (expected : option string) (fallback trace_file : string)
    : TraceProjection :=
  let name := str (strip (chars (ao_analyzer o))) in
  let known := default fallback expected in
  if bool_decide (name = "") then failed_projection (Some o) known ValueError
  else if match expected with Some x => negb (bool_decide (name = x)) | None => false end
  then failed_projection (Some o) name ValueError
  else project_output o name trace_file.

Definition analyze_trace_file (analyze : string → M DeterministicAnalysisOutput) (path trace_file : string)
    (expected : option string) (fallback : string) : M TraceProjection := λ m,
  match analyze path m with
  | (m', Ok o) => (m', Ok (judge_output o expected fallback trace_file))
  | (m', Err e) => (m', Ok (failed_projection None (default fallback expected) e))
  end.

(** ** The batch *)

(** [_trace_result] of the report. *)
Definition trace_result_of (trace_file : string) (p : TraceProjection) : json :=
  JObj [("trace_file", JStr trace_file);
        ("execution_status", to_json (match tp_error p with Some _ => ExecInfraError | None => Succeeded end));
        ("analyzer", JStr (tp_analyzer p)); ("detector_summaries", jlist to_json (tp_summaries p));
        ("total_findings", JInt (tp_total p)); ("warnings", jlist JStr (tp_warnings p));
        ("payload", jopt JObj (tp_payload p)); ("error", jopt JStr (tp_error p))]%string.

(** [_TraceBatchProjection]; [b_results] keeps each trace's name and projection. *)
Record Batch := mkBatch {
  b_analyzer : option string; b_summaries : list TraceDetectorSummary; b_groups : list Group; b_total : Z;
  b_warnings : list string; b_failures : list string; b_results : list (string * TraceProjection)
}.
Definition empty_batch : Batch := mkBatch None [] [] 0 [] [] [].

Definition add_projection (b : Batch) (trace_file : string) (p : TraceProjection) : Batch :=
  mkBatch (match b_analyzer b with
           | Some x => Some x
           | None => if analyzer_confirmed p then Some (tp_analyzer p) else None
           end)
    (b_summaries b ++ tp_summaries p) (b_groups b ++ tp_groups p) (b_total b + tp_total p)
    (b_warnings b ++ ((λ w, trace_file +:+ ": " +:+ w)%string <$> tp_warnings p))
    (b_failures b ++ match tp_error p with Some e => [(trace_file +:+ ": " +:+ e)%string] | None => [] end)
    (b_results b ++ [(trace_file, p)]).

(** [_analyze_trace_files]. *)
Fixpoint analyze_trace_files (analyze : string → M DeterministicAnalysisOutput) (fallback : string) (b : Batch)
    (traces : list (string * string)) : M Batch :=
  match traces with
  | [] => mret b
  | (path, trace_file) :: rest =>
      p ← analyze_trace_file analyze path trace_file (b_analyzer b) fallback;
      analyze_trace_files analyze fallback (add_projection b trace_file p) rest
  end.

(** ** The report *)

Definition count_failed (results : list (string * TraceProjection)) : nat :=
  length (List.filter (λ r, is_some (tp_error r.2)) results).

Definition batch_report (b : Batch) (name : string) (traces : nat) : json :=
  JObj [("schema_version", JInt 1); ("analyzer", JStr name);
        ("summary", JObj [("total_findings", JInt (b_total b)); ("trace_count", JInt (Z.of_nat traces));
                          ("analyzed_trace_count", JInt (Z.of_nat traces - Z.of_nat (count_failed (b_results b))));
                          ("failed_trace_count", JInt (Z.of_nat (count_failed (b_results b))))]);
        ("trace_results", JList ((λ r, trace_result_of r.1 r.2) <$> b_results b))]%string.

(** The capture summaries of the evidence: [{"trace_file": …, **summary}]. *)
Definition payload_summary (p : TraceProjection) : option json :=
  match tp_payload p with
  | None => None
  | Some payload => let s := get payload "capture_summary" in if truthy s then Some s else None
  end.
Definition capture_entry (trace_file : string) (summary : json) : res exn obj :=
  match summary with
  | JObj d => Ok (fold_left (λ e x, dict_set e x.1 x.2) d [("trace_file", JStr trace_file)]%string)
  | _ => Err TypeError
  end.
Definition capture_entries (results : list (string * TraceProjection)) : res exn (list obj) :=
  mapM (λ r : string * json, capture_entry r.1 r.2)
    (omap (λ r : string * TraceProjection, (λ s, (r.1, s)) <$> payload_summary r.2) results).

(** [_atomic_write_json]: the report is in place, or the disk is as before. *)
Definition step_or_os_error : M () := step_or_raise os_step OSError.
Definition atomic_write_json (path : string) (payload : json) : M () :=
  _ ← step_or_os_error;
  text ← st_lift (dump_json payload);
  _ ← step_or_os_error;
  m ← st_get;
  if is_dir (disk m) (abspath cwd path) then st_raise OSError
  else st_modify (λ m, mkMachine (<[abspath cwd path := Regular text]> (disk m)) (env_ m)).

Definition is_write_error (e : exn) : bool := match e with OSError | TypeError | ValueError => true | _ => false end.

(** The artifact of the report, or the error that kept it from being written. *)
Definition write_report (path : string) (payload : json) : M (ArtifactRef + exn) := λ m,
  let write := (_ ← atomic_write_json path payload;
                m ← st_get;
                st_lift (local_artifact cwd entry_size (disk m) path "application/json" true)) : M ArtifactRef in
  match write m with
  | (m', Ok a) => (m', Ok (inl a))
  | (m', Err e) => if is_write_error e then (m', Ok (inr e)) else (m', Err e)
  end.

Definition checked_evidence (t : TraceAnalysisEvidence) : M TraceAnalysisEvidence :=
  _ ← st_lift (TraceAnalysisEvidence_check t); mret t.

(** The evidence of a single trace that gave no report. *)
Definition singleton_failure (b : Batch) (name : string) (compact : list TraceAnalysisFinding) (warnings failures : list string)
    : TraceAnalysisEvidence :=
  mkTraceAnalysis name ExecInfraError (b_summaries b) compact (b_total b) warnings None
    (Some ("deterministic trace analysis failed: " +:+ default "analyzer returned no report payload" (head failures))%string)
    TRACE_ANALYSIS_SCHEMA_VERSION [] 0.

Definition failures_error (failures : list string) : option string :=
  match failures with
  | [] => None
  | _ => Some ("deterministic trace analysis failed for " +:+ pretty (length failures) +:+ " trace(s): " +:+ join_errors failures)%string
  end.

(** The single trace's payload is the report; several traces get one of their own. *)
Definition report_payload (b : Batch) (name : string) (traces : nat) : option json :=
  match traces, b_results b with
  | 1%nat, [(_, p)] => JObj <$> tp_payload p
  | 1%nat, _ => None
  | _, _ => Some (batch_report b name traces)
  end.

(** [_finish_trace_analysis]. *)
Definition finish_trace_analysis (b : Batch) (traces : nat) (fallback : string) (max_findings : nat) (out_dir : string)
    : M TraceAnalysisEvidence :=
  let name := default fallback (b_analyzer b) in
  let '(compact, finding_errors) := sample_findings (b_groups b) max_findings in
  let failures := b_failures b ++ match finding_errors with
                                  | [] => []
                                  | _ => [("compact finding projection: " +:+ join_errors finding_errors)%string]
                                  end in
  let warnings := b_warnings b ++ finding_errors in
  match report_payload b name traces with
  | None => checked_evidence (singleton_failure b name compact warnings failures)
  | Some payload =>
      r ← write_report (join out_dir "trace_analysis.json") payload;
      let '(artifact, status, error) :=
        match r with
        | inl a => (Some a, match failures with [] => Succeeded | _ => ExecInfraError end, failures_error failures)
        | inr e =>
            let persistence_error := ("could not persist deterministic trace analysis: " +:+ exn_text e)%string in
            (None, ExecInfraError,
             Some match failures_error failures with
                  | None => persistence_error
                  | Some x => (x +:+ "; " +:+ persistence_error)%string
                  end)
        end in
      entries ← st_lift (capture_entries (b_results b));
      checked_evidence (mkTraceAnalysis name status (b_summaries b) compact (b_total b) warnings artifact error
        TRACE_ANALYSIS_SCHEMA_VERSION (take MAX_CAPTURE_SUMMARIES entries)
        (Z.of_nat (length entries - MAX_CAPTURE_SUMMARIES)))
  end.

(** [_trace_file_labels]: the names, or the paths below the common directory when
    two traces share a name. *)
Definition common_root (paths : list string) : list (list ascii) :=
  match path_components ∘ dirname <$> paths with
  | [] => []
  | c :: rest => fold_left common_prefix rest c
  end.
Definition trace_file_labels (paths : list string) : list string :=
  let names := basename <$> paths in
  if bool_decide (NoDup names) then names
  else (λ p, str (join_text [slash] (drop (length (common_root paths)) (path_components p)))) <$> paths.

(** [run_trace_analysis]. *)
Definition no_traces (fallback : string) : TraceAnalysisEvidence :=
  mkTraceAnalysis fallback ExecInfraError [] [] 0 [] None
    (Some "deterministic trace analysis requires at least one trace"%string) TRACE_ANALYSIS_SCHEMA_VERSION [] 0.

Definition run_trace_analysis (analyze : string → option string → M DeterministicAnalysisOutput) (fallback : string)
    (max_findings : Z) (raw_paths : list string) (arch out_dir : string) : M TraceAnalysisEvidence :=
  if max_findings <? 0 then st_raise ValueError else
  let paths := sorted_paths (abspath cwd <$> raw_paths) in
  match paths with
  | [] => checked_evidence (no_traces fallback)
  | _ =>
      b ← analyze_trace_files (λ path, analyze path (text_or_none arch)) fallback empty_batch
            (zip paths (trace_file_labels paths));
      finish_trace_analysis b (length paths) fallback (Z.to_nat max_findings) out_dir
  end.
End Analysis.
