(* ===== verification/TraceAnalysisProperties.v ===== *)
(** What the batch analysis of traces guarantees: it keeps the contract of
    TraceExperimentProperties, so a trace experiment composed with it is accepted by
    the session; what it reports is what the analyzer and the detectors gave, trace
    by trace; its sample of findings is the round robin of the detectors' findings;
    its static context is that of one kernel. *)
From S2P Require Import Prelude.
From S2P Require Import PyStr.
From S2P Require Import PyDict.
From S2P Require Import PyText.
From S2P Require Import Query.
From S2P Require Import Sha256.
From S2P Require Import Json.
From S2P Require Import Contracts.
From S2P Require Import Results.
From S2P Require Import Experiments.
From S2P Require Import SessionValidation.
From S2P Require Import Paths.
From S2P Require Import Artifacts.
From S2P Require Import TraceCapture.
From S2P Require Import TraceExperiment.
From S2P Require Import TraceAnalysis.
From S2P Require Import Hoare.
From S2P Require Import TraceExperimentProperties.
From Stdlib Require Import Ascii.
From Stdlib Require String.
Local Open Scope Z_scope.

(** ** Round robin *)

Lemma heads_and_tails {A} (ls : list (list A)) : omap head ls ++ concat (tail <$> ls) ≡ₚ concat ls.
Proof.
  induction ls as [|[|a l] ls IH]; [done|exact IH|]. cbn. f_equiv. rewrite <- IH, !app_assoc.
  apply Permutation_app_tail, Permutation_app_comm.
Qed.

Lemma interleave_Permutation {A} n (ls : list (list A)) :
  Forall (λ l, length l ≤ n)%nat ls → interleave n ls ≡ₚ concat ls.
Proof.
  revert ls. induction n as [|n IH]; intros ls Hn; cbn.
  - induction Hn as [|[|a l] ls Hl _ IHl]; [done|exact IHl|cbn in Hl; lia].
  - rewrite IH; [apply heads_and_tails|]. apply Forall_fmap. eapply Forall_impl; [exact Hn|]. intros [|a l] H; cbn in *; lia.
Qed.

Lemma lengths_bounded {A} (ls : list (list A)) : Forall (λ l, length l ≤ foldr Nat.max 0 (length <$> ls))%nat ls.
Proof.
  induction ls as [|l ls IH]; [constructor|]. constructor; cbn; [lia|]. eapply Forall_impl; [exact IH|]. intros k H. cbn in *. lia.
Qed.

(** Nothing is lost or repeated. *)
Lemma round_robin_Permutation {A} (ls : list (list A)) : round_robin ls ≡ₚ concat ls.
Proof. apply interleave_Permutation, lengths_bounded. Qed.

(** ** Sampling *)

Section Sampling.
Variable exn_text : exn → string.
Notation take_finding := (take_finding exn_text).
Notation sample_pass := (sample_pass exn_text).
Notation sample_loop := (sample_loop exn_text).
Notation sample_findings := (sample_findings exn_text).
Notation Sample := (list TraceAnalysisFinding * list string)%type.

(** A cursor with a finding of it. *)
Definition labelled (c : Cursor) : list (Cursor * Finding) :=
  (λ f, (mkCursor (cu_index c) (cu_result c) (cu_trace c) [], f)) <$> cu_left c.

Lemma labelled_nil c : cu_left c = [] → labelled c = [].
Proof. unfold labelled. by intros ->. Qed.
Lemma labelled_cons c f rest : cu_left c = f :: rest →
  labelled c = (mkCursor (cu_index c) (cu_result c) (cu_trace c) [], f)
               :: labelled (mkCursor (cu_index c) (cu_result c) (cu_trace c) rest).
Proof. unfold labelled. by intros ->. Qed.

(** Taking findings in order until the sample is full. *)
Fixpoint consume (max : nat) (items : list (Cursor * Finding)) (acc : Sample) : Sample :=
  match items with
  | [] => acc
  | (c, f) :: rest => if (length acc.1 =? max)%nat then acc else consume max rest (take_finding c f acc)
  end.

Lemma consume_full max items acc : length acc.1 = max → consume max items acc = acc.
Proof. intros <-. destruct items as [|[c f] rest]; [done|]. cbn. by rewrite Nat.eqb_refl. Qed.

Lemma consume_app max l k acc : consume max (l ++ k) acc = consume max k (consume max l acc).
Proof.
  revert acc. induction l as [|[c f] l IH]; intros acc; [done|]. cbn.
  destruct (Nat.eqb_spec (length acc.1) max) as [E|E]; [by rewrite consume_full|apply IH].
Qed.

Lemma take_finding_grows c f acc : (length (take_finding c f acc).1 ≤ S (length acc.1))%nat.
Proof.
  destruct acc as [s e]. unfold TraceAnalysis.take_finding.
  destruct (finding_of _ _ _); cbn; rewrite ?length_app; cbn; lia.
Qed.

Lemma consume_bounded max items acc : (length acc.1 ≤ max)%nat → (length (consume max items acc).1 ≤ max)%nat.
Proof.
  revert acc. induction items as [|[c f] items IH]; intros acc H; [done|]. cbn.
  destruct (Nat.eqb_spec (length acc.1) max) as [E|E]; [done|]. apply IH. pose proof (take_finding_grows c f acc). lia.
Qed.

(** One pass takes the heads; unless the sample is full, every cursor advances. *)
Lemma sample_pass_spec max cursors acc p cursors' acc' p' : (length acc.1 ≤ max)%nat →
  sample_pass max cursors acc p = (cursors', acc', p') →
  acc' = consume max (omap head (labelled <$> cursors)) acc
  ∧ (length acc'.1 = max ∨ labelled <$> cursors' = tail <$> (labelled <$> cursors)
       ∧ p' = p || negb (bool_decide (omap head (labelled <$> cursors) = []))).
Proof.
  revert acc p cursors' acc' p'. induction cursors as [|c cs IH]; intros acc p cursors' acc' p' Hacc; cbn [TraceAnalysis.sample_pass].
  { intros [= <- <- <-]. split; [done|]. right. split; [done|]. cbn. by rewrite orb_false_r. }
  destruct (Nat.eqb_spec (length acc.1) max) as [E|E].
  { intros [= <- <- <-]. rewrite consume_full by done. split; [done|by left]. }
  destruct (cu_left c) as [|f rest] eqn:El.
  - destruct (sample_pass max cs acc p) as [[cs' a'] q] eqn:Ep. intros [= <- <- <-].
    apply IH in Ep as [Ha Hr]; [|done]. rewrite fmap_cons, (labelled_nil c El). cbn. split; [done|].
    destruct Hr as [Hf|[Hl Hq]]; [by left|right]. split; [|done]. rewrite (labelled_nil c El). cbn. by f_equal.
  - destruct (sample_pass max cs (take_finding c f acc) true) as [[cs' a'] q] eqn:Ep. intros [= <- <- <-].
    apply IH in Ep as [Ha Hr]; [|pose proof (take_finding_grows c f acc); lia].
    rewrite fmap_cons, (labelled_cons c f rest El). cbn. rewrite (proj2 (Nat.eqb_neq _ _) E). split; [done|].
    destruct Hr as [Hf|[Hl Hq]]; [by left|right]. split; [by f_equal|]. rewrite Hq. by rewrite orb_true_r.
Qed.

Definition left_of (cursors : list Cursor) : nat := length (concat (labelled <$> cursors)).

Lemma no_heads {A} (ls : list (list A)) : omap head ls = [] → concat ls = [].
Proof. induction ls as [|[|a l] ls IH]; cbn; [done|exact IH|done]. Qed.

Lemma sample_loop_spec fuel max cursors acc n : (length acc.1 ≤ max)%nat → (left_of cursors < fuel)%nat →
  Forall (λ l, length l ≤ n)%nat (labelled <$> cursors) →
  sample_loop fuel max cursors acc = consume max (interleave n (labelled <$> cursors)) acc.
Proof.
  revert cursors acc n. induction fuel as [|fuel IH]; intros cursors acc n Hacc Hfuel Hn; [lia|]. cbn [TraceAnalysis.sample_loop].
  destruct (Nat.ltb_spec (length acc.1) max) as [E|E]; [|rewrite consume_full by lia; done].
  destruct (sample_pass max cursors acc false) as [[cs' acc'] p] eqn:Ep.
  apply sample_pass_spec in Ep as [Ha Hr]; [|done].
  assert (Hacc' : (length acc'.1 ≤ max)%nat) by (rewrite Ha; by apply consume_bounded).
  pose proof (heads_and_tails (labelled <$> cursors)) as Hperm. apply Permutation_length in Hperm. rewrite length_app in Hperm.
  set (heads := omap head (labelled <$> cursors)) in *.
  assert (Hcases : heads = [] ∨ ∃ k, n = S k).
  { destruct n as [|k]; [left|by right; eexists]. subst heads. clear -Hn.
    induction (labelled <$> cursors) as [|[|x l] ls IHl]; [done| |]; apply Forall_cons in Hn as [Hx Hn]; [exact (IHl Hn)|cbn in Hx; lia]. }
  assert (Hfull : length acc'.1 = max → sample_loop fuel max cs' acc' = acc').
  { intros Hf. destruct fuel; [done|]. cbn [TraceAnalysis.sample_loop]. by rewrite (proj2 (Nat.ltb_ge _ _)) by lia. }
  destruct Hcases as [Hh|[k ->]].
  - assert (Hnil : interleave n (labelled <$> cursors) = []).
    { apply Permutation_nil_r. rewrite interleave_Permutation by done. by rewrite no_heads. }
    rewrite Hnil. rewrite Hh in Ha. cbn in Ha. subst acc'. destruct Hr as [Hf|[_ ->]]; [lia|]. by rewrite Hh.
  - cbn. fold heads. rewrite consume_app, <- Ha. destruct Hr as [Hf|[Hl ->]].
    + rewrite (consume_full max _ acc' Hf). destruct p; [by apply Hfull|done].
    + destruct (bool_decide_reflect (heads = [])) as [Hh|Hh]; cbn.
      * rewrite Hh in Ha. cbn in Ha. rewrite <- Hl.
        assert (Hnil : interleave k (labelled <$> cs') = []); [|by rewrite Hnil].
        apply Permutation_nil_r. rewrite Hl, interleave_Permutation.
        -- rewrite Hh in Hperm. subst heads. apply no_heads in Hh. rewrite Hh in Hperm. cbn in Hperm.
           by apply length_zero_iff_nil in Hperm as ->.
        -- apply Forall_fmap. eapply Forall_impl; [exact Hn|]. intros [|a l] H; cbn in *; lia.
      * rewrite <- Hl. apply IH; [done| |].
        -- unfold left_of in *. rewrite Hl. destruct heads; [done|]. cbn in Hperm. lia.
        -- rewrite Hl. apply Forall_fmap. eapply Forall_impl; [exact Hn|]. intros [|a l] H; cbn in *; lia.
Qed.

(** What a sampled finding becomes. *)
Definition projected (i : Cursor * Finding) : option TraceAnalysisFinding :=
  match finding_of (cu_result i.1) i.2 (cu_trace i.1) with Ok x => Some x | Err _ => None end.

Lemma consume_sampled max items acc : (length acc.1 ≤ max)%nat →
  (consume max items acc).1 = acc.1 ++ take (max - length acc.1) (omap projected items).
Proof.
  revert acc. induction items as [|[c f] items IH]; intros acc H; cbn.
  { by rewrite take_nil, app_nil_r. }
  destruct (Nat.eqb_spec (length acc.1) max) as [E|E]; [by rewrite E, Nat.sub_diag, app_nil_r|].
  assert (Hs : (length (take_finding c f acc).1 ≤ max)%nat) by (pose proof (take_finding_grows c f acc); lia).
  rewrite IH by done. clear IH. destruct acc as [s e]. unfold TraceAnalysis.take_finding, projected in *. cbn [fst snd] in *.
  destruct (finding_of (cu_result c) f (cu_trace c)) as [x|x]; cbn [fst snd] in *; [|done].
  rewrite length_app, <- app_assoc. f_equal. cbn [length]. replace (max - length s)%nat with (S (max - (length s + 1))) by lia. done.
Qed.

(** All the findings of the detectors, one of each in turn. *)
Definition in_turn (groups : list (AnalysisResult * string)) : list (AnalysisResult * string * Finding) :=
  round_robin ((λ g, (λ f, (g, f)) <$> ar_findings g.1) <$> groups).
Definition finding_projection (x : AnalysisResult * string * Finding) : option TraceAnalysisFinding :=
  match finding_of x.1.1 x.2 x.1.2 with Ok f => Some f | Err _ => None end.

Definition uncursor (i : Cursor * Finding) : AnalysisResult * string * Finding := ((cu_result i.1, cu_trace i.1), i.2).

Lemma interleave_fmap {A B} (f : A → B) n (ls : list (list A)) : interleave n (fmap (M:=list) f <$> ls) = f <$> interleave n ls.
Proof.
  revert ls. induction n as [|n IH]; intros ls; [done|]. cbn. rewrite fmap_app, <- IH. f_equal.
  - induction ls as [|[|a l] ls IHl]; [done|exact IHl|]. cbn. by f_equal.
  - f_equal. induction ls as [|[|a l] ls IHl]; [done| |]; cbn; by f_equal.
Qed.

Lemma round_robin_fmap {A B} (f : A → B) (ls : list (list A)) : round_robin (fmap (M:=list) f <$> ls) = f <$> round_robin ls.
Proof.
  unfold round_robin. rewrite <- list_fmap_compose, interleave_fmap.
  by rewrite (list_fmap_ext (length ∘ fmap (M:=list) f) length ls) by (intros; apply length_fmap).
Qed.

Lemma cursors_labelled groups :
  fmap (M:=list) uncursor <$> (labelled <$> cursors_of groups) = (λ g, (λ f, (g, f)) <$> ar_findings g.1) <$> groups.
Proof.
  unfold cursors_of. apply list_eq. intros i. rewrite !list_lookup_fmap, list_lookup_imap.
  destruct (groups !! i) as [[r t]|]; [|done]. cbn. f_equal. unfold labelled. cbn. by rewrite <- list_fmap_compose.
Qed.

Lemma projected_uncursor i : projected i = finding_projection (uncursor i).
Proof. done. Qed.

Lemma omap_fmap_compose {A B C} (f : A → B) (g : B → option C) (l : list A) : omap g (f <$> l) = omap (g ∘ f) l.
Proof. induction l as [|a l IH]; [done|]. cbn. by rewrite IH. Qed.

(** The loop takes the findings in turn until the sample is full. *)
Lemma sample_findings_consume groups max :
  sample_findings groups max = consume max (round_robin (labelled <$> cursors_of groups)) ([], []).
Proof.
  unfold TraceAnalysis.sample_findings. set (cs := cursors_of groups).
  rewrite (sample_loop_spec _ max cs ([], []) (foldr Nat.max 0 (length <$> (labelled <$> cs)))%nat); [done|cbn; lia| |].
  - unfold sample_fuel, left_of. rewrite length_concat, <- list_fmap_compose.
    rewrite (list_fmap_ext (length ∘ labelled) (length ∘ cu_left) cs); [apply Nat.lt_succ_diag_r|].
    intros i c _. unfold labelled. cbn. by rewrite length_fmap.
  - apply lengths_bounded.
Qed.

Lemma sampled_findings groups max :
  (sample_findings groups max).1 = take max (omap finding_projection (in_turn groups)).
Proof.
  rewrite sample_findings_consume, consume_sampled by (cbn; lia). cbn [fst app length]. rewrite Nat.sub_0_r. f_equal.
  unfold in_turn. by rewrite <- cursors_labelled, round_robin_fmap, omap_fmap_compose.
Qed.
End Sampling.

(** A sample without errors is as large as it may be. *)
Section Complete.
Variable exn_text : exn → string.

Lemma take_finding_errors c f acc : (take_finding exn_text c f acc).2 = [] →
  acc.2 = [] ∧ length (take_finding exn_text c f acc).1 = S (length acc.1).
Proof.
  destruct acc as [s e]. unfold take_finding. destruct (finding_of _ _ _); cbn [fst snd].
  - intros ->. rewrite length_app. cbn. split; [done|lia].
  - destruct (Nat.ltb_spec (length e) MAX_COMPACT_FINDINGS) as [E|E]; [intros H; by destruct e|]. intros ->. cbn in E. unfold MAX_COMPACT_FINDINGS in E. lia.
Qed.

Lemma consume_errors max items acc : (length acc.1 ≤ max)%nat → (consume exn_text max items acc).2 = [] →
  acc.2 = [] ∧ length (consume exn_text max items acc).1 = Nat.min max (length acc.1 + length items).
Proof.
  revert acc. induction items as [|[c f] items IH]; intros acc H; cbn.
  { intros ->. split; [done|]. lia. }
  destruct (Nat.eqb_spec (length acc.1) max) as [E|E]; [intros ->; split; [done|lia]|].
  assert (Hs : (length (take_finding exn_text c f acc).1 ≤ max)%nat) by (pose proof (take_finding_grows exn_text c f acc); lia).
  intros He. apply IH in He as [He Hl]; [|done]. apply take_finding_errors in He as [He Hl']. split; [done|]. rewrite Hl. lia.
Qed.

(** The findings of all detectors. *)
Definition count_findings (groups : list (AnalysisResult * string)) : nat := sum_list ((λ g, length (ar_findings g.1)) <$> groups).

Lemma count_findings_cons g groups : count_findings (g :: groups) = (length (ar_findings g.1) + count_findings groups)%nat.
Proof. done. Qed.
Lemma count_findings_app l k : count_findings (l ++ k) = (count_findings l + count_findings k)%nat.
Proof. induction l as [|g l IH]; [done|]. cbn [app]. rewrite !count_findings_cons, IH. lia. Qed.

Lemma length_in_turn groups : length (in_turn groups) = count_findings groups.
Proof.
  unfold in_turn, count_findings. rewrite round_robin_Permutation, length_concat, <- list_fmap_compose. f_equal.
  apply list_fmap_ext. intros i [r t] _. cbn. by rewrite length_fmap.
Qed.

Lemma length_omap_le {A B} (f : A → option B) l : (length (omap f l) ≤ length l)%nat.
Proof. induction l as [|a l IH]; [done|]. cbn. destruct (f a); cbn; lia. Qed.

Lemma sample_no_larger groups max : (length (sample_findings exn_text groups max).1 ≤ count_findings groups)%nat.
Proof.
  rewrite sampled_findings, length_take. pose proof (length_omap_le finding_projection (in_turn groups)).
  rewrite length_in_turn in *. lia.
Qed.

Lemma complete_sample groups max : (sample_findings exn_text groups max).2 = [] →
  length (sample_findings exn_text groups max).1 = Nat.min max (count_findings groups).
Proof.
  rewrite sample_findings_consume. intros H. apply consume_errors in H as [_ H]; [|cbn; lia].
  rewrite H. cbn. f_equal. rewrite <- length_in_turn. unfold in_turn.
  by rewrite <- cursors_labelled, round_robin_fmap, length_fmap.
Qed.

Lemma sampled_traces groups max x : x ∈ (sample_findings exn_text groups max).1 →
  ∃ g, g ∈ groups ∧ tf_trace_file x = Some g.2.
Proof.
  rewrite sampled_findings. intros H. apply elem_of_take in H as (i & H%list_elem_of_lookup_2 & _).
  apply list_elem_of_omap in H as ([g f] & Hin & Hx). unfold in_turn in Hin. rewrite round_robin_Permutation in Hin.
  apply list_elem_of_In, in_concat in Hin as (l & Hl%list_elem_of_In & Hin%list_elem_of_In). 
  apply list_elem_of_fmap in Hl as (g' & -> & Hg). apply list_elem_of_fmap in Hin as (f' & [= -> ->] & _).
  exists g'. split; [done|]. unfold finding_projection, finding_of in Hx. cbn in Hx.
  destruct (severity_of _) as [s|]; [|done]. cbn in Hx. destruct (TraceAnalysisFinding_check _); [|done]. by injection Hx as <-.
Qed.
End Complete.

#[global] Arguments count_findings : simpl never.

(** ** One trace *)

Section Batch.
Variable exn_text : exn → string.

Lemma strip_not_blank s : str (strip (chars s)) ≠ ""%string → blank (str (strip (chars s))) = false.
Proof.
  intros H. apply bool_decide_eq_false. rewrite chars_str, strip_idem. intros E. apply H. by rewrite E.
Qed.

Lemma analyzer_name_named declared type_name : blank (analyzer_name declared type_name) = false.
Proof.
  unfold analyzer_name. case_bool_decide; [by apply strip_not_blank|]. case_bool_decide; [by apply strip_not_blank|done].
Qed.

(** The detectors of one trace: a summary and a group each, unless the summary is
    refused. *)
Lemma project_detectors i results trace_file summaries groups total errors :
  project_trace_detectors exn_text i results trace_file = (summaries, groups, total, errors) →
  Forall (λ s, ds_trace_file s = Some trace_file) summaries
  ∧ Forall (λ g, g.2 = trace_file) groups
  ∧ total = Z.of_nat (count_findings groups)
  ∧ length summaries = length groups
  ∧ (length groups + length errors = length results)%nat.
Proof.
  revert i summaries groups total errors. induction results as [|r results IH]; intros i summaries groups total errors; cbn.
  { intros [= <- <- <- <-]. by split_and!. }
  destruct (project_trace_detectors _ (S i) results trace_file) as [[[ss gs] n] es] eqn:E. apply IH in E as (H1 & H2 & H3 & H4 & H5).
  unfold summary_of. destruct (severity_of _) as [sev|e]; cbn.
  2: { intros [= <- <- <- <-]. split_and!; try done. cbn. lia. }
  destruct (TraceDetectorSummary_check _) as [[]|e]; cbn.
  2: { intros [= <- <- <- <-]. split_and!; try done. cbn. lia. }
  intros [= <- <- <- <-]. split_and!; [by constructor|by constructor|rewrite count_findings_cons, H3; cbn [fst]; lia|cbn; lia|cbn; lia].
Qed.

(** What every projection of the trace [name] keeps. *)
Record projection_ok (name : string) (p : TraceProjection) : Prop := {
  p_summaries : Forall (λ s, ds_trace_file s = Some name) (tp_summaries p);
  p_groups : Forall (λ g, g.2 = name) (tp_groups p);
  p_total : tp_total p = Z.of_nat (count_findings (tp_groups p));
  p_named : analyzer_confirmed p = true → blank (tp_analyzer p) = false;
  p_payload : tp_error p = None → is_some (tp_payload p) = true
}.

Lemma judge_output_ok o expected fallback name : projection_ok name (judge_output exn_text o expected fallback name).
Proof.
  unfold judge_output. case_bool_decide as En; [by constructor|].
  destruct (match expected with Some _ => _ | None => _ end); [by constructor|].
  apply strip_not_blank in En. unfold project_output. destruct (ao_payload o) as [| | | | | |payload]; try by constructor.
  destruct (project_trace_detectors _ _ _ _) as [[[ss gs] n] es] eqn:E. apply project_detectors in E as (H1 & H2 & H3 & _).
  by constructor.
Qed.

(** *** What a projection must be, from what the analyzer gave *)

(** A text that holds another. *)
Definition mentions (text part : string) : Prop := ∃ a b, chars text = a ++ chars part ++ b.

Lemma mentions_refl t : mentions t t.
Proof. exists [], []. by rewrite app_nil_r. Qed.
Lemma mentions_after a t f : mentions t f → mentions (a +:+ t)%string f.
Proof. intros (x & y & E). exists (chars a ++ x), y. by rewrite chars_app, E, <- app_assoc. Qed.
Lemma mentions_before t b f : mentions t f → mentions (t +:+ b)%string f.
Proof. intros (x & y & E). exists x, (y ++ chars b). by rewrite chars_app, E, <- !app_assoc. Qed.

Lemma join_text_part sep f l : f ∈ l → ∃ a b, join_text sep l = a ++ f ++ b.
Proof.
  intros H. induction l as [|x [|y l] IH]; [by apply not_elem_of_nil in H| |].
  - apply list_elem_of_singleton in H as ->. exists [], []. by rewrite app_nil_r.
  - apply elem_of_cons in H as [->|H]; [by exists [], (sep ++ join_text sep (y :: l))|].
    destruct (IH H) as (a & b & E). exists (x ++ sep ++ a), b.
    change (join_text sep (x :: y :: l)) with (x ++ sep ++ join_text sep (y :: l)). by rewrite E, <- !app_assoc.
Qed.

Lemma join_mentions f l : f ∈ l → mentions (join_errors l) f.
Proof. intros H. unfold mentions, join_errors. rewrite chars_str. by apply join_text_part, list_elem_of_fmap_2. Qed.

(** The summary of a detector says what the detector said, of this trace. *)
Definition summarises (name : string) (r : AnalysisResult) (s : TraceDetectorSummary) : Prop :=
  ds_source_tool s = ar_tool r ∧ ds_sub_component s = ar_sub_component r ∧ verdict s = ar_verdict r
  ∧ finding_count s = Z.of_nat (length (ar_findings r)) ∧ ds_description s = ar_description r
  ∧ field TraceAnalysisSeverity_values (ar_severity r) = Some (ds_severity s) ∧ ds_trace_file s = Some name.

Lemma summary_of_summarises r name s : summary_of r name = Ok s → summarises name r s.
Proof.
  unfold summary_of, severity_of. destruct (field _ _) as [sev|] eqn:E; [|done]. cbn.
  destruct (TraceDetectorSummary_check _) as [[]|]; [|done]. cbn. intros [= <-]. by split_and!.
Qed.

(** Of every detector the summary and the findings, or the error of its summary. *)
Definition summarised (name : string) (r : AnalysisResult) : bool := is_ok (summary_of r name).

Record detectors_projected (base : nat) (results : list AnalysisResult) (name : string)
    (summaries : list TraceDetectorSummary) (groups : list (AnalysisResult * string)) (total : Z)
    (errors : list string) : Prop := {
  d_groups : groups = (λ r, (r, name)) <$> List.filter (summarised name) results;
  d_summaries : Forall2 (summarises name) (List.filter (summarised name) results) summaries;
  d_total : total = Z.of_nat (count_findings groups);
  d_errors : ∀ i r e, results !! i = Some r → summary_of r name = Err e →
    ("detector " +:+ pretty (base + i)%nat +:+ " summary: " +:+ exn_text e)%string ∈ errors;
  d_clean : errors = [] ↔ Forall (λ r, summarised name r = true) results
}.

Lemma project_detectors_exact base results name summaries groups total errors :
  project_trace_detectors exn_text base results name = (summaries, groups, total, errors) →
  detectors_projected base results name summaries groups total errors.
Proof.
  revert base summaries groups total errors. induction results as [|r results IH]; intros base summaries groups total errors; cbn.
  { intros [= <- <- <- <-]. by split. }
  destruct (project_trace_detectors _ (S base) results name) as [[[ss gs] n] es] eqn:E. apply IH in E as [H1 H2 H3 H4 H5].
  assert (∀ i x e errs, es ⊆ errs → results !! i = Some x → summary_of x name = Err e →
    ("detector " +:+ pretty (base + S i)%nat +:+ " summary: " +:+ exn_text e)%string ∈ errs) as Hrest.
  { intros i x e errs Hsub Hi He. apply Hsub. rewrite <- Nat.add_succ_comm. by eapply H4. }
  destruct (summary_of r name) as [s|e] eqn:Es; intros [= <- <- <- <-].
  - assert (summarised name r = true) as Hr by (unfold summarised; by rewrite Es).
    split; cbn [List.filter]; rewrite ?Hr.
    + by rewrite fmap_cons, H1.
    + constructor; [by apply summary_of_summarises|done].
    + rewrite count_findings_cons, H3. cbn [fst]. lia.
    + intros [|i] x e Hi He; cbn in Hi; [congruence|]. by eapply Hrest.
    + rewrite H5, Forall_cons. by split; [|intros [_ ?]].
  - assert (summarised name r = false) as Hr by (unfold summarised; by rewrite Es).
    split; cbn [List.filter]; rewrite ?Hr; [done|done|done| |].
    + intros [|i] x e' Hi He; cbn in Hi; [|eapply Hrest; [|done|done]; by intros y ?; right].
      injection Hi as <-. rewrite Es in He. injection He as ->. rewrite Nat.add_0_r. by left.
    + rewrite Forall_cons, Hr. split; [done|by intros [[=] _]].
Qed.

(** A projection without detectors. *)
Definition gave_nothing (p : TraceProjection) : Prop := tp_summaries p = [] ∧ tp_groups p = [] ∧ tp_total p = 0.

(** The projection of the trace [name] whose analyzer gave [x], when the traces
    before it have settled on the analyzer [expected]. *)
Definition projection_of (x : res exn DeterministicAnalysisOutput) (expected : option string) (name : string)
    (p : TraceProjection) : Prop :=
  match x with
  | Err e => gave_nothing p ∧ analyzer_confirmed p = false ∧ tp_warnings p = [] ∧ tp_payload p = None
             ∧ tp_error p = Some (exn_text e)
  | Ok o =>
      let declared := str (strip (chars (ao_analyzer o))) in
      if bool_decide (declared ≠ ""%string) && match expected with Some y => bool_decide (declared = y) | None => true end
      then
        analyzer_confirmed p = true ∧ tp_analyzer p = declared
        ∧ match ao_payload o with
          | JObj payload =>
              ∃ errors, detectors_projected 0 (detector_results o) name (tp_summaries p) (tp_groups p) (tp_total p) errors
                ∧ tp_payload p = Some (summarised_payload o payload) ∧ tp_warnings p = ao_warnings o ++ errors
                ∧ (tp_error p = None ↔ errors = [])
                ∧ ∀ f, f ∈ errors → ∃ err, tp_error p = Some err ∧ mentions err f
          | _ => gave_nothing p ∧ tp_payload p = None ∧ tp_warnings p = ao_warnings o ∧ is_some (tp_error p) = true
          end
      else gave_nothing p ∧ analyzer_confirmed p = false ∧ tp_warnings p = ao_warnings o ∧ is_some (tp_error p) = true
  end.

Lemma project_output_projected o declared name : 
  let p := project_output exn_text o declared name in
  analyzer_confirmed p = true ∧ tp_analyzer p = declared
  ∧ match ao_payload o with
    | JObj payload =>
        ∃ errors, detectors_projected 0 (detector_results o) name (tp_summaries p) (tp_groups p) (tp_total p) errors
          ∧ tp_payload p = Some (summarised_payload o payload) ∧ tp_warnings p = ao_warnings o ++ errors
          ∧ (tp_error p = None ↔ errors = [])
          ∧ ∀ f, f ∈ errors → ∃ err, tp_error p = Some err ∧ mentions err f
    | _ => gave_nothing p ∧ tp_payload p = None ∧ tp_warnings p = ao_warnings o ∧ is_some (tp_error p) = true
    end.
Proof.
  unfold project_output. destruct (ao_payload o) as [| | | | | |payload]; try by split_and!.
  destruct (project_trace_detectors _ _ _ _) as [[[ss gs] n] errors] eqn:E. apply project_detectors_exact in E. cbv zeta.
  split_and!; [done|done|]. exists errors. split_and!; [done|done|done| |].
  - cbn. by destruct errors.
  - intros f Hf. cbn [tp_error]. destruct errors as [|x l]; [by apply not_elem_of_nil in Hf|].
    eexists. split; [reflexivity|]. by apply mentions_after, join_mentions.
Qed.

Lemma judge_output_projected o expected fallback name :
  projection_of (Ok o) expected name (judge_output exn_text o expected fallback name).
Proof.
  unfold projection_of, judge_output. cbv zeta. set (declared := str _).
  destruct (bool_decide_reflect (declared = ""%string)) as [En|En].
  { rewrite bool_decide_eq_false_2 by (intros H; by apply H). by split_and!. }
  rewrite bool_decide_eq_true_2 by done. cbn [andb].
  destruct expected as [y|]; [|apply project_output_projected].
  destruct (bool_decide_reflect (declared = y)); cbn [negb]; [apply project_output_projected|by split_and!].
Qed.

(** ** The batch *)

(** The batch after the traces [names]. *)
Record batch_ok (names : list string) (b : Batch) : Prop := {
  b_known : Forall (λ s, ∃ n, n ∈ names ∧ ds_trace_file s = Some n) (b_summaries b);
  b_grouped : Forall (λ g, g.2 ∈ names) (b_groups b);
  b_counted : b_total b = Z.of_nat (count_findings (b_groups b));
  b_named : ∀ x, b_analyzer b = Some x → blank x = false;
  b_order : (b_results b).*1 = names;
  b_clean : b_failures b = [] → Forall (λ r, tp_error r.2 = None ∧ is_some (tp_payload r.2) = true) (b_results b)
}.

Lemma empty_batch_ok : batch_ok [] empty_batch.
Proof. by constructor. Qed.

Lemma add_projection_ok names b name p : batch_ok names b → projection_ok name p →
  batch_ok (names ++ [name]) (add_projection b name p).
Proof.
  intros [H1 H2 H3 H4 H5 H6] [P1 P2 P3 P4 P5]. constructor; cbn.
  - apply Forall_app. split; [eapply Forall_impl; [exact H1|]|eapply Forall_impl; [exact P1|]].
    + intros s (n & Hn & Hs). exists n. split; [|done]. apply elem_of_app. by left.
    + intros s Hs. exists name. split; [|done]. apply elem_of_app. right. by apply list_elem_of_singleton.
  - apply Forall_app. split; [eapply Forall_impl; [exact H2|]|eapply Forall_impl; [exact P2|]].
    + intros g Hg. cbn in Hg. apply elem_of_app. by left.
    + intros g Hg. cbn in Hg. apply elem_of_app. right. by apply list_elem_of_singleton.
  - rewrite count_findings_app, H3, P3. lia.
  - intros x. destruct (b_analyzer b) as [y|]; [apply H4|]. destruct (analyzer_confirmed p); [|done]. intros [= <-]. by apply P4.
  - by rewrite fmap_app, H5.
  - intros Hf. apply app_nil in Hf as [Hf Hp]. apply Forall_app. split; [by apply H6|]. constructor; [|constructor]. cbn.
    destruct (tp_error p); [done|]. split; [done|by apply P5].
Qed.

Context {W : Type}.
Notation M := (st (Machine W) exn).

Lemma analyze_trace_files_run (analyze : string → M DeterministicAnalysisOutput) fallback traces names b m :
  batch_ok names b →
  ∃ m' b', analyze_trace_files exn_text analyze fallback b traces m = (m', Ok b') ∧ batch_ok (names ++ traces.*2) b'.
Proof.
  revert names b m. induction traces as [|[path name] traces IH]; intros names b m Hb.
  { eexists _, _. split; [reflexivity|]. cbn. by rewrite app_nil_r. }
  cbn [analyze_trace_files]. unfold mbind, st_bind, analyze_trace_file.
  assert (Hp : ∀ p, projection_ok name p → ∀ m1, ∃ m' b',
    analyze_trace_files exn_text analyze fallback (add_projection b name p) traces m1 = (m', Ok b')
    ∧ batch_ok (names ++ name :: traces.*2) b').
  { intros p Hp m1. destruct (IH _ _ m1 (add_projection_ok _ _ _ _ Hb Hp)) as (m' & b' & E & H).
    exists m', b'. split; [done|]. by rewrite <- app_assoc in H. }
  destruct (analyze path m) as [m1 [o|e]]; apply Hp; [apply judge_output_ok|by constructor].
Qed.

(** *** The batch, from what the analyzer gave *)

(** What the analyzer gives for each trace, in order. *)
Fixpoint run_each (analyze : string → M DeterministicAnalysisOutput) (paths : list string) (m : Machine W)
    : Machine W * list (res exn DeterministicAnalysisOutput) :=
  match paths with
  | [] => (m, [])
  | path :: rest => let '(m1, x) := analyze path m in let '(m2, xs) := run_each analyze rest m1 in (m2, x :: xs)
  end.

(** The analyzer a batch is of: the first that a trace confirmed. *)
Definition settled (ps : list TraceProjection) : option string :=
  head (omap (λ p, if analyzer_confirmed p then Some (tp_analyzer p) else None) ps).

Lemma settled_snoc ps p : settled (ps ++ [p]) =
  match settled ps with
  | Some x => Some x
  | None => if analyzer_confirmed p then Some (tp_analyzer p) else None
  end.
Proof.
  unfold settled. rewrite omap_app. cbn. destruct (omap _ ps); [|done]. cbn. by destruct (analyzer_confirmed p).
Qed.

(** The text of what a trace adds to the errors and warnings of its batch. *)
Definition of_trace (name text : string) : string := (name +:+ ": " +:+ text)%string.

(** The batch [b] of the outcomes [xs] keeps every one of them. *)
Record batch_accounts (xs : list (res exn DeterministicAnalysisOutput)) (b : Batch) : Prop := {
  a_length : length (b_results b) = length xs;
  a_each : ∀ k x name p, xs !! k = Some x → b_results b !! k = Some (name, p) →
    projection_of x (settled (take k (b_results b)).*2) name p;
  a_analyzer : b_analyzer b = settled (b_results b).*2;
  a_summaries : b_summaries b = concat (tp_summaries ∘ snd <$> b_results b);
  a_groups : b_groups b = concat (tp_groups ∘ snd <$> b_results b);
  a_warnings : b_warnings b = concat ((λ r, of_trace r.1 <$> tp_warnings r.2) <$> b_results b);
  a_failures : b_failures b = omap (λ r, of_trace r.1 <$> tp_error r.2) (b_results b)
}.

Lemma empty_batch_accounts : batch_accounts [] empty_batch.
Proof. by split. Qed.

Lemma add_projection_accounts xs b x name p : batch_accounts xs b → projection_of x (b_analyzer b) name p →
  batch_accounts (xs ++ [x]) (add_projection b name p).
Proof.
  intros [H1 H2 H3 H4 H5 H6 H7] Hp. split; cbn [add_projection b_results b_analyzer b_summaries b_groups b_warnings b_failures].
  - rewrite !length_app. cbn. lia.
  - intros k y n q Hy Hq. apply lookup_app_Some in Hq as [Hq|[Hk Hq]].
    + pose proof (lookup_lt_Some _ _ _ Hq) as Hlt. rewrite lookup_app_l in Hy by lia. rewrite take_app_le by lia. by eapply H2.
    + apply list_lookup_singleton_Some in Hq as [Hk0 [= <- <-]]. rewrite lookup_app_r in Hy by lia.
      apply list_lookup_singleton_Some in Hy as [_ <-]. assert (k = length (b_results b)) as -> by lia.
      by rewrite take_app_length, <- H3.
  - rewrite fmap_app. change ([(name, p)].*2) with [p]. by rewrite settled_snoc, <- H3.
  - by rewrite fmap_app, concat_app, H4; cbn; rewrite app_nil_r.
  - by rewrite fmap_app, concat_app, H5; cbn; rewrite app_nil_r.
  - by rewrite fmap_app, concat_app, H6; cbn; rewrite app_nil_r.
  - rewrite omap_app, H7. f_equal. cbn. by destruct (tp_error p).
Qed.

Lemma analyze_trace_files_accounts (analyze : string → M DeterministicAnalysisOutput) fallback traces xs b m m' b' :
  batch_accounts xs b → analyze_trace_files exn_text analyze fallback b traces m = (m', Ok b') →
  ∃ ys, run_each analyze traces.*1 m = (m', ys) ∧ batch_accounts (xs ++ ys) b'.
Proof.
  revert xs b m. induction traces as [|[path name] traces IH]; intros xs b m Hb H.
  { injection H as <- <-. exists []. by rewrite app_nil_r. }
  change (((path, name) :: traces).*1) with (path :: traces.*1). cbn [run_each].
  cbn [analyze_trace_files] in H. unfold mbind, st_bind, analyze_trace_file in H.
  destruct (analyze path m) as [m1 x].
  assert (∃ p, projection_of x (b_analyzer b) name p
    ∧ analyze_trace_files exn_text analyze fallback (add_projection b name p) traces m1 = (m', Ok b')) as (p & Hp & Hrun).
  { destruct x as [o|e]; eexists; (split; [|exact H]); [apply judge_output_projected|by split_and!]. }
  destruct (IH _ _ _ (add_projection_accounts _ _ _ _ _ Hb Hp) Hrun) as (ys & Hys & Hacc).
  exists (x :: ys). rewrite Hys. split; [done|]. by rewrite <- app_assoc in Hacc.
Qed.

(** ** The report *)

Variable cwd : string.
Variable entry_size : string → Z.
Variable os_step : W → W * bool.
Variable dump_json : json → res exn string.
Notation write_report := (write_report cwd entry_size os_step dump_json).
Notation finish_trace_analysis := (finish_trace_analysis cwd entry_size os_step exn_text dump_json).
Notation run_trace_analysis := (run_trace_analysis cwd entry_size os_step exn_text dump_json).
Notation sample_findings := (sample_findings exn_text).

(** The report [payload] is written at [path] as [a] describes it. *)
Definition reported (d : Disk) (path : string) (payload : json) (a : ArtifactRef) : Prop :=
  ∃ text, dump_json payload = Ok text ∧ d !! abspath cwd path = Some (Regular text) ∧ declares a text.

Lemma write_report_run path payload m m' r : write_report path payload m = (m', r) →
  match r with
  | Ok (inl a) => reported (disk m') path payload a
  | Ok (inr _) => True
  | Err e => is_write_error e = false
  end.
Proof.
  unfold TraceAnalysis.write_report.
  match goal with |- context [?write m] => assert (H : wp write (λ a m', reported (disk m') path payload a) (λ _ _, True) m) end.
  { unfold TraceAnalysis.atomic_write_json, step_or_os_error. apply hoare_bind, hoare_bind. unfold wp at 1.
    destruct (step_or_raise os_step OSError m) as [m1 [u|e]]; [|done]. apply hoare_bind, hoare_lift.
    destruct (dump_json payload) as [text|e] eqn:Et; [|done]. apply hoare_bind. unfold wp at 1.
    destruct (step_or_raise os_step OSError m1) as [m2 [u'|e]]; [|done]. apply hoare_bind, hoare_get.
    destruct (is_dir _ _); [by apply hoare_raise|]. apply hoare_modify, hoare_bind, hoare_get, hoare_lift. cbn [disk].
    unfold local_artifact. rewrite lookup_insert_eq. cbn [entry_text]. exists text. split_and!; [done|by rewrite lookup_insert_eq|].
    eexists. cbn. split_and!; [done| |done]. rewrite chars_str. apply digest_hex. }
  unfold wp in H. match type of H with (let (_, _) := ?x in _) => destruct x as [m1 [a|e]] end; [by intros [= <- <-]|].
  destruct (is_write_error e) eqn:E; by intros [= <- <-].
Qed.

Definition one_of (names : list string) (f : option string) : Prop := ∃ n, n ∈ names ∧ f = Some n.

(** What a finished analysis of the traces [names] says of their batch. *)
Record evidence_of (names : list string) (b : Batch) (max : nat) (report : ArtifactRef → Prop) (t : TraceAnalysisEvidence) : Prop := {
  e_checked : TraceAnalysisEvidence_check t = Ok ();
  e_analyzer : ∀ x, b_analyzer b = Some x → analyzer t = x;
  e_summaries : detector_summaries t = b_summaries b;
  e_warnings : ∀ w, w ∈ b_warnings b → w ∈ ta_warnings t;
  e_failures : ∀ f, f ∈ b_failures b →
    ta_execution_status t = ExecInfraError ∧ ∃ err, ta_error t = Some err ∧ mentions err f;
  e_names : Forall (one_of names) (analysis_trace_files t);
  e_sample : ta_findings t = take max (omap finding_projection (in_turn (b_groups b)));
  e_total : total_findings t = Z.of_nat (count_findings (b_groups b));
  e_report : ∀ a, ta_artifact t = Some a → report a;
  e_success : ta_execution_status t = Succeeded →
    ta_error t = None ∧ is_some (ta_artifact t) = true ∧ length (ta_findings t) = Nat.min max (count_findings (b_groups b))
    ∧ Forall (λ r, tp_error r.2 = None) (b_results b)
}.

(** The fields of the evidence the batch decides. *)
Definition evidence_fields (b : Batch) (fallback : string) (max : nat) (t : TraceAnalysisEvidence) : Prop :=
  ta_schema_version t = TRACE_ANALYSIS_SCHEMA_VERSION ∧ analyzer t = default fallback (b_analyzer b)
  ∧ detector_summaries t = b_summaries b ∧ ta_findings t = (sample_findings (b_groups b) max).1 ∧ total_findings t = b_total b.

Lemma fields_checked names b fallback max t : batch_ok names b → blank fallback = false → evidence_fields b fallback max t →
  TraceAnalysisEvidence_check t = Ok ().
Proof.
  intros Hb Hf (Hv & Ha & _ & Hs & Ht). unfold TraceAnalysisEvidence_check. rewrite Hv, Ha, Hs, Ht, (b_counted _ _ Hb), Z.eqb_refl. cbn [negb].
  assert (blank (default fallback (b_analyzer b)) = false) as ->.
  { destruct (b_analyzer b) as [x|] eqn:E; [by apply (b_named _ _ Hb)|done]. }
  pose proof (Zle_0_nat (count_findings (b_groups b))).
  rewrite (proj2 (Z.ltb_ge _ 0)) by done. rewrite (proj2 (Z.ltb_ge _ _)); [done|].
  pose proof (sample_no_larger exn_text (b_groups b) max). lia.
Qed.

Lemma fields_evidence names b fallback max report t : batch_ok names b → blank fallback = false → evidence_fields b fallback max t →
  (∀ a, ta_artifact t = Some a → report a) → (∀ w, w ∈ b_warnings b → w ∈ ta_warnings t) →
  (∀ f, f ∈ b_failures b → ta_execution_status t = ExecInfraError ∧ ∃ err, ta_error t = Some err ∧ mentions err f) →
  (ta_execution_status t = Succeeded → ta_error t = None ∧ is_some (ta_artifact t) = true
     ∧ b_failures b = [] ∧ (sample_findings (b_groups b) max).2 = []) →
  evidence_of names b max report t.
Proof.
  intros Hb Hf He Hr Hw Hfl Hs. pose proof (fields_checked names b fallback max t Hb Hf He) as Hc.
  destruct He as (_ & Ha & Hsum & Hfs & Ht). constructor; try done.
  - intros x Hx. by rewrite Ha, Hx.
  - unfold analysis_trace_files. rewrite Hsum, Hfs. apply Forall_app. split; apply Forall_fmap.
    + exact (b_known _ _ Hb).
    + apply Forall_forall. intros x Hx. apply sampled_traces in Hx as (g & Hg & Hx). exists g.2. split; [|done].
      pose proof (b_grouped _ _ Hb) as H. rewrite Forall_forall in H. by apply H.
  - by rewrite Hfs, sampled_findings.
  - by rewrite Ht, (b_counted _ _ Hb).
  - intros H. destruct (Hs H) as (Hne & Hart & Hbf & Hse). split_and!; [done|done|by rewrite Hfs; apply complete_sample|].
    eapply Forall_impl; [by apply (b_clean _ _ Hb)|]. by intros r [? _].
Qed.

(** The report of a batch: written where [out_dir] says, with the bytes [a] declares. *)
Definition batch_reported (b : Batch) (fallback out_dir : string) (traces : nat) (d : Disk) (a : ArtifactRef) : Prop :=
  ∃ payload, report_payload b (default fallback (b_analyzer b)) traces = Some payload
             ∧ reported d (join out_dir "trace_analysis.json") payload a.

Lemma failures_error_none l : failures_error l = None ↔ l = [].
Proof. by destruct l. Qed.

(** Errors the analysis raises: a payload whose summary is no object, or an error of
    writing the report that is not caught. *)
Definition analysis_error (e : exn) : Prop := e = TypeError ∨ is_write_error e = false.

Lemma capture_entries_error l e : capture_entries l = Err e → e = TypeError.
Proof.
  unfold capture_entries. induction (omap _ l) as [|[n s] k IH]; [done|]. cbn [mapM]. unfold capture_entry at 1. cbn [fst snd].
  destruct s; cbn; try by intros [= <-]. destruct (mapM _ k); cbn; [done|]. intros [= <-]. by apply IH.
Qed.

Lemma checked_evidence_ok t (m : Machine W) : TraceAnalysisEvidence_check t = Ok () → (checked_evidence t : M _) m = (m, Ok t).
Proof. intros H. unfold checked_evidence, st_lift, mbind, st_bind. by rewrite H. Qed.

(** A batch of one trace without a payload failed, and its failure is the first. *)
Lemma singleton_failed names xs b traces name f : batch_ok names b → batch_accounts xs b → traces = length (b_results b) →
  report_payload b name traces = None → f ∈ b_failures b → b_failures b = [f].
Proof.
  intros Hb Ha Ht Hp Hin. rewrite (a_failures _ _ Ha) in *. unfold report_payload in Hp.
  destruct (b_results b) as [|[n p] [|]]; [by apply not_elem_of_nil in Hin| |by subst traces].
  cbn in Hin |- *. destruct (tp_error p); [|by apply not_elem_of_nil in Hin].
  cbn in Hin |- *. by apply list_elem_of_singleton in Hin as ->.
Qed.

Lemma finish_run names xs b traces fallback max out_dir m m' x : batch_ok names b → batch_accounts xs b →
  traces = length (b_results b) → blank fallback = false →
  finish_trace_analysis b traces fallback max out_dir m = (m', x) →
  match x with
  | Ok t => evidence_of names b max (batch_reported b fallback out_dir traces (disk m')) t
  | Err e => analysis_error e
  end.
Proof.
  intros Hb Hacc Htr Hf. unfold TraceAnalysis.finish_trace_analysis.
  destruct (TraceAnalysis.sample_findings exn_text (b_groups b) max) as [compact errors] eqn:Es.
  assert (Hfields : ∀ st sum w a e c o, sum = b_summaries b → evidence_fields b fallback max
    (mkTraceAnalysis (default fallback (b_analyzer b)) st sum compact (b_total b) w a e TRACE_ANALYSIS_SCHEMA_VERSION c o)).
  { intros st sum w a e c o ->. unfold evidence_fields. by rewrite Es. }
  destruct (report_payload b _ traces) as [payload|] eqn:Ep.
  2: { pose proof (Hfields ExecInfraError (b_summaries b)) as He. unfold singleton_failure. rewrite checked_evidence_ok.
       - intros [= <- <-]. eapply fields_evidence; [exact Hb|exact Hf|by apply He|done| | |done].
         + intros w Hw. cbn [ta_warnings]. apply elem_of_app. by left.
         + intros f Hin. split; [done|]. eexists. split; [reflexivity|].
           rewrite (singleton_failed _ _ _ _ _ _ Hb Hacc Htr Ep Hin). apply mentions_after, mentions_refl.
       - by eapply fields_checked; [exact Hb|exact Hf|apply He]. }
  unfold mbind at 1, st_bind at 1. destruct (write_report _ payload m) as [m1 r] eqn:Ew. apply write_report_run in Ew.
  destruct r as [r|e]; [|intros [= <- <-]; by right].
  set (failures := b_failures b ++ _). destruct (match r with inl a => _ | inr e => _ end) as [[artifact status] error] eqn:Er.
  unfold st_lift, mbind at 1, st_bind at 1.
  destruct (capture_entries (b_results b)) as [entries|e] eqn:Ec; [|intros [= <- <-]; left; by eapply capture_entries_error].
  rewrite checked_evidence_ok by (by eapply fields_checked; [exact Hb|exact Hf|by apply Hfields]).
  intros [= <- <-]. eapply fields_evidence; [exact Hb|exact Hf|by apply Hfields| | | |];
    cbn [ta_artifact ta_execution_status ta_error ta_warnings].
  - intros a ->. destruct r as [a'|e]; [|done]. injection Er as <- _ _. by exists payload.
  - intros w Hw. apply elem_of_app. by left.
  - intros f Hin. assert (f ∈ failures) as Hin' by (apply elem_of_app; by left).
    assert (∃ err, failures_error failures = Some err ∧ mentions err f) as (err & Eerr & Hm).
    { unfold failures_error. destruct failures as [|y l]; [by apply not_elem_of_nil in Hin'|].
      eexists. split; [reflexivity|]. do 3 apply mentions_after. by apply join_mentions. }
    destruct r as [a|e].
    + destruct failures as [|y l]; [by apply not_elem_of_nil in Hin'|]. injection Er as _ <- <-. split; [done|]. by exists err.
    + rewrite Eerr in Er. injection Er as _ <- <-. split; [done|]. eexists. split; [reflexivity|]. by apply mentions_before.
  - intros ->. destruct r as [a|e]; [|done]. destruct failures as [|f fs] eqn:Ef; [|done]. injection Er as <- <-.
    subst failures. apply app_nil in Ef as [-> Ef]. rewrite Es. cbn [snd]. split_and!; [done|done|done|]. by destruct errors.
Qed.

Lemma length_labels paths : length (trace_file_labels paths) = length paths.
Proof. unfold trace_file_labels. case_bool_decide; by rewrite length_fmap. Qed.

(** What the analysis of the traces [paths] gives. *)
Definition analysis_outcome (analyze : string → option string → M DeterministicAnalysisOutput) (fallback : string) (max : nat)
    (paths : list string) (arch out_dir : string) (m m' : Machine W) (x : res exn TraceAnalysisEvidence) : Prop :=
  ∃ m1 xs b, run_each (λ path, analyze path (text_or_none arch)) paths m = (m1, xs)
  ∧ analyze_trace_files exn_text (λ path, analyze path (text_or_none arch)) fallback empty_batch
            (zip paths (trace_file_labels paths)) m = (m1, Ok b)
  ∧ (b_results b).*1 = trace_file_labels paths ∧ batch_accounts xs b
  ∧ match x with
    | Ok t => evidence_of (trace_file_labels paths) b max (batch_reported b fallback out_dir (length paths) (disk m')) t
    | Err e => analysis_error e
    end.

Lemma run_analysis analyze fallback max raw_paths arch out_dir m m' x : 0 ≤ max → raw_paths ≠ [] → blank fallback = false →
  run_trace_analysis analyze fallback max raw_paths arch out_dir m = (m', x) →
  analysis_outcome analyze fallback (Z.to_nat max) (sorted_paths (abspath cwd <$> raw_paths)) arch out_dir m m' x.
Proof.
  intros Hmax Hraw Hf. unfold TraceAnalysis.run_trace_analysis. rewrite (proj2 (Z.ltb_ge _ _) Hmax). set (paths := sorted_paths (abspath cwd <$> raw_paths)).
  assert (Hne : paths ≠ []).
  { destruct raw_paths as [|p ps]; [done|]. intros E. assert (abspath cwd p ∈ paths) as Hp; [|rewrite E in Hp; by apply not_elem_of_nil in Hp].
    apply elem_of_sorted_paths, list_elem_of_fmap. exists p. split; [done|by constructor]. }
  destruct (analyze_trace_files_run (λ path, analyze path (text_or_none arch)) fallback (zip paths (trace_file_labels paths))
              [] empty_batch m empty_batch_ok) as (m1 & b & Eb & Hb).
  cbn [app] in Hb. change ((zip paths (trace_file_labels paths)).*2) with (snd <$> zip paths (trace_file_labels paths)) in Hb.
  rewrite snd_zip in Hb by by rewrite length_labels.
  destruct paths as [|p ps] eqn:Eps; [done|]. rewrite <- Eps in *. unfold mbind, st_bind. rewrite Eb. intros Hr.
  destruct (analyze_trace_files_accounts _ _ _ _ _ _ _ _ empty_batch_accounts Eb) as (xs & Hxs & Hacc).
  change ((zip paths (trace_file_labels paths)).*1) with (fst <$> zip paths (trace_file_labels paths)) in Hxs.
  rewrite fst_zip in Hxs by by rewrite length_labels.
  assert (length paths = length (b_results b)) as Hlen.
  { rewrite <- (length_labels paths), <- (b_order _ _ Hb). by rewrite length_fmap. }
  exists m1, xs, b. split_and!; [done|done|apply (b_order _ _ Hb)|done|].
  by eapply finish_run in Hr; [|exact Hb|exact Hacc|exact Hlen|exact Hf].
Qed.

(** The analysis keeps the contract a trace experiment asks of it. *)
Lemma analysis_keeps_contract analyze fallback max paths arch out_dir m m' t : blank fallback = false → addressable cwd paths →
  run_trace_analysis analyze fallback max paths arch out_dir m = (m', Ok t) → analysis_ok (basename <$> paths) t.
Proof.
  intros Hf (Hne & Hnd & Habs) H. destruct (Z_lt_le_dec max 0) as [Hm|Hm].
  { unfold TraceAnalysis.run_trace_analysis in H. by rewrite (proj2 (Z.ltb_lt _ _) Hm) in H. }
  apply run_analysis in H as (m1 & xs & b & _ & _ & _ & _ & He); [|done|done|done].
  assert (Hp : sorted_paths (abspath cwd <$> paths) ≡ₚ paths).
  { assert (abspath cwd <$> paths = paths) as ->.
    { clear -Habs. induction Habs as [|p ps Hp _ IH]; [done|]. by rewrite fmap_cons, IH, Hp. }
    unfold sorted_paths. rewrite merge_sort_Permutation. apply NoDup_Permutation; [apply NoDup_remove_dups|by eapply NoDup_fmap_1|].
    intros p. apply elem_of_remove_dups. }
  assert (Hl : trace_file_labels (sorted_paths (abspath cwd <$> paths)) ≡ₚ basename <$> paths).
  { unfold trace_file_labels. rewrite bool_decide_true; [by rewrite Hp|]. by rewrite Hp. }
  destruct He as [H1 _ _ _ _ H2 _ _ H5 H6]. constructor; [done| | |intros Hs; by apply H6].
  - eapply Forall_impl; [exact H2|]. intros f (n & Hn & ->). by rewrite <- Hl.
  - intros a Ha _. destruct (H5 a Ha) as (payload & _ & text & _ & _ & Hd). by eapply declares_identity.
Qed.
End Batch.

(** ** The static context *)

(** One step of control flow. *)
Definition follows (next : dict string (list string)) (a b : string) : Prop := ∃ l, dict_get next a = Some l ∧ b ∈ l.

(** What the blocks not entered yet have still to add. *)
Fixpoint unentered (next : dict string (list string)) (reachable : list string) : nat :=
  match next with
  | [] => 0
  | (a, l) :: rest => (if bool_decide (a ∈ reachable) then 0 else length l) + unentered rest reachable
  end.

Lemma unentered_nil next : unentered next [] = sum_list (length <$> next.*2).
Proof. induction next as [|[a l] next IH]; [done|]. cbn. by rewrite IH. Qed.

Lemma unentered_mono next b reachable : (unentered next (b :: reachable) ≤ unentered next reachable)%nat.
Proof.
  induction next as [|[a l] next IH]; [done|]. cbn [unentered].
  destruct (bool_decide_reflect (a ∈ reachable)) as [H|H]; [rewrite bool_decide_true by (by constructor); lia|]. case_bool_decide; lia.
Qed.

Lemma enter_block next b l reachable : dict_get next b = Some l → b ∉ reachable →
  (unentered next (b :: reachable) + length l ≤ unentered next reachable)%nat.
Proof.
  intros Hg Hb. induction next as [|[a k] next IH]; [done|]. cbn [unentered]. cbn [dict_get] in Hg. case_decide as Eb; [subst a|].
  - injection Hg as ->. rewrite bool_decide_true by constructor. rewrite (bool_decide_false _ Hb).
    pose proof (unentered_mono next b reachable). lia.
  - pose proof (IH Hg). destruct (bool_decide_reflect (a ∈ reachable)) as [Ha|Ha].
    + rewrite bool_decide_true by (by constructor). lia.
    + rewrite bool_decide_false; [lia|]. intros [->|?]%elem_of_cons; done.
Qed.

(** The loop ends within its fuel, on what the entries lead to; it raises only at a
    block without successors. *)
Lemma reachable_from_spec fuel next pending reachable :
  (length pending + unentered next reachable ≤ fuel)%nat →
  (∀ a b, a ∈ reachable → follows next a b → b ∈ reachable ∨ b ∈ pending) →
  match reachable_from fuel next pending reachable with
  | Ok r => (∀ b, b ∈ r → b ∈ reachable ∨ ∃ p, p ∈ pending ∧ rtc (follows next) p b)
            ∧ (∀ b, b ∈ reachable ∨ b ∈ pending → b ∈ r) ∧ (∀ a b, a ∈ r → follows next a b → b ∈ r)
  | Err e => e = KeyError ∧ ∃ p b, p ∈ pending ∧ rtc (follows next) p b ∧ dict_get next b = None
  end.
Proof.
  revert pending reachable. induction fuel as [|fuel IH]; intros pending reachable Hf Hc.
  { destruct pending as [|p ps]; [|cbn in Hf; lia]. cbn. split_and!; [by left|set_solver|].
    intros a b Ha Hab. destruct (Hc a b Ha Hab) as [?|?]; [done|by apply not_elem_of_nil in H]. }
  destruct pending as [|p ps]; cbn [reachable_from].
  { split_and!; [by left|set_solver|]. intros a b Ha Hab. destruct (Hc a b Ha Hab) as [?|?]; [done|by apply not_elem_of_nil in H]. }
  cbn [length] in Hf. destruct (bool_decide_reflect (p ∈ reachable)) as [Hp|Hp].
  { assert (Hc' : ∀ a b, a ∈ reachable → follows next a b → b ∈ reachable ∨ b ∈ ps).
    { intros a b Ha Hab. destruct (Hc a b Ha Hab) as [?|[->|?]%elem_of_cons]; auto. }
    specialize (IH ps reachable ltac:(lia) Hc'). destruct (reachable_from _ _ _ _) as [r|e].
    - destruct IH as (H1 & H2 & H3). split_and!; [set_solver|set_solver|done].
    - destruct IH as (H1 & q & b & Hq & Hb). split; [done|]. exists q, b. split; [by constructor|done]. }
  destruct (dict_get next p) as [l|] eqn:El.
  2: { split; [done|]. exists p, p. split_and!; [constructor|done|done]. }
  set (new := List.filter _ l).
  assert (Hnew : ∀ b, b ∈ new → b ∈ l).
  { intros b Hb. subst new. apply list_elem_of_In, filter_In in Hb as [Hb _]. by apply list_elem_of_In. }
  assert (Hlen : (length new ≤ length l)%nat) by apply List.filter_length_le.
  pose proof (enter_block _ _ _ _ El Hp) as Hu.
  assert (Hc' : ∀ a b, a ∈ p :: reachable → follows next a b → b ∈ p :: reachable ∨ b ∈ new ++ ps).
  { intros a b [->|Ha]%elem_of_cons Hab.
    - destruct Hab as (l' & El' & Hb). rewrite El in El'. injection El' as <-.
      destruct (decide (b ∈ p :: reachable)) as [?|Hn]; [by left|right]. apply elem_of_app. left. subst new.
      apply list_elem_of_In, filter_In. split; [by apply list_elem_of_In|]. by rewrite (bool_decide_false _ Hn).
    - destruct (Hc a b Ha Hab) as [?|[->|?]%elem_of_cons]; [left; by constructor|left; constructor|right; apply elem_of_app; by right]. }
  assert (Hstep : ∀ q b, q ∈ new ++ ps → rtc (follows next) q b → ∃ p', p' ∈ p :: ps ∧ rtc (follows next) p' b).
  { intros q b [Hq|Hq]%elem_of_app Hqb.
    - exists p. split; [constructor|]. eapply rtc_l; [|exact Hqb]. exists l. split; [done|by apply Hnew].
    - exists q. split; [by constructor|done]. }
  specialize (IH (new ++ ps) (p :: reachable) ltac:(rewrite length_app; lia) Hc').
  destruct (reachable_from _ _ _ _) as [r|e].
  - destruct IH as (H1 & H2 & H3). split_and!; [|intros b Hb; apply H2; set_solver|done].
    intros b Hb. destruct (H1 b Hb) as [[->|?]%elem_of_cons|(q & Hq & Hqb)]; [right|by left|right; by eapply Hstep].
    exists p. split; [constructor|done].
  - destruct IH as (H1 & q & b & Hq & Hqb & Hb). split; [done|]. destruct (Hstep q b Hq Hqb) as (p' & Hp' & Hr). by exists p', b.
Qed.

Lemma reachable_exact next entry :
  match reachable_from (reach_fuel next [entry]) next [entry] [] with
  | Ok r => ∀ b, b ∈ r ↔ rtc (follows next) entry b
  | Err e => e = KeyError ∧ ∃ b, rtc (follows next) entry b ∧ dict_get next b = None
  end.
Proof.
  pose proof (reachable_from_spec (reach_fuel next [entry]) next [entry] []) as H.
  specialize (H ltac:(unfold reach_fuel; by rewrite unentered_nil) ltac:(intros a b Ha; by apply not_elem_of_nil in Ha)).
  destruct (reachable_from _ _ _ _) as [r|e].
  - destruct H as (H1 & H2 & H3). intros b. split.
    + intros Hb. destruct (H1 b Hb) as [?|(q & ->%list_elem_of_singleton & Hq)]; [by apply not_elem_of_nil in H|done].
    + assert (Hcl : ∀ x y, rtc (follows next) x y → x ∈ r → y ∈ r) by (induction 1; eauto).
      intros Hr. eapply Hcl; [exact Hr|]. apply H2. right. constructor.
  - destruct H as (H1 & q & b & ->%list_elem_of_singleton & Hq & Hb). split; [done|by exists b].
Qed.

(** The instructions, each offset once, with their classes. *)
Lemma collect_spec classify l acc d : collect_instructions classify l acc = Ok (Some d) →
  NoDup l.*1 ∧ (∀ pc, pc ∈ l.*1 → dict_get acc pc = None) ∧ ∀ pc sass kind, dict_get d pc = Some (sass, kind) ↔
    dict_get acc pc = Some (sass, kind) ∨ (pc, sass) ∈ l ∧ classify sass = Ok kind.
Proof.
  revert acc. induction l as [|[pc s] l IH]; intros acc; cbn [collect_instructions].
  { intros [= ->]. split_and!; [constructor|intros pc H; by apply not_elem_of_nil in H|].
    intros. split; [by left|]. intros [?|[H _]]; [done|by apply not_elem_of_nil in H]. }
  destruct (dict_get acc pc) as [v|] eqn:Ea; cbn; [done|]. destruct (classify s) as [k|e] eqn:Ek; cbn; [|done].
  intros H. apply IH in H as (Hnd & Hout & Hd).
  assert (Hpc : pc ∉ l.*1) by (intros Hin; specialize (Hout pc Hin); by rewrite dict_get_set_eq in Hout).
  split_and!; [by constructor| |].
  - intros pc' [->|Hin]%elem_of_cons; [done|]. specialize (Hout pc' Hin). rewrite dict_get_set_ne in Hout; [done|]. by intros ->.
  - intros pc' sass kind. rewrite Hd, elem_of_cons. destruct (decide (pc = pc')) as [<-|Hne].
    + rewrite dict_get_set_eq, Ea. split.
      * intros [[= <- <-]|[Hin _]]; [right; split; [by left|done]|]. destruct Hpc. apply list_elem_of_fmap. by exists (pc, sass).
      * intros [?|[[[= <-]|Hin] Hk]]; [done|left; by rewrite Ek in Hk; injection Hk as ->|].
        destruct Hpc. apply list_elem_of_fmap. by exists (pc, sass).
    + rewrite dict_get_set_ne by done. split; [intros [?|[? ?]]; auto|]. intros [?|[[[= ? _]|?] ?]]; auto. congruence.
Qed.

Lemma same_blocks_true l k : same_blocks l k = true ↔ ∀ b, b ∈ l ↔ b ∈ k.
Proof.
  unfold same_blocks. rewrite andb_true_iff, !forallb_forall. setoid_rewrite bool_decide_eq_true. setoid_rewrite <- list_elem_of_In.
  split; [intros [H1 H2] b; split; auto|]. intros H. split; intros b Hb; by apply H.
Qed.

(** The kernel whose instructions are shown: the cubin's only entry, from which
    every block can be reached. *)
Record one_kernel (cfg : Cfg) (kernel_name : string) : Prop := {
  sole_entry : ∃ entry, entry_blocks cfg = [entry] ∧ scope_of entry = kernel_name
    ∧ ∀ b, b ∈ (cfg_blocks cfg).*1 ↔ rtc (follows (successors cfg)) entry b;
  distinct_offsets : NoDup (concat (cfg_blocks cfg).*2).*1
}.

(** C40: Static context is shown for one verified kernel only: when
    [load_trace_static_context] gives instructions, the cubin has a single entry
    block, of the kernel asked for; its blocks are exactly those control flow reaches
    from there; no offset occurs twice; and the instructions are exactly those of the
    blocks, each with the class the decoder of the architecture gives it.
    Otherwise there are none. *)
Theorem static_context_is_one_kernel {D} loaded (decoder : res exn D) classify kernel_name instructions status :
  load_trace_static_context loaded decoder classify kernel_name = (instructions, status) →
  instructions = [] ∨ ∃ cfg d, loaded = Ok (Some cfg, status) ∧ one_kernel cfg kernel_name ∧ decoder = Ok d
  ∧ ∀ pc sass kind, dict_get instructions pc = Some (sass, kind) ↔
      (pc, sass) ∈ concat (cfg_blocks cfg).*2 ∧ classify d sass = Ok kind.
Proof.
  unfold load_trace_static_context. destruct loaded as [[[cfg|] st]|e]; cbn [mbind res_bind];
    [|by intros [= <- <-]; left|by intros [= <- <-]; left].
  destruct (static_context _ _ _ _) as [[shown s]|e] eqn:E; [|by intros [= <- <-]; left]. intros [= -> ->]. unfold static_context in E.
  destruct (entry_blocks cfg) as [|entry [|]] eqn:Ee; [by injection E as <- <-; left| |by injection E as <- <-; left].
  destruct (bool_decide_reflect (scope_of entry = kernel_name)) as [Hk|Hk]; cbn [negb] in E; [|by injection E as <- <-; left].
  pose proof (reachable_exact (successors cfg) entry) as Hr.
  destruct (reachable_from _ _ _ _) as [r|x]; cbn [mbind res_bind] in E; [|done].
  destruct (same_blocks r (cfg_blocks cfg).*1) eqn:Es; cbn [negb] in E; [|by injection E as <- <-; left].
  rewrite same_blocks_true in Es. destruct decoder as [d|x]; cbn in E; [|done].
  destruct (collect_instructions _ _ _) as [[l|]|x] eqn:Ec; cbn in E; [|by injection E as <- <-; left|done].
  injection E as -> ->. right. exists cfg, d. apply collect_spec in Ec as (Hnd & _ & Hc). split_and!; [done| |done|].
  - constructor; [|done]. exists entry. split_and!; [done|done|]. intros b. by rewrite <- Es.
  - intros. rewrite Hc. split; [intros [H|H]; [done|exact H]|by right].
Qed.

(** ** The batch analysis *)

(** C39: The batch analysis reports what its traces gave.  Whatever the detectors and
    the file system do: every trace is analysed once, in order, and a failing one
    stops no other.  Each trace's projection follows from what the analyzer gave for
    it ([projection_of]): an exception is kept as an error; an analyzer without a
    name, or other than the one the traces before it settled on, is an error; and
    otherwise every detector of the output brings its summary, with its own words
    and count, and its findings, or else the error of its summary.  The batch is
    these projections, one after the other ([batch_accounts]).  The evidence passes
    its checks and speaks of these traces only; it has all their summaries and
    warnings; its findings are the first [max] of the detectors' findings taken in
    turn, out of the stated total; every failure of a trace makes it an
    infrastructure error whose text has the failure; the artifact describes the
    report on disk; a success has a report, no failed trace, and as many findings as
    fit.  An exception is a summary that is no object, or an error of writing the
    report that is not expected.  Given the traces of an experiment, it keeps the
    contract the experiment relies on. *)
Theorem trace_analysis_reports {W} cwd entry_size os_step exn_text dump_json
    (analyze : string → option string → st (Machine W) exn DeterministicAnalysisOutput)
    fallback max raw_paths arch out_dir m m' x :
  0 ≤ max → raw_paths ≠ [] → blank fallback = false →
  run_trace_analysis cwd entry_size os_step exn_text dump_json analyze fallback max raw_paths arch out_dir m = (m', x) →
  analysis_outcome exn_text cwd dump_json analyze fallback (Z.to_nat max) (sorted_paths (abspath cwd <$> raw_paths)) arch out_dir m m' x
  ∧ ∀ t, x = Ok t → addressable cwd raw_paths → analysis_ok (basename <$> raw_paths) t.
Proof.
  intros Hm Hne Hf H. split; [by apply run_analysis in H|]. intros t -> Ha. by eapply analysis_keeps_contract.
Qed.

(** ** A trace experiment with its analysis *)

Module Composed.
Import GemmCapture GemmRun.

Definition racy (severity : string) : Finding :=
  mkFinding severity "race" "unordered accesses" [[0; 0; 0]] [0; 1] [16; 32] [3; 7] [None; None].
Definition detector (tool : string) (l : list Finding) : AnalysisResult := mkAnalysisResult tool "shared" "violation" "error" "found" l.

(** Two detectors; the analysis of [b.ndjson] fails when [broken]. *)
Definition detectors (broken : bool) (path : string) (_ : option string) : st (Machine ()) exn DeterministicAnalysisOutput := λ m,
  (m, if broken && bool_decide (basename path = "b.ndjson"%string) then Err ValueError
      else Ok (mkOutput "data_race" [detector "race" [racy "error"; racy "warning"]; detector "sync" [racy "error"]] []
                 (JObj []) [] [] "ok")).
Definition dump (_ : json) : res exn string := Ok "{}"%string.

Definition analyse (broken : bool) (paths : list string) (arch out_dir : string) : st (Machine ()) exn TraceAnalysisEvidence :=
  run_trace_analysis "/w" no_size ready message dump (detectors broken) (analyzer_name None "data_race") 3 paths arch out_dir.

(** Both traces have their findings in turn; a failing trace does not hide the other. *)
Example findings_in_turn :
  match (run (target 0 "") (analyse false) None empty).2 with
  | Ok r => tr_completeness r = Complete ∧ (tf_source_tool <$> from_option ta_findings [] (Experiments.analysis r)) = ["race"; "sync"; "race"]%string
            ∧ (total_findings <$> Experiments.analysis r) = Some 6
  | Err _ => False
  end.
Proof. vm_compute. done. Qed.
Example failing_trace :
  match (run (target 0 "") (analyse true) None empty).2 with
  | Ok r => tr_execution_status r = ExecInfraError ∧ tr_completeness r = Partial ∧ (total_findings <$> Experiments.analysis r) = Some 3
            ∧ validate_trace_result r = Ok ()
  | Err _ => False
  end.
Proof. vm_compute. done. Qed.

Lemma analyse_keeps paths arch out m m' t : addressable "/w" paths →
  analyse false paths arch out m = (m', Ok t) → analysis_ok (basename <$> paths) t.
Proof.
  apply (analysis_keeps_contract message "/w" no_size ready dump (detectors false) (analyzer_name None "data_race")). done.
Qed.

Lemma trace_results_accepted_witness :
  ∃ s' r, run (target 0 "") (analyse false) None empty = (s', Ok r) ∧ tr_completeness r = Complete
  ∧ length (checkpoints s') = 1%nat ∧ (accepted_trace spec r ∨ refused_blank r).
Proof.
  eexists _, _. split; [vm_compute; reflexivity|]. split; [reflexivity|]. split; [reflexivity|].
  refine (proj2 (trace_results_accepted loads read_lines (λ _, true) "/w" no_size ready written still nothing (target 0 "")
    (analyse false) "data_race" message [] eq_refl
    analyse_keeps
    eq_refl spec "/o" "/o/.attempt" "1.0" "12.8" None (Some keep) 60 None None
    None None true None empty _ (Ok _) _ _ _)).
  - intros f r m m' y Hf Hr a _ Ha. injection Hf as <-. injection Hr as <- _. exact Ha.
  - intros r Hr. discriminate Hr.
  - vm_compute. reflexivity.
Defined.

(** Two good traces; and a trace whose analyzer raises beside a good one: its
    failure is in the error, the other's findings stay. *)
Lemma trace_analysis_reports_witness :
  let paths := ["/o/b.ndjson"; "/o/a.ndjson"]%string in
  (∃ m' t, analyse false paths "sm_90" "/o" empty = (m', Ok t) ∧ ta_execution_status t = Succeeded
   ∧ length (ta_findings t) = 3%nat ∧ analysis_ok ["b.ndjson"; "a.ndjson"]%string t)
  ∧ ∃ m' t, analyse true paths "sm_90" "/o" empty = (m', Ok t) ∧ length (ta_findings t) = 3%nat
    ∧ ∃ m1 xs b, run_each (λ path, detectors true path (text_or_none "sm_90")) (sorted_paths paths) empty = (m1, xs)
        ∧ batch_accounts message xs b ∧ detector_summaries t = b_summaries b
        ∧ ∀ f, f ∈ b_failures b → ta_execution_status t = ExecInfraError ∧ ∃ err, ta_error t = Some err ∧ mentions err f.
Proof.
  split.
  - eexists _, _. split; [vm_compute; reflexivity|]. split; [reflexivity|]. split; [reflexivity|].
    refine (proj2 (trace_analysis_reports "/w" no_size ready message dump (detectors false) (analyzer_name None "data_race") 3
      ["/o/b.ndjson"; "/o/a.ndjson"]%string "sm_90" "/o" empty _ (Ok _) _ _ eq_refl _) _ eq_refl _).
    + lia.
    + done.
    + vm_compute. reflexivity.
    + split_and!; [done| |].
      * apply (bool_decide_unpack _). vm_compute. done.
      * repeat constructor; by vm_compute.
  - eexists _, _. split; [vm_compute; reflexivity|]. split; [reflexivity|].
    edestruct (trace_analysis_reports "/w" no_size ready message dump (detectors true) (analyzer_name None "data_race") 3
      ["/o/b.ndjson"; "/o/a.ndjson"]%string "sm_90" "/o" empty) as [(m1 & xs & b & Hx & _ & _ & Hb & He) _];
      [lia|done|reflexivity|vm_compute; reflexivity|].
    exists m1, xs, b. split; [exact Hx|]. split; [exact Hb|].
    split; [exact (e_summaries _ _ _ _ _ He)|exact (e_failures _ _ _ _ _ He)].
Defined.

(** A kernel of two blocks, and a block nothing leads to. *)
Definition small_cfg (extra : bool) : Cfg :=
  mkCfg ["gemm@0"]%string
    ([("gemm@0"%string, [(0, "LDS R0"%string); (16, "BRA"%string)]); ("gemm@1"%string, [(32, "EXIT"%string)])]
       ++ if extra then [("gemm@2"%string, [(48, "NOP"%string)])] else [])%list
    [("gemm@0", ["gemm@1"; "gemm@0"]); ("gemm@1", []); ("gemm@2", [])]%string.
Definition class (_ : ()) (sass : string) : res exn string := Ok (if bool_decide (sass = "EXIT"%string) then "EXIT" else "OTHER")%string.

Example unreached_block : load_trace_static_context (Ok (Some (small_cfg true), "ok"%string)) (Ok ()) class "gemm"
  = ([], "kernel_scope_unverified"%string).
Proof. vm_compute. done. Qed.

Lemma static_context_is_one_kernel_witness :
  ∃ instructions, load_trace_static_context (Ok (Some (small_cfg false), "ok"%string)) (Ok ()) class "gemm" = (instructions, "ok"%string)
  ∧ instructions.*1 = [0; 16; 32]
  ∧ (instructions = [] ∨ ∃ cfg d, Ok (Some (small_cfg false), "ok"%string) = Ok (E:=exn) (Some cfg, "ok"%string)
      ∧ one_kernel cfg "gemm" ∧ Ok () = Ok (E:=exn) d ∧ ∀ pc sass kind, dict_get instructions pc = Some (sass, kind) ↔
          (pc, sass) ∈ concat (cfg_blocks cfg).*2 ∧ class d sass = Ok kind).
Proof.
  eexists _. split; [vm_compute; reflexivity|]. split; [reflexivity|].
  refine (static_context_is_one_kernel (Ok (Some (small_cfg false), "ok"%string)) (Ok ()) class "gemm" _ "ok" _).
  vm_compute. reflexivity.
Defined.
End Composed.
