(* ===== verification/SanitizerExperiment.v ===== *)
(** Sanitizer experiments: src/python/cutracer/compute_sanitizer/run.py and
    src/python/cutracer/service/experiments/sanitizer.py.

    [run_compute_sanitizer] finds the tool, asks it what it supports, and runs the
    target under it; [run_sanitizer_experiment] does so in a private attempt
    directory, publishes the log and turns it into a result (SanitizerResults).

    Parameters: [executable] and [which], what the operating system says of the
    tool; [help_output], what the tool prints about itself ([None] when it cannot be
    run); [run_target], the process; [environ], the process environment; the disk's
    calls, [clock] and [leftover] as in TraceExperiment; the caller's [reader] and
    [supports_tensor_ops]. *)
From S2P Require Import Prelude.
From S2P Require Import PyStr.
From S2P Require Import PyDict.
From S2P Require Import PyText.
From S2P Require Import Sha256.
From S2P Require Import Json.
From S2P Require Import Contracts.
From S2P Require Import Results.
From S2P Require Import Experiments.
From S2P Require Import SanitizerResults.
From S2P Require Import Paths.
From S2P Require Import Artifacts.
From S2P Require Import TraceExperiment.
From Stdlib Require Import Ascii.
From Stdlib Require String.
Local Open Scope Z_scope.

(** ** The command line *)

(** [ComputeSanitizerConfig]. *)
Record ComputeSanitizerConfig := mkSanitizerConfig {
  sc_argv : list string; sc_tool : string; sc_output_dir : option string; sc_compute_sanitizer : option string;
  sc_cwd : option string; sc_timeout : option Z; sc_base_env : option (dict string string);
  sc_env : option (list (string * string)); sc_kernel_name : option string
}.

(** [build_compute_sanitizer_argv]. *)
Definition build_compute_sanitizer_argv (sanitizer_bin tool : string) (cmd : list string) (log_file : option string)
    (check_tensor_ops : bool) (kernel_name : option string) : res exn (list string) :=
  let base := [sanitizer_bin; "--tool"; tool; "--target-processes"; "all"]%string
              ++ (if bool_decide (tool = "initcheck"%string) then ["--demangle"; "no"]%string else [])
              ++ (if check_tensor_ops then ["--check-tensor-ops"; "yes"]%string else []) in
  filtered ← (match kernel_name with
              | None => Ok []
              | Some k => if blank k then Err ValueError else Ok ["--kernel-name"; "kns=" +:+ k]%string
              end : res exn (list string));
  Ok (base ++ filtered ++ (if bool_decide (tool = "memcheck"%string) then ["--report-api-errors"; "explicit"]%string else [])
        ++ (match log_file with Some f => ["--log-file"; f]%string | None => [] end) ++ cmd).

(** The keyword arguments of [subprocess.run]. *)
Record SanitizerLaunch := mkSanitizerLaunch {
  la_argv : list string; la_env : dict string string; la_cwd : option string; la_timeout : option Z
}.

(** [ComputeSanitizerRunResult]. *)
Record ComputeSanitizerRunResult := mkSanitizerRun {
  sr_process : CompletedProcess; sr_sanitizer_bin : string; sr_log_path : option string; sr_tensor_ops_enabled : bool
}.

(** What reading a log gives. *)
Inductive Reading := ReadText (text : string) | NoSuchFile | Unreadable (e : exn).

Section Sanitizing.
Context {W : Type}.
Notation M := (st (Machine W) exn).
Variable cwd : string.
Variable os_step : W → W * bool.
Variable write_file : W → W * Writing.
Variable clock : W → W * float.
Variable leftover : W → W * (string → bool).
Variable executable : string → bool.
Variable which : option string.
Variable help_output : string → W → W * option (option string * option string).
Variable run_target : SanitizerLaunch → M CompletedProcess.
Variable exn_text : exn → string.
Variable environ : dict string string.

(** ** Running the tool *)

(** [resolve_compute_sanitizer]. *)
Definition resolve_compute_sanitizer (d : Disk) (override : option string) : res exn string :=
  match override with
  | Some path =>
      if negb (is_file d (abspath cwd path)) then Err ClickException
      else if negb (executable path) then Err ClickException
      else Ok path
  | None => match which with Some found => Ok found | None => Err ClickException end
  end.

(** [compute_sanitizer_supports_tensor_ops]. *)
Definition compute_sanitizer_supports_tensor_ops (sanitizer_bin : string) : M bool := λ m,
  let '(w, o) := help_output sanitizer_bin (env_ m) in
  (mkMachine (disk m) w,
   Ok (match o with
       | None => false
       | Some (out, err) => contains (chars "--check-tensor-ops") (chars (text_of out +:+ text_of err)%string)
       end)).

(** [os.unlink] of a log that may not be there. *)
Definition unlink_if_there (path : string) : M () := λ m,
  match disk m !! path with
  | None => (m, Ok ())
  | Some Directory => (m, Err OSError)
  | Some _ =>
      match step_or_raise os_step OSError m with
      | (m', Ok _) => (mkMachine (delete path (disk m')) (env_ m'), Ok ())
      | (m', Err e) => (m', Err e)
      end
  end.

(** The environment of the target: without the injection slot of a tracing parent. *)
Definition sanitizer_env (c : ComputeSanitizerConfig) : dict string string :=
  let base := default environ (sc_base_env c) in
  dict_pop (fold_left (λ d e, dict_set d e.1 e.2) (default [] (sc_env c)) base) "CUDA_INJECTION64_PATH".

(** The log's path, once an older log is gone. *)
Definition prepare_log (c : ComputeSanitizerConfig) : M (option string) :=
  match sc_output_dir c with
  | None => mret None
  | Some dir =>
      _ ← step_or_raise os_step OSError;
      let log_path := join dir (sc_tool c +:+ ".log")%string in
      _ ← unlink_if_there (abspath cwd log_path);
      mret (Some log_path)
  end.

(** [run_compute_sanitizer]. *)
Definition run_compute_sanitizer (c : ComputeSanitizerConfig) (supports_tensor_ops : option (string → M bool))
    : M ComputeSanitizerRunResult :=
  if bool_decide (sc_argv c = []) then st_raise ValueError
  else
    m ← st_get;
    sanitizer_bin ← st_lift (resolve_compute_sanitizer (disk m) (sc_compute_sanitizer c));
    tensor_ops ← default compute_sanitizer_supports_tensor_ops supports_tensor_ops sanitizer_bin;
    log_path ← prepare_log c;
    argv ← st_lift (build_compute_sanitizer_argv sanitizer_bin (sc_tool c) (sc_argv c) log_path tensor_ops (sc_kernel_name c));
    p ← run_target (mkSanitizerLaunch argv (sanitizer_env c) (sc_cwd c) (sc_timeout c));
    mret (mkSanitizerRun p sanitizer_bin log_path tensor_ops).

(** ** The experiment *)

Definition append_error (error : option string) (detail : string) : string :=
  match error with None => detail | Some e => (e +:+ "; " +:+ detail)%string end.
Definition record_artifact_failure (status : ExecutionStatus) : ExecutionStatus :=
  if bool_decide (status = Succeeded) then ExecInfraError else status.

(** [_kernel_filter_name]. *)
Definition kernel_filter_name (sp : ExperimentSpec) : res exn (option string) :=
  if match sp_sanitizer_tool sp with Some t => is_target_scoped_sanitizer t | None => false end then Ok None
  else match kernel (sp_unit sp) with
       | None => Ok None
       | Some k =>
           match mangled_name k with
           | Some n => if blank n then Err ValueError else Ok (Some n)
           | None => Err ValueError
           end
       end.

Definition sanitizer_config (sp : ExperimentSpec) (tool attempt_dir : string) (compute_sanitizer : option string) (timeout : Z)
    : res exn ComputeSanitizerConfig :=
  k ← kernel_filter_name sp;
  let u := sp_unit sp in
  Ok (mkSanitizerConfig (argv u) tool (Some attempt_dir) compute_sanitizer (text_or_none (Contracts.cwd u)) (Some timeout)
        (Some environ) (Some (env u)) k).

(** What [_invoke_sanitizer] makes of the run. *)
Definition judge_run (log_path : string) (r : ComputeSanitizerRunResult) : ExecutionStatus * option string * string :=
  let p := sr_process r in
  let path := match sr_log_path r with Some l => if bool_decide (l = ""%string) then log_path else l | None => log_path end in
  if returncode p =? 0 then (Succeeded, None, path)
  else
    let detail := text_of (proc_stderr p) in
    (ExecFailed, Some (if bool_decide (detail = "") then "process failed" else detail)%string, path).

(** [_invoke_sanitizer]: only a time limit, [ClickException], [OSError] and
    [ValueError] are turned into a status. *)
Definition invoke_sanitizer (sp : ExperimentSpec) (tool attempt_dir : string) (compute_sanitizer : option string)
    (supports_tensor_ops : option (string → M bool)) (timeout : Z) : M (ExecutionStatus * option string * string) := λ m,
  let log_path := join attempt_dir (tool +:+ ".log")%string in
  let run := (c ← st_lift (sanitizer_config sp tool attempt_dir compute_sanitizer timeout);
              run_compute_sanitizer c supports_tensor_ops) : M ComputeSanitizerRunResult in
  match run m with
  | (m', Ok r) => (m', Ok (judge_run log_path r))
  | (m', Err e) =>
      match e with
      | TimeoutExpired _ _ => (m', Ok (ExecTimedOut, Some (exn_text e), log_path))
      | ClickException | OSError | ValueError => (m', Ok (ExecInfraError, Some (exn_text e), log_path))
      | _ => (m', Err e)
      end
  end.

(** What text mode makes of a file's line ends. *)
Fixpoint universal_newlines (l : list ascii) : list ascii :=
  match l with
  | [] => []
  | "013"%char :: r => "010"%char :: match r with "010"%char :: r' => universal_newlines r' | _ => universal_newlines r end
  | c :: r => c :: universal_newlines r
  end.
Definition text_mode (bytes : string) : string := str (universal_newlines (chars bytes)).

(** [_default_reader]. *)
Definition default_reader (path : string) : Machine W → Machine W * Reading := λ m,
  (m, match disk m !! abspath cwd path with
      | None | Some (Symlink None) => NoSuchFile
      | Some e => match entry_text e with Some t => ReadText (text_mode t) | None => Unreadable OSError end
      end).

(** [publish_local_artifact] of a text file, not addressed by its content. *)
Definition publish_file (source destination : string) : M ArtifactRef :=
  let destination := abspath cwd destination in
  _ ← step_or_raise os_step OSError;
  _ ← step_or_raise os_step OSError;
  m ← st_get;
  text ← st_lift (match read_file (disk m) (abspath cwd source) with Some t => Ok t | None => Err OSError end);
  _ ← replace_file write_file OSError destination text;
  mret (mkArtifactRef (local_file_uri cwd destination) (basename destination)
          (Some (str (sha256_hexdigest (chars text)))) (Some (Z.of_nat (String.length text))) "text/plain").

(** [_read_and_publish_log]: the text that was read, the published log, and the
    status and error after it. *)
Definition read_and_publish_log (log_path out_dir tool : string) (read : string → Machine W → Machine W * Reading)
    (status : ExecutionStatus) (error : option string)
    : M (string * option ArtifactRef * ExecutionStatus * option string) := λ m,
  let failed text detail := (text, None, record_artifact_failure status, Some (append_error error detail)) in
  let '(m, r) := read log_path m in
  match r with
  | NoSuchFile => (m, Ok (failed "" "sanitizer completed without producing its log"))%string
  | Unreadable OSError =>
      (m, Ok (failed "" ("could not read sanitizer log " +:+ log_path +:+ ": " +:+ exn_text OSError)))%string
  | Unreadable e => (m, Err e)
  | ReadText text =>
      match publish_file log_path (join out_dir (tool +:+ ".log")%string) m with
      | (m, Ok log) => (m, Ok (text, Some log, status, error))
      | (m, Err OSError) => (m, Ok (failed text ("could not publish sanitizer log: " +:+ exn_text OSError)))%string
      | (m, Err e) => (m, Err e)
      end
  end.

Definition monotonic_time : M float := λ m, let '(w, t) := clock (env_ m) in (mkMachine (disk m) w, Ok t).

(** [_run_sanitizer_attempt]. *)
Definition run_sanitizer_attempt (sp : ExperimentSpec) (out_dir attempt_dir : string)
    (reader : option (string → Machine W → Machine W * Reading)) (compute_sanitizer : option string)
    (supports_tensor_ops : option (string → M bool)) (timeout : Z) : M SanitizerSweepResult :=
  match sp_sanitizer_tool sp with
  | None => st_raise ValueError
  | Some tool =>
      started ← monotonic_time;
      '((status, error), log_path) ← invoke_sanitizer sp tool attempt_dir compute_sanitizer supports_tensor_ops timeout;
      '(((text, log), status), error) ← read_and_publish_log log_path out_dir tool (default default_reader reader) status error;
      now ← monotonic_time;
      st_lift (build_sanitizer_result sp status (chars text) log (f_sub now started) error None)
  end.

(** The [try … finally] of [run_sanitizer_experiment]. *)
Definition attempt_and_remove (sp : ExperimentSpec) (out_dir attempt_dir : string)
    (reader : option (string → Machine W → Machine W * Reading)) (compute_sanitizer : option string)
    (supports_tensor_ops : option (string → M bool)) (timeout : Z) : M SanitizerSweepResult := λ m,
  let '(m, r) := run_sanitizer_attempt sp out_dir attempt_dir reader compute_sanitizer supports_tensor_ops timeout m in
  let '(m, _) := remove_attempt cwd leftover attempt_dir m in (m, r).

(** [run_sanitizer_experiment]; the attempt directory is one [tempfile.mkdtemp] made,
    and is removed however the attempt ends. *)
Definition run_sanitizer_experiment (sp : ExperimentSpec) (out_dir attempt_dir : string)
    (reader : option (string → Machine W → Machine W * Reading)) (compute_sanitizer : option string)
    (supports_tensor_ops : option (string → M bool)) (timeout : Z) : M SanitizerSweepResult :=
  if negb (bool_decide (sp_kind sp = COMPUTE_SANITIZER)) then st_raise ValueError
  else
    match sp_sanitizer_tool sp with
    | None => st_raise ValueError
    | Some _ =>
        _ ← step_or_raise os_step OSError;
        _ ← step_or_raise os_step OSError;
        _ ← st_modify (λ m, mkMachine (<[abspath cwd attempt_dir := Directory]> (disk m)) (env_ m));
        attempt_and_remove sp out_dir attempt_dir reader compute_sanitizer supports_tensor_ops timeout
    end.
End Sanitizing.
