(* ===== verification/SanitizerExperimentProperties.v ===== *)
(** What the sanitizer experiments guarantee: every result is one the session
    accepts, it is what the log of the run says, and only a finished run of a
    healthy target is clean; the tool is started without the injection slot of a
    tracing parent and without an older log. *)
From S2P Require Import Prelude.
From S2P Require Import PyStr.
From S2P Require Import PyDict.
From S2P Require Import PyText.
From S2P Require Import Sha256.
From S2P Require Import Regex.
From S2P Require Import Sanitizer.
From S2P Require Import Json.
From S2P Require Import Contracts.
From S2P Require Import Results.
From S2P Require Import Experiments.
From S2P Require Import SanitizerResults.
From S2P Require Import SessionContracts.
From S2P Require Import SessionValidation.
From S2P Require Import Paths.
From S2P Require Import Artifacts.
From S2P Require Import TraceExperiment.
From S2P Require Import Hoare.
From S2P Require Import TraceExperimentProperties.
From S2P Require Import SanitizerExperiment.
From Stdlib Require Import Ascii.
From Stdlib Require String.
Local Open Scope Z_scope.

(** ** Counts are not negative *)

Lemma dec_value_nonneg l : Forall (λ c, is_digit c = true) l → 0 ≤ dec_value l.
Proof.
  unfold dec_value. assert (∀ a, 0 ≤ a → Forall (λ c, is_digit c = true) l →
    0 ≤ fold_left (λ a c, 10 * a + (code c - 48)) l a) as H; [|by apply H].
  induction l as [|c l IH]; intros a Ha Hl; [done|]. apply Forall_cons in Hl as [Hc Hl]. cbn. apply IH; [|done].
  unfold is_digit in Hc. lia.
Qed.

Lemma required_digits p n r s m t :
  re_match r s = Some m ∨ re_fullmatch r s = Some m → captures_in p n r → required (groups m) n = Ok t → Forall (λ c, p c = true) t.
Proof.
  intros H Hr Ht. unfold required in Ht. destruct (group (groups m) n) as [t'|] eqn:Eg; [|done]. injection Ht as ->.
  destruct H as [H|H]; [eapply re_match_group_in|eapply re_fullmatch_group_in]; by eauto.
Qed.

(** The numbers of the two summary lines are runs of digits. *)
Ltac digit_group := cbn; repeat first [progress intros | split | discriminate | assumption].

Lemma race_summary_nonneg s : parsed_summary s → 0 ≤ Sanitizer.total_hazards s ∧ 0 ≤ Sanitizer.errors s ∧ 0 ≤ Sanitizer.warnings s.
Proof.
  intros (m & Hm & H). revert H. unfold summary_of_match.
  destruct (required (groups m) "total") as [a|] eqn:Ea; [|done]. cbn [mbind res_bind].
  destruct (required (groups m) "errors") as [b|] eqn:Eb; [|done]. cbn [mbind res_bind].
  destruct (required (groups m) "warnings") as [c|] eqn:Ec; [|done]. cbn [mbind res_bind]. intros [= <-]. cbn.
  split_and!; apply dec_value_nonneg; (eapply required_digits; [by right; exact Hm| |eassumption]); digit_group.
Qed.

(** ** A complete report whose summary counts nothing reports nothing *)

Definition counts_nothing (s : CheckerSummary) : Prop := cs_errors s = 0 ∧ cs_warnings s = 0 ∧ cs_total_hazards s = 0.

Definition honest (r : CheckerParseResult) : Prop :=
  cr_is_complete r = true →
    ∃ s, cr_summary r = Some s ∧ (cs_is_positive s = false → counts_nothing s ∧ Sanitizer.issues r = []).

Lemma not_positive s : 0 ≤ cs_errors s → 0 ≤ cs_warnings s → 0 ≤ cs_total_hazards s → cs_is_positive s = false → counts_nothing s.
Proof. unfold cs_is_positive, counts_nothing. rewrite !orb_false_iff, !Z.ltb_ge. lia. Qed.

(** *** Racecheck *)

Lemma complete_race_summary log r : parse_racecheck_log log = Ok r → Sanitizer.is_complete r = true →
  ∃ s, Sanitizer.summary r = Some s ∧ parsed_summary s
       ∧ summary_consistency_diagnostics s (Sanitizer.findings r) (invalid_accesses r) = [].
Proof.
  unfold parse_racecheck_log. rewrite consume_all_bodies. set (bs := omap sanitizer_body (splitlines log)).
  destruct (consume_bodies_ok bs parser0 parser0_ok) as (p & -> & [Hb _ Hc]). cbn. unfold finish.
  destruct (flush_ok p Hb) as (p1 & -> & [_ Gc Gs Gm _] & _ & _ & _). cbn [mbind res_bind].
  intros [= <-]. unfold Sanitizer.is_complete. set (p2 := if _ =? 0 then _ else _).
  assert (p_summary p2 = p_summary p1 ∧ p_findings p2 = p_findings p1 ∧ p_invalid p2 = p_invalid p1
    ∧ (p_diagnostics p2 = [] → p_diagnostics p1 = [] ∧ summary_markers p1 ≠ 0)) as (E1 & E2 & E3 & Hd).
  { unfold p2. destruct (Z.eqb_spec (summary_markers p1) 0), (1 <? summary_markers p1); cbn; split_and!; try done;
      intros H; by apply add_diagnostic_not_nil in H. }
  cbn [Sanitizer.summary diagnostics Sanitizer.findings invalid_accesses]. rewrite E1, E2, E3.
  destruct (p_summary p1) as [s|] eqn:Es; [|done]. destruct (fold_left _ _ _) eqn:Ed; [|done]. intros _.
  apply fold_diagnostics_nil in Ed as [Ed Hcons]. destruct (Hd Ed) as [Ed1 Hm]. exists s. split_and!; [done| |done].
  destruct (Gc Ed1) as (Edp & _). destruct (Hc Edp) as (_ & _ & _ & _ & Hm0 & Hlast).
  destruct (last _) as [b|] eqn:El.
  - destruct Hlast as (s' & Hs' & _ & Hp). assert (s' = s) as -> by congruence. done.
  - exfalso. apply last_None in El. unfold tally in Hm0. rewrite El in Hm0. cbn in Hm0. lia.
Qed.

Lemma racecheck_honest log r : racecheck_as_checker_result log = Ok r → honest r.
Proof.
  unfold racecheck_as_checker_result. destruct (parse_racecheck_log log) as [x|] eqn:Ex; [|done]. cbn [mbind res_bind].
  intros [= <-]. unfold honest, cr_is_complete. cbn. intros Hc.
  assert (Sanitizer.is_complete x = true) as Hx by (unfold Sanitizer.is_complete; by destruct (Sanitizer.summary x)).
  destruct (complete_race_summary log x Ex Hx) as (s & Es & Hp & Hcons). rewrite Es. cbn. eexists. split; [done|]. intros Hz.
  destruct (race_summary_nonneg s Hp) as (H1 & H2 & H3). apply consistency_nil in Hcons as (_ & Hn & _).
  apply not_positive in Hz as Hz'; cbn in *; [|done..]. split; [done|]. destruct Hz' as (_ & _ & H0). cbn in H0.
  by destruct (proj1 Hn H0) as [-> ->].
Qed.

(** *** The other tools *)

Definition e_good (p : ErrorCheckerParser) : Prop :=
  ∀ s, e_summary p = Some s → 0 ≤ cs_errors s ∧ cs_warnings s = 0 ∧ cs_total_hazards s = 0.

Lemma e_consume_good tool b bs p p' : e_good p → e_consume tool b bs p = Ok p' → e_good p'.
Proof.
  intros Hp. unfold e_consume. destruct (starts_with _ b); [by intros [= <-]|].
  assert (∀ p1 taken, e_consume_summary b p = Ok (p1, taken) → e_good p1) as Hs.
  { intros p1 taken. unfold e_consume_summary. destruct (contains _ b); [|by intros [= <- <-]].
    destruct (re_match ERROR_NOT_PRINTED_RE b) as [m|].
    { destruct (required _ _); [|done]. by intros [= <- <-]. }
    destruct (re_match ERROR_SUMMARY_RE b) as [m|] eqn:Em; [|by intros [= <- <-]].
    destruct (required (groups m) "errors") as [t|] eqn:Et; [|done]. intros [= <- <-] s [= <-]. cbn. split_and!; [|done..].
    apply dec_value_nonneg. eapply required_digits; [by left; exact Em| |exact Et]. digit_group. }
  destruct (e_consume_summary b p) as [[p1 taken]|] eqn:E1; [|done]. cbn [mbind res_bind]. specialize (Hs _ _ eq_refl).
  destruct taken; [by intros [= <-]|]. unfold consume_issue. destruct (checker_issue_at tool b bs) as [o|]; [|done]. cbn [mbind res_bind].
  destruct o as [i|]; intros [= <-]; [|done]. cbv zeta. unfold e_good. cbn. by destruct (_ && _).
Qed.

Lemma e_consume_all_good tool bs p p' : e_good p → e_consume_all tool bs p = Ok p' → e_good p'.
Proof.
  revert p. induction bs as [|[b|] bs IH]; intros p Hp; cbn [e_consume_all]; [by intros [= <-]| |by apply IH].
  destruct (e_consume tool b bs p) as [p1|] eqn:E1; [|done]. cbn [mbind res_bind]. apply IH. by eapply e_consume_good.
Qed.

Lemma error_checker_honest tool log r : parse_error_checker_log tool log = Ok r → honest r.
Proof.
  unfold parse_error_checker_log. destruct (e_consume_all _ _ _) as [p|] eqn:Ep; [|done]. cbn [mbind res_bind]. intros [= <-].
  assert (e_good p) as Hp by by eapply e_consume_all_good; [|exact Ep]. clear Ep. unfold honest, cr_is_complete, e_finish.
  set (p1 := if _ =? 0 then _ else _).
  assert (e_summary p1 = e_summary p) as E1 by (unfold p1; by destruct (e_markers p =? 0), (1 <? e_markers p)). clearbody p1.
  destruct (e_summary p1) as [s|] eqn:Es; [|done]. cbv zeta. set (s' := match e_not_printed p1 with Some _ => _ | None => _ end).
  cbn [cr_summary cr_diagnostics Sanitizer.issues]. intros Hd. exists s'. split; [done|]. intros Hz.
  destruct (Hp s (eq_sym E1)) as (H1 & H2 & H3).
  assert (cs_errors s' = cs_errors s ∧ cs_warnings s' = 0 ∧ cs_total_hazards s' = 0) as (E2 & E3 & E4)
    by (unfold s'; by destruct (e_not_printed p1)).
  split; [apply not_positive; [lia..|done]|]. revert Hd. unfold cs_is_zero. rewrite Hz. cbn [andb orb negb].
  destruct (e_issues p1) as [|i l] eqn:Ei.
  - intros _. cbn. by rewrite ?Ei.
  - rewrite bool_decide_false by done. cbn [negb e_diagnostics e_diagnose]. destruct (add_diagnostic (e_diagnostics p1) SUMMARY_FINDING_MISMATCH) eqn:E; [by apply add_diagnostic_not_nil in E|done].
Qed.

Lemma parsed_honest tool log : ∃ r, parse_checker_log tool log = Ok r ∧ honest r.
Proof.
  assert (∃ r, parse_checker_log tool log = Ok r) as [r Hr].
  { unfold parse_checker_log, racecheck_as_checker_result, parse_error_checker_log. destruct tool;
      try (edestruct e_consume_all_ok as [p ->]; by eexists). destruct (parse_racecheck_ok log) as [x ->]. by eexists. }
  exists r. split; [done|]. destruct tool; cbn in Hr; eauto using racecheck_honest, error_checker_honest.
Qed.

(** ** Results the session accepts *)

Definition accepted_sweep (sp : ExperimentSpec) (r : SanitizerSweepResult) : Prop :=
  validate_provenance sp (SweepResult r) = Ok () ∧ validate_sanitizer_result sp r = Ok ().

(** Evidence of a log: when it is complete there is nothing to report about it, and
    a summary that counts nothing has no findings. *)
Record evidence_ok (e : CheckerEvidence) : Prop := {
  issue_free : ce_completeness e = Complete → ce_issues e = [];
  never_early : ce_completeness e ≠ CompleteEarly;
  summary_honest : ce_completeness e = Complete → ∃ s, ce_summary e = Some s
    ∧ (summary_is_positive s = false → summary_is_zero s = true ∧ ce_findings e = [])
}.

Lemma summary_positive s : summary_is_positive (to_summary s) = cs_is_positive s.
Proof. unfold summary_is_positive, cs_is_positive, to_summary. cbn. by destruct (0 <? cs_total_hazards s), (0 <? cs_errors s), (0 <? cs_warnings s). Qed.

Lemma parsed_evidence tool text : ∃ e, parse_checker_evidence tool text = Ok e ∧ evidence_ok e.
Proof.
  unfold parse_checker_evidence. destruct (parsed_honest tool text) as (r & -> & Hr). cbn [mbind res_bind].
  eexists. split; [done|]. split; cbn.
  - unfold cr_is_complete. by destruct (cr_summary r), (cr_diagnostics r).
  - by destruct (cr_is_complete r).
  - destruct (cr_is_complete r) eqn:Ec; [|done]. intros _. destruct (Hr Ec) as (s & Es & Hs). rewrite Es. cbn. eexists.
    split; [done|]. rewrite summary_positive. intros Hz. destruct (Hs Hz) as [(H1 & H2 & H3) Hi]. rewrite Hi.
    unfold summary_is_zero, to_summary. cbn. by rewrite H1, H2, H3.
Qed.

Lemma evidence_of tool text : ∃ e, checker_evidence tool text = Ok e ∧ evidence_ok e
  ∧ (ce_completeness e = Complete → tool ∈ SUPPORTED_SANITIZER_TOOLS).
Proof.
  unfold checker_evidence. destruct (field CheckerTool_values tool) as [t|] eqn:Et.
  - destruct (parsed_evidence t text) as (e & -> & He). exists e. split_and!; [done..|]. intros _.
    rewrite field_dict_get in Et. apply dict_get_In in Et.
    change (tool ∈ fst <$> CheckerTool_values). by apply (list_elem_of_fmap_2 fst _ (tool, t)).
  - eexists. split_and!; [done| |done]. by split.
Qed.

(** The result of [build_sanitizer_result] before it is projected on a kernel. *)
Definition unprojected (sp : ExperimentSpec) (tool : string) (e : CheckerEvidence) (status : ExecutionStatus)
    (log : option ArtifactRef) (duration_s : float) (error : option string) : SanitizerSweepResult :=
  let internal := bool_decide (diagnostic_value INTERNAL_TOOL_ERROR ∈ ce_issues e) in
  let status := if internal then ExecInfraError else status in
  mkSweep (sp_experiment_id sp) status (sanitizer_outcome e status log) tool (ce_findings e)
    (spec_provenance (sp_unit sp)) log duration_s
    (if internal then Some (match error with None => INTERNAL_TOOL_ERROR_TEXT
                                           | Some m => m +:+ "; " +:+ INTERNAL_TOOL_ERROR_TEXT end) else error)
    (ce_summary e) (ce_completeness e) (ce_issues e) (ce_truncated e).

(** What is true of a sanitizer result: it passes the session, its log and status
    are those of the run, and it is clean only when the run was. *)
Record judged (sp : ExperimentSpec) (status : ExecutionStatus) (log : option ArtifactRef) (r : SanitizerSweepResult) : Prop := {
  jd_accepted : accepted_sweep sp r;
  jd_log : sw_log r = log;
  jd_clean : sw_outcome r = SaniClean → status = Succeeded ∧ is_some log = true ∧ sweep_has_trustworthy_clean r = true
}.

Lemma sweep_provenance sp r : pv_source_revision (sw_provenance r) = source_revision (sp_unit sp) →
  pv_arch (sw_provenance r) = arch (sp_unit sp) → pv_kernel (sw_provenance r) = kernel (sp_unit sp) →
  validate_provenance sp (SweepResult r) = Ok ().
Proof.
  intros E1 E2 E3. unfold validate_provenance. cbn [result_provenance]. rewrite E1, E2, E3. cbn.
  rewrite !bool_decide_true by done. cbn. destruct (kernel (sp_unit sp)); [|done]. by rewrite !bool_decide_true.
Qed.

(** The conditions the session looks at. *)
Lemma sweep_valid sp r : Some (sw_tool r) = sp_sanitizer_tool sp →
  (sw_outcome r = SaniFinding → ∃ s, sw_summary r = Some s ∧ summary_is_positive s = true) →
  (sw_outcome r = SaniClean → sweep_has_trustworthy_clean r = true) →
  (sw_completeness r = Complete → summary_issues r = []) → sw_completeness r ≠ CompleteEarly →
  validate_sanitizer_result sp r = Ok ().
Proof.
  intros Ht Hf Hc Hi He. unfold validate_sanitizer_result. cbv zeta. rewrite (bool_decide_true (Some _ = _)) by done. cbn [negb reject_if mbind res_bind].
  rewrite (bool_decide_false (sw_completeness r = CompleteEarly)) by done.
  assert (bool_decide (sw_completeness r = Complete) && bool_decide (summary_issues r ≠ []) = false) as ->.
  { apply andb_false_iff. destruct (decide (sw_completeness r = Complete)) as [E|E]; [right|left]; apply bool_decide_eq_false; [|done].
    rewrite (Hi E). by intros H. }
  destruct (sw_outcome r).
  - rewrite (Hc eq_refl). by destruct (_ || _).
  - destruct (Hf eq_refl) as (s & -> & ->). by rewrite orb_true_r.
  - done.
Qed.

Lemma unprojected_judged sp tool e status log d error :
  sp_sanitizer_tool sp = Some tool → evidence_ok e → (ce_completeness e = Complete → tool ∈ SUPPORTED_SANITIZER_TOOLS) →
  judged sp status log (unprojected sp tool e status log d error).
Proof.
  intros Ht [Hi He Hs] Hsup. set (r := unprojected _ _ _ _ _ _ _).
  assert (sw_outcome r = SaniClean → status = Succeeded ∧ is_some log = true ∧ sweep_has_trustworthy_clean r = true) as Hclean.
  { intros Hc. unfold r, unprojected in Hc. cbn [sw_outcome] in Hc. unfold sanitizer_outcome in Hc.
    case_bool_decide as E; [|done]. cbn [negb] in Hc. destruct (Hs E) as (s & Es & Hz). rewrite Es in Hc.
    destruct (summary_is_positive s) eqn:Ep; [done|]. destruct (Hz eq_refl) as [Hzero Hf].
    unfold sweep_has_trustworthy_clean, r, unprojected. cbn [sw_execution_status sw_tool sw_outcome sw_completeness sw_summary summary_issues Results.findings].
    unfold sanitizer_outcome. rewrite Es, Ep, Hzero, E, Hf, (Hi E). cbn [bool_decide negb] in *. rewrite (Hi E) in Hc.
    rewrite (bool_decide_false (_ ∈ [])) in Hc |- * by apply not_elem_of_nil.
    destruct (bool_decide (status = Succeeded) && is_some log) eqn:El; [|done]. apply andb_true_iff in El as [Hst%bool_decide_eq_true Hl].
    rewrite Hl, Hst. split_and!; [done..|]. rewrite (bool_decide_true (tool ∈ _)) by by apply Hsup.
    rewrite !bool_decide_true by done. done. }
  split; [split|done|done].
  - by apply sweep_provenance.
  - apply sweep_valid; [by rewrite Ht| |by intros H; apply Hclean|done|done].
    unfold r, unprojected. cbn [sw_outcome sw_summary]. unfold sanitizer_outcome. destruct (negb _); [done|].
    destruct (ce_summary e) as [s|]; [|by destruct (_ && _)]. destruct (summary_is_positive s) eqn:Ep; [|by destruct (_ && _)]. by eexists.
Qed.

Lemma projection_judged sp tool e status log d error k :
  sp_sanitizer_tool sp = Some tool → is_target_scoped_sanitizer tool = true → kernel (sp_unit sp) = Some k →
  evidence_ok e → (ce_completeness e = Complete → tool ∈ SUPPORTED_SANITIZER_TOOLS) →
  ∃ r, project_target_scoped_sanitizer_result (unprojected sp tool e status log d error) (sp_experiment_id sp) k = Ok r
       ∧ judged sp status log r.
Proof.
  intros Ht Hscope Hk He Hsup. destruct (unprojected_judged sp tool e status log d error Ht He Hsup) as [[Hp Hv] Hl Hc].
  set (u := unprojected _ _ _ _ _ _ _) in *.
  assert (∀ r, sw_provenance r = with_kernel k (sw_provenance u) → validate_provenance sp (SweepResult r) = Ok ()) as Hprov.
  { intros r Er. apply sweep_provenance; rewrite Er; [done..|]. cbn. by rewrite Hk. }
  assert (sw_outcome u = SaniFinding → ∃ s, sw_summary u = Some s ∧ summary_is_positive s = true) as Hf.
  { unfold u, unprojected. cbn [sw_outcome sw_summary]. unfold sanitizer_outcome. destruct (negb _); [done|].
    destruct (ce_summary e) as [s|]; [|by destruct (_ && _)]. destruct (summary_is_positive s) eqn:Ep; [|by destruct (_ && _)]. by eexists. }
  unfold project_target_scoped_sanitizer_result. change (sw_tool u) with tool. rewrite Hscope. cbn [negb]. cbv zeta.
  destruct (sweep_has_positive_signal u) eqn:Epos; cbn [negb].
  - assert (sw_outcome u ≠ SaniClean) as Hn.
    { intros E. destruct (Hc E) as (_ & _ & Ht'). unfold sweep_has_trustworthy_clean in Ht'. unfold sweep_has_positive_signal in Epos.
      rewrite !andb_true_iff in Ht'. destruct Ht' as [[[_ Hz] _] Hfs%bool_decide_eq_true]. rewrite E, Hfs in Epos. cbn [orb bool_decide] in Epos.
      destruct (sw_summary u) as [s|]; [|done]. unfold summary_is_zero in Hz. rewrite !andb_true_iff, !Z.eqb_eq in Hz.
      destruct Hz as [[H1 H2] H3]. unfold summary_is_positive in Epos. by rewrite H1, H2, H3 in Epos. }
    destruct (bool_decide (_ ≠ []) && _ && _ && _) eqn:Eall; eexists; (split; [done|]); (split; [split|done|]).
    + by apply Hprov.
    + apply sweep_valid; cbn; [done|exact Hf|by intros E|by apply He|by apply He].
    + by intros E.
    + by apply Hprov.
    + apply sweep_valid; cbn; done.
    + done.
  - eexists. split; [done|]. split; [split|done|exact Hc].
    + by apply Hprov.
    + apply sweep_valid; cbn; [done|exact Hf| |by apply He|by apply He]. intros E. by destruct (Hc E) as (_ & _ & ?).
Qed.

(** Every text has a result, and it is a judged one. *)
Lemma built_judged sp tool status text log d error : sp_sanitizer_tool sp = Some tool →
  ∃ r, build_sanitizer_result sp status text log d error None = Ok r ∧ judged sp status log r.
Proof.
  intros Ht. unfold build_sanitizer_result. rewrite Ht. destruct (evidence_of tool text) as (e & -> & He & Hsup). cbn [mbind res_bind]. cbv zeta.
  fold (unprojected sp tool e status log d error). pose proof (unprojected_judged sp tool e status log d error Ht He Hsup) as Hu.
  destruct (kernel (sp_unit sp)) as [k|] eqn:Ek; [|by eexists]. destruct (is_target_scoped_sanitizer tool) eqn:Es; [|by eexists].
  by apply projection_judged.
Qed.

(** ** Runs *)

Lemma dict_get_updates {V} (l : list (string * V)) (d : dict string V) k : NoDup l.*1 →
  dict_get (fold_left (λ d e, dict_set d e.1 e.2) l d) k = match dict_get l k with Some v => Some v | None => dict_get d k end.
Proof.
  revert d. induction l as [|[k' v'] l IH]; intros d Hl; [done|]. rewrite fmap_cons in Hl. apply NoDup_cons in Hl as [Hk Hl].
  cbn [fold_left fst snd]. rewrite IH by done. cbn [dict_get]. destruct (decide (k = k')) as [->|Hne].
  - assert (dict_get l k' = None) as -> by by apply dict_get_None. by rewrite dict_get_set_eq.
  - by rewrite dict_get_set_ne by done.
Qed.

Lemma sanitizer_log_name tool : slash ∉ chars tool → good_name (tool +:+ ".log").
Proof.
  intros H. unfold good_name, good_component. rewrite chars_app.
  assert (∀ l, (length l < 4)%nat → chars tool ++ chars ".log" ≠ l) as Hl.
  { intros l Hn E. apply (f_equal length) in E. rewrite length_app in E. cbn in E. lia. }
  split_and!; [by apply Hl; cbn; lia..|]. intros [Hs|Hs]%elem_of_app; [done|]. revert Hs. vm_compute. set_solver.
Qed.

(** What stands between the tool and the target's command. *)
Lemma launch_options bin tool cmd log tensor kernel argv :
  build_compute_sanitizer_argv bin tool cmd log tensor kernel = Ok argv →
  ∃ opts, argv = bin :: "--tool"%string :: tool :: opts ++ cmd
    ∧ (∀ path, log = Some path → ∃ before, opts = before ++ ["--log-file"; path]%string)
    ∧ ∀ k, kernel = Some k → blank k = false ∧ ("kns=" +:+ k)%string ∈ opts.
Proof.
  unfold build_compute_sanitizer_argv. cbv zeta. set (i := if bool_decide _ then _ else _). set (t := if tensor then _ else _).
  set (a := if bool_decide (tool = "memcheck"%string) then _ else _). clearbody i t a.
  set (l := match log with Some _ => _ | None => _ end).
  assert (Hlog : ∀ front path, log = Some path → ∃ before, front ++ l = before ++ ["--log-file"; path]%string).
  { intros front path ->. by exists front. }
  clearbody l. destruct kernel as [k|]; [destruct (blank k) eqn:Ek; [done|]|]; cbn [mbind res_bind]; intros [= <-].
  - exists (["--target-processes"; "all"]%string ++ i ++ t ++ ["--kernel-name"; "kns=" +:+ k]%string ++ a ++ l).
    split; [by rewrite <- !app_assoc|]. split; [rewrite !app_assoc; intros path; apply Hlog|].
    intros ? [= <-]. split; [done|]. rewrite !elem_of_app, !elem_of_cons. tauto.
  - exists (["--target-processes"; "all"]%string ++ i ++ t ++ a ++ l).
    split; [by rewrite <- !app_assoc|]. split; [rewrite !app_assoc; intros path; apply Hlog|done].
Qed.

Section Runs.
Context {W : Type}.
Variable cwd : string.
Variable os_step : W → W * bool.
Variable write_file : W → W * Writing.
Variable clock : W → W * float.
Variable leftover : W → W * (string → bool).
Variable executable : string → bool.
Variable which : option string.
Variable help_output : string → W → W * option (option string * option string).
Variable run_target : SanitizerLaunch → st (Machine W) exn CompletedProcess.
Variable exn_text : exn → string.
Variable environ : dict string string.
Hypothesis cwd_abs : is_abs cwd = true.

Notation M := (st (Machine W) exn).
Notation run_compute_sanitizer := (run_compute_sanitizer cwd os_step executable which help_output run_target environ).
Notation sanitizer_env := (sanitizer_env environ).
Notation prepare_log := (prepare_log cwd os_step).
Notation publish_file := (publish_file cwd os_step write_file).
Notation default_reader := (@default_reader W cwd).

Lemma prepare_log_ok c m m' log : prepare_log c m = (m', Ok log) →
  log = (λ dir, join dir (sc_tool c +:+ ".log"))%string <$> sc_output_dir c
  ∧ ∀ path, log = Some path → disk m' !! abspath cwd path = None.
Proof.
  unfold SanitizerExperiment.prepare_log. destruct (sc_output_dir c) as [dir|]; [|by intros [= <- <-]].
  unfold mbind, st_bind. destruct (step_or_raise os_step OSError m) as [m1 [[]|e]]; [|done]. cbv zeta.
  set (path := join dir _). unfold unlink_if_there. destruct (disk m1 !! abspath cwd path) as [e|] eqn:Ee.
  - destruct e; try done; destruct (step_or_raise os_step OSError m1) as [m2 [[]|x]]; try done;
      intros [= <- <-]; (split; [done|]); intros ? [= <-]; cbn; apply lookup_delete_eq.
  - intros [= <- <-]. split; [done|]. by intros ? [= <-].
Qed.

(** How the target was started. *)
Lemma launched c probe m m' r : run_compute_sanitizer c probe m = (m', Ok r) →
  ∃ m1 argv, run_target (mkSanitizerLaunch argv (sanitizer_env c) (sc_cwd c) (sc_timeout c)) m1 = (m', Ok (sr_process r))
    ∧ build_compute_sanitizer_argv (sr_sanitizer_bin r) (sc_tool c) (sc_argv c) (sr_log_path r) (sr_tensor_ops_enabled r)
        (sc_kernel_name c) = Ok argv
    ∧ sr_log_path r = (λ dir, join dir (sc_tool c +:+ ".log"))%string <$> sc_output_dir c
    ∧ ∀ path, sr_log_path r = Some path → disk m1 !! abspath cwd path = None.
Proof.
  unfold SanitizerExperiment.run_compute_sanitizer. case_bool_decide; [done|]. unfold mbind, st_bind, st_lift, st_get.
  destruct (resolve_compute_sanitizer _ _ _ _ _) as [bin|]; [|done].
  destruct (default _ probe bin m) as [m1 [tensor|]]; [|done].
  destruct (prepare_log c m1) as [m2 [log|]] eqn:El; [|done]. apply prepare_log_ok in El as [El Hd].
  destruct (build_compute_sanitizer_argv _ _ _ _ _ _) as [l|] eqn:Ea; [|done].
  destruct (run_target _ m2) as [m3 [p|]] eqn:Er; [|done]. intros [= <- <-]. by exists m2, l.
Qed.

Lemma publish_run source n m m' r : good_name n →
  (∀ out_dir, publish_file source (join out_dir n) m = (m', r) →
   match r with
   | Ok a => relative_path a = n ∧ ∃ text, read_file (disk m) (abspath cwd source) = Some text
       ∧ disk m' !! file_of cwd out_dir n = Some (Regular text) ∧ stored cwd out_dir (disk m') a
   | Err e => e = OSError
   end).
Proof.
  intros Hn out_dir. unfold SanitizerExperiment.publish_file. cbv zeta. unfold mbind, st_bind, st_get, st_lift.
  destruct (step_or_raise os_step OSError m) as [m1 r1] eqn:E1. apply step_or_raise_run in E1 as [D1 H1].
  destruct r1 as [[]|x]; [|intros [= <- <-]; done].
  destruct (step_or_raise os_step OSError m1) as [m2 r2] eqn:E2. apply step_or_raise_run in E2 as [D2 H2].
  destruct r2 as [[]|x]; [|intros [= <- <-]; done].
  destruct (read_file (disk m2) (abspath cwd source)) as [text|] eqn:Et; [|intros [= <- <-]; done].
  destruct (replace_file _ _ _ _ m2) as [m3 r3] eqn:E3. apply replace_file_run in E3 as [_ H3].
  destruct r3 as [[]|x]; [|intros [= <- <-]; done]. intros [= <- <-].
  assert (Hb : basename (abspath cwd (join out_dir n)) = n) by by apply basename_abspath_join.
  cbn [relative_path]. split; [done|]. exists text. rewrite D1 in D2. rewrite D2 in Et. rewrite H3.
  unfold file_of. rewrite lookup_insert_eq. split_and!; [done..|]. exists text. cbn [relative_path uri]. rewrite Hb. unfold file_of.
  rewrite lookup_insert_eq. split_and!; [done| |done]. eexists. cbn. split_and!; [done| |done]. rewrite chars_str. apply digest_hex.
Qed.

(** *** One attempt *)

(** What [_invoke_sanitizer] turns into a status. *)
Definition invocation_handles (e : exn) : bool :=
  match e with TimeoutExpired _ _ | ClickException | OSError | ValueError => true | _ => false end.

(** The target ran to its end and exited with zero. *)
Definition target_exited_with_zero : Prop :=
  ∃ l m1 m2 p, run_target l m1 = (m2, Ok p) ∧ returncode p = 0.

Lemma wp_invoke sp tool attempt_dir bin probe timeout m :
  wp (invoke_sanitizer cwd os_step executable which help_output run_target exn_text environ sp tool attempt_dir bin probe timeout)
    (λ v _, v.1.1 = Succeeded → target_exited_with_zero) (λ e _, invocation_handles e = false) m.
Proof.
  unfold wp, invoke_sanitizer. cbv zeta. unfold mbind, st_bind, st_lift.
  destruct (sanitizer_config environ sp tool attempt_dir bin timeout) as [c|e] eqn:Ec.
  - destruct (run_compute_sanitizer c probe m) as [m1 [r|e]] eqn:E.
    + apply launched in E as (m0 & argv & Hr & _). unfold judge_run. destruct (Z.eqb_spec (returncode (sr_process r)) 0); [|done].
      intros _. by do 4 eexists.
    + by destruct e.
  - assert (e = ValueError) as ->; [|done]. unfold sanitizer_config, kernel_filter_name in Ec.
    destruct (match sp_sanitizer_tool sp with Some _ => _ | None => _ end); [done|].
    destruct (kernel (sp_unit sp)) as [k|]; [|done]. destruct (mangled_name k) as [n|]; [|by injection Ec as <-].
    destruct (blank n); [by injection Ec as <-|done].
Qed.

(** The published log, and the text it was judged by. *)
Definition log_kept (out_dir tool : string) (reader : option (string → Machine W → Machine W * Reading)) (text : string)
    (log : option ArtifactRef) (d : Disk) : Prop :=
  ∀ a, log = Some a → relative_path a = (tool +:+ ".log")%string ∧ stored cwd out_dir d a
    ∧ (reader = None → ∃ bytes, d !! file_of cwd out_dir (tool +:+ ".log") = Some (Regular bytes) ∧ text = text_mode bytes).

Definition reader_raises (reader : option (string → Machine W → Machine W * Reading)) (e : exn) : Prop :=
  e ≠ OSError ∧ ∃ f path m, reader = Some f ∧ (f path m).2 = Unreadable e.

Lemma infra_not_succeeded s : record_artifact_failure s ≠ Succeeded.
Proof. unfold record_artifact_failure. by case_bool_decide. Qed.

Lemma wp_read_and_publish log_path out_dir tool reader status error m : slash ∉ chars tool →
  wp (read_and_publish_log cwd os_step write_file exn_text log_path out_dir tool (default default_reader reader) status error)
    (λ v s', ∃ text log st err, v = (text, log, st, err) ∧ log_kept out_dir tool reader text log (disk s') ∧ (st = Succeeded → status = Succeeded))
    (λ e _, reader_raises reader e) m.
Proof.
  intros Hn%sanitizer_log_name. unfold wp, read_and_publish_log. cbv zeta.
  destruct (default default_reader reader log_path m) as [m1 x] eqn:Ex.
  assert (∀ e, x = Unreadable e → e ≠ OSError → reader_raises reader e) as Hraise.
  { intros e -> He. split; [done|]. destruct reader as [f|]; cbn in Ex.
    - exists f, log_path, m. by rewrite Ex.
    - exfalso. unfold SanitizerExperiment.default_reader in Ex. injection Ex as _ Ex.
      destruct (disk m !! abspath cwd log_path) as [[t|[t|]| |]|]; cbn in Ex; try done; injection Ex as <-; done. }
  destruct x as [text| |e].
  - destruct (publish_file log_path (join out_dir (tool +:+ ".log")) m1) as [m2 r] eqn:Er. apply publish_run in Er; [|done].
    destruct r as [a|e].
    + destruct Er as (Hr & bytes & Hb & Hd & Hs). exists text, (Some a), status, error. split_and!; [done| |done].
      intros ? [= <-]. split_and!; [done..|]. intros ->. cbn in Ex. unfold SanitizerExperiment.default_reader in Ex. injection Ex as <- Ex.
      exists bytes. rewrite Hd. split; [done|]. unfold read_file in Hb. revert Ex Hb.
      destruct (disk m !! _) as [[t|[t|]| |]|]; cbn; congruence.
    + subst e. do 4 eexists. split_and!; [done| |by intros ?%infra_not_succeeded]. by intros a.
  - do 4 eexists. split_and!; [done|by intros a|by intros ?%infra_not_succeeded].
  - specialize (Hraise e eq_refl).
    destruct e; try by apply Hraise. do 4 eexists. split_and!; [done|by intros a|by intros ?%infra_not_succeeded].
Qed.

(** What a finished attempt is. *)
Definition attempted (sp : ExperimentSpec) (out_dir tool : string) reader (r : SanitizerSweepResult) (m : Machine W) : Prop :=
  ∃ text status log d error, build_sanitizer_result sp status (chars text) log d error None = Ok r ∧ judged sp status log r
    ∧ log_kept out_dir tool reader text log (disk m) ∧ (status = Succeeded → target_exited_with_zero).

Lemma wp_monotonic_time (Q : float → Machine W → Prop) R m :
  (∀ t m', disk m' = disk m → Q t m') → wp (monotonic_time clock) Q R m.
Proof. unfold wp, monotonic_time. destruct (clock (env_ m)) as [w t]. intros H. by apply H. Qed.

Lemma wp_attempt sp tool out_dir attempt_dir reader bin probe timeout m :
  sp_sanitizer_tool sp = Some tool → slash ∉ chars tool →
  wp (run_sanitizer_attempt cwd os_step write_file clock executable which help_output run_target exn_text environ sp out_dir
        attempt_dir reader bin probe timeout)
    (attempted sp out_dir tool reader) (λ e _, invocation_handles e = false ∨ reader_raises reader e) m.
Proof.
  intros Ht Hn. unfold run_sanitizer_attempt. rewrite Ht.
  apply hoare_bind, wp_monotonic_time. intros started m1 _.
  apply hoare_bind. eapply hoare_mono; [apply wp_invoke| |by left]. intros [[status error] log_path] m2 Hinv.
  apply hoare_bind. eapply hoare_mono; [by apply wp_read_and_publish| |by right]. intros v m3 (text & log & st & err & -> & Hlog & Hst).
  apply hoare_bind, wp_monotonic_time. intros now m4 D4. apply hoare_lift.
  destruct (built_judged sp tool st (chars text) log (f_sub now started) err Ht) as (r & E & Hj). rewrite E.
  exists text, st, log, (f_sub now started), err. split_and!; [done|done|by rewrite D4|]. intros Hs. by apply Hinv, Hst.
Qed.
End Runs.

(** ** The whole experiment *)

Section Experiment.
Context {W : Type}.
Variable cwd : string.
Variable os_step : W → W * bool.
Variable write_file : W → W * Writing.
Variable clock : W → W * float.
Variable leftover : W → W * (string → bool).
Variable executable : string → bool.
Variable which : option string.
Variable help_output : string → W → W * option (option string * option string).
Variable run_target : SanitizerLaunch → st (Machine W) exn CompletedProcess.
Variable exn_text : exn → string.
Variable environ : dict string string.
Hypothesis cwd_abs : is_abs cwd = true.

Notation run := (run_sanitizer_experiment cwd os_step write_file clock leftover executable which help_output run_target exn_text environ).

(** A result, and the log it was read from. *)
Definition settled (sp : ExperimentSpec) (out_dir tool : string) (reader : option (string → Machine W → Machine W * Reading)) (r : SanitizerSweepResult) (d : Disk) : Prop :=
  accepted_sweep sp r
  ∧ (∃ text status log duration error,
       build_sanitizer_result sp status (chars text) log duration error None = Ok r ∧ sw_log r = log
       ∧ log_kept cwd out_dir tool reader text log d)
  ∧ (sw_outcome r = SaniClean → sweep_has_trustworthy_clean r = true ∧ sw_log r ≠ None ∧ target_exited_with_zero run_target).

Lemma log_survives d d' out_dir tool attempt_dir (keep : string → bool) (reader : option (string → Machine W → Machine W * Reading)) text log :
  is_under (abspath cwd attempt_dir) (file_of cwd out_dir (tool +:+ ".log")) = false →
  d' = filter (λ e : string * Entry, negb (is_under (abspath cwd attempt_dir) e.1) || keep e.1 = true) d →
  log_kept cwd out_dir tool reader text log d → log_kept cwd out_dir tool reader text log d'.
Proof.
  intros Hu -> H a Ha. destruct (H a Ha) as (Hr & (bytes & Hd & Hdec) & Ht). rewrite <- Hr in Hu, Ht |- *.
  assert (filter (λ e : string * Entry, negb (is_under (abspath cwd attempt_dir) e.1) || keep e.1 = true) d
    !! file_of cwd out_dir (relative_path a) = Some (Regular bytes)) as E.
  { apply map_lookup_filter_Some. split; [done|]. cbn. by rewrite Hu. }
  split_and!; [done|by exists bytes|]. intros Hn. destruct (Ht Hn) as (b & Hb & ->). exists b. split; [|done]. rewrite E, <- Hd. done.
Qed.

(** C10: Every sanitizer result is one the session accepts.  Whatever the tool, the
    target and the file system do, a result the experiment returns passes the
    session's checks (provenance, tool, outcome, completeness and issues); it is
    what [build_sanitizer_result] makes of one text, and when it names a log, that
    log is in the output directory after the attempt is removed, with the declared
    bytes, which for the default reader are that very text but for line ends, as
    text mode reads them; it is clean only when
    the log is there, its report is complete with a summary that counts nothing and
    no finding, and the target ran and exited with zero.  The experiment raises
    only for a specification that is none of a sanitizer run, for a directory that
    cannot be made, for an exception the invocation does not handle or one other
    than [OSError] the reader raises. *)
Theorem sanitizer_results_accepted sp tool out_dir attempt_dir reader compute_sanitizer supports_tensor_ops timeout m m' x :
  sp_sanitizer_tool sp = Some tool → slash ∉ chars tool →
  is_under (abspath cwd attempt_dir) (file_of cwd out_dir (tool +:+ ".log")) = false →
  run sp out_dir attempt_dir reader compute_sanitizer supports_tensor_ops timeout m = (m', x) →
  match x with
  | Ok r => sp_kind sp = COMPUTE_SANITIZER ∧ settled sp out_dir tool reader r (disk m')
  | Err e => e = ValueError ∧ sp_kind sp ≠ COMPUTE_SANITIZER ∨ e = OSError ∧ disk m' = disk m
             ∨ invocation_handles e = false ∨ reader_raises reader e
  end.
Proof.
  intros Ht Hn Hu. unfold run_sanitizer_experiment. rewrite Ht. case_bool_decide as Ek; cbn [negb].
  2: { intros [= <- <-]. by left. }
  unfold mbind, st_bind. destruct (step_or_raise os_step OSError m) as [m1 r1] eqn:E1. apply step_or_raise_run in E1 as [D1 H1].
  destruct r1 as [[]|e]; [|intros [= <- <-]; auto].
  destruct (step_or_raise os_step OSError m1) as [m2 r2] eqn:E2. apply step_or_raise_run in E2 as [D2 H2].
  destruct r2 as [[]|e]; [|intros [= <- <-]; right; left; split; [done|congruence]].
  cbn [st_modify]. set (m3 := mkMachine _ _). unfold attempt_and_remove.
  destruct (run_sanitizer_attempt _ _ _ _ _ _ _ _ _ _ _ _ _ _ _ _ _ m3) as [m4 r] eqn:Er.
  eapply hoare_run in Er; [|by eapply wp_attempt].
  unfold remove_attempt. destruct (leftover (env_ m4)) as [w keep]. intros [= <- <-].
  destruct r as [r|e]; [|right; right; exact Er]. split; [done|].
  destruct Er as (text & status & log & d & error & Hb & [Ha Hl Hc] & Hk & Hs). split_and!.
  - done.
  - exists text, status, log, d, error. split_and!; [done..|]. by eapply log_survives.
  - intros E. destruct (Hc E) as (E1 & E2 & E3). split_and!; [done| |by apply Hs]. rewrite Hl. by destruct log.
Qed.

(** The tool is started apart from a tracing parent and from older logs.  When
    [run_compute_sanitizer] returns, the process it returns is that of one launch:
    the tool with [--tool], the options and then exactly the target's command; no
    file stood at the log's path, which is the one given to [--log-file], when it
    started; its environment has no injection slot, and otherwise each variable is
    the configured one, or that of the base environment; a kernel name is passed as
    a substring filter, and never a blank one. *)
Theorem sanitizer_launch_is_isolated c supports_tensor_ops m m' r :
  NoDup (default [] (sc_env c)).*1 →
  run_compute_sanitizer cwd os_step executable which help_output run_target environ c supports_tensor_ops m = (m', Ok r) →
  ∃ m1 l opts, run_target l m1 = (m', Ok (sr_process r))
    ∧ la_argv l = sr_sanitizer_bin r :: "--tool"%string :: sc_tool c :: opts ++ sc_argv c
    ∧ (∀ path, sr_log_path r = Some path → disk m1 !! abspath cwd path = None
         ∧ ∃ before, opts = before ++ ["--log-file"; path]%string)
    ∧ (∀ k, sc_kernel_name c = Some k → blank k = false ∧ ("kns=" +:+ k)%string ∈ opts)
    ∧ ∀ k, dict_get (la_env l) k =
        if decide (k = "CUDA_INJECTION64_PATH"%string) then None
        else match dict_get (default [] (sc_env c)) k with
             | Some v => Some v
             | None => dict_get (default environ (sc_base_env c)) k
             end.
Proof.
  intros Hnd H. apply launched in H as (m1 & argv & Hr & Ha & _ & Hd).
  apply launch_options in Ha as (opts & -> & Hl & Hk).
  exists m1. eexists. exists opts. split_and!; [exact Hr|done|by intros path Hp; split; [apply Hd|apply Hl]|done|]. intros k. cbn [la_env].
  unfold sanitizer_env. rewrite dict_get_pop. destruct (decide (_ = k)) as [<-|Hne]; [by rewrite decide_True|].
  rewrite decide_False by done. by apply dict_get_updates.
Qed.
End Experiment.

(** ** Runs under racecheck: clean, with a race, and without a log *)

Module RacecheckRun.
Definition spec : ExperimentSpec :=
  mkSpec "exp" "session" Initial COMPUTE_SANITIZER
    (mkUnit "unit" ["prog"; "--fast"]%string "gemm" "test" "" "sm_90" "abc" None None [("MODE", "test")]%string []) 0 None
    (Some "racecheck"%string) None None None.

Definition ready (w : ()) : () * bool := (w, true).
Definition written (w : ()) : () * Writing := (w, Written).
Definition still (w : ()) : () * float := (w, f_zero).
Definition nothing (w : ()) : () * (string → bool) := (w, λ _, false).
Definition help (_ : string) (w : ()) : () * option (option string * option string) := (w, Some (Some "--check-tensor-ops"%string, None)).
Definition message (e : exn) : string := match e with TimeoutExpired _ _ => "timed out" | _ => "failed" end.
Definition environ : dict string string := [("PATH", "/bin"); ("CUDA_INJECTION64_PATH", "/w/cutracer.so")]%string.

Definition clean_log : string := "========= RACECHECK SUMMARY: 0 hazards displayed (0 errors, 0 warnings)".

(** The target leaves [log] at the path it was given. *)
Definition target (code : Z) (log : option string) (l : SanitizerLaunch) : st (Machine ()) exn CompletedProcess :=
  λ m, (mkMachine (match log with Some t => <["/o/.attempt/racecheck.log"%string := Regular t]> (disk m) | None => disk m end) (env_ m),
        Ok (mkProcess code None None)).
Definition slow_target (l : SanitizerLaunch) : st (Machine ()) exn CompletedProcess :=
  λ m, (mkMachine (<["/o/.attempt/racecheck.log"%string := Regular clean_log]> (disk m)) (env_ m), Err (TimeoutExpired None None)).

Definition start : Machine () :=
  mkMachine {["/o" := Directory; "/o/.attempt/racecheck.log" := Regular clean_log]}%string ().
Definition run run_target :=
  run_sanitizer_experiment "/w" ready written still nothing (λ _, true) (Some "/bin/compute-sanitizer"%string) help run_target message
    environ spec "/o" "/o/.attempt" None None None 60 start.

Definition verdict (x : Machine () * res exn SanitizerSweepResult) :=
  match x.2 with
  | Ok r => Some (sw_execution_status r, sw_outcome r, sw_completeness r, is_some (sw_log r), length (Results.findings r), sw_error r)
  | Err _ => None
  end.

Example clean : verdict (run (target 0 (Some clean_log))) = Some (Succeeded, SaniClean, Complete, true, 0%nat, None).
Proof. vm_compute. reflexivity. Qed.

(** A target that fails, or does not end in time, is never clean, whatever its log
    says; nor is one that leaves no log, although an older one was there. *)
Example not_clean :
  verdict (run (target 1 (Some clean_log))) = Some (ExecFailed, SaniUnknown, Complete, true, 0%nat, Some "process failed"%string)
  ∧ verdict (run slow_target) = Some (ExecTimedOut, SaniUnknown, Complete, true, 0%nat, Some "timed out"%string)
  ∧ verdict (run (target 0 None))
    = Some (ExecInfraError, SaniUnknown, Partial, false, 0%nat, Some "sanitizer completed without producing its log"%string).
Proof. vm_compute. done. Qed.

Example racing : verdict (run (target 0 (Some (str race_log)))) = Some (Succeeded, SaniFinding, Complete, true, 1%nat, None).
Proof. vm_compute. reflexivity. Qed.

Lemma sanitizer_results_accepted_witness :
  ∃ m' r, run (target 0 (Some clean_log)) = (m', Ok r) ∧ sw_outcome r = SaniClean ∧ accepted_sweep spec r
    ∧ ∃ a, sw_log r = Some a ∧ disk m' !! "/o/racecheck.log"%string = Some (Regular clean_log).
Proof.
  pose proof clean as Hv.
  assert (disk (run (target 0 (Some clean_log))).1 !! "/o/racecheck.log"%string = Some (Regular clean_log)) as Hd by (vm_compute; reflexivity).
  destruct (run (target 0 (Some clean_log))) as [m' [r|e]] eqn:E; [|discriminate Hv].
  exists m', r. split; [reflexivity|]. injection Hv as _ Ho _ Hl _ _. split; [exact Ho|]. cbn [fst] in Hd.
  destruct (sanitizer_results_accepted "/w" ready written still nothing (λ _, true) (Some "/bin/compute-sanitizer"%string) help
    (target 0 (Some clean_log)) message environ eq_refl spec "racecheck" "/o" "/o/.attempt" None None None 60 start m' (Ok r))
    as (_ & Ha & _ & _).
  - reflexivity.
  - apply (bool_decide_unpack _). vm_compute. exact I.
  - vm_compute. reflexivity.
  - exact E.
  - split; [exact Ha|]. destruct (sw_log r) as [a|]; [|discriminate Hl]. exists a. split; [reflexivity|exact Hd].
Defined.

Definition config : ComputeSanitizerConfig :=
  mkSanitizerConfig ["prog"; "--fast"]%string "racecheck" (Some "/o/.attempt"%string) None None (Some 60) (Some environ)
    (Some [("MODE", "test")]%string) (Some "gemm"%string).

Definition launch := run_compute_sanitizer "/w" ready (λ _, true) (Some "/bin/compute-sanitizer"%string) help (target 0 (Some clean_log))
  environ config None start.
Example started :
  match launch.2 with Ok r => Some (sr_log_path r, sr_sanitizer_bin r) | Err _ => None end
  = Some (Some "/o/.attempt/racecheck.log", "/bin/compute-sanitizer")%string.
Proof. vm_compute. reflexivity. Qed.

Lemma sanitizer_launch_is_isolated_witness :
  ∃ m1 l opts, disk m1 !! "/o/.attempt/racecheck.log"%string = None
    ∧ la_argv l = "/bin/compute-sanitizer" :: "--tool" :: "racecheck" :: opts ++ ["prog"; "--fast"]%string
    ∧ dict_get (la_env l) "CUDA_INJECTION64_PATH"%string = None ∧ dict_get (la_env l) "PATH"%string = Some "/bin"%string
    ∧ "kns=gemm"%string ∈ opts ∧ ∃ m2 p, target 0 (Some clean_log) l m1 = (m2, Ok p).
Proof.
  pose proof started as Hv. unfold launch in Hv.
  destruct (run_compute_sanitizer "/w" ready (λ _, true) (Some "/bin/compute-sanitizer"%string) help (target 0 (Some clean_log))
    environ config None start) as [m' [r|e]] eqn:E; [|discriminate Hv].
  injection Hv as Hl Hb.
  destruct (sanitizer_launch_is_isolated "/w" ready (λ _, true) (Some "/bin/compute-sanitizer"%string) help (target 0 (Some clean_log))
    environ config None start m' r) as (m1 & l & opts & Hr & Ha & Hlog & Hk & Henv).
  - apply (bool_decide_unpack _). vm_compute. exact I.
  - exact E.
  - exists m1, l, opts. destruct (Hlog _ Hl) as [Hd _]. destruct (Hk "gemm"%string eq_refl) as [_ Hin].
    split; [exact Hd|]. split; [rewrite Ha, Hb; reflexivity|].
    split; [rewrite Henv; vm_compute; reflexivity|]. split; [rewrite Henv; vm_compute; reflexivity|].
    split; [exact Hin|]. exists m', (sr_process r). exact Hr.
Defined.
End RacecheckRun.
