(* ===== verification/ReduceExperiment.v ===== *)
(** Reductions as experiments: src/python/cutracer/service/experiments/reduce.py, with
    the report of src/python/cutracer/reduce/report.py.

    [run_reduce_experiment] stages the bytes a triggering configuration declares,
    checks that they and the active runtime are those it was recorded with, runs a
    reducer (Reduce) whose candidates are replayed (Replay), publishes the minimal
    configuration and a report, and classifies every failure.

    Parameters: [loads] and [load_config], JSON decoding, and decoding with the schema's
    validation ([None] when they raise); [dump_config] and [dump], their inverses;
    [replay], what the process does on a candidate; [evaluator], the caller's
    alternative; the disk's calls and [clock] as in TraceExperiment; [now], the
    report's time. *)
From S2P Require Import Prelude.
From S2P Require Import PyStr.
From S2P Require Import PyDict.
From S2P Require Import PyText.
From S2P Require Import Regex.
From S2P Require Import DelayConfig.
From S2P Require Import Replay.
From S2P Require Import Reduce.
From S2P Require Import Json.
From S2P Require Import Contracts.
From S2P Require Import Results.
From S2P Require Import Experiments.
From S2P Require Import SessionValidation.
From S2P Require Import Paths.
From S2P Require Import Artifacts.
From S2P Require Import TraceExperiment.
From Stdlib Require Import Ascii.
From Stdlib Require String.
Local Open Scope Z_scope.

(** The exceptions of the adapter: [StaleReplayInputError],
    [MissingActiveRuntimeIdentityError] and those of the code it calls. *)
Inductive redexn :=
| StaleReplayInput
| MissingActiveRuntimeIdentity
| Raised (e : rexn).

(** ** Identities *)

Definition UNKNOWN_RUNTIME_IDENTITY : string := "0+unknown".

Definition runtime_identity_is_missing (value : string) : bool :=
  let normalized := strip (chars value) in
  bool_decide (normalized = []) || bool_decide (normalized = chars UNKNOWN_RUNTIME_IDENTITY).

Definition require_runtime_identity (identities : list string) (e : redexn) : res redexn () :=
  if existsb runtime_identity_is_missing identities then Err e else Ok ().

(** [_resolve_expected_kernel_identity]: the name and checksum a replay must launch. *)
Definition resolve_expected_kernel_identity (sp : ExperimentSpec) (ro : ReduceOptions)
    : res redexn (option string * option string) :=
  if negb (require_kernel_identity ro) then Ok (None, None)
  else
    match kernel (sp_unit sp), tc_kernel (ro_triggering_config ro) with
    | Some k, Some c =>
        if blank (ki_name k) || blank (cubin_hash k) || blank (ki_name c) || blank (cubin_hash c) || negb (KernelId_eqb c k)
        then Err StaleReplayInput
        else Ok (Some (ki_name k), Some (cubin_hash k))
    | _, _ => Err StaleReplayInput
    end.

(** [_validate_runtime_identity]. *)
Definition validate_runtime_identity (sp : ExperimentSpec) (ro : ReduceOptions) (active_version active_toolchain : string)
    : res redexn (option string * option string) :=
  let c := ro_triggering_config ro in
  _ ← require_runtime_identity [active_version; active_toolchain] MissingActiveRuntimeIdentity;
  _ ← require_runtime_identity [cutracer_version c; tc_toolchain_version c] StaleReplayInput;
  if negb (bool_decide (cutracer_version c = active_version)) then Err StaleReplayInput
  else if negb (bool_decide (tc_toolchain_version c = active_toolchain)) then Err StaleReplayInput
  else resolve_expected_kernel_identity sp ro.

(** An entry of [kernels] with the checksum. *)
Definition has_checksum (checksum : string) (entry : json) : bool :=
  match entry with
  | JObj o => match field o "kernel_checksum" with Some (JStr s) => bool_decide (s = checksum) | _ => false end
  | _ => false
  end.

(** ** Commands and reports *)

(** [shlex.quote] and [shlex.join]. *)
Definition shell_safe (c : ascii) : bool := is_word c || bool_decide (c ∈ chars "@%+=:,./-").
Definition shlex_quote (s : string) : list ascii :=
  match chars s with
  | [] => chars "''"
  | l => if forallb shell_safe l then l
         else chars "'" ++ flat_map (λ c, if Ascii.eqb c "'"%char then ["'"; "034"; "'"; "034"; "'"]%char else [c]) l ++ chars "'"
  end.
Definition shlex_join (l : list string) : string := str (join_text [" "%char] (shlex_quote <$> l)).

(** [generate_report]. *)
Definition generate_report (timestamp config_file test_script : string) (r : Reduce.ReduceResult) (minimal_config_path : option string)
    : json :=
  JObj [("metadata", JObj [("timestamp", JStr timestamp); ("config_file", JStr config_file); ("test_script", JStr test_script);
                           ("source_file", JNull)]);
        ("summary", JObj [("total_points", JInt (Z.of_nat (total_points r)));
                          ("essential_points", JInt (Z.of_nat (length (Reduce.essential_points r))));
                          ("iterations", JInt (Z.of_nat (iterations r)))]);
        ("essential_delay_points",
         jlist (λ p, JObj [("kernel_key", JStr (kernel_key p)); ("kernel_name", JStr (DelayConfig.kernel_name p));
                           ("pc_offset", JStr (pc_offset p)); ("sass", JStr (sass p)); ("delay_ns", JInt (DelayConfig.delay_ns p))])
           (Reduce.essential_points r));
        ("minimal_config_path", jopt JStr minimal_config_path)]%string.

Definition essential_point (p : DelayPoint) : EssentialDelayPoint :=
  mkEssential (DelayConfig.kernel_name p) (pc_offset p) (sass p) (DelayConfig.delay_ns p).

Definition NO_POINTS_NOTE : string :=
  "0 essential points -- reproduces without any injected delay (deterministic, not a timing-dependent race)".

(** ** Replays *)

(** The fields of [ReplayConfig] that say how a candidate is launched. *)
Record ReplayTarget := mkReplayTarget {
  rt_cutracer_so : option string; exact_kernel_name : option string; exact_kernel_checksum : option string;
  delay_warpgroup_id : option Z; rt_output_dir : string; rt_cwd : option string; rt_base_env : dict string string
}.

(** [x or y] of optional text. *)
Definition text_or (x : option string) (y : string) : string :=
  match x with Some s => if bool_decide (s = ""%string) then y else s | None => y end.

(** What classification gives. *)
Definition is_identity_code (code : string) : bool :=
  bool_decide (code ∈ ["identity_missing"; "identity_invalid"; "identity_mismatch"; "size_mismatch"; "sha256_mismatch"]%string).

(** [classify_reduction_failure]: of [ArtifactIdentityError] and
    [ArtifactIntegrityError], told apart from [ArtifactMaterializationError] by their
    codes, and of the rest. *)
Definition classify_reduction_failure (e : redexn) : ReduceOutcome * ExecutionStatus :=
  match e with
  | StaleReplayInput => (ReduceStaleInput, ExecFailed)
  | MissingActiveRuntimeIdentity => (ReduceInfraError, ExecInfraError)
  | Raised (PyErr (ArtifactVerificationError code)) =>
      if is_identity_code code then (ReduceStaleInput, ExecFailed) else (ReduceInfraError, ExecInfraError)
  | Raised (ReplayExecutionError STALE_INPUT) => (ReduceStaleInput, ExecFailed)
  | Raised (ReplayExecutionError TIMED_OUT) => (ReduceInfraError, ExecTimedOut)
  | Raised ConfigDoesNotTriggerError => (NonReproducible, ExecFailed)
  | Raised _ => (ReduceInfraError, ExecInfraError)
  end.

(** What [run_reduce_experiment] catches. *)
Definition reduction_handles (e : redexn) : bool :=
  match e with
  | StaleReplayInput | MissingActiveRuntimeIdentity | Raised (ReplayExecutionError _) | Raised ConfigDoesNotTriggerError => true
  | Raised (PyErr (ArtifactVerificationError _ | OSError | ValueError)) => true
  | Raised _ => false
  end.

Section Reducing.
Context {W : Type}.
Notation M := (st (Machine W) redexn).
Variable loads : string → option json.
Variable load_config : string → option Config.
Variable dump_config : Config → string.
Variable dump : json → string.
Variable ip_literal_ok : list ascii → bool.
Variable cwd : string.
Variable entry_size : string → Z.
Variable os_step : W → W * bool.
Variable write_file : W → W * Writing.
Variable clock : W → W * float.
Variable now : W → W * string.
Variable replay : Replay.ReplayConfig → ReplayTarget → Config → Machine W → Machine W * replay_env.
Variable evaluator : option (Replay.ReplayConfig → ReplayTarget → Config → Machine W → Machine W * res rexn Replay.ReplayResult).
Variable runner_given : bool.
Variable exn_text : redexn → string.
Variable environ : dict string string.

(** Code that raises Python's exceptions only. *)
Definition python {A} (m : st (Machine W) exn A) : M A := λ s,
  match m s with (s', Ok a) => (s', Ok a) | (s', Err e) => (s', Err (Raised (PyErr e))) end.
Definition lift_python {A} (r : res exn A) : M A := st_lift (match r with Ok a => Ok a | Err e => Err (Raised (PyErr e)) end).

(** ** Checking the input *)

(** [open(path).read()]. *)
Definition read_text (path : string) : M string := λ m,
  (m, match read_file (disk m) (abspath cwd path) with Some t => Ok t | None => Err (Raised (PyErr OSError)) end).

(** [_validate_artifact_kernel_identity]. *)
Definition validate_artifact_kernel_identity (sp : ExperimentSpec) (ro : ReduceOptions) (path : string) : M () :=
  if negb (require_kernel_identity ro) then mret ()
  else
    match kernel (sp_unit sp) with
    | None => st_raise StaleReplayInput
    | Some k =>
        text ← read_text path;
        match loads text with
        | Some (JObj document) =>
            match field document "kernels" with
            | Some (JObj kernels) =>
                if existsb (has_checksum (cubin_hash k)) kernels.*2 then mret () else st_raise StaleReplayInput
            | _ => st_raise StaleReplayInput
            end
        | _ => st_raise StaleReplayInput
        end
    end.

(** [_validate_reduction_input]. *)
Definition validate_reduction_input (path : string) : M () :=
  text ← read_text path;
  match load_config text with
  | None => st_raise StaleReplayInput
  | Some c => if bool_decide (enabled_points (load_mutator c) = []) then st_raise StaleReplayInput else mret ()
  end.

(** [validate_reduce_input]. *)
Definition validate_reduce_input (sp : ExperimentSpec) (path active_version active_toolchain : string)
    : M (option string * option string) :=
  match sp_kind sp, sp_reduction sp with
  | REDUCE_DELAY_CONFIG, Some ro =>
      expected ← st_lift (validate_runtime_identity sp ro active_version active_toolchain);
      _ ← validate_artifact_kernel_identity sp ro path;
      _ ← validate_reduction_input path;
      mret expected
  | _, _ => st_raise (Raised (PyErr ValueError))
  end.

(** ** Running a reducer *)

(** The environment of the replays. *)
Definition reduce_base_env (sp : ExperimentSpec) (resolved_base_env : option (dict string string)) : dict string string :=
  match resolved_base_env with
  | None => fold_left (λ d e, dict_set d e.1 e.2) (env (sp_unit sp)) environ
  | Some d => d
  end.

(** [_build_reduce_config]: with the checks of [ReplayConfig] and [ReduceConfig]. *)
Definition build_reduce_config (sp : ExperimentSpec) (ro : ReduceOptions) (oracle : OracleSpec) (out_dir : string)
    (cutracer_so : option string) (timeout : Z) (expected : option string * option string)
    (resolved_oracle_argv : option (list string)) (resolved_cwd : option string) (resolved_base_env : option (dict string string))
    : res exn (Replay.ReplayConfig * ReplayTarget) :=
  let k := kernel (sp_unit sp) in
  let rc := Replay.mkReplayConfig (default (Contracts.oracle_argv oracle) resolved_oracle_argv) false timeout 0 expected.1 expected.2
              (Contracts.not_interesting_exit_codes oracle) in
  _ ← replay_config_check rc;
  if runner_given && is_some evaluator then Err ValueError
  else
    Ok (rc, mkReplayTarget cutracer_so ((λ x, text_or (mangled_name x) (ki_name x)) <$> k) (cubin_hash <$> k)
              (warpgroup_id (ro_triggering_config ro)) out_dir
              (match resolved_cwd with Some c => Some c | None => text_or_none (Contracts.cwd (sp_unit sp)) end)
              (reduce_base_env sp resolved_base_env)).

(** No process: what [_candidate_is_interesting] is given when an evaluator answers. *)
Definition no_replay : replay_env := mkReplayEnv (TargetError "") [] [] None.

(** [_candidate_is_interesting] of the adapter's configuration. *)
Definition evaluate (rc : Replay.ReplayConfig) (rt : ReplayTarget) (cfg : Config) (m : Machine W) : Machine W * res rexn bool :=
  match evaluator with
  | None => let '(m, e) := replay rc rt cfg m in (m, candidate_is_interesting (ReplayOracle rc) cfg e)
  | Some f =>
      match f rc rt cfg m with
      | (m, Ok r) => (m, candidate_is_interesting (EvaluatorOracle r) cfg no_replay)
      | (m, Err e) => (m, Err e)
      end
  end.

Definition reducer (strategy : string) : option ((Config → Machine W → Machine W * res rexn bool) → Config → Z → bool → RM Reduce.ReduceResult) :=
  if bool_decide (strategy = "linear"%string) then Some reduce_delay_points
  else if bool_decide (strategy = "bisect"%string) then Some reduce_bisect else None.

(** [open(path, "w")] and a write, through a symbolic link when there is one; a write
    that fails may leave what it wrote. *)
Definition written_entry (old : option Entry) (text : string) : Entry :=
  match old with Some (Symlink _) => Symlink (Some text) | _ => Regular text end.
Definition write_text (path text : string) : st (Machine W) exn () := λ m,
  let path := abspath cwd path in
  match disk m !! path with
  | Some Directory | Some Special => (m, Err OSError)
  | old =>
      let '(w, o) := write_file (env_ m) in
      match o with
      | NotWritten => (mkMachine (disk m) w, Err OSError)
      | Written => (mkMachine (<[path := written_entry old text]> (disk m)) w, Ok ())
      | Unsynced => (mkMachine (<[path := written_entry old text]> (disk m)) w, Err OSError)
      end
  end.

(** A reducer over the machine, with the document it wrote to its output. *)
Definition reduce_document (reduce : (Config → Machine W → Machine W * res rexn bool) → Config → Z → bool → RM Reduce.ReduceResult)
    (runs : Z) (rc : Replay.ReplayConfig) (rt : ReplayTarget) (cfg : Config) : M (Reduce.ReduceResult * option Config) := λ m,
  let '(s, r) := reduce (evaluate rc rt) cfg runs true (mkRState m ∅ 0 0 None) in
  (world s, match r with Ok x => Ok (x, output s) | Err e => Err (Raised e) end).

(** [_run_reduction]: the result, and the path of the minimal configuration, which the
    reducer writes as its last act. *)
Definition run_reduction (ro : ReduceOptions) (rc : Replay.ReplayConfig) (rt : ReplayTarget) (input_path minimal_path : string)
    : M (Reduce.ReduceResult * option string) :=
  match reducer (ro_strategy ro) with
  | None => st_raise (Raised (PyErr ValueError))
  | Some reduce =>
      text ← read_text input_path;
      cfg ← lift_python (match load_config text with Some c => Ok c | None => Err ValueError end);
      '(r, saved) ← reduce_document reduce (confidence_runs ro) rc rt cfg;
      match saved with
      | None => mret (r, None)
      | Some c => _ ← python (write_text minimal_path (dump_config c)); mret (r, Some minimal_path)
      end
  end.

(** ** Publishing *)

Definition artifact_of (path : string) : M ArtifactRef := λ m,
  match local_artifact cwd entry_size (disk m) path "application/json" true with
  | Ok a => (m, Ok a)
  | Err e => (m, Err (Raised (PyErr e)))
  end.

Definition timestamp : M string := λ m, let '(w, t) := now (env_ m) in (mkMachine (disk m) w, Ok t).

(** [_publish_reduction_result]: report, minimal configuration, points and note. *)
Definition publish_reduction_result (r : Reduce.ReduceResult) (minimal : option string) (input_path report_path : string)
    (oracle_argv : list string) : M (ArtifactRef * option ArtifactRef * list EssentialDelayPoint * string) :=
  t ← timestamp;
  _ ← python (write_text report_path (dump (generate_report t input_path (shlex_join oracle_argv) r minimal)));
  report ← artifact_of report_path;
  minimized ← match minimal with None => mret None | Some p => a ← artifact_of p; mret (Some a) end;
  let points := essential_point <$> Reduce.essential_points r in
  mret (report, minimized, points, if bool_decide (points = []) then NO_POINTS_NOTE else "")%string.

(** [_execute_reduction]. *)
Definition execute_reduction (sp : ExperimentSpec) (ro : ReduceOptions) (oracle : OracleSpec) (out_dir : string)
    (cutracer_so : option string) (timeout : Z) (active_version active_toolchain : string)
    (resolved_oracle_argv : option (list string)) (resolved_cwd : option string) (resolved_base_env : option (dict string string))
    : M (ArtifactRef * option ArtifactRef * list EssentialDelayPoint * string) :=
  _ ← python (step_or_raise os_step OSError);
  verified ← python (stage_verified_local_artifact ip_literal_ok cwd os_step write_file (artifact (ro_triggering_config ro))
                       (join out_dir "verified_triggering_config.json"));
  expected ← validate_reduce_input sp (va_path verified) active_version active_toolchain;
  '(rc, rt) ← lift_python (build_reduce_config sp ro oracle out_dir cutracer_so timeout expected resolved_oracle_argv resolved_cwd
                             resolved_base_env);
  '(r, minimal) ← run_reduction ro rc rt (va_path verified) (join out_dir "minimal_config.json");
  publish_reduction_result r minimal (va_path verified) (join out_dir "reduce_report.json") (default (Contracts.oracle_argv oracle) resolved_oracle_argv).

Definition NO_REPRODUCTION : string := "triggering config no longer reproduces under the pinned oracle".

(** The error of a failure. *)
Definition reduction_error (e : redexn) : string :=
  match e with Raised ConfigDoesNotTriggerError => NO_REPRODUCTION | _ => exn_text e end.

Definition reduce_provenance (sp : ExperimentSpec) (active_version active_toolchain : string) : ExecutionProvenance :=
  mkProvenance (source_revision (sp_unit sp)) (arch (sp_unit sp)) (kernel (sp_unit sp)) active_version active_toolchain.

Definition monotonic_clock : M float := λ m, let '(w, t) := clock (env_ m) in (mkMachine (disk m) w, Ok t).

(** The [try … except] of [run_reduce_experiment]: what was published, or how it failed. *)
Definition settle_reduction (run : M (ArtifactRef * option ArtifactRef * list EssentialDelayPoint * string))
    : M (option (ArtifactRef * option ArtifactRef * list EssentialDelayPoint * string) * ReduceOutcome * ExecutionStatus * option string) :=
  λ m,
  match run m with
  | (m, Ok p) => (m, Ok (Some p, Reduced, Succeeded, None))
  | (m, Err e) =>
      if reduction_handles e then (m, Ok (None, (classify_reduction_failure e).1, (classify_reduction_failure e).2, Some (reduction_error e)))
      else (m, Err e)
  end.

(** [run_reduce_experiment]. *)
Definition run_reduce_experiment (sp : ExperimentSpec) (out_dir active_version active_toolchain : string) (cutracer_so : option string)
    (timeout : Z) (resolved_oracle_argv : option (list string)) (resolved_cwd : option string)
    (resolved_base_env : option (dict string string)) : M ReduceExperimentResult :=
  if negb (bool_decide (sp_kind sp = REDUCE_DELAY_CONFIG)) then st_raise (Raised (PyErr ValueError))
  else
    match sp_reduction sp, Contracts.oracle (sp_unit sp) with
    | Some ro, Some oracle =>
        started ← monotonic_clock;
        '(((published, outcome), status), error) ← settle_reduction
          (execute_reduction sp ro oracle out_dir cutracer_so timeout active_version active_toolchain resolved_oracle_argv resolved_cwd
             resolved_base_env);
        ended ← monotonic_clock;
        let '(report, minimized, points, note) := match published with
          | Some (report, minimized, points, note) => (Some report, minimized, points, note)
          | None => (None, None, [], ""%string)
          end in
        mret (Experiments.mkReduceResult (sp_experiment_id sp) status outcome (reduce_provenance sp active_version active_toolchain)
                (ro_triggering_config ro) minimized report None points (f_sub ended started) error note)
    | _, _ => st_raise (Raised (PyErr ValueError))
    end.
End Reducing.
