(* ===== verification/ReduceExperimentProperties.v ===== *)
(** What the reductions guarantee (service/experiments/reduce.py): every result is one
    the session accepts, a reduced one rests on the verified bytes of the
    configuration it was given and on a reducer that ended, and the published
    configuration enables exactly the points that are essential. *)
From S2P Require Import Prelude.
From S2P Require Import PyStr.
From S2P Require Import PyDict.
From S2P Require Import PyText.
From S2P Require Import Sha256.
From S2P Require Import DelayConfig.
From S2P Require Import Replay.
From S2P Require Import Reduce.
From S2P Require Import Json.
From S2P Require Import Contracts.
From S2P Require Import Results.
From S2P Require Import Experiments.
From S2P Require Import SessionContracts.
From S2P Require Import SessionValidation.
From S2P Require Import Paths.
From S2P Require Import Artifacts.
From S2P Require Import TraceExperiment.
From S2P Require Import Hoare.
From S2P Require Import TraceExperimentProperties.
From S2P Require Import ReduceExperiment.
From Stdlib Require Import Ascii.
From Stdlib Require Import Floats.SpecFloat.
From Stdlib Require String.
Local Open Scope Z_scope.

(** ** What the session accepts *)

Definition accepted_reduction (sp : ExperimentSpec) (r : ReduceExperimentResult) : Prop :=
  validate_provenance sp (Experiments.ReduceResult r) = Ok () ∧ validate_reduce_result sp r = Ok ().

(** A configuration that equals itself when encoded: no NaN. *)
Definition comparable (c : TriggeringDelayConfig) : Prop := TriggeringDelayConfig_check c = Ok () ∧ enable_prob c ≠ S754_nan.

Lemma config_dict_eqb_refl c : comparable c → config_dict_eqb c c = true.
Proof.
  intros [Hc Hp]. unfold config_dict_eqb. rewrite !bool_decide_true by done. rewrite f_eq_refl by done. cbn [andb].
  rewrite f_eq_refl; [done|]. intros E. unfold TriggeringDelayConfig_check in Hc. rewrite E in Hc.
  destruct (_ || _) in Hc; done.
Qed.

(** What a failure is classified as is what the session expects of it. *)
Lemma classified e : (classify_reduction_failure e).1 ≠ Reduced
  ∧ ∃ l, reduce_expected_statuses (classify_reduction_failure e).1 = Some l ∧ (classify_reduction_failure e).2 ∈ l.
Proof.
  destruct e as [| |[x|o| |]]; cbn; try destruct x; try destruct o; cbn; try destruct (is_identity_code code); cbn;
    (split; [done|]); eexists; (split; [reflexivity|]); set_solver.
Qed.

Lemma reduction_provenance sp (r : ReduceExperimentResult) v tv :
  rr_provenance r = reduce_provenance sp v tv → validate_provenance sp (Experiments.ReduceResult r) = Ok ().
Proof.
  intros E. unfold validate_provenance. cbn [result_provenance]. rewrite E. cbn.
  rewrite !bool_decide_true by done. cbn. destruct (kernel (sp_unit sp)); [|done]. by rewrite !bool_decide_true.
Qed.

Lemma reduced_valid sp ro (r : ReduceExperimentResult) : sp_reduction sp = Some ro → comparable (ro_triggering_config ro) →
  input_config r = ro_triggering_config ro → rr_outcome r = Reduced → rr_execution_status r = Succeeded →
  is_some (rr_report r) = true → Experiments.rr_error r = None → validate_reduce_result sp r = Ok ().
Proof.
  intros Hsp Hc Hi Ho Hs Hr He. unfold validate_reduce_result, reduce_input_matches. cbv zeta. rewrite Hsp, Hi. cbn [assert_some mbind res_bind].
  rewrite config_dict_eqb_refl by done. cbn. rewrite bool_decide_true by done. by rewrite bool_decide_true, Hr, He.
Qed.

Lemma failed_valid sp ro (r : ReduceExperimentResult) e : sp_reduction sp = Some ro → comparable (ro_triggering_config ro) →
  input_config r = ro_triggering_config ro → rr_outcome r = (classify_reduction_failure e).1 →
  rr_execution_status r = (classify_reduction_failure e).2 →
  minimized_config r = None → rr_report r = None → Experiments.essential_points r = [] → essential_points_artifact r = None →
  validate_reduce_result sp r = Ok ().
Proof.
  intros Hsp Hc Hi Ho Hs Hm Hr Hp Ha. unfold validate_reduce_result, reduce_input_matches. cbv zeta. rewrite Hsp, Hi.
  cbn [assert_some mbind res_bind]. rewrite config_dict_eqb_refl by done. cbn.
  destruct (classified e) as [Hne (l & El & Hl)]. rewrite Ho, Hs, bool_decide_false by done. rewrite Hm, Hr, Hp, Ha. cbn.
  by rewrite El, bool_decide_true.
Qed.


(** A reducer that ends has saved its document. *)
Lemma reducer_saves {W} (ev : Config → Machine W → Machine W * res rexn bool) strategy reduce cfg n s s' r :
  reducer strategy = Some reduce → reduce ev cfg n true s = (s', Ok r) → output s' ≠ None.
Proof.
  unfold reducer. case_bool_decide; [|case_bool_decide; [|done]]; intros [= <-].
  - unfold reduce_delay_points. cbv zeta.
    intros (s1 & p & _ & (s2 & x & _ & (s3 & u & E3 & (s4 & v & E4 & E5)%st_bind_ok)%st_bind_ok)%st_bind_ok)%st_bind_ok.
    injection E3 as <- _. injection E4 as <- _. injection E5 as <- _. done.
  - unfold reduce_bisect. cbv zeta.
    intros (s1 & p & _ & (s2 & x & _ & (s3 & u & _ & (s4 & v & _ & (s5 & w & E5 & (s6 & y & E6 & E7)%st_bind_ok)%st_bind_ok)%st_bind_ok)%st_bind_ok)%st_bind_ok)%st_bind_ok.
    apply st_bind_ok in E5 as (s7 & m & _ & E8). injection E8 as <- _. injection E6 as <- _. injection E7 as <- _. done.
Qed.

Lemma reducer_ends {W} (ev : Config → Machine W → Machine W * res rexn bool) strategy reduce cfg n o s :
  (∀ c w, (ev c w).2 ≠ Err OutOfFuel) → reducer strategy = Some reduce → (reduce ev cfg n o s).2 ≠ Err OutOfFuel.
Proof.
  intros Ht. unfold reducer. case_bool_decide; [|case_bool_decide; [|done]]; intros [= <-]; [by apply total_linear|by apply total_bisect].
Qed.

(** ** Files of the output directory *)

Section Runs.
Context {W : Type}.
Variable loads : string → option json.
Variable load_config : string → option Config.
Variable dump_config : Config → string.
Variable dump : json → string.
Variable ip_literal_ok : list ascii → bool.
Variable cwd : string.
Variable entry_size : string → Z.
Variable os_step : W → W * bool.
Variable write_file : W → W * Writing.
Variable clock : W → W * float.
Variable now : W → W * string.
Variable replay : Replay.ReplayConfig → ReplayTarget → Config → Machine W → Machine W * replay_env.
Variable evaluator : option (Replay.ReplayConfig → ReplayTarget → Config → Machine W → Machine W * res rexn Replay.ReplayResult).
Variable runner_given : bool.
Variable exn_text : redexn → string.
Variable environ : dict string string.
Hypothesis cwd_abs : is_abs cwd = true.
Hypothesis evaluator_ends : ∀ f rc rt c m, evaluator = Some f → (f rc rt c m).2 ≠ Err OutOfFuel.

Notation M := (st (Machine W) redexn).
Notation evaluate := (evaluate replay evaluator).
Notation write_text := (write_text cwd write_file).
Notation artifact_of := (@artifact_of W cwd entry_size).
Notation read_text := (@read_text W cwd).

(** The file of the output directory with this name holds the text, and the artifact
    is the file's. *)
Definition held (out_dir : string) (d : Disk) (name text : string) (a : ArtifactRef) : Prop :=
  read_file d (file_of cwd out_dir name) = Some text ∧ declares a text
  ∧ relative_path a = name ∧ uri a = local_file_uri cwd (file_of cwd out_dir name).

Lemma evaluate_ends rc rt c m : (evaluate rc rt c m).2 ≠ Err OutOfFuel.
Proof.
  unfold ReduceExperiment.evaluate. destruct evaluator as [f|] eqn:Ef.
  - pose proof (evaluator_ends f rc rt c m eq_refl) as H. destruct (f rc rt c m) as [m' [r|e]]; [|cbn in *; congruence]. cbn.
    by destruct (Replay.outcome r).
  - destruct (replay rc rt c m) as [m' e]. cbn. by destruct (Replay.outcome (run_replay c rc e)).
Qed.

Lemma write_text_run path text m m' r : write_text path text m = (m', r) →
  match r with
  | Ok _ => disk m' = <[abspath cwd path := written_entry (disk m !! abspath cwd path) text]> (disk m)
            ∧ read_file (disk m') (abspath cwd path) = Some text
  | Err e => e = OSError
  end.
Proof.
  unfold ReduceExperiment.write_text. cbv zeta. destruct (disk m !! abspath cwd path) as [[t|t| |]|] eqn:Ed;
    try (intros [= <- <-]; done); destruct (write_file (env_ m)) as [w []]; intros [= <- <-]; try done; cbn;
    (split; [done|]); unfold read_file; by rewrite lookup_insert_eq.
Qed.

Lemma artifact_of_held out_dir name text (m m' : Machine W) r : good_name name → read_file (disk m) (file_of cwd out_dir name) = Some text →
  artifact_of (join out_dir name) m = (m', r) → m' = m ∧ ∃ a, r = Ok a ∧ held out_dir (disk m) name text a.
Proof.
  intros Hn Hr. unfold ReduceExperiment.artifact_of, local_artifact. cbv zeta. fold (file_of cwd out_dir name).
  assert (Hb : basename (file_of cwd out_dir name) = name) by by apply basename_abspath_join.
  pose proof Hr as Hr'. unfold read_file in Hr. destruct (disk m !! file_of cwd out_dir name) as [e|]; [|done]. cbn in Hr.
  assert (∃ t, entry_text e = Some t ∧ t = text) as (t & Et & ->) by (exists text; done).
  assert (∀ x : Machine W * res redexn ArtifactRef,
    x = (m, Ok (mkArtifactRef (local_file_uri cwd (file_of cwd out_dir name)) (basename (file_of cwd out_dir name))
              (Some (str (sha256_hexdigest (chars text)))) (Some (Z.of_nat (String.length text))) "application/json")) →
    x = (m', r) → m' = m ∧ ∃ a, r = Ok a ∧ held out_dir (disk m) name text a) as Hgo.
  { intros x -> [= <- <-]. split; [done|]. eexists. split; [done|]. split_and!; [done| |done|done].
    eexists. cbn. split_and!; [done| |done]. rewrite chars_str. apply digest_hex. }
  destruct e as [t|[t|]| |]; cbn in Et; try done; injection Et as ->; by apply Hgo.
Qed.

Lemma held_survives out_dir d name name' text a e : good_name name → good_name name' → name ≠ name' →
  held out_dir d name text a → held out_dir (<[file_of cwd out_dir name' := e]> d) name text a.
Proof.
  intros H1 H2 Hne (Hr & H). split; [|done]. unfold read_file in *. rewrite lookup_insert_ne; [done|].
  intros E. apply Hne. symmetry. by eapply file_of_inj.
Qed.

(** ** The input *)

(** The configuration was recorded with the active runtime, and for the unit's kernel
    when that is required. *)
Record same_runtime (sp : ExperimentSpec) (ro : ReduceOptions) (version toolchain : string) : Prop := {
  sr_version : cutracer_version (ro_triggering_config ro) = version ∧ runtime_identity_is_missing version = false;
  sr_toolchain : tc_toolchain_version (ro_triggering_config ro) = toolchain ∧ runtime_identity_is_missing toolchain = false;
  sr_kernel : require_kernel_identity ro = true → ∃ k c, kernel (sp_unit sp) = Some k ∧ tc_kernel (ro_triggering_config ro) = Some c
    ∧ KernelId_eqb c k = true ∧ blank (ki_name k) = false ∧ blank (cubin_hash k) = false
}.

(** What every replay must launch. *)
Definition expected_kernel (sp : ExperimentSpec) (ro : ReduceOptions) : option string * option string :=
  if require_kernel_identity ro then (ki_name <$> kernel (sp_unit sp), cubin_hash <$> kernel (sp_unit sp)) else (None, None).

(** The text is a delay configuration with points to remove, of the pinned kernel. *)
Record usable_input (sp : ExperimentSpec) (ro : ReduceOptions) (text : string) (cfg : Config) : Prop := {
  ui_config : load_config text = Some cfg;
  ui_points : enabled_points (load_mutator cfg) ≠ [];
  ui_checksum : require_kernel_identity ro = true → ∃ k document kernels, kernel (sp_unit sp) = Some k
    ∧ loads text = Some (JObj document) ∧ field document "kernels" = Some (JObj kernels)
    ∧ existsb (has_checksum (cubin_hash k)) kernels.*2 = true
}.

Lemma validated_runtime sp ro version toolchain :
  match validate_runtime_identity sp ro version toolchain with
  | Ok e => same_runtime sp ro version toolchain ∧ e = expected_kernel sp ro
  | Err e => e ≠ Raised OutOfFuel
  end.
Proof.
  unfold validate_runtime_identity, require_runtime_identity, expected_kernel. cbv zeta. cbn [existsb].
  destruct (runtime_identity_is_missing version) eqn:E1; [done|]. destruct (runtime_identity_is_missing toolchain) eqn:E2; [done|].
  cbn [orb mbind res_bind]. destruct (_ || _); [done|]. cbn [mbind res_bind].
  case_bool_decide as E3; [|done]. cbn [negb]. case_bool_decide as E4; [|done]. cbn [negb]. unfold resolve_expected_kernel_identity.
  destruct (require_kernel_identity ro) eqn:Er; cbn [negb]; [|split; [split; by rewrite ?Er|done]].
  destruct (kernel (sp_unit sp)) as [k|] eqn:Ek; [|done]. destruct (tc_kernel (ro_triggering_config ro)) as [c|] eqn:Ec; [|done].
  destruct (blank (ki_name k)) eqn:H1; [done|]. destruct (blank (cubin_hash k)) eqn:H2; [done|].
  destruct (blank (ki_name c)); [done|]. destruct (blank (cubin_hash c)); [done|]. destruct (KernelId_eqb c k) eqn:H3; [|done].
  split; [|done]. split; [done|done|]. intros _. exists k, c. by split_and!.
Qed.

Lemma read_text_run path text (m : Machine W) : read_file (disk m) (abspath cwd path) = Some text → read_text path m = (m, Ok text).
Proof. intros H. unfold ReduceExperiment.read_text. by rewrite H. Qed.

Lemma validate_input_run sp ro path version toolchain text (m m' : Machine W) r :
  sp_kind sp = REDUCE_DELAY_CONFIG → sp_reduction sp = Some ro → read_file (disk m) (abspath cwd path) = Some text →
  validate_reduce_input loads load_config cwd sp path version toolchain m = (m', r) →
  m' = m ∧ match r with
           | Ok e => same_runtime sp ro version toolchain ∧ e = expected_kernel sp ro ∧ ∃ cfg, usable_input sp ro text cfg
           | Err e => e ≠ Raised OutOfFuel
           end.
Proof.
  intros Hk Hr Ht. unfold validate_reduce_input. rewrite Hk, Hr. unfold mbind, st_bind, st_lift at 1.
  pose proof (validated_runtime sp ro version toolchain) as Hv.
  destruct (validate_runtime_identity sp ro version toolchain) as [e|e]; [|by intros [= <- <-]]. destruct Hv as [Hsame ->].
  assert (∃ x, validate_artifact_kernel_identity loads cwd sp ro path m = (m, x) ∧
    match x with
    | Ok _ => require_kernel_identity ro = true → ∃ k document kernels, kernel (sp_unit sp) = Some k
        ∧ loads text = Some (JObj document) ∧ field document "kernels" = Some (JObj kernels)
        ∧ existsb (has_checksum (cubin_hash k)) kernels.*2 = true
    | Err e => e ≠ Raised OutOfFuel
    end) as (x & -> & Hx).
  { unfold validate_artifact_kernel_identity. destruct (require_kernel_identity ro); cbn [negb]; [|by eexists].
    destruct (kernel (sp_unit sp)) as [k|]; [|by eexists]. unfold mbind, st_bind. rewrite (read_text_run _ text) by done.
    destruct (loads text) as [j|]; [|by eexists]. destruct j as [| | | | | |d]; try by eexists.
    destruct (field d "kernels") as [j|] eqn:Ef; [|by eexists]. destruct j as [| | | | | |ks]; try by eexists.
    destruct (existsb _ _) eqn:Ee; [|by eexists]. eexists. split; [done|]. intros _. exists k, d, ks. by split_and!. }
  destruct x as [[]|e]; [|by intros [= <- <-]]. unfold validate_reduction_input, mbind, st_bind. rewrite (read_text_run _ text) by done.
  destruct (load_config text) as [cfg|] eqn:El; [|by intros [= <- <-]]. case_bool_decide; [by intros [= <- <-]|].
  intros [= <- <-]. split; [done|]. split_and!; [done..|]. by exists cfg.
Qed.

(** ** A whole reduction *)

Notation published := (ArtifactRef * option ArtifactRef * list EssentialDelayPoint * string)%type.

(** What a reduced result rests on: the declared bytes, the reducer's run on them, and
    the two files it left. *)
Definition reduction_of (sp : ExperimentSpec) (ro : ReduceOptions) (out_dir version toolchain : string) (p : published) (d : Disk) : Prop :=
  same_runtime sp ro version toolchain
  ∧ ∃ text cfg reduce rc rt m0 s x c a report,
      declares (artifact (ro_triggering_config ro)) text ∧ usable_input sp ro text cfg
      ∧ (Replay.expected_kernel_name rc, Replay.expected_kernel_checksum rc) = expected_kernel sp ro
      ∧ reducer (ro_strategy ro) = Some reduce
      ∧ reduce (evaluate rc rt) cfg (confidence_runs ro) true (mkRState m0 ∅ 0 0 None) = (s, Ok x) ∧ output s = Some c
      ∧ p = (report, Some a, essential_point <$> Reduce.essential_points x,
             if bool_decide (Reduce.essential_points x = []) then NO_POINTS_NOTE else ""%string)
      ∧ held out_dir d "minimal_config.json" (dump_config c) a
      ∧ ∃ t argv, held out_dir d "reduce_report.json" (dump (generate_report t (file_of cwd out_dir "verified_triggering_config.json")
                    (shlex_join argv) x (Some (join out_dir "minimal_config.json")))) report.

Lemma wp_python {A} (c : st (Machine W) exn A) Q R m :
  (∀ m' r, c m = (m', r) → match r with Ok a => Q a m' | Err e => R (Raised (PyErr e)) m' end) → wp (python c) Q R m.
Proof. intros H. unfold wp, python. destruct (c m) as [m' [a|e]]; apply (H m' _ eq_refl). Qed.

Lemma wp_reduce_run {A} (c : M A) Q R m :
  (∀ m' r, c m = (m', r) → match r with Ok a => Q a m' | Err e => R e m' end) → wp c Q R m.
Proof. intros H. unfold wp. destruct (c m) as [m' [a|e]]; apply (H m' _ eq_refl). Qed.

Lemma wp_timestamp (Q : string → Machine W → Prop) R m : (∀ t m', disk m' = disk m → Q t m') → wp (timestamp now) Q R m.
Proof. intros H. unfold wp, timestamp. destruct (now (env_ m)) as [w t]. by apply H. Qed.

Lemma wp_write_text path text (Q : () → Machine W → Prop) (R : redexn → Machine W → Prop) m :
  (∀ e m', disk m' = <[abspath cwd path := e]> (disk m) → read_file (disk m') (abspath cwd path) = Some text → Q () m') →
  (∀ m', R (Raised (PyErr OSError)) m') → wp (python (write_text path text)) Q R m.
Proof.
  intros HQ HR. apply wp_python. intros m' r H. apply write_text_run in H. destruct r as [[]|e]; [|subst e; apply HR].
  destruct H as [H1 H2]. by eapply HQ.
Qed.

Lemma wp_artifact_of out_dir name text (Q : ArtifactRef → Machine W → Prop) R m :
  good_name name → read_file (disk m) (file_of cwd out_dir name) = Some text →
  (∀ a, held out_dir (disk m) name text a → Q a m) → wp (artifact_of (join out_dir name)) Q R m.
Proof.
  intros Hn Hr HQ. apply wp_reduce_run. intros m' r H. eapply artifact_of_held in H as [-> (a & -> & Ha)]; [|done|done]. by apply HQ.
Qed.

Lemma output_names : good_name "verified_triggering_config.json" ∧ good_name "minimal_config.json" ∧ good_name "reduce_report.json".
Proof. split_and!; (split_and!; [done..|]); apply (bool_decide_unpack _); vm_compute; exact I. Qed.

Lemma wp_run_reduction ro rc rt out_dir input text cfg m :
  read_file (disk m) (abspath cwd input) = Some text → load_config text = Some cfg →
  wp (run_reduction load_config dump_config cwd write_file replay evaluator ro rc rt input (join out_dir "minimal_config.json"))
    (λ v m', ∃ reduce m0 s x c, reducer (ro_strategy ro) = Some reduce
       ∧ reduce (evaluate rc rt) cfg (confidence_runs ro) true (mkRState m0 ∅ 0 0 None) = (s, Ok x) ∧ output s = Some c
       ∧ v = (x, Some (join out_dir "minimal_config.json"))
       ∧ read_file (disk m') (file_of cwd out_dir "minimal_config.json") = Some (dump_config c))
    (λ e _, e ≠ Raised OutOfFuel) m.
Proof.
  intros Ht Hl. unfold run_reduction. destruct (reducer (ro_strategy ro)) as [reduce|] eqn:Er; [|done].
  apply hoare_bind. unfold wp at 1. rewrite (read_text_run _ text) by done. rewrite Hl. apply hoare_bind. unfold lift_python. apply hoare_lift.
  apply hoare_bind, wp_reduce_run. intros m' r. unfold reduce_document.
  destruct (reduce (evaluate rc rt) cfg (confidence_runs ro) true (mkRState m ∅ 0 0 None)) as [s x] eqn:Ex. intros [= <- <-].
  destruct x as [x|e].
  - destruct (output s) as [c|] eqn:Ec; [|by eapply reducer_saves in Ex]. apply hoare_bind, wp_write_text; [|done].
    intros e m1 _ Hr. apply hoare_ret. exists reduce, m, s, x, c. by split_and!.
  - intros [= ->]. pose proof (reducer_ends (evaluate rc rt) _ reduce cfg (confidence_runs ro) true (mkRState m ∅ 0 0 None)
      (evaluate_ends rc rt) Er) as H. by rewrite Ex in H.
Qed.

Lemma wp_publish r out_dir c argv m :
  read_file (disk m) (file_of cwd out_dir "minimal_config.json") = Some c →
  wp (publish_reduction_result dump cwd entry_size write_file now r (Some (join out_dir "minimal_config.json"))
        (file_of cwd out_dir "verified_triggering_config.json") (join out_dir "reduce_report.json") argv)
    (λ p m', ∃ t report a,
       p = (report, Some a, essential_point <$> Reduce.essential_points r,
            if bool_decide (Reduce.essential_points r = []) then NO_POINTS_NOTE else ""%string)
       ∧ held out_dir (disk m') "minimal_config.json" c a
       ∧ held out_dir (disk m') "reduce_report.json" (dump (generate_report t (file_of cwd out_dir "verified_triggering_config.json")
           (shlex_join argv) r (Some (join out_dir "minimal_config.json")))) report)
    (λ e _, e ≠ Raised OutOfFuel) m.
Proof.
  destruct output_names as (_ & Hm & Hr). intros Hc. unfold publish_reduction_result.
  apply hoare_bind, wp_timestamp. intros t m1 D1. apply hoare_bind, wp_write_text; [|done]. intros e m2 D2 Hrep.
  apply hoare_bind. eapply wp_artifact_of; [done|exact Hrep|]. intros report Hreport.
  assert (read_file (disk m2) (file_of cwd out_dir "minimal_config.json") = Some c) as Hc2.
  { rewrite D2, D1. unfold read_file. rewrite lookup_insert_ne; [exact Hc|]. intros E. by apply (file_of_inj cwd out_dir cwd_abs) in E. }
  apply hoare_bind, hoare_bind. eapply wp_artifact_of; [done|exact Hc2|]. intros a Ha. apply hoare_ret, hoare_ret.
  exists t, report, a. split; [by destruct (Reduce.essential_points r)|exact (conj Ha Hreport)].
Qed.

Lemma wp_execute sp ro oracle out_dir cutracer_so timeout version toolchain argv dir base m :
  sp_kind sp = REDUCE_DELAY_CONFIG → sp_reduction sp = Some ro →
  wp (execute_reduction loads load_config dump_config dump ip_literal_ok cwd entry_size os_step write_file now replay evaluator
        runner_given environ sp ro oracle out_dir cutracer_so timeout version toolchain argv dir base)
    (λ p m', reduction_of sp ro out_dir version toolchain p (disk m')) (λ e _, e ≠ Raised OutOfFuel) m.
Proof.
  intros Hk Hro. unfold execute_reduction. apply hoare_bind, wp_python. intros m1 r1 H1. apply step_or_raise_run in H1 as [_ H1].
  destruct r1 as [[]|e]; [|done]. apply hoare_bind, wp_python. intros m2 r2 H2. apply stage_run in H2 as [_ H2].
  destruct r2 as [v|e]; [|done]. destruct H2 as (source & text & _ & _ & Hdec & D2 & ->). cbn [va_path].
  fold (file_of cwd out_dir "verified_triggering_config.json"). set (input := file_of cwd out_dir _).
  assert (read_file (disk m2) (abspath cwd input) = Some text) as Hin.
  { unfold input, file_of. rewrite abspath_idem by done. unfold read_file. by rewrite D2, lookup_insert_eq. }
  apply hoare_bind, wp_reduce_run. intros m3 r3 H3. eapply validate_input_run in H3 as [-> H3]; [|done..].
  destruct r3 as [expected|e]; [|done]. destruct H3 as (Hsame & -> & cfg & Hu).
  apply hoare_bind. unfold lift_python. apply hoare_lift. destruct (build_reduce_config _ _ _ _ _ _ _ _ _ _ _ _) as [[rc rt]|e] eqn:Eb; [|done].
  assert ((Replay.expected_kernel_name rc, Replay.expected_kernel_checksum rc) = expected_kernel sp ro) as Hexp.
  { revert Eb. unfold build_reduce_config. cbv zeta. destruct (replay_config_check _); [|done]. cbn [mbind res_bind].
    destruct (_ && _); [done|]. intros [= <- _]. cbn. by destruct (expected_kernel sp ro). }
  apply hoare_bind. eapply hoare_mono; [eapply wp_run_reduction; [exact Hin|apply Hu]| |done].
  intros v m4 (reduce & m0 & s & x & c & Er & Ex & Ec & -> & Hc). eapply hoare_mono; [by eapply wp_publish| |done].
  intros p m5 (t & report & a & -> & Ha & Hrep). split; [done|]. exists text, cfg, reduce, rc, rt, m0, s, x, c, a, report.
  refine (conj Hdec (conj Hu (conj Hexp (conj Er (conj Ex (conj Ec (conj eq_refl (conj Ha _)))))))). do 2 eexists. exact Hrep.
Qed.
End Runs.

(** ** The whole experiment *)

Section Experiment.
Context {W : Type}.
Variable loads : string → option json.
Variable load_config : string → option Config.
Variable dump_config : Config → string.
Variable dump : json → string.
Variable ip_literal_ok : list ascii → bool.
Variable cwd : string.
Variable entry_size : string → Z.
Variable os_step : W → W * bool.
Variable write_file : W → W * Writing.
Variable clock : W → W * float.
Variable now : W → W * string.
Variable replay : Replay.ReplayConfig → ReplayTarget → Config → Machine W → Machine W * replay_env.
Variable evaluator : option (Replay.ReplayConfig → ReplayTarget → Config → Machine W → Machine W * res rexn Replay.ReplayResult).
Variable runner_given : bool.
Variable exn_text : redexn → string.
Variable environ : dict string string.
Hypothesis cwd_abs : is_abs cwd = true.
Hypothesis evaluator_ends : ∀ f rc rt c m, evaluator = Some f → (f rc rt c m).2 ≠ Err OutOfFuel.

Notation run := (run_reduce_experiment loads load_config dump_config dump ip_literal_ok cwd entry_size os_step write_file clock now
  replay evaluator runner_given exn_text environ).
Notation reduction_of := (reduction_of loads load_config dump_config dump cwd replay evaluator).

Lemma wp_reduce_clock (Q : float → Machine W → Prop) R m : (∀ t m', disk m' = disk m → Q t m') → wp (monotonic_clock clock) Q R m.
Proof. intros H. unfold wp, monotonic_clock. destruct (clock (env_ m)) as [w t]. by apply H. Qed.

(** How a run is settled. *)
Lemma wp_settle (c : st (Machine W) redexn (ArtifactRef * option ArtifactRef * list EssentialDelayPoint * string)) Q R m : wp c Q R m →
  wp (settle_reduction exn_text c)
    (λ v m', (∃ p, v = (Some p, Reduced, Succeeded, None) ∧ Q p m')
             ∨ ∃ e, v = (None, (classify_reduction_failure e).1, (classify_reduction_failure e).2, Some (reduction_error exn_text e)))
    (λ e m', reduction_handles e = false ∧ R e m') m.
Proof.
  unfold wp, settle_reduction. destruct (c m) as [m' [p|e]]; [intros H; left; by exists p|].
  destruct (reduction_handles e) eqn:Eh; [|done]. intros _. right. by exists e.
Qed.

(** What the published files of a result are. *)
Definition reduced_from (sp : ExperimentSpec) (ro : ReduceOptions) (out_dir version toolchain : string) (r : ReduceExperimentResult)
    (d : Disk) : Prop :=
  match rr_report r with
  | Some report => reduction_of sp ro out_dir version toolchain (report, minimized_config r, Experiments.essential_points r, note r) d
  | None => False
  end.

(** A run, settled: [comparable] is needed for the session's comparison only. *)
Lemma wp_reduce_experiment sp ro oracle out_dir version toolchain cutracer_so timeout argv dir base m :
  sp_kind sp = REDUCE_DELAY_CONFIG → sp_reduction sp = Some ro → Contracts.oracle (sp_unit sp) = Some oracle →
  wp (run sp out_dir version toolchain cutracer_so timeout argv dir base)
    (λ r m', (comparable (ro_triggering_config ro) → accepted_reduction sp r)
             ∧ (rr_outcome r = Reduced → reduced_from sp ro out_dir version toolchain r (disk m')))
    (λ e _, reduction_handles e = false ∧ e ≠ Raised OutOfFuel) m.
Proof.
  intros Hk Hro Horacle. unfold run_reduce_experiment. rewrite Hro, Horacle, bool_decide_true by done. cbn [negb].
  apply hoare_bind, wp_reduce_clock. intros started m1 _. apply hoare_bind.
  eapply hoare_mono; [apply wp_settle, (wp_execute loads load_config dump_config dump ip_literal_ok cwd entry_size os_step write_file
      now replay evaluator runner_given environ cwd_abs evaluator_ends sp ro oracle _ _ _ version toolchain _ _ _ m1 Hk Hro)| |done].
  intros v m3 [(p & -> & Hp)|(e & ->)]; apply hoare_bind, wp_reduce_clock; intros ended m4 D4.
  - destruct p as [[[report minimized] points] nt]. apply hoare_ret. split; [intros Hc; split|].
    + by eapply reduction_provenance.
    + by apply (reduced_valid sp ro).
    + intros _. unfold reduced_from. cbn. rewrite D4. exact Hp.
  - apply hoare_ret. split; [intros Hc; split|].
    + by eapply reduction_provenance.
    + by apply (failed_valid sp ro _ e).
    + cbn. intros E. by destruct (classified e) as [? _].
Qed.

Lemma run_reduced sp ro oracle out_dir version toolchain cutracer_so timeout argv dir base m m' r :
  sp_reduction sp = Some ro → Contracts.oracle (sp_unit sp) = Some oracle →
  run sp out_dir version toolchain cutracer_so timeout argv dir base m = (m', Ok r) → rr_outcome r = Reduced →
  reduced_from sp ro out_dir version toolchain r (disk m').
Proof.
  intros Hro Horacle H. assert (sp_kind sp = REDUCE_DELAY_CONFIG) as Hk.
  { unfold run_reduce_experiment in H. destruct (decide (sp_kind sp = REDUCE_DELAY_CONFIG)); [done|]. by rewrite bool_decide_false in H. }
  eapply hoare_run in H; [|by apply (wp_reduce_experiment sp ro oracle)]. apply H.
Qed.

(** C5: Every reduction result is one the session accepts.  For any configuration
    without a NaN, whatever the replays, the evaluator and the file system do, the
    experiment ends: it returns a result, or raises an exception it does not handle,
    never for want of recursion.  A result it returns passes the session's checks,
    with every failure classified as the session expects; a reduced one was made by
    the active runtime the configuration was recorded with, for the pinned kernel
    when that is required, from exactly the bytes the configuration's artifact
    declares, which load to a document with enabled points (and the kernel's
    checksum); by a run of the chosen reducer on that document, whose replays must
    launch the pinned kernel; its points are the run's, and its two artifacts are
    on disk with the declared bytes, the document the run saved and the report. *)
Theorem reduce_results_accepted sp ro oracle out_dir version toolchain cutracer_so timeout argv dir base m m' x :
  sp_reduction sp = Some ro → Contracts.oracle (sp_unit sp) = Some oracle → comparable (ro_triggering_config ro) →
  run sp out_dir version toolchain cutracer_so timeout argv dir base m = (m', x) →
  match x with
  | Ok r => sp_kind sp = REDUCE_DELAY_CONFIG ∧ accepted_reduction sp r
            ∧ (rr_outcome r = Reduced → reduced_from sp ro out_dir version toolchain r (disk m'))
  | Err e => sp_kind sp ≠ REDUCE_DELAY_CONFIG ∨ reduction_handles e = false ∧ e ≠ Raised OutOfFuel
  end.
Proof.
  intros Hro Horacle Hc H. destruct (decide (sp_kind sp = REDUCE_DELAY_CONFIG)) as [Hk|Hk].
  - eapply hoare_run in H; [|by apply (wp_reduce_experiment sp ro oracle)]. destruct x as [r|e]; [|by right].
    destruct H as [H1 H2]. split_and!; [exact Hk|exact (H1 Hc)|exact H2].
  - unfold run_reduce_experiment in H. rewrite bool_decide_false in H by done. injection H as _ <-. by left.
Qed.

(** ** Composition: reduced means minimal *)

Lemma bisect_triggers (ev : Config → Machine W → Machine W * res rexn bool) race cfg n o s s' x :
  deterministic ev race → reduce_bisect ev cfg n o s = (s', Ok x) → race (enabled_ids cfg) = true ∧ enabled_ids cfg ≠ [].
Proof.
  intros Hdet. unfold reduce_bisect. cbv zeta. intros (s1 & p & E1 & _)%st_bind_ok. unfold validate_initial_config in E1. unfold enabled_ids.
  destruct (enabled_points (load_mutator cfg)) as [|q l] eqn:Ep; [done|]. split; [|done]. rewrite <- Ep.
  apply st_bind_ok in E1 as (s2 & path & E2 & E3). injection E2 as <- <-. apply st_bind_ok in E3 as (s3 & b & E4 & E5).
  unfold on_exception, candidate in E4. cbn [files world] in E4. rewrite lookup_insert_eq in E4.
  match type of E4 with context [ev ?c ?w] => destruct (Hdet c w) as [w' Hw] end. rewrite Hw in E4. injection E4 as <- <-.
  fold (enabled_ids (config (load_mutator cfg))) in E5 |- *. change (config (load_mutator cfg)) with cfg in E5.
  unfold enabled_ids in E5. by destruct (race _).
Qed.

(** With replays that depend only on which points are on, a configuration reduced by
    bisection is published with exactly the essential points on; together they
    still trigger the race, and no one of two or more can be left out. *)
Theorem reduced_by_bisection_is_minimal race sp ro oracle out_dir version toolchain cutracer_so timeout argv dir base m m' r :
  sp_reduction sp = Some ro → Contracts.oracle (sp_unit sp) = Some oracle → ro_strategy ro = "bisect"%string →
  (∀ rc rt, deterministic (evaluate replay evaluator rc rt) race) → (∀ text cfg, load_config text = Some cfg → config_wf cfg) →
  run sp out_dir version toolchain cutracer_so timeout argv dir base m = (m', Ok r) → rr_outcome r = Reduced →
  ∃ cfg points c a, Experiments.essential_points r = essential_point <$> points
    ∧ points `sublist_of` enabled_points (load_mutator cfg) ∧ race (pid <$> points) = true
    ∧ ((2 ≤ length points)%nat → ∀ i p, points !! i = Some p → race (pid <$> delete i points) = false)
    ∧ minimized_config r = Some a ∧ held cwd out_dir (disk m') "minimal_config.json" (dump_config c) a
    ∧ enabled_ids c = pid <$> points.
Proof.
  intros Hro Horacle Hs Hdet Hwf Hrun Hred.
  assert (reduced_from sp ro out_dir version toolchain r (disk m')) as Hfrom.
  { by eapply run_reduced. }
  unfold reduced_from in Hfrom. destruct (rr_report r) as [report|]; [|done].
  destruct Hfrom as (_ & text & cfg & reduce & rc & rt & m0 & s & x & c & a & rep & _ & Hu & _ & Er & Ex & Ec & Ep & Ha & _).
  injection Ep as _ Hm Hp _. rewrite Hs in Er. injection Er as <-.
  destruct (bisect_triggers _ race _ _ _ _ _ _ (Hdet rc rt) Ex) as [Ht Hne].
  destruct (bisect_det _ race (Hdet rc rt) cfg (confidence_runs ro) true (mkRState m0 ∅ 0 0 None) (Hwf _ _ (ui_config _ _ _ _ _ _ Hu)) Hne Ht)
    as (s' & y & Ey & _ & Hsub & Htr & Hmin & Hout).
  rewrite Ex in Ey. injection Ey as <- <-. destruct (Hout eq_refl) as (c' & Ec' & Hids). rewrite Ec in Ec'. injection Ec' as <-.
  exists cfg, (Reduce.essential_points x), c, a. refine (conj Hp (conj Hsub (conj Htr (conj Hmin (conj Hm (conj Ha Hids)))))).
Qed.
End Experiment.

(** ** A reduction that ends with two points, and three failures *)

Module DemoReduction.
Definition pinned : KernelId := mkKernelId "gemm" "c0ffee" (Some "_Z4gemm"%string).
Definition the_oracle : OracleSpec := mkOracle "o1" ["oracle"]%string [1].
Definition input : ArtifactRef :=
  mkArtifactRef "file:///w/t.json" "t.json" (Some (str (sha256_hexdigest (chars "CFG")))) (Some 3) "application/json".
Definition trigger (version : string) : TriggeringDelayConfig :=
  mkTriggering input "unit" ["prog"]%string the_oracle "abc" "sm_90" (Some pinned) 500 f_one None 0 1 1 f_one None version "12.8".
Definition options (version : string) : ReduceOptions := mkReduceOptions (trigger version) "bisect" 1 true.
Definition spec (version : string) : ExperimentSpec :=
  mkSpec "exp" "session" Followup REDUCE_DELAY_CONFIG
    (mkUnit "unit" ["prog"]%string "gemm" "test" "" "sm_90" "abc" (Some pinned) (Some the_oracle) [] []) 1 None None None None
    (Some (options version)).

Definition loads (t : string) : option json :=
  if bool_decide (t = "CFG"%string)
  then Some (JObj [("kernels", JObj [("k0", JObj [("kernel_checksum", JStr "c0ffee")])])]%string) else None.
Definition load_config (t : string) : option Config := if bool_decide (t = "CFG"%string) then Some demo_config else None.
Definition dump_config (c : Config) : string := join_names ((λ i : string * string, i.1 +:+ ":" +:+ i.2)%string <$> enabled_ids c).
Definition dump (_ : json) : string := "report".
Definition ready (w : ()) : () * bool := (w, true).
Definition written (w : ()) : () * Writing := (w, Written).
Definition still (w : ()) : () * float := (w, f_zero).
Definition now (w : ()) : () * string := (w, "2025-01-01"%string).
Definition no_size (_ : string) : Z := 0.
Definition message (_ : redexn) : string := "failed".

(** The process launches [checksum], and shows the race when both points are on. *)
Definition replay (race : list (string * string) → bool) (checksum : string) (_ : Replay.ReplayConfig) (_ : ReplayTarget) (cfg : Config)
    (m : Machine ()) : Machine () * replay_env :=
  (m, mkReplayEnv (Completed (if race (enabled_ids cfg) then 0 else 1) "" "") [] [mkEventFile "e" (Ok [LaunchEvent "gemm" checksum])] None).

Definition start : Machine () := mkMachine {["/w/t.json" := Regular "CFG"; "/o" := Directory]}%string ().
Notation run race checksum version := (run_reduce_experiment loads load_config dump_config dump (λ _, true) "/w" no_size ready written still now (replay race checksum) None false
    message [] (spec version) "/o" "1.0" "12.8" None 60 None None None start).

Definition verdict (x : Machine () * res redexn ReduceExperimentResult) :=
  match x.2 with
  | Ok r => Some (rr_execution_status r, rr_outcome r, ep_pc_offset <$> Experiments.essential_points r, Experiments.rr_error r)
  | Err _ => None
  end.

Example reduces : verdict (run demo_race "c0ffee" "1.0") = Some (Succeeded, Reduced, ["32"; "48"]%string, None).
Proof. vm_compute. reflexivity. Qed.

(** A race that is gone, another kernel, and another version of the tool. *)
Example fails :
  verdict (run (λ _, false) "c0ffee" "1.0") = Some (ExecFailed, NonReproducible, [], Some NO_REPRODUCTION)
  ∧ verdict (run demo_race "beef" "1.0") = Some (ExecFailed, ReduceStaleInput, [], Some "failed"%string)
  ∧ verdict (run demo_race "c0ffee" "0.9") = Some (ExecFailed, ReduceStaleInput, [], Some "failed"%string).
Proof. vm_compute. done. Qed.

Lemma trigger_comparable : comparable (ro_triggering_config (options "1.0")).
Proof. split; [vm_compute; reflexivity|discriminate]. Qed.

Lemma reduce_results_accepted_witness :
  ∃ m' r, run demo_race "c0ffee" "1.0" = (m', Ok r) ∧ rr_outcome r = Reduced ∧ accepted_reduction (spec "1.0") r
    ∧ reduced_from loads load_config dump_config dump "/w" (replay demo_race "c0ffee") None (spec "1.0") (options "1.0") "/o" "1.0" "12.8" r (disk m').
Proof.
  pose proof reduces as Hv. destruct (run demo_race "c0ffee" "1.0") as [m' [r|e]] eqn:E; [|discriminate Hv].
  injection Hv as _ Ho _ _. exists m', r. split; [reflexivity|]. split; [exact Ho|].
  destruct (reduce_results_accepted loads load_config dump_config dump (λ _, true) "/w" no_size ready written still now
    (replay demo_race "c0ffee") None false message [] eq_refl (λ f rc rt c m (H : None = Some f), False_ind _ (eq_ind None (λ o, match o with None => True | Some _ => False end) I (Some f) H))
    (spec "1.0") (options "1.0") the_oracle "/o" "1.0" "12.8" None 60 None None None start m' (Ok r)) as (_ & Ha & Hf).
  - reflexivity.
  - reflexivity.
  - exact trigger_comparable.
  - exact E.
  - split; [exact Ha|exact (Hf Ho)].
Defined.

(** The same reduction by an evaluator. *)
Definition evaluator (_ : Replay.ReplayConfig) (_ : ReplayTarget) (cfg : Config) (m : Machine ()) : Machine () * res rexn Replay.ReplayResult :=
  (m, Ok (mkReplayResult (if demo_race (enabled_ids cfg) then INTERESTING else NOT_INTERESTING) None "" "" None)).
Lemma evaluator_ends f rc rt c m : Some evaluator = Some f → (f rc rt c m).2 ≠ Err OutOfFuel.
Proof. by intros [= <-]. Qed.
Notation evaluated := (run_reduce_experiment loads load_config dump_config dump (λ _, true) "/w" no_size ready written still now (replay demo_race "c0ffee")
    (Some evaluator) false message [] (spec "1.0") "/o" "1.0" "12.8" None 60 None None None start).
Example evaluates : verdict evaluated = Some (Succeeded, Reduced, ["32"; "48"]%string, None).
Proof. vm_compute. reflexivity. Qed.

Lemma reduced_by_bisection_is_minimal_witness :
  ∃ points, demo_race (pid <$> points) = true
    ∧ ((2 ≤ length points)%nat → ∀ i p, points !! i = Some p → demo_race (pid <$> delete i points) = false).
Proof.
  pose proof evaluates as Hv. destruct evaluated as [m' [r|e]] eqn:E; [|discriminate Hv]. injection Hv as _ Ho _ _.
  destruct (reduced_by_bisection_is_minimal loads load_config dump_config dump (λ _, true) "/w" no_size ready written still now
    (replay demo_race "c0ffee") (Some evaluator) false message [] eq_refl evaluator_ends demo_race (spec "1.0") (options "1.0")
    the_oracle "/o" "1.0" "12.8" None 60 None None None start m' r eq_refl eq_refl eq_refl) as (cfg & points & c & a & _ & _ & H1 & H2 & _).
  - intros rc rt cfg m. exists m. unfold evaluate, evaluator. generalize (demo_race (enabled_ids cfg)). by intros [].
  - intros text cfg H. unfold load_config in H. case_bool_decide; [|done]. injection H as <-. exact demo_config_wf.
  - exact E.
  - exact Ho.
  - exists points. split; [exact H1|exact H2].
Defined.
End DemoReduction.
